(* ===== verification/_CoqProject ===== *)
-Q . S2P
Prelude.v
VMState.v
PageQueue.v
CachePages.v
PageAlloc.v
PageReclaim.v
Reservation.v
MemoryCommit.v
Depot.v
SlabChunks.v
SlabManager.v
ObjectCache.v
UserAddressSpace.v
SwapSpace.v
CacheEffects.v
AnonymousCache.v
SwapIO.v
CacheChain.v
PageMapping.v
AreaWiring.v
PageFault.v
KernelAddressSpace.v
CacheLock.v
LowResource.v
OomKiller.v
AddressSpaceRefs.v
AddressSpaceLocking.v
