(* ===== verification/Prelude.v ===== *)
(** * A verification of the virtual memory manager

    The program is the memory manager of a kernel (C++, derived from the one of
    Haiku).  From the bottom up it consists of

    - page frames: [struct page] (page.h), the page queues (mm_page_queue.h),
      the states of pages, page reservations with their waiters, allocation,
      reclaim and the global commitment of memory (page_alloc.cpp);
    - the slab allocator: areas, meta chunks and chunks (slab/mm_manager.cpp),
      object caches and the block allocator (slab/mm_allocator.cpp), and the
      per-processor magazines in front of them (slab/mm_depot.cpp);
    - VM caches (cache/mm_cache.cpp): page trees, the graph of sources and
      consumers, merging and deletion; anonymous caches with swap space
      (cache/mm_anonymous_cache.cpp);
    - address spaces (aspace/): the areas of a user address space, the ranges of
      the kernel address space, wired ranges of areas;
    - areas, mappings and page faults (mm.cpp, mm_mapper.cpp).

    ** Configuration

    CONFIG_DEBUG is on (the debug checks are panics of the model),
    CONFIG_MEMORY_HOTPLUG, CONFIG_KDEBUGGER and CONFIG_DEBUG_MEMALLOCATOR_CHECKS
    are off; the machine has 64-bit addresses and pages of 4096 bytes, and where
    a constant depends on the architecture it has the value of aarch64.
    [_CheckStructures] of the kernel address space, which only PARANOIA_CHECKS
    compiles, is modelled as the statement of what the ranges have to satisfy.

    ** How the code is modelled

    Objects are referred to by address; a store maps addresses to records, so
    two pointers to an object share it.  An operation is a function from state
    to [outcome] of result and state: [Ret x], [Panic] (a failed ASSERT, panic()
    or access through a bad pointer) or [NoFuel] (a loop ran out of the fuel of
    its model; theorems say that enough fuel gives a result).  Error codes are
    values.  Machine integers are [Z] with [wrap w] or [swrap w] where the code
    can leave the range.  What other threads do while a lock is dropped is an
    argument of the operation (a function on states, constrained in the
    theorems) or, for page reservations, cache locks, address space references
    and lockers, a step relation over interleaved threads.  Atomic accesses are
    sequentially consistent; where the code relies on less this matters for
    [no_lost_wakeup] (see [relaxed_wakeup_lost]).  Libraries that are not part of the repository (intrusive lists,
    the search tree of areas, radix bitmaps, disk transfers) are classes whose
    laws state what the code relies on; each has an instance, with which the
    witnesses of the theorems compute.

    ** Files

    - Prelude: machine integers, [outcome] and its notations, record update,
      tactics, lemmas on lists and maps.
    - VMState: [struct page], [VMCache], [VMPageQueue], [MemoryZone] and the
      state of pages, caches and queues; the class [DLList] of list operations.
    - PageQueue (mm_page_queue.h): the queue operations refine sequences.
    - CachePages (mm_cache.cpp): insertion, removal and moving of the pages of
      a cache keep tree, back references and counters consistent.
    - PageAlloc (page_alloc.cpp): states and queues of pages, single pages.
    - PageReclaim (page_alloc.cpp): cached pages are freed.
    - Reservation (page_alloc.cpp): reserving pages among any number of
      threads: accounting, every reserved page exists, no lost wake-up.
    - MemoryCommit (page_alloc.cpp): commitment of memory, OOM waiting time.
    - Depot (slab/mm_depot.cpp): magazines hand out every object once.
    - SlabChunks, SlabManager (slab/mm_manager.cpp): a meta chunk refines a set
      of free chunks; allocation and freeing keep the lists of meta chunks.
    - ObjectCache (slab/mm_allocator.cpp): slabs, objects, reserves, deletion.
    - UserAddressSpace (aspace/VMUserAddressSpace.cpp): placement, resizing,
      reservation and lookup of areas without overlap.
    - SwapSpace (mm_anonymous_cache.cpp): slots, swap space, commitments.
    - CacheEffects: lemmas on several page operations in a row.
    - AnonymousCache (mm_anonymous_cache.cpp): swap blocks, Merge.
    - SwapIO (mm_anonymous_cache.cpp): freeing, writing, reading swapped pages.
    - CacheChain (mm_cache.cpp): the graph of caches, Unlock, Delete.
    - PageMapping (mm.cpp, mm_mapper.cpp): mapping and unmapping of pages.
    - AreaWiring (aspace/VMArea.cpp, mm.cpp): wired ranges, waiting for them, and
      the table of areas.
    - PageFault (mm.cpp): page faults and copy on write.
    - KernelAddressSpace (aspace/VMKernelAddressSpace.cpp): ranges and free lists.
    - CacheLock (cache/vm_cache_lock.cpp): the lock of a cache, its waiters and
      the switch from another lock, as steps of interleaved threads.
    - LowResource (mm_resource.cpp): levels of resources, the list of handlers and
      the rounds of the low resource manager.
    - OomKiller (slab/mm_low_mem_framework.cpp): whom the out of memory killer kills.
    - AddressSpaceRefs (aspace/VMAddressSpace.cpp): the table of address spaces and
      their references, as steps of interleaved threads.
    - AddressSpaceLocking (aspace/mm_locking.cpp): lockers of one and of several
      address spaces.

    ** What the theorems show

    Where a theorem excludes inputs, its comment says which; most of them are
    inputs on which the code goes wrong, and a lemma shows that it does.

    - Reservation: [reservation_accounting] (invariant of all interleavings),
      [reserved_page_is_there] (an allocation out of a reservation never finds
      the queues empty), [no_lost_wakeup].
    - Slab: [allocate_chunks_correct], [free_chunk_correct] (memory is handed
      out once and found again), [alloc_object_correct], [free_object_correct],
      [depot_obtain_correct] and so on.
    - Address spaces: [insert_area_slot_correct] (whatever the address
      specification, the new area lies in the space and overlaps nothing);
      [kernel_insert_area_correct], [kernel_insert_remove], [kernel_finds_room]
      and [kernel_structures_checked] for the kernel; [no_waiter_stranded] and
      [wait_for_wired_correct] for wired ranges.
    - Cache locks: [cache_lock_exclusive] (one holder in every interleaving) and
      [cache_lock_served] (waiters get the lock in the order of the queue).
    - Address space life cycle: [address_space_lifetime] (no space is used after
      it was freed, and none without references is forgotten), with the references
      of threads, areas and the team.
    - Locking of address spaces: [add_area_cache_and_lock_correct] (all spaces that
      map a cache are locked, and nothing is kept on errors), [no_circular_wait].
    - Low memory: [low_resource_round_correct] and [low_resource_state_correct]
      for the manager, whatever others do while a handler runs;
      [oom_kill_selects] for the killer.
    - Mappings and faults: [map_unmap_roundtrip], [remove_all_mappings_correct];
      [fault_get_page_correct] (a fault shows what the chain of caches holds, and
      copies on write), [fault_errors], [fault_map_correct].
    - Caches: [merge_correct] and [merge_strategies_agree] (merging keeps what
      the consumer shows), [unlock_returns] (the mutually recursive Unlock and
      Delete terminate), [release_ref_keeps_view] (merging and deleting caches
      is invisible to the areas above), [swap_write_read].

    ** Bounds and fuel

    Loops over data take the size of the data as fuel, and the theorems hold
    for that fuel.  [Unlock] takes [(n + 4) * (e + 1)] rounds for a graph of
    height [n] and [e] waits for locks.  The retry loops of the slab manager and
    of the depot take as many rounds as other threads interfere; the theorems
    quantify over the interference.

    ** Not modelled

    Weak memory orders; the locks of the base library, statistics, the kernel debugger and boot-time
    set-up; page runs, the page writer and the page daemon; Resize, Rebase,
    Discard and Adopt of caches; creation and deletion of areas and the system
    calls of mm.cpp; the file cache (fs_cache.cpp) and the glue to the secure monitor
    (ree/), which mostly call other parts.  CacheChain assumes that
    no page of the caches is swapped out: merging swap blocks loses the count of
    used slots (see [merge_loses_used]), after which the code does not keep its
    own invariants. *)
From stdpp Require Import base tactics list list_numbers numbers gmap.
From Stdlib Require Import ZArith Lia.

#[global] Set Default Proof Using "Type".

(** ** Machine integers *)

Local Open Scope Z_scope.

(** An unsigned [w]-bit machine integer is a [Z] in [0, 2^w); arithmetic that
    can leave the range is followed by [wrap w]. *)
Definition wrap (w z : Z) : Z := z mod 2 ^ w.
Abbreviation u8 := (wrap 8).
Abbreviation u16 := (wrap 16).
Abbreviation u32 := (wrap 32).
Abbreviation u64 := (wrap 64).

(** Conversion of an integer to the signed [w]-bit type (two's complement). *)
Definition swrap (w z : Z) : Z := wrap w (z + 2 ^ (w - 1)) - 2 ^ (w - 1).
Abbreviation i32 := (swrap 32).

Definition fits (w z : Z) : Prop := 0 <= z < 2 ^ w.

Definition PAGE_SHIFT : Z := 12.
Definition PAGE_SIZE : Z := 4096.

(** [sys/param.h]: [rounddown], [roundup] for any [y > 0]; [roundup2] and
    [rounddown2] for powers of two, as bit operations on [uintptr_t]. *)
Definition rounddown (x y : Z) : Z := x / y * y.
Definition roundup (x y : Z) : Z := (x + (y - 1)) / y * y.
Definition roundup2 (x y : Z) : Z := Z.land (u64 (x + (y - 1))) (u64 (Z.lnot (y - 1))).
Definition rounddown2 (x y : Z) : Z := Z.land x (u64 (Z.lnot (y - 1))).

(** ** Results *)

(** [-errno] values the code returns; only their identity matters. *)
Inductive errno :=
  ENOMEM | EINVAL | EWOULDBLOCK | EFAULT | ENOENT | ESRCH | EBUSY | EIO | EPERM.
#[export] Instance errno_eq_dec : EqDecision errno.
Proof. solve_decision. Defined.

(** An [int] status: [0] or [-errno]. *)
Inductive status := Ok | Err (e : errno).
#[export] Instance status_eq_dec : EqDecision status.
Proof. solve_decision. Defined.

(** The outcome of a piece of kernel code: it returns, it stops in [panic()]
    or a failed [ASSERT], or (for loops translated with fuel) the fuel given
    was not enough. *)
Inductive outcome (A : Type) :=
  | Ret (a : A)
  | Panic
  | NoFuel.
Arguments Ret {A} a.
Arguments Panic {A}.
Arguments NoFuel {A}.

#[export] Instance outcome_ret : MRet outcome := fun A => Ret.
#[export] Instance outcome_bind : MBind outcome := fun A B k m =>
  match m with Ret a => k a | Panic => Panic | NoFuel => NoFuel end.

Definition assert (b : bool) : outcome unit := if b then Ret tt else Panic.

Definition deref {A} (o : option A) : outcome A :=
  match o with Some a => Ret a | None => Panic end.

(** ** Record update *)

(** [r <| f := v |>] is [r] with field [f] replaced; it needs one [Eta]
    instance per record, from which the setter of a field is computed. *)
Class Eta (R : Type) := eta : R -> R.
Class Setter {R F : Type} (proj : R -> F) := update : (F -> F) -> R -> R.
Arguments update {R F} proj {_} f r.

Ltac build_setter :=
  lazymatch goal with
  | |- @Setter ?R ?F ?p =>
      let body := constr:(fun (g : F -> F) (r : R) =>
        ltac:(let t := eval hnf in (@eta R _ r) in
              let h := eval pattern (p r) in t in
              lazymatch h with
              | ?G _ => let u := eval cbv beta in (G (g (p r))) in exact u
              end)) in
      exact body
  end.
#[export] Hint Extern 0 (Setter _) => build_setter : typeclass_instances.

Declare Scope mm_scope.
Delimit Scope mm_scope with mm.
Notation "r <| p := v |>" := (update p (fun _ => v) r)
  (at level 1, p at level 200, left associativity) : mm_scope.
Notation "r <| p ::= g |>" := (update p g r)
  (at level 1, p at level 200, left associativity) : mm_scope.
Open Scope mm_scope.

(** ** Automation *)

Create HintDb mm.

Ltac zlia := unfold PAGE_SIZE, PAGE_SHIFT in *; Z.div_mod_to_equations; lia.

(** Inverts the equations [m ≫= k = Ret x] and the tests on the way. *)
Ltac inv_outcome :=
  repeat match goal with
  | H : Ret _ = Ret _ |- _ => injection H as H; subst
  | H : Panic = Ret _ |- _ => discriminate H
  | H : NoFuel = Ret _ |- _ => discriminate H
  | H : mret _ = Ret _ |- _ => cbn in H
  | H : (mbind ?k ?m) = Ret _ |- _ =>
      let E := fresh "E" in
      destruct m eqn:E; cbn in H; [ | discriminate H | discriminate H]
  | H : (match ?b with _ => _ end) = Ret _ |- _ =>
      let E := fresh "E" in destruct b eqn:E; try discriminate H
  | H : (_, _) = (_, _) |- _ => injection H as H; subst
  end.

(** Reflects the boolean comparisons of hypotheses into propositions. *)
Ltac breflect :=
  repeat match goal with
  | H : (_ && _)%bool = true |- _ => apply andb_true_iff in H as [? ?]
  | H : (_ || _)%bool = false |- _ => apply orb_false_iff in H as [? ?]
  | H : negb _ = true |- _ => apply negb_true_iff in H
  | H : negb _ = false |- _ => apply negb_false_iff in H
  | H : (_ =? _) = true |- _ => apply Z.eqb_eq in H
  | H : (_ =? _) = false |- _ => apply Z.eqb_neq in H
  | H : (_ <? _) = true |- _ => apply Z.ltb_lt in H
  | H : (_ <? _) = false |- _ => apply Z.ltb_ge in H
  | H : (_ <=? _) = true |- _ => apply Z.leb_le in H
  | H : (_ <=? _) = false |- _ => apply Z.leb_gt in H
  | H : bool_decide _ = true |- _ => apply bool_decide_eq_true in H
  | H : bool_decide _ = false |- _ => apply bool_decide_eq_false in H
  end.

(** ** Integers *)

Lemma wrap_small w z : fits w z -> wrap w z = z.
Proof. intros H. apply Z.mod_small, H. Qed.

Lemma wrap_fits w z : 0 <= w -> fits w (wrap w z).
Proof. intros Hw. apply Z.mod_pos_bound. lia. Qed.

Lemma fits_64 z : fits 64 z <-> 0 <= z < 18446744073709551616.
Proof. done. Qed.
Lemma fits_32 z : fits 32 z <-> 0 <= z < 4294967296.
Proof. done. Qed.
Lemma fits_16 z : fits 16 z <-> 0 <= z < 65536.
Proof. done. Qed.

Lemma u64_eq z : u64 z = z mod 18446744073709551616.
Proof. done. Qed.
Lemma u32_eq z : u32 z = z mod 4294967296.
Proof. done. Qed.
Lemma u16_eq z : u16 z = z mod 65536.
Proof. done. Qed.

Lemma i32_small z : - 2147483648 <= z < 2147483648 -> i32 z = z.
Proof. intros H. unfold swrap, wrap. cbn. rewrite Z.mod_small; lia. Qed.

Create Rewrite HintDb wrap.
#[export] Hint Rewrite u64_eq u32_eq u16_eq : wrap.

(** Solves goals with machine arithmetic by exposing the moduli to [lia]. *)
Ltac mlia :=
  unfold fits in *; autorewrite with wrap in *;
  change (2 ^ 64) with 18446744073709551616 in *;
  change (2 ^ 32) with 4294967296 in *;
  change (2 ^ 16) with 65536 in *; zlia.

Lemma roundup_ge x y : 0 < y -> x <= roundup x y.
Proof. intros. unfold roundup. pose proof (Z.mod_pos_bound (x + (y-1)) y). pose proof (Z.div_mod (x + (y - 1)) y). lia. Qed.

Lemma roundup_lt x y : 0 < y -> roundup x y < x + y.
Proof. intros. unfold roundup. pose proof (Z.mod_pos_bound (x + (y-1)) y). pose proof (Z.div_mod (x + (y - 1)) y). lia. Qed.

Lemma roundup_divide x y : (y | roundup x y).
Proof. apply Z.divide_factor_r. Qed.

Lemma roundup_div x y : 0 < y -> roundup x y / y * y = roundup x y.
Proof. intros. unfold roundup. by rewrite Z.div_mul by lia. Qed.

(** Cutting [x] bytes off [k] blocks leaves as many blocks as cutting [x]
    rounded up. *)
Lemma div_sub_roundup k s x : 0 < s -> (k * s - x) / s = (k * s - roundup x s) / s.
Proof.
  intros Hs. pose proof (roundup_ge x s Hs). pose proof (roundup_lt x s Hs).
  unfold roundup in *. set (q := (x + (s - 1)) / s) in *.
  replace (k * s - q * s) with ((k - q) * s) by lia. rewrite Z.div_mul by lia.
  symmetry. apply (Z.div_unique _ _ _ (q * s - x)); lia.
Qed.

(** The mask [x & ~(2^k - 1)] clears the low [k] bits. *)
Lemma land_lnot_ones x k :
  0 <= k <= 64 -> fits 64 x -> Z.land x (u64 (Z.lnot (2 ^ k - 1))) = x / 2 ^ k * 2 ^ k.
Proof.
  intros Hk Hx. rewrite <- Z.shiftr_div_pow2, <- Z.shiftl_mul_pow2 by lia.
  unfold wrap. rewrite <- Z.land_ones by lia.
  replace (2 ^ k - 1) with (Z.ones k) by (rewrite Z.ones_equiv; lia).
  apply Z.bits_inj'. intros n Hn.
  rewrite Z.shiftl_spec, !Z.land_spec, Z.lnot_spec by lia.
  rewrite (Z.testbit_ones 64 n), (Z.testbit_ones k n) by lia.
  destruct (decide (n < k)).
  - rewrite (Z.testbit_neg_r _ (n - k)) by lia.
    replace (n <? k) with true by (symmetry; apply Z.ltb_lt; lia).
    replace (0 <=? n) with true by (symmetry; apply Z.leb_le; lia).
    cbn. by rewrite andb_false_r.
  - rewrite Z.shiftr_spec by lia. rewrite Z.sub_add.
    replace (n <? k) with false by (symmetry; apply Z.ltb_ge; lia).
    rewrite andb_false_r. cbn [negb andb].
    destruct (decide (n < 64)).
    + replace (n <? 64) with true by (symmetry; apply Z.ltb_lt; lia).
      replace (0 <=? n) with true by (symmetry; apply Z.leb_le; lia).
      by rewrite andb_true_r.
    + assert (Z.testbit x n = false) as ->.
      { destruct (decide (x = 0)) as [->|]; [apply Z.bits_0|].
        apply Z.bits_above_log2; [apply Hx|].
        apply Z.log2_lt_pow2; [destruct Hx; lia|].
        eapply Z.lt_le_trans; [apply Hx|]. apply Z.pow_le_mono_r; lia. }
      done.
Qed.

Lemma rounddown2_pow2 x k :
  0 <= k <= 64 -> fits 64 x -> rounddown2 x (2 ^ k) = x / 2 ^ k * 2 ^ k.
Proof. apply land_lnot_ones. Qed.

Lemma roundup2_pow2 x k :
  0 <= k <= 64 -> 0 <= x -> x + (2 ^ k - 1) < 2 ^ 64 ->
  roundup2 x (2 ^ k) = roundup x (2 ^ k).
Proof.
  intros Hk Hx Hov. unfold roundup2, roundup.
  assert (0 < 2 ^ k) by (apply Z.pow_pos_nonneg; lia).
  rewrite wrap_small by (split; lia). apply land_lnot_ones; [done|]. split; lia.
Qed.

(** ** Lists *)

Definition remove_elem {A} `{EqDecision A} (x : A) (l : list A) : list A :=
  filter (λ y, y ≠ x) l.

Section remove_elem.
Context {A : Type} `{EqDecision A}.
Implicit Types (x y : A) (l : list A).

Lemma elem_of_remove x y l : y ∈ remove_elem x l <-> y ≠ x ∧ y ∈ l.
Proof. unfold remove_elem. by rewrite list_elem_of_filter. Qed.

Lemma NoDup_remove_elem x l : NoDup l → NoDup (remove_elem x l).
Proof. apply NoDup_filter. Qed.

Lemma remove_elem_id x l : x ∉ l → remove_elem x l = l.
Proof.
  induction l as [|y l IH]; [done|].
  intros [Hne Hl]%not_elem_of_cons. unfold remove_elem in *.
  rewrite filter_cons_True by congruence. by rewrite IH.
Qed.

Lemma remove_elem_split x l1 l2 :
  NoDup (l1 ++ x :: l2) → remove_elem x (l1 ++ x :: l2) = l1 ++ l2.
Proof.
  intros (Hl1 & Hd & [Hx Hl2]%NoDup_cons)%NoDup_app. unfold remove_elem.
  rewrite filter_app, filter_cons_False by naive_solver.
  change (remove_elem x l1 ++ remove_elem x l2 = l1 ++ l2).
  rewrite !remove_elem_id; [done|done|]. intros ?. set_solver.
Qed.

Lemma remove_elem_Permutation x l :
  NoDup l → x ∈ l → l ≡ₚ x :: remove_elem x l.
Proof.
  intros Hnd (l1 & l2 & ->)%list_elem_of_split.
  rewrite remove_elem_split by done. symmetry. apply Permutation_middle.
Qed.

Lemma length_remove_elem x l :
  NoDup l → x ∈ l → length l = S (length (remove_elem x l)).
Proof. intros Hnd Hx. by rewrite (remove_elem_Permutation x l) at 1. Qed.
End remove_elem.

Lemma filter_ext_elem {A} (P Q : A → Prop) `{∀ x, Decision (P x), ∀ x, Decision (Q x)} (l : list A) :
  (∀ x, x ∈ l → P x ↔ Q x) → filter P l = filter Q l.
Proof.
  induction l as [|x l IH]; intros Hl; [done|].
  rewrite !filter_cons, IH by (intros; apply Hl; by right).
  pose proof (Hl x (list_elem_of_here x l)). destruct (decide (P x)), (decide (Q x)); tauto.
Qed.

(** ** Sums over finite maps *)

Definition msum `{Countable K} {A} (f : A → Z) (m : gmap K A) : Z :=
  map_fold (fun _ x acc => f x + acc) 0 m.

Section msum.
Context `{eqK : EqDecision K} `{countK : !Countable K} {A : Type}.
Implicit Types (f g : A → Z) (m : gmap K A).

Lemma msum_empty f : msum f (∅ : gmap K A) = 0.
Proof. apply map_fold_empty. Qed.

Lemma msum_insert f m i x : m !! i = None → msum f (<[i := x]> m) = f x + msum f m.
Proof. intros. unfold msum. rewrite map_fold_insert_L; [done| |done]. intros. lia. Qed.

Lemma msum_delete f m i x : m !! i = Some x → msum f (delete i m) = msum f m - f x.
Proof.
  intros H. rewrite <- (insert_delete_id m i x) at 2 by done.
  rewrite msum_insert by apply lookup_delete_eq. lia.
Qed.

Lemma msum_update f m i x y :
  m !! i = Some x → msum f (<[i := y]> m) = msum f m - f x + f y.
Proof.
  intros H. rewrite <- insert_delete_eq, msum_insert by apply lookup_delete_eq.
  rewrite (msum_delete f m i x) by done. lia.
Qed.

Lemma msum_mono f g m :
  (∀ i x, m !! i = Some x → f x <= g x) → msum f m <= msum g m.
Proof.
  induction m as [|i x m Hi IH] using map_ind; intros H; [by rewrite !msum_empty|].
  rewrite !msum_insert by done.
  assert (f x <= g x) by (apply (H i); apply lookup_insert_eq).
  assert (msum f m <= msum g m); [|lia].
  apply IH. intros j y Hj. apply (H j). rewrite lookup_insert_ne; congruence.
Qed.

Lemma msum_ext f g m :
  (∀ i x, m !! i = Some x → f x = g x) → msum f m = msum g m.
Proof.
  intros H. apply Z.le_antisymm; apply msum_mono; intros i x Hx; by rewrite (H i x Hx).
Qed.

Lemma msum_nonneg f m : (∀ i x, m !! i = Some x → 0 <= f x) → 0 <= msum f m.
Proof.
  intros H. etrans; [|by apply (msum_mono (fun _ => 0))].
  clear H. induction m as [|i x m Hi IH] using map_ind; [by rewrite msum_empty|].
  rewrite msum_insert by done. lia.
Qed.

Lemma msum_elem f m i x :
  (∀ i x, m !! i = Some x → 0 <= f x) → m !! i = Some x → f x <= msum f m.
Proof.
  intros H Hi. pose proof (msum_delete f m i x Hi).
  assert (0 <= msum f (delete i m)); [|lia]. apply msum_nonneg. intros j y [_ Hj]%lookup_delete_Some. eauto.
Qed.

(** An indicator sums to the number of entries it holds of. *)
Lemma msum_filter (P : A → Prop) `{∀ x, Decision (P x)} m :
  msum (fun x => if decide (P x) then 1 else 0) m = Z.of_nat (size (filter (fun kv => P kv.2) m)).
Proof.
  induction m as [|i x m Hi IH] using map_ind; [done|].
  rewrite msum_insert, IH by done. destruct (decide (P x)).
  - rewrite map_filter_insert_True, map_size_insert_None by (done || rewrite map_lookup_filter_None; auto).
    lia.
  - rewrite map_filter_insert_False, delete_id by done. lia.
Qed.
End msum.

(** The units of [time_t]. *)
Class TimeUnits := { SECONDS : Z → Z; MILLISECS : Z → Z }.

(** ** The kernel's doubly linked lists

    [lib/DoublyLinkedList.h] is not part of the repository.  The class states
    what its users rely on: the list is determined by the sequence its
    iterator yields, an element is only added while it is in no list, and only
    removed or used as a position while it is in this one. *)
Class DLList (A : Type) `{EqDecision A} := {
  dl : Type;
  dl_elems : dl → list A;
  dl_empty : dl;
  dl_Add : A → bool → dl → dl;
  dl_Remove : A → dl → dl;
  dl_RemoveHead : dl → option A * dl;
  dl_InsertAfter : A → A → dl → dl;
  dl_InsertBefore : option A → A → dl → dl;
  dl_MoveFrom : dl → dl → dl;
  dl_empty_elems : dl_elems dl_empty = [];
  dl_Add_elems x (tail : bool) l : x ∉ dl_elems l →
    dl_elems (dl_Add x tail l) = if tail then dl_elems l ++ [x] else x :: dl_elems l;
  dl_Remove_elems x l : NoDup (dl_elems l) → x ∈ dl_elems l →
    dl_elems (dl_Remove x l) = remove_elem x (dl_elems l);
  dl_RemoveHead_elems l :
    (dl_RemoveHead l).1 = head (dl_elems l) ∧
    dl_elems (dl_RemoveHead l).2 = tail (dl_elems l);
  dl_InsertAfter_elems p x l l1 l2 : dl_elems l = l1 ++ p :: l2 →
    NoDup (dl_elems l) → x ∉ dl_elems l →
    dl_elems (dl_InsertAfter p x l) = l1 ++ p :: x :: l2;
  dl_InsertBefore_None x l : x ∉ dl_elems l →
    dl_elems (dl_InsertBefore None x l) = dl_elems l ++ [x];
  dl_InsertBefore_Some p x l l1 l2 : dl_elems l = l1 ++ p :: l2 →
    NoDup (dl_elems l) → x ∉ dl_elems l →
    dl_elems (dl_InsertBefore (Some p) x l) = l1 ++ x :: p :: l2;
  dl_MoveFrom_elems l l' : (∀ x, x ∈ dl_elems l → x ∉ dl_elems l') →
    dl_elems (dl_MoveFrom l l') = dl_elems l ++ dl_elems l';
}.
Arguments dl A {_ _}.

(** Plain lists are such a list. *)
Fixpoint list_insert_after {A} `{EqDecision A} (p x : A) (l : list A) : list A :=
  match l with
  | [] => []
  | y :: l => if decide (y = p) then y :: x :: l else y :: list_insert_after p x l
  end.

Fixpoint list_insert_before {A} `{EqDecision A} (p x : A) (l : list A) : list A :=
  match l with
  | [] => []
  | y :: l => if decide (y = p) then x :: y :: l else y :: list_insert_before p x l
  end.

Lemma list_insert_after_split {A} `{EqDecision A} (p x : A) l1 l2 :
  NoDup (l1 ++ p :: l2) →
  list_insert_after p x (l1 ++ p :: l2) = l1 ++ p :: x :: l2.
Proof.
  induction l1 as [|y l1 IH]; cbn.
  - by rewrite decide_True.
  - intros [Hy ?]%NoDup_cons. rewrite decide_False by set_solver. by rewrite IH.
Qed.

Lemma list_insert_before_split {A} `{EqDecision A} (p x : A) l1 l2 :
  NoDup (l1 ++ p :: l2) →
  list_insert_before p x (l1 ++ p :: l2) = l1 ++ x :: p :: l2.
Proof.
  induction l1 as [|y l1 IH]; cbn.
  - by rewrite decide_True.
  - intros [Hy ?]%NoDup_cons. rewrite decide_False by set_solver. by rewrite IH.
Qed.

#[export] Program Instance list_DLList {A} `{EqDecision A} : DLList A := {|
  dl := list A;
  dl_elems l := l;
  dl_empty := [];
  dl_Add x tail l := if tail then l ++ [x] else x :: l;
  dl_Remove := remove_elem;
  dl_RemoveHead l := (head l, tail l);
  dl_InsertAfter := list_insert_after;
  dl_InsertBefore p x l :=
    match p with Some p => list_insert_before p x l | None => l ++ [x] end;
  dl_MoveFrom l l' := l ++ l';
|}.
Solve All Obligations with
  (cbn; intros; subst; auto using list_insert_after_split, list_insert_before_split).
