(* ===== verification/VMState.v ===== *)
(** The data shared by the page queues, the page allocator and the VM caches:
    [struct page] and [VMCacheRef] of page.h, [struct VMCache] of mm_cache.h,
    [VMPageQueue] of mm_page_queue.h, and [MemoryZone] with the file-scope
    variables of page_alloc.cpp.

    Objects are referred to by their addresses (type [Z]); the stores
    [pages], [caches] and [cacherefs] map an address to the object, so that an
    object reached through two pointers is the same object. *)
From S2P Require Import Prelude.
From stdpp Require Import base list list_numbers numbers gmap sorting.
From Stdlib Require Import ZArith Lia.
Local Open Scope Z_scope.

(** ** page.h: page states *)

Inductive page_state :=
  | PAGE_STATE_ACTIVE | PAGE_STATE_INACTIVE | PAGE_STATE_MODIFIED
  | PAGE_STATE_CACHED | PAGE_STATE_FREE | PAGE_STATE_CLEAR
  | PAGE_STATE_WIRED | PAGE_STATE_UNUSED.
#[export] Instance page_state_eq_dec : EqDecision page_state.
Proof. solve_decision. Defined.

(** The numeric values of the enumerators; three bits hold all of them. *)
Definition page_state_code (s : page_state) : Z :=
  match s with
  | PAGE_STATE_ACTIVE => 0 | PAGE_STATE_INACTIVE => 1 | PAGE_STATE_MODIFIED => 2
  | PAGE_STATE_CACHED => 3 | PAGE_STATE_FREE => 4 | PAGE_STATE_CLEAR => 5
  | PAGE_STATE_WIRED => 6 | PAGE_STATE_UNUSED => 7
  end.

Definition page_state_of_code (z : Z) : page_state :=
  match z with
  | 0 => PAGE_STATE_ACTIVE | 1 => PAGE_STATE_INACTIVE | 2 => PAGE_STATE_MODIFIED
  | 3 => PAGE_STATE_CACHED | 4 => PAGE_STATE_FREE | 5 => PAGE_STATE_CLEAR
  | 6 => PAGE_STATE_WIRED | _ => PAGE_STATE_UNUSED
  end.

Definition VM_PAGE_ALLOC_STATE : Z := 7.
Definition VM_PAGE_ALLOC_CLEAR : Z := 8.
Definition VM_PAGE_ALLOC_BUSY : Z := 16.

(** The six page queues of page_alloc.cpp (their addresses). *)
Inductive queue_id := QActive | QInactive | QModified | QCached | QFree | QClear.
#[export] Instance queue_id_eq_dec : EqDecision queue_id.
Proof. solve_decision. Defined.

(** ** page.h: [struct page]

    [mappings] holds the [vm_page_mapping] objects of the page and [queue] the
    CONFIG_DEBUG back pointer to the queue the page is in. *)
Record page := mkPage {
  pfn : Z;
  state : page_state;
  busy : bool;
  busy_writing : bool;
  modified : bool;
  accessed : bool;
  usage_count : Z;
  wired_count : Z;
  tag : Z;
  cache_offset : Z;
  cache_ref : option Z;
  mappings : list Z;
  queue : option queue_id
}.
#[export] Instance eta_page : Eta page := fun p =>
  mkPage (pfn p) (state p) (busy p) (busy_writing p) (modified p) (accessed p)
    (usage_count p) (wired_count p) (tag p) (cache_offset p) (cache_ref p)
    (mappings p) (queue p).

(** [page::IsMapped]. *)
Definition IsMapped (p : page) : bool :=
  (0 <? wired_count p) || negb (bool_decide (mappings p = [])).

(** [page::Init]; the fields it does not assign keep the (zero-initialised)
    values of [p]. *)
Definition page_Init (pageNumber : Z) (p : page) : page :=
  p <| pfn := pageNumber |> <| state := PAGE_STATE_FREE |> <| mappings := [] |>
    <| wired_count := 0 |> <| usage_count := 0 |> <| tag := 65535 |>
    <| busy_writing := false |> <| cache_ref := None |> <| queue := None |>.

(** A page structure in zero-initialised memory. *)
Definition page_zero : page :=
  mkPage 0 PAGE_STATE_ACTIVE false false false false 0 0 0 0 None [] None.

(** ** mm_cache.h: [struct VMCache]

    [cpages] is the splay tree of the cache's pages (cache offset to page),
    [consumers] and [areas] its intrusive lists.  The lock, the event waiters
    and the debugging fields of the structure are left out. *)
Inductive cache_type :=
  | CACHE_TYPE_RAM | CACHE_TYPE_VNODE | CACHE_TYPE_NULL | CACHE_TYPE_DEVICE
  | CACHE_TYPE_NONSECURE | CACHE_TYPE_NONSECURE_DEVICE | CACHE_TYPE_PFNMAP
  | CACHE_TYPE_NONSECURE_PFNMAP.
#[export] Instance cache_type_eq_dec : EqDecision cache_type.
Proof. solve_decision. Defined.

Record VMCache := mkVMCache {
  consumers : list Z;
  areas : list Z;
  cpages : gmap Z Z;
  source : option Z;
  virtual_base : Z;
  virtual_end : Z;
  virtual_last_page : Z;
  committed_size : Z;
  page_count : Z;
  temporary : bool;
  mergeable : bool;
  ctype : cache_type;
  ref_count : Z;
  self_ref : Z;
  wired_pages_count : Z
}.
#[export] Instance eta_VMCache : Eta VMCache := fun c =>
  mkVMCache (consumers c) (areas c) (cpages c) (source c) (virtual_base c)
    (virtual_end c) (virtual_last_page c) (committed_size c) (page_count c)
    (temporary c) (mergeable c) (ctype c) (ref_count c) (self_ref c)
    (wired_pages_count c).

(** ** mm_page_queue.h: [struct VMPageQueue] *)
Section queue.
Context {DL : DLList Z}.

Record VMPageQueue := mkQueue { fCount : Z; fPages : dl Z }.
#[global] Instance eta_VMPageQueue : Eta VMPageQueue := fun q =>
  mkQueue (fCount q) (fPages q).

(** ** page_alloc.cpp: reservation waiters and the memory zone *)
Record PageReservationWaiter := mkWaiter {
  dontTouch : Z;
  missing : Z;
  threadPriority : Z;
  wthread : Z
}.
#[global] Instance eta_PageReservationWaiter : Eta PageReservationWaiter := fun w =>
  mkWaiter (dontTouch w) (missing w) (threadPriority w) (wthread w).

Record MemoryZone := mkZone {
  fFreePageQueue : VMPageQueue;
  fClearPageQueue : VMPageQueue;
  fCachedPageQueue : VMPageQueue;
  fUnreservedFreePages : Z;
  fUnsatisfiedPageReservations : Z;
  fTotalPages : Z;
  fFreePagesTarget : Z;
  fFreeOrCachedPagesTarget : Z;
  fInactivePagesTarget : Z;
  fPageReservationWaiters : list PageReservationWaiter
}.
#[global] Instance eta_MemoryZone : Eta MemoryZone := fun z =>
  mkZone (fFreePageQueue z) (fClearPageQueue z) (fCachedPageQueue z)
    (fUnreservedFreePages z) (fUnsatisfiedPageReservations z) (fTotalPages z)
    (fFreePagesTarget z) (fFreeOrCachedPagesTarget z) (fInactivePagesTarget z)
    (fPageReservationWaiters z).

Record vmstate := mkVM {
  pages : gmap Z page;
  caches : gmap Z VMCache;
  cacherefs : gmap Z Z;
  sActivePageQueue : VMPageQueue;
  sInactivePageQueue : VMPageQueue;
  sModifiedPageQueue : VMPageQueue;
  sMemoryZone : MemoryZone;
  sModifiedTemporaryPages : Z
}.
#[global] Instance eta_vmstate : Eta vmstate := fun s =>
  mkVM (pages s) (caches s) (cacherefs s) (sActivePageQueue s)
    (sInactivePageQueue s) (sModifiedPageQueue s) (sMemoryZone s)
    (sModifiedTemporaryPages s).

(** Access to a queue through its address. *)
Definition get_queue (i : queue_id) (s : vmstate) : VMPageQueue :=
  match i with
  | QActive => sActivePageQueue s
  | QInactive => sInactivePageQueue s
  | QModified => sModifiedPageQueue s
  | QCached => fCachedPageQueue (sMemoryZone s)
  | QFree => fFreePageQueue (sMemoryZone s)
  | QClear => fClearPageQueue (sMemoryZone s)
  end.

Definition set_queue (i : queue_id) (q : VMPageQueue) (s : vmstate) : vmstate :=
  match i with
  | QActive => s <| sActivePageQueue := q |>
  | QInactive => s <| sInactivePageQueue := q |>
  | QModified => s <| sModifiedPageQueue := q |>
  | QCached => s <| sMemoryZone ::= fun z => z <| fCachedPageQueue := q |> |>
  | QFree => s <| sMemoryZone ::= fun z => z <| fFreePageQueue := q |> |>
  | QClear => s <| sMemoryZone ::= fun z => z <| fClearPageQueue := q |> |>
  end.

(** [page::Cache()]: the cache a page belongs to, through its [VMCacheRef]. *)
Definition page_Cache (s : vmstate) (p : page) : option Z :=
  r ← cache_ref p; cacherefs s !! r.

Definition upd_page (a : Z) (f : page → page) (s : vmstate) : vmstate :=
  s <| pages ::= alter f a |>.

Definition upd_cache (c : Z) (f : VMCache → VMCache) (s : vmstate) : vmstate :=
  s <| caches ::= alter f c |>.

(** A queue as its default member initialisers leave it, and the state
    before the page allocator has run: the given pages, empty queues. *)
Definition queue_init : VMPageQueue := mkQueue 0 dl_empty.

Definition zone_init : MemoryZone :=
  mkZone queue_init queue_init queue_init 0 0 0 0 0 0 [].

Definition vm_boot (ps : gmap Z page) : vmstate :=
  mkVM ps ∅ ∅ queue_init queue_init queue_init zone_init 0.
End queue.


Lemma page_state_code_roundtrip s : page_state_of_code (page_state_code s) = s.
Proof. by destruct s. Qed.
