(* ===== verification/PageQueue.v ===== *)
(** mm_page_queue.h: the operations of [VMPageQueue], with the CONFIG_DEBUG
    checks of the [page::queue] back pointer as panics.

    [queues_ok] is the representation invariant of the six page queues; every
    operation preserves it, never fires a debug check on a page that is where
    the caller says it is, and acts on the sequence of the queue it names
    ([qelems]) as the corresponding operation on sequences, leaving every
    other queue and every other page alone ([queue_step]). *)
From S2P Require Import Prelude VMState.
From stdpp Require Import base list list_numbers numbers gmap.
From Stdlib Require Import ZArith Lia.
Local Open Scope Z_scope.

Section ops.
Context {DL : DLList Z}.
Implicit Types (s : vmstate) (p : Z) (i : queue_id).

Definition qelems i s : list Z := dl_elems (fPages (get_queue i s)).

(** ** Operations *)

Definition Append (this : queue_id) (p : Z) (s : vmstate) : outcome vmstate :=
  pg ← deref (pages s !! p);
  _ ← assert (bool_decide (queue pg = None));
  let q := get_queue this s in
  let q := q <| fPages := dl_Add p true (fPages q) |> <| fCount := u64 (fCount q + 1) |> in
  Ret (set_queue this q (upd_page p (fun pg => pg <| queue := Some this |>) s)).

Definition Prepend (this : queue_id) (p : Z) (s : vmstate) : outcome vmstate :=
  pg ← deref (pages s !! p);
  _ ← assert (bool_decide (queue pg = None));
  let q := get_queue this s in
  let q := q <| fPages := dl_Add p false (fPages q) |> <| fCount := u64 (fCount q + 1) |> in
  Ret (set_queue this q (upd_page p (fun pg => pg <| queue := Some this |>) s)).

Definition InsertAfter (this : queue_id) (after p : Z) (s : vmstate) : outcome vmstate :=
  pg ← deref (pages s !! p);
  _ ← assert (bool_decide (queue pg = None));
  let q := get_queue this s in
  let q := q <| fPages := dl_InsertAfter after p (fPages q) |>
             <| fCount := u64 (fCount q + 1) |> in
  Ret (set_queue this q (upd_page p (fun pg => pg <| queue := Some this |>) s)).

Definition Remove (this : queue_id) (p : Z) (s : vmstate) : outcome vmstate :=
  pg ← deref (pages s !! p);
  _ ← assert (bool_decide (queue pg = Some this));
  let q := get_queue this s in
  let q := q <| fPages := dl_Remove p (fPages q) |> <| fCount := u64 (fCount q - 1) |> in
  Ret (set_queue this q (upd_page p (fun pg => pg <| queue := None |>) s)).

Definition RemoveHead (this : queue_id) (s : vmstate) : outcome (option Z * vmstate) :=
  let q := get_queue this s in
  match dl_RemoveHead (fPages q) with
  | (None, l) => Ret (None, set_queue this (q <| fPages := l |>) s)
  | (Some p, l) =>
      pg ← deref (pages s !! p);
      _ ← assert (bool_decide (queue pg = Some this));
      let q := q <| fPages := l |> <| fCount := u64 (fCount q - 1) |> in
      Ret (Some p, set_queue this q (upd_page p (fun pg => pg <| queue := None |>) s))
  end.

Definition Requeue (this : queue_id) (p : Z) (tail : bool) (s : vmstate) : outcome vmstate :=
  pg ← deref (pages s !! p);
  _ ← assert (bool_decide (queue pg = Some this));
  let q := get_queue this s in
  Ret (set_queue this (q <| fPages := dl_Add p tail (dl_Remove p (fPages q)) |>) s).

(** The loop of the list variant of [AppendUnlocked] that claims the pages. *)
Fixpoint claim_pages (this : queue_id) (l : list Z) (s : vmstate) : outcome vmstate :=
  match l with
  | [] => Ret s
  | p :: l =>
      pg ← deref (pages s !! p);
      _ ← assert (bool_decide (queue pg = None));
      claim_pages this l (upd_page p (fun pg => pg <| queue := Some this |>) s)
  end.

Definition AppendUnlockedList (this : queue_id) (l : dl Z) (count : Z) (s : vmstate)
  : outcome vmstate :=
  s ← claim_pages this (dl_elems l) s;
  let q := get_queue this s in
  Ret (set_queue this (q <| fPages := dl_MoveFrom (fPages q) l |>
                         <| fCount := u64 (fCount q + u32 count) |>) s).

(** The [*Unlocked] variants run the locked ones inside the queue's spin
    lock, that is, as one atomic step. *)
Definition AppendUnlocked := Append.
Definition PrependUnlocked := Prepend.
Definition RemoveUnlocked := Remove.
Definition RemoveHeadUnlocked := RemoveHead.
Definition RequeueUnlocked := Requeue.

Definition Head (this : queue_id) (s : vmstate) : option Z := head (qelems this s).
Definition Tail (this : queue_id) (s : vmstate) : option Z := last (qelems this s).

Fixpoint list_next (p : Z) (l : list Z) : option Z :=
  match l with
  | [] => None
  | x :: l => if decide (x = p) then head l else list_next p l
  end.

Definition Next (this : queue_id) (p : Z) (s : vmstate) : option Z :=
  list_next p (qelems this s).
Definition Previous (this : queue_id) (p : Z) (s : vmstate) : option Z :=
  list_next p (reverse (qelems this s)).

(** ** The invariant and the effect of an operation *)

Definition queue_ok i s : Prop :=
  NoDup (qelems i s) ∧
  fCount (get_queue i s) = Z.of_nat (length (qelems i s)) ∧
  ∀ p, p ∈ qelems i s ↔ ∃ pg, pages s !! p = Some pg ∧ queue pg = Some i.

Definition queues_ok s : Prop :=
  Z.of_nat (size (pages s)) < 2 ^ 64 ∧ ∀ i, queue_ok i s.

(** [s'] is [s] with the sequence of queue [i] replaced by [l] and the back
    pointer of page [p] by [v]. *)
Definition queue_step i (l : list Z) p (v : option queue_id) s s' : Prop :=
  qelems i s' = l ∧
  s' = set_queue i (get_queue i s') (upd_page p (fun pg => pg <| queue := v |>) s).

(** ** Lemmas *)

Lemma get_set_queue i q s : get_queue i (set_queue i q s) = q.
Proof. by destruct i. Qed.

Lemma get_set_queue_ne i j q s : i ≠ j → get_queue j (set_queue i q s) = get_queue j s.
Proof. by destruct i, j. Qed.

Lemma get_queue_upd_page i p f s : get_queue i (upd_page p f s) = get_queue i s.
Proof. by destruct i. Qed.

Lemma pages_set_queue i q s : pages (set_queue i q s) = pages s.
Proof. by destruct i. Qed.

Lemma pages_upd_page p f s : pages (upd_page p f s) = alter f p (pages s).
Proof. done. Qed.

Lemma set_set_queue i q q' s : set_queue i q (set_queue i q' s) = set_queue i q s.
Proof. by destruct i. Qed.

Lemma set_get_queue i s : set_queue i (get_queue i s) s = s.
Proof. by destruct i, s as [? ? ? ? ? ? [] ?]. Qed.

Lemma lookup_alter_queue p p' v (m : gmap Z page) pg' :
  alter (fun pg => pg <| queue := v |>) p m !! p' = Some pg' ↔
  (p' = p ∧ ∃ pg, m !! p = Some pg ∧ pg' = pg <| queue := v |>) ∨
  (p' ≠ p ∧ m !! p' = Some pg').
Proof.
  destruct (decide (p' = p)) as [->|Hne].
  - rewrite lookup_alter_eq, fmap_Some. naive_solver.
  - rewrite lookup_alter_ne by done. naive_solver.
Qed.

(** A queue of distinct pages of the store is no longer than the store. *)
Lemma queue_length_bound i s :
  queues_ok s → Z.of_nat (length (qelems i s)) < 2 ^ 64.
Proof.
  intros [Hsz Hq]. destruct (Hq i) as (Hnd & _ & Hel).
  enough (length (qelems i s) ≤ size (pages s))%nat by lia.
  rewrite <- (size_list_to_set (C := gset Z)), <- size_dom by done.
  apply subseteq_size. intros p Hp. apply elem_of_list_to_set, Hel in Hp.
  apply elem_of_dom. naive_solver.
Qed.

(** One more page than the queue has still fits. *)
Lemma queue_length_bound_S i s p pg :
  queues_ok s → pages s !! p = Some pg → queue pg ≠ Some i →
  Z.of_nat (length (qelems i s)) + 1 < 2 ^ 64.
Proof.
  intros [Hsz Hq] Hp Hne. destruct (Hq i) as (Hnd & _ & Hel).
  enough (length (p :: qelems i s) ≤ size (pages s))%nat by (cbn in *; lia).
  assert (p ∉ qelems i s) by (rewrite Hel; naive_solver).
  rewrite <- (size_list_to_set (C := gset Z)), <- size_dom by (by constructor).
  apply subseteq_size. intros p' [->|Hp']%elem_of_list_to_set%elem_of_cons.
  - apply elem_of_dom. eauto.
  - apply Hel in Hp'. apply elem_of_dom. naive_solver.
Qed.

(** The only proof obligation of an update of one queue and one page. *)
Lemma queues_ok_step i q p pg v s :
  queues_ok s → pages s !! p = Some pg →
  queue pg = None ∨ queue pg = Some i → v = None ∨ v = Some i →
  NoDup (dl_elems (fPages q)) →
  fCount q = Z.of_nat (length (dl_elems (fPages q))) →
  (∀ p', p' ∈ dl_elems (fPages q) ↔ (p' = p ∧ v = Some i) ∨ (p' ≠ p ∧ p' ∈ qelems i s)) →
  queues_ok (set_queue i q (upd_page p (fun pg => pg <| queue := v |>) s)).
Proof.
  intros [Hsz Hq] Hp Hold Hv Hnd Hcnt Hel.
  split.
  { rewrite pages_set_queue, pages_upd_page.
    rewrite <- size_dom, dom_alter_L, size_dom. done. }
  intros j. unfold queue_ok, qelems.
  rewrite pages_set_queue, pages_upd_page.
  destruct (decide (i = j)) as [<-|Hij].
  - rewrite get_set_queue. split; [done|]. split; [done|].
    intros p'. rewrite Hel. destruct (Hq i) as (_ & _ & Hel').
    rewrite Hel'. setoid_rewrite lookup_alter_queue. naive_solver.
  - rewrite get_set_queue_ne, get_queue_upd_page by done.
    destruct (Hq j) as (? & ? & Hel'). split; [done|]. split; [done|].
    intros p'. rewrite Hel'. setoid_rewrite lookup_alter_queue. naive_solver.
Qed.

Lemma page_not_in i p pg s :
  queues_ok s → pages s !! p = Some pg → queue pg = None → p ∉ qelems i s.
Proof. intros [_ Hq] Hp Hn. destruct (Hq i) as (_ & _ & ->). naive_solver. Qed.

Lemma page_in i p pg s :
  queues_ok s → pages s !! p = Some pg → queue pg = Some i → p ∈ qelems i s.
Proof. intros [_ Hq] Hp Hn. destruct (Hq i) as (_ & _ & ->). naive_solver. Qed.

Lemma queues_NoDup i s : queues_ok s → NoDup (qelems i s).
Proof. intros [_ Hq]. apply (Hq i). Qed.

Lemma queues_fCount i s :
  queues_ok s → fCount (get_queue i s) = Z.of_nat (length (qelems i s)).
Proof. intros [_ Hq]. apply (Hq i). Qed.

Lemma queue_step_intro i q p v s :
  queue_step i (dl_elems (fPages q)) p v s
    (set_queue i q (upd_page p (fun pg => pg <| queue := v |>) s)).
Proof. unfold queue_step, qelems. rewrite get_set_queue. done. Qed.

(** ** The effect of each operation on the queue it is called on *)

Lemma Append_ok i p pg s :
  queues_ok s → pages s !! p = Some pg → queue pg = None →
  ∃ s', Append i p s = Ret s' ∧ queues_ok s' ∧
    queue_step i (qelems i s ++ [p]) p (Some i) s s'.
Proof.
  intros Hok Hp Hn. pose proof (page_not_in i p pg s Hok Hp Hn) as Hni.
  pose proof (queue_length_bound_S i s p pg Hok Hp ltac:(congruence)) as Hb.
  unfold Append. rewrite Hp. cbn. rewrite bool_decide_eq_true_2 by done. cbn.
  eexists; split; [done|]. split.
  - eapply queues_ok_step; eauto; cbn [fPages fCount update].
    + rewrite dl_Add_elems by done. apply NoDup_app. split_and!;
        [by apply queues_NoDup | set_solver | apply NoDup_singleton].
    + rewrite dl_Add_elems, queues_fCount by done. rewrite length_app. cbn.
      rewrite wrap_small; [|split]; unfold qelems in *; lia.
    + intros p'. rewrite dl_Add_elems by done. unfold qelems. set_solver.
  - unfold qelems. rewrite <- (dl_Add_elems p true) by done. apply queue_step_intro.
Qed.

Lemma Prepend_ok i p pg s :
  queues_ok s → pages s !! p = Some pg → queue pg = None →
  ∃ s', Prepend i p s = Ret s' ∧ queues_ok s' ∧
    queue_step i (p :: qelems i s) p (Some i) s s'.
Proof.
  intros Hok Hp Hn. pose proof (page_not_in i p pg s Hok Hp Hn) as Hni.
  pose proof (queue_length_bound_S i s p pg Hok Hp ltac:(congruence)) as Hb.
  unfold Prepend. rewrite Hp. cbn. rewrite bool_decide_eq_true_2 by done. cbn.
  eexists; split; [done|]. split.
  - eapply queues_ok_step; eauto; cbn [fPages fCount update].
    + rewrite dl_Add_elems by done. constructor; [done|by apply queues_NoDup].
    + rewrite dl_Add_elems, queues_fCount by done. cbn [length].
      rewrite wrap_small; [|split]; unfold qelems in *; lia.
    + intros p'. rewrite dl_Add_elems by done. unfold qelems. set_solver.
  - unfold qelems. rewrite <- (dl_Add_elems p false) by done. apply queue_step_intro.
Qed.

Lemma InsertAfter_ok i a p pg s l1 l2 :
  queues_ok s → qelems i s = l1 ++ a :: l2 →
  pages s !! p = Some pg → queue pg = None →
  ∃ s', InsertAfter i a p s = Ret s' ∧ queues_ok s' ∧
    queue_step i (l1 ++ a :: p :: l2) p (Some i) s s'.
Proof.
  intros Hok Ha Hp Hn. pose proof (page_not_in i p pg s Hok Hp Hn) as Hni.
  pose proof (queue_length_bound_S i s p pg Hok Hp ltac:(congruence)) as Hb.
  pose proof (queues_NoDup i s Hok) as Hnd.
  unfold InsertAfter. rewrite Hp. cbn. rewrite bool_decide_eq_true_2 by done. cbn.
  pose proof (dl_InsertAfter_elems a p _ l1 l2 Ha Hnd Hni) as Hel.
  assert (l1 ++ a :: p :: l2 ≡ₚ p :: qelems i s) as Hperm.
  { rewrite Ha. rewrite (Permutation_middle l1 (a :: l2) p).
    f_equiv. apply Permutation_swap. }
  eexists; split; [done|]. split.
  - eapply queues_ok_step; eauto; cbn [fPages fCount update]; rewrite Hel.
    + rewrite Hperm. by constructor.
    + rewrite Hperm, queues_fCount by done. cbn [length].
      rewrite wrap_small; [|split]; unfold qelems in *; lia.
    + intros p'. rewrite Hperm. set_solver.
  - rewrite <- Hel. apply queue_step_intro.
Qed.

Lemma Remove_ok i p pg s :
  queues_ok s → pages s !! p = Some pg → queue pg = Some i →
  ∃ s', Remove i p s = Ret s' ∧ queues_ok s' ∧
    queue_step i (remove_elem p (qelems i s)) p None s s'.
Proof.
  intros Hok Hp Hn. pose proof (page_in i p pg s Hok Hp Hn) as Hin.
  pose proof (queue_length_bound i s Hok) as Hb.
  pose proof (queues_NoDup i s Hok) as Hnd.
  pose proof (length_remove_elem p _ Hnd Hin) as Hlen.
  unfold Remove. rewrite Hp. cbn. rewrite bool_decide_eq_true_2 by done. cbn.
  eexists; split; [done|]. split.
  - eapply queues_ok_step; eauto; cbn [fPages fCount update];
      rewrite dl_Remove_elems by done.
    + by apply NoDup_remove_elem.
    + rewrite queues_fCount by done. rewrite wrap_small; [|split]; unfold qelems in *; lia.
    + intros p'. rewrite elem_of_remove. unfold qelems. naive_solver.
  - unfold qelems. rewrite <- dl_Remove_elems by done. apply queue_step_intro.
Qed.

Lemma RemoveHead_nil i s :
  queues_ok s → qelems i s = [] →
  ∃ s', RemoveHead i s = Ret (None, s') ∧ queues_ok s' ∧
    qelems i s' = [] ∧ s' = set_queue i (get_queue i s') s.
Proof.
  intros [Hsz Hq] Hnil. unfold RemoveHead.
  destruct (dl_RemoveHead_elems (fPages (get_queue i s))) as [Hhd Htl].
  unfold qelems in *. rewrite Hnil in *. cbn in *.
  destruct (dl_RemoveHead _) as [h l]. cbn in *. subst h.
  eexists; split; [done|]. rewrite get_set_queue. cbn. split_and!; [|done|done].
  split; [by rewrite pages_set_queue|]. intros j. unfold queue_ok, qelems.
  rewrite pages_set_queue. destruct (decide (i = j)) as [<-|].
  - rewrite get_set_queue. cbn. destruct (Hq i) as (? & Hc & Hel).
    unfold qelems in *. rewrite Hnil in *. rewrite Htl. done.
  - rewrite get_set_queue_ne by done. apply (Hq j).
Qed.

Lemma RemoveHead_cons i p l s :
  queues_ok s → qelems i s = p :: l →
  ∃ s', RemoveHead i s = Ret (Some p, s') ∧ queues_ok s' ∧ queue_step i l p None s s'.
Proof.
  intros Hok Hcons. unfold RemoveHead.
  destruct (dl_RemoveHead_elems (fPages (get_queue i s))) as [Hhd Htl].
  pose proof (queue_length_bound i s Hok) as Hb.
  pose proof (queues_NoDup i s Hok) as Hnd.
  assert (∃ pg, pages s !! p = Some pg ∧ queue pg = Some i) as (pg & Hp & Hpq).
  { apply (proj2 Hok i). rewrite Hcons. left. }
  assert (fCount (get_queue i s) = Z.of_nat (S (length l))) as Hc.
  { rewrite queues_fCount by done. by rewrite Hcons. }
  rewrite Hcons in Hb, Hnd. apply NoDup_cons in Hnd as [Hnl Hnd].
  unfold qelems in Hcons. rewrite Hcons in Hhd, Htl. cbn in Hhd, Htl, Hb.
  destruct (dl_RemoveHead _) as [h l']. cbn in *. subst h.
  rewrite Hp. cbn. rewrite bool_decide_eq_true_2 by done. cbn.
  eexists; split; [done|]. split.
  - eapply queues_ok_step; eauto; cbn [fPages fCount update]; rewrite Htl; [done| |].
    + rewrite Hc, wrap_small; [lia|split; lia].
    + intros p'. unfold qelems. rewrite Hcons. set_solver.
  - rewrite <- Htl. apply (queue_step_intro i (mkQueue _ l')).
Qed.

Lemma Requeue_ok i p pg (tail : bool) s :
  queues_ok s → pages s !! p = Some pg → queue pg = Some i →
  ∃ s', Requeue i p tail s = Ret s' ∧ queues_ok s' ∧
    qelems i s' = (if tail then remove_elem p (qelems i s) ++ [p]
                   else p :: remove_elem p (qelems i s)) ∧
    s' = set_queue i (get_queue i s') s.
Proof.
  intros Hok Hp Hn. pose proof (page_in i p pg s Hok Hp Hn) as Hin.
  pose proof (queues_NoDup i s Hok) as Hnd.
  unfold Requeue. rewrite Hp. cbn. rewrite bool_decide_eq_true_2 by done. cbn.
  set (q' := (get_queue i s) <| fPages := _ |>).
  assert (p ∉ remove_elem p (qelems i s)) by (rewrite elem_of_remove; naive_solver).
  assert (dl_elems (fPages q') = if tail then remove_elem p (qelems i s) ++ [p]
                   else p :: remove_elem p (qelems i s)) as Hel.
  { cbn. by rewrite dl_Add_elems, dl_Remove_elems by (by rewrite ?dl_Remove_elems). }
  assert (dl_elems (fPages q') ≡ₚ qelems i s) as Hperm.
  { rewrite Hel. etrans; [|symmetry; by apply (remove_elem_Permutation p)].
    destruct tail; [symmetry; apply Permutation_cons_append|done]. }
  eexists; split; [done|]. rewrite get_set_queue. split_and!; [|by unfold qelems; rewrite get_set_queue|done].
  destruct Hok as [Hsz Hq]. split; [by rewrite pages_set_queue|].
  intros j. unfold queue_ok, qelems. rewrite pages_set_queue.
  destruct (decide (i = j)) as [<-|]; [|rewrite get_set_queue_ne by done; apply (Hq j)].
  rewrite get_set_queue. destruct (Hq i) as (_ & Hc & Hel'). split_and!.
  - by rewrite Hperm.
  - rewrite Hperm. apply Hc.
  - intros p'. rewrite Hperm. apply Hel'.
Qed.

(** ** Refinement: traces of queue operations

    The abstract state is one sequence per queue.  [spec_op] is defined
    where the caller's obligations hold: a page that is added belongs to the
    store and is on no queue, a page that is removed or used as a position
    is on the queue named. *)
Inductive qop :=
  | OAppend (p : Z) | OPrepend (p : Z) | OInsertAfter (after p : Z)
  | ORemove (p : Z) | ORemoveHead | ORequeue (p : Z) (tail : bool).

Definition exec_op (o : qop) (i : queue_id) (s : vmstate) : outcome (option Z * vmstate) :=
  match o with
  | OAppend p => s ← Append i p s; Ret (None, s)
  | OPrepend p => s ← Prepend i p s; Ret (None, s)
  | OInsertAfter a p => s ← InsertAfter i a p s; Ret (None, s)
  | ORemove p => s ← Remove i p s; Ret (None, s)
  | ORemoveHead => RemoveHead i s
  | ORequeue p tail => s ← Requeue i p tail s; Ret (None, s)
  end.

Fixpoint exec_ops (os : list (queue_id * qop)) (s : vmstate)
  : outcome (list (option Z) * vmstate) :=
  match os with
  | [] => Ret ([], s)
  | (i, o) :: os =>
      '(r, s) ← exec_op o i s;
      '(rs, s) ← exec_ops os s;
      Ret (r :: rs, s)
  end.

Definition all_queues := [QActive; QInactive; QModified; QCached; QFree; QClear].

Definition unqueued (K : gset Z) (f : queue_id → list Z) (p : Z) : bool :=
  bool_decide (p ∈ K) && forallb (fun i => bool_decide (p ∉ f i)) all_queues.

Definition spec_op (K : gset Z) (o : qop) (i : queue_id) (f : queue_id → list Z)
  : option (option Z * list Z) :=
  match o with
  | OAppend p => guard (unqueued K f p = true);; Some (None, f i ++ [p])
  | OPrepend p => guard (unqueued K f p = true);; Some (None, p :: f i)
  | OInsertAfter a p =>
      guard (unqueued K f p = true);; guard (a ∈ f i);; Some (None, list_insert_after a p (f i))
  | ORemove p => guard (p ∈ f i);; Some (None, remove_elem p (f i))
  | ORemoveHead => Some (head (f i), tail (f i))
  | ORequeue p tl =>
      guard (p ∈ f i);;
      Some (None, if tl then remove_elem p (f i) ++ [p] else p :: remove_elem p (f i))
  end.

Definition seq_set (i : queue_id) (l : list Z) (f : queue_id → list Z) : queue_id → list Z :=
  fun j => if decide (i = j) then l else f j.

Fixpoint spec_ops (K : gset Z) (os : list (queue_id * qop)) (f : queue_id → list Z)
  : option (list (option Z) * (queue_id → list Z)) :=
  match os with
  | [] => Some ([], f)
  | (i, o) :: os =>
      '(r, l) ← spec_op K o i f;
      '(rs, f) ← spec_ops K os (seq_set i l f);
      Some (r :: rs, f)
  end.

Lemma unqueued_page K f p s :
  queues_ok s → K = dom (pages s) → (∀ i, qelems i s = f i) → unqueued K f p = true →
  ∃ pg, pages s !! p = Some pg ∧ queue pg = None.
Proof.
  intros [_ Hq] -> Hf [Hd Hall]%andb_true_iff. breflect.
  apply elem_of_dom in Hd as [pg Hpg]. exists pg; split; [done|].
  destruct (queue pg) as [i|] eqn:Hpq; [|done]. exfalso.
  assert (p ∈ f i) as Hin by (rewrite <- Hf; apply (Hq i); eauto).
  assert (In i all_queues) as Hi by (destruct i; cbn; tauto).
  rewrite forallb_forall in Hall. specialize (Hall i Hi). by breflect.
Qed.

Lemma queued_page f p i s :
  queues_ok s → (∀ i, qelems i s = f i) → p ∈ f i →
  ∃ pg, pages s !! p = Some pg ∧ queue pg = Some i.
Proof. intros [_ Hq] Hf Hp. rewrite <- Hf in Hp. by apply (Hq i). Qed.

Lemma seqs_after i l f s s' :
  (∀ j, qelems j s = f j) → qelems i s' = l →
  (∀ j, i ≠ j → get_queue j s' = get_queue j s) → ∀ j, qelems j s' = seq_set i l f j.
Proof.
  intros Hf Hl Hj j. unfold seq_set. case_decide as Hij; [by subst|].
  unfold qelems. by rewrite Hj, <- Hf.
Qed.

Lemma queue_step_others i l p v s s' j :
  queue_step i l p v s s' → i ≠ j → get_queue j s' = get_queue j s.
Proof. intros [_ ->] Hij. by rewrite get_set_queue_ne, get_queue_upd_page. Qed.

Lemma queue_step_dom i l p v s s' : queue_step i l p v s s' → dom (pages s') = dom (pages s).
Proof. intros [_ ->]. rewrite pages_set_queue, pages_upd_page. apply dom_alter_L. Qed.

Lemma exec_op_refines K o i f r l s :
  queues_ok s → K = dom (pages s) → (∀ j, qelems j s = f j) →
  spec_op K o i f = Some (r, l) →
  ∃ s', exec_op o i s = Ret (r, s') ∧ queues_ok s' ∧ dom (pages s') = K ∧
    ∀ j, qelems j s' = seq_set i l f j.
Proof.
  assert (∀ v p s s', queue_step i l p v s s' → K = dom (pages s) →
    (∀ j, qelems j s = f j) → dom (pages s') = K ∧ ∀ j, qelems j s' = seq_set i l f j) as Hstep.
  { intros v p s1 s2 Hs -> Hf. split; [eapply queue_step_dom, Hs|].
    eapply seqs_after; [done|apply Hs|]. intros. by eapply queue_step_others. }
  intros Hok HK Hf Hspec.
  destruct o as [p|p|a p|p| |p tl]; cbn in Hspec; repeat case_guard; simplify_eq/=.
  - edestruct unqueued_page as (pg & Hp & Hn); eauto.
    destruct (Append_ok i p pg s) as (s' & -> & Hok' & Hs); auto. rewrite Hf in Hs. naive_solver.
  - edestruct unqueued_page as (pg & Hp & Hn); eauto.
    destruct (Prepend_ok i p pg s) as (s' & -> & Hok' & Hs); auto. rewrite Hf in Hs. naive_solver.
  - edestruct unqueued_page as (pg & Hp & Hn); eauto.
    rename select (a ∈ f i) into Ha. pose proof Ha as (l1 & l2 & Hsplit)%list_elem_of_split.
    pose proof (queues_NoDup i s Hok) as Hnd. rewrite Hf, Hsplit in Hnd.
    rewrite Hsplit, list_insert_after_split in Hstep by done.
    destruct (InsertAfter_ok i a p pg s l1 l2) as (s' & -> & Hok' & Hs); auto; [congruence|].
    rewrite Hsplit, list_insert_after_split by done. naive_solver.
  - edestruct queued_page as (pg & Hp & Hn); eauto.
    destruct (Remove_ok i p pg s) as (s' & -> & Hok' & Hs); auto. rewrite Hf in Hs. naive_solver.
  - destruct (f i) as [|p l] eqn:Hfi; cbn in *.
    + destruct (RemoveHead_nil i s) as (s' & -> & Hok' & Hl & Hs'); auto; [congruence|].
      exists s'. split_and!; [done|done|by rewrite Hs', pages_set_queue|].
      eapply seqs_after; eauto. intros. rewrite Hs'. by apply get_set_queue_ne.
    + destruct (RemoveHead_cons i p l s) as (s' & -> & Hok' & Hs); auto; [congruence|]. naive_solver.
  - edestruct queued_page as (pg & Hp & Hn); eauto.
    destruct (Requeue_ok i p pg tl s) as (s' & -> & Hok' & Hl & Hs'); auto.
    exists s'. rewrite Hf in Hl. split_and!; [done|done|by rewrite Hs', pages_set_queue|].
    eapply seqs_after; eauto. intros. rewrite Hs'. by apply get_set_queue_ne.
Qed.
End ops.

Lemma queues_ok_boot {DL : DLList Z} (ps : gmap Z page) :
  Z.of_nat (size ps) < 2 ^ 64 → map_Forall (fun _ pg => queue pg = None) ps →
  queues_ok (vm_boot ps).
Proof.
  intros Hsz Hn. split; [done|]. intros i.
  assert (get_queue i (vm_boot ps) = queue_init) as Hi by (by destruct i).
  unfold queue_ok, qelems. rewrite Hi. cbn. rewrite dl_empty_elems.
  split_and!; [constructor|done|]. intros p. split; [set_solver|].
  intros (pg & Hp & Hq). specialize (Hn _ _ Hp). cbn in Hn. congruence.
Qed.

(** C16: Any sequence of Append, Prepend, InsertAfter, Remove, RemoveHead
    and Requeue calls on the six page queues behaves like the same sequence
    on six plain sequences: no debug check fires, the results agree, and
    afterwards each queue holds exactly the specified sequence, its fCount
    is its length and every queued page points back to its queue. *)
Theorem queue_traces_refine {DL : DLList Z} (os : list (queue_id * qop)) (s : vmstate)
    (f f' : queue_id → list Z) (rs : list (option Z))
    (Hok : queues_ok s) (Hf : ∀ i, qelems i s = f i)
    (Hspec : spec_ops (dom (pages s)) os f = Some (rs, f')) :
  ∃ s', exec_ops os s = Ret (rs, s') ∧ queues_ok s' ∧ ∀ i, qelems i s' = f' i.
Proof.
  remember (dom (pages s)) as K eqn:HK. revert s f rs Hok Hf HK Hspec.
  induction os as [|[i o] os IH]; intros s f rs Hok Hf HK Hspec; cbn in *; [naive_solver|].
  destruct (spec_op K o i f) as [[r l]|] eqn:Ho; cbn in Hspec; [|done].
  destruct (spec_ops K os (seq_set i l f)) as [[rs' f'']|] eqn:Hos; cbn in Hspec; [|done].
  simplify_eq. edestruct exec_op_refines as (s' & Hx & Hok' & Hd & Hf'); eauto.
  edestruct (IH s') as (s'' & Hxs & Hok'' & Hf''); [done|exact Hf'|done|eassumption|].
  exists s''. rewrite Hx. cbn. by rewrite Hxs.
Qed.

Definition three_pages : gmap Z page :=
  {[ 1 := page_Init 1 page_zero; 2 := page_Init 2 page_zero; 3 := page_Init 3 page_zero ]}.

Lemma three_pages_unqueued : map_Forall (fun _ pg => queue pg = None) three_pages.
Proof. by repeat apply map_Forall_insert_2. Qed.

Lemma queue_traces_refine_witness :
  ∃ s', exec_ops [(QFree, OAppend 1); (QFree, OPrepend 2); (QFree, ORemoveHead);
                  (QActive, OAppend 3); (QActive, OInsertAfter 3 2); (QFree, ORequeue 1 true)]
    (vm_boot three_pages) = Ret ([None; None; Some 2; None; None; None], s') ∧ queues_ok s' ∧
    ∀ i, qelems i s' = match i with QFree => [1] | QActive => [3; 2] | _ => [] end.
Proof.
  edestruct (queue_traces_refine (DL := list_DLList)
    [(QFree, OAppend 1); (QFree, OPrepend 2); (QFree, ORemoveHead);
     (QActive, OAppend 3); (QActive, OInsertAfter 3 2); (QFree, ORequeue 1 true)]
    (vm_boot three_pages) (fun _ => [])) as (s' & He & Hok & Hel).
  - apply queues_ok_boot; [vm_compute; reflexivity | apply three_pages_unqueued].
  - intros []; reflexivity.
  - vm_compute. reflexivity.
  - exists s'. split; [exact He|]. split; [exact Hok|].
    intros i. rewrite Hel. destruct i; reflexivity.
Defined.
