(* ===== verification/CachePages.v ===== *)
(** mm_cache.cpp / mm_cache.h: the pages of a [VMCache].

    Lookup, insertion, removal and moving of pages between caches, with the
    page and wired-page counters.  [caches_ok] ties the three views of cache
    membership together: the cache's page tree, the [cache_ref] and
    [cache_offset] stored in each page, and the counters.  The callers hold
    the locks of the caches involved, so the operations are sequential. *)
From S2P Require Import Prelude VMState.
From stdpp Require Import base list list_numbers numbers gmap.
From Stdlib Require Import ZArith Lia.
Local Open Scope Z_scope.

Section ops.
Context {DL : DLList Z}.
Implicit Types (s : vmstate) (p c : Z).

Definition set_page p (pg : page) s : vmstate := s <| pages ::= <[p := pg]> |>.
Definition set_cache c (C : VMCache) s : vmstate := s <| caches ::= <[c := C]> |>.

(** ** Wired-page counters *)

Definition IncrementWiredPagesCount (C : VMCache) : outcome VMCache :=
  _ ← assert (wired_pages_count C <? page_count C);
  Ret (C <| wired_pages_count := u64 (wired_pages_count C + 1) |>).

Definition DecrementWiredPagesCount (C : VMCache) : outcome VMCache :=
  _ ← assert (0 <? wired_pages_count C);
  Ret (C <| wired_pages_count := u64 (wired_pages_count C - 1) |>).

(** [page::IncrementWiredCount] and [page::DecrementWiredCount]. *)
Definition IncrementWiredCount p s : outcome vmstate :=
  pg ← deref (pages s !! p);
  let s' := set_page p (pg <| wired_count := u16 (wired_count pg + 1) |>) s in
  if wired_count pg =? 0 then
    match cache_ref pg with
    | None => Ret s'
    | Some r =>
        c ← deref (cacherefs s !! r);
        C ← deref (caches s !! c);
        C' ← IncrementWiredPagesCount C;
        Ret (set_cache c C' s')
    end
  else Ret s'.

Definition DecrementWiredCount p s : outcome vmstate :=
  pg ← deref (pages s !! p);
  _ ← assert (0 <? wired_count pg);
  let s' := set_page p (pg <| wired_count := u16 (wired_count pg - 1) |>) s in
  if u16 (wired_count pg - 1) =? 0 then
    match cache_ref pg with
    | None => Ret s'
    | Some r =>
        c ← deref (cacherefs s !! r);
        C ← deref (caches s !! c);
        C' ← DecrementWiredPagesCount C;
        Ret (set_cache c C' s')
    end
  else Ret s'.

(** ** Lookup, insertion and removal *)

Definition LookupPage c (offset : Z) s : outcome (option Z) :=
  C ← deref (caches s !! c);
  match cpages C !! Z.shiftr offset PAGE_SHIFT with
  | None => Ret None
  | Some p =>
      pg ← deref (pages s !! p);
      _ ← assert (bool_decide (page_Cache s pg = Some c));
      Ret (Some p)
  end.

Definition InsertPage c p (offset : Z) s : outcome vmstate :=
  C ← deref (caches s !! c);
  pg ← deref (pages s !! p);
  _ ← assert (bool_decide (cache_ref pg = None));
  let o := Z.shiftr offset PAGE_SHIFT in
  let pg' := pg <| cache_offset := o |> <| cache_ref := Some (self_ref C) |> in
  let C1 := C <| page_count := u32 (page_count C + 1) |> in
  _ ← assert (bool_decide (cpages C !! o = None));
  let C2 := C1 <| cpages ::= <[o := p]> |>
    <| virtual_last_page := Z.max (Z.shiftr (virtual_last_page C) PAGE_SHIFT) offset |> in
  C3 ← (if 0 <? wired_count pg then IncrementWiredPagesCount C2 else Ret C2);
  Ret (set_cache c C3 (set_page p pg' s)).

(** The greatest key of the page tree ([FindMax]). *)
Definition tree_max (m : gmap Z Z) : option Z :=
  foldr (fun k acc => match acc with Some a => Some (Z.max k a) | None => Some k end)
    None (map_to_list m).*1.

Definition RemovePage c p s : outcome vmstate :=
  C ← deref (caches s !! c);
  pg ← deref (pages s !! p);
  _ ← assert (bool_decide (page_Cache s pg = Some c));
  let tree := delete (cache_offset pg) (cpages C) in
  let C1 := C <| cpages := tree |> <| page_count := u32 (page_count C - 1) |> in
  let C2 :=
    if virtual_last_page C =? cache_offset pg then
      C1 <| virtual_last_page := match tree_max tree with Some k => k | None => 0 end |>
    else C1 in
  C3 ← (if 0 <? wired_count pg then DecrementWiredPagesCount C2 else Ret C2);
  Ret (set_cache c C3 (set_page p (pg <| cache_ref := None |>) s)).

(** [MovePage(page, offset)]: from the page's present cache to cache [c]. *)
Definition MovePage c p (offset : Z) s : outcome vmstate :=
  pg ← deref (pages s !! p);
  old ← deref (page_Cache s pg);
  O ← deref (caches s !! old);
  let s := set_cache old (O <| cpages ::= delete (cache_offset pg) |>
                            <| page_count := u32 (page_count O - 1) |>) s in
  let o := Z.shiftr offset PAGE_SHIFT in
  C ← deref (caches s !! c);
  let s := set_page p (pg <| cache_offset := o |> <| cache_ref := Some (self_ref C) |>) s in
  let C := C <| cpages ::= <[o := p]> |> <| page_count := u32 (page_count C + 1) |>
    <| virtual_last_page := Z.max (Z.shiftr (virtual_last_page C) PAGE_SHIFT) offset |> in
  let s := set_cache c C s in
  if 0 <? wired_count pg then
    C ← deref (caches s !! c);
    C ← IncrementWiredPagesCount C;
    let s := set_cache c C s in
    O ← deref (caches s !! old);
    O ← DecrementWiredPagesCount O;
    Ret (set_cache old O s)
  else Ret s.

(** [MovePage(page)] keeps the offset. *)
Definition MovePageSame c p s : outcome vmstate :=
  pg ← deref (pages s !! p);
  MovePage c p (Z.shiftl (cache_offset pg) PAGE_SHIFT) s.

(** [MoveAllPages]: the two caches swap page trees and [VMCacheRef]s. *)
Definition MoveAllPages c from s : outcome vmstate :=
  C ← deref (caches s !! c);
  F ← deref (caches s !! from);
  _ ← assert (page_count C =? 0);
  let C' := C <| cpages := cpages F |> <| page_count := page_count F |>
    <| wired_pages_count := wired_pages_count F |> <| self_ref := self_ref F |> in
  let F' := F <| cpages := cpages C |> <| page_count := 0 |>
    <| wired_pages_count := 0 |> <| self_ref := self_ref C |> in
  Ret ((set_cache from F' (set_cache c C' s))
    <| cacherefs ::= fun m => <[self_ref C := from]> (<[self_ref F := c]> m) |>).

(** ** The invariant *)

Definition is_wired s p : Prop :=
  match pages s !! p with Some pg => 0 < wired_count pg | None => False end.
#[global] Instance is_wired_dec s p : Decision (is_wired s p).
Proof. unfold is_wired. destruct (pages s !! p); apply _. Defined.

Definition wired_pages s (m : gmap Z Z) : gmap Z Z := filter (fun kp => is_wired s kp.2) m.

(** Page [p] says it is at offset [o] of the cache with reference [r]. *)
Definition refers s p (o r : Z) : Prop :=
  ∃ pg, pages s !! p = Some pg ∧ cache_offset pg = o ∧ cache_ref pg = Some r.

Definition cache_ok s c (C : VMCache) : Prop :=
  cacherefs s !! self_ref C = Some c ∧
  page_count C = Z.of_nat (size (cpages C)) ∧ page_count C < 2 ^ 32 ∧
  wired_pages_count C = Z.of_nat (size (wired_pages s (cpages C))) ∧
  ∀ o p, cpages C !! o = Some p ↔ refers s p o (self_ref C).

Definition caches_ok s : Prop :=
  (∀ c C, caches s !! c = Some C → cache_ok s c C) ∧
  ∀ p pg, pages s !! p = Some pg → fits 16 (wired_count pg).

(** ** Lemmas *)

Lemma wired_pages_insert s m o p :
  m !! o = None →
  wired_pages s (<[o := p]> m) =
    if decide (is_wired s p) then <[o := p]> (wired_pages s m) else wired_pages s m.
Proof.
  intros Hm. unfold wired_pages. case_decide.
  - by rewrite map_filter_insert_True.
  - by rewrite map_filter_insert_not'; [|done|intros ? ?; congruence].
Qed.

Lemma wired_pages_delete s m o : wired_pages s (delete o m) = delete o (wired_pages s m).
Proof. apply map_filter_delete. Qed.

(** The wired set only depends on the wired counts of the pages of the tree. *)
Lemma wired_pages_ext s s' m :
  (∀ o p, m !! o = Some p → is_wired s p ↔ is_wired s' p) →
  wired_pages s m = wired_pages s' m.
Proof. intros H. apply map_filter_ext. intros o p Hm. by apply (H o). Qed.

Lemma wired_pages_size s m : (size (wired_pages s m) ≤ size m)%nat.
Proof. apply map_subseteq_size, map_filter_subseteq. Qed.

(** Distinct caches have distinct [VMCacheRef]s. *)
Lemma self_ref_inj s c c' C C' :
  cache_ok s c C → cache_ok s c' C' → self_ref C = self_ref C' → c = c'.
Proof. intros (H & _) (H' & _) E. rewrite E in H. congruence. Qed.

(** A cache whose pages keep offset, reference and wiring stays well formed. *)
Lemma cache_ok_frame s s' c C :
  cache_ok s c C → cacherefs s' = cacherefs s →
  (∀ p o, refers s' p o (self_ref C) ↔ refers s p o (self_ref C)) →
  (∀ p o, cpages C !! o = Some p → is_wired s' p ↔ is_wired s p) →
  cache_ok s' c C.
Proof.
  intros (Hr & Hn & Hlt & Hw & Hel) Hrefs Hpg Hwi. unfold cache_ok.
  rewrite Hrefs. split_and!; [done..| |].
  - rewrite Hw. do 2 f_equal. apply wired_pages_ext. intros. symmetry. eauto.
  - intros o p. by rewrite Hpg, Hel.
Qed.

Lemma is_wired_set_page s p pg q :
  is_wired (set_page p pg s) q ↔ if decide (p = q) then 0 < wired_count pg else is_wired s q.
Proof.
  unfold is_wired. cbn. case_decide as E; [subst; by rewrite lookup_insert_eq|].
  by rewrite lookup_insert_ne.
Qed.

Lemma lookup_set_page s p pg q x :
  pages (set_page p pg s) !! q = Some x ↔ (q = p ∧ x = pg) ∨ (q ≠ p ∧ pages s !! q = Some x).
Proof. cbn. rewrite lookup_insert_Some. naive_solver. Qed.

Lemma refers_set_page s p pg q o r :
  refers (set_page p pg s) q o r ↔
  (q = p ∧ cache_offset pg = o ∧ cache_ref pg = Some r) ∨ (q ≠ p ∧ refers s q o r).
Proof.
  unfold refers. setoid_rewrite lookup_set_page. split.
  - intros (x & [[-> ->]|[? ?]] & ? & ?); [by left|right; eauto].
  - intros [(-> & ? & ?)|(? & x & ? & ? & ?)]; eauto 6.
Qed.

Lemma refers_lookup s p pg o r :
  pages s !! p = Some pg → refers s p o r ↔ cache_offset pg = o ∧ cache_ref pg = Some r.
Proof. intros Hp. unfold refers. split; [|by eauto]. intros (x & Hx & ? & ?). by simplify_eq. Qed.

Lemma lookup_set_cache s c C c' C' :
  caches (set_cache c C s) !! c' = Some C' ↔ (c' = c ∧ C' = C) ∨ (c' ≠ c ∧ caches s !! c' = Some C').
Proof. cbn. rewrite lookup_insert_Some. naive_solver. Qed.

(** Well-formedness of a cache is about its record, the pages and the references. *)
Lemma cache_ok_set_cache s c C c' C' : cache_ok (set_cache c C s) c' C' ↔ cache_ok s c' C'.
Proof. done. Qed.

Lemma fits_set_page s p pg :
  (∀ p pg, pages s !! p = Some pg → fits 16 (wired_count pg)) → fits 16 (wired_count pg) →
  ∀ q x, pages (set_page p pg s) !! q = Some x → fits 16 (wired_count x).
Proof. intros Hs Hp q x. rewrite lookup_set_page. naive_solver. Qed.

Lemma wired_count_bound s c C o p pg :
  cache_ok s c C → cpages C !! o = Some p → pages s !! p = Some pg →
  0 < wired_count pg → 0 < wired_pages_count C.
Proof.
  intros (_ & _ & _ & -> & _) Ho Hp Hw.
  assert (wired_pages s (cpages C) !! o = Some p) as Hl.
  { apply map_lookup_filter_Some. split; [done|]. cbn. unfold is_wired. by rewrite Hp. }
  destruct (size (wired_pages s (cpages C))) eqn:E; [|lia].
  apply map_size_empty_inv in E. rewrite E in Hl. by rewrite lookup_empty in Hl.
Qed.

(** Changing a page that belongs to [c] or to no cache only concerns [c]. *)
Lemma caches_ok_local s c C C' p pg pg' :
  caches_ok s → caches s !! c = Some C → pages s !! p = Some pg →
  self_ref C' = self_ref C → fits 16 (wired_count pg') →
  (cache_ref pg = None ∨ cache_ref pg = Some (self_ref C)) →
  (cache_ref pg' = None ∨ cache_ref pg' = Some (self_ref C)) →
  cache_ok (set_page p pg' s) c C' →
  caches_ok (set_cache c C' (set_page p pg' s)).
Proof.
  intros [Hall Hf] HC Hp Hsr Hw' Hold Hnew Hok'. split; [|by apply fits_set_page].
  intros c1 C1. rewrite lookup_set_cache, cache_ok_set_cache.
  intros [[-> ->]|[Hne HC1]]; [done|].
  pose proof (Hall c1 C1 HC1) as Hok1.
  assert (self_ref C1 ≠ self_ref C) as Hsrne.
  { intros E. apply Hne. eapply self_ref_inj; eauto. }
  eapply cache_ok_frame; [exact Hok1|done| |].
  - intros q o'. rewrite refers_set_page. split.
    + intros [(-> & _ & ?)|[_ ?]]; [|done]. destruct Hnew; congruence.
    + intros Hq. right. split; [|done]. intros ->.
      apply (refers_lookup _ _ _ _ _ Hp) in Hq as [_ Hq]. destruct Hold; congruence.
  - intros q o' Hq. rewrite is_wired_set_page. case_decide; [subst|done].
    destruct Hok1 as (_ & _ & _ & _ & Hel1). apply Hel1 in Hq.
    apply (refers_lookup _ _ _ _ _ Hp) in Hq as [_ Hq]. destruct Hold; congruence.
Qed.

(** The wired set of a tree that does not hold [p] ignores [p]. *)
Lemma wired_pages_fresh s p pg m :
  (∀ o q, m !! o = Some q → q ≠ p) → wired_pages (set_page p pg s) m = wired_pages s m.
Proof.
  intros Hm. apply wired_pages_ext. intros o q Hq. rewrite is_wired_set_page.
  rewrite decide_False; [done|]. intros ->. by eapply Hm.
Qed.

Definition wired01 (pg : page) : Z := if 0 <? wired_count pg then 1 else 0.

(** The view of cache [C] after page [p] joined it at offset [o] ... *)
Lemma cache_ok_join s c C C' p pg o :
  cache_ok s c C → pages s !! p = Some pg → cache_ref pg = None → cpages C !! o = None →
  self_ref C' = self_ref C → cpages C' = <[o := p]> (cpages C) →
  page_count C' = page_count C + 1 → page_count C + 1 < 2 ^ 32 →
  wired_pages_count C' = wired_pages_count C + wired01 pg →
  cache_ok (set_page p (pg <| cache_offset := o |> <| cache_ref := Some (self_ref C) |>) s) c C'.
Proof.
  intros (Hr & Hcnt & Hlt & Hw & Hel) Hp Hn Ho Hsr Hcp Hpc Hb Hwc.
  set (pg' := pg <| cache_offset := o |> <| cache_ref := _ |>).
  assert (∀ o' q, cpages C !! o' = Some q → q ≠ p) as Hnp.
  { intros o' q Hq ->. apply Hel, (refers_lookup _ _ _ _ _ Hp) in Hq. naive_solver. }
  unfold cache_ok. rewrite Hsr, Hcp, Hpc, Hwc.
  rewrite map_size_insert_None, wired_pages_insert, wired_pages_fresh by done.
  split_and!; [done|lia|lia| |].
  - rewrite Hw. unfold wired01. destruct (Z.ltb_spec 0 (wired_count pg)) as [Hd|Hd].
    + rewrite decide_True by (by rewrite is_wired_set_page, decide_True).
      rewrite map_size_insert_None; [lia|]. apply map_lookup_filter_None. by left.
    + rewrite decide_False; [lia|]. rewrite is_wired_set_page, decide_True by done. cbn. lia.
  - intros o' q. rewrite lookup_insert_Some, refers_set_page, Hel. cbn. split.
    + intros [[<- <-]|[Ho' Hq]]; [by left|right; split; [|done]].
      intros ->. apply Hel in Hq. by apply Hnp in Hq.
    + intros [(-> & <- & _)|[Hq Hr']]; [by left|right; split; [|done]].
      intros ->. apply Hel in Hr'. congruence.
Qed.

(** ... and after it left. *)
Lemma cache_ok_leave s c C C' p pg pg' :
  cache_ok s c C → pages s !! p = Some pg → cache_ref pg = Some (self_ref C) →
  cache_ref pg' = None → self_ref C' = self_ref C →
  cpages C' = delete (cache_offset pg) (cpages C) →
  page_count C' = page_count C - 1 → wired_pages_count C' = wired_pages_count C - wired01 pg →
  cache_ok (set_page p pg' s) c C'.
Proof.
  intros (Hr & Hcnt & Hlt & Hw & Hel) Hp Hc Hn Hsr Hcp Hpc Hwc.
  assert (cpages C !! cache_offset pg = Some p) as Ho by (apply Hel; by exists pg).
  assert (∀ o' q, delete (cache_offset pg) (cpages C) !! o' = Some q → q ≠ p) as Hnp.
  { intros o' q [Hne Hq]%lookup_delete_Some ->. apply Hel in Hq.
    apply (refers_lookup _ _ _ _ _ Hp) in Hq. naive_solver. }
  unfold cache_ok. rewrite Hsr, Hcp, Hpc, Hwc, wired_pages_fresh by done.
  pose proof (map_size_delete_Some _ _ (mk_is_Some _ _ Ho)) as Hsz.
  assert (size (cpages C) ≠ 0%nat) by (intros E%map_size_empty_inv; rewrite E in Ho; by rewrite lookup_empty in Ho).
  split_and!; [done|lia|lia| |].
  - rewrite Hw, wired_pages_delete. unfold wired01.
    destruct (Z.ltb_spec 0 (wired_count pg)) as [Hd|Hd].
    + assert (wired_pages s (cpages C) !! cache_offset pg = Some p) as Hl.
      { apply map_lookup_filter_Some. split; [done|]. cbn. unfold is_wired. by rewrite Hp. }
      rewrite (map_size_delete_Some _ _ (mk_is_Some _ _ Hl)).
      assert (size (wired_pages s (cpages C)) ≠ 0%nat); [|lia].
      intros E%map_size_empty_inv. rewrite E in Hl. by rewrite lookup_empty in Hl.
    + rewrite delete_id; [lia|]. apply map_lookup_filter_None. right. cbn.
      intros q Hq. rewrite Ho in Hq. injection Hq as <-. unfold is_wired. rewrite Hp. lia.
  - intros o' q. rewrite lookup_delete_Some, refers_set_page, Hel. split.
    + intros [Hne Hq]. right. split; [|done]. intros ->.
      apply (refers_lookup _ _ _ _ _ Hp) in Hq. naive_solver.
    + intros [(_ & _ & ?)|[Hne Hq]]; [congruence|]. split; [|done].
      intros <-. apply Hel in Hq. congruence.
Qed.

Lemma IncrementWiredPagesCount_ok C :
  0 <= wired_pages_count C < page_count C → page_count C < 2 ^ 64 →
  IncrementWiredPagesCount C = Ret (C <| wired_pages_count := wired_pages_count C + 1 |>).
Proof.
  intros. unfold IncrementWiredPagesCount. rewrite (proj2 (Z.ltb_lt _ _)) by lia.
  cbn. rewrite wrap_small by (split; lia). done.
Qed.

Lemma DecrementWiredPagesCount_ok C :
  0 < wired_pages_count C < 2 ^ 64 →
  DecrementWiredPagesCount C = Ret (C <| wired_pages_count := wired_pages_count C - 1 |>).
Proof.
  intros. unfold DecrementWiredPagesCount. rewrite (proj2 (Z.ltb_lt _ _)) by lia.
  cbn. rewrite wrap_small by (split; lia). done.
Qed.

Lemma page_Cache_ok s c C p pg o :
  cache_ok s c C → cpages C !! o = Some p → pages s !! p = Some pg →
  page_Cache s pg = Some c ∧ cache_offset pg = o ∧ cache_ref pg = Some (self_ref C).
Proof.
  intros (Hr & _ & _ & _ & Hel) Ho Hp. apply Hel, (refers_lookup _ _ _ _ _ Hp) in Ho as [? Href].
  unfold page_Cache. rewrite Href. done.
Qed.

(** On well-formed caches a lookup never panics and reads the page tree. *)
Lemma LookupPage_tree s c C offset :
  caches_ok s → caches s !! c = Some C →
  LookupPage c offset s = Ret (cpages C !! Z.shiftr offset PAGE_SHIFT).
Proof.
  intros [Hall _] HC. unfold LookupPage. rewrite HC. cbn.
  destruct (cpages C !! _) as [p|] eqn:Ho; [|done].
  pose proof (Hall c C HC) as Hok. destruct Hok as (Hr & Hn & Hlt & Hw & Hel).
  pose proof Ho as (pg & Hp & _)%Hel. rewrite Hp. cbn.
  destruct (page_Cache_ok s c C p pg _ (Hall c C HC) Ho Hp) as (Hpc & _).
  by rewrite bool_decide_eq_true_2.
Qed.

Lemma InsertPage_step c C p pg offset s :
  caches_ok s → caches s !! c = Some C → pages s !! p = Some pg → cache_ref pg = None →
  cpages C !! Z.shiftr offset PAGE_SHIFT = None → page_count C + 1 < 2 ^ 32 →
  ∃ C', InsertPage c p offset s = Ret (set_cache c C' (set_page p
          (pg <| cache_offset := Z.shiftr offset PAGE_SHIFT |>
              <| cache_ref := Some (self_ref C) |>) s)) ∧
    cpages C' = <[Z.shiftr offset PAGE_SHIFT := p]> (cpages C) ∧
    caches_ok (set_cache c C' (set_page p
          (pg <| cache_offset := Z.shiftr offset PAGE_SHIFT |>
              <| cache_ref := Some (self_ref C) |>) s)).
Proof.
  intros Hok HC Hp Hn Ho Hb. pose proof (proj1 Hok c C HC) as HokC.
  pose proof HokC as (_ & Hcnt & Hlt & Hw & _).
  pose proof (wired_pages_size s (cpages C)) as Hws.
  assert (∀ C', cpages C' = <[Z.shiftr offset PAGE_SHIFT := p]> (cpages C) →
    self_ref C' = self_ref C → page_count C' = page_count C + 1 →
    wired_pages_count C' = wired_pages_count C + wired01 pg →
    caches_ok (set_cache c C' (set_page p (pg <| cache_offset := Z.shiftr offset PAGE_SHIFT |>
              <| cache_ref := Some (self_ref C) |>) s))) as Hfin.
  { intros C' ? ? ? ?. apply (caches_ok_local s c C C' p pg); cbn; auto.
    - by apply (proj2 Hok p).
    - by eapply cache_ok_join. }
  unfold InsertPage, wired01 in *. rewrite HC, Hp. cbn.
  rewrite !bool_decide_eq_true_2 by done. cbn.
  rewrite (wrap_small 32 (page_count C + 1)) by (split; lia).
  destruct (0 <? wired_count pg) eqn:Hwp; cbn.
  - rewrite IncrementWiredPagesCount_ok by (cbn; lia). cbn.
    eexists. split; [reflexivity|]. split; [done|]. by apply Hfin.
  - eexists. split; [reflexivity|]. split; [done|]. apply Hfin; cbn; auto; lia.
Qed.

Lemma RemovePage_step c C p pg s :
  caches_ok s → caches s !! c = Some C → pages s !! p = Some pg →
  cache_ref pg = Some (self_ref C) →
  ∃ C', RemovePage c p s = Ret (set_cache c C' (set_page p (pg <| cache_ref := None |>) s)) ∧
    cpages C' = delete (cache_offset pg) (cpages C) ∧
    caches_ok (set_cache c C' (set_page p (pg <| cache_ref := None |>) s)).
Proof.
  intros Hok HC Hp Hr. pose proof (proj1 Hok c C HC) as HokC.
  pose proof HokC as (Href & Hcnt & Hlt & Hw & Hel).
  pose proof (wired_pages_size s (cpages C)) as Hws.
  assert (cpages C !! cache_offset pg = Some p) as Ho by (apply Hel; by exists pg).
  destruct (page_Cache_ok s c C p pg _ HokC Ho Hp) as (Hpc & _).
  assert (0 < page_count C).
  { rewrite Hcnt. destruct (size (cpages C)) eqn:E; [|lia].
    apply map_size_empty_inv in E. rewrite E in Ho. by rewrite lookup_empty in Ho. }
  assert (∀ C', cpages C' = delete (cache_offset pg) (cpages C) → self_ref C' = self_ref C →
    page_count C' = page_count C - 1 →
    wired_pages_count C' = wired_pages_count C - wired01 pg →
    caches_ok (set_cache c C' (set_page p (pg <| cache_ref := None |>) s))) as Hfin.
  { intros C' ? ? ? ?. apply (caches_ok_local s c C C' p pg); cbn; auto.
    - by apply (proj2 Hok p).
    - by eapply (cache_ok_leave s c C C' p pg). }
  unfold RemovePage, wired01 in *. rewrite HC, Hp. cbn. rewrite bool_decide_eq_true_2 by done. cbn.
  rewrite (wrap_small 32 (page_count C - 1)) by (split; lia).
  set (C2 := if virtual_last_page C =? cache_offset pg then _ else _).
  assert (cpages C2 = delete (cache_offset pg) (cpages C) ∧ self_ref C2 = self_ref C ∧
    page_count C2 = page_count C - 1 ∧ wired_pages_count C2 = wired_pages_count C) as (? & ? & ? & HC2w)
    by (unfold C2; destruct (_ =? _); done).
  destruct (0 <? wired_count pg) eqn:Hwp; cbn.
  - apply Z.ltb_lt in Hwp. pose proof (wired_count_bound s c C _ p pg HokC Ho Hp Hwp).
    rewrite DecrementWiredPagesCount_ok by lia. cbn.
    eexists. split; [reflexivity|]. split; [done|]. apply Hfin; cbn; auto; lia.
  - eexists. split; [reflexivity|]. split; [done|]. apply Hfin; auto; lia.
Qed.
(** ** Moving pages *)

Lemma move_states s old c p pg1 pg2 O2 O3 C2 C3 :
  old ≠ c →
  set_cache c C3 (set_page p pg2 (set_cache old O3 (set_page p pg1 s))) =
  set_cache old O3 (set_cache c C3 (set_cache c C2 (set_page p pg2 (set_cache old O2 s)))).
Proof.
  intros Hne. unfold set_cache, set_page, update. cbn.
  rewrite insert_insert_eq. f_equal. apply map_eq. intros k.
  rewrite !lookup_insert. by repeat case_decide; subst.
Qed.

Lemma move_states_unwired s old c p pg1 pg2 O2 C2 :
  set_cache c C2 (set_page p pg2 (set_cache old O2 (set_page p pg1 s))) =
  set_cache c C2 (set_page p pg2 (set_cache old O2 s)).
Proof. unfold set_cache, set_page, update. cbn. by rewrite insert_insert_eq. Qed.

Lemma MovePage_step c C old O p pg offset s :
  caches_ok s → caches s !! c = Some C → caches s !! old = Some O → old ≠ c →
  pages s !! p = Some pg → cache_ref pg = Some (self_ref O) →
  cpages C !! Z.shiftr offset PAGE_SHIFT = None → page_count C + 1 < 2 ^ 32 →
  ∃ s' C' O', MovePage c p offset s = Ret s' ∧ caches_ok s' ∧
    caches s' = <[c := C']> (<[old := O']> (caches s)) ∧
    cpages C' = <[Z.shiftr offset PAGE_SHIFT := p]> (cpages C) ∧
    cpages O' = delete (cache_offset pg) (cpages O).
Proof.
  intros Hok HC HO Hne Hp Hr Ho Hb.
  pose proof (proj1 Hok c C HC) as HokC. pose proof HokC as (_ & HcntC & HltC & HwC & _).
  pose proof (proj1 Hok old O HO) as HokO. pose proof HokO as (HrefO & HcntO & HltO & HwO & HelO).
  pose proof (wired_pages_size s (cpages C)) as HwsC.
  pose proof (wired_pages_size s (cpages O)) as HwsO.
  assert (cpages O !! cache_offset pg = Some p) as HoO by (apply HelO; by exists pg).
  assert (0 < page_count O).
  { rewrite HcntO. destruct (size (cpages O)) eqn:E; [|lia].
    apply map_size_empty_inv in E. rewrite E in HoO. by rewrite lookup_empty in HoO. }
  set (pg1 := pg <| cache_ref := None |>).
  set (pg2 := pg <| cache_offset := Z.shiftr offset PAGE_SHIFT |> <| cache_ref := Some (self_ref C) |>).
  assert (∀ C' O', cpages C' = <[Z.shiftr offset PAGE_SHIFT := p]> (cpages C) →
    self_ref C' = self_ref C → page_count C' = page_count C + 1 →
    wired_pages_count C' = wired_pages_count C + wired01 pg →
    cpages O' = delete (cache_offset pg) (cpages O) → self_ref O' = self_ref O →
    page_count O' = page_count O - 1 → wired_pages_count O' = wired_pages_count O - wired01 pg →
    caches_ok (set_cache c C' (set_page p pg2 (set_cache old O' (set_page p pg1 s))))) as Hfin.
  { intros C' O' ? ? ? ? ? ? ? ?.
    assert (caches_ok (set_cache old O' (set_page p pg1 s))) as Hok1.
    { apply (caches_ok_local s old O O' p pg); cbn; auto.
      - by apply (proj2 Hok p).
      - by eapply (cache_ok_leave s old O O' p pg). }
    assert (caches (set_cache old O' (set_page p pg1 s)) !! c = Some C) as HC1
      by (apply lookup_set_cache; auto).
    assert (pages (set_cache old O' (set_page p pg1 s)) !! p = Some pg1) as Hp1
      by (cbn; by rewrite lookup_insert_eq).
    apply (caches_ok_local _ c C C' p pg1); cbn; auto.
    - by apply (proj2 Hok p).
    - apply (cache_ok_join _ c C C' p pg1); auto. by apply (proj1 Hok1). }
  unfold MovePage. rewrite Hp. cbn. unfold page_Cache. rewrite Hr. cbn. rewrite HrefO. cbn.
  rewrite HO. cbn. rewrite lookup_insert_ne, HC by done. cbn.
  rewrite (wrap_small 32 (page_count C + 1)), (wrap_small 32 (page_count O - 1)) by (split; lia).
  destruct (0 <? wired_count pg) eqn:Hwp; cbn.
  - pose proof (proj1 (Z.ltb_lt _ _) Hwp) as Hwp'.
    pose proof (wired_count_bound s old O _ p pg HokO HoO Hp Hwp').
    rewrite lookup_insert_eq. cbn. rewrite IncrementWiredPagesCount_ok by (cbn; lia). cbn.
    rewrite insert_insert_eq, lookup_insert_ne, lookup_insert_eq by done. cbn.
    rewrite DecrementWiredPagesCount_ok by (cbn; lia). cbn.
    eexists _, _, _. split; [reflexivity|]. fold pg2. rewrite <- (move_states s old c p pg1) by done.
    split; [apply Hfin; cbn; auto; unfold wired01; rewrite Hwp; lia|]. done.
  - eexists _, _, _. split; [reflexivity|]. fold pg2.
    rewrite <- (move_states_unwired s old c p pg1).
    split; [apply Hfin; cbn; auto; unfold wired01; rewrite Hwp; lia|]. done.
Qed.

Lemma MoveAllPages_step c C from F s :
  caches_ok s → caches s !! c = Some C → caches s !! from = Some F → c ≠ from →
  cpages C = ∅ →
  ∃ s' C' F', MoveAllPages c from s = Ret s' ∧ caches_ok s' ∧ pages s' = pages s ∧
    caches s' = <[from := F']> (<[c := C']> (caches s)) ∧
    cpages C' = cpages F ∧ cpages F' = ∅.
Proof.
  intros [Hall Hf] HC HF Hne He.
  pose proof (Hall c C HC) as HokC. pose proof (Hall from F HF) as HokF.
  assert (self_ref C ≠ self_ref F) as Hsr by (intros E; apply Hne; eapply self_ref_inj; eauto).
  destruct HokC as (HrC & HcntC & HltC & HwC & HelC).
  destruct HokF as (HrF & HcntF & HltF & HwF & HelF).
  unfold MoveAllPages. rewrite HC, HF. cbn.
  rewrite He, map_size_empty in HcntC. rewrite HcntC. cbn.
  eexists _, _, _. split; [reflexivity|]. split; [|done]. split; [|done].
  intros c1 C1. cbn. rewrite !lookup_insert_Some.
  assert (∀ s' C0, cache_ok s c1 C0 → self_ref C0 ≠ self_ref C → self_ref C0 ≠ self_ref F →
    pages s' = pages s → cacherefs s' = <[self_ref C := from]> (<[self_ref F := c]> (cacherefs s)) →
    cache_ok s' c1 C0) as Hframe.
  { intros s' C0 (? & ? & ? & Hw0 & Hel0) ? ? Hps Hrs. unfold cache_ok, refers.
    rewrite (wired_pages_ext s' s) by (intros; unfold is_wired; by rewrite Hps).
    rewrite Hps, Hrs, !lookup_insert_ne by done. split_and!; auto. }
  intros [[<- <-]|[Hne1 [[<- <-]|[Hne2 HC1]]]].
  - unfold cache_ok. cbn. rewrite lookup_insert_eq, He. split_and!; try done.
    intros o p. rewrite lookup_empty. split; [done|].
    intros Hp. enough (cpages C !! o = Some p) as E by (by rewrite He in E). by apply HelC.
  - unfold cache_ok. cbn. rewrite lookup_insert_ne, lookup_insert_eq by done. split_and!; done.
  - apply Hframe; [by apply Hall|..]; try done.
    + intros E. apply Hne2. symmetry. eapply self_ref_inj; [apply (Hall _ _ HC1)|apply (Hall _ _ HC)|done].
    + intros E. apply Hne1. symmetry. eapply self_ref_inj; [apply (Hall _ _ HC1)|apply (Hall _ _ HF)|done].
Qed.
(** ** Wiring *)

Lemma wired_size_split s c C p pg x :
  cache_ok s c C → pages s !! p = Some pg → cache_ref pg = Some (self_ref C) →
  Z.of_nat (size (wired_pages (set_page p x s) (cpages C))) =
  Z.of_nat (size (wired_pages s (delete (cache_offset pg) (cpages C)))) + wired01 x.
Proof.
  intros (_ & _ & _ & _ & Hel) Hp Hr.
  assert (cpages C !! cache_offset pg = Some p) as Ho by (apply Hel; by exists pg).
  rewrite <- (insert_delete_id _ _ _ Ho) at 1.
  rewrite wired_pages_insert by apply lookup_delete_eq.
  rewrite wired_pages_fresh.
  2:{ intros o' q [Hne Hq]%lookup_delete_Some ->. apply Hel in Hq.
      apply (refers_lookup _ _ _ _ _ Hp) in Hq. naive_solver. }
  unfold wired01. destruct (Z.ltb_spec 0 (wired_count x)) as [Hd|Hd].
  - rewrite decide_True by (by rewrite is_wired_set_page, decide_True).
    rewrite map_size_insert_None; [lia|]. apply map_lookup_filter_None. left. apply lookup_delete_eq.
  - rewrite decide_False; [lia|]. rewrite is_wired_set_page, decide_True by done. lia.
Qed.

Lemma set_page_id s p pg : pages s !! p = Some pg → set_page p pg s = s.
Proof. intros Hp. unfold set_page, update. destruct s. cbn in *. by rewrite insert_id. Qed.

(** Rewiring a page of cache [c] is matched by the cache's counter. *)
Lemma caches_ok_rewire s c C p pg w n :
  caches_ok s → caches s !! c = Some C → pages s !! p = Some pg →
  cache_ref pg = Some (self_ref C) → fits 16 w →
  n = wired_pages_count C - wired01 pg + wired01 (pg <| wired_count := w |>) →
  caches_ok (set_cache c (C <| wired_pages_count := n |>)
               (set_page p (pg <| wired_count := w |>) s)).
Proof.
  intros Hok HC Hp Hr Hw ->. pose proof (proj1 Hok c C HC) as HokC.
  apply (caches_ok_local s c C _ p pg); cbn; auto.
  pose proof (wired_size_split s c C p pg pg HokC Hp Hr) as E1.
  pose proof (wired_size_split s c C p pg (pg <| wired_count := w |>) HokC Hp Hr) as E2.
  rewrite set_page_id in E1 by done.
  destruct HokC as (? & ? & ? & Hwc & Hel). unfold cache_ok. cbn [self_ref page_count wired_pages_count cpages update].
  split_and!; [done..|lia|]. intros o q. rewrite Hel, refers_set_page. cbn. split.
  - intros Hq. destruct (decide (q = p)) as [->|]; [|by right].
    apply (refers_lookup _ _ _ _ _ Hp) in Hq. by left.
  - intros [(-> & ? & ?)|[? ?]]; [|done]. by apply (refers_lookup _ _ _ _ _ Hp).
Qed.

(** A page that is in no cache can be rewired freely. *)
Lemma caches_ok_rewire_free s p pg w :
  caches_ok s → pages s !! p = Some pg → cache_ref pg = None → fits 16 w →
  caches_ok (set_page p (pg <| wired_count := w |>) s).
Proof.
  intros [Hall Hf] Hp Hr Hw. split; [|by apply fits_set_page]. intros c C HC.
  pose proof (Hall c C HC) as HokC. eapply cache_ok_frame; [exact HokC|done| |].
  - intros q o. rewrite refers_set_page. cbn. split; [naive_solver|]. intros Hq. right.
    split; [|done]. intros ->. apply (refers_lookup _ _ _ _ _ Hp) in Hq. naive_solver.
  - intros q o Hq. rewrite is_wired_set_page. case_decide; [subst|done].
    destruct HokC as (_ & _ & _ & _ & Hel). apply Hel, (refers_lookup _ _ _ _ _ Hp) in Hq. naive_solver.
Qed.

(** The page is in no cache, or its reference leads to one. *)
Definition attached s (pg : page) : Prop :=
  cache_ref pg = None ∨ ∃ c C, caches s !! c = Some C ∧ cache_ref pg = Some (self_ref C).

Lemma IncrementWiredCount_ok s p pg :
  caches_ok s → pages s !! p = Some pg → attached s pg → wired_count pg + 1 < 2 ^ 16 →
  ∃ s', IncrementWiredCount p s = Ret s' ∧ caches_ok s' ∧
    pages s' = <[p := pg <| wired_count := wired_count pg + 1 |>]> (pages s).
Proof.
  intros Hok Hp Hat Hb. pose proof (proj2 Hok p pg Hp) as Hf.
  unfold IncrementWiredCount. rewrite Hp. cbn [mbind outcome_bind deref].
  rewrite (wrap_small 16) by (split; destruct Hf; lia).
  assert (fits 16 (wired_count pg + 1)) by (split; destruct Hf; lia).
  destruct Hat as [Hn|(c & C & HC & Hr)].
  - rewrite Hn. destruct (_ =? 0); eexists; (split; [reflexivity|]); (split; [|done]);
      by apply caches_ok_rewire_free.
  - pose proof (proj1 Hok c C HC) as HokC.
    pose proof (wired_size_split s c C p pg pg HokC Hp Hr) as E1.
    rewrite set_page_id in E1 by done. pose proof HokC as (Href & Hcnt & Hlt & Hwc & Hel).
    assert (cpages C !! cache_offset pg = Some p) as Ho by (apply Hel; by exists pg).
    pose proof (map_size_delete_Some _ _ (mk_is_Some _ _ Ho)) as Hsz.
    pose proof (wired_pages_size s (delete (cache_offset pg) (cpages C))).
    assert (size (cpages C) ≠ 0%nat) by (intros E%map_size_empty_inv; rewrite E in Ho; by rewrite lookup_empty in Ho).
    unfold wired01 in E1. destruct (Z.eqb_spec (wired_count pg) 0) as [Hz|Hz].
    + rewrite Hr. cbn. rewrite Href. cbn. rewrite HC. cbn.
      rewrite Hz in E1. cbn in E1. rewrite IncrementWiredPagesCount_ok by lia. cbn.
      eexists. split; [reflexivity|]. split; [|done].
      apply caches_ok_rewire; auto. unfold wired01. cbn. rewrite Hz. change (0 <? 0 + 1) with true. cbn. lia.
    + eexists. split; [reflexivity|]. split; [|done].
      assert (C = C <| wired_pages_count := wired_pages_count C |>) as HCeq by (by destruct C).
      assert (caches_ok (set_cache c (C <| wired_pages_count := wired_pages_count C |>)
        (set_page p (pg <| wired_count := wired_count pg + 1 |>) s))) as Hok'.
      { apply caches_ok_rewire; auto. unfold wired01. cbn. destruct Hf.
        rewrite !(proj2 (Z.ltb_lt _ _)) by lia. lia. }
      rewrite <- HCeq in Hok'. unfold set_cache, set_page, update in *. cbn in *.
      rewrite (insert_id (caches s)) in Hok' by done. exact Hok'.
Qed.

Lemma DecrementWiredCount_ok s p pg :
  caches_ok s → pages s !! p = Some pg → attached s pg → 0 < wired_count pg →
  ∃ s', DecrementWiredCount p s = Ret s' ∧ caches_ok s' ∧
    pages s' = <[p := pg <| wired_count := wired_count pg - 1 |>]> (pages s).
Proof.
  intros Hok Hp Hat Hb. pose proof (proj2 Hok p pg Hp) as Hf.
  unfold DecrementWiredCount. rewrite Hp. cbn [mbind outcome_bind deref].
  rewrite (proj2 (Z.ltb_lt _ _)) by done. cbn [assert].
  assert (fits 16 (wired_count pg - 1)) by (split; destruct Hf; lia).
  rewrite (wrap_small 16) by done.
  destruct Hat as [Hn|(c & C & HC & Hr)].
  - rewrite Hn. destruct (_ =? 0); eexists; (split; [reflexivity|]); (split; [|done]);
      by apply caches_ok_rewire_free.
  - pose proof (proj1 Hok c C HC) as HokC. pose proof HokC as (Href & Hcnt & Hlt & Hwc & Hel).
    pose proof (wired_pages_size s (cpages C)).
    assert (cpages C !! cache_offset pg = Some p) as Ho by (apply Hel; by exists pg).
    pose proof (wired_count_bound s c C _ p pg HokC Ho Hp Hb).
    destruct (Z.eqb_spec (wired_count pg - 1) 0) as [Hz|Hz].
    + rewrite Hr. cbn. rewrite Href. cbn. rewrite HC. cbn.
      rewrite DecrementWiredPagesCount_ok by lia. cbn.
      eexists. split; [reflexivity|]. split; [|done].
      apply caches_ok_rewire; auto. unfold wired01. cbn.
      rewrite (proj2 (Z.ltb_lt 0 (wired_count pg))), Hz by lia. cbn. lia.
    + eexists. split; [reflexivity|]. split; [|done].
      assert (C = C <| wired_pages_count := wired_pages_count C |>) as HCeq by (by destruct C).
      assert (caches_ok (set_cache c (C <| wired_pages_count := wired_pages_count C |>)
        (set_page p (pg <| wired_count := wired_count pg - 1 |>) s))) as Hok'.
      { apply caches_ok_rewire; auto. unfold wired01. cbn.
        rewrite !(proj2 (Z.ltb_lt _ _)) by lia. lia. }
      rewrite <- HCeq in Hok'. unfold set_cache, set_page, update in *. cbn in *.
      rewrite (insert_id (caches s)) in Hok' by done. exact Hok'.
Qed.
(** ** A checker for concrete states *)

Definition caches_okb s : bool :=
  bool_decide (map_Forall (fun c C =>
    cacherefs s !! self_ref C = Some c ∧
    page_count C = Z.of_nat (size (cpages C)) ∧ page_count C < 2 ^ 32 ∧
    wired_pages_count C = Z.of_nat (size (wired_pages s (cpages C))) ∧
    map_Forall (fun o p => cache_offset <$> pages s !! p = Some o ∧
      pages s !! p ≫= cache_ref = Some (self_ref C)) (cpages C) ∧
    map_Forall (fun p pg => cache_ref pg ≠ Some (self_ref C) ∨
      cpages C !! cache_offset pg = Some p) (pages s)) (caches s)) &&
  bool_decide (map_Forall (fun _ pg => 0 <= wired_count pg ∧ wired_count pg < 2 ^ 16) (pages s)).

Lemma caches_okb_sound s : caches_okb s = true → caches_ok s.
Proof.
  intros [H1 H2]%andb_true_iff. breflect. split.
  - intros c C HC. destruct (H1 c C HC) as (? & ? & ? & ? & Hfw & Hbw).
    split_and!; [done..|]. intros o p. split.
    + intros Ho. destruct (Hfw o p Ho) as [E1 E2]. unfold refers.
      destruct (pages s !! p) as [pg|]; cbn in *; [|done]. exists pg. naive_solver.
    + intros (pg & Hp & <- & Hr). by destruct (Hbw p pg Hp).
  - intros p pg Hp. destruct (H2 p pg Hp). by split.
Qed.
(** Wiring keeps the caches and their references. *)
Lemma IncrementWiredCount_caches s p s' :
  IncrementWiredCount p s = Ret s' → ∀ c C, caches s !! c = Some C →
  ∃ C', caches s' !! c = Some C' ∧ self_ref C' = self_ref C.
Proof.
  unfold IncrementWiredCount. intros H c C HC. inv_outcome; cbn; eauto.
  match goal with H : IncrementWiredPagesCount _ = _ |- _ => unfold IncrementWiredPagesCount in H end.
  inv_outcome. unfold deref in *. inv_outcome.
  match goal with |- context [<[?c' := _]> _] => destruct (decide (c' = c)) as [->|Hne] end.
  - rewrite lookup_insert_eq. simplify_eq. eauto.
  - rewrite lookup_insert_ne by done. eauto.
Qed.
End ops.
(** Inserting an unattached page at a free offset of a cache makes
    LookupPage find exactly that page there, leaves every other lookup of
    every cache alone and preserves the invariant of all caches: page_count
    is the number of pages in the tree, wired_pages_count the number of
    wired ones, and a page is in the tree of a cache exactly when its cache
    reference and offset say so. *)
Lemma insert_page_correct {DL : DLList Z} (c : Z) (C : VMCache) (p : Z) (pg : page)
    (offset : Z) (s : vmstate)
    (Hok : caches_ok s) (HC : caches s !! c = Some C) (Hp : pages s !! p = Some pg)
    (Hfree : cache_ref pg = None) (Hslot : LookupPage c offset s = Ret None)
    (Hroom : page_count C + 1 < 2 ^ 32) :
  ∃ s', InsertPage c p offset s = Ret s' ∧ caches_ok s' ∧
    LookupPage c offset s' = Ret (Some p) ∧
    ∀ c' o', c' ≠ c ∨ Z.shiftr o' PAGE_SHIFT ≠ Z.shiftr offset PAGE_SHIFT →
      is_Some (caches s !! c') → LookupPage c' o' s' = LookupPage c' o' s.
Proof.
  erewrite LookupPage_tree in Hslot by done. injection Hslot as Hslot.
  destruct (InsertPage_step c C p pg offset s) as (C' & -> & HC' & Hok'); auto.
  eexists. split; [done|]. split; [done|].
  assert (∀ c' D, c' ≠ c → caches s !! c' = Some D →
    caches (set_cache c C' (set_page p (pg <| cache_offset := Z.shiftr offset PAGE_SHIFT |>
       <| cache_ref := Some (self_ref C) |>) s)) !! c' = Some D) as Hother
    by (intros; apply lookup_set_cache; auto).
  split.
  - erewrite LookupPage_tree; [|done|apply lookup_set_cache; auto].
    by rewrite HC', lookup_insert_eq.
  - intros c' o' Hdiff [D HD]. destruct (decide (c' = c)) as [->|Hne].
    + simplify_eq. erewrite !LookupPage_tree; [|done..|apply lookup_set_cache; auto].
      rewrite HC', lookup_insert_ne by naive_solver. done.
    + by erewrite !LookupPage_tree by eauto.
Qed.

(** RemovePage of a page of a cache makes exactly that offset empty,
    detaches the page (no cache reference), leaves every other lookup alone
    and preserves the cache invariant. *)
Lemma remove_page_correct {DL : DLList Z} (c : Z) (C : VMCache) (p : Z) (offset : Z)
    (s : vmstate)
    (Hok : caches_ok s) (HC : caches s !! c = Some C)
    (Hin : LookupPage c offset s = Ret (Some p)) :
  ∃ s' pg', RemovePage c p s = Ret s' ∧ caches_ok s' ∧
    pages s' !! p = Some pg' ∧ cache_ref pg' = None ∧
    LookupPage c offset s' = Ret None ∧
    ∀ c' o', c' ≠ c ∨ Z.shiftr o' PAGE_SHIFT ≠ Z.shiftr offset PAGE_SHIFT →
      is_Some (caches s !! c') → LookupPage c' o' s' = LookupPage c' o' s.
Proof.
  erewrite LookupPage_tree in Hin by done. injection Hin as Hin.
  pose proof (proj1 Hok c C HC) as HokC. pose proof HokC as (_ & _ & _ & _ & Hel).
  pose proof Hin as (pg & Hp & Ho & Hr)%Hel.
  destruct (RemovePage_step c C p pg s) as (C' & -> & HC' & Hok'); auto.
  rewrite Ho in HC'. eexists _, (pg <| cache_ref := None |>).
  split; [done|]. split; [done|]. split; [cbn; by rewrite lookup_insert_eq|].
  split; [done|]. split.
  - erewrite LookupPage_tree; [|done|apply lookup_set_cache; auto].
    by rewrite HC', lookup_delete_eq.
  - intros c' o' Hdiff [D HD]. destruct (decide (c' = c)) as [->|Hne].
    + simplify_eq. erewrite !LookupPage_tree; [|done..|apply lookup_set_cache; auto].
      rewrite HC', lookup_delete_ne by naive_solver. done.
    + erewrite !LookupPage_tree; [done|done|done|done|apply lookup_set_cache; auto].
Qed.

(** MovePage to another cache and offset removes the page from its old
    cache and makes it the page found at the new offset, leaving every other
    lookup alone; the cache invariant (page and wired page counts of both
    caches included) is preserved. *)
Lemma move_page_correct {DL : DLList Z} (c old : Z) (C O : VMCache) (p offset oldoffset : Z)
    (s : vmstate)
    (Hok : caches_ok s) (HC : caches s !! c = Some C) (HO : caches s !! old = Some O)
    (Hne : old ≠ c) (Hin : LookupPage old oldoffset s = Ret (Some p))
    (Hslot : LookupPage c offset s = Ret None) (Hroom : page_count C + 1 < 2 ^ 32) :
  ∃ s', MovePage c p offset s = Ret s' ∧ caches_ok s' ∧
    LookupPage c offset s' = Ret (Some p) ∧ LookupPage old oldoffset s' = Ret None ∧
    dom (caches s') = dom (caches s) ∧
    ∀ c' o', (c' = c → Z.shiftr o' PAGE_SHIFT ≠ Z.shiftr offset PAGE_SHIFT) →
      (c' = old → Z.shiftr o' PAGE_SHIFT ≠ Z.shiftr oldoffset PAGE_SHIFT) →
      is_Some (caches s !! c') → LookupPage c' o' s' = LookupPage c' o' s.
Proof.
  erewrite LookupPage_tree in Hin, Hslot by done. injection Hin as Hin. injection Hslot as Hslot.
  destruct (proj1 Hok old O HO) as (_ & _ & _ & _ & Hel). pose proof Hin as (pg & Hp & Ho & Hr)%Hel.
  destruct (MovePage_step c C old O p pg offset s) as (s' & C' & O' & -> & Hok' & Hcs & HC' & HO'); auto.
  assert (caches s' !! c = Some C') as Hc by (by rewrite Hcs, lookup_insert_eq).
  assert (caches s' !! old = Some O') as Hold by (by rewrite Hcs, lookup_insert_ne, lookup_insert_eq).
  exists s'. split; [done|]. split; [done|].
  split; [by erewrite LookupPage_tree, HC', lookup_insert_eq by done|].
  split; [by erewrite LookupPage_tree, HO', Ho, lookup_delete_eq by done|].
  split. { rewrite Hcs, !dom_insert_L. apply (elem_of_dom_2 (D := gset Z)) in HC, HO. set_solver. }
  intros c' o' Hdc Hdo [D HD].
  destruct (decide (c' = c)) as [->|Hnc]; [|destruct (decide (c' = old)) as [->|Hno]].
  - simplify_eq. erewrite !LookupPage_tree by done. specialize (Hdc eq_refl).
    by rewrite HC', lookup_insert_ne by congruence.
  - simplify_eq. erewrite !LookupPage_tree by done. specialize (Hdo eq_refl).
    by rewrite HO', lookup_delete_ne by congruence.
  - erewrite !LookupPage_tree; [done..|]. by rewrite Hcs, !lookup_insert_ne.
Qed.

(** MoveAllPages into an empty cache exchanges the page trees and the
    cache references of the two caches: the destination answers every lookup
    as the source did, the source is empty, and the cache invariant (each
    page reaches its cache through its reference) still holds. *)
Lemma move_all_pages_correct {DL : DLList Z} (c from : Z) (C F : VMCache) (s : vmstate)
    (Hok : caches_ok s) (HC : caches s !! c = Some C) (HF : caches s !! from = Some F)
    (Hne : c ≠ from) (Hempty : page_count C = 0) :
  ∃ s', MoveAllPages c from s = Ret s' ∧ caches_ok s' ∧ pages s' = pages s ∧
    ∀ o, LookupPage c o s' = LookupPage from o s ∧ LookupPage from o s' = Ret None.
Proof.
  assert (cpages C = ∅) as He.
  { destruct (proj1 Hok c C HC) as (_ & Hn & _). rewrite Hempty in Hn.
    apply map_size_empty_inv. lia. }
  destruct (MoveAllPages_step c C from F s) as (s' & C' & F' & -> & Hok' & Hps & Hcs & HC' & HF'); auto.
  exists s'. split; [done|]. split; [done|]. split; [done|]. intros o.
  assert (caches s' !! c = Some C') as Hc by (by rewrite Hcs, lookup_insert_ne, lookup_insert_eq).
  assert (caches s' !! from = Some F') as Hf by (by rewrite Hcs, lookup_insert_eq).
  erewrite !LookupPage_tree by done. by rewrite HC', HF', lookup_empty.
Qed.

(** IncrementWiredCount followed by DecrementWiredCount on a page of a
    cache succeeds and restores every page, and both preserve the cache
    invariant, in which wired_pages_count is the number of pages of the
    cache whose wired count is positive. *)
Lemma wiring_balanced {DL : DLList Z} (p : Z) (pg : page) (s : vmstate)
    (Hok : caches_ok s) (Hp : pages s !! p = Some pg) (Hat : attached s pg)
    (Hroom : wired_count pg + 1 < 2 ^ 16) :
  ∃ s1 s2, IncrementWiredCount p s = Ret s1 ∧ caches_ok s1 ∧
    DecrementWiredCount p s1 = Ret s2 ∧ caches_ok s2 ∧ pages s2 = pages s.
Proof.
  destruct (IncrementWiredCount_ok s p pg) as (s1 & Hi & Hok1 & Hp1); auto.
  assert (pages s1 !! p = Some (pg <| wired_count := wired_count pg + 1 |>)) as Hp1'
    by (by rewrite Hp1, lookup_insert_eq).
  destruct (proj2 Hok p pg Hp) as [Hw0 _].
  destruct (DecrementWiredCount_ok s1 p _ Hok1 Hp1') as (s2 & Hd & Hok2 & Hp2).
  - destruct Hat as [Hn|(c & C & HC & Hr)]; [by left|right].
    destruct (IncrementWiredCount_caches s p s1 Hi c C HC) as (C' & HC' & Hsr).
    exists c, C'. cbn. by rewrite Hsr.
  - cbn. lia.
  - exists s1, s2. split_and!; auto. rewrite Hp2, Hp1, insert_insert_eq. cbn.
    rewrite Z.add_simpl_r. apply insert_id. rewrite Hp. by destruct pg.
Qed.

(** Two caches, the first with page 1 at offset 0 and page 2, wired, at 0x3000. *)
Definition two_caches : vmstate :=
  (vm_boot {[ 1 := page_zero <| pfn := 1 |> <| cache_ref := Some 1000 |>;
              2 := page_zero <| pfn := 2 |> <| cache_ref := Some 1000 |>
                     <| cache_offset := 3 |> <| wired_count := 1 |>;
              3 := page_zero <| pfn := 3 |> ]})
    <| cacherefs := {[ 1000 := 100; 2000 := 200 ]} |>
    <| caches := {[ 100 := mkVMCache [] [] {[ 0 := 1; 3 := 2 ]} None 0 16384 0 0 2 true true
                      CACHE_TYPE_RAM 1 1000 1;
                    200 := mkVMCache [] [] ∅ None 0 16384 0 0 0 true true CACHE_TYPE_RAM 1 2000 0 ]} |>.

Lemma insert_page_correct_witness :
  ∃ s', InsertPage 100 3 8192 two_caches = Ret s' ∧ caches_ok s' ∧
    LookupPage 100 8192 s' = Ret (Some 3) ∧ LookupPage 100 0 s' = Ret (Some 1).
Proof.
  edestruct (fun C pg => insert_page_correct 100 C 3 pg 8192 two_caches) as (s' & He & Hok & Hl & Ho);
    [apply caches_okb_sound; vm_compute; reflexivity | vm_compute; reflexivity |
     vm_compute; reflexivity | vm_compute; reflexivity | vm_compute; reflexivity |
     vm_compute; reflexivity | ].
  exists s'. split; [exact He|]. split; [exact Hok|]. split; [exact Hl|].
  rewrite Ho; [vm_compute; reflexivity | right; vm_compute; discriminate | vm_compute; eauto].
Defined.

Lemma remove_page_correct_witness :
  ∃ s' pg', RemovePage 100 2 two_caches = Ret s' ∧ caches_ok s' ∧
    pages s' !! 2 = Some pg' ∧ cache_ref pg' = None ∧ LookupPage 100 12288 s' = Ret None.
Proof.
  edestruct (fun C => remove_page_correct 100 C 2 12288 two_caches) as (s' & pg' & He & Hok & Hp & Hr & Hl & _);
    [apply caches_okb_sound; vm_compute; reflexivity | vm_compute; reflexivity |
     vm_compute; reflexivity | ].
  exists s', pg'. auto.
Defined.

Lemma move_page_correct_witness :
  ∃ s', MovePage 200 2 4096 two_caches = Ret s' ∧ caches_ok s' ∧
    LookupPage 200 4096 s' = Ret (Some 2) ∧ LookupPage 100 12288 s' = Ret None.
Proof.
  edestruct (fun C O => move_page_correct 200 100 C O 2 4096 12288 two_caches) as (s' & He & Hok & Hl & Hl' & _);
    [apply caches_okb_sound; vm_compute; reflexivity | vm_compute; reflexivity |
     vm_compute; reflexivity | discriminate | vm_compute; reflexivity | vm_compute; reflexivity |
     vm_compute; reflexivity | ].
  exists s'. auto.
Defined.

Lemma move_all_pages_correct_witness :
  ∃ s', MoveAllPages 200 100 two_caches = Ret s' ∧ caches_ok s' ∧
    LookupPage 200 12288 s' = Ret (Some 2) ∧ LookupPage 100 12288 s' = Ret None.
Proof.
  edestruct (fun C F => move_all_pages_correct 200 100 C F two_caches) as (s' & He & Hok & _ & Hl);
    [apply caches_okb_sound; vm_compute; reflexivity | vm_compute; reflexivity |
     vm_compute; reflexivity | discriminate | vm_compute; reflexivity | ].
  exists s'. split; [exact He|]. split; [exact Hok|]. destruct (Hl 12288) as [-> ->].
  split; [vm_compute; reflexivity | reflexivity].
Defined.

Lemma wiring_balanced_witness :
  ∃ s1 s2, IncrementWiredCount 1 two_caches = Ret s1 ∧ caches_ok s1 ∧
    DecrementWiredCount 1 s1 = Ret s2 ∧ caches_ok s2 ∧ pages s2 = pages two_caches.
Proof.
  eapply (wiring_balanced 1);
    [apply caches_okb_sound; vm_compute; reflexivity | vm_compute; reflexivity | |
     vm_compute; reflexivity].
  right. exists 100. eexists. split; vm_compute; reflexivity.
Defined.

(** [InsertPage] stores a byte offset in [virtual_last_page] and [RemovePage]
    compares it with a page index: after inserting one page at byte offset
    0x5000 and removing it again the field still names the removed page. *)
Lemma virtual_last_page_not_reset :
  ∃ s1 s2 C2, InsertPage 200 3 20480 two_caches = Ret s1 ∧ RemovePage 200 3 s1 = Ret s2 ∧
    caches s2 !! 200 = Some C2 ∧ cpages C2 = ∅ ∧ virtual_last_page C2 = 20480.
Proof. do 3 eexists. split; [vm_compute; reflexivity|]. vm_compute. eauto. Qed.
