(* ===== verification/PageAlloc.v ===== *)
(** page_alloc.cpp: page states, the free lists, page reservations and the
    memory commitment counter, for a single memory zone (no hotplug).

    [pages_ok] says that every page is on exactly the queue its state names;
    the pages on the free and clear queues are accounted for in Reservation.v
    by the unreserved pages and the outstanding reservations.  The operations
    run under the locks the code takes, so each is one atomic step. *)
From S2P Require Import Prelude VMState PageQueue.
From stdpp Require Import base list list_numbers numbers gmap.
From Stdlib Require Import ZArith Lia.
Local Open Scope Z_scope.

(** ** Priorities and reserves (page.h, page_alloc.cpp) *)

Inductive gfp_prio := GFP_PRIO_USER | GFP_PRIO_SYSTEM | GFP_PRIO_VIP | GFP_PRIO_EXTERNAL.
#[export] Instance gfp_prio_eq_dec : EqDecision gfp_prio.
Proof. solve_decision. Defined.

Definition VM_PAGE_RESERVE_USER : Z := 64.
Definition VM_PAGE_RESERVE_SYSTEM : Z := 8.

Definition kPageReserveForPriority (p : gfp_prio) : Z :=
  match p with
  | GFP_PRIO_USER => VM_PAGE_RESERVE_USER
  | GFP_PRIO_SYSTEM => VM_PAGE_RESERVE_SYSTEM
  | GFP_PRIO_VIP => 0
  | GFP_PRIO_EXTERNAL => 0
  end.

Definition kMemoryReserveForPriority (p : gfp_prio) : Z :=
  match p with
  | GFP_PRIO_USER => Z.shiftl VM_PAGE_RESERVE_USER PAGE_SHIFT
  | GFP_PRIO_SYSTEM => Z.shiftl VM_PAGE_RESERVE_SYSTEM PAGE_SHIFT
  | GFP_PRIO_VIP => 0
  | GFP_PRIO_EXTERNAL => Z.shiftl VM_PAGE_RESERVE_USER PAGE_SHIFT
  end.

Section ops.
Context {DL : DLList Z}.
Implicit Types (s : vmstate) (p : Z) (z : MemoryZone).

(** ** Page states *)

(** The switch that [free_page] and [set_page_state] make on the state of
    the page, and [set_page_state] on the target state. *)
Definition state_queue (st : page_state) : outcome (option queue_id) :=
  match st with
  | PAGE_STATE_ACTIVE => Ret (Some QActive)
  | PAGE_STATE_INACTIVE => Ret (Some QInactive)
  | PAGE_STATE_MODIFIED => Ret (Some QModified)
  | PAGE_STATE_CACHED => Ret (Some QCached)
  | PAGE_STATE_FREE | PAGE_STATE_CLEAR => Panic
  | PAGE_STATE_WIRED | PAGE_STATE_UNUSED => Ret None
  end.

Definition SetState (st : page_state) p s : vmstate :=
  upd_page p (fun pg => pg <| state := st |>) s.

Definition on_queue (q : option queue_id) (f : queue_id → vmstate → outcome vmstate) s
  : outcome vmstate :=
  match q with Some q => f q s | None => Ret s end.

Definition free_page p (clear : bool) s : outcome vmstate :=
  pg ← deref (pages s !! p);
  _ ← assert (negb (IsMapped pg));
  q ← state_queue (state pg);
  _ ← assert (bool_decide (cache_ref pg = None));
  _ ← assert (negb (IsMapped pg));
  s ← on_queue q (fun q => RemoveUnlocked q p) s;
  if clear then PrependUnlocked QClear p (SetState PAGE_STATE_CLEAR p s)
  else PrependUnlocked QFree p (SetState PAGE_STATE_FREE p s).

Definition set_page_state p (st : page_state) s : outcome vmstate :=
  pg ← deref (pages s !! p);
  if decide (st = state pg) then Ret s else
  from ← state_queue (state pg);
  _ ← (if decide (st = PAGE_STATE_CACHED) then
         assert (negb (IsMapped pg) && negb (modified pg)) else Ret tt);
  to ← state_queue st;
  let temp :=
    match c ← page_Cache s pg; caches s !! c with
    | Some C => temporary C
    | None => false
    end in
  let s :=
    if temp then
      if decide (st = PAGE_STATE_MODIFIED) then
        s <| sModifiedTemporaryPages ::= fun n => i32 (n + 1) |>
      else if decide (state pg = PAGE_STATE_MODIFIED) then
        s <| sModifiedTemporaryPages ::= fun n => i32 (n - 1) |>
      else s
    else s in
  if decide (to = from) then
    _ ← assert (bool_decide (is_Some (page_Cache s pg)));
    Ret (SetState st p s)
  else
    s ← on_queue from (fun q => RemoveUnlocked q p) s;
    on_queue to (fun q => AppendUnlocked q p) (SetState st p s).

Definition move_page_to_appropriate_queue p s : outcome vmstate :=
  pg ← deref (pages s !! p);
  set_page_state p
    (if IsMapped pg then PAGE_STATE_ACTIVE
     else if modified pg then PAGE_STATE_MODIFIED else PAGE_STATE_CACHED) s.

(** ** Reservations *)

(** The compare-and-exchange loop, as the step in which it succeeds.  The
    subtraction is made in [uint32_t] as in the code. *)
Definition reserve_some_pages_from_zone (count dontTouch : Z) z : Z * MemoryZone :=
  let freePages := fUnreservedFreePages z in
  if freePages <=? i32 dontTouch then (0, z)
  else
    let toReserve := i32 (Z.min count (u32 (freePages - dontTouch))) in
    (u32 toReserve, z <| fUnreservedFreePages := i32 (freePages - toReserve) |>).

(** [waiter < other] of [PageReservationWaiter]. *)
Definition waiter_lt (w o : PageReservationWaiter) : bool :=
  if negb (dontTouch w =? dontTouch o) then dontTouch w <? dontTouch o
  else threadPriority o <? threadPriority w.

(** The loop of [wake_up_page_reservation_waiters_for_zone]; the second
    result lists the threads whose condition was notified. *)
Fixpoint wake_up_loop (ws : list PageReservationWaiter) z : MemoryZone * list Z :=
  match ws with
  | [] => (z <| fPageReservationWaiters := [] |>, [])
  | w :: ws' =>
      let '(reserved, z) := reserve_some_pages_from_zone (missing w) (dontTouch w) z in
      if reserved =? 0 then (z <| fPageReservationWaiters := ws |>, [])
      else
        let z := z <| fUnsatisfiedPageReservations ::= fun n => i32 (n - reserved) |> in
        let m := u32 (missing w - reserved) in
        if 0 <? m then (z <| fPageReservationWaiters := w <| missing := m |> :: ws' |>, [])
        else
          let '(z, woken) := wake_up_loop ws' z in
          (z, wthread w :: woken)
  end.

Definition wake_up_page_reservation_waiters_for_zone z : MemoryZone * list Z :=
  wake_up_loop (fPageReservationWaiters z) z.

Definition unreserve_pages_for_zone (count : Z) z : MemoryZone * list Z :=
  let z := z <| fUnreservedFreePages ::= fun n => i32 (n + count) |> in
  if fUnsatisfiedPageReservations z =? 0 then (z, [])
  else wake_up_page_reservation_waiters_for_zone z.

Definition unreserve_pages (count : Z) s : vmstate * list Z :=
  let '(z, woken) := unreserve_pages_for_zone count (sMemoryZone s) in
  (s <| sMemoryZone := z |>, woken).

(** [vm_reservation_t] is its counter. *)
Definition vm_page_unreserve_pages (reservation : Z) s : Z * vmstate :=
  let count := reservation in
  if count =? 0 then (0, s) else (0, (unreserve_pages count s).1).

(** The insertion position of a new waiter: after all waiters of higher or
    equal priority. *)
Fixpoint insert_waiter (w : PageReservationWaiter) (ws : list PageReservationWaiter)
  : list PageReservationWaiter :=
  match ws with
  | [] => [w]
  | o :: ws' => if waiter_lt w o then w :: ws else o :: insert_waiter w ws'
  end.

(** ** Allocating and freeing pages *)

Definition testflag (flags mask : Z) : bool := negb (Z.land flags mask =? 0).

(** The dequeue of [vm_page_allocate_page_etc]: a page of the preferred queue
    or else of the other, first under the read lock and, when both came up
    empty, again under the write lock, where an empty result is a panic. *)
Definition take_free_page (q otherq : queue_id) s : outcome (Z * vmstate) :=
  '(r, s) ← RemoveHeadUnlocked q s;
  match r with
  | Some p => Ret (p, s)
  | None =>
      '(r, s) ← RemoveHeadUnlocked otherq s;
      match r with
      | Some p => Ret (p, s)
      | None =>
          '(r, s) ← RemoveHead q s;
          match r with
          | Some p => Ret (p, s)
          | None =>
              '(r, s) ← RemoveHead otherq s;
              p ← deref r; Ret (p, s)
          end
      end
  end.

(** The results are the page, the remaining reservation, whether [clear_page]
    was called on the page, and the state. *)
Definition vm_page_allocate_page_etc (reservation flags : Z) s
  : outcome (Z * Z * bool * vmstate) :=
  let pageState := page_state_of_code (Z.land flags VM_PAGE_ALLOC_STATE) in
  _ ← assert (bool_decide (pageState ≠ PAGE_STATE_FREE));
  _ ← assert (bool_decide (pageState ≠ PAGE_STATE_CLEAR));
  _ ← assert (0 <? reservation);
  let reservation := u32 (reservation - 1) in
  let '(q, otherq) :=
    if testflag flags VM_PAGE_ALLOC_CLEAR then (QClear, QFree) else (QFree, QClear) in
  '(p, s) ← take_free_page q otherq s;
  pg ← deref (pages s !! p);
  _ ← assert (bool_decide (cache_ref pg = None));
  let s := upd_page p (fun pg =>
    pg <| state := pageState |> <| busy := testflag flags VM_PAGE_ALLOC_BUSY |>
       <| usage_count := 0 |> <| accessed := false |> <| modified := false |>) s in
  _ ← assert (wired_count pg =? 0);
  s ← match pageState with
      | PAGE_STATE_ACTIVE => AppendUnlocked QActive p s
      | PAGE_STATE_INACTIVE => AppendUnlocked QInactive p s
      | PAGE_STATE_MODIFIED => AppendUnlocked QModified p s
      | PAGE_STATE_CACHED => AppendUnlocked QCached p s
      | PAGE_STATE_FREE | PAGE_STATE_CLEAR => Panic
      | PAGE_STATE_WIRED | PAGE_STATE_UNUSED => Ret s
      end;
  let cleared :=
    testflag flags VM_PAGE_ALLOC_CLEAR && bool_decide (state pg ≠ PAGE_STATE_CLEAR) in
  Ret (p, reservation, cleared, s).

(** [vm_page_free_etc]; the reservation is [None] for a null pointer. *)
Definition vm_page_free_etc (cache : option Z) p (reservation : option Z) s
  : outcome (option Z * vmstate) :=
  pg ← deref (pages s !! p);
  _ ← assert (bool_decide (state pg ≠ PAGE_STATE_FREE) && bool_decide (state pg ≠ PAGE_STATE_CLEAR));
  s ← (if decide (state pg = PAGE_STATE_MODIFIED) then
         C ← deref (c ← cache; caches s !! c);
         if temporary C then Ret (s <| sModifiedTemporaryPages ::= fun n => i32 (n - 1) |>)
         else Ret s
       else Ret s);
  s ← free_page p false s;
  match reservation with
  | None => Ret (None, (unreserve_pages 1 s).1)
  | Some r => Ret (Some (u32 (r + 1)), s)
  end.

Definition vm_page_set_state p (st : page_state) s : outcome vmstate :=
  pg ← deref (pages s !! p);
  _ ← assert (bool_decide (state pg ≠ PAGE_STATE_FREE) && bool_decide (state pg ≠ PAGE_STATE_CLEAR));
  match st with
  | PAGE_STATE_FREE | PAGE_STATE_CLEAR =>
      s ← free_page p (bool_decide (st = PAGE_STATE_CLEAR)) s;
      Ret (unreserve_pages 1 s).1
  | _ => set_page_state p st s
  end.

Definition vm_page_requeue p (tail : bool) s : outcome vmstate :=
  pg ← deref (pages s !! p);
  _ ← assert (bool_decide (is_Some (page_Cache s pg)));
  q ← state_queue (state pg);
  on_queue q (fun q => RequeueUnlocked q p tail) s.

(** ** Targets of the page daemon *)

Definition recalculate_free_targets z : MemoryZone :=
  let target := VM_PAGE_RESERVE_USER + Z.max 32 (fTotalPages z ÷ 1024) in
  let z := z <| fFreePagesTarget := target |> in
  if fUnreservedFreePages z <? 16 * 1024 then
    z <| fFreeOrCachedPagesTarget := u32 (target + 128) |>
      <| fInactivePagesTarget := target / 3 |>
  else
    z <| fFreeOrCachedPagesTarget := u32 (2 * target) |>
      <| fInactivePagesTarget := target / 2 |>.

(** ** Invariant: every page is on the queue its state names *)

Definition home (st : page_state) : option queue_id :=
  match st with
  | PAGE_STATE_ACTIVE => Some QActive
  | PAGE_STATE_INACTIVE => Some QInactive
  | PAGE_STATE_MODIFIED => Some QModified
  | PAGE_STATE_CACHED => Some QCached
  | PAGE_STATE_FREE => Some QFree
  | PAGE_STATE_CLEAR => Some QClear
  | PAGE_STATE_WIRED | PAGE_STATE_UNUSED => None
  end.

Definition is_free (pg : page) : Prop :=
  state pg = PAGE_STATE_FREE ∨ state pg = PAGE_STATE_CLEAR.
#[global] Instance is_free_dec pg : Decision (is_free pg).
Proof. unfold is_free. apply _. Defined.

(** A free page belongs to no cache and is neither wired nor mapped. *)
Definition page_ok (pg : page) : Prop :=
  queue pg = home (state pg) ∧
  (is_free pg → cache_ref pg = None ∧ wired_count pg = 0 ∧ mappings pg = []).

Definition pages_ok s : Prop := queues_ok s ∧ ∀ p pg, pages s !! p = Some pg → page_ok pg.

(** The part of the state that queue operations do not touch. *)
Definition erase s : vmstate :=
  s <| pages := ∅ |> <| sActivePageQueue := queue_init |>
    <| sInactivePageQueue := queue_init |> <| sModifiedPageQueue := queue_init |>
    <| sMemoryZone ::= fun z => z <| fFreePageQueue := queue_init |>
         <| fClearPageQueue := queue_init |> <| fCachedPageQueue := queue_init |> |>.

(** [s'] is [s] with page [p] replaced by [pg] and the queues adapted. *)
Definition page_update p (pg : page) s s' : Prop :=
  queues_ok s' ∧ pages s' = <[p := pg]> (pages s) ∧ erase s' = erase s.

(** Number of pages on the free and clear queues. *)
Definition nfree s : Z :=
  Z.of_nat (length (qelems QFree s)) + Z.of_nat (length (qelems QClear s)).

Definition free01 (pg : page) : Z := if decide (is_free pg) then 1 else 0.

Lemma erase_set_queue i q s : erase (set_queue i q s) = erase s.
Proof. by destruct i. Qed.

Lemma erase_upd_page p f s : erase (upd_page p f s) = erase s.
Proof. done. Qed.

Lemma alter_insert_page (f : page → page) p (m : gmap Z page) pg :
  m !! p = Some pg → alter f p m = <[p := f pg]> m.
Proof.
  intros Hp. apply map_eq. intros q. destruct (decide (q = p)) as [->|].
  - by rewrite lookup_alter_eq, lookup_insert_eq, Hp.
  - by rewrite lookup_alter_ne, lookup_insert_ne.
Qed.

Lemma queue_step_update i l p pg v s s' :
  pages s !! p = Some pg → queues_ok s' → queue_step i l p v s s' →
  page_update p (pg <| queue := v |>) s s' ∧ qelems i s' = l ∧
  ∀ j, j ≠ i → qelems j s' = qelems j s.
Proof.
  intros Hp Hok [Hl Hs]. split_and!; [split_and!| |]; try done.
  - rewrite Hs, pages_set_queue, pages_upd_page. by apply alter_insert_page.
  - by rewrite Hs, erase_set_queue, erase_upd_page.
  - intros j Hj. unfold qelems. by rewrite Hs, get_set_queue_ne, get_queue_upd_page.
Qed.

(** Fields other than the back pointer do not matter to the queues. *)
Lemma queues_ok_upd_page p f s :
  (∀ pg, queue (f pg) = queue pg) → queues_ok s → queues_ok (upd_page p f s).
Proof.
  intros Hf [Hsz Hq]. split.
  { rewrite pages_upd_page, <- size_dom, dom_alter_L, size_dom. done. }
  intros i. destruct (Hq i) as (? & ? & Hel). unfold queue_ok, qelems in *.
  rewrite get_queue_upd_page. split; [done|]. split; [done|]. intros p'.
  rewrite Hel, pages_upd_page. destruct (decide (p' = p)) as [->|].
  - rewrite lookup_alter_eq. destruct (pages s !! p); cbn; [|naive_solver].
    split; intros (? & [= <-] & ?); eexists; (split; [done|]); by rewrite ?Hf in *.
  - by rewrite lookup_alter_ne.
Qed.

Lemma page_update_upd p pg (f : page → page) s :
  pages s !! p = Some pg → (∀ pg, queue (f pg) = queue pg) → queues_ok s →
  page_update p (f pg) s (upd_page p f s).
Proof.
  intros Hp Hf Hok. split_and!; [by apply queues_ok_upd_page| |done].
  by apply alter_insert_page.
Qed.

Lemma page_update_trans p pg1 pg2 s1 s2 s3 :
  page_update p pg1 s1 s2 → page_update p pg2 s2 s3 → page_update p pg2 s1 s3.
Proof.
  intros (_ & Hp1 & He1) (Hok & Hp2 & He2). split_and!; [done| |congruence].
  by rewrite Hp2, Hp1, insert_insert_eq.
Qed.

Lemma page_update_lookup p pg s s' : page_update p pg s s' → pages s' !! p = Some pg.
Proof. intros (_ & -> & _). apply lookup_insert_eq. Qed.

Lemma page_update_ok p pg s s' :
  pages_ok s → page_ok pg → page_update p pg s s' → pages_ok s'.
Proof.
  intros [_ Hall] Hpg (Hok & Hp & _). split; [done|]. intros p' pg'. rewrite Hp.
  intros [[-> ->]|[_ ?]]%lookup_insert_Some; eauto.
Qed.

Lemma SetState_update p pg st s :
  pages s !! p = Some pg → queues_ok s →
  page_update p (pg <| state := st |>) s (SetState st p s).
Proof. intros Hp Hq. by apply (page_update_upd p pg _ s Hp). Qed.

(** Each queue has as many pages as point to it. *)
Lemma queue_length_count i s :
  queues_ok s → Z.of_nat (length (qelems i s)) =
    msum (fun pg => if decide (queue pg = Some i) then 1 else 0) (pages s).
Proof.
  intros [_ Hq]. destruct (Hq i) as (Hnd & _ & Hel).
  rewrite msum_filter. f_equal.
  rewrite <- (size_list_to_set (C := gset Z)), <- size_dom by done. f_equal.
  apply set_eq. intros p. rewrite elem_of_list_to_set, Hel, elem_of_dom.
  unfold is_Some. by setoid_rewrite map_lookup_filter_Some.
Qed.

Lemma msum_add {A} (f g : A → Z) (m : gmap Z A) :
  msum f m + msum g m = msum (fun x => f x + g x) m.
Proof.
  induction m as [|i x m Hi IH] using map_ind; [by rewrite !msum_empty|].
  rewrite !msum_insert by done. lia.
Qed.

Lemma nfree_count s : pages_ok s → nfree s = msum free01 (pages s).
Proof.
  intros [Hq Hp]. unfold nfree. rewrite !queue_length_count, msum_add by done.
  apply msum_ext. intros p pg Hpg. destruct (Hp p pg Hpg) as [Hh _].
  unfold free01. rewrite Hh.
  repeat case_decide; unfold is_free in *; destruct (state pg); cbn in *; intuition congruence.
Qed.

Lemma nfree_update p pg pg' s s' :
  pages_ok s → pages s !! p = Some pg → page_ok pg' → page_update p pg' s s' →
  nfree s' = nfree s - free01 pg + free01 pg'.
Proof.
  intros Hok Hp Hpg Hu. rewrite !nfree_count by eauto using page_update_ok.
  destruct Hu as (_ & -> & _). by apply msum_update.
Qed.

(** ** The operations on page states *)

Lemma erase_zone s s' : erase s' = erase s →
  fUnreservedFreePages (sMemoryZone s') = fUnreservedFreePages (sMemoryZone s) ∧
  fUnsatisfiedPageReservations (sMemoryZone s') = fUnsatisfiedPageReservations (sMemoryZone s) ∧
  fPageReservationWaiters (sMemoryZone s') = fPageReservationWaiters (sMemoryZone s).
Proof.
  destruct s as [? ? ? ? ? ? [] ?], s' as [? ? ? ? ? ? [] ?]. cbn. intros [=]. auto.
Qed.

Lemma queue_update i p pg v l s s' :
  pages s !! p = Some pg → queues_ok s' ∧ queue_step i l p v s s' →
  page_update p (pg <| queue := v |>) s s'.
Proof. intros Hp [Hok Hs]. by eapply queue_step_update in Hs as [? _]. Qed.

(** Leaving the queue of the current state, entering that of another. *)
Lemma leave_queue p pg q s :
  queues_ok s → pages s !! p = Some pg → queue pg = q →
  ∃ s', on_queue q (fun q => RemoveUnlocked q p) s = Ret s' ∧
    page_update p (pg <| queue := None |>) s s'.
Proof.
  intros Hok Hp Hq. destruct q as [i|]; cbn.
  - destruct (Remove_ok i p pg s Hok Hp Hq) as (s' & He & Hs).
    exists s'. split; [done|]. by eapply queue_update.
  - exists s. split; [done|]. split_and!; [done| |done]. symmetry. apply insert_id.
    rewrite Hp. f_equal. destruct pg. cbn in *. by subst.
Qed.

Lemma enter_queue p pg q s :
  queues_ok s → pages s !! p = Some pg → queue pg = None →
  ∃ s', on_queue q (fun q => AppendUnlocked q p) s = Ret s' ∧
    page_update p (pg <| queue := q |>) s s'.
Proof.
  intros Hok Hp Hq. destruct q as [i|]; cbn.
  - destruct (Append_ok i p pg s Hok Hp Hq) as (s' & He & Hs).
    exists s'. split; [done|]. by eapply queue_update.
  - exists s. split; [done|]. split_and!; [done| |done]. symmetry. apply insert_id.
    rewrite Hp. f_equal. destruct pg. cbn in *. by subst.
Qed.

Lemma state_queue_home st : st ≠ PAGE_STATE_FREE → st ≠ PAGE_STATE_CLEAR →
  state_queue st = Ret (home st).
Proof. by destruct st. Qed.

Lemma free_page_ok p pg (clear : bool) s :
  pages_ok s → pages s !! p = Some pg → ¬ is_free pg →
  cache_ref pg = None → wired_count pg = 0 → mappings pg = [] →
  let st := if clear then PAGE_STATE_CLEAR else PAGE_STATE_FREE in
  ∃ s', free_page p clear s = Ret s' ∧
    page_update p (pg <| state := st |> <| queue := home st |>) s s'.
Proof.
  intros Hok Hp Hnf Hc Hw Hm st. pose proof Hok as [Hq Hall].
  destruct (Hall p pg Hp) as [Hh _].
  assert (IsMapped pg = false) as Hmap by (unfold IsMapped; by rewrite Hw, Hm).
  unfold free_page. rewrite Hp. cbn. rewrite Hmap. cbn.
  rewrite state_queue_home by (intros ?; apply Hnf; unfold is_free; auto). cbn.
  rewrite bool_decide_eq_true_2 by done. cbn.
  destruct (leave_queue p pg _ s Hq Hp Hh) as (s1 & -> & Hu1). cbn.
  pose proof (SetState_update p _ st s1 (page_update_lookup _ _ _ _ Hu1) (proj1 Hu1)) as Hset.
  destruct clear; cbn.
  all: pose proof (page_update_lookup _ _ _ _ Hset) as Hl.
  all: [> destruct (Prepend_ok QClear p _ _ (proj1 Hset) Hl eq_refl) as (s' & He & Hs)
        | destruct (Prepend_ok QFree p _ _ (proj1 Hset) Hl eq_refl) as (s' & He & Hs)].
  all: exists s'; split; [exact He|].
  all: pose proof (queue_update _ _ _ _ _ _ _ Hl Hs) as Hu2.
  all: exact (page_update_trans _ _ _ _ _ _ Hu1 (page_update_trans _ _ _ _ _ _ Hset Hu2)).
Qed.

(** The state [set_page_state] produces: the counter of modified pages of
    temporary caches follows the page. *)
Definition modified_delta s (pg : page) (st : page_state) : Z :=
  if match c ← page_Cache s pg; caches s !! c with
     | Some C => temporary C | None => false end then
    (if decide (st = PAGE_STATE_MODIFIED) then 1 else 0)
    - (if decide (state pg = PAGE_STATE_MODIFIED) then 1 else 0)
  else 0.

Lemma queues_ok_counter s (g : Z → Z) :
  queues_ok s → queues_ok (s <| sModifiedTemporaryPages ::= g |>).
Proof.
  intros [Hsz Hq]. split; [done|]. intros i. destruct (Hq i) as (? & ? & ?). by destruct i.
Qed.

(** The queue part of [set_page_state], from any state of the counter. *)
Lemma change_queue p pg st s :
  queues_ok s → pages s !! p = Some pg → page_ok pg → ¬ is_free pg →
  st ≠ PAGE_STATE_FREE → st ≠ PAGE_STATE_CLEAR → st ≠ state pg →
  (state pg = PAGE_STATE_WIRED ∨ state pg = PAGE_STATE_UNUSED →
   st = PAGE_STATE_WIRED ∨ st = PAGE_STATE_UNUSED → is_Some (page_Cache s pg)) →
  ∃ s', (if decide (home st = home (state pg)) then
           _ ← assert (bool_decide (is_Some (page_Cache s pg))); Ret (SetState st p s)
         else
           s ← on_queue (home (state pg)) (fun q => RemoveUnlocked q p) s;
           on_queue (home st) (fun q => AppendUnlocked q p) (SetState st p s)) = Ret s' ∧
    page_update p (pg <| state := st |> <| queue := home st |>) s s'.
Proof.
  intros Hq Hp [Hh _] Hnf H1 H2 Hne Hc.
  destruct (decide (home st = home (state pg))) as [He|He].
  - assert (is_Some (page_Cache s pg)) as Hs by (apply Hc; destruct st, (state pg); auto; done).
    rewrite bool_decide_eq_true_2 by done. eexists. split; [done|].
    pose proof (SetState_update p pg st s Hp Hq) as Hu.
    replace (pg <| state := st |> <| queue := home st |>) with (pg <| state := st |>); [exact Hu|].
    destruct pg. cbn in *. by rewrite He, <- Hh.
  - destruct (leave_queue p pg _ s Hq Hp Hh) as (s1 & -> & Hu1). cbn.
    pose proof (SetState_update p _ st s1 (page_update_lookup _ _ _ _ Hu1) (proj1 Hu1)) as Hset.
    pose proof (page_update_lookup _ _ _ _ Hset) as Hl.
    destruct (enter_queue p _ (home st) _ (proj1 Hset) Hl eq_refl) as (s2 & He2 & Hu2).
    exists s2. split; [exact He2|].
    exact (page_update_trans _ _ _ _ _ _ Hu1 (page_update_trans _ _ _ _ _ _ Hset Hu2)).
Qed.

Lemma set_page_state_ok p pg st s :
  pages_ok s → pages s !! p = Some pg → ¬ is_free pg →
  st ≠ PAGE_STATE_FREE → st ≠ PAGE_STATE_CLEAR →
  (st = PAGE_STATE_CACHED → IsMapped pg = false ∧ modified pg = false) →
  (state pg = PAGE_STATE_WIRED ∨ state pg = PAGE_STATE_UNUSED → st ≠ state pg →
   st = PAGE_STATE_WIRED ∨ st = PAGE_STATE_UNUSED → is_Some (page_Cache s pg)) →
  ∃ s', set_page_state p st s = Ret s' ∧ queues_ok s' ∧
    pages s' = <[p := pg <| state := st |> <| queue := home st |>]> (pages s) ∧
    erase s' = erase (s <| sModifiedTemporaryPages ::=
                        fun n => if decide (modified_delta s pg st = 0) then n
                                 else i32 (n + modified_delta s pg st) |>).
Proof.
  intros Hok Hp Hnf H1 H2 Hcached Hc. pose proof Hok as [Hq Hall].
  pose proof (Hall p pg Hp) as [Hh _]. unfold set_page_state. rewrite Hp. cbn -[decide].
  destruct (decide (st = state pg)) as [->|Hne].
  { exists s. split; [done|]. split; [done|]. split.
    - symmetry. apply insert_id. rewrite Hp. f_equal. destruct pg. cbn in *. by rewrite <- Hh.
    - unfold modified_delta. rewrite Z.sub_diag. destruct (match _ with Some _ => _ | None => _ end);
        by destruct s. }
  rewrite (state_queue_home (state pg)) by (intros ?; apply Hnf; unfold is_free; auto).
  rewrite (state_queue_home st) by done. cbn -[decide].
  set (chk := if decide (st = PAGE_STATE_CACHED) then _ else _).
  assert (chk = Ret tt) as ->.
  { unfold chk. destruct (decide _) as [E|]; [|done]. destruct (Hcached E) as [-> ->]. done. }
  cbn -[decide]. unfold modified_delta.
  destruct (match page_Cache s pg ≫= _ with Some _ => _ | None => _ end);
    [destruct (decide (st = PAGE_STATE_MODIFIED));
       [|destruct (decide (state pg = PAGE_STATE_MODIFIED))]|].
  all: (match goal with |- context [is_Some (page_Cache ?s0 _)] =>
      destruct (change_queue p pg st s0) as (s' & He & Hq' & Hp' & He');
        [by try apply queues_ok_counter|done|by apply Hall in Hp|done..|by intros ??; apply Hc|] end).
  all: exists s'; (split; [exact He|]); (split; [done|]); (split; [exact Hp'|]).
  all: rewrite He'; try (by rewrite decide_False by congruence).
  all: by destruct s.
Qed.

(** ** Allocating and freeing *)

Lemma RemoveHead_cases i s :
  queues_ok s → ∃ r s', RemoveHead i s = Ret (r, s') ∧
    match r with
    | None => qelems i s = [] ∧ queues_ok s' ∧ pages s' = pages s ∧ erase s' = erase s ∧
              ∀ j, qelems j s' = qelems j s
    | Some p => ∃ pg, pages s !! p = Some pg ∧ queue pg = Some i ∧
                  page_update p (pg <| queue := None |>) s s'
    end.
Proof.
  intros Hok. destruct (qelems i s) as [|p l] eqn:Hl.
  - destruct (RemoveHead_nil i s Hok Hl) as (s' & He & Hok' & Hl' & Hs').
    exists None, s'. split_and!; [done..| | |].
    + by rewrite Hs', pages_set_queue.
    + by rewrite Hs', erase_set_queue.
    + intros j. destruct (decide (i = j)) as [<-|]; [congruence|].
      unfold qelems. by rewrite Hs', get_set_queue_ne.
  - destruct (RemoveHead_cons i p l s Hok Hl) as (s' & He & Hs').
    exists (Some p), s'. split; [done|].
    assert (∃ pg, pages s !! p = Some pg ∧ queue pg = Some i) as (pg & Hp & Hq).
    { apply (proj2 Hok i). rewrite Hl. left. }
    exists pg. split_and!; [done..|]. by eapply queue_update.
Qed.

Lemma page_update_change p pg s1 s2 s3 :
  pages s2 = pages s1 → erase s2 = erase s1 → page_update p pg s2 s3 → page_update p pg s1 s3.
Proof. intros Hp He (? & ? & ?). split_and!; [done| |]; congruence. Qed.

(** With a page left on one of the two queues, the dequeue of
    [vm_page_allocate_page_etc] finds one. *)
Lemma take_free_page_ok q otherq s :
  (q, otherq) = (QFree, QClear) ∨ (q, otherq) = (QClear, QFree) →
  pages_ok s → 0 < nfree s →
  ∃ p pg s', take_free_page q otherq s = Ret (p, s') ∧ pages s !! p = Some pg ∧
    is_free pg ∧ page_update p (pg <| queue := None |>) s s'.
Proof.
  intros Hqs [Hok Hall] Hn. unfold take_free_page, RemoveHeadUnlocked.
  assert (∀ i p pg, i = QFree ∨ i = QClear → pages s !! p = Some pg → queue pg = Some i → is_free pg) as Hf.
  { intros i p pg Hi Hp Hq. destruct (Hall p pg Hp) as [Hh _]. unfold is_free.
    rewrite Hq in Hh. destruct (state pg); cbn in Hh; destruct Hi; simplify_eq; auto. }
  destruct (RemoveHead_cases q s Hok) as ([p|] & s1 & -> & H1); cbn.
  { destruct H1 as (pg & Hp & Hq & Hu). exists p, pg, s1. split_and!; [done..| |done].
    eapply Hf; [|done..]. destruct Hqs; simplify_eq; auto. }
  destruct H1 as (Hnil & Hok1 & Hp1 & He1 & Hj).
  destruct (RemoveHead_cases otherq s1 Hok1) as ([p|] & s2 & -> & H2); cbn.
  { destruct H2 as (pg & Hp & Hq & Hu). rewrite Hp1 in Hp. exists p, pg, s2. split_and!; [done..| |].
    - eapply Hf; [|done..]. destruct Hqs; simplify_eq; auto.
    - by eapply page_update_change. }
  destruct H2 as (Hnil' & _). rewrite Hj in Hnil'. unfold nfree in Hn.
  exfalso. destruct Hqs; simplify_eq; rewrite Hnil, Hnil' in Hn; cbn in Hn; lia.
Qed.

Definition alloc_init (flags : Z) (pg : page) : page :=
  pg <| state := page_state_of_code (Z.land flags VM_PAGE_ALLOC_STATE) |>
     <| busy := testflag flags VM_PAGE_ALLOC_BUSY |>
     <| usage_count := 0 |> <| accessed := false |> <| modified := false |>
     <| queue := home (page_state_of_code (Z.land flags VM_PAGE_ALLOC_STATE)) |>.

Definition alloc_flags_ok (flags : Z) : Prop :=
  let st := page_state_of_code (Z.land flags VM_PAGE_ALLOC_STATE) in
  st ≠ PAGE_STATE_FREE ∧ st ≠ PAGE_STATE_CLEAR.

Lemma vm_page_allocate_page_etc_ok r flags s :
  pages_ok s → 0 < nfree s → 0 < r < 2 ^ 32 → alloc_flags_ok flags →
  ∃ p pg s', vm_page_allocate_page_etc r flags s =
      Ret (p, r - 1, testflag flags VM_PAGE_ALLOC_CLEAR && bool_decide (state pg ≠ PAGE_STATE_CLEAR), s') ∧
    pages s !! p = Some pg ∧ is_free pg ∧ page_update p (alloc_init flags pg) s s'.
Proof.
  intros Hok Hn Hr [H1 H2]. unfold vm_page_allocate_page_etc.
  rewrite !bool_decide_eq_true_2 by done. cbn [assert mbind outcome_bind].
  replace (0 <? r) with true by (symmetry; apply Z.ltb_lt; lia). cbn [assert mbind outcome_bind].
  rewrite wrap_small by (split; lia).
  set (qs := if testflag flags VM_PAGE_ALLOC_CLEAR then _ else _).
  destruct (take_free_page_ok qs.1 qs.2 s) as (p & pg & s1 & Htake & Hp & Hf & Hu1);
    [destruct (testflag flags VM_PAGE_ALLOC_CLEAR); auto|done..|].
  destruct qs as [q otherq]. cbn [fst snd] in Htake. rewrite Htake. cbn [mbind outcome_bind].
  pose proof (page_update_lookup _ _ _ _ Hu1) as Hp1. rewrite Hp1. cbn [deref mbind outcome_bind].
  destruct (proj2 Hok p pg Hp) as [_ Hfree]. destruct (Hfree Hf) as (Hc & Hw & _).
  cbn [cache_ref wired_count update]. rewrite Hc, Hw. cbn [mbind outcome_bind assert].
  rewrite (bool_decide_eq_true_2 (_ = None)), Z.eqb_refl by done. cbn [mbind outcome_bind assert].
  set (s2 := upd_page p _ s1).
  eassert (page_update p _ s1 s2) as Hu2 by (eapply page_update_upd; [exact Hp1|by intros|apply Hu1]).
  pose proof (page_update_lookup _ _ _ _ Hu2) as Hp2.
  destruct (enter_queue p _ (home (page_state_of_code (Z.land flags VM_PAGE_ALLOC_STATE)))
    s2 (proj1 Hu2) Hp2 eq_refl) as (s3 & He3 & Hu3).
  exists p, pg, s3. split_and!; [|done..|].
  - destruct (page_state_of_code _); cbn in He3 |- *; try done.
    all: first [rewrite He3 | injection He3 as ->]; done.
  - exact (page_update_trans _ _ _ _ _ _ Hu1 (page_update_trans _ _ _ _ _ _ Hu2 Hu3)).
Qed.

(** Freeing the page of a caller that has detached and unmapped it. *)
Definition detached (pg : page) : Prop :=
  ¬ is_free pg ∧ cache_ref pg = None ∧ wired_count pg = 0 ∧ mappings pg = [].

Definition freed (pg : page) : page :=
  pg <| state := PAGE_STATE_FREE |> <| queue := Some QFree |>.

Lemma freed_ok pg : detached pg → page_ok (freed pg).
Proof. intros (_ & ? & ? & ?). split; [done|]. intros _. done. Qed.

Lemma alloc_init_ok flags pg : alloc_flags_ok flags → page_ok (alloc_init flags pg) ∧ ¬ is_free (alloc_init flags pg).
Proof.
  intros [H1 H2]. assert (¬ is_free (alloc_init flags pg)) as Hn by (intros [?|?]; cbn in *; done).
  split; [|done]. by split.
Qed.

(** The queues and pages are unaffected by the reservation counters. *)
Definition zone_frame (z z' : MemoryZone) : Prop :=
  fFreePageQueue z' = fFreePageQueue z ∧ fClearPageQueue z' = fClearPageQueue z ∧
  fCachedPageQueue z' = fCachedPageQueue z.

Lemma pages_ok_zone s z : zone_frame (sMemoryZone s) z → pages_ok s → pages_ok (s <| sMemoryZone := z |>).
Proof.
  intros (H1 & H2 & H3) [[Hsz Hq] Hp]. split; [|done]. split; [done|].
  intros i. destruct (Hq i) as (? & ? & ?). unfold queue_ok, qelems in *.
  destruct i; cbn in *; rewrite ?H1, ?H2, ?H3; done.
Qed.

Lemma nfree_zone s z : zone_frame (sMemoryZone s) z → nfree (s <| sMemoryZone := z |>) = nfree s.
Proof. intros (H1 & H2 & _). unfold nfree, qelems. cbn. by rewrite H1, H2. Qed.

Lemma reserve_some_frame count dt z n z' :
  reserve_some_pages_from_zone count dt z = (n, z') → zone_frame z z'.
Proof.
  unfold reserve_some_pages_from_zone. case_match; intros [= <- <-]; by destruct z.
Qed.

Lemma wake_up_loop_frame ws z z' woken : wake_up_loop ws z = (z', woken) → zone_frame z z'.
Proof.
  revert z z' woken. induction ws as [|w ws IH]; intros z z' woken; cbn; [by intros [= <- <-]|].
  destruct (reserve_some_pages_from_zone _ _ _) as [n z1] eqn:E. apply reserve_some_frame in E.
  case_match; [intros [= <- <-]; exact E|]. case_match; [intros [= <- <-]; exact E|].
  destruct (wake_up_loop ws _) as [z2 wk] eqn:E2. apply IH in E2. intros [= <- <-].
  destruct E as (? & ? & ?), E2 as (? & ? & ?). cbn in *. split_and!; congruence.
Qed.

Lemma unreserve_frame count z z' woken :
  unreserve_pages_for_zone count z = (z', woken) → zone_frame z z'.
Proof.
  unfold unreserve_pages_for_zone. case_match; [by intros [= <- <-]|]. apply wake_up_loop_frame.
Qed.

(** ** Reservation arithmetic *)

Definition int32_ok (z : Z) : Prop := 0 <= z < 2 ^ 31.

Lemma reserve_some_spec count dt z :
  0 <= count < 2 ^ 32 → int32_ok dt → int32_ok (fUnreservedFreePages z) →
  let n := Z.max 0 (Z.min count (fUnreservedFreePages z - dt)) in
  reserve_some_pages_from_zone count dt z =
    (n, z <| fUnreservedFreePages := fUnreservedFreePages z - n |>).
Proof.
  intros Hc Hd Hz. cbv zeta. unfold int32_ok in *. unfold reserve_some_pages_from_zone.
  rewrite (i32_small dt) by lia. destruct (Z.leb_spec (fUnreservedFreePages z) dt).
  - rewrite Z.max_l, Z.sub_0_r by lia. by destruct z.
  - rewrite (wrap_small 32 (fUnreservedFreePages z - dt)) by (split; lia).
    rewrite Z.max_r by lia. rewrite !i32_small by lia.
    rewrite wrap_small by (split; lia). done.
Qed.

Fixpoint total_missing (ws : list PageReservationWaiter) : Z :=
  match ws with [] => 0 | w :: ws => missing w + total_missing ws end.

Definition waiter_ok (w : PageReservationWaiter) : Prop :=
  int32_ok (dontTouch w) ∧ 0 < missing w < 2 ^ 31.

Lemma total_missing_app ws1 ws2 :
  total_missing (ws1 ++ ws2) = total_missing ws1 + total_missing ws2.
Proof. induction ws1; cbn; lia. Qed.

Lemma total_missing_nonneg ws : Forall waiter_ok ws → 0 <= total_missing ws.
Proof. induction 1 as [|w ws [_ ?] ? IH]; cbn; lia. Qed.

Lemma total_missing_pos ws : Forall waiter_ok ws → ws ≠ [] → 0 < total_missing ws.
Proof.
  destruct 1 as [|w ws [_ ?] Hws]; [done|]. pose proof (total_missing_nonneg ws Hws). cbn. lia.
Qed.

(** What one run of the wake-up loop does: a prefix of the waiters, in order,
    gets all it misses, the next waiter possibly a part, and the pages handed
    out leave the unreserved count and the unsatisfied count alike; the loop
    only stops at a waiter that may not take another page. *)
Definition wake_up_spec (ws : list PageReservationWaiter) z z' (woken : list Z) : Prop :=
  ∃ served rest ws',
    ws = served ++ rest ∧ woken = wthread <$> served ∧
    fPageReservationWaiters z' = ws' ∧
    (rest = ws' ∨ ∃ w m rs, rest = w :: rs ∧ ws' = w <| missing := m |> :: rs ∧ 0 < m < missing w) ∧
    fUnreservedFreePages z' = fUnreservedFreePages z - (total_missing ws - total_missing ws') ∧
    fUnsatisfiedPageReservations z' =
      fUnsatisfiedPageReservations z - (total_missing ws - total_missing ws') ∧
    0 <= fUnreservedFreePages z' ∧
    (∀ w, head ws' = Some w → fUnreservedFreePages z' <= dontTouch w).

Lemma wake_up_loop_spec ws z z' woken :
  Forall waiter_ok ws → int32_ok (fUnreservedFreePages z) →
  int32_ok (fUnsatisfiedPageReservations z) →
  total_missing ws <= fUnsatisfiedPageReservations z →
  wake_up_loop ws z = (z', woken) → wake_up_spec ws z z' woken.
Proof.
  intros Hws. revert z z' woken. induction Hws as [|w ws [Hd Hm] Hws IH]; intros z z' woken Hu Hs Htot.
  { cbn. intros [= <- <-]. exists [], [], []. destruct z. cbn in *. unfold int32_ok in *.
    split_and!; auto; try lia. done. }
  cbn [wake_up_loop]. cbn in Htot. pose proof (total_missing_nonneg ws Hws).
  rewrite reserve_some_spec by (unfold int32_ok in *; lia).
  destruct z as [q1 q2 q3 U S tp f1 f2 f3 wl]. cbn in *.
  set (n := Z.max 0 (Z.min (missing w) (U - dontTouch w))).
  unfold int32_ok in *. destruct (Z.eqb_spec n 0) as [Hn|Hn].
  { intros [= <- <-]. exists [], (w :: ws), (w :: ws). cbn. rewrite Hn.
    split_and!; auto; try lia. intros w' [= <-]. lia. }
  unfold update. cbn. rewrite (i32_small (S - n)) by lia.
  rewrite (wrap_small 32) by (split; lia).
  destruct (Z.ltb_spec 0 (missing w - n)).
  { intros [= <- <-]. exists [], (w :: ws), (w <| missing := missing w - n |> :: ws). cbn.
    split_and!; auto; try lia.
    - right. exists w, (missing w - n), ws. split_and!; auto; lia.
    - intros w' [= <-]. cbn. lia. }
  destruct (wake_up_loop ws _) as [z2 wk] eqn:E2. intros [= <- <-].
  apply IH in E2; [|cbn; lia..].
  destruct E2 as (served & rest & ws' & -> & -> & Hw' & Hr & H1 & H2 & H3 & H4).
  exists (w :: served), rest, ws'. cbn in *. split_and!; auto; lia.
Qed.

(** ** Deciding the invariant on a concrete state *)

Definition queue_okb i s : bool :=
  bool_decide (NoDup (qelems i s)) &&
  (fCount (get_queue i s) =? Z.of_nat (length (qelems i s))) &&
  forallb (fun p => match pages s !! p with
                    | Some pg => bool_decide (queue pg = Some i) | None => false end) (qelems i s) &&
  bool_decide (map_Forall (fun p pg => queue pg = Some i → p ∈ qelems i s) (pages s)).

Definition page_okb (pg : page) : bool :=
  bool_decide (queue pg = home (state pg)) &&
  (negb (bool_decide (is_free pg)) ||
   (bool_decide (cache_ref pg = None) && (wired_count pg =? 0) && bool_decide (mappings pg = []))).

Definition pages_okb s : bool :=
  (Z.of_nat (size (pages s)) <? 2 ^ 64) && forallb (fun i => queue_okb i s) all_queues &&
  bool_decide (map_Forall (fun _ pg => page_okb pg = true) (pages s)).

Lemma queue_okb_sound i s : queue_okb i s = true → queue_ok i s.
Proof.
  unfold queue_okb. intros H. breflect.
  match goal with H : forallb _ _ = true |- _ => rewrite forallb_forall in H; rename H into Hfw end.
  match goal with H : map_Forall _ _ |- _ => rename H into Hbw end.
  split_and!; [done..|]. intros p. split; [|intros (pg & Hp & Hq); by eapply Hbw].
  intros Hin%list_elem_of_In. specialize (Hfw p Hin). destruct (pages s !! p) as [pg|]; [|done].
  breflect. eauto.
Qed.

Lemma pages_okb_sound s : pages_okb s = true → pages_ok s.
Proof.
  unfold pages_okb. intros H. breflect.
  match goal with H : forallb _ _ = true |- _ => rewrite forallb_forall in H; rename H into Hfw end.
  match goal with H : map_Forall _ _ |- _ => rename H into Hpg end.
  split; [split; [done|]|].
  - intros i. apply queue_okb_sound, Hfw. destruct i; cbn; auto 10.
  - intros p pg Hp. specialize (Hpg p pg Hp). unfold page_okb in Hpg. cbn in Hpg.
    apply andb_true_iff in Hpg as [? Ho%orb_true_iff]. breflect. split; [done|]. intros Hf.
    destruct Ho as [Ho|Ho]; breflect; [done|]. auto.
Qed.
End ops.

(** vm_page_set_state of a page that is not free to any state but free
    and clear succeeds when the page has a cache (and, for the cached state,
    is neither mapped nor modified): the page gets the state and sits on the
    queue of that state, no other page and no free page count changes, only
    the two queues concerned change, and every page stays on the queue its
    state names. *)
Lemma set_page_state_correct {DL : DLList Z} (p : Z) (pg : page) (st : page_state) (s : vmstate)
    (Hok : pages_ok s) (Hp : pages s !! p = Some pg) (Hnf : ¬ is_free pg)
    (H1 : st ≠ PAGE_STATE_FREE) (H2 : st ≠ PAGE_STATE_CLEAR)
    (Hcached : st = PAGE_STATE_CACHED → IsMapped pg = false ∧ modified pg = false)
    (Hcache : is_Some (page_Cache s pg)) :
  ∃ s', vm_page_set_state p st s = Ret s' ∧ pages_ok s' ∧
    pages s' = <[p := pg <| state := st |> <| queue := home st |>]> (pages s) ∧
    nfree s' = nfree s ∧
    (∀ i, i ≠ home st → home (state pg) ≠ i → ∀ q, i = Some q → ∀ p', p' ∈ qelems q s' ↔ p' ∈ qelems q s).
Proof.
  destruct (set_page_state_ok p pg st s) as (s' & He & Hq & Hps & _); auto.
  assert (page_ok (pg <| state := st |> <| queue := home st |>)) as Hpg
    by (split; [done|]; intros [?|?]; done).
  assert (pages_ok s') as Hok'.
  { split; [done|]. intros p' pg'. rewrite Hps. intros [[<- <-]|[_ ?]]%lookup_insert_Some; [done|].
    by eapply (proj2 Hok). }
  exists s'. split_and!; [|done|done| |].
  - unfold vm_page_set_state. rewrite Hp. cbn [deref mbind outcome_bind].
    assert (state pg ≠ PAGE_STATE_FREE ∧ state pg ≠ PAGE_STATE_CLEAR) as [? ?]
      by (split; intros ?; apply Hnf; unfold is_free; auto).
    rewrite (bool_decide_eq_true_2 (state pg ≠ PAGE_STATE_FREE)) by done.
    rewrite (bool_decide_eq_true_2 (state pg ≠ PAGE_STATE_CLEAR)) by done. by destruct st.
  - rewrite !nfree_count, Hps, (msum_update free01 _ p pg) by done. unfold free01.
    destruct (decide (is_free pg)) as [?|_]; [done|].
    destruct (decide (is_free _)) as [[?|?]|_]; [done..|lia].
  - intros i Hi1 Hi2 q -> p'. destruct (proj2 Hq q) as (_ & _ & ->), (proj2 (proj1 Hok) q) as (_ & _ & ->).
    rewrite Hps. destruct (proj2 Hok p pg Hp) as [Hh _]. destruct (decide (p' = p)) as [->|Hne].
    + rewrite lookup_insert_eq, Hp. split; intros (pg' & [= <-] & Hq'); cbn in Hq'; congruence.
    + by rewrite lookup_insert_ne.
Qed.

(** unreserve_pages_for_zone hands the returned pages to the queued
    waiters strictly in queue order: a prefix of the waiters is satisfied
    completely and woken, the first other waiter may receive a part when
    nothing above its reserve is left, the rest is untouched; the
    unsatisfied count stays the sum of what the waiters miss and no page is
    lost. *)
Lemma unreserve_wakes_in_order {DL : DLList Z} (count : Z) (z z' : MemoryZone) (woken : list Z)
    (Hws : Forall waiter_ok (fPageReservationWaiters z)) (Hc : 0 <= count)
    (HU : int32_ok (fUnreservedFreePages z)) (HU' : fUnreservedFreePages z + count < 2 ^ 31)
    (HS : int32_ok (fUnsatisfiedPageReservations z))
    (Htot : total_missing (fPageReservationWaiters z) = fUnsatisfiedPageReservations z)
    (He : unreserve_pages_for_zone count z = (z', woken)) :
  wake_up_spec (fPageReservationWaiters z) (z <| fUnreservedFreePages := fUnreservedFreePages z + count |>) z' woken ∧
  total_missing (fPageReservationWaiters z') = fUnsatisfiedPageReservations z' ∧
  fUnreservedFreePages z' - fUnsatisfiedPageReservations z' =
    fUnreservedFreePages z + count - fUnsatisfiedPageReservations z.
Proof.
  destruct z as [q1 q2 q3 U S tp f1 f2 f3 ws]. unfold unreserve_pages_for_zone, update in *. cbn in *.
  rewrite i32_small in He by (unfold int32_ok in *; lia).
  assert (wake_up_spec ws (mkZone q1 q2 q3 (U + count) S tp f1 f2 f3 ws) z' woken) as Hspec.
  { destruct (Z.eqb_spec S 0) as [HS0|HS0].
    - injection He as <- <-. assert (ws = []) as ->.
      { destruct (decide (ws = [])) as [|Hne]; [done|]. pose proof (total_missing_pos ws Hws Hne). lia. }
      exists [], [], []. cbn. unfold int32_ok in *. split_and!; auto; try lia. done.
    - apply wake_up_loop_spec; auto; cbn; [unfold int32_ok in *; lia|lia]. }
  split; [done|]. destruct Hspec as (sv & rest & ws' & _ & _ & Hw & _ & H1 & H2 & _).
  cbn in H1, H2. rewrite Hw. lia.
Qed.

(** An active page of a cache, and two waiters for five pages in all. *)
Definition one_active : vmstate :=
  (vm_boot {[ 1 := page_zero <| queue := Some QActive |> <| cache_ref := Some 1000 |> ]})
    <| cacherefs := {[ 1000 := 100 ]} |> <| sActivePageQueue := mkQueue 1 [1] |>.

Lemma set_page_state_correct_witness :
  ∃ s', vm_page_set_state 1 PAGE_STATE_CACHED one_active = Ret s' ∧ pages_ok s' ∧ nfree s' = 0.
Proof.
  edestruct (fun pg => set_page_state_correct 1 pg PAGE_STATE_CACHED one_active) as (s' & He & Hok & _ & Hn & _);
    [apply pages_okb_sound; vm_compute; reflexivity | vm_compute; reflexivity | intros [?|?]; discriminate
    | discriminate | discriminate | done | vm_compute; eauto | ].
  exists s'. rewrite Hn. auto.
Defined.

Definition two_waiters : MemoryZone :=
  zone_init <| fUnreservedFreePages := 8 |> <| fUnsatisfiedPageReservations := 5 |>
    <| fPageReservationWaiters := [mkWaiter 8 2 10 1; mkWaiter 64 3 10 2] |>.

Lemma unreserve_wakes_in_order_witness :
  ∃ z', unreserve_pages_for_zone 4 two_waiters = (z', [1]) ∧
    total_missing (fPageReservationWaiters z') = fUnsatisfiedPageReservations z' ∧
    fUnreservedFreePages z' - fUnsatisfiedPageReservations z' = 7.
Proof.
  eexists. split; [vm_compute; reflexivity|].
  edestruct (fun z' => unreserve_wakes_in_order 4 two_waiters z' [1]) as (_ & Ht & Hd).
  - repeat constructor; vm_compute; congruence.
  - lia.
  - vm_compute; split; congruence.
  - vm_compute; reflexivity.
  - vm_compute; split; congruence.
  - vm_compute; reflexivity.
  - vm_compute. reflexivity.
  - split; [exact Ht|exact Hd].
Defined.
