(* ===== verification/PageReclaim.v ===== *)
(** page_alloc.cpp: taking pages back from the cached page queue
    ([free_cached_pages] with its queue marker) and the page scrubber.

    The marker is a [struct page] on the stack of [free_cached_pages]; it is
    an object of the page store while the function runs.  Whether the cache
    of a page can be locked ([vm_cache_acquire_locked_page_cache]) is decided
    by other threads and is an argument of the definitions ([acquire]). *)
From S2P Require Import Prelude VMState PageQueue CachePages PageAlloc.
From stdpp Require Import base list list_numbers numbers gmap.
From Stdlib Require Import ZArith Lia.
Local Open Scope Z_scope.

Section ops.
Context {DL : DLList Z}.
Implicit Types (s : vmstate) (p marker : Z) (acquire : Z → bool).

(** ** The cached page queue *)

Definition init_page_marker marker s : vmstate :=
  s <| pages ::= <[marker := page_zero <| cache_ref := None |> <| state := PAGE_STATE_UNUSED |>
                               <| busy := true |> <| queue := None |>]> |>.

Definition remove_page_marker marker s : outcome vmstate :=
  mk ← deref (pages s !! marker);
  s ← on_queue (home (state mk)) (fun fromQueue => RemoveUnlocked fromQueue marker) s;
  Ret (SetState PAGE_STATE_UNUSED marker s).

(** The search loop of [find_cached_page_candidate]. *)
Fixpoint first_not_busy (fuel : nat) (page : option Z) s : outcome (option Z) :=
  match page with
  | None => Ret None
  | Some p =>
      match fuel with
      | O => NoFuel
      | S fuel =>
          pg ← deref (pages s !! p);
          if negb (busy pg) then Ret (Some p) else first_not_busy fuel (Next QCached p s) s
      end
  end.

Definition find_cached_page_candidate marker s : outcome (option Z * vmstate) :=
  mk ← deref (pages s !! marker);
  '(page, s) ← (if decide (state mk = PAGE_STATE_UNUSED) then Ret (Head QCached s, s)
                else
                  _ ← assert (bool_decide (state mk = PAGE_STATE_CACHED));
                  let page := Next QCached marker s in
                  s ← Remove QCached marker s;
                  Ret (page, SetState PAGE_STATE_UNUSED marker s));
  r ← first_not_busy (S (length (qelems QCached s))) page s;
  match r with
  | None => Ret (None, s)
  | Some p =>
      s ← InsertAfter QCached p marker (SetState PAGE_STATE_CACHED marker s);
      Ret (Some p, s)
  end.

(** [free_cached_page]; the reference it takes on the locked cache is given
    back before it returns. *)
Definition free_cached_page acquire p (markBusy : bool) s : outcome (bool * vmstate) :=
  pg ← deref (pages s !! p);
  match page_Cache s pg with
  | None => Ret (false, s)
  | Some cache =>
      if negb (acquire p) then Ret (false, s)
      else if busy pg || negb (bool_decide (state pg = PAGE_STATE_CACHED)) then Ret (false, s)
      else
        _ ← assert (negb (IsMapped pg));
        _ ← assert (negb (modified pg));
        s ← RemovePage cache p s;
        s ← RemoveUnlocked QCached p s;
        Ret (true, if markBusy then upd_page p (fun pg => pg <| busy := true |>) s else s)
  end.

(** The body of the loop of [free_cached_pages] for one candidate. *)
Definition reclaim_candidate acquire p s : outcome (bool * vmstate) :=
  '(ok, s) ← free_cached_page acquire p false s;
  if (ok : bool) then
    s ← PrependUnlocked QFree p (SetState PAGE_STATE_FREE p s);
    Ret (true, s)
  else Ret (false, s).

Fixpoint free_cached_loop (fuel : nat) acquire marker (pagesToFree pagesFreed : Z) s
  : outcome (Z * vmstate) :=
  if pagesFreed <? pagesToFree then
    match fuel with
    | O => NoFuel
    | S fuel =>
        '(r, s) ← find_cached_page_candidate marker s;
        match r with
        | None => Ret (pagesFreed, s)
        | Some p =>
            '(ok, s) ← reclaim_candidate acquire p s;
            free_cached_loop fuel acquire marker pagesToFree
              (if (ok : bool) then u32 (pagesFreed + 1) else pagesFreed) s
        end
    end
  else Ret (pagesFreed, s).

Definition free_cached_pages (fuel : nat) acquire marker (pagesToFree : Z) s
  : outcome (Z * vmstate) :=
  '(n, s) ← free_cached_loop fuel acquire marker pagesToFree 0 (init_page_marker marker s);
  s ← remove_page_marker marker s;
  Ret (n, s <| pages ::= delete marker |>).

(** ** Reclaiming one page *)

(** A cached page is unmapped, clean and belongs to a cache; [set_page_state]
    asserts the first two. *)
Definition cached_ok s (pg : page) : Prop :=
  IsMapped pg = false ∧ modified pg = false ∧
  ∃ c C, caches s !! c = Some C ∧ cache_ref pg = Some (self_ref C).

Definition reclaimable acquire s p : bool :=
  match pages s !! p with
  | Some pg => negb (busy pg) && acquire p && bool_decide (is_Some (page_Cache s pg))
  | None => false
  end.

(** The caches keep their identity. *)
Definition caches_stable s s' : Prop :=
  cacherefs s' = cacherefs s ∧
  ∀ c C, caches s !! c = Some C → ∃ C', caches s' !! c = Some C' ∧ self_ref C' = self_ref C.

Lemma caches_stable_trans s1 s2 s3 :
  caches_stable s1 s2 → caches_stable s2 s3 → caches_stable s1 s3.
Proof.
  intros [H1 H1'] [H2 H2']. split; [congruence|]. intros c C HC.
  destruct (H1' c C HC) as (C1 & HC1 & ?). destruct (H2' c C1 HC1) as (C2 & HC2 & ?).
  exists C2. split; [done|congruence].
Qed.

Lemma caches_stable_erase s s' : erase s' = erase s → caches_stable s s'.
Proof. destruct s, s'. cbn. intros [=]. subst. split; [done|]. cbn. eauto. Qed.

Lemma caches_stable_set c C C' p pg s :
  caches s !! c = Some C → self_ref C' = self_ref C →
  caches_stable s (set_cache c C' (set_page p pg s)).
Proof.
  intros HC Hr. split; [done|]. intros c' D HD. cbn.
  destruct (decide (c' = c)) as [->|]; [|rewrite lookup_insert_ne by done; eauto].
  rewrite lookup_insert_eq. simplify_eq. eauto.
Qed.

Lemma RemovePage_stable c p s s' : RemovePage c p s = Ret s' → caches_stable s s'.
Proof.
  unfold RemovePage, DecrementWiredPagesCount. intros H.
  destruct (caches s !! c) as [C|] eqn:HC; [|done]. cbn in H.
  inv_outcome; apply (caches_stable_set c C); auto; by destruct (_ =? _).
Qed.

Lemma RemovePage_update c C p pg s :
  caches_ok s → caches s !! c = Some C → pages s !! p = Some pg →
  cache_ref pg = Some (self_ref C) → queues_ok s →
  ∃ s', RemovePage c p s = Ret s' ∧ caches_ok s' ∧ queues_ok s' ∧
    pages s' = <[p := pg <| cache_ref := None |>]> (pages s) ∧
    sMemoryZone s' = sMemoryZone s ∧ caches_stable s s' ∧ (∀ i, qelems i s' = qelems i s).
Proof.
  intros Hc HC Hp Hr Hq. destruct (RemovePage_step c C p pg s) as (C' & He & _ & Hok); auto.
  eexists. split; [exact He|]. split; [done|].
  split_and!; [|done..|by eapply RemovePage_stable|by intros []].
  assert (queues_ok (set_page p (pg <| cache_ref := None |>) s)) as [Hsz Hq'].
  { replace (set_page p (pg <| cache_ref := None |>) s)
      with (upd_page p (fun pg => pg <| cache_ref := None |>) s).
    - by apply queues_ok_upd_page.
    - unfold upd_page, set_page, update. by rewrite (alter_insert_page _ _ _ _ Hp). }
  split; [done|]. intros i. destruct (Hq' i) as (? & ? & ?). by destruct i.
Qed.

(** The cache invariant only depends on the cache fields of the pages. *)
Lemma caches_ok_page_update p pg pg' s s' :
  pages s !! p = Some pg → page_update p pg' s s' →
  cache_ref pg' = cache_ref pg → cache_offset pg' = cache_offset pg →
  wired_count pg' = wired_count pg → caches_ok s → caches_ok s'.
Proof.
  intros Hp (_ & Hps & He) Hr Ho Hw [Hcs Hf].
  assert (caches s' = caches s ∧ cacherefs s' = cacherefs s) as [Hc Hcr].
  { destruct s, s'. cbn in He. injection He. intros. done. }
  split.
  - intros c C HC. rewrite Hc in HC. eapply cache_ok_frame; [by eapply Hcs|done| |].
    + intros p' o. unfold refers. rewrite Hps. destruct (decide (p' = p)) as [->|].
      * rewrite lookup_insert_eq, Hp. split; intros (? & [= <-] & ? & ?); eexists; (split; [done|]); split; congruence.
      * by rewrite lookup_insert_ne.
    + intros p' o _. unfold is_wired. rewrite Hps. destruct (decide (p' = p)) as [->|].
      * by rewrite lookup_insert_eq, Hp, Hw.
      * by rewrite lookup_insert_ne.
  - intros p' pg0. rewrite Hps. intros [[-> <-]|[_ ?]]%lookup_insert_Some; [|eauto].
    rewrite Hw. eauto.
Qed.

Definition reclaimed (pg : page) : page :=
  pg <| cache_ref := None |> <| state := PAGE_STATE_FREE |> <| queue := Some QFree |>.

Definition counters z : Z * Z * list PageReservationWaiter :=
  (fUnreservedFreePages z, fUnsatisfiedPageReservations z, fPageReservationWaiters z).

Lemma page_update_counters p pg s s' :
  page_update p pg s s' → counters (sMemoryZone s') = counters (sMemoryZone s).
Proof. intros (_ & _ & He). apply erase_zone in He as (? & ? & ?). unfold counters. congruence. Qed.

Lemma reclaim_candidate_yes acquire p pg s :
  pages_ok s → caches_ok s → pages s !! p = Some pg → state pg = PAGE_STATE_CACHED →
  cached_ok s pg → reclaimable acquire s p = true →
  ∃ s', reclaim_candidate acquire p s = Ret (true, s') ∧ queues_ok s' ∧ caches_ok s' ∧
    pages s' = <[p := reclaimed pg]> (pages s) ∧
    counters (sMemoryZone s') = counters (sMemoryZone s) ∧
    qelems QCached s' = remove_elem p (qelems QCached s) ∧
    qelems QFree s' = p :: qelems QFree s ∧ caches_stable s s'.
Proof.
  intros Hok Hc Hp Hst (Hm & Hmod & c & C & HC & Hr) Hrec.
  unfold reclaimable in Hrec. rewrite Hp in Hrec. breflect.
  pose proof (proj1 Hc c C HC) as (Href & _).
  assert (page_Cache s pg = Some c) as Hpc by (unfold page_Cache; by rewrite Hr).
  unfold reclaim_candidate, free_cached_page. rewrite Hp. cbn [deref mbind outcome_bind].
  rewrite Hpc, Hm, Hmod. match goal with H : busy pg = false |- _ => rewrite H end.
  match goal with H : acquire p = true |- _ => rewrite H end.
  rewrite bool_decide_eq_true_2 by done. cbn [negb orb assert mbind outcome_bind].
  destruct (RemovePage_update c C p pg s) as (s1 & -> & Hc1 & Hq1 & Hp1 & Hz1 & Hstab & Hel1);
    [done..|apply Hok|]. cbn [mbind outcome_bind].
  assert (pages s1 !! p = Some (pg <| cache_ref := None |>)) as Hl1 by (by rewrite Hp1, lookup_insert_eq).
  destruct (proj2 Hok p pg Hp) as [Hh _]. rewrite Hst in Hh. cbn in Hh.
  destruct (Remove_ok QCached p _ s1 Hq1 Hl1) as (s2 & He2 & Hq2 & Hs2); [done|].
  unfold RemoveUnlocked. rewrite He2. cbn [mbind outcome_bind].
  destruct (queue_step_update _ _ _ _ _ _ _ Hl1 Hq2 Hs2) as (Hu2 & Hcq2 & Hfq2).
  pose proof (SetState_update p _ PAGE_STATE_FREE s2 (page_update_lookup _ _ _ _ Hu2) Hq2) as Hu3.
  destruct (Prepend_ok QFree p _ _ (proj1 Hu3) (page_update_lookup _ _ _ _ Hu3) eq_refl) as (s4 & He4 & Hq4 & Hs4).
  unfold PrependUnlocked. rewrite He4. cbn [mbind outcome_bind].
  destruct (queue_step_update _ _ _ _ _ _ _ (page_update_lookup _ _ _ _ Hu3) Hq4 Hs4) as (Hu4 & Hf4 & Hc4).
  pose proof (page_update_trans _ _ _ _ _ _ Hu2 (page_update_trans _ _ _ _ _ _ Hu3 Hu4)) as Hu.
  exists s4. split; [done|]. split; [done|]. split_and!.
  - by eapply (caches_ok_page_update p _ _ s1 s4 Hl1 Hu).
  - destruct Hu as (_ & -> & _). by rewrite Hp1, insert_insert_eq.
  - by rewrite (page_update_counters _ _ _ _ Hu), Hz1.
  - rewrite Hc4, <- Hel1 by done. exact Hcq2.
  - rewrite Hf4. f_equal. rewrite <- Hel1. exact (Hfq2 QFree ltac:(done)).
  - eapply caches_stable_trans; [exact Hstab|]. apply caches_stable_erase, Hu.
Qed.

Lemma reclaim_candidate_no acquire p pg s :
  pages s !! p = Some pg → reclaimable acquire s p = false →
  reclaim_candidate acquire p s = Ret (false, s).
Proof.
  intros Hp Hrec. unfold reclaim_candidate, free_cached_page, reclaimable in *. rewrite Hp in *.
  cbn. destruct (page_Cache s pg) as [c|]; cbn; [|done].
  destruct (acquire p); cbn; [|done]. destruct (busy pg); cbn; [done|].
  rewrite bool_decide_eq_true_2 in Hrec by eauto. done.
Qed.

Lemma reclaimed_ok pg : IsMapped pg = false → 0 <= wired_count pg → page_ok (reclaimed pg).
Proof.
  unfold IsMapped. intros [Hw Hm]%orb_false_iff Hw0. breflect. split; [done|]. intros _.
  cbn. split_and!; [done|lia|done].
Qed.

(** ** The marker *)

Lemma list_next_split p l1 l2 : NoDup (l1 ++ p :: l2) → list_next p (l1 ++ p :: l2) = head l2.
Proof.
  induction l1 as [|x l1 IH]; cbn.
  - by rewrite decide_True.
  - intros [Hx ?]%NoDup_cons. rewrite decide_False by set_solver. auto.
Qed.

Definition is_busy s p : bool :=
  match pages s !! p with Some pg => busy pg | None => false end.

(** The search skips the busy pages. *)
Lemma first_not_busy_ok fuel l1 l2 s :
  NoDup (qelems QCached s) → qelems QCached s = l1 ++ l2 →
  (∀ p, p ∈ l2 → is_Some (pages s !! p)) → (length l2 < fuel)%nat →
  first_not_busy fuel (head l2) s = Ret (List.find (fun p => negb (is_busy s p)) l2).
Proof.
  intros Hnd. revert fuel l1. induction l2 as [|p l2 IH]; intros fuel l1 Hl Hs Hf; [by destruct fuel|].
  cbn in Hf. destruct fuel as [|fuel]; [lia|]. cbn.
  destruct (Hs p) as [pg Hp]; [left|]. unfold is_busy at 1. rewrite Hp. cbn.
  destruct (busy pg); cbn [negb]; [|done].
  unfold Next. rewrite Hl in Hnd |- *. rewrite list_next_split by done.
  apply (IH fuel (l1 ++ [p])); [by rewrite <- app_assoc|set_solver|lia].
Qed.

(** The marker stands between the pages already seen and those still to see;
    before the first search and after the last it is not in the queue. *)
Definition cursor marker (seen rest : list Z) s : Prop :=
  ∃ mk, pages s !! marker = Some mk ∧ (busy mk = true ∧ cache_ref mk = None) ∧
    ((state mk = PAGE_STATE_UNUSED ∧ seen = [] ∧ qelems QCached s = rest) ∨
     (state mk = PAGE_STATE_CACHED ∧ qelems QCached s = seen ++ marker :: rest)).

Definition only_marker marker s s' : Prop :=
  erase s' = erase s ∧
  (∀ p, p ≠ marker → pages s' !! p = pages s !! p) ∧
  (∃ mk mk', pages s !! marker = Some mk ∧ pages s' !! marker = Some mk' ∧
     mk' = mk <| state := state mk' |> <| queue := queue mk' |>) ∧
  (∀ i, i ≠ QCached → qelems i s' = qelems i s).

Lemma page_update_only_marker marker mk st q s s' :
  pages s !! marker = Some mk →
  page_update marker (mk <| state := st |> <| queue := q |>) s s' →
  (∀ i, i ≠ QCached → qelems i s' = qelems i s) → only_marker marker s s'.
Proof.
  intros Hm (_ & Hp & He) Hq. split_and!; [done| | |done].
  - intros p Hne. by rewrite Hp, lookup_insert_ne.
  - exists mk. eexists. split; [done|]. rewrite Hp, lookup_insert_eq. split; [done|]. by destruct mk.
Qed.

(** Taking the marker out of the queue, if it is in. *)
Lemma lift_marker marker seen rest s :
  pages_ok s → cursor marker seen rest s →
  ∃ mk s', pages s !! marker = Some mk ∧
    (if decide (state mk = PAGE_STATE_UNUSED) then Ret (Head QCached s, s)
     else
       _ ← assert (bool_decide (state mk = PAGE_STATE_CACHED));
       s1 ← Remove QCached marker s;
       Ret (Next QCached marker s, SetState PAGE_STATE_UNUSED marker s1)) = Ret (head rest, s') ∧
    page_update marker (mk <| state := PAGE_STATE_UNUSED |> <| queue := None |>) s s' ∧
    qelems QCached s' = seen ++ rest ∧ (∀ i, i ≠ QCached → qelems i s' = qelems i s).
Proof.
  intros [Hq Hall] (mk & Hm & Hb & Hcase). exists mk.
  pose proof (Hall marker mk Hm) as [Hh _].
  destruct Hcase as [(Hst & -> & Hl)|(Hst & Hl)].
  - exists s. rewrite decide_True by done. unfold Head. rewrite Hl.
    split; [done|]. split; [done|]. split; [|done]. split_and!; [done| |done].
    symmetry. apply insert_id. rewrite Hm. f_equal. destruct mk. cbn in *. subst. done.
  - rewrite decide_False, bool_decide_eq_true_2 by congruence. cbn [assert mbind outcome_bind].
    rewrite Hst in Hh. cbn in Hh. pose proof (queues_NoDup QCached s Hq) as Hnd.
    destruct (Remove_ok QCached marker mk s Hq Hm Hh) as (s1 & -> & Hq1 & Hs1). cbn [mbind outcome_bind].
    destruct (queue_step_update _ _ _ _ _ _ _ Hm Hq1 Hs1) as (Hu1 & Hl1 & Hi1).
    pose proof (SetState_update marker _ PAGE_STATE_UNUSED s1 (page_update_lookup _ _ _ _ Hu1) Hq1) as Hu2.
    exists (SetState PAGE_STATE_UNUSED marker s1). split; [done|]. split_and!.
    + unfold Next. rewrite Hl in *. by rewrite list_next_split.
    + exact (page_update_trans _ _ _ _ _ _ Hu1 Hu2).
    + rewrite Hl in Hl1, Hnd. rewrite remove_elem_split in Hl1 by done. exact Hl1.
    + exact Hi1.
Qed.

Lemma find_split {A} (f : A → bool) l x :
  List.find f l = Some x → ∃ l1 l2, l = l1 ++ x :: l2 ∧ f x = true ∧ Forall (fun y => f y = false) l1.
Proof.
  induction l as [|y l IH]; cbn; [done|]. destruct (f y) eqn:E.
  - intros [= ->]. by exists [], l.
  - intros (l1 & l2 & -> & ? & ?)%IH. exists (y :: l1), l2. split_and!; auto.
Qed.

Lemma find_ext {A} (f g : A → bool) l : (∀ x, f x = g x) → List.find f l = List.find g l.
Proof. intros H. induction l as [|y l IH]; cbn; [done|]. by rewrite H, IH. Qed.

Lemma is_busy_marker marker mk st q s s' p :
  pages s !! marker = Some mk →
  pages s' = <[marker := mk <| state := st |> <| queue := q |>]> (pages s) →
  is_busy s' p = is_busy s p.
Proof.
  intros Hm Hp. unfold is_busy. rewrite Hp. destruct (decide (p = marker)) as [->|].
  - by rewrite lookup_insert_eq, Hm.
  - by rewrite lookup_insert_ne.
Qed.

Lemma marker_ok mk st q : page_ok mk → q = home st →
  st = PAGE_STATE_UNUSED ∨ st = PAGE_STATE_CACHED → page_ok (mk <| state := st |> <| queue := q |>).
Proof. intros _ -> Hst. split; [done|]. unfold is_free. cbn. destruct Hst; subst; naive_solver. Qed.

Lemma find_candidate_ok marker seen rest s :
  pages_ok s → cursor marker seen rest s →
  ∃ s', pages_ok s' ∧ only_marker marker s s' ∧
    match List.find (fun p => negb (is_busy s p)) rest with
    | None => find_cached_page_candidate marker s = Ret (None, s') ∧ cursor marker [] (seen ++ rest) s'
    | Some p =>
        find_cached_page_candidate marker s = Ret (Some p, s') ∧
        ∃ bs rest', rest = bs ++ p :: rest' ∧ is_busy s p = false ∧
          Forall (fun b => is_busy s b = true) bs ∧ cursor marker (seen ++ bs ++ [p]) rest' s'
    end.
Proof.
  intros Hok Hcur. pose proof Hcur as (mk0 & Hm0 & Hb0 & _).
  destruct (lift_marker marker seen rest s Hok Hcur) as (mk & s1 & Hm & Hlift & Hu1 & Hl1 & Hi1).
  assert (mk0 = mk) as -> by congruence. pose proof (proj2 Hok marker mk Hm) as Hmk.
  pose proof (page_update_lookup _ _ _ _ Hu1) as Hm1. pose proof Hu1 as (Hq1 & Hp1 & He1).
  pose proof (queues_NoDup QCached s1 Hq1) as Hnd1. pose proof (is_busy_marker marker mk PAGE_STATE_UNUSED None s s1) as Hbusy.
  unfold find_cached_page_candidate. rewrite Hm. cbn [deref mbind outcome_bind].
  rewrite Hlift. cbn [mbind outcome_bind].
  rewrite (first_not_busy_ok _ seen rest s1);
    [|done|done| |rewrite Hl1, length_app; lia].
  2: { intros p Hp. destruct (proj1 (proj2 (proj2 (proj2 Hq1 QCached)) p)) as (pg & -> & _); [|by eexists].
       rewrite Hl1. set_solver. }
  rewrite (find_ext (fun p => negb (is_busy s1 p)) (fun p => negb (is_busy s p)))
    by (intros p; by rewrite (Hbusy p Hm Hp1)).
  destruct (List.find _ rest) as [p|] eqn:Hfind; cbn [mbind outcome_bind].
  - apply find_split in Hfind as (bs & rest' & -> & Hnb & Hbs). cbn in Hnb, Hbs.
    pose proof (SetState_update marker _ PAGE_STATE_CACHED s1 Hm1 Hq1) as Hu2.
    assert (qelems QCached (SetState PAGE_STATE_CACHED marker s1) = (seen ++ bs) ++ p :: rest') as Hl2
      by (rewrite <- app_assoc; exact Hl1).
    destruct (InsertAfter_ok QCached p marker _ _ (seen ++ bs) rest' (proj1 Hu2) Hl2
      (page_update_lookup _ _ _ _ Hu2) eq_refl) as (s3 & -> & Hq3 & Hs3).
    destruct (queue_step_update _ _ _ _ _ _ _ (page_update_lookup _ _ _ _ Hu2) Hq3 Hs3) as (Hu3 & Hl3 & Hi3).
    pose proof (page_update_trans _ _ _ _ _ _ Hu1 (page_update_trans _ _ _ _ _ _ Hu2 Hu3)) as Hu.
    exists s3. split; [|split].
    + eapply page_update_ok; [done| |exact Hu]. apply (marker_ok mk PAGE_STATE_CACHED (Some QCached)); auto.
    + eapply (page_update_only_marker marker mk PAGE_STATE_CACHED (Some QCached)); [done|exact Hu|].
      intros i Hi. rewrite Hi3 by done. exact (Hi1 i Hi).
    + split; [done|]. exists bs, rest'. split; [done|]. split; [by destruct (is_busy s p)|]. split.
      { eapply Forall_impl; [exact Hbs|]. intros b Hb. cbn in Hb. by apply negb_false_iff in Hb. }
      eexists. split; [exact (page_update_lookup _ _ _ _ Hu)|]. split; [done|]. right. split; [done|].
      rewrite Hl3. by rewrite <- !app_assoc.
  - exists s1. split; [|split; [|split]].
    + eapply page_update_ok; [done| |exact Hu1]. apply marker_ok; auto.
    + by eapply page_update_only_marker.
    + done.
    + eexists. split; [exact Hm1|]. split; [done|]. left. done.
Qed.

(** ** [free_cached_pages] against its specification

    In queue order, every page that can be taken is freed until [k] have been:
    the first component is the queue afterwards, the second the pages freed. *)
Fixpoint reclaim_spec (elig : Z → bool) (k : nat) (l : list Z) : list Z * list Z :=
  match k, l with
  | O, _ => (l, [])
  | _, [] => ([], [])
  | S k', p :: l' =>
      if elig p then let '(kept, fr) := reclaim_spec elig k' l' in (kept, p :: fr)
      else let '(kept, fr) := reclaim_spec elig k l' in (p :: kept, fr)
  end.

Lemma reclaim_spec_nil elig k : reclaim_spec elig k [] = ([], []).
Proof. by destruct k. Qed.

Lemma reclaim_spec_0 elig l : reclaim_spec elig 0 l = (l, []).
Proof. by destruct l. Qed.

Lemma reclaim_spec_ext elig elig' k l :
  (∀ p, p ∈ l → elig p = elig' p) → reclaim_spec elig k l = reclaim_spec elig' k l.
Proof.
  revert k. induction l as [|p l IH]; intros [|k] H; cbn; try done.
  rewrite (H p) by left. case_match; rewrite IH; auto; intros; apply H; by right.
Qed.

Lemma reclaim_spec_skip elig k l1 l2 :
  Forall (fun p => elig p = false) l1 →
  reclaim_spec elig k (l1 ++ l2) =
    (l1 ++ (reclaim_spec elig k l2).1, (reclaim_spec elig k l2).2).
Proof.
  induction 1 as [|p l1 Hp _ IH]; cbn; [by destruct (reclaim_spec elig k l2)|].
  destruct k as [|k]; [by rewrite reclaim_spec_0|]. rewrite Hp, IH. done.
Qed.

Lemma reclaim_spec_incl elig k l p :
  (p ∈ (reclaim_spec elig k l).2 → p ∈ l) ∧ (p ∈ (reclaim_spec elig k l).1 → p ∈ l).
Proof.
  revert k. induction l as [|x l IH]; intros [|k]; cbn; try set_solver.
  destruct (elig x); [destruct (IH k) as [IH1 IH2]|destruct (IH (S k)) as [IH1 IH2]];
    destruct (reclaim_spec _ _ l); cbn in *; set_solver.
Qed.

Definition rest_ok s (rest : list Z) : Prop :=
  ∀ p, p ∈ rest → ∃ pg, pages s !! p = Some pg ∧ state pg = PAGE_STATE_CACHED ∧ cached_ok s pg.

(** What an iteration may have done to the pages it has not reached yet. *)
Definition rest_same s s' (rest : list Z) : Prop :=
  caches_stable s s' ∧ ∀ p, p ∈ rest → pages s' !! p = pages s !! p.

Lemma cached_ok_stable s s' pg : caches_stable s s' → cached_ok s pg → cached_ok s' pg.
Proof.
  intros [_ Hs] (? & ? & c & C & HC & Hr). destruct (Hs c C HC) as (C' & HC' & Hr').
  split_and!; [done..|]. exists c, C'. split; [done|congruence].
Qed.

Lemma rest_same_ok s s' rest : rest_same s s' rest → rest_ok s rest → rest_ok s' rest.
Proof.
  intros [Hs Hp] Hr p Hin. destruct (Hr p Hin) as (pg & ? & ? & ?). exists pg.
  rewrite Hp by done. split_and!; [done..|]. by eapply cached_ok_stable.
Qed.

Lemma rest_same_elig acquire s s' rest p :
  rest_same s s' rest → p ∈ rest → reclaimable acquire s' p = reclaimable acquire s p.
Proof.
  intros [[Hr _] Hp] Hin. unfold reclaimable. rewrite Hp by done. destruct (pages s !! p); [|done].
  unfold page_Cache. by rewrite Hr.
Qed.

Definition loop_result acquire marker (seen rest : list Z) (k : nat) s s' : Prop :=
  let '(kept, fr) := reclaim_spec (reclaimable acquire s) k rest in
  pages_ok s' ∧ caches_ok s' ∧ counters (sMemoryZone s') = counters (sMemoryZone s) ∧
  (∃ seen' rest', cursor marker seen' rest' s' ∧ seen' ++ rest' = seen ++ kept) ∧
  qelems QFree s' = reverse fr ++ qelems QFree s ∧
  ∀ p, p ≠ marker →
    pages s' !! p = if decide (p ∈ fr) then reclaimed <$> pages s !! p else pages s !! p.

Lemma only_marker_frame marker s s' rest :
  only_marker marker s s' → marker ∉ rest → caches_ok s → queues_ok s' →
  caches_ok s' ∧ rest_same s s' rest ∧ counters (sMemoryZone s') = counters (sMemoryZone s).
Proof.
  intros (He & Hp & (mk & mk' & Hm & Hm' & Hmk) & _) Hn Hc Hq.
  assert (page_update marker mk' s s') as Hu.
  { split_and!; [done| |done]. apply map_eq. intros p. destruct (decide (p = marker)) as [->|].
    - by rewrite lookup_insert_eq.
    - by rewrite lookup_insert_ne, Hp. }
  split_and!; [| |by eapply page_update_counters].
  - eapply caches_ok_page_update; [exact Hm|exact Hu|by rewrite Hmk..|done].
  - split; [by apply caches_stable_erase|]. intros p Hin. apply Hp. by intros ->.
Qed.

(** Composition of one iteration, which kept [kept0] and freed [fr0], with
    the iterations after it. *)
Lemma loop_result_step acquire marker seen rest rest' kept0 fr0 k k' s s2 s3 :
  (let '(kept, fr) := reclaim_spec (reclaimable acquire s2) k' rest' in
   reclaim_spec (reclaimable acquire s) k rest = (kept0 ++ kept, fr0 ++ fr)) →
  (∀ p, p ∈ fr0 → p ∉ rest') →
  counters (sMemoryZone s2) = counters (sMemoryZone s) →
  qelems QFree s2 = reverse fr0 ++ qelems QFree s →
  (∀ p, p ≠ marker →
    pages s2 !! p = if decide (p ∈ fr0) then reclaimed <$> pages s !! p else pages s !! p) →
  loop_result acquire marker (seen ++ kept0) rest' k' s2 s3 →
  loop_result acquire marker seen rest k s s3.
Proof.
  intros Hspec Hdisj Hz Hf Hp Hres. unfold loop_result in *.
  pose proof (reclaim_spec_incl (reclaimable acquire s2) k' rest') as Hincl.
  destruct (reclaim_spec _ k' rest') as [kept fr]. rewrite Hspec.
  destruct Hres as (Hok & Hc & Hz3 & (seen' & rest2 & Hcur & Hsr) & Hf3 & Hp3).
  split_and!; [done|done|congruence| | |].
  - exists seen', rest2. split; [done|]. by rewrite Hsr, <- app_assoc.
  - by rewrite Hf3, Hf, reverse_app, app_assoc.
  - intros p Hne. rewrite Hp3, Hp by done. destruct (Hincl p) as [Hi _]. cbn in Hi.
    destruct (decide (p ∈ fr)), (decide (p ∈ fr0)), (decide (p ∈ fr0 ++ fr)); set_solver.
Qed.

Lemma busy_not_reclaimable acquire s p : is_busy s p = true → reclaimable acquire s p = false.
Proof. unfold is_busy, reclaimable. destruct (pages s !! p); [|done]. by intros ->. Qed.

Lemma loop_result_none acquire marker seen rest k s s' :
  Forall (fun b => is_busy s b = true) rest → pages_ok s' → caches_ok s' →
  counters (sMemoryZone s') = counters (sMemoryZone s) → only_marker marker s s' →
  (∃ seen' rest', cursor marker seen' rest' s' ∧ seen' ++ rest' = seen ++ rest) →
  reclaim_spec (reclaimable acquire s) k rest = (rest, []) ∧
  loop_result acquire marker seen rest k s s'.
Proof.
  intros Hb Hok Hc Hz (_ & Hp & _ & Hi) Hcur.
  assert (reclaim_spec (reclaimable acquire s) k rest = (rest, [])) as Hs.
  { rewrite <- (app_nil_r rest) at 1. rewrite reclaim_spec_skip, reclaim_spec_nil; cbn; [by rewrite app_nil_r|].
    eapply Forall_impl; [exact Hb|]. intros b. apply busy_not_reclaimable. }
  split; [done|]. unfold loop_result. rewrite Hs. split_and!; auto.
Qed.

Lemma cursor_NoDup marker seen rest s :
  queues_ok s → cursor marker seen rest s → NoDup (seen ++ rest).
Proof.
  intros Hq (mk & _ & _ & [(_ & -> & Hl)|(_ & Hl)]); pose proof (queues_NoDup QCached s Hq) as Hnd;
    rewrite Hl in Hnd; [done|].
  rewrite <- Permutation_middle in Hnd. by apply NoDup_cons in Hnd as [_ ?].
Qed.

(** Freeing the page in front of the marker leaves the marker in place. *)
Lemma cursor_removed marker seen p rest s s' pg :
  cursor marker (seen ++ [p]) rest s → NoDup (qelems QCached s) → p ≠ marker →
  pages s' = <[p := pg]> (pages s) → qelems QCached s' = remove_elem p (qelems QCached s) →
  cursor marker seen rest s'.
Proof.
  intros (mk & Hm & Hb & Hcase) Hnd Hne Hp Hl. exists mk.
  rewrite Hp, lookup_insert_ne by done. split; [done|]. split; [done|].
  destruct Hcase as [(_ & Hnil & _)|(Hst & Hq)]; [by destruct seen|]. right. split; [done|].
  rewrite Hq in Hnd, Hl. rewrite <- app_assoc in Hnd, Hl. cbn in Hnd, Hl.
  by rewrite remove_elem_split in Hl.
Qed.

(** One iteration that finds the candidate [p] behind the busy pages [bs]. *)
Definition iteration acquire marker (seen bs : list Z) p (rest' : list Z) (ok : bool) s s2 : Prop :=
  let kept0 := bs ++ (if ok then [] else [p]) in
  let fr0 := if ok then [p] else [] in
  reclaimable acquire s p = ok ∧
  pages_ok s2 ∧ caches_ok s2 ∧ cursor marker (seen ++ kept0) rest' s2 ∧ rest_same s s2 rest' ∧
  counters (sMemoryZone s2) = counters (sMemoryZone s) ∧
  qelems QFree s2 = reverse fr0 ++ qelems QFree s ∧
  (∀ q, q ≠ marker →
    pages s2 !! q = if decide (q ∈ fr0) then reclaimed <$> pages s !! q else pages s !! q).

Lemma iteration_freed acquire marker seen bs p pg rest' s s1 :
  pages_ok s1 → caches_ok s1 → only_marker marker s s1 → caches_stable s s1 →
  counters (sMemoryZone s1) = counters (sMemoryZone s) →
  cursor marker (seen ++ bs ++ [p]) rest' s1 → marker ∉ p :: rest' → p ∉ rest' →
  pages s1 !! p = Some pg → state pg = PAGE_STATE_CACHED → cached_ok s1 pg →
  reclaimable acquire s p = reclaimable acquire s1 p → reclaimable acquire s1 p = true →
  ∃ s2, reclaim_candidate acquire p s1 = Ret (true, s2) ∧ iteration acquire marker seen bs p rest' true s s2.
Proof.
  intros Hok1 Hc1 (_ & Hom & _ & Hi) Hst1 Hz1 Hcur1 Hm Hnp Hp Hst Hco Hel Hrec.
  destruct (reclaim_candidate_yes acquire p pg s1) as (s2 & He & Hq2 & Hc2 & Hp2 & Hz2 & Hl2 & Hf2 & Hs2); auto.
  exists s2. split; [done|]. unfold iteration. cbn zeta.
  split_and!; [congruence| |done| | |congruence| |].
  - split; [done|]. intros q pq. rewrite Hp2.
    intros [[<- <-]|[_ ?]]%lookup_insert_Some; [|by eapply (proj2 Hok1)].
    apply reclaimed_ok; [apply Hco|]. apply (proj2 Hc1 p pg Hp).
  - rewrite app_nil_r. eapply cursor_removed;
      [rewrite <- app_assoc; exact Hcur1|by apply queues_NoDup, Hok1|set_solver|done|done].
  - split; [by eapply caches_stable_trans|]. intros q Hq. rewrite Hp2, lookup_insert_ne by set_solver.
    apply Hom. set_solver.
  - rewrite Hf2. cbn. f_equal. by apply Hi.
  - intros q Hq. rewrite Hp2. destruct (decide (q = p)) as [->|].
    + rewrite lookup_insert_eq, decide_True by set_solver. by rewrite <- Hom, Hp by done.
    + rewrite lookup_insert_ne, decide_False by set_solver. by apply Hom.
Qed.

Lemma iteration_ok acquire marker seen rest s :
  pages_ok s → caches_ok s → cursor marker seen rest s → rest_ok s rest → marker ∉ seen ++ rest →
  ∃ s1, pages_ok s1 ∧ caches_ok s1 ∧ only_marker marker s s1 ∧
    counters (sMemoryZone s1) = counters (sMemoryZone s) ∧
    ((Forall (fun b => is_busy s b = true) rest ∧
      find_cached_page_candidate marker s = Ret (None, s1) ∧ cursor marker [] (seen ++ rest) s1) ∨
     (∃ p bs rest' ok s2, rest = bs ++ p :: rest' ∧ p ∉ rest' ∧
        Forall (fun b => reclaimable acquire s b = false) bs ∧
        find_cached_page_candidate marker s = Ret (Some p, s1) ∧
        reclaim_candidate acquire p s1 = Ret (ok, s2) ∧
        iteration acquire marker seen bs p rest' ok s s2)).
Proof.
  intros Hok Hc Hcur Hrest Hm.
  destruct (find_candidate_ok marker seen rest s Hok Hcur) as (s1 & Hok1 & Hom & Hcase).
  destruct (only_marker_frame marker s s1 rest Hom) as (Hc1 & Hsame & Hz1); [set_solver|done|apply Hok1|].
  exists s1. split_and!; [done..|].
  destruct (List.find _ rest) as [p|] eqn:Hfind; [right|left].
  2: { destruct Hcase as [He Hcur1]. split_and!; [|done..]. apply Forall_forall. intros b Hb.
       by apply negb_false_iff, (List.find_none _ _ Hfind b), list_elem_of_In. }
  destruct Hcase as (He & bs & rest' & -> & Hnb & Hbs & Hcur1).
  pose proof (cursor_NoDup _ _ _ _ (proj1 Hok1) Hcur1) as Hnd.
  assert (p ∉ rest') as Hnp.
  { intros Hin. rewrite app_assoc in Hnd. apply NoDup_app in Hnd as (_ & Hd & _). apply (Hd p); set_solver. }
  destruct (rest_same_ok s s1 _ Hsame Hrest p) as (pg & Hp & Hst & Hco); [set_solver|].
  pose proof (rest_same_elig acquire s s1 _ p Hsame) as Hel. specialize (Hel ltac:(set_solver)).
  assert (Forall (fun b => reclaimable acquire s b = false) bs) as Hbs'
    by (eapply Forall_impl; [exact Hbs|]; intros b; apply busy_not_reclaimable).
  exists p, bs, rest'. destruct (reclaimable acquire s1 p) eqn:Hrec.
  - destruct (iteration_freed acquire marker seen bs p pg rest' s s1) as (s2 & He2 & Hit);
      [done..|apply Hsame|done|done|set_solver|done|done|done|done|congruence|done|].
    exists true, s2. auto 10.
  - exists false, s1. split_and!; auto.
    + by apply (reclaim_candidate_no acquire p pg).
    + unfold iteration. cbn zeta. split_and!; auto.
      * split; [apply Hsame|]. intros q Hq. apply Hsame. set_solver.
      * by apply Hom.
      * intros q Hq. rewrite decide_False by set_solver. by apply Hom.
Qed.

Lemma iteration_spec acquire marker seen bs p rest' ok k s s2 :
  iteration acquire marker seen bs p rest' ok s s2 →
  Forall (fun b => reclaimable acquire s b = false) bs →
  let k' := if ok then k else S k in
  let r := reclaim_spec (reclaimable acquire s2) k' rest' in
  reclaim_spec (reclaimable acquire s) (S k) (bs ++ p :: rest') =
    ((bs ++ (if ok then [] else [p])) ++ r.1, (if ok then [p] else []) ++ r.2).
Proof.
  intros (Hel & _ & _ & _ & Hsame & _) Hbs. cbn zeta.
  rewrite (reclaim_spec_ext (reclaimable acquire s2) (reclaimable acquire s))
    by (intros q Hq; by apply (rest_same_elig acquire s s2 rest' q)).
  rewrite reclaim_spec_skip by done. cbn [reclaim_spec]. rewrite Hel.
  destruct ok; destruct (reclaim_spec _ _ rest'); cbn; by rewrite <- ?app_assoc.
Qed.

Lemma free_cached_loop_ok fuel acquire marker (n : Z) k seen rest s :
  pages_ok s → caches_ok s → cursor marker seen rest s → rest_ok s rest → marker ∉ seen ++ rest →
  (length rest < fuel)%nat → 0 <= n → n + Z.of_nat k < 2 ^ 32 →
  ∃ s', free_cached_loop fuel acquire marker (n + Z.of_nat k) n s =
          Ret (n + Z.of_nat (length (reclaim_spec (reclaimable acquire s) k rest).2), s') ∧
    loop_result acquire marker seen rest k s s'.
Proof.
  revert n k seen rest s. induction fuel as [|fuel IH]; [lia|].
  intros n k seen rest s Hok Hc Hcur Hrest Hm Hfuel Hn Hmax. cbn [free_cached_loop].
  destruct (Z.ltb_spec n (n + Z.of_nat k)) as [Hlt|Hge].
  2: { assert (k = O) as -> by lia. exists s. rewrite reclaim_spec_0. cbn.
       split; [do 2 f_equal; lia|]. unfold loop_result. rewrite reclaim_spec_0.
       split_and!; eauto. }
  destruct k as [|k]; [lia|].
  destruct (iteration_ok acquire marker seen rest s) as (s1 & Hok1 & Hc1 & Hom & Hz1 & Hcase); auto.
  destruct Hcase as [(Hbusy & -> & Hcur1)|(p & bs & rest' & ok & s2 & -> & Hnp & Hbs & -> & He2 & Hit)];
    cbn [mbind outcome_bind].
  { destruct (loop_result_none acquire marker seen rest (S k) s s1) as [-> Hres]; eauto.
    exists s1. cbn. split; [do 2 f_equal; lia|done]. }
  rewrite He2. cbn [mbind outcome_bind].
  pose proof (iteration_spec _ _ _ _ _ _ _ k _ _ Hit Hbs) as Hspec. cbn zeta in Hspec.
  destruct Hit as (_ & Hok2 & Hc2 & Hcur2 & Hsame & Hz2 & Hf2 & Hp2).
  rewrite length_app in Hfuel. cbn in Hfuel.
  destruct (IH (if ok then n + 1 else n) (if ok then k else S k) (seen ++ bs ++ (if ok then [] else [p])) rest' s2)
    as (s3 & He3 & Hres3); auto; try (destruct ok; lia).
  - apply (rest_same_ok s s2); [done|]. intros q Hq. apply Hrest. set_solver.
  - destruct ok; set_solver.
  - exists s3. replace (if ok then u32 (n + 1) else n) with (if ok then n + 1 else n)
      by (destruct ok; [rewrite wrap_small by (split; lia)|]; done).
    replace (n + Z.of_nat (S k)) with ((if ok then n + 1 else n) + Z.of_nat (if ok then k else S k))
      by (destruct ok; lia).
    rewrite He3, Hspec. cbn [snd]. rewrite length_app. split; [do 2 f_equal; destruct ok; cbn; lia|].
    eapply loop_result_step; [|  |exact Hz2|exact Hf2|exact Hp2|exact Hres3].
    + rewrite Hspec. by destruct (reclaim_spec _ _ rest').
    + destruct ok; set_solver.
Qed.

(** ** The marker as an object of the store *)

(** An object that is in no queue and no cache may come and go. *)
Lemma caches_ok_store s s' marker :
  caches_ok s → caches s' = caches s → cacherefs s' = cacherefs s →
  (∀ p, p ≠ marker → pages s' !! p = pages s !! p) →
  (∀ mk, pages s !! marker = Some mk → cache_ref mk = None) →
  (∀ mk, pages s' !! marker = Some mk → cache_ref mk = None ∧ wired_count mk = 0) →
  caches_ok s'.
Proof.
  intros [Hc Hw] Hcs Hcr Hp Hm Hm'. split.
  - intros c C HC. rewrite Hcs in HC. pose proof (Hc c C HC) as HokC.
    eapply cache_ok_frame; [exact HokC|done| |].
    + intros p o. unfold refers. destruct (decide (p = marker)) as [->|]; [|by rewrite Hp].
      split; intros (mk & Hmk & _ & Hr); exfalso;
        [apply Hm' in Hmk as [Hmk _]|apply Hm in Hmk]; congruence.
    + intros p o Ho. assert (p ≠ marker).
      { intros ->. destruct HokC as (_ & _ & _ & _ & Hel). apply Hel in Ho as (mk & Hmk & _ & Hr).
        apply Hm in Hmk. congruence. }
      unfold is_wired. by rewrite Hp.
  - intros p pg Hpg. destruct (decide (p = marker)) as [->|].
    + destruct (Hm' pg Hpg) as [_ ->]. by split.
    + rewrite Hp in Hpg by done. eauto.
Qed.

Lemma queues_ok_store s (m : gmap Z page) marker :
  queues_ok s → Z.of_nat (size m) < 2 ^ 64 →
  (∀ p, p ≠ marker → m !! p = pages s !! p) →
  (∀ mk, pages s !! marker = Some mk → queue mk = None) →
  (∀ mk, m !! marker = Some mk → queue mk = None) →
  queues_ok (s <| pages := m |>).
Proof.
  intros [_ Hq] Hsz Hp Hm Hm'. split; [done|]. intros i. destruct (Hq i) as (? & ? & Hel).
  assert (∀ p, (∃ pg, m !! p = Some pg ∧ queue pg = Some i) ↔
               (∃ pg, pages s !! p = Some pg ∧ queue pg = Some i)) as Heq.
  { intros p. destruct (decide (p = marker)) as [->|]; [|by rewrite Hp].
    split; intros (pg & Hpg & Hqq); exfalso; [apply Hm' in Hpg|apply Hm in Hpg]; congruence. }
  split_and!; [by destruct i..|]. intros p. cbn [pages update]. rewrite Heq, <- Hel. by destruct i.
Qed.

Lemma init_page_marker_ok marker s :
  pages_ok s → caches_ok s → pages s !! marker = None → Z.of_nat (size (pages s)) + 1 < 2 ^ 64 →
  let s' := init_page_marker marker s in
  pages_ok s' ∧ caches_ok s' ∧ cursor marker [] (qelems QCached s) s' ∧
  (∀ p, p ≠ marker → pages s' !! p = pages s !! p).
Proof.
  intros [Hq Hall] Hc Hm Hsz. cbn zeta. unfold init_page_marker.
  set (mk := page_zero <| cache_ref := None |> <| state := PAGE_STATE_UNUSED |>
                  <| busy := true |> <| queue := None |>).
  assert (∀ p, p ≠ marker → <[marker := mk]> (pages s) !! p = pages s !! p) as Hp
    by (intros; by rewrite lookup_insert_ne).
  split_and!; [split| | |exact Hp].
  - apply (queues_ok_store s _ marker); [done| |exact Hp| |].
    + rewrite map_size_insert_None by done. lia.
    + intros ?. by rewrite Hm.
    + intros ?. rewrite lookup_insert_eq. by intros [= <-].
  - intros p pg. cbn. intros [[<- <-]|[_ ?]]%lookup_insert_Some; [|eauto].
    split; [done|]. unfold is_free. cbn. naive_solver.
  - apply (caches_ok_store s _ marker); [done..|exact Hp| |].
    + intros ?. by rewrite Hm.
    + intros ?. cbn. rewrite lookup_insert_eq. by intros [= <-].
  - exists mk. cbn. rewrite lookup_insert_eq. split; [done|]. split; [done|]. left. done.
Qed.

Lemma map_size_delete_le p (m : gmap Z page) : (size (delete p m) <= size m)%nat.
Proof. rewrite map_size_delete. destruct (m !! p); cbn; lia. Qed.

Lemma remove_page_marker_ok marker seen rest s :
  pages_ok s → caches_ok s → cursor marker seen rest s →
  ∃ s', remove_page_marker marker s = Ret s' ∧
    let s2 := s' <| pages ::= delete marker |> in
    pages_ok s2 ∧ caches_ok s2 ∧ counters (sMemoryZone s2) = counters (sMemoryZone s) ∧
    qelems QCached s2 = seen ++ rest ∧ qelems QFree s2 = qelems QFree s ∧
    (∀ p, pages s2 !! p = if decide (p = marker) then None else pages s !! p).
Proof.
  intros [Hq Hall] Hc Hcur. pose proof Hcur as (mk & Hm & Hb & Hcase).
  pose proof (Hall marker mk Hm) as [Hh Hfree].
  unfold remove_page_marker. rewrite Hm. cbn [deref mbind outcome_bind].
  destruct (leave_queue marker mk _ s Hq Hm Hh) as (s1 & He1 & Hu1). rewrite He1. cbn [mbind outcome_bind].
  eexists. split; [done|]. cbn zeta.
  pose proof (SetState_update marker _ PAGE_STATE_UNUSED s1 (page_update_lookup _ _ _ _ Hu1) (proj1 Hu1)) as Hu2.
  pose proof (page_update_trans _ _ _ _ _ _ Hu1 Hu2) as Hu. set (s2 := SetState _ _ s1) in *.
  pose proof Hu as (Hq2 & Hp2 & He2).
  assert (∀ p, pages (s2 <| pages ::= delete marker |>) !! p = if decide (p = marker) then None else pages s !! p) as Hps.
  { intros p. cbn [pages update]. case_decide as Hpm; subst; [apply lookup_delete_eq|].
    by rewrite lookup_delete_ne, Hp2, lookup_insert_ne. }
  assert (qelems QCached s2 = seen ++ rest ∧ qelems QFree s2 = qelems QFree s) as [Hl Hf].
  { destruct Hcase as [(Hst & -> & Hl)|(Hst & Hl)]; rewrite Hst in He1, Hh; cbn in He1.
    - injection He1 as <-. exact (conj Hl eq_refl).
    - destruct (Remove_ok QCached marker mk s Hq Hm Hh) as (s1' & He1' & Hq1 & Hs1).
      assert (s1' = s1) as -> by (unfold RemoveUnlocked in He1; congruence).
      destruct (queue_step_update _ _ _ _ _ _ _ Hm Hq1 Hs1) as (_ & Hl1 & Hi1).
      pose proof (queues_NoDup QCached s Hq) as Hnd. rewrite Hl in Hl1, Hnd.
      rewrite remove_elem_split in Hl1 by done. exact (conj Hl1 (Hi1 QFree ltac:(done))). }
  split_and!; [split| | |done..|exact Hps].
  - apply (queues_ok_store s2 _ marker); [done| | | |].
    + pose proof (map_size_delete_le marker (pages s2)). destruct Hq2 as [Hsz _]. lia.
    + intros p Hne. by rewrite lookup_delete_ne.
    + intros ?. rewrite Hp2, lookup_insert_eq. by intros [= <-].
    + intros ?. by rewrite lookup_delete_eq.
  - intros p pg. rewrite Hps. case_decide; [done|]. apply Hall.
  - apply (caches_ok_store s _ marker); [done|..].
    + by destruct (caches_stable_erase _ _ He2), s, s2; injection He2.
    + apply (caches_stable_erase _ _ He2).
    + intros p Hne. rewrite Hps. by rewrite decide_False.
    + intros ?. rewrite Hm. intros [= <-]. apply Hb.
    + intros ?. rewrite Hps. by rewrite decide_True.
  - exact (page_update_counters _ _ _ _ Hu).
Qed.
End ops.

(** C21: free_cached_pages with a marker of its own visits the cached queue
    once in order and frees the first pagesToFree reclaimable pages (not
    busy, cache lockable, not wired): exactly those leave the cached queue
    and their cache and go to the head of the free queue, all others keep
    their order, the marker is gone, the result is the number freed, and the
    page and cache invariants hold. Fuel: one more than the length of the
    queue is enough. *)
Theorem free_cached_pages_correct {DL : DLList Z} (acquire : Z → bool) (marker n : Z) (s : vmstate)
    (kept fr : list Z)
    (Hok : pages_ok s) (Hc : caches_ok s) (Hm : pages s !! marker = None)
    (Hsz : Z.of_nat (size (pages s)) + 1 < 2 ^ 64) (Hn : 0 <= n < 2 ^ 32)
    (Hcached : ∀ p pg, pages s !! p = Some pg → state pg = PAGE_STATE_CACHED → cached_ok s pg)
    (Hspec : reclaim_spec (reclaimable acquire s) (Z.to_nat n) (qelems QCached s) = (kept, fr)) :
  ∃ s', free_cached_pages (S (length (qelems QCached s))) acquire marker n s =
          Ret (Z.of_nat (length fr), s') ∧
    pages_ok s' ∧ caches_ok s' ∧ counters (sMemoryZone s') = counters (sMemoryZone s) ∧
    qelems QCached s' = kept ∧ qelems QFree s' = reverse fr ++ qelems QFree s ∧
    ∀ p, pages s' !! p = if decide (p ∈ fr) then reclaimed <$> pages s !! p else pages s !! p.
Proof.
  destruct (init_page_marker_ok marker s Hok Hc Hm Hsz) as (Hok0 & Hc0 & Hcur0 & Hp0).
  assert (∀ p, p ∈ qelems QCached s → ∃ pg, pages s !! p = Some pg ∧ state pg = PAGE_STATE_CACHED) as Hq.
  { intros p Hin. apply (proj2 (proj1 Hok) QCached) in Hin as (pg & Hp & Hq). exists pg. split; [done|].
    destruct (proj2 Hok p pg Hp) as [Hh _]. rewrite Hq in Hh. by destruct (state pg). }
  assert (marker ∉ qelems QCached s) as Hni by (intros (pg & Hp & _)%Hq; congruence).
  set (s0 := init_page_marker marker s) in *.
  assert (rest_same s s0 (qelems QCached s)) as Hsame.
  { split; [split; [done|]; eauto|]. intros p Hin. apply Hp0. by intros ->. }
  destruct (free_cached_loop_ok (S (length (qelems QCached s))) acquire marker 0 (Z.to_nat n) []
    (qelems QCached s) s0) as (s1 & He1 & Hres); auto; try lia.
  { apply (rest_same_ok s s0 _ Hsame). intros p Hin. destruct (Hq p Hin) as (pg & Hp & Hst). eauto. }
  unfold loop_result in Hres.
  rewrite (reclaim_spec_ext _ (reclaimable acquire s)), Hspec in He1, Hres
    by (intros p Hin; by apply (rest_same_elig acquire s s0 _ p Hsame)).
  destruct Hres as (Hok1 & Hc1 & Hz1 & (seen & rest & Hcur1 & Hsr) & Hf1 & Hp1).
  destruct (remove_page_marker_ok marker seen rest s1) as (s2 & He2 & Hok2 & Hc2 & Hz2 & Hl2 & Hf2 & Hp2); auto.
  unfold free_cached_pages. fold s0. rewrite Z.add_0_l, Z2Nat.id in He1 by lia. rewrite He1.
  cbn [mbind outcome_bind snd]. rewrite He2. cbn [mbind outcome_bind].
  eexists. split; [done|]. split_and!; [done|done|by rewrite Hz2, Hz1|by rewrite Hl2, Hsr|by rewrite Hf2, Hf1|].
  intros p. rewrite Hp2. destruct (decide (p = marker)) as [->|Hne].
  - rewrite decide_False; [by rewrite Hm|]. intros Hin.
    pose proof (reclaim_spec_incl (reclaimable acquire s) (Z.to_nat n) (qelems QCached s) marker) as [Hi _].
    rewrite Hspec in Hi. auto.
  - by rewrite Hp1, Hp0.
Qed.

(** One cache with four cached pages: page 2 is busy, and the lock of the cache
    cannot be had for page 3. *)
Definition four_cached : vmstate :=
  let pg n := page_zero <| pfn := n |> <| state := PAGE_STATE_CACHED |> <| queue := Some QCached |>
                <| cache_ref := Some 1000 |> <| cache_offset := n |> in
  (vm_boot {[ 1 := pg 1; 2 := (pg 2) <| busy := true |>; 3 := pg 3; 4 := pg 4 ]})
    <| cacherefs := {[ 1000 := 100 ]} |>
    <| caches := {[ 100 := mkVMCache [] [] {[ 1 := 1; 2 := 2; 3 := 3; 4 := 4 ]} None 0 65536 0 0 4
                      true true CACHE_TYPE_RAM 1 1000 0 ]} |>
    <| sMemoryZone ::= fun z => z <| fCachedPageQueue := mkQueue 4 [1; 2; 3; 4] |> |>.

Lemma free_cached_pages_correct_witness :
  ∃ s', free_cached_pages 5 (fun p => negb (p =? 3)) 77 10 four_cached = Ret (2, s') ∧
    pages_ok s' ∧ caches_ok s' ∧ qelems QCached s' = [2; 3] ∧ qelems QFree s' = [4; 1].
Proof.
  destruct (free_cached_pages_correct (fun p => negb (p =? 3)) 77 10 four_cached [2; 3] [1; 4])
    as (s' & He & Hok & Hc & _ & Hl & Hf & _).
  - apply pages_okb_sound. vm_compute. reflexivity.
  - apply caches_okb_sound. vm_compute. reflexivity.
  - vm_compute. reflexivity.
  - vm_compute. reflexivity.
  - lia.
  - intros p pg Hp _. assert (map_Forall (fun _ pg => IsMapped pg = false ∧ modified pg = false ∧
      cache_ref pg = Some 1000) (pages four_cached)) as Hall by (by repeat apply map_Forall_insert_2).
    destruct (Hall p pg Hp) as (? & ? & ?). split_and!; auto. exists 100. eexists. split; [reflexivity|done].
  - vm_compute. reflexivity.
  - exists s'. split; [exact He|]. auto.
Defined.
