(* ===== verification/Reservation.v ===== *)
(** page_alloc.cpp: page reservations under concurrency.

    [reserve_pages], [unreserve_pages_for_zone] and the wake-up loop are
    given as steps of a thread, each step being one atomic access to a
    counter of the zone, with what the thread does to its own variables and,
    holding [fPageDeficitLock], to the list of waiters until the next one.
    The accesses are taken to be sequentially consistent.  The code asks for
    less (relaxed loads next to release and relaxed additions):
    [relaxed_wakeup_lost] at the end of the file shows what the weaker orders
    allow, and [in_order_wakeup_kept] that it is the orders that matter.  The system has any number
    of threads, each with one [vm_reservation_t], which reserve, allocate,
    free, unreserve and change page states in any interleaving.

    [sys_inv] is the invariant: the pages on the free and clear queues are
    exactly the unreserved ones and those owned by threads, the unsatisfied
    count is what the waiters miss, the waiters are in priority order, and a
    waiter that could be served is never left without a thread on its way to
    serve it. *)
From S2P Require Import Prelude VMState PageQueue CachePages PageAlloc PageReclaim.
From stdpp Require Import base list list_numbers numbers gmap sorting relations.
From Stdlib Require Import ZArith Lia.
Local Open Scope Z_scope.

(** ** Local state of the threads *)

(** The arguments of [vm_reserve_pages] after its adjustments of [dontWait]
    and [priority]. *)
Record request := mkRequest {
  rq_count : Z;
  rq_priority : gfp_prio;
  rq_dontWait : bool;
  rq_oomKill : bool
}.

(** Where a thread is in [reserve_pages]; [count] is the local variable. *)
Inductive reserve_pc :=
  | RTop (count : Z)            (** top of the loop *)
  | RCheck (count : Z)          (** before the test of fUnsatisfiedPageReservations *)
  | RCached (count freed : Z)   (** in free_cached_pages *)
  | RDecide (count : Z)         (** before the test of dontWait *)
  | RLocked (count : Z)         (** deficit lock held, count added to the unsatisfied *)
  | RChanged (count : Z)        (** deficit lock held, there are free pages again *)
  | RQueue (count : Z)          (** deficit lock held, there are none: about to queue *)
  | RWait                       (** waiter queued, waiting on its condition *)
  | RDone (remaining : Z).

Inductive unreserve_pc :=
  | UAdd (count : Z)            (** before the addition to fUnreservedFreePages *)
  | UCheck                      (** before the test of fUnsatisfiedPageReservations *)
  | UEnter                      (** before taking the deficit lock *)
  | ULoop                       (** top of the wake-up loop, deficit lock held *)
  | UServe (reserved : Z)       (** pages taken for the first waiter, deficit lock held *)
  | UDone.

Inductive thread :=
  | Running (held : Z)
  | Reserving (rq : request) (pc : reserve_pc)
  | Unreserving (held : Z) (pc : unreserve_pc).

Section sys.
Context {DL : DLList Z}.
Implicit Types (z : MemoryZone) (t : Z) (l : option Z).

(** ** Steps of the functions *)

(** The part of an iteration of [wake_up_page_reservation_waiters_for_zone]
    after [reserved] pages were taken for the first waiter: whether the loop
    goes on, and the zone. *)
Definition serve_waiter (reserved : Z) z : bool * MemoryZone :=
  match fPageReservationWaiters z with
  | [] => (false, z)
  | w :: ws =>
      let z := z <| fUnsatisfiedPageReservations ::= fun n => i32 (n - reserved) |> in
      let m := u32 (missing w - reserved) in
      if 0 <? m then (false, z <| fPageReservationWaiters := w <| missing := m |> :: ws |>)
      else (true, z <| fPageReservationWaiters := ws |>)
  end.

Definition waiter_of t (w : PageReservationWaiter) : bool := wthread w =? t.

Inductive reserve_step t (tprio : Z) (rq : request)
  : reserve_pc → option Z → MemoryZone → reserve_pc → option Z → MemoryZone → Prop :=
  | rs_take count l z n z' :
      reserve_some_pages_from_zone count (kPageReserveForPriority (rq_priority rq)) z = (n, z') →
      let count' := u32 (count - n) in
      reserve_step t tprio rq (RTop count) l z (if count' =? 0 then RDone 0 else RCheck count') l z'
  | rs_check_cached count l z :
      fUnsatisfiedPageReservations z = 0 →
      reserve_step t tprio rq (RCheck count) l z (RCached count 0) l z
  | rs_check_skip count l z :
      fUnsatisfiedPageReservations z ≠ 0 →
      reserve_step t tprio rq (RCheck count) l z (RDecide count) l z
  | rs_cached_done count freed l z :
      let count' := u32 (count - freed) in
      reserve_step t tprio rq (RCached count freed) l z
        (if count' =? 0 then RDone count' else RDecide count') l z
  | rs_dontWait count l z :
      rq_dontWait rq = true →
      reserve_step t tprio rq (RDecide count) l z (RDone count) l z
  | rs_lock count z :
      rq_dontWait rq = false →
      reserve_step t tprio rq (RDecide count) None z (RLocked count) (Some t)
        (z <| fUnsatisfiedPageReservations ::= fun n => i32 (n + count) |>)
  | rs_look count z :
      reserve_step t tprio rq (RLocked count) (Some t) z
        (if kPageReserveForPriority (rq_priority rq) <? fUnreservedFreePages z
         then RChanged count else RQueue count) (Some t) z
  | rs_changed count z :
      reserve_step t tprio rq (RChanged count) (Some t) z (RTop count) None
        (z <| fUnsatisfiedPageReservations ::= fun n => i32 (n - count) |>)
  | rs_queue count z :
      let waiter := mkWaiter (kPageReserveForPriority (rq_priority rq)) count tprio t in
      reserve_step t tprio rq (RQueue count) (Some t) z RWait None
        (z <| fPageReservationWaiters ::= insert_waiter waiter |>)
  | rs_woken z :
      forallb (fun w => negb (waiter_of t w)) (fPageReservationWaiters z) = true →
      reserve_step t tprio rq RWait None z (RDone 0) None z
  | rs_timeout (retry : bool) z w ws1 ws2 :
      fPageReservationWaiters z = ws1 ++ w :: ws2 → waiter_of t w = true →
      reserve_step t tprio rq RWait None z
        (if rq_oomKill rq && retry then RTop (missing w) else RDone (missing w)) None
        (z <| fPageReservationWaiters := ws1 ++ ws2 |>
           <| fUnsatisfiedPageReservations ::= fun n => i32 (n - missing w) |>).

Inductive unreserve_step t
  : unreserve_pc → option Z → MemoryZone → unreserve_pc → option Z → MemoryZone → Prop :=
  | us_add count l z :
      unreserve_step t (UAdd count) l z UCheck l
        (z <| fUnreservedFreePages ::= fun n => i32 (n + count) |>)
  | us_none l z :
      fUnsatisfiedPageReservations z = 0 → unreserve_step t UCheck l z UDone l z
  | us_some l z :
      fUnsatisfiedPageReservations z ≠ 0 → unreserve_step t UCheck l z UEnter l z
  | us_enter z : unreserve_step t UEnter None z ULoop (Some t) z
  | us_empty z :
      fPageReservationWaiters z = [] → unreserve_step t ULoop (Some t) z UDone None z
  | us_take z z' w reserved :
      head (fPageReservationWaiters z) = Some w →
      reserve_some_pages_from_zone (missing w) (dontTouch w) z = (reserved, z') →
      unreserve_step t ULoop (Some t) z
        (if reserved =? 0 then UDone else UServe reserved) (if reserved =? 0 then None else Some t) z'
  | us_serve z z' reserved go :
      serve_waiter reserved z = (go, z') →
      unreserve_step t (UServe reserved) (Some t) z
        (if go then ULoop else UDone) (if go then Some t else None) z'.

(** ** The system *)

Record sys := mkSys {
  vm : vmstate;
  fPageDeficitLock : option Z;
  threads : gmap Z thread
}.
#[global] Instance eta_sys : Eta sys := fun c => mkSys (vm c) (fPageDeficitLock c) (threads c).

Definition zone (c : sys) : MemoryZone := sMemoryZone (vm c).

Definition set_thread t (th : thread) (c : sys) : sys := c <| threads ::= <[t := th]> |>.

Definition demand (th : thread) : Z :=
  match th with Reserving rq _ => rq_count rq | _ => 0 end.

Definition total_demand (m : gmap Z thread) : Z := msum demand m.

Inductive sys_step : sys → sys → Prop :=
  (** [vm_reserve_pages]: entry, the steps of [reserve_pages], and its two exits. *)
  | st_reserve c t rq :
      threads c !! t = Some (Running 0) →
      0 < rq_count rq → total_demand (threads c) + rq_count rq < 2 ^ 31 →
      sys_step c (set_thread t (Reserving rq (RTop (rq_count rq))) c)
  | st_reserving c t tprio rq pc pc' l' z' :
      threads c !! t = Some (Reserving rq pc) →
      reserve_step t tprio rq pc (fPageDeficitLock c) (zone c) pc' l' z' →
      sys_step c (mkSys ((vm c) <| sMemoryZone := z' |>) l' (<[t := Reserving rq pc']> (threads c)))
  | st_cached c t rq count freed acquire p ok s' :
      threads c !! t = Some (Reserving rq (RCached count freed)) → freed < count →
      p ∈ qelems QCached (vm c) →
      reclaim_candidate acquire p (vm c) = Ret (ok, s') →
      sys_step c (mkSys s' (fPageDeficitLock c)
        (<[t := Reserving rq (RCached count (if (ok : bool) then freed + 1 else freed))]> (threads c)))
  | st_reserved c t rq :
      threads c !! t = Some (Reserving rq (RDone 0)) →
      sys_step c (set_thread t (Running (rq_count rq)) c)
  | st_failed c t rq remaining :
      threads c !! t = Some (Reserving rq (RDone remaining)) → remaining ≠ 0 →
      sys_step c (set_thread t (Unreserving 0 (UAdd (u32 (rq_count rq - remaining)))) c)
  (** [vm_page_unreserve_pages], and the steps of [unreserve_pages_for_zone]. *)
  | st_unreserve c t held :
      threads c !! t = Some (Running held) → held ≠ 0 →
      sys_step c (set_thread t (Unreserving 0 (UAdd held)) c)
  | st_unreserving c t held pc pc' l' z' :
      threads c !! t = Some (Unreserving held pc) →
      unreserve_step t pc (fPageDeficitLock c) (zone c) pc' l' z' →
      sys_step c (mkSys ((vm c) <| sMemoryZone := z' |>) l' (<[t := Unreserving held pc']> (threads c)))
  | st_unreserved c t held :
      threads c !! t = Some (Unreserving held UDone) →
      sys_step c (set_thread t (Running held) c)
  (** Allocation, freeing with and without a reservation, state changes. *)
  | st_allocate c t held flags p held' cleared s' :
      threads c !! t = Some (Running held) → alloc_flags_ok flags →
      vm_page_allocate_page_etc held flags (vm c) = Ret (p, held', cleared, s') →
      sys_step c (mkSys s' (fPageDeficitLock c) (<[t := Running held']> (threads c)))
  | st_free c t held cache p held' s' :
      threads c !! t = Some (Running held) →
      vm_page_free_etc cache p (Some held) (vm c) = Ret (Some held', s') →
      sys_step c (mkSys s' (fPageDeficitLock c) (<[t := Running held']> (threads c)))
  | st_free_unreserve c t held cache p r s' :
      threads c !! t = Some (Running held) →
      vm_page_free_etc cache p (Some 0) (vm c) = Ret (r, s') →
      sys_step c (mkSys s' (fPageDeficitLock c) (<[t := Unreserving held (UAdd 1)]> (threads c)))
  | st_set_state c t held p st s' :
      threads c !! t = Some (Running held) → st ≠ PAGE_STATE_FREE → st ≠ PAGE_STATE_CLEAR →
      vm_page_set_state p st (vm c) = Ret s' →
      sys_step c (mkSys s' (fPageDeficitLock c) (threads c))
  (** The rest of the kernel uses the allocated pages. *)
  | st_use c p pg f s' :
      pages (vm c) !! p = Some pg → ¬ is_free pg →
      (∀ pg, state (f pg) = state pg ∧ queue (f pg) = queue pg ∧
             (0 <= wired_count pg → 0 <= wired_count (f pg))) →
      s' = upd_page p f (vm c) →
      sys_step c (mkSys s' (fPageDeficitLock c) (threads c)).

(** ** The invariant *)

Abbreviation waiters z := (fPageReservationWaiters z).

(** Pages a thread has reserved; a waiting thread is counted with its whole
    request, of which the waiter still misses a part. *)
Definition owned (th : thread) : Z :=
  match th with
  | Running held => held
  | Reserving rq pc =>
      match pc with
      | RTop count | RCheck count | RDecide count
      | RLocked count | RChanged count | RQueue count => rq_count rq - count
      | RCached count freed => rq_count rq - count + freed
      | RWait => rq_count rq
      | RDone remaining => rq_count rq - remaining
      end
  | Unreserving held pc => held + match pc with UAdd n | UServe n => n | _ => 0 end
  end.

Definition pending (th : thread) : Z :=
  match th with
  | Reserving _ (RLocked count | RChanged count | RQueue count) => count
  | _ => 0
  end.

Definition waiting (th : thread) : Prop :=
  match th with Reserving _ RWait => True | _ => False end.

Definition waiting_for (th : thread) : Z :=
  match th with Reserving rq RWait => rq_count rq | _ => 0 end.

Definition waking (th : thread) : Prop :=
  match th with Unreserving _ (UCheck | UEnter | ULoop | UServe _) => True | _ => False end.

Definition thread_ok (th : thread) : Prop :=
  match th with
  | Running held => 0 <= held
  | Reserving rq pc =>
      0 < rq_count rq ∧
      match pc with
      | RTop count | RCheck count | RDecide count
      | RLocked count | RChanged count | RQueue count => 0 < count <= rq_count rq
      | RCached count freed => 0 < count <= rq_count rq ∧ 0 <= freed <= count
      | RWait => True
      | RDone remaining => 0 <= remaining <= rq_count rq
      end
  | Unreserving held pc => 0 <= held ∧ match pc with UAdd n | UServe n => 0 <= n | _ => True end
  end.

Definition waiter_le (a b : PageReservationWaiter) : Prop := waiter_lt b a = false.

Definition waiters_ok (ws : list PageReservationWaiter) (m : gmap Z thread) : Prop :=
  Forall waiter_ok ws ∧ StronglySorted waiter_le ws ∧ NoDup (wthread <$> ws) ∧
  ∀ w, w ∈ ws → ∃ rq, m !! wthread w = Some (Reserving rq RWait) ∧ missing w <= rq_count rq.

(** The first waiter may not take another page, or some thread is about to
    run, or is running, the wake-up loop. *)
Definition wake_ok z (m : gmap Z thread) : Prop :=
  ∀ w, head (waiters z) = Some w →
    fUnreservedFreePages z <= dontTouch w ∨ ∃ t th, m !! t = Some th ∧ waking th.

(** What a thread that holds the deficit lock knows between two accesses: if
    pages have come back since it looked, another thread is about to look at
    the waiters; the waiter it serves is still the first one. *)
Definition owner_ok z l (m : gmap Z thread) t (th : thread) : Prop :=
  let other_waking := ∃ t' th', t' ≠ t ∧ m !! t' = Some th' ∧ waking th' in
  match th with
  | Reserving rq (RQueue _) =>
      l = Some t ∧ (fUnreservedFreePages z <= kPageReserveForPriority (rq_priority rq) ∨ other_waking)
  | Unreserving _ (UServe n) =>
      l = Some t ∧ ∃ w, head (waiters z) = Some w ∧ 0 < n <= missing w ∧
        (n = missing w ∨ fUnreservedFreePages z <= dontTouch w ∨ other_waking)
  | _ => True
  end.

Record sys_inv (c : sys) : Prop := {
  inv_pages : pages_ok (vm c);
  inv_wired : ∀ p pg, pages (vm c) !! p = Some pg → 0 <= wired_count pg;
  inv_size : Z.of_nat (size (pages (vm c))) < 2 ^ 31;
  inv_threads : ∀ t th, threads c !! t = Some th → thread_ok th;
  inv_demand : total_demand (threads c) < 2 ^ 31;
  inv_account : nfree (vm c) + total_missing (waiters (zone c)) =
                fUnreservedFreePages (zone c) + msum owned (threads c);
  inv_unsatisfied : fUnsatisfiedPageReservations (zone c) =
                    total_missing (waiters (zone c)) + msum pending (threads c);
  inv_unreserved : 0 <= fUnreservedFreePages (zone c);
  inv_waiters : waiters_ok (waiters (zone c)) (threads c);
  inv_wake : wake_ok (zone c) (threads c);
  inv_owner : ∀ t th, threads c !! t = Some th → owner_ok (zone c) (fPageDeficitLock c) (threads c) t th
}.

(** ** Sums *)

Lemma total_missing_le (f : thread → Z) ws (m : gmap Z thread) :
  (∀ t th, m !! t = Some th → 0 <= f th) → NoDup (wthread <$> ws) →
  (∀ w, w ∈ ws → ∃ th, m !! wthread w = Some th ∧ missing w <= f th) →
  total_missing ws <= msum f m.
Proof.
  revert m. induction ws as [|w ws IH]; intros m Hf Hnd Hw; cbn; [by apply msum_nonneg|].
  apply NoDup_cons in Hnd as [Hni Hnd]. destruct (Hw w) as (th & Hth & Hm); [left|].
  pose proof (msum_delete f m _ _ Hth). enough (total_missing ws <= msum f (delete (wthread w) m)) by lia.
  apply IH; [|done|].
  - intros t th' [_ ?]%lookup_delete_Some. eauto.
  - intros w' Hin. destruct (Hw w') as (th' & Hth' & ?); [by right|]. exists th'.
    rewrite lookup_delete_ne; [done|]. intros Heq. apply Hni. rewrite Heq. by apply list_elem_of_fmap_2.
Qed.

Section derived.
Context (c : sys) (Hinv : sys_inv c).
#[local] Set Default Proof Using "Type*".

Lemma missing_waiting : total_missing (waiters (zone c)) <= msum waiting_for (threads c).
Proof.
  destruct (inv_waiters c Hinv) as (_ & _ & Hnd & Hw). apply total_missing_le; [|done|].
  - intros t th Hth. pose proof (inv_threads c Hinv t th Hth) as Hok.
    destruct th as [|rq []|]; cbn in *; lia.
  - intros w Hin. destruct (Hw w Hin) as (rq & Hth & Hm). eauto.
Qed.

Lemma owned_split : msum owned (threads c) =
  msum waiting_for (threads c) + msum (fun th => owned th - waiting_for th) (threads c).
Proof. rewrite msum_add. apply msum_ext. intros. lia. Qed.

Lemma owned_rest_nonneg t th : threads c !! t = Some th → 0 <= owned th - waiting_for th.
Proof.
  intros Hth. pose proof (inv_threads c Hinv t th Hth) as Hok.
  destruct th as [|rq []|h []]; cbn in *; lia.
Qed.

(** What one thread owns, beyond what waiting threads are promised, is there. *)
Lemma owned_available t th :
  threads c !! t = Some th → fUnreservedFreePages (zone c) + (owned th - waiting_for th) <= nfree (vm c).
Proof.
  intros Hth. pose proof (inv_account c Hinv). pose proof missing_waiting. pose proof owned_split.
  pose proof (msum_elem (fun th => owned th - waiting_for th) (threads c) t th owned_rest_nonneg Hth).
  cbn in *. lia.
Qed.

Lemma unreserved_le : fUnreservedFreePages (zone c) <= nfree (vm c).
Proof.
  pose proof (inv_account c Hinv). pose proof missing_waiting. pose proof owned_split.
  pose proof (msum_nonneg (fun th => owned th - waiting_for th) (threads c) owned_rest_nonneg). lia.
Qed.

Lemma nfree_bound : nfree (vm c) < 2 ^ 31.
Proof.
  rewrite nfree_count by apply Hinv. pose proof (inv_size c Hinv) as Hsz.
  eapply Z.le_lt_trans; [|exact Hsz]. unfold free01. rewrite msum_filter.
  apply Nat2Z.inj_le. rewrite <- !size_dom. apply subseteq_size. apply dom_filter_subseteq.
Qed.

Lemma unreserved_int32 : int32_ok (fUnreservedFreePages (zone c)).
Proof.
  split; [apply Hinv|]. eapply Z.le_lt_trans; [apply unreserved_le|apply nfree_bound].
Qed.

(** The demand of a thread that neither waits nor is about to is not yet part
    of the unsatisfied count. *)
Lemma unsatisfied_room t th : threads c !! t = Some th →
  fUnsatisfiedPageReservations (zone c) + (demand th - waiting_for th - pending th) <= total_demand (threads c).
Proof.
  intros Ht. rewrite (inv_unsatisfied c Hinv). pose proof missing_waiting.
  assert (∀ t th, threads c !! t = Some th → 0 <= demand th - waiting_for th - pending th) as Hnn.
  { intros t0 th0 Ht0. pose proof (inv_threads c Hinv t0 th0 Ht0) as Hok.
    destruct th0 as [|rq []|h []]; cbn in *; lia. }
  pose proof (msum_elem _ _ t th Hnn Ht) as Hel. cbn in Hel.
  enough (msum waiting_for (threads c) + msum pending (threads c)
    + msum (fun th => demand th - waiting_for th - pending th) (threads c) = total_demand (threads c)) by lia.
  rewrite !msum_add. apply msum_ext. intros. lia.
Qed.

Lemma unsatisfied_bound : fUnsatisfiedPageReservations (zone c) <= total_demand (threads c).
Proof.
  rewrite (inv_unsatisfied c Hinv). pose proof missing_waiting.
  enough (msum waiting_for (threads c) + msum pending (threads c) <= total_demand (threads c)) by lia.
  rewrite msum_add. apply msum_mono. intros t th Hth. pose proof (inv_threads c Hinv t th Hth) as Hok.
  destruct th as [|rq []|h []]; cbn in *; lia.
Qed.

Lemma pending_nonneg : 0 <= msum pending (threads c).
Proof.
  apply msum_nonneg. intros t th Hth. pose proof (inv_threads c Hinv t th Hth) as Hok.
  destruct th as [|rq []|h []]; cbn in *; lia.
Qed.

Lemma unsatisfied_int32 : int32_ok (fUnsatisfiedPageReservations (zone c)).
Proof.
  split.
  - rewrite (inv_unsatisfied c Hinv). pose proof (total_missing_nonneg _ (proj1 (inv_waiters c Hinv))).
    pose proof pending_nonneg. lia.
  - eapply Z.le_lt_trans; [apply unsatisfied_bound|apply Hinv].
Qed.
End derived.

(** ** The waiter list *)

Lemma waiter_le_spec a b : waiter_le a b ↔
  dontTouch a < dontTouch b ∨ dontTouch a = dontTouch b ∧ threadPriority b <= threadPriority a.
Proof.
  unfold waiter_le, waiter_lt. destruct (Z.eqb_spec (dontTouch b) (dontTouch a)); cbn.
  - rewrite Z.ltb_ge. lia.
  - rewrite Z.ltb_ge. lia.
Qed.

Lemma insert_waiter_Permutation w ws : insert_waiter w ws ≡ₚ w :: ws.
Proof.
  induction ws as [|o ws IH]; cbn; [done|]. case_match; [done|].
  rewrite IH. apply Permutation_swap.
Qed.

Lemma insert_waiter_sorted w ws :
  StronglySorted waiter_le ws → StronglySorted waiter_le (insert_waiter w ws).
Proof.
  induction 1 as [|o ws Hs IH Ho]; cbn; [repeat constructor|]. case_match eqn:E.
  - assert (waiter_le w o).
    { apply waiter_le_spec. unfold waiter_lt in E.
      destruct (Z.eqb_spec (dontTouch w) (dontTouch o)); cbn in E; breflect; lia. }
    constructor; [by constructor|]. constructor; [done|]. eapply Forall_impl; [exact Ho|].
    intros x. rewrite !waiter_le_spec in *. lia.
  - constructor; [done|]. rewrite insert_waiter_Permutation. by constructor.
Qed.

Lemma insert_waiter_head w ws :
  head (insert_waiter w ws) = Some w ∨ head (insert_waiter w ws) = head ws ∧ ws ≠ [].
Proof. destruct ws as [|o ws]; cbn; [auto|]. case_match; auto. Qed.

Lemma total_missing_Permutation ws1 ws2 : ws1 ≡ₚ ws2 → total_missing ws1 = total_missing ws2.
Proof. induction 1; cbn; lia. Qed.

Lemma waiters_ok_thread ws (m : gmap Z thread) t th th' :
  waiters_ok ws m → m !! t = Some th → ¬ waiting th → waiters_ok ws (<[t := th']> m).
Proof.
  intros (H1 & H2 & H3 & Hw) Ht Hn. split_and!; [done..|]. intros w Hin.
  destruct (Hw w Hin) as (rq & Hth & Hm). exists rq. split; [|done].
  rewrite lookup_insert_ne; [done|]. intros ->. rewrite Hth in Ht. injection Ht as <-. by apply Hn.
Qed.

Lemma waiters_ok_sublist ws1 w ws2 (m : gmap Z thread) th' :
  waiters_ok (ws1 ++ w :: ws2) m → waiters_ok (ws1 ++ ws2) (<[wthread w := th']> m).
Proof.
  intros (H1 & H2 & H3 & Hw).
  assert (ws1 ++ w :: ws2 ≡ₚ w :: ws1 ++ ws2) as Hperm by (symmetry; apply Permutation_middle).
  rewrite Hperm in H1, H3. apply Forall_cons in H1 as [_ H1]. apply NoDup_cons in H3 as [Hni H3].
  split_and!; [done| |done|].
  - clear -H2. induction ws1 as [|x ws1 IH]; cbn in *; [by inversion H2|].
    inversion H2 as [|? ? Hs Hx]; subst.
    constructor; [auto|]. rewrite <- Permutation_middle in Hx. by apply Forall_cons in Hx as [_ ?].
  - intros w' Hin. destruct (Hw w') as (rq & Hth & Hm); [rewrite Hperm; by right|].
    exists rq. rewrite lookup_insert_ne; [done|]. intros Heq. apply Hni. rewrite Heq. by apply list_elem_of_fmap_2.
Qed.

Lemma wake_ok_thread z z' (m : gmap Z thread) t th th' :
  wake_ok z m → m !! t = Some th → (waking th → waking th') →
  waiters z' = waiters z → fUnreservedFreePages z' <= fUnreservedFreePages z →
  wake_ok z' (<[t := th']> m).
Proof.
  intros Hw Ht Hk Hws Hu w Hh. rewrite Hws in Hh. destruct (Hw w Hh) as [?|(t0 & th0 & Ht0 & Hk0)]; [left; lia|].
  right. destruct (decide (t0 = t)) as [->|].
  - exists t, th'. rewrite lookup_insert_eq. split; [done|]. apply Hk. congruence.
  - exists t0, th0. by rewrite lookup_insert_ne.
Qed.

Lemma wake_ok_waking z' (m : gmap Z thread) t th' : waking th' → wake_ok z' (<[t := th']> m).
Proof. intros Hk w _. right. exists t, th'. by rewrite lookup_insert_eq. Qed.

(** ** The holder of the deficit lock *)

(** A thread that is not between two accesses of a critical section. *)
Definition outside (th : thread) : Prop :=
  match th with Reserving _ (RQueue _) | Unreserving _ (UServe _) => False | _ => True end.

Lemma owner_ok_outside z l m t th : outside th → owner_ok z l m t th.
Proof. by destruct th as [|? []|? []]. Qed.

Definition others_ok z' l' (m : gmap Z thread) t (th' : thread) : Prop :=
  ∀ t0 th0, t0 ≠ t → m !! t0 = Some th0 → owner_ok z' l' (<[t := th']> m) t0 th0.

Lemma other_waking_insert (m : gmap Z thread) t th th' t0 :
  t0 ≠ t → m !! t = Some th → (waking th → waking th') →
  (∃ t' th0, t' ≠ t0 ∧ m !! t' = Some th0 ∧ waking th0) →
  ∃ t' th0, t' ≠ t0 ∧ <[t := th']> m !! t' = Some th0 ∧ waking th0.
Proof.
  intros Hne Ht Hk (t' & th0 & Hn & Hl & Hw). destruct (decide (t' = t)) as [->|].
  - exists t, th'. rewrite lookup_insert_eq. split_and!; [done..|]. apply Hk. congruence.
  - exists t', th0. by rewrite lookup_insert_ne.
Qed.

(** Nobody else is in the middle of a critical section when the lock is free
    or held by the thread itself. *)
Lemma others_ok_locked c t th' z' l' :
  sys_inv c → fPageDeficitLock c = None ∨ fPageDeficitLock c = Some t →
  others_ok z' l' (threads c) t th'.
Proof.
  intros Hinv Hl t0 th0 Hne Ht0. pose proof (inv_owner c Hinv t0 th0 Ht0) as Ho.
  destruct th0 as [|rq []|h []]; cbn in *; try done; destruct Ho as [Ho _], Hl as [Hl|Hl]; congruence.
Qed.

(** Nobody else is disturbed by a step that leaves the lock and the waiters
    alone and either adds no pages or is going to look at the waiters. *)
Lemma others_ok_step c t th th' z' :
  sys_inv c → threads c !! t = Some th → waiters z' = waiters (zone c) →
  waking th' ∨ fUnreservedFreePages z' <= fUnreservedFreePages (zone c) ∧ (waking th → waking th') →
  others_ok z' (fPageDeficitLock c) (threads c) t th'.
Proof.
  intros Hinv Ht Hws Hk t0 th0 Hne Ht0. pose proof (inv_owner c Hinv t0 th0 Ht0) as Ho.
  assert (∀ d, fUnreservedFreePages (zone c) <= d ∨
      (∃ t' th1, t' ≠ t0 ∧ threads c !! t' = Some th1 ∧ waking th1) →
    fUnreservedFreePages z' <= d ∨
      (∃ t' th1, t' ≠ t0 ∧ <[t := th']> (threads c) !! t' = Some th1 ∧ waking th1)) as Hkeep.
  { intros d Hd. destruct Hk as [Hk|[Hle Hk]].
    - right. exists t, th'. rewrite lookup_insert_eq. auto.
    - destruct Hd as [Hd|Hd]; [left; lia|right]. by eapply other_waking_insert. }
  destruct th0 as [|rq []|h []]; cbn in *; try done; destruct Ho as [-> Ho]; (split; [done|]).
  - by apply Hkeep.
  - destruct Ho as (w & Hw & Hn & Ho). exists w. rewrite Hws. split_and!; [done|lia|lia|].
    destruct Ho as [?|Ho]; [by left|right]. by apply Hkeep.
Qed.

(** A thread that finds no unsatisfied reservations disturbs nobody. *)
Lemma others_ok_satisfied c t th' z' :
  sys_inv c → fUnsatisfiedPageReservations (zone c) = 0 →
  others_ok z' (fPageDeficitLock c) (threads c) t th'.
Proof.
  intros Hinv Hz t0 th0 Hne Ht0. pose proof (inv_owner c Hinv t0 th0 Ht0) as Ho.
  pose proof (inv_unsatisfied c Hinv) as HS. pose proof (proj1 (inv_waiters c Hinv)) as Hok.
  pose proof (total_missing_nonneg _ Hok). pose proof (pending_nonneg c Hinv).
  pose proof (inv_threads c Hinv t0 th0 Ht0) as Hth.
  destruct th0 as [|rq []|h []]; cbn in *; try done; exfalso.
  - enough (count <= msum pending (threads c)) by lia.
    apply (msum_elem pending _ t0 (Reserving rq (RQueue count))); [|done].
    intros t1 th1 Ht1. pose proof (inv_threads c Hinv t1 th1 Ht1).
    destruct th1 as [|? []|]; cbn in *; lia.
  - destruct Ho as (_ & w & Hw & _). destruct (waiters (zone c)) as [|w0 ws]; [done|].
    pose proof (total_missing_pos _ Hok ltac:(done)). lia.
Qed.

(** ** Preservation *)

(** All a step has to establish. *)
Lemma sys_inv_change c t th th' s' l' :
  sys_inv c → threads c !! t = Some th →
  pages_ok s' → (∀ p pg, pages s' !! p = Some pg → 0 <= wired_count pg) →
  Z.of_nat (size (pages s')) < 2 ^ 31 → thread_ok th' →
  total_demand (<[t := th']> (threads c)) < 2 ^ 31 →
  let z := zone c in let z' := sMemoryZone s' in
  nfree s' - nfree (vm c) + (total_missing (waiters z') - total_missing (waiters z)) =
    fUnreservedFreePages z' - fUnreservedFreePages z + (owned th' - owned th) →
  fUnsatisfiedPageReservations z' - fUnsatisfiedPageReservations z =
    total_missing (waiters z') - total_missing (waiters z) + (pending th' - pending th) →
  0 <= fUnreservedFreePages z' →
  waiters_ok (waiters z') (<[t := th']> (threads c)) → wake_ok z' (<[t := th']> (threads c)) →
  owner_ok z' l' (<[t := th']> (threads c)) t th' → others_ok z' l' (threads c) t th' →
  sys_inv (mkSys s' l' (<[t := th']> (threads c))).
Proof.
  intros Hinv Ht Hok Hwd Hsz Hth Hdem z z' Ha Hs Hu Hw Hk Hown Hoth. subst z z'.
  split; cbn [vm threads zone]; try done.
  - intros t0 th0 [[<- <-]|[_ ?]]%lookup_insert_Some; [done|]. by eapply inv_threads.
  - rewrite (msum_update owned _ t th) by done. pose proof (inv_account c Hinv). unfold zone in *. cbn. lia.
  - rewrite (msum_update pending _ t th) by done. pose proof (inv_unsatisfied c Hinv). unfold zone in *. cbn. lia.
  - intros t0 th0 [[<- <-]|[? ?]]%lookup_insert_Some; [done|]. by apply Hoth.
Qed.

Lemma total_demand_update (m : gmap Z thread) t th th' :
  m !! t = Some th → total_demand (<[t := th']> m) = total_demand m - demand th + demand th'.
Proof. intros. by apply msum_update. Qed.

(** Steps that leave the counters of the zone alone. *)
Lemma sys_inv_pages c t th th' s' :
  sys_inv c → threads c !! t = Some th →
  pages_ok s' → (∀ p pg, pages s' !! p = Some pg → 0 <= wired_count pg) →
  size (pages s') = size (pages (vm c)) →
  counters (sMemoryZone s') = counters (zone c) →
  thread_ok th' → total_demand (threads c) - demand th + demand th' < 2 ^ 31 →
  pending th' = pending th → ¬ waiting th → (waking th → waking th') →
  nfree s' - nfree (vm c) = owned th' - owned th → outside th' →
  sys_inv (mkSys s' (fPageDeficitLock c) (<[t := th']> (threads c))).
Proof.
  intros Hinv Ht Hok Hwd Hsz Hcnt Hth Hd Hp Hnw Hwk Ho Hout.
  unfold counters in Hcnt. injection Hcnt as HU HS HW.
  eapply sys_inv_change; try done; cbn zeta.
  - rewrite Hsz. apply Hinv.
  - by erewrite total_demand_update.
  - rewrite HU, HW. lia.
  - rewrite HS, HW. lia.
  - rewrite HU. apply Hinv.
  - rewrite HW. eapply waiters_ok_thread; eauto. apply Hinv.
  - eapply wake_ok_thread; eauto; [apply Hinv|]. rewrite HU. lia.
  - by apply owner_ok_outside.
  - eapply others_ok_step; eauto. right. split; [|done]. rewrite HU. lia.
Qed.

(** Steps that only change the counters of the zone. *)
Lemma sys_inv_zone c t th th' z' l' :
  sys_inv c → threads c !! t = Some th → zone_frame (zone c) z' →
  thread_ok th' → demand th' <= demand th →
  total_missing (waiters z') - total_missing (waiters (zone c)) =
    fUnreservedFreePages z' - fUnreservedFreePages (zone c) + (owned th' - owned th) →
  fUnsatisfiedPageReservations z' - fUnsatisfiedPageReservations (zone c) =
    total_missing (waiters z') - total_missing (waiters (zone c)) + (pending th' - pending th) →
  0 <= fUnreservedFreePages z' →
  waiters_ok (waiters z') (<[t := th']> (threads c)) → wake_ok z' (<[t := th']> (threads c)) →
  owner_ok z' l' (<[t := th']> (threads c)) t th' → others_ok z' l' (threads c) t th' →
  sys_inv (mkSys ((vm c) <| sMemoryZone := z' |>) l' (<[t := th']> (threads c))).
Proof.
  intros Hinv Ht Hf Hth Hd Ha Hs Hu Hw Hk Hown Hoth.
  eapply sys_inv_change; try done; cbn zeta.
  - apply pages_ok_zone; [exact Hf|apply Hinv].
  - apply Hinv.
  - apply Hinv.
  - erewrite total_demand_update by done. pose proof (inv_demand c Hinv). lia.
  - rewrite nfree_zone by exact Hf. cbn [sMemoryZone update]. lia.
Qed.

Lemma zone_frame_refl z : zone_frame z z.
Proof. done. Qed.

Lemma reserve_dontTouch_int32 p : int32_ok (kPageReserveForPriority p).
Proof. destruct p; unfold int32_ok, kPageReserveForPriority, VM_PAGE_RESERVE_USER, VM_PAGE_RESERVE_SYSTEM; lia. Qed.

(** Applies [sys_inv_zone] to an updated zone and computes its fields. *)
Ltac sys_zone Hinv Ht :=
  eapply sys_inv_zone; [exact Hinv|exact Ht|done|..]; unfold update;
  cbn [fPageReservationWaiters fUnreservedFreePages fUnsatisfiedPageReservations demand].

Lemma sys_inv_local c t th th' :
  sys_inv c → threads c !! t = Some th → thread_ok th' → demand th' <= demand th →
  owned th' = owned th → pending th' = pending th → ¬ waiting th → (waking th → waking th') →
  owner_ok (zone c) (fPageDeficitLock c) (<[t := th']> (threads c)) t th' →
  sys_inv (mkSys ((vm c) <| sMemoryZone := zone c |>) (fPageDeficitLock c) (<[t := th']> (threads c))).
Proof.
  intros Hinv Ht Hok Hd Ho Hp Hnw Hwk Hown. eapply sys_inv_zone; eauto using zone_frame_refl; try lia.
  - apply Hinv.
  - eapply waiters_ok_thread; eauto. apply Hinv.
  - eapply wake_ok_thread; eauto; [apply Hinv|lia].
  - eapply others_ok_step; eauto. right. split; [lia|done].
Qed.

Section reserve_steps.
Context (c : sys) (Hinv : sys_inv c) (t tprio : Z) (rq : request) (pc : reserve_pc)
  (Ht : threads c !! t = Some (Reserving rq pc)).
#[local] Set Default Proof Using "Type*".

Lemma request_int32 : rq_count rq <= total_demand (threads c) < 2 ^ 31.
Proof.
  split; [|apply Hinv]. apply (msum_elem demand (threads c) t (Reserving rq pc)); [|done].
  intros t0 th0 Ht0. pose proof (inv_threads c Hinv t0 th0 Ht0). destruct th0; cbn in *; lia.
Qed.

(** The zone with its unsatisfied count changed by [d]. *)
Lemma sys_inv_unsatisfied pc' l' d (f : Z → Z) :
  fPageDeficitLock c = None ∨ fPageDeficitLock c = Some t → outside (Reserving rq pc') →
  ¬ waiting (Reserving rq pc) → thread_ok (Reserving rq pc') →
  owned (Reserving rq pc') = owned (Reserving rq pc) →
  pending (Reserving rq pc') = pending (Reserving rq pc) + d →
  f (fUnsatisfiedPageReservations (zone c)) = fUnsatisfiedPageReservations (zone c) + d →
  sys_inv (mkSys ((vm c) <| sMemoryZone := (zone c) <| fUnsatisfiedPageReservations ::= f |> |>) l'
    (<[t := Reserving rq pc']> (threads c))).
Proof.
  intros Hl Hout Hnw Hth Ho Hp Hf. sys_zone Hinv Ht; try lia; try done.
  - apply Hinv.
  - eapply waiters_ok_thread; eauto. apply Hinv.
  - eapply wake_ok_thread; eauto; [apply Hinv|cbn; lia].
  - by apply owner_ok_outside.
  - by apply others_ok_locked.
Qed.

Lemma take_inv count : pc = RTop count → 0 < count <= rq_count rq →
  ∀ n z', reserve_some_pages_from_zone count (kPageReserveForPriority (rq_priority rq)) (zone c) = (n, z') →
  let count' := u32 (count - n) in
  sys_inv (mkSys ((vm c) <| sMemoryZone := z' |>) (fPageDeficitLock c)
    (<[t := Reserving rq (if count' =? 0 then RDone 0 else RCheck count')]> (threads c))).
Proof.
  intros Hpc Hc n z' Hr. pose proof request_int32 as Hd. pose proof (unreserved_int32 c Hinv) as HU.
  pose proof (reserve_dontTouch_int32 (rq_priority rq)) as HD. cbn zeta.
  rewrite reserve_some_spec in Hr by (unfold int32_ok in *; lia). injection Hr as Hn <-.
  unfold int32_ok in *. rewrite wrap_small by (split; lia).
  assert (0 <= n <= count ∧ n <= fUnreservedFreePages (zone c)) as [Hn1 Hn2] by lia. rewrite Hn.
  sys_zone Hinv Ht.
  - destruct (Z.eqb_spec (count - n) 0); cbn; lia.
  - destruct (count - n =? 0); cbn; lia.
  - rewrite Hpc. destruct (Z.eqb_spec (count - n) 0); cbn; lia.
  - rewrite Hpc. destruct (count - n =? 0); cbn; lia.
  - lia.
  - eapply waiters_ok_thread; [apply Hinv|exact Ht|by rewrite Hpc; intros []].
  - eapply wake_ok_thread; [apply Hinv|exact Ht|by intros []|done|cbn; lia].
  - apply owner_ok_outside. by destruct (count - n =? 0).
  - eapply others_ok_step; eauto. right. split; [cbn; lia|by intros []].
Qed.

Lemma queue_inv count : pc = RQueue count → 0 < count <= rq_count rq →
  let waiter := mkWaiter (kPageReserveForPriority (rq_priority rq)) count tprio t in
  sys_inv (mkSys ((vm c) <| sMemoryZone := (zone c) <| fPageReservationWaiters ::= insert_waiter waiter |> |>) None
    (<[t := Reserving rq RWait]> (threads c))).
Proof.
  intros Hpc Hc. pose proof request_int32 as Hd. cbn zeta. set (w := mkWaiter _ _ _ _).
  pose proof (inv_owner c Hinv t _ Ht) as Hown. rewrite Hpc in Hown. destruct Hown as [Hlock Hlook].
  pose proof (insert_waiter_Permutation w (waiters (zone c))) as Hperm.
  assert (waiters_ok (waiters (zone c)) (<[t := Reserving rq RWait]> (threads c))) as (H1 & H2 & H3 & H4)
    by (eapply waiters_ok_thread; [apply Hinv|exact Ht|by rewrite Hpc; intros []]).
  sys_zone Hinv Ht.
  - cbn. lia.
  - done.
  - rewrite (total_missing_Permutation _ _ Hperm), Hpc. cbn. lia.
  - rewrite (total_missing_Permutation _ _ Hperm), Hpc. cbn. lia.
  - apply Hinv.
  - split_and!.
    + rewrite Hperm. constructor; [|done]. split; [apply reserve_dontTouch_int32|]. cbn. lia.
    + by apply insert_waiter_sorted.
    + rewrite Hperm. cbn. apply NoDup_cons. split; [|done]. intros Hin.
      apply list_elem_of_fmap in Hin as (w' & Hw & Hin).
      destruct (inv_waiters c Hinv) as (_ & _ & _ & Hold). destruct (Hold w' Hin) as (rq' & Ht' & _).
      rewrite <- Hw, Ht, Hpc in Ht'. congruence.
    + intros w'. rewrite Hperm. intros [->|Hin]%elem_of_cons; [|eauto].
      exists rq. cbn. rewrite lookup_insert_eq. split; [done|lia].
  - intros w' Hh. cbn in Hh |- *. destruct (insert_waiter_head w (waiters (zone c))) as [Hw|[Hw _]];
      unfold update in Hh; cbn in Hh; rewrite Hw in Hh.
    + injection Hh as <-. destruct Hlook as [?|(t' & th' & Hne & Hl & Hk)]; [by left|right].
      exists t', th'. by rewrite lookup_insert_ne.
    + assert (wake_ok (zone c) (<[t := Reserving rq RWait]> (threads c))) as Hwk
        by (eapply wake_ok_thread; [apply Hinv|exact Ht|by intros []|done|lia]).
      exact (Hwk w' Hh).
  - done.
  - apply others_ok_locked; [done|by right].
Qed.

Lemma woken_inv : pc = RWait → fPageDeficitLock c = None →
  forallb (fun w => negb (waiter_of t w)) (waiters (zone c)) = true →
  sys_inv (mkSys ((vm c) <| sMemoryZone := zone c |>) None (<[t := Reserving rq (RDone 0)]> (threads c))).
Proof.
  intros Hpc Hlock Hno. pose proof (inv_threads c Hinv t _ Ht) as [Hrq _].
  eapply sys_inv_zone; [exact Hinv|exact Ht|done|..]; rewrite ?Hpc; cbn; try lia.
  - apply Hinv.
  - destruct (inv_waiters c Hinv) as (H1 & H2 & H3 & H4). split_and!; [done..|].
    intros w Hin. destruct (H4 w Hin) as (rq' & Hth & Hm). exists rq'. split; [|done].
    rewrite lookup_insert_ne; [done|]. intros Heq. rewrite forallb_forall in Hno.
    specialize (Hno w (proj1 (list_elem_of_In _ _) Hin)). unfold waiter_of in Hno. breflect. congruence.
  - eapply wake_ok_thread; [apply Hinv|exact Ht|by intros []|done|lia].
  - apply others_ok_locked; [done|by left].
Qed.

Lemma timeout_inv pc' w ws1 ws2 : pc = RWait → fPageDeficitLock c = None →
  waiters (zone c) = ws1 ++ w :: ws2 → waiter_of t w = true →
  pc' = RTop (missing w) ∨ pc' = RDone (missing w) →
  sys_inv (mkSys ((vm c) <| sMemoryZone := (zone c) <| fPageReservationWaiters := ws1 ++ ws2 |>
      <| fUnsatisfiedPageReservations ::= fun n => i32 (n - missing w) |> |>) None
    (<[t := Reserving rq pc']> (threads c))).
Proof.
  intros Hpc Hlock Hws Hw Hpc'. unfold waiter_of in Hw. breflect.
  pose proof (inv_threads c Hinv t _ Ht) as [Hrq _]. pose proof (unsatisfied_int32 c Hinv) as HS.
  pose proof (inv_waiters c Hinv) as Hok. pose proof Hok as (H1 & H2 & H3 & H4).
  rewrite Hws in Hok, H1, H2, H4. pose proof (waiters_ok_sublist ws1 w ws2 _ (Reserving rq pc') Hok) as Hok'.
  destruct (H4 w) as (rq' & Ht' & Hm); [set_solver|]. rewrite Hw, Ht in Ht'. injection Ht' as <- _.
  apply Forall_app in H1 as [_ [[_ Hmw] _]%Forall_cons].
  pose proof (unsatisfied_bound c Hinv) as HSb. pose proof (inv_demand c Hinv). unfold int32_ok in HS.
  assert (total_missing (waiters (zone c)) = total_missing (ws1 ++ ws2) + missing w) as Htm
    by (rewrite Hws, !total_missing_app; cbn; lia).
  assert (owned (Reserving rq pc') = rq_count rq - missing w ∧ pending (Reserving rq pc') = 0 ∧
    thread_ok (Reserving rq pc')) as (Ho & Hp & Hth) by (destruct Hpc' as [->| ->]; cbn; lia).
  sys_zone Hinv Ht; try done.
  - rewrite Htm, Ho, Hpc. cbn. lia.
  - rewrite i32_small by lia. rewrite Htm, Hp, Hpc. cbn. lia.
  - apply Hinv.
  - by rewrite Hw in Hok'.
  - intros w' Hh. unfold update in Hh. cbn in Hh |- *. unfold update. cbn.
    assert (wake_ok (zone c) (<[t := Reserving rq pc']> (threads c))) as Hwk
      by (eapply wake_ok_thread; [apply Hinv|exact Ht|by intros []|done|lia]).
    destruct ws1 as [|o ws1]; cbn in Hh, Hws; [|apply Hwk; by rewrite Hws].
    destruct (Hwk w) as [Hle|?]; [by rewrite Hws|left|by right].
    inversion H2 as [|? ? _ Hall]. destruct ws2 as [|o ws2]; [done|]. injection Hh as <-.
    apply Forall_cons in Hall as [Hwo%waiter_le_spec _]. lia.
  - apply owner_ok_outside. by destruct Hpc' as [->| ->].
  - apply others_ok_locked; [done|by left].
Qed.
End reserve_steps.

Lemma reserve_step_inv c t tprio rq pc pc' l' z' :
  sys_inv c → threads c !! t = Some (Reserving rq pc) →
  reserve_step t tprio rq pc (fPageDeficitLock c) (zone c) pc' l' z' →
  sys_inv (mkSys ((vm c) <| sMemoryZone := z' |>) l' (<[t := Reserving rq pc']> (threads c))).
Proof.
  intros Hinv Ht Hstep. pose proof (inv_threads c Hinv t _ Ht) as [Hrq Hpc].
  pose proof (unsatisfied_int32 c Hinv) as HS. pose proof (unsatisfied_bound c Hinv) as HSb.
  pose proof (request_int32 c Hinv t rq pc Ht) as Hcount. unfold int32_ok in HS.
  assert (∀ d, 0 <= d → pending (Reserving rq pc) = d → d <= fUnsatisfiedPageReservations (zone c)) as Hpend.
  { intros d Hd Hp. rewrite (inv_unsatisfied c Hinv).
    pose proof (total_missing_nonneg _ (proj1 (inv_waiters c Hinv))).
    enough (pending (Reserving rq pc) <= msum pending (threads c)) by lia.
    apply (msum_elem pending _ t); [|done].
    intros t0 th0 Ht0. pose proof (inv_threads c Hinv t0 th0 Ht0). destruct th0 as [|? []|]; cbn in *; lia. }
  inversion Hstep; subst; clear Hstep; try match goal with H : _ = fPageDeficitLock c |- _ => symmetry in H end.
  - by eapply take_inv.
  - eapply sys_inv_local; eauto; cbn; lia.
  - eapply sys_inv_local; eauto; cbn; lia.
  - assert (count' = count - freed) as -> by (unfold count'; apply wrap_small; split; lia).
    destruct (Z.eqb_spec (count - freed) 0); eapply sys_inv_local; eauto; cbn; lia.
  - eapply sys_inv_local; eauto; cbn; lia.
  - eapply (sys_inv_unsatisfied c Hinv t rq (RDecide count) Ht _ _ count); cbn; auto; try lia.
    pose proof (unsatisfied_room c Hinv t _ Ht) as Hroom. cbn in Hroom. apply i32_small. lia.
  - match goal with H : fPageDeficitLock c = Some t |- _ => rewrite <- H end.
    destruct (Z.ltb_spec (kPageReserveForPriority (rq_priority rq)) (fUnreservedFreePages (zone c)));
      eapply sys_inv_local; eauto; cbn; auto; lia.
  - eapply (sys_inv_unsatisfied c Hinv t rq (RChanged count) Ht _ _ (- count)); cbn; auto; try lia.
    specialize (Hpend count ltac:(lia) eq_refl). rewrite i32_small by lia. lia.
  - by eapply queue_inv.
  - by eapply woken_inv.
  - eapply timeout_inv; eauto. destruct (_ && _); auto.
Qed.

(** The zone after the first waiter was given the pages taken for it. *)
Lemma serve_waiter_spec n z go z' w ws :
  waiters z = w :: ws → 0 < n <= missing w → missing w < 2 ^ 31 →
  int32_ok (fUnsatisfiedPageReservations z) → n <= fUnsatisfiedPageReservations z →
  serve_waiter n z = (go, z') →
  zone_frame z z' ∧ fUnreservedFreePages z' = fUnreservedFreePages z ∧
  fUnsatisfiedPageReservations z' = fUnsatisfiedPageReservations z - n ∧
  total_missing (waiters z') = total_missing (waiters z) - n ∧
  (go = true ∧ waiters z' = ws ∧ n = missing w ∨
   go = false ∧ waiters z' = w <| missing := missing w - n |> :: ws ∧ n < missing w).
Proof.
  intros Hw Hn Hm HS Hle. unfold serve_waiter. rewrite Hw. unfold int32_ok in HS.
  destruct z as [q1 q2 q3 U S tp f1 f2 f3 wl]. cbn in *. subst wl.
  rewrite (wrap_small 32) by (split; lia). unfold update. cbn. rewrite (i32_small (S - n)) by lia.
  destruct (Z.ltb_spec 0 (missing w - n)); intros [= <- <-]; cbn; split_and!; auto; try lia; try done.
  - right. split_and!; [done..|lia].
  - left. split_and!; [done..|lia].
Qed.

Lemma waiters_ok_served ws ws' (m : gmap Z thread) :
  waiters_ok ws m →
  (ws' = ws ∨ ∃ w rest, ws = w :: rest ∧
    (ws' = rest ∨ ∃ k, ws' = w <| missing := k |> :: rest ∧ 0 < k < missing w)) →
  waiters_ok ws' m.
Proof.
  intros (H1 & H2 & H3 & H4) [->|(w & rest & -> & Hc)]; [by split_and!|].
  apply Forall_cons in H1 as [[Hd Hm] H1]. inversion H2 as [|? ? Hs Hle]; subst.
  apply NoDup_cons in H3 as [Hni H3].
  destruct Hc as [->|(k & -> & Hk)].
  - split_and!; [done..|]. intros w' Hin. apply H4. by right.
  - split_and!.
    + constructor; [|done]. split; [done|]. cbn. lia.
    + constructor; [done|]. exact Hle.
    + cbn. by apply NoDup_cons.
    + intros w' [->|Hin]%elem_of_cons; [|apply H4; by right].
      destruct (H4 w) as (rq & Hth & Hle'); [left|]. exists rq. cbn. split; [done|lia].
Qed.

Section wake_up_steps.
Context (c : sys) (Hinv : sys_inv c) (t held : Z) (Hlock : fPageDeficitLock c = Some t).
#[local] Set Default Proof Using "Type*".

(** Taking pages for the first waiter. *)
Lemma take_waiter_inv w n z' :
  threads c !! t = Some (Unreserving held ULoop) → head (waiters (zone c)) = Some w →
  reserve_some_pages_from_zone (missing w) (dontTouch w) (zone c) = (n, z') →
  sys_inv (mkSys ((vm c) <| sMemoryZone := z' |>) (if n =? 0 then None else Some t)
    (<[t := Unreserving held (if n =? 0 then UDone else UServe n)]> (threads c))).
Proof.
  intros Ht Hw Hr. pose proof (inv_threads c Hinv t _ Ht) as [Hh _].
  pose proof (unreserved_int32 c Hinv) as HU. pose proof (inv_waiters c Hinv) as (Hok & _).
  assert (waiter_ok w) as [Hd Hm].
  { rewrite Forall_forall in Hok. apply Hok. destruct (waiters (zone c)); [done|].
    injection Hw as ->. left. }
  rewrite reserve_some_spec in Hr by (unfold int32_ok in *; lia). injection Hr as Hn <-. unfold int32_ok in *.
  assert (∀ th', waiters_ok (waiters (zone c)) (<[t := th']> (threads c))) as Hws'
    by (intros; eapply waiters_ok_thread; [apply Hinv|exact Ht|by intros []]).
  rewrite Hn. destruct (Z.eqb_spec n 0) as [Hz|Hz]; sys_zone Hinv Ht; cbn; try lia;
    try apply Hws'; try (apply others_ok_locked; by auto).
  - intros w' Hw'. cbn in Hw'. left. cbn. assert (w' = w) as -> by congruence. lia.
  - by apply wake_ok_waking.
  - split; [done|]. exists w. split_and!; [done|lia|lia|].
    destruct (decide (n = missing w)); [by left|]. right. left. lia.
Qed.

(** Giving them to the waiter. *)
Lemma serve_inv n go z' :
  threads c !! t = Some (Unreserving held (UServe n)) → serve_waiter n (zone c) = (go, z') →
  sys_inv (mkSys ((vm c) <| sMemoryZone := z' |>) (if go then Some t else None)
    (<[t := Unreserving held (if go then ULoop else UDone)]> (threads c))).
Proof.
  intros Ht Hsv. pose proof (inv_threads c Hinv t _ Ht) as [Hh _].
  destruct (inv_owner c Hinv t _ Ht) as (_ & w & Hw & Hn & Hmore).
  destruct (waiters (zone c)) as [|w0 ws] eqn:E; [done|]. injection Hw as ->.
  pose proof (inv_waiters c Hinv) as Hws. rewrite E in Hws.
  pose proof (proj1 Hws) as Hok. pose proof Hok as [[Hd Hm] Hrest]%Forall_cons.
  pose proof (inv_unsatisfied c Hinv) as Hun. rewrite E in Hun. cbn in Hun.
  pose proof (pending_nonneg c Hinv). pose proof (total_missing_nonneg ws Hrest).
  apply (serve_waiter_spec n (zone c) go z' w ws) in Hsv as (Hf & HU & HS & Htm & Hc);
    [|done|lia|unfold int32_ok in *; lia|by apply unsatisfied_int32|lia].
  assert (∀ th', waiters_ok (waiters z') (<[t := th']> (threads c))) as Hws'.
  { intros th'. eapply waiters_ok_served; [eapply waiters_ok_thread; [exact Hws|exact Ht|by intros []]|].
    right. exists w, ws. split; [done|]. destruct Hc as [(_ & -> & _)|(_ & -> & ?)]; [by left|right].
    exists (missing w - n). split; [done|lia]. }
  eapply sys_inv_zone; [exact Hinv|exact Ht|exact Hf|..]; try (destruct go; cbn; lia).
  - rewrite HU. apply Hinv.
  - apply Hws'.
  - destruct Hc as [(-> & _)|(-> & Hw' & Hlt)]; [by apply wake_ok_waking|].
    intros w' Hh'. rewrite Hw' in Hh'. injection Hh' as <-. cbn. rewrite HU.
    destruct Hmore as [?|[?|(t' & th' & Hne & Hl & Hk)]]; [lia|by left|right].
    exists t', th'. by rewrite lookup_insert_ne.
  - apply others_ok_locked; auto.
Qed.
End wake_up_steps.

Lemma unreserve_step_inv c t held pc pc' l' z' :
  sys_inv c → threads c !! t = Some (Unreserving held pc) →
  unreserve_step t pc (fPageDeficitLock c) (zone c) pc' l' z' →
  sys_inv (mkSys ((vm c) <| sMemoryZone := z' |>) l' (<[t := Unreserving held pc']> (threads c))).
Proof.
  intros Hinv Ht Hstep. pose proof (inv_threads c Hinv t _ Ht) as [Hh Hpc].
  pose proof (unsatisfied_int32 c Hinv) as HS. pose proof (unreserved_int32 c Hinv) as HU.
  pose proof (inv_waiters c Hinv) as Hws.
  assert (∀ th', waiters_ok (waiters (zone c)) (<[t := th']> (threads c))) as Hws'
    by (intros; eapply waiters_ok_thread; [exact Hws|exact Ht|by intros []]).
  assert (∀ th', fPageDeficitLock c = Some t → ∀ z1 l1, others_ok z1 l1 (threads c) t th') as Hlk
    by (intros; apply others_ok_locked; auto).
  assert (∀ th1, waking th1 → ∀ z1, waiters z1 = waiters (zone c) →
    others_ok z1 (fPageDeficitLock c) (threads c) t th1) as Hwk by (intros; eapply others_ok_step; eauto).
  inversion Hstep; subst; clear Hstep; try match goal with H : _ = fPageDeficitLock c |- _ => symmetry in H end.
  - pose proof (owned_available c Hinv t _ Ht) as Hav. pose proof (nfree_bound c Hinv). cbn in Hav.
    unfold int32_ok in *. sys_zone Hinv Ht; rewrite ?i32_small by lia; cbn; try lia;
      [apply Hws'|by apply wake_ok_waking|by apply Hwk].
  - sys_zone Hinv Ht; cbn; try lia; [apply Hinv|apply Hws'| |by apply others_ok_satisfied].
    assert (waiters (zone c) = []) as Hnil.
    { destruct (decide (waiters (zone c) = [])) as [|Hne]; [done|].
      pose proof (total_missing_pos _ (proj1 Hws) Hne). pose proof (inv_unsatisfied c Hinv).
      pose proof (pending_nonneg c Hinv). lia. }
    intros w. by rewrite Hnil.
  - sys_zone Hinv Ht; cbn; try lia; [apply Hinv|apply Hws'|by apply wake_ok_waking|by apply Hwk].
  - sys_zone Hinv Ht; cbn; try lia; [apply Hinv|apply Hws'|by apply wake_ok_waking|].
    apply others_ok_locked; auto.
  - sys_zone Hinv Ht; cbn; try lia; [apply Hinv|apply Hws'| |by apply Hlk].
    match goal with H : waiters (zone c) = [] |- _ => intros w; by rewrite H end.
  - by eapply take_waiter_inv.
  - by eapply serve_inv.
Qed.

(** ** Steps on pages *)

(** [s'] is [s] with the one page [p] changed to [pg'], queues adapted. *)
Definition page_changed p (pg pg' : page) (s s' : vmstate) : Prop :=
  pages s !! p = Some pg ∧ pages s' = <[p := pg']> (pages s) ∧ queues_ok s' ∧
  page_ok pg' ∧ (0 <= wired_count pg → 0 <= wired_count pg') ∧
  counters (sMemoryZone s') = counters (sMemoryZone s).

Lemma page_changed_ok p pg pg' s s' :
  page_changed p pg pg' s s' → pages_ok s → (∀ p pg, pages s !! p = Some pg → 0 <= wired_count pg) →
  pages_ok s' ∧ (∀ p pg, pages s' !! p = Some pg → 0 <= wired_count pg) ∧
  size (pages s') = size (pages s) ∧ nfree s' - nfree s = free01 pg' - free01 pg.
Proof.
  intros (Hp & Hps & Hq & Hok & Hw & _) Hall Hwd.
  assert (pages_ok s') as Hok'.
  { split; [done|]. intros p' pg0. rewrite Hps. intros [[<- <-]|[_ ?]]%lookup_insert_Some; [done|].
    by eapply (proj2 Hall). }
  split_and!; [done| | |].
  - intros p' pg0. rewrite Hps. intros [[<- <-]|[_ ?]]%lookup_insert_Some; eauto.
  - rewrite Hps. by apply map_size_insert_Some.
  - rewrite !nfree_count, Hps, (msum_update free01 _ p pg) by done. lia.
Qed.

Lemma free01_free pg : is_free pg → free01 pg = 1.
Proof. intros. unfold free01. by rewrite decide_True. Qed.
Lemma free01_used pg : ¬ is_free pg → free01 pg = 0.
Proof. intros. unfold free01. by rewrite decide_False. Qed.

Lemma allocate_changed held flags s p held' cleared s' :
  pages_ok s → 0 <= held < 2 ^ 32 → (0 < held → 0 < nfree s) → alloc_flags_ok flags →
  vm_page_allocate_page_etc held flags s = Ret (p, held', cleared, s') →
  held' = held - 1 ∧ 0 < held ∧
  ∃ pg pg', page_changed p pg pg' s s' ∧ is_free pg ∧ ¬ is_free pg'.
Proof.
  intros Hok Hh Hn Hf He. assert (0 < held) as Hpos.
  { unfold vm_page_allocate_page_etc in He. destruct (Z.ltb_spec 0 held); [done|].
    destruct Hf as [Hf1 Hf2]. rewrite !bool_decide_eq_true_2 in He by done. done. }
  destruct (vm_page_allocate_page_etc_ok held flags s) as (p0 & pg & s0 & He0 & Hp & Hfr & Hu); auto; [lia|].
  rewrite He0 in He. injection He as <- <- _ <-. destruct (alloc_init_ok flags pg Hf) as [Ha Hb].
  split; [done|]. split; [done|]. exists pg, (alloc_init flags pg). split; [|done].
  split_and!; [done|apply Hu|apply Hu|done|done|]. by eapply page_update_counters.
Qed.

Lemma free_page_changed p s s' :
  pages_ok s → (∀ p pg, pages s !! p = Some pg → 0 <= wired_count pg) →
  free_page p false s = Ret s' →
  ∃ pg pg', page_changed p pg pg' s s' ∧ ¬ is_free pg ∧ is_free pg'.
Proof.
  intros Hok Hwd He. destruct (pages s !! p) as [pg|] eqn:Hp; [|unfold free_page in He; by rewrite Hp in He].
  assert (¬ is_free pg ∧ cache_ref pg = None ∧ wired_count pg = 0 ∧ mappings pg = []) as (Hnf & Hc & Hw & Hm).
  { unfold free_page in He. rewrite Hp in He. cbn [deref mbind outcome_bind] in He.
    destruct (negb (IsMapped pg)) eqn:Emap; [|done]. cbn [assert mbind outcome_bind] in He.
    destruct (state_queue (state pg)) as [q| |] eqn:Eq; [|done..]. cbn [mbind outcome_bind] in He.
    destruct (bool_decide (cache_ref pg = None)) eqn:Ec; [|done]. breflect.
    unfold IsMapped in *. breflect. pose proof (Hwd p pg Hp). split_and!; [|done|lia|done].
    intros [E|E]; by rewrite E in Eq. }
  destruct (free_page_ok p pg false s) as (s0 & He0 & Hu); auto. rewrite He0 in He. injection He as ->.
  exists pg, (freed pg). split; [|split; [done|by left]].
  split_and!; [done|apply Hu|apply Hu|by apply freed_ok|done|]. by eapply page_update_counters.
Qed.

Lemma free_etc_changed cache p r x s s' :
  pages_ok s → (∀ p pg, pages s !! p = Some pg → 0 <= wired_count pg) →
  vm_page_free_etc cache p (Some r) s = Ret (x, s') →
  x = Some (u32 (r + 1)) ∧ ∃ pg pg', page_changed p pg pg' s s' ∧ ¬ is_free pg ∧ is_free pg'.
Proof.
  intros Hok Hwd He. unfold vm_page_free_etc in He.
  destruct (pages s !! p) as [pg0|]; [|done]. cbn [deref mbind outcome_bind] in He.
  destruct (assert _); [|done..]. cbn [mbind outcome_bind] in He.
  destruct (if decide (state pg0 = _) then _ else _) as [s1| |] eqn:E1; [|done..]. cbn [mbind outcome_bind] in He.
  destruct (free_page p false s1) as [s2| |] eqn:Hfp; [|done..]. cbn in He. injection He as <- <-. split; [done|].
  assert (pages_ok s1 ∧ pages s1 = pages s ∧ counters (sMemoryZone s1) = counters (sMemoryZone s)) as (Hok1 & Hp1 & Hz1).
  { clear -E1 Hok. case_decide; [|by injection E1 as <-].
    destruct (cache ≫= _) as [C|]; [|done]. cbn in E1. destruct (temporary C); injection E1 as <-; [|done].
    split; [|done]. split; [by apply queues_ok_counter, Hok|apply Hok]. }
  apply free_page_changed in Hfp as (pg & pg' & (H1 & H2 & H3 & H4 & H5 & H6) & ? & ?); [|done|by rewrite Hp1].
  exists pg, pg'. split; [|done]. rewrite Hp1 in *. rewrite Hz1 in *. by split_and!.
Qed.

Lemma counters_erase s s' : erase s' = erase s → counters (sMemoryZone s') = counters (sMemoryZone s).
Proof. intros (? & ? & ?)%erase_zone. unfold counters. congruence. Qed.

(** The assertions of [set_page_state] hold when it returns. *)
Lemma set_page_state_inv p pg st s s' :
  pages s !! p = Some pg → ¬ is_free pg → st ≠ PAGE_STATE_FREE → st ≠ PAGE_STATE_CLEAR →
  st ≠ state pg → set_page_state p st s = Ret s' →
  (st = PAGE_STATE_CACHED → IsMapped pg = false ∧ modified pg = false) ∧
  (home st = home (state pg) → is_Some (page_Cache s pg)).
Proof.
  intros Hp Hnf H1 H2 Hne He. unfold set_page_state in He. rewrite Hp in He.
  cbn [deref mbind outcome_bind] in He. rewrite decide_False in He by done.
  rewrite (state_queue_home (state pg)) in He by (intros ?; apply Hnf; unfold is_free; auto).
  rewrite (state_queue_home st) in He by done. cbn [mbind outcome_bind] in He. split.
  - intros E. destruct (decide (st = PAGE_STATE_CACHED)) as [_|]; [|done].
    destruct (IsMapped pg), (modified pg); cbn [negb andb assert mbind outcome_bind] in He; done.
  - intros E. destruct (if decide (st = PAGE_STATE_CACHED) then _ else _); [|done..].
    cbn [mbind outcome_bind] in He. rewrite decide_True in He by done.
    match type of He with assert (bool_decide (is_Some (page_Cache ?s1 pg))) ≫= _ = _ =>
      assert (page_Cache s1 pg = page_Cache s pg) as Heq by (by repeat case_match);
      destruct (bool_decide (is_Some (page_Cache s1 pg))) eqn:Eb end; [|done].
    breflect. by rewrite <- Heq.
Qed.

Lemma set_state_changed p st s s' :
  pages_ok s → st ≠ PAGE_STATE_FREE → st ≠ PAGE_STATE_CLEAR →
  vm_page_set_state p st s = Ret s' →
  ∃ pg pg', page_changed p pg pg' s s' ∧ ¬ is_free pg ∧ ¬ is_free pg'.
Proof.
  intros Hok H1 H2 He. unfold vm_page_set_state in He.
  destruct (pages s !! p) as [pg|] eqn:Hp; [|done]. cbn [deref mbind outcome_bind] in He.
  destruct (bool_decide (state pg ≠ PAGE_STATE_FREE)) eqn:Ef; [|done].
  destruct (bool_decide (state pg ≠ PAGE_STATE_CLEAR)) eqn:Ec; [|done]. breflect.
  cbn [andb assert mbind outcome_bind] in He.
  assert (set_page_state p st s = Ret s') as Hs by (destruct st; done). clear He.
  assert (¬ is_free pg) as Hnf by (intros [?|?]; done).
  assert (¬ is_free (pg <| state := st |> <| queue := home st |>)) as Hnf' by (intros [?|?]; done).
  destruct (decide (st = state pg)) as [Hst|Hst].
  { unfold set_page_state in Hs. rewrite Hp in Hs. cbn [deref mbind outcome_bind] in Hs.
    rewrite decide_True in Hs by done. injection Hs as ->. exists pg, pg. split; [|done].
    split_and!; [done|by rewrite insert_id|apply Hok|by eapply (proj2 Hok)|done|done]. }
  destruct (set_page_state_inv p pg st s s') as [Hc1 Hc2]; auto.
  destruct (set_page_state_ok p pg st s) as (s0 & He & Hq & Hps & Her); auto.
  { intros Hw _ Hw'. apply Hc2. destruct Hw as [-> | ->], Hw' as [-> | ->]; done. }
  rewrite He in Hs. injection Hs as ->. exists pg, (pg <| state := st |> <| queue := home st |>).
  split; [|done]. split_and!; [done..| |done|].
  - split; [done|]. done.
  - rewrite (counters_erase _ _ Her). done.
Qed.

Lemma RemovePage_inv c p s s' :
  RemovePage c p s = Ret s' →
  ∃ pg C', pages s !! p = Some pg ∧ s' = set_cache c C' (set_page p (pg <| cache_ref := None |>) s).
Proof.
  unfold RemovePage. destruct (caches s !! c) as [C|]; [|done]. cbn [deref mbind outcome_bind].
  destruct (pages s !! p) as [pg|]; [|done]. cbn [deref mbind outcome_bind].
  destruct (assert _); [|done..]. cbn [mbind outcome_bind].
  destruct (if 0 <? wired_count pg then _ else _) as [C'| |]; [|done..]. cbn. intros [= <-]. eauto.
Qed.

Lemma queues_ok_set_page p pg pg' c C' s :
  pages s !! p = Some pg → queue pg' = queue pg → queues_ok s →
  queues_ok (set_cache c C' (set_page p pg' s)).
Proof.
  intros Hp Hq Hok. pose proof (queues_ok_upd_page p (fun pg0 => pg' <| queue := queue pg0 |>) s) as Hu.
  destruct Hu as [Hsz Hall]; [done|done|].
  assert (pages (upd_page p (fun pg0 => pg' <| queue := queue pg0 |>) s) = <[p := pg']> (pages s)) as Heq.
  { unfold upd_page. cbn. rewrite (alter_insert_page _ _ _ _ Hp). f_equal. destruct pg'. cbn in *. by subst. }
  split; [cbn; by rewrite <- Heq|]. intros i. destruct (Hall i) as (? & ? & Hel).
  rewrite Heq in Hel. unfold queue_ok. cbn [pages set_cache set_page update]. by destruct i.
Qed.

Lemma reclaim_changed acquire p ok s s' :
  pages_ok s → (∀ p pg, pages s !! p = Some pg → 0 <= wired_count pg) →
  reclaim_candidate acquire p s = Ret (ok, s') →
  (ok = false ∧ s' = s) ∨
  (ok = true ∧ ∃ pg pg', page_changed p pg pg' s s' ∧ ¬ is_free pg ∧ is_free pg').
Proof.
  intros Hok Hwd He. unfold reclaim_candidate, free_cached_page in He.
  destruct (pages s !! p) as [pg|] eqn:Hp; [|done]. cbn [deref mbind outcome_bind] in He.
  destruct (page_Cache s pg) as [c|]; [|cbn in He; injection He as <- <-; by left].
  destruct (acquire p); cbn [negb] in He; [|cbn in He; injection He as <- <-; by left].
  destruct (busy pg || negb (bool_decide (state pg = PAGE_STATE_CACHED))) eqn:Eb;
    [cbn in He; injection He as <- <-; by left|]. breflect. right.
  destruct (IsMapped pg) eqn:Em; [done|]. destruct (modified pg); [done|].
  cbn [negb assert mbind outcome_bind] in He.
  destruct (RemovePage c p s) as [s1| |] eqn:E1; [|done..]. cbn [mbind outcome_bind] in He.
  apply RemovePage_inv in E1 as (pg1 & C' & Hp1 & ->). assert (pg1 = pg) as -> by congruence. clear Hp1.
  set (s1 := set_cache _ _ _) in *.
  assert (queues_ok s1) as Hq1 by (eapply queues_ok_set_page; [done|done|apply Hok]).
  assert (pages s1 !! p = Some (pg <| cache_ref := None |>)) as Hl1 by (cbn; by rewrite lookup_insert_eq).
  destruct (proj2 Hok p pg Hp) as [Hh _].
  match goal with H : state pg = _ |- _ => rewrite H in Hh end. cbn in Hh.
  destruct (Remove_ok QCached p _ s1 Hq1 Hl1 Hh) as (s2 & He2 & Hs2).
  unfold RemoveUnlocked in He. rewrite He2 in He. cbn [mbind outcome_bind] in He.
  pose proof (queue_update _ _ _ _ _ _ _ Hl1 Hs2) as Hu2.
  pose proof (SetState_update p _ PAGE_STATE_FREE s2 (page_update_lookup _ _ _ _ Hu2) (proj1 Hu2)) as Hu3.
  destruct (Prepend_ok QFree p _ _ (proj1 Hu3) (page_update_lookup _ _ _ _ Hu3) eq_refl) as (s4 & He4 & Hs4).
  unfold PrependUnlocked in He. rewrite He4 in He. cbn in He. injection He as <- <-. split; [done|].
  pose proof (queue_update _ _ _ _ _ _ _ (page_update_lookup _ _ _ _ Hu3) Hs4) as Hu4.
  pose proof (page_update_trans _ _ _ _ _ _ Hu2 (page_update_trans _ _ _ _ _ _ Hu3 Hu4)) as Hu.
  exists pg, (reclaimed pg). split; [|split].
  - split_and!; [done| |apply Hu|by apply reclaimed_ok; [|eapply Hwd]|done|].
    + destruct Hu as (_ & -> & _). cbn. by rewrite insert_insert_eq.
    + rewrite (page_update_counters _ _ _ _ Hu). done.
  - intros [?|?]; congruence.
  - by left.
Qed.

(** A page change made by a thread, with what the thread owns adjusted. *)
Lemma sys_inv_page_changed c t th th' p pg pg' s' :
  sys_inv c → threads c !! t = Some th → page_changed p pg pg' (vm c) s' →
  thread_ok th' → demand th' <= demand th →
  pending th' = pending th → ¬ waiting th → (waking th → waking th') →
  free01 pg' - free01 pg = owned th' - owned th → outside th' →
  sys_inv (mkSys s' (fPageDeficitLock c) (<[t := th']> (threads c))).
Proof.
  intros Hinv Ht Hch Hth Hd Hp Hnw Hwk Ho Hout. pose proof Hch as (_ & _ & _ & _ & _ & Hcnt).
  destruct (page_changed_ok _ _ _ _ _ Hch (inv_pages c Hinv) (inv_wired c Hinv)) as (Hok & Hwd & Hsz & Hn).
  eapply sys_inv_pages; eauto; [|lia]. pose proof (inv_demand c Hinv). lia.
Qed.

Lemma sys_inv_thread c t th th' :
  sys_inv c → threads c !! t = Some th → thread_ok th' →
  total_demand (threads c) - demand th + demand th' < 2 ^ 31 →
  pending th' = pending th → ¬ waiting th → (waking th → waking th') → owned th' = owned th →
  outside th' → sys_inv (set_thread t th' c).
Proof.
  intros Hinv Ht Hth Hd Hp Hnw Hwk Ho Hout.
  apply (sys_inv_pages c t th th' (vm c)); auto; try apply Hinv. lia.
Qed.

Lemma same_thread c t th s' l' :
  threads c !! t = Some th → mkSys s' l' (threads c) = mkSys s' l' (<[t := th]> (threads c)).
Proof. intros. by rewrite insert_id. Qed.

Lemma sys_inv_use c p pg f :
  sys_inv c → pages (vm c) !! p = Some pg → ¬ is_free pg →
  (∀ pg, state (f pg) = state pg ∧ queue (f pg) = queue pg ∧
         (0 <= wired_count pg → 0 <= wired_count (f pg))) →
  sys_inv (mkSys (upd_page p f (vm c)) (fPageDeficitLock c) (threads c)).
Proof.
  intros Hinv Hp Hnf Hf. destruct (Hf pg) as (Hst & Hq & Hw).
  assert (¬ is_free (f pg)) as Hnf' by (unfold is_free in *; by rewrite Hst).
  assert (page_changed p pg (f pg) (vm c) (upd_page p f (vm c))) as Hch.
  { split_and!; [done|by apply alter_insert_page| | |done|done].
    - apply queues_ok_upd_page; [intros; apply Hf|apply Hinv].
    - split; [|done]. rewrite Hst, Hq. by destruct (proj2 (inv_pages c Hinv) p pg Hp). }
  destruct (page_changed_ok _ _ _ _ _ Hch (inv_pages c Hinv) (inv_wired c Hinv)) as (Hok & Hwd & Hsz & Hn).
  rewrite !free01_used in Hn by done.
  destruct Hinv. split; unfold zone in *; cbn [vm threads fPageDeficitLock] in *; try done.
  all: first [by rewrite Hsz | change (sMemoryZone (upd_page p f (vm c))) with (sMemoryZone (vm c)); lia].
Qed.

Lemma sys_step_inv c c' : sys_inv c → sys_step c c' → sys_inv c'.
Proof.
  intros Hinv Hstep. pose proof (inv_demand c Hinv) as Hdem.
  destruct Hstep as [c t rq Ht Hc Hd|c t tprio rq pc pc' l' z' Ht Hs|c t rq count freed acq p ok s' Ht Hfc _ He
    |c t rq Ht|c t rq r Ht Hr|c t h Ht Hh|c t h pc pc' l' z' Ht Hs|c t h Ht|c t h fl p h' cl s' Ht Hfl He
    |c t h ca p h' s' Ht He|c t h ca p r s' Ht He|c t h p st s' Ht H1 H2 He|c p pg f s' Hp Hnf Hf ->];
    try pose proof (inv_threads c Hinv t _ Ht) as Hth; try pose proof (owned_available c Hinv t _ Ht) as Hav;
    pose proof (nfree_bound c Hinv) as Hnb; pose proof (inv_unreserved c Hinv) as HU0.
  - eapply sys_inv_thread; eauto; cbn; lia.
  - by eapply reserve_step_inv.
  - cbn in Hth.
    apply reclaim_changed in He as [[-> ->]|[-> (pg & pg' & Hch & Hf & Hf')]];
      [| |apply Hinv..].
    + rewrite <- (same_thread c t _ _ _ Ht). by destruct c.
    + eapply sys_inv_page_changed; eauto; cbn; try lia; try done.
      rewrite free01_free, free01_used by done. lia.
  - eapply sys_inv_thread; eauto; cbn in *; lia.
  - cbn in *. pose proof (request_int32 c Hinv t _ _ Ht). rewrite wrap_small by (split; lia).
    eapply sys_inv_thread; eauto; cbn; lia.
  - eapply sys_inv_thread; eauto; cbn in *; lia.
  - by eapply unreserve_step_inv.
  - eapply sys_inv_thread; eauto; cbn in *; lia.
  - cbn in *. apply allocate_changed in He as (-> & Hpos & pg & pg' & Hch & Hf & Hf'); try done; [|apply Hinv|lia|lia].
    eapply sys_inv_page_changed; eauto; cbn; try lia; try done. rewrite (free01_free pg), (free01_used pg') by done. lia.
  - cbn in *. apply free_etc_changed in He as ([= ->] & pg & pg' & Hch & Hf & Hf'); [|apply Hinv..].
    rewrite wrap_small by (split; lia). eapply sys_inv_page_changed; eauto; cbn; try lia; try done.
    rewrite free01_free, free01_used by done. lia.
  - cbn in *. apply free_etc_changed in He as (_ & pg & pg' & Hch & Hf & Hf'); [|apply Hinv..].
    eapply sys_inv_page_changed; eauto; cbn; try lia; try done. rewrite free01_free, free01_used by done. lia.
  - apply set_state_changed in He as (pg & pg' & Hch & Hf & Hf'); try done; [|apply Hinv].
    rewrite (same_thread c t _ _ _ Ht).
    eapply sys_inv_page_changed; eauto; cbn; try lia; try done. rewrite !free01_used by done. lia.
  - by eapply sys_inv_use.
Qed.

(** ** Reachable states *)

Definition sys_init (c : sys) : Prop :=
  pages_ok (vm c) ∧ (∀ p pg, pages (vm c) !! p = Some pg → 0 <= wired_count pg) ∧
  Z.of_nat (size (pages (vm c))) < 2 ^ 31 ∧
  fUnreservedFreePages (zone c) = nfree (vm c) ∧
  fUnsatisfiedPageReservations (zone c) = 0 ∧ waiters (zone c) = [] ∧
  fPageDeficitLock c = None ∧
  ∀ t th, threads c !! t = Some th → th = Running 0.

Definition reachable (c : sys) : Prop := ∃ c0, sys_init c0 ∧ rtc sys_step c0 c.

Lemma sys_init_inv c : sys_init c → sys_inv c.
Proof.
  intros (Hok & Hw & Hsz & HU & HS & Hws & _ & Hth).
  assert (∀ f : thread → Z, f (Running 0) = 0 → msum f (threads c) = 0) as Hsum.
  { intros f Hf. transitivity (msum (fun _ : thread => 0) (threads c)).
    - apply msum_ext. intros t th Ht. by rewrite (Hth t th Ht).
    - clear. induction (threads c) as [|t th m Hm IH] using map_ind; [done|]. rewrite msum_insert by done. lia. }
  split; try done.
  - intros t th Ht. by rewrite (Hth t th Ht).
  - unfold total_demand. rewrite Hsum by done. done.
  - rewrite Hsum, HU, Hws by done. cbn. lia.
  - rewrite Hsum, HS, Hws by done. done.
  - rewrite HU. unfold nfree. lia.
  - rewrite Hws. split_and!; try constructor. intros w Hin. by apply elem_of_nil in Hin.
  - intros w. by rewrite Hws.
  - intros t th Ht. by rewrite (Hth t th Ht).
Qed.

Lemma reachable_inv c : reachable c → sys_inv c.
Proof.
  intros (c0 & Hinit & Hsteps). apply sys_init_inv in Hinit.
  induction Hsteps; [done|]. eauto using sys_step_inv.
Qed.
End sys.

(** C1: In every state the system of reserving, allocating, freeing and
    unreserving threads can reach by interleaving their steps, a thread that
    holds a positive reservation can allocate a page:
    vm_page_allocate_page_etc does not panic for lack of pages, returns a
    page that was free, takes exactly one page off the reservation, clears
    the page when asked to unless it was on the clear queue, and leaves
    every page on the queue its state names. *)
Theorem reserved_page_is_there {DL : DLList Z} (c : sys) (t held flags : Z)
    (Hreach : reachable c) (Ht : threads c !! t = Some (Running held)) (Hheld : 0 < held)
    (Hflags : alloc_flags_ok flags) :
  ∃ p pg cleared s', vm_page_allocate_page_etc held flags (vm c) = Ret (p, held - 1, cleared, s') ∧
    pages (vm c) !! p = Some pg ∧ is_free pg ∧
    (testflag flags VM_PAGE_ALLOC_CLEAR = true → state pg = PAGE_STATE_CLEAR ∨ cleared = true) ∧
    pages s' = <[p := alloc_init flags pg]> (pages (vm c)) ∧ pages_ok s'.
Proof.
  apply reachable_inv in Hreach as Hinv. pose proof (owned_available c Hinv t _ Ht) as Hav.
  pose proof (inv_unreserved c Hinv). pose proof (nfree_bound c Hinv). cbn in Hav.
  destruct (vm_page_allocate_page_etc_ok held flags (vm c)) as (p & pg & s' & He & Hp & Hf & Hu);
    [apply Hinv|lia|lia|done|].
  exists p, pg. do 2 eexists. split; [exact He|]. split_and!; [done|done| |apply Hu|].
  - intros ->. case_bool_decide; [by right|left]. destruct (state pg); naive_solver.
  - eapply page_update_ok; [apply Hinv| |exact Hu]. by apply alloc_init_ok.
Qed.

(** C2: In every reachable state the pages on the free and clear queues are
    exactly the unreserved free pages plus the pages owned by threads
    (reservations, pages in flight and what queued waiters already
    received); fUnreservedFreePages is never negative, and
    fUnsatisfiedPageReservations is what the queued waiters still miss plus
    the announced demand not yet queued. *)
Theorem reservation_accounting {DL : DLList Z} (c : sys) (Hreach : reachable c) :
  nfree (vm c) = fUnreservedFreePages (zone c) +
    (msum owned (threads c) - total_missing (fPageReservationWaiters (zone c))) ∧
  0 <= fUnreservedFreePages (zone c) <= nfree (vm c) ∧
  fUnsatisfiedPageReservations (zone c) =
    total_missing (fPageReservationWaiters (zone c)) + msum pending (threads c) ∧
  pages_ok (vm c).
Proof.
  apply reachable_inv in Hreach as Hinv. pose proof (inv_account c Hinv). pose proof (unreserved_le c Hinv).
  split_and!; [lia|apply Hinv|done|apply Hinv..].
Qed.

(** C3: Under sequentially consistent atomic accesses (the code asks for
    weaker orders, which can lose a wake-up: see the findings) and a total
    demand below 2^31 pages: in every reachable state, if a queued
    reservation waiter could be served from the unreserved free pages, then
    some thread is in the middle of unreserving and still has to look at the
    waiters, and fUnsatisfiedPageReservations is not zero, so its check
    cannot skip the wake-up. Each access to a counter is a step of its own,
    so pages may come back between any two of them. *)
Theorem no_lost_wakeup {DL : DLList Z} (c : sys) (w : PageReservationWaiter)
    (Hreach : reachable c) (Hw : w ∈ fPageReservationWaiters (zone c))
    (Havail : dontTouch w < fUnreservedFreePages (zone c)) :
  (∃ t th, threads c !! t = Some th ∧ waking th) ∧
  fUnsatisfiedPageReservations (zone c) ≠ 0.
Proof.
  apply reachable_inv in Hreach as Hinv. destruct (inv_waiters c Hinv) as (Hok & Hs & _).
  pose proof (inv_unsatisfied c Hinv). pose proof (pending_nonneg c Hinv).
  pose proof (inv_wake c Hinv) as Hwk. unfold wake_ok in Hwk.
  destruct (fPageReservationWaiters (zone c)) as [|w0 ws] eqn:E; [by apply elem_of_nil in Hw|].
  pose proof (total_missing_pos _ Hok ltac:(done)). split; [|lia].
  destruct (Hwk w0) as [Hle|]; [done|exfalso|done].
  apply elem_of_cons in Hw as [->|Hin]; [lia|]. inversion Hs as [|? ? _ Hall]; subst.
  rewrite Forall_forall in Hall. specialize (Hall w Hin). apply waiter_le_spec in Hall. lia.
Qed.

(** ** What the memory orders of the code allow *)

(** The four accesses that decide whether a waiter is woken up: the two of
    [unreserve_pages_for_zone] and the two of [reserve_pages] under the
    deficit lock. *)
Inductive access :=
  | AddUnreserved (count : Z)     (** __ATOMIC_RELEASE *)
  | LoadUnsatisfied               (** __ATOMIC_RELAXED *)
  | AddUnsatisfied (count : Z)    (** __ATOMIC_RELAXED *)
  | LoadUnreserved.               (** __ATOMIC_RELAXED *)

(** The counters, and what the two loads have returned. *)
Record counters_run := mkRun {
  run_unreserved : Z;
  run_unsatisfied : Z;
  run_saw_unsatisfied : option Z;
  run_saw_unreserved : option Z
}.

Definition access_step (r : counters_run) (a : access) : counters_run :=
  let '(mkRun u n su sn) := r in
  match a with
  | AddUnreserved count => mkRun (u + count) n su sn
  | LoadUnsatisfied => mkRun u n (Some n) sn
  | AddUnsatisfied count => mkRun u (n + count) su sn
  | LoadUnreserved => mkRun u n su (Some u)
  end.

Definition run_accesses (l : list access) : counters_run := foldl access_step (mkRun 0 0 None None) l.

(** The thread that gives pages back saw no waiter and the one that waits saw
    no pages, though there are enough. *)
Definition wakeup_lost (dontTouch : Z) (r : counters_run) : Prop :=
  run_saw_unsatisfied r = Some 0 ∧
  (∃ n, run_saw_unreserved r = Some n ∧ n <= dontTouch) ∧ dontTouch < run_unreserved r.

(** All orders that keep the order of both functions. *)
Definition in_order (count missing : Z) : list (list access) :=
  let a := AddUnreserved count in let b := LoadUnsatisfied in
  let x := AddUnsatisfied missing in let y := LoadUnreserved in
  [[a; b; x; y]; [a; x; b; y]; [a; x; y; b]; [x; a; b; y]; [x; a; y; b]; [x; y; a; b]].

(** If both functions perform their accesses in order, one of them sees the
    other. *)
Lemma in_order_wakeup_kept dontTouch count missing l :
  0 < missing → l ∈ in_order count missing → ¬ wakeup_lost dontTouch (run_accesses l).
Proof.
  intros Hm Hl (H1 & (n & H2 & Hn) & H3). unfold in_order in Hl. cbn in Hl.
  repeat (apply elem_of_cons in Hl as [->|Hl]; [cbn in *; simplify_eq; lia|]). by apply elem_of_nil in Hl.
Qed.

(** A load after an addition with release or relaxed order to another counter
    may be performed before it.  Then both threads see the old counters and
    the waiter sleeps although its page is there. *)
Lemma relaxed_wakeup_lost :
  wakeup_lost 0 (run_accesses [LoadUnsatisfied; LoadUnreserved; AddUnreserved 1; AddUnsatisfied 1]).
Proof. split_and!; [reflexivity|exists 0; split; [reflexivity|lia]|cbn; lia]. Qed.

(** Three free pages and two threads. *)
Definition boot_sys : sys :=
  let pg n := page_zero <| pfn := n |> <| state := PAGE_STATE_FREE |> <| queue := Some QFree |> in
  mkSys ((vm_boot {[ 1 := pg 1; 2 := pg 2; 3 := pg 3 ]})
           <| sMemoryZone ::= fun z => z <| fFreePageQueue := mkQueue 3 [1; 2; 3] |>
                                        <| fUnreservedFreePages := 3 |> |>)
    None {[ 10 := Running 0; 20 := Running 0 ]}.

Lemma boot_sys_init : sys_init boot_sys.
Proof.
  split_and!; try (by vm_compute).
  - apply pages_okb_sound. vm_compute. reflexivity.
  - apply (map_Forall_insert_2 (fun _ pg => 0 <= wired_count pg)); [done|].
    by repeat apply map_Forall_insert_2.
  - apply (map_Forall_insert_2 (fun _ th => th = Running 0)); [done|]. by apply map_Forall_singleton.
Qed.

Definition three_pages_request : request := mkRequest 3 GFP_PRIO_VIP false false.
Definition one_page_request : request := mkRequest 1 GFP_PRIO_VIP false false.

(** A step of a thread in [reserve_pages] or [unreserve_pages_for_zone], with
    the zone it leaves. *)
Definition after_reserve (c : sys) (t : Z) (rq : request) (pc : reserve_pc) (l : option Z) (z : MemoryZone) : sys :=
  mkSys ((vm c) <| sMemoryZone := z |>) l (<[t := Reserving rq pc]> (threads c)).

(** Thread 10 reserves all three pages. *)
Definition sys1 : sys := set_thread 10 (Reserving three_pages_request (RTop 3)) boot_sys.
Definition sys2 : sys :=
  after_reserve sys1 10 three_pages_request (RDone 0) None (reserve_some_pages_from_zone 3 0 (zone sys1)).2.
Definition sys3 : sys := set_thread 10 (Running 3) sys2.

(** Thread 20 wants one page and has to wait. *)
Definition sys4 : sys := set_thread 20 (Reserving one_page_request (RTop 1)) sys3.
Definition sys5 : sys :=
  after_reserve sys4 20 one_page_request (RCheck 1) None (reserve_some_pages_from_zone 1 0 (zone sys4)).2.
Definition sys6 : sys := after_reserve sys5 20 one_page_request (RCached 1 0) None (zone sys5).
Definition sys7 : sys := after_reserve sys6 20 one_page_request (RDecide 1) None (zone sys6).
Definition sys8 : sys :=
  after_reserve sys7 20 one_page_request (RLocked 1) (Some 20)
    ((zone sys7) <| fUnsatisfiedPageReservations ::= fun n => i32 (n + 1) |>).
Definition sys8' : sys := after_reserve sys8 20 one_page_request (RQueue 1) (Some 20) (zone sys8).
Definition sys9 : sys :=
  after_reserve sys8' 20 one_page_request RWait None
    ((zone sys8') <| fPageReservationWaiters ::= insert_waiter (mkWaiter 0 1 5 20) |>).

(** Thread 10 gives its pages back. *)
Definition sys10 : sys := set_thread 10 (Unreserving 0 (UAdd 3)) sys9.
Definition sys11 : sys :=
  mkSys ((vm sys10) <| sMemoryZone := (zone sys10) <| fUnreservedFreePages ::= fun n => i32 (n + 3) |> |>) None
    (<[10 := Unreserving 0 UCheck]> (threads sys10)).

Lemma reachable_step c c' : reachable c → sys_step c c' → reachable c'.
Proof. intros (c0 & Hi & Hs) Hstep. exists c0. split; [done|]. by eapply rtc_r. Qed.

Lemma reach3 : reachable sys3.
Proof.
  eapply reachable_step; [eapply reachable_step; [eapply reachable_step|]|].
  - exists boot_sys. split; [apply boot_sys_init|apply rtc_refl].
  - apply (st_reserve boot_sys 10 three_pages_request); vm_compute; reflexivity.
  - apply (st_reserving sys1 10 5 three_pages_request (RTop 3) (RDone 0)); [vm_compute; reflexivity|].
    by apply (rs_take 10 5 three_pages_request 3 None (zone sys1) 3); vm_compute.
  - apply (st_reserved sys2 10 three_pages_request). vm_compute. reflexivity.
Qed.

Lemma reach11 : reachable sys11.
Proof.
  apply (reachable_step sys10); [apply (reachable_step sys9); [apply (reachable_step sys8');
    [apply (reachable_step sys8); [apply (reachable_step sys7); [apply (reachable_step sys6);
    [apply (reachable_step sys5); [apply (reachable_step sys4); [apply (reachable_step sys3)|]|]|]|]|]|]|]|].
  - apply reach3.
  - apply (st_reserve sys3 20 one_page_request); vm_compute; reflexivity.
  - apply (st_reserving sys4 20 5 one_page_request (RTop 1)); [vm_compute; reflexivity|].
    by apply (rs_take 20 5 one_page_request 1 None (zone sys4) 0); vm_compute.
  - apply (st_reserving sys5 20 5 one_page_request (RCheck 1)); [vm_compute; reflexivity|].
    apply (rs_check_cached 20 5 one_page_request). vm_compute. reflexivity.
  - apply (st_reserving sys6 20 5 one_page_request (RCached 1 0)); [vm_compute; reflexivity|].
    apply (rs_cached_done 20 5 one_page_request).
  - apply (st_reserving sys7 20 5 one_page_request (RDecide 1)); [vm_compute; reflexivity|].
    by apply (rs_lock 20 5 one_page_request).
  - apply (st_reserving sys8 20 5 one_page_request (RLocked 1)); [vm_compute; reflexivity|].
    apply (rs_look 20 5 one_page_request 1).
  - apply (st_reserving sys8' 20 5 one_page_request (RQueue 1)); [vm_compute; reflexivity|].
    apply (rs_queue 20 5 one_page_request).
  - by apply (st_unreserve sys9 10 3); [vm_compute|].
  - apply (st_unreserving sys10 10 0 (UAdd 3)); [vm_compute; reflexivity|]. apply us_add.
Qed.

Lemma reserved_page_is_there_witness :
  ∃ p pg cleared s', vm_page_allocate_page_etc 3 VM_PAGE_ALLOC_CLEAR (vm sys3) = Ret (p, 2, cleared, s') ∧
    pages (vm sys3) !! p = Some pg ∧ is_free pg ∧ pages_ok s'.
Proof.
  destruct (reserved_page_is_there sys3 10 3 VM_PAGE_ALLOC_CLEAR reach3) as (p & pg & cl & s' & He & Hp & Hf & _ & _ & Hok);
    [vm_compute; reflexivity|lia|split; vm_compute; discriminate|].
  exists p, pg, cl, s'. auto 10.
Defined.

Lemma reservation_accounting_witness : nfree (vm sys11) = 3 ∧ pages_ok (vm sys11) ∧
  3 = fUnreservedFreePages (zone sys11) +
    (msum owned (threads sys11) - total_missing (fPageReservationWaiters (zone sys11))).
Proof.
  destruct (reservation_accounting sys11 reach11) as (Ha & _ & _ & Hok).
  split; [vm_compute; reflexivity|]. split; [exact Hok|]. rewrite <- Ha. vm_compute. reflexivity.
Defined.

Lemma no_lost_wakeup_witness : ∃ t th, threads sys11 !! t = Some th ∧ waking th.
Proof.
  destruct (no_lost_wakeup sys11 (mkWaiter 0 1 5 20) reach11) as (Hk & _);
    [vm_compute; left | vm_compute; reflexivity | exact Hk].
Defined.
