(* ===== verification/MemoryCommit.v ===== *)
(** page_alloc.cpp: the memory commitment counters ([vm_try_reserve_memory],
    [vm_unreserve_memory]) and the per-task out-of-memory budget
    ([task_oom_data]). *)
From S2P Require Import Prelude PageAlloc.
From stdpp Require Import base list list_numbers numbers.
From Stdlib Require Import ZArith Lia.
Local Open Scope Z_scope.

(** ** Memory commitment *)

Record memory := mkMemory {
  sAvailableMemory : Z;
  sNeededMemory : Z;
  sTotalMemory : Z
}.
#[export] Instance eta_memory : Eta memory := fun m =>
  mkMemory (sAvailableMemory m) (sNeededMemory m) (sTotalMemory m).

(** [off_t] arithmetic with a [size_t] operand: computed in 64 bits. *)
Abbreviation i64 := (swrap 64).

Definition vm_available_memory (m : memory) : Z := sAvailableMemory m.
Definition vm_total_memory (m : memory) : Z := sTotalMemory m.
Definition vm_available_not_needed_memory (m : memory) : Z :=
  i64 (sAvailableMemory m - sNeededMemory m).

Definition vm_unreserve_memory (amount : Z) (m : memory) : memory :=
  m <| sAvailableMemory ::= fun a => i64 (a + amount) |>.

(** While the caller waits in [low_resource] it does not hold the lock: other
    threads change the two counters by [dAvailable] and [dNeeded].  [killed]
    is what [is_interrupted] then says and [now] the clock. *)
Record wait_event := mkWait {
  dAvailable : Z;
  dNeeded : Z;
  killed : bool;
  now : Z
}.

(** The loop of [vm_try_reserve_memory]; the list holds one event per
    iteration, and running out of events stands for a caller still waiting. *)
Fixpoint reserve_memory_loop (amount reserve timeout : Z) (es : list wait_event) (m : memory)
  : outcome (status * memory) :=
  match es with
  | [] => NoFuel
  | e :: es =>
      let m := m <| sNeededMemory ::= fun n => i64 (n + amount) |> in
      let m := m <| sAvailableMemory ::= fun a => i64 (a + dAvailable e) |>
                 <| sNeededMemory ::= fun n => i64 (n + dNeeded e) |> in
      let m := m <| sNeededMemory ::= fun n => i64 (n - amount) |> in
      if i64 (u64 (amount + reserve)) <=? sAvailableMemory m then
        Ret (Ok, m <| sAvailableMemory ::= fun a => i64 (a - amount) |>)
      else if killed e then Ret (Err ENOMEM, m)
      else if now e <? timeout then reserve_memory_loop amount reserve timeout es m
      else Ret (Err ENOMEM, m)
  end.

(** [infinite] is [B_INFINITE_TIMEOUT] and [start] the clock at the call. *)
Definition vm_try_reserve_memory (infinite start : Z) (amount : Z) (priority : gfp_prio) (timeout : Z)
    (es : list wait_event) (m : memory) : outcome (status * memory) :=
  let reserve := kMemoryReserveForPriority priority in
  if u64 (i64 (sTotalMemory m * 9) ÷ 10) <=? u64 (amount + reserve) then Ret (Err ENOMEM, m)
  else if i64 (u64 (reserve + amount)) <=? sAvailableMemory m then
    Ret (Ok, m <| sAvailableMemory ::= fun a => i64 (a - amount) |>)
  else if timeout <=? 0 then Ret (Err ENOMEM, m)
  else
    let timeout := if (timeout =? infinite) || (timeout <? 0) then infinite else timeout + start in
    reserve_memory_loop amount reserve timeout es m.

(** ** task_oom_data *)

Section oom.
(** [default_oom_time], [oom_reset_interval] and [oom_max_in_interval] of the
    task structure. *)
Context (default_oom_time oom_reset_interval oom_max_in_interval : Z).

Record task_oom_data := mkOOM {
  memory_wait_limit : Z;
  first_oom : Z;
  oom_count : Z;
  oom_thread_count : Z;
  time_taken_max : Z
}.
#[global] Instance eta_task_oom_data : Eta task_oom_data := fun d =>
  mkOOM (memory_wait_limit d) (first_oom d) (oom_count d) (oom_thread_count d) (time_taken_max d).

Definition oom_Reset (d : task_oom_data) : task_oom_data :=
  d <| memory_wait_limit := default_oom_time |> <| first_oom := 0 |> <| oom_count := 0 |>
    <| oom_thread_count := 0 |>.

Definition BeginOOM (currentTime : Z) (d : task_oom_data) : Z * task_oom_data :=
  let d := d <| oom_thread_count ::= fun n => n + 1 |> in
  if oom_thread_count d =? 1 then
    let d := d <| time_taken_max := 0 |> in
    if oom_reset_interval <=? currentTime - first_oom d then
      let d := d <| first_oom := currentTime |> <| memory_wait_limit := default_oom_time |>
                 <| oom_count := 1 |> in
      (memory_wait_limit d, d)
    else if oom_max_in_interval <=? oom_count d then (0, d)
    else
      let d := d <| oom_count ::= fun n => n + 1 |> in
      (memory_wait_limit d, d)
  else (memory_wait_limit d, d).

Definition EndOOM (time_taken : Z) (d : task_oom_data) : task_oom_data :=
  let d := d <| oom_thread_count ::= fun n => n - 1 |>
             <| time_taken_max ::= fun n => Z.max n time_taken |> in
  if oom_thread_count d =? 0 then
    if memory_wait_limit d <? time_taken_max d then d <| memory_wait_limit := 0 |>
    else d <| memory_wait_limit ::= fun n => n - time_taken_max d |>
  else d.
End oom.

(** ** Lemmas on commitment *)

Lemma i64_small z : - 2 ^ 63 <= z < 2 ^ 63 -> i64 z = z.
Proof. intros H. unfold swrap, wrap. change (64 - 1) with 63. rewrite Z.mod_small; lia. Qed.

Fixpoint total_available (es : list wait_event) : Z :=
  match es with [] => 0 | e :: es => dAvailable e + total_available es end.
Fixpoint total_needed (es : list wait_event) : Z :=
  match es with [] => 0 | e :: es => dNeeded e + total_needed es end.
Fixpoint traffic (es : list wait_event) : Z :=
  match es with [] => 0 | e :: es => Z.abs (dAvailable e) + Z.abs (dNeeded e) + traffic es end.

Lemma traffic_nonneg es : 0 <= traffic es.
Proof. induction es; cbn; lia. Qed.

(** The counters stay far from the limits of [off_t] as long as the memory
    others reserve and give back while we wait, and the request, do. *)
Definition in_range (amount : Z) (es : list wait_event) (m : memory) : Prop :=
  0 <= amount < 2 ^ 61 ∧ Z.abs (sAvailableMemory m) + Z.abs (sNeededMemory m) + traffic es < 2 ^ 61.

(** The request and the reserve of its priority fit what is available after the
    others did [used]. *)
Definition request_fits (amount reserve : Z) (m : memory) (used : list wait_event) : Prop :=
  amount + reserve <= sAvailableMemory m + total_available used.

(** What the function answers and after which events, in unbounded numbers. *)
Inductive reserve_outcome (amount reserve timeout deadline : Z) (es : list wait_event) (m : memory)
  : status → list wait_event → Prop :=
  | ro_refused :
      sTotalMemory m * 9 / 10 <= amount + reserve →
      reserve_outcome amount reserve timeout deadline es m (Err ENOMEM) []
  | ro_at_once :
      amount + reserve < sTotalMemory m * 9 / 10 → request_fits amount reserve m [] →
      reserve_outcome amount reserve timeout deadline es m Ok []
  | ro_no_wait :
      amount + reserve < sTotalMemory m * 9 / 10 → ¬ request_fits amount reserve m [] → timeout <= 0 →
      reserve_outcome amount reserve timeout deadline es m (Err ENOMEM) []
  | ro_waited before e rest st :
      amount + reserve < sTotalMemory m * 9 / 10 → ¬ request_fits amount reserve m [] → 0 < timeout →
      es = before ++ e :: rest →
      (∀ b1 x b2, before = b1 ++ x :: b2 →
        ¬ request_fits amount reserve m (b1 ++ [x]) ∧ killed x = false ∧ now x < deadline) →
      (st = Ok ∧ request_fits amount reserve m (before ++ [e]) ∨
       st = Err ENOMEM ∧ ¬ request_fits amount reserve m (before ++ [e]) ∧ (killed e = true ∨ deadline <= now e)) →
      reserve_outcome amount reserve timeout deadline es m st (before ++ [e]).

(** The counters after the others did [used] and, on success, the request. *)
Definition charged (amount : Z) (used : list wait_event) (m : memory) (st : status) : memory :=
  mkMemory (sAvailableMemory m + total_available used - (if decide (st = Ok) then amount else 0))
    (sNeededMemory m + total_needed used) (sTotalMemory m).

Lemma reserve_memory_loop_ok amount reserve timeout es m st m' :
  0 <= reserve < 2 ^ 61 → in_range amount es m →
  reserve_memory_loop amount reserve timeout es m = Ret (st, m') →
  ∃ before e rest, es = before ++ e :: rest ∧ m' = charged amount (before ++ [e]) m st ∧
    (∀ b1 x b2, before = b1 ++ x :: b2 →
      ¬ request_fits amount reserve m (b1 ++ [x]) ∧ killed x = false ∧ now x < timeout) ∧
    (st = Ok ∧ request_fits amount reserve m (before ++ [e]) ∨
     st = Err ENOMEM ∧ ¬ request_fits amount reserve m (before ++ [e]) ∧ (killed e = true ∨ timeout <= now e)).
Proof.
  intros Hr. revert m. induction es as [|e es IH]; intros m [Ha Hm]; cbn -[i64 wrap]; [done|].
  cbn in Hm. pose proof (traffic_nonneg es). destruct m as [A N T]. unfold update. cbn -[i64 wrap].
  rewrite (wrap_small 64) by (split; lia). cbn in Hm.
  rewrite (i64_small (N + amount)) by lia. rewrite (i64_small (N + amount + _)) by lia.
  rewrite (i64_small (N + amount + _ - _)) by lia. rewrite (i64_small (A + _)) by lia.
  rewrite (i64_small (amount + reserve)) by lia.
  assert (∀ (b1 : list wait_event) x b2, [] = b1 ++ x :: b2 → False) as Hnil by (intros [] x b2; discriminate).
  unfold charged, request_fits. cbn.
  destruct (Z.leb_spec (amount + reserve) (A + dAvailable e)) as [Hfit|Hfit].
  { intros [= <- <-]. exists [], e, es. rewrite i64_small by lia. cbn. rewrite decide_True by done.
    split_and!; [done|f_equal; lia|intros b1 x b2 Hb; by destruct (Hnil _ _ _ Hb)|left; split; [done|lia]]. }
  destruct (killed e) eqn:Hk.
  { intros [= <- <-]. exists [], e, es. cbn. rewrite decide_False by done.
    split_and!; [done|f_equal; lia|intros b1 x b2 Hb; by destruct (Hnil _ _ _ Hb)|right].
    split_and!; [done|lia|by left]. }
  destruct (Z.ltb_spec (now e) timeout).
  - intros Hl. destruct (IH (mkMemory (A + dAvailable e) (N + amount + dNeeded e - amount) T))
      as (before & e' & rest & -> & -> & Hb & Hlast); [|exact Hl|].
    { split; [done|]. cbn. lia. }
    exists (e :: before), e', rest. unfold charged, request_fits in *. cbn in *. split_and!.
    + done.
    + f_equal; lia.
    + intros [|y b1] x b2 Heq; injection Heq as -> Heq; cbn; [split_and!; [lia|done|lia]|].
      destruct (Hb b1 x b2 Heq) as (Hf & ? & ?). split_and!; [lia|done|done].
    + destruct Hlast as [[-> ?]|(-> & ? & ?)]; [left|right]; (split; [done|]); [lia|split; [lia|done]].
  - intros [= <- <-]. exists [], e, es. cbn. rewrite decide_False by done.
    split_and!; [done|f_equal; lia|intros b1 x b2 Hb; by destruct (Hnil _ _ _ Hb)|right].
    split_and!; [done|lia|by right].
Qed.

Lemma reserve_memory_loop_ends amount reserve timeout es m :
  Exists (fun e => timeout <= now e) es →
  ∃ r, reserve_memory_loop amount reserve timeout es m = Ret r.
Proof.
  intros Hex. revert m. induction Hex as [e es He|e es _ IH]; intros m; cbn -[i64 wrap].
  - repeat case_match; eauto. breflect. lia.
  - repeat case_match; eauto.
Qed.

Lemma kMemoryReserve_bound p : 0 <= kMemoryReserveForPriority p < 2 ^ 61.
Proof. destruct p; vm_compute; split; congruence. Qed.

Lemma reserve_outcome_prefix amount reserve timeout deadline es m st used :
  reserve_outcome amount reserve timeout deadline es m st used → used `prefix_of` es.
Proof.
  intros [| | |before e rest ? _ _ _ -> _ _]; try apply prefix_nil.
  exists rest. by rewrite <- app_assoc.
Qed.

Lemma vm_try_reserve_memory_ok (infinite start amount : Z) (priority : gfp_prio) (timeout : Z)
    (es : list wait_event) (m : memory)
    (Hrange : in_range amount es m) (Htotal : 0 <= sTotalMemory m < 2 ^ 59)
    (Hdeadline : Exists (fun e => (if timeout =? infinite then infinite else timeout + start) <= now e) es) :
  ∃ st used, vm_try_reserve_memory infinite start amount priority timeout es m =
      Ret (st, charged amount used m st) ∧
    reserve_outcome amount (kMemoryReserveForPriority priority) timeout
      (if timeout =? infinite then infinite else timeout + start) es m st used.
Proof.
  pose proof (kMemoryReserve_bound priority) as Hr. pose proof Hrange as [Ha Hm].
  pose proof (traffic_nonneg es). unfold vm_try_reserve_memory.
  set (reserve := kMemoryReserveForPriority priority) in *.
  rewrite (Z.add_comm reserve amount). rewrite (i64_small (_ * 9)) by lia.
  rewrite Z.quot_div_nonneg by lia.
  assert (0 <= sTotalMemory m * 9 / 10 < 2 ^ 64) as Ht by zlia.
  rewrite (wrap_small 64 (_ / _)), (wrap_small 64 (amount + reserve)) by (split; lia).
  rewrite (i64_small (amount + reserve)) by lia.
  assert (∀ st, st ≠ Ok → charged amount [] m st = m) as Hsame.
  { intros st Hst. destruct m. unfold charged. cbn. rewrite decide_False by done. f_equal; lia. }
  destruct (Z.leb_spec (sTotalMemory m * 9 / 10) (amount + reserve)) as [Htot|Htot].
  { exists (Err ENOMEM), []. rewrite Hsame by done. split; [done|]. by apply ro_refused. }
  destruct (Z.leb_spec (amount + reserve) (sAvailableMemory m)) as [Hav|Hav].
  { exists Ok, []. split; [|apply ro_at_once; unfold request_fits; cbn; lia].
    destruct m. unfold charged, update. cbn in *. rewrite i64_small by lia. repeat f_equal; lia. }
  assert (¬ request_fits amount reserve m []) as Hnf by (unfold request_fits; cbn; lia).
  destruct (Z.leb_spec timeout 0) as [Hto|Hto].
  { exists (Err ENOMEM), []. rewrite Hsame by done. split; [done|]. by apply ro_no_wait. }
  replace (timeout <? 0) with false by (symmetry; apply Z.ltb_ge; lia). rewrite orb_false_r.
  destruct (reserve_memory_loop_ends amount reserve _ es m Hdeadline) as [[st m'] He].
  destruct (reserve_memory_loop_ok _ _ _ _ _ _ _ Hr Hrange He) as (before & e & rest & Hes & -> & Hb & Hl).
  exists st, (before ++ [e]). split; [exact He|]. by eapply ro_waited.
Qed.

(** C33: vm_try_reserve_memory of a request below 2^61 bytes, with the
    memory counters, and what other threads do to them while it waits, below
    2^61 (a request near 2^64 is granted by wrap-around, see the findings),
    and some event behind the deadline: it returns, and its answer is
    exactly this. With -ENOMEM and no change for 90% of the total memory or
    more; with success at once, charging exactly the amount, if the request
    and the reserve of its priority fit the available memory; with -ENOMEM
    at once if they do not and the timeout is not positive; otherwise at the
    first wake-up at which they fit with success, charging the amount, or at
    which the thread is killed or the deadline has passed with -ENOMEM and
    no net change. *)
Theorem try_reserve_memory_correct (infinite start amount : Z) (priority : gfp_prio) (timeout : Z)
    (es : list wait_event) (m : memory)
    (Hrange : in_range amount es m) (Htotal : 0 <= sTotalMemory m < 2 ^ 59)
    (Hdeadline : Exists (fun e => (if timeout =? infinite then infinite else timeout + start) <= now e) es) :
  ∃ st used, vm_try_reserve_memory infinite start amount priority timeout es m =
      Ret (st, charged amount used m st) ∧
    reserve_outcome amount (kMemoryReserveForPriority priority) timeout
      (if timeout =? infinite then infinite else timeout + start) es m st used.
Proof. by apply vm_try_reserve_memory_ok. Qed.

Lemma try_reserve_memory_correct_witness :
  ∃ used, vm_try_reserve_memory (2 ^ 62) 100 65536 GFP_PRIO_USER 1000
      [mkWait 4096 0 false 500; mkWait 400000 0 false 2000] (mkMemory 4096 0 (2 ^ 30)) =
    Ret (Ok, charged 65536 used (mkMemory 4096 0 (2 ^ 30)) Ok) ∧
    reserve_outcome 65536 262144 1000 1100 [mkWait 4096 0 false 500; mkWait 400000 0 false 2000]
      (mkMemory 4096 0 (2 ^ 30)) Ok used.
Proof.
  destruct (try_reserve_memory_correct (2 ^ 62) 100 65536 GFP_PRIO_USER 1000
    [mkWait 4096 0 false 500; mkWait 400000 0 false 2000] (mkMemory 4096 0 (2 ^ 30)))
    as (st & used & He & Hres).
  - vm_compute. repeat split; discriminate.
  - vm_compute. split; [discriminate|reflexivity].
  - right. left. vm_compute. discriminate.
  - assert (st = Ok) as -> by (pose proof He as E; vm_compute in E; injection E as <-; reflexivity).
    exists used. split; [exact He|exact Hres].
Defined.

(** A request whose sum with the reserve of its priority exceeds 64
    bits passes both checks of vm_try_reserve_memory and is granted, and the
    available memory grows by the wrapped difference. *)
Lemma huge_request_granted :
  let m := mkMemory (2 ^ 20) 0 (2 ^ 30) in
  vm_try_reserve_memory (2 ^ 62) 0 (2 ^ 64 - 4096) GFP_PRIO_USER 0 [] m =
    Ret (Ok, m <| sAvailableMemory := 2 ^ 20 + 4096 |>).
Proof. vm_compute. reflexivity. Qed.

(** ** The out-of-memory budget of a task *)

Section budget.
Context (default interval maxc : Z).

Definition oom_ok (d : task_oom_data) : Prop := 0 <= memory_wait_limit d <= default.

(** One thread running out of memory again and again: it begins at time
    [start] and waits for [taken], at most as long as it was told to. *)
Fixpoint oom_rounds (rs : list (Z * Z)) (d : task_oom_data) : option task_oom_data :=
  match rs with
  | [] => Some d
  | (start, taken) :: rs =>
      let '(timeout, d) := BeginOOM default interval maxc start d in
      if (0 <=? taken) && (taken <=? timeout) then oom_rounds rs (EndOOM taken d) else None
  end.

Fixpoint time_waited (rs : list (Z * Z)) : Z :=
  match rs with [] => 0 | r :: rs => r.2 + time_waited rs end.

(** No thread of the task waits and the interval began at [first_oom]. *)
Lemma oom_rounds_budget rs d d' :
  oom_rounds rs d = Some d' → oom_thread_count d = 0 → oom_ok d →
  Forall (fun r => r.1 - first_oom d < interval) rs →
  memory_wait_limit d' = memory_wait_limit d - time_waited rs ∧ 0 <= memory_wait_limit d' ∧
  oom_thread_count d' = 0.
Proof.
  revert d. induction rs as [|[start taken] rs IH]; intros d; cbn.
  { intros [= ->] ? [? ?] _. split_and!; lia. }
  intros Hr Hc Hok Hall. apply Forall_cons_iff in Hall as [Hs Hall]. cbn in Hs.
  destruct d as [lim fo cnt th tm]. cbn in *. unfold oom_ok, BeginOOM, update in Hr, Hok. cbn in Hr, Hok. subst th.
  change (0 + 1 =? 1) with true in Hr. cbn in Hr.
  replace (interval <=? start - fo) with false in Hr by (symmetry; apply Z.leb_gt; lia).
  assert (∀ c, ∃ lim', EndOOM taken (mkOOM lim fo c (0 + 1) 0) = mkOOM lim' fo c 0 (Z.max 0 taken) ∧
    (0 <= taken <= lim → lim' = lim - taken)) as Hend.
  { intros c. unfold EndOOM, update. cbn. destruct (Z.ltb_spec lim (Z.max 0 taken)); eexists; (split; [done|]); lia. }
  destruct (maxc <=? cnt); cbn in Hr.
  - destruct ((0 <=? taken) && (taken <=? 0)) eqn:E; [|done]. breflect.
    destruct (Hend cnt) as (lim' & He & Hl). rewrite He in Hr. apply IH in Hr; unfold oom_ok in *; cbn in *; auto; lia.
  - destruct ((0 <=? taken) && (taken <=? lim)) eqn:E; [|done]. breflect.
    destruct (Hend (cnt + 1)) as (lim' & He & Hl). rewrite He in Hr. apply IH in Hr; unfold oom_ok in *; cbn in *; auto; lia.
Qed.
End budget.

(** The waiting time a task is granted by BeginOOM within one reset
    interval is bounded: over consecutive BeginOOM/EndOOM rounds that each
    wait at most what BeginOOM allowed, the total time waited is at most
    default_oom_time, and the remaining budget is exactly the difference. *)
Lemma oom_wait_bounded (default interval maxc now0 taken0 : Z) (rs : list (Z * Z)) (d d' : task_oom_data)
    (Hd : 0 <= default) (Hidle : oom_thread_count d = 0) (Hlong : interval <= now0 - first_oom d)
    (Hrun : oom_rounds default interval maxc ((now0, taken0) :: rs) d = Some d')
    (Hin : Forall (fun r => r.1 - now0 < interval) rs) :
  time_waited ((now0, taken0) :: rs) <= default ∧
  memory_wait_limit d' = default - time_waited ((now0, taken0) :: rs) ∧ oom_thread_count d' = 0.
Proof.
  cbn in Hrun. destruct d as [lim fo cnt th tm]. cbn in *. subst th.
  unfold BeginOOM, update in Hrun. cbn in Hrun. change (0 + 1 =? 1) with true in Hrun. cbn in Hrun.
  replace (interval <=? now0 - fo) with true in Hrun by (symmetry; apply Z.leb_le; lia). cbn in Hrun.
  destruct ((0 <=? taken0) && (taken0 <=? default)) eqn:E; [|done]. breflect.
  assert (EndOOM taken0 (mkOOM default now0 1 (0 + 1) 0) = mkOOM (default - taken0) now0 1 0 (Z.max 0 taken0)) as He.
  { unfold EndOOM, update. cbn. destruct (Z.ltb_spec default (Z.max 0 taken0)); [lia|]. do 2 f_equal. lia. }
  rewrite He in Hrun.
  apply (oom_rounds_budget default interval maxc) in Hrun; cbn; auto; [|unfold oom_ok; cbn; lia].
  destruct Hrun as (Hl & Hnn & Hc). cbn in Hl. split_and!; [lia|lia|done].
Qed.

Lemma oom_wait_bounded_witness :
  ∃ d', oom_rounds 50 1000 3 [(5000, 20); (5100, 25); (5200, 5); (5300, 0)] (mkOOM 50 0 0 0 0) = Some d' ∧
    time_waited [(5000, 20); (5100, 25); (5200, 5); (5300, 0)] <= 50.
Proof.
  eexists. split; [vm_compute; reflexivity|].
  edestruct (fun d' => oom_wait_bounded 50 1000 3 5000 20 [(5100, 25); (5200, 5); (5300, 0)] (mkOOM 50 0 0 0 0) d')
    as [Hb _]; [lia|reflexivity|vm_compute; discriminate|vm_compute; reflexivity| |exact Hb].
  repeat constructor.
Defined.
