(* ===== verification/Depot.v ===== *)
(** slab/mm_depot.cpp: the per-CPU magazine layer of the object caches.

    A magazine owns [current_round] objects, kept as the list [rounds] (the
    top of the magazine last).  Magazines are owned by exactly one list or
    store, so they are values here.  A call runs with interrupts off on one
    CPU; [object_depot_store] gives the CPU up to allocate or free a magazine
    and may continue on another one, so it takes the CPUs it finds itself on
    as an argument, and the results of [slab_internal_alloc] as another. *)
From S2P Require Import Prelude.
From stdpp Require Import base list list_numbers numbers gmap.
From Stdlib Require Import ZArith Lia.
Local Open Scope Z_scope.

Record DepotMagazine := mkMagazine { round_count : Z; rounds : list Z }.
#[export] Instance eta_DepotMagazine : Eta DepotMagazine := fun m =>
  mkMagazine (round_count m) (rounds m).

Definition current_round (m : DepotMagazine) : Z := Z.of_nat (length (rounds m)).

Record depot_cpu_store := mkStore {
  loaded : option DepotMagazine;
  previous : option DepotMagazine
}.
#[export] Instance eta_depot_cpu_store : Eta depot_cpu_store := fun s =>
  mkStore (loaded s) (previous s).

Record object_depot := mkDepot {
  full : list DepotMagazine;
  empty : list DepotMagazine;
  full_count : Z;
  empty_count : Z;
  max_count : Z;
  magazine_capacity : Z;
  stores : list depot_cpu_store
}.
#[export] Instance eta_object_depot : Eta object_depot := fun d =>
  mkDepot (full d) (empty d) (full_count d) (empty_count d) (max_count d)
    (magazine_capacity d) (stores d).

(** ** Magazines *)

Definition IsEmpty (m : DepotMagazine) : bool := current_round m =? 0.
Definition IsFull (m : DepotMagazine) : bool := current_round m =? round_count m.

(** [rounds[--current_round]]. *)
Definition Pop (m : DepotMagazine) : outcome (Z * DepotMagazine) :=
  match reverse (rounds m) with
  | [] => Panic
  | o :: r => Ret (o, m <| rounds := reverse r |>)
  end.

Definition Push (object : Z) (m : DepotMagazine) : option DepotMagazine :=
  if IsFull m then None else Some (m <| rounds ::= fun l => l ++ [object] |>).

Definition alloc_magazine (d : object_depot) : DepotMagazine :=
  mkMagazine (u16 (magazine_capacity d)) [].

(** The objects [empty_magazine] hands to [return_object]. *)
Definition empty_magazine (m : DepotMagazine) : list Z := rounds m.

(** ** The depot's lists *)

Definition exchange_with_full (magazine : DepotMagazine) (d : object_depot)
  : outcome (bool * DepotMagazine * object_depot) :=
  _ ← assert (IsEmpty magazine);
  match full d with
  | [] => Ret (false, magazine, d)
  | m :: rest =>
      Ret (true, m, d <| full_count ::= fun n => u64 (n - 1) |>
                      <| empty_count ::= fun n => u64 (n + 1) |>
                      <| empty ::= cons magazine |> <| full := rest |>)
  end.

(** The results: success, the new magazine, and the magazine to free. *)
Definition exchange_with_empty (magazine : option DepotMagazine) (d : object_depot)
  : outcome (bool * option DepotMagazine * option DepotMagazine * object_depot) :=
  _ ← assert (match magazine with None => true | Some m => IsFull m end);
  match empty d with
  | [] => Ret (false, magazine, None, d)
  | e :: rest =>
      let d := d <| empty_count ::= fun n => u64 (n - 1) |> in
      let '(freeMagazine, d) :=
        match magazine with
        | None => (None, d)
        | Some m =>
            if full_count d <? max_count d then
              (None, d <| full ::= cons m |> <| full_count ::= fun n => u64 (n + 1) |>)
            else (Some m, d)
        end in
      Ret (true, Some e, freeMagazine, d <| empty := rest |>)
  end.

Definition push_empty_magazine (magazine : DepotMagazine) (d : object_depot) : object_depot :=
  d <| empty ::= cons magazine |> <| empty_count ::= fun n => u64 (n + 1) |>.

(** ** Public operations *)

Definition object_depot_init (cpuCount : nat) (capacity maxCount : Z) : object_depot :=
  mkDepot [] [] 0 0 maxCount capacity (replicate cpuCount (mkStore None None)).

Definition set_store (cpu : nat) (s : depot_cpu_store) (d : object_depot) : object_depot :=
  d <| stores ::= <[cpu := s]> |>.

(** The loop of [object_depot_obtain] on the store [s] of [cpu]. *)
Fixpoint obtain_loop (fuel : nat) (cpu : nat) (d : object_depot) : outcome (option Z * object_depot) :=
  match fuel with
  | O => NoFuel
  | S fuel =>
      s ← deref (stores d !! cpu);
      l ← deref (loaded s);
      if negb (IsEmpty l) then
        '(o, l) ← Pop l;
        Ret (Some o, set_store cpu (s <| loaded := Some l |>) d)
      else
        match previous s with
        | None => Ret (None, d)
        | Some p =>
            '(ok, p, d) ← (if IsFull p then Ret (true, p, d) else exchange_with_full p d);
            if (ok : bool) then obtain_loop fuel cpu (set_store cpu (mkStore (Some p) (Some l)) d)
            else Ret (None, d)
        end
  end.

Definition object_depot_obtain (fuel : nat) (cpu : nat) (d : object_depot)
  : outcome (option Z * object_depot) :=
  s ← deref (stores d !! cpu);
  match loaded s with
  | None => Ret (None, d)
  | Some _ => obtain_loop fuel cpu d
  end.

(** The loop of [object_depot_store].  [cpus] are the CPUs it continues on and
    [allocs] whether the allocations of magazines succeed; the list in the
    result holds the objects handed to [return_object]. *)
Fixpoint store_loop (fuel : nat) (cpus : list nat) (allocs : list bool) (cpu : nat) (object : Z)
    (d : object_depot) : outcome (list Z * object_depot) :=
  match fuel with
  | O => NoFuel
  | S fuel =>
      s ← deref (stores d !! cpu);
      match loaded s ≫= Push object with
      | Some l => Ret ([], set_store cpu (s <| loaded := Some l |>) d)
      | None =>
          '(ok, p, freeMagazine, d) ←
            (if match previous s with Some p => IsEmpty p | None => false end
             then Ret (true, previous s, None, d) else exchange_with_empty (previous s) d);
          if (ok : bool) then
            let d := set_store cpu (mkStore p (loaded s)) d in
            match freeMagazine with
            | None => store_loop fuel cpus allocs cpu object d
            | Some m =>
                '(ret, d) ← store_loop fuel (tail cpus) allocs (default cpu (head cpus)) object d;
                Ret (empty_magazine m ++ ret, d)
            end
          else
            match head allocs with
            | Some false => Ret ([object], d)
            | _ => store_loop fuel (tail cpus) (tail allocs) (default cpu (head cpus)) object
                     (push_empty_magazine (alloc_magazine d) d)
            end
      end
  end.

Definition object_depot_store (fuel : nat) (cpus : list nat) (allocs : list bool) (cpu : nat)
    (object : Z) (d : object_depot) : outcome (list Z * object_depot) :=
  store_loop fuel cpus allocs cpu object d.

(** Collecting the magazines of the stores, in the order they are emptied. *)
Fixpoint collect_stores (ss : list depot_cpu_store) (acc : list DepotMagazine)
  : list DepotMagazine :=
  match ss with
  | [] => acc
  | s :: ss =>
      let acc := match loaded s with Some m => m :: acc | None => acc end in
      let acc := match previous s with Some m => m :: acc | None => acc end in
      collect_stores ss acc
  end.

Definition object_depot_make_empty (d : object_depot) : list Z * object_depot :=
  let storeMagazines := collect_stores (stores d) [] in
  let fullMagazines := full d in
  (concat (empty_magazine <$> storeMagazines) ++ concat (empty_magazine <$> fullMagazines),
   d <| stores ::= fmap (fun _ => mkStore None None) |> <| full := [] |> <| empty := [] |>).

Definition object_depot_destroy (d : object_depot) : list Z * object_depot :=
  let '(ret, d) := object_depot_make_empty d in (ret, d <| stores := [] |>).

(** ** Invariant *)

Definition mag_ok (cap : Z) (m : DepotMagazine) : Prop :=
  round_count m = cap ∧ current_round m <= cap.

(** The previous magazine of a store is either empty or full. *)
Definition store_ok (cap : Z) (s : depot_cpu_store) : Prop :=
  (∀ m, loaded s = Some m → mag_ok cap m) ∧
  (∀ m, previous s = Some m → mag_ok cap m ∧ (IsEmpty m = true ∨ IsFull m = true)).

Definition cap_of (d : object_depot) : Z := u16 (magazine_capacity d).

Definition depot_ok (d : object_depot) : Prop :=
  Forall (fun m => mag_ok (cap_of d) m ∧ IsFull m = true) (full d) ∧
  Forall (fun m => mag_ok (cap_of d) m ∧ IsEmpty m = true) (empty d) ∧
  Forall (store_ok (cap_of d)) (stores d).

Definition counts_ok (d : object_depot) : Prop :=
  full_count d = u64 (Z.of_nat (length (full d))) ∧
  empty_count d = u64 (Z.of_nat (length (empty d))) ∧
  Z.of_nat (length (full d)) <= max_count d < 2 ^ 64.

(** The objects of the depot. *)
Definition opt_rounds (m : option DepotMagazine) : list Z :=
  match m with Some m => rounds m | None => [] end.

Definition store_objects (s : depot_cpu_store) : list Z :=
  opt_rounds (loaded s) ++ opt_rounds (previous s).

Definition depot_objects (d : object_depot) : list Z :=
  concat (store_objects <$> stores d) ++ concat (rounds <$> full d) ++ concat (rounds <$> empty d).

(** Occurrences of an object. *)
Definition occ (o : Z) (l : list Z) : Z := Z.of_nat (count_occ Z.eq_dec l o).

Lemma occ_nil o : occ o [] = 0.
Proof. done. Qed.
Lemma occ_cons o x l : occ o (x :: l) = occ o [x] + occ o l.
Proof. unfold occ. cbn. repeat case_match; lia. Qed.
Lemma occ_app o l1 l2 : occ o (l1 ++ l2) = occ o l1 + occ o l2.
Proof. unfold occ. rewrite count_occ_app. lia. Qed.
Lemma occ_reverse o l : occ o (reverse l) = occ o l.
Proof.
  unfold occ. f_equal. apply Permutation_count_occ. apply reverse_Permutation.
Qed.
Lemma occ_Permutation l1 l2 : (∀ o, occ o l1 = occ o l2) → l1 ≡ₚ l2.
Proof. intros H. apply (Permutation_count_occ Z.eq_dec). intros o. apply Nat2Z.inj, H. Qed.

Create Rewrite HintDb occ.
#[export] Hint Rewrite occ_nil occ_app occ_reverse : occ.

Lemma occ_concat_insert (f : depot_cpu_store → list Z) o ss cpu s s' :
  ss !! cpu = Some s →
  occ o (concat (f <$> <[cpu := s']> ss)) = occ o (concat (f <$> ss)) - occ o (f s) + occ o (f s').
Proof.
  revert cpu. induction ss as [|x ss IH]; intros [|cpu]; cbn; [done..| |].
  - intros [= ->]. rewrite !occ_app. lia.
  - intros Hs. rewrite !occ_app. rewrite IH by done. lia.
Qed.

Lemma occ_set_store o cpu s s' d :
  stores d !! cpu = Some s →
  occ o (depot_objects (set_store cpu s' d)) =
    occ o (depot_objects d) - occ o (store_objects s) + occ o (store_objects s').
Proof.
  intros Hs. unfold depot_objects, set_store, update. cbn. rewrite !occ_app.
  rewrite (occ_concat_insert _ _ _ _ s) by done. lia.
Qed.

Lemma empty_rounds m : IsEmpty m = true → rounds m = [].
Proof.
  unfold IsEmpty, current_round. intros H%Z.eqb_eq. destruct (rounds m); [done|]. cbn in H. lia.
Qed.

Lemma depot_ok_store d cpu s : depot_ok d → stores d !! cpu = Some s → store_ok (cap_of d) s.
Proof. intros (_ & _ & Hs) Hl. by eapply Forall_lookup_1. Qed.

Lemma depot_ok_set_store d cpu s : depot_ok d → store_ok (cap_of d) s → depot_ok (set_store cpu s d).
Proof.
  intros (Hf & He & Hs) Hok. split_and!; [done..|]. unfold set_store, update. cbn.
  by apply Forall_insert.
Qed.

Lemma Pop_ok m : IsEmpty m = false →
  ∃ x m', Pop m = Ret (x, m') ∧ round_count m' = round_count m ∧
    current_round m' = current_round m - 1 ∧ ∀ o, occ o (rounds m) = occ o [x] + occ o (rounds m').
Proof.
  intros Hne. unfold Pop. destruct (reverse (rounds m)) as [|x r] eqn:E.
  - apply (f_equal reverse) in E. rewrite reverse_involutive in E. unfold IsEmpty, current_round in Hne.
    rewrite E in Hne. done.
  - do 2 eexists. split; [done|]. apply (f_equal reverse) in E. rewrite reverse_involutive in E.
    unfold current_round, update. cbn. rewrite E. split_and!; [done| |].
    + rewrite !length_reverse. cbn. lia.
    + intros o. rewrite occ_reverse, occ_cons, occ_reverse. done.
Qed.

Lemma Push_ok cap object m m' : mag_ok cap m → Push object m = Some m' →
  mag_ok cap m' ∧ ∀ o, occ o (rounds m') = occ o (rounds m) + occ o [object].
Proof.
  unfold Push, IsFull. intros [Hr Hc]. case_match eqn:E; [done|]. intros [= <-]. breflect.
  unfold mag_ok, current_round, update in *. cbn. rewrite length_app. cbn. split; [lia|].
  intros o. by rewrite occ_app.
Qed.

Lemma Push_full object m : Push object m = None ↔ IsFull m = true.
Proof. unfold Push. by case_match. Qed.

(** ** Conservation, per operation on the lists *)

Definition same_config (d d' : object_depot) : Prop :=
  magazine_capacity d' = magazine_capacity d ∧ max_count d' = max_count d ∧ stores d' = stores d.

Lemma exchange_with_full_ok m d :
  depot_ok d → mag_ok (cap_of d) m → IsEmpty m = true →
  ∃ ok m' d', exchange_with_full m d = Ret (ok, m', d') ∧ depot_ok d' ∧ same_config d d' ∧
    (counts_ok d → counts_ok d') ∧
    (∀ o, occ o (depot_objects d') + occ o (rounds m') = occ o (depot_objects d) + occ o (rounds m)) ∧
    (if ok then mag_ok (cap_of d) m' ∧ IsFull m' = true else m' = m ∧ d' = d ∧ full d = []).
Proof.
  intros (Hf & He & Hs) Hm Hem. unfold exchange_with_full. rewrite Hem. cbn [assert mbind outcome_bind].
  destruct d as [fu em fc ec mx cap ss]. unfold update. cbn in *. destruct fu as [|f fu].
  { exists false, m. eexists. split; [done|]. split_and!; auto; try done. }
  apply Forall_cons in Hf as [Hf1 Hf]. do 3 eexists. split; [done|]. split_and!; try done.
  - split_and!; cbn; [done|by constructor|done].
  - intros (H1 & H2 & H3). unfold counts_ok in *. cbn in *. subst. split_and!; mlia.
  - intros o. unfold depot_objects. cbn. rewrite !occ_app. lia.
  - apply Hf1.
  - apply Hf1.
Qed.

Lemma exchange_with_empty_ok p d :
  depot_ok d → (∀ m, p = Some m → mag_ok (cap_of d) m ∧ IsFull m = true) →
  ∃ ok p' fm d', exchange_with_empty p d = Ret (ok, p', fm, d') ∧ depot_ok d' ∧ same_config d d' ∧
    (counts_ok d → counts_ok d') ∧
    (∀ o, occ o (depot_objects d') + occ o (opt_rounds p') + occ o (opt_rounds fm) =
          occ o (depot_objects d) + occ o (opt_rounds p)) ∧
    (if ok then ∃ m', p' = Some m' ∧ mag_ok (cap_of d) m' ∧ IsEmpty m' = true
     else p' = p ∧ fm = None ∧ d' = d ∧ empty d = []).
Proof.
  intros (Hf & He & Hs) Hp. unfold exchange_with_empty.
  assert (match p with None => true | Some m => IsFull m end = true) as ->
    by (destruct p as [m|]; [by destruct (Hp m)|done]).
  cbn [assert mbind outcome_bind]. destruct d as [fu em fc ec mx cap ss]. unfold update. cbn in *.
  destruct em as [|e em].
  { exists false, p, None. eexists. split; [done|]. split_and!; auto; try done.
    intros o. cbn. autorewrite with occ. lia. }
  apply Forall_cons in He as [[He1 He1'] He].
  destruct p as [m|]; [destruct (fc <? mx) eqn:E|]; cbn.
  all: do 4 eexists; (split; [done|]); split_and!; try done; eauto.
  all: try (split_and!; [constructor; [by apply Hp|done]|done|done]).
  all: try (intros o; unfold depot_objects; cbn; rewrite ?occ_app, ?occ_nil; lia).
  all: intros (H1 & H2 & H3); unfold counts_ok in *; cbn in *; subst; breflect; split_and!; mlia.
Qed.

(** ** [object_depot_obtain] *)

Lemma obtain_loop_pop fuel cpu s l d :
  depot_ok d → stores d !! cpu = Some s → loaded s = Some l → IsEmpty l = false →
  ∃ x d', obtain_loop (S fuel) cpu d = Ret (Some x, d') ∧ depot_ok d' ∧ (counts_ok d → counts_ok d') ∧
    ∀ o, occ o (depot_objects d) = occ o [x] + occ o (depot_objects d').
Proof.
  intros Hok Hs Hl Hne. cbn. rewrite Hs. cbn. rewrite Hl. cbn. rewrite Hne. cbn.
  destruct (Pop_ok l Hne) as (x & l' & -> & Hrc & Hcr & Hocc). cbn.
  destruct (depot_ok_store d cpu s Hok Hs) as [Hlok Hpok].
  exists x. eexists. split; [done|]. split_and!; [|by destruct d|].
  - apply depot_ok_set_store; [done|]. split; [|exact Hpok]. intros m [= <-].
    destruct (Hlok l Hl). unfold mag_ok in *. rewrite Hrc, Hcr. lia.
  - intros o. rewrite (occ_set_store o cpu s) by done. unfold store_objects, update. rewrite Hl. cbn.
    rewrite !occ_app, Hocc. lia.
Qed.

Lemma full_not_empty cap m : 0 < cap → mag_ok cap m → IsFull m = true → IsEmpty m = false.
Proof. unfold mag_ok, IsFull, IsEmpty. intros ? [? ?] ?. breflect. apply Z.eqb_neq. lia. Qed.

Lemma obtain_ok cpu s d :
  depot_ok d → stores d !! cpu = Some s → 0 < cap_of d →
  ∃ r d', object_depot_obtain 2 cpu d = Ret (r, d') ∧ depot_ok d' ∧ (counts_ok d → counts_ok d') ∧
    match r with
    | Some x => ∀ o, occ o (depot_objects d) = occ o [x] + occ o (depot_objects d')
    | None => d' = d ∧ (loaded s = None ∨ store_objects s = [] ∧ (previous s = None ∨ full d = []))
    end.
Proof.
  intros Hok Hs Hcap. unfold object_depot_obtain. rewrite Hs. cbn [deref mbind outcome_bind].
  destruct (loaded s) as [l|] eqn:Hl; [|by exists None, d; auto 10].
  destruct (IsEmpty l) eqn:Hel.
  2: { destruct (obtain_loop_pop 1 cpu s l d) as (x & d' & He & H1 & H2 & H3); auto.
       exists (Some x), d'. auto. }
  destruct (depot_ok_store d cpu s Hok Hs) as [Hlok Hpok].
  assert (∀ p d1, depot_ok d1 → same_config d d1 → (counts_ok d → counts_ok d1) →
    mag_ok (cap_of d) p → IsFull p = true →
    (∀ o, occ o (depot_objects d1) + occ o (rounds p) = occ o (depot_objects d) + occ o (opt_rounds (previous s))) →
    ∃ x d', obtain_loop 1 cpu (set_store cpu (mkStore (Some p) (Some l)) d1) = Ret (Some x, d') ∧
      depot_ok d' ∧ (counts_ok d → counts_ok d') ∧
      ∀ o, occ o (depot_objects d) = occ o [x] + occ o (depot_objects d')) as Hnext.
  { intros p d1 Hok1 (Hc & Hm & Hss) Hcnt Hp Hfp Hocc.
    assert (cap_of d1 = cap_of d) as Hcap1 by (unfold cap_of; by rewrite Hc).
    assert (stores d1 !! cpu = Some s) as Hs1 by (by rewrite Hss).
    destruct (obtain_loop_pop 0 cpu (mkStore (Some p) (Some l)) p (set_store cpu (mkStore (Some p) (Some l)) d1))
      as (x & d' & He & H1 & H2 & H3); auto.
    - apply depot_ok_set_store; [done|]. rewrite Hcap1. split; intros m [= <-]; auto.
    - cbn. unfold update. cbn. apply list_lookup_insert_eq. by eapply lookup_lt_Some.
    - by eapply full_not_empty.
    - exists x, d'. split_and!; auto. intros o. specialize (H3 o). specialize (Hocc o).
      rewrite (occ_set_store o cpu s) in H3 by done. unfold store_objects in H3. rewrite Hl in H3. cbn in H3.
      rewrite !occ_app in H3. lia. }
  cbn [obtain_loop]. rewrite Hs. cbn [deref mbind outcome_bind]. rewrite Hl. cbn [deref mbind outcome_bind].
  rewrite Hel. cbn [negb]. destruct (previous s) as [p|] eqn:Hp.
  2: { exists None, d. split_and!; auto. right. unfold store_objects. rewrite Hl, Hp. cbn.
       rewrite (empty_rounds l Hel). auto. }
  destruct (Hpok p eq_refl) as [Hpm Hpe]. destruct (IsFull p) eqn:Hfp; cbn [mbind outcome_bind].
  { destruct (Hnext p d) as (x & d' & He & H1 & H2 & H3); auto; [by split_and!|]. exists (Some x), d'. auto. }
  destruct Hpe as [Hpe|]; [|done].
  destruct (exchange_with_full_ok p d Hok Hpm Hpe) as (ok & m' & d1 & -> & Hok1 & Hcfg & Hcnt & Hocc & Hres).
  cbn [mbind outcome_bind]. destruct ok.
  - destruct Hres as [Hm' Hf']. destruct (Hnext m' d1) as (x & d' & He & H1 & H2 & H3); auto.
    exists (Some x), d'. auto.
  - destruct Hres as (-> & -> & Hfull). exists None, d. split_and!; auto. right.
    unfold store_objects. rewrite Hl, Hp. cbn. rewrite (empty_rounds l Hel), (empty_rounds p Hpe). auto.
Qed.

(** ** [object_depot_store] *)

(** An iteration that cannot push: the store gets an empty magazine, or the
    depot has none. *)
Lemma store_iteration_ok cpu s object d :
  depot_ok d → stores d !! cpu = Some s → loaded s ≫= Push object = None →
  ∃ ok p fm d1,
    (if match previous s with Some p => IsEmpty p | None => false end
     then Ret (true, previous s, None, d) else exchange_with_empty (previous s) d) = Ret (ok, p, fm, d1) ∧
    if ok then
      let d2 := set_store cpu (mkStore p (loaded s)) d1 in
      depot_ok d2 ∧ magazine_capacity d2 = magazine_capacity d ∧ length (stores d2) = length (stores d) ∧
      (counts_ok d → counts_ok d2) ∧
      (∀ o, occ o (depot_objects d2) + occ o (opt_rounds fm) = occ o (depot_objects d)) ∧
      ∃ m, p = Some m ∧ mag_ok (cap_of d) m ∧ IsEmpty m = true
    else d1 = d ∧ empty d = [].
Proof.
  intros Hok Hs Hpush. destruct (depot_ok_store d cpu s Hok Hs) as [Hlok Hpok].
  assert (∀ m, loaded s = Some m → mag_ok (cap_of d) m ∧ (IsEmpty m = true ∨ IsFull m = true)) as Hl.
  { intros m Hm. split; [auto|]. right. rewrite Hm in Hpush. by apply (Push_full object). }
  assert (∀ p fm d1, depot_ok d1 → same_config d d1 → (counts_ok d → counts_ok d1) →
    (∀ o, occ o (depot_objects d1) + occ o (opt_rounds p) + occ o (opt_rounds fm) =
          occ o (depot_objects d) + occ o (opt_rounds (previous s))) →
    (∃ m, p = Some m ∧ mag_ok (cap_of d) m ∧ IsEmpty m = true) →
    let d2 := set_store cpu (mkStore p (loaded s)) d1 in
    depot_ok d2 ∧ magazine_capacity d2 = magazine_capacity d ∧ length (stores d2) = length (stores d) ∧
    (counts_ok d → counts_ok d2) ∧
    (∀ o, occ o (depot_objects d2) + occ o (opt_rounds fm) = occ o (depot_objects d)) ∧
    ∃ m, p = Some m ∧ mag_ok (cap_of d) m ∧ IsEmpty m = true) as Hfin.
  { intros p fm d1 Hok1 (Hc & Hm & Hss) Hcnt Hocc (m & -> & Hmok & Hme). cbn zeta.
    split_and!; [|done| |exact Hcnt| |eauto].
    - apply depot_ok_set_store; [done|]. unfold cap_of. rewrite Hc. split; [by intros ? [= <-]|exact Hl].
    - cbn. unfold update. cbn. by rewrite length_insert, Hss.
    - intros o. rewrite (occ_set_store o cpu s) by (by rewrite Hss). unfold store_objects. cbn.
      rewrite !occ_app. specialize (Hocc o). cbn in Hocc. lia. }
  destruct (match previous s with Some p => IsEmpty p | None => false end) eqn:Eprev.
  - exists true, (previous s), None, d. split; [done|]. apply Hfin; auto; [by split_and!| |].
    + intros o. cbn. rewrite occ_nil. lia.
    + destruct (previous s) as [p|] eqn:Hp; [|done]. destruct (Hpok p eq_refl). eauto.
  - destruct (exchange_with_empty_ok (previous s) d Hok) as (ok & p & fm & d1 & He & H1 & H2 & H3 & H4 & H5).
    { intros m Hm. rewrite Hm in Eprev. destruct (Hpok m Hm) as [? [?|?]]; [congruence|auto]. }
    exists ok, p, fm, d1. split; [done|]. destruct ok; [apply Hfin; auto|].
    destruct H5 as (-> & -> & -> & ?). auto.
Qed.

Lemma push_empty_magazine_ok d :
  depot_ok d → let d' := push_empty_magazine (alloc_magazine d) d in
  depot_ok d' ∧ (counts_ok d → counts_ok d') ∧ ∀ o, occ o (depot_objects d') = occ o (depot_objects d).
Proof.
  intros (Hf & He & Hs). destruct d as [fu em fc ec mx cap ss]. unfold push_empty_magazine, update. cbn in *.
  split_and!; [split_and!|..]; cbn; try done.
  - constructor; [|done]. split; [|done]. split; [done|].
    unfold current_round, cap_of. cbn. destruct (wrap_fits 16 cap); lia.
  - unfold counts_ok. cbn. intros (-> & -> & ?). split_and!; mlia.
Qed.

Lemma store_loop_ok fuel cpus allocs cpu object d :
  depot_ok d → (cpu < length (stores d))%nat → Forall (fun c => (c < length (stores d))%nat) cpus →
  match store_loop fuel cpus allocs cpu object d with
  | Ret (ret, d') =>
      depot_ok d' ∧ (counts_ok d → counts_ok d') ∧
      ∀ o, occ o (depot_objects d') + occ o ret = occ o (depot_objects d) + occ o [object]
  | NoFuel => True
  | Panic => False
  end.
Proof.
  revert cpus allocs cpu d. induction fuel as [|fuel IH]; [done|].
  intros cpus allocs cpu d Hok Hcpu Hcpus. cbn [store_loop].
  destruct (lookup_lt_is_Some_2 _ _ Hcpu) as [s Hs]. rewrite Hs. cbn [deref mbind outcome_bind].
  assert ((default cpu (head cpus) < length (stores d))%nat ∧
    Forall (fun c => (c < length (stores d))%nat) (tail cpus)) as [Hcpu' Hcpus']
    by (destruct Hcpus; cbn; auto).
  destruct (loaded s ≫= Push object) as [l|] eqn:Epush.
  - destruct (loaded s) as [l0|] eqn:Hl; [|done]. cbn in Epush.
    destruct (depot_ok_store d cpu s Hok Hs) as [Hlok Hpok].
    destruct (Push_ok (cap_of d) object l0 l) as [Hl' Hocc]; [auto..|].
    split_and!; [|by destruct d|].
    + apply depot_ok_set_store; [done|]. split; [by intros m [= <-]|exact Hpok].
    + intros o. rewrite (occ_set_store o cpu s) by done. unfold store_objects, update. rewrite Hl. cbn.
      rewrite !occ_app, Hocc, occ_nil. lia.
  - destruct (store_iteration_ok cpu s object d Hok Hs Epush) as (ok & p & fm & d1 & -> & Hres).
    cbn [mbind outcome_bind]. destruct ok.
    + destruct Hres as (Hok2 & _ & Hlen & Hcnt & Hocc & _). rewrite <- Hlen in *. destruct fm as [m|].
      * specialize (IH (tail cpus) allocs _ _ Hok2 Hcpu' Hcpus'). destruct (store_loop _ _ _ _ _ _) as [[ret d']| |]; try done.
        cbn. destruct IH as (H1 & H2 & H3). split_and!; auto. intros o. rewrite occ_app.
        specialize (Hocc o). specialize (H3 o). unfold empty_magazine, opt_rounds in *. lia.
      * specialize (IH cpus allocs cpu _ Hok2 Hcpu Hcpus). destruct (store_loop _ _ _ _ _ _) as [[ret d']| |]; try done.
        destruct IH as (H1 & H2 & H3). split_and!; auto. intros o. specialize (Hocc o). specialize (H3 o).
        unfold opt_rounds in Hocc. rewrite occ_nil in Hocc. lia.
    + destruct Hres as [-> _]. destruct (push_empty_magazine_ok d Hok) as (Hok3 & Hcnt3 & Hocc3).
      assert (match store_loop fuel (tail cpus) (tail allocs) (default cpu (head cpus)) object
          (push_empty_magazine (alloc_magazine d) d) with
        | Ret (ret, d') => depot_ok d' ∧ (counts_ok d → counts_ok d') ∧
            ∀ o, occ o (depot_objects d') + occ o ret = occ o (depot_objects d) + occ o [object]
        | NoFuel => True | Panic => False end) as Hgo.
      { specialize (IH (tail cpus) (tail allocs) _ _ Hok3 Hcpu' Hcpus').
        destruct (store_loop _ _ _ _ _ _) as [[ret d']| |]; try done. destruct IH as (H1 & H2 & H3).
        split_and!; auto. }
      destruct (head allocs) as [[]|]; auto.
Qed.

Lemma store_loop_more_fuel fuel fuel' cpus allocs cpu object d r :
  store_loop fuel cpus allocs cpu object d = Ret r → (fuel <= fuel')%nat →
  store_loop fuel' cpus allocs cpu object d = Ret r.
Proof.
  revert fuel' cpus allocs cpu d r. induction fuel as [|fuel IH]; [done|].
  intros [|fuel'] cpus allocs cpu d r H Hle; [lia|]. assert (fuel <= fuel')%nat as Hle' by lia.
  cbn [store_loop] in *. destruct (stores d !! cpu) as [s|]; [|done]. cbn [deref mbind outcome_bind] in *.
  destruct (loaded s ≫= Push object); [done|].
  destruct (if match previous s with Some p => IsEmpty p | None => false end then _ else _) as [[[[ok p] fm] d1]| |];
    [|done..]. cbn [mbind outcome_bind] in *.
  destruct ok; [destruct fm|]; [| |destruct (head allocs) as [[]|]]; eauto.
  destruct (store_loop fuel _ _ _ _ _) as [[ret d']| |] eqn:E; [|done..]. by rewrite (IH _ _ _ _ _ _ E Hle').
Qed.

(** On one CPU three rounds are enough. *)
Lemma push_empty cap object m : 0 < cap → mag_ok cap m → IsEmpty m = true → is_Some (Push object m).
Proof.
  unfold Push, IsFull, IsEmpty, mag_ok. intros ? [? ?] ?. breflect. rewrite (proj2 (Z.eqb_neq _ _)); [eauto|lia].
Qed.

Lemma store_loop_two fuel allocs cpu s object d :
  depot_ok d → stores d !! cpu = Some s → 0 < cap_of d →
  (∃ l, loaded s ≫= Push object = Some l) ∨ empty d ≠ [] ∨ (∃ p, previous s = Some p ∧ IsEmpty p = true) →
  ∃ r, store_loop (S (S fuel)) [] allocs cpu object d = Ret r.
Proof.
  intros Hok Hs Hcap Hcase. cbn [store_loop]. rewrite Hs. cbn [deref mbind outcome_bind].
  destruct (loaded s ≫= Push object) as [l|] eqn:Epush; [eauto|].
  destruct (store_iteration_ok cpu s object d Hok Hs Epush) as (ok & p & fm & d1 & He & Hres).
  rewrite He. cbn [mbind outcome_bind]. destruct ok.
  - destruct Hres as (Hok2 & Hc2 & Hlen & _ & _ & m & -> & Hm & Hme). set (d2 := set_store _ _ d1) in *.
    assert (stores d2 !! cpu = Some (mkStore (Some m) (loaded s))) as Hs2.
    { unfold d2, set_store, update. cbn. apply list_lookup_insert_eq. unfold d2, set_store, update in Hlen.
      cbn in Hlen. rewrite length_insert in Hlen. rewrite Hlen. by eapply lookup_lt_Some. }
    destruct (push_empty _ object m Hcap Hm Hme) as [m' Hpm].
    destruct fm as [fm|]; cbn [head tail default]; cbn [store_loop]; rewrite Hs2; cbn [deref mbind outcome_bind];
      cbn; rewrite Hpm; cbn; eauto.
  - destruct Hres as [-> Hemp]. destruct Hcase as [[? ?]|[?|(p' & Hp' & Hpe)]]; [done..|].
    rewrite Hp', Hpe in He. done.
Qed.

Lemma store_terminates allocs cpu d object :
  depot_ok d → (cpu < length (stores d))%nat → 0 < cap_of d →
  ∃ r, object_depot_store 3 [] allocs cpu object d = Ret r.
Proof.
  intros Hok Hcpu Hcap. destruct (lookup_lt_is_Some_2 _ _ Hcpu) as [s Hs]. unfold object_depot_store.
  destruct (loaded s ≫= Push object) as [l|] eqn:Epush; [by eapply store_loop_two; eauto|].
  destruct (store_iteration_ok cpu s object d Hok Hs Epush) as (ok & p & fm & d1 & He & Hres).
  destruct ok.
  - eapply (store_loop_two 1); eauto. right. destruct (empty d) eqn:Eemp; [right|by left].
    destruct (previous s) as [p0|] eqn:Hp0; cbn in He.
    + destruct (IsEmpty p0) eqn:Ep0; [eauto|]. unfold exchange_with_empty in He. rewrite Eemp in He.
      destruct (assert _); done.
    + unfold exchange_with_empty in He. rewrite Eemp in He. done.
  - destruct Hres as [-> Hemp]. destruct (push_empty_magazine_ok d Hok) as (Hok3 & _ & _).
    cbn [store_loop]. rewrite Hs. cbn [deref mbind outcome_bind]. rewrite Epush, He. cbn [mbind outcome_bind].
    destruct (head allocs) as [[]|]; [|eauto|];
      (eapply (store_loop_two 0 _ cpu s object (push_empty_magazine (alloc_magazine d) d)
        Hok3 Hs Hcap); right; left; discriminate).
Qed.

(** ** Emptying *)

Lemma occ_collect o ss acc :
  occ o (concat (rounds <$> collect_stores ss acc)) =
    occ o (concat (store_objects <$> ss)) + occ o (concat (rounds <$> acc)).
Proof.
  revert acc. induction ss as [|s ss IH]; intros acc; cbn; [by rewrite occ_nil|].
  rewrite IH, occ_app. unfold store_objects. rewrite occ_app.
  destruct (loaded s), (previous s); cbn; rewrite ?occ_app, ?occ_nil; lia.
Qed.

Lemma occ_empty_list o ms :
  Forall (fun m => IsEmpty m = true) ms → occ o (concat (rounds <$> ms)) = 0.
Proof. induction 1 as [|m ms Hm _ IH]; cbn; [done|]. by rewrite occ_app, (empty_rounds m Hm), IH. Qed.

Lemma concat_empty_stores (ss : list depot_cpu_store) :
  concat (store_objects <$> ((fun _ => mkStore None None) <$> ss)) = [].
Proof. by induction ss. Qed.

(** C35: object_depot_obtain on a well-formed depot terminates within two
    rounds of its loop and returns either an object that was stored in the
    depot, which then holds exactly the others, or nothing, in which case
    the depot is unchanged and the CPU had no magazine, or only empty ones
    with no full magazine to exchange; the magazine and count invariants are
    preserved. *)
Theorem depot_obtain_correct (cpu : nat) (s : depot_cpu_store) (d : object_depot)
    (Hok : depot_ok d) (Hcnt : counts_ok d) (Hs : stores d !! cpu = Some s) (Hcap : 0 < cap_of d) :
  ∃ r d', object_depot_obtain 2 cpu d = Ret (r, d') ∧ depot_ok d' ∧ counts_ok d' ∧
    match r with
    | Some x => depot_objects d ≡ₚ x :: depot_objects d'
    | None => d' = d ∧ (loaded s = None ∨ store_objects s = [] ∧ (previous s = None ∨ full d = []))
    end.
Proof.
  destruct (obtain_ok cpu s d Hok Hs Hcap) as (r & d' & He & H1 & H2 & H3). exists r, d'.
  split_and!; auto. destruct r; [|done]. apply occ_Permutation. intros o.
  rewrite (occ_cons o z (depot_objects d')). apply H3.
Qed.

(** object_depot_store, for every outcome of the magazine allocations
    and every CPU it is moved to, never loses or duplicates an object: the
    objects in the depot together with those handed back through
    return_object are the old ones and the stored one; it preserves the
    invariants, never fails a check, and without CPU changes returns within
    three rounds. *)
Lemma depot_store_correct (fuel : nat) (cpus : list nat) (allocs : list bool) (cpu : nat) (object : Z)
    (d : object_depot) (Hok : depot_ok d) (Hcnt : counts_ok d) (Hcpu : (cpu < length (stores d))%nat)
    (Hcpus : Forall (fun c => (c < length (stores d))%nat) cpus) :
  match object_depot_store fuel cpus allocs cpu object d with
  | Ret (ret, d') => depot_ok d' ∧ counts_ok d' ∧ depot_objects d' ++ ret ≡ₚ object :: depot_objects d
  | NoFuel => True
  | Panic => False
  end ∧
  (0 < cap_of d → (3 <= fuel)%nat → cpus = [] → ∃ r, object_depot_store fuel cpus allocs cpu object d = Ret r).
Proof.
  split.
  - pose proof (store_loop_ok fuel cpus allocs cpu object d Hok Hcpu Hcpus) as H. unfold object_depot_store.
    destruct (store_loop _ _ _ _ _ _) as [[ret d']| |]; try done. destruct H as (H1 & H2 & H3).
    split_and!; auto. apply occ_Permutation. intros o. 
    rewrite occ_app, (occ_cons o object (depot_objects d)), H3. lia.
  - intros Hcap Hf ->. destruct (store_terminates allocs cpu d object Hok Hcpu Hcap) as [r Hr]. exists r.
    unfold object_depot_store in *. by eapply store_loop_more_fuel.
Qed.

(** object_depot_make_empty hands back every object of the depot
    exactly once, whichever CPU or magazine list holds it, and leaves a
    well-formed depot without objects. *)
Lemma depot_make_empty_correct (d : object_depot) (Hok : depot_ok d) :
  let '(ret, d') := object_depot_make_empty d in
  ret ≡ₚ depot_objects d ∧ depot_objects d' = [] ∧ depot_ok d'.
Proof.
  destruct Hok as (Hf & He & Hs). cbn. split_and!.
  - apply occ_Permutation. intros o. unfold depot_objects.
    change empty_magazine with rounds. rewrite !occ_app, occ_collect. cbn.
    rewrite (occ_empty_list o (empty d)) by (eapply Forall_impl; [exact He|]; naive_solver).
    rewrite occ_nil. lia.
  - unfold depot_objects, update. cbn. by rewrite concat_empty_stores.
  - split_and!; [by constructor..|]. unfold update. cbn. apply Forall_fmap, Forall_true. intros s. done.
Qed.

(** Two CPUs, magazines of two objects, one full magazine allowed. *)
Definition small_depot : object_depot :=
  let mag l := mkMagazine 2 l in
  mkDepot [mag [11; 12]] [] 1 0 1 2
    [mkStore (Some (mag [1; 2])) (Some (mag [3; 4])); mkStore (Some (mag [])) (Some (mag []))].

Lemma small_depot_ok : depot_ok small_depot ∧ counts_ok small_depot.
Proof.
  split.
  - split_and!; cbn [full empty stores small_depot];
      repeat first [apply Forall_nil_2 | apply Forall_cons_2]; try split;
      try (intros m [= <-]); vm_compute; repeat split; try congruence; auto.
  - vm_compute. repeat split; congruence.
Qed.

Lemma depot_obtain_correct_witness :
  ∃ d', object_depot_obtain 2 1 small_depot = Ret (Some 12, d') ∧ depot_ok d' ∧
    depot_objects small_depot ≡ₚ 12 :: depot_objects d'.
Proof.
  destruct small_depot_ok as [H1 H2].
  edestruct (fun s => depot_obtain_correct 1 s small_depot) as (r & d' & He & Hok & _ & Hp);
    [exact H1|exact H2|vm_compute; reflexivity|vm_compute; reflexivity|].
  assert (r = Some 12) as -> by (vm_compute in He; congruence). exists d'. auto.
Defined.

Lemma depot_store_correct_witness :
  ∃ ret d', object_depot_store 3 [] [] 0 5 small_depot = Ret (ret, d') ∧ depot_ok d' ∧
    depot_objects d' ++ ret ≡ₚ 5 :: depot_objects small_depot.
Proof.
  destruct small_depot_ok as [H1 H2].
  destruct (depot_store_correct 3 [] [] 0 5 small_depot) as [Hc Ht];
    [exact H1|exact H2|vm_compute; lia|constructor|].
  destruct Ht as [[ret d'] Hr]; [vm_compute; reflexivity|lia|reflexivity|].
  rewrite Hr in Hc. destruct Hc as (Hok & _ & Hp). exists ret, d'. auto.
Defined.

Lemma depot_make_empty_correct_witness :
  (object_depot_make_empty small_depot).1 ≡ₚ [1; 2; 3; 4; 11; 12].
Proof.
  pose proof (depot_make_empty_correct small_depot (proj1 small_depot_ok)) as H.
  destruct (object_depot_make_empty small_depot) as [ret d'] eqn:E. destruct H as (Hp & _ & _). exact Hp.
Defined.

(** Storing several objects on one CPU. *)
Fixpoint store_all (cpu : nat) (objs : list Z) (d : object_depot) : outcome (list Z * object_depot) :=
  match objs with
  | [] => Ret ([], d)
  | o :: objs =>
      '(r1, d) ← object_depot_store 3 [] [] cpu o d;
      '(r2, d) ← store_all cpu objs d;
      Ret (r1 ++ r2, d)
  end.

Definition emptied_depot : object_depot := (object_depot_make_empty small_depot).2.

(** After object_depot_make_empty the counters of full and empty
    magazines keep their old values although both lists are empty; with
    max_count full magazines counted, the next magazine that fills up is
    returned object by object instead of being cached. *)
Lemma make_empty_keeps_counts :
  full emptied_depot = [] ∧ full_count emptied_depot = 1 ∧ ¬ counts_ok emptied_depot ∧
  match store_all 0 [1; 2; 3; 4; 5] emptied_depot with
  | Ret (ret, d) => full d = [] ∧ ret = [1; 2]
  | _ => False
  end.
Proof. split_and!; [done|done| |by vm_compute]. intros (H & _). vm_compute in H. done. Qed.
