(* ===== verification/SlabChunks.v ===== *)
(** slab/mm_manager.cpp and mm_manager.h: the chunks of one slab meta chunk.

    A [MemoryChunk] is an untagged union: a pointer to the next free chunk of
    the meta chunk while the chunk is free, a reference (an [ObjectCache], the
    last byte of a raw allocation, or 1) while it is allocated.  Its 64-bit
    value is kept as it is, and [_IsChunkFree] looks at it as the code does.
    [chunks_addr] is the address of the array [chunks]. *)
From S2P Require Import Prelude.
From stdpp Require Import base list list_numbers numbers gmap.
From Stdlib Require Import ZArith Lia.
Local Open Scope Z_scope.

Definition SLAB_CHUNK_SIZE_SMALL : Z := PAGE_SIZE.
Definition SLAB_CHUNK_SIZE_MEDIUM : Z := 8 * PAGE_SIZE.
Definition SLAB_CHUNK_SIZE_LARGE : Z := 32 * PAGE_SIZE.
(** The value for aarch64 (1024 pages on x86, 256 elsewhere). *)
Definition SLAB_AREA_SIZE : Z := 512 * PAGE_SIZE.
Definition SLAB_AREA_STRUCT_OFFSET : Z := PAGE_SIZE.
Definition SLAB_META_CHUNKS_PER_AREA : Z := SLAB_AREA_SIZE / SLAB_CHUNK_SIZE_LARGE.
Definition SLAB_SMALL_CHUNKS_PER_META_CHUNK : Z := SLAB_CHUNK_SIZE_LARGE / SLAB_CHUNK_SIZE_SMALL.

Record MetaChunk := mkMeta {
  chunkSize : Z;
  chunkBase : Z;
  totalSize : Z;
  chunkCount : Z;
  usedChunkCount : Z;
  firstFreeChunk : Z;
  lastFreeChunk : Z;
  chunks : list Z;
  freeChunks : Z;
  chunks_addr : Z
}.
#[export] Instance eta_MetaChunk : Eta MetaChunk := fun m =>
  mkMeta (chunkSize m) (chunkBase m) (totalSize m) (chunkCount m) (usedChunkCount m)
    (firstFreeChunk m) (lastFreeChunk m) (chunks m) (freeChunks m) (chunks_addr m).

(** ** Pointers to chunks *)

Definition chunk_ptr (m : MetaChunk) (i : Z) : Z := chunks_addr m + 8 * i.
Definition chunk_index (m : MetaChunk) (p : Z) : Z := (p - chunks_addr m) / 8.

Definition get_chunk (m : MetaChunk) (i : Z) : outcome Z := deref (chunks m !! Z.to_nat i).
Definition set_chunk (i v : Z) (m : MetaChunk) : MetaChunk :=
  m <| chunks ::= <[Z.to_nat i := v]> |>.

Definition ChunkIndexForAddress (m : MetaChunk) (address : Z) : Z :=
  u32 ((address - chunkBase m) / chunkSize m).

Definition ChunkAddress (m : MetaChunk) (chunk : Z) : Z :=
  u64 (chunkBase m + chunk_index m chunk * chunkSize m).

Definition IsChunkFree (m : MetaChunk) (next : Z) : bool :=
  (next =? 0) || ((chunks_addr m <=? next) && (next <? chunks_addr m + 8 * chunkCount m)).

(** [_push] on the free list of the meta chunk. *)
Definition push_chunk (i : Z) (m : MetaChunk) : MetaChunk :=
  (set_chunk i (freeChunks m) m) <| freeChunks := chunk_ptr m i |>.

(** ** [_PrepareMetaChunk]

    [base] is the base address of the area, [admin] is [kAreaAdminSize], and
    [first] whether this is the first meta chunk of the area. *)
Fixpoint push_all (n : nat) (m : MetaChunk) : MetaChunk :=
  match n with O => m | S n => push_all n (push_chunk (Z.of_nat n) m) end.

Definition PrepareMetaChunk (base admin : Z) (first : bool) (size : Z) (m : MetaChunk) : MetaChunk :=
  let m :=
    if first then
      let unusableSize := roundup (SLAB_AREA_STRUCT_OFFSET + admin) size in
      m <| chunkBase := base + unusableSize |>
        <| totalSize := SLAB_CHUNK_SIZE_LARGE - unusableSize |>
    else m in
  let m := m <| chunkSize := size |> <| chunkCount := u16 (totalSize m / size) |>
             <| usedChunkCount := 0 |> <| freeChunks := 0 |> in
  let m := push_all (Z.to_nat (chunkCount m)) m in
  m <| firstFreeChunk := 0 |> <| lastFreeChunk := u16 (chunkCount m - 1) |>.

(** ** Taking a chunk: the part of [_GetChunk] on a prepared meta chunk.  The
    results are whether the meta chunk is full now, and the chunk. *)
Definition take_chunk (m : MetaChunk) : outcome (bool * Z * MetaChunk) :=
  let m := m <| usedChunkCount ::= fun n => u16 (n + 1) |> in
  let isFull := usedChunkCount m =? chunkCount m in
  let chunk := freeChunks m in
  let i := chunk_index m chunk in
  next ← get_chunk m i;
  let m := m <| freeChunks := next |> in
  let m := set_chunk i 1 m in
  let m :=
    if (firstFreeChunk m <=? i) && (i <=? lastFreeChunk m) then
      if i - firstFreeChunk m <=? lastFreeChunk m - i then
        m <| firstFreeChunk := u16 (i + 1) |>
      else m <| lastFreeChunk := u16 (i - 1) |>
    else m in
  Ret (isFull, chunk, m).

(** ** Taking several adjoining chunks: the part of [_GetChunks].  The loop
    walks the free list; [prev] is the chunk whose link [chunkPointer] points
    to, [None] for [freeChunks]. *)
Definition follow (prev : option Z) (m : MetaChunk) : outcome Z :=
  match prev with None => Ret (freeChunks m) | Some i => get_chunk m i end.

Definition relink (prev : option Z) (p : Z) (m : MetaChunk) : MetaChunk :=
  match prev with None => m <| freeChunks := p |> | Some i => set_chunk i p m end.

Fixpoint pull_chunks (fuel : nat) (firstChunk lastChunk remaining : Z) (prev : option Z)
    (m : MetaChunk) : outcome MetaChunk :=
  if 0 <? remaining then
    match fuel with
    | O => NoFuel
    | S fuel =>
        chunk ← follow prev m;
        let i := chunk_index m chunk in
        if (firstChunk <=? chunk) && (chunk <=? lastChunk) then
          next ← get_chunk m i;
          pull_chunks fuel firstChunk lastChunk (remaining - 1) prev
            (set_chunk i 1 (relink prev next m))
        else
          _ ← get_chunk m i;
          pull_chunks fuel firstChunk lastChunk remaining (Some i) m
    end
  else Ret m.

Definition range_fits (count : Z) (m : MetaChunk) : bool :=
  firstFreeChunk m + count - 1 <=? lastFreeChunk m.

Definition take_chunks (fuel : nat) (count : Z) (m : MetaChunk) : outcome (bool * Z * MetaChunk) :=
  let firstChunk := chunk_ptr m (firstFreeChunk m) in
  let lastChunk := chunk_ptr m (firstFreeChunk m + (count - 1)) in
  m ← pull_chunks fuel firstChunk lastChunk count None m;
  let m := m <| usedChunkCount ::= fun n => u16 (n + count) |> in
  let isFull := usedChunkCount m =? chunkCount m in
  let m := m <| firstFreeChunk ::= fun n => u16 (n + count) |> in
  Ret (isFull, firstChunk, m).

(** ** Freeing a chunk: the part of [_FreeChunk] on the meta chunk.  The
    result says what became of it. *)
Inductive freed_kind := NowEmpty | WasFull | Partial.

Fixpoint extend_down (fuel : nat) (firstFree : Z) (m : MetaChunk) : outcome Z :=
  if 0 <? firstFree then
    match fuel with
    | O => NoFuel
    | S fuel =>
        v ← get_chunk m (firstFree - 1);
        if negb (IsChunkFree m v) then Ret firstFree else extend_down fuel (firstFree - 1) m
    end
  else Ret firstFree.

Fixpoint extend_up (fuel : nat) (lastFree : Z) (m : MetaChunk) : outcome Z :=
  if lastFree + 1 <? chunkCount m then
    match fuel with
    | O => NoFuel
    | S fuel =>
        v ← get_chunk m (lastFree + 1);
        if negb (IsChunkFree m v) then Ret lastFree else extend_up fuel (lastFree + 1) m
    end
  else Ret lastFree.

Definition free_chunk (i : Z) (m : MetaChunk) : outcome (freed_kind * MetaChunk) :=
  let m := push_chunk i m in
  _ ← assert (0 <? usedChunkCount m);
  let m := m <| usedChunkCount ::= fun n => u16 (n - 1) |> in
  if usedChunkCount m =? 0 then Ret (NowEmpty, m <| chunkSize := 0 |>)
  else if usedChunkCount m =? chunkCount m - 1 then
    Ret (WasFull, m <| firstFreeChunk := u16 i |> <| lastFreeChunk := u16 i |>)
  else if i + 1 =? firstFreeChunk m then
    f ← extend_down (Z.to_nat i) i m;
    Ret (Partial, m <| firstFreeChunk := u16 f |>)
  else if i =? lastFreeChunk m + 1 then
    l ← extend_up (Z.to_nat (chunkCount m - i)) i m;
    Ret (Partial, m <| lastFreeChunk := u16 l |>)
  else Ret (Partial, m).

(** ** The free list

    [seg m p l q]: following the links from pointer [p] visits the chunks with
    indexes [l] and ends at pointer [q]. *)
Fixpoint seg (m : MetaChunk) (p : Z) (l : list Z) (q : Z) : Prop :=
  match l with
  | [] => p = q
  | i :: l => p = chunk_ptr m i ∧ 0 <= i < chunkCount m ∧
      ∃ next, chunks m !! Z.to_nat i = Some next ∧ seg m next l q
  end.

(** A chunk that is not on the free list carries a reference that
    [_IsChunkFree] tells from a link. *)
Definition allocated (m : MetaChunk) (i : Z) : Prop :=
  ∃ v, chunks m !! Z.to_nat i = Some v ∧ IsChunkFree m v = false.

(** [l] is the free list of the meta chunk, linked through its chunks; the
    indexes from [firstFreeChunk] to [lastFreeChunk] are all free. *)
Record mc_ok (l : list Z) (m : MetaChunk) : Prop := {
  mc_addr : 1 < chunks_addr m;
  mc_count : 0 < chunkCount m <= Z.of_nat (length (chunks m));
  mc_small : Z.of_nat (length (chunks m)) <= SLAB_SMALL_CHUNKS_PER_META_CHUNK;
  mc_free : seg m (freeChunks m) l 0;
  mc_nodup : NoDup l;
  mc_used : usedChunkCount m = chunkCount m - Z.of_nat (length l);
  mc_used_nonneg : 0 <= usedChunkCount m;
  mc_alloc i : 0 <= i < chunkCount m → i ∉ l → allocated m i;
  mc_first : 0 <= firstFreeChunk m <= chunkCount m;
  mc_last : 0 <= lastFreeChunk m < chunkCount m;
  mc_range i : firstFreeChunk m <= i <= lastFreeChunk m → i ∈ l
}.

Lemma small_chunks_eq : SLAB_SMALL_CHUNKS_PER_META_CHUNK = 32.
Proof. reflexivity. Qed.

Lemma chunk_index_ptr m i : chunk_index m (chunk_ptr m i) = i.
Proof. unfold chunk_index, chunk_ptr. rewrite Z.add_simpl_l, Z.mul_comm. by apply Z.div_mul. Qed.

Lemma seg_range m p l q : seg m p l q → Forall (fun i => 0 <= i < chunkCount m) l.
Proof. revert p. induction l as [|i l IH]; intros p; cbn; [constructor|]. intros (_ & ? & next & _ & ?). constructor; eauto. Qed.

Lemma seg_ext m m' p l q :
  chunks_addr m' = chunks_addr m → chunkCount m' = chunkCount m →
  (∀ i, i ∈ l → chunks m' !! Z.to_nat i = chunks m !! Z.to_nat i) →
  seg m p l q → seg m' p l q.
Proof.
  intros Ha Hc. revert p. induction l as [|i l IH]; intros p Hl; cbn; [done|].
  intros (-> & ? & next & Hn & Hs). split_and!; [by unfold chunk_ptr; rewrite Ha|lia|lia|].
  exists next. rewrite Hl by set_solver. split; [done|]. apply IH; [set_solver|done].
Qed.

Lemma seg_app m p l1 l2 q : seg m p (l1 ++ l2) q ↔ ∃ r, seg m p l1 r ∧ seg m r l2 q.
Proof.
  revert p. induction l1 as [|i l1 IH]; intros p; cbn.
  - split; [by exists p|by intros (? & -> & ?)].
  - setoid_rewrite IH. naive_solver.
Qed.

Lemma set_chunk_fields i v m :
  chunks_addr (set_chunk i v m) = chunks_addr m ∧ chunkCount (set_chunk i v m) = chunkCount m ∧
  freeChunks (set_chunk i v m) = freeChunks m ∧ chunks (set_chunk i v m) = <[Z.to_nat i := v]> (chunks m).
Proof. by destruct m. Qed.

Lemma seg_set m p l q i v :
  0 <= i → i ∉ l → seg m p l q → seg (set_chunk i v m) p l q.
Proof.
  intros Hi Hl Hs. pose proof (seg_range _ _ _ _ Hs) as Hr. rewrite Forall_forall in Hr.
  pose proof (set_chunk_fields i v m) as (? & ? & ? & Hc).
  eapply seg_ext; [..|exact Hs]; [done..|]. intros j Hj. rewrite Hc.
  specialize (Hr j Hj). rewrite list_lookup_insert_ne; [done|]. intros ?. assert (i = j) as -> by lia. done.
Qed.

Lemma reference_not_link m : 1 < chunks_addr m → IsChunkFree m 1 = false.
Proof. intros. unfold IsChunkFree. destruct (Z.leb_spec (chunks_addr m) 1); [lia|done]. Qed.

(** A chunk is on the free list exactly when [_IsChunkFree] says so. *)
Lemma is_chunk_free_spec l m i v :
  mc_ok l m → 0 <= i < chunkCount m → chunks m !! Z.to_nat i = Some v →
  IsChunkFree m v = true ↔ i ∈ l.
Proof.
  intros Hok Hi Hv. split.
  - intros Hf. destruct (decide (i ∈ l)) as [|Hn]; [done|].
    destruct (mc_alloc _ _ Hok i Hi Hn) as (v' & ? & ?). congruence.
  - intros Hin. pose proof (mc_free _ _ Hok) as Hs.
    destruct (list_elem_of_split _ _ Hin) as (l1 & l2 & ->).
    apply seg_app in Hs as (r & _ & _ & _ & next & Hn & Hs).
    assert (next = v) as -> by congruence. pose proof (mc_addr _ _ Hok).
    unfold IsChunkFree. destruct l2 as [|j l2]; cbn in Hs; [by subst|].
    destruct Hs as (-> & ? & _). unfold chunk_ptr. apply orb_true_iff. right.
    apply andb_true_iff. split; [apply Z.leb_le|apply Z.ltb_lt]; lia.
Qed.

Lemma chunk_lookup l m i :
  mc_ok l m → 0 <= i < chunkCount m → ∃ v, chunks m !! Z.to_nat i = Some v ∧ get_chunk m i = Ret v.
Proof.
  intros Hok Hi. destruct (chunks m !! Z.to_nat i) as [v|] eqn:E.
  - exists v. split; [done|]. unfold get_chunk. by rewrite E.
  - apply lookup_ge_None in E. pose proof (mc_count _ _ Hok). lia.
Qed.

(** ** [_PrepareMetaChunk] *)

Definition indexes (n : nat) : list Z := Z.of_nat <$> seq 0 n.

Lemma push_chunk_fields i m :
  chunks_addr (push_chunk i m) = chunks_addr m ∧ chunkCount (push_chunk i m) = chunkCount m ∧
  freeChunks (push_chunk i m) = chunk_ptr m i ∧ chunks (push_chunk i m) = <[Z.to_nat i := freeChunks m]> (chunks m) ∧
  usedChunkCount (push_chunk i m) = usedChunkCount m ∧ firstFreeChunk (push_chunk i m) = firstFreeChunk m ∧
  lastFreeChunk (push_chunk i m) = lastFreeChunk m ∧ chunkSize (push_chunk i m) = chunkSize m ∧
  chunkBase (push_chunk i m) = chunkBase m ∧ totalSize (push_chunk i m) = totalSize m.
Proof. by destruct m. Qed.

Lemma push_seg i l q m :
  0 <= i < chunkCount m → chunkCount m <= Z.of_nat (length (chunks m)) → i ∉ l →
  seg m (freeChunks m) l q → seg (push_chunk i m) (freeChunks (push_chunk i m)) (i :: l) q.
Proof.
  intros Hi Hlen Hl Hs. pose proof (push_chunk_fields i m) as (Ha & Hc & Hf & Hch & _).
  cbn [seg]. split_and!; [by rewrite Hf; unfold chunk_ptr; rewrite Ha|lia|lia|].
  exists (freeChunks m). rewrite Hch, list_lookup_insert_eq by lia. split; [done|].
  assert (seg (set_chunk i (freeChunks m) m) (freeChunks m) l q) as Hs' by (apply seg_set; auto; lia).
  eapply seg_ext; [..|exact Hs']; [done..|]. intros j _. by rewrite Hch.
Qed.

Lemma push_all_spec n l m :
  Z.of_nat n <= chunkCount m <= Z.of_nat (length (chunks m)) →
  seg m (freeChunks m) l 0 → (∀ i, i ∈ l → Z.of_nat n <= i) →
  let m' := push_all n m in
  seg m' (freeChunks m') (indexes n ++ l) 0 ∧ length (chunks m') = length (chunks m) ∧
  chunks_addr m' = chunks_addr m ∧ chunkCount m' = chunkCount m ∧ usedChunkCount m' = usedChunkCount m ∧
  chunkSize m' = chunkSize m ∧ chunkBase m' = chunkBase m ∧ totalSize m' = totalSize m.
Proof.
  revert l m. induction n as [|n IH]; intros l m Hn Hs Hl; [done|].
  change (push_all (S n) m) with (push_all n (push_chunk (Z.of_nat n) m)). cbv zeta.
  pose proof (push_chunk_fields (Z.of_nat n) m) as (Ha & Hc & Hf & Hch & Hu & _ & _ & Hsz & Hb & Ht).
  destruct (IH (Z.of_nat n :: l) (push_chunk (Z.of_nat n) m)) as (IH1 & IH2 & IH3 & IH4 & IH5 & IH6 & IH7 & IH8).
  - rewrite Hc, Hch, length_insert. lia.
  - apply push_seg; [lia|lia| |done]. intros ?%Hl. lia.
  - intros i [->|?%Hl]%elem_of_cons; lia.
  - assert (indexes (S n) = indexes n ++ [Z.of_nat n]) as -> by (unfold indexes; by rewrite seq_S, fmap_app).
    rewrite <- app_assoc.
    rewrite IH2, IH3, IH4, IH5, IH6, IH7, IH8, Hch, length_insert. done.
Qed.

Lemma indexes_elem n i : i ∈ indexes n ↔ 0 <= i < Z.of_nat n.
Proof.
  unfold indexes. rewrite list_elem_of_fmap. setoid_rewrite elem_of_seq. split.
  - intros (k & -> & ?). lia.
  - intros. exists (Z.to_nat i). lia.
Qed.

Lemma indexes_NoDup n : NoDup (indexes n).
Proof. apply NoDup_fmap_2; [apply _|]. apply NoDup_seq. Qed.

Lemma seg_fields m m' p l q :
  chunks_addr m' = chunks_addr m → chunkCount m' = chunkCount m → chunks m' = chunks m →
  seg m p l q → seg m' p l q.
Proof. intros ? ? Hc. apply seg_ext; [done..|]. intros. by rewrite Hc. Qed.

(** [_PrepareMetaChunk] puts every chunk of the meta chunk on the free list. *)
Lemma prepare_ok (base admin : Z) (first : bool) (size : Z) (m : MetaChunk) :
  1 < chunks_addr m → length (chunks m) = 32%nat →
  let usable := if first then SLAB_CHUNK_SIZE_LARGE - roundup (SLAB_AREA_STRUCT_OFFSET + admin) size
                else totalSize m in
  0 < usable / size <= 32 →
  let m' := PrepareMetaChunk base admin first size m in
  mc_ok (indexes (Z.to_nat (usable / size))) m' ∧ chunkCount m' = usable / size ∧ chunkSize m' = size ∧
  totalSize m' = usable ∧ usedChunkCount m' = 0 ∧ chunks_addr m' = chunks_addr m ∧
  length (chunks m') = length (chunks m) ∧
  chunkBase m' = if first then base + roundup (SLAB_AREA_STRUCT_OFFSET + admin) size else chunkBase m.
Proof.
  intros Ha Hlen usable Hu m'.
  set (m1 := if first then
      m <| chunkBase := base + roundup (SLAB_AREA_STRUCT_OFFSET + admin) size |>
        <| totalSize := SLAB_CHUNK_SIZE_LARGE - roundup (SLAB_AREA_STRUCT_OFFSET + admin) size |>
    else m).
  assert (totalSize m1 = usable ∧ chunks_addr m1 = chunks_addr m ∧ chunks m1 = chunks m ∧
    chunkBase m1 = if first then base + roundup (SLAB_AREA_STRUCT_OFFSET + admin) size else chunkBase m)
    as (Ht1 & Ha1 & Hc1 & Hb1).
  { subst m1 usable. by destruct first. }
  set (m2 := m1 <| chunkSize := size |> <| chunkCount := u16 (totalSize m1 / size) |>
             <| usedChunkCount := 0 |> <| freeChunks := 0 |>).
  assert (chunkCount m2 = usable / size) as Hcc.
  { change (chunkCount m2) with (u16 (totalSize m1 / size)). rewrite Ht1, wrap_small by (unfold fits; lia). done. }
  destruct (push_all_spec (Z.to_nat (chunkCount m2)) [] m2) as (Hseg & Hl & Ha2 & Hc2 & Hu2 & Hs2 & Hb2 & Ht2).
  { change (chunks m2) with (chunks m1). rewrite Hc1, Hlen. lia. }
  { done. }
  { intros i Hi. by apply elem_of_nil in Hi. }
  set (m3 := push_all (Z.to_nat (chunkCount m2)) m2) in *.
  assert (m' = m3 <| firstFreeChunk := 0 |> <| lastFreeChunk := u16 (chunkCount m3 - 1) |>) as Em' by done.
  assert (lastFreeChunk m' = usable / size - 1) as Hlast.
  { rewrite Em'. change (u16 (chunkCount m3 - 1) = usable / size - 1).
    rewrite Hc2, Hcc, wrap_small by (unfold fits; lia). done. }
  rewrite app_nil_r, Hcc in Hseg.
  assert (chunkCount m' = usable / size) as Hcnt by (rewrite Em'; transitivity (chunkCount m3); [done|congruence]).
  assert (chunks m' = chunks m3) as Hch by by rewrite Em'.
  assert (chunks_addr m' = chunks_addr m) as Ha'.
  { rewrite Em'. transitivity (chunks_addr m3); [done|]. rewrite Ha2. transitivity (chunks_addr m1); done. }
  split_and!; [split|..].
  - by rewrite Ha'.
  - rewrite Hch, Hl, Hcnt. change (chunks m2) with (chunks m1). rewrite Hc1, Hlen. lia.
  - rewrite Hch, Hl. change (chunks m2) with (chunks m1). rewrite Hc1, Hlen, small_chunks_eq. lia.
  - replace (freeChunks m') with (freeChunks m3) by by rewrite Em'.
    eapply seg_fields; [..|exact Hseg]; by rewrite Em'.
  - apply indexes_NoDup.
  - replace (usedChunkCount m') with 0 by (rewrite Em'; symmetry; exact Hu2).
    unfold indexes. rewrite length_fmap, length_seq, Hcnt. lia.
  - rewrite Em'. change (0 <= usedChunkCount m3). rewrite Hu2. done.
  - intros i Hi Hn. destruct Hn. apply indexes_elem. lia.
  - rewrite Em', <- Em', Hcnt. change (0 <= 0 <= usable / size). lia.
  - rewrite Hlast, Hcnt. lia.
  - intros i Hi. apply indexes_elem. rewrite Hlast in Hi.
    replace (firstFreeChunk m') with 0 in Hi by by rewrite Em'. lia.
  - done.
  - rewrite Em'. exact Hs2.
  - rewrite Em'. change (totalSize m3 = usable). rewrite Ht2. exact Ht1.
  - rewrite Em'. exact Hu2.
  - done.
  - rewrite Hch, Hl. change (chunks m2) with (chunks m1). by rewrite Hc1.
  - rewrite Em'. change (chunkBase m3 = if first then base + roundup (SLAB_AREA_STRUCT_OFFSET + admin) size else chunkBase m).
    rewrite Hb2. exact Hb1.
Qed.

(** ** Taking chunks *)

(** [m'] is [m] with the chunks of [taken] allocated with reference 1; [l] is
    left of the free list. *)
Record taken_ok (taken l : list Z) (m m' : MetaChunk) : Prop := {
  tk_addr : chunks_addr m' = chunks_addr m;
  tk_count : chunkCount m' = chunkCount m;
  tk_len : length (chunks m') = length (chunks m);
  tk_seg : seg m' (freeChunks m') l 0;
  tk_taken i : i ∈ taken → chunks m' !! Z.to_nat i = Some 1;
  tk_other i : 0 <= i < chunkCount m → i ∉ taken → i ∉ l → chunks m' !! Z.to_nat i = chunks m !! Z.to_nat i
}.

Lemma taken_allocated taken l0 l m m' i :
  mc_ok l0 m → taken_ok taken l m m' → (∀ j, j ∈ l0 → j ∈ taken ∨ j ∈ l) →
  0 <= i < chunkCount m → i ∉ l → allocated m' i.
Proof.
  intros Hok Ht Hl Hi Hn. pose proof (mc_addr _ _ Hok) as Ha.
  destruct (decide (i ∈ taken)) as [Hin|Hnin].
  - exists 1. split; [by apply (tk_taken _ _ _ _ Ht)|]. apply reference_not_link. by rewrite (tk_addr _ _ _ _ Ht).
  - destruct (mc_alloc _ _ Hok i Hi) as (v & Hv & Hf). { intros ?%Hl. naive_solver. }
    exists v. split; [by rewrite (tk_other _ _ _ _ Ht)|].
    unfold IsChunkFree in *. by rewrite (tk_addr _ _ _ _ Ht), (tk_count _ _ _ _ Ht).
Qed.

(** The bounds [_GetChunk] leaves in [firstFreeChunk] and [lastFreeChunk]. *)
Definition free_range_without (i : Z) (m : MetaChunk) : Z * Z :=
  if (firstFreeChunk m <=? i) && (i <=? lastFreeChunk m) then
    if i - firstFreeChunk m <=? lastFreeChunk m - i then (u16 (i + 1), lastFreeChunk m)
    else (firstFreeChunk m, u16 (i - 1))
  else (firstFreeChunk m, lastFreeChunk m).

Lemma free_range_without_ok i l m :
  mc_ok (i :: l) m → 0 <= i < chunkCount m →
  let '(f, la) := free_range_without i m in
  0 <= f <= chunkCount m ∧ 0 <= la < chunkCount m ∧ (∀ j, f <= j <= la → j ∈ l).
Proof.
  intros Hok Hi. pose proof (mc_first _ _ Hok) as Hfi. pose proof (mc_last _ _ Hok) as Hla.
  pose proof (mc_small _ _ Hok) as Hsm. rewrite small_chunks_eq in Hsm. pose proof (mc_count _ _ Hok) as Hc.
  assert (∀ j, firstFreeChunk m <= j <= lastFreeChunk m → j ≠ i → j ∈ l) as Hr2.
  { intros j [->|?]%(mc_range _ _ Hok)%elem_of_cons; done. }
  unfold free_range_without.
  destruct (Z.leb_spec (firstFreeChunk m) i), (Z.leb_spec i (lastFreeChunk m)); cbn [andb];
    [destruct (Z.leb_spec (i - firstFreeChunk m) (lastFreeChunk m - i))|..];
    rewrite ?wrap_small by (unfold fits; lia); split_and!; try lia; intros; apply Hr2; lia.
Qed.

Lemma take_chunk_ok i l m :
  mc_ok (i :: l) m →
  ∃ m', take_chunk m = Ret (bool_decide (l = []), chunk_ptr m i, m') ∧ mc_ok l m' ∧
    taken_ok [i] l m m' ∧ usedChunkCount m' = usedChunkCount m + 1 ∧ chunkSize m' = chunkSize m ∧
    chunkBase m' = chunkBase m ∧ totalSize m' = totalSize m.
Proof.
  intros Hok. pose proof (mc_free _ _ Hok) as (Hf & Hi & next & Hn & Hs).
  pose proof (mc_used _ _ Hok) as Hu. pose proof (mc_used_nonneg _ _ Hok) as Hu0.
  pose proof (mc_small _ _ Hok) as Hsm. rewrite small_chunks_eq in Hsm. pose proof (mc_count _ _ Hok) as Hc.
  pose proof (mc_first _ _ Hok) as Hfi. pose proof (mc_last _ _ Hok) as Hla.
  pose proof (mc_nodup _ _ Hok) as [Hil Hnd]%NoDup_cons. pose proof (mc_range _ _ Hok) as Hr.
  cbn [length] in Hu.
  set (m1 := set_chunk i 1 (m <| usedChunkCount ::= fun n => u16 (n + 1) |> <| freeChunks := next |>)).
  set (m' := if (firstFreeChunk m <=? i) && (i <=? lastFreeChunk m) then
      if i - firstFreeChunk m <=? lastFreeChunk m - i then m1 <| firstFreeChunk := u16 (i + 1) |>
      else m1 <| lastFreeChunk := u16 (i - 1) |> else m1).
  assert (usedChunkCount m1 = usedChunkCount m + 1) as Hu1.
  { change (u16 (usedChunkCount m + 1) = usedChunkCount m + 1). apply wrap_small. unfold fits. lia. }
  exists m'.
  assert (take_chunk m = Ret (usedChunkCount m1 =? chunkCount m, chunk_ptr m i, m')) as ->.
  { unfold take_chunk. cbv zeta.
    change (freeChunks (m <| usedChunkCount ::= fun n => u16 (n + 1) |>)) with (freeChunks m).
    rewrite Hf. change (chunk_index (m <| usedChunkCount ::= fun n => u16 (n + 1) |>)) with (chunk_index m).
    rewrite chunk_index_ptr.
    change (get_chunk (m <| usedChunkCount ::= fun n => u16 (n + 1) |>) i) with (get_chunk m i).
    unfold get_chunk. rewrite Hn. done. }
  assert (m' = m1 <| firstFreeChunk := firstFreeChunk m' |> <| lastFreeChunk := lastFreeChunk m' |>) as Em.
  { subst m'. repeat case_match; by destruct m. }
  assert (chunks m1 = <[Z.to_nat i := 1]> (chunks m)) as Hc1 by by destruct m.
  assert (taken_ok [i] l m m') as Ht.
  { rewrite Em. split; try done.
    - change (length (chunks m1) = length (chunks m)). by rewrite Hc1, length_insert.
    - assert (seg (set_chunk i 1 m) next l 0) as Hs' by (apply seg_set; auto; lia).
      eapply seg_fields; [..|exact Hs']; by destruct m.
    - intros j ->%list_elem_of_singleton. change (chunks m1 !! Z.to_nat i = Some 1).
      rewrite Hc1. apply list_lookup_insert_eq. lia.
    - intros j Hj Hne%not_elem_of_cons _. change (chunks m1 !! Z.to_nat j = chunks m !! Z.to_nat j).
      rewrite Hc1. apply list_lookup_insert_ne. lia. }
  assert (0 <= firstFreeChunk m' <= chunkCount m ∧ 0 <= lastFreeChunk m' < chunkCount m ∧
    (∀ j, firstFreeChunk m' <= j <= lastFreeChunk m' → j ∈ l)) as (Hf' & Hl' & Hr').
  { assert (firstFreeChunk m' = (free_range_without i m).1 ∧ lastFreeChunk m' = (free_range_without i m).2) as [-> ->].
    { unfold free_range_without. subst m'. repeat case_match; done. }
    pose proof (free_range_without_ok i l m Hok Hi) as H. by destruct (free_range_without i m). }
  assert (usedChunkCount m' = usedChunkCount m + 1) as Hu' by by rewrite Em.
  split_and!; try done; try by rewrite Em.
  - f_equal. f_equal. f_equal. rewrite Hu1, Hu. destruct l as [|j l]; cbn [length].
    + rewrite bool_decide_eq_true_2 by done. apply Z.eqb_eq. lia.
    + rewrite bool_decide_eq_false_2 by done. apply Z.eqb_neq. lia.
  - split.
    + rewrite (tk_addr _ _ _ _ Ht). apply (mc_addr _ _ Hok).
    + by rewrite (tk_count _ _ _ _ Ht), (tk_len _ _ _ _ Ht).
    + rewrite (tk_len _ _ _ _ Ht). apply (mc_small _ _ Hok).
    + apply (tk_seg _ _ _ _ Ht).
    + done.
    + rewrite Hu', (tk_count _ _ _ _ Ht). lia.
    + lia.
    + intros j Hj. rewrite (tk_count _ _ _ _ Ht) in Hj.
      eapply taken_allocated; [exact Hok|exact Ht| |done]. intros k [->|?]%elem_of_cons; set_solver.
    + by rewrite (tk_count _ _ _ _ Ht).
    + by rewrite (tk_count _ _ _ _ Ht).
    + done.
Qed.

(** The scalar fields, which the walk over the free list leaves alone. *)
Definition scalars (m : MetaChunk) : Z * Z * Z * (Z * Z * Z) * Z :=
  (chunkSize m, chunkBase m, totalSize m, (chunkCount m, usedChunkCount m, firstFreeChunk m), lastFreeChunk m).

Lemma follow_last m pre q :
  seg m (freeChunks m) pre q → follow (last pre) m = Ret q.
Proof.
  destruct pre as [|i pre _] using rev_ind; [by intros <-|].
  intros (r & _ & _ & _ & next & Hn & ->)%seg_app. rewrite last_snoc. cbn. unfold get_chunk. by rewrite Hn.
Qed.

Lemma relink_spec m pre q r :
  chunkCount m <= Z.of_nat (length (chunks m)) → NoDup pre → seg m (freeChunks m) pre q →
  let m' := relink (last pre) r m in
  seg m' (freeChunks m') pre r ∧ scalars m' = scalars m ∧ chunks_addr m' = chunks_addr m ∧
  length (chunks m') = length (chunks m) ∧
  ∀ j, 0 <= j → j ∉ pre → chunks m' !! Z.to_nat j = chunks m !! Z.to_nat j.
Proof.
  intros Hlen. destruct pre as [|i pre _] using rev_ind; [by destruct m|].
  intros Hnd. rewrite last_snoc. intros (p & Hpre & -> & Hi & next & Hn & _)%seg_app.
  pose proof (set_chunk_fields i r m) as (Ha & Hc & Hf & Hch).
  apply NoDup_app in Hnd as (_ & Hd & _). cbn [relink]. cbv zeta. split_and!.
  - rewrite seg_app. exists (chunk_ptr m i). split.
    + rewrite Hf. apply seg_set; [lia| |done]. intros Hin. apply (Hd _ Hin). set_solver.
    + cbn [seg]. split_and!; [by unfold chunk_ptr; rewrite Ha|lia|lia|].
      exists r. rewrite Hch, list_lookup_insert_eq by lia. done.
  - by destruct m.
  - done.
  - by rewrite Hch, length_insert.
  - intros j Hj Hnin. rewrite Hch. apply list_lookup_insert_ne. intros ?. apply Hnin.
    assert (j = i) as -> by lia. set_solver.
Qed.

(** One chunk taken out of the middle of the free list. *)
Lemma unlink_spec m pre i rest :
  chunkCount m <= Z.of_nat (length (chunks m)) → NoDup (pre ++ i :: rest) →
  seg m (freeChunks m) (pre ++ i :: rest) 0 →
  ∃ next, follow (last pre) m = Ret (chunk_ptr m i) ∧ get_chunk m i = Ret next ∧
    let m' := set_chunk i 1 (relink (last pre) next m) in
    taken_ok [i] (pre ++ rest) m m' ∧ scalars m' = scalars m.
Proof.
  intros Hlen Hnd (q & Hpre & Hq & Hi & next & Hn & Hrest)%seg_app. subst q.
  apply NoDup_app in Hnd as (Hnp & Hd & Hnr). apply NoDup_cons in Hnr as [Hir Hnr].
  exists next. split_and!; [by apply follow_last|unfold get_chunk; by rewrite Hn|].
  destruct (relink_spec m pre (chunk_ptr m i) next Hlen Hnp Hpre) as (Hs & Hsc & Ha & Hl & Ho).
  set (m1 := relink (last pre) next m) in *. pose proof (set_chunk_fields i 1 m1) as (Ha2 & Hc2 & Hf2 & Hch2).
  assert (chunkCount m1 = chunkCount m) as Hc1 by (unfold scalars in Hsc; congruence).
  assert (i ∉ pre) as Hip by (intros Hin; apply (Hd _ Hin); set_solver).
  cbv zeta. split; [split|].
  - congruence.
  - congruence.
  - rewrite Hch2, length_insert. done.
  - rewrite seg_app, Hf2. exists next. split; (apply seg_set; [lia|done|]); [done|].
    pose proof (seg_range _ _ _ _ Hrest) as Hr. rewrite Forall_forall in Hr.
    eapply seg_ext; [..|exact Hrest]; [congruence..|].
    intros j Hj. apply Ho; [apply Hr in Hj; lia|]. intros Hin. apply (Hd _ Hin). set_solver.
  - intros j ->%list_elem_of_singleton. rewrite Hch2. apply list_lookup_insert_eq. lia.
  - intros j Hj Hji Hjn. rewrite Hch2, list_lookup_insert_ne by (intros ?; assert (j = i) as -> by lia; set_solver).
    apply Ho; [lia|set_solver].
  - transitivity (scalars m1); [by destruct m1|done].
Qed.

Lemma taken_trans t1 l1 t2 l2 m m1 m2 :
  taken_ok t1 l1 m m1 → taken_ok t2 l2 m1 m2 → NoDup (t1 ++ l1) → Forall (fun i => 0 <= i < chunkCount m) t1 →
  l1 ≡ₚ t2 ++ l2 → taken_ok (t1 ++ t2) l2 m m2.
Proof.
  intros H1 H2 (_ & Hd & _)%NoDup_app Hr Hp. rewrite Forall_forall in Hr.
  assert (∀ i, i ∈ l1 ↔ i ∈ t2 ∨ i ∈ l2) as Hl by (intros; rewrite Hp; apply elem_of_app).
  pose proof (tk_count _ _ _ _ H1) as Hc. split.
  - rewrite (tk_addr _ _ _ _ H2). apply H1.
  - rewrite (tk_count _ _ _ _ H2). apply H1.
  - rewrite (tk_len _ _ _ _ H2). apply H1.
  - apply H2.
  - intros i [Hi|Hi]%elem_of_app; [|by apply H2].
    rewrite (tk_other _ _ _ _ H2); [by apply H1|rewrite Hc; auto| |]; intros ?; apply (Hd i Hi); apply Hl; auto.
  - intros i Hi Hn Hn2. rewrite (tk_other _ _ _ _ H2); [|lia|set_solver|done].
    apply H1; [done|set_solver|]. rewrite Hl. set_solver.
Qed.

Section pull.
Context (f count : Z).
Definition in_run (i : Z) : Prop := f <= i < f + count.

Lemma taken_nil l m : seg m (freeChunks m) l 0 → taken_ok [] l m m.
Proof. intros. split; [done..|set_solver|done]. Qed.

(** The walk takes exactly the chunks of the run off the free list. *)
Lemma pull_chunks_ok fuel rest : ∀ pre remaining m,
  chunkCount m <= Z.of_nat (length (chunks m)) → NoDup (pre ++ rest) →
  seg m (freeChunks m) (pre ++ rest) 0 → remaining = Z.of_nat (length (filter in_run rest)) →
  (length rest <= fuel)%nat →
  ∃ m', pull_chunks fuel (chunk_ptr m f) (chunk_ptr m (f + (count - 1))) remaining (last pre) m = Ret m' ∧
    taken_ok (filter in_run rest) (pre ++ filter (fun i => ¬ in_run i) rest) m m' ∧ scalars m' = scalars m.
Proof.
  revert fuel. induction rest as [|i rest IH]; intros fuel pre remaining m Hlen Hnd Hs Hrem Hfuel.
  - exists m. subst. cbn in *. split_and!; [by destruct fuel| |done]. by apply taken_nil.
  - destruct fuel as [|fuel]; cbn [length] in Hfuel; [lia|].
    destruct (unlink_spec m pre i rest Hlen Hnd Hs) as (next & Hf & Hg & Ht & Hsc).
    cbn [pull_chunks]. destruct (Z.ltb_spec 0 remaining) as [Hpos|Hz].
    2: { assert (filter in_run (i :: rest) = []) as Hnil by (apply nil_length_inv; lia).
      exists m. split_and!; [done| |done]. rewrite Hnil.
      assert (filter (fun j => ¬ in_run j) (i :: rest) = i :: rest) as ->; [|by apply taken_nil].
      clear -Hnil. induction (i :: rest) as [|j l IHl]; [done|].
      rewrite filter_cons in Hnil |- *. destruct (decide (in_run j)); [done|].
      rewrite decide_True by done. f_equal. auto. }
    rewrite Hf. cbn [mbind outcome_bind]. rewrite chunk_index_ptr, Hg. cbn [mbind outcome_bind].
    assert ((chunk_ptr m f <=? chunk_ptr m i) && (chunk_ptr m i <=? chunk_ptr m (f + (count - 1)))
      = bool_decide (in_run i)) as ->.
    { unfold chunk_ptr, in_run. case_bool_decide; [apply andb_true_iff|apply andb_false_iff]; rewrite ?Z.leb_le, ?Z.leb_gt; lia. }
    rewrite filter_cons in Hrem. rewrite !(filter_cons _ i rest).
    case_bool_decide as Hin.
    + rewrite decide_True in Hrem by done. cbn [length] in Hrem.
      rewrite decide_True, decide_False by (done || tauto).
      set (m1 := set_chunk i 1 (relink (last pre) next m)) in *.
      assert (NoDup (i :: pre ++ rest)) as Hnd1 by by rewrite Permutation_middle.
      assert (NoDup (pre ++ rest)) as Hnd' by by apply NoDup_cons in Hnd1 as [].
      destruct (IH fuel pre (remaining - 1) m1) as (m' & Hp & Ht' & Hsc'); [|done|apply Ht|lia|lia|].
      { rewrite (tk_count _ _ _ _ Ht), (tk_len _ _ _ _ Ht). done. }
      assert (chunk_ptr m1 = chunk_ptr m) as Hptr.
      { unfold chunk_ptr. by rewrite (tk_addr _ _ _ _ Ht). }
      rewrite Hptr in Hp. exists m'. split_and!; [done| |congruence].
      apply (taken_trans [i] (pre ++ rest) _ _ m m1 m'); [done|done| | |].
      * done.
      * apply Forall_singleton. apply seg_app in Hs as (? & _ & _ & ? & _). done.
      * rewrite <- (filter_app_complement in_run rest) at 1. rewrite !app_assoc. f_equiv. apply Permutation_app_comm.
    + rewrite decide_False in Hrem by done. rewrite decide_False, decide_True by done.
      destruct (IH fuel (pre ++ [i]) remaining m) as (m' & Hp & Ht' & Hsc');
        [done|by rewrite <- app_assoc|by rewrite <- app_assoc|done|lia|].
      rewrite last_snoc in Hp. exists m'. rewrite <- app_assoc in Ht'. done.
Qed.
End pull.

Definition run (f count : Z) : list Z := (fun k => f + Z.of_nat k) <$> seq 0 (Z.to_nat count).

Lemma run_elem f count i : i ∈ run f count ↔ in_run f count i.
Proof.
  unfold run, in_run. rewrite list_elem_of_fmap. setoid_rewrite elem_of_seq. split.
  - intros (k & -> & ?). lia.
  - intros. exists (Z.to_nat (i - f)). lia.
Qed.

Lemma run_NoDup f count : NoDup (run f count).
Proof. apply NoDup_fmap_2; [intros ? ? ?; lia|apply NoDup_seq]. Qed.

Lemma filter_run l f count :
  NoDup l → (∀ i, in_run f count i → i ∈ l) → filter (in_run f count) l ≡ₚ run f count.
Proof.
  intros Hnd Hin. apply NoDup_Permutation; [by apply NoDup_filter|apply run_NoDup|].
  intros i. rewrite run_elem, list_elem_of_filter. naive_solver.
Qed.

Lemma take_chunks_ok fuel count l m :
  mc_ok l m → 0 < count → range_fits count m = true → (length l <= fuel)%nat →
  let f := firstFreeChunk m in
  let left := filter (fun i => ¬ in_run f count i) l in
  ∃ m', take_chunks fuel count m = Ret (bool_decide (left = []), chunk_ptr m f, m') ∧ mc_ok left m' ∧
    taken_ok (run f count) left m m' ∧ usedChunkCount m' = usedChunkCount m + count ∧
    chunkSize m' = chunkSize m ∧ chunkBase m' = chunkBase m ∧ totalSize m' = totalSize m ∧
    length l = (Z.to_nat count + length left)%nat.
Proof.
  intros Hok Hcount Hfit Hfuel f left. apply Z.leb_le in Hfit.
  pose proof (mc_used _ _ Hok) as Hu. pose proof (mc_used_nonneg _ _ Hok) as Hu0.
  pose proof (mc_small _ _ Hok) as Hsm. rewrite small_chunks_eq in Hsm. pose proof (mc_count _ _ Hok) as Hc.
  pose proof (mc_first _ _ Hok) as Hfi. pose proof (mc_last _ _ Hok) as Hla.
  assert (filter (in_run f count) l ≡ₚ run f count) as Hrun.
  { apply filter_run; [apply Hok|]. intros i Hi. apply (mc_range _ _ Hok). unfold in_run in Hi. subst f. lia. }
  assert (length (run f count) = Z.to_nat count) as Hrl by (unfold run; by rewrite length_fmap, length_seq).
  assert (length l = (Z.to_nat count + length left)%nat) as Hlen.
  { rewrite <- (filter_app_complement (in_run f count) l), length_app, Hrun, Hrl. done. }
  destruct (pull_chunks_ok f count fuel l [] count m) as (m1 & Hp & Ht & Hsc);
    [lia|apply Hok|apply Hok|rewrite Hrun, Hrl; lia|done|].
  cbn [last app] in Hp, Ht. fold left in Ht.
  assert (taken_ok (run f count) left m m1) as Ht1.
  { split; try apply Ht; intros i; rewrite <- ?Hrun; apply Ht. }
  set (m2 := m1 <| usedChunkCount ::= fun n => u16 (n + count) |>).
  set (m' := m2 <| firstFreeChunk ::= fun n => u16 (n + count) |>).
  injection Hsc as E1 E2 E3 E4 E5 E6 E7.
  assert (usedChunkCount m' = usedChunkCount m + count) as Hu'.
  { change (u16 (usedChunkCount m1 + count) = usedChunkCount m + count). rewrite E5. apply wrap_small. unfold fits. lia. }
  assert (firstFreeChunk m' = f + count) as Hf'.
  { change (u16 (firstFreeChunk m1 + count) = f + count). rewrite E6. apply wrap_small. unfold fits, f. lia. }
  assert (taken_ok (run f count) left m m') as Ht'.
  { split; try apply Ht1. eapply seg_fields; [..|apply Ht1]; done. }
  exists m'. split_and!; try done.
  - unfold take_chunks. cbv zeta. fold f. rewrite Hp. cbn [mbind outcome_bind]. do 3 f_equal.
    change (usedChunkCount m1 <| usedChunkCount ::= λ n : Z, u16 (n + count) |>) with (usedChunkCount m').
    rewrite Hu', Hu. change (chunkCount m1 <| usedChunkCount ::= λ n : Z, u16 (n + count) |>) with (chunkCount m1).
    rewrite E4. destruct left as [|j left'] eqn:El; cbn [length] in Hlen.
    + rewrite bool_decide_eq_true_2 by done. apply Z.eqb_eq. lia.
    + rewrite bool_decide_eq_false_2 by done. apply Z.eqb_neq. lia.
  - assert (chunkCount m' = chunkCount m) as Hcc by apply Ht'. split; rewrite ?Hcc.
    + rewrite (tk_addr _ _ _ _ Ht'). apply Hok.
    + by rewrite (tk_len _ _ _ _ Ht').
    + rewrite (tk_len _ _ _ _ Ht'). apply Hok.
    + apply Ht'.
    + apply NoDup_filter, Hok.
    + rewrite Hu'. lia.
    + lia.
    + intros i Hi. eapply taken_allocated; [exact Hok|exact Ht'| |done].
      intros j Hj. rewrite run_elem. subst left. rewrite list_elem_of_filter.
      destruct (decide (in_run f count j)); auto.
    + lia.
    + change (lastFreeChunk m') with (lastFreeChunk m1). rewrite E7. lia.
    + change (lastFreeChunk m') with (lastFreeChunk m1). rewrite E7. intros i Hi.
      subst left. rewrite list_elem_of_filter. split; [unfold in_run; lia|].
      apply (mc_range _ _ Hok). subst f. lia.
Qed.

(** ** Freeing a chunk *)

Lemma extend_down_ok l m n : ∀ f,
  mc_ok l m → 0 <= f <= chunkCount m → (Z.to_nat f <= n)%nat →
  ∃ f', extend_down n f m = Ret f' ∧ 0 <= f' <= f ∧ ∀ j, f' <= j < f → j ∈ l.
Proof.
  induction n as [|n IH]; intros f Hok Hf Hn; cbn [extend_down].
  - assert (f = 0) as -> by lia. exists 0. split_and!; [done|lia..].
  - destruct (Z.ltb_spec 0 f); [|exists f; split_and!; [done|lia..]].
    destruct (chunk_lookup l m (f - 1) Hok) as (v & Hv & Hg); [lia|].
    rewrite Hg. cbn [mbind outcome_bind]. pose proof (is_chunk_free_spec l m (f - 1) v Hok) as Hspec.
    destruct (IsChunkFree m v); cbn [negb]; [|exists f; split_and!; [done|lia..]].
    destruct (IH (f - 1) Hok) as (f' & -> & Hf' & Hj); [lia|lia|].
    exists f'. split_and!; [done|lia..|]. intros j Hj'.
    destruct (decide (j = f - 1)) as [->|]; [apply Hspec; [lia|done..]|apply Hj; lia].
Qed.

Lemma extend_up_ok l m n : ∀ la,
  mc_ok l m → 0 <= la < chunkCount m → (Z.to_nat (chunkCount m - la) <= n)%nat →
  ∃ la', extend_up n la m = Ret la' ∧ la <= la' < chunkCount m ∧ ∀ j, la < j <= la' → j ∈ l.
Proof.
  induction n as [|n IH]; intros la Hok Hf Hn; cbn [extend_up]; [lia|].
  destruct (Z.ltb_spec (la + 1) (chunkCount m)); [|exists la; split_and!; [done|lia..]].
  destruct (chunk_lookup l m (la + 1) Hok) as (v & Hv & Hg); [lia|].
  rewrite Hg. cbn [mbind outcome_bind]. pose proof (is_chunk_free_spec l m (la + 1) v Hok) as Hspec.
  destruct (IsChunkFree m v); cbn [negb]; [|exists la; split_and!; [done|lia..]].
  destruct (IH (la + 1) Hok) as (f' & -> & Hf' & Hj); [lia|lia|].
  exists f'. split_and!; [done|lia..|]. intros j Hj'.
  destruct (decide (j = la + 1)) as [->|]; [apply Hspec; [lia|done..]|apply Hj; lia].
Qed.

(** The chunk pushed on the free list, before the bounds are extended. *)
Lemma pushed_ok i l m :
  mc_ok l m → 0 <= i < chunkCount m → i ∉ l →
  let m1 := push_chunk i m in
  let m2 := m1 <| usedChunkCount ::= fun n => u16 (n - 1) |> in
  0 < usedChunkCount m ∧ mc_ok (i :: l) m2 ∧ usedChunkCount m2 = usedChunkCount m - 1 ∧
  (∀ j, 0 <= j → j ≠ i → chunks m2 !! Z.to_nat j = chunks m !! Z.to_nat j).
Proof.
  intros Hok Hi Hl m1 m2. pose proof (push_chunk_fields i m) as (Ha & Hc & Hf & Hch & Hu & Hfi & Hla & _).
  assert (Z.of_nat (length (i :: l)) <= chunkCount m) as Hlen.
  { assert ((length (i :: l) <= length (indexes (Z.to_nat (chunkCount m))))%nat) as Hs.
    { apply submseteq_length, NoDup_submseteq; [apply NoDup_cons; split; [done|apply Hok]|].
      pose proof (seg_range _ _ _ _ (mc_free _ _ Hok)) as Hr. rewrite Forall_forall in Hr.
      intros j [->|Hj%Hr]%elem_of_cons; apply indexes_elem; lia. }
    unfold indexes in Hs. rewrite length_fmap, length_seq in Hs. lia. }
  cbn [length] in Hlen. pose proof (mc_used _ _ Hok) as Hused.
  pose proof (mc_small _ _ Hok) as Hsm. rewrite small_chunks_eq in Hsm. pose proof (mc_count _ _ Hok) as Hcnt.
  assert (usedChunkCount m2 = usedChunkCount m - 1) as Hu2.
  { change (u16 (usedChunkCount m1 - 1) = usedChunkCount m - 1). subst m1. rewrite Hu. apply wrap_small. unfold fits. lia. }
  assert (chunks m2 = <[Z.to_nat i := freeChunks m]> (chunks m)) as Hch2 by exact Hch.
  assert (∀ j, 0 <= j → j ≠ i → chunks m2 !! Z.to_nat j = chunks m !! Z.to_nat j) as Hother.
  { intros j Hj Hne. rewrite Hch2. apply list_lookup_insert_ne. lia. }
  assert (chunkCount m2 = chunkCount m) as Hc2 by exact Hc.
  split_and!; [lia| |done|done].
  split; rewrite ?Hc2.
  - change (1 < chunks_addr m1). subst m1. rewrite Ha. apply Hok.
  - by rewrite Hch2, length_insert.
  - rewrite Hch2, length_insert. apply Hok.
  - eapply seg_fields; [..|apply (push_seg i l 0 m)]; [done..|lia|lia|done|apply Hok].
  - apply NoDup_cons. split; [done|apply Hok].
  - rewrite Hu2. cbn [length]. lia.
  - lia.
  - intros j Hj Hn. apply not_elem_of_cons in Hn as [Hne Hn].
    destruct (mc_alloc _ _ Hok j Hj Hn) as (v & Hv & Hfree). exists v. rewrite Hother by (lia || done).
    split; [done|]. unfold IsChunkFree in *. rewrite Hc2. change (chunks_addr m2) with (chunks_addr m1).
    subst m1. by rewrite Ha.
  - change (firstFreeChunk m2) with (firstFreeChunk m1). subst m1. rewrite Hfi. apply Hok.
  - change (lastFreeChunk m2) with (lastFreeChunk m1). subst m1. rewrite Hla. apply Hok.
  - intros j Hj. apply list_elem_of_further, (mc_range _ _ Hok). rewrite <- Hfi, <- Hla. exact Hj.
Qed.

Lemma mc_ok_range l m f la :
  mc_ok l m → 0 <= f <= chunkCount m → 0 <= la < chunkCount m → (∀ j, f <= j <= la → j ∈ l) →
  mc_ok l (m <| firstFreeChunk := f |> <| lastFreeChunk := la |>).
Proof. intros Hok Hf Hla Hr. destruct Hok. split; try done. by eapply seg_fields; [..|eassumption]. Qed.

Definition freed_ok (l' : list Z) (m m' : MetaChunk) (kind : freed_kind) : Prop :=
  match kind with
  | NowEmpty => usedChunkCount m = 1 ∧ chunkSize m' = 0
  | WasFull => usedChunkCount m = chunkCount m ∧ chunkCount m ≠ 1 ∧ mc_ok l' m' ∧ chunkSize m' = chunkSize m
  | Partial => 1 < usedChunkCount m < chunkCount m ∧ mc_ok l' m' ∧ chunkSize m' = chunkSize m
  end.

Lemma free_chunk_ok i l m :
  mc_ok l m → 0 <= i < chunkCount m → i ∉ l →
  ∃ kind m', free_chunk i m = Ret (kind, m') ∧ freed_ok (i :: l) m m' kind ∧
    usedChunkCount m' = usedChunkCount m - 1 ∧ chunkBase m' = chunkBase m ∧ totalSize m' = totalSize m ∧
    chunkCount m' = chunkCount m ∧ chunks_addr m' = chunks_addr m ∧ length (chunks m') = length (chunks m).
Proof.
  intros Hok Hi Hl. destruct (pushed_ok i l m Hok Hi Hl) as (Hpos & Hok2 & Hu2 & Ho).
  pose proof (push_chunk_fields i m) as (Ha & Hc & Hf & Hch & Hu & Hfi & Hla & Hsz & Hb & Ht).
  unfold free_chunk. cbv zeta. rewrite Hu. destruct (Z.ltb_spec 0 (usedChunkCount m)); [|lia].
  cbn [assert mbind outcome_bind].
  set (m2 := (push_chunk i m) <| usedChunkCount ::= fun n => u16 (n - 1) |>) in *.
  assert (length (chunks m2) = length (chunks m)) as Hlen.
  { change (chunks m2) with (chunks (push_chunk i m)). by rewrite Hch, length_insert. }
  rewrite Hu2. change (chunkCount m2) with (chunkCount (push_chunk i m)). rewrite Hc.
  change (firstFreeChunk m2) with (firstFreeChunk (push_chunk i m)).
  change (lastFreeChunk m2) with (lastFreeChunk (push_chunk i m)). rewrite Hfi, Hla.
  assert (0 <= i < 32 ∧ chunkCount m <= 32) as [H32 H32'].
  { pose proof (mc_small _ _ Hok) as Hsm. rewrite small_chunks_eq in Hsm. pose proof (mc_count _ _ Hok). lia. }
  pose proof (mc_used _ _ Hok2) as Hused. rewrite Hu2 in Hused.
  change (chunkCount m2) with (chunkCount (push_chunk i m)) in Hused. rewrite Hc in Hused. cbn [length] in Hused.
  assert (chunkCount m2 = chunkCount m) as Hc2 by exact Hc.
  pose proof (mc_first _ _ Hok) as Hf0. pose proof (mc_last _ _ Hok) as Hl0. pose proof (mc_range _ _ Hok) as Hr0.
  destruct (Z.eqb_spec (usedChunkCount m - 1) 0) as [He|He].
  { eexists NowEmpty, _. split_and!; try done. split; [lia|done]. }
  destruct (Z.eqb_spec (usedChunkCount m - 1) (chunkCount m - 1)) as [He2|He2].
  { eexists WasFull, _. split_and!; try done. split_and!; [lia|lia| |done].
    rewrite wrap_small by (unfold fits; lia). apply mc_ok_range; [done|lia|lia|].
    intros j Hj. assert (j = i) as -> by lia. set_solver. }
  destruct (Z.eqb_spec (i + 1) (firstFreeChunk m)) as [He3|He3].
  { destruct (extend_down_ok (i :: l) m2 (Z.to_nat i) i Hok2) as (f' & -> & Hf' & Hj); [lia|lia|].
    cbn [mbind outcome_bind]. eexists Partial, _. split_and!; try done. split_and!; [lia|lia| |done].
    rewrite wrap_small by (unfold fits; lia).
    apply (mc_ok_range (i :: l) m2 f' (lastFreeChunk m)); [done|lia|lia|].
    intros j Hj'. destruct (decide (j = i)) as [->|]; [set_solver|].
    destruct (decide (j < i)); [apply Hj; lia|]. apply list_elem_of_further, Hr0. lia. }
  destruct (Z.eqb_spec i (lastFreeChunk m + 1)) as [He4|He4].
  { destruct (extend_up_ok (i :: l) m2 (Z.to_nat (chunkCount m - i)) i Hok2) as (la' & -> & Hl' & Hj); [lia|lia|].
    cbn [mbind outcome_bind]. eexists Partial, _. split_and!; try done. split_and!; [lia|lia| |done].
    rewrite wrap_small by (unfold fits; lia).
    apply (mc_ok_range (i :: l) m2 (firstFreeChunk m) la'); [done|lia|lia|].
    intros j Hj'. destruct (decide (j = i)) as [->|]; [set_solver|].
    destruct (decide (i < j)); [apply Hj; lia|]. apply list_elem_of_further, Hr0. lia. }
  eexists Partial, _. split_and!; try done. split_and!; [lia|lia|done|done].
Qed.

(** ** The meta chunk as a set of allocated chunks

    The calls the memory manager makes on a meta chunk in use, with the
    conditions under which it makes them. *)
Inductive chunk_call := CGet | CGetRun (count : Z) | CFree (i : Z).

Definition chunk_step (c : chunk_call) (m : MetaChunk) : outcome (list Z * MetaChunk) :=
  match c with
  | CGet => '(_, p, m') ← take_chunk m; Ret ([chunk_index m p], m')
  | CGetRun count =>
      '(_, p, m') ← take_chunks (Z.to_nat (chunkCount m)) count m; Ret (run (chunk_index m p) count, m')
  | CFree i => '(_, m') ← free_chunk i m; Ret ([], m')
  end.

(** A chunk is taken from a meta chunk that is not full, a run when it fits
    between the bounds, and a chunk is freed while it is allocated; freeing the
    last one ends the use of the meta chunk. *)
Definition admissible (c : chunk_call) (A : gset Z) (m : MetaChunk) : Prop :=
  match c with
  | CGet => usedChunkCount m < chunkCount m
  | CGetRun count => 0 < count ∧ range_fits count m = true
  | CFree i => i ∈ A ∧ 1 < usedChunkCount m
  end.

Definition spec_step (c : chunk_call) (res : list Z) (A : gset Z) : gset Z :=
  match c with
  | CGet | CGetRun _ => A ∪ list_to_set res
  | CFree i => A ∖ {[i]}
  end.

(** [A] is the set of allocated chunks, as [_IsChunkFree] sees them. *)
Definition allocated_set (A : gset Z) (m : MetaChunk) : Prop :=
  usedChunkCount m = Z.of_nat (size A) ∧
  (∀ i, i ∈ A → 0 <= i < chunkCount m) ∧
  ∀ i, 0 <= i < chunkCount m → ∃ v, chunks m !! Z.to_nat i = Some v ∧ (IsChunkFree m v = false ↔ i ∈ A).

(** Every admissible sequence of calls runs, hands out only chunks that are
    not allocated, a run as adjoining chunks, and tracks the set. *)
Fixpoint chunk_trace (cs : list chunk_call) (A : gset Z) (m : MetaChunk) : Prop :=
  allocated_set A m ∧
  match cs with
  | [] => True
  | c :: cs =>
      admissible c A m →
      ∃ res m', chunk_step c m = Ret (res, m') ∧
        match c with
        | CGet => length res = 1%nat
        | CGetRun n => ∃ f, res = run f n
        | CFree _ => res = []
        end ∧
        Forall (fun i => 0 <= i < chunkCount m ∧ i ∉ A) res ∧ chunk_trace cs (spec_step c res A) m'
  end.

Definition free_complement (l : list Z) (A : gset Z) (m : MetaChunk) : Prop :=
  ∀ i, i ∈ A ↔ 0 <= i < chunkCount m ∧ i ∉ l.

Lemma complement_size l A m :
  mc_ok l m → free_complement l A m → usedChunkCount m = Z.of_nat (size A).
Proof.
  intros Hok HA. rewrite (mc_used _ _ Hok). pose proof (mc_count _ _ Hok).
  assert (list_to_set l ∪ A = list_to_set (C := gset Z) (indexes (Z.to_nat (chunkCount m)))) as Heq.
  { apply set_eq. intros i. rewrite elem_of_union, !elem_of_list_to_set, indexes_elem.
    pose proof (seg_range _ _ _ _ (mc_free _ _ Hok)) as Hr. rewrite Forall_forall in Hr.
    split.
    - intros [Hi%Hr|[Hi _]%HA]; lia.
    - intros Hi. destruct (decide (i ∈ l)); [by left|]. right. apply HA. split; [lia|done]. }
  apply (f_equal size) in Heq. rewrite size_union in Heq.
  - rewrite !size_list_to_set in Heq by (apply indexes_NoDup || apply Hok).
    unfold indexes in Heq. rewrite length_fmap, length_seq in Heq. lia.
  - intros i Hi%elem_of_list_to_set [_ Hn]%HA. done.
Qed.

Lemma complement_allocated l A m : mc_ok l m → free_complement l A m → allocated_set A m.
Proof.
  intros Hok HA. split_and!; [by eapply complement_size|by intros i [? _]%HA|].
  intros i Hi. destruct (chunk_lookup l m i Hok Hi) as (v & Hv & _). exists v. split; [done|].
  pose proof (is_chunk_free_spec l m i v Hok Hi Hv) as Hf. rewrite (HA i).
  destruct (IsChunkFree m v); split; intros; try done.
  - destruct H as [_ H]. destruct H. by apply Hf.
  - split; [done|]. intros H'%Hf. done.
Qed.

Lemma get_step l A m cs :
  mc_ok l m → free_complement l A m → usedChunkCount m < chunkCount m →
  (∀ l A m, mc_ok l m → free_complement l A m → chunk_trace cs A m) →
  ∃ res m', chunk_step CGet m = Ret (res, m') ∧ length res = 1%nat ∧
    Forall (fun i => 0 <= i < chunkCount m ∧ i ∉ A) res ∧ chunk_trace cs (spec_step CGet res A) m'.
Proof.
  intros Hok HA Hadm IH. destruct l as [|i l].
  { pose proof (mc_used _ _ Hok) as Hu. cbn in Hu. lia. }
  pose proof (mc_free _ _ Hok) as (_ & Hi & _). pose proof (mc_nodup _ _ Hok) as [Hil _]%NoDup_cons.
  destruct (take_chunk_ok i l m Hok) as (m' & Hs & Hok' & Ht & _).
  exists [i], m'. cbn [chunk_step]. rewrite Hs. cbn [mbind outcome_bind]. rewrite chunk_index_ptr. split_and!; [done|done| |].
  - apply Forall_singleton. split; [done|]. intros [_ []]%HA. set_solver.
  - apply (IH l _ _ Hok'). intros j. rewrite (tk_count _ _ _ _ Ht). cbn [spec_step]. rewrite elem_of_union, (HA j).
    cbn [list_to_set]. destruct (decide (j = i)) as [->|]; set_solver.
Qed.

Lemma run_step l A m cs count :
  mc_ok l m → free_complement l A m → 0 < count → range_fits count m = true →
  (∀ l A m, mc_ok l m → free_complement l A m → chunk_trace cs A m) →
  ∃ res m', chunk_step (CGetRun count) m = Ret (res, m') ∧ (∃ f, res = run f count) ∧
    Forall (fun i => 0 <= i < chunkCount m ∧ i ∉ A) res ∧ chunk_trace cs (spec_step (CGetRun count) res A) m'.
Proof.
  intros Hok HA Hc Hfit IH.
  assert ((length l <= Z.to_nat (chunkCount m))%nat) as Hfuel.
  { pose proof (mc_used _ _ Hok). pose proof (mc_used_nonneg _ _ Hok). lia. }
  destruct (take_chunks_ok (Z.to_nat (chunkCount m)) count l m Hok Hc Hfit Hfuel) as (m' & Hs & Hok' & Ht & _).
  exists (run (firstFreeChunk m) count), m'. cbn [chunk_step mbind outcome_bind]. rewrite Hs.
  cbn [mbind outcome_bind]. rewrite chunk_index_ptr.
  assert (∀ j, j ∈ run (firstFreeChunk m) count → j ∈ l) as Hin.
  { intros j Hj%run_elem. apply (mc_range _ _ Hok). apply Z.leb_le in Hfit. unfold in_run in Hj. lia. }
  split_and!; [done|by eexists| |].
  - apply Forall_forall. intros j Hj%Hin.
    pose proof (seg_range _ _ _ _ (mc_free _ _ Hok)) as Hr. rewrite Forall_forall in Hr.
    split; [by apply Hr|]. intros [_ []]%HA. done.
  - apply (IH _ _ _ Hok'). intros j. rewrite (tk_count _ _ _ _ Ht). cbn [spec_step].
    rewrite elem_of_union, elem_of_list_to_set, (HA j), list_elem_of_filter, run_elem.
    pose proof (seg_range _ _ _ _ (mc_free _ _ Hok)) as Hr. rewrite Forall_forall in Hr.
    pose proof (Hin j) as Hinj. rewrite run_elem in Hinj. pose proof (Hr j).
    destruct (decide (in_run (firstFreeChunk m) count j)); tauto.
Qed.

Lemma free_step l A m cs i :
  mc_ok l m → free_complement l A m → i ∈ A → 1 < usedChunkCount m →
  (∀ l A m, mc_ok l m → free_complement l A m → chunk_trace cs A m) →
  ∃ res m', chunk_step (CFree i) m = Ret (res, m') ∧ res = [] ∧
    Forall (fun i => 0 <= i < chunkCount m ∧ i ∉ A) res ∧ chunk_trace cs (spec_step (CFree i) res A) m'.
Proof.
  intros Hok HA Hi Hu IH. apply HA in Hi as [Hi Hl].
  destruct (free_chunk_ok i l m Hok Hi Hl) as (kind & m' & Hs & Hfr & _ & _ & _ & Hc & _).
  exists [], m'. cbn [chunk_step]. rewrite Hs. cbn [mbind outcome_bind]. split_and!; [done|done|constructor|].
  assert (mc_ok (i :: l) m') as Hok'. { destruct kind; cbn in Hfr; [lia|apply Hfr..]. }
  apply (IH _ _ _ Hok'). intros j. rewrite Hc. cbn [spec_step].
  rewrite elem_of_difference, (HA j), elem_of_singleton, elem_of_cons. tauto.
Qed.

Lemma chunk_trace_ok cs : ∀ l A m, mc_ok l m → free_complement l A m → chunk_trace cs A m.
Proof.
  induction cs as [|c cs IH]; intros l A m Hok HA; (split; [by eapply complement_allocated|]); [done|].
  destruct c; cbn [admissible].
  - intros. by eapply get_step.
  - intros [? ?]. by eapply run_step.
  - intros [? ?]. by eapply free_step.
Qed.

(** C36: A meta chunk prepared by _PrepareMetaChunk behaves like a set of
    allocated chunk numbers under every admissible sequence of the calls
    _GetChunk, _GetChunks and _FreeChunk make on it: each call returns,
    hands out only chunks that are not allocated (several as one adjoining
    run), usedChunkCount is the size of the set, and _IsChunkFree, which
    looks at the untagged union, answers membership. The walk over the free
    list needs at most chunkCount steps. *)
Theorem meta_chunk_refines_set (base admin size : Z) (first : bool) (m : MetaChunk) (cs : list chunk_call)
    (Haddr : 1 < chunks_addr m) (Hlen : length (chunks m) = 32%nat)
    (Hsize : let usable := if first then SLAB_CHUNK_SIZE_LARGE - roundup (SLAB_AREA_STRUCT_OFFSET + admin) size
                           else totalSize m in 0 < usable / size <= 32) :
  chunk_trace cs ∅ (PrepareMetaChunk base admin first size m).
Proof.
  destruct (prepare_ok base admin first size m Haddr Hlen Hsize) as (Hok & Hc & _).
  apply (chunk_trace_ok cs _ _ _ Hok). intros i. rewrite Hc, indexes_elem. split; [set_solver|].
  intros [Hi []]. lia.
Qed.

Lemma meta_chunk_refines_set_witness :
  chunk_trace [CGet; CGetRun 3; CFree 0; CGet; CFree 2] ∅
    (PrepareMetaChunk 1048576 16384 true SLAB_CHUNK_SIZE_SMALL
       (mkMeta 0 0 0 0 0 0 0 (replicate 32 0) 0 4096)).
Proof.
  apply (meta_chunk_refines_set 1048576 16384 SLAB_CHUNK_SIZE_SMALL true); [reflexivity|reflexivity|].
  vm_compute. split; [reflexivity|discriminate].
Defined.

Lemma chunk_address_eq m j :
  0 < chunkSize m → 0 <= chunkBase m → chunkBase m + totalSize m <= 2 ^ 64 →
  chunkCount m = totalSize m / chunkSize m → 0 <= j < chunkCount m →
  ChunkAddress m (chunk_ptr m j) = chunkBase m + j * chunkSize m ∧
  chunkBase m + j * chunkSize m + chunkSize m <= chunkBase m + totalSize m.
Proof.
  intros Hsize Hbase Hend Hcount Hj.
  assert (chunkCount m * chunkSize m <= totalSize m) as Hfit.
  { rewrite Hcount, Z.mul_comm. by apply Z.mul_div_le. }
  unfold ChunkAddress. rewrite chunk_index_ptr, wrap_small; [nia|]. unfold fits. nia.
Qed.

Lemma chunk_index_eq m i off :
  0 < chunkSize m → 0 <= i < 2 ^ 32 → 0 <= off < chunkSize m →
  ChunkIndexForAddress m (chunkBase m + i * chunkSize m + off) = i.
Proof.
  intros Hsize Hi Hoff. unfold ChunkIndexForAddress.
  replace (chunkBase m + i * chunkSize m + off - chunkBase m) with (off + i * chunkSize m) by lia.
  rewrite Z.div_add, (Z.div_small off) by lia. cbn [Z.add]. apply wrap_small. unfold fits. lia.
Qed.

(** Every address inside a chunk of a meta chunk is mapped back to that
    chunk by _ChunkIndexForAddress, every chunk lies inside the meta chunk,
    and different chunks do not overlap. *)
Lemma chunk_address_roundtrip (m : MetaChunk) (i off : Z)
    (Hsize : 0 < chunkSize m) (Hbase : 0 <= chunkBase m) (Hend : chunkBase m + totalSize m <= 2 ^ 64)
    (Hcount : chunkCount m = totalSize m / chunkSize m) (Hsmall : chunkCount m <= 32)
    (Hi : 0 <= i < chunkCount m) (Hoff : 0 <= off < chunkSize m) :
  let a := ChunkAddress m (chunk_ptr m i) in
  ChunkIndexForAddress m (a + off) = i ∧ chunkBase m <= a ∧ a + chunkSize m <= chunkBase m + totalSize m ∧
  ∀ j, 0 <= j < chunkCount m → j ≠ i →
    let b := ChunkAddress m (chunk_ptr m j) in b + chunkSize m <= a ∨ a + chunkSize m <= b.
Proof.
  cbv zeta. destruct (chunk_address_eq m i Hsize Hbase Hend Hcount Hi) as [-> Hle]. split_and!; [|nia|done|].
  - apply chunk_index_eq; lia.
  - intros j Hj Hne. destruct (chunk_address_eq m j Hsize Hbase Hend Hcount Hj) as [-> _]. nia.
Qed.

Lemma chunk_address_roundtrip_witness :
  let m := PrepareMetaChunk 1048576 16384 true SLAB_CHUNK_SIZE_MEDIUM
       (mkMeta 0 0 0 0 0 0 0 (replicate 32 0) 0 4096) in
  ChunkIndexForAddress m (ChunkAddress m (chunk_ptr m 2) + 77) = 2.
Proof.
  intros m. apply (chunk_address_roundtrip m 2 77); vm_compute; try split; (reflexivity || discriminate || done).
Defined.
