(* ===== verification/SlabManager.v ===== *)
(** slab/mm_manager.cpp and mm_manager.h: [MemoryManager], which cuts slab
    areas into meta chunks and those into chunks.

    Every meta chunk is identified by the base address of its area and its
    index in it; the meta chunks of all areas are one map.  What a function
    does between [mutex_unlock(&sLock)] and [mutex_lock(&sLock)] is not under
    the lock: other threads change the manager there, which an argument
    [others] of the function stands for.  [kAreaAdminSize] is the size of the
    area structure, which the compiler fixes. *)
From S2P Require Import Prelude SlabChunks.
From stdpp Require Import base list list_numbers numbers gmap.
From Stdlib Require Import ZArith Lia.
Local Open Scope Z_scope.

Abbreviation mcid := (Z * Z)%type.

Record MemoryArea := mkArea {
  vmArea : option Z;
  reserved_memory_for_mapping : Z;
  usedMetaChunkCount : Z;
  fullyMapped : bool
}.
#[export] Instance eta_MemoryArea : Eta MemoryArea := fun a =>
  mkArea (vmArea a) (reserved_memory_for_mapping a) (usedMetaChunkCount a) (fullyMapped a).

Record manager := mkManager {
  areas : gmap Z MemoryArea;
  metaChunks : gmap mcid MetaChunk;
  sAreaTable : gset Z;
  sFreeAreas : list Z;
  sFreeAreaCount : Z;
  sFreeCompleteMetaChunks : list mcid;
  sFreeShortMetaChunks : list mcid;
  sPartialMetaChunksSmall : list mcid;
  sPartialMetaChunksMedium : list mcid;
  sMaintenanceNeeded : bool;
  sAllocationEntryCanWait : bool;
  sAllocationEntryDontWait : bool
}.
#[export] Instance eta_manager : Eta manager := fun s =>
  mkManager (areas s) (metaChunks s) (sAreaTable s) (sFreeAreas s) (sFreeAreaCount s)
    (sFreeCompleteMetaChunks s) (sFreeShortMetaChunks s) (sPartialMetaChunksSmall s)
    (sPartialMetaChunksMedium s) (sMaintenanceNeeded s) (sAllocationEntryCanWait s)
    (sAllocationEntryDontWait s).

(** The four meta chunk lists by name. *)
Inductive mclist := LComplete | LShort | LSmall | LMedium.
#[export] Instance mclist_eq_dec : EqDecision mclist.
Proof. solve_decision. Defined.

Definition get_list (n : mclist) (s : manager) : list mcid :=
  match n with
  | LComplete => sFreeCompleteMetaChunks s
  | LShort => sFreeShortMetaChunks s
  | LSmall => sPartialMetaChunksSmall s
  | LMedium => sPartialMetaChunksMedium s
  end.

Definition upd_list (n : mclist) (f : list mcid → list mcid) (s : manager) : manager :=
  match n with
  | LComplete => s <| sFreeCompleteMetaChunks ::= f |>
  | LShort => s <| sFreeShortMetaChunks ::= f |>
  | LSmall => s <| sPartialMetaChunksSmall ::= f |>
  | LMedium => s <| sPartialMetaChunksMedium ::= f |>
  end.

Definition MetaChunkListRemoveHead (n : mclist) (s : manager) : option mcid * manager :=
  match get_list n s with
  | [] => (None, s)
  | id :: l => (Some id, upd_list n (fun _ => l) s)
  end.

(** [STAILQ_REMOVE] runs off the list when the element is not on it. *)
Definition STAILQ_REMOVE (n : mclist) (id : mcid) (s : manager) : outcome manager :=
  _ ← assert (bool_decide (id ∈ get_list n s));
  Ret (upd_list n (remove_elem id) s).

Definition set_mc (id : mcid) (m : MetaChunk) (s : manager) : manager :=
  s <| metaChunks ::= <[id := m]> |>.

Definition upd_area (a : Z) (f : MemoryArea → MemoryArea) (s : manager) : manager :=
  s <| areas ::= alter f a |>.

(** ** Allocation flags (mm_allocator.h) *)

Record flags := mkFlags {
  DONT_WAIT_FOR_MEMORY : bool;
  DONT_LOCK_KERNEL : bool;
  ALIGN_ON_SIZE : bool;
  CONTIGUOUS_MEMORY : bool
}.

Section ops.
Context (kAreaAdminSize : Z).

(** ** Chunks *)

Definition prepare (id : mcid) (chunkSize : Z) (s : manager) : outcome manager :=
  m ← deref (metaChunks s !! id);
  Ret (set_mc id (PrepareMetaChunk id.1 kAreaAdminSize (id.2 =? 0) chunkSize m) s).

Definition inc_used (a : Z) (s : manager) : manager :=
  upd_area a (fun x => x <| usedMetaChunkCount ::= fun n => u16 (n + 1) |>) s.

(** The free meta chunk [_GetChunk] falls back to. *)
Definition free_meta_chunk (short : bool) (s : manager) : option mcid * manager :=
  if short then
    match MetaChunkListRemoveHead LShort s with
    | (Some id, s) => (Some id, s)
    | (None, s) => MetaChunkListRemoveHead LComplete s
    end
  else MetaChunkListRemoveHead LComplete s.

Definition _GetChunk (ml : option mclist) (chunkSize : Z) (s : manager)
  : outcome (option (mcid * Z) * manager) :=
  let partial := ml ≫= fun n => head (get_list n s) in
  '(r, s) ←
    match partial with
    | Some id => Ret (Some id, s)
    | None =>
        let '(r, s) := free_meta_chunk (negb (chunkSize =? SLAB_CHUNK_SIZE_LARGE)) s in
        match r with
        | None => Ret (None, s)
        | Some id =>
            s ← (if chunkSize =? SLAB_CHUNK_SIZE_LARGE then Ret s
                 else n ← deref ml; Ret (upd_list n (fun l => l ++ [id]) s));
            s ← prepare id chunkSize (inc_used id.1 s);
            Ret (Some id, s)
        end
    end;
  match r with
  | None => Ret (None, s)
  | Some id =>
      m ← deref (metaChunks s !! id);
      '(isFull, chunk, m) ← take_chunk m;
      let s := set_mc id m s in
      s ← match ml with
          | Some n => if isFull : bool then STAILQ_REMOVE n id s else Ret s
          | None => Ret s
          end;
      Ret (Some (id, chunk), s)
  end.

(** The search of [_GetChunks] through a partial list. *)
Fixpoint find_fitting (count : Z) (l : list mcid) (s : manager) : outcome (option mcid) :=
  match l with
  | [] => Ret None
  | id :: l =>
      m ← deref (metaChunks s !! id);
      if range_fits count m then Ret (Some id) else find_fitting count l s
  end.

Definition _GetChunks (ml : option mclist) (chunkSize chunkCount : Z) (s : manager)
  : outcome (option (mcid * Z) * manager) :=
  if chunkCount =? 1 then _GetChunk ml chunkSize s else
  n ← deref ml;
  found ← find_fitting chunkCount (get_list n s) s;
  '(r, s) ←
    match found with
    | Some id => Ret (Some id, s)
    | None =>
        let fits_short :=
          chunkCount <=? (SLAB_CHUNK_SIZE_LARGE - SLAB_AREA_STRUCT_OFFSET - kAreaAdminSize) / chunkSize in
        let '(r, s) := free_meta_chunk fits_short s in
        match r with
        | None => Ret (None, s)
        | Some id =>
            let s := upd_list n (fun l => l ++ [id]) s in
            s ← prepare id chunkSize (inc_used id.1 s);
            Ret (Some id, s)
        end
    end;
  match r with
  | None => Ret (None, s)
  | Some id =>
      m ← deref (metaChunks s !! id);
      '(isFull, chunk, m) ← take_chunks (Z.to_nat (SlabChunks.chunkCount m)) chunkCount m;
      let s := set_mc id m s in
      s ← (if isFull : bool then STAILQ_REMOVE n id s else Ret s);
      Ret (Some (id, chunk), s)
  end.

(** ** Areas *)

Definition meta_ids (a : Z) : list mcid :=
  (fun i => (a, Z.of_nat i)) <$> seq 0 (Z.to_nat SLAB_META_CHUNKS_PER_AREA).

Definition complete_ids (a : Z) : list mcid := tail (meta_ids a).

Definition _PushFreeArea (a : Z) (s : manager) : manager :=
  s <| sFreeAreas ::= cons a |> <| sFreeAreaCount ::= fun n => n + 1 |>.

Definition _PopFreeArea (s : manager) : option Z * manager :=
  if sFreeAreaCount s =? 0 then (None, s)
  else
    let s' := s <| sFreeAreaCount ::= fun n => n - 1 |> in
    match sFreeAreas s with
    | [] => (None, s')
    | a :: l => (Some a, s' <| sFreeAreas := l |>)
    end.

Definition _RequestMaintenance (s : manager) : manager :=
  if ((0 <? sFreeAreaCount s) && (sFreeAreaCount s <=? 2)) || sMaintenanceNeeded s then s
  else s <| sMaintenanceNeeded := true |>.

Fixpoint remove_complete (ids : list mcid) (s : manager) : outcome manager :=
  match ids with
  | [] => Ret s
  | id :: ids =>
      m ← deref (metaChunks s !! id);
      _ ← assert (usedChunkCount m =? 0);
      s ← STAILQ_REMOVE LComplete id s;
      remove_complete ids s
  end.

(** [delete_area] ends the area: it and its meta chunks are gone. *)
Definition drop_area (a : Z) (s : manager) : manager :=
  s <| areas ::= delete a |> <| metaChunks ::= filter (fun kv => kv.1.1 ≠ a) |>.

Definition _FreeArea (others : manager → manager) (a : Z) (areaRemoved : bool) (fl : flags) (s : manager)
  : outcome manager :=
  A ← deref (areas s !! a);
  _ ← assert (usedMetaChunkCount A =? 0);
  s ← (if areaRemoved then Ret s
       else
         m ← deref (metaChunks s !! (a, 0));
         _ ← assert (usedChunkCount m =? 0);
         s ← STAILQ_REMOVE LShort (a, 0) s;
         s ← remove_complete (complete_ids a) s;
         Ret (s <| sAreaTable ::= fun T => T ∖ {[a]} |>));
  if sFreeAreaCount s <=? 1 then Ret (_PushFreeArea a s)
  else if bool_decide (vmArea A = None) || DONT_LOCK_KERNEL fl then
    Ret (_RequestMaintenance (_PushFreeArea a s))
  else Ret (others (drop_area a s)).

(** [_FreeChunk] with the chunk unmapped already; otherwise the caller's
    [_UnmapChunk] precedes it outside the lock. *)
Definition _FreeChunk (others : manager → manager) (id : mcid) (i : Z) (fl : flags) (s : manager)
  : outcome manager :=
  m0 ← deref (metaChunks s !! id);
  '(kind, m) ← free_chunk i m0;
  let s := set_mc id m s in
  match kind with
  | NowEmpty =>
      s ← (if chunkSize m0 =? SLAB_CHUNK_SIZE_SMALL then STAILQ_REMOVE LSmall id s
           else if chunkSize m0 =? SLAB_CHUNK_SIZE_MEDIUM then
             if 1 <? chunkCount m0 then STAILQ_REMOVE LMedium id s else Ret s
           else Ret s);
      let s := upd_list (if id.2 =? 0 then LShort else LComplete) (cons id) s in
      A ← deref (areas s !! id.1);
      _ ← assert (0 <? usedMetaChunkCount A);
      let s := upd_area id.1 (fun x => x <| usedMetaChunkCount ::= fun n => u16 (n - 1) |>) s in
      A ← deref (areas s !! id.1);
      if usedMetaChunkCount A =? 0 then _FreeArea others id.1 false fl s else Ret s
  | WasFull =>
      Ret (if chunkSize m0 =? SLAB_CHUNK_SIZE_SMALL then upd_list LSmall (cons id) s
           else if chunkSize m0 =? SLAB_CHUNK_SIZE_MEDIUM then upd_list LMedium (cons id) s
           else s)
  | Partial => Ret s
  end.

Definition _AddArea (a : Z) (s : manager) : manager :=
  let s := s <| sAreaTable ::= fun T => {[a]} ∪ T |> in
  let s := upd_list LShort (fun l => l ++ [(a, 0)]) s in
  upd_list LComplete (fun l => l ++ complete_ids a) s.

(** The structure [_AllocateArea] sets up at [base]; [addr] is the address of
    each meta chunk's array of chunks, [raw] what the array held before. *)
Definition init_meta_chunk (base : Z) (i : Z) (addr : Z) (raw : list Z) : MetaChunk :=
  mkMeta 0 (base + i * SLAB_CHUNK_SIZE_LARGE) SLAB_CHUNK_SIZE_LARGE 0 0 0 0 raw 0 addr.

(** The outcome of creating and mapping the memory of a new area: an error, or
    the area's base, its VM area (none early during boot), the pages its
    mapping may need and the layout of its meta chunks. *)
Record new_area := mkNewArea {
  na_base : Z;
  na_vmArea : option Z;
  na_pages : Z;
  na_chunks : Z → Z;
  na_raw : Z → list Z
}.

Definition _AllocateArea (others : manager → manager) (r : errno + new_area) (s : manager)
  : (errno + Z) * manager :=
  match r with
  | inl e => (inl e, others s)
  | inr na =>
      let a := na_base na in
      let s := s <| areas ::= <[a := mkArea (na_vmArea na) (u64 (na_pages na * PAGE_SIZE)) 0
                                     (bool_decide (na_vmArea na = None))]> |>
                 <| metaChunks ::= fun M =>
                      foldr (fun id M => <[id := init_meta_chunk a id.2 (na_chunks na id.2) (na_raw na id.2)]> M)
                        M (meta_ids a) |> in
      (inr a, others s)
  end.

(** ** [_AllocateChunks]

    [waits] are what other threads do while this one waits for an area another
    thread allocates, one per round; [r] and [others] belong to
    [_AllocateArea], [others'] to [_FreeArea]. *)
Fixpoint wait_for_area (ml : option mclist) (chunkSize chunkCount : Z) (fl : flags)
    (waits : list (manager → manager)) (s : manager)
  : outcome (option (mcid * Z) * manager) :=
  if sAllocationEntryDontWait s || (sAllocationEntryCanWait s && negb (DONT_WAIT_FOR_MEMORY fl)) then
    match waits with
    | [] => NoFuel
    | w :: waits =>
        '(r, s) ← _GetChunks ml chunkSize chunkCount (w s);
        match r with
        | Some c => Ret (Some c, s)
        | None => wait_for_area ml chunkSize chunkCount fl waits s
        end
    end
  else Ret (None, s).

Definition set_entry (fl : flags) (b : bool) (s : manager) : manager :=
  if DONT_WAIT_FOR_MEMORY fl then s <| sAllocationEntryDontWait := b |>
  else s <| sAllocationEntryCanWait := b |>.

Definition chunk_list (chunkSize : Z) : outcome (option mclist) :=
  if chunkSize =? SLAB_CHUNK_SIZE_SMALL then Ret (Some LSmall)
  else if chunkSize =? SLAB_CHUNK_SIZE_MEDIUM then Ret (Some LMedium)
  else if negb (chunkSize =? SLAB_CHUNK_SIZE_LARGE) then Panic
  else Ret None.

Definition or_enomem (r : option (mcid * Z)) : errno + mcid * Z :=
  match r with Some c => inr c | None => inl ENOMEM end.

Definition _AllocateChunks (chunkSize chunkCount : Z) (fl : flags) (waits : list (manager → manager))
    (others : manager → manager) (na : errno + new_area) (others' : manager → manager) (s : manager)
  : outcome ((errno + mcid * Z) * manager) :=
  ml ← chunk_list chunkSize;
  '(r, s) ← _GetChunks ml chunkSize chunkCount s;
  match r with
  | Some c => Ret (inr c, s)
  | None =>
      match sFreeAreas s with
      | _ :: _ =>
          let '(a, s) := _PopFreeArea s in
          a ← deref a;
          let s := _RequestMaintenance (_AddArea a s) in
          '(r, s) ← _GetChunks ml chunkSize chunkCount s;
          Ret (or_enomem r, s)
      | [] =>
          if DONT_LOCK_KERNEL fl then Ret (inl EWOULDBLOCK, s) else
          '(r, s) ← wait_for_area ml chunkSize chunkCount fl waits s;
          match r with
          | Some c => Ret (inr c, s)
          | None =>
              let '(res, s) := _AllocateArea others na (set_entry fl true s) in
              let s := set_entry fl false s in
              match res with
              | inl e => Ret (inl e, s)
              | inr a =>
                  '(r, s) ← _GetChunks ml chunkSize chunkCount s;
                  match r with
                  | Some c => s ← _FreeArea others' a true fl s; Ret (inr c, s)
                  | None =>
                      '(r, s) ← _GetChunks ml chunkSize chunkCount (_AddArea a s);
                      Ret (or_enomem r, s)
                  end
              end
          end
      end
  end.

(** ** Raw allocations *)

(** The chunk size and count [AllocateRaw] asks for; [None] for allocations
    made as areas of their own. *)
Definition raw_chunks (size : Z) (fl : flags) : option (Z * Z) :=
  let size := roundup size SLAB_CHUNK_SIZE_SMALL in
  if (SLAB_CHUNK_SIZE_LARGE <? size) || ALIGN_ON_SIZE fl ||
     ((PAGE_SIZE <? size) && CONTIGUOUS_MEMORY fl) then None
  else if size mod SLAB_CHUNK_SIZE_MEDIUM =? 0 then
    Some (SLAB_CHUNK_SIZE_MEDIUM, u32 (size / SLAB_CHUNK_SIZE_MEDIUM))
  else Some (SLAB_CHUNK_SIZE_SMALL, u32 (size / SLAB_CHUNK_SIZE_SMALL)).

Fixpoint _FreeChunks (others : manager → manager) (id : mcid) (first : Z) (count : nat) (fl : flags)
    (s : manager) : outcome manager :=
  match count with
  | O => Ret s
  | S count =>
      s ← _FreeChunk others id first fl s;
      _FreeChunks others id (first + 1) count fl s
  end.

(** The second half of [AllocateRaw], after [_MapChunk] returned [map]; the
    lock was released meanwhile. *)
Definition AllocateRaw_finish (others others' : manager → manager) (map : status) (size chunkCount : Z)
    (id : mcid) (chunk : Z) (fl : flags) (s : manager) : outcome ((errno + Z) * manager) :=
  m ← deref (metaChunks s !! id);
  let chunkAddress := ChunkAddress m chunk in
  let s := others s in
  match map with
  | Err e =>
      s ← _FreeChunks others' id (chunk_index m chunk) (Z.to_nat chunkCount) fl s;
      Ret (inl e, s)
  | Ok =>
      m ← deref (metaChunks s !! id);
      Ret (inr chunkAddress, set_mc id (set_chunk (chunk_index m chunk) (u64 (chunkAddress + size - 1)) m) s)
  end.

(** [valid] is [arch_kernel_allocation_size_valid], [large] what creating a VM
    area of its own returned. *)
Definition AllocateRaw (valid : Z → bool) (size : Z) (fl : flags) (large : errno + Z)
    (waits : list (manager → manager)) (others : manager → manager) (na : errno + new_area)
    (others' : manager → manager) (map : status) (others_map : manager → manager) (s : manager)
  : outcome ((errno + Z) * manager) :=
  if negb (valid size) then Ret (inl ENOMEM, s) else
  match raw_chunks size fl with
  | None => if DONT_LOCK_KERNEL fl then Ret (inl EWOULDBLOCK, s) else Ret (large, s)
  | Some (chunkSize, chunkCount) =>
      '(r, s) ← _AllocateChunks chunkSize chunkCount fl waits others na others' s;
      match r with
      | inl e => Ret (inl e, s)
      | inr (id, chunk) =>
          AllocateRaw_finish others_map others' map (roundup size SLAB_CHUNK_SIZE_SMALL) chunkCount id chunk fl s
      end
  end.

(** [Allocate] for the object cache at address [cache] with slabs of
    [slab_size] bytes. *)
Definition Allocate (cache slab_size : Z) (fl : flags) (waits : list (manager → manager))
    (others : manager → manager) (na : errno + new_area) (others' : manager → manager)
    (map : status) (others_map : manager → manager) (s : manager) : outcome ((errno + Z) * manager) :=
  '(r, s) ← _AllocateChunks slab_size 1 fl waits others na others' s;
  match r with
  | inl e => Ret (inl e, s)
  | inr (id, chunk) =>
      m ← deref (metaChunks s !! id);
      let chunkAddress := ChunkAddress m chunk in
      let s := others_map s in
      match map with
      | Err e => s ← _FreeChunk others' id (chunk_index m chunk) fl s; Ret (inl e, s)
      | Ok =>
          m ← deref (metaChunks s !! id);
          Ret (inr chunkAddress, set_mc id (set_chunk (chunk_index m chunk) cache m) s)
      end
  end.

(** ** Addresses *)

Definition AreaBaseAddressForAddress (address : Z) : Z := rounddown address SLAB_AREA_SIZE.

Definition meta_id (address : Z) : mcid :=
  (AreaBaseAddressForAddress address, (address mod SLAB_AREA_SIZE) / SLAB_CHUNK_SIZE_LARGE).

Definition AcceptableChunkSize (size : Z) : Z :=
  if size <=? SLAB_CHUNK_SIZE_SMALL then SLAB_CHUNK_SIZE_SMALL
  else if size <=? SLAB_CHUNK_SIZE_MEDIUM then SLAB_CHUNK_SIZE_MEDIUM
  else SLAB_CHUNK_SIZE_LARGE.

(** [Free]; [others] is what happens while the chunk is unmapped. *)
Definition Free (others others' : manager → manager) (pages : Z) (fl : flags) (s : manager)
  : outcome manager :=
  let id := meta_id pages in
  m ← deref (metaChunks s !! id);
  _ ← assert (0 <? chunkSize m);
  _ ← assert (chunkBase m <=? pages);
  _ ← assert (pages mod chunkSize m =? 0);
  let chunkIndex := u16 (ChunkIndexForAddress m pages) in
  v ← get_chunk m chunkIndex;
  _ ← assert (negb (v =? 0));
  _ ← assert ((v <? chunks_addr m) || (chunks_addr m + 8 * SLAB_SMALL_CHUNKS_PER_META_CHUNK <=? v));
  _FreeChunk others' id chunkIndex fl (others s).

(** [FreeRawOrReturnCache]: the address of the object cache the block belongs
    to, or none when it was a raw allocation, which is freed.  [lookup] is the
    VM area at the address: its id and base. *)
Definition FreeRawOrReturnCache (lookup : option (Z * Z)) (others others' : manager → manager)
    (pages : Z) (fl : flags) (s : manager) : outcome (option Z * manager) :=
  let areaBase := AreaBaseAddressForAddress pages in
  if decide (areaBase ∈ sAreaTable s) then
    let id := meta_id pages in
    m ← deref (metaChunks s !! id);
    _ ← assert (0 <? chunkSize m);
    _ ← assert (chunkBase m <=? pages);
    let chunkIndex := u16 (ChunkIndexForAddress m pages) in
    reference ← get_chunk m chunkIndex;
    if Z.land reference 1 =? 0 then Ret (Some reference, s) else
    _ ← assert (pages =? ChunkAddress m (chunk_ptr m chunkIndex));
    _ ← assert (pages <? reference);
    _ ← assert (reference <=? areaBase + SLAB_AREA_SIZE - 1);
    let size := reference - pages + 1 in
    _ ← assert (size mod SLAB_CHUNK_SIZE_SMALL =? 0);
    let s := others s in
    m ← deref (metaChunks s !! id);
    s ← _FreeChunks others' id chunkIndex (Z.to_nat (size / chunkSize m)) fl s;
    Ret (None, s)
  else
    match lookup with
    | Some (_, base) => if pages =? base then Ret (None, s) else Panic
    | None => Panic
    end.

(** [GetAllocationInfo]: the object cache (whose [object_size] is the size) or
    the size of a raw allocation; [lookup] is the base and size of the VM area
    at the address. *)
Definition GetAllocationInfo (lookup : option (Z * Z)) (address : Z) (s : manager) : outcome (Z + Z) :=
  if decide (AreaBaseAddressForAddress address ∈ sAreaTable s) then
    m ← deref (metaChunks s !! meta_id address);
    _ ← assert (0 <? chunkSize m);
    _ ← assert (chunkBase m <=? address);
    reference ← get_chunk m (u16 (ChunkIndexForAddress m address));
    if Z.land reference 1 =? 0 then Ret (inl reference)
    else Ret (inr (u64 (reference - address + 1)))
  else
    Ret (inr match lookup with Some (base, sz) => if address =? base then sz else 0 | None => 0 end).

(** ** Maintenance *)

Fixpoint free_surplus (fuel : nat) (others : manager → manager) (s : manager) : outcome manager :=
  if 2 <? sFreeAreaCount s then
    match fuel with
    | O => NoFuel
    | S fuel =>
        let '(a, s) := _PopFreeArea s in
        a ← deref a;
        s ← _FreeArea others a true (mkFlags false false false false) s;
        free_surplus fuel others s
    end
  else Ret s.

(** [PerformMaintenance]; [nas] holds one element per round of the loop, the
    area allocated in that round if it allocates one. *)
Fixpoint PerformMaintenance (fuel : nat) (others : manager → manager) (nas : list (errno + new_area))
    (s : manager) : outcome manager :=
  if sMaintenanceNeeded s then
    match nas with
    | [] => NoFuel
    | na :: nas =>
        let s := s <| sMaintenanceNeeded := false |> in
        if (0 <? sFreeAreaCount s) && (sFreeAreaCount s <=? 2) then Ret s
        else if sFreeAreaCount s =? 0 then
          let '(r, s) := _AllocateArea others na s in
          match r with
          | inl _ => Ret s
          | inr a =>
              let s := _PushFreeArea a s in
              let s := if 2 <? sFreeAreaCount s then s <| sMaintenanceNeeded := true |> else s in
              PerformMaintenance fuel others nas s
          end
        else
          s ← free_surplus fuel others s;
          let s := if sFreeAreaCount s =? 0 then s <| sMaintenanceNeeded := true |> else s in
          PerformMaintenance fuel others nas s
    end
  else Ret s.
End ops.

(** ** Invariant *)

(** The list a meta chunk belongs on. *)
Definition place (id : mcid) (m : MetaChunk) : option mclist :=
  if chunkSize m =? 0 then Some (if id.2 =? 0 then LShort else LComplete)
  else if usedChunkCount m <? chunkCount m then
    if chunkSize m =? SLAB_CHUNK_SIZE_SMALL then Some LSmall
    else if chunkSize m =? SLAB_CHUNK_SIZE_MEDIUM then Some LMedium else None
  else None.

Definition chunk_size (z : Z) : Prop :=
  z = SLAB_CHUNK_SIZE_SMALL ∨ z = SLAB_CHUNK_SIZE_MEDIUM ∨ z = SLAB_CHUNK_SIZE_LARGE.

(** The bytes of meta chunk [id] that chunks of the given size can use. *)
Definition usable (admin : Z) (id : mcid) (size : Z) : Z :=
  if id.2 =? 0 then SLAB_CHUNK_SIZE_LARGE - roundup (SLAB_AREA_STRUCT_OFFSET + admin) size
  else SLAB_CHUNK_SIZE_LARGE.

Definition start (admin : Z) (id : mcid) (size : Z) : Z :=
  if id.2 =? 0 then id.1 + roundup (SLAB_AREA_STRUCT_OFFSET + admin) size
  else id.1 + id.2 * SLAB_CHUNK_SIZE_LARGE.

Record mc_inv (admin : Z) (id : mcid) (m : MetaChunk) : Prop := {
  mi_len : length (chunks m) = 32%nat;
  mi_addr : 1 < chunks_addr m;
  mi_area : id.1 mod SLAB_AREA_SIZE = 0 ∧ 0 <= id.1 ∧ id.1 + SLAB_AREA_SIZE <= 2 ^ 64;
  mi_index : 0 <= id.2 < SLAB_META_CHUNKS_PER_AREA;
  mi_geometry : id.2 ≠ 0 → chunkBase m = start admin id 0 ∧ totalSize m = SLAB_CHUNK_SIZE_LARGE;
  mi_free : chunkSize m = 0 → usedChunkCount m = 0;
  mi_used : chunkSize m ≠ 0 →
    chunk_size (chunkSize m) ∧ (id.2 = 0 → chunkSize m ≠ SLAB_CHUNK_SIZE_LARGE) ∧
    chunkCount m = usable admin id (chunkSize m) / chunkSize m ∧
    chunkBase m = start admin id (chunkSize m) ∧ totalSize m = usable admin id (chunkSize m) ∧
    ∃ l, mc_ok l m
}.

Definition in_use (M : gmap mcid MetaChunk) (id : mcid) : Prop :=
  match M !! id with Some m => chunkSize m ≠ 0 | None => False end.
#[export] Instance in_use_dec M id : Decision (in_use M id).
Proof. unfold in_use. destruct (M !! id); apply _. Defined.

Definition used_count (M : gmap mcid MetaChunk) (a : Z) : Z :=
  Z.of_nat (length (filter (in_use M) (meta_ids a))).

Record inv (admin : Z) (s : manager) : Prop := {
  inv_mc id m : metaChunks s !! id = Some m → mc_inv admin id m;
  inv_area a A : areas s !! a = Some A → usedMetaChunkCount A = used_count (metaChunks s) a;
  inv_ids a id : is_Some (areas s !! a) → id ∈ meta_ids a → is_Some (metaChunks s !! id);
  inv_table a : a ∈ sAreaTable s → is_Some (areas s !! a);
  inv_nodup n : NoDup (get_list n s);
  inv_lists n id : id ∈ get_list n s ↔
    id.1 ∈ sAreaTable s ∧ ∃ m, metaChunks s !! id = Some m ∧ place id m = Some n;
  inv_free_nodup : NoDup (sFreeAreas s);
  inv_free_count : sFreeAreaCount s = Z.of_nat (length (sFreeAreas s));
  inv_free a : a ∈ sFreeAreas s → is_Some (areas s !! a) ∧ a ∉ sAreaTable s;
  inv_out id m : metaChunks s !! id = Some m → id.1 ∉ sAreaTable s → chunkSize m = 0
}.

Lemma meta_ids_elem a id : id ∈ meta_ids a ↔ id.1 = a ∧ 0 <= id.2 < SLAB_META_CHUNKS_PER_AREA.
Proof.
  unfold meta_ids. rewrite list_elem_of_fmap. setoid_rewrite elem_of_seq. split.
  - intros (k & -> & ?). cbn. lia.
  - destruct id as [b i]. cbn. intros [-> ?]. exists (Z.to_nat i). split; [f_equal; lia|lia].
Qed.

Lemma meta_ids_NoDup a : NoDup (meta_ids a).
Proof. apply NoDup_fmap_2; [intros ? ? ?; simplify_eq; lia|apply NoDup_seq]. Qed.

Lemma used_count_other M id m a : id.1 ≠ a → used_count (<[id := m]> M) a = used_count M a.
Proof.
  intros Hne. unfold used_count. do 2 f_equal. apply filter_ext_elem.
  intros id' [He _]%meta_ids_elem. unfold in_use. rewrite lookup_insert_ne; [done|]. congruence.
Qed.

(** The number of meta chunks in use follows the state of one of them. *)
Lemma used_count_insert M id m m' :
  M !! id = Some m → 0 <= id.2 < SLAB_META_CHUNKS_PER_AREA →
  used_count (<[id := m']> M) id.1 = used_count M id.1
    + (if decide (chunkSize m' = 0) then 0 else 1) - (if decide (chunkSize m = 0) then 0 else 1).
Proof.
  intros Hm Hi. assert (id ∈ meta_ids id.1) as Hin by by apply meta_ids_elem.
  unfold used_count. destruct (list_elem_of_split _ _ Hin) as (l1 & l2 & Hl).
  pose proof (meta_ids_NoDup id.1) as Hnd. rewrite Hl in Hnd |- *.
  apply NoDup_app in Hnd as (_ & Hd & Hnd). apply NoDup_cons in Hnd as [Hn2 _].
  rewrite !filter_app, !filter_cons, !length_app.
  assert (∀ l, id ∉ l → length (filter (in_use (<[id := m']> M)) l) = length (filter (in_use M) l)) as Hother.
  { intros l Hl'. f_equal. apply filter_ext_elem. intros id' Hid'. unfold in_use.
    rewrite lookup_insert_ne; [done|]. set_solver. }
  rewrite (Hother l1) by (intros Hin'; apply (Hd _ Hin'); set_solver).
  assert (in_use (<[id := m']> M) id ↔ chunkSize m' ≠ 0) as H1 by (unfold in_use; by rewrite lookup_insert_eq).
  assert (in_use M id ↔ chunkSize m ≠ 0) as H2 by (unfold in_use; by rewrite Hm).
  destruct (decide (in_use (<[id := m']> M) id)), (decide (in_use M id)),
    (decide (chunkSize m' = 0)), (decide (chunkSize m = 0)); cbn [length]; rewrite (Hother l2 Hn2); try lia; tauto.
Qed.

(** One meta chunk changes, and moves to the list it now belongs on. *)
Definition relocated (id : mcid) (m' : MetaChunk) (delta : Z) (s s' : manager) : Prop :=
  metaChunks s' = <[id := m']> (metaChunks s) ∧
  areas s' = alter (fun A => A <| usedMetaChunkCount ::= fun n => n + delta |>) id.1 (areas s) ∧
  sAreaTable s' = sAreaTable s ∧ sFreeAreas s' = sFreeAreas s ∧ sFreeAreaCount s' = sFreeAreaCount s ∧
  ∀ n, NoDup (get_list n s') ∧ (id ∈ get_list n s' ↔ place id m' = Some n) ∧
    ∀ id', id' ≠ id → id' ∈ get_list n s' ↔ id' ∈ get_list n s.

Lemma relocated_inv admin id m m' delta s s' :
  inv admin s → metaChunks s !! id = Some m → id.1 ∈ sAreaTable s → mc_inv admin id m' →
  relocated id m' delta s s' →
  delta = (if decide (chunkSize m' = 0) then 0 else 1) - (if decide (chunkSize m = 0) then 0 else 1) →
  inv admin s'.
Proof.
  intros Hinv Hm Ht Hm' (HM & HA & HT & HF & HFC & HL) Hdelta.
  pose proof (mi_index _ _ _ (inv_mc _ _ Hinv _ _ Hm)) as Hidx.
  assert (∀ a, is_Some (areas s' !! a) ↔ is_Some (areas s !! a)) as Hdom.
  { intros a. rewrite HA. apply lookup_alter_is_Some. }
  split.
  - intros id' x. rewrite HM, lookup_insert_Some. intros [[<- <-]|[_ ?]]; [done|by eapply inv_mc].
  - intros a A. rewrite HA, HM. intros HAa. destruct (decide (a = id.1)) as [->|Hne].
    + rewrite lookup_alter_eq in HAa. apply fmap_Some in HAa as (A0 & HA0 & ->).
      rewrite (used_count_insert _ _ m m') by done.
      change (usedMetaChunkCount A0 + delta = used_count (metaChunks s) id.1
        + (if decide (chunkSize m' = 0) then 0 else 1) - (if decide (chunkSize m = 0) then 0 else 1)).
      rewrite (inv_area _ _ Hinv _ _ HA0). lia.
    + rewrite lookup_alter_ne in HAa by done. rewrite used_count_other by done. by eapply inv_area.
  - intros a id' Ha Hid'. rewrite HM. apply Hdom in Ha. destruct (inv_ids _ _ Hinv _ _ Ha Hid') as [x Hx].
    destruct (decide (id' = id)) as [->|]; [rewrite lookup_insert_eq; by eexists|].
    rewrite lookup_insert_ne by done. by exists x.
  - intros a. rewrite HT, Hdom. apply Hinv.
  - intros n. apply HL.
  - intros n id'. rewrite HT, HM. destruct (HL n) as (_ & Hid & Hother).
    destruct (decide (id' = id)) as [->|Hne].
    + rewrite Hid, lookup_insert_eq. split; [|intros [_ (x & ? & ?)]; congruence]. intros. split; [done|]. by exists m'.
    + rewrite (Hother _ Hne), lookup_insert_ne by done. apply Hinv.
  - rewrite HF. apply Hinv.
  - rewrite HF, HFC. apply Hinv.
  - intros a. rewrite HF, HT, Hdom. apply Hinv.
  - intros id' x. rewrite HM, HT, lookup_insert_Some. intros [[<- <-]|[_ ?]] Hout; [done|]. by eapply inv_out.
Qed.

(** ** Lemmas on the operations *)

Lemma get_upd_list n n' f s : get_list n (upd_list n' f s) = if decide (n = n') then f (get_list n s) else get_list n s.
Proof. by destruct n, n'. Qed.

Lemma upd_list_fields n f s :
  metaChunks (upd_list n f s) = metaChunks s ∧ areas (upd_list n f s) = areas s ∧
  sAreaTable (upd_list n f s) = sAreaTable s ∧ sFreeAreas (upd_list n f s) = sFreeAreas s ∧
  sFreeAreaCount (upd_list n f s) = sFreeAreaCount s.
Proof. by destruct n. Qed.

Lemma get_list_set_mc n id m s : get_list n (set_mc id m s) = get_list n s.
Proof. by destruct n. Qed.

Lemma alter_used_0 a (M : gmap Z MemoryArea) :
  alter (fun A => A <| usedMetaChunkCount ::= fun n => n + 0 |>) a M = M.
Proof.
  apply alter_id. intros A _. destruct A as [? ? n ?]. unfold update. cbn. f_equal. lia.
Qed.

Lemma remove_complete_ok ids : ∀ s, NoDup ids →
  (∀ id, id ∈ ids → ∃ m, metaChunks s !! id = Some m ∧ usedChunkCount m = 0 ∧ id ∈ get_list LComplete s) →
  remove_complete ids s = Ret (upd_list LComplete (filter (fun id => id ∉ ids)) s).
Proof.
  induction ids as [|id ids IH]; intros s Hnd Hids; cbn [remove_complete].
  - assert (∀ l : list mcid, filter (fun id : mcid => id ∉ []) l = l) as Hall.
    { induction l as [|x l IHl]; [done|]. rewrite filter_cons_True by set_solver. by f_equal. }
    f_equal. destruct s. cbn. unfold update. cbn. by rewrite Hall.
  - apply NoDup_cons in Hnd as [Hn Hnd]. destruct (Hids id) as (m & Hm & Hu & Hl); [by left|].
    rewrite Hm. cbn [deref mbind outcome_bind]. rewrite Hu. cbn [Z.eqb assert mbind outcome_bind]. unfold STAILQ_REMOVE.
    rewrite (bool_decide_eq_true_2 (id ∈ get_list LComplete s)) by done. cbn [assert mbind outcome_bind].
    rewrite IH; [|done|].
    + f_equal. destruct s. cbn. unfold update. cbn. f_equal. unfold remove_elem. rewrite list_filter_filter.
      apply filter_ext_elem. set_solver.
    + intros id' Hid'. destruct (Hids id') as (m' & Hm' & Hu' & Hl'); [by right|]. exists m'.
      split_and!; [done|done|]. cbn. apply elem_of_remove. split; [|done]. set_solver.
Qed.

Section geometry.
Context (admin : Z) (Hadmin : 0 < admin) (Hadmin' : SLAB_AREA_STRUCT_OFFSET + admin <= SLAB_CHUNK_SIZE_MEDIUM).
#[local] Set Default Proof Using "Type*".

Lemma chunk_size_pos size : chunk_size size → 0 < size.
Proof. intros [->|[->| ->]]; done. Qed.

Lemma roundup_unusable size : size = SLAB_CHUNK_SIZE_SMALL ∨ size = SLAB_CHUNK_SIZE_MEDIUM →
  0 < roundup (SLAB_AREA_STRUCT_OFFSET + admin) size <= SLAB_CHUNK_SIZE_MEDIUM.
Proof.
  intros Hs. unfold roundup, SLAB_AREA_STRUCT_OFFSET, SLAB_CHUNK_SIZE_SMALL, SLAB_CHUNK_SIZE_MEDIUM in *.
  destruct Hs as [-> | ->]; zlia.
Qed.

(** Every meta chunk has room for a chunk of every size it is used for. *)
Lemma usable_count id size : chunk_size size → (id.2 = 0 → size ≠ SLAB_CHUNK_SIZE_LARGE) →
  0 < usable admin id size / size <= 32.
Proof.
  intros Hs Hl. unfold usable. destruct (Z.eqb_spec id.2 0) as [He|He].
  - assert (size = SLAB_CHUNK_SIZE_SMALL ∨ size = SLAB_CHUNK_SIZE_MEDIUM) as Hs' by (destruct Hs as [|[|]]; auto; by destruct Hl).
    pose proof (roundup_unusable size Hs') as Hr.
    unfold SLAB_CHUNK_SIZE_LARGE, SLAB_CHUNK_SIZE_MEDIUM, SLAB_CHUNK_SIZE_SMALL in *.
    destruct Hs' as [-> | ->]; zlia.
  - destruct Hs as [->|[->| ->]]; vm_compute; split; (reflexivity || discriminate).
Qed.

(** The test of [_GetChunks] for a short meta chunk is exact. *)
Lemma fits_short_exact a size : chunk_size size → size ≠ SLAB_CHUNK_SIZE_LARGE →
  (SLAB_CHUNK_SIZE_LARGE - SLAB_AREA_STRUCT_OFFSET - admin) / size = usable admin (a, 0) size / size.
Proof.
  intros Hs Hl. unfold usable. cbn [snd]. change (0 =? 0) with true. cbv iota. rewrite <- Z.sub_add_distr.
  destruct Hs as [->|[->| ->]]; [| |done].
  - change SLAB_CHUNK_SIZE_LARGE with (32 * SLAB_CHUNK_SIZE_SMALL). by apply div_sub_roundup.
  - change SLAB_CHUNK_SIZE_LARGE with (4 * SLAB_CHUNK_SIZE_MEDIUM). by apply div_sub_roundup.
Qed.

Lemma prepared_mc id m size :
  mc_inv admin id m → chunk_size size → (id.2 = 0 → size ≠ SLAB_CHUNK_SIZE_LARGE) →
  let m' := PrepareMetaChunk id.1 admin (id.2 =? 0) size m in
  mc_inv admin id m' ∧ mc_ok (indexes (Z.to_nat (usable admin id size / size))) m' ∧
  chunkSize m' = size ∧ usedChunkCount m' = 0 ∧ chunkCount m' = usable admin id size / size.
Proof.
  intros Hmi Hs Hl m'. pose proof (usable_count id size Hs Hl) as Hcnt.
  pose proof (chunk_size_pos _ Hs) as Hpos.
  assert (usable admin id size = if id.2 =? 0 then SLAB_CHUNK_SIZE_LARGE - roundup (SLAB_AREA_STRUCT_OFFSET + admin) size
    else totalSize m) as Hu.
  { unfold usable. destruct (Z.eqb_spec id.2 0) as [|Hne]; [done|]. symmetry. by apply (mi_geometry _ _ _ Hmi). }
  assert (0 < (if id.2 =? 0 then SLAB_CHUNK_SIZE_LARGE - roundup (SLAB_AREA_STRUCT_OFFSET + admin) size
    else totalSize m) / size <= 32) as Hcnt' by (rewrite <- Hu; done).
  destruct (prepare_ok id.1 admin (id.2 =? 0) size m (mi_addr _ _ _ Hmi) (mi_len _ _ _ Hmi) Hcnt')
    as (Hok & Hc & Hsz & Htot & Hused & Haddr & Hlen' & Hbase).
  fold m' in Hok, Hc, Hsz, Htot, Hused, Haddr, Hbase, Hlen'. rewrite <- Hu in Hok, Hc, Htot.
  assert (chunkBase m' = start admin id size) as Hb.
  { rewrite Hbase. unfold start. destruct (Z.eqb_spec id.2 0) as [|Hne]; [done|].
    destruct (mi_geometry _ _ _ Hmi Hne) as [-> _]. unfold start. by apply Z.eqb_neq in Hne as ->. }
  assert (length (chunks m') = 32%nat) as Hlen by (rewrite Hlen'; apply Hmi).
  split_and!; try done. split; try done.
  - by rewrite Haddr; apply Hmi.
  - apply Hmi.
  - apply Hmi.
  - intros Hne. split.
    + rewrite Hb. unfold start. by apply Z.eqb_neq in Hne as ->.
    + rewrite Htot. unfold usable. by apply Z.eqb_neq in Hne as ->.
  - intros _. rewrite Hsz. split_and!; try done. by eexists.
Qed.
(** ** Taking and preparing keep the invariant *)

Definition list_of_size (size : Z) : option mclist :=
  if size =? SLAB_CHUNK_SIZE_SMALL then Some LSmall
  else if size =? SLAB_CHUNK_SIZE_MEDIUM then Some LMedium else None.

Definition free_list (id : mcid) : mclist := if id.2 =? 0 then LShort else LComplete.

Lemma place_used id m : chunkSize m ≠ 0 →
  place id m = if usedChunkCount m <? chunkCount m then list_of_size (chunkSize m) else None.
Proof. intros Hs. unfold place, list_of_size. apply Z.eqb_neq in Hs as ->. by case_match. Qed.

Lemma place_free id m : chunkSize m = 0 → place id m = Some (free_list id).
Proof. intros Hs. unfold place, free_list. by rewrite Hs. Qed.

Definition drop_full (ml : option mclist) (id : mcid) (isFull : bool) (s : manager) : manager :=
  match ml with
  | Some n => if isFull then upd_list n (remove_elem id) s else s
  | None => s
  end.

Lemma drop_full_ok (ml : option mclist) id (isFull : bool) s :
  (∀ n, ml = Some n → id ∈ get_list n s) →
  match ml with
  | Some n => if isFull then STAILQ_REMOVE n id s else Ret s
  | None => Ret s
  end = Ret (drop_full ml id isFull s).
Proof.
  intros H. destruct ml as [n|]; [|done]. destruct isFull; [|done]. unfold STAILQ_REMOVE.
  by rewrite (bool_decide_eq_true_2 (id ∈ get_list n s)) by by apply H.
Qed.

(** A meta chunk in use that is not full is on the list of its size. *)
Lemma partial_list id m s n :
  inv admin s → metaChunks s !! id = Some m → id.1 ∈ sAreaTable s → chunkSize m ≠ 0 →
  usedChunkCount m < chunkCount m → list_of_size (chunkSize m) = Some n → id ∈ get_list n s.
Proof.
  intros Hinv Hm Ht Hs Hlt Hn. apply (inv_lists _ _ Hinv). split; [done|]. exists m. split; [done|].
  rewrite place_used by done. apply Z.ltb_lt in Hlt. by rewrite Hlt.
Qed.

Lemma drop_full_fields ml id isFull s :
  metaChunks (drop_full ml id isFull s) = metaChunks s ∧ areas (drop_full ml id isFull s) = areas s ∧
  sAreaTable (drop_full ml id isFull s) = sAreaTable s ∧ sFreeAreas (drop_full ml id isFull s) = sFreeAreas s ∧
  sFreeAreaCount (drop_full ml id isFull s) = sFreeAreaCount s.
Proof. destruct ml as [n|]; [|done]. destruct isFull; [|done]. apply upd_list_fields. Qed.

Lemma mc_take_inv id m m' isFull s :
  inv admin s → metaChunks s !! id = Some m → id.1 ∈ sAreaTable s → mc_inv admin id m' →
  chunkSize m ≠ 0 → chunkSize m' = chunkSize m → usedChunkCount m < chunkCount m →
  isFull = negb (usedChunkCount m' <? chunkCount m') →
  inv admin (drop_full (list_of_size (chunkSize m)) id isFull (set_mc id m' s)).
Proof.
  intros Hinv Hm Ht Hmi Hs Hs' Hlt Hfull.
  pose proof (drop_full_fields (list_of_size (chunkSize m)) id isFull (set_mc id m' s)) as (HM & HA & HT & HF & HFC).
  apply (relocated_inv admin id m m' 0 s); [done..| |].
  2: { rewrite Hs'. by destruct (decide (chunkSize m = 0)). }
  unfold relocated. rewrite alter_used_0, HM, HA, HT, HF, HFC. split_and!; [done..|]. intros n.
  pose proof (inv_nodup _ _ Hinv n) as Hnd. pose proof (inv_lists _ _ Hinv n id) as Hin.
  assert (id ∈ get_list n s ↔ list_of_size (chunkSize m) = Some n) as Hold.
  { rewrite Hin. split; [|intros; split; [done|]; exists m].
    - intros [_ (x & Hx & Hp)]. assert (x = m) as -> by congruence. rewrite place_used in Hp by done.
      apply Z.ltb_lt in Hlt. by rewrite Hlt in Hp.
    - rewrite place_used by done. apply Z.ltb_lt in Hlt. by rewrite Hlt. }
  rewrite (place_used id m') by congruence. rewrite Hs'.
  assert ((usedChunkCount m' <? chunkCount m') = negb isFull) as -> by (subst; by rewrite negb_involutive).
  unfold drop_full. destruct (list_of_size (chunkSize m)) as [n'|]; [destruct isFull|]; cbn [negb].
  - rewrite get_upd_list, get_list_set_mc. case_decide as Hn; subst.
    + split_and!; [by apply NoDup_remove_elem| |].
      * rewrite elem_of_remove. split; [naive_solver|done].
      * intros id' Hne. rewrite elem_of_remove. naive_solver.
    + split_and!; [done| |done]. rewrite Hold. split; [intros [= ->]; done|done].
  - rewrite get_list_set_mc. done.
  - rewrite get_list_set_mc. split_and!; [done| |done]. rewrite Hold. by destruct isFull.
Qed.

Lemma used_count_bound M a : 0 <= used_count M a <= SLAB_META_CHUNKS_PER_AREA.
Proof.
  unfold used_count. pose proof (length_filter (in_use M) (meta_ids a)) as Hl.
  unfold meta_ids in Hl at 2. rewrite length_fmap, length_seq in Hl. change SLAB_META_CHUNKS_PER_AREA with 16 in *. lia.
Qed.

Lemma inc_used_areas a s :
  inv admin s →
  areas (inc_used a s) = alter (fun A => A <| usedMetaChunkCount ::= fun n => n + 1 |>) a (areas s).
Proof.
  intros Hinv. change (areas (inc_used a s)) with
    (alter (fun x => x <| usedMetaChunkCount ::= fun n => u16 (n + 1) |>) a (areas s)).
  apply map_eq. intros b. destruct (decide (b = a)) as [->|]; [|by rewrite !lookup_alter_ne].
  rewrite !lookup_alter_eq. destruct (areas s !! a) as [A|] eqn:HA; [|done]. cbn. f_equal.
  pose proof (inv_area _ _ Hinv _ _ HA) as Hu. pose proof (used_count_bound (metaChunks s) a) as Hb.
  change SLAB_META_CHUNKS_PER_AREA with 16 in Hb. destruct A as [? ? n ?]. unfold update. cbn in *. f_equal.
  apply wrap_small. unfold fits. lia.
Qed.

Definition add_partial (ml : option mclist) (id : mcid) (s : manager) : manager :=
  match ml with Some n => upd_list n (fun l => l ++ [id]) s | None => s end.

Lemma list_of_size_partial size n : list_of_size size = Some n → n ≠ LShort ∧ n ≠ LComplete.
Proof. unfold list_of_size. repeat case_match; naive_solver. Qed.

(** A meta chunk taken off its free list, put on the partial list of the size
    and prepared. *)
Lemma acquire_ok id l size s :
  inv admin s → get_list (free_list id) s = id :: l → chunk_size size →
  (id.2 = 0 → size ≠ SLAB_CHUNK_SIZE_LARGE) →
  let s1 := upd_list (free_list id) (fun _ => l) s in
  let s2 := add_partial (list_of_size size) id s1 in
  ∃ m s3, prepare admin id size (inc_used id.1 s2) = Ret s3 ∧ inv admin s3 ∧
    metaChunks s !! id = Some m ∧ chunkSize m = 0 ∧ id.1 ∈ sAreaTable s ∧ sAreaTable s3 = sAreaTable s ∧
    metaChunks s3 = <[id := PrepareMetaChunk id.1 admin (id.2 =? 0) size m]> (metaChunks s).
Proof.
  intros Hinv Hlist Hsize Hlarge s1 s2.
  assert (id ∈ get_list (free_list id) s) as Hin by (rewrite Hlist; by left).
  apply (inv_lists _ _ Hinv) in Hin as [Ht (m & Hm & Hp)].
  assert (chunkSize m = 0) as Hz.
  { destruct (decide (chunkSize m = 0)) as [|Hne]; [done|]. rewrite place_used in Hp by done.
    destruct (usedChunkCount m <? chunkCount m); [|done]. apply list_of_size_partial in Hp.
    unfold free_list in Hp. destruct (id.2 =? 0); naive_solver. }
  set (m' := PrepareMetaChunk id.1 admin (id.2 =? 0) size m).
  destruct (prepared_mc id m size (inv_mc _ _ Hinv _ _ Hm) Hsize Hlarge) as (Hmi & Hok & Hsz & Hu & Hc).
  pose proof (usable_count id size Hsize Hlarge) as Hcnt. pose proof (chunk_size_pos _ Hsize) as Hpos.
  fold m' in Hmi, Hok, Hsz, Hu, Hc.
  pose proof (upd_list_fields (free_list id) (fun _ => l) s) as (HM1 & HA1 & HT1 & HF1 & HFC1). fold s1 in HM1, HA1, HT1, HF1, HFC1.
  assert (metaChunks s2 = metaChunks s ∧ areas s2 = areas s ∧ sAreaTable s2 = sAreaTable s ∧
    sFreeAreas s2 = sFreeAreas s ∧ sFreeAreaCount s2 = sFreeAreaCount s) as (HM2 & HA2 & HT2 & HF2 & HFC2).
  { subst s2. unfold add_partial. destruct (list_of_size size) as [n|]; [|done].
    pose proof (upd_list_fields n (fun l => l ++ [id]) s1) as (-> & -> & -> & -> & ->). done. }
  exists m, (set_mc id m' (inc_used id.1 s2)). split_and!; try done.
  - unfold prepare. change (metaChunks (inc_used id.1 s2)) with (metaChunks s2). rewrite HM2, Hm. done.
  - apply (relocated_inv admin id m m' 1 s); try done; [|by rewrite Hz, Hsz; destruct (decide (size = 0)); [lia|]].
    pose proof (inc_used_areas id.1 s Hinv) as Hareas. unfold relocated. split_and!; try done.
    + change (metaChunks (set_mc id m' (inc_used id.1 s2))) with (<[id := m']> (metaChunks s2)). by rewrite HM2.
    + change (areas (set_mc id m' (inc_used id.1 s2))) with (areas (inc_used id.1 s2)).
      rewrite <- Hareas. unfold inc_used, upd_area, update. cbn. by rewrite HA2.
    + intros n. assert (get_list n (set_mc id m' (inc_used id.1 s2)) = get_list n s2) as -> by by destruct n.
      assert (place id m' = list_of_size size) as ->.
      { rewrite place_used, Hu, Hc, Hsz by lia. destruct (Z.ltb_spec 0 (usable admin id size / size)); [done|lia]. }
      pose proof (inv_nodup _ _ Hinv) as Hnd.
      assert (∀ n', get_list n' s1 = if decide (n' = free_list id) then l else get_list n' s) as Hs1.
      { intros n'. subst s1. rewrite get_upd_list. by case_decide. }
      assert (∀ n', n' ≠ free_list id → id ∉ get_list n' s) as Hnot.
      { intros n' Hn' [_ (x & Hx & Hp')]%(inv_lists _ _ Hinv). assert (x = m) as -> by congruence. congruence. }
      assert (get_list n s2 = if decide (Some n = list_of_size size) then get_list n s ++ [id]
                              else if decide (n = free_list id) then l else get_list n s) as ->.
      { subst s2. unfold add_partial. destruct (list_of_size size) as [n'|] eqn:Hn'.
        - rewrite get_upd_list, Hs1. apply list_of_size_partial in Hn' as [? ?].
          assert (n' ≠ free_list id) by (unfold free_list; by case_match).
          repeat case_decide; congruence.
        - rewrite Hs1. repeat case_decide; congruence. }
      specialize (Hnd (free_list id)) as Hnd1. rewrite Hlist in Hnd1. apply NoDup_cons in Hnd1 as [Hidl Hndl].
      case_decide as H1; [|case_decide as H2].
      * symmetry in H1. pose proof (list_of_size_partial _ _ H1) as [? ?].
        assert (n ≠ free_list id) by (unfold free_list; by case_match).
        split_and!; [|set_solver|set_solver]. apply NoDup_app. split_and!; [apply Hnd| |apply NoDup_singleton].
        intros x Hx ->%list_elem_of_singleton. by apply (Hnot n).
      * subst n. split_and!; [done| |].
        { split; [done|]. intros He. congruence. }
        { intros id' Hne. rewrite Hlist. set_solver. }
      * split_and!; [apply Hnd| |done]. split; [by intros ?%Hnot|]. intros He. congruence.
  - change (metaChunks (set_mc id m' (inc_used id.1 s2))) with (<[id := m']> (metaChunks s2)). by rewrite HM2.
Qed.

(** ** Getting chunks *)

Lemma free_list_of id n s :
  inv admin s → id ∈ get_list n s → n = LShort ∨ n = LComplete → n = free_list id.
Proof.
  intros Hinv [_ (m & Hm & Hp)]%(inv_lists _ _ Hinv) Hn.
  destruct (decide (chunkSize m = 0)) as [Hz|Hz].
  - rewrite place_free in Hp by done. congruence.
  - rewrite place_used in Hp by done. destruct (_ <? _); [|done].
    apply list_of_size_partial in Hp. naive_solver.
Qed.

Lemma free_meta_chunk_spec short s r s1 :
  inv admin s → free_meta_chunk short s = (r, s1) →
  match r with
  | Some id => ∃ l, get_list (free_list id) s = id :: l ∧ s1 = upd_list (free_list id) (fun _ => l) s ∧
      (id.2 = 0 → short = true)
  | None => s1 = s ∧ get_list LComplete s = [] ∧ (short = true → get_list LShort s = [])
  end.
Proof.
  intros Hinv.
  assert (∀ n id l, n = LShort ∨ n = LComplete → get_list n s = id :: l →
    get_list (free_list id) s = id :: l ∧ upd_list n (fun _ => l) s = upd_list (free_list id) (fun _ => l) s) as Hhead.
  { intros n id l Hn Hl. assert (n = free_list id) as <-; [|done].
    apply (free_list_of id n s Hinv); [rewrite Hl; by left|done]. }
  assert (∀ id l, get_list LComplete s = id :: l → id.2 ≠ 0) as Hc.
  { intros id l Hl He. assert (LComplete = free_list id) as Hf.
    { apply (free_list_of id LComplete s Hinv); [rewrite Hl; by left|auto]. }
    unfold free_list in Hf. by rewrite He in Hf. }
  unfold free_meta_chunk, MetaChunkListRemoveHead.
  destruct short; [destruct (get_list LShort s) as [|id l] eqn:E|].
  - destruct (get_list LComplete s) as [|id l] eqn:E2; intros [= <- <-]; [done|].
    destruct (Hhead LComplete id l) as [? ?]; [auto|done|]. exists l. done.
  - intros [= <- <-]. destruct (Hhead LShort id l) as [? ?]; [auto|done|]. exists l. done.
  - destruct (get_list LComplete s) as [|id l] eqn:E2; intros [= <- <-]; [done|].
    destruct (Hhead LComplete id l) as [? ?]; [auto|done|]. exists l. split_and!; [done|done|].
    intros He. by destruct (Hc id l).
Qed.

Definition chunk_allocated (s : manager) (id : mcid) (i : Z) : Prop :=
  ∃ m, metaChunks s !! id = Some m ∧ chunkSize m ≠ 0 ∧ 0 <= i < chunkCount m ∧ allocated m i.

Lemma allocated_iff l m i : mc_ok l m → 0 <= i < chunkCount m → allocated m i ↔ i ∉ l.
Proof.
  intros Hok Hi. split; [|by apply (mc_alloc _ _ Hok)].
  intros (v & Hv & Hf) Hin. apply (is_chunk_free_spec l m i v Hok Hi Hv) in Hin. congruence.
Qed.

(** The chunks [f .. f + count - 1] of meta chunk [id] have become allocated,
    and nothing else has changed hands. *)
Definition got (id : mcid) (f count : Z) (s s' : manager) : Prop :=
  (∀ j, f <= j < f + count → ¬ chunk_allocated s id j ∧ chunk_allocated s' id j) ∧
  ∀ id' j, id' ≠ id ∨ ¬ (f <= j < f + count) → chunk_allocated s' id' j ↔ chunk_allocated s id' j.

Lemma got_intro id f count l l' m m' s s' :
  metaChunks s !! id = Some m → metaChunks s' !! id = Some m' →
  (∀ id', id' ≠ id → metaChunks s' !! id' = metaChunks s !! id') →
  chunkSize m ≠ 0 → chunkSize m' = chunkSize m → chunkCount m' = chunkCount m →
  mc_ok l m → mc_ok l' m' → (∀ j, f <= j < f + count → j ∈ l) →
  (∀ j, j ∈ l' ↔ j ∈ l ∧ ¬ f <= j < f + count) → got id f count s s'.
Proof.
  intros Hm Hm' Hother Hs Hs' Hc Hok Hok' Hrun Hl'.
  assert (∀ j, chunk_allocated s id j ↔ 0 <= j < chunkCount m ∧ j ∉ l) as Ha.
  { intros j. unfold chunk_allocated. rewrite Hm. split.
    - intros (x & [= <-] & _ & Hj & Hal). by rewrite (allocated_iff l m j Hok Hj) in Hal.
    - intros [Hj Hn]. exists m. split_and!; [done..|lia|lia|]. by apply (allocated_iff l m j Hok Hj). }
  assert (∀ j, chunk_allocated s' id j ↔ 0 <= j < chunkCount m ∧ j ∉ l') as Ha'.
  { intros j. unfold chunk_allocated. rewrite Hm'. split.
    - intros (x & [= <-] & _ & Hj & Hal). rewrite (allocated_iff l' m' j Hok' Hj) in Hal. by rewrite <- Hc.
    - intros [Hj Hn]. rewrite <- Hc in Hj. exists m'. split_and!; [done|congruence|lia|lia|].
      by apply (allocated_iff l' m' j Hok' Hj). }
  pose proof (seg_range _ _ _ _ (mc_free _ _ Hok)) as Hr. rewrite Forall_forall in Hr.
  split.
  - intros j Hj. rewrite Ha, Ha', Hl'. pose proof (Hrun j Hj) as Hin. pose proof (Hr j Hin). tauto.
  - intros id' j Hor. destruct (decide (id' = id)) as [->|Hne].
    + rewrite Ha, Ha', Hl'. pose proof (Hr j). destruct Hor; tauto.
    + unfold chunk_allocated. by rewrite Hother.
Qed.

(** Preparing a meta chunk allocates nothing. *)
Lemma prepared_allocated id m size s s3 :
  inv admin s → metaChunks s !! id = Some m → chunkSize m = 0 → chunk_size size →
  (id.2 = 0 → size ≠ SLAB_CHUNK_SIZE_LARGE) →
  metaChunks s3 = <[id := PrepareMetaChunk id.1 admin (id.2 =? 0) size m]> (metaChunks s) →
  ∀ id' j, chunk_allocated s3 id' j ↔ chunk_allocated s id' j.
Proof.
  intros Hinv Hm Hz Hs Hl HM id' j. unfold chunk_allocated. rewrite HM.
  destruct (decide (id' = id)) as [->|]; [|by rewrite lookup_insert_ne].
  rewrite lookup_insert_eq, Hm.
  destruct (prepared_mc id m size (inv_mc _ _ Hinv _ _ Hm) Hs Hl) as (_ & Hok & _ & _ & Hc).
  pose proof (usable_count id size Hs Hl). split; intros (x & [= <-] & Hx & Hj & Hal); [|done].
  apply (allocated_iff _ _ _ Hok Hj) in Hal. destruct Hal. apply indexes_elem. lia.
Qed.

(** What a successful or failed request leaves. *)
Definition get_result (size count : Z) (s : manager) (r : option (mcid * Z)) (s' : manager) : Prop :=
  inv admin s' ∧ sAreaTable s' = sAreaTable s ∧ sFreeAreas s' = sFreeAreas s ∧
  (∀ a, is_Some (areas s !! a) → is_Some (areas s' !! a)) ∧
  match r with
  | Some (id, chunk) =>
      ∃ f m', metaChunks s' !! id = Some m' ∧ chunk = chunk_ptr m' f ∧ chunkSize m' = size ∧
        id.1 ∈ sAreaTable s ∧ 0 <= f ∧ f + count <= chunkCount m' ∧ got id f count s s'
  | None => s' = s ∧ sFreeCompleteMetaChunks s = []
  end.

Lemma chunk_list_size size ml : chunk_size size → chunk_list size = Ret ml → ml = list_of_size size.
Proof. intros [->|[->| ->]]; vm_compute; congruence. Qed.

(** Taking [count] chunks from a meta chunk in use. *)
Lemma taken_result id m m' l l' f count s :
  inv admin s → metaChunks s !! id = Some m → id.1 ∈ sAreaTable s → chunkSize m ≠ 0 →
  mc_ok l m → mc_ok l' m' → length (chunks m') = length (chunks m) → chunks_addr m' = chunks_addr m →
  chunkSize m' = chunkSize m → chunkCount m' = chunkCount m → chunkBase m' = chunkBase m →
  totalSize m' = totalSize m → 0 < count → (∀ j, f <= j < f + count → j ∈ l) →
  (∀ j, j ∈ l' ↔ j ∈ l ∧ ¬ f <= j < f + count) →
  get_result (chunkSize m) count s (Some (id, chunk_ptr m f))
    (drop_full (list_of_size (chunkSize m)) id (bool_decide (l' = [])) (set_mc id m' s)).
Proof.
  intros Hinv Hm Ht Hs Hok Hok' Hlen Haddr Hs' Hc Hb Htot Hcount Hrun Hl'.
  pose proof (drop_full_fields (list_of_size (chunkSize m)) id (bool_decide (l' = [])) (set_mc id m' s))
    as (HM & HA & HT & HF & _).
  pose proof (seg_range _ _ _ _ (mc_free _ _ Hok)) as Hr. rewrite Forall_forall in Hr.
  pose proof (mc_used _ _ Hok) as Hu. pose proof (mc_used _ _ Hok') as Hu'.
  assert (f ∈ l) as Hfl by (apply Hrun; lia).
  assert (0 < length l)%nat as Hll by (destruct l; [by apply elem_of_nil in Hfl|cbn; lia]).
  pose proof (inv_mc _ _ Hinv _ _ Hm) as Hmi. destruct (mi_used _ _ _ Hmi Hs) as (M1 & M2 & M3 & M4 & M5 & _).
  split_and!.
  - apply (mc_take_inv id m m'); try done; [|lia|].
    + split; try (rewrite ?Hlen, ?Haddr, ?Hb, ?Htot, ?Hs'; by apply Hmi).
      * rewrite Hs'. done.
      * rewrite Hs', Hc, Hb, Htot. intros _. split_and!; try done. by exists l'.
    + destruct l' as [|x l']; cbn [length] in Hu'.
      * rewrite bool_decide_eq_true_2 by done. destruct (Z.ltb_spec (usedChunkCount m') (chunkCount m')); [lia|done].
      * rewrite bool_decide_eq_false_2 by done. destruct (Z.ltb_spec (usedChunkCount m') (chunkCount m')); [done|lia].
  - by rewrite HT.
  - by rewrite HF.
  - intros a. by rewrite HA.
  - exists f, m'. split_and!; try done.
    + rewrite HM. apply lookup_insert_eq.
    + unfold chunk_ptr. by rewrite Haddr.
    + apply Hr in Hfl. lia.
    + pose proof (Hr _ (Hrun (f + count - 1) ltac:(lia))). lia.
    + apply (got_intro id f count l l' m m'); try done.
      * rewrite HM. apply lookup_insert_eq.
      * intros id' Hne. rewrite HM. change (<[id := m']> (metaChunks s) !! id' = metaChunks s !! id'). by rewrite lookup_insert_ne.
Qed.

Lemma take_one_result id m s :
  inv admin s → metaChunks s !! id = Some m → id.1 ∈ sAreaTable s → chunkSize m ≠ 0 →
  usedChunkCount m < chunkCount m →
  ∃ isFull chunk m', take_chunk m = Ret (isFull, chunk, m') ∧
    get_result (chunkSize m) 1 s (Some (id, chunk))
      (drop_full (list_of_size (chunkSize m)) id isFull (set_mc id m' s)).
Proof.
  intros Hinv Hm Ht Hs Hlt. destruct (mi_used _ _ _ (inv_mc _ _ Hinv _ _ Hm) Hs) as (_ & _ & _ & _ & _ & l & Hok).
  destruct l as [|i l]. { pose proof (mc_used _ _ Hok) as Hu. cbn in Hu. lia. }
  destruct (take_chunk_ok i l m Hok) as (m' & Htk & Hok' & Htaken & Hu & ? & ? & ?).
  exists (bool_decide (l = [])), (chunk_ptr m i), m'. split; [done|].
  pose proof (mc_nodup _ _ Hok) as [Hil _]%NoDup_cons.
  eapply taken_result; try done; try apply Htaken.
  - intros j Hj. assert (j = i) as -> by lia. by left.
  - intros j. rewrite elem_of_cons. split.
    + intros Hj. split; [by right|]. intros ?. assert (j = i) as -> by lia. done.
    + intros [[->|Hj] Hn]; [lia|done].
Qed.

Lemma take_run_result id m count s :
  inv admin s → metaChunks s !! id = Some m → id.1 ∈ sAreaTable s → chunkSize m ≠ 0 →
  0 < count → range_fits count m = true →
  ∃ isFull chunk m', take_chunks (Z.to_nat (chunkCount m)) count m = Ret (isFull, chunk, m') ∧
    get_result (chunkSize m) count s (Some (id, chunk))
      (drop_full (list_of_size (chunkSize m)) id isFull (set_mc id m' s)).
Proof.
  intros Hinv Hm Ht Hs Hcount Hfit. destruct (mi_used _ _ _ (inv_mc _ _ Hinv _ _ Hm) Hs) as (_ & _ & _ & _ & _ & l & Hok).
  assert ((length l <= Z.to_nat (chunkCount m))%nat) as Hfuel.
  { pose proof (mc_used _ _ Hok). pose proof (mc_used_nonneg _ _ Hok). lia. }
  destruct (take_chunks_ok (Z.to_nat (chunkCount m)) count l m Hok Hcount Hfit Hfuel)
    as (m' & Htk & Hok' & Htaken & Hu & ? & ? & ? & _).
  eexists _, _, m'. split; [done|]. eapply taken_result; try done; try apply Htaken.
  - intros j Hj. apply (mc_range _ _ Hok). apply Z.leb_le in Hfit. lia.
  - intros j. rewrite list_elem_of_filter. unfold in_run. tauto.
Qed.

Lemma get_result_prepared size count id m s s3 r s' :
  inv admin s → metaChunks s !! id = Some m → chunkSize m = 0 → chunk_size size →
  (id.2 = 0 → size ≠ SLAB_CHUNK_SIZE_LARGE) →
  metaChunks s3 = <[id := PrepareMetaChunk id.1 admin (id.2 =? 0) size m]> (metaChunks s) →
  sAreaTable s3 = sAreaTable s → sFreeAreas s3 = sFreeAreas s ∧ (∀ a, is_Some (areas s !! a) → is_Some (areas s3 !! a)) →
  get_result size count s3 (Some r) s' → get_result size count s (Some r) s'.
Proof.
  intros Hinv Hm Hz Hs Hl HM HT [HF HA] (H1 & H2 & H3 & H4 & H5).
  pose proof (prepared_allocated id m size s s3 Hinv Hm Hz Hs Hl HM) as Halloc.
  split_and!; [done|congruence|congruence| |].
  - intros a Ha. by apply H4, HA.
  - destruct r as [id' chunk]. destruct H5 as (f & m' & ? & ? & ? & ? & ? & ? & Hgot).
    exists f, m'. rewrite HT in *. split_and!; try done. destruct Hgot as [G1 G2]. split.
    + intros j Hj. rewrite <- Halloc. by apply G1.
    + intros id'' j Hor. rewrite <- Halloc. by apply G2.
Qed.

Lemma acquired_fields id l ml s s3 size :
  prepare admin id size (inc_used id.1 (add_partial ml id (upd_list (free_list id) (fun _ => l) s))) = Ret s3 →
  sFreeAreas s3 = sFreeAreas s ∧ ∀ a, is_Some (areas s !! a) → is_Some (areas s3 !! a).
Proof.
  unfold prepare. intros H. inv_outcome.
  assert (∀ n f s, areas (upd_list n f s) = areas s) as Ha by by intros [].
  split; [unfold add_partial; destruct ml as [n|]; [destruct n|]; by destruct (free_list id)|].
  intros b Hb. apply lookup_alter_is_Some. unfold add_partial. by destruct ml; rewrite ?Ha.
Qed.

(** A meta chunk in the partial list of a size is used for it and not full. *)
Lemma partial_member n id size s :
  inv admin s → list_of_size size = Some n → id ∈ get_list n s →
  ∃ m, metaChunks s !! id = Some m ∧ id.1 ∈ sAreaTable s ∧ chunkSize m = size ∧ size ≠ 0 ∧
    usedChunkCount m < chunkCount m.
Proof.
  intros Hinv Hn Hin. apply (inv_lists _ _ Hinv) in Hin as [Ht (m & Hm & Hp)].
  assert (chunkSize m ≠ 0) as Hz.
  { intros Hz. rewrite place_free in Hp by done. apply list_of_size_partial in Hn as [? ?].
    unfold free_list in Hp. destruct (id.2 =? 0); congruence. }
  rewrite place_used in Hp by done. destruct (Z.ltb_spec (usedChunkCount m) (chunkCount m)); [|done].
  assert (chunkSize m = size) as Hs.
  { unfold list_of_size in Hp, Hn. repeat case_match; breflect; congruence. }
  exists m. split_and!; try done. congruence.
Qed.

Lemma get_chunk_ok size ml s :
  inv admin s → chunk_size size → chunk_list size = Ret ml →
  ∃ r s', _GetChunk admin ml size s = Ret (r, s') ∧ get_result size 1 s r s'.
Proof.
  intros Hinv Hsize Hml. apply chunk_list_size in Hml; [|done]. subst ml.
  unfold _GetChunk. destruct (list_of_size size ≫= _) as [id|] eqn:Hpart.
  - apply bind_Some in Hpart as (n & Hn & Hhead). apply head_Some_elem_of in Hhead.
    destruct (partial_member n id size s Hinv Hn Hhead) as (m & Hm & Ht & <- & Hz & Hlt).
    cbn [mbind outcome_bind]. rewrite Hm. cbn [deref mbind outcome_bind].
    destruct (take_one_result id m s Hinv Hm Ht Hz Hlt) as (isFull & chunk & m' & -> & Hres).
    cbn [mbind outcome_bind]. rewrite drop_full_ok; [cbn [mbind outcome_bind]; eauto|].
    intros n'. rewrite get_list_set_mc. by apply partial_list.
  - destruct (free_meta_chunk _ s) as [r s1] eqn:Hfree. apply free_meta_chunk_spec in Hfree; [|done].
    destruct r as [id|].
    2: { destruct Hfree as (-> & Hc & _). cbn. exists None, s. split; [done|].
         unfold get_result. naive_solver. }
    destruct Hfree as (l & Hlist & -> & Hshort).
    assert (id.2 = 0 → size ≠ SLAB_CHUNK_SIZE_LARGE) as Hlarge.
    { intros He%Hshort Hl. subst size. vm_compute in He. discriminate. }
    assert ((if size =? SLAB_CHUNK_SIZE_LARGE then Ret (upd_list (free_list id) (fun _ => l) s)
      else n ← deref (list_of_size size); Ret (upd_list n (fun l => l ++ [id]) (upd_list (free_list id) (fun _ => l) s)))
      = Ret (add_partial (list_of_size size) id (upd_list (free_list id) (fun _ => l) s))) as ->.
    { by destruct Hsize as [->|[->| ->]]. }
    cbn [mbind outcome_bind].
    destruct (acquire_ok id l size s Hinv Hlist Hsize Hlarge) as (m & s3 & Hp & Hinv3 & Hm & Hz & Ht & HT & HM).
    pose proof (acquired_fields _ _ _ _ _ _ Hp) as HF. rewrite Hp. cbn [mbind outcome_bind].
    set (m1 := PrepareMetaChunk id.1 admin (id.2 =? 0) size m) in *.
    assert (metaChunks s3 !! id = Some m1) as Hm1 by (rewrite HM; apply lookup_insert_eq).
    destruct (prepared_mc id m size (inv_mc _ _ Hinv _ _ Hm) Hsize Hlarge) as (_ & _ & Hsz & Hu & Hc). fold m1 in Hsz, Hu, Hc.
    pose proof (usable_count id size Hsize Hlarge). pose proof (chunk_size_pos _ Hsize).
    rewrite Hm1. cbn [deref mbind outcome_bind].
    destruct (take_one_result id m1 s3) as (isFull & chunk & m' & -> & Hres); try done; [by rewrite HT|lia|lia|].
    cbn [mbind outcome_bind]. rewrite Hsz in Hres. rewrite drop_full_ok.
    2: { intros n'. rewrite get_list_set_mc, <- Hsz. apply (partial_list id m1); [done|done|by rewrite HT|lia|lia]. }
    cbn [mbind outcome_bind]. eexists _, _. split; [done|]. by eapply get_result_prepared.
Qed.

Lemma find_fitting_spec count l s r :
  find_fitting count l s = Ret r →
  match r with
  | Some id => id ∈ l ∧ ∃ m, metaChunks s !! id = Some m ∧ range_fits count m = true
  | None => True
  end.
Proof.
  induction l as [|id l IH]; cbn; intros H; inv_outcome; [done| |].
  - split; [by left|]. exists a. split; [|done]. unfold deref in E. by destruct (metaChunks s !! id); inv_outcome.
  - apply IH in H. destruct r; [|done]. destruct H as [? ?]. split; [by right|done].
Qed.

Lemma find_fitting_total count n s :
  inv admin s → ∀ l, (∀ id, id ∈ l → id ∈ get_list n s) → ∃ r, find_fitting count l s = Ret r.
Proof.
  intros Hinv. induction l as [|id l IH]; intros Hl; cbn; [by eexists|].
  destruct (inv_lists _ _ Hinv n id) as [H _]. destruct H as [_ (m & Hm & _)]; [apply Hl; by left|].
  rewrite Hm. cbn. destruct (range_fits count m); [by eexists|]. apply IH. intros. apply Hl. by right.
Qed.

Lemma prepared_fits id m size count :
  mc_inv admin id m → chunk_size size → (id.2 = 0 → size ≠ SLAB_CHUNK_SIZE_LARGE) →
  0 < count <= usable admin id size / size →
  range_fits count (PrepareMetaChunk id.1 admin (id.2 =? 0) size m) = true.
Proof.
  intros Hmi Hs Hl Hc. destruct (prepared_mc id m size Hmi Hs Hl) as (_ & Hok & _ & _ & Hcnt).
  pose proof (usable_count id size Hs Hl) as Hu. unfold range_fits. apply Z.leb_le.
  revert Hcnt. unfold PrepareMetaChunk. cbv zeta.
  match goal with |- context [push_all ?n ?x] => generalize (push_all n x) end. intros y Hcnt.
  change (chunkCount y = usable admin id size / size) in Hcnt.
  change (0 + count - 1 <= u16 (chunkCount y - 1)). rewrite Hcnt, wrap_small by (unfold fits; lia). lia.
Qed.

Lemma get_chunks_ok size count ml s :
  inv admin s → chunk_size size → chunk_list size = Ret ml →
  0 < count → count * size <= SLAB_CHUNK_SIZE_LARGE →
  ∃ r s', _GetChunks admin ml size count s = Ret (r, s') ∧ get_result size count s r s'.
Proof.
  intros Hinv Hsize Hml Hc1 Hc2. unfold _GetChunks. destruct (Z.eqb_spec count 1) as [->|Hne].
  { by apply get_chunk_ok. }
  apply chunk_list_size in Hml; [|done]. subst ml.
  pose proof (chunk_size_pos _ Hsize) as Hpos.
  assert (size ≠ SLAB_CHUNK_SIZE_LARGE) as Hnl by (intros ->; nia).
  destruct (list_of_size size) as [n|] eqn:Hn; [|by destruct Hsize as [->|[->| ->]]].
  cbn [deref mbind outcome_bind].
  destruct (find_fitting_total count n s Hinv (get_list n s)) as [r Hr]; [done|].
  rewrite Hr. cbn [mbind outcome_bind]. apply find_fitting_spec in Hr. destruct r as [id|].
  - destruct Hr as [Hin (m & Hm & Hfit)].
    destruct (partial_member n id size s Hinv Hn Hin) as (m0 & Hm0 & Ht & Hs & Hz & _).
    assert (m0 = m) as -> by congruence. cbn [mbind outcome_bind]. rewrite Hm. cbn [deref mbind outcome_bind].
    destruct (take_run_result id m count s) as (isFull & chunk & m' & -> & Hres); try done; [congruence|].
    rewrite Hs, Hn in Hres. cbn [mbind outcome_bind].
    rewrite (drop_full_ok (Some n)) by (intros n' [= <-]; by rewrite get_list_set_mc).
    cbn [mbind outcome_bind]. eauto.
  - clear Hr. destruct (free_meta_chunk _ s) as [r s1] eqn:Hfree. apply free_meta_chunk_spec in Hfree; [|done].
    destruct r as [id|].
    2: { destruct Hfree as (-> & Hc & _). cbn. exists None, s. split; [done|]. unfold get_result. naive_solver. }
    destruct Hfree as (l & Hlist & -> & Hshort).
    destruct (acquire_ok id l size s Hinv Hlist Hsize ltac:(done)) as (m & s3 & Hp & Hinv3 & Hm & Hz & Ht & HT & HM).
    pose proof (acquired_fields _ _ _ _ _ _ Hp) as HF. rewrite Hn in Hp. cbn [add_partial] in Hp. rewrite Hp.
    cbn [mbind outcome_bind]. set (m1 := PrepareMetaChunk id.1 admin (id.2 =? 0) size m) in *.
    assert (metaChunks s3 !! id = Some m1) as Hm1 by (rewrite HM; apply lookup_insert_eq).
    pose proof (inv_mc _ _ Hinv _ _ Hm) as Hmi.
    assert (0 < count <= usable admin id size / size) as Hcount.
    { split; [done|]. destruct (decide (id.2 = 0)) as [He|He].
      - pose proof (Hshort He) as Hle. apply Z.leb_le in Hle. rewrite (fits_short_exact id.1) in Hle by done.
        destruct id as [a i]. cbn in He, Hle. by rewrite He.
      - unfold usable. apply Z.eqb_neq in He as ->. apply Z.div_le_lower_bound; lia. }
    pose proof (prepared_fits id m size count Hmi Hsize ltac:(done) Hcount) as Hfit. fold m1 in Hfit.
    destruct (prepared_mc id m size Hmi Hsize ltac:(done)) as (_ & _ & Hsz & _). fold m1 in Hsz.
    rewrite Hm1. cbn [deref mbind outcome_bind].
    destruct (take_run_result id m1 count s3) as (isFull & chunk & m' & -> & Hres); try done; [by rewrite HT|lia|].
    rewrite Hsz, Hn in Hres. cbn [mbind outcome_bind]. rewrite (drop_full_ok (Some n)).
    2: { intros n' [= <-]. rewrite get_list_set_mc. destruct (prepared_mc id m size Hmi Hsize ltac:(done)) as (_ & _ & _ & Hu & Hc).
         apply (partial_list id m1); [done|done|by rewrite HT|lia|fold m1 in Hu, Hc; lia|by rewrite Hsz]. }
    cbn [mbind outcome_bind]. eexists _, _. split; [done|]. by eapply get_result_prepared.
Qed.

(** ** Areas *)

(** An area only the calling thread knows about. *)
Definition private (a : Z) (s : manager) : Prop :=
  is_Some (areas s !! a) ∧ a ∉ sAreaTable s ∧ a ∉ sFreeAreas s.

Lemma complete_ids_elem a id : id ∈ complete_ids a ↔ id ∈ meta_ids a ∧ id.2 ≠ 0.
Proof.
  assert (meta_ids a = (a, 0) :: complete_ids a) as Hc by done.
  pose proof (meta_ids_NoDup a) as Hnd. rewrite Hc in Hnd |- *. apply NoDup_cons in Hnd as [Hn _].
  rewrite elem_of_cons. split.
  - intros Hin. split; [by right|]. intros He. apply Hn.
    assert (id ∈ meta_ids a) as [<- _]%meta_ids_elem by (rewrite Hc; by right). destruct id. cbn in *. by subst.
  - intros [[->|]]; done.
Qed.

Lemma free_lists_of_area a id :
  id ∈ meta_ids a → (free_list id = LShort ↔ id = (a, 0)) ∧ (free_list id = LComplete ↔ id ∈ complete_ids a).
Proof.
  intros Hin. rewrite complete_ids_elem. apply meta_ids_elem in Hin as Hin'. destruct Hin' as [<- _].
  unfold free_list. destruct id as [a i]. cbn. destruct (Z.eqb_spec i 0); subst; naive_solver.
Qed.

Lemma mc_area a id m s : inv admin s → metaChunks s !! id = Some m → id.1 = a → id ∈ meta_ids a.
Proof. intros Hinv Hm He. apply meta_ids_elem. split; [done|]. by apply (inv_mc _ _ Hinv _ _ Hm). Qed.

Lemma used_count_0 a M :
  used_count M a = 0 ↔ ∀ id m, id ∈ meta_ids a → M !! id = Some m → chunkSize m = 0.
Proof.
  unfold used_count. split.
  - intros H id m Hid Hm. destruct (decide (chunkSize m = 0)) as [|Hne]; [done|].
    assert (id ∈ filter (in_use M) (meta_ids a)) as Hin.
    { apply list_elem_of_filter. split; [|done]. unfold in_use. by rewrite Hm. }
    destruct (filter (in_use M) (meta_ids a)); [by apply elem_of_nil in Hin|done].
  - intros H. assert (filter (in_use M) (meta_ids a) = []) as ->; [|done].
    apply elem_of_nil_inv. intros id [Hu Hin]%list_elem_of_filter. unfold in_use in Hu.
    destruct (M !! id) eqn:E; [|done]. by apply Hu, (H id).
Qed.

Lemma add_area_inv a s : inv admin s → private a s → inv admin (_AddArea a s).
Proof.
  intros Hinv (Ha & Hnt & Hnf).
  assert (∀ id, id ∈ meta_ids a → ∃ m, metaChunks s !! id = Some m ∧ place id m = Some (free_list id)) as Hplace.
  { intros id Hid. destruct (inv_ids _ _ Hinv a id Ha Hid) as [m Hm]. exists m. split; [done|].
    apply place_free. apply (inv_out _ _ Hinv id m Hm). by apply meta_ids_elem in Hid as [-> _]. }
  assert (∀ n id, id ∈ get_list n s → id.1 ≠ a) as Hold.
  { intros n id [Ht _]%(inv_lists _ _ Hinv) He. by rewrite He in Ht. }
  assert (∀ n, get_list n (_AddArea a s) = get_list n s ++
    match n with LShort => [(a, 0)] | LComplete => complete_ids a | _ => [] end) as Hget.
  { intros []; cbn; by rewrite ?app_nil_r. }
  assert (∀ n id, id ∈ match n with LShort => [(a, 0)] | LComplete => complete_ids a | _ => [] end ↔
    id ∈ meta_ids a ∧ free_list id = n) as Hnew.
  { intros n id. destruct n.
    - split; [|intros [Hid Hf]; by apply free_lists_of_area].
      intros Hin. assert (id ∈ meta_ids a) by by apply complete_ids_elem. split; [done|]. by apply (free_lists_of_area a).
    - split; [intros ->%list_elem_of_singleton|intros [Hid Hf]].
      + split; [|done]. apply meta_ids_elem. done.
      + apply list_elem_of_singleton. by apply free_lists_of_area.
    - split; [by intros ?%elem_of_nil|]. intros [_ Hf]. unfold free_list in Hf. by case_match.
    - split; [by intros ?%elem_of_nil|]. intros [_ Hf]. unfold free_list in Hf. by case_match. }
  split; try apply Hinv.
  - intros b [->%elem_of_singleton|Hb]%elem_of_union; [done|by apply Hinv].
  - intros n. rewrite Hget. apply NoDup_app. split_and!; [apply Hinv| |].
    + intros id Hid [Hin _]%Hnew. apply meta_ids_elem in Hin as [He _]. by apply (Hold n id).
    + destruct n; [|apply NoDup_singleton|constructor|constructor].
      pose proof (meta_ids_NoDup a) as Hnd. assert (meta_ids a = (a, 0) :: complete_ids a) as Hc by done.
      rewrite Hc in Hnd. by apply NoDup_cons in Hnd as [_ ?].
  - intros n id. rewrite Hget, elem_of_app, (inv_lists _ _ Hinv), Hnew.
    change (sAreaTable (_AddArea a s)) with ({[a]} ∪ sAreaTable s).
    change (metaChunks (_AddArea a s)) with (metaChunks s). rewrite elem_of_union, elem_of_singleton. split.
    + intros [[Ht ?]|[Hid <-]]; [by split; [right|]|].
      split; [left; by apply meta_ids_elem in Hid as [? _]|]. by apply Hplace.
    + intros [[He|Ht] (m & Hm & Hp)]; [|left; split; [done|by exists m]].
      right. pose proof (mc_area a id m s Hinv Hm He) as Hid. split; [done|].
      destruct (Hplace id Hid) as (m2 & Hm2 & Hp2). congruence.
  - intros b Hb. apply (inv_free _ _ Hinv) in Hb as Hb'. destruct Hb' as [? ?]. split; [done|].
    intros [->%elem_of_singleton|?]%elem_of_union; done.
  - intros id m Hm Hout. apply (inv_out _ _ Hinv id m Hm). intros Ht. apply Hout. apply elem_of_union. by right.
Qed.

Lemma push_area_inv a s : inv admin s → private a s → inv admin (_PushFreeArea a s).
Proof.
  intros Hinv (Ha & Hnt & Hnf). split; try apply Hinv.
  - apply NoDup_cons. split; [done|apply Hinv].
  - change (sFreeAreaCount s + 1 = Z.of_nat (length (a :: sFreeAreas s))). rewrite (inv_free_count _ _ Hinv). cbn [length]. lia.
  - intros b [->|Hb]%elem_of_cons; [done|by apply (inv_free _ _ Hinv)].
Qed.

Lemma request_maintenance_inv s : inv admin s → inv admin (_RequestMaintenance s).
Proof. intros Hinv. unfold _RequestMaintenance. case_match; [done|]. by destruct Hinv. Qed.

Lemma pop_area_inv a l s :
  inv admin s → sFreeAreas s = a :: l →
  ∃ s', _PopFreeArea s = (Some a, s') ∧ inv admin s' ∧ private a s' ∧ metaChunks s' = metaChunks s ∧
    ∀ n, get_list n s' = get_list n s.
Proof.
  intros Hinv Hl. pose proof (inv_free_count _ _ Hinv) as Hc. rewrite Hl in Hc. cbn [length] in Hc.
  pose proof (inv_free_nodup _ _ Hinv) as Hnd. rewrite Hl in Hnd. apply NoDup_cons in Hnd as [Hal Hnd].
  unfold _PopFreeArea. destruct (Z.eqb_spec (sFreeAreaCount s) 0); [lia|]. rewrite Hl.
  eexists. split; [done|]. split_and!.
  - split; try apply Hinv; [done|change (sFreeAreaCount s - 1 = Z.of_nat (length l)); lia|].
    intros b Hb. apply (inv_free _ _ Hinv). rewrite Hl. by right.
  - destruct (inv_free _ _ Hinv a) as [? ?]; [rewrite Hl; by left|]. by split.
  - done.
  - by intros [].
Qed.

Lemma drop_area_inv a s : inv admin s → private a s → inv admin (drop_area a s).
Proof.
  intros Hinv (Ha & Hnt & Hnf).
  assert (∀ id m, metaChunks (drop_area a s) !! id = Some m ↔ metaChunks s !! id = Some m ∧ id.1 ≠ a) as HM.
  { intros id m. change (metaChunks (drop_area a s)) with (filter (fun kv : mcid * MetaChunk => kv.1.1 ≠ a) (metaChunks s)).
    by rewrite map_lookup_filter_Some. }
  assert (∀ b A, areas (drop_area a s) !! b = Some A ↔ a ≠ b ∧ areas s !! b = Some A) as HA.
  { intros b A. apply lookup_delete_Some. }
  split; try apply Hinv.
  - intros id m [Hm _]%HM. by eapply inv_mc.
  - intros b A [Hne HAb]%HA. rewrite (inv_area _ _ Hinv _ _ HAb). unfold used_count. do 2 f_equal.
    apply filter_ext_elem. intros id [He _]%meta_ids_elem. unfold in_use.
    destruct (metaChunks s !! id) eqn:E.
    + assert (metaChunks (drop_area a s) !! id = Some m) as -> by (apply HM; split; [done|congruence]). done.
    + destruct (metaChunks (drop_area a s) !! id) eqn:E2; [|done]. apply HM in E2 as [? _]. congruence.
  - intros b id [A [Hne HAb]%HA] Hid. destruct (inv_ids _ _ Hinv b id) as [m Hm]; [by eexists|done|].
    exists m. apply HM. split; [done|]. apply meta_ids_elem in Hid as [-> _]. congruence.
  - intros b Hb. destruct (inv_table _ _ Hinv b Hb) as [A HAb]. exists A. apply HA. split; [|done]. by intros ->.
  - intros n id. change (get_list n (drop_area a s)) with (get_list n (drop_area a s)).
    assert (get_list n (drop_area a s) = get_list n s) as -> by by destruct n. rewrite (inv_lists _ _ Hinv).
    change (sAreaTable (drop_area a s)) with (sAreaTable s). setoid_rewrite HM.
    split; intros [Ht (m & Hm & Hp)]; (split; [done|]); exists m; [|naive_solver].
    split_and!; try done. intros He. rewrite He in Ht. done.
  - intros b Hb. destruct (inv_free _ _ Hinv b Hb) as [[A HAb] ?]. split; [|done]. exists A. apply HA. split; [|done].
    intros ->. done.
  - intros id m [Hm _]%HM. apply (inv_out _ _ Hinv id m Hm).
Qed.

Definition keeps_inv (f : manager → manager) : Prop := ∀ s, inv admin s → inv admin (f s).

(** [_FreeArea] of an area no list knows about any more. *)
Lemma free_private_ok others a fl s :
  keeps_inv others → inv admin s → private a s → ∃ s', _FreeArea others a true fl s = Ret s' ∧ inv admin s'.
Proof.
  intros Ho Hinv Hp. pose proof Hp as ((A & HA) & Hnt & Hnf). unfold _FreeArea. rewrite HA. cbn [deref mbind outcome_bind].
  assert (usedMetaChunkCount A = 0) as ->.
  { rewrite (inv_area _ _ Hinv _ _ HA). apply used_count_0. intros id m Hid Hm. apply (inv_out _ _ Hinv id m Hm).
    by apply meta_ids_elem in Hid as [-> _]. }
  cbn [Z.eqb assert mbind outcome_bind].
  destruct (sFreeAreaCount s <=? 1); [|destruct (_ || _)]; eexists; (split; [done|]).
  - by apply push_area_inv.
  - by apply request_maintenance_inv, push_area_inv.
  - by apply Ho, drop_area_inv.
Qed.

Lemma free_area_removed others a fl s :
  inv admin s → a ∈ sAreaTable s → used_count (metaChunks s) a = 0 →
  ∃ s1, _FreeArea others a false fl s = _FreeArea others a true fl s1 ∧ inv admin s1 ∧ private a s1 ∧
    metaChunks s1 = metaChunks s.
Proof.
  intros Hinv Ht Hu. destruct (inv_table _ _ Hinv a Ht) as [A HA]. rewrite used_count_0 in Hu.
  set (s1 := (upd_list LComplete (filter (fun id => id ∉ complete_ids a)) (upd_list LShort (remove_elem (a, 0)) s))
    <| sAreaTable ::= fun T => T ∖ {[a]} |>).
  assert (∀ id, id ∈ meta_ids a → ∃ m, metaChunks s !! id = Some m ∧ usedChunkCount m = 0 ∧ id ∈ get_list (free_list id) s) as Hmc.
  { intros id Hid. destruct (inv_ids _ _ Hinv a id) as [m Hm]; [by eexists|done|]. exists m.
    pose proof (Hu id m Hid Hm) as Hz. split_and!; [done|by apply (mi_free _ _ _ (inv_mc _ _ Hinv _ _ Hm))|].
    apply (inv_lists _ _ Hinv). apply meta_ids_elem in Hid as [He _]. rewrite He. split; [done|]. exists m.
    split; [done|]. by apply place_free. }
  destruct (Hmc (a, 0)) as (m0 & Hm0 & Hu0 & Hl0); [by apply meta_ids_elem|]. change (free_list (a, 0)) with LShort in Hl0.
  exists s1. split_and!.
  - unfold _FreeArea. change (areas s1) with (areas s). rewrite HA. cbn [deref mbind outcome_bind].
    destruct (assert _); [|done..]. cbn [mbind outcome_bind]. rewrite Hm0. cbn [deref mbind outcome_bind].
    rewrite Hu0. cbn [Z.eqb assert mbind outcome_bind]. unfold STAILQ_REMOVE.
    rewrite (bool_decide_eq_true_2 ((a, 0) ∈ get_list LShort s)) by done. cbn [assert mbind outcome_bind].
    rewrite remove_complete_ok; [done| |].
    + pose proof (meta_ids_NoDup a) as Hnd. assert (meta_ids a = (a, 0) :: complete_ids a) as Hc by done.
      rewrite Hc in Hnd. by apply NoDup_cons in Hnd as [_ ?].
    + intros id Hid. apply complete_ids_elem in Hid as Hid'. destruct Hid' as [Hid' _].
      destruct (Hmc id Hid') as (m & ? & ? & Hl). exists m. split_and!; [done|done|].
      apply (free_lists_of_area a) in Hid; [|done]. by rewrite Hid in Hl.
  - assert (∀ n id, id ∈ get_list n s1 ↔ id ∈ get_list n s ∧ id.1 ≠ a) as Hget.
    { intros n id. assert (id ∈ get_list n s → id.1 = a → id ∈ meta_ids a ∧ free_list id = n) as Hin.
      { intros [_ (m & Hm & Hp)]%(inv_lists _ _ Hinv) He. pose proof (mc_area a id m s Hinv Hm He) as Hid.
        split; [done|]. rewrite place_free in Hp by by apply (Hu id). congruence. }
      assert (n = LSmall ∨ n = LMedium → id ∈ get_list n s → id.1 ≠ a) as Hpart.
      { intros Hn Hid He. destruct (Hin Hid He) as [_ Hf]. unfold free_list in Hf. destruct (id.2 =? 0); naive_solver. }
      destruct n.
      - change (get_list LComplete s1) with (filter (fun id => id ∉ complete_ids a) (get_list LComplete s)).
        rewrite list_elem_of_filter, complete_ids_elem, meta_ids_elem. split.
        + intros [Hn Hid]. split; [done|]. intros He. destruct (Hin Hid He) as [Hm Hf].
          apply Hn. split; [by apply meta_ids_elem|]. intros H0. unfold free_list in Hf. by rewrite H0 in Hf.
        + intros [? ?]. split; [|done]. naive_solver.
      - change (get_list LShort s1) with (remove_elem (a, 0) (get_list LShort s)). rewrite elem_of_remove. split.
        + intros [Hn Hid]. split; [done|]. intros He. destruct (Hin Hid He) as [Hm Hf].
          by apply (free_lists_of_area a id Hm) in Hf.
        + intros [? Hne]. split; [|done]. by intros ->.
      - change (get_list LSmall s1) with (get_list LSmall s). naive_solver.
      - change (get_list LMedium s1) with (get_list LMedium s). naive_solver. }
    split; try apply Hinv.
    + intros b [Hb _]%elem_of_difference. by apply (inv_table _ _ Hinv).
    + intros []; [apply NoDup_filter|apply NoDup_remove_elem|..]; [apply (inv_nodup _ _ Hinv LComplete)|
        apply (inv_nodup _ _ Hinv LShort)|apply (inv_nodup _ _ Hinv LSmall)|apply (inv_nodup _ _ Hinv LMedium)].
    + intros n id. rewrite Hget, (inv_lists _ _ Hinv). change (sAreaTable s1) with (sAreaTable s ∖ {[a]}).
      rewrite elem_of_difference, elem_of_singleton. change (metaChunks s1) with (metaChunks s). tauto.
    + intros b Hb. destruct (inv_free _ _ Hinv b Hb) as [? ?]. split; [done|]. intros [? _]%elem_of_difference. done.
    + intros id m Hm Hout. change (metaChunks s1) with (metaChunks s) in Hm.
      destruct (decide (id.1 = a)) as [He|He]; [apply (Hu id); [by eapply mc_area|done]|].
      apply (inv_out _ _ Hinv id m Hm). intros Ht'. apply Hout. apply elem_of_difference. split; [done|]. by rewrite elem_of_singleton.
  - split_and!; [by eexists| |].
    + intros [_ Hn]%elem_of_difference. by apply Hn, elem_of_singleton.
    + intros Hf. destruct (inv_free _ _ Hinv a Hf). done.
  - done.
Qed.

(** ** Freeing chunks *)

Definition released (id : mcid) (i : Z) (s s' : manager) : Prop :=
  ∀ id' j, chunk_allocated s' id' j ↔ chunk_allocated s id' j ∧ (id', j) ≠ (id, i).

Lemma released_intro id i l m m' s s' :
  inv admin s → metaChunks s !! id = Some m → chunkSize m ≠ 0 → mc_ok l m → 0 <= i < chunkCount m → i ∉ l →
  metaChunks s' = <[id := m']> (metaChunks s) →
  (chunkSize m' = 0 ∧ usedChunkCount m = 1 ∨
   chunkSize m' ≠ 0 ∧ chunkCount m' = chunkCount m ∧ mc_ok (i :: l) m') →
  released id i s s'.
Proof.
  intros Hinv Hm Hs Hok Hi Hl HM Hcase id' j.
  destruct (decide (id' = id)) as [->|Hne].
  2: { unfold chunk_allocated. rewrite HM, lookup_insert_ne by done. split; [|naive_solver].
       intros H. split; [done|]. congruence. }
  assert (chunk_allocated s id j ↔ 0 <= j < chunkCount m ∧ j ∉ l) as ->.
  { unfold chunk_allocated. rewrite Hm. split.
    - intros (x & [= <-] & _ & Hj & Ha). by apply (allocated_iff l) in Ha.
    - intros [Hj Hn]. exists m. split_and!; try done; try lia. by apply (allocated_iff l). }
  unfold chunk_allocated. rewrite HM, lookup_insert_eq.
  destruct Hcase as [[Hz Hu]|(Hs' & Hc & Hok')].
  - split; [naive_solver|]. intros [[Hj Hn] Hne]. exfalso.
    assert (NoDup (j :: i :: l)) as Hnd.
    { apply NoDup_cons. split; [|apply NoDup_cons; split; [done|apply Hok]]. intros [->|]%elem_of_cons; [by apply Hne|done]. }
    assert ((length (j :: i :: l) <= length (indexes (Z.to_nat (chunkCount m))))%nat) as Hlen.
    { apply submseteq_length, NoDup_submseteq; [done|].
      pose proof (seg_range _ _ _ _ (mc_free _ _ Hok)) as Hr. rewrite Forall_forall in Hr.
      intros x [->|[->|Hx%Hr]%elem_of_cons]%elem_of_cons; apply indexes_elem; lia. }
    unfold indexes in Hlen. rewrite length_fmap, length_seq in Hlen. cbn [length] in Hlen.
    pose proof (mc_used _ _ Hok). lia.
  - split.
    + intros (x & [= <-] & _ & Hj & Ha). rewrite (allocated_iff (i :: l)) in Ha by done.
      rewrite not_elem_of_cons in Ha. destruct Ha as [? ?]. rewrite Hc in Hj. split; [done|]. congruence.
    + intros [[Hj Hn] Hne]. exists m'. rewrite Hc. split_and!; try done; try lia.
      apply (allocated_iff (i :: l)); [done|by rewrite Hc|]. apply not_elem_of_cons. split; [|done]. by intros ->.
Qed.

Lemma dec_used_areas a s A :
  inv admin s → areas s !! a = Some A → 0 < usedMetaChunkCount A →
  alter (fun x => x <| usedMetaChunkCount ::= fun n => u16 (n - 1) |>) a (areas s) =
  alter (fun A => A <| usedMetaChunkCount ::= fun n => n + -1 |>) a (areas s).
Proof.
  intros Hinv HA Hpos. apply map_eq. intros b. destruct (decide (b = a)) as [->|]; [|by rewrite !lookup_alter_ne].
  rewrite !lookup_alter_eq, HA. cbn. f_equal.
  pose proof (inv_area _ _ Hinv _ _ HA) as Hu. pose proof (used_count_bound (metaChunks s) a) as Hb.
  change SLAB_META_CHUNKS_PER_AREA with 16 in Hb. destruct A as [? ? n ?]. unfold update. cbn in *. f_equal.
  apply wrap_small. unfold fits. lia.
Qed.

(** The meta chunk part of [_FreeChunk]: it stays in use. *)
Lemma free_still_used id m m' s ls :
  inv admin s → metaChunks s !! id = Some m → id.1 ∈ sAreaTable s → chunkSize m ≠ 0 →
  mc_inv admin id m' → chunkSize m' = chunkSize m → usedChunkCount m' < chunkCount m' →
  ls = (if usedChunkCount m <? chunkCount m then set_mc id m' s
        else match list_of_size (chunkSize m) with
             | Some n => upd_list n (cons id) (set_mc id m' s)
             | None => set_mc id m' s
             end) → inv admin ls.
Proof.
  intros Hinv Hm Ht Hs Hmi Hs' Hlt Els.
  assert (metaChunks ls = <[id := m']> (metaChunks s) ∧ areas ls = areas s ∧ sAreaTable ls = sAreaTable s ∧
    sFreeAreas ls = sFreeAreas s ∧ sFreeAreaCount ls = sFreeAreaCount s ∧
    ∀ n, get_list n ls = if decide ((usedChunkCount m <? chunkCount m) = false ∧ list_of_size (chunkSize m) = Some n)
                         then id :: get_list n s else get_list n s) as (HM & HA & HT & HF & HFC & HL).
  { subst ls. destruct (usedChunkCount m <? chunkCount m).
    - split_and!; try done; intros n; rewrite decide_False by (intros [? ?]; congruence); by destruct n.
    - destruct (list_of_size (chunkSize m)) as [n'|].
      + pose proof (upd_list_fields n' (cons id) (set_mc id m' s)) as (-> & -> & -> & -> & ->).
        split_and!; try done. intros n. rewrite get_upd_list, get_list_set_mc. repeat case_decide; try done; naive_solver.
      + split_and!; try done; intros n; rewrite decide_False by (intros [? ?]; congruence); by destruct n. }
  apply (relocated_inv admin id m m' 0 s ls); [done..| |by rewrite Hs'; destruct (decide (chunkSize m = 0))].
  unfold relocated. rewrite alter_used_0, HM, HA, HT, HF, HFC. split_and!; [done..|]. intros n.
  assert (id ∈ get_list n s ↔ (usedChunkCount m <? chunkCount m) = true ∧ list_of_size (chunkSize m) = Some n) as Hold.
  { rewrite (inv_lists _ _ Hinv). split.
    - intros [_ (x & Hx & Hp)]. assert (x = m) as -> by congruence. rewrite place_used in Hp by done. by case_match.
    - intros [He Hn]. split; [done|]. exists m. rewrite place_used, He by done. done. }
  rewrite place_used by congruence. rewrite Hs'. apply Z.ltb_lt in Hlt. rewrite Hlt, HL.
  pose proof (inv_nodup _ _ Hinv n) as Hnd.
  destruct (decide ((usedChunkCount m <? chunkCount m) = false ∧ list_of_size (chunkSize m) = Some n)) as [[Hf Hn]|Hd].
  - split_and!.
    + apply NoDup_cons. split; [|done]. rewrite Hold. intros [? _]. congruence.
    + split; [done|intros; by left].
    + intros id' Hne. rewrite elem_of_cons. split; [by intros [|]|by right].
  - split_and!; [done| |done]. rewrite Hold. destruct (usedChunkCount m <? chunkCount m); [|naive_solver].
    by split; [intros [_ ?]|].
Qed.

(** The meta chunk becomes free. *)
Lemma free_now_empty id m m' s A :
  inv admin s → metaChunks s !! id = Some m → id.1 ∈ sAreaTable s → chunkSize m ≠ 0 →
  usedChunkCount m = 1 → mc_inv admin id m' → chunkSize m' = 0 → areas s !! id.1 = Some A →
  let ml := if 1 <? chunkCount m then list_of_size (chunkSize m) else None in
  let s1 := upd_list (free_list id) (cons id) (drop_full ml id true (set_mc id m' s)) in
  0 < usedMetaChunkCount A ∧
  inv admin (upd_area id.1 (fun x => x <| usedMetaChunkCount ::= fun n => u16 (n - 1) |>) s1).
Proof.
  intros Hinv Hm Ht Hs Hu Hmi Hz HAa ml s1.
  assert (0 < usedMetaChunkCount A) as Hpos.
  { rewrite (inv_area _ _ Hinv _ _ HAa). unfold used_count.
    assert (id ∈ filter (in_use (metaChunks s)) (meta_ids id.1)) as Hin.
    { apply list_elem_of_filter. split; [unfold in_use; by rewrite Hm|]. by eapply mc_area. }
    destruct (filter _ _); [by apply elem_of_nil in Hin|cbn; lia]. }
  split; [done|]. set (s2 := upd_area _ _ s1).
  assert (0 < chunkCount m) as Hcpos.
  { destruct (mi_used _ _ _ (inv_mc _ _ Hinv _ _ Hm) Hs) as (_ & _ & _ & _ & _ & l & Hok). apply (mc_count _ _ Hok). }
  pose proof (drop_full_fields ml id true (set_mc id m' s)) as (D1 & D2 & D3 & D4 & D5).
  pose proof (upd_list_fields (free_list id) (cons id) (drop_full ml id true (set_mc id m' s))) as (U1 & U2 & U3 & U4 & U5).
  apply (relocated_inv admin id m m' (-1) s s2); [done..| |by rewrite Hz; destruct (decide (chunkSize m = 0))].
  unfold relocated. split_and!.
  - change (metaChunks s2) with (metaChunks s1). subst s1. by rewrite U1, D1.
  - change (areas s2) with (alter (fun x => x <| usedMetaChunkCount ::= fun n => u16 (n - 1) |>) id.1 (areas s1)).
    subst s1. rewrite U2, D2. by apply (dec_used_areas id.1 s A).
  - change (sAreaTable s2) with (sAreaTable s1). subst s1. by rewrite U3, D3.
  - change (sFreeAreas s2) with (sFreeAreas s1). subst s1. by rewrite U4, D4.
  - change (sFreeAreaCount s2) with (sFreeAreaCount s1). subst s1. by rewrite U5, D5.
  - intros n. assert (get_list n s2 = get_list n s1) as -> by by destruct n. subst s1.
    assert (id ∈ get_list n s ↔ ml = Some n) as Hold.
    { rewrite (inv_lists _ _ Hinv). subst ml. split.
      - intros [_ (x & Hx & Hp)]. assert (x = m) as -> by congruence. rewrite place_used, Hu in Hp by done. done.
      - intros Hml. split; [done|]. exists m. rewrite place_used, Hu by done. done. }
    assert (ml ≠ Some (free_list id)) as Hmlf.
    { subst ml. destruct (1 <? chunkCount m); [|done]. intros Hn. apply list_of_size_partial in Hn.
      unfold free_list in Hn. destruct (id.2 =? 0); naive_solver. }
    assert (get_list n (drop_full ml id true (set_mc id m' s)) = remove_elem id (get_list n s)) as Hdrop.
    { unfold drop_full. destruct ml as [n'|].
      - rewrite get_upd_list, get_list_set_mc. case_decide; [done|]. rewrite remove_elem_id; [done|]. rewrite Hold. congruence.
      - rewrite get_list_set_mc, remove_elem_id; [done|]. by rewrite Hold. }
    rewrite place_free by done. rewrite get_upd_list, Hdrop. pose proof (inv_nodup _ _ Hinv n) as Hnd. case_decide as Hn.
    + subst n. split_and!; [|by split; [|left]|].
      * apply NoDup_cons. split; [rewrite elem_of_remove; naive_solver|by apply NoDup_remove_elem].
      * intros id' Hne. rewrite elem_of_cons, elem_of_remove. naive_solver.
    + split_and!; [by apply NoDup_remove_elem| |].
      * rewrite elem_of_remove. split; [naive_solver|congruence].
      * intros id' Hne. rewrite elem_of_remove. naive_solver.
Qed.

Lemma allocated_in_table id i s : inv admin s → chunk_allocated s id i → id.1 ∈ sAreaTable s.
Proof.
  intros Hinv (m & Hm & Hs & _). destruct (decide (id.1 ∈ sAreaTable s)) as [|Hn]; [done|].
  destruct Hs. by apply (inv_out _ _ Hinv id).
Qed.

Lemma freed_mc_inv id i l m m' kind :
  mc_inv admin id m → chunkSize m ≠ 0 → freed_ok (i :: l) m m' kind → usedChunkCount m' = usedChunkCount m - 1 →
  chunkBase m' = chunkBase m → totalSize m' = totalSize m → chunkCount m' = chunkCount m →
  chunks_addr m' = chunks_addr m → length (chunks m') = length (chunks m) → mc_inv admin id m'.
Proof.
  intros Hmi Hs Hf Hu Hb Ht Hc Ha Hl. destruct (mi_used _ _ _ Hmi Hs) as (M1 & M2 & M3 & M4 & M5 & _).
  split; rewrite ?Hb, ?Ht, ?Ha, ?Hl; try by apply Hmi.
  - destruct kind; cbn in Hf; [lia|destruct Hf as (_ & _ & _ & Hz)|destruct Hf as (_ & _ & Hz)]; rewrite Hz; done.
  - destruct kind; cbn in Hf.
    + intros []. apply Hf.
    + destruct Hf as (_ & _ & Hok & ->). rewrite Hc. intros _. split_and!; try done. by eexists.
    + destruct Hf as (_ & Hok & ->). rewrite Hc. intros _. split_and!; try done. by eexists.
Qed.

Lemma used_meta_count_pos id m M : mc_inv admin id m → chunkSize m ≠ 0 → M !! id = Some m → used_count M id.1 ≠ 0.
Proof.
  intros Hmi Hs HM. unfold used_count. assert (id ∈ filter (in_use M) (meta_ids id.1)) as Hin.
  { apply list_elem_of_filter. split; [unfold in_use; by rewrite HM|]. apply meta_ids_elem.
    split; [done|apply Hmi]. }
  destruct (filter _ _); [by apply elem_of_nil in Hin|cbn; lia].
Qed.

(** [_FreeChunk] of an allocated chunk: the chunk is free, no other chunk is
    touched, and an area that became unused goes through [_FreeArea]. *)
Lemma free_chunk_mgr others id i fl s :
  keeps_inv others → inv admin s → chunk_allocated s id i →
  ∃ s1 s', _FreeChunk others id i fl s = Ret s' ∧ inv admin s1 ∧ inv admin s' ∧ released id i s s1 ∧
    if used_count (metaChunks s1) id.1 =? 0 then _FreeArea others id.1 false fl s1 = Ret s' else s' = s1.
Proof.
  intros Ho Hinv Halloc. pose proof (allocated_in_table id i s Hinv Halloc) as Ht.
  destruct Halloc as (m & Hm & Hs & Hi & Hal). pose proof (inv_mc _ _ Hinv _ _ Hm) as Hmi.
  destruct (mi_used _ _ _ Hmi Hs) as (M1 & M2 & M3 & M4 & M5 & l & Hok).
  apply (allocated_iff l m i Hok Hi) in Hal.
  destruct (free_chunk_ok i l m Hok Hi Hal) as (kind & m' & Hfc & Hfreed & Hu & Hb & Htot & Hc & Ha & Hlen).
  pose proof (freed_mc_inv id i l m m' kind Hmi Hs Hfreed Hu Hb Htot Hc Ha Hlen) as Hmi'.
  unfold _FreeChunk. rewrite Hm. cbn [deref mbind outcome_bind]. rewrite Hfc. cbn [mbind outcome_bind].
  assert (list_of_size (chunkSize m) = if chunkSize m =? SLAB_CHUNK_SIZE_SMALL then Some LSmall
    else if chunkSize m =? SLAB_CHUNK_SIZE_MEDIUM then Some LMedium else None) as Hls by done.
  destruct kind; cbn in Hfreed.
  - destruct Hfreed as [Hu1 Hz]. destruct (inv_table _ _ Hinv _ Ht) as [A HA].
    destruct (free_now_empty id m m' s A Hinv Hm Ht Hs Hu1 Hmi' Hz HA) as [Hpos Hinv2].
    set (ml := if 1 <? chunkCount m then list_of_size (chunkSize m) else None) in *.
    assert ((if chunkSize m =? SLAB_CHUNK_SIZE_SMALL then STAILQ_REMOVE LSmall id (set_mc id m' s)
      else if chunkSize m =? SLAB_CHUNK_SIZE_MEDIUM then
        if 1 <? chunkCount m then STAILQ_REMOVE LMedium id (set_mc id m' s) else Ret (set_mc id m' s)
      else Ret (set_mc id m' s)) = Ret (drop_full ml id true (set_mc id m' s))) as ->.
    { rewrite <- (drop_full_ok ml id true (set_mc id m' s)).
      2: { intros n. subst ml. destruct (Z.ltb_spec 1 (chunkCount m)); [|done]. rewrite get_list_set_mc.
           apply (partial_list id m); try done. lia. }
      subst ml. rewrite Hls. destruct (Z.ltb_spec 1 (chunkCount m)) as [|Hle].
      - by destruct (chunkSize m =? SLAB_CHUNK_SIZE_SMALL), (chunkSize m =? SLAB_CHUNK_SIZE_MEDIUM).
      - destruct (Z.eqb_spec (chunkSize m) SLAB_CHUNK_SIZE_SMALL) as [He|He];
          [|by destruct (chunkSize m =? SLAB_CHUNK_SIZE_MEDIUM)].
        exfalso. rewrite M3, He in Hle. unfold usable in Hle. destruct (id.2 =? 0); [|by destruct Hle].
        pose proof (roundup_unusable SLAB_CHUNK_SIZE_SMALL ltac:(by left)) as Hr.
        unfold SLAB_CHUNK_SIZE_LARGE, SLAB_CHUNK_SIZE_MEDIUM, SLAB_CHUNK_SIZE_SMALL in *. zlia. }
    cbn [mbind outcome_bind]. fold (free_list id).
    set (s1 := upd_list (free_list id) (cons id) (drop_full ml id true (set_mc id m' s))) in *.
    pose proof (drop_full_fields ml id true (set_mc id m' s)) as (D1 & D2 & D3 & _).
    pose proof (upd_list_fields (free_list id) (cons id) (drop_full ml id true (set_mc id m' s))) as (U1 & U2 & U3 & _).
    fold s1 in U1, U2, U3.
    assert (areas s1 = areas s) as -> by (rewrite U2, D2; done). rewrite HA. cbn [deref mbind outcome_bind].
    apply Z.ltb_lt in Hpos as Hpos'. rewrite Hpos'. cbn [assert mbind outcome_bind].
    set (s2 := upd_area id.1 _ s1) in *.
    assert (metaChunks s2 = <[id := m']> (metaChunks s)) as HM2.
    { change (metaChunks s2) with (metaChunks s1). by rewrite U1, D1. }
    assert (released id i s s2) as Hrel. { eapply released_intro; try done. left. done. }
    assert (id.1 ∈ sAreaTable s2) as Ht2. { change (sAreaTable s2) with (sAreaTable s1). by rewrite U3, D3. }
    destruct (inv_table _ _ Hinv2 _ Ht2) as [A2 HA2]. rewrite HA2. cbn [deref mbind outcome_bind].
    destruct (Z.eqb_spec (usedMetaChunkCount A2) 0) as [He|He].
    + rewrite (inv_area _ _ Hinv2 _ _ HA2) in He.
      destruct (free_area_removed others id.1 fl s2 Hinv2 Ht2 He) as (s3 & Heq & Hinv3 & Hp3 & _).
      destruct (free_private_ok others id.1 fl s3 Ho Hinv3 Hp3) as (s' & Hs' & Hinv').
      exists s2, s'. rewrite Heq, Hs', He. by split_and!.
    + rewrite (inv_area _ _ Hinv2 _ _ HA2) in He. exists s2, s2. split_and!; try done.
      by rewrite (proj2 (Z.eqb_neq _ _) He).
  - destruct Hfreed as (Hfull & Hne1 & Hok' & Hsz).
    exists (match list_of_size (chunkSize m) with Some n => upd_list n (cons id) (set_mc id m' s) | None => set_mc id m' s end).
    eexists. split; [done|]. match goal with |- ?X ∧ _ => assert X as Hx end.
    { eapply (free_still_used id m m' s); try done; [lia|]. destruct (Z.ltb_spec (usedChunkCount m) (chunkCount m)); [lia|done]. }
    assert (released id i s (match list_of_size (chunkSize m) with Some n => upd_list n (cons id) (set_mc id m' s) | None => set_mc id m' s end)) as Hrel.
    { eapply (released_intro id i l m m'); try done; [by destruct (list_of_size _) as [[]|]|]. right. split_and!; [congruence|done|done]. }
    assert (∀ (b1 b2 : bool) (s0 : manager), (if b1 then upd_list LSmall (cons id) s0 else if b2 then upd_list LMedium (cons id) s0 else s0) =
      match (if b1 then Some LSmall else if b2 then Some LMedium else None) with Some n => upd_list n (cons id) s0 | None => s0 end) as Hmatch.
    { by intros [] []. }
    rewrite Hmatch, <- Hls. split_and!; try done.
    rewrite (proj2 (Z.eqb_neq _ _)); [done|]. apply (used_meta_count_pos id m'); [done|congruence|].
    destruct (list_of_size (chunkSize m)) as [n|]; [rewrite (proj1 (upd_list_fields n _ _))|]; by apply lookup_insert_eq.
  - destruct Hfreed as (Hbetween & Hok' & Hsz).
    exists (set_mc id m' s), (set_mc id m' s). split; [done|].
    assert (inv admin (set_mc id m' s)) as Hx.
    { eapply (free_still_used id m m' s); try done; [lia|]. destruct (Z.ltb_spec (usedChunkCount m) (chunkCount m)); [done|lia]. }
    split_and!; try done.
    + eapply (released_intro id i l m m'); try done. right. split_and!; [congruence|done|done].
    + rewrite (proj2 (Z.eqb_neq _ _)); [done|]. apply (used_meta_count_pos id m'); [done|congruence|]. by apply lookup_insert_eq.
Qed.

(** ** New areas *)

Lemma lookup_insert_all {A} (g : mcid → A) (ids : list mcid) (M : gmap mcid A) id :
  foldr (fun id M => <[id := g id]> M) M ids !! id = if decide (id ∈ ids) then Some (g id) else M !! id.
Proof.
  induction ids as [|x ids IH]; cbn [foldr]; [by rewrite decide_False by (by intros ?%elem_of_nil)|].
  destruct (decide (id = x)) as [->|Hne].
  - rewrite lookup_insert_eq, decide_True by (by left). done.
  - rewrite lookup_insert_ne, IH by done. repeat case_decide; try done.
    + destruct H0. by right.
    + apply elem_of_cons in H0 as [|]; done.
Qed.

(** An area the manager does not know yet, laid out as [_AllocateArea] does. *)
Record fresh_area (na : new_area) (s : manager) : Prop := {
  fr_area : areas s !! na_base na = None;
  fr_mc id : id.1 = na_base na → metaChunks s !! id = None;
  fr_base : na_base na mod SLAB_AREA_SIZE = 0 ∧ 0 <= na_base na ∧ na_base na + SLAB_AREA_SIZE <= 2 ^ 64;
  fr_addr i : 0 <= i < SLAB_META_CHUNKS_PER_AREA → 1 < na_chunks na i;
  fr_raw i : length (na_raw na i) = 32%nat
}.

Lemma allocate_area_inv others na s :
  inv admin s → fresh_area na s → keeps_inv others →
  (∀ s a, inv admin s → private a s → private a (others s)) →
  ∃ s', _AllocateArea others (inr na) s = (inr (na_base na), s') ∧ inv admin s' ∧ private (na_base na) s'.
Proof.
  intros Hinv Hfr Ho Hpo. set (a := na_base na). eexists. split; [done|].
  match goal with |- inv _ (others ?x) ∧ _ => set (s1 := x) end.
  set (g := fun id : mcid => init_meta_chunk a id.2 (na_chunks na id.2) (na_raw na id.2)).
  assert (∀ id, metaChunks s1 !! id = if decide (id ∈ meta_ids a) then Some (g id) else metaChunks s !! id) as HM.
  { intros id. apply (lookup_insert_all g (meta_ids a) (metaChunks s) id). }
  assert (a ∉ sAreaTable s ∧ a ∉ sFreeAreas s) as [Hnt Hnf].
  { split; [intros Hin; apply (inv_table _ _ Hinv) in Hin as [A HA]|intros Hin; apply (inv_free _ _ Hinv) in Hin as [[A HA] _]];
      pose proof (fr_area _ _ Hfr) as Hnone; fold a in Hnone; congruence. }
  assert (∀ id m, metaChunks s1 !! id = Some m →
    id ∈ meta_ids a ∧ m = g id ∨ id.1 ≠ a ∧ metaChunks s !! id = Some m) as HM'.
  { intros id m. rewrite HM. case_decide; [intros [= <-]; by left|]. intros Hm. right. split; [|done].
    intros He. rewrite (fr_mc _ _ Hfr) in Hm; done. }
  assert (∀ b A, areas s1 !! b = Some A → b = a ∧ usedMetaChunkCount A = 0 ∨ b ≠ a ∧ areas s !! b = Some A) as HA.
  { intros b A. change (areas s1) with (<[a := mkArea (na_vmArea na) (u64 (na_pages na * PAGE_SIZE)) 0
      (bool_decide (na_vmArea na = None))]> (areas s)). intros [[<- <-]|[Hne ?]]%lookup_insert_Some; [by left|by right]. }
  assert (private a s1) as Hp.
  { split_and!; [|done|done]. eexists. apply lookup_insert_eq. }
  assert (inv admin s1) as Hinv1; [|split; [by apply Ho|by apply Hpo]].
  split; try apply Hinv.
  - intros id m [[Hid ->]|[_ Hm]]%HM'; [|by eapply inv_mc]. apply meta_ids_elem in Hid as [He Hr].
    split; try done; [apply Hfr|by apply Hfr|rewrite He; apply Hfr|]. cbn. intros Hne. split; [|done]. unfold start. apply Z.eqb_neq in Hne as ->. by rewrite He.
  - intros b A [[-> ->]|[Hne HAb]]%HA.
    + symmetry. apply used_count_0. intros id m Hid. rewrite HM, decide_True by done. by intros [= <-].
    + rewrite (inv_area _ _ Hinv _ _ HAb). unfold used_count. do 2 f_equal. apply filter_ext_elem.
      intros id [He _]%meta_ids_elem. unfold in_use. rewrite HM, decide_False; [done|].
      intros [? _]%meta_ids_elem. congruence.
  - intros b id [A HAb] Hid. rewrite HM. case_decide; [by eexists|].
    apply HA in HAb as [[-> _]|[Hne HAb]]; [done|]. apply (inv_ids _ _ Hinv b); [by eexists|done].
  - intros b Hb. destruct (inv_table _ _ Hinv b Hb) as [A HAb]. exists A.
    change (<[a := mkArea (na_vmArea na) (u64 (na_pages na * PAGE_SIZE)) 0
      (bool_decide (na_vmArea na = None))]> (areas s) !! b = Some A). rewrite lookup_insert_ne; [done|]. by intros ->.
  - intros n id. assert (get_list n s1 = get_list n s) as -> by by destruct n. rewrite (inv_lists _ _ Hinv).
    change (sAreaTable s1) with (sAreaTable s). split; intros [Ht (m & Hm & Hpl)]; (split; [done|]); exists m; (split; [|done]).
    + rewrite HM, decide_False; [done|]. intros [He _]%meta_ids_elem. by rewrite He in Ht.
    + apply HM' in Hm as [[[He _]%meta_ids_elem _]|[_ ?]]; [by rewrite He in Ht|done].
  - intros b Hb. destruct (inv_free _ _ Hinv b Hb) as [[A HAb] ?]. split; [|done]. exists A.
    change (<[a := mkArea (na_vmArea na) (u64 (na_pages na * PAGE_SIZE)) 0
      (bool_decide (na_vmArea na = None))]> (areas s) !! b = Some A). rewrite lookup_insert_ne; [done|]. by intros ->.
  - intros id m [[Hid ->]|[_ Hm]]%HM' Hout; [done|]. by apply (inv_out _ _ Hinv id).
Qed.

(** ** [_AllocateChunks] *)

(** Nothing changes hands. *)
Definition same_allocated (s s' : manager) : Prop :=
  ∀ id j, chunk_allocated s' id j ↔ chunk_allocated s id j.

(** [s'] comes from [s] by steps of the thread itself that allocate and free no
    chunk, and by what others do, [fs] in this order. *)
Inductive between : list (manager → manager) → manager → manager → Prop :=
  | bt_done s : between [] s s
  | bt_own fs s s1 s' : same_allocated s s1 → between fs s1 s' → between fs s s'
  | bt_other f fs s s' : between fs (f s) s' → between (f :: fs) s s'.

Lemma between_app fs1 fs2 s1 s2 s3 : between fs1 s1 s2 → between fs2 s2 s3 → between (fs1 ++ fs2) s1 s3.
Proof. induction 1; intros; [done|by eapply bt_own; eauto|apply bt_other; eauto]. Qed.

Lemma between_own fs s s1 s' : between fs s s1 → same_allocated s1 s' → between fs s s'.
Proof. intros Hb Hs. rewrite <- (app_nil_r fs). eapply between_app; [done|]. eapply bt_own; [done|constructor]. Qed.

Lemma same_metaChunks s s' : metaChunks s' = metaChunks s → same_allocated s s'.
Proof. intros E id j. unfold chunk_allocated. by rewrite E. Qed.

(** A new area has no allocated chunks. *)
Lemma allocate_area_between others na s :
  inv admin s → fresh_area na s → between [others] s (_AllocateArea others (inr na) s).2.
Proof.
  intros Hinv Hfr. cbn. eapply bt_own; [|apply bt_other; constructor]. intros id j. unfold chunk_allocated.
  match goal with |- context [metaChunks ?x] => set (s1 := x) end.
  set (g := fun id : mcid => init_meta_chunk (na_base na) id.2 (na_chunks na id.2) (na_raw na id.2)).
  assert (metaChunks s1 !! id = if decide (id ∈ meta_ids (na_base na)) then Some (g id) else metaChunks s !! id) as ->
    by apply (lookup_insert_all g).
  case_decide as Hd; [|done]. apply meta_ids_elem in Hd as [Hd _].
  rewrite (fr_mc _ _ Hfr id Hd). split; [intros (m & [= <-] & Hz & _)|intros (m & ? & _)]; done.
Qed.

(** Giving back an area that nobody else knows changes nothing either. *)
Lemma free_private_between others a fl s s' :
  inv admin s → private a s → _FreeArea others a true fl s = Ret s' →
  ∃ fs, (fs = [] ∨ fs = [others]) ∧ between fs s s'.
Proof.
  intros Hinv (_ & Hnt & _). unfold _FreeArea. intros H. inv_outcome.
  - exists []. split; [by left|]. eapply between_own; [constructor|by apply same_metaChunks].
  - exists []. split; [by left|]. eapply between_own; [constructor|]. apply same_metaChunks.
    unfold _RequestMaintenance. by case_match.
  - exists [others]. split; [by right|]. eapply bt_own; [|apply bt_other; constructor].
    intros id j. unfold chunk_allocated.
    change (metaChunks (drop_area a s)) with (filter (fun kv : mcid * MetaChunk => kv.1.1 ≠ a) (metaChunks s)).
    split; intros (m & Hm & H1 & H2 & H3).
    + apply map_lookup_filter_Some in Hm as [Hm _]. by exists m.
    + exists m. split; [|done]. apply map_lookup_filter_Some. split; [done|]. cbn. intros He.
      apply H1, (inv_out _ _ Hinv id m Hm). by rewrite He.
Qed.

Section allocate.
Context (size count : Z) (fl : flags) (others others' : manager → manager).
Context (Hsize : chunk_size size) (Hcount : 0 < count) (Hfit : count * size <= SLAB_CHUNK_SIZE_LARGE).
Context (Ho : keeps_inv others) (Hpo : ∀ s a, inv admin s → private a s → private a (others s)).
Context (Ho' : keeps_inv others').

(** Nothing to take: no free meta chunk and no free area. *)
Definition exhausted (s : manager) : Prop := sFreeAreas s = [] ∧ sFreeCompleteMetaChunks s = [].

(** The others ran, in this order: some of the rounds of waiting, and the window
    of [_AllocateArea]. *)
Definition windows (waits : list (manager → manager)) (fs : list (manager → manager)) : Prop :=
  fs `prefix_of` waits ∨ ∃ ws, ws `prefix_of` waits ∧ fs = ws ++ [others].

(** The request was served in a state [s0] that differs from [s] only by what
    others did; the area that is not needed is given back. *)
Definition served (waits : list (manager → manager)) (c : mcid * Z) (s s' : manager) : Prop :=
  inv admin s' ∧ ∃ fs s0 s1, windows waits fs ∧ between fs s s0 ∧ (fs ≠ [] → exhausted s) ∧
    inv admin s0 ∧ get_result size count s0 (Some c) s1 ∧
    (s' = s1 ∨ ∃ a fs', private a s1 ∧ _FreeArea others' a true fl s1 = Ret s' ∧
      (fs' = [] ∨ fs' = [others']) ∧ between fs' s1 s').

Lemma served_between waits fs c s s0 s' :
  windows waits fs → between fs s s0 → (fs ≠ [] → exhausted s) → inv admin s0 →
  get_result size count s0 (Some c) s' → served waits c s s'.
Proof. intros Hw Hb He Hinv Hres. split; [apply Hres|]. exists fs, s0, s'. split_and!; try done. by left. Qed.

Lemma windows_nil waits : windows waits [].
Proof. left. apply prefix_nil. Qed.

(** With a new area in the table a request cannot fail. *)
Lemma added_area_serves waits ml a s0 s :
  chunk_list size = Ret ml → inv admin s → private a s → between [] s0 s →
  ∃ c s', _GetChunks admin ml size count (_RequestMaintenance (_AddArea a s)) = Ret (Some c, s') ∧
    served waits c s0 s'.
Proof.
  intros Hml Hinv Hp Hb. pose proof (request_maintenance_inv _ (add_area_inv a s Hinv Hp)) as Hinv1.
  destruct (get_chunks_ok size count ml _ Hinv1 Hsize Hml Hcount Hfit) as (r & s' & Heq & Hres).
  destruct r as [c|].
  { exists c, s'. split; [done|]. apply (served_between waits [] c s0 (_RequestMaintenance (_AddArea a s)));
      [apply windows_nil| |done..]. eapply between_own; [done|]. apply same_metaChunks.
    unfold _RequestMaintenance. by case_match. }
  destruct Hres as (_ & _ & _ & _ & _ & Hnil). exfalso.
  assert (sFreeCompleteMetaChunks (_RequestMaintenance (_AddArea a s)) = sFreeCompleteMetaChunks s ++ complete_ids a) as E.
  { unfold _RequestMaintenance. by destruct (_ || _). }
  rewrite E in Hnil. by apply app_eq_nil in Hnil as [_ ?].
Qed.

Lemma added_area_serves' waits fs ml a s0 s :
  chunk_list size = Ret ml → inv admin s → private a s →
  windows waits fs → between fs s0 s → (fs ≠ [] → exhausted s0) →
  ∃ c s', _GetChunks admin ml size count (_AddArea a s) = Ret (Some c, s') ∧ served waits c s0 s'.
Proof.
  intros Hml Hinv Hp Hwn Hb Hex. pose proof (add_area_inv a s Hinv Hp) as Hinv1.
  destruct (get_chunks_ok size count ml _ Hinv1 Hsize Hml Hcount Hfit) as (r & s' & Heq & Hres).
  destruct r as [c|].
  { exists c, s'. split; [done|]. apply (served_between waits fs c s0 (_AddArea a s)); [done| |done..].
    eapply between_own; [done|]. by apply same_metaChunks. }
  destruct Hres as (_ & _ & _ & _ & _ & Hnil). exfalso.
  change (sFreeCompleteMetaChunks (_AddArea a s)) with (sFreeCompleteMetaChunks s ++ complete_ids a) in Hnil.
  by apply app_eq_nil in Hnil as [_ ?].
Qed.

(** What another thread may do in a window: keep the invariant, and not touch
    the address range the caller is about to use. *)
Definition window (na : errno + new_area) (f : manager → manager) : Prop :=
  ∀ s, inv admin s → (∀ x, na = inr x → fresh_area x s) →
    inv admin (f s) ∧ (∀ x, na = inr x → fresh_area x (f s)).

Lemma wait_ok ml na waits : ∀ s, chunk_list size = Ret ml → inv admin s →
  (∀ x, na = inr x → fresh_area x s) → Forall (window na) waits →
  match wait_for_area admin ml size count fl waits s with
  | Ret (Some c, s') => ∃ fs s0, fs `prefix_of` waits ∧ between fs s s0 ∧ inv admin s0 ∧
      get_result size count s0 (Some c) s'
  | Ret (None, s') => inv admin s' ∧ (∀ x, na = inr x → fresh_area x s') ∧
      ∃ fs, fs `prefix_of` waits ∧ between fs s s'
  | NoFuel => sAllocationEntryDontWait s || (sAllocationEntryCanWait s && negb (DONT_WAIT_FOR_MEMORY fl)) = true
  | Panic => False
  end.
Proof.
  assert (∀ s, ∃ fs, fs `prefix_of` [] ∧ between fs s s) as Hnone
    by (intros; exists []; split; [apply prefix_nil|constructor]).
  induction waits as [|w waits IH]; intros s Hml Hinv Hfr Hw; cbn [wait_for_area].
  - by destruct (_ || _).
  - destruct (_ || _) eqn:E.
    2: { split_and!; try done. exists []. split; [apply prefix_nil|constructor]. }
    apply Forall_cons in Hw as [Hw Hws]. destruct (Hw s Hinv Hfr) as [Hinv1 Hfr1].
    destruct (get_chunks_ok size count ml (w s) Hinv1 Hsize Hml Hcount Hfit) as (r & s' & Heq & Hres).
    rewrite Heq. cbn [mbind outcome_bind]. destruct r as [c|].
    { exists [w], (w s). split_and!; try done; [apply prefix_cons, prefix_nil|]. constructor. constructor. }
    destruct Hres as (Hinv' & _ & _ & _ & -> & _). specialize (IH (w s) Hml Hinv' Hfr1 Hws).
    destruct (wait_for_area _ _ _ _ _ _ (w s)) as [[[c|] s'']| |]; try done.
    + destruct IH as (fs & s0 & Hp & Hb & H). exists (w :: fs), s0. split_and!; [by apply prefix_cons|by constructor|apply H..].
    + destruct IH as (H1 & H2 & fs & Hp & Hb). split_and!; [done..|]. exists (w :: fs).
      split; [by apply prefix_cons|by constructor].
Qed.

Lemma set_entry_inv b s : inv admin s → inv admin (set_entry fl b s).
Proof. intros Hinv. unfold set_entry. destruct (DONT_WAIT_FOR_MEMORY fl); by destruct Hinv. Qed.

Lemma set_entry_same b s : same_allocated s (set_entry fl b s).
Proof. apply same_metaChunks. unfold set_entry. by destruct (DONT_WAIT_FOR_MEMORY fl). Qed.

Lemma set_entry_private b a s : private a s → private a (set_entry fl b s).
Proof. intros Hp. unfold set_entry. by destruct (DONT_WAIT_FOR_MEMORY fl). Qed.

Lemma set_entry_fresh b na s : fresh_area na s → fresh_area na (set_entry fl b s).
Proof. intros Hf. unfold set_entry. destruct (DONT_WAIT_FOR_MEMORY fl); by destruct Hf. Qed.

(** The end of [_AllocateChunks]: a new area is needed. *)
Lemma new_area_ok waits ws ml na s00 s :
  chunk_list size = Ret ml → inv admin s → (∀ x, na = inr x → fresh_area x s) →
  ws `prefix_of` waits → between ws s00 s → exhausted s00 →
  ∃ res s', (let '(res, s) := _AllocateArea others na (set_entry fl true s) in
    let s := set_entry fl false s in
    match res with
    | inl e => Ret (inl e, s)
    | inr a =>
        '(r, s) ← _GetChunks admin ml size count s;
        match r with
        | Some c => s ← _FreeArea others' a true fl s; Ret (inr c, s)
        | None => '(r, s) ← _GetChunks admin ml size count (_AddArea a s); Ret (or_enomem r, s)
        end
    end) = Ret (res, s') ∧
    match res with
    | inr c => served waits c s00 s'
    | inl e => inv admin s' ∧ na = inl e ∧ between (ws ++ [others]) s00 s'
    end.
Proof.
  intros Hml Hinv Hna Hpre Hbt Hex. pose proof (set_entry_inv true s Hinv) as Hinv1.
  assert (windows waits (ws ++ [others])) as Hwn by (right; by exists ws). destruct na as [e|na].
  { cbn. eexists _, _. split; [done|]. cbn. split; [by apply set_entry_inv, Ho|]. split; [done|].
    eapply between_app; [done|]. eapply bt_own; [apply (set_entry_same true)|]. apply bt_other.
    eapply bt_own; [apply (set_entry_same false)|constructor]. }
  pose proof (allocate_area_between others na _ Hinv1 (set_entry_fresh true _ _ (Hna _ eq_refl))) as Hbt2.
  destruct (allocate_area_inv others na _ Hinv1 (set_entry_fresh true _ _ (Hna _ eq_refl)) Ho Hpo) as (s2 & Heq2 & Hinv2 & Hp2).
  rewrite Heq2 in *. cbn [snd] in Hbt2.
  set (s3 := set_entry fl false s2).
  assert (between (ws ++ [others]) s00 s3) as Hbt3.
  { eapply between_app; [done|]. eapply bt_own; [apply (set_entry_same true)|].
    eapply between_own; [exact Hbt2|apply (set_entry_same false)]. } pose proof (set_entry_inv false s2 Hinv2) as Hinv3.
  pose proof (set_entry_private false _ _ Hp2) as Hp3. fold s3 in Hinv3, Hp3.
  destruct (get_chunks_ok size count ml s3 Hinv3 Hsize Hml Hcount Hfit) as (r & s4 & Heq & Hres).
  cbv zeta. fold s3. rewrite Heq. cbn [mbind outcome_bind]. destruct r as [c|].
  - assert (private (na_base na) s4) as Hp4.
    { destruct Hres as (R1 & R2 & R3 & R4 & _). destruct Hp3 as (Ha & Ht & Hf). rewrite <- R2 in Ht. rewrite <- R3 in Hf.
      split_and!; [by apply R4|done|done]. }
    destruct (free_private_ok others' (na_base na) fl s4 Ho' (proj1 Hres) Hp4) as (s5 & Hs5 & Hinv5).
    rewrite Hs5. cbn [mbind outcome_bind]. eexists _, _. split; [done|]. cbn. split; [done|].
    exists (ws ++ [others]), s3, s4. split_and!; try done. right.
    destruct (free_private_between others' (na_base na) fl s4 s5 (proj1 Hres) Hp4 Hs5) as (fs' & Hfs & Hb').
    by exists (na_base na), fs'.
  - destruct Hres as (_ & _ & _ & _ & -> & _).
    destruct (added_area_serves' waits (ws ++ [others]) ml (na_base na) s00 s3 Hml Hinv3 Hp3 Hwn Hbt3 (fun _ => Hex))
      as (c & s5 & Heq5 & Hsv).
    rewrite Heq5. cbn [mbind outcome_bind or_enomem]. eexists _, _. split; [done|]. done.
Qed.

Lemma allocate_chunks_ok waits na s :
  inv admin s → (∀ x, na = inr x → fresh_area x s) → Forall (window na) waits →
  match _AllocateChunks admin size count fl waits others na others' s with
  | Ret (inr c, s') => served waits c s s'
  | Ret (inl e, s') => inv admin s' ∧ exhausted s ∧
      (e = EWOULDBLOCK ∧ DONT_LOCK_KERNEL fl = true ∧ s' = s ∨
       na = inl e ∧ ∃ ws, ws `prefix_of` waits ∧ between (ws ++ [others]) s s')
  | NoFuel => exhausted s ∧ sAllocationEntryDontWait s || sAllocationEntryCanWait s = true
  | Panic => False
  end.
Proof.
  intros Hinv Hna Hw. unfold _AllocateChunks.
  destruct (chunk_list size) as [ml| |] eqn:Hml; [|by destruct Hsize as [->|[->| ->]]..].
  cbn [mbind outcome_bind].
  destruct (get_chunks_ok size count ml s Hinv Hsize Hml Hcount Hfit) as (r & s1 & Heq & Hres).
  rewrite Heq. cbn [mbind outcome_bind]. destruct r as [c|].
  { apply (served_between waits [] c s s); [apply windows_nil|constructor|done..]. }
  destruct Hres as (_ & _ & _ & _ & -> & Hcomplete). destruct (sFreeAreas s) as [|a l] eqn:Hfa.
  - assert (exhausted s) as Hex by done.
    destruct (DONT_LOCK_KERNEL fl) eqn:Hlk; [split_and!; try done; by left|].
    pose proof (wait_ok ml na waits s Hml Hinv Hna Hw) as Hwait.
    destruct (wait_for_area _ _ _ _ _ _ s) as [[[c|] s']| |]; cbn [mbind outcome_bind]; try done.
    + destruct Hwait as (fs & s0 & Hp & Hb & Hi0 & Hr0).
      apply (served_between waits fs c s s0); [by left|done..].
    + destruct Hwait as (Hinv' & Hfr' & ws & Hpre & Hbt).
      destruct (new_area_ok waits ws ml na s s' Hml Hinv' Hfr' Hpre Hbt Hex) as (res & s'' & Hx & H).
      match goal with |- match ?X with _ => _ end => assert (X = Ret (res, s'')) as -> by exact Hx end.
      destruct res; [|done]. split; [apply H|]. split; [done|]. right. split; [apply H|]. exists ws. split; [done|apply H].
    + split; [done|]. apply orb_true_iff in Hwait as [->|[-> _]%andb_true_iff]; [done|by rewrite orb_true_r].
  - destruct (pop_area_inv a l s Hinv Hfa) as (s1 & -> & Hinv1 & Hp1 & Hmc & _). cbn [deref mbind outcome_bind].
    destruct (added_area_serves waits ml a s s1 Hml Hinv1 Hp1) as (c & s' & -> & Hsv); [|done].
    eapply between_own; [constructor|by apply same_metaChunks].
Qed.
End allocate.

(** ** Raw allocations *)

(** The range a meta chunk in use covers lies in its part of the area. *)
Lemma geometry id m :
  mc_inv admin id m → chunkSize m ≠ 0 →
  0 < chunkSize m ∧ id.1 + id.2 * SLAB_CHUNK_SIZE_LARGE <= chunkBase m ∧
  chunkBase m + totalSize m = id.1 + (id.2 + 1) * SLAB_CHUNK_SIZE_LARGE ∧
  chunkCount m = totalSize m / chunkSize m ∧ chunkCount m <= 32 ∧
  0 <= id.2 * SLAB_CHUNK_SIZE_LARGE ∧ (id.2 + 1) * SLAB_CHUNK_SIZE_LARGE <= SLAB_AREA_SIZE ∧
  (chunkSize m) mod PAGE_SIZE = 0 ∧ chunkBase m mod PAGE_SIZE = 0.
Proof.
  intros Hmi Hs. destruct (mi_used _ _ _ Hmi Hs) as (M1 & M2 & M3 & M4 & M5 & _).
  pose proof (usable_count id (chunkSize m) M1 M2) as Hu. pose proof (chunk_size_pos _ M1) as Hpos.
  pose proof (mi_index _ _ _ Hmi) as Hi. destruct (mi_area _ _ _ Hmi) as (Ha & Ha0 & _).
  assert (chunkSize m mod PAGE_SIZE = 0) as Hmod by by destruct M1 as [->|[->| ->]].
  change SLAB_META_CHUNKS_PER_AREA with 16 in Hi.
  assert (id.1 mod PAGE_SIZE = 0) as Hap.
  { unfold SLAB_AREA_SIZE in Ha. zlia. }
  rewrite M3, M5, M4. unfold usable, start. destruct (Z.eqb_spec id.2 0) as [He|He].
  - assert (chunkSize m = SLAB_CHUNK_SIZE_SMALL ∨ chunkSize m = SLAB_CHUNK_SIZE_MEDIUM) as Hs'
      by (destruct M1 as [|[|]]; auto; by destruct M2).
    pose proof (roundup_unusable (chunkSize m) Hs') as Hr.
    assert (roundup (SLAB_AREA_STRUCT_OFFSET + admin) (chunkSize m) mod PAGE_SIZE = 0) as Hrm.
    { unfold roundup. destruct Hs' as [-> | ->]; rewrite <- Z.mul_mod_idemp_r by done;
        change (SLAB_CHUNK_SIZE_SMALL mod PAGE_SIZE) with 0; change (SLAB_CHUNK_SIZE_MEDIUM mod PAGE_SIZE) with 0;
        by rewrite Z.mul_0_r. }
    unfold usable in Hu. rewrite He in *. change (0 =? 0) with true in Hu. cbv iota in Hu.
    unfold SLAB_CHUNK_SIZE_LARGE, SLAB_AREA_SIZE in *. split_and!; try done; try lia; zlia.
  - assert ((id.1 + id.2 * SLAB_CHUNK_SIZE_LARGE) mod PAGE_SIZE = 0) as Hb.
    { unfold SLAB_CHUNK_SIZE_LARGE. zlia. }
    unfold usable in Hu. apply Z.eqb_neq in He. rewrite He in Hu.
    unfold SLAB_CHUNK_SIZE_LARGE, SLAB_AREA_SIZE in *. split_and!; try done; try lia; zlia.
Qed.

Lemma meta_id_in id x :
  id.1 mod SLAB_AREA_SIZE = 0 →
  0 <= id.2 * SLAB_CHUNK_SIZE_LARGE → (id.2 + 1) * SLAB_CHUNK_SIZE_LARGE <= SLAB_AREA_SIZE →
  id.1 + id.2 * SLAB_CHUNK_SIZE_LARGE <= x < id.1 + (id.2 + 1) * SLAB_CHUNK_SIZE_LARGE → meta_id x = id.
Proof.
  intros Ha H0 H1 Hx. unfold meta_id, AreaBaseAddressForAddress, rounddown. destruct id as [a i]. cbn in *.
  assert (0 < SLAB_AREA_SIZE) as HA by done. assert (0 < SLAB_CHUNK_SIZE_LARGE) as HL by done.
  assert (a = SLAB_AREA_SIZE * (a / SLAB_AREA_SIZE)) as Ea by (apply Z.div_exact; [lia|done]).
  assert (x / SLAB_AREA_SIZE = a / SLAB_AREA_SIZE) as Eq.
  { symmetry. apply (Z.div_unique _ _ _ (x - a)); lia. }
  assert (x mod SLAB_AREA_SIZE = x - a) as Em.
  { rewrite Z.mod_eq by lia. rewrite Eq. lia. }
  rewrite Eq, Em. f_equal; [lia|]. symmetry. apply (Z.div_unique _ _ _ (x - a - i * SLAB_CHUNK_SIZE_LARGE)); lia.
Qed.

(** The reference [AllocateRaw] leaves in the first chunk lets
    [GetAllocationInfo] recover the size. *)
Lemma raw_info id m f count s lookup :
  mc_inv admin id m → chunkSize m ≠ 0 → id.1 ∈ sAreaTable s → metaChunks s !! id = Some m →
  0 <= f → 0 < count → f + count <= chunkCount m →
  let p := ChunkAddress m (chunk_ptr m f) in
  let s' := set_mc id (set_chunk f (u64 (p + count * chunkSize m - 1)) m) s in
  GetAllocationInfo lookup p s' = Ret (inr (count * chunkSize m)) ∧ p mod PAGE_SIZE = 0 ∧ meta_id p = id.
Proof.
  intros Hmi Hs Ht Hm Hf Hc Hfc p s'. destruct (geometry id m Hmi Hs) as (G1 & G2 & G3 & G4 & G5 & G6 & G7 & G8 & G9).
  destruct (mi_area _ _ _ Hmi) as (Ha & Ha0 & Ha1).
  assert (p = chunkBase m + f * chunkSize m ∧ p + chunkSize m <= chunkBase m + totalSize m) as [Ep Hp1].
  { subst p. destruct (chunk_address_eq m f) as [-> ?]; lia. }
  assert (p + count * chunkSize m <= chunkBase m + totalSize m) as Hend.
  { destruct (chunk_address_eq m (f + count - 1)) as [_ H]; [lia..|]. rewrite Ep. nia. }
  assert (p mod PAGE_SIZE = 0) as Hpm.
  { rewrite Ep, Z.add_mod, G9, Z.mul_mod, G8 by done. by rewrite Z.mul_0_r. }
  assert (meta_id p = id) as Hid by (apply meta_id_in; [done|done|done|nia]).
  split_and!; [|done|done]. unfold GetAllocationInfo.
  assert (AreaBaseAddressForAddress p = id.1) as -> by (change (AreaBaseAddressForAddress p) with (meta_id p).1; by rewrite Hid).
  rewrite decide_True by done. rewrite Hid. change (metaChunks s') with (<[id := set_chunk f (u64 (p + count * chunkSize m - 1)) m]> (metaChunks s)).
  rewrite lookup_insert_eq. cbn [deref mbind outcome_bind].
  change (chunkSize (set_chunk f (u64 (p + count * chunkSize m - 1)) m)) with (chunkSize m).
  change (chunkBase (set_chunk f (u64 (p + count * chunkSize m - 1)) m)) with (chunkBase m).
  rewrite (proj2 (Z.ltb_lt 0 (chunkSize m))), (proj2 (Z.leb_le (chunkBase m) p)) by nia. cbn [assert mbind outcome_bind].
  change (ChunkIndexForAddress (set_chunk f (u64 (p + count * chunkSize m - 1)) m) p) with (ChunkIndexForAddress m p).
  assert (ChunkIndexForAddress m p = f) as ->.
  { rewrite Ep. rewrite <- (Z.add_0_r (chunkBase m + f * chunkSize m)). apply chunk_index_eq; lia. }
  rewrite (wrap_small 16 f) by (unfold fits; lia). unfold get_chunk.
  change (chunks (set_chunk f (u64 (p + count * chunkSize m - 1)) m)) with (<[Z.to_nat f := u64 (p + count * chunkSize m - 1)]> (chunks m)).
  rewrite list_lookup_insert_eq by (rewrite (mi_len _ _ _ Hmi); lia). cbn [deref mbind outcome_bind].
  assert (0 <= p) by nia.
  rewrite (wrap_small 64 (p + count * chunkSize m - 1)) by (unfold fits; nia).
  assert (Z.land (p + count * chunkSize m - 1) 1 = 1) as ->.
  { rewrite (Z.land_ones _ 1) by done. change (2 ^ 1) with 2.
    assert ((p + count * chunkSize m) mod PAGE_SIZE = 0) as Hm2.
    { rewrite Z.add_mod, Hpm, Z.mul_mod, G8 by done. by rewrite Z.mul_0_r. }
    revert Hm2. generalize (p + count * chunkSize m). intros x. zlia. }
  change (1 =? 0) with false. cbv iota.
  replace (p + count * chunkSize m - 1 - p + 1) with (count * chunkSize m) by ring.
  assert (count * chunkSize m <= SLAB_CHUNK_SIZE_LARGE) as Hsmall by nia.
  change SLAB_CHUNK_SIZE_LARGE with 131072 in Hsmall. rewrite wrap_small; [done|]. unfold fits. nia.
Qed.

Lemma free_area_noop_mc a fl s s' :
  private a s → _FreeArea (fun s => s) a true fl s = Ret s' →
  sAreaTable s' = sAreaTable s ∧ ∀ id, id.1 ≠ a → metaChunks s' !! id = metaChunks s !! id.
Proof.
  intros Hp. unfold _FreeArea. intros H. inv_outcome; try done.
  - unfold _RequestMaintenance. by case_match.
  - split; [done|]. intros id Hne.
    change (filter (fun kv : mcid * MetaChunk => kv.1.1 ≠ a) (metaChunks s) !! id = metaChunks s !! id).
    destruct (metaChunks s !! id) as [m|] eqn:Em.
    + by apply map_lookup_filter_Some.
    + apply map_lookup_filter_None. by left.
Qed.

Lemma raw_chunks_size size fl cs cc :
  0 < size → raw_chunks size fl = Some (cs, cc) →
  chunk_size cs ∧ 0 < cc ∧ cc * cs <= SLAB_CHUNK_SIZE_LARGE ∧ cc * cs = roundup size SLAB_CHUNK_SIZE_SMALL.
Proof.
  intros Hpos. unfold raw_chunks. set (r := roundup size SLAB_CHUNK_SIZE_SMALL).
  assert (0 < r ∧ r mod PAGE_SIZE = 0) as [Hr Hm].
  { split; [pose proof (roundup_ge size SLAB_CHUNK_SIZE_SMALL eq_refl); fold r in H; lia|].
    apply Z.mod_divide; [done|]. apply roundup_divide. }
  destruct ((_ || _) || _) eqn:E; [done|]. apply orb_false_iff in E as [[E _]%orb_false_iff _]. apply Z.ltb_ge in E.
  unfold chunk_size, SLAB_CHUNK_SIZE_LARGE, SLAB_CHUNK_SIZE_MEDIUM, SLAB_CHUNK_SIZE_SMALL in *.
  destruct (Z.eqb_spec (r mod (8 * PAGE_SIZE)) 0) as [H8|H8]; intros [= <- <-];
    rewrite wrap_small by (unfold fits; zlia); split_and!; try tauto; zlia.
Qed.
End geometry.

(** ** The allocator *)

Definition admin_ok (admin : Z) : Prop :=
  0 < admin ∧ SLAB_AREA_STRUCT_OFFSET + admin <= SLAB_CHUNK_SIZE_MEDIUM.

(** C6: _AllocateChunks of up to a large chunk of memory, with other threads
    changing the manager whenever it gives up the lock (keeping the
    invariant and leaving alone the address range of the new area, if one
    can be created), never fails a check. If it succeeds it hands out a run
    of chunks of the requested size: they were not allocated in a state that
    differs from the one at the call only by what those others did, in the
    order of the windows, and from this state to the result exactly these
    chunks become allocated, apart from what others do in the window in
    which an area that turned out superfluous is given back; every meta
    chunk is on exactly the list its state asks for and the use counts of
    areas are exact. It gives up the lock, and it fails, only if there is
    neither a free complete meta chunk nor a free area, and it fails only
    because it must not lock the kernel (then nothing has changed) or
    because creating an area failed; after a new area was added the request
    cannot fail. It keeps waiting only while another thread is allocating an
    area. *)
Theorem allocate_chunks_correct (admin size count : Z) (fl : flags) (waits : list (manager → manager))
    (others others' : manager → manager) (na : errno + new_area) (s : manager)
    (Hadmin : admin_ok admin) (Hsize : chunk_size size) (Hcount : 0 < count)
    (Hfit : count * size <= SLAB_CHUNK_SIZE_LARGE) (Hinv : inv admin s)
    (Hna : ∀ x, na = inr x → fresh_area x s) (Hwaits : Forall (window admin na) waits)
    (Ho : keeps_inv admin others) (Hpo : ∀ s a, inv admin s → private a s → private a (others s))
    (Ho' : keeps_inv admin others') :
  match _AllocateChunks admin size count fl waits others na others' s with
  | Ret (inr c, s') => served admin size count fl others others' waits c s s'
  | Ret (inl e, s') => inv admin s' ∧ exhausted s ∧
      (e = EWOULDBLOCK ∧ DONT_LOCK_KERNEL fl = true ∧ s' = s ∨
       na = inl e ∧ ∃ ws, ws `prefix_of` waits ∧ between (ws ++ [others]) s s')
  | NoFuel => exhausted s ∧ sAllocationEntryDontWait s || sAllocationEntryCanWait s = true
  | Panic => False
  end.
Proof. destruct Hadmin. by apply allocate_chunks_ok. Qed.

(** C37: _FreeChunk of an allocated chunk, other threads keeping the
    invariant in the window of _FreeArea, succeeds: exactly that chunk
    becomes free, the meta chunk moves to the list its new state asks for
    (no STAILQ_REMOVE of an element that is not on the list) and the use
    counts stay exact; if no meta chunk of the area is in use then the
    result is that of _FreeArea of the area in this state, after which the
    invariant of the manager holds again, and otherwise this state itself. *)
Theorem free_chunk_correct (admin : Z) (others : manager → manager) (id : mcid) (i : Z) (fl : flags) (s : manager)
    (Hadmin : admin_ok admin) (Ho : keeps_inv admin others) (Hinv : inv admin s)
    (Halloc : chunk_allocated s id i) :
  ∃ s1 s', _FreeChunk others id i fl s = Ret s' ∧ inv admin s1 ∧ inv admin s' ∧ released id i s s1 ∧
    if used_count (metaChunks s1) id.1 =? 0 then _FreeArea others id.1 false fl s1 = Ret s' else s' = s1.
Proof. destruct Hadmin. by apply free_chunk_mgr. Qed.

(** For an address AllocateRaw returned for a chunk allocation,
    GetAllocationInfo finds the reference left in the first chunk and
    answers the requested size rounded up to pages; the address is page
    aligned. *)
Lemma raw_allocation_info (admin : Z) (valid : Z → bool) (size : Z) (fl : flags) (large : errno + Z)
    (waits : list (manager → manager)) (others : manager → manager) (na : errno + new_area)
    (lookup : option (Z * Z)) (s s' : manager) (p : Z)
    (Hadmin : admin_ok admin) (Hsize : 0 < size) (Hraw : is_Some (raw_chunks size fl)) (Hinv : inv admin s)
    (Hna : ∀ x, na = inr x → fresh_area x s) (Hwaits : Forall (window admin na) waits)
    (Ho : keeps_inv admin others) (Hpo : ∀ s a, inv admin s → private a s → private a (others s))
    (Hret : AllocateRaw admin valid size fl large waits others na (fun s => s) Ok (fun s => s) s = Ret (inr p, s')) :
  GetAllocationInfo lookup p s' = Ret (inr (roundup size SLAB_CHUNK_SIZE_SMALL)) ∧ p mod PAGE_SIZE = 0.
Proof.
  destruct Hadmin as [Ha1 Ha2]. destruct Hraw as [[cs cc] Hraw]. unfold AllocateRaw in Hret.
  destruct (valid size); [|done]. cbn [negb] in Hret. rewrite Hraw in Hret.
  destruct (raw_chunks_size size fl cs cc Hsize Hraw) as (Hcs & Hcc & Hfit & Hround).
  pose proof (allocate_chunks_ok admin Ha1 Ha2 cs cc fl others (fun s => s) Hcs Hcc Hfit Ho Hpo ltac:(by intros ?)
    waits na s Hinv Hna Hwaits) as Halloc.
  destruct (_AllocateChunks _ _ _ _ _ _ _ _ _) as [[[e|[id chunk]] s2]| |]; try done.
  cbn [mbind outcome_bind] in Hret.
  destruct Halloc as (Hinv2 & fs & s0 & s1 & _ & _ & _ & Hinv0 & (R1 & R2 & R3 & R4 & f & m & Hm & -> & Hsz & Ht & Hf0 & Hf1 & _) & Hor).
  assert (metaChunks s2 !! id = Some m ∧ id.1 ∈ sAreaTable s2) as [Hm2 Ht2].
  { rewrite <- R2 in Ht. destruct Hor as [->|(a & fs' & Hp & Hfree & _)]; [done|].
    destruct (free_area_noop_mc a fl s1 s2 Hp Hfree) as [-> Hmc]. split; [|done].
    rewrite Hmc; [done|]. intros He. destruct Hp as (_ & Hn & _). by rewrite He in Ht. }
  pose proof (inv_mc _ _ Hinv2 _ _ Hm2) as Hmi.
  unfold AllocateRaw_finish in Hret. rewrite Hm2 in Hret. cbn [deref mbind outcome_bind] in Hret. injection Hret as <- <-.
  rewrite chunk_index_ptr, <- Hround, <- Hsz.
  pose proof (chunk_size_pos _ Hcs) as Hpos.
  destruct (raw_info admin Ha1 Ha2 id m f cc s2 lookup Hmi) as (H1 & H2 & _); [lia|done|done|done|done|done|].
  done.
Qed.

(** *** A manager with one area *)

Definition empty_manager : manager := mkManager ∅ ∅ ∅ [] 0 [] [] [] [] false false false.

Lemma empty_manager_inv admin : inv admin empty_manager.
Proof.
  split; try (by intros; set_solver).
  - intros a id [A Ha]. change ((∅ : gmap Z MemoryArea) !! a = Some A) in Ha. by rewrite lookup_empty in Ha.
  - intros []; constructor.
  - intros n id. split; [intros Hid; by destruct n; apply elem_of_nil in Hid|]. intros [Ht _]. set_solver.
  - constructor.
Qed.

Definition first_area : new_area :=
  mkNewArea 2097152 None 0 (fun i => 2097152 + 4096 + 64 + 296 * i) (fun _ => replicate 32 0).

Definition booted : manager := _AddArea 2097152 (_AllocateArea (fun s => s) (inr first_area) empty_manager).2.

Lemma first_area_fresh : fresh_area first_area empty_manager.
Proof.
  split; [done|done| |intros i; cbn; lia|done].
  vm_compute. split_and!; (reflexivity || discriminate).
Qed.

Lemma admin_4096 : admin_ok 4096.
Proof. vm_compute. split; (reflexivity || discriminate). Qed.

Lemma booted_inv : inv 4096 booted.
Proof.
  destruct (allocate_area_inv 4096 eq_refl (proj2 admin_4096) (fun s => s) first_area empty_manager (empty_manager_inv 4096)
    first_area_fresh ltac:(by intros ?) ltac:(by intros ?)) as (s' & He & Hinv & Hp).
  unfold booted. rewrite He. apply (add_area_inv 4096 eq_refl (proj2 admin_4096)); done.
Qed.

Definition no_flags : flags := mkFlags false false false false.

(** The first allocation of all: an area is created for it. *)
Lemma allocate_chunks_correct_witness : ∃ c s',
  _AllocateChunks 4096 SLAB_CHUNK_SIZE_MEDIUM 3 no_flags [] (fun s => s) (inr first_area) (fun s => s) empty_manager =
    Ret (inr c, s') ∧
  served 4096 SLAB_CHUNK_SIZE_MEDIUM 3 no_flags (fun s => s) (fun s => s) [] c empty_manager s'.
Proof.
  pose proof (allocate_chunks_correct 4096 SLAB_CHUNK_SIZE_MEDIUM 3 no_flags [] (fun s => s) (fun s => s)
    (inr first_area) empty_manager) as H.
  assert (match _AllocateChunks 4096 SLAB_CHUNK_SIZE_MEDIUM 3 no_flags [] (fun s => s) (inr first_area)
    (fun s => s) empty_manager with Ret (inr _, _) => true | _ => false end = true) as Hr by (vm_compute; reflexivity).
  destruct (_AllocateChunks 4096 SLAB_CHUNK_SIZE_MEDIUM 3 no_flags [] (fun s => s) (inr first_area)
    (fun s => s) empty_manager) as [[[e|c] s']| |]; [discriminate Hr| |discriminate Hr..].
  exists c, s'. split; [reflexivity|]. apply H.
  - exact admin_4096.
  - by right; left.
  - done.
  - done.
  - exact (empty_manager_inv 4096).
  - intros x [= <-]. exact first_area_fresh.
  - constructor.
  - by intros ?.
  - by intros ?.
  - by intros ?.
Defined.

(** One chunk taken from the area. *)
Definition after_get : manager :=
  match _GetChunk 4096 (Some LSmall) SLAB_CHUNK_SIZE_SMALL booted with Ret (_, s) => s | _ => booted end.

Lemma after_get_inv : inv 4096 after_get ∧ chunk_allocated after_get (2097152, 0) 0.
Proof.
  destruct (get_chunk_ok 4096 eq_refl (proj2 admin_4096) SLAB_CHUNK_SIZE_SMALL (Some LSmall) booted booted_inv ltac:(by left) eq_refl)
    as (r & s' & He & Hres).
  assert (after_get = s') as -> by (unfold after_get; by rewrite He).
  assert (∃ chunk, r = Some ((2097152, 0), chunk) ∧ chunk = 2097152 + 4096 + 64) as (chunk & -> & Hchunk).
  { assert (match _GetChunk 4096 (Some LSmall) SLAB_CHUNK_SIZE_SMALL booted with Ret (r, _) => r | _ => None end
      = Some ((2097152, 0), 2097152 + 4096 + 64)) as Hr by (vm_compute; reflexivity).
    rewrite He in Hr. rewrite Hr. by eexists. }
  destruct Hres as (Hinv & _ & _ & _ & f & m' & Hm & Hc & _ & _ & _ & _ & Hgot). split; [done|].
  assert (chunks_addr m' = 2097152 + 4096 + 64) as Haddr.
  { assert (match _GetChunk 4096 (Some LSmall) SLAB_CHUNK_SIZE_SMALL booted with
      | Ret (_, s) => chunks_addr <$> metaChunks s !! (2097152, 0) | _ => None end = Some (2097152 + 4096 + 64)) as Hr
      by (vm_compute; reflexivity).
    rewrite He, Hm in Hr. cbn in Hr. congruence. }
  unfold chunk_ptr in Hc. rewrite Haddr, Hchunk in Hc.
  assert (f = 0) as Hf0 by lia. rewrite Hf0 in Hgot. destruct Hgot as [G _]. apply (G 0). lia.
Qed.

Lemma free_chunk_correct_witness :
  ∃ s1 s', _FreeChunk (fun s => s) (2097152, 0) 0 no_flags after_get = Ret s' ∧ inv 4096 s1 ∧ inv 4096 s' ∧
    released (2097152, 0) 0 after_get s1 ∧
    if used_count (metaChunks s1) 2097152 =? 0 then _FreeArea (fun s => s) 2097152 false no_flags s1 = Ret s'
    else s' = s1.
Proof.
  apply (free_chunk_correct 4096 (fun s => s) (2097152, 0) 0 no_flags after_get).
  - exact admin_4096.
  - by intros ?.
  - exact (proj1 after_get_inv).
  - exact (proj2 after_get_inv).
Defined.

Definition raw_result : outcome ((errno + Z) * manager) :=
  AllocateRaw 4096 (fun _ => true) 20000 no_flags (inl ENOMEM) [] (fun s => s) (inl ENOMEM) (fun s => s) Ok (fun s => s) booted.
Definition raw_address : Z := match raw_result with Ret (inr p, _) => p | _ => 0 end.
Definition raw_state : manager := match raw_result with Ret (_, s) => s | _ => booted end.

Lemma raw_result_eq : raw_result = Ret (inr raw_address, raw_state).
Proof.
  assert (match raw_result with Ret (inr _, _) => true | _ => false end = true) as H by (vm_compute; reflexivity).
  unfold raw_address, raw_state. destruct raw_result as [[[e|p] s]| |]; done.
Qed.

Lemma raw_allocation_info_witness :
  GetAllocationInfo None raw_address raw_state = Ret (inr (roundup 20000 SLAB_CHUNK_SIZE_SMALL)) ∧ raw_address mod PAGE_SIZE = 0.
Proof.
  apply (raw_allocation_info 4096 (fun _ => true) 20000 no_flags (inl ENOMEM) [] (fun s => s) (inl ENOMEM) None booted raw_state raw_address).
  - exact admin_4096.
  - done.
  - vm_compute. by eexists.
  - exact booted_inv.
  - done.
  - constructor.
  - by intros ?.
  - by intros ?.
  - exact raw_result_eq.
Defined.
