(* ===== verification/ObjectCache.v ===== *)
(** slab/mm_allocator.cpp and mm_allocator.h: object caches (slabs of objects
    of one size), the block size classes, and the maintenance of caches.

    The slabs of a cache are a map from the address of the [slab] structure;
    the list of free objects, which the code threads through the objects
    themselves, is the list of the addresses of their links.  Results of
    [MemoryManager::Allocate] and what other threads do while the cache lock is
    released are arguments; [sizeof_slab] is fixed by the compiler. *)
From S2P Require Import Prelude SlabChunks SlabManager Depot.
From stdpp Require Import base list list_numbers numbers gmap.
From Stdlib Require Import ZArith Lia.
Local Open Scope Z_scope.

Definition sizeof_object_link : Z := 8.
Definition kMinObjectAlignment : Z := 8.

Record slab := mkSlab {
  spages : Z;
  ssize : Z;
  scount : Z;
  soffset : Z;
  sfree : list Z
}.
#[export] Instance eta_slab : Eta slab := fun s =>
  mkSlab (spages s) (ssize s) (scount s) (soffset s) (sfree s).

Record ObjectCache := mkCache {
  object_size : Z;
  alignment : Z;
  cache_color_cycle : Z;
  oempty : list Z;
  opartial : list Z;
  ofull : list Z;
  total_objects : Z;
  used_count : Z;
  oempty_count : Z;
  pressure : Z;
  min_object_reserve : Z;
  slab_size : Z;
  usage : Z;
  maximum : Z;
  resize_entry_can_wait : option Z;
  resize_entry_dont_wait : option Z;
  maintenance_queued : bool;
  maintenance_pending : bool;
  maintenance_in_progress : bool;
  maintenance_resize : bool;
  maintenance_delete : bool;
  slabs : gmap Z slab;
  hash_table : gmap Z Z
}.
#[export] Instance eta_ObjectCache : Eta ObjectCache := fun c =>
  mkCache (object_size c) (alignment c) (cache_color_cycle c) (oempty c) (opartial c) (ofull c)
    (total_objects c) (used_count c) (oempty_count c) (pressure c) (min_object_reserve c)
    (slab_size c) (usage c) (maximum c) (resize_entry_can_wait c) (resize_entry_dont_wait c)
    (maintenance_queued c) (maintenance_pending c) (maintenance_in_progress c)
    (maintenance_resize c) (maintenance_delete c) (slabs c) (hash_table c).

Definition link_to_object (link objectSize : Z) : Z := link - (objectSize - sizeof_object_link).
Definition object_to_link (object objectSize : Z) : Z := object + (objectSize - sizeof_object_link).
Definition lower_boundary (object byteCount : Z) : Z := Z.land object (u64 (Z.lnot (byteCount - 1))).

Definition check_cache_quota (c : ObjectCache) : bool :=
  (maximum c =? 0) || (u64 (usage c + slab_size c) <=? maximum c).

(** ** [ObjectCache::Init]: the sizes, and the magazine configuration (none
    for a cache without a depot). *)
Definition init_object_size (objectSize align : Z) : Z * Z :=
  let objectSize := if objectSize <? sizeof_object_link then sizeof_object_link else objectSize in
  let align := if align <? kMinObjectAlignment then kMinObjectAlignment else align in
  let rest := Z.land objectSize (align - 1) in
  (if (0 <? align) && negb (rest =? 0) then u64 (objectSize + align - rest) else objectSize, align).

Definition magazine_config (objectSize magazineCapacity maxMagazineCount : Z) : Z * Z :=
  let objectSize := if objectSize <? sizeof_object_link then sizeof_object_link else objectSize in
  let cap := if magazineCapacity =? 0 then
               if objectSize <? 256 then 32 else if objectSize <? 512 then 16 else 8
             else magazineCapacity in
  (cap, if maxMagazineCount =? 0 then cap / 2 else maxMagazineCount).

Definition Init (objectSize align max : Z) : ObjectCache :=
  let '(osz, al) := init_object_size objectSize align in
  mkCache osz al 0 [] [] [] 0 0 0 0 0 0 0 max None None false false false false false ∅ ∅.

(** [SmallObjectCache::Create] and [HashedObjectCache::Create]: the slab size.
    [large] is [CACHE_LARGE_SLAB]; [object_size] is the parameter, not the
    member. *)
Definition small_slab_size (object_size : Z) (large : bool) : Z :=
  AcceptableChunkSize (if large then u64 (1024 * object_size) else SLAB_CHUNK_SIZE_SMALL).
Definition hashed_slab_size (object_size : Z) (large : bool) : Z :=
  AcceptableChunkSize (u64 ((if large then 128 else 8) * object_size)).

(** [create_object_cache_etc]: which class a size gets; the boolean says
    whether the cache is a [SmallObjectCache]. *)
Definition create_object_cache_etc (objectSize align max : Z) (large : bool) : option (bool * ObjectCache) :=
  if objectSize =? 0 then None
  else if objectSize <=? 256 then
    Some (true, (Init objectSize align max) <| slab_size := small_slab_size objectSize large |>)
  else
    Some (false, (Init objectSize align max) <| slab_size := hashed_slab_size objectSize large |>).

Section ops.
Context (sizeof_slab : Z) (small : bool).

Definition slab_in_pages (pages slab_size : Z) : Z := pages + slab_size - sizeof_slab.

Definition upd_slab (sid : Z) (f : slab → slab) (c : ObjectCache) : ObjectCache :=
  c <| slabs ::= alter f sid |>.

(** ** Slabs *)

(** The loop of [InitSlab]: the links of the objects, or the objects the
    destructor runs on when a constructor fails.  [ctor] tells whether the
    constructor succeeds on the object at an address. *)
Fixpoint init_objects (ctor : Z → bool) (n : nat) (data object_size : Z) (built free : list Z) : list Z + list Z :=
  match n with
  | O => inr free
  | S n =>
      if ctor data then
        init_objects ctor n (data + object_size) object_size (built ++ [data])
          (object_to_link data object_size :: free)
      else inl built
  end.

Definition InitSlab (ctor : Z → bool) (sid pages byteCount : Z) (c : ObjectCache) : bool * ObjectCache :=
  let size := byteCount / object_size c in
  let spareBytes := byteCount - size * object_size c in
  let offset := cache_color_cycle c in
  let cycle := u64 (cache_color_cycle c + alignment c) in
  let c := c <| cache_color_cycle := if spareBytes <? cycle then 0 else cycle |> in
  match init_objects ctor (Z.to_nat size) (pages + offset) (object_size c) [] [] with
  | inl _ => (false, c)
  | inr free => (true, c <| slabs ::= <[sid := mkSlab pages size size offset free]> |>)
  end.

Definition UninitSlab (sid : Z) (c : ObjectCache) : outcome ObjectCache :=
  s ← deref (slabs c !! sid);
  _ ← assert (scount s =? ssize s);
  Ret (c <| usage ::= fun u => u64 (u - slab_size c) |> <| total_objects ::= fun t => u64 (t - ssize s) |>).

Definition ObjectAtIndex (s : slab) (index : Z) (c : ObjectCache) : Z :=
  spages s + soffset s + index * object_size c.

(** What happens while a slab is created: the address of the [HashedSlab]
    structure (hashed caches only), the pages, and what other threads do to
    the cache while its lock is given up to allocate ([cr_others]) and, in a
    hashed cache, after [InitSlab] ([cr_later]: in [_ResizeHashTableIfNeeded],
    or while the pages are freed because [InitSlab] failed). *)
Record creation := mkCreation {
  cr_slab : option Z;
  cr_pages : option Z;
  cr_others : ObjectCache → ObjectCache;
  cr_later : ObjectCache → ObjectCache;
  cr_ctor : Z → bool
}.

(** [CreateSlab]: the new slab if any, and the pages given back to the memory
    manager.  Resizing the hash table does not change what it maps; what is
    left of [_ResizeHashTableIfNeeded] is that it gives the lock up. *)
Definition SmallCreateSlab (r : creation) (c : ObjectCache) : option Z * list Z * ObjectCache :=
  if negb (check_cache_quota c) then (None, [], c) else
  let c := cr_others r c in
  match cr_pages r with
  | None => (None, [], c)
  | Some pages =>
      let sid := slab_in_pages pages (slab_size c) in
      let '(ok, c) := InitSlab (cr_ctor r) sid pages (slab_size c - sizeof_slab) c in
      (if ok then Some sid else None, [], c)
  end.

Definition HashedCreateSlab (r : creation) (c : ObjectCache) : option Z * list Z * ObjectCache :=
  if negb (check_cache_quota c) then (None, [], c) else
  let c := cr_others r c in
  match cr_slab r, cr_pages r with
  | Some sid, Some pages =>
      let '(ok, c) := InitSlab (cr_ctor r) sid pages (slab_size c) c in
      if ok : bool then (Some sid, [], cr_later r (c <| hash_table ::= <[pages := sid]> |>))
      else (None, [pages], cr_later r c)
  | _, _ => (None, [], c)
  end.

Definition CreateSlab (r : creation) (c : ObjectCache) : option Z * list Z * ObjectCache :=
  if small then SmallCreateSlab r c else HashedCreateSlab r c.

(** What other threads do to the cache while a slab is given back: in
    [_ResizeHashTableIfNeeded] (hashed caches only), and while the pages go
    back to the memory manager. *)
Record slab_windows := mkWindows {
  w_resize : ObjectCache → ObjectCache;
  w_free : ObjectCache → ObjectCache
}.
Definition no_others : slab_windows := mkWindows (fun c => c) (fun c => c).

Definition ReturnSlab (others : slab_windows) (sid : Z) (c : ObjectCache) : outcome ObjectCache :=
  s ← deref (slabs c !! sid);
  let c := if small then c else w_resize others (c <| hash_table ::= delete (spages s) |>) in
  c ← UninitSlab sid c;
  Ret (w_free others (c <| slabs ::= delete sid |>)).

Definition SmallObjectSlab (object : Z) (c : ObjectCache) : Z :=
  slab_in_pages (lower_boundary object (slab_size c)) (slab_size c).
Definition HashedObjectSlab (object : Z) (c : ObjectCache) : outcome Z :=
  deref (hash_table c !! lower_boundary object (slab_size c)).
Definition ObjectSlab (object : Z) (c : ObjectCache) : outcome Z :=
  if small then Ret (SmallObjectSlab object c) else HashedObjectSlab object c.

(** The slab lists; an element is only removed from the list it is on. *)
Definition list_remove (x : Z) (l : list Z) : outcome (list Z) :=
  _ ← assert (bool_decide (x ∈ l)); Ret (remove_elem x l).

Definition ReturnObjectToSlab (others : slab_windows) (source object : Z) (fl : flags)
    (c : ObjectCache) : outcome ObjectCache :=
  s0 ← deref (slabs c !! source);
  let s := s0 <| sfree ::= cons (object_to_link object (object_size c)) |>
              <| scount ::= fun n => u64 (n + 1) |> in
  let c := c <| slabs ::= <[source := s]> |> <| used_count ::= fun n => u64 (n - 1) |> in
  if scount s =? ssize s then
    p ← list_remove source (opartial c);
    let c := c <| opartial := p |> in
    if DONT_LOCK_KERNEL fl ||
       ((oempty_count c <? pressure c) &&
        (min_object_reserve c <=? u64 (u64 (total_objects c - used_count c) - ssize s))) then
      Ret (c <| oempty_count ::= fun n => u64 (n + 1) |> <| oempty ::= fun l => l ++ [source] |>)
    else ReturnSlab others source c
  else if scount s =? 1 then
    f ← list_remove source (ofull c);
    Ret (c <| ofull := f |> <| opartial ::= fun l => l ++ [source] |>)
  else Ret c.

(** ** Reserving objects *)

Definition increase_object_reserve (c : ObjectCache) : ObjectCache :=
  let c := c <| maintenance_resize := true |> in
  if maintenance_pending c then c
  else c <| maintenance_pending := true |> <| maintenance_queued := true |>.

(** Waiting until no one else adds slabs: [None] when it is this thread's
    turn. *)
Fixpoint wait_resize (me objectCount : Z) (fl : flags) (waits : list (ObjectCache → ObjectCache))
    (c : ObjectCache) : outcome (option status * ObjectCache) :=
  if objectCount <=? u64 (total_objects c - used_count c) then Ret (Some Ok, c)
  else
    let wait :=
      match waits with
      | [] => NoFuel
      | w :: waits => wait_resize me objectCount fl waits (w c)
      end in
    match resize_entry_dont_wait c, resize_entry_can_wait c with
    | Some t, _ => if t =? me then Ret (Some (Err EWOULDBLOCK), c) else wait
    | None, Some t =>
        if t =? me then Ret (Some (Err EWOULDBLOCK), c)
        else if DONT_WAIT_FOR_MEMORY fl then Ret (None, c) else wait
    | None, None => Ret (None, c)
    end.

Definition set_resize_entry (fl : flags) (e : option Z) (c : ObjectCache) : ObjectCache :=
  if DONT_WAIT_FOR_MEMORY fl then c <| resize_entry_dont_wait := e |>
  else c <| resize_entry_can_wait := e |>.

Definition account_slab (sid : Z) (s : slab) (c : ObjectCache) : ObjectCache :=
  c <| usage ::= fun u => u64 (u + slab_size c) |> <| total_objects ::= fun t => u64 (t + ssize s) |>
    <| oempty ::= fun l => l ++ [sid] |> <| oempty_count ::= fun n => u64 (n + 1) |>.

Fixpoint add_slabs (objectCount : Z) (fl : flags) (rs : list creation) (c : ObjectCache)
  : outcome (status * ObjectCache) :=
  if u64 (total_objects c - used_count c) <? objectCount then
    match rs with
    | [] => NoFuel
    | r :: rs =>
        let '(newSlab, _, c) := CreateSlab r c in
        match newSlab with
        | None => Ret (Err ENOMEM, set_resize_entry fl None c)
        | Some sid =>
            s ← deref (slabs c !! sid);
            add_slabs objectCount fl rs (account_slab sid s c)
        end
    end
  else Ret (Ok, set_resize_entry fl None c).

Definition object_cache_reserve_internal (me objectCount : Z) (fl : flags)
    (waits : list (ObjectCache → ObjectCache)) (rs : list creation) (c : ObjectCache)
  : outcome (status * ObjectCache) :=
  '(r, c) ← wait_resize me objectCount fl waits c;
  match r with
  | Some st => Ret (st, c)
  | None => add_slabs objectCount fl rs (set_resize_entry fl (Some me) c)
  end.

Definition object_cache_reserve (me objectCount : Z) (fl : flags)
    (waits : list (ObjectCache → ObjectCache)) (rs : list creation) (c : ObjectCache)
  : outcome (status * ObjectCache) :=
  if objectCount =? 0 then Ret (Ok, c) else object_cache_reserve_internal me objectCount fl waits rs c.

Definition object_cache_set_minimum_reserve (objectCount : Z) (c : ObjectCache) : ObjectCache :=
  if min_object_reserve c =? objectCount then c
  else increase_object_reserve (c <| min_object_reserve := objectCount |>).

(** ** Allocating and freeing objects *)

(** The loop of [object_cache_alloc] that finds a slab with a free object; one
    element of [env] per call of [object_cache_reserve_internal]. *)
Fixpoint find_slab (me : Z) (fl : flags) (env : list (list (ObjectCache → ObjectCache) * list creation))
    (c : ObjectCache) : outcome (option Z * ObjectCache) :=
  match opartial c with
  | sid :: _ => Ret (Some sid, c)
  | [] =>
      match oempty c with
      | sid :: l =>
          Ret (Some sid, c <| oempty := l |> <| oempty_count ::= fun n => u64 (n - 1) |>
                           <| opartial ::= fun l => l ++ [sid] |>)
      | [] =>
          match env with
          | [] => NoFuel
          | (waits, rs) :: env =>
              '(st, c) ← object_cache_reserve_internal me 1 fl waits rs c;
              match st with
              | Err _ => Ret (None, c)
              | Ok => find_slab me fl env (c <| pressure ::= fun n => u64 (n + 1) |>)
              end
          end
      end
  end.

Definition take_object (source : Z) (c : ObjectCache) : outcome (Z * ObjectCache) :=
  s0 ← deref (slabs c !! source);
  match sfree s0 with
  | [] => Panic
  | link :: free =>
      let s := s0 <| sfree := free |> <| scount ::= fun n => u64 (n - 1) |> in
      let c := c <| slabs ::= <[source := s]> |> <| used_count ::= fun n => u64 (n + 1) |> in
      let c := if u64 (total_objects c - used_count c) <? min_object_reserve c
               then increase_object_reserve c else c in
      c ← (if scount s =? 0 then
             p ← list_remove source (opartial c);
             Ret (c <| opartial := p |> <| ofull ::= fun l => l ++ [source] |>)
           else Ret c);
      Ret (link_to_object link (object_size c), c)
  end.

(** [object_cache_alloc] from the slabs, after the depot had no object. *)
Definition alloc_from_slabs (me : Z) (fl : flags) (env : list (list (ObjectCache → ObjectCache) * list creation))
    (c : ObjectCache) : outcome (option Z * ObjectCache) :=
  '(r, c) ← find_slab me fl env c;
  match r with
  | None => Ret (None, c)
  | Some source => '(object, c) ← take_object source c; Ret (Some object, c)
  end.

(** The depot of a cache that has one is part of its state. *)
Definition object_cache_alloc (me : Z) (cpu : nat) (fl : flags)
    (env : list (list (ObjectCache → ObjectCache) * list creation))
    (d : option object_depot) (c : ObjectCache) : outcome (option Z * option object_depot * ObjectCache) :=
  '(r, d) ← match d with
            | None => Ret (None, None)
            | Some d => '(r, d) ← object_depot_obtain 2 cpu d; Ret (r, Some d)
            end;
  match r with
  | Some object => Ret (Some object, d, c)
  | None => '(r, c) ← alloc_from_slabs me fl env c; Ret (r, d, c)
  end.

(** [object_cache_return_object_wrapper] over the objects a depot gives back. *)
Fixpoint return_objects (others : slab_windows) (fl : flags) (objects : list Z) (c : ObjectCache)
  : outcome ObjectCache :=
  match objects with
  | [] => Ret c
  | object :: objects =>
      sid ← ObjectSlab object c;
      c ← ReturnObjectToSlab others sid object fl c;
      return_objects others fl objects c
  end.

Definition object_cache_free (others : slab_windows) (cpu : nat) (cpus : list nat)
    (allocs : list bool) (object : Z) (fl : flags) (d : option object_depot) (c : ObjectCache)
  : outcome (option object_depot * ObjectCache) :=
  if object =? 0 then Ret (d, c) else
  match d with
  | Some d =>
      '(ret, d) ← object_depot_store (4 + length cpus) cpus allocs cpu object d;
      c ← return_objects others fl ret c;
      Ret (Some d, c)
  | None =>
      sid ← ObjectSlab object c;
      c ← ReturnObjectToSlab others sid object fl c;
      Ret (None, c)
  end.

(** ** Low memory and deletion *)

Inductive low_level := LOW_NOTE | LOW_WARNING | LOW_CRITICAL.

Definition relieve_pressure (level : low_level) (p : Z) : Z * Z :=
  match level with
  | LOW_NOTE => (p / 2 + 1, p - p / 8)
  | LOW_WARNING => (0, p / 2)
  | LOW_CRITICAL => (0, 0)
  end.

(** The loop of [object_cache_low_memory] on one cache. *)
Fixpoint trim_empty (fuel : nat) (others : slab_windows) (minimumAllowed : Z) (c : ObjectCache)
  : outcome ObjectCache :=
  if minimumAllowed <? oempty_count c then
    match fuel with
    | O => NoFuel
    | S fuel =>
        match oempty c with
        | [] => Panic
        | sid :: l =>
            s ← deref (slabs c !! sid);
            if u64 (total_objects c - used_count c) <? u64 (min_object_reserve c + ssize s) then Ret c
            else
              c ← ReturnSlab others sid (c <| oempty := l |>);
              trim_empty fuel others minimumAllowed (c <| oempty_count ::= fun n => u64 (n - 1) |>)
        end
    end
  else Ret c.

(** The loop of [delete_object_cache_internal]. *)
Fixpoint return_empty (fuel : nat) (others : slab_windows) (c : ObjectCache) : outcome ObjectCache :=
  match oempty c, fuel with
  | [], _ => Ret c
  | _ :: _, O => NoFuel
  | sid :: l, S fuel =>
      c ← ReturnSlab others sid (c <| oempty := l |>);
      return_empty fuel others c
  end.

Definition delete_object_cache_internal (fuel : nat) (others : slab_windows)
    (d : option object_depot) (c : ObjectCache) : outcome ObjectCache :=
  c ← match d with
      | None => Ret c
      | Some d => return_objects others (mkFlags false false false false) (object_depot_destroy d).1 c
      end;
  _ ← assert (bool_decide (ofull c = []));
  _ ← assert (bool_decide (opartial c = []));
  return_empty fuel others c.

(** [delete_object_cache] on the cache itself (its removal from the list of
    all caches apart): [inl] when the deletion is left to the thread that has
    the cache in maintenance. *)
Definition delete_object_cache (fuel : nat) (others : slab_windows) (d : option object_depot)
    (c : ObjectCache) : outcome (ObjectCache + ObjectCache) :=
  if maintenance_in_progress c then Ret (inl (c <| maintenance_delete := true |>))
  else
    c ← (if maintenance_pending c then
           _ ← assert (maintenance_queued c); Ret (c <| maintenance_queued := false |>)
         else Ret c);
    c ← delete_object_cache_internal fuel others d c;
    Ret (inr c).

(** [mm_perform_maintenance_thread_work] from the point where it took the
    cache off the queue; one element of [env] per resize: what other threads
    did since the maintenance lock was released, and what happens during
    [object_cache_reserve_internal]. *)
Fixpoint maintain_cache (fuel : nat) (others : slab_windows) (me : Z)
    (env : list ((ObjectCache → ObjectCache) * list (ObjectCache → ObjectCache) * list creation))
    (d : option object_depot) (c : ObjectCache) : outcome ObjectCache :=
  if negb (maintenance_resize c) && negb (maintenance_delete c) then
    Ret (c <| maintenance_pending := false |> <| maintenance_in_progress := false |>)
  else
    let deleteRequested := maintenance_delete c in
    let c := c <| maintenance_resize := false |> <| maintenance_in_progress := true |> in
    if deleteRequested then delete_object_cache_internal fuel others d c
    else
      match env with
      | [] => NoFuel
      | (gap, waits, rs) :: env =>
          let c := gap c in
          '(st, c) ← object_cache_reserve_internal me (min_object_reserve c)
                       (mkFlags false false false false) waits rs c;
          match st with
          | Err _ => Ret c
          | Ok => maintain_cache fuel others me env d c
          end
      end.

Definition mm_perform_maintenance_thread_work (fuel : nat) (others : slab_windows) (me : Z)
    (env : list ((ObjectCache → ObjectCache) * list (ObjectCache → ObjectCache) * list creation))
    (d : option object_depot) (c : ObjectCache) : outcome ObjectCache :=
  maintain_cache fuel others me env d (c <| maintenance_queued := false |>).

(** One cache's turn in [object_cache_low_memory]: [reclaimed] is what the
    reclaimer leaves. *)
Definition low_memory_cache (fuel : nat) (others : slab_windows) (level : low_level)
    (reclaimed : ObjectCache → ObjectCache) (d : option object_depot) (c : ObjectCache)
  : outcome (option object_depot * ObjectCache) :=
  if maintenance_pending c || maintenance_in_progress c then Ret (d, c) else
  let c := c <| maintenance_pending := true |> <| maintenance_in_progress := true |> in
  let c := reclaimed c in
  '(d, c) ← match d with
            | None => Ret (None, c)
            | Some d =>
                let '(ret, d) := object_depot_make_empty d in
                c ← return_objects others (mkFlags false false false false) ret c;
                Ret (Some d, c)
            end;
  let '(minimumAllowed, p) := relieve_pressure level (pressure c) in
  c ← trim_empty fuel others minimumAllowed (c <| pressure := p |>);
  if maintenance_delete c then c ← delete_object_cache_internal fuel others d c; Ret (d, c)
  else
    let c := c <| maintenance_in_progress := false |> in
    Ret (d, if maintenance_resize c then c <| maintenance_queued := true |>
            else c <| maintenance_pending := false |>).

End ops.

(** ** The block allocator *)

Definition kBlockSizes : list Z :=
  [16; 24; 32; 48; 64; 80; 96; 112; 128; 160; 192; 224; 256; 320; 384; 448;
   512; 640; 768; 896; 1024; 1280; 1536; 1792; 2048; 2560; 3072; 3584; 4096; 4608; 5120; 5632;
   6144; 6656; 7168; 7680; 8192; 0].
Definition kNumBlockSizes : Z := Z.of_nat (length kBlockSizes) - 1.

Definition size_to_index (size : Z) : Z :=
  if size <=? 16 then 0
  else if size <=? 32 then 1 + (size - 16 - 1) / 8
  else if size <=? 128 then 3 + (size - 32 - 1) / 16
  else if size <=? 256 then 9 + (size - 128 - 1) / 32
  else if size <=? 512 then 13 + (size - 256 - 1) / 64
  else if size <=? 1024 then 17 + (size - 512 - 1) / 128
  else if size <=? 2048 then 21 + (size - 1024 - 1) / 256
  else if size <=? 8192 then 25 + (size - 2048 - 1) / 512
  else -1.

Fixpoint grow_alignment (fuel : nat) (alignment size : Z) : outcome Z :=
  if alignment <? size then
    match fuel with O => NoFuel | S fuel => grow_alignment fuel (u64 (Z.shiftl alignment 1)) size end
  else Ret alignment.

(** Where [block_alloc] takes the memory from: an object cache, or a raw
    allocation of the given size with or without [CACHE_ALIGN_ON_SIZE]. *)
Inductive block_source := FromCache (index : Z) | FromRaw (size : Z) (align_on_size : bool) | NoBlock.

Definition block_alloc (valid : Z → bool) (size alignment : Z) (fl : flags) : outcome block_source :=
  if negb (valid size) then Ret NoBlock else
  '(size, align_on_size) ←
    (if 8 <? alignment then
       _ ← assert (Z.land alignment (alignment - 1) =? 0);
       size ← grow_alignment 64 alignment size;
       sentinel ← deref (kBlockSizes !! Z.to_nat kNumBlockSizes);
       Ret (size, (sentinel <? size) || ALIGN_ON_SIZE fl)
     else Ret (size, ALIGN_ON_SIZE fl));
  let index := if (PAGE_SIZE <? size) && CONTIGUOUS_MEMORY fl then -1 else size_to_index size in
  if 0 <=? index then Ret (FromCache index)
  else if DONT_LOCK_KERNEL fl then Ret NoBlock
  else Ret (FromRaw size align_on_size).

(** Where [block_free] gives a block back to; [owner] is what
    [FreeRawOrReturnCache] answers: the cache and its index in [sBlockCaches]. *)
Inductive free_route := NothingToFree | FreeDeferred | RawFreed | ToCache (index : Z).

Definition block_free (interrupts_enabled startup : bool) (block : Z) (owner : option (Z * ObjectCache))
  : outcome free_route :=
  if block =? 0 then Ret NothingToFree
  else if negb interrupts_enabled && negb startup then Ret FreeDeferred
  else
    match owner with
    | None => Ret RawFreed
    | Some (index, cache) =>
        first ← deref (kBlockSizes !! 0%nat);
        last ← deref (kBlockSizes !! Z.to_nat (kNumBlockSizes - 1));
        _ ← assert (first <=? object_size cache);
        _ ← assert (object_size cache <=? last);
        _ ← assert (index =? size_to_index (object_size cache));
        Ret (ToCache index)
    end.

(** [block_allocator_init_boot]: the cache of each size, and whether it has a
    depot. *)
Definition block_cache (index : Z) : outcome (option (bool * ObjectCache) * bool) :=
  size ← deref (kBlockSizes !! Z.to_nat index);
  let alignment := if Z.land size (size - 1) =? 0 then size else 0 in
  Ret (create_object_cache_etc size alignment 0 false, size <=? 2048).

(** The bootstrap memory of [block_alloc_early]. *)
Record bootstrap := mkBoot { sBootStrapMemory : Z; sBootStrapMemorySize : Z; sUsedBootStrapMemory : Z }.

(** The part of [block_alloc_early] for a small allocation without a cache;
    [more] is a fresh chunk of [SLAB_CHUNK_SIZE_SMALL] bytes. *)
Definition bootstrap_alloc (size : Z) (more : option Z) (b : bootstrap) : option Z * bootstrap :=
  let b' :=
    if u64 (sBootStrapMemorySize b - sUsedBootStrapMemory b) <? size then
      block ← more; Some (mkBoot block SLAB_CHUNK_SIZE_SMALL 0)
    else Some b in
  match b' with
  | None => (None, b)
  | Some b =>
      let neededSize := roundup size 8 in
      if sBootStrapMemorySize b <? u64 (sUsedBootStrapMemory b + neededSize) then (None, b)
      else (Some (sBootStrapMemory b + sUsedBootStrapMemory b),
            mkBoot (sBootStrapMemory b) (sBootStrapMemorySize b) (u64 (sUsedBootStrapMemory b + neededSize)))
  end.

(** ** Invariant *)

Inductive slab_list := SEmpty | SPartial | SFull.
#[export] Instance slab_list_eq_dec : EqDecision slab_list.
Proof. solve_decision. Defined.

(** The list a slab belongs on. *)
Definition home_list (s : slab) : slab_list :=
  if scount s =? ssize s then SEmpty else if scount s =? 0 then SFull else SPartial.

Definition slab_ids (k : slab_list) (c : ObjectCache) : list Z :=
  match k with SEmpty => oempty c | SPartial => opartial c | SFull => ofull c end.

Definition object_at (osz : Z) (s : slab) (i : Z) : Z := spages s + soffset s + i * osz.

Definition is_object (osz : Z) (s : slab) (o : Z) : Prop := ∃ i, 0 <= i < ssize s ∧ o = object_at osz s i.

Record slab_ok (osz : Z) (s : slab) : Prop := {
  so_size : 0 < ssize s;
  so_count : scount s = Z.of_nat (length (sfree s));
  so_nodup : NoDup (sfree s);
  so_free l : l ∈ sfree s → is_object osz s (link_to_object l osz)
}.

Record oc_ok (c : ObjectCache) : Prop := {
  oc_osz : 0 < object_size c;
  oc_slab sid s : slabs c !! sid = Some s → slab_ok (object_size c) s;
  oc_nodup k : NoDup (slab_ids k c);
  oc_lists k sid : sid ∈ slab_ids k c ↔ ∃ s, slabs c !! sid = Some s ∧ home_list s = k;
  oc_total : total_objects c = msum ssize (slabs c);
  oc_used : used_count c = msum (fun s => ssize s - scount s) (slabs c);
  oc_empty : oempty_count c = Z.of_nat (length (oempty c));
  oc_usage : usage c = slab_size c * Z.of_nat (size (slabs c));
  oc_total_fits : total_objects c < 2 ^ 64;
  oc_usage_fits : 0 < slab_size c ∧ usage c < 2 ^ 64;
  oc_disjoint sid1 sid2 s1 s2 o : slabs c !! sid1 = Some s1 → slabs c !! sid2 = Some s2 →
    is_object (object_size c) s1 o → is_object (object_size c) s2 o → sid1 = sid2
}.

(** Objects handed out: objects of a slab that are not on its free list. *)
Definition obj_alloc (c : ObjectCache) (o : Z) : Prop :=
  ∃ sid s, slabs c !! sid = Some s ∧ is_object (object_size c) s o ∧
    object_to_link o (object_size c) ∉ sfree s.

Lemma link_object_link l osz : object_to_link (link_to_object l osz) osz = l.
Proof. unfold object_to_link, link_to_object. lia. Qed.
Lemma object_link_object o osz : link_to_object (object_to_link o osz) osz = o.
Proof. unfold object_to_link, link_to_object. lia. Qed.

(** The indexes of the free objects of a slab. *)
Definition free_indexes (osz : Z) (s : slab) : list Z :=
  (fun l => (link_to_object l osz - spages s - soffset s) / osz) <$> sfree s.

Lemma object_index osz s i : 0 < osz → (object_at osz s i - spages s - soffset s) / osz = i.
Proof.
  intros Hosz. unfold object_at. replace (spages s + soffset s + i * osz - spages s - soffset s) with (i * osz) by lia.
  apply Z.div_mul. lia.
Qed.

Lemma free_indexes_incl osz s : 0 < osz → slab_ok osz s →
  free_indexes osz s ⊆+ indexes (Z.to_nat (ssize s)).
Proof.
  intros Hosz Hok. apply NoDup_submseteq.
  - apply NoDup_fmap_2_strong; [|apply Hok]. intros l1 l2 H1 H2 He.
    destruct (so_free _ _ Hok l1 H1) as (i1 & Hi1 & E1), (so_free _ _ Hok l2 H2) as (i2 & Hi2 & E2).
    rewrite E1, E2, !object_index in He by done. subst i2.
    rewrite <- (link_object_link l1 osz), <- (link_object_link l2 osz). congruence.
  - intros x (l & -> & Hl)%list_elem_of_fmap. destruct (so_free _ _ Hok l Hl) as (i & Hi & E).
    apply indexes_elem. rewrite E, object_index by done. lia.
Qed.

(** A slab has at most as many free objects as objects. *)
Lemma slab_count_bound osz s : 0 < osz → slab_ok osz s → 0 <= scount s <= ssize s.
Proof.
  intros Hosz Hok. rewrite (so_count _ _ Hok). split; [lia|].
  pose proof (submseteq_length _ _ (free_indexes_incl osz s Hosz Hok)) as Hlen.
  unfold indexes, free_indexes in Hlen. rewrite !length_fmap, length_seq in Hlen. pose proof (so_size _ _ Hok). lia.
Qed.

(** All objects of an unused slab are free. *)
Lemma unused_slab_free osz s o : 0 < osz → slab_ok osz s → scount s = ssize s → is_object osz s o →
  object_to_link o osz ∈ sfree s.
Proof.
  intros Hosz Hok Hfull (i & Hi & ->).
  assert (free_indexes osz s ≡ₚ indexes (Z.to_nat (ssize s))) as Hperm.
  { apply submseteq_length_Permutation; [by apply free_indexes_incl|].
    unfold indexes, free_indexes. rewrite !length_fmap, length_seq, <- Hfull, (so_count _ _ Hok). lia. }
  assert (i ∈ free_indexes osz s) as Hin by (rewrite Hperm; apply indexes_elem; lia).
  apply list_elem_of_fmap in Hin as (l & El & Hl). destruct (so_free _ _ Hok l Hl) as (j & Hj & E).
  rewrite E, object_index in El by done. subst j. rewrite <- E, link_object_link. done.
Qed.

Lemma count_bounds c sid s : oc_ok c → slabs c !! sid = Some s → 0 <= scount s <= ssize s ∧ ssize s <= total_objects c.
Proof.
  intros Hok Hs. split; [apply (slab_count_bound (object_size c)); [apply Hok|by eapply oc_slab]|].
  rewrite (oc_total _ Hok). apply (msum_elem ssize _ sid); [|done].
  intros i x Hx. pose proof (so_size _ _ (oc_slab _ Hok _ _ Hx)). lia.
Qed.

Lemma used_bounds c : oc_ok c → 0 <= used_count c <= total_objects c.
Proof.
  intros Hok. rewrite (oc_used _ Hok), (oc_total _ Hok). split; [apply msum_nonneg|apply msum_mono];
    intros i x Hx; pose proof (count_bounds c i x Hok Hx); lia.
Qed.

(** One slab changes its free objects and moves to the list it belongs on. *)
Definition moved (sid : Z) (s' : slab) (c c' : ObjectCache) : Prop :=
  slabs c' = <[sid := s']> (slabs c) ∧ object_size c' = object_size c ∧ total_objects c' = total_objects c ∧
  usage c' = usage c ∧ slab_size c' = slab_size c ∧ oempty_count c' = Z.of_nat (length (oempty c')) ∧
  ∀ k, NoDup (slab_ids k c') ∧ (sid ∈ slab_ids k c' ↔ home_list s' = k) ∧
    ∀ sid', sid' ≠ sid → sid' ∈ slab_ids k c' ↔ sid' ∈ slab_ids k c.

Lemma moved_ok sid s s' c c' :
  oc_ok c → slabs c !! sid = Some s → slab_ok (object_size c) s' →
  spages s' = spages s → ssize s' = ssize s → soffset s' = soffset s → moved sid s' c c' →
  used_count c' = used_count c + scount s - scount s' → oc_ok c'.
Proof.
  intros Hok Hs Hs' Hp Hsz Hoff (HM & HO & HT & HU & HSS & HE & HL) Hused.
  assert (∀ x, is_object (object_size c) s' x ↔ is_object (object_size c) s x) as Hobj.
  { intros x. unfold is_object, object_at. by rewrite Hp, Hsz, Hoff. }
  split; rewrite ?HO, ?HT, ?HU, ?HSS, ?HM.
  - apply Hok.
  - intros sid' x [[<- <-]|[_ ?]]%lookup_insert_Some; [done|by eapply oc_slab].
  - apply HL.
  - intros k sid'. destruct (HL k) as (_ & Hin & Hother). destruct (decide (sid' = sid)) as [->|Hne].
    + rewrite Hin, lookup_insert_eq. split; [intros; by exists s'|]. intros (x & [= <-] & ?). done.
    + rewrite (Hother _ Hne), (oc_lists _ Hok), lookup_insert_ne by done. done.
  - rewrite (oc_total _ Hok), (msum_update _ _ sid s) by done. lia.
  - rewrite Hused, (oc_used _ Hok), (msum_update _ _ sid s) by done. lia.
  - done.
  - rewrite map_size_insert_Some by (by eexists). apply Hok.
  - apply Hok.
  - apply Hok.
  - intros i1 i2 x1 x2 o H1 H2 Ho1 Ho2.
    apply lookup_insert_Some in H1 as [[<- <-]|[Hn1 H1]]; apply lookup_insert_Some in H2 as [[<- <-]|[Hn2 H2]]; try done.
    + by apply (oc_disjoint _ Hok _ _ s x2 o); [..|apply Hobj|].
    + by apply (oc_disjoint _ Hok _ _ x1 s o); [..|apply Hobj].
    + by apply (oc_disjoint _ Hok _ _ x1 x2 o).
Qed.

(** ** Taking an object *)

Section proofs.
Context (sizeof_slab : Z) (small : bool).

Lemma slab_ids_increase k c : slab_ids k (increase_object_reserve c) = slab_ids k c.
Proof. unfold increase_object_reserve. destruct k; by case_match. Qed.

(** The objects that change hands when one slab's free list changes. *)
Lemma obj_alloc_changed sid s s' c c' o :
  oc_ok c → slabs c !! sid = Some s → is_object (object_size c) s o →
  slabs c' = <[sid := s']> (slabs c) → object_size c' = object_size c →
  spages s' = spages s → ssize s' = ssize s → soffset s' = soffset s →
  (∀ o', o' ≠ o → object_to_link o' (object_size c) ∈ sfree s' ↔ object_to_link o' (object_size c) ∈ sfree s) →
  (obj_alloc c o ↔ object_to_link o (object_size c) ∉ sfree s) ∧
  (obj_alloc c' o ↔ object_to_link o (object_size c) ∉ sfree s') ∧
  ∀ o', o' ≠ o → obj_alloc c' o' ↔ obj_alloc c o'.
Proof.
  intros Hok Hs Ho HM HO Hp Hsz Hoff Hfree.
  assert (∀ x, is_object (object_size c) s' x ↔ is_object (object_size c) s x) as Hobj.
  { intros x. unfold is_object, object_at. by rewrite Hp, Hsz, Hoff. }
  assert (∀ o', obj_alloc c' o' ↔ (is_object (object_size c) s o' ∧ object_to_link o' (object_size c) ∉ sfree s') ∨
    ∃ i x, i ≠ sid ∧ slabs c !! i = Some x ∧ is_object (object_size c) x o' ∧ object_to_link o' (object_size c) ∉ sfree x) as H'.
  { intros o'. unfold obj_alloc. rewrite HM, HO. split.
    - intros (i & x & [[<- <-]|[Hne Hx]]%lookup_insert_Some & Hi & Hf).
      + left. split; [by apply Hobj|done].
      + right. exists i, x. done.
    - intros [[Hi Hf]|(i & x & Hne & Hx & Hi & Hf)].
      + exists sid, s'. rewrite lookup_insert_eq. split_and!; [done|by apply Hobj|done].
      + exists i, x. by rewrite lookup_insert_ne. }
  assert (∀ o', obj_alloc c o' ↔ (is_object (object_size c) s o' ∧ object_to_link o' (object_size c) ∉ sfree s) ∨
    ∃ i x, i ≠ sid ∧ slabs c !! i = Some x ∧ is_object (object_size c) x o' ∧ object_to_link o' (object_size c) ∉ sfree x) as H.
  { intros o'. unfold obj_alloc. split.
    - intros (i & x & Hx & Hi & Hf). destruct (decide (i = sid)) as [->|]; [|right; by exists i, x].
      left. by replace x with s in * by congruence.
    - intros [[Hi Hf]|(i & x & Hne & Hx & Hi & Hf)]; [by exists sid, s|by exists i, x]. }
  assert (¬ ∃ i x, i ≠ sid ∧ slabs c !! i = Some x ∧ is_object (object_size c) x o ∧ object_to_link o (object_size c) ∉ sfree x) as Hno.
  { intros (i & x & Hne & Hx & Hi & _). apply Hne. by apply (oc_disjoint _ Hok i sid x s o). }
  split_and!.
  - rewrite H. tauto.
  - rewrite H'. tauto.
  - intros o' Hne. rewrite H, H', (Hfree o' Hne). done.
Qed.

(** [c1] is [c] with slab [sid] put on the partial list for taking an object. *)
Record staged (sid : Z) (c c1 : ObjectCache) : Prop := {
  st_slabs : slabs c1 = slabs c;
  st_osz : object_size c1 = object_size c;
  st_total : total_objects c1 = total_objects c;
  st_usage : usage c1 = usage c;
  st_ssz : slab_size c1 = slab_size c;
  st_used : used_count c1 = used_count c;
  st_ecount : oempty_count c1 = Z.of_nat (length (oempty c1));
  st_where k : sid ∈ slab_ids k c1 ↔ k = SPartial;
  st_nodup k : NoDup (slab_ids k c1);
  st_other k sid' : sid' ≠ sid → sid' ∈ slab_ids k c1 ↔ sid' ∈ slab_ids k c
}.

Lemma slab_in_list k sid s c : oc_ok c → slabs c !! sid = Some s → sid ∈ slab_ids k c ↔ home_list s = k.
Proof. intros Hok Hs. rewrite (oc_lists _ Hok), Hs. split; [by intros (? & [= <-] & ?)|by exists s]. Qed.

Lemma staged_partial sid s c : oc_ok c → slabs c !! sid = Some s → home_list s = SPartial → staged sid c c.
Proof.
  intros Hok Hs Hh. split; try done; try apply Hok. intros k. rewrite (slab_in_list k sid s) by done.
  rewrite Hh. by split.
Qed.

(** There are no more empty slabs than objects. *)
Lemma empty_bound c : oc_ok c → oempty_count c <= total_objects c.
Proof.
  intros Hok. rewrite (oc_empty _ Hok), (oc_total _ Hok).
  assert ((length (oempty c) <= length (map_to_list (slabs c)).*1)%nat) as H2.
  { apply submseteq_length, NoDup_submseteq; [apply (oc_nodup _ Hok SEmpty)|].
    intros x (s & Hx & _)%(oc_lists _ Hok SEmpty). apply list_elem_of_fmap. exists (x, s). split; [done|].
    by apply elem_of_map_to_list. }
  rewrite length_fmap, length_map_to_list in H2.
  transitivity (msum (fun _ : slab => 1) (slabs c)).
  - etrans; [apply inj_le, H2|]. clear. induction (slabs c) as [|i x m Hi IH] using map_ind; [done|].
    rewrite msum_insert, map_size_insert_None by done. lia.
  - apply msum_mono. intros i x Hx. pose proof (so_size _ _ (oc_slab _ Hok _ _ Hx)). lia.
Qed.

Lemma staged_empty sid l c :
  oc_ok c → oempty c = sid :: l →
  staged sid c (c <| oempty := l |> <| oempty_count ::= fun n => u64 (n - 1) |> <| opartial ::= fun l => l ++ [sid] |>).
Proof.
  intros Hok Hl. pose proof (oc_nodup _ Hok SEmpty) as Hne. cbn in Hne. rewrite Hl in Hne.
  apply NoDup_cons in Hne as [Hsl Hndl].
  assert (sid ∈ slab_ids SEmpty c) as Hin by (cbn; rewrite Hl; by left).
  apply (oc_lists _ Hok) in Hin as (s & Hs & Hh).
  assert (∀ k, sid ∈ slab_ids k c ↔ SEmpty = k) as Hwhere by (intros k; rewrite (slab_in_list k sid s), Hh by done; done).
  split; try done.
  - change (u64 (oempty_count c - 1) = Z.of_nat (length l)). pose proof (oc_empty _ Hok) as He. rewrite Hl in He. cbn [length] in He.
    pose proof (empty_bound c Hok). pose proof (oc_total_fits _ Hok). rewrite wrap_small; [lia|]. unfold fits. lia.
  - intros []; cbn.
    + by split.
    + rewrite elem_of_app, list_elem_of_singleton. naive_solver.
    + rewrite (Hwhere SFull). by split.
  - intros []; cbn; [done| |apply (oc_nodup _ Hok SFull)].
    apply NoDup_app. split_and!; [apply (oc_nodup _ Hok SPartial)| |apply NoDup_singleton].
    intros x Hx ->%list_elem_of_singleton. by apply (Hwhere SPartial) in Hx.
  - intros [] sid' Hne; cbn; [rewrite Hl, elem_of_cons; naive_solver|
      rewrite elem_of_app, list_elem_of_singleton; naive_solver|done].
Qed.

Lemma room_for_one c sid s : oc_ok c → slabs c !! sid = Some s → used_count c + scount s <= total_objects c.
Proof.
  intros Hok Hs. rewrite (oc_total _ Hok), (oc_used _ Hok), <- (insert_delete_id (slabs c) sid s Hs).
  rewrite !msum_insert by apply lookup_delete_eq.
  assert (msum (fun s => ssize s - scount s) (delete sid (slabs c)) <= msum ssize (delete sid (slabs c))); [|lia].
  apply msum_mono. intros i x [_ Hx]%lookup_delete_Some. pose proof (count_bounds c i x Hok Hx). lia.
Qed.

Lemma maybe_increase (b : bool) c :
  let c' := if b then increase_object_reserve c else c in
  slabs c' = slabs c ∧ object_size c' = object_size c ∧ total_objects c' = total_objects c ∧ usage c' = usage c ∧
  slab_size c' = slab_size c ∧ used_count c' = used_count c ∧ oempty_count c' = oempty_count c ∧
  ∀ k, slab_ids k c' = slab_ids k c.
Proof. unfold increase_object_reserve. repeat case_match; split_and!; try done; by intros []. Qed.

(** The slab with one object less, on the list it then belongs on. *)
Lemma take_object_ok sid s c c1 :
  oc_ok c → slabs c !! sid = Some s → 0 < scount s → staged sid c c1 →
  ∃ o c', take_object sid c1 = Ret (o, c') ∧ oc_ok c' ∧ ¬ obj_alloc c o ∧ obj_alloc c' o ∧
    ∀ o', o' ≠ o → obj_alloc c' o' ↔ obj_alloc c o'.
Proof.
  intros Hok Hs Hpos Hst. pose proof (oc_slab _ Hok _ _ Hs) as Hso. pose proof (count_bounds c sid s Hok Hs) as [Hb Ht].
  pose proof (oc_total_fits _ Hok) as Hfits. pose proof (used_bounds c Hok) as Hub. pose proof (room_for_one c sid s Hok Hs) as Hroom.
  assert (∃ link free, sfree s = link :: free) as (link & free & Hfree).
  { destruct (sfree s) as [|link free] eqn:E; [|by exists link, free]. rewrite (so_count _ _ Hso), E in Hpos. cbn in Hpos. lia. }
  set (s' := s <| sfree := free |> <| scount ::= fun n => u64 (n - 1) |>).
  assert (scount s' = scount s - 1) as Hcnt.
  { change (u64 (scount s - 1) = scount s - 1). apply wrap_small. unfold fits. lia. }
  assert (NoDup (link :: free)) as Hnd by (rewrite <- Hfree; apply Hso). apply NoDup_cons in Hnd as [Hlf Hnd].
  assert (slab_ok (object_size c) s') as Hso'.
  { split; [apply Hso| |done|].
    - rewrite Hcnt, (so_count _ _ Hso), Hfree. cbn [length]. change (sfree s') with free. lia.
    - intros l Hl. apply (so_free _ _ Hso). rewrite Hfree. by right. }
  unfold take_object. rewrite (st_slabs _ _ _ Hst), Hs. cbn [deref mbind outcome_bind]. rewrite Hfree. fold s'.
  set (c2 := c1 <| slabs ::= <[sid := s']> |> <| used_count ::= fun n => u64 (n + 1) |>).
  pose proof (maybe_increase (u64 (total_objects c2 - used_count c2) <? min_object_reserve c2) c2) as
    (HM3 & HO3 & HT3 & HU3 & HSS3 & HUC3 & HE3 & HL3). cbv zeta.
  set (c3 := if u64 (total_objects c2 - used_count c2) <? min_object_reserve c2 then increase_object_reserve c2 else c2) in *.
  assert (slabs c3 = <[sid := s']> (slabs c)) as HM by (rewrite HM3; cbn; by rewrite (st_slabs _ _ _ Hst)).
  assert (used_count c3 = used_count c + 1) as HUC.
  { rewrite HUC3. change (u64 (used_count c1 + 1) = used_count c + 1). rewrite (st_used _ _ _ Hst). apply wrap_small. unfold fits. lia. }
  assert (∀ k, slab_ids k c3 = slab_ids k c1) as HL by (intros k; rewrite HL3; by destruct k).
  set (c4 := if scount s' =? 0 then c3 <| opartial := remove_elem sid (opartial c3) |> <| ofull ::= fun l => l ++ [sid] |> else c3).
  assert ((if scount s' =? 0 then p ← list_remove sid (opartial c3);
             Ret (c3 <| opartial := p |> <| ofull ::= fun l => l ++ [sid] |>) else Ret c3) = Ret c4) as ->.
  { subst c4. destruct (scount s' =? 0); [|done]. unfold list_remove.
    rewrite (bool_decide_eq_true_2 (sid ∈ opartial c3)); [done|]. change (sid ∈ slab_ids SPartial c3).
    rewrite HL. by apply (st_where _ _ _ Hst). }
  cbn [mbind outcome_bind].
  assert (slabs c4 = slabs c3 ∧ object_size c4 = object_size c3 ∧ total_objects c4 = total_objects c3 ∧ usage c4 = usage c3 ∧
    slab_size c4 = slab_size c3 ∧ used_count c4 = used_count c3 ∧ oempty_count c4 = oempty_count c3 ∧ oempty c4 = oempty c3)
    as (E1 & E2 & E3 & E4 & E5 & E6 & E7 & E8) by (subst c4; by case_match).
  assert (object_size c4 = object_size c) as Hosz4 by (rewrite E2, HO3; apply Hst).
  assert (moved sid s' c c4) as Hmoved.
  { unfold moved. rewrite E1, HM, Hosz4, E3, E4, E5, E7, E8, HT3, HU3, HSS3, HE3. split_and!; [done|done|apply Hst|apply Hst|apply Hst| |].
    - change (oempty_count c2) with (oempty_count c1). rewrite (st_ecount _ _ _ Hst). change (oempty c3) with (slab_ids SEmpty c3).
      by rewrite HL.
    - assert (home_list s' = if scount s' =? 0 then SFull else SPartial) as Hhome.
      { unfold home_list. change (ssize s') with (ssize s). destruct (Z.eqb_spec (scount s') (ssize s)); [lia|done]. }
      intros k. rewrite Hhome. subst c4. destruct (scount s' =? 0).
      + destruct k; cbn.
        * change (oempty c3) with (slab_ids SEmpty c3). rewrite HL. split_and!; [apply Hst|by rewrite (st_where _ _ _ Hst)|apply Hst].
        * change (opartial c3) with (slab_ids SPartial c3). rewrite HL. split_and!.
          -- apply NoDup_remove_elem, Hst.
          -- rewrite elem_of_remove. naive_solver.
          -- intros sid' Hne. rewrite elem_of_remove, (st_other _ _ _ Hst) by done. naive_solver.
        * change (ofull c3) with (slab_ids SFull c3). rewrite HL. split_and!.
          -- apply NoDup_app. split_and!; [apply Hst| |apply NoDup_singleton].
             intros x Hx ->%list_elem_of_singleton. by apply (st_where _ _ _ Hst) in Hx.
          -- rewrite elem_of_app, list_elem_of_singleton. naive_solver.
          -- intros sid' Hne. rewrite elem_of_app, list_elem_of_singleton, (st_other _ _ _ Hst) by done. naive_solver.
      + rewrite HL. split_and!; [apply Hst|rewrite (st_where _ _ _ Hst); naive_solver|apply Hst]. }
  set (o := link_to_object link (object_size c)).
  assert (link ∈ sfree s) as Hlink by (rewrite Hfree; by left).
  destruct (obj_alloc_changed sid s s' c c4 o Hok Hs (so_free _ _ Hso link Hlink)) as (A1 & A2 & A3); try done.
  { by rewrite E1. }
  { intros o' Hne. rewrite Hfree, elem_of_cons. change (sfree s') with free. split; [by right|]. intros [He|]; [|done].
    destruct Hne. subst o. rewrite <- He. by rewrite object_link_object. }
  exists o, c4. rewrite Hosz4. split_and!; try done.
  - apply (moved_ok sid s s' c c4); try done. rewrite E6, HUC. lia.
  - rewrite A1. unfold o. rewrite link_object_link. tauto.
  - rewrite A2. unfold o. by rewrite link_object_link.
Qed.

(** ** Adding slabs *)

Lemma init_objects_spec ctor osz n : ∀ data built free f,
  init_objects ctor n data osz built free = inr f →
  f = reverse ((fun i => object_to_link (data + Z.of_nat i * osz) osz) <$> seq 0 n) ++ free.
Proof.
  induction n as [|n IH]; intros data built free f; cbn [init_objects]; [by intros [= <-]|].
  destruct (ctor data); [|done]. intros Hf%IH. rewrite Hf. rewrite <- cons_seq, <- fmap_S_seq, fmap_cons, <- list_fmap_compose.
  rewrite reverse_cons, <- app_assoc. cbn [app].
  f_equal; [|f_equal; f_equal; lia]. f_equal. apply list_fmap_ext. intros i x _. cbn. f_equal. lia.
Qed.

(** The slab [InitSlab] makes of the pages. *)
Definition new_slab (pages byteCount : Z) (c : ObjectCache) : slab :=
  mkSlab pages (byteCount / object_size c) (byteCount / object_size c) (cache_color_cycle c)
    (reverse ((fun i => object_to_link (pages + cache_color_cycle c + Z.of_nat i * object_size c) (object_size c)) <$>
       seq 0 (Z.to_nat (byteCount / object_size c)))).

(** Room for the slab: its structure and its objects are used by no other. *)
Record slab_fits (sid pages byteCount : Z) (c : ObjectCache) : Prop := {
  sf_new : slabs c !! sid = None;
  sf_size : 0 < byteCount / object_size c;
  sf_total : total_objects c + byteCount / object_size c < 2 ^ 64;
  sf_usage : usage c + slab_size c < 2 ^ 64;
  sf_objects i s o : slabs c !! i = Some s → is_object (object_size c) s o →
    ¬ is_object (object_size c) (new_slab pages byteCount c) o
}.

Lemma new_slab_ok pages byteCount c :
  0 < object_size c → 0 < byteCount / object_size c → slab_ok (object_size c) (new_slab pages byteCount c).
Proof.
  intros Hosz Hsz. split; cbn; [done| | |].
  - rewrite length_reverse, length_fmap, length_seq. lia.
  - rewrite reverse_Permutation. apply NoDup_fmap_2; [|apply NoDup_seq].
    intros i j He. unfold object_to_link in He. nia.
  - intros l (i & -> & [_ Hi]%elem_of_seq)%elem_of_reverse%list_elem_of_fmap. exists (Z.of_nat i). cbn.
    split; [lia|]. rewrite object_link_object. unfold object_at. cbn. done.
Qed.

Lemma InitSlab_ok ctor sid pages byteCount c c' :
  InitSlab ctor sid pages byteCount c = (true, c') →
  ∃ cycle, c' = c <| cache_color_cycle := cycle |> <| slabs ::= <[sid := new_slab pages byteCount c]> |>.
Proof.
  unfold InitSlab. set (cycle := if _ <? _ then 0 else _).
  change (object_size (c <| cache_color_cycle := cycle |>)) with (object_size c).
  destruct (init_objects _ _ _ _ _ _) as [b|f] eqn:E; [done|]. intros [= <-].
  apply init_objects_spec in E. rewrite app_nil_r in E. exists cycle. unfold new_slab. by rewrite <- E.
Qed.

Lemma oc_ok_ext c c' :
  oc_ok c → object_size c' = object_size c → slabs c' = slabs c → (∀ k, slab_ids k c' = slab_ids k c) →
  total_objects c' = total_objects c → used_count c' = used_count c → oempty_count c' = oempty_count c →
  usage c' = usage c → slab_size c' = slab_size c → oc_ok c' ∧ ∀ o, obj_alloc c' o ↔ obj_alloc c o.
Proof.
  intros Hok H1 H2 H3 H4 H5 H6 H7 H8. split.
  - assert (oempty c' = oempty c) as H9 by apply (H3 SEmpty).
    split; rewrite ?H1, ?H2, ?H4, ?H5, ?H6, ?H7, ?H8, ?H9; try apply Hok.
    + intros k. rewrite H3. apply Hok.
    + intros k sid. rewrite H3. apply Hok.
  - intros o. unfold obj_alloc. by rewrite H1, H2.
Qed.

Lemma home_new pages byteCount c : home_list (new_slab pages byteCount c) = SEmpty.
Proof. unfold home_list. cbn. by rewrite Z.eqb_refl. Qed.

(** The cache with the slab added and accounted for. *)
Lemma account_slab_ok sid pages byteCount c c1 :
  oc_ok c → slab_fits sid pages byteCount c →
  (∃ cycle tbl, c1 = c <| cache_color_cycle := cycle |> <| slabs ::= <[sid := new_slab pages byteCount c]> |> <| hash_table := tbl |>) →
  oc_ok (account_slab sid (new_slab pages byteCount c) c1) ∧
  ∀ o, obj_alloc (account_slab sid (new_slab pages byteCount c) c1) o ↔ obj_alloc c o.
Proof.
  intros Hok Hfit (cycle & tbl & ->). set (s := new_slab pages byteCount c) in *.
  set (c' := account_slab sid s _).
  pose proof (new_slab_ok pages byteCount c (oc_osz _ Hok) (sf_size _ _ _ _ Hfit)) as Hso. fold s in Hso.
  pose proof (sf_new _ _ _ _ Hfit) as Hnew.
  assert (slabs c' = <[sid := s]> (slabs c)) as HM by done.
  assert (total_objects c' = total_objects c + ssize s) as HT.
  { change (u64 (total_objects c + ssize s) = total_objects c + ssize s). apply wrap_small.
    pose proof (sf_total _ _ _ _ Hfit). pose proof (used_bounds c Hok). unfold fits. pose proof (so_size _ _ Hso). cbn in *. lia. }
  assert (0 <= usage c) as Hus by (rewrite (oc_usage _ Hok); pose proof (proj1 (oc_usage_fits _ Hok)); nia).
  assert (usage c' = usage c + slab_size c) as HU.
  { change (u64 (usage c + slab_size c) = usage c + slab_size c). apply wrap_small.
    pose proof (sf_usage _ _ _ _ Hfit). pose proof (proj1 (oc_usage_fits _ Hok)). unfold fits. lia. }
  assert (oempty_count c' = oempty_count c + 1) as HE.
  { change (u64 (oempty_count c + 1) = oempty_count c + 1). apply wrap_small. pose proof (empty_bound c Hok).
    pose proof (oc_empty _ Hok). pose proof (sf_total _ _ _ _ Hfit). pose proof (sf_size _ _ _ _ Hfit). unfold fits. lia. }
  assert (∀ k, sid ∉ slab_ids k c) as Hnot.
  { intros k (x & Hx & _)%(oc_lists _ Hok). congruence. }
  assert (∀ k, slab_ids k c' = if decide (k = SEmpty) then oempty c ++ [sid] else slab_ids k c) as HL by by intros [].
  split; [split|].
  - apply Hok.
  - intros i x. rewrite HM. intros [[<- <-]|[_ ?]]%lookup_insert_Some; [done|by eapply (oc_slab c)].
  - intros k. rewrite HL. case_decide; [|apply Hok]. apply NoDup_app. split_and!; [apply (oc_nodup _ Hok SEmpty)| |apply NoDup_singleton].
    intros x Hx ->%list_elem_of_singleton. by apply (Hnot SEmpty).
  - intros k i. rewrite HL, HM. destruct (decide (i = sid)) as [->|Hne].
    + rewrite lookup_insert_eq. case_decide as Hk.
      * subst k. split; [intros _; exists s; split; [done|apply home_new]|]. intros _. apply elem_of_app. right. by left.
      * split; [by intros ?%Hnot|]. intros (x & [= <-] & Hx). unfold s in Hx. rewrite home_new in Hx. congruence.
    + rewrite lookup_insert_ne by done. rewrite <- (oc_lists _ Hok). case_decide as Hk; [|done]. subst k.
      rewrite elem_of_app, list_elem_of_singleton. cbn. naive_solver.
  - rewrite HT, HM, msum_insert, (oc_total _ Hok) by done. lia.
  - change (used_count c') with (used_count c). rewrite HM, msum_insert, (oc_used _ Hok) by done. cbn. lia.
  - rewrite HE, (oc_empty _ Hok). change (oempty c') with (oempty c ++ [sid]). rewrite length_app. cbn. lia.
  - change (slab_size c') with (slab_size c). rewrite HU, HM, map_size_insert_None, (oc_usage _ Hok) by done. lia.
  - rewrite HT. apply (sf_total _ _ _ _ Hfit).
  - change (slab_size c') with (slab_size c). rewrite HU. split; [apply Hok|apply (sf_usage _ _ _ _ Hfit)].
  - intros i1 i2 x1 x2 o H1 H2 Ho1 Ho2. change (object_size c') with (object_size c) in *. rewrite HM in H1, H2.
    apply lookup_insert_Some in H1 as [[<- <-]|[Hn1 H1]]; apply lookup_insert_Some in H2 as [[<- <-]|[Hn2 H2]]; try done.
    + exfalso. by eapply (sf_objects _ _ _ _ Hfit).
    + exfalso. by eapply (sf_objects _ _ _ _ Hfit).
    + by apply (oc_disjoint _ Hok _ _ x1 x2 o).
  - intros o. unfold obj_alloc. change (object_size c') with (object_size c). rewrite HM. split.
    + intros (i & x & [[<- <-]|[_ Hx]]%lookup_insert_Some & Hi & Hf); [|by exists i, x].
      exfalso. apply Hf. destruct Hi as (k & Hk & ->). cbn. apply elem_of_reverse, list_elem_of_fmap.
      exists (Z.to_nat k). cbn in Hk. rewrite elem_of_seq. split; [|lia]. unfold object_at. rewrite Z2Nat.id by lia. done.
    + intros (i & x & Hx & Hi & Hf). exists i, x. rewrite lookup_insert_ne; [done|]. congruence.
Qed.

(** ** Reserving and allocating with other threads around

    What other threads do in the windows of one run: they keep the invariant,
    and the memory the memory manager returns is used by no other slab. *)
Fixpoint waits_ok (waits : list (ObjectCache → ObjectCache)) (c : ObjectCache) : Prop :=
  match waits with [] => True | w :: waits => oc_ok (w c) ∧ waits_ok waits (w c) end.

(** A slab that is there but not counted yet. *)
Definition created (sid : Z) (s : slab) (c : ObjectCache) : Prop :=
  slabs c !! sid = Some s ∧ oc_ok (account_slab sid s c).

Definition creation_ok (r : creation) (c : ObjectCache) : Prop :=
  let c' := cr_others r c in
  oc_ok c' ∧ (∀ c2, oc_ok c2 → oc_ok (cr_later r c2)) ∧
  (∀ sid s c2, created sid s c2 → created sid s (cr_later r c2)) ∧
  ∀ pages, cr_pages r = Some pages →
    if small then slab_fits (slab_in_pages sizeof_slab pages (slab_size c')) pages (slab_size c' - sizeof_slab) c'
    else ∀ sid, cr_slab r = Some sid → slab_fits sid pages (slab_size c') c'.

Fixpoint creations_ok (rs : list creation) (c : ObjectCache) : Prop :=
  match rs with
  | [] => True
  | r :: rs =>
      creation_ok r c ∧
      ∀ sid freed c' s, CreateSlab sizeof_slab small r c = (Some sid, freed, c') → slabs c' !! sid = Some s →
        creations_ok rs (account_slab sid s c')
  end.

(** *** How the cache changes meanwhile *)

(** A step of the thread itself: no object changes hands. *)
Definition own_step (c c' : ObjectCache) : Prop :=
  maximum c' = maximum c ∧ slab_size c' = slab_size c ∧ object_size c' = object_size c ∧
  ∀ o, obj_alloc c' o ↔ obj_alloc c o.

(** From [c] to [c'] by steps of the thread itself and of other threads in
    windows [W]. *)
Definition reaches (W : (ObjectCache → ObjectCache) → Prop) : ObjectCache → ObjectCache → Prop :=
  rtc (fun c c' => own_step c c' ∨ ∃ f, W f ∧ c' = f c).

(** The thread (some thread) is registered as the one that adds slabs; other
    threads never register it. *)
Definition registered (me : Z) (c : ObjectCache) : Prop :=
  resize_entry_can_wait c = Some me ∨ resize_entry_dont_wait c = Some me.
Definition registered_any (c : ObjectCache) : Prop :=
  is_Some (resize_entry_can_wait c) ∨ is_Some (resize_entry_dont_wait c).
Definition entries_from (me : Z) (c c' : ObjectCache) : Prop :=
  (resize_entry_can_wait c' = Some me → resize_entry_can_wait c = Some me) ∧
  (resize_entry_dont_wait c' = Some me → resize_entry_dont_wait c = Some me).
Definition foreign (me : Z) (f : ObjectCache → ObjectCache) : Prop := ∀ c, entries_from me c (f c).

(** The windows of one run of [object_cache_alloc]. *)
Definition creation_window (rs : list creation) (f : ObjectCache → ObjectCache) : Prop :=
  ∃ r, r ∈ rs ∧ (f = cr_others r ∨ f = cr_later r).
Definition env_window (env : list (list (ObjectCache → ObjectCache) * list creation)) (f : ObjectCache → ObjectCache) : Prop :=
  ∃ waits rs, (waits, rs) ∈ env ∧ (f ∈ waits ∨ creation_window rs f).

(** Why [CreateSlab] makes no slab: the quota of the cache, no memory for the
    pages or for the slab structure, or a constructor that fails. *)
Definition cannot_add (r : creation) (c : ObjectCache) : Prop :=
  check_cache_quota c = false ∨ cr_pages r = None ∨ (small = false ∧ cr_slab r = None) ∨
  let c1 := cr_others r c in
  ∃ pages o, cr_pages r = Some pages ∧ cr_ctor r o = false ∧
    is_object (object_size c1) (new_slab pages (if small then slab_size c1 - sizeof_slab else slab_size c1) c1) o.

Lemma own_refl c : own_step c c.
Proof. by split_and!. Qed.

Lemma reaches_own W c c' : own_step c c' → reaches W c c'.
Proof. intros H. apply rtc_once. by left. Qed.

Lemma reaches_window (W : (ObjectCache → ObjectCache) → Prop) f c : W f → reaches W c (f c).
Proof. intros H. apply rtc_once. right. by exists f. Qed.

Lemma own_set_entry fl e c : own_step c (set_resize_entry fl e c).
Proof. unfold set_resize_entry. destruct (DONT_WAIT_FOR_MEMORY fl); by split_and!. Qed.

Lemma entries_refl me c : entries_from me c c.
Proof. by split. Qed.

Lemma entries_trans me c1 c2 c3 : entries_from me c1 c2 → entries_from me c2 c3 → entries_from me c1 c3.
Proof. unfold entries_from. tauto. Qed.

Lemma entries_set_none me fl c c' : entries_from me c c' →
  entries_from me (set_resize_entry fl None c) (set_resize_entry fl None c').
Proof. intros [H1 H2]. unfold set_resize_entry. by destruct (DONT_WAIT_FOR_MEMORY fl). Qed.

Lemma entries_cleared me fl e c : entries_from me c (set_resize_entry fl None (set_resize_entry fl e c)).
Proof. unfold set_resize_entry. by destruct (DONT_WAIT_FOR_MEMORY fl). Qed.

Lemma registered_from me c c' : entries_from me c c' → registered me c' → registered me c.
Proof. unfold entries_from, registered. tauto. Qed.

Lemma init_objects_fail ctor osz n : ∀ data built free b,
  init_objects ctor n data osz built free = inl b → ∃ i, 0 <= i < Z.of_nat n ∧ ctor (data + i * osz) = false.
Proof.
  induction n as [|n IH]; intros data built free b; cbn [init_objects]; [done|].
  destruct (ctor data) eqn:E.
  - intros (i & Hi & Hf)%IH. exists (i + 1). split; [lia|]. by replace (data + (i + 1) * osz) with (data + osz + i * osz) by lia.
  - intros _. exists 0. split; [lia|]. by replace (data + 0 * osz) with data by lia.
Qed.

(** The two results of [InitSlab]. *)
Lemma InitSlab_result ctor sid pages byteCount c ok c' :
  oc_ok c → slab_fits sid pages byteCount c → InitSlab ctor sid pages byteCount c = (ok, c') →
  own_step c c' ∧ (∀ me, entries_from me c c') ∧
  if ok : bool then ∀ tbl, ∃ s, created sid s (c' <| hash_table := tbl |>)
  else oc_ok c' ∧ ∃ o, ctor o = false ∧ is_object (object_size c) (new_slab pages byteCount c) o.
Proof.
  intros Hok Hfit E. destruct ok.
  - apply InitSlab_ok in E as (cycle & ->).
    set (c' := c <| cache_color_cycle := cycle |> <| slabs ::= <[sid := new_slab pages byteCount c]> |>).
    assert (∀ tbl : gmap Z Z, oc_ok (account_slab sid (new_slab pages byteCount c) (c' <| hash_table := tbl |>)) ∧
      ∀ o, obj_alloc (account_slab sid (new_slab pages byteCount c) (c' <| hash_table := tbl |>)) o ↔ obj_alloc c o) as Hacc
      by (intros tbl; eapply (account_slab_ok sid pages byteCount c); [done|done|by exists cycle, tbl]).
    split_and!; try done; [split_and!; try done; apply (Hacc (hash_table c))|]. intros tbl. exists (new_slab pages byteCount c).
    split; [apply lookup_insert_eq|apply Hacc].
  - unfold InitSlab in E. destruct (init_objects _ _ _ _ _ _) as [b|] eqn:Ei; [|done]. injection E as <-.
    split_and!; try done. { by apply (oc_ok_ext c). }
    apply init_objects_fail in Ei as (i & Hi & Hf). eexists. split; [exact Hf|]. exists i. split; [|done].
    cbn. pose proof (sf_size _ _ _ _ Hfit). lia.
Qed.

Section traces.
Context (me : Z) (W : (ObjectCache → ObjectCache) → Prop) (HW : ∀ f, W f → foreign me f).
#[local] Set Default Proof Using "Type*".

Lemma create_slab_ok r c sid freed c' :
  oc_ok c → creation_ok r c → W (cr_others r) → W (cr_later r) → CreateSlab sizeof_slab small r c = (sid, freed, c') →
  reaches W c c' ∧ entries_from me c c' ∧
  match sid with
  | None => oc_ok c' ∧ cannot_add r c
  | Some sid => ∃ s, created sid s c'
  end.
Proof.
  intros Hok (Hok1 & Hkeep & Hcr & Hpages) Ho Hl. unfold CreateSlab, SmallCreateSlab, HashedCreateSlab, cannot_add.
  destruct (check_cache_quota c) eqn:Hq; cbn [negb].
  2:{ destruct small; intros [= <- <- <-]; split_and!; try done; try apply reaches_own, own_refl; by left. }
  pose proof (HW _ Ho c) as Hen. pose proof (reaches_window W _ c Ho) as Hbt.
  set (c1 := cr_others r c) in *.
  destruct small.
  - destruct (cr_pages r) as [pages|] eqn:Hp; [|intros [= <- <- <-]; split_and!; try done; by right; left].
    destruct (InitSlab _ _ _ _ _) as [ok c2] eqn:E. intros [= <- <- <-].
    destruct (InitSlab_result _ _ _ _ _ _ _ Hok1 (Hpages pages eq_refl) E) as (Hown & Hent & Hres).
    split_and!; [etrans; [done|by apply reaches_own]|by eapply entries_trans|]. destruct ok.
    + destruct (Hres (hash_table c2)) as (s & Hs). exists s. by destruct c2.
    + destruct Hres as (? & o & ? & ?). split; [done|]. right; right; right. by exists pages, o.
  - destruct (cr_slab r) as [i|] eqn:Hi.
    2:{ intros [= <- <- <-]; split_and!; try done. by right; right; left. }
    destruct (cr_pages r) as [pages|] eqn:Hp; [|intros [= <- <- <-]; split_and!; try done; by right; left].
    destruct (InitSlab _ _ _ _ _) as [ok c2] eqn:E.
    destruct (InitSlab_result _ _ _ _ _ _ _ Hok1 (Hpages pages eq_refl i eq_refl) E) as (Hown & Hent & Hres).
    destruct ok; intros [= <- <- <-].
    + set (c3 := c2 <| hash_table ::= <[pages := i]> |>).
      assert (own_step c1 c3) as Hown3 by done. assert (entries_from me c1 c3) as Hent3 by apply (Hent me).
      split_and!.
      * etrans; [done|]. etrans; [by apply reaches_own|by apply reaches_window].
      * eapply entries_trans; [done|]. eapply entries_trans; [done|by apply HW].
      * destruct (Hres (<[pages := i]> (hash_table c2))) as (s & Hs). exists s. by apply Hcr.
    + destruct Hres as (? & o & ? & ?). split_and!.
      * etrans; [done|]. etrans; [by apply reaches_own|by apply reaches_window].
      * eapply entries_trans; [done|]. eapply entries_trans; [done|by apply HW].
      * by apply Hkeep.
      * right; right; right. by exists pages, o.
Qed.

Lemma set_resize_entry_ok fl e c : oc_ok c → oc_ok (set_resize_entry fl e c).
Proof. intros Hok. unfold set_resize_entry. case_match; by apply (oc_ok_ext c). Qed.

(** The reason a run fails for want of a slab. *)
Definition no_slab (rs : list creation) (c : ObjectCache) : Prop :=
  ∃ r c1, r ∈ rs ∧ reaches W c c1 ∧ cannot_add r c1.

Lemma no_slab_from rs rs' c c' : rs ⊆ rs' → reaches W c c' → no_slab rs c' → no_slab rs' c.
Proof. intros Hsub Hb (r & c1 & Hr & Hb1 & Hc). exists r, c1. split_and!; [by apply Hsub|by etrans|done]. Qed.

Lemma add_slabs_ok n fl rs : ∀ c, oc_ok c → creations_ok rs c → (∀ f, creation_window rs f → W f) →
  match add_slabs sizeof_slab small n fl rs c with
  | Ret (st, c') => oc_ok c' ∧ reaches W c c' ∧ entries_from me (set_resize_entry fl None c) c' ∧
      (st = Ok ∨ no_slab rs c)
  | NoFuel => True
  | Panic => False
  end.
Proof.
  assert (∀ c, oc_ok c → oc_ok (set_resize_entry fl None c) ∧ reaches W c (set_resize_entry fl None c) ∧
    entries_from me (set_resize_entry fl None c) (set_resize_entry fl None c)) as Hend.
  { intros c Hok. split_and!; [by apply set_resize_entry_ok|apply reaches_own, own_set_entry|apply entries_refl..]. }
  induction rs as [|r rs IH]; intros c Hok Hrs Hwin; cbn [add_slabs].
  - destruct (_ <? _); [done|]. destruct (Hend c Hok) as (? & ? & ?). split_and!; try done. by left.
  - destruct (_ <? _). 2:{ destruct (Hend c Hok) as (? & ? & ?). split_and!; try done. by left. }
    destruct Hrs as [Hr Hrs].
    destruct (CreateSlab _ _ r c) as [[sid freed] c'] eqn:E.
    assert (r ∈ r :: rs) as Hin by by left.
    destruct (create_slab_ok r c sid freed c' Hok Hr) as (Hb & Hent & Hc);
      [apply Hwin; exists r; by split; [|left]|apply Hwin; exists r; by split; [|right]|done|].
    destruct sid as [sid|].
    + destruct Hc as (s & Hs & Hok'). rewrite Hs. cbn [deref mbind outcome_bind].
      specialize (IH (account_slab sid s c') Hok' (Hrs _ _ _ _ eq_refl Hs)).
      assert (reaches W c (account_slab sid s c')) as Hb2 by (etrans; [exact Hb|]; by apply reaches_own).
      assert (∀ f, creation_window rs f → W f) as Hwin'.
      { intros f (r' & ? & ?); apply Hwin; exists r'; split; [by right|done]. }
      destruct (add_slabs _ _ _ _ rs _) as [[st c2]| |]; [|by apply IH..].
      destruct (IH Hwin') as (Hok2 & Hb3 & Hent2 & Hst).
      split_and!; [done|by etrans| |].
      * eapply entries_trans; [|exact Hent2]. apply entries_set_none. exact Hent.
      * destruct Hst as [?|Hst]; [by left|right]. eapply no_slab_from; [|done|done]. by intros x; right.
    + destruct Hc as [Hok' Hca]. destruct (Hend c' Hok') as (? & ? & ?).
      split_and!; [done|by etrans|by apply entries_set_none|]. right. exists r, c. split_and!; try done.
Qed.

Lemma wait_resize_ok n fl waits : ∀ c, oc_ok c → waits_ok waits c → (∀ f, f ∈ waits → W f) →
  match wait_resize me n fl waits c with
  | Ret (st, c') => oc_ok c' ∧ reaches W c c' ∧ entries_from me c c' ∧
      match st with Some (Err _) => registered me c' | _ => True end
  | NoFuel => True
  | Panic => False
  end.
Proof.
  assert (∀ c, reaches W c c) as Hrefl by (intros; apply reaches_own, own_refl).
  assert (∀ w ws c, (∀ f, f ∈ w :: ws → W f) → reaches W c (w c) ∧ entries_from me c (w c) ∧ (∀ f, f ∈ ws → W f)) as Hstep.
  { intros w ws c Hall. assert (W w) by (apply Hall; by left).
    split_and!; [by apply reaches_window|by apply HW|]. intros f Hf. apply Hall. by right. }
  induction waits as [|w waits IH]; intros c Hok Hw Hwin; cbn [wait_resize]; (destruct (_ <=? _); [done|]).
  - destruct (resize_entry_dont_wait c) as [t|] eqn:E1, (resize_entry_can_wait c) as [t'|] eqn:E2;
      try (destruct (_ =? me) eqn:E; [apply Z.eqb_eq in E as ->|]); try destruct (DONT_WAIT_FOR_MEMORY fl); try done;
      (split; [done|]; split; [done|]; split; [done|]); first [by left|by right].
  - destruct (Hstep w waits c Hwin) as (Hb & Hent & Hrest). destruct Hw as [Hok' Hw].
    specialize (IH (w c) Hok' Hw Hrest).
    assert (match wait_resize me n fl waits (w c) with
      | Ret (st, c') => oc_ok c' ∧ reaches W c c' ∧ entries_from me c c' ∧
          match st with Some (Err _) => registered me c' | _ => True end
      | NoFuel => True | Panic => False end) as Hrec.
    { destruct (wait_resize _ _ _ _ (w c)) as [[st c']| |]; [|done..]. destruct IH as (? & ? & ? & ?).
      split_and!; [done|by etrans|by eapply entries_trans|done]. }
    clear IH. destruct (resize_entry_dont_wait c) as [t|] eqn:E1, (resize_entry_can_wait c) as [t'|] eqn:E2;
      try (destruct (_ =? me) eqn:E; [apply Z.eqb_eq in E as ->|]); try destruct (DONT_WAIT_FOR_MEMORY fl); try done;
      (split; [done|]; split; [done|]; split; [done|]); first [by left|by right].
Qed.

Lemma reserve_internal_ok n fl waits rs c :
  oc_ok c → waits_ok waits c → (∀ f, f ∈ waits ∨ creation_window rs f → W f) →
  (∀ c1, wait_resize me n fl waits c = Ret (None, c1) → creations_ok rs (set_resize_entry fl (Some me) c1)) →
  match object_cache_reserve_internal sizeof_slab small me n fl waits rs c with
  | Ret (st, c') => oc_ok c' ∧ reaches W c c' ∧ entries_from me c c' ∧ (st = Ok ∨ registered me c ∨ no_slab rs c)
  | NoFuel => True
  | Panic => False
  end.
Proof.
  intros Hok Hw Hwin Hrs. unfold object_cache_reserve_internal.
  pose proof (wait_resize_ok n fl waits c Hok Hw (fun f Hf => Hwin f (or_introl Hf))) as Hwait.
  destruct (wait_resize me n fl waits c) as [[[st|] c1]| |]; cbn [mbind outcome_bind]; try done;
    destruct Hwait as (Hok1 & Hb1 & Hent1 & Hst).
  { split_and!; try done. destruct st; [by left|]. right; left. by eapply registered_from. }
  assert (reaches W c (set_resize_entry fl (Some me) c1)) as Hb2 by (etrans; [done|apply reaches_own, own_set_entry]).
  pose proof (add_slabs_ok n fl rs _ (set_resize_entry_ok fl (Some me) c1 Hok1) (Hrs c1 eq_refl)
    (fun f Hf => Hwin f (or_intror Hf))) as Hadd.
  destruct (add_slabs _ _ _ _ _ _) as [[st c2]| |]; try done. destruct Hadd as (Hok2 & Hb3 & Hent2 & Hst2).
  split_and!; [done|by etrans| |].
  - eapply entries_trans; [done|]. eapply entries_trans; [apply entries_cleared|done].
  - destruct Hst2 as [?|Hst2]; [by left|right; right]. by eapply no_slab_from.
Qed.
End traces.

Fixpoint env_ok (me : Z) (fl : flags) (env : list (list (ObjectCache → ObjectCache) * list creation)) (c : ObjectCache) : Prop :=
  match env with
  | [] => True
  | (waits, rs) :: env =>
      waits_ok waits c ∧
      (∀ c1, wait_resize me 1 fl waits c = Ret (None, c1) → creations_ok rs (set_resize_entry fl (Some me) c1)) ∧
      ∀ c2, object_cache_reserve_internal sizeof_slab small me 1 fl waits rs c = Ret (Ok, c2) →
        env_ok me fl env (c2 <| pressure ::= fun n => u64 (n + 1) |>)
  end.

Definition creations (env : list (list (ObjectCache → ObjectCache) * list creation)) : list creation := env.*2 ≫= id.

(** The slab [find_slab] delivers has a free object. *)
Lemma find_slab_ok me W fl (HW : ∀ f, W f → foreign me f) env : ∀ c, oc_ok c → env_ok me fl env c → (∀ f, env_window env f → W f) →
  match find_slab sizeof_slab small me fl env c with
  | Ret (Some sid, c1) => ∃ c0 s, oc_ok c0 ∧ slabs c0 !! sid = Some s ∧ 0 < scount s ∧ staged sid c0 c1 ∧
      (opartial c ≠ [] ∨ oempty c ≠ [] → c0 = c) ∧ reaches W c c0
  | Ret (None, c') => oc_ok c' ∧ reaches W c c' ∧ opartial c = [] ∧ oempty c = [] ∧
      (registered me c ∨ no_slab W (creations env) c)
  | NoFuel => opartial c = [] ∧ oempty c = []
  | Panic => False
  end.
Proof.
  assert (∀ c, reaches W c c) as Hrefl by (intros; apply reaches_own, own_refl).
  induction env as [|[waits rs] env IH]; intros c Hok Henv Hwin; cbn [find_slab];
    (destruct (opartial c) as [|sid l] eqn:Hp; [destruct (oempty c) as [|sid l] eqn:He|]).
  1, 4: idtac.
  all: try (assert (sid ∈ slab_ids SEmpty c) as Hin by (cbn; rewrite He; by left);
    apply (oc_lists _ Hok) in Hin as (s & Hs & Hh); exists c, s; split_and!; try done;
    [pose proof (so_size _ _ (oc_slab _ Hok _ _ Hs)); unfold home_list in Hh; repeat case_match; breflect; (lia || done)
    |pose proof (staged_empty sid l c Hok He) as Hst; destruct c; cbn in *; by subst]).
  all: try (assert (sid ∈ slab_ids SPartial c) as Hin by (cbn; rewrite Hp; by left);
    apply (oc_lists _ Hok) in Hin as (s & Hs & Hh); exists c, s; split_and!; try done;
    [pose proof (count_bounds c sid s Hok Hs); unfold home_list in Hh; repeat case_match; breflect; (lia || done)
    |by eapply staged_partial]).
  - done.
  - destruct Henv as (Hw & Hrs & Henv).
    pose proof (reserve_internal_ok me W HW 1 fl waits rs c Hok Hw) as Hres.
    destruct (object_cache_reserve_internal _ _ _ _ _ _ _ c) as [[st c2]| |] eqn:E; cbn [mbind outcome_bind]; try done.
    2:{ apply Hres; [|done]. intros f Hf. apply Hwin. exists waits, rs. by split; [left|]. }
    destruct Hres as (Hok2 & Hb2 & Hent & Hst); [|done|].
    { intros f Hf. apply Hwin. exists waits, rs. by split; [left|]. }
    assert (rs ⊆ creations ((waits, rs) :: env)) as Hsub1 by (intros r' ?; apply elem_of_app; by left).
    assert (creations env ⊆ creations ((waits, rs) :: env)) as Hsub2 by (intros r' ?; apply elem_of_app; by right).
    destruct st as [|e].
    2:{ split_and!; try done. destruct Hst as [?|[?|?]]; [done|by left|right]. by apply (no_slab_from me W HW rs _ c c). }
    set (c3 := c2 <| pressure ::= fun n => u64 (n + 1) |>).
    assert (reaches W c c3) as Hb3 by (etrans; [exact Hb2|]; by apply reaches_own).
    assert (oc_ok c3) as Hok3 by by apply (oc_ok_ext c2).
    assert (∀ f, env_window env f → W f) as Hwin'.
    { intros f (ws & rs' & ? & ?). apply Hwin. exists ws, rs'. split; [by right|done]. }
    specialize (IH c3 Hok3 (Henv c2 eq_refl) Hwin'). fold c3. destruct (find_slab _ _ _ _ env c3) as [[[sid|] c4]| |]; [..|done].
    + destruct IH as (c0 & s & ? & ? & ? & ? & _ & Hb). exists c0, s. split_and!; try done; [tauto|by etrans].
    + destruct IH as (? & ? & _ & _ & Hreason). split_and!; [done|by etrans|done|done|].
      destruct Hreason as [Hreg|Hno]; [left; by eapply registered_from|right; by apply (no_slab_from me W HW (creations env) _ c c3)].
    + done.
Qed.

Lemma alloc_from_slabs_ok me W fl env c :
  oc_ok c → env_ok me fl env c → (∀ f, W f → foreign me f) → (∀ f, env_window env f → W f) →
  match alloc_from_slabs sizeof_slab small me fl env c with
  | Ret (Some o, c') => oc_ok c' ∧ ∃ c0, reaches W c c0 ∧ oc_ok c0 ∧ (opartial c ≠ [] ∨ oempty c ≠ [] → c0 = c) ∧
      ¬ obj_alloc c0 o ∧ obj_alloc c' o ∧ ∀ o', o' ≠ o → obj_alloc c' o' ↔ obj_alloc c0 o'
  | Ret (None, c') => oc_ok c' ∧ reaches W c c' ∧ opartial c = [] ∧ oempty c = [] ∧
      (registered me c ∨ no_slab W (creations env) c)
  | NoFuel => opartial c = [] ∧ oempty c = []
  | Panic => False
  end.
Proof.
  intros Hok Henv HW Hwin. unfold alloc_from_slabs. pose proof (find_slab_ok me W fl HW env c Hok Henv Hwin) as Hf.
  destruct (find_slab _ _ _ _ _ c) as [[[sid|] c1]| |]; cbn [mbind outcome_bind]; try done.
  destruct Hf as (c0 & s & Hok0 & Hs & Hpos & Hst & Hc0 & Hb).
  destruct (take_object_ok sid s c0 c1 Hok0 Hs Hpos Hst) as (o & c' & -> & Hok' & H1 & H2 & H3).
  cbn [mbind outcome_bind]. split; [done|]. by exists c0.
Qed.

(** *** Undisturbed allocation *)

(** With neither partial nor unused slabs, all objects are handed out. *)
Lemma all_handed_out c : oc_ok c → opartial c = [] → oempty c = [] → total_objects c = used_count c.
Proof.
  intros Hok Hp He. rewrite (oc_total _ Hok), (oc_used _ Hok). apply msum_ext. intros sid s Hs.
  assert (sid ∈ slab_ids (home_list s) c) as Hin by (apply (oc_lists _ Hok); by exists s).
  unfold home_list in Hin. destruct (_ =? ssize s); [cbn in Hin; rewrite He in Hin; by apply elem_of_nil in Hin|].
  destruct (Z.eqb_spec (scount s) 0); [lia|]. cbn in Hin. rewrite Hp in Hin. by apply elem_of_nil in Hin.
Qed.

(** Other threads leave the cache alone while the slab is created. *)
Definition undisturbed (r : creation) : Prop := ∀ c, cr_others r c = c ∧ cr_later r c = c.

Lemma cannot_add_entry r fl e c : undisturbed r → cannot_add r (set_resize_entry fl e c) → cannot_add r c.
Proof.
  intros Hu. unfold cannot_add. rewrite !(proj1 (Hu _)). unfold set_resize_entry. by destruct (DONT_WAIT_FOR_MEMORY fl).
Qed.

(** The slab that can be added is added, and the object comes from it. *)
Lemma alloc_undisturbed me fl waits r rs env c :
  oc_ok c → env_ok me fl ((waits, r :: rs) :: env) c → opartial c = [] → oempty c = [] →
  resize_entry_can_wait c = None → resize_entry_dont_wait c = None → undisturbed r → ¬ cannot_add r c →
  ∃ o c', alloc_from_slabs sizeof_slab small me fl ((waits, r :: rs) :: env) c = Ret (Some o, c').
Proof.
  intros Hok (_ & Hrs & _) Hp He Hcan Hdont Hu Hadd.
  pose proof (all_handed_out c Hok Hp He) as Hall. pose proof (used_bounds c Hok) as Hub. pose proof (oc_total_fits _ Hok) as Htf.
  assert (wait_resize me 1 fl waits c = Ret (None, c)) as Ew.
  { destruct waits; cbn [wait_resize]; by rewrite Hall, Z.sub_diag, Hcan, Hdont. }
  specialize (Hrs c Ew). set (c1 := set_resize_entry fl (Some me) c) in *.
  assert (oc_ok c1) as Hok1 by by apply set_resize_entry_ok.
  assert (total_objects c1 = used_count c1 ∧ used_count c1 = used_count c ∧ opartial c1 = opartial c ∧ oempty c1 = oempty c)
    as (Hall1 & Hus1 & Hp1 & He1) by (subst c1; unfold set_resize_entry; by destruct (DONT_WAIT_FOR_MEMORY fl)).
  destruct Hrs as [Hr _].
  destruct (CreateSlab sizeof_slab small r c1) as [[sid freed] c2] eqn:Ecr.
  pose proof (create_slab_ok 0 (fun f => ∀ c, f c = c)) as Hcr. specialize (Hcr ltac:(intros f Hf x; rewrite Hf; apply entries_refl)).
  destruct (Hcr r c1 sid freed c2 Hok1 Hr) as (_ & _ & Hres); [intros x; apply Hu..|done|].
  destruct sid as [sid|]; [|exfalso; apply Hadd, (cannot_add_entry r fl (Some me)), Hres; done].
  destruct Hres as (s & Hs & Hok2). set (c3 := account_slab sid s c2) in *.
  assert (1 <= total_objects c3 - used_count c3 < 2 ^ 64) as Hfree.
  { pose proof (room_for_one c3 sid s Hok2 Hs). pose proof (used_bounds c3 Hok2). pose proof (oc_total_fits _ Hok2).
    pose proof (so_size _ _ (oc_slab _ Hok2 sid s Hs)).
    assert (sid ∈ slab_ids SEmpty c3) as Hin by (apply elem_of_app; right; by left).
    apply (slab_in_list SEmpty sid s c3 Hok2 Hs) in Hin. unfold home_list in Hin.
    destruct (Z.eqb_spec (scount s) (ssize s)); [lia|]. by destruct (scount s =? 0). }
  assert (add_slabs sizeof_slab small 1 fl (r :: rs) c1 = Ret (Ok, set_resize_entry fl None c3)) as Ea.
  { cbn [add_slabs]. rewrite Hall1, Z.sub_diag, Ecr. cbn [deref]. rewrite Hs. cbn [deref mbind outcome_bind]. fold c3.
    assert ((u64 (total_objects c3 - used_count c3) <? 1) = false) as Elt
      by (rewrite wrap_small by (unfold fits; lia); apply Z.ltb_ge; lia).
    destruct rs; cbn [add_slabs]; by rewrite Elt. }
  set (c4 := (set_resize_entry fl None c3) <| pressure ::= fun n => u64 (n + 1) |>).
  assert (oempty c4 ≠ []) as Hne.
  { subst c4. unfold set_resize_entry. destruct (DONT_WAIT_FOR_MEMORY fl); apply not_eq_sym, app_cons_not_nil. }
  assert (oc_ok c4) as Hok4 by (apply (oc_ok_ext (set_resize_entry fl None c3)); try done; by apply set_resize_entry_ok).
  pose proof (alloc_from_slabs_ok me (fun f => ∀ c, f c = c) fl [] c4 Hok4 I) as Hal.
  assert (∀ f : ObjectCache → ObjectCache, (∀ x, f x = x) → foreign me f) as Hid by (intros f Hf x; rewrite Hf; apply entries_refl).
  specialize (Hal Hid). specialize (Hal ltac:(intros f (? & ? & []%elem_of_nil & _))).
  unfold alloc_from_slabs in *. cbn [find_slab].
  rewrite Hp, He. unfold object_cache_reserve_internal. rewrite Ew. cbn [mbind outcome_bind]. fold c1. rewrite Ea.
  cbn [mbind outcome_bind]. fold c4.
  assert (find_slab sizeof_slab small me fl env c4 = find_slab sizeof_slab small me fl [] c4) as ->.
  { destruct env as [|[] ?]; cbn [find_slab]; [done|]. destruct (opartial c4), (oempty c4); done. }
  destruct (find_slab _ _ _ _ [] c4) as [[[i|] c5]| |]; cbn [mbind outcome_bind] in *.
  - destruct (take_object i c5) as [[o c']| |]; cbn [mbind outcome_bind] in *; [by exists o, c'|done|]. by destruct Hal.
  - by destruct Hal as (_ & _ & _ & ? & _).
  - done.
  - by destruct Hal.
Qed.

(** ** Giving an object back *)

(** An unused slab leaves the cache. *)
Lemma drop_slab_ok sid s c c1 :
  oc_ok c → slabs c !! sid = Some s → scount s = ssize s → sid ∈ oempty c →
  object_size c1 = object_size c → slabs c1 = delete sid (slabs c) →
  oempty c1 = remove_elem sid (oempty c) → opartial c1 = opartial c → ofull c1 = ofull c →
  total_objects c1 = total_objects c - ssize s → used_count c1 = used_count c →
  oempty_count c1 = oempty_count c - 1 → usage c1 = usage c - slab_size c → slab_size c1 = slab_size c →
  oc_ok c1 ∧ ∀ o, obj_alloc c1 o ↔ obj_alloc c o.
Proof.
  intros Hok Hs Hfull Hin HO HM HE HP HF HT HU HEC HUS HSS.
  assert (home_list s = SEmpty) as Hh by (unfold home_list; by rewrite Hfull, Z.eqb_refl).
  assert (∀ k, slab_ids k c1 = remove_elem sid (slab_ids k c)) as HL.
  { intros k. pose proof (slab_in_list k sid s c Hok Hs) as Hk. rewrite Hh in Hk.
    destruct k; [exact HE|..]; (rewrite remove_elem_id; [done|]); by rewrite Hk. }
  pose proof (count_bounds c sid s Hok Hs) as [Hb Ht]. pose proof (so_size _ _ (oc_slab _ Hok _ _ Hs)) as Hpos.
  split; [split; rewrite ?HO, ?HM, ?HT, ?HU, ?HUS, ?HSS|].
  - apply Hok.
  - intros i x [_ Hx]%lookup_delete_Some. by eapply oc_slab.
  - intros k. rewrite HL. apply NoDup_remove_elem, Hok.
  - intros k i. rewrite HL, elem_of_remove, (oc_lists _ Hok). setoid_rewrite lookup_delete_Some. naive_solver.
  - rewrite (msum_delete _ _ _ s), (oc_total _ Hok) by done. done.
  - rewrite (msum_delete _ _ _ s), (oc_used _ Hok), Hfull by done. lia.
  - rewrite HEC, HE, (oc_empty _ Hok). pose proof (length_remove_elem sid (oempty c) (oc_nodup _ Hok SEmpty) Hin). lia.
  - rewrite map_size_delete_Some, (oc_usage _ Hok) by (by eexists).
    assert (size (slabs c) ≠ 0%nat) by (intros H0%map_size_empty_inv; rewrite H0 in Hs; done).
    destruct (size (slabs c)) as [|n]; [done|]. cbn [pred]. rewrite Nat2Z.inj_succ. ring.
  - pose proof (oc_total_fits _ Hok). lia.
  - pose proof (oc_usage_fits _ Hok). lia.
  - intros i1 i2 x1 x2 o [_ H1]%lookup_delete_Some [_ H2]%lookup_delete_Some. by apply (oc_disjoint _ Hok).
  - intros o. unfold obj_alloc. rewrite HO, HM. setoid_rewrite lookup_delete_Some. split; [naive_solver|].
    intros (i & x & Hx & Hi & Hf). exists i, x. split_and!; try done. intros <-.
    assert (x = s) as -> by congruence. apply Hf. apply unused_slab_free; [apply Hok|by eapply oc_slab|done|done].
Qed.

(** A slab that was taken off the lists but is still counted: with it put
    back on the list of unused slabs the invariant holds. *)
Definition attach (sid : Z) (c : ObjectCache) : ObjectCache :=
  c <| oempty ::= fun l => l ++ [sid] |> <| oempty_count ::= fun n => n + 1 |>.
Definition detached (sid : Z) (s : slab) (c : ObjectCache) : Prop :=
  slabs c !! sid = Some s ∧ scount s = ssize s ∧ oc_ok (attach sid c).

Lemma detached_table sid s c f : detached sid s c → detached sid s (c <| hash_table ::= f |>).
Proof. intros (Hs & Hfull & Hok). split_and!; [done|done|]. by apply (oc_ok_ext (attach sid c)). Qed.

(** [ReturnSlab] when the other threads leave the slab alone. *)
Lemma ReturnSlab_ok others sid s c :
  detached sid s c → (∀ c1, detached sid s c1 → detached sid s (w_resize others c1)) →
  let cw := if small then c else w_resize others (c <| hash_table ::= delete (spages s) |>) in
  ∃ c1, ReturnSlab small others sid c = Ret (w_free others c1) ∧ oc_ok c1 ∧ slabs c1 = delete sid (slabs cw) ∧
    ∀ o, obj_alloc c1 o ↔ obj_alloc cw o.
Proof.
  intros Hdet Hwin cw.
  assert (detached sid s cw) as (Hs & Hfull & Hok) by (subst cw; destruct small; [done|]; by apply Hwin, detached_table).
  unfold ReturnSlab. rewrite (proj1 Hdet). cbn [deref mbind outcome_bind]. fold cw. clearbody cw. clear c Hdet Hwin.
  unfold UninitSlab. rewrite Hs. cbn [deref mbind outcome_bind]. rewrite Hfull, Z.eqb_refl. cbn [assert mbind outcome_bind].
  set (c1 := _ <| slabs ::= delete sid |>). exists c1. split; [done|].
  assert (slabs (attach sid cw) !! sid = Some s) as Hs' by done.
  pose proof (count_bounds _ sid s Hok Hs') as [Hb Ht]. change (ssize s <= total_objects cw) in Ht.
  pose proof (oc_total_fits _ Hok) as Hfits. change (total_objects cw < 2 ^ 64) in Hfits.
  pose proof (oc_usage_fits _ Hok) as [Hss Huf]. pose proof (oc_usage _ Hok) as Hus.
  change (0 < slab_size cw) in Hss. change (usage cw < 2 ^ 64) in Huf.
  change (usage cw = slab_size cw * Z.of_nat (size (slabs cw))) in Hus.
  pose proof (oc_nodup _ Hok SEmpty) as Hnd. change (NoDup (oempty cw ++ [sid])) in Hnd.
  assert (0 < Z.of_nat (size (slabs cw))) as Hsz.
  { destruct (size (slabs cw)) eqn:E; [|lia]. apply map_size_empty_inv in E. by rewrite E in Hs. }
  destruct (drop_slab_ok sid s (attach sid cw) c1) as [Hok1 Hall]; try done.
  - apply elem_of_app. right. by left.
  - change (oempty cw = remove_elem sid (oempty cw ++ [sid])). rewrite remove_elem_split by done. by rewrite app_nil_r.
  - change (u64 (total_objects cw - ssize s) = total_objects cw - ssize s). apply wrap_small. unfold fits. lia.
  - change (oempty_count cw = oempty_count cw + 1 - 1). lia.
  - change (u64 (usage cw - slab_size cw) = usage cw - slab_size cw). apply wrap_small. unfold fits. nia.
Qed.

(** The slab with the object back on its free list, on the list it then
    belongs on. *)
Lemma return_moved sid s s' o c c' :
  oc_ok c → slabs c !! sid = Some s → is_object (object_size c) s o → object_to_link o (object_size c) ∉ sfree s →
  s' = s <| sfree ::= cons (object_to_link o (object_size c)) |> <| scount ::= fun n => n + 1 |> →
  moved sid s' c c' → used_count c' = used_count c - 1 →
  oc_ok c' ∧ ∀ o', obj_alloc c' o' ↔ obj_alloc c o' ∧ o' ≠ o.
Proof.
  intros Hok Hs Ho Hal Es' Hm Hu. pose proof (oc_slab _ Hok _ _ Hs) as Hso.
  assert (slab_ok (object_size c) s') as Hso'.
  { subst s'. split; cbn.
    - apply Hso.
    - rewrite (so_count _ _ Hso). lia.
    - apply NoDup_cons. split; [done|apply Hso].
    - intros l [->|Hl]%elem_of_cons; [by rewrite object_link_object|by apply Hso]. }
  assert (spages s' = spages s ∧ ssize s' = ssize s ∧ soffset s' = soffset s ∧ scount s' = scount s + 1 ∧
    sfree s' = object_to_link o (object_size c) :: sfree s) as (P1 & P2 & P3 & P4 & P5) by by subst s'.
  split; [apply (moved_ok sid s s' c c'); try done; lia|].
  destruct (obj_alloc_changed sid s s' c c' o Hok Hs Ho) as (A1 & A2 & A3); try done; try apply Hm.
  { intros o' Hne. rewrite P5, elem_of_cons. split; [|by right]. intros [He|]; [|done]. destruct Hne.
    rewrite <- (object_link_object o' (object_size c)), He. apply object_link_object. }
  intros o'. destruct (decide (o' = o)) as [->|Hne]; [|rewrite (A3 o' Hne); tauto].
  rewrite A2, P5, elem_of_cons. tauto.
Qed.

Lemma allocated_count sid s o c :
  oc_ok c → slabs c !! sid = Some s → is_object (object_size c) s o → object_to_link o (object_size c) ∉ sfree s →
  0 <= scount s < ssize s ∧ 0 < used_count c.
Proof.
  intros Hok Hs Ho Hal. pose proof (count_bounds c sid s Hok Hs) as [Hb _].
  assert (scount s ≠ ssize s) as Hne.
  { intros He. apply Hal. apply unused_slab_free; [apply Hok|by eapply oc_slab|done|done]. }
  split; [lia|]. rewrite (oc_used _ Hok).
  pose proof (msum_elem (fun s => ssize s - scount s) (slabs c) sid s) as H. cbv beta in H.
  assert (ssize s - scount s <= msum (fun s => ssize s - scount s) (slabs c)); [|lia].
  apply H; [|done]. intros i x Hx. pose proof (count_bounds c i x Hok Hx). lia.
Qed.

(** What is left to do once the object is on the free list of its slab ([c0]):
    nothing, or the slab, which is no longer used, leaves the cache, while
    other threads run in the windows of [ReturnSlab]. *)
Definition returned_to (others : slab_windows) (sid : Z) (c0 c' : ObjectCache) : Prop :=
  (c' = c0 ∧ oc_ok c0) ∨
  let cw := if small then c0 else w_resize others c0 in
  ∃ c1, oc_ok c1 ∧ slabs c1 = delete sid (slabs cw) ∧ (∀ o, obj_alloc c1 o ↔ obj_alloc cw o) ∧ c' = w_free others c1.

(** [ReturnObjectToSlab] of an object that was handed out, from a slab of more
    than one object. *)
Lemma ReturnObjectToSlab_ok others sid s o fl c :
  oc_ok c → slabs c !! sid = Some s → is_object (object_size c) s o →
  object_to_link o (object_size c) ∉ sfree s → 1 < ssize s →
  (∀ s1 c1, detached sid s1 c1 → detached sid s1 (w_resize others c1)) →
  ∃ c0 c', ReturnObjectToSlab small others sid o fl c = Ret c' ∧
    (∀ o', obj_alloc c0 o' ↔ obj_alloc c o' ∧ o' ≠ o) ∧ returned_to others sid c0 c'.
Proof.
  intros Hok Hs Ho Hal Hsize Hwin. destruct (allocated_count sid s o c Hok Hs Ho Hal) as [Hcnt Hused].
  pose proof (count_bounds c sid s Hok Hs) as [_ Ht]. pose proof (oc_total_fits _ Hok) as Hfits.
  pose proof (used_bounds c Hok) as Hub. pose proof (empty_bound c Hok) as Heb. pose proof (oc_empty _ Hok) as Hec.
  set (s' := s <| sfree ::= cons (object_to_link o (object_size c)) |> <| scount ::= fun n => n + 1 |>).
  assert (s <| sfree ::= cons (object_to_link o (object_size c)) |> <| scount ::= fun n => u64 (n + 1) |> = s') as Es.
  { subst s'. destruct s as [? ? n ? ?]. unfold update. cbn in *. f_equal. apply wrap_small. unfold fits. lia. }
  unfold ReturnObjectToSlab. rewrite Hs. cbn [deref mbind outcome_bind]. rewrite Es.
  set (c2 := c <| slabs ::= <[sid := s']> |> <| used_count ::= fun n => u64 (n - 1) |>).
  assert (used_count c2 = used_count c - 1) as Hu2.
  { change (u64 (used_count c - 1) = used_count c - 1). apply wrap_small. unfold fits. lia. }
  assert (scount s' = scount s + 1 ∧ ssize s' = ssize s) as [Hc' Hsz'] by done.
  assert (∀ k, sid ∈ slab_ids k c ↔ home_list s = k) as Hin by (intros; by apply slab_in_list).
  assert (∀ c', moved sid s' c c' → used_count c' = used_count c2 →
    oc_ok c' ∧ ∀ o', obj_alloc c' o' ↔ obj_alloc c o' ∧ o' ≠ o) as Hret.
  { intros c' Hm Hu. apply (return_moved sid s s' o c c'); try done. congruence. }
  assert (home_list s = if scount s =? 0 then SFull else SPartial) as Hhome.
  { unfold home_list. destruct (Z.eqb_spec (scount s) (ssize s)); [lia|done]. }
  destruct (Z.eqb_spec (scount s') (ssize s')) as [Hfull|Hnfull].
  - assert (home_list s = SPartial) as Hp by (rewrite Hhome; destruct (Z.eqb_spec (scount s) 0); [lia|done]).
    assert (home_list s' = SEmpty) as Hh' by (unfold home_list; by rewrite Hfull, Z.eqb_refl).
    unfold list_remove. rewrite (bool_decide_eq_true_2 (sid ∈ opartial c2)) by by apply (Hin SPartial).
    cbn [assert mbind outcome_bind]. set (c3 := c2 <| opartial := remove_elem sid (opartial c2) |>).
    set (cE := c3 <| oempty_count ::= fun n => n + 1 |> <| oempty ::= fun l => l ++ [sid] |>).
    destruct (Hret cE) as [HokE HallE]; [|done|].
    { unfold moved. split_and!; try done.
      - change (oempty_count c + 1 = Z.of_nat (length (oempty c ++ [sid]))). rewrite length_app. cbn. lia.
      - intros k. rewrite Hh'. destruct k.
        + change (slab_ids SEmpty cE) with (oempty c ++ [sid]). split_and!.
          * apply NoDup_app. split_and!; [apply (oc_nodup _ Hok SEmpty)| |apply NoDup_singleton].
            intros x Hx ->%list_elem_of_singleton. apply (Hin SEmpty) in Hx. congruence.
          * rewrite elem_of_app, list_elem_of_singleton. tauto.
          * intros i Hne. rewrite elem_of_app, list_elem_of_singleton. cbn. tauto.
        + change (slab_ids SPartial cE) with (remove_elem sid (slab_ids SPartial c)). split_and!.
          * apply NoDup_remove_elem, Hok.
          * rewrite elem_of_remove. split; [by intros [[] _]|done].
          * intros i Hne. rewrite elem_of_remove. tauto.
        + change (slab_ids SFull cE) with (slab_ids SFull c). split_and!; [apply Hok|rewrite Hin, Hp; by split|done]. }
    pose proof (empty_bound cE HokE) as HbE.
    change (oempty_count c + 1 <= total_objects c) in HbE.
    destruct (_ || _).
    + exists cE, cE. split_and!; [|done|by left]. f_equal. subst cE.
      assert (u64 (oempty_count c3 + 1) = oempty_count c3 + 1) as Ew.
      { change (oempty_count c3) with (oempty_count c). apply wrap_small. unfold fits. lia. }
      clearbody c3. destruct c3. unfold update. cbn in *. by rewrite Ew.
    + assert (detached sid s' c3) as Hdet by (split_and!; [apply lookup_insert_eq|done|by destruct c3]).
      destruct (ReturnSlab_ok others sid s' c3 Hdet (Hwin s')) as (c1 & Hr & Hok1 & HM1 & Hall1).
      set (c0 := if small then c3 else c3 <| hash_table ::= delete (spages s') |>).
      assert ((if small then c3 else w_resize others (c3 <| hash_table ::= delete (spages s') |>)) =
        (if small then c0 else w_resize others c0)) as Ew by (subst c0; by destruct small).
      rewrite Ew in HM1, Hall1. exists c0, (w_free others c1). split_and!; [done| |right; by exists c1].
      intros o'. rewrite <- HallE. subst c0. by destruct small.
  - destruct (Z.eqb_spec (scount s') 1) as [H1|H1].
    + assert (home_list s = SFull) as Hp by (rewrite Hhome; destruct (Z.eqb_spec (scount s) 0); [done|lia]).
      assert (home_list s' = SPartial) as Hh'.
      { unfold home_list. destruct (Z.eqb_spec (scount s') (ssize s')); [lia|]. destruct (Z.eqb_spec (scount s') 0); [lia|done]. }
      unfold list_remove. rewrite (bool_decide_eq_true_2 (sid ∈ ofull c2)) by by apply (Hin SFull).
      cbn [assert mbind outcome_bind].
      set (c3 := c2 <| ofull := remove_elem sid (ofull c2) |> <| opartial ::= fun l => l ++ [sid] |>).
      assert (moved sid s' c c3) as Hm; [|destruct (Hret c3 Hm) as [Hok3 Hall3]; [done|]; exists c3, c3; by split_and!; [..|left]].
      unfold moved. split_and!; try done. intros k. rewrite Hh'. destruct k;
        [change (slab_ids SEmpty c3) with (oempty c)|change (slab_ids SPartial c3) with (opartial c ++ [sid])
        |change (slab_ids SFull c3) with (remove_elem sid (slab_ids SFull c))].
      * split_and!; [apply (oc_nodup _ Hok SEmpty)|rewrite (Hin SEmpty), Hp; by split|done].
      * split_and!.
        -- apply NoDup_app. split_and!; [apply (oc_nodup _ Hok SPartial)| |apply NoDup_singleton].
           intros x Hx ->%list_elem_of_singleton. apply (Hin SPartial) in Hx. congruence.
        -- rewrite elem_of_app, list_elem_of_singleton. tauto.
        -- intros i Hne. rewrite elem_of_app, list_elem_of_singleton. tauto.
      * split_and!; [apply NoDup_remove_elem, (oc_nodup _ Hok SFull)|rewrite elem_of_remove; split; [by intros [[] _]|done]|].
        intros i Hne. rewrite elem_of_remove. tauto.
    + assert (home_list s' = home_list s) as Hh'.
      { rewrite Hhome. unfold home_list. destruct (Z.eqb_spec (scount s') (ssize s')); [lia|].
        destruct (Z.eqb_spec (scount s') 0), (Z.eqb_spec (scount s) 0); try lia; done. }
      assert (moved sid s' c c2) as Hm; [|destruct (Hret c2 Hm) as [Hok2 Hall2]; [done|]; exists c2, c2; by split_and!; [..|left]].
      unfold moved. split_and!; try done. intros k. rewrite Hh'.
      assert (slab_ids k c2 = slab_ids k c) as -> by by destruct k. split_and!; [apply Hok|apply Hin|done].
Qed.

(** ** Giving unused slabs back *)

(** [ReturnSlab] of the first unused slab, the count of unused slabs put
    right. *)
Lemma ReturnSlab_head_ok sid s c l :
  oc_ok c → slabs c !! sid = Some s → oempty c = sid :: l →
  ∃ c1, ReturnSlab small no_others sid (c <| oempty := l |>) = Ret c1 ∧
    oc_ok (c1 <| oempty_count ::= fun n => u64 (n - 1) |>) ∧
    (∀ o, obj_alloc (c1 <| oempty_count ::= fun n => u64 (n - 1) |>) o ↔ obj_alloc c o) ∧
    slabs c1 = delete sid (slabs c) ∧ total_objects c1 = total_objects c - ssize s ∧ used_count c1 = used_count c ∧
    oempty c1 = l ∧ opartial c1 = opartial c ∧ ofull c1 = ofull c ∧ oempty_count c1 = oempty_count c ∧
    min_object_reserve c1 = min_object_reserve c.
Proof.
  intros Hok Hs He. pose proof (count_bounds c sid s Hok Hs) as [Hb Ht].
  pose proof (oc_total_fits _ Hok) as Hfits. pose proof (oc_usage_fits _ Hok) as [Hss Huf].
  pose proof (oc_nodup _ Hok SEmpty) as Hnd. cbn in Hnd. rewrite He in Hnd. apply NoDup_cons in Hnd as [Hni Hnd].
  assert (sid ∈ oempty c) as Hin by (rewrite He; by left).
  assert (scount s = ssize s) as Hfull.
  { apply (slab_in_list SEmpty sid s c Hok Hs) in Hin. unfold home_list in Hin.
    destruct (Z.eqb_spec (scount s) (ssize s)); [done|]. by destruct (scount s =? 0). }
  pose proof (oc_empty _ Hok) as Hec. rewrite He in Hec. cbn [length] in Hec. pose proof (empty_bound c Hok).
  assert (0 < Z.of_nat (size (slabs c))) as Hsz.
  { destruct (size (slabs c)) eqn:E; [|lia]. apply map_size_empty_inv in E. by rewrite E in Hs. }
  unfold ReturnSlab. change (slabs (c <| oempty := l |>)) with (slabs c). rewrite Hs. cbn [deref mbind outcome_bind].
  set (c0 := if small then _ else _). unfold UninitSlab.
  assert (slabs c0 = slabs c) as -> by (subst c0; by destruct small). rewrite Hs. cbn [deref mbind outcome_bind].
  rewrite Hfull, Z.eqb_refl. cbn [assert mbind outcome_bind].
  set (c1 := _ <| slabs ::= delete sid |>). exists c1. split; [done|].
  assert (slabs c1 = delete sid (slabs c)) as HM by (subst c1 c0; by destruct small).
  assert (total_objects c1 = total_objects c - ssize s) as HT.
  { assert (total_objects c1 = u64 (total_objects c - ssize s)) as -> by (subst c1 c0; by destruct small).
    apply wrap_small. unfold fits. lia. }
  assert (usage c1 = usage c - slab_size c) as HU.
  { assert (usage c1 = u64 (usage c - slab_size c)) as -> by (subst c1 c0; by destruct small).
    apply wrap_small. unfold fits. rewrite (oc_usage _ Hok). rewrite (oc_usage _ Hok) in Huf. nia. }
  assert (object_size c1 = object_size c ∧ oempty c1 = l ∧ opartial c1 = opartial c ∧ ofull c1 = ofull c ∧
    used_count c1 = used_count c ∧ oempty_count c1 = oempty_count c ∧ slab_size c1 = slab_size c ∧
    min_object_reserve c1 = min_object_reserve c)
    as (E1 & E2 & E3 & E4 & E5 & E6 & E7 & E8) by (subst c1 c0; by destruct small).
  clearbody c1. clear c0.
  destruct (drop_slab_ok sid s c (c1 <| oempty_count ::= fun n => u64 (n - 1) |>)) as [Hok' Hall]; try done.
  - change (oempty c1 = remove_elem sid (oempty c)). rewrite E2, He.
    rewrite (remove_elem_split sid [] l) by (by apply NoDup_cons). done.
  - change (u64 (oempty_count c1 - 1) = oempty_count c - 1). rewrite E6. apply wrap_small. unfold fits. lia.
Qed.

(** Without interference the low memory loop stops, keeps what is handed out,
    and gives back all unused slabs beyond the minimum it may give back without
    touching the object reserve. *)
Lemma trim_empty_ok minimumAllowed fuel : ∀ c,
  oc_ok c → (length (oempty c) <= fuel)%nat → 0 <= minimumAllowed → 0 <= min_object_reserve c →
  min_object_reserve c + total_objects c < 2 ^ 64 →
  ∃ c', trim_empty small fuel no_others minimumAllowed c = Ret c' ∧ oc_ok c' ∧
    (∀ o, obj_alloc c' o ↔ obj_alloc c o) ∧ min_object_reserve c' = min_object_reserve c ∧
    (min_object_reserve c <= total_objects c - used_count c → min_object_reserve c <= total_objects c' - used_count c') ∧
    (oempty_count c' <= minimumAllowed ∨
     ∃ sid l s, oempty c' = sid :: l ∧ slabs c' !! sid = Some s ∧
       total_objects c' - used_count c' - ssize s < min_object_reserve c).
Proof.
  induction fuel as [|fuel IH]; intros c Hok Hf Hm Hr Hfit; cbn [trim_empty].
  all: pose proof (oc_empty _ Hok) as Hec.
  all: destruct (Z.ltb_spec minimumAllowed (oempty_count c)) as [Hlt|Hge]; [|by exists c; split_and!; try done; left].
  { destruct (oempty c); cbn in *; lia. }
  destruct (oempty c) as [|sid l] eqn:El; [cbn in Hec; lia|].
  assert (sid ∈ slab_ids SEmpty c) as (s & Hs & Hh)%(oc_lists _ Hok) by (cbn; rewrite El; by left).
  rewrite Hs. cbn [deref mbind outcome_bind].
  pose proof (used_bounds c Hok). pose proof (count_bounds c sid s Hok Hs). pose proof (oc_total_fits _ Hok).
  pose proof (room_for_one c sid s Hok Hs).
  rewrite (wrap_small 64 (total_objects c - used_count c)) by (unfold fits; lia).
  rewrite (wrap_small 64 (min_object_reserve c + ssize s)) by (unfold fits; lia).
  destruct (Z.ltb_spec (total_objects c - used_count c) (min_object_reserve c + ssize s)) as [Hstop|Hgo].
  { exists c. split_and!; try done. right. exists sid, l, s. split_and!; try done. lia. }
  destruct (ReturnSlab_head_ok sid s c l Hok Hs El) as (c1 & -> & Hok1 & Hall1 & HM & HT & HU & HE & _ & _ & _ & HR).
  cbn [mbind outcome_bind]. destruct (IH (c1 <| oempty_count ::= fun n => u64 (n - 1) |>)) as (c' & -> & Hok' & Hall & HR' & Hres & Hend);
    try done.
  - change (length (oempty c1) <= fuel)%nat. rewrite HE. cbn in Hf. lia.
  - change (0 <= min_object_reserve c1). lia.
  - change (min_object_reserve c1 + total_objects c1 < 2 ^ 64). lia.
  - change (min_object_reserve (c1 <| oempty_count ::= fun n => u64 (n - 1) |>)) with (min_object_reserve c1) in *.
    change (total_objects (c1 <| oempty_count ::= fun n => u64 (n - 1) |>)) with (total_objects c1) in *.
    change (used_count (c1 <| oempty_count ::= fun n => u64 (n - 1) |>)) with (used_count c1) in *.
    rewrite HR in *. exists c'. split_and!; try done.
    + intros o. by rewrite Hall, Hall1.
    + intros _. apply Hres. lia.
Qed.

(** A cache no object of which is handed out has only unused slabs. *)
Lemma unused_cache_lists c : oc_ok c → used_count c = 0 → opartial c = [] ∧ ofull c = [].
Proof.
  intros Hok Hu.
  assert (∀ k sid, sid ∈ slab_ids k c → k = SEmpty) as Hall.
  { intros k sid (s & Hs & <-)%(oc_lists _ Hok). pose proof (count_bounds c sid s Hok Hs) as [Hb _].
    pose proof (msum_elem (fun s => ssize s - scount s) (slabs c) sid s) as H. cbv beta in H. rewrite <- (oc_used _ Hok), Hu in H.
    assert (ssize s - scount s <= 0).
    { apply H; [|done]. intros i x Hx. pose proof (count_bounds c i x Hok Hx). lia. }
    unfold home_list. destruct (Z.eqb_spec (scount s) (ssize s)); [done|lia]. }
  split; apply elem_of_nil_inv; intros sid Hin.
  - discriminate (Hall SPartial sid Hin).
  - discriminate (Hall SFull sid Hin).
Qed.

Lemma ReturnSlab_count sid l n c c1 :
  ReturnSlab small no_others sid (c <| oempty_count := n |> <| oempty := l |>) = Ret c1 →
  ReturnSlab small no_others sid (c <| oempty := l |>) = Ret (c1 <| oempty_count := oempty_count c |>).
Proof.
  unfold ReturnSlab, UninitSlab. change (slabs (c <| oempty_count := n |> <| oempty := l |>)) with (slabs c).
  change (slabs (c <| oempty := l |>)) with (slabs c). destruct (slabs c !! sid) as [s|] eqn:Hs; [|done]. cbn [deref mbind outcome_bind].
  assert (∀ c : ObjectCache, slabs (if small then c else w_resize no_others (c <| hash_table ::= delete (spages s) |>)) = slabs c)
    as Hf by (intros; by destruct small).
  rewrite !Hf. change (slabs (c <| oempty_count := n |> <| oempty := l |>)) with (slabs c).
  change (slabs (c <| oempty := l |>)) with (slabs c). rewrite Hs. cbn [deref mbind outcome_bind].
  destruct (assert _); cbn [mbind outcome_bind]; [|done..]. clear.
  intros H. assert (∀ x y : ObjectCache, Ret x = Ret y → x = y) as Hinj by (intros ? ? E; by injection E).
  apply Hinj in H. subst c1. f_equal. destruct small; reflexivity.
Qed.

(** The loop of the deletion does not maintain the count of unused slabs. *)
Lemma return_empty_ok fuel : ∀ c n,
  oc_ok (c <| oempty_count := n |>) → used_count c = 0 → (length (oempty c) <= fuel)%nat →
  ∃ c', return_empty small fuel no_others c = Ret c' ∧ oempty c' = [] ∧ used_count c' = 0 ∧
    ∃ n', oc_ok (c' <| oempty_count := n' |>).
Proof.
  induction fuel as [|fuel IH]; intros c n Hok Hu Hf; cbn [return_empty].
  all: destruct (oempty c) as [|sid l] eqn:El; [exists c; split_and!; try done; by exists n|].
  { cbn in Hf. lia. }
  assert (sid ∈ slab_ids SEmpty (c <| oempty_count := n |>)) as (s & Hs & Hh)%(oc_lists _ Hok) by (cbn; rewrite El; by left).
  destruct (ReturnSlab_head_ok sid s (c <| oempty_count := n |>) l Hok Hs El)
    as (c1 & Hret & Hok1 & _ & _ & _ & HU & HE & _).
  rewrite (ReturnSlab_count sid l n c c1 Hret).
  cbn [mbind outcome_bind].
  destruct (IH (c1 <| oempty_count := oempty_count c |>) (u64 (oempty_count c1 - 1))) as (c' & -> & ? & ? & ?); try done.
  - by rewrite <- Hu.
  - change (length (oempty c1) <= fuel)%nat. rewrite HE. cbn in Hf. lia.
  - by exists c'.
Qed.

Lemma no_slabs c n : oc_ok (c <| oempty_count := n |>) → used_count c = 0 → oempty c = [] →
  slabs c = ∅ ∧ total_objects c = 0 ∧ usage c = 0.
Proof.
  intros Hok Hu He. destruct (unused_cache_lists _ Hok Hu) as [Hp Hf].
  assert (slabs c = ∅) as Hm.
  { apply map_eq. intros sid. rewrite lookup_empty. destruct (slabs c !! sid) as [s|] eqn:Hs; [|done]. exfalso.
    assert (sid ∈ slab_ids (home_list s) (c <| oempty_count := n |>)) as Hin by (by apply (oc_lists _ Hok); exists s).
    change (opartial c = []) in Hp. change (ofull c = []) in Hf.
    destruct (home_list s); cbn in Hin; [rewrite He in Hin|rewrite Hp in Hin|rewrite Hf in Hin]; by apply elem_of_nil in Hin. }
  pose proof (oc_total _ Hok) as HT. pose proof (oc_usage _ Hok) as HUs.
  change (total_objects c = msum ssize (slabs c)) in HT. change (usage c = slab_size c * Z.of_nat (size (slabs c))) in HUs.
  rewrite Hm in HT, HUs. rewrite map_size_empty in HUs. cbn in HUs. split_and!; [done|done|lia].
Qed.

Lemma delete_ok fuel c : oc_ok c → used_count c = 0 → (length (oempty c) <= fuel)%nat →
  ∃ c', delete_object_cache_internal sizeof_slab small fuel no_others None c = Ret c' ∧
    slabs c' = ∅ ∧ total_objects c' = 0 ∧ usage c' = 0.
Proof.
  intros Hok Hu Hf. destruct (unused_cache_lists c Hok Hu) as [Hp Hfl]. unfold delete_object_cache_internal.
  cbn [mbind outcome_bind]. rewrite Hp, Hfl, !bool_decide_eq_true_2 by done. cbn [assert mbind outcome_bind].
  destruct (return_empty_ok fuel c (oempty_count c)) as (c' & -> & He & Hu' & n & Hok'); try done.
  { by destruct c. }
  exists c'. split; [done|]. by apply (no_slabs c' n).
Qed.
End proofs.

(** ** The properties *)

(** C7: object_cache_alloc from the slabs (small and hashed caches), with
    other threads changing the cache in every window in which its lock is
    given up, the one of the hash table resize included. It is assumed that
    these keep the invariant, do not register this thread as the one that
    adds slabs and leave a slab alone that is not counted yet, and that the
    memory the memory manager returns overlaps no other slab and has room
    for an object. It never fails a check. An object it returns was not
    handed out in a state that follows from the one at the call by those
    windows and by own steps in which no object changes hands, and from
    there to the result exactly this object is handed out; if there was a
    partial or an unused slab, this is the state at the call itself. It
    returns null only if there was neither, and then because this thread
    already is the one that adds slabs, or because in such a state
    CreateSlab was refused: by the quota of the cache, for want of pages or
    of a slab structure, or by a constructor. If no slab is being added, the
    slab can be created and no one interferes, it returns an object. In the
    result every slab is on exactly the list its count of free objects asks
    for, with total_objects, used_count, empty_count and usage exact. *)
Theorem alloc_object_correct (sizeof_slab : Z) (small : bool) (me : Z) (fl : flags)
    (env : list (list (ObjectCache → ObjectCache) * list creation)) (c : ObjectCache)
    (Hok : oc_ok c) (Henv : env_ok sizeof_slab small me fl env c) (Hforeign : ∀ f, env_window env f → foreign me f) :
  match alloc_from_slabs sizeof_slab small me fl env c with
  | Ret (Some o, c') => oc_ok c' ∧ ∃ c0, reaches (env_window env) c c0 ∧ oc_ok c0 ∧
      (opartial c ≠ [] ∨ oempty c ≠ [] → c0 = c) ∧
      ¬ obj_alloc c0 o ∧ obj_alloc c' o ∧ ∀ o', o' ≠ o → obj_alloc c' o' ↔ obj_alloc c0 o'
  | Ret (None, c') => oc_ok c' ∧ reaches (env_window env) c c' ∧ opartial c = [] ∧ oempty c = [] ∧
      (registered me c ∨
       ∃ r c1, r ∈ creations env ∧ reaches (env_window env) c c1 ∧ cannot_add sizeof_slab small r c1)
  | NoFuel => opartial c = [] ∧ oempty c = []
  | Panic => False
  end ∧
  ∀ waits r rs env', env = (waits, r :: rs) :: env' → undisturbed r → ¬ registered_any c →
    ¬ cannot_add sizeof_slab small r c → opartial c = [] → oempty c = [] →
    ∃ o c', alloc_from_slabs sizeof_slab small me fl env c = Ret (Some o, c').
Proof.
  split; [by apply alloc_from_slabs_ok|]. intros waits r rs env' -> Hu [Hcan Hdont]%Decidable.not_or Hadd Hp He.
  apply alloc_undisturbed; try done; by apply eq_None_not_Some.
Qed.

(** C38: ReturnObjectToSlab of an object that was handed out, from a slab of
    more than one object, succeeds: exactly that object becomes free, and
    either the slab is on the list its count asks for and the invariant of
    the cache holds, or the slab leaves the cache for the memory manager,
    with the invariant holding when the lock is given up for that. While a
    hashed cache resizes its hash table, other threads may do anything to
    the rest of the cache (the slab, which is on no list then, is left
    alone). *)
Theorem free_object_correct (small : bool) (others : slab_windows) (sid : Z) (s : slab) (o : Z) (fl : flags)
    (c : ObjectCache) (Hok : oc_ok c) (Hs : slabs c !! sid = Some s) (Ho : is_object (object_size c) s o)
    (Hal : object_to_link o (object_size c) ∉ sfree s) (Hsize : 1 < ssize s)
    (Hwin : ∀ s1 c1, detached sid s1 c1 → detached sid s1 (w_resize others c1)) :
  ∃ c0 c', ReturnObjectToSlab small others sid o fl c = Ret c' ∧
    (∀ o', obj_alloc c0 o' ↔ obj_alloc c o' ∧ o' ≠ o) ∧ returned_to small others sid c0 c'.
Proof. by apply (ReturnObjectToSlab_ok small others sid s). Qed.

(** Slabs start at most the unused bytes of a slab after the pages. *)
Definition color_ok (byteCount : Z) (c : ObjectCache) : Prop :=
  0 <= cache_color_cycle c <= byteCount - byteCount / object_size c * object_size c.

(** C39: InitSlab lays the objects of a slab out inside the pages at any
    colour: they do not overlap, the colour of the next slab again fits in
    the spare bytes, and (pages aligned to a power of two slab size)
    lower_boundary of any address in the slab gives the pages, so that
    ObjectSlab of every object of a small slab finds the slab. *)
Theorem slab_layout_correct (sizeof_slab : Z) (sid pages byteCount k : Z) (c c' : ObjectCache)
    (Hosz : 0 < object_size c) (Hbytes : 0 <= byteCount) (Hcolor : color_ok byteCount c)
    (Hal : 0 < alignment c) (Hinit : InitSlab (fun _ => true) sid pages byteCount c = (true, c'))
    (Hk : 0 <= k <= 63) (Hsz : slab_size c = 2 ^ k) (Hpages : pages mod 2 ^ k = 0) (Hp0 : 0 <= pages)
    (Hend : pages + 2 ^ k <= 2 ^ 64) (Hin : byteCount <= 2 ^ k) :
  ∃ s, slabs c' !! sid = Some s ∧ color_ok byteCount c' ∧
    ∀ i, 0 <= i < ssize s →
      let o := ObjectAtIndex s i c in
      pages <= o ∧ o + object_size c <= pages + byteCount ∧
      (∀ j, 0 <= j < ssize s → j ≠ i →
        ObjectAtIndex s j c + object_size c <= o ∨ o + object_size c <= ObjectAtIndex s j c) ∧
      ObjectSlab sizeof_slab true o c' = Ret (slab_in_pages sizeof_slab pages (slab_size c)).
Proof.
  assert (0 < 2 ^ k) as Hpow by (apply Z.pow_pos_nonneg; lia).
  assert (byteCount / object_size c * object_size c <= byteCount) as Hdiv by (rewrite Z.mul_comm; by apply Z.mul_div_le).
  assert (cache_color_cycle c' = (let spare := byteCount - byteCount / object_size c * object_size c in
    let cycle := u64 (cache_color_cycle c + alignment c) in if spare <? cycle then 0 else cycle)) as Hcyc.
  { unfold InitSlab in Hinit. destruct (init_objects _ _ _ _ _ _); [done|]. by injection Hinit as <-. }
  assert (object_size c' = object_size c ∧ slab_size c' = slab_size c) as [Hosz' Hssz'].
  { unfold InitSlab in Hinit. destruct (init_objects _ _ _ _ _ _); [done|]. by injection Hinit as <-. }
  apply InitSlab_ok in Hinit as (cycle & Ec'). unfold color_ok in *.
  exists (new_slab pages byteCount c). split_and!.
  - subst c'. apply lookup_insert_eq.
  - rewrite Hcyc. cbv zeta. case_match; [lia|]. apply wrap_fits. lia.
  - rewrite Hcyc, Hosz'. cbv zeta. destruct (Z.ltb_spec (byteCount - byteCount / object_size c * object_size c)
      (u64 (cache_color_cycle c + alignment c))); lia.
  - intros i Hi. cbn in Hi. unfold ObjectAtIndex. cbn [spages soffset new_slab].
    assert (pages <= pages + cache_color_cycle c + i * object_size c) as H1 by nia.
    assert (pages + cache_color_cycle c + i * object_size c + object_size c <= pages + byteCount) as H2 by nia.
    split_and!; [done|done| |].
    + intros j Hj Hne. cbn in Hj. nia.
    + unfold ObjectSlab, SmallObjectSlab, lower_boundary. rewrite Hssz', Hsz. do 2 f_equal.
      rewrite land_lnot_ones by (try split; lia).
      assert (pages = 2 ^ k * (pages / 2 ^ k)) as Ep by (apply Z.div_exact; [lia|done]).
      assert ((pages + cache_color_cycle c + i * object_size c) / 2 ^ k = pages / 2 ^ k) as ->; [|lia].
      symmetry. apply (Z.div_unique _ _ _ (cache_color_cycle c + i * object_size c)); lia.
Qed.

(** *** Size classes *)

Definition best_fit (size : Z) : bool :=
  let i := size_to_index size in
  (0 <=? i) && (i <? kNumBlockSizes) &&
  match kBlockSizes !! Z.to_nat i with
  | Some b => (size <=? b) && match kBlockSizes !! Z.to_nat (i - 1) with
                              | Some b' => (i =? 0) || (b' <? size)
                              | None => false
                              end
  | None => false
  end.

Lemma best_fit_all : forallb (fun n => best_fit (Z.of_nat n)) (seq 1 (Z.to_nat 8192)) = true.
Proof. vm_compute. reflexivity. Qed.

Lemma block_sizes_sorted i j a b : kBlockSizes !! i = Some a → kBlockSizes !! j = Some b →
  (i < j)%nat → Z.of_nat j < kNumBlockSizes → a < b.
Proof.
  assert (forallb (fun j => forallb (fun i => match kBlockSizes !! i, kBlockSizes !! j with
    | Some a, Some b => a <? b | _, _ => false end) (seq 0 j)) (seq 0 (Z.to_nat kNumBlockSizes)) = true) as H
    by (vm_compute; reflexivity).
  intros Ha Hb Hij Hj. rewrite forallb_forall in H. specialize (H j ltac:(apply in_seq; lia)).
  rewrite forallb_forall in H. specialize (H i). rewrite Ha, Hb in H.
  apply Z.ltb_lt, H. apply in_seq. lia.
Qed.

(** For every size up to 8192, size_to_index is the index of the
    smallest block size that is large enough, block_alloc goes to the cache
    of that index, that cache has exactly that object size, and the checks
    of block_free on a block of it succeed and route it to the same cache. *)
Lemma size_to_index_best_fit (size : Z) (Hsize : 0 < size <= 8192) :
  ∃ b, kBlockSizes !! Z.to_nat (size_to_index size) = Some b ∧ 0 <= size_to_index size < kNumBlockSizes ∧ size <= b ∧
    (∀ j b', 0 <= j < kNumBlockSizes → kBlockSizes !! Z.to_nat j = Some b' → size <= b' → size_to_index size <= j) ∧
    (∀ fl, CONTIGUOUS_MEMORY fl = false → block_alloc (fun _ => true) size 0 fl = Ret (FromCache (size_to_index size))) ∧
    ∃ cl c d, block_cache (size_to_index size) = Ret (Some (cl, c), d) ∧ object_size c = b ∧
      ∀ block, block ≠ 0 → block_free true false block (Some (size_to_index size, c)) = Ret (ToCache (size_to_index size)).
Proof.
  pose proof best_fit_all as H. rewrite forallb_forall in H. specialize (H (Z.to_nat size)).
  rewrite Z2Nat.id in H by lia. unfold best_fit in H. specialize (H ltac:(apply in_seq; lia)).
  apply andb_true_iff in H as [[Hi0 Hi1]%andb_true_iff H]. apply Z.leb_le in Hi0. apply Z.ltb_lt in Hi1.
  destruct (kBlockSizes !! Z.to_nat (size_to_index size)) as [b|] eqn:Eb; [|done].
  apply andb_true_iff in H as [Hb Hprev]. apply Z.leb_le in Hb. exists b. split_and!; try done.
  - intros j b' Hj Hb' Hle. destruct (decide (size_to_index size <= j)) as [|Hlt]; [done|]. exfalso.
    destruct (kBlockSizes !! Z.to_nat (size_to_index size - 1)) as [bp|] eqn:Ep; [|done].
    apply orb_true_iff in Hprev as [Hz%Z.eqb_eq|Hp%Z.ltb_lt]; [lia|].
    destruct (decide (j = size_to_index size - 1)) as [->|]; [rewrite Ep in Hb'; simplify_eq; lia|].
    pose proof (block_sizes_sorted (Z.to_nat j) (Z.to_nat (size_to_index size - 1)) b' bp Hb' Ep). lia.
  - intros fl Hfl. unfold block_alloc. change (8 <? 0) with false. cbn [negb mbind outcome_bind].
    rewrite Hfl, andb_false_r, (proj2 (Z.leb_le _ _) Hi0). done.
  - assert (forallb (fun i => match block_cache (Z.of_nat i), kBlockSizes !! i with
      | Ret (Some (_, c), _), Some b => (object_size c =? b) && (size_to_index b =? Z.of_nat i) && (16 <=? b) && (b <=? 8192) | _, _ => false end)
      (seq 0 (Z.to_nat kNumBlockSizes)) = true) as Hc by (vm_compute; reflexivity).
    rewrite forallb_forall in Hc. specialize (Hc (Z.to_nat (size_to_index size)) ltac:(apply in_seq; lia)).
    rewrite Z2Nat.id, Eb in Hc by lia.
    destruct (block_cache (size_to_index size)) as [[[[cl c]|] d]| |]; try done.
    rewrite !andb_true_iff, !Z.eqb_eq in Hc. destruct Hc as [[[Eo Es] Hlo] Hhi]. exists cl, c, d.
    split_and!; [done..|]. intros block Hb0%Z.eqb_neq. unfold block_free. rewrite Hb0, Eo, Es, Z.eqb_refl.
    change (kBlockSizes !! 0%nat) with (Some 16). change (kBlockSizes !! Z.to_nat (kNumBlockSizes - 1)) with (Some 8192).
    cbn [deref negb andb mbind outcome_bind]. by rewrite Hlo, Hhi.
Qed.

Lemma size_to_index_best_fit_witness :
  size_to_index 700 = 18 ∧ ∃ b, kBlockSizes !! Z.to_nat (size_to_index 700) = Some b ∧ 700 <= b.
Proof.
  split; [reflexivity|]. destruct (size_to_index_best_fit 700) as (b & Hb & _ & Hle & _); [lia|]. by exists b.
Defined.

(** *** Concrete caches *)

Definition fl0 : flags := mkFlags false false false false.

(** A cache for objects of 64 bytes with one slab in the page at 8192. *)
Definition cache64 : ObjectCache := (Init 64 64 0) <| slab_size := 4096 |>.
Definition one_slab : creation := mkCreation None (Some 8192) (fun c => c) (fun c => c) (fun _ => true).
Definition cache64_slab : ObjectCache :=
  match add_slabs 56 true 1 fl0 [one_slab] cache64 with Ret (_, c) => c | _ => cache64 end.

Lemma cache64_slabs : slabs cache64 = ∅.
Proof. reflexivity. Qed.

Lemma cache64_ok : oc_ok cache64.
Proof.
  split; try done.
  - intros []; constructor.
  - intros k sid. split; [intros H; by destruct k; apply elem_of_nil in H|]. intros (s & Hs & _). by rewrite cache64_slabs, lookup_empty in Hs.
Qed.

Lemma one_slab_fits : slab_fits (slab_in_pages 56 8192 4096) 8192 (4096 - 56) cache64.
Proof.
  by split.
Qed.

Lemma one_slab_creations c : c = cache64 ∨ c = set_resize_entry fl0 (Some 1) cache64 → creations_ok 56 true [one_slab] c.
Proof.
  intros Hc. assert (oc_ok c) as Hok by (destruct Hc as [->| ->]; [|apply set_resize_entry_ok]; exact cache64_ok).
  split; [|done]. split_and!; [done..|]. intros pages [= <-]. destruct Hc as [->| ->]; by split.
Qed.

Lemma one_slab_env : env_ok 56 true 1 fl0 [([], [one_slab])] cache64.
Proof.
  split; [exact I|]. split; [|intros; exact I]. intros c1 Hc1. apply one_slab_creations. right. f_equal.
  change (Ret (@None status, cache64) = Ret (None, c1)) in Hc1. congruence.
Qed.

Lemma one_slab_foreign f : env_window [([], [one_slab])] f → foreign 1 f.
Proof.
  intros (waits & rs & [= -> ->]%list_elem_of_singleton & [[]%elem_of_nil|(r & ->%list_elem_of_singleton & [->| ->])]);
    intros c; apply entries_refl.
Qed.

Lemma cache64_slab_ok : oc_ok cache64_slab.
Proof.
  pose proof (add_slabs_ok 56 true 1 (fun f => ∀ c, f c = c)) as H. specialize (H ltac:(intros f Hf x; rewrite Hf; apply entries_refl)).
  specialize (H 1 fl0 [one_slab] cache64 cache64_ok (one_slab_creations _ (or_introl eq_refl))).
  unfold cache64_slab. destruct (add_slabs _ _ _ _ _ _) as [[st c]| |]; [apply H|apply cache64_ok..].
  by intros f (r & ->%list_elem_of_singleton & [->| ->]).
Qed.

(** The cache has no slab: one is added, and its last object is handed out. *)
Lemma alloc_object_correct_witness :
  ∃ o c', alloc_from_slabs 56 true 1 fl0 [([], [one_slab])] cache64 = Ret (Some o, c') ∧ o = 8192 + 62 * 64 ∧
    oc_ok c' ∧ ∃ c0, reaches (env_window [([], [one_slab])]) cache64 c0 ∧ ¬ obj_alloc c0 o ∧ obj_alloc c' o.
Proof.
  destruct (alloc_object_correct 56 true 1 fl0 [([], [one_slab])] cache64 cache64_ok one_slab_env one_slab_foreign) as [H _].
  destruct (alloc_from_slabs _ _ _ _ _ _) as [[[o|] c']| |] eqn:E; [|vm_compute in E; discriminate E..].
  exists o, c'. split; [reflexivity|]. split; [vm_compute in E; injection E as <-; reflexivity|].
  destruct H as (Hok & c0 & Hb & _ & _ & Hn & Hy & _). split; [exact Hok|]. exists c0. split_and!; [exact Hb|exact Hn|exact Hy].
Defined.

Definition cache64_one : ObjectCache :=
  match alloc_from_slabs 56 true 1 fl0 [] cache64_slab with Ret (_, c) => c | _ => cache64_slab end.
Definition slab_one : slab :=
  match slabs cache64_one !! slab_in_pages 56 8192 4096 with Some s => s | None => mkSlab 0 0 0 0 [] end.

Lemma cache64_one_ok : oc_ok cache64_one.
Proof.
  pose proof (alloc_from_slabs_ok 56 true 1 (fun f => ∀ c, f c = c) fl0 [] cache64_slab cache64_slab_ok I) as H.
  specialize (H ltac:(intros f Hf x; rewrite Hf; apply entries_refl) ltac:(intros f (? & ? & []%elem_of_nil & _))).
  unfold cache64_one. destruct (alloc_from_slabs _ _ _ _ _ _) as [[[o|] c]| |]; [apply H|apply H|exact cache64_slab_ok..].
Qed.

(** The object handed out is the last of the slab, as its link is pushed
    last. *)
Lemma free_object_correct_witness :
  ∃ c0 c', ReturnObjectToSlab true no_others (slab_in_pages 56 8192 4096) (8192 + 62 * 64) fl0 cache64_one = Ret c' ∧
    (∀ o', obj_alloc c0 o' ↔ obj_alloc cache64_one o' ∧ o' ≠ 8192 + 62 * 64) ∧
    returned_to true no_others (slab_in_pages 56 8192 4096) c0 c'.
Proof.
  apply (free_object_correct true no_others (slab_in_pages 56 8192 4096) slab_one (8192 + 62 * 64) fl0 cache64_one).
  - exact cache64_one_ok.
  - vm_compute. reflexivity.
  - exists 62. vm_compute. split; [split; [discriminate|reflexivity]|reflexivity].
  - apply (bool_decide_eq_false_1 (object_to_link (8192 + 62 * 64) (object_size cache64_one) ∈ sfree slab_one)).
    vm_compute. reflexivity.
  - vm_compute. reflexivity.
  - intros s1 c1 H. exact H.
Defined.

Lemma slab_layout_correct_witness :
  ∃ s, slabs (InitSlab (fun _ => true) 1 8192 4040 cache64).2 !! 1 = Some s ∧
    color_ok 4040 (InitSlab (fun _ => true) 1 8192 4040 cache64).2.
Proof.
  destruct (slab_layout_correct 56 1 8192 4040 12 cache64 (InitSlab (fun _ => true) 1 8192 4040 cache64).2)
    as (s & Hs & Hc & _);
    try (vm_compute; reflexivity); try (vm_compute; discriminate);
    try (vm_compute; split; discriminate).
  by exists s.
Defined.

(** In a cache whose slabs hold one object, giving the object back
    takes the slab off the partial list although it is on the full list. *)
Lemma one_object_slab_misfiled :
  let c := (Init 131072 0 0) <| slab_size := hashed_slab_size 131072 false |> in
  let r := mkCreation (Some 64) (Some 1048576) (fun c => c) (fun c => c) (fun _ => true) in
  ∃ o c', alloc_from_slabs 56 false 1 fl0 [([], [r])] c = Ret (Some o, c') ∧
    ofull c' = [64] ∧ opartial c' = [] ∧ ObjectSlab 56 false o c' = Ret 64 ∧
    ReturnObjectToSlab false no_others 64 o fl0 c' = Panic.
Proof. eexists _, _. split; [vm_compute; reflexivity|]. vm_compute. done. Qed.

(** The loop of object_cache_low_memory terminates within the number of
    empty slabs; it gives back no object that is handed out, never goes
    below the minimum object reserve of the cache, keeps the invariant, and
    stops only when at most minimumAllowed empty slabs are left or giving
    one more back would touch the reserve. *)
Lemma trim_empty_correct (small : bool) (fuel : nat) (minimumAllowed : Z) (c : ObjectCache) (Hok : oc_ok c)
    (Hfuel : (length (oempty c) <= fuel)%nat) (Hmin : 0 <= minimumAllowed) (Hres : 0 <= min_object_reserve c)
    (Hfits : min_object_reserve c + total_objects c < 2 ^ 64) :
  ∃ c', trim_empty small fuel no_others minimumAllowed c = Ret c' ∧ oc_ok c' ∧
    (∀ o, obj_alloc c' o ↔ obj_alloc c o) ∧ min_object_reserve c' = min_object_reserve c ∧
    (min_object_reserve c <= total_objects c - used_count c → min_object_reserve c <= total_objects c' - used_count c') ∧
    (oempty_count c' <= minimumAllowed ∨
     ∃ sid l s, oempty c' = sid :: l ∧ slabs c' !! sid = Some s ∧
       total_objects c' - used_count c' - ssize s < min_object_reserve c).
Proof. by apply trim_empty_ok. Qed.

Lemma trim_empty_correct_witness :
  ∃ c', trim_empty true 1 no_others 0 cache64_slab = Ret c' ∧ oempty_count cache64_slab = 1 ∧ oempty_count c' = 0.
Proof.
  destruct (trim_empty_correct true 1 0 cache64_slab cache64_slab_ok) as (c' & He & _);
    [vm_compute; lia|done|done|done|].
  exists c'. split; [exact He|]. split; [reflexivity|]. revert He. vm_compute. intros [= <-]. reflexivity.
Defined.

(** delete_object_cache of an idle cache without handed out objects
    succeeds and gives every slab back: no slab, no object and no memory use
    is left. A pending maintenance request is taken off the queue. *)
Lemma delete_cache_returns_all (sizeof_slab : Z) (small : bool) (fuel : nat) (c : ObjectCache) (Hok : oc_ok c)
    (Hunused : used_count c = 0) (Hfuel : (length (oempty c) <= fuel)%nat)
    (Hidle : maintenance_in_progress c = false) (Hqueued : maintenance_pending c = true → maintenance_queued c = true) :
  ∃ c', delete_object_cache sizeof_slab small fuel no_others None c = Ret (inr c') ∧
    slabs c' = ∅ ∧ total_objects c' = 0 ∧ usage c' = 0.
Proof.
  unfold delete_object_cache. rewrite Hidle. destruct (maintenance_pending c).
  - rewrite (Hqueued eq_refl). cbn [assert mbind outcome_bind].
    destruct (delete_ok sizeof_slab small fuel (c <| maintenance_queued := false |>)) as (c' & -> & ?); try done.
    { by apply (oc_ok_ext c). }
    by exists c'.
  - cbn [mbind outcome_bind]. destruct (delete_ok sizeof_slab small fuel c) as (c' & -> & ?); try done. by exists c'.
Qed.

Lemma delete_cache_returns_all_witness :
  usage cache64_slab = 4096 ∧
  ∃ c', delete_object_cache 56 true 1 no_others None cache64_slab = Ret (inr c') ∧ usage c' = 0.
Proof.
  split; [reflexivity|].
  destruct (delete_cache_returns_all 56 true 1 cache64_slab cache64_slab_ok) as (c' & He & _ & _ & Hu);
    [reflexivity|vm_compute; lia|reflexivity|vm_compute; discriminate|]. by exists c'.
Defined.

(** When the reserve of a cache cannot be refilled,
    mm_perform_maintenance_thread_work leaves maintenance_pending and
    maintenance_in_progress set: the cache is never queued again by
    increase_object_reserve, object_cache_low_memory passes it over, and
    delete_object_cache only marks it. *)
Lemma maintenance_failure_sticks :
  let c0 := object_cache_set_minimum_reserve 10 cache64 in
  let failed := mkCreation None None (fun c => c) (fun c => c) (fun _ => true) in
  ∃ c, mm_perform_maintenance_thread_work 56 true 1 no_others 1 [(fun c => c, [], [failed])] None c0 = Ret c ∧
    maintenance_queued c0 = true ∧ maintenance_queued c = false ∧
    maintenance_pending c = true ∧ maintenance_in_progress c = true ∧
    maintenance_queued (increase_object_reserve c) = false ∧
    (∀ fuel others level reclaimed d, low_memory_cache 56 true fuel others level reclaimed d c = Ret (d, c)) ∧
    (∀ fuel others d, delete_object_cache 56 true fuel others d c = Ret (inl (c <| maintenance_delete := true |>))).
Proof. eexists. split; [vm_compute; reflexivity|]. by split_and!. Qed.
