(* ===== verification/UserAddressSpace.v ===== *)
(** aspace/VMUserAddressSpace.cpp and the parts of aspace/VMAddressSpace.cpp,
    VMAddressSpace.h and VMArea.h it uses: the areas and reserved ranges of a
    user address space, and the search for a free range of addresses.

    The tree of areas is the sequence of its areas in the order of their base
    addresses.  [lib/AVLTree.h], where the search for the closest base address
    is implemented, is not part of the repository: [FindClosest] is a method
    of the class [AreaTree], which states what is expected of it.  Random
    numbers and results of memory allocations are arguments. *)
From S2P Require Import Prelude.
From Stdlib Require Import ZArith Lia.
From stdpp Require Import base numbers list_numbers list.
Local Open Scope Z_scope.

Definition VM_RESERVED_AREA_ID : Z := -42.
Definition RESERVED_AVOID_BASE : Z := 1.

(** [aptr] is the address of the structure. *)
Record area := mkArea {
  aptr : Z;
  area_id : Z;
  Base : Z;
  Size : Z;
  CommitBase : Z;
  protection : Z;
  cache_offset : Z
}.
#[export] Instance eta_area : Eta area := fun a =>
  mkArea (aptr a) (area_id a) (Base a) (Size a) (CommitBase a) (protection a) (cache_offset a).
#[export] Instance area_eq_dec : EqDecision area.
Proof. solve_decision. Defined.

Record space := mkSpace {
  fBase : Z;
  fEndAddress : Z;
  fFreeSpace : Z;
  fRefCount : Z;
  fChangeCount : Z;
  fRandomizingEnabled : bool;
  fDeleting : bool;
  fAreas : list area;
  fNextInsertHint : Z
}.
#[export] Instance eta_space : Eta space := fun s =>
  mkSpace (fBase s) (fEndAddress s) (fFreeSpace s) (fRefCount s) (fChangeCount s)
    (fRandomizingEnabled s) (fDeleting s) (fAreas s) (fNextInsertHint s).

Definition is_reserved (a : area) : bool := area_id a =? VM_RESERVED_AREA_ID.

Definition ContainsAddress (address : Z) (a : area) : bool :=
  (Base a <=? address) && (address <=? u64 (Base a + u64 (Size a - 1))).

(** ** The tree of areas *)

Inductive sorted : list area → Prop :=
  | sorted_nil : sorted []
  | sorted_cons a l : (∀ b, b ∈ l → Base a < Base b) → sorted l → sorted (a :: l).

Class AreaTree := {
  FindClosest : list area → Z → bool → option area;
  FindClosest_less l k : sorted l → FindClosest l k true = last (filter (fun a => Base a <= k) l);
  FindClosest_greater l k : sorted l → FindClosest l k false = head (filter (fun a => k <= Base a) l)
}.

#[export] Program Instance list_AreaTree : AreaTree := {|
  FindClosest l k less :=
    if less then last (filter (fun a => Base a <= k) l) else head (filter (fun a => k <= Base a) l)
|}.
Solve All Obligations with done.

(** The iterator that starts at an area: the area itself comes first. *)
Fixpoint GetIterator (a : area) (l : list area) : list area :=
  match l with
  | [] => []
  | b :: l => if decide (b = a) then b :: l else GetIterator a l
  end.

Definition Next (a : area) (l : list area) : option area := head (tail (GetIterator a l)).

Fixpoint Previous (a : area) (l : list area) : option area :=
  match l with
  | [] => None
  | b :: l => match l with
              | [] => None
              | c :: _ => if decide (c = a) then Some b else Previous a l
              end
  end.

Fixpoint tree_Insert (a : area) (l : list area) : list area :=
  match l with
  | [] => [a]
  | b :: l => if Base a <? Base b then a :: b :: l else b :: tree_Insert a l
  end.

Definition tree_Remove (a : area) (l : list area) : list area := remove_elem a l.

(** [a] changed in place. *)
Definition tree_Update (a b : area) (l : list area) : list area :=
  (fun x => if decide (x = a) then b else x) <$> l.

(** ** Address specifications *)

Inductive addressSpec :=
  | B_EXACT_ADDRESS | B_BASE_ADDRESS | B_ANY_ADDRESS | B_ANY_KERNEL_ADDRESS | B_ANY_KERNEL_BLOCK_ADDRESS
  | B_RANDOMIZED_ANY_ADDRESS | B_RANDOMIZED_BASE_ADDRESS | B_OTHER_SPEC.
#[export] Instance addressSpec_eq_dec : EqDecision addressSpec.
Proof. solve_decision. Defined.

Definition is_base_address_spec (spec : addressSpec) : bool :=
  bool_decide (spec = B_BASE_ADDRESS) || bool_decide (spec = B_RANDOMIZED_BASE_ADDRESS).

Definition is_valid_spot (base alignedBase size limit : Z) : bool :=
  (base <=? alignedBase) && (alignedBase <? u64 (alignedBase + u64 (size - 1)))
  && (u64 (alignedBase + u64 (size - 1)) <=? limit).

Definition align_address (address alignment : Z) (spec : addressSpec) (baseAddress : Z) : Z :=
  roundup2 (if is_base_address_spec spec then Z.max address baseAddress else address) alignment.

Definition max_randomize : Z := 0x8000000000.
Definition max_initial_randomize : Z := 0x20000000000.

Definition _IsRandomized (s : space) (spec : addressSpec) : bool :=
  fRandomizingEnabled s &&
  (bool_decide (spec = B_RANDOMIZED_ANY_ADDRESS) || bool_decide (spec = B_RANDOMIZED_BASE_ADDRESS)).

(** [random] is the number [arc4random_buf] yields. *)
Definition _RandomizeAddress (start end_ alignment : Z) (initial : bool) (random : Z) : outcome Z :=
  _ ← assert (Z.land start (u64 (alignment - 1)) =? 0);
  _ ← assert (start <=? end_);
  if start =? end_ then Ret start
  else
    let range := u64 (end_ - start + 1) in
    let range := Z.min range (if initial then max_initial_randomize else max_randomize) in
    let random := random mod range in
    let random := Z.land random (u64 (Z.lnot (u64 (alignment - 1)))) in
    Ret (u64 (start + random)).

(** ** Searching a spot *)

Section search.
Context `{AreaTree}.
(** What one call of [_InsertAreaSlot] does not change: the address space, the
    size, the end of the range, the alignment, the random number for the
    placement, and whether the area is a reserved one. *)
Context (s : space) (size end_ alignment random : Z) (reserved : bool).

Definition place (spec : addressSpec) (base rangeEnd : Z) : outcome Z :=
  if _IsRandomized s spec then _RandomizeAddress base rangeEnd alignment false random else Ret base.

(** The loop over the holes: [inl] is the address found, [inr] the areas on
    both sides where it stops. *)
Fixpoint walk (spec : addressSpec) (start : Z) (it : list area) (last : area) (next : option area)
  : outcome (Z + area * option area) :=
  match next with
  | None => Ret (inr (last, None))
  | Some n =>
      if u64 (u64 (Base n + Size n) - 1) <=? end_ then
        let alignedBase := align_address (u64 (Base last + Size last)) alignment spec start in
        let nextBase := Z.min end_ (u64 (Base n - 1)) in
        if is_valid_spot (u64 (Base last + u64 (Size last - 1))) alignedBase size nextBase then
          let rangeEnd := Z.min (u64 (nextBase - size + 1)) end_ in
          base ← place spec alignedBase rangeEnd;
          Ret (inl base)
        else
          match it with
          | [] => Ret (inr (n, None))
          | n' :: it => walk spec start it n (Some n')
          end
      else Ret (inr (last, Some n))
  end.

(** The search in the reserved ranges, with the areas passed ([pre], the last
    one first): the address and the areas after the reserved range made room. *)
Fixpoint search_reserved (spec : addressSpec) (pre rest : list area) : outcome (option (Z * list area)) :=
  match rest with
  | [] => Ret None
  | next :: it =>
      if negb (is_reserved next) then search_reserved spec (next :: pre) it
      else if end_ <? u64 (u64 (Base next + size) - 1) then Ret None
      else
        let newAlignedBase := roundup2 (Base next) alignment in
        if (Base next =? newAlignedBase) && (Size next =? size) then
          Ret (Some (newAlignedBase, reverse pre ++ it))
        else if (Z.land (protection next) RESERVED_AVOID_BASE =? 0) && (newAlignedBase =? Base next)
                && (size <=? Size next) then
          let rangeEnd := Z.min (u64 (u64 (Base next + Size next) - size)) end_ in
          newAlignedBase ← (if _IsRandomized s spec then _RandomizeAddress (Base next) rangeEnd alignment false random
                            else Ret newAlignedBase);
          let offset := u64 (newAlignedBase - Base next) in
          let next' := next <| Base := u64 (Base next + offset + size) |>
                            <| Size := u64 (Size next - offset - size) |> in
          Ret (Some (newAlignedBase, reverse pre ++ next' :: it))
        else if is_valid_spot (Base next) newAlignedBase size
                  (Z.min (u64 (u64 (Base next + Size next) - 1)) end_) then
          newAlignedBase ←
            (if _IsRandomized s spec then
               let alignedNextBase := roundup2 (Base next) alignment in
               let startRange := u64 (Base next + Size next) in
               let startRange := u64 (startRange - u64 (size + max_randomize)) in
               let startRange := rounddown2 startRange alignment in
               let startRange := Z.max startRange alignedNextBase in
               let rangeEnd := Z.min (u64 (u64 (Base next + Size next) - size)) end_ in
               _RandomizeAddress startRange rangeEnd alignment false random
             else Ret (rounddown2 (u64 (u64 (Base next + Size next) - size)) alignment));
          let next' := next <| Size := u64 (newAlignedBase - Base next) |> in
          Ret (Some (newAlignedBase, reverse pre ++ next' :: it))
        else search_reserved spec (next :: pre) it
  end.

(** [next] and [last]: the areas on both sides of [start + size]. *)
Definition neighbours (start : Z) : option area * option area :=
  let next := FindClosest (fAreas s) (u64 (start + size)) false in
  (match next with
   | Some n => Previous n (fAreas s)
   | None => FindClosest (fAreas s) (u64 (start + size)) true
   end, next).

(** The spot before the first area, tried when nothing precedes the range; the
    address if it was found, and where the loop starts otherwise. *)
Definition first_spot (spec : addressSpec) (start : Z) (last next : option area) (it : list area)
  : outcome (option Z * option area * option area * list area) :=
  match last with
  | Some _ => Ret (None, last, next, it)
  | None =>
      let alignedBase := roundup2 start alignment in
      let nextBase := match next with None => end_ | Some n => Z.min (u64 (Base n - 1)) end_ end in
      if is_valid_spot start alignedBase size nextBase then
        let rangeEnd := Z.min (u64 (nextBase - size + 1)) end_ in
        base ← place spec alignedBase rangeEnd;
        Ret (Some base, last, next, it)
      else Ret (None, next, head it, tail it)
  end.

(** What follows the loop when it stopped between [last] and [next]: [inl] is
    the result of the search, [inr] where to start over. *)
Definition after_walk (VM_HEAP_BASE : Z) (useHint : bool) (originalStart : Z) (spec : addressSpec) (start : Z)
    (last : area) (next : option area) : outcome (option (Z * list area) + addressSpec * Z) :=
  let alignedBase := align_address (u64 (Base last + Size last)) alignment spec start in
  if bool_decide (next = None)
     && is_valid_spot (u64 (Base last + u64 (Size last - 1))) alignedBase size end_ then
    base ← place spec alignedBase (u64 (end_ - size + 1));
    Ret (inl (Some (base, fAreas s)))
  else if is_base_address_spec spec then
    Ret (inr (if negb (_IsRandomized s spec) then (B_ANY_ADDRESS, VM_HEAP_BASE)
              else if start =? originalStart then (B_RANDOMIZED_ANY_ADDRESS, VM_HEAP_BASE)
              else (B_RANDOMIZED_BASE_ADDRESS, originalStart)))
  else if useHint && negb (originalStart =? 0) && negb (start =? originalStart) then
    Ret (inr (spec, originalStart))
  else if negb reserved then r ← search_reserved spec [] (fAreas s); Ret (inl r)
  else Ret (inl None).

(** One round of the search, from [second_chance] on, for all but exact
    addresses; [useHint] and [originalStart] are those of the caller. *)
Definition search_round (VM_HEAP_BASE : Z) (useHint : bool) (originalStart : Z) (spec : addressSpec) (start : Z)
  : outcome (option (Z * list area) + addressSpec * Z) :=
  let '(last, next) := neighbours start in
  let it := match next with Some n => GetIterator n (fAreas s) | None => fAreas s end in
  '(found, last, next, it) ← first_spot spec start last next it;
  match found with
  | Some base => Ret (inl (Some (base, fAreas s)))
  | None =>
      last ← deref last;
      r ← walk spec start it last next;
      match r with
      | inl base => Ret (inl (Some (base, fAreas s)))
      | inr (last, next) => after_walk VM_HEAP_BASE useHint originalStart spec start last next
      end
  end.

Fixpoint find_spot (fuel : nat) (VM_HEAP_BASE : Z) (useHint : bool) (originalStart : Z)
    (spec : addressSpec) (start : Z) : outcome (option (Z * list area)) :=
  match fuel with
  | O => NoFuel
  | S fuel =>
      r ← search_round VM_HEAP_BASE useHint originalStart spec start;
      match r with
      | inl r => Ret r
      | inr (spec, start) => find_spot fuel VM_HEAP_BASE useHint originalStart spec start
      end
  end.

(** The case [B_EXACT_ADDRESS]. *)
Definition exact_spot (start : Z) : option Z :=
  let '(last, next) := neighbours start in
  if match last with None => true | Some l => u64 (Base l + u64 (Size l - 1)) <? start end
     && match next with None => true | Some n => u64 (start + u64 (size - 1)) <? Base n end
  then Some start else None.

End search.

(** The loop that aligns a block to a power of two of its size. *)
Fixpoint grow_block_alignment (fuel : nat) (alignment size maximum : Z) : outcome Z :=
  if (alignment <? size) && (alignment <? maximum) then
    match fuel with
    | O => NoFuel
    | S fuel => grow_block_alignment fuel (u64 (Z.shiftl alignment 1)) size maximum
    end
  else Ret alignment.

(** The alignment [_InsertAreaSlot] searches with. *)
Definition slot_alignment (spec : addressSpec) (alignment size HardwareBlockSize : Z) : outcome Z :=
  let alignment := if alignment =? 0 then PAGE_SIZE else alignment in
  if bool_decide (spec = B_ANY_KERNEL_BLOCK_ADDRESS)
  then grow_block_alignment 64 alignment size HardwareBlockSize else Ret alignment.

(** ** Operations of the address space *)

Section ops.
Context `{AreaTree}.
(** [VM_HEAP_BASE] and [TranslationMap()->HardwareBlockSize()] depend on the
    board. *)
Context (VM_HEAP_BASE HardwareBlockSize : Z).

Definition Get (s : space) : space := s <| fRefCount ::= fun n => n + 1 |>.
Definition Put (s : space) : space := s <| fRefCount ::= fun n => n - 1 |>.
Definition IncrementChangeCount (s : space) : space := s <| fChangeCount ::= fun n => n + 1 |>.

Definition CreateReserved (ptr flags : Z) : area := mkArea ptr VM_RESERVED_AREA_ID 0 0 0 flags 0.

(** [newReserved] is the memory for another reserved area, if there is any. *)
Definition _InsertAreaIntoReservedRegion (start size : Z) (a : area) (newReserved : option Z) (s : space)
  : status * space :=
  match FindClosest (fAreas s) start true with
  | None => (Err ENOENT, s)
  | Some reserved =>
      if negb (ContainsAddress start reserved) || negb (ContainsAddress (u64 (u64 (start + size) - 1)) reserved)
      then (Err ENOENT, s)
      else if negb (is_reserved reserved) then (Err EINVAL, s)
      else
        let s' :=
          if start =? Base reserved then
            if size =? Size reserved then
              Some (Put (s <| fAreas ::= tree_Remove reserved |>))
            else
              Some (s <| fAreas ::= tree_Update reserved
                           (reserved <| Base := u64 (Base reserved + size) |>
                                     <| Size := u64 (Size reserved - size) |>) |>)
          else if u64 (start + size) =? u64 (Base reserved + Size reserved) then
            Some (s <| fAreas ::= tree_Update reserved (reserved <| Size := u64 (start - Base reserved) |>) |>)
          else
            ptr ← newReserved;
            let new := (CreateReserved ptr (protection reserved))
                         <| Base := u64 (start + size) |>
                         <| Size := u64 (u64 (Base reserved + Size reserved) - start - size) |>
                         <| cache_offset := cache_offset reserved |> in
            let s := Get s in
            let s := s <| fAreas ::= tree_Update reserved (reserved <| Size := u64 (start - Base reserved) |>) |> in
            Some (s <| fAreas ::= tree_Insert new |>) in
        match s' with
        | None => (Err ENOMEM, s)
        | Some s =>
            let a := a <| Base := start |> <| Size := size |> <| CommitBase := u64 (start + size) |> in
            (Ok, IncrementChangeCount (s <| fAreas ::= tree_Insert a |>))
        end
  end.

(** [random0] and [random] are the random numbers for the start of the search
    and for the placement. *)
Definition _InsertAreaSlot (start size end_ : Z) (spec : addressSpec) (alignment : Z) (a : area)
    (newReserved : option Z) (random0 random : Z) (s : space) : outcome (status * space) :=
  if (start <? fBase s) || (size =? 0) || (end_ <? u64 (start + u64 (size - 1))) then Ret (Err EFAULT, s)
  else if fEndAddress s <? end_ then Ret (Err ENOMEM, s)
  else
    let early :=
      if bool_decide (spec = B_EXACT_ADDRESS) && negb (is_reserved a) then
        let '(st, s') := _InsertAreaIntoReservedRegion start size a newReserved s in
        if bool_decide (st = Ok) || bool_decide (st = Err EINVAL) then Some (st, s') else None
      else None in
    match early with
    | Some r => Ret r
    | None =>
        alignment ← slot_alignment spec alignment size HardwareBlockSize;
        let start := roundup2 start alignment in
        let useHint := negb (bool_decide (spec = B_EXACT_ADDRESS)) && negb (is_base_address_spec spec) in
        let last := u64 (u64 (end_ - size) + 1) in
        '(originalStart, start) ←
          (if fRandomizingEnabled s && bool_decide (spec = B_RANDOMIZED_BASE_ADDRESS) then
             r ← _RandomizeAddress start last alignment true random0; Ret (start, r)
           else if useHint && (start <=? fNextInsertHint s) && (fNextInsertHint s <=? last) then
             Ret (start, fNextInsertHint s)
           else Ret (0, start));
        r ← (if bool_decide (spec = B_EXACT_ADDRESS) then
               Ret match exact_spot s size start with Some base => inr (Some (base, fAreas s)) | None => inr None end
             else if bool_decide (spec = B_OTHER_SPEC) then Ret (inl EINVAL)
             else
               r ← find_spot s size end_ alignment random (is_reserved a) 4 VM_HEAP_BASE useHint originalStart spec start;
               Ret (inr r));
        match r with
        | inl e => Ret (Err e, s)
        | inr None => Ret (Err (if bool_decide (spec = B_EXACT_ADDRESS) then EINVAL else ENOMEM), s)
        | inr (Some (base, areas)) =>
            let s := if useHint then s <| fNextInsertHint := u64 (base + size) |> else s in
            let a := a <| Base := base |> <| Size := size |> <| CommitBase := u64 (base + size) |> in
            Ret (Ok, IncrementChangeCount (s <| fAreas := tree_Insert a areas |>))
        end
    end.

Record restrictions := mkRestrictions {
  raddress : Z;
  address_specification : addressSpec;
  ralignment : Z
}.

(** The area as it is in the tree. *)
Definition in_tree (ptr : Z) (s : space) : option area := list_find (fun b => aptr b = ptr) (fAreas s) ≫= fun p => Some p.2.

Definition InsertArea (a : area) (size : Z) (r : restrictions) (newReserved : option Z) (random0 random : Z)
    (s : space) : outcome (status * option Z * space) :=
  match
    match address_specification r with
    | B_EXACT_ADDRESS => Some (raddress r, u64 (raddress r + u64 (size - 1)))
    | B_BASE_ADDRESS | B_RANDOMIZED_BASE_ADDRESS => Some (raddress r, fEndAddress s)
    | B_ANY_ADDRESS | B_ANY_KERNEL_ADDRESS | B_ANY_KERNEL_BLOCK_ADDRESS | B_RANDOMIZED_ANY_ADDRESS =>
        Some (fBase s, fEndAddress s)
    | B_OTHER_SPEC => None
    end
  with
  | None => Ret (Err EINVAL, None, s)
  | Some (searchBase, searchEnd) =>
      let searchBase := if bool_decide (address_specification r = B_EXACT_ADDRESS) then searchBase
                        else Z.max searchBase VM_HEAP_BASE in
      '(st, s) ← _InsertAreaSlot searchBase size searchEnd (address_specification r) (ralignment r) a
                   newReserved random0 random s;
      match st with
      | Ok =>
          a ← deref (in_tree (aptr a) s);
          Ret (Ok, Some (Base a), s <| fFreeSpace ::= fun f => u64 (f - Size a) |>)
      | Err e => Ret (Err e, None, s)
      end
  end.

Definition RemoveArea (a : area) (s : space) : space :=
  let s := s <| fAreas ::= tree_Remove a |> in
  if is_reserved a then s
  else (IncrementChangeCount s) <| fFreeSpace ::= fun f => u64 (f + Size a) |>.

Definition CanResizeArea (a : area) (newSize : Z) (s : space) : bool :=
  let newEnd := u64 (Base a + u64 (newSize - 1)) in
  match Next a (fAreas s) with
  | None => newEnd <=? fEndAddress s
  | Some next =>
      (newEnd <? Base next) ||
      (is_reserved next && (cache_offset next <=? Base a) &&
       (newEnd <=? u64 (Base next + u64 (Size next - 1))))
  end.

Definition ShrinkAreaHead (a : area) (size : Z) (s : space) : space :=
  if size =? Size a then s
  else
    let a' := a <| Base := u64 (Base a + Size a - size) |> <| Size := size |> in
    let a' := a' <| CommitBase := Z.max (Base a') (CommitBase a') |> in
    s <| fAreas ::= tree_Update a a' |>.

Definition ShrinkAreaTail (a : area) (size : Z) (s : space) : space :=
  if size =? Size a then s
  else
    let a' := a <| Size := size |> in
    let a' := a' <| CommitBase := Z.min (u64 (Base a' + Size a')) (CommitBase a') |> in
    s <| fAreas ::= tree_Update a a' |>.

Definition ResizeArea (a : area) (newSize : Z) (s : space) : outcome space :=
  let newEnd := u64 (Base a + u64 (newSize - 1)) in
  s ← match Next a (fAreas s) with
      | None => Ret s
      | Some next =>
          if Base next <=? newEnd then
            if negb (is_reserved next) || (Base a <? cache_offset next) ||
               (u64 (Base next + u64 (Size next - 1)) <? newEnd) then Panic
            else
              let offset := u64 (u64 (Base a + newSize) - Base next) in
              if Size next <=? offset then Ret (RemoveArea next s)
              else Ret (ShrinkAreaHead next (u64 (Size next - offset)) s)
          else Ret s
      end;
  Ret (s <| fAreas ::= tree_Update a (a <| Size := newSize |>) |>).

(** [ptr] is the memory for the reserved area, if there is any. *)
Definition ReserveAddressRange (size : Z) (r : restrictions) (flags : Z) (ptr : option Z) (random0 random : Z)
    (s : space) : outcome (status * option Z * space) :=
  if fDeleting s then Ret (Err ESRCH, None, s)
  else
    match ptr with
    | None => Ret (Err ENOMEM, None, s)
    | Some ptr =>
        '(st, address, s) ← InsertArea (CreateReserved ptr flags) size r None random0 random s;
        match st with
        | Err e => Ret (Err e, None, s)
        | Ok =>
            a ← deref (in_tree ptr s);
            Ret (Ok, address, Get (s <| fAreas ::= tree_Update a (a <| cache_offset := Base a |>) |>))
        end
    end.

Fixpoint unreserve (endAddress : Z) (it : list area) (s : space) : space :=
  match it with
  | [] => s
  | a :: it =>
      if u64 (u64 (Base a + Size a) - 1) <=? endAddress then
        unreserve endAddress it (if is_reserved a then Put (RemoveArea a s) else s)
      else s
  end.

Definition UnreserveAddressRange (address size : Z) (s : space) : status * space :=
  if fDeleting s then (Err ESRCH, s)
  else
    match FindClosest (fAreas s) address false with
    | None => (Ok, s)
    | Some a => (Ok, unreserve (u64 (u64 (address + size) - 1)) (GetIterator a (fAreas s)) s)
    end.

Definition UnreserveAllAddressRanges (s : space) : space :=
  foldl (fun s a => if is_reserved a then Put (RemoveArea a s) else s) s (fAreas s).

(** ** Looking areas up *)

Definition skip_reserved (l : list area) : option area := head (filter (fun a => is_reserved a = false) l).

Definition FirstArea (s : space) : option area := skip_reserved (fAreas s).

Definition NextArea (a : area) (s : space) : option area := skip_reserved (tail (GetIterator a (fAreas s))).

Definition LookupArea (address : Z) (s : space) : option area :=
  a ← FindClosest (fAreas s) address true;
  if is_reserved a then None else if ContainsAddress address a then Some a else None.

Definition FindClosestArea (address : Z) (less : bool) (s : space) : option area :=
  a ← FindClosest (fAreas s) address less;
  skip_reserved (GetIterator a (fAreas s)).

(** [AreaRangeIterator]: the areas it yields for a range. *)
Definition range_next (endAddress : Z) (a : area) (s : space) : option area :=
  n ← NextArea a s;
  if endAddress <? Base n then None else Some n.

Definition range_rewind (address endAddress : Z) (s : space) : option area :=
  a ← FindClosestArea address true s;
  if ContainsAddress address a then Some a else range_next endAddress a s.

Fixpoint range_areas (fuel : nat) (endAddress : Z) (next : option area) (s : space) : list area :=
  match fuel, next with
  | S fuel, Some a => a :: range_areas fuel endAddress (range_next endAddress a s) s
  | _, _ => []
  end.

Definition GetAreaRangeIterator (address size : Z) (s : space) : list area :=
  let endAddress := u64 (u64 (address + size) - 1) in
  range_areas (length (fAreas s)) endAddress (range_rewind address endAddress s) s.
End ops.

(** ** Invariant *)

Definition End (a : area) : Z := Base a + Size a.

(** Each area ends before the next one starts. *)
Fixpoint ordered (l : list area) : Prop :=
  match l with
  | [] => True
  | a :: l => (∀ b, b ∈ l → End a <= Base b) ∧ ordered l
  end.

Definition within (lo hi : Z) (l : list area) : Prop :=
  ∀ a, a ∈ l → lo <= Base a ∧ 0 <= Size a ∧ End a <= hi.

Definition nonempty (l : list area) : Prop := ∀ a, a ∈ l → 0 < Size a.

(** An address space: [A] bounds the alignments for which rounding up an
    address of the space does not wrap around. *)
Record space_ok (A : Z) (s : space) : Prop := {
  sp_base : 0 <= fBase s;
  sp_end : fBase s <= fEndAddress s ∧ fEndAddress s + 1 + A <= 2 ^ 64;
  sp_hint : fits 64 (fNextInsertHint s);
  sp_within : within (fBase s) (fEndAddress s + 1) (fAreas s);
  sp_ordered : ordered (fAreas s);
  sp_nonempty : nonempty (fAreas s)
}.

(** A free range of addresses between the areas. *)
Definition free_range (lo hi : Z) (l : list area) (base size : Z) : Prop :=
  lo <= base ∧ base + size <= hi ∧
  ∃ l1 l2, l = l1 ++ l2 ∧ (∀ a, a ∈ l1 → End a <= base) ∧ (∀ b, b ∈ l2 → base + size <= Base b).

(** A reserved range gave way: parts of it are left. *)
Definition gave_way (l l' : list area) : Prop :=
  l' = l ∨ ∃ p r q rs, l = p ++ r :: q ∧ is_reserved r = true ∧ l' = p ++ rs ++ q ∧ ordered rs ∧
    ∀ r', r' ∈ rs → is_reserved r' = true ∧ Base r <= Base r' ∧ 0 <= Size r' ∧ End r' <= End r.

Lemma ordered_app l1 l2 :
  ordered (l1 ++ l2) ↔ ordered l1 ∧ ordered l2 ∧ ∀ a b, a ∈ l1 → b ∈ l2 → End a <= Base b.
Proof.
  induction l1 as [|x l1 IH]; cbn.
  { split; [|tauto]. intros. split_and!; try done. by intros a b ?%elem_of_nil. }
  rewrite IH. setoid_rewrite elem_of_app. setoid_rewrite elem_of_cons.
  split.
  - intros (H1 & H2 & H3 & H4). split_and!; [auto|auto|auto|]. intros a b [->|]; auto.
  - intros ((H1 & H2) & H3 & H4). split_and!; [|auto..]. intros b [|]; auto.
Qed.

Lemma within_app lo hi l1 l2 : within lo hi (l1 ++ l2) ↔ within lo hi l1 ∧ within lo hi l2.
Proof. unfold within. setoid_rewrite elem_of_app. naive_solver. Qed.

Lemma within_cons lo hi a l :
  within lo hi (a :: l) ↔ (lo <= Base a ∧ 0 <= Size a ∧ End a <= hi) ∧ within lo hi l.
Proof. unfold within. setoid_rewrite elem_of_cons. naive_solver. Qed.

Lemma nonempty_app l1 l2 : nonempty (l1 ++ l2) ↔ nonempty l1 ∧ nonempty l2.
Proof. unfold nonempty. setoid_rewrite elem_of_app. naive_solver. Qed.

Lemma nonempty_cons a l : nonempty (a :: l) ↔ 0 < Size a ∧ nonempty l.
Proof. unfold nonempty. setoid_rewrite elem_of_cons. naive_solver. Qed.

Lemma ordered_sorted l : ordered l → nonempty l → sorted l.
Proof.
  induction l as [|a l IH]; [constructor|]. intros [Ha Hl] [Hp Hn]%nonempty_cons. constructor; [|auto].
  intros b Hb. specialize (Ha b Hb). unfold End in Ha. lia.
Qed.

Lemma sorted_NoDup l : sorted l → NoDup l.
Proof.
  induction 1 as [|a l Ha Hl IH]; constructor; [|done]. intros Hin. specialize (Ha a Hin). lia.
Qed.

(** [ordered] in the middle of a list. *)
Lemma ordered_mid l1 a l2 :
  ordered (l1 ++ a :: l2) ↔ ordered l1 ∧ ordered l2 ∧ (∀ x, x ∈ l1 → End x <= Base a) ∧
    (∀ y, y ∈ l2 → End a <= Base y) ∧ ∀ x y, x ∈ l1 → y ∈ l2 → End x <= Base y.
Proof.
  rewrite ordered_app. cbn [ordered]. setoid_rewrite elem_of_cons. split.
  - intros (H1 & (H2 & H3) & H4). split_and!; auto.
  - intros (H1 & H2 & H3 & H4 & H5). split_and!; auto. intros x b Hx [->|]; auto.
Qed.

(** Inserting an area into a free range. *)
Lemma tree_Insert_split a l1 l2 :
  (∀ x, x ∈ l1 → Base x <= Base a) → (∀ y, y ∈ l2 → Base a < Base y) →
  tree_Insert a (l1 ++ l2) = l1 ++ a :: l2.
Proof.
  intros H1 H2. induction l1 as [|x l1 IH]; cbn.
  - destruct l2 as [|y l2]; [done|]. cbn. destruct (Z.ltb_spec (Base a) (Base y)); [done|].
    specialize (H2 y (list_elem_of_here _ _)). lia.
  - specialize (H1 x) as Hx. destruct (Z.ltb_spec (Base a) (Base x)); [specialize (Hx (list_elem_of_here _ _)); lia|].
    f_equal. apply IH. intros y Hy. apply H1. by right.
Qed.

Lemma tree_Insert_ok lo hi l a :
  within lo hi l → ordered l → 0 < Size a → free_range lo hi l (Base a) (Size a) →
  (∃ l1 l2, l = l1 ++ l2 ∧ tree_Insert a l = l1 ++ a :: l2) ∧
  within lo hi (tree_Insert a l) ∧ ordered (tree_Insert a l) ∧ (nonempty l → nonempty (tree_Insert a l)).
Proof.
  intros Hw Ho Ha (Hlo & Hhi & l1 & l2 & -> & H1 & H2).
  assert (tree_Insert a (l1 ++ l2) = l1 ++ a :: l2) as ->.
  { apply tree_Insert_split.
    - intros x Hx. destruct (Hw x) as (_ & ? & _); [apply elem_of_app; by left|]. specialize (H1 x Hx). unfold End in H1. lia.
    - intros y Hy. specialize (H2 y Hy). lia. }
  apply within_app in Hw as [Hw1 Hw2]. apply ordered_app in Ho as (Ho1 & Ho2 & Ho3). split_and!.
  - by exists l1, l2.
  - rewrite within_app, within_cons. unfold End. split_and!; try done; lia.
  - apply ordered_mid. split_and!; try done.
  - rewrite !nonempty_app, nonempty_cons. tauto.
Qed.

(** The areas other than reserved ones are untouched by a reserved range that
    gives way, and no range becomes reserved that was not. *)
Lemma gave_way_others l l' x : gave_way l l' → is_reserved x = false → x ∈ l' ↔ x ∈ l.
Proof.
  intros [->|(p & r & q & rs & -> & Hr & -> & _ & Hrs)] Hx; [done|].
  rewrite !elem_of_app, elem_of_cons. split; [|intros [?|[->|?]]; [auto|congruence|auto]].
  intros [?|[Hin|?]]; [auto| |auto]. destruct (Hrs x Hin). congruence.
Qed.

Lemma gave_way_reserved l l' x : gave_way l l' → x ∈ l' → is_reserved x = true →
  ∃ y, y ∈ l ∧ is_reserved y = true ∧ Base y <= Base x ∧ End x <= End y.
Proof.
  intros [->|(p & r & q & rs & -> & Hr & -> & _ & Hrs)] Hin Hx; [by exists x|].
  rewrite !elem_of_app in Hin. destruct Hin as [?|[Hin|?]].
  - exists x. rewrite elem_of_app. split_and!; [by left|done|lia|lia].
  - exists r. destruct (Hrs x Hin) as (_ & ? & _ & ?). rewrite elem_of_app. split_and!; [right; by left|done..].
  - exists x. rewrite elem_of_app. split_and!; [right; by right|done|lia|lia].
Qed.

Lemma gave_way_ok lo hi l l' : gave_way l l' → within lo hi l → ordered l → within lo hi l' ∧ ordered l'.
Proof.
  intros [->|(p & r & q & rs & -> & Hr & -> & Hors & Hrs)]; [done|].
  rewrite !within_app, !within_cons. intros (Hp & Hw & Hq) Ho.
  apply ordered_mid in Ho as (H1 & H2 & H3 & H4 & H5). split.
  - split; [done|]. split; [|done]. intros x Hx. destruct (Hrs x Hx) as (_ & ? & ? & ?). lia.
  - rewrite !ordered_app. split_and!; try done.
    + intros x y Hx Hy. destruct (Hrs x Hx) as (_ & _ & _ & ?). specialize (H4 y Hy). lia.
    + intros x y Hx [Hy|Hy]%elem_of_app; [|auto]. destruct (Hrs y Hy) as (_ & ? & _). specialize (H3 x Hx). lia.
Qed.

(** ** Addresses *)

Lemma pow2_pos k : 0 <= k → 0 < 2 ^ k.
Proof. intros. by apply Z.pow_pos_nonneg. Qed.

Lemma mask_pow2 x k : 0 <= k <= 63 → fits 64 x →
  Z.land x (u64 (Z.lnot (u64 (2 ^ k - 1)))) = x / 2 ^ k * 2 ^ k.
Proof.
  intros Hk Hx. rewrite (wrap_small 64 (2 ^ k - 1)); [apply land_lnot_ones; [lia|done]|].
  pose proof (pow2_pos k). pose proof (Z.pow_le_mono_r 2 k 63). unfold fits. lia.
Qed.

Lemma aligned_land x k : 0 <= k <= 63 → 0 <= x → x mod 2 ^ k = 0 → Z.land x (u64 (2 ^ k - 1)) = 0.
Proof.
  intros Hk Hx Hm. pose proof (pow2_pos k). pose proof (Z.pow_le_mono_r 2 k 63).
  rewrite wrap_small by (unfold fits; lia).
  replace (2 ^ k - 1) with (Z.ones k) by (rewrite Z.ones_equiv; lia). rewrite Z.land_ones by lia. done.
Qed.

Lemma land_aligned x k : 0 <= k <= 63 → 0 <= x → Z.land x (u64 (2 ^ k - 1)) = 0 → x mod 2 ^ k = 0.
Proof.
  intros Hk Hx. pose proof (pow2_pos k). pose proof (Z.pow_le_mono_r 2 k 63).
  rewrite wrap_small by (unfold fits; lia).
  replace (2 ^ k - 1) with (Z.ones k) by (rewrite Z.ones_equiv; lia). by rewrite Z.land_ones by lia.
Qed.

(** Rounding an address up without leaving the machine's range. *)
Lemma roundup2_spec x k : 0 <= k <= 63 → 0 <= x → x + 2 ^ k <= 2 ^ 64 →
  x <= roundup2 x (2 ^ k) < x + 2 ^ k ∧ roundup2 x (2 ^ k) mod 2 ^ k = 0.
Proof.
  intros Hk Hx Hov. pose proof (pow2_pos k ltac:(lia)). rewrite roundup2_pow2 by lia.
  pose proof (roundup_ge x (2 ^ k)). pose proof (roundup_lt x (2 ^ k)). split; [lia|].
  unfold roundup. apply Z.mod_mul. lia.
Qed.

Lemma aligned_close x y a : x mod a = 0 → y mod a = 0 → x <= y < x + a → y = x.
Proof.
  intros Hx Hy H. assert (0 < a) as Ha by lia. pose proof (Z.div_mod x a) as Ex. pose proof (Z.div_mod y a) as Ey.
  rewrite Hx in Ex. rewrite Hy in Ey. assert (y / a = x / a) by nia. nia.
Qed.

(** The random address is in the range, and aligned. *)
Lemma randomize_ok start end_ k initial random :
  0 <= k <= 63 → 0 <= start <= end_ → end_ < 2 ^ 64 - 1 → 0 <= random → start mod 2 ^ k = 0 →
  ∃ r, _RandomizeAddress start end_ (2 ^ k) initial random = Ret r ∧ start <= r <= end_ ∧ r mod 2 ^ k = 0.
Proof.
  intros Hk Hs He Hr Hm. pose proof (pow2_pos k ltac:(lia)) as Hp. unfold _RandomizeAddress.
  rewrite aligned_land by (done || lia). rewrite (proj2 (Z.leb_le _ _)) by lia. cbn [Z.eqb assert mbind outcome_bind].
  destruct (Z.eqb_spec start end_) as [->|Hne]; [exists end_; split_and!; try done; lia|].
  rewrite (wrap_small 64 (end_ - start + 1)) by (unfold fits; lia).
  set (range := Z.min _ _).
  assert (0 < range <= end_ - start + 1) as Hrange.
  { subst range. unfold max_initial_randomize, max_randomize. destruct initial; lia. }
  pose proof (Z.mod_pos_bound random range) as Hb.
  rewrite mask_pow2 by (try unfold fits; lia).
  set (q := random mod range / 2 ^ k).
  assert (0 <= q * 2 ^ k <= random mod range) as Hq.
  { subst q. pose proof (Z.mul_div_le (random mod range) (2 ^ k)). pose proof (Z.div_pos (random mod range) (2 ^ k)). nia. }
  rewrite wrap_small by (unfold fits; lia). exists (start + q * 2 ^ k). split_and!; [done|lia|lia|].
  rewrite Z.mod_add by lia. done.
Qed.

Lemma randomize_range start end_ k initial random r :
  0 <= k <= 63 → 0 <= start → end_ < 2 ^ 64 - 1 → 0 <= random →
  _RandomizeAddress start end_ (2 ^ k) initial random = Ret r → start <= r <= end_ ∧ r mod 2 ^ k = 0.
Proof.
  intros Hk Hs He Hr H. pose proof H as H'. unfold _RandomizeAddress in H'.
  destruct (Z.eqb_spec (Z.land start (u64 (2 ^ k - 1))) 0) as [Ha|]; [|done].
  destruct (Z.leb_spec start end_); [|done]. apply land_aligned in Ha; [|lia..].
  destruct (randomize_ok start end_ k initial random) as (r' & Hr' & ?); try done. rewrite H in Hr'. by injection Hr' as ->.
Qed.

(** ** The search *)

Lemma is_valid_spot_spec base aligned size limit :
  fits 64 aligned → 0 < size < 2 ^ 64 → is_valid_spot base aligned size limit = true →
  base <= aligned ∧ aligned + (size - 1) <= limit ∧ aligned + (size - 1) < 2 ^ 64.
Proof.
  intros Ha Hs H. unfold is_valid_spot in H. breflect.
  rewrite (wrap_small 64 (size - 1)) in * by (unfold fits; lia). unfold fits in Ha.
  destruct (decide (aligned + (size - 1) < 2 ^ 64)) as [Hlt|Hge].
  - rewrite (wrap_small 64 (aligned + (size - 1))) in * by (unfold fits; lia). lia.
  - exfalso. assert (u64 (aligned + (size - 1)) = aligned + (size - 1) - 2 ^ 64) as Hw.
    { unfold wrap. symmetry. apply (Z.mod_unique _ _ 1); lia. }
    lia.
Qed.

Lemma Previous_split n l1 l2 : NoDup (l1 ++ n :: l2) → Previous n (l1 ++ n :: l2) = last l1.
Proof.
  induction l1 as [|a l1 IH].
  - intros [Hn _]%NoDup_cons. cbn [app]. revert n Hn. induction l2 as [|b l2 IH]; intros n Hn; [done|].
    cbn [Previous]. rewrite decide_False by (intros ->; apply Hn; by left).
    clear IH. revert b Hn. induction l2 as [|c l2 IH]; intros b Hn; [done|]. cbn [Previous].
    rewrite decide_False by (intros ->; apply Hn; right; by left). apply IH.
    intros [->|Hin]%elem_of_cons; apply Hn; [right; by left|right; by right].
  - cbn [app]. intros [Ha Hnd]%NoDup_cons. destruct l1 as [|b l1].
    + cbn. by rewrite decide_True.
    + change (Previous n (a :: b :: (l1 ++ n :: l2)) = last (b :: l1)). cbn [Previous].
      rewrite decide_False; [exact (IH Hnd)|]. intros ->. cbn in Hnd. apply NoDup_cons in Hnd as [Hb _].
      apply Hb, elem_of_app. right. by left.
Qed.

Lemma GetIterator_split n l1 l2 : NoDup (l1 ++ n :: l2) → GetIterator n (l1 ++ n :: l2) = n :: l2.
Proof.
  induction l1 as [|a l1 IH]; cbn; [by rewrite decide_True|]. intros [Ha Hnd]%NoDup_cons.
  rewrite decide_False; [by apply IH|]. intros ->. apply Ha, elem_of_app. right. by left.
Qed.

(** A sorted sequence is split by an address. *)
Lemma sorted_split l k : sorted l →
  ∃ l1 l2, l = l1 ++ l2 ∧ (∀ a, a ∈ l1 → Base a < k) ∧ (∀ b, b ∈ l2 → k <= Base b).
Proof.
  induction 1 as [|a l Ha Hl (l1 & l2 & -> & H1 & H2)].
  - exists [], []. split_and!; [done|by intros ? ?%elem_of_nil..].
  - destruct (decide (Base a < k)) as [Hlt|Hge].
    + exists (a :: l1), l2. split_and!; [done| |done]. intros b [->|]%elem_of_cons; auto.
    + exists [], (a :: l1 ++ l2). split_and!; [done|by intros ? ?%elem_of_nil|].
      intros b [->|Hb]%elem_of_cons; [lia|]. specialize (Ha b Hb). lia.
Qed.

Lemma filter_none {A} (P : A → Prop) `{∀ x, Decision (P x)} (l : list A) : (∀ x, x ∈ l → ¬ P x) → filter P l = [].
Proof.
  induction l as [|x l IH]; [done|]. intros Hl. rewrite filter_cons_False by (apply Hl; by left).
  apply IH. intros y Hy. apply Hl. by right.
Qed.

Lemma filter_all {A} (P : A → Prop) `{∀ x, Decision (P x)} (l : list A) : (∀ x, x ∈ l → P x) → filter P l = l.
Proof.
  induction l as [|x l IH]; [done|]. intros Hl. rewrite filter_cons_True by (apply Hl; by left).
  f_equal. apply IH. intros y Hy. apply Hl. by right.
Qed.

Section search_proofs.
Context `{AreaTree}.
Context (s : space) (size end_ k random : Z) (reserved : bool).
Context (Hok : space_ok (2 ^ k) s) (Hbase : 0 < fBase s) (Hk : 0 <= k <= 63) (Hrandom : 0 <= random).
Context (Hsize : 0 < size < 2 ^ 64) (Hend : 0 <= end_ <= fEndAddress s).
#[local] Set Default Proof Using "Type*".

Let lo := fBase s.
Let hi := fEndAddress s + 1.

Lemma areas_sorted : sorted (fAreas s).
Proof. apply ordered_sorted; apply Hok. Qed.

Lemma areas_NoDup : NoDup (fAreas s).
Proof. apply sorted_NoDup, areas_sorted. Qed.

Lemma area_bounds a : a ∈ fAreas s → 0 < Base a ∧ 0 < Size a ∧ End a <= hi ∧ hi + 2 ^ k <= 2 ^ 64.
Proof.
  intros Ha. destruct (sp_within _ _ Hok a Ha) as (? & ? & ?). pose proof (sp_nonempty _ _ Hok a Ha).
  pose proof (sp_end _ _ Hok). subst lo hi. lia.
Qed.

Lemma end_wrap a : a ∈ fAreas s → u64 (Base a + Size a) = End a ∧ u64 (Base a + u64 (Size a - 1)) = End a - 1.
Proof.
  intros Ha. pose proof (area_bounds a Ha) as Hb. pose proof (pow2_pos k). unfold End in *.
  rewrite (wrap_small 64 (Size a - 1)), !wrap_small by (unfold fits; lia). lia.
Qed.

(** The neighbours of an address range. *)
Lemma neighbours_ok start la ne : neighbours s size start = (la, ne) →
  ∃ l1 l2, fAreas s = l1 ++ l2 ∧ la = last l1 ∧ ne = head l2 ∧
    (∀ a, a ∈ l1 → Base a < u64 (start + size)) ∧ (∀ b, b ∈ l2 → u64 (start + size) <= Base b).
Proof.
  pose proof areas_sorted as Hs. pose proof areas_NoDup as Hnd. unfold neighbours.
  destruct (sorted_split (fAreas s) (u64 (start + size)) Hs) as (l1 & l2 & El & H1 & H2).
  assert (FindClosest (fAreas s) (u64 (start + size)) false = head l2) as ->.
  { rewrite FindClosest_greater by done. rewrite El, filter_app, filter_none, filter_all; [done|done|].
    intros x Hx. specialize (H1 x Hx). lia. }
  intros [= <- <-]. exists l1, l2. split_and!; try done. destruct l2 as [|n l2]; cbn.
  - rewrite FindClosest_less by done. rewrite El, app_nil_r, filter_all; [done|].
    intros x Hx. specialize (H1 x Hx). lia.
  - rewrite El. apply Previous_split. by rewrite <- El.
Qed.

Lemma align_ok spec address start :
  0 <= address <= hi → 0 <= start <= hi →
  let b := align_address address (2 ^ k) spec start in
  address <= b ∧ fits 64 b ∧ b mod 2 ^ k = 0.
Proof.
  intros Ha Hs. unfold align_address. pose proof (sp_end _ _ Hok) as He. pose proof (pow2_pos k).
  set (x := if is_base_address_spec spec then Z.max address start else address).
  assert (address <= x ∧ 0 <= x <= hi) as [H1 H2] by (subst x; destruct (is_base_address_spec spec); lia).
  pose proof (roundup2_spec x k Hk ltac:(lia) ltac:(subst hi; lia)) as [H3 H4]. subst hi. unfold fits. split_and!; [lia..|done].
Qed.

(** Placing an area of the size between [base] and [rangeEnd]. *)
Lemma place_ok spec base rangeEnd :
  base mod 2 ^ k = 0 → 0 <= base <= rangeEnd → rangeEnd < hi →
  ∃ r, place s (2 ^ k) random spec base rangeEnd = Ret r ∧ base <= r <= rangeEnd ∧ r mod 2 ^ k = 0.
Proof.
  intros Hm Hb Hr. unfold place. destruct (_IsRandomized s spec); [|exists base; split_and!; done || lia].
  pose proof (sp_end _ _ Hok) as He. pose proof (pow2_pos k).
  apply randomize_ok; try done; subst hi; lia.
Qed.

(** Where the loop over the holes is: [last] is in the sequence, [next]
    follows it or is still the same area. *)
Definition walking (la : area) (ne : option area) (it : list area) (l1 rest : list area) : Prop :=
  fAreas s = l1 ++ la :: rest ∧
  ((ne = head rest ∧ (it = rest ∨ it = tail rest)) ∨ (ne = Some la ∧ it = rest) ∨ (ne = None ∧ rest = [])).

Lemma walking_step la n n' it l1 rest :
  walking la (Some n) (n' :: it) l1 rest → ∃ l1' rest', walking n (Some n') it l1' rest'.
Proof.
  intros [El [[Hn [<-|Hit]]|[[[= ->] <-]|[? _]]]]; [..|done].
  - cbn in Hn. injection Hn as ->. exists (l1 ++ [la]), it. split; [by rewrite <- app_assoc|]. right. by left.
  - destruct rest as [|m rest]; [done|]. cbn in Hn, Hit. injection Hn as ->. subst rest.
    exists (l1 ++ [la]), (n' :: it). split; [by rewrite <- app_assoc|]. left. split; [done|]. by right.
  - exists l1, (n' :: it). split; [done|]. left. split; [done|]. by right.
Qed.

(** A spot between two areas that follow each other. *)
Lemma between_ok la rest l1 base limit :
  fAreas s = l1 ++ la :: rest → End la <= base → base + (size - 1) <= limit → limit <= end_ →
  (∀ n, head rest = Some n → limit < Base n) → free_range lo hi (fAreas s) base size.
Proof.
  intros El Hb Hl He Hn. assert (la ∈ fAreas s) as Hla by (rewrite El; apply elem_of_app; right; by left).
  pose proof (area_bounds la Hla) as Hbd. destruct (sp_within _ _ Hok la Hla) as (Hlo & _). unfold End in *.
  split_and!; [subst lo; lia|subst hi; lia|].
  pose proof (sp_ordered _ _ Hok) as Ho. rewrite El in Ho. apply ordered_mid in Ho as (O1 & O2 & O3 & O4 & O5).
  exists (l1 ++ [la]), rest. rewrite <- app_assoc. split_and!; [done|..].
  - intros a [Ha| ->%list_elem_of_singleton]%elem_of_app; [specialize (O3 a Ha)|]; unfold End in *; lia.
  - intros b Hb'. destruct rest as [|n rest]; [by apply elem_of_nil in Hb'|]. specialize (Hn n eq_refl).
    apply elem_of_cons in Hb' as [->|Hb']; [lia|]. cbn in O2. destruct O2 as [O2 _]. specialize (O2 b Hb').
    unfold End in O2. assert (0 <= Size n); [|lia].
    destruct (sp_within _ _ Hok n) as (_ & ? & _); [|done]. rewrite El. apply elem_of_app. right. right. by left.
Qed.

Lemma walk_ok spec start : 0 <= start <= hi → ∀ it la ne l1 rest, walking la ne it l1 rest →
  match walk s size end_ (2 ^ k) random spec start it la ne with
  | Ret (inl base) => free_range lo hi (fAreas s) base size ∧ base mod 2 ^ k = 0
  | Ret (inr (la, ne)) => ∃ l1 rest, fAreas s = l1 ++ la :: rest ∧ (ne = None → rest = [])
  | _ => False
  end.
Proof.
  intros Hstart it. induction it as [|n' it IH]; intros la ne l1 rest [El Hpos].
  all: assert (la ∈ fAreas s) as Hla by (rewrite El; apply elem_of_app; right; by left).
  all: pose proof (area_bounds la Hla) as Hbl; destruct (end_wrap la Hla) as [Ew1 Ew2].
  all: destruct ne as [n|]; [|cbn [walk]; exists l1, rest; split; [done|]; intros _;
    destruct Hpos as [[Hh _]|[[? _]|[_ ?]]]; [by destruct rest|done|done]].
  all: assert (n ∈ fAreas s) as Hn by (rewrite El; apply elem_of_app; right;
    destruct Hpos as [[Hh _]|[[[= ->] _]|[? _]]]; [right; destruct rest; [done|]; injection Hh as ->; by left|by left|done]).
  all: pose proof (area_bounds n Hn) as Hbn; destruct (end_wrap n Hn) as [Ew3 Ew4].
  all: cbn [walk]; rewrite Ew1, Ew2, Ew3.
  all: destruct (u64 (End n - 1) <=? end_); [|exists l1, rest; split; [done|]; intros ?; done].
  all: pose proof (align_ok spec (End la) start ltac:(unfold End in *; lia) Hstart) as (Ha1 & Ha2 & Ha3).
  all: set (alignedBase := align_address (End la) (2 ^ k) spec start) in *.
  all: rewrite (wrap_small 64 (Base n - 1)) by (pose proof (pow2_pos k); unfold fits, End in *; lia).
  all: set (nextBase := Z.min end_ (Base n - 1)).
  all: destruct (is_valid_spot (End la - 1) alignedBase size nextBase) eqn:Evalid.
  1,3: apply is_valid_spot_spec in Evalid as (_ & Hv & Hv'); [|done|lia].
  1,2: assert (head rest = Some n) as Hhead by
    (destruct Hpos as [[Hh _]|[[[= ->] _]|[? _]]]; [done|exfalso; subst nextBase; unfold End in *; lia|done]).
  1,2: rewrite (wrap_small 64 (nextBase - size + 1)) by (subst nextBase; unfold fits in *; lia).
  1,2: destruct (place_ok spec alignedBase (Z.min (nextBase - size + 1) end_)) as (r & -> & Hr1 & Hr2);
    [done|subst nextBase; unfold fits in *; lia|subst nextBase; subst hi; lia|]; cbn [mbind outcome_bind]; split; [|done];
    apply (between_ok la rest l1 r nextBase); [done|lia|lia|subst nextBase; lia|];
    intros m Hm; rewrite Hhead in Hm; injection Hm as <-; subst nextBase; lia.
  - destruct Hpos as [[Hh [<-|Hit]]|[[[= ->] <-]|[? _]]]; [..|done].
    + done.
    + exists (l1 ++ [la]), []. destruct rest as [|m rest]; [done|]. cbn in Hh, Hit. injection Hh as ->. subst rest.
      rewrite <- app_assoc. done.
    + by exists l1, [].
  - destruct (walking_step la n n' it l1 rest) as (l1' & rest' & Hw); [by split|]. by apply (IH n (Some n') l1' rest').
Qed.

(** Everything is a multiple of the alignment. *)
Definition granular : Prop :=
  (∀ a, a ∈ fAreas s → (2 ^ k | Base a) ∧ (2 ^ k | Size a)) ∧ (2 ^ k | size).

(** Room for the area at [base] once the areas are [l']; with [N] no reserved
    range is left empty. *)
Definition room_ok (N : Prop) (base : Z) (l' : list area) : Prop :=
  gave_way (fAreas s) l' ∧ free_range lo hi l' base size ∧ (N → nonempty l').

(** What the search promises about the address and the areas it leaves. *)
Definition spot_ok (spec : addressSpec) (base : Z) (l' : list area) : Prop :=
  room_ok (_IsRandomized s spec = false ∧ granular) base l' ∧ base mod 2 ^ k = 0.

Lemma divides_gap a b : (2 ^ k | a) → (2 ^ k | b) → a < b → a + 2 ^ k <= b.
Proof.
  intros [x ->] [y ->] Hlt. pose proof (pow2_pos k ltac:(lia)) as Hp.
  apply Z.mul_lt_mono_pos_r in Hlt; [|done]. replace (x * 2 ^ k + 2 ^ k) with ((x + 1) * 2 ^ k) by ring.
  apply Z.mul_le_mono_nonneg_r; lia.
Qed.

Lemma fits_down a b : (2 ^ k | a) → 0 <= a <= b → a <= b / 2 ^ k * 2 ^ k <= b.
Proof.
  intros [x ->] Hab. pose proof (pow2_pos k ltac:(lia)) as Hp. pose proof (Z.mul_div_le b (2 ^ k) Hp). split; [|lia].
  apply Z.mul_le_mono_nonneg_r; [lia|]. apply Z.div_le_lower_bound; lia.
Qed.

(** The new area takes the place of [r] between [p] and [q]; [before] and
    [behind] are left of the reserved range. *)
Lemma room_in_reserved (N : Prop) p r q base before behind :
  fAreas s = p ++ r :: q → is_reserved r = true →
  Base r <= base → base + size <= End r → ordered (before ++ behind) →
  (∀ x, x ∈ before → is_reserved x = true ∧ 0 <= Size x ∧ Base r <= Base x ∧ End x <= base ∧
     (N → 0 < Size x)) →
  (∀ x, x ∈ behind → is_reserved x = true ∧ 0 <= Size x ∧ base + size <= Base x ∧ End x <= End r ∧
     (N → 0 < Size x)) →
  room_ok N base (p ++ (before ++ behind) ++ q).
Proof.
  intros El Hr Hb He Hord Hbef Hbeh. assert (r ∈ fAreas s) as Hin by (rewrite El; apply elem_of_app; right; by left).
  destruct (sp_within _ _ Hok r Hin) as (W1 & W2 & W3). pose proof (sp_ordered _ _ Hok) as Ho. rewrite El in Ho.
  apply ordered_mid in Ho as (O1 & O2 & O3 & O4 & O5). pose proof (sp_nonempty _ _ Hok) as Hne. rewrite El in Hne.
  apply nonempty_app in Hne as [N1 [N2 N3]%nonempty_cons].
  unfold room_ok, gave_way, free_range. rewrite El. split_and!; try done; try (subst lo hi; lia).
  - right. exists p, r, q, (before ++ behind). split_and!; try done.
    intros x [Hx|Hx]%elem_of_app; [destruct (Hbef x Hx)|destruct (Hbeh x Hx)]; split_and!; try done; unfold End in *; lia.
  - exists (p ++ before), (behind ++ q). rewrite <- !app_assoc. split_and!; [done|..].
    + intros a [Ha|Ha]%elem_of_app; [specialize (O3 a Ha); lia|]. by apply Hbef.
    + intros b [Hb'|Hb']%elem_of_app; [by apply Hbeh|]. specialize (O4 b Hb'). lia.
  - intros HN. rewrite !nonempty_app. split_and!; try done; intros x Hx; [by apply Hbef|by apply Hbeh].
Qed.

Lemma randomize_no_fuel start e al initial rnd : _RandomizeAddress start e al initial rnd ≠ NoFuel.
Proof using Type.
  unfold _RandomizeAddress. destruct (Z.land _ _ =? 0); [|done]. destruct (start <=? e); [|done]. cbn.
  by destruct (start =? e).
Qed.

Lemma search_reserved_ok spec : ∀ rest pre, fAreas s = reverse pre ++ rest →
  match search_reserved s size end_ (2 ^ k) random spec pre rest with
  | Ret None => True
  | Ret (Some (base, l')) => spot_ok spec base l'
  | Panic => _IsRandomized s spec = true ∧ ∃ r, r ∈ fAreas s ∧ is_reserved r = true
  | NoFuel => False
  end.
Proof.
  induction rest as [|r it IH]; intros pre El; cbn [search_reserved]; [done|].
  assert (fAreas s = reverse (r :: pre) ++ it) as El' by (rewrite reverse_cons, <- app_assoc; done).
  destruct (is_reserved r) eqn:Hr; cbn [negb]; [|by apply IH].
  destruct (end_ <? _); [done|].
  assert (r ∈ fAreas s) as Hin by (rewrite El; apply elem_of_app; right; by left).
  pose proof (area_bounds r Hin) as Hb. destruct (end_wrap r Hin) as [Ew1 Ew2]. rewrite Ew1.
  pose proof (sp_end _ _ Hok) as Hse. pose proof (pow2_pos k ltac:(lia)) as Hp.
  destruct (roundup2_spec (Base r) k Hk ltac:(lia) ltac:(unfold End in *; lia)) as [Hal Hmod].
  set (na := roundup2 (Base r) (2 ^ k)) in *.
  assert (granular → na = Base r) as Hgran.
  { intros [Hg _]. destruct (Hg r Hin) as [Hd _]. subst na. rewrite roundup2_pow2 by (unfold End in *; lia).
    destruct Hd as [x ->]. unfold roundup. rewrite Z.div_add_l, (Z.div_small (2 ^ k - 1)) by lia. lia. }
  destruct ((Base r =? na) && (Size r =? size)) eqn:E1.
  { breflect. split; [|done]. apply (room_in_reserved _ (reverse pre) r it na [] []);
      [done|done|lia|unfold End in *; lia|done|by intros ? ?%elem_of_nil..]. }
  destruct ((Z.land (protection r) RESERVED_AVOID_BASE =? 0) && (na =? Base r) && (size <=? Size r)) eqn:E2.
  - breflect. rewrite (wrap_small 64 (End r - size)) by (unfold fits, End in *; lia).
    set (rangeEnd := Z.min (End r - size) end_).
    assert (∀ b, Base r <= b <= End r - size → b mod 2 ^ k = 0 → (_IsRandomized s spec = false → b = Base r) →
      spot_ok spec b (reverse pre ++ r <| Base := u64 (Base r + u64 (b - Base r) + size) |>
        <| Size := u64 (Size r - u64 (b - Base r) - size) |> :: it)) as Hspot.
    { intros b Hbb Hbm Hb0.
      rewrite (wrap_small 64 (b - Base r)) by (unfold fits, End in *; lia).
      rewrite !wrap_small by (unfold fits, End in *; lia).
      split; [|done].
      apply (room_in_reserved _ (reverse pre) r it b [] [_]); [done|done|lia|lia| |by intros ? ?%elem_of_nil|].
      { split; [by intros ? ?%elem_of_nil|done]. }
      intros x ->%list_elem_of_singleton. unfold End in *. cbn. split_and!; [done|lia|lia|lia|].
      intros [Hnr _]. specialize (Hb0 Hnr). apply andb_false_iff in E1 as [E1|E1]; breflect; lia. }
    destruct (_IsRandomized s spec) eqn:Erand.
    + destruct (_RandomizeAddress _ _ _ _ _) as [b| |] eqn:Er; cbn [mbind outcome_bind]; [|by split; [|exists r]|].
      * apply randomize_range in Er as [Hb1 Hb2]; [|lia|lia|subst rangeEnd; unfold End in *; lia|lia].
        apply Hspot; [subst rangeEnd; lia|done|done].
      * by apply randomize_no_fuel in Er.
    + cbn [mbind outcome_bind]. apply Hspot; [|congruence|done]. unfold End in *. lia.
  - destruct (is_valid_spot (Base r) na size _) eqn:Ev; [|by apply IH].
    apply is_valid_spot_spec in Ev as (_ & Hv & Hv'); [|unfold fits, End in *; lia|lia].
    rewrite (wrap_small 64 (End r - 1)) in Hv by (unfold fits, End in *; lia).
    rewrite (wrap_small 64 (End r - size)) by (unfold fits, End in *; lia).
    assert (∀ b, na <= b <= End r - size → b mod 2 ^ k = 0 →
      (_IsRandomized s spec = false → granular → Base r < b) →
      spot_ok spec b (reverse pre ++ r <| Size := u64 (b - Base r) |> :: it)) as Hspot.
    { intros b Hbb Hbm Hb0. rewrite wrap_small by (unfold fits, End in *; lia).
      split; [|done].
      apply (room_in_reserved _ (reverse pre) r it b [_] []); [done|done|lia|lia| | |by intros ? ?%elem_of_nil].
      { split; [by intros ? ?%elem_of_nil|done]. }
      intros x ->%list_elem_of_singleton. unfold End in *. cbn. split_and!; [done|lia|lia|lia|].
      intros [Hnr Hg]. specialize (Hb0 Hnr Hg). lia. }
    destruct (_IsRandomized s spec) eqn:Erand.
    + destruct (_RandomizeAddress _ _ _ _ _) as [b| |] eqn:Er; cbn [mbind outcome_bind]; [|by split; [|exists r]|].
      * apply randomize_range in Er as [Hb1 Hb2]; [|lia|lia|unfold End in *; lia|lia]. apply Hspot; [lia|done|done].
      * by apply randomize_no_fuel in Er.
    + cbn [mbind outcome_bind]. rewrite rounddown2_pow2 by (try unfold fits, End in *; lia).
      assert ((2 ^ k | na)) as Hd by (apply Z.mod_divide; [lia|done]).
      pose proof (fits_down na (End r - size) Hd ltac:(lia)) as Hfd.
      apply Hspot; [lia|apply Z.mod_mul; lia|]. intros _ Hg. specialize (Hgran Hg). destruct Hg as [Hga Hgs].
      destruct (Hga r Hin) as [D1 D2].
      assert (Size r ≠ size) by (apply andb_false_iff in E1 as [E1|E1]; breflect; lia).
      assert (size < Size r) as Hlt by (unfold End in *; lia).
      assert (Base r + 2 ^ k <= (End r - size) / 2 ^ k * 2 ^ k); [|lia]. apply fits_down.
      * apply Z.divide_add_r; [done|apply Z.divide_refl].
      * pose proof (divides_gap size (Size r) Hgs D2 Hlt). unfold End. lia.
Qed.

(** How often the search starts over: [second_chance] is reached at most three
    times. *)
Definition rounds (useHint : bool) (originalStart : Z) (spec : addressSpec) (start : Z) : nat :=
  if is_base_address_spec spec then
    if negb (_IsRandomized s spec) then 2 else if start =? originalStart then 2 else 3
  else if useHint && negb (originalStart =? 0) && negb (start =? originalStart) then 2 else 1.

Lemma rounds_any heap originalStart spec :
  is_base_address_spec spec = false → rounds false originalStart spec heap = 1%nat.
Proof using Type. intros Hs. unfold rounds. by rewrite Hs. Qed.

Lemma free_whole l base : l = [] → lo <= base → base + (size - 1) <= end_ → free_range lo hi l base size.
Proof.
  intros -> H1 H2. split_and!; [done|subst hi; lia|]. exists [], []. split_and!; [done|by intros ? ?%elem_of_nil..].
Qed.

(** A spot before the first area. *)
Lemma before_first base : lo <= base → base + (size - 1) <= end_ →
  (∀ n, head (fAreas s) = Some n → base + size <= Base n) → free_range lo hi (fAreas s) base size.
Proof.
  intros H1 H2 H3. split_and!; [done|subst hi; lia|]. exists [], (fAreas s). split_and!; [done|by intros ? ?%elem_of_nil|].
  intros b Hb. pose proof (sp_ordered _ _ Hok) as Ho. pose proof (sp_within _ _ Hok) as Hw.
  destruct (fAreas s) as [|n l]; [by apply elem_of_nil in Hb|]. specialize (H3 n eq_refl).
  apply elem_of_cons in Hb as [->|Hb]; [done|]. destruct Ho as [Ho _]. specialize (Ho b Hb).
  destruct (Hw n (list_elem_of_here _ _)) as (_ & ? & _). unfold End in Ho. lia.
Qed.

Lemma spot_plain spec base : free_range lo hi (fAreas s) base size → base mod 2 ^ k = 0 → spot_ok spec base (fAreas s).
Proof. intros H1 H2. split; [|done]. split_and!; [by left|done|]. intros _. apply Hok. Qed.

Lemma spot_weaken spec spec' base l' :
  (_IsRandomized s spec = false → _IsRandomized s spec' = false) → spot_ok spec' base l' → spot_ok spec base l'.
Proof. intros Hi ((H1 & H2 & H3) & H4). split; [|done]. split_and!; auto. intros [??]. auto. Qed.

(** When the code may stop in a failed check or a null pointer. *)
Definition may_panic : Prop :=
  fAreas s = [] ∨ (fRandomizingEnabled s = true ∧ ∃ r, r ∈ fAreas s ∧ is_reserved r = true).

(** The original start of the search, if the caller set it. *)
Definition original_ok (originalStart : Z) (spec : addressSpec) : Prop :=
  lo <= originalStart <= hi ∨
  (originalStart = 0 ∧ (is_base_address_spec spec = true → _IsRandomized s spec = false)).

(** A round that gave way to another one. *)
Definition again_ok (useHint : bool) (originalStart : Z) (spec : addressSpec) (start : Z) (spec' : addressSpec) (start' : Z) : Prop :=
  lo <= start' <= hi ∧ original_ok originalStart spec' ∧ (useHint = true → is_base_address_spec spec' = false) ∧
  (_IsRandomized s spec = false → _IsRandomized s spec' = false) ∧
  (rounds useHint originalStart spec' start' < rounds useHint originalStart spec start)%nat.

Definition round_ok (useHint : bool) (originalStart : Z) (spec : addressSpec) (start : Z)
    (r : outcome (option (Z * list area) + addressSpec * Z)) : Prop :=
  match r with
  | Ret (inl None) => True
  | Ret (inl (Some (base, l'))) => spot_ok spec base l'
  | Ret (inr (spec', start')) => again_ok useHint originalStart spec start spec' start'
  | Panic => may_panic
  | NoFuel => False
  end.

Lemma after_walk_ok heap useHint originalStart spec start l1 la rest ne :
  lo <= heap <= hi → lo <= start <= hi → original_ok originalStart spec →
  (useHint = true → is_base_address_spec spec = false) →
  fAreas s = l1 ++ la :: rest → (ne = None → rest = []) →
  round_ok useHint originalStart spec start
    (after_walk s size end_ (2 ^ k) random reserved heap useHint originalStart spec start la ne).
Proof.
  intros Hheap Hstart Horig Huse El Hlast.
  assert (0 < lo) as Hlo by exact Hbase. assert (hi = fEndAddress s + 1) as Ehi by reflexivity.
  assert (la ∈ fAreas s) as Hla by (rewrite El; apply elem_of_app; right; by left).
  unfold after_walk. destruct (end_wrap la Hla) as [-> ->]. pose proof (area_bounds la Hla) as Hbl.
  pose proof (align_ok spec (End la) start ltac:(unfold End in *; lia) ltac:(lia)) as (Ha1 & Ha2 & Ha3).
  set (al := align_address (End la) (2 ^ k) spec start) in *.
  destruct (bool_decide (ne = None) && is_valid_spot (End la - 1) al size end_) eqn:Ev.
  { apply andb_true_iff in Ev as [->%bool_decide_eq_true Ev]. apply is_valid_spot_spec in Ev as (_ & Hv & Hv'); [|done|lia].
    rewrite (wrap_small 64 (end_ - size + 1)) by (unfold fits in *; lia).
    destruct (place_ok spec al (end_ - size + 1)) as (r & -> & Hr1 & Hr2); [done|unfold fits in *; lia|lia|].
    cbn [mbind outcome_bind]. apply spot_plain; [|done]. rewrite (Hlast eq_refl) in El.
    apply (between_ok la [] l1 r end_); [done|lia|lia|lia|done]. }
  assert (∀ spec', is_base_address_spec spec' = false → original_ok originalStart spec') as Horig'.
  { intros spec' Hs'. destruct Horig as [|[? _]]; [by left|right]. split; [done|]. by rewrite Hs'. }
  clear Ev. destruct (is_base_address_spec spec) eqn:Ebase.
  - assert (useHint = false) as -> by (destruct useHint; [by specialize (Huse eq_refl)|done]).
    unfold round_ok, again_ok, rounds. rewrite Ebase. destruct (_IsRandomized s spec) eqn:Er; cbn [negb].
    + destruct (start =? originalStart).
      * split_and!; try done; [lia|lia|by apply Horig'|].
        change (is_base_address_spec B_RANDOMIZED_ANY_ADDRESS) with false. cbn; lia.
      * assert (lo <= originalStart <= hi) as Ho by (destruct Horig as [|[_ H2]]; [done|specialize (H2 Ebase); congruence]).
        rewrite Z.eqb_refl. split_and!; try done; [lia|lia|by left|]. change (is_base_address_spec B_RANDOMIZED_BASE_ADDRESS) with true.
        destruct (negb _); lia.
    + split_and!; try done; [lia|lia|by apply Horig'|intros _; apply andb_false_r|].
      change (is_base_address_spec B_ANY_ADDRESS) with false. cbn; lia.
  - destruct (useHint && negb (originalStart =? 0) && negb (start =? originalStart)) eqn:Eh.
    + assert (lo <= originalStart <= hi) as Ho by (destruct Horig as [|[-> _]]; [done|by rewrite andb_false_r in Eh]).
      unfold round_ok, again_ok, rounds. rewrite Ebase, Eh, Z.eqb_refl, andb_false_r. split_and!; try done; lia.
    + destruct reserved; cbn [negb]; [done|].
      pose proof (search_reserved_ok spec (fAreas s) [] eq_refl) as Hsr.
      destruct (search_reserved _ _ _ _ _ _ _ _) as [[[b l']|]| |]; try done. destruct Hsr as [Hr1 Hr2]. right.
      split; [|done]. unfold _IsRandomized in Hr1. by destruct (fRandomizingEnabled s).
Qed.

(** The first spot is free, or the loop starts at the first area. *)
Lemma first_spot_ok spec start ne :
  lo <= start <= hi → ne = head (fAreas s) →
  match first_spot s size end_ (2 ^ k) random spec start None ne (fAreas s) with
  | Ret (Some base, _, _, _) => free_range lo hi (fAreas s) base size ∧ base mod 2 ^ k = 0
  | Ret (None, la, ne', it) => (la = None ∧ fAreas s = []) ∨ ∃ n l, la = Some n ∧ fAreas s = n :: l ∧ ne' = Some n ∧ it = l
  | _ => False
  end.
Proof.
  intros Hstart Hne. assert (0 < lo) as Hlo by exact Hbase. assert (hi = fEndAddress s + 1) as Ehi by reflexivity.
  pose proof (sp_end _ _ Hok) as Hse. pose proof (pow2_pos k ltac:(lia)) as Hp. unfold first_spot.
  destruct (roundup2_spec start k Hk ltac:(lia) ltac:(lia)) as [Hal Hmod].
  set (al := roundup2 start (2 ^ k)) in *.
  set (nextBase := match ne with None => end_ | Some n => Z.min (u64 (Base n - 1)) end_ end).
  assert (nextBase <= end_ ∧ ∀ n, ne = Some n → nextBase < Base n) as [Hnb1 Hnb2].
  { subst nextBase. destruct ne as [n|]; [|split; [lia|done]].
    assert (n ∈ fAreas s) as Hin by (destruct (fAreas s); [done|]; injection Hne as ->; by left).
    pose proof (area_bounds n Hin). rewrite wrap_small by (unfold fits, End in *; lia).
    split; [lia|]. intros ? [= <-]. lia. }
  destruct (is_valid_spot start al size nextBase) eqn:Ev.
  - apply is_valid_spot_spec in Ev as (_ & Hv & Hv'); [|unfold fits; lia|lia].
    rewrite (wrap_small 64 (nextBase - size + 1)) by (unfold fits in *; lia).
    destruct (place_ok spec al (Z.min (nextBase - size + 1) end_)) as (r & -> & Hr1 & Hr2); [done|lia|lia|].
    cbn [mbind outcome_bind]. split; [|done]. apply before_first; [lia|lia|].
    intros n Hn. rewrite <- Hne in Hn. specialize (Hnb2 n Hn). lia.
  - cbn [mbind outcome_bind]. destruct (fAreas s) as [|n l]; [left; by rewrite Hne|]. right. by exists n, l.
Qed.

Lemma search_round_ok heap useHint originalStart spec start :
  lo <= heap <= hi → lo <= start <= hi → original_ok originalStart spec →
  (useHint = true → is_base_address_spec spec = false) →
  round_ok useHint originalStart spec start
    (search_round s size end_ (2 ^ k) random reserved heap useHint originalStart spec start).
Proof.
  intros Hheap Hstart Horig Huse. unfold search_round. destruct (neighbours s size start) as [la ne] eqn:En.
  destruct (neighbours_ok start la ne En) as (l1 & l2 & El & Hla & Hne & _).
  pose proof areas_NoDup as Hnd. assert (0 < lo) as Hlo by exact Hbase.
  set (it := match ne with Some n => GetIterator n (fAreas s) | None => fAreas s end).
  assert (∀ n, ne = Some n → ∃ l2', l2 = n :: l2' ∧ it = l2) as Hit.
  { intros n ->. destruct l2 as [|m l2]; [done|]. injection Hne as ->. exists l2. split; [done|].
    subst it. rewrite El. apply GetIterator_split. by rewrite <- El. }
  assert (∀ la' ne' it' l1' rest, walking la' ne' it' l1' rest → round_ok useHint originalStart spec start
    (r ← walk s size end_ (2 ^ k) random spec start it' la' ne';
     match r with
     | inl base => Ret (inl (Some (base, fAreas s)))
     | inr (last, next) =>
         after_walk s size end_ (2 ^ k) random reserved heap useHint originalStart spec start last next
     end)) as Hwalk.
  { intros la' ne' it' l1' rest Hw. pose proof (walk_ok spec start ltac:(lia) it' la' ne' l1' rest Hw) as Hwk.
    destruct (walk _ _ _ _ _ _ _ _ _ _) as [[base|[la2 ne2]]| |]; cbn [mbind outcome_bind]; try done.
    { destruct Hwk. by apply spot_plain. }
    destruct Hwk as (l1'' & rest'' & El'' & Hlast). by apply (after_walk_ok _ _ _ _ _ l1'' la2 rest''). }
  destruct la as [la|].
  - cbn [mbind outcome_bind deref]. symmetry in Hla. apply last_Some in Hla as [l1' ->]. rewrite <- app_assoc in El.
    apply (Hwalk la ne it l1' l2). split; [done|]. destruct ne as [n|].
    + left. split; [done|]. destruct (Hit n eq_refl) as (? & ? & ?). by left.
    + right. right. split; [done|]. by destruct l2.
  - assert (l1 = []) as -> by (apply last_None; congruence). cbn [app] in El.
    assert (it = fAreas s) as ->.
    { destruct ne as [n|]; [|done]. destruct (Hit n eq_refl) as (? & ? & ->). done. }
    pose proof (first_spot_ok spec start ne Hstart ltac:(by rewrite El)) as Hf.
    destruct (first_spot _ _ _ _ _ _ _ _ _ _) as [[[[[base|] la] ne'] it']| |]; cbn [mbind outcome_bind]; try done.
    + destruct Hf. by apply spot_plain.
    + destruct Hf as [[-> Hnil]|(n & l & -> & El' & -> & ->)]; cbn [mbind outcome_bind deref]; [by left|].
      apply (Hwalk n (Some n) l [] l). split; [done|]. right. by left.
Qed.

Lemma find_spot_ok heap useHint originalStart fuel : ∀ spec start,
  lo <= heap <= hi → lo <= start <= hi → original_ok originalStart spec →
  (useHint = true → is_base_address_spec spec = false) → (rounds useHint originalStart spec start <= fuel)%nat →
  match find_spot s size end_ (2 ^ k) random reserved fuel heap useHint originalStart spec start with
  | Ret None => True
  | Ret (Some (base, l')) => spot_ok spec base l'
  | Panic => may_panic
  | NoFuel => False
  end.
Proof.
  induction fuel as [|fuel IH]; intros spec start Hheap Hstart Horig Huse Hfuel.
  { exfalso. unfold rounds in Hfuel. repeat case_match; lia. }
  cbn [find_spot]. pose proof (search_round_ok heap useHint originalStart spec start Hheap Hstart Horig Huse) as Hr.
  destruct (search_round _ _ _ _ _ _ _ _ _ _ _) as [[[[b l']|]|[spec' start']]| |]; cbn [mbind outcome_bind]; try done.
  destruct Hr as (H1 & H2 & H3 & H4 & H5). specialize (IH spec' start' Hheap H1 H2 H3 ltac:(lia)).
  destruct (find_spot _ _ _ _ _ _ _ _ _ _ _ _) as [[[b l']|]| |]; try done. by apply (spot_weaken spec spec').
Qed.

(** ** Inserting an area *)

Definition placed (a : area) (base : Z) : area :=
  a <| Base := base |> <| Size := size |> <| CommitBase := u64 (base + size) |>.

Lemma exact_spot_ok start base : lo <= start → start + size <= hi → exact_spot s size start = Some base →
  base = start ∧ free_range lo hi (fAreas s) start size.
Proof.
  intros Hlo Hhi. unfold exact_spot. destruct (neighbours s size start) as [la ne] eqn:En.
  destruct (neighbours_ok start la ne En) as (l1 & l2 & El & -> & -> & _). pose proof (sp_end _ _ Hok) as Hse.
  pose proof (pow2_pos k ltac:(lia)). assert (0 < lo) by exact Hbase. assert (hi = fEndAddress s + 1) as Ehi by reflexivity.
  destruct (_ && _) eqn:Ec; [|done]. intros [= <-]. split; [done|]. apply andb_true_iff in Ec as [E1 E2].
  split_and!; [done|done|]. exists l1, l2. pose proof (sp_ordered _ _ Hok) as Ho. rewrite El in Ho.
  apply ordered_app in Ho as (O1 & O2 & O3). split_and!; [done|..].
  - intros a Ha. destruct (last l1) as [b|] eqn:Eb.
    + apply last_Some in Eb as [l1' ->]. assert (b ∈ fAreas s) as Hb by (rewrite El, !elem_of_app; left; right; by left).
      apply Z.ltb_lt in E1. rewrite (proj2 (end_wrap b Hb)) in E1. apply ordered_app in O1 as (_ & _ & O1).
      apply elem_of_app in Ha as [Ha| ->%list_elem_of_singleton]; [|lia].
      specialize (O1 a b Ha ltac:(by left)). pose proof (area_bounds b Hb). unfold End in *. lia.
    + apply last_None in Eb as ->. by apply elem_of_nil in Ha.
  - intros b Hb. destruct l2 as [|n l2]; [by apply elem_of_nil in Hb|]. cbn in E2. apply Z.ltb_lt in E2.
    rewrite (wrap_small 64 (size - 1)), wrap_small in E2 by (unfold fits; lia).
    apply elem_of_cons in Hb as [->|Hb]; [lia|]. destruct O2 as [O2 _]. specialize (O2 b Hb).
    assert (n ∈ fAreas s) as Hn by (rewrite El, elem_of_app; right; by left). pose proof (area_bounds n Hn). unfold End in *. lia.
Qed.

Lemma tree_Update_split a b (p q : list area) : NoDup (p ++ a :: q) → tree_Update a b (p ++ a :: q) = p ++ b :: q.
Proof using Type.
  intros (Hp & Hd & [Hq Hndq]%NoDup_cons)%NoDup_app. unfold tree_Update. rewrite fmap_app, fmap_cons, decide_True by done.
  assert (∀ l : list area, a ∉ l → (fun x => if decide (x = a) then b else x) <$> l = l) as Hid.
  { intros l Hl. rewrite <- (list_fmap_id l) at 2. apply list_fmap_ext. intros i x Hx. cbn. rewrite decide_False; [done|].
    intros ->. apply Hl. by apply list_elem_of_lookup_2 with i. }
  rewrite !Hid; [done|done|]. intros Ha. apply (Hd a Ha). by left.
Qed.

(** The parts of the state the insertion does not touch. *)
Definition frame (s' : space) : Prop :=
  fBase s' = fBase s ∧ fEndAddress s' = fEndAddress s ∧ fFreeSpace s' = fFreeSpace s ∧
  fRandomizingEnabled s' = fRandomizingEnabled s ∧ fDeleting s' = fDeleting s ∧ fChangeCount s' = fChangeCount s + 1.

Lemma into_reserved_ok start a new st s' :
  0 <= start → start + size <= 2 ^ 64 → _InsertAreaIntoReservedRegion start size a new s = (st, s') →
  match st with
  | Ok => frame s' ∧ fNextInsertHint s' = fNextInsertHint s ∧
      ∃ l', room_ok True start l' ∧ fAreas s' = tree_Insert (placed a start) l'
  | Err _ => s' = s
  end.
Proof.
  intros Hs0 Hs1. unfold _InsertAreaIntoReservedRegion. destruct (FindClosest (fAreas s) start true) as [r|] eqn:Ef;
    [|by intros [= <- <-]].
  rewrite FindClosest_less in Ef by apply areas_sorted. apply last_Some_elem_of, list_elem_of_filter in Ef as [_ Hin].
  pose proof (area_bounds r Hin) as Hb. destruct (end_wrap r Hin) as [Ew1 Ew2]. unfold ContainsAddress. rewrite Ew2.
  destruct (negb _ || negb _) eqn:Ec; [by intros [= <- <-]|]. breflect.
  destruct (is_reserved r) eqn:Hr; cbn [negb]; [|by intros [= <- <-]].
  pose proof (pow2_pos k ltac:(lia)) as Hp. pose proof (sp_end _ _ Hok) as Hse.
  assert (start + size <= End r) as Hend'.
  { destruct (decide (start + size = 2 ^ 64)) as [He|He].
    - rewrite He in *. change (u64 (u64 (2 ^ 64) - 1)) with (2 ^ 64 - 1) in *. unfold End in *. lia.
    - rewrite (wrap_small 64 (start + size)), wrap_small in * by (unfold fits; lia). lia. }
  fold (placed a start). rewrite Ew1, (wrap_small 64 (start + size)) by (unfold fits; lia).
  apply list_elem_of_split in Hin as (p & q & El). pose proof areas_NoDup as Hnd. rewrite El in Hnd.
  set (left_ := r <| Size := u64 (start - Base r) |>).
  assert (Base r < start → Base left_ = Base r ∧ End left_ = start ∧ Size left_ = start - Base r) as Hleft.
  { intros Hlt. subst left_. unfold End. cbn. rewrite wrap_small by (unfold fits; lia). lia. }
  assert (∀ s2 before behind, s' = IncrementChangeCount (s2 <| fAreas ::= tree_Insert (placed a start) |>) →
    fAreas s2 = p ++ (before ++ behind) ++ q → fBase s2 = fBase s ∧ fEndAddress s2 = fEndAddress s ∧
    fFreeSpace s2 = fFreeSpace s ∧ fRandomizingEnabled s2 = fRandomizingEnabled s ∧ fDeleting s2 = fDeleting s ∧
    fChangeCount s2 = fChangeCount s ∧ fNextInsertHint s2 = fNextInsertHint s → ordered (before ++ behind) →
    (∀ x, x ∈ before → x = left_ ∧ Base r < start) →
    (∀ x, x ∈ behind → is_reserved x = true ∧ 0 < Size x ∧ Base x = start + size ∧ End x = End r) →
    frame s' ∧ fNextInsertHint s' = fNextInsertHint s ∧
    ∃ l', room_ok True start l' ∧ fAreas s' = tree_Insert (placed a start) l') as Hdone.
  { intros s2 before behind -> E2 (F1 & F2 & F3 & F4 & F5 & F6 & F7) Hord Hbef Hbeh. split_and!.
    - unfold frame. cbn. split_and!; try done. lia.
    - done.
    - exists (fAreas s2). split; [|done]. rewrite E2. apply (room_in_reserved True p r q); try done; try lia.
      + intros x Hx. destruct (Hbef x Hx) as [-> Hlt]. destruct (Hleft Hlt) as (? & ? & ?). split_and!; try done; lia.
      + intros x Hx. destruct (Hbeh x Hx) as (? & ? & ? & ?). split_and!; try done; lia. }
  destruct (Z.eqb_spec start (Base r)) as [Es|Es].
  - destruct (Z.eqb_spec size (Size r)) as [Ez|Ez].
    + intros [= <- <-]. eapply (Hdone _ [] []); [reflexivity|..]; try done; try by intros ? ?%elem_of_nil.
      cbn. rewrite El. unfold tree_Remove. by rewrite remove_elem_split.
    + intros [= <- <-]. eapply (Hdone _ [] [_]); [reflexivity|..]; try done; try by intros ? ?%elem_of_nil.
      * cbn. rewrite El. by rewrite tree_Update_split.
      * split; [by intros ? ?%elem_of_nil|done].
      * intros x ->%list_elem_of_singleton. unfold End in *. cbn. rewrite !wrap_small by (unfold fits; lia).
        split_and!; try done; lia.
  - destruct (Z.eqb_spec (start + size) (End r)) as [Ee|Ee].
    + intros [= <- <-]. eapply (Hdone _ [left_] []); [reflexivity|..]; try done; try by intros ? ?%elem_of_nil.
      * cbn. rewrite El. by rewrite tree_Update_split.
      * split; [by intros ? ?%elem_of_nil|done].
      * intros x ->%list_elem_of_singleton. split; [done|lia].
    + destruct new as [ptr|]; cbn [mbind option_bind]; [|by intros [= <- <-]].
      destruct (Hleft ltac:(lia)) as (L1 & L2 & L3).
      set (right_ := (CreateReserved ptr (protection r)) <| Base := _ |> <| Size := _ |> <| cache_offset := _ |>).
      assert (Base right_ = start + size ∧ Size right_ = End r - start - size) as [R1 R2].
      { subst right_. cbn. split; [done|]. apply wrap_small. unfold fits, End in *. lia. }
      intros [= <- <-]. eapply (Hdone _ [left_] [right_]); [reflexivity|..]; try done.
      * change (tree_Insert right_ (tree_Update r left_ (fAreas s)) = p ++ ([left_] ++ [right_]) ++ q).
        rewrite El, tree_Update_split by done. change (left_ :: q) with ([left_] ++ q). rewrite app_assoc.
        rewrite tree_Insert_split; [by rewrite <- !app_assoc|..].
        -- pose proof (sp_ordered _ _ Hok) as Ho. rewrite El in Ho. apply ordered_mid in Ho as (_ & _ & O3 & _).
           intros x [Hx| ->%list_elem_of_singleton]%elem_of_app; [|lia]. specialize (O3 x Hx).
           assert (x ∈ fAreas s) as Hx' by (rewrite El, elem_of_app; by left). pose proof (area_bounds x Hx'). unfold End in *. lia.
        -- pose proof (sp_ordered _ _ Hok) as Ho. rewrite El in Ho. apply ordered_mid in Ho as (_ & _ & _ & O4 & _).
           intros y Hy. specialize (O4 y Hy). lia.
      * cbn. split; [|split; [by intros ? ?%elem_of_nil|done]]. intros b ->%list_elem_of_singleton. lia.
      * intros x ->%list_elem_of_singleton. split; [done|lia].
      * intros x ->%list_elem_of_singleton. split_and!; [done|unfold End in *; lia|done|unfold End in *; lia].
Qed.

(** The outcome of a successful insertion at [base]. *)
Definition inserted (N : Prop) (a : area) (base : Z) (s' : space) : Prop :=
  frame s' ∧ fits 64 (fNextInsertHint s') ∧
  ∃ l', room_ok N base l' ∧ fAreas s' = tree_Insert (placed a base) l'.

Lemma slot_ok heap hbs start spec alignment a new random0 :
  slot_alignment spec alignment size hbs = Ret (2 ^ k) → lo <= heap <= hi → 0 <= random0 → fits 64 start →
  start + (size - 1) < 2 ^ 64 → (lo <= start → roundup2 start (2 ^ k) + (size - 1) <= end_) →
  reserved = is_reserved a →
  match _InsertAreaSlot heap hbs start size end_ spec alignment a new random0 random s with
  | Ret (Ok, s') => ∃ base, inserted (_IsRandomized s spec = false ∧ granular) a base s' ∧
      (if bool_decide (spec = B_EXACT_ADDRESS)
       then (start mod 2 ^ k = 0 → base = start) ∧ (base = start ∨ base = roundup2 start (2 ^ k)) else base mod 2 ^ k = 0)
  | Ret (Err _, s') => s' = s
  | Panic => may_panic
  | NoFuel => False
  end.
Proof.
  intros Hal Hheap Hr0 Hs0 Hs1 Hfit Hres. unfold _InsertAreaSlot.
  destruct ((start <? fBase s) || (size =? 0) || (end_ <? u64 (start + u64 (size - 1)))) eqn:Echk; [done|]. breflect.
  destruct (fEndAddress s <? end_); [done|]. unfold fits in Hs0.
  assert (0 < lo) as Hlo by exact Hbase. assert (hi = fEndAddress s + 1) as Ehi by reflexivity.
  pose proof (sp_end _ _ Hok) as Hse. pose proof (pow2_pos k ltac:(lia)) as Hp. assert (lo <= start) as Hls by done.
  specialize (Hfit Hls). rewrite (wrap_small 64 (size - 1)), wrap_small in * by (unfold fits; lia).
  destruct (roundup2_spec start k Hk ltac:(lia) ltac:(lia)) as [Hru Hrm]. set (start' := roundup2 start (2 ^ k)) in *.
  set (early := if bool_decide (spec = B_EXACT_ADDRESS) && negb (is_reserved a) then _ else None).
  destruct early as [[st s']|] eqn:Ee.
  { subst early. destruct (bool_decide (spec = B_EXACT_ADDRESS) && negb (is_reserved a)) eqn:Eb; [|done]. breflect.
    destruct (_InsertAreaIntoReservedRegion _ _ _ _ _) as [st' s2] eqn:Ei.
    apply into_reserved_ok in Ei; [|lia|lia]. destruct (_ || _); [|done]. injection Ee as -> ->.
    destruct st as [|e]; [|done]. destruct Ei as (Hfr & Hh & l' & Hroom & Hl'). exists start.
    rewrite bool_decide_eq_true_2 by done. split; [|by split; [|left]]. split_and!; [done|rewrite Hh; apply Hok|].
    exists l'. split; [|done]. destruct Hroom as (R1 & R2 & R3). split_and!; try done. intros _. by apply R3. }
  clear Ee early. rewrite Hal. cbn [mbind outcome_bind]. fold start'.
  rewrite (wrap_small 64 (end_ - size)) by (unfold fits; lia). rewrite (wrap_small 64 (end_ - size + 1)) by (unfold fits; lia).
  set (useHint := negb (bool_decide (spec = B_EXACT_ADDRESS)) && negb (is_base_address_spec spec)).
  set (begin := if fRandomizingEnabled s && _ then _ else _).
  assert (∃ o st, begin = Ret (o, st) ∧ lo <= st <= end_ - size + 1 ∧ original_ok o spec ∧
    (spec = B_EXACT_ADDRESS → st = start')) as (o & st & -> & Hst & Ho & Hexact).
  { subst begin. destruct (fRandomizingEnabled s && bool_decide (spec = B_RANDOMIZED_BASE_ADDRESS)) eqn:Er.
    - breflect. subst spec. destruct (randomize_ok start' (end_ - size + 1) k true random0) as (r & -> & Hr1 & _); [done|lia|lia|done|done|].
      exists start', r. split_and!; try done; try lia. left. lia.
    - assert (original_ok 0 spec) as Horig0.
      { right. split; [done|]. unfold _IsRandomized. destruct (fRandomizingEnabled s); [|done]. by destruct spec. }
      destruct (useHint && (start' <=? fNextInsertHint s) && (fNextInsertHint s <=? end_ - size + 1)) eqn:Eh.
      + breflect. exists start', (fNextInsertHint s). split_and!; try done; try lia; [left; lia|].
        intros ->. subst useHint. done.
      + exists 0, start'. split_and!; try done; lia. }
  cbn [mbind outcome_bind].
  assert (∀ b l' N, room_ok N b l' → 0 <= b → inserted N a b
    (IncrementChangeCount ((if useHint then s <| fNextInsertHint := u64 (b + size) |> else s) <| fAreas := tree_Insert (placed a b) l' |>)))
    as Hdone.
  { intros b l' N Hroom Hb. split_and!; [by unfold frame; destruct useHint|
      destruct useHint; [apply wrap_fits; lia|apply Hok]|]. exists l'. split; [done|]. by destruct useHint. }
  destruct (bool_decide (spec = B_EXACT_ADDRESS)) eqn:Eex.
  - breflect. rewrite (Hexact Eex) in *. destruct (exact_spot s size start') as [b|] eqn:Esp; cbn [mbind outcome_bind]; [|done].
    apply exact_spot_ok in Esp as [-> Hfree]; [|lia|lia]. exists start'. split; [|split; [|by right]].
    2:{ intros Hm. apply (aligned_close start start' (2 ^ k)); lia. }
    apply Hdone; [|lia]. split_and!; [by left|done|]. intros _. apply Hok.
  - destruct (bool_decide (spec = B_OTHER_SPEC)); [done|].
    pose proof (find_spot_ok heap useHint o 4 spec st Hheap ltac:(lia) Ho) as Hf.
    rewrite <- Hres. destruct (find_spot _ _ _ _ _ _ _ _ _ _ _ _) as [[[b l']|]| |]; cbn [mbind outcome_bind]; try done.
    + destruct Hf as [Hroom Hm].
      { subst useHint. intros Hu. breflect. done. }
      { unfold rounds. repeat case_match; lia. }
      exists b. split; [|done]. apply Hdone; [done|]. destruct Hroom as (_ & (? & _) & _). lia.
    + apply Hf; [subst useHint; intros Hu; by breflect|]. unfold rounds. repeat case_match; lia.
    + apply Hf; [subst useHint; intros Hu; by breflect|]. unfold rounds. repeat case_match; lia.
Qed.
End search_proofs.

(** ** Resizing, reserving and looking up *)

Section ops_proofs.
Context `{AreaTree}.
Context (A : Z) (s : space) (Hok : space_ok A s) (HA : 0 <= A).
#[local] Set Default Proof Using "Type*".

Let lo := fBase s.
Let hi := fEndAddress s + 1.

Lemma space_sorted : sorted (fAreas s).
Proof. apply ordered_sorted; apply Hok. Qed.

Lemma in_space a : a ∈ fAreas s →
  0 <= Base a ∧ 0 < Size a ∧ End a <= hi ∧ hi <= 2 ^ 64 ∧ u64 (Base a + u64 (Size a - 1)) = End a - 1 ∧
  u64 (u64 (Base a + Size a) - 1) = End a - 1.
Proof.
  intros Ha. destruct (sp_within _ _ Hok a Ha) as (? & ? & ?). pose proof (sp_nonempty _ _ Hok a Ha).
  pose proof (sp_end _ _ Hok). pose proof (sp_base _ _ Hok). subst hi. unfold End in *.
  rewrite (wrap_small 64 (Size a - 1)), (wrap_small 64 (Base a + (Size a - 1))) by (unfold fits; lia).
  split_and!; try lia. destruct (decide (Base a + Size a = 2 ^ 64)) as [->|].
  - done.
  - rewrite (wrap_small 64 (Base a + Size a)), wrap_small by (unfold fits; lia). done.
Qed.

Lemma contains_spec a x : a ∈ fAreas s → ContainsAddress x a = true ↔ Base a <= x < End a.
Proof.
  intros Ha. destruct (in_space a Ha) as (? & ? & ? & ? & Hw & _). unfold ContainsAddress. rewrite Hw, andb_true_iff, !Z.leb_le. lia.
Qed.

(** The area with the greatest base address not above [x]. *)
Lemma closest_less x a : FindClosest (fAreas s) x true = Some a ↔
  a ∈ fAreas s ∧ Base a <= x ∧ ∀ b, b ∈ fAreas s → Base b <= x → Base b <= Base a.
Proof.
  pose proof space_sorted as Hs. rewrite FindClosest_less by done.
  destruct (sorted_split (fAreas s) (x + 1) Hs) as (l1 & l2 & El & H1 & H2). rewrite El.
  assert (filter (fun a => Base a <= x) (l1 ++ l2) = l1) as ->.
  { rewrite filter_app, (filter_all _ l1), (filter_none _ l2), app_nil_r; [done|..];
      intros y Hy; [specialize (H2 y Hy)|specialize (H1 y Hy)]; lia. }
  rewrite El in Hs. split.
  - intros [l1' ->]%last_Some. split_and!.
    + rewrite !elem_of_app. left. right. by left.
    + specialize (H1 a ltac:(apply elem_of_app; right; by left)). lia.
    + intros b [[Hb| ->%list_elem_of_singleton]%elem_of_app|Hb]%elem_of_app Hle; [|lia|specialize (H2 b Hb); lia].
      rewrite <- app_assoc in Hs. clear -Hs Hb. revert Hs. induction l1' as [|c l1' IH]; cbn; [by apply elem_of_nil in Hb|].
      inversion 1 as [|? ? Hc Hl]; subst. apply elem_of_cons in Hb as [->|Hb]; [|by apply IH].
      specialize (Hc a). rewrite elem_of_app in Hc. specialize (Hc (or_intror (list_elem_of_here _ _))). lia.
  - intros ([Ha|Ha]%elem_of_app & Hx & Hmax); [|specialize (H2 a Ha); lia].
    apply list_elem_of_split in Ha as (p & q & ->). destruct q as [|b q]; [by apply last_snoc|]. exfalso.
    assert (Base b <= Base a) as Hle.
    { apply Hmax; [|specialize (H1 b ltac:(apply elem_of_app; right; right; by left)); lia].
      rewrite !elem_of_app. left. right. right. by left. }
    clear -Hs Hle. rewrite <- app_assoc in Hs. cbn in Hs. induction p as [|c p IH]; inversion Hs as [|? ? Hc Hl]; subst.
    + specialize (Hc b ltac:(by left)). lia.
    + by apply IH.
Qed.

Lemma disjoint_areas a b x : a ∈ fAreas s → b ∈ fAreas s → Base a <= x < End a → Base b <= x < End b → a = b.
Proof.
  intros Ha Hb Hxa Hxb. apply list_elem_of_split in Ha as (p & q & El). pose proof (sp_ordered _ _ Hok) as Ho.
  rewrite El in Ho, Hb. apply ordered_mid in Ho as (_ & _ & O3 & O4 & _).
  apply elem_of_app in Hb as [Hb|[->|Hb]%elem_of_cons]; [specialize (O3 b Hb); lia|done|specialize (O4 b Hb); lia].
Qed.

Lemma lookup_ok x a : LookupArea x s = Some a ↔ a ∈ fAreas s ∧ is_reserved a = false ∧ Base a <= x < End a.
Proof.
  unfold LookupArea. split.
  - destruct (FindClosest (fAreas s) x true) as [b|] eqn:Ef; cbn; [|done]. apply closest_less in Ef as (Hb & _).
    destruct (is_reserved b) eqn:Er; [done|]. destruct (ContainsAddress x b) eqn:Ec; [|done]. intros [= ->].
    split_and!; try done; by apply contains_spec.
  - intros (Ha & Hr & Hx). assert (FindClosest (fAreas s) x true = Some a) as ->.
    { apply closest_less. split_and!; [done|lia|]. intros b Hb Hle. destruct (decide (Base b <= Base a)) as [|Hgt]; [done|].
      exfalso. destruct (in_space b Hb) as (_ & ? & _). apply list_elem_of_split in Ha as (p & q & El).
      pose proof (sp_ordered _ _ Hok) as Ho. rewrite El in Ho, Hb. apply ordered_mid in Ho as (_ & _ & O3 & O4 & _).
      apply elem_of_app in Hb as [Hb|[->|Hb]%elem_of_cons]; [specialize (O3 b Hb); unfold End in *; lia|lia|specialize (O4 b Hb); lia]. }
    cbn. rewrite Hr. by rewrite (proj2 (contains_spec a x Ha)).
Qed.

(** Where a resized area grows to. *)
Lemma resize_ok a newSize :
  a ∈ fAreas s → 0 < newSize → Base a + newSize <= 2 ^ 64 → CanResizeArea a newSize s = true →
  ∃ s' p q q', ResizeArea a newSize s = Ret s' ∧ fAreas s = p ++ a :: q ∧ fAreas s' = p ++ a <| Size := newSize |> :: q' ∧
    gave_way q q' ∧ space_ok A s'.
Proof.
  intros Ha Hnew Hwrap Hcan. destruct (in_space a Ha) as (Ba & Sa & Ea & Hhi & _).
  apply list_elem_of_split in Ha as (p & q & El). pose proof (sorted_NoDup _ space_sorted) as Hnd. rewrite El in Hnd.
  pose proof (sp_ordered _ _ Hok) as Ho. pose proof (sp_within _ _ Hok) as Hw. pose proof (sp_nonempty _ _ Hok) as Hn.
  rewrite El in Ho, Hw, Hn. apply ordered_mid in Ho as (O1 & O2 & O3 & O4 & O5).
  apply within_app in Hw as [W1 [W2 W3]%within_cons]. apply nonempty_app in Hn as [N1 [N2 N3]%nonempty_cons].
  set (a' := a <| Size := newSize |>). fold lo hi in W1, W2, W3.
  assert (End a' = Base a + newSize) as Ea' by done.
  (* the shape of the result *)
  assert (∀ s1 q', fAreas s1 = p ++ a :: q' → gave_way q q' → (∀ y, y ∈ q' → End a' <= Base y ∧ End a <= Base y) →
    nonempty q' → End a' <= hi → fBase s1 = fBase s → fEndAddress s1 = fEndAddress s → fNextInsertHint s1 = fNextInsertHint s →
    ∃ s' p0 q0 q0', Ret (s1 <| fAreas ::= tree_Update a a' |>) = Ret s' ∧ p ++ a :: q = p0 ++ a :: q0 ∧
      fAreas s' = p0 ++ a' :: q0' ∧ gave_way q0 q0' ∧ space_ok A s') as Hdone.
  { intros s1 q' E1 Hg Hq' Hnq' Hend F1 F2 F3.
    destruct (gave_way_ok lo hi q q' Hg W3 O2) as [W3' O2'].
    assert (∀ x y, x ∈ p → y ∈ q' → End x <= Base y) as O5'.
    { intros x y Hx Hy. specialize (O3 x Hx). destruct (Hq' y Hy) as [_ ?]. unfold End in *. lia. }
    assert (ordered (p ++ a :: q')) as Ho1.
    { apply ordered_mid. split_and!; try done. intros y Hy. by apply Hq'. }
    assert (fAreas (s1 <| fAreas ::= tree_Update a a' |>) = p ++ a' :: q') as E2.
    { change (tree_Update a a' (fAreas s1) = p ++ a' :: q'). rewrite E1. apply tree_Update_split.
      apply sorted_NoDup, ordered_sorted; [done|]. apply nonempty_app. split; [done|]. by apply nonempty_cons. }
    exists (s1 <| fAreas ::= tree_Update a a' |>), p, q, q'. split_and!; try done.
    split; rewrite ?E2.
    - change (0 <= fBase s1). rewrite F1. apply Hok.
    - change (fBase s1 <= fEndAddress s1 ∧ fEndAddress s1 + 1 + A <= 2 ^ 64). rewrite F1, F2. apply Hok.
    - change (fits 64 (fNextInsertHint s1)). rewrite F3. apply Hok.
    - change (within (fBase s1) (fEndAddress s1 + 1) (p ++ a' :: q')). rewrite F1, F2. apply within_app. split; [done|].
      apply within_cons. split; [|done]. change (Base a') with (Base a). change (Size a') with newSize. fold lo hi. lia.
    - apply ordered_mid. split_and!; try done. intros y Hy. by apply Hq'.
    - apply nonempty_app. split; [done|]. by apply nonempty_cons. }
  assert (Next a (fAreas s) = head q) as Hnext by (unfold Next; rewrite El, GetIterator_split by done; done).
  unfold ResizeArea. unfold CanResizeArea in Hcan. rewrite Hnext in *. rewrite El.
  rewrite (wrap_small 64 (newSize - 1)), (wrap_small 64 (Base a + (newSize - 1))) in * by (unfold fits; lia).
  destruct q as [|n q]; cbn [head] in *.
  { cbn [mbind outcome_bind]. apply Z.leb_le in Hcan. apply (Hdone s []); try done; [by left|by intros ? ?%elem_of_nil|].
    rewrite Ea'. subst hi. lia. }
  apply within_cons in W3 as [W3 W4]. apply nonempty_cons in N3 as [N3 N4]. destruct O2 as [O2 O2'].
  assert (End a <= Base n) as Han by (apply O4; by left).
  destruct (Z.leb_spec (Base n) (Base a + (newSize - 1))) as [Hle|Hgt].
  - rewrite (proj2 (Z.ltb_ge _ _) Hle) in Hcan. cbn [orb] in Hcan. apply andb_true_iff in Hcan as [[Hr Hc]%andb_true_iff He].
    breflect. rewrite Hr, (proj2 (Z.ltb_ge _ _) Hc), (proj2 (Z.ltb_ge _ _) He). cbn [negb orb].
    assert (n ∈ fAreas s) as Hin by (rewrite El, elem_of_app; right; right; by left).
    destruct (in_space n Hin) as (_ & _ & _ & _ & Hwn & _). rewrite Hwn in He.
    assert (u64 (u64 (Base a + newSize) - Base n) = Base a + newSize - Base n) as ->.
    { unfold wrap. rewrite Zminus_mod_idemp_l. apply wrap_small. unfold fits, End in *. lia. }
    assert (∀ y, y ∈ q → End a' <= Base y ∧ End a <= Base y) as Hq.
    { intros y Hy. specialize (O2 y Hy). split; [lia|]. apply O4. by right. }
    destruct (Z.leb_spec (Size n) (Base a + newSize - Base n)) as [Hgone|Hleft].
    + cbn [mbind outcome_bind]. apply (Hdone _ q); try done.
      * unfold RemoveArea. rewrite Hr. change (tree_Remove n (fAreas s) = p ++ a :: q). rewrite El.
        change (p ++ a :: n :: q) with (p ++ [a] ++ n :: q). rewrite app_assoc. unfold tree_Remove.
        rewrite remove_elem_split by (rewrite <- app_assoc; done). by rewrite <- app_assoc.
      * right. exists [], n, q, []. split_and!; try done. by intros ? ?%elem_of_nil.
      * rewrite Ea'. lia.
      * unfold RemoveArea. by rewrite Hr.
      * unfold RemoveArea. by rewrite Hr.
      * unfold RemoveArea. by rewrite Hr.
    + cbn [mbind outcome_bind]. unfold ShrinkAreaHead.
      rewrite (wrap_small 64 (Size n - (Base a + newSize - Base n))) by (unfold fits, End in *; lia).
      rewrite (proj2 (Z.eqb_neq _ _)) by (unfold End in *; lia).
      set (n1 := n <| Base := _ |> <| Size := _ |>). set (n' := n1 <| CommitBase := _ |>).
      assert (Base n' = Base a + newSize ∧ Size n' = Size n - (Base a + newSize - Base n)) as [Bn' Sn'].
      { subst n' n1. cbn. split; [|done]. rewrite wrap_small by (unfold fits, End in *; lia). lia. }
      apply (Hdone _ (n' :: q)); try done.
      * change (tree_Update n n' (fAreas s) = p ++ a :: n' :: q). rewrite El.
        change (p ++ a :: n :: q) with (p ++ [a] ++ n :: q). rewrite app_assoc.
        rewrite tree_Update_split by (rewrite <- app_assoc; done). by rewrite <- app_assoc.
      * right. exists [], n, q, [n']. split_and!; try done; [split; [by intros ? ?%elem_of_nil|done]|].
        intros x ->%list_elem_of_singleton. unfold End in *. split_and!; try done; lia.
      * intros y [->|Hy]%elem_of_cons; [unfold End in *; lia|by apply Hq].
      * apply nonempty_cons. split; [lia|done].
      * rewrite Ea'. lia.
  - cbn [mbind outcome_bind]. apply (Hdone s (n :: q)); try done; [by left| | |].
    + intros y [->|Hy]%elem_of_cons; [lia|]. specialize (O2 y Hy). specialize (O4 y ltac:(by right)). unfold End in *. lia.
    + by apply nonempty_cons.
    + rewrite Ea'. unfold End in *. lia.
Qed.

Lemma filter_head_split (P : area → Prop) `{∀ x, Decision (P x)} (q : list area) :
  match head (filter P q) with
  | None => filter P q = []
  | Some n => ∃ q1 q2, q = q1 ++ n :: q2 ∧ P n ∧ filter P q1 = []
  end.
Proof using Type.
  induction q as [|a q IH]; [done|]. destruct (decide (P a)) as [Ha|Ha].
  - rewrite filter_cons_True by done. exists [], q. done.
  - rewrite filter_cons_False by done. destruct (head (filter P q)) as [n|]; [|done].
    destruct IH as (q1 & q2 & -> & Hn & Hq1). exists (a :: q1), q2. by rewrite filter_cons_False.
Qed.

Lemma later_areas p n q y : fAreas s = p ++ n :: q → y ∈ q → End n <= Base y ∧ Base n < Base y.
Proof.
  intros El Hy. pose proof (sp_ordered _ _ Hok) as Ho. rewrite El in Ho. apply ordered_mid in Ho as (_ & _ & _ & O4 & _).
  specialize (O4 y Hy). destruct (in_space n) as (_ & ? & _); [rewrite El, elem_of_app; right; by left|]. unfold End in *. lia.
Qed.

(** The areas the range iterator yields from [x] on. *)
Lemma range_areas_ok e : ∀ fuel p x q, fAreas s = p ++ x :: q → (length q < fuel)%nat →
  range_areas fuel e (Some x) s = x :: filter (fun a => is_reserved a = false ∧ Base a <= e) q.
Proof.
  pose proof (sorted_NoDup _ space_sorted) as Hnd.
  induction fuel as [|fuel IH]; intros p x q El Hf; [lia|]. cbn [range_areas]. f_equal.
  unfold range_next, NextArea, skip_reserved. rewrite El, GetIterator_split by (by rewrite <- El). cbn [tail].
  pose proof (filter_head_split (fun a => is_reserved a = false) q) as Hh.
  destruct (head (filter (fun a => is_reserved a = false) q)) as [n|]; cbn [mbind option_bind].
  - destruct Hh as (q1 & q2 & -> & Hn & Hq1).
    assert (filter (fun a => is_reserved a = false ∧ Base a <= e) q1 = []) as Hq1'.
    { apply filter_none. intros y Hy [Hy1 _]. assert (y ∈ filter (fun a => is_reserved a = false) q1) as Hin
        by by apply list_elem_of_filter. rewrite Hq1 in Hin. by apply elem_of_nil in Hin. }
    rewrite filter_app, Hq1'. cbn [app]. destruct (Z.ltb_spec e (Base n)) as [Hgt|Hle].
    + rewrite filter_none; [by destruct fuel|]. intros y Hy [_ Hye].
      apply elem_of_cons in Hy as [->|Hy]; [lia|].
      destruct (later_areas (p ++ x :: q1) n q2 y) as [_ ?]; [by rewrite El, <- app_assoc|done|lia].
    + rewrite filter_cons_True by done. apply (IH (p ++ x :: q1) n q2).
      * rewrite El. by rewrite <- app_assoc.
      * rewrite length_app in Hf. cbn in Hf. lia.
  - assert (filter (fun a => is_reserved a = false ∧ Base a <= e) q = []) as ->.
    { apply filter_none. intros y Hy [Hy1 _]. assert (y ∈ filter (fun a => is_reserved a = false) q) as Hin
        by by apply list_elem_of_filter. rewrite Hh in Hin. by apply elem_of_nil in Hin. }
    by destruct fuel.
Qed.

Lemma range_iterator_ok address e a :
  FindClosest (fAreas s) address true = Some a → is_reserved a = false → address <= e →
  range_areas (length (fAreas s)) e (range_rewind address e s) s =
  filter (fun b => is_reserved b = false ∧ address < End b ∧ Base b <= e) (fAreas s).
Proof.
  intros Hf Hr Hae. pose proof (sorted_NoDup _ space_sorted) as Hnd. pose proof Hf as (Ha & Hax & Hmax)%closest_less.
  apply list_elem_of_split in Ha as (p & q & El). assert (FindClosestArea address true s = Some a) as Hfa.
  { unfold FindClosestArea. rewrite Hf. cbn [mbind option_bind]. rewrite El, GetIterator_split by (by rewrite <- El).
    unfold skip_reserved. by rewrite filter_cons_True. }
  unfold range_rewind. rewrite Hfa. cbn [mbind option_bind].
  set (P := fun b => is_reserved b = false ∧ address < End b ∧ Base b <= e).
  assert (filter P (fAreas s) = filter P [a] ++ filter P q) as ->.
  { rewrite El, filter_app, (filter_none P p); [by rewrite <- filter_app|]. intros y Hy (_ & Hy2 & _).
    pose proof (sp_ordered _ _ Hok) as Ho. rewrite El in Ho. apply ordered_mid in Ho as (_ & _ & O3 & _).
    specialize (O3 y Hy). lia. }
  assert (filter P q = filter (fun b => is_reserved b = false ∧ Base b <= e) q) as ->.
  { apply filter_ext_elem. intros y Hy.
    assert (address < Base y) as Hay.
    { destruct (later_areas p a q y El Hy) as [_ Hlt]. destruct (decide (Base y <= address)) as [Hle|]; [|lia].
      specialize (Hmax y). rewrite El, elem_of_app in Hmax.
      specialize (Hmax (or_intror (list_elem_of_further _ _ _ Hy)) Hle). lia. }
    destruct (in_space y) as (_ & ? & _); [rewrite El, elem_of_app; right; by right|]. subst P. cbn. unfold End in *.
    split; [intros (? & ? & ?); by split|intros [? ?]; split_and!; [done|lia|done]]. }
  assert (a ∈ fAreas s) as Ha by (rewrite El, elem_of_app; right; by left).
  assert (length (fAreas s) = length p + S (length q))%nat as Hlen by (by rewrite El, length_app).
  destruct (ContainsAddress address a) eqn:Ec.
  - apply contains_spec in Ec; [|done]. rewrite (range_areas_ok e _ p a q El) by lia.
    by rewrite filter_cons_True by (subst P; cbn; split_and!; [done|lia|lia]).
  - assert (filter P [a] = []) as ->.
    { apply filter_none. intros y ->%list_elem_of_singleton (_ & Hy & _). apply not_true_iff_false in Ec. apply Ec.
      apply contains_spec; [done|lia]. }
    pose proof (range_areas_ok e (S (length (fAreas s))) p a q El ltac:(lia)) as Hra. cbn [range_areas] in Hra.
    by injection Hra.
Qed.

Lemma ordered_filter (P : area → Prop) `{∀ x, Decision (P x)} l : ordered l → ordered (filter P l).
Proof using Type.
  induction l as [|a l IH]; [done|]. intros [H1 H2]. destruct (decide (P a)).
  - rewrite filter_cons_True by done. split; [|auto]. intros b [_ Hb]%list_elem_of_filter. auto.
  - rewrite filter_cons_False by done. auto.
Qed.

(** Dropping areas keeps the invariant. *)
Lemma filter_space_ok (P : area → Prop) `{∀ x, Decision (P x)} s' :
  fBase s' = fBase s → fEndAddress s' = fEndAddress s → fNextInsertHint s' = fNextInsertHint s →
  fAreas s' = filter P (fAreas s) → space_ok A s'.
Proof.
  intros F1 F2 F3 F4. split; rewrite ?F1, ?F2, ?F3, ?F4; try apply Hok.
  - intros a [_ Ha]%list_elem_of_filter. by apply Hok.
  - apply ordered_filter, Hok.
  - intros a [_ Ha]%list_elem_of_filter. by apply Hok.
Qed.

(** The reserved ranges inside a range of addresses. *)
Definition unreserved (address e : Z) (a : area) : Prop :=
  is_reserved a = true ∧ address <= Base a ∧ End a - 1 <= e.
#[global] Instance unreserved_dec address e a : Decision (unreserved address e a).
Proof using Type. unfold unreserved. apply _. Defined.

Lemma unreserve_step address e : ∀ it p s1,
  fAreas s = p ++ it → (∀ x, x ∈ it → address <= Base x) →
  fAreas s1 = filter (fun x => ¬ unreserved address e x) p ++ it →
  let s' := unreserve e it s1 in
  fAreas s' = filter (fun x => ¬ unreserved address e x) (fAreas s) ∧
  fRefCount s' = fRefCount s1 - Z.of_nat (length (filter (unreserved address e) it)) ∧
  fBase s' = fBase s1 ∧ fEndAddress s' = fEndAddress s1 ∧ fNextInsertHint s' = fNextInsertHint s1 ∧ fFreeSpace s' = fFreeSpace s1.
Proof.
  pose proof (sorted_NoDup _ space_sorted) as Hnd.
  induction it as [|a it IH]; intros p s1 El Hlow E1; cbn [unreserve].
  { rewrite E1, El, !app_nil_r. split_and!; try done. cbn. lia. }
  assert (a ∈ fAreas s) as Ha by (rewrite El, elem_of_app; right; by left).
  destruct (in_space a Ha) as (_ & Sa & _ & _ & _ & ->).
  assert (fAreas s = (p ++ [a]) ++ it) as El' by by rewrite <- app_assoc.
  destruct (Z.leb_spec (End a - 1) e) as [Hle|Hgt].
  - assert (∀ x, x ∈ it → address <= Base x) as Hlow' by (intros x Hx; apply Hlow; by right).
    destruct (is_reserved a) eqn:Hr.
    + assert (unreserved address e a) as Hu by (split_and!; [done|apply Hlow; by left|done]).
      specialize (IH (p ++ [a]) (Put (RemoveArea a s1)) El' Hlow').
      rewrite filter_app, (filter_cons_False _ a []), app_nil_r in IH by tauto. rewrite filter_cons_True by done.
      unfold RemoveArea in *. rewrite Hr in *. cbn zeta in IH. destruct IH as (I1 & I2 & I3 & I4 & I5 & I6).
      { change (tree_Remove a (fAreas s1) = filter (fun x => ¬ unreserved address e x) p ++ it). rewrite E1.
        apply remove_elem_split. rewrite El in Hnd. apply NoDup_app in Hnd as (D1 & D2 & D3).
        apply NoDup_app. split_and!; [by apply NoDup_filter| |done]. intros x [_ Hx]%list_elem_of_filter. by apply D2. }
      cbn [length]. split_and!; try done. rewrite I2. change (fRefCount s1 - 1 - Z.of_nat (length (filter (unreserved address e) it)) =
        fRefCount s1 - Z.of_nat (S (length (filter (unreserved address e) it)))). lia.
    + assert (¬ unreserved address e a) as Hu by (intros (? & _); congruence).
      specialize (IH (p ++ [a]) s1 El' Hlow'). rewrite filter_app, (filter_cons_True _ a []) in IH by done.
      rewrite filter_cons_False by done. apply IH. rewrite E1. by rewrite <- app_assoc.
  - assert (∀ x, x ∈ a :: it → ¬ unreserved address e x) as Hnone.
    { intros x [->|Hx]%elem_of_cons (_ & _ & He); [lia|]. destruct (later_areas p a it x El Hx) as [? _].
      destruct (in_space x) as (_ & ? & _); [rewrite El, elem_of_app; right; by right|]. unfold End in *. lia. }
    rewrite (filter_none (unreserved address e)) by done. cbn. split_and!; try done; [|lia].
    rewrite E1, El, filter_app, (filter_all _ (a :: it)); done.
Qed.

Lemma unreserve_ok address e : ∃ s',
  (match FindClosest (fAreas s) address false with None => s | Some a => unreserve e (GetIterator a (fAreas s)) s end) = s' ∧
  fAreas s' = filter (fun x => ¬ unreserved address e x) (fAreas s) ∧
  fRefCount s' = fRefCount s - Z.of_nat (length (filter (unreserved address e) (fAreas s))) ∧
  fFreeSpace s' = fFreeSpace s ∧ space_ok A s'.
Proof.
  pose proof space_sorted as Hs. pose proof (sorted_NoDup _ Hs) as Hnd. eexists. split; [done|].
  rewrite FindClosest_greater by done. destruct (sorted_split (fAreas s) address Hs) as (p & q & El & H1 & H2).
  assert (filter (fun a => address <= Base a) (fAreas s) = q) as ->.
  { rewrite El, filter_app, (filter_none _ p), (filter_all _ q); [done|done|]. intros y Hy. specialize (H1 y Hy). lia. }
  assert (filter (unreserved address e) p = []) as Hp.
  { apply filter_none. intros y Hy (_ & ? & _). specialize (H1 y Hy). lia. }
  assert (filter (fun x => ¬ unreserved address e x) p = p) as Hp'.
  { apply filter_all. intros y Hy (_ & ? & _). specialize (H1 y Hy). lia. }
  assert (filter (unreserved address e) (fAreas s) = filter (unreserved address e) q) as -> by (by rewrite El, filter_app, Hp).
  destruct q as [|a q]; cbn [head].
  - rewrite app_nil_r in El. rewrite El, Hp'. split_and!; try done. cbn. lia.
  - assert (GetIterator a (fAreas s) = a :: q) as -> by (rewrite El; apply GetIterator_split; by rewrite <- El).
    destruct (unreserve_step address e (a :: q) p s El H2) as (I1 & I2 & I3 & I4 & I5 & I6); [by rewrite Hp'|].
    split_and!; try done. by apply (filter_space_ok (fun x => ¬ unreserved address e x)).
Qed.
End ops_proofs.

(** ** Properties *)

(** What a successful insertion means for the areas of the space. *)
Lemma inserted_facts k s size N a base s' :
  space_ok (2 ^ k) s → 0 < size → inserted s size N a base s' →
  frame s s' ∧ within (fBase s) (fEndAddress s + 1) (fAreas s') ∧ ordered (fAreas s') ∧ placed size a base ∈ fAreas s' ∧
  (∀ x, is_reserved x = false → x ≠ placed size a base → x ∈ fAreas s' ↔ x ∈ fAreas s) ∧
  (∀ x, is_reserved x = true → x ≠ placed size a base → x ∈ fAreas s' →
     ∃ y, y ∈ fAreas s ∧ is_reserved y = true ∧ Base y <= Base x ∧ End x <= End y) ∧
  (N → space_ok (2 ^ k) s').
Proof.
  intros Hok Hsize (Hfr & Hh & l' & (Hg & Hfree & HN) & El). set (a' := placed size a base) in *.
  destruct (gave_way_ok _ _ _ _ Hg (sp_within _ _ Hok) (sp_ordered _ _ Hok)) as [Hw Ho].
  destruct (tree_Insert_ok _ _ l' a' Hw Ho) as ((l1 & l2 & E1 & E2) & Hw' & Ho' & Hn'); [done|done|].
  assert (∀ x, x ∈ fAreas s' ↔ x = a' ∨ x ∈ l') as Hin.
  { intros x. rewrite El, E2, E1, !elem_of_app, elem_of_cons. tauto. }
  rewrite <- El in *. split_and!; try done.
  - apply Hin. by left.
  - intros x Hx Hne. rewrite Hin, (gave_way_others _ _ x Hg Hx). tauto.
  - intros x Hx Hne [?|Hx']%Hin; [done|]. by apply (gave_way_reserved _ _ x Hg).
  - intros HN'. destruct Hfr as (F1 & F2 & _). split; rewrite ?F1, ?F2; try done; try apply Hok. by apply Hn', HN.
Qed.


(** A space with two areas and a reserved range between them. *)
Definition demo_area (ptr id base size : Z) : area := mkArea ptr id base size (base + size) 0 0.
Definition demo_reserved (ptr base size : Z) : area := mkArea ptr VM_RESERVED_AREA_ID base size 0 0 base.
Definition demo_space : space :=
  mkSpace 0x1000 0xffffffff 0xfffff000 2 0 false false
    [demo_area 1 1 0x10000 0x4000; demo_reserved 2 0x20000 0x8000; demo_area 3 2 0x40000 0x2000] 0.

Lemma demo_space_ok : space_ok (2 ^ 12) demo_space.
Proof.
  split; try done.
  - intros a Ha. repeat (apply elem_of_cons in Ha as [->|Ha]; [done|]). by apply elem_of_nil in Ha.
  - cbn. split_and!; try done; intros b Hb; repeat (apply elem_of_cons in Hb as [->|Hb]; [done|]); by apply elem_of_nil in Hb.
  - intros a Ha. repeat (apply elem_of_cons in Ha as [->|Ha]; [done|]). by apply elem_of_nil in Ha.
Qed.



(** The area before the reserved range grows into it. *)
Definition growing : area := demo_area 1 1 0x10000 0x4000.
Definition demo_grow : space :=
  mkSpace 0x1000 0xffffffff 0xfffff000 2 0 false false [growing; mkArea 2 VM_RESERVED_AREA_ID 0x14000 0x8000 0 0 0x10000] 0.

Lemma demo_grow_ok : space_ok 0 demo_grow.
Proof.
  split; try done.
  - intros a Ha. repeat (apply elem_of_cons in Ha as [->|Ha]; [done|]). by apply elem_of_nil in Ha.
  - cbn. split_and!; try done; intros b Hb; repeat (apply elem_of_cons in Hb as [->|Hb]; [done|]); by apply elem_of_nil in Hb.
  - intros a Ha. repeat (apply elem_of_cons in Ha as [->|Ha]; [done|]). by apply elem_of_nil in Ha.
Qed.


(** LookupArea answers an address with exactly the area, not a reserved
    one, that contains it; and when the area closest below the start of a
    range is not reserved, the range iterator yields exactly the areas that
    meet the range, in order. *)
Lemma area_lookup_correct `{AreaTree} (A : Z) (s : space) (Hok : space_ok A s) (HA : 0 <= A) :
  (∀ x a, LookupArea x s = Some a ↔ a ∈ fAreas s ∧ is_reserved a = false ∧ Base a <= x < End a) ∧
  (∀ address size a, FindClosest (fAreas s) address true = Some a → is_reserved a = false →
     0 <= address → 0 < size → address + size < 2 ^ 64 →
     GetAreaRangeIterator address size s =
     filter (fun b => is_reserved b = false ∧ address < End b ∧ Base b <= address + size - 1) (fAreas s)).
Proof.
  split; [intros; by apply (lookup_ok A)|]. intros address size a Hf Hr H0 Hs Hw. unfold GetAreaRangeIterator.
  rewrite (wrap_small 64 (address + size)), wrap_small by (unfold fits; lia).
  apply (range_iterator_ok A s Hok HA address _ a); [done|done|lia].
Qed.

Lemma area_lookup_correct_witness :
  LookupArea 0x41000 demo_space = Some (demo_area 3 2 0x40000 0x2000) ∧
  GetAreaRangeIterator 0x11000 0x40000 demo_space =
    filter (fun b => is_reserved b = false ∧ 0x11000 < End b ∧ Base b <= 0x11000 + 0x40000 - 1) (fAreas demo_space).
Proof.
  destruct (area_lookup_correct (2 ^ 12) demo_space demo_space_ok) as [H1 H2]; [lia|]. split.
  - apply H1. split_and!; [right; right; by left|reflexivity|vm_compute; discriminate|reflexivity].
  - apply (H2 _ _ (demo_area 1 1 0x10000 0x4000)); [reflexivity|reflexivity|lia..].
Defined.

(** UnreserveAddressRange removes exactly the reserved ranges that lie
    inside the range, gives back one reference to the space for each, and
    leaves all other areas. *)
Lemma unreserve_range_correct `{AreaTree} (A : Z) (s : space) (address size : Z) (Hok : space_ok A s) (HA : 0 <= A)
    (Hdel : fDeleting s = false) (H0 : 0 <= address) (Hs : 0 < size) (Hw : address + size < 2 ^ 64) :
  ∃ s', UnreserveAddressRange address size s = (Ok, s') ∧ space_ok A s' ∧
    fAreas s' = filter (fun x => ¬ unreserved address (address + size - 1) x) (fAreas s) ∧
    fRefCount s' = fRefCount s - Z.of_nat (length (filter (unreserved address (address + size - 1)) (fAreas s))) ∧
    fFreeSpace s' = fFreeSpace s.
Proof.
  destruct (unreserve_ok A s Hok HA address (address + size - 1)) as (s' & E & H1 & H2 & H3 & H4). exists s'.
  unfold UnreserveAddressRange. rewrite Hdel, (wrap_small 64 (address + size)), wrap_small by (unfold fits; lia).
  split_and!; try done. destruct (FindClosest (fAreas s) address false); by rewrite E.
Qed.

Lemma unreserve_range_correct_witness : ∃ s', UnreserveAddressRange 0x20000 0x8000 demo_space = (Ok, s') ∧
  length (fAreas s') = 2%nat ∧ fRefCount s' = 1.
Proof.
  destruct (unreserve_range_correct (2 ^ 12) demo_space 0x20000 0x8000 demo_space_ok) as (s' & H1 & _ & H2 & H3 & _);
    [lia|reflexivity|lia..|]. exists s'. split; [exact H1|]. rewrite H2, H3. split; reflexivity.
Defined.

(** ** What the code does not do *)

(** The range iterator yields nothing when no area starts at or below the
    range, and passes over an area behind a reserved range. *)
Lemma range_iterator_misses :
  GetAreaRangeIterator 0x8000 0x40000 demo_space = [] ∧
  LookupArea 0x10000 demo_space = Some (demo_area 1 1 0x10000 0x4000) ∧
  GetAreaRangeIterator 0x20000 0x40000 demo_space = [] ∧
  LookupArea 0x40000 demo_space = Some (demo_area 3 2 0x40000 0x2000).
Proof. vm_compute. done. Qed.

(** A reserved range swallowed by a growing area, or by an area placed on all
    of it, keeps its reference to the space; reserving and unreserving a range
    loses its free space. *)
Lemma reserved_range_leaks :
  (∃ s', ResizeArea growing 0xc000 demo_grow = Ret s' ∧ filter (fun a => is_reserved a = true) (fAreas s') = [] ∧
     fRefCount s' = fRefCount demo_grow) ∧
  (∃ s1 s2 base, ReserveAddressRange 0x1000 0 0x2000 (mkRestrictions 0x50000 B_EXACT_ADDRESS 0) 0 (Some 7) 0 0 demo_space
      = Ret (Ok, Some base, s1) ∧
     UnreserveAddressRange base 0x2000 s1 = (Ok, s2) ∧ fAreas s2 = fAreas demo_space ∧
     fRefCount s2 = fRefCount demo_space ∧ fFreeSpace s2 = fFreeSpace demo_space - 0x2000).
Proof.
  split.
  - eexists. split; [vm_compute; reflexivity|]. done.
  - eexists _, _, _. split; [vm_compute; reflexivity|]. split; [vm_compute; reflexivity|]. done.
Qed.

(** Nothing but a reserved range is left; a random address in it is computed
    with an underflow below [max_randomize], and the check that the range is
    not empty fails. *)
Lemma randomized_reserved_panics :
  _InsertAreaSlot 0x1000 0 0x1000 0x1000 0x8fff B_RANDOMIZED_ANY_ADDRESS 0 (demo_area 9 3 0 0) None 0 0
    (mkSpace 0x1000 0x8fff 0x8000 2 0 true false [mkArea 2 VM_RESERVED_AREA_ID 0x1000 0x8000 0 RESERVED_AVOID_BASE 0x1000] 0)
  = Panic.
Proof. vm_compute. reflexivity. Qed.

(** A request for an exact address that is not aligned is moved up to the next
    aligned address, out of the range that was asked for; and the end of a
    request may wrap around, so that a huge one passes the checks and covers
    other areas. *)
Lemma exact_request_moved :
  (∃ s', _InsertAreaSlot 0x1000 0 0x50800 0x1000 0x517ff B_EXACT_ADDRESS 0 (demo_area 9 3 0 0) None 0 0 demo_space = Ret (Ok, s') ∧
     placed 0x1000 (demo_area 9 3 0 0) 0x51000 ∈ fAreas s') ∧
  ∃ s', _InsertAreaSlot 0x1000 0 0x30000 (2 ^ 64 - 0x2f000) 0xfff B_EXACT_ADDRESS 0 (demo_area 9 3 0 0) None 0 0 demo_space
      = Ret (Ok, s') ∧
     placed (2 ^ 64 - 0x2f000) (demo_area 9 3 0 0) 0x30000 ∈ fAreas s' ∧ demo_area 3 2 0x40000 0x2000 ∈ fAreas s'.
Proof.
  split; eexists; (split; [vm_compute; reflexivity|]).
  - apply (bool_decide_unpack _). vm_compute. exact I.
  - split; apply (bool_decide_unpack _); vm_compute; exact I.
Qed.

(** The new end of an area wraps around for a huge size, and CanResizeArea
    allows it. *)
Lemma resize_wraps :
  CanResizeArea growing (2 ^ 64 - 0x8000) demo_grow = true ∧
  ∃ s', ResizeArea growing (2 ^ 64 - 0x8000) demo_grow = Ret s' ∧
    growing <| Size := 2 ^ 64 - 0x8000 |> ∈ fAreas s' ∧ length (fAreas s') = 2%nat.
Proof.
  split; [vm_compute; reflexivity|]. eexists. split; [vm_compute; reflexivity|].
  split; [apply (bool_decide_unpack _); vm_compute; exact I|reflexivity].
Qed.

(** With a larger alignment the reserved range can be left empty, at the same
    address as the new area. *)
Lemma reserved_left_empty :
  ∃ s', _InsertAreaSlot 0x1000 0 0x1000 0x1000 0x11fff B_ANY_ADDRESS 0x10000 (demo_area 9 3 0 0) None 0 0
    (mkSpace 0x1000 0x11fff 0 2 0 false false
       [demo_area 1 1 0x1000 0xf000; mkArea 2 VM_RESERVED_AREA_ID 0x10000 0x2000 0 RESERVED_AVOID_BASE 0x10000] 0)
  = Ret (Ok, s') ∧ (fun a => (area_id a, Base a, Size a)) <$> fAreas s' =
    [(1, 0x1000, 0xf000); (VM_RESERVED_AREA_ID, 0x10000, 0); (3, 0x10000, 0x1000)].
Proof. eexists. split; [vm_compute; reflexivity|]. reflexivity. Qed.
