(* ===== verification/SwapSpace.v ===== *)
(** cache/mm_anonymous_cache.cpp and cache/mm_cache.cpp: swap files, swap
    slots, and the memory commitment of anonymous caches.

    The radix bitmap of a swap file ([lib/RadixBitmap.h]) is not part of the
    repository; the class [RadixBitmap] states what the code relies on.  The
    lists and counters are guarded by [sSwapFileListLock] and
    [sAvailSwapSpaceLock]; every operation is one critical section.  [off_t]
    quantities are plain integers: they are sizes of memory and stay far from
    the limits of the type. *)
From S2P Require Import Prelude VMState PageAlloc MemoryCommit.
From stdpp Require Import base list list_numbers numbers gmap.
From Stdlib Require Import ZArith Lia Sorted.
Local Open Scope Z_scope.

(** ** Radix bitmaps *)

(** The slots [[a, a + n)]. *)
Definition run (a n : Z) (i : Z) : Prop := a <= i < a + n.

Class RadixBitmap := {
  radix : Type;
  radix_slots : radix → Z;
  radix_used : radix → Z → bool;
  free_slots : radix → Z;
  BITMAP_RADIX : Z;
  RADIX_SLOT_NONE : Z;
  radix_bitmap_create : Z → option radix;
  radix_bitmap_alloc : Z → radix → option Z * radix;
  radix_bitmap_dealloc : Z → Z → radix → radix;
  SLOT_NONE_fits : fits 32 RADIX_SLOT_NONE;
  radix_create_new n b : radix_bitmap_create n = Some b →
    radix_slots b = n ∧ (∀ i, radix_used b i = false) ∧ free_slots b = n;
  radix_alloc_Some n b a b' : 0 < n <= BITMAP_RADIX → radix_bitmap_alloc n b = (Some a, b') →
    0 <= a ∧ a + n <= radix_slots b ∧ (∀ i, run a n i → radix_used b i = false) ∧
    (∀ i, radix_used b' i = true ↔ run a n i ∨ radix_used b i = true) ∧
    radix_slots b' = radix_slots b ∧ free_slots b' = free_slots b - n;
  radix_alloc_None n b b' : radix_bitmap_alloc n b = (None, b') → b' = b;
  radix_alloc_one b b' : radix_bitmap_alloc 1 b = (None, b') → free_slots b = 0;
  radix_dealloc_run a n b : 0 < n → (∀ i, run a n i → radix_used b i = true) →
    (∀ i, radix_used (radix_bitmap_dealloc a n b) i = true ↔ radix_used b i = true ∧ ¬ run a n i) ∧
    radix_slots (radix_bitmap_dealloc a n b) = radix_slots b ∧
    free_slots (radix_bitmap_dealloc a n b) = free_slots b + n;
  radix_free_bounds b : 0 <= free_slots b <= radix_slots b
}.

Section files.
Context {RB : RadixBitmap}.

Definition SWAP_SLOT_NONE : Z := RADIX_SLOT_NONE.

Record swap_file := mkSwapFile {
  sf_ptr : Z;
  vnode : Z;
  first_slot : Z;
  last_slot : Z;
  bmp : radix
}.
#[global] Instance eta_swap_file : Eta swap_file := fun f =>
  mkSwapFile (sf_ptr f) (vnode f) (first_slot f) (last_slot f) (bmp f).

Record swap := mkSwap {
  sSwapFileList : list swap_file;
  sSwapFileAlloc : option Z;
  sSwapFileCount : Z;
  sAvailSwapSpace : Z
}.
#[global] Instance eta_swap : Eta swap := fun s =>
  mkSwap (sSwapFileList s) (sSwapFileAlloc s) (sSwapFileCount s) (sAvailSwapSpace s).

(** The object a swap file pointer refers to. *)
Definition file_at (p : Z) (s : swap) : option swap_file :=
  head (filter (fun f => sf_ptr f = p) (sSwapFileList s)).

Definition set_file (f : swap_file) (s : swap) : swap :=
  s <| sSwapFileList ::= map (fun g => if decide (sf_ptr g = sf_ptr f) then f else g) |>.

(** [sSwapFileList.GetNext]. *)
Fixpoint file_after (p : Z) (l : list swap_file) : option Z :=
  match l with
  | [] => None
  | f :: l => if decide (sf_ptr f = p) then sf_ptr <$> head l else file_after p l
  end.
Definition GetNext (f : swap_file) (s : swap) : option Z := file_after (sf_ptr f) (sSwapFileList s).

(** ** Swap slots *)

(** The file [sSwapFileAlloc] stands for after the null check. *)
Definition alloc_file (s : swap) : outcome swap_file :=
  match sSwapFileAlloc s with
  | None => deref (head (sSwapFileList s))
  | Some p => deref (file_at p s)
  end.

Fixpoint slot_alloc_loop (files : nat) (count : Z) (s : swap) : outcome (Z * swap_file * swap) :=
  match files with
  | O => Panic
  | S files =>
      f ← alloc_file s;
      match radix_bitmap_alloc count (bmp f) with
      | (Some addr, b) =>
          let f := f <| bmp := b |> in
          Ret (u32 (addr + first_slot f), f, (set_file f s) <| sSwapFileAlloc := Some (sf_ptr f) |>)
      | (None, b) =>
          let s := set_file (f <| bmp := b |>) s in
          slot_alloc_loop files count (s <| sSwapFileAlloc := GetNext f s |>)
      end
  end.

Definition swap_slot_alloc (count : Z) (s : swap) : outcome (Z * swap) :=
  _ ← assert (negb (bool_decide (sSwapFileList s = [])));
  if BITMAP_RADIX <? count then Ret (SWAP_SLOT_NONE, s)
  else
    '(addr, f, s) ← slot_alloc_loop (Z.to_nat (sSwapFileCount s)) count s;
    Ret (addr, if free_slots (bmp f) <? u32 (last_slot f - first_slot f) / 10
               then s <| sSwapFileAlloc := GetNext f s |> else s).

Definition find_swap_file (slotIndex : Z) (s : swap) : outcome swap_file :=
  deref (head (filter (fun f => first_slot f <= slotIndex < last_slot f) (sSwapFileList s))).

Definition swap_slot_dealloc (slotIndex count : Z) (s : swap) : outcome swap :=
  if slotIndex =? SWAP_SLOT_NONE then Ret s
  else
    f ← find_swap_file slotIndex s;
    let slotIndex := u32 (slotIndex - first_slot f) in
    Ret (set_file (f <| bmp := radix_bitmap_dealloc slotIndex count (bmp f) |>) s).

(** ** Swap space *)

Definition swap_space_reserve (amount : Z) (s : swap) : Z * swap :=
  if amount <=? sAvailSwapSpace s then (amount, s <| sAvailSwapSpace ::= fun n => n - amount |>)
  else (sAvailSwapSpace s, s <| sAvailSwapSpace := 0 |>).

Definition swap_space_unreserve (amount : Z) (s : swap) : swap :=
  s <| sAvailSwapSpace ::= fun n => n + amount |>.

Definition swap_available_pages (s : swap) : Z := u32 (Z.shiftr (sAvailSwapSpace s) PAGE_SHIFT).

Definition swap_total_swap_pages (s : swap) : Z :=
  foldl (fun n f => u32 (n + u32 (last_slot f - first_slot f))) 0 (sSwapFileList s).

(** [swap_file_add] after the file could be opened and is of a usable kind:
    its size, its node (if it has one) and the result of the allocation. *)
Definition swap_file_add (st_size : Z) (node : option Z) (newFile : option Z) (s : swap) : status * swap :=
  if st_size <? PAGE_SIZE then (Err EINVAL, s)
  else
    match node with
    | None => (Err EINVAL, s)
    | Some node =>
        match newFile with
        | None => (Err ENOMEM, s)
        | Some ptr =>
            let pageCount := u32 (Z.shiftr st_size PAGE_SHIFT) in
            match radix_bitmap_create pageCount with
            | None => (Err ENOMEM, s)
            | Some b =>
                let first :=
                  match last (sSwapFileList s) with
                  | None => 0
                  | Some f => u32 (last_slot f + 1)
                  end in
                let f := mkSwapFile ptr node first (u32 (first + pageCount)) b in
                (Ok, s <| sSwapFileList ::= fun l => l ++ [f] |>
                       <| sSwapFileCount ::= fun n => u32 (n + 1) |>
                       <| sAvailSwapSpace ::= fun n => n + pageCount * PAGE_SIZE |>)
            end
        end
    end.

Definition swap_file_delete (node : Z) (s : swap) : status * swap :=
  match head (filter (fun f => vnode f = node) (sSwapFileList s)) with
  | None => (Err EINVAL, s)
  | Some f =>
      let slots := u32 (last_slot f - first_slot f) in
      if free_slots (bmp f) <? slots then (Err EINVAL, s)
      else
        (Ok, s <| sSwapFileList ::= filter (fun g => sf_ptr g ≠ sf_ptr f) |>
               <| sSwapFileCount ::= fun n => u32 (n - 1) |>
               <| sAvailSwapSpace ::= fun n => n - slots * PAGE_SIZE |>)
  end.
End files.

(** ** Commitment of anonymous caches *)

Section commit.
Context {RB : RadixBitmap}.

(** The fields of [VMAnonymousCache] of its own. *)
Record anon := mkAnon {
  can_overcommit : bool;
  has_precommitted : bool;
  precommitted_pages : Z;
  guard_size : Z;
  committed_swap_size : Z;
  allocated_swap_size : Z
}.
#[global] Instance eta_anon : Eta anon := fun a =>
  mkAnon (can_overcommit a) (has_precommitted a) (precommitted_pages a) (guard_size a)
    (committed_swap_size a) (allocated_swap_size a).

(** The fields of [VMAnonymousNoSwapCache] of its own. *)
Record noswap := mkNoSwap {
  fCanOvercommit : bool;
  fHasPrecommitted : bool;
  fPrecommittedPages : Z;
  fGuardedSize : Z
}.
#[global] Instance eta_noswap : Eta noswap := fun a =>
  mkNoSwap (fCanOvercommit a) (fHasPrecommitted a) (fPrecommittedPages a) (fGuardedSize a).

(** A cache together with what its commitment is taken from; [A] is the type
    of the fields of its class. *)
Record cstate (A : Type) := mkCState {
  base : VMCache;
  own : A;
  swapspace : swap;
  memory_ : memory
}.
Arguments mkCState {A}.
Arguments base {A}.
Arguments own {A}.
Arguments swapspace {A}.
Arguments memory_ {A}.
#[global] Instance eta_cstate A : Eta (cstate A) := fun c =>
  mkCState (base c) (own c) (swapspace c) (memory_ c).

(** What [vm_try_reserve_memory] depends on besides the counters. *)
Record reserve_env := mkReserveEnv { B_INFINITE : Z; start_time : Z; waits : list wait_event }.

Variable SECONDS : Z → Z.

Definition reserve_memory {A} (e : reserve_env) (amount : Z) (priority : gfp_prio) (timeout : Z) (c : cstate A)
  : outcome (status * cstate A) :=
  '(st, m) ← vm_try_reserve_memory (B_INFINITE e) (start_time e) amount priority timeout (waits e) (memory_ c);
  Ret (st, c <| memory_ := m |>).

Definition set_committed {A} (f : Z → Z) (c : cstate A) : cstate A :=
  c <| base ::= fun C => C <| committed_size ::= f |> |>.

(** [VMAnonymousCache]. *)
Definition anon_Init (canOvercommit : bool) (numPrecommittedPages numGuardPages : Z) : anon :=
  mkAnon canOvercommit false (u32 (Z.min numPrecommittedPages 255)) (i32 (numGuardPages * PAGE_SIZE)) 0 0.

Definition _Commit (e : reserve_env) (size : Z) (priority : gfp_prio) (c : cstate anon)
  : outcome (status * cstate anon) :=
  let committedMemory := committed_size (base c) - committed_swap_size (own c) in
  let c :=
    if committed_swap_size (own c) <? size then
      let '(n, s) := swap_space_reserve (size - committed_swap_size (own c)) (swapspace c) in
      let c := c <| swapspace := s |> <| own ::= fun a => a <| committed_swap_size ::= fun x => x + n |> |> in
      set_committed (fun _ => committed_swap_size (own c) + committedMemory) c
    else c in
  if committed_size (base c) =? size then Ret (Ok, c)
  else if size <? committed_size (base c) then
    let toUnreserve := committed_size (base c) - size in
    let '(c, toUnreserve) :=
      if 0 <? committedMemory then
        let unreserved := Z.min toUnreserve committedMemory in
        (set_committed (fun x => x - unreserved) (c <| memory_ ::= vm_unreserve_memory unreserved |>),
         toUnreserve - unreserved)
      else (c, toUnreserve) in
    if 0 <? toUnreserve then
      let c := c <| swapspace ::= swap_space_unreserve toUnreserve |>
                 <| own ::= fun a => a <| committed_swap_size ::= fun x => x - toUnreserve |> |> in
      Ret (Ok, set_committed (fun x => x - toUnreserve) c)
    else Ret (Ok, c)
  else
    let toReserve := size - committed_size (base c) in
    '(st, c) ← reserve_memory e toReserve priority (SECONDS 1) c;
    match st with
    | Err _ => Ret (Err ENOMEM, c)
    | Ok => Ret (Ok, set_committed (fun _ => size) c)
    end.

Definition anon_Commit (e : reserve_env) (size : Z) (priority : gfp_prio) (c : cstate anon)
  : outcome (status * cstate anon) :=
  if can_overcommit (own c) && (committed_size (base c) <? size) then
    if has_precommitted (own c) then Ret (Ok, c)
    else
      let c := c <| own ::= fun a => a <| has_precommitted := true |> |> in
      let precommitted := precommitted_pages (own c) * PAGE_SIZE in
      _Commit e (if precommitted <? size then precommitted else size) priority c
  else _Commit e size priority c.

(** The answer of a cache's fault handler. *)
Inductive fault := VM_FAULT_DONT_HANDLE | FaultErr (e : errno).

(** [lookup] and [has] are what [LookupPage] and [HasPage] say about the offset. *)
Definition anon_Fault (e : reserve_env) (kernel : bool) (lookup : option Z) (has : bool) (offset : Z)
    (c : cstate anon) : outcome (fault * cstate anon) :=
  if (0 <? guard_size (own c)) && (0 <=? offset) && (offset <? guard_size (own c)) then Ret (FaultErr EFAULT, c)
  else if can_overcommit (own c) && bool_decide (lookup = None) && negb has then
    if precommitted_pages (own c) =? 0 then
      if page_count (base c) <? committed_size (base c) ÷ PAGE_SIZE then Ret (VM_FAULT_DONT_HANDLE, c)
      else
        let '(n, s) := swap_space_reserve PAGE_SIZE (swapspace c) in
        let c := c <| swapspace := s |> in
        if n =? PAGE_SIZE then
          let c := c <| own ::= fun a => a <| committed_swap_size ::= fun x => x + PAGE_SIZE |> |> in
          Ret (VM_FAULT_DONT_HANDLE, set_committed (fun x => x + PAGE_SIZE) c)
        else
          '(st, c) ← reserve_memory e PAGE_SIZE (if kernel then GFP_PRIO_SYSTEM else GFP_PRIO_USER) 0 c;
          match st with
          | Err _ => Ret (FaultErr ENOMEM, c)
          | Ok => Ret (VM_FAULT_DONT_HANDLE, set_committed (fun x => x + PAGE_SIZE) c)
          end
    else
      Ret (VM_FAULT_DONT_HANDLE,
           c <| own ::= fun a => a <| precommitted_pages ::= fun n => u32 (n - 1) |> |>)
  else Ret (VM_FAULT_DONT_HANDLE, c).

(** [VMAnonymousNoSwapCache]. *)
Definition noswap_Init (canOvercommit : bool) (numPrecommittedPages numGuardPages : Z) : noswap :=
  mkNoSwap canOvercommit false (u8 (Z.min numPrecommittedPages 255)) (i32 (numGuardPages * PAGE_SIZE)).

Definition noswap_Commit (e : reserve_env) (size : Z) (priority : gfp_prio) (c : cstate noswap)
  : outcome (status * cstate noswap) :=
  let commit size c :=
    if committed_size (base c) <? size then
      '(st, c) ← reserve_memory e (size - committed_size (base c)) priority (SECONDS 1) c;
      match st with
      | Err _ => Ret (Err ENOMEM, c)
      | Ok => Ret (Ok, set_committed (fun _ => size) c)
      end
    else
      let c := c <| memory_ ::= vm_unreserve_memory (committed_size (base c) - size) |> in
      Ret (Ok, set_committed (fun _ => size) c) in
  if fCanOvercommit (own c) && (committed_size (base c) <? size) then
    if fHasPrecommitted (own c) then Ret (Ok, c)
    else
      let c := c <| own ::= fun a => a <| fHasPrecommitted := true |> |> in
      let precommitted := fPrecommittedPages (own c) * PAGE_SIZE in
      commit (if precommitted <? size then precommitted else size) c
  else commit size c.

Definition noswap_Fault (e : reserve_env) (kernel : bool) (offset : Z) (c : cstate noswap)
  : outcome (fault * cstate noswap) :=
  if (0 <? fGuardedSize (own c)) && (0 <=? offset) && (offset <? fGuardedSize (own c)) then Ret (FaultErr EFAULT, c)
  else if fCanOvercommit (own c) then
    if fPrecommittedPages (own c) =? 0 then
      if page_count (base c) <? committed_size (base c) ÷ PAGE_SIZE then Ret (VM_FAULT_DONT_HANDLE, c)
      else
        '(st, c) ← reserve_memory e PAGE_SIZE (if kernel then GFP_PRIO_SYSTEM else GFP_PRIO_USER) 0 c;
        match st with
        | Err _ => Ret (FaultErr ENOMEM, c)
        | Ok => Ret (VM_FAULT_DONT_HANDLE, set_committed (fun x => x + PAGE_SIZE) c)
        end
    else
      Ret (VM_FAULT_DONT_HANDLE,
           c <| own ::= fun a => a <| fPrecommittedPages ::= fun n => u8 (n - 1) |> |>)
  else Ret (VM_FAULT_DONT_HANDLE, c).

(** [VMCache::Commit] and [VMCache::SetMinimalCommitment] over the [Commit]
    of the class. *)
Definition VMCache_Commit {A} (size : Z) (c : cstate A) : status * cstate A :=
  (Ok, set_committed (fun _ => size) c).

Definition SetMinimalCommitment {A} (Commit : Z → cstate A → outcome (status * cstate A))
    (commitment : Z) (c : cstate A) : outcome (status * cstate A) :=
  if committed_size (base c) <? commitment then Commit commitment c else Ret (Ok, c).
End commit.
Arguments mkCState {RB A}.
Arguments base {RB A}.
Arguments own {RB A}.
Arguments swapspace {RB A}.
Arguments memory_ {RB A}.

(** ** The invariant of the swap files *)

Section files_ok.
Context {RB : RadixBitmap}.
Implicit Types (s : swap) (f : swap_file).

Definition file_ok f : Prop :=
  0 <= first_slot f <= last_slot f ∧ last_slot f < 2 ^ 32 ∧
  radix_slots (bmp f) = last_slot f - first_slot f ∧
  ¬ (first_slot f <= SWAP_SLOT_NONE < last_slot f).

Definition before f1 f2 : Prop := last_slot f1 < first_slot f2.

Definition files_ok s : Prop :=
  Forall file_ok (sSwapFileList s) ∧ StronglySorted before (sSwapFileList s) ∧
  NoDup (sf_ptr <$> sSwapFileList s) ∧
  sSwapFileCount s = Z.of_nat (length (sSwapFileList s)) ∧ sSwapFileCount s < 2 ^ 32 ∧
  match sSwapFileAlloc s with
  | None => True
  | Some p => p ∈ sf_ptr <$> sSwapFileList s
  end.

(** The slot is in use in the file it belongs to. *)
Definition slot_used s (i : Z) : Prop :=
  ∃ f, f ∈ sSwapFileList s ∧ first_slot f <= i < last_slot f ∧ radix_used (bmp f) (i - first_slot f) = true.

Lemma head_filter_at (P : swap_file → Prop) `{∀ f, Decision (P f)} l1 f l2 :
  (∀ g, g ∈ l1 → ¬ P g) → P f → head (filter P (l1 ++ f :: l2)) = Some f.
Proof.
  intros Hl1 Hf. induction l1 as [|g l1 IH]; cbn.
  - by rewrite decide_True.
  - rewrite decide_False by apply Hl1, list_elem_of_here. apply IH. intros h Hh. by apply Hl1, list_elem_of_further.
Qed.

Lemma ptr_unique l1 f l2 g :
  NoDup (sf_ptr <$> l1 ++ f :: l2) → g ∈ l1 ++ l2 → sf_ptr g ≠ sf_ptr f.
Proof.
  rewrite fmap_app, fmap_cons. intros Hnd Hg E.
  apply NoDup_app in Hnd as (_ & Hd & [Hn _]%NoDup_cons).
  apply elem_of_app in Hg as [Hg|Hg].
  - eapply Hd; [by apply list_elem_of_fmap_2, Hg|]. rewrite E. apply list_elem_of_here.
  - apply Hn. rewrite <- E. by apply list_elem_of_fmap_2.
Qed.

Lemma file_at_split s l1 f l2 :
  NoDup (sf_ptr <$> sSwapFileList s) → sSwapFileList s = l1 ++ f :: l2 → file_at (sf_ptr f) s = Some f.
Proof.
  intros Hnd E. unfold file_at. rewrite E in *. apply head_filter_at; [|done].
  intros g Hg. apply (ptr_unique _ _ _ _ Hnd), elem_of_app. by left.
Qed.

Lemma set_file_split s l1 f l2 f' :
  NoDup (sf_ptr <$> sSwapFileList s) → sSwapFileList s = l1 ++ f :: l2 → sf_ptr f' = sf_ptr f →
  sSwapFileList (set_file f' s) = l1 ++ f' :: l2.
Proof.
  intros Hnd E Hp. unfold set_file. cbn. rewrite E, Hp in *. rewrite map_app. cbn. rewrite decide_True by done.
  assert (∀ l, (∀ g, g ∈ l → g ∈ l1 ++ l2) →
    map (fun g => if decide (sf_ptr g = sf_ptr f) then f' else g) l = l) as Hid.
  { intros l Hl. induction l as [|g l IH]; cbn; [done|].
    rewrite decide_False by (eapply ptr_unique; [exact Hnd|]; apply Hl, list_elem_of_here).
    f_equal. apply IH. intros h Hh. by apply Hl, list_elem_of_further. }
  rewrite !Hid; [done|..]; intros g Hg; apply elem_of_app; auto.
Qed.

Lemma set_file_same s l1 f l2 :
  NoDup (sf_ptr <$> sSwapFileList s) → sSwapFileList s = l1 ++ f :: l2 → set_file f s = s.
Proof.
  intros Hnd E. pose proof (set_file_split s l1 f l2 f Hnd E eq_refl) as Hl.
  destruct s as [l a c v]. unfold set_file, update in *. cbn in *. rewrite Hl. by rewrite E.
Qed.

Lemma file_after_split l1 f l2 :
  NoDup (sf_ptr <$> l1 ++ f :: l2) → file_after (sf_ptr f) (l1 ++ f :: l2) = sf_ptr <$> head l2.
Proof.
  induction l1 as [|g l1 IH]; cbn; [by rewrite decide_True|].
  intros [Hn Hnd]%NoDup_cons. rewrite decide_False; [by apply IH|].
  intros E. apply Hn. rewrite E. apply list_elem_of_fmap_2, elem_of_app. right. apply list_elem_of_here.
Qed.

(** The search of [swap_slot_alloc] starts at the head of [l2] and continues
    at the head of the list. *)
Definition at_file s l1 l2 : Prop :=
  sSwapFileList s = l1 ++ l2 ∧
  (l2 = [] ∧ sSwapFileAlloc s = None ∨ ∃ f l2', l2 = f :: l2' ∧ (sSwapFileAlloc s = Some (sf_ptr f) ∨ l1 = [] ∧ sSwapFileAlloc s = None)).

Lemma at_file_alloc s l1 f l2 :
  NoDup (sf_ptr <$> sSwapFileList s) → at_file s l1 (f :: l2) → alloc_file s = Ret f.
Proof.
  intros Hnd [E [[? _]|(f' & l2' & [= <- <-] & [Ha|[-> Ha]])]]; [done|..]; unfold alloc_file; rewrite Ha.
  - by rewrite (file_at_split s l1 f l2).
  - by rewrite E.
Qed.

Lemma at_file_exists s :
  files_ok s → sSwapFileList s ≠ [] → ∃ l1 f l2, at_file s l1 (f :: l2).
Proof.
  intros (_ & _ & _ & _ & _ & Ha) Hne. destruct (sSwapFileAlloc s) as [p|] eqn:E.
  - apply list_elem_of_fmap in Ha as (f & -> & (l1 & l2 & Hl)%list_elem_of_split).
    exists l1, f, l2. split; [done|]. right. eauto 6.
  - destruct (sSwapFileList s) as [|f l] eqn:El; [done|]. exists [], f, l. split; [done|]. right. eauto 6.
Qed.

(** What a successful search did: it took a run of free slots of one file. *)
Definition slot_taken (count : Z) s (addr : Z) f' s' : Prop :=
  ∃ l1 f l2 a b, sSwapFileList s = l1 ++ f :: l2 ∧ radix_bitmap_alloc count (bmp f) = (Some a, b) ∧
    f' = f <| bmp := b |> ∧ addr = u32 (a + first_slot f) ∧ sSwapFileList s' = l1 ++ f' :: l2 ∧
    sSwapFileAlloc s' = Some (sf_ptr f) ∧ sSwapFileCount s' = sSwapFileCount s ∧
    sAvailSwapSpace s' = sAvailSwapSpace s.

(** At the end of the list the search goes on at its head. *)
Lemma at_file_wrap s l1 l2 :
  at_file s l1 l2 → sSwapFileList s = [] ∨ ∃ l1' f l2', at_file s l1' (f :: l2') ∧ l2 ++ l1 = f :: l2' ++ l1'.
Proof.
  intros Hat. destruct l2 as [|f l2]; [|right; by exists l1, f, l2].
  destruct Hat as [E [[_ Ha]|(? & ? & ? & _)]]; [|done]. rewrite app_nil_r in E.
  destruct l1 as [|f l1]; [by left|]. right. exists [], f, l1. rewrite app_nil_r. split; [|done].
  split; [done|]. right. eauto 6.
Qed.

Lemma at_file_next s l1 f l2 :
  NoDup (sf_ptr <$> sSwapFileList s) → at_file s l1 (f :: l2) →
  at_file (s <| sSwapFileAlloc := GetNext f s |>) (l1 ++ [f]) l2.
Proof.
  intros Hnd [E _]. unfold GetNext. rewrite E, file_after_split by by rewrite <- E.
  split; [cbn; by rewrite <- app_assoc|]. destruct l2 as [|g l2]; cbn; [by left|]. right. eauto 6.
Qed.

Lemma slot_alloc_loop_step n count s l1 f l2 :
  NoDup (sf_ptr <$> sSwapFileList s) → at_file s l1 (f :: l2) →
  (∃ a b, radix_bitmap_alloc count (bmp f) = (Some a, b) ∧
    slot_alloc_loop (S n) count s = Ret (u32 (a + first_slot f), f <| bmp := b |>,
      (set_file (f <| bmp := b |>) s) <| sSwapFileAlloc := Some (sf_ptr f) |>)) ∨
  (radix_bitmap_alloc count (bmp f)).1 = None ∧
    slot_alloc_loop (S n) count s = slot_alloc_loop n count (s <| sSwapFileAlloc := GetNext f s |>).
Proof.
  intros Hnd Hat. cbn [slot_alloc_loop]. rewrite (at_file_alloc s l1 f l2) by done.
  cbn [mbind outcome_bind]. destruct Hat as [E _]. destruct (radix_bitmap_alloc count (bmp f)) as [[a|] b] eqn:Ea; [left; eauto|right].
  apply radix_alloc_None in Ea as ->. replace (f <| bmp := bmp f |>) with f by by destruct f.
  rewrite (set_file_same s l1 f l2) by done. by split.
Qed.

Lemma slot_alloc_loop_taken n count s l1 l2 addr f' s' :
  NoDup (sf_ptr <$> sSwapFileList s) → at_file s l1 l2 →
  slot_alloc_loop n count s = Ret (addr, f', s') → slot_taken count s addr f' s'.
Proof.
  revert s l1 l2. induction n as [|n IH]; intros s l1 l2 Hnd Hat; [done|].
  destruct (at_file_wrap _ _ _ Hat) as [E|(l1' & f & l2' & Hat' & _)].
  { cbn. unfold alloc_file. destruct Hat as [E' Ha]. rewrite E in E'. symmetry in E'. apply app_eq_nil in E' as [-> ->].
    destruct Ha as [[_ ->]|(? & ? & ? & _)]; [by rewrite E|done]. }
  destruct (slot_alloc_loop_step n count s l1' f l2' Hnd Hat') as [(a & b & Ea & ->)|[_ ->]].
  - intros [= <- <- <-]. destruct Hat' as [E _]. exists l1', f, l2', a, b.
    split_and!; try done. by apply (set_file_split s l1' f).
  - intros Hl. apply (IH _ (l1' ++ [f]) l2') in Hl; [exact Hl|done|by apply at_file_next].
Qed.

(** A file among the next [n] that has the run makes the search succeed. *)
Lemma slot_alloc_loop_finds n count s l1 l2 :
  NoDup (sf_ptr <$> sSwapFileList s) → at_file s l1 l2 →
  Exists (fun f => (radix_bitmap_alloc count (bmp f)).1 ≠ None) (take n (l2 ++ l1)) →
  ∃ r, slot_alloc_loop n count s = Ret r.
Proof.
  revert s l1 l2. induction n as [|n IH]; intros s l1 l2 Hnd Hat; [by intros Hx%Exists_nil|].
  destruct (at_file_wrap _ _ _ Hat) as [E|(l1' & f & l2' & Hat' & ->)].
  { destruct Hat as [E' _]. rewrite E in E'. symmetry in E'. apply app_eq_nil in E' as [-> ->].
    by intros Hx%Exists_nil. }
  intros Hex. destruct (slot_alloc_loop_step n count s l1' f l2' Hnd Hat') as [(a & b & _ & ->)|[Hn ->]]; [eauto|].
  apply (IH _ (l1' ++ [f]) l2'); [done|by apply at_file_next|].
  cbn in Hex. apply Exists_cons in Hex as [?|Hex]; [done|]. rewrite app_assoc.
  destruct (decide (n ≤ length (l2' ++ l1'))%nat).
  - by rewrite take_app_le.
  - rewrite take_ge in Hex by lia. rewrite take_app_ge by lia. apply Exists_app. by left.
Qed.

Lemma files_ok_update s l1 f l2 f' s' :
  files_ok s → sSwapFileList s = l1 ++ f :: l2 → sSwapFileList s' = l1 ++ f' :: l2 →
  sf_ptr f' = sf_ptr f → first_slot f' = first_slot f → last_slot f' = last_slot f →
  radix_slots (bmp f') = radix_slots (bmp f) → sSwapFileCount s' = sSwapFileCount s →
  match sSwapFileAlloc s' with None => True | Some p => p ∈ sf_ptr <$> sSwapFileList s end →
  files_ok s'.
Proof.
  intros (Hok & Hs & Hnd & Hc & Hlt & _) E E' Hp Hf Hl Hb Hcnt Ha.
  assert (sf_ptr <$> sSwapFileList s' = sf_ptr <$> sSwapFileList s) as Hptr
    by (rewrite E, E', !fmap_app, !fmap_cons; congruence).
  unfold files_ok. rewrite Hptr, Hcnt. split_and!; [| |done| |done|done].
  - rewrite E', E in *. apply Forall_app in Hok as [? [Hfo ?]%Forall_cons]. apply Forall_app. split; [done|].
    apply Forall_cons. split; [|done]. unfold file_ok in *. by rewrite Hf, Hl, Hb.
  - rewrite E', E in *. clear -Hs Hf Hl. induction l1 as [|g l1 IH]; cbn in *.
    + inversion Hs as [|? ? Hs' Hall]; subst. constructor; [done|].
      eapply Forall_impl; [exact Hall|]. intros h. unfold before. by rewrite Hl.
    + inversion Hs as [|? ? Hs' Hall]; subst. constructor; [by apply IH|].
      apply Forall_app in Hall as [? [Hg ?]%Forall_cons]. apply Forall_app. split; [done|].
      apply Forall_cons. split; [|done]. unfold before in *. by rewrite Hf.
  - rewrite Hc, <- (length_fmap sf_ptr), <- Hptr, length_fmap. done.
Qed.

(** A slot belongs to at most one file. *)
Lemma file_of_slot s l1 f l2 g i :
  files_ok s → sSwapFileList s = l1 ++ f :: l2 → first_slot f <= i < last_slot f →
  g ∈ l1 ++ l2 → ¬ (first_slot g <= i < last_slot g).
Proof.
  intros (_ & Hs & _) E Hi Hg. rewrite E in Hs. clear E. induction l1 as [|h l1 IH]; cbn in *.
  - inversion Hs as [|? ? _ Hall]; subst. rewrite Forall_forall in Hall. specialize (Hall g Hg). unfold before in Hall. lia.
  - inversion Hs as [|? ? Hs' Hall]; subst. apply elem_of_cons in Hg as [->|Hg]; [|by apply IH].
    apply Forall_app in Hall as [_ [Hh _]%Forall_cons]. unfold before in Hh. lia.
Qed.

Lemma find_swap_file_split s l1 f l2 i :
  files_ok s → sSwapFileList s = l1 ++ f :: l2 → first_slot f <= i < last_slot f →
  find_swap_file i s = Ret f.
Proof.
  intros Hok E Hi. unfold find_swap_file. rewrite E, head_filter_at; [done| |done].
  intros g Hg. eapply file_of_slot; [exact Hok|exact E|exact Hi|]. apply elem_of_app. by left.
Qed.

Lemma slot_used_split s l1 f l2 i :
  sSwapFileList s = l1 ++ f :: l2 →
  slot_used s i ↔ (first_slot f <= i < last_slot f ∧ radix_used (bmp f) (i - first_slot f) = true) ∨
    ∃ g, g ∈ l1 ++ l2 ∧ first_slot g <= i < last_slot g ∧ radix_used (bmp g) (i - first_slot g) = true.
Proof.
  intros E. unfold slot_used. rewrite E. split.
  - intros (g & Hg & ? & ?). apply elem_of_app in Hg as [Hg|[->|Hg]%elem_of_cons].
    + right. exists g. rewrite elem_of_app. auto.
    + by left.
    + right. exists g. rewrite elem_of_app. auto.
  - intros [[? ?]|(g & Hg & ? & ?)].
    + exists f. rewrite elem_of_app, elem_of_cons. auto.
    + exists g. apply elem_of_app in Hg. rewrite elem_of_app, elem_of_cons. tauto.
Qed.

Lemma used_in_file s l1 f l2 i :
  files_ok s → sSwapFileList s = l1 ++ f :: l2 → first_slot f <= i < last_slot f →
  slot_used s i ↔ radix_used (bmp f) (i - first_slot f) = true.
Proof.
  intros Hok E Hi. rewrite (slot_used_split s l1 f l2 i E). split; [|tauto].
  intros [[_ ?]|(g & Hg & Hgi & _)]; [done|]. by destruct (file_of_slot s l1 f l2 g i Hok E Hi Hg).
Qed.

(** Changing the bitmap of one file changes which of its slots are used. *)
Lemma slot_used_update s l1 f l2 f' s' (P : Z → Prop) :
  sSwapFileList s = l1 ++ f :: l2 → sSwapFileList s' = l1 ++ f' :: l2 →
  first_slot f' = first_slot f → last_slot f' = last_slot f →
  (∀ i, radix_used (bmp f') i = true ↔ P i) →
  ∀ i, slot_used s' i ↔ (first_slot f <= i < last_slot f ∧ P (i - first_slot f)) ∨
    ∃ g, g ∈ l1 ++ l2 ∧ first_slot g <= i < last_slot g ∧ radix_used (bmp g) (i - first_slot g) = true.
Proof. intros _ E' Hf Hl HP i. rewrite (slot_used_split s' l1 f' l2 i E'), Hf, Hl, HP. done. Qed.

Lemma file_ok_in s l1 f l2 : files_ok s → sSwapFileList s = l1 ++ f :: l2 → file_ok f.
Proof. intros (Hok & _) E. rewrite E in Hok. by apply Forall_app in Hok as [_ [? _]%Forall_cons]. Qed.

Lemma swap_slot_alloc_ok count s addr s' :
  files_ok s → 0 < count <= BITMAP_RADIX → swap_slot_alloc count s = Ret (addr, s') →
  files_ok s' ∧ sAvailSwapSpace s' = sAvailSwapSpace s ∧ addr ≠ SWAP_SLOT_NONE ∧
  (∀ i, run addr count i → ¬ slot_used s i) ∧
  (∀ i, slot_used s' i ↔ run addr count i ∨ slot_used s i) ∧
  ∃ l1 f l2, sSwapFileList s' = l1 ++ f :: l2 ∧ first_slot f <= addr ∧ addr + count <= last_slot f.
Proof.
  intros Hok Hc. unfold swap_slot_alloc. destruct (decide (sSwapFileList s = [])) as [->|Hne]; [done|].
  rewrite bool_decide_eq_false_2 by done. cbn [negb assert mbind outcome_bind].
  replace (BITMAP_RADIX <? count) with false by (symmetry; apply Z.ltb_ge; lia).
  destruct (slot_alloc_loop _ count s) as [[[a0 f'] s1]| |] eqn:Hl; cbn [mbind outcome_bind]; [|done..].
  intros [= <- Hs'].
  destruct (at_file_exists s Hok Hne) as (k1 & g & k2 & Hat).
  apply (slot_alloc_loop_taken _ _ _ k1 (g :: k2)) in Hl as (l1 & f & l2 & a & b & E & Ea & Ef & -> & E' & Ha & Hcnt & Hav);
    [|apply Hok|done]. clear Hat.
  destruct (file_ok_in s l1 f l2 Hok E) as (Hfl & Hlt & Hsl & Hnone).
  destruct (radix_alloc_Some _ _ _ _ Hc Ea) as (Ha0 & Han & Hfree & Hused & Hsl' & _).
  rewrite (wrap_small 32 (a + first_slot f)) by (split; lia).
  assert (files_ok s1) as Hok1.
  { apply (files_ok_update s l1 f l2 f' s1 Hok E E'); try (by rewrite Ef); [done|].
    rewrite Ha, E, fmap_app, fmap_cons. apply elem_of_app. right. apply list_elem_of_here. }
  assert (sSwapFileList s' = sSwapFileList s1 ∧ sAvailSwapSpace s' = sAvailSwapSpace s1) as [El Ev]
    by (subst s'; by destruct (_ <? _)).
  assert (∀ i, slot_used s' i ↔ slot_used s1 i) as Hsu by (intros i; unfold slot_used; by rewrite El).
  assert (∀ i, run (a + first_slot f) count i → ¬ slot_used s i) as Hfresh.
  { intros i Hi. unfold run in Hi. rewrite (used_in_file s l1 f l2 i Hok E) by lia.
    rewrite Hfree; [done|unfold run; lia]. }
  split_and!.
  - subst s'. destruct (_ <? _); [|done].
    eapply (files_ok_update s1 l1 f' l2 f'); [exact Hok1|exact E'|exact E'|done..|].
    cbn. unfold GetNext. rewrite E', file_after_split by (rewrite <- E'; apply Hok1).
    destruct l2 as [|h l2]; cbn; [done|]. rewrite fmap_app, !fmap_cons. apply elem_of_app. right.
    apply list_elem_of_further, list_elem_of_here.
  - congruence.
  - unfold file_ok in Hnone. lia.
  - done.
  - intros i. rewrite Hsu. rewrite (slot_used_update s l1 f l2 f' s1 (fun i => run a count i ∨ radix_used (bmp f) i = true) E E');
      [|by rewrite Ef..|by rewrite Ef].
    rewrite (slot_used_split s l1 f l2 i E). unfold run. split.
    + intros [[? [?|?]]|?]; [left; lia|tauto..].
    + intros [?|[[? ?]|?]]; [left; split; [lia|left; lia]|left; split; [done|by right]|by right].
  - exists l1, f', l2. rewrite El. split; [done|]. rewrite Ef. cbn. lia.
Qed.

Lemma swap_slot_dealloc_ok count s l1 f l2 addr :
  files_ok s → 0 < count → sSwapFileList s = l1 ++ f :: l2 →
  first_slot f <= addr → addr + count <= last_slot f → (∀ i, run addr count i → slot_used s i) →
  ∃ s', swap_slot_dealloc addr count s = Ret s' ∧ files_ok s' ∧ sAvailSwapSpace s' = sAvailSwapSpace s ∧
    (∀ i, slot_used s' i ↔ slot_used s i ∧ ¬ run addr count i).
Proof.
  intros Hok Hc E H1 H2 Hu. destruct (file_ok_in s l1 f l2 Hok E) as (Hfl & Hlt & Hsl & Hnone).
  unfold swap_slot_dealloc. replace (addr =? SWAP_SLOT_NONE) with false by (symmetry; apply Z.eqb_neq; lia).
  rewrite (find_swap_file_split s l1 f l2) by (done || lia). cbn [mbind outcome_bind].
  rewrite (wrap_small 32) by (split; lia). set (f' := f <| bmp := _ |>).
  destruct (radix_dealloc_run (addr - first_slot f) count (bmp f)) as (Hd & Hsl' & _); [done| |].
  { intros i Hi. replace i with (i + first_slot f - first_slot f) by lia.
    apply (used_in_file s l1 f l2); [done..|unfold run in Hi; lia|]. apply Hu. unfold run in *. lia. }
  assert (sSwapFileList (set_file f' s) = l1 ++ f' :: l2) as E' by (apply (set_file_split s l1 f); [apply Hok|done..]).
  eexists. split; [done|]. split_and!; [|done|].
  - apply (files_ok_update s l1 f l2 f' _ Hok E E'); try done. apply Hok.
  - intros i. rewrite (slot_used_update s l1 f l2 f' _ (fun i => radix_used (bmp f) i = true ∧ ¬ run (addr - first_slot f) count i) E E');
      [|done..|exact Hd].
    rewrite (slot_used_split s l1 f l2 i E). unfold run. split.
    + intros [[? [? ?]]|(g & Hg & Hi & ?)]; [split; [tauto|lia]|].
      split; [eauto 6|]. intros Hr. by apply (file_of_slot s l1 f l2 g i Hok E); [lia|..].
    + intros [[[? ?]|?] ?]; [left; split; [done|split; [done|lia]]|by right].
Qed.

(** With a free slot in some file, a single slot can be allocated. *)
Lemma swap_slot_alloc_one s f :
  files_ok s → 1 <= BITMAP_RADIX → f ∈ sSwapFileList s → 0 < free_slots (bmp f) →
  ∃ r, swap_slot_alloc 1 s = Ret r.
Proof.
  intros Hok Hr Hf Hfree. unfold swap_slot_alloc.
  assert (sSwapFileList s ≠ []) as Hne by by destruct (sSwapFileList s); [apply elem_of_nil in Hf|].
  rewrite bool_decide_eq_false_2 by done. cbn [negb assert mbind outcome_bind].
  replace (BITMAP_RADIX <? 1) with false by (symmetry; apply Z.ltb_ge; lia).
  destruct (at_file_exists s Hok Hne) as (l1 & g & l2 & Hat). pose proof Hok as (_ & _ & Hnd & Hcnt & _).
  destruct (slot_alloc_loop_finds (Z.to_nat (sSwapFileCount s)) 1 s l1 (g :: l2) Hnd Hat) as [[[a f'] s'] ->].
  { destruct Hat as [E _]. rewrite take_ge by (rewrite Hcnt, E, !length_app; lia).
    apply Exists_exists. exists f. rewrite E, elem_of_app in Hf. rewrite elem_of_app. split; [tauto|].
    destruct (radix_bitmap_alloc 1 (bmp f)) as [[a|] b] eqn:Ea; [done|]. apply radix_alloc_one in Ea. lia. }
  cbn [mbind outcome_bind]. eauto.
Qed.
End files_ok.

(** ** Commitment: conservation *)

Ltac tuple_lia := rewrite ?pair_equal_spec; split_and!; lia.

Section commit_ok.
Context {RB : RadixBitmap}.
Variable SECONDS : Z → Z.
Implicit Types (c : cstate anon) (n : cstate noswap).

(** The commitment of a cache is backed by swap space and by memory. *)
Definition backed c : Prop :=
  0 <= committed_swap_size (own c) <= committed_size (base c) ∧ 0 <= sAvailSwapSpace (swapspace c).

Definition commit_ok c : Prop :=
  backed c ∧ committed_size (base c) < 2 ^ 60 ∧
  sAvailSwapSpace (swapspace c) + committed_swap_size (own c) < 2 ^ 60.

Definition committed_memory c : Z := committed_size (base c) - committed_swap_size (own c).

(** A call with a deadline the events reach, and counters in range. *)
Definition env_ok (e : reserve_env) (timeout : Z) (m : memory) : Prop :=
  Z.abs (sAvailableMemory m) + Z.abs (sNeededMemory m) + traffic (waits e) < 2 ^ 60 ∧
  0 <= sTotalMemory m < 2 ^ 59 ∧
  Exists (fun w => (if timeout =? B_INFINITE e then B_INFINITE e else timeout + start_time e) <= now w) (waits e).

(** The memory and swap space the cache gained are what the pools lost, up
    to what other threads did to the memory counter meanwhile. *)
Definition conserved (e : reserve_env) c c' : Prop :=
  sAvailSwapSpace (swapspace c') + committed_swap_size (own c') =
    sAvailSwapSpace (swapspace c) + committed_swap_size (own c) ∧
  ∃ us, us `prefix_of` waits e ∧
    sAvailableMemory (memory_ c') + committed_memory c' =
      sAvailableMemory (memory_ c) + committed_memory c + total_available us.

Lemma reserve_memory_ok {A} (e : reserve_env) amount priority timeout (c : cstate A) :
  env_ok e timeout (memory_ c) → 0 <= amount < 2 ^ 60 →
  ∃ st m us, reserve_memory e amount priority timeout c = Ret (st, c <| memory_ := m |>) ∧
    us `prefix_of` waits e ∧
    sAvailableMemory m = sAvailableMemory (memory_ c) + total_available us - match st with Ok => amount | Err _ => 0 end.
Proof.
  intros (Hr & Ht & Hd) Ha.
  destruct (vm_try_reserve_memory_ok (B_INFINITE e) (start_time e) amount priority timeout (waits e) (memory_ c))
    as (st & us & Heq & Hout); [split; lia|done|done|].
  exists st, (charged amount us (memory_ c) st), us. unfold reserve_memory. rewrite Heq.
  split; [done|]. split; [by eapply reserve_outcome_prefix|]. cbn. destruct st; by case_decide.
Qed.

Lemma unreserve_memory_ok amount m :
  0 <= amount < 2 ^ 60 → Z.abs (sAvailableMemory m) < 2 ^ 60 →
  sAvailableMemory (vm_unreserve_memory amount m) = sAvailableMemory m + amount.
Proof. intros ? ?. destruct m. unfold vm_unreserve_memory, update. cbn in *. apply i64_small. lia. Qed.

(** The swap part of [_Commit]. *)
Lemma reserve_part_ok amount s :
  0 <= amount → 0 <= sAvailSwapSpace s →
  (swap_space_reserve amount s).1 = Z.min amount (sAvailSwapSpace s) ∧
  sAvailSwapSpace (swap_space_reserve amount s).2 = sAvailSwapSpace s - Z.min amount (sAvailSwapSpace s).
Proof.
  intros Ha Hs. unfold swap_space_reserve. destruct (Z.leb_spec amount (sAvailSwapSpace s)); cbn.
  - rewrite Z.min_l by done. by destruct s.
  - rewrite Z.min_r by lia. destruct s; cbn. lia.
Qed.

Definition commit_result (e : reserve_env) (size : Z) c (st : status) c' : Prop :=
  commit_ok c' ∧ conserved e c c' ∧
  match st with
  | Ok => committed_size (base c') = size
  | Err _ => committed_size (base c) <= committed_size (base c') < size ∧ committed_memory c' = committed_memory c
  end.

(** First step of [_Commit]: as much swap space as there is. *)
Definition swap_part (size : Z) c : cstate anon :=
  if committed_swap_size (own c) <? size then
    let '(n, s) := swap_space_reserve (size - committed_swap_size (own c)) (swapspace c) in
    let c1 := c <| swapspace := s |> <| own ::= fun a => a <| committed_swap_size ::= fun x => x + n |> |> in
    set_committed (fun _ => committed_swap_size (own c1) + (committed_size (base c) - committed_swap_size (own c))) c1
  else c.

(** Shrinking the commitment to [size]: memory first. *)
Definition shrink_part (size cm : Z) c : cstate anon :=
  let toUnreserve := committed_size (base c) - size in
  let '(c, toUnreserve) :=
    if 0 <? cm then
      let unreserved := Z.min toUnreserve cm in
      (set_committed (fun x => x - unreserved) (c <| memory_ ::= vm_unreserve_memory unreserved |>),
       toUnreserve - unreserved)
    else (c, toUnreserve) in
  if 0 <? toUnreserve then
    let c := c <| swapspace ::= swap_space_unreserve toUnreserve |>
               <| own ::= fun a => a <| committed_swap_size ::= fun x => x - toUnreserve |> |> in
    set_committed (fun x => x - toUnreserve) c
  else c.

Lemma _Commit_parts e size priority c :
  _Commit SECONDS e size priority c =
    let cm := committed_memory c in let c := swap_part size c in
    if committed_size (base c) =? size then Ret (Ok, c)
    else if size <? committed_size (base c) then Ret (Ok, shrink_part size cm c)
    else
      '(st, c) ← reserve_memory e (size - committed_size (base c)) priority (SECONDS 1) c;
      match st with
      | Err _ => Ret (Err ENOMEM, c)
      | Ok => Ret (Ok, set_committed (fun _ => size) c)
      end.
Proof.
  unfold _Commit, swap_part, shrink_part, committed_memory. cbv zeta.
  destruct (_ =? size); [done|]. destruct (size <? _); [|done]. by destruct (0 <? _), (0 <? _).
Qed.

(** The counters of a cache and of the pools it draws on. *)
Definition counters c : Z * Z * Z * Z :=
  (committed_size (base c), committed_swap_size (own c), sAvailSwapSpace (swapspace c), sAvailableMemory (memory_ c)).

Definition precommit c : bool * bool * Z :=
  (can_overcommit (own c), has_precommitted (own c), precommitted_pages (own c)).

Lemma swap_part_ok size c :
  backed c →
  let n := if committed_swap_size (own c) <? size
           then Z.min (size - committed_swap_size (own c)) (sAvailSwapSpace (swapspace c)) else 0 in
  counters (swap_part size c) =
    (committed_size (base c) + n, committed_swap_size (own c) + n,
     sAvailSwapSpace (swapspace c) - n, sAvailableMemory (memory_ c)) ∧
  memory_ (swap_part size c) = memory_ c ∧ precommit (swap_part size c) = precommit c.
Proof.
  intros (Hs & Ha) n. unfold swap_part, n. destruct (Z.ltb_spec (committed_swap_size (own c)) size).
  - destruct (reserve_part_ok (size - committed_swap_size (own c)) (swapspace c)) as [Hn Hs']; [lia..|].
    destruct (swap_space_reserve _ _) as [k s] eqn:Ek. cbn in Hn, Hs'. rewrite Hn.
    destruct c as [C a ? ?]. unfold counters, precommit, set_committed, update. cbn in *.
    split_and!; [|done..]. rewrite Hs'. tuple_lia.
  - unfold counters. by rewrite !Z.add_0_r, Z.sub_0_r.
Qed.

Lemma shrink_part_ok size cm c :
  0 <= size <= committed_size (base c) → cm = committed_memory c → backed c → committed_size (base c) < 2 ^ 61 →
  Z.abs (sAvailableMemory (memory_ c)) < 2 ^ 60 →
  let u := Z.min (committed_size (base c) - size) cm in let v := committed_size (base c) - size - u in
  counters (shrink_part size cm c) =
    (size, committed_swap_size (own c) - v, sAvailSwapSpace (swapspace c) + v, sAvailableMemory (memory_ c) + u) ∧
  precommit (shrink_part size cm c) = precommit c.
Proof.
  intros Hsz Hcm (Hs & Ha) Hlim Hav u v. unfold committed_memory in Hcm.
  assert (∀ c', committed_size (base c') = committed_size (base c) - u → own c' = own c → swapspace c' = swapspace c →
    sAvailableMemory (memory_ c') = sAvailableMemory (memory_ c) + u →
    counters (if 0 <? v then
        set_committed (fun x => x - v) (c' <| swapspace ::= swap_space_unreserve v |>
               <| own ::= fun a => a <| committed_swap_size ::= fun x => x - v |> |>) else c') =
      (size, committed_swap_size (own c) - v, sAvailSwapSpace (swapspace c) + v, sAvailableMemory (memory_ c) + u) ∧
    precommit (if 0 <? v then
        set_committed (fun x => x - v) (c' <| swapspace ::= swap_space_unreserve v |>
               <| own ::= fun a => a <| committed_swap_size ::= fun x => x - v |> |>) else c') = precommit c) as Hfin.
  { intros [C' a' s' m'] Hb Ho Hsw Hm. cbn in *. subst. unfold counters, precommit, set_committed, swap_space_unreserve, update.
    destruct c as [C a s m]. cbn in *.
    destruct (Z.ltb_spec 0 v); cbn; (split; [|done]); tuple_lia. }
  unfold shrink_part. destruct (Z.ltb_spec 0 cm); cbv zeta; fold u.
  - apply Hfin; try done. destruct c as [C ? ? [? ? ?]]. unfold set_committed, vm_unreserve_memory, update. cbn in *.
    apply i64_small. lia.
  - assert (u = 0 ∨ cm = 0) as Hu by lia. replace (committed_size (base c) - size) with v by lia.
    apply Hfin; try done; lia.
Qed.

Lemma _Commit_ok e size priority c :
  commit_ok c → 0 <= size < 2 ^ 60 → env_ok e (SECONDS 1) (memory_ c) →
  ∃ st c', _Commit SECONDS e size priority c = Ret (st, c') ∧ commit_result e size c st c' ∧ precommit c' = precommit c.
Proof.
  intros Hok Hsz He. pose proof He as (Hav & _ & _). pose proof (traffic_nonneg (waits e)) as Htr.
  rewrite _Commit_parts. destruct Hok as ((Hs & Ha) & Hc & Hsum).
  destruct (swap_part_ok size c (conj Hs Ha)) as (Hcnt & Hmem & Hpre). set (n := if _ <? size then _ else _) in *.
  assert (0 <= n ∧ n <= sAvailSwapSpace (swapspace c) ∧ (committed_swap_size (own c) < size → committed_swap_size (own c) + n <= size)
    ∧ (size <= committed_swap_size (own c) → n = 0)) as (Hn1 & Hn2 & Hn3 & Hn4)
    by (unfold n; destruct (Z.ltb_spec (committed_swap_size (own c)) size); lia).
  clearbody n. cbv zeta. set (c1 := swap_part size c) in *. clearbody c1. unfold counters in Hcnt. injection Hcnt as E1 E2 E3 E4.
  assert (backed c1) as Hok1 by (unfold backed; lia).
  assert (∀ st c' us, us `prefix_of` waits e → precommit c' = precommit c1 → commit_ok c' →
    sAvailSwapSpace (swapspace c') + committed_swap_size (own c') = sAvailSwapSpace (swapspace c1) + committed_swap_size (own c1) →
    sAvailableMemory (memory_ c') + committed_memory c' = sAvailableMemory (memory_ c1) + committed_memory c1 + total_available us →
    match st with
    | Ok => committed_size (base c') = size
    | Err _ => committed_size (base c1) <= committed_size (base c') < size ∧ committed_memory c' = committed_memory c1
    end → commit_result e size c st c' ∧ precommit c' = precommit c) as Hfin.
  { intros st c' us Hus Hp Hok' H1 H2 H3. split; [|congruence]. unfold commit_result, conserved, committed_memory in *.
    split; [done|]. split; [split; [lia|exists us; split; [done|lia]]|]. destruct st; [done|lia]. }
  destruct (Z.eqb_spec (committed_size (base c1)) size) as [Heq|Hne]; [|destruct (Z.ltb_spec size (committed_size (base c1))) as [Hlt|Hge]].
  - exists Ok, c1. split; [done|]. apply (Hfin Ok c1 []); [apply prefix_nil|done|unfold commit_ok, backed in *; lia|done|cbn; lia|done].
  - destruct (shrink_part_ok size (committed_memory c) c1) as [Hcnt2 Hp2]; [lia|unfold committed_memory; lia|done|lia|rewrite Hmem; lia|].
    unfold counters in Hcnt2. injection Hcnt2 as F1 F2 F3 F4. exists Ok, (shrink_part size (committed_memory c) c1). split; [done|].
    set (c2 := shrink_part _ _ _) in *. clearbody c2. unfold committed_memory in F2, F3, F4.
    apply (Hfin Ok c2 []); [apply prefix_nil|done|unfold commit_ok, backed; lia|lia| |done]. unfold committed_memory. cbn. lia.
  - destruct (reserve_memory_ok e (size - committed_size (base c1)) priority (SECONDS 1) c1)
      as (st & m & us & -> & Hus & Hm); [by rewrite Hmem|lia|]. cbn [mbind outcome_bind].
    unfold backed in Hok1. destruct st as [|er]; cbn in Hm; eexists _, _; (split; [done|]);
      apply (Hfin _ _ us); try done; destruct c1 as [C1 ? ? ?];
      unfold commit_ok, backed, committed_memory, set_committed, update in *; cbn in *; lia.
Qed.
End commit_ok.

(** ** A bitmap to run the definitions with *)

Definition bits_ok (b : Z * gset Z) : bool :=
  bool_decide (0 <= b.1 ∧ set_Forall (fun i => 0 <= i < b.1) b.2).

Definition simple_bits : Type := { b : Z * gset Z | bits_ok b = true }.

Definition run_set (a n : Z) : gset Z := list_to_set (seqZ a n).

Lemma elem_of_run_set a n i : i ∈ run_set a n ↔ run a n i.
Proof. unfold run_set, run. by rewrite elem_of_list_to_set, elem_of_seqZ. Qed.

Lemma size_run_set a n : 0 <= n → Z.of_nat (size (run_set a n)) = n.
Proof. intros. unfold run_set. rewrite size_list_to_set by apply NoDup_seqZ. rewrite length_seqZ. lia. Qed.

Definition bits_first_fit (n : Z) (b : Z * gset Z) : option Z :=
  head (filter (fun a => a + n <= b.1 ∧ run_set a n ## b.2) (seqZ 0 b.1)).

Program Definition bits_create (n : Z) : option simple_bits :=
  if decide (0 <= n) then Some (n, ∅) else None.
Next Obligation. intros n Hn. apply bool_decide_eq_true. split; [done|]. intros ? []%not_elem_of_empty. Qed.

Lemma bits_add_ok (b : Z * gset Z) n a :
  bits_ok b = true → bits_first_fit n b = Some a → bits_ok (b.1, run_set a n ∪ b.2) = true.
Proof.
  unfold bits_ok. rewrite !bool_decide_eq_true. intros [Hn Hb] Hf. split; [done|]. cbn. intros i [Hi|Hi]%elem_of_union; [|by apply Hb].
  apply head_Some_elem_of, list_elem_of_filter in Hf as [[Hle _] Ha%elem_of_seqZ].
  apply elem_of_run_set in Hi. unfold run in Hi. lia.
Qed.

Definition bits_take (n : Z) (b : simple_bits) (o : option Z) : bits_first_fit n (`b) = o → option Z * simple_bits :=
  match o with
  | Some a => fun H => (Some a, exist (fun b => bits_ok b = true) ((`b).1, run_set a n ∪ (`b).2)
                                  (bits_add_ok (`b) n a (proj2_sig b) H))
  | None => fun _ => (None, b)
  end.
Definition bits_alloc (n : Z) (b : simple_bits) : option Z * simple_bits := bits_take n b _ eq_refl.

Program Definition bits_dealloc (a n : Z) (b : simple_bits) : simple_bits :=
  ((`b).1, (`b).2 ∖ run_set a n).
Next Obligation.
  intros a n [b Hb]. cbn. revert Hb. unfold bits_ok. rewrite !bool_decide_eq_true. intros [Hn Hb]. split; [done|].
  cbn. intros i [Hi _]%elem_of_difference. by apply Hb.
Qed.

Lemma bits_alloc_cases n b :
  (∃ a, bits_first_fit n (`b) = Some a ∧ (bits_alloc n b).1 = Some a ∧
    proj1_sig (bits_alloc n b).2 = ((`b).1, run_set a n ∪ (`b).2)) ∨
  bits_first_fit n (`b) = None ∧ bits_alloc n b = (None, b).
Proof.
  unfold bits_alloc. assert (∀ o H, (∃ a, bits_first_fit n (`b) = Some a ∧ (bits_take n b o H).1 = Some a ∧
    proj1_sig (bits_take n b o H).2 = ((`b).1, run_set a n ∪ (`b).2)) ∨
    bits_first_fit n (`b) = None ∧ bits_take n b o H = (None, b)) as Hall; [|apply Hall].
  intros [a|] H; [left; by exists a|by right].
Qed.

Lemma bits_in_range (b : simple_bits) : 0 <= (`b).1 ∧ set_Forall (fun i => 0 <= i < (`b).1) (`b).2.
Proof. destruct b as [b Hb]. cbn. by apply bool_decide_eq_true in Hb. Qed.

Lemma bits_size_le (b : simple_bits) : Z.of_nat (size (`b).2) <= (`b).1.
Proof.
  destruct (bits_in_range b) as [Hn Hb]. rewrite <- (size_run_set 0 (`b).1) by done.
  apply inj_le, subseteq_size. intros i Hi. apply elem_of_run_set. unfold run. specialize (Hb i Hi). cbn in Hb. lia.
Qed.

#[export] Program Instance simple_RadixBitmap : RadixBitmap := {|
  radix := simple_bits;
  radix_slots b := (`b).1;
  radix_used b i := bool_decide (i ∈ (`b).2);
  free_slots b := (`b).1 - Z.of_nat (size (`b).2);
  BITMAP_RADIX := 32;
  RADIX_SLOT_NONE := 4294967295;
  radix_bitmap_create := bits_create;
  radix_bitmap_alloc := bits_alloc;
  radix_bitmap_dealloc := bits_dealloc
|}.
Next Obligation. by apply fits_32. Qed.
Next Obligation.
  intros n b. unfold bits_create. case_decide; [|done]. intros [= <-]. cbn. split; [done|].
  split; [|rewrite size_empty; lia]. intros i. by apply bool_decide_eq_false, not_elem_of_empty.
Qed.
Next Obligation.
  intros n b a b' Hn Ha. destruct (bits_alloc_cases n b) as [(a' & Hf & H1 & H2)|[_ H]]; [|congruence].
  rewrite Ha in H1, H2. cbn in H1, H2. injection H1 as <-. rewrite H2. cbn.
  apply head_Some_elem_of, list_elem_of_filter in Hf as [[Hle Hd] Hr%elem_of_seqZ].
  split_and!; [lia|lia| | |done|].
  - intros i Hi%elem_of_run_set. apply bool_decide_eq_false. intros Hu. by apply (Hd i).
  - intros i. rewrite !bool_decide_eq_true, elem_of_union, elem_of_run_set. done.
  - rewrite size_union by done. rewrite Nat2Z.inj_add, size_run_set by lia. lia.
Qed.
Next Obligation.
  intros n b b' Ha. destruct (bits_alloc_cases n b) as [(a' & Hf & H1 & H2)|[_ H]]; [|congruence].
  rewrite Ha in H1. done.
Qed.
Next Obligation.
  intros b b' Ha. destruct (bits_alloc_cases 1 b) as [(a' & Hf & H1 & H2)|[Hf _]]; [by rewrite Ha in H1|].
  cbn. destruct (bits_in_range b) as [Hn Hb]. pose proof (bits_size_le b).
  destruct (decide (Z.of_nat (size (`b).2) = (`b).1)) as [|Hne]; [lia|exfalso].
  assert (∃ i, i ∈ run_set 0 (`b).1 ∖ (`b).2) as [i Hi].
  { apply set_choose. intros Hemp. apply Hne. rewrite <- (size_run_set 0 (`b).1) by done. f_equal.
    apply set_size_proper. intros i. split.
    - intros Hi. specialize (Hb i Hi). apply elem_of_run_set. unfold run. cbn in Hb. lia.
    - intros Hi. destruct (decide (i ∈ (`b).2)); [done|]. exfalso.
      apply (not_elem_of_empty (C := gset Z) i), Hemp, elem_of_difference. done. }
  apply elem_of_difference in Hi as [Hi1%elem_of_run_set Hi2]. unfold run in Hi1.
  assert (i ∈ filter (fun a => a + 1 <= (`b).1 ∧ run_set a 1 ## (`b).2) (seqZ 0 (`b).1)) as Hin.
  { apply list_elem_of_filter. split; [|apply elem_of_seqZ; lia]. split; [lia|].
    intros j Hj%elem_of_run_set Hj'. unfold run in Hj. assert (j = i) as -> by lia. done. }
  unfold bits_first_fit in Hf. apply head_None in Hf. rewrite Hf in Hin. by apply elem_of_nil in Hin.
Qed.
Next Obligation.
  intros a n b Hn Hu. cbn. split_and!.
  - intros i. rewrite !bool_decide_eq_true, elem_of_difference, elem_of_run_set. done.
  - done.
  - rewrite size_difference, Nat2Z.inj_sub, size_run_set; [lia|lia| |].
    + apply subseteq_size. intros i Hi%elem_of_run_set. by apply Hu, bool_decide_eq_true in Hi.
    + intros i Hi%elem_of_run_set. by apply Hu, bool_decide_eq_true in Hi.
Qed.
Next Obligation. intros b. cbn. pose proof (bits_size_le b). destruct (bits_in_range b). lia. Qed.

(** ** Adding and deleting swap files *)

Lemma StronglySorted_snoc {A} (R : A → A → Prop) l x :
  StronglySorted R l → (∀ y, y ∈ l → R y x) → StronglySorted R (l ++ [x]).
Proof.
  induction 1 as [|y l Hs IH Hall]; intros Hx; cbn; [repeat constructor|].
  constructor; [apply IH; intros z Hz; by apply Hx, list_elem_of_further|].
  apply Forall_app. split; [done|]. repeat constructor. apply Hx, list_elem_of_here.
Qed.

Section add.
Context {RB : RadixBitmap}.

Lemma before_last s f g :
  files_ok s → last (sSwapFileList s) = Some f → g ∈ sSwapFileList s → last_slot g <= last_slot f.
Proof.
  intros (Hok & Hs & _) [l E]%last_Some Hg. rewrite E in *. apply elem_of_app in Hg as [Hg|Hg%list_elem_of_singleton]; [|by subst].
  apply Forall_app in Hok as [_ [Hf _]%Forall_cons]. destruct Hf as (? & _).
  assert (before g f); [|unfold before in *; lia].
  clear -Hs Hg. induction l as [|h l IH]; [by apply elem_of_nil in Hg|]. cbn in Hs. inversion Hs as [|? ? Hs' Hall]; subst.
  apply elem_of_cons in Hg as [->|Hg]; [|by apply IH]. by apply Forall_app in Hall as [_ [? _]%Forall_cons].
Qed.

Lemma swap_file_add_ok st_size node ptr s s' :
  files_ok s → ptr ∉ sf_ptr <$> sSwapFileList s → 0 <= st_size < 2 ^ 44 →
  (∀ f, last (sSwapFileList s) = Some f → last_slot f + 1 + st_size / PAGE_SIZE < 2 ^ 32) →
  (∀ f, last (sSwapFileList s) = Some f → last_slot f + 1 + st_size / PAGE_SIZE <= SWAP_SLOT_NONE) →
  st_size / PAGE_SIZE <= SWAP_SLOT_NONE → sSwapFileCount s + 1 < 2 ^ 32 →
  swap_file_add st_size node (Some ptr) s = (Ok, s') →
  files_ok s' ∧ sAvailSwapSpace s' = sAvailSwapSpace s + st_size / PAGE_SIZE * PAGE_SIZE ∧
  ∀ i, slot_used s' i ↔ slot_used s i.
Proof.
  intros Hok Hptr Hsz Hb1 Hb2 Hb3 Hcnt. unfold swap_file_add. destruct (st_size <? PAGE_SIZE); [done|]. destruct node as [node|]; [|done].
  rewrite Z.shiftr_div_pow2 by done. change (2 ^ PAGE_SHIFT) with PAGE_SIZE.
  assert (0 <= st_size / PAGE_SIZE < 2 ^ 32) as Hpc by (unfold PAGE_SIZE; split; [apply Z.div_pos|apply Z.div_lt_upper_bound]; lia).
  rewrite (wrap_small 32) by done. destruct (radix_bitmap_create _) as [b|] eqn:Eb; [|done].
  apply radix_create_new in Eb as (Hbs & Hbu & _). set (first := match last _ with None => 0 | Some f => _ end).
  assert (0 <= first ∧ first + st_size / PAGE_SIZE < 2 ^ 32 ∧ first + st_size / PAGE_SIZE <= SWAP_SLOT_NONE ∧
    ∀ g, g ∈ sSwapFileList s → last_slot g < first) as (H1 & H2 & H3 & H4).
  { unfold first. destruct (last (sSwapFileList s)) as [f|] eqn:El.
    - pose proof (Hb1 f eq_refl). pose proof (Hb2 f eq_refl). assert (file_ok f) as (? & _).
      { destruct Hok as (Hok & _). rewrite Forall_forall in Hok. apply Hok. by apply last_Some_elem_of. }
      rewrite (wrap_small 32) by (split; lia). split_and!; [lia..|].
      intros g Hg. pose proof (before_last s f g Hok El Hg). lia.
    - apply last_None in El. rewrite El. split_and!; [lia..|]. by intros g []%elem_of_nil. }
  clearbody first. rewrite (wrap_small 32) by (split; lia). intros [= <-].
  destruct Hok as (Hok & Hs & Hnd & Hc & Hlt & Ha). split_and!; [|done|].
  - unfold files_ok. cbn. rewrite fmap_app. cbn. rewrite (wrap_small 32) by (split; lia). split_and!.
    + apply Forall_app. split; [done|]. repeat constructor; cbn; lia.
    + by apply StronglySorted_snoc.
    + apply NoDup_app. split; [done|]. split; [|apply NoDup_singleton]. intros p Hp ->%list_elem_of_singleton. done.
    + rewrite length_app. cbn. lia.
    + lia.
    + destruct (sSwapFileAlloc s); [|done]. apply elem_of_app. by left.
  - intros i. unfold slot_used. cbn. split.
    + intros (f & [Hf|Hf%list_elem_of_singleton]%elem_of_app & Hi & Hu); [eauto|]. subst f. cbn in Hu. by rewrite Hbu in Hu.
    + intros (f & Hf & ?). exists f. rewrite elem_of_app. auto.
Qed.
End add.

(** The state after boot, and with two swap files of 40 and 3 pages. *)
Definition swap_boot {RB : RadixBitmap} : swap := mkSwap [] None 0 0.
Definition swap_two : swap :=
  (swap_file_add (3 * PAGE_SIZE) (Some 8) (Some 2000) (swap_file_add (40 * PAGE_SIZE) (Some 7) (Some 1000) swap_boot).2).2.

Lemma swap_two_ok : files_ok swap_two.
Proof.
  assert (files_ok swap_boot) as H0 by (split_and!; [constructor..|done|done|done]).
  assert (files_ok (swap_file_add (40 * PAGE_SIZE) (Some 7) (Some 1000) swap_boot).2) as H1.
  { apply (swap_file_add_ok (40 * PAGE_SIZE) (Some 7) 1000 swap_boot); [exact H0|..]; [by intros []%elem_of_nil|done..|reflexivity]. }
  apply (swap_file_add_ok (3 * PAGE_SIZE) (Some 8) 2000 (swap_file_add (40 * PAGE_SIZE) (Some 7) (Some 1000) swap_boot).2);
    [exact H1|..]; [by apply not_elem_of_cons; split; [|apply not_elem_of_nil]|done| | |done|done|reflexivity];
    intros f [= <-]; done.
Qed.

(** ** Properties *)

(** swap_slot_alloc hands out a run of slots of one swap file that were
    free, marks exactly them used, and every slot of the run is found in
    that file; swap_slot_dealloc of the run restores the set of used slots.
    One slot can always be allocated while a file has a free one. *)
Lemma swap_slot_roundtrip {RB : RadixBitmap} (count addr : Z) (s s' : swap) (f : swap_file)
    (Hok : files_ok s) (Hradix : 0 < count <= BITMAP_RADIX)
    (Hfile : f ∈ sSwapFileList s) (Hfree : 0 < free_slots (bmp f)) :
  (∃ r, swap_slot_alloc 1 s = Ret r) ∧
  (swap_slot_alloc count s = Ret (addr, s') →
    files_ok s' ∧ addr ≠ SWAP_SLOT_NONE ∧
    (∀ i, run addr count i → ¬ slot_used s i) ∧
    (∀ i, slot_used s' i ↔ run addr count i ∨ slot_used s i) ∧
    (∀ i, run addr count i → ∃ g, find_swap_file i s' = Ret g ∧ find_swap_file addr s' = Ret g) ∧
    ∃ s'', swap_slot_dealloc addr count s' = Ret s'' ∧ files_ok s'' ∧ ∀ i, slot_used s'' i ↔ slot_used s i).
Proof.
  split; [apply (swap_slot_alloc_one s f); [done|lia|done..]|]. intros Ha.
  destruct (swap_slot_alloc_ok _ _ _ _ Hok Hradix Ha) as (Hok' & _ & Hn & Hfresh & Hu & l1 & g & l2 & E & H1 & H2).
  destruct (swap_slot_dealloc_ok count s' l1 g l2 addr Hok') as (s'' & Hd & Hok'' & _ & Hu'');
    [lia|done..|intros i Hi; apply Hu; by left|].
  split_and!; [done..| |].
  - intros i Hi. unfold run in Hi. exists g. split; apply (find_swap_file_split s' l1 g l2); done || lia.
  - exists s''. split_and!; [done..|]. intros i. rewrite Hu'', Hu. specialize (Hfresh i). tauto.
Qed.

Lemma swap_slot_roundtrip_witness :
  ∃ s', swap_slot_alloc 8 swap_two = Ret (0, s') ∧ files_ok s' ∧ slot_used s' 7 ∧ ¬ slot_used swap_two 7.
Proof.
  destruct (sSwapFileList swap_two) as [|f ?] eqn:E; [discriminate|].
  assert (match swap_slot_alloc 8 swap_two with Ret (a, _) => a =? 0 | _ => false end = true) as Hz by (vm_compute; reflexivity).
  destruct (swap_slot_alloc 8 swap_two) as [[a s']| |] eqn:Ha; [|discriminate..].
  apply Z.eqb_eq in Hz as ->.
  destruct (swap_slot_roundtrip 8 0 swap_two s' f swap_two_ok) as (_ & H);
    [vm_compute; split; [reflexivity|discriminate]|rewrite E; left|injection E as <- _; vm_compute; reflexivity|].
  destruct (H Ha) as (H1 & _ & H2 & H3 & _). exists s'. split_and!; [done|done| |].
  - apply H3. left. unfold run. lia.
  - apply H2. unfold run. lia.
Defined.

Lemma conserved_same {RB : RadixBitmap} e c c' : counters c' = counters c → conserved e c c'.
Proof.
  unfold counters. intros [= E1 E2 E3 E4]. unfold conserved, committed_memory. rewrite E1, E2, E3, E4. split; [done|].
  exists []. split; [apply prefix_nil|cbn; lia].
Qed.

(** The commitment [VMAnonymousCache::Commit] aims at. *)
Definition commit_target {RB : RadixBitmap} (size : Z) (c : cstate anon) : Z :=
  if can_overcommit (own c) && (committed_size (base c) <? size) then
    if has_precommitted (own c) then committed_size (base c)
    else Z.min size (precommitted_pages (own c) * PAGE_SIZE)
  else size.

(** VMAnonymousCache::Commit returns, and the swap space and memory the
    cache has committed plus what is available stay constant up to what
    other threads did while it waited; on success the commitment is the
    requested size, or for an overcommitting cache that grows its
    precommitted pages (once); on failure no memory stays reserved beyond
    what was. *)
Lemma anonymous_commit_correct {RB : RadixBitmap} (SECONDS : Z → Z) (e : reserve_env) (size : Z)
    (priority : gfp_prio) (c : cstate anon)
    (Hok : commit_ok c) (Hsize : 0 <= size < 2 ^ 60) (Hpre : 0 <= precommitted_pages (own c) <= 255)
    (Henv : env_ok e (SECONDS 1) (memory_ c)) :
  ∃ st c', anon_Commit SECONDS e size priority c = Ret (st, c') ∧ commit_ok c' ∧ conserved e c c' ∧
    match st with
    | Ok => committed_size (base c') = commit_target size c
    | Err _ => committed_size (base c) <= committed_size (base c') < commit_target size c ∧
               committed_memory c' = committed_memory c
    end ∧
    has_precommitted (own c') =
      (has_precommitted (own c) || (can_overcommit (own c) && (committed_size (base c) <? size))).
Proof.
  unfold anon_Commit, commit_target.
  destruct (can_overcommit (own c) && (committed_size (base c) <? size)) eqn:Eo; [|rewrite orb_false_r].
  - destruct (has_precommitted (own c)) eqn:Eh.
    { exists Ok, c. split; [done|]. split; [done|]. split; [by apply conserved_same|]. by rewrite Eh. }
    set (c1 := c <| own ::= _ |>).
    assert (counters c1 = counters c ∧ memory_ c1 = memory_ c ∧ precommit c1 = (can_overcommit (own c), true, precommitted_pages (own c)))
      as (E1 & E2 & E3) by (destruct c as [C [? ? ? ? ? ?] ? ?]; done).
    clearbody c1. unfold counters in E1. injection E1 as F1 F2 F3 F4. unfold precommit in E3. injection E3 as G1 G2 G3.
    replace (if precommitted_pages (own c1) * PAGE_SIZE <? size then precommitted_pages (own c1) * PAGE_SIZE else size)
      with (Z.min size (precommitted_pages (own c) * PAGE_SIZE))
      by (rewrite G3; destruct (Z.ltb_spec (precommitted_pages (own c) * PAGE_SIZE) size); lia).
    destruct (_Commit_ok SECONDS e (Z.min size (precommitted_pages (own c) * PAGE_SIZE)) priority c1)
      as (st & c' & -> & (H1 & (H2 & us & Hus & H3) & H4) & H5).
    { unfold commit_ok, backed in *. by rewrite F1, F2, F3. }
    { unfold PAGE_SIZE. lia. }
    { by rewrite E2. }
    unfold precommit in H5. injection H5 as _ P2 _. unfold conserved, committed_memory in *. rewrite F1, F2, F3, F4 in *.
    exists st, c'. split; [done|]. split; [done|]. split; [split; [done|by exists us]|]. by rewrite P2.
  - destruct (_Commit_ok SECONDS e size priority c Hok Hsize Henv) as (st & c' & Heq & (H1 & H2 & H4) & H5).
    unfold precommit in H5. injection H5 as _ P2 _. eauto 8.
Qed.

(** Committed space for every page the cache has and every page it may still
    get without asking. *)
Definition covered {RB : RadixBitmap} (c : cstate anon) : Prop :=
  (page_count (base c) + precommitted_pages (own c)) * PAGE_SIZE <= committed_size (base c).

(** VMAnonymousCache::Fault of an overcommitting cache: it answers
    EFAULT exactly for the guard pages; whenever it lets the fault go on for
    a page the cache does not have, the commitment covers the pages the
    cache has, the new one and the remaining precommitted ones; swap space
    and memory are conserved. *)
Lemma overcommit_fault_correct {RB : RadixBitmap} (e : reserve_env) (kernel : bool) (lookup : option Z)
    (has : bool) (offset : Z) (c : cstate anon)
    (Hok : commit_ok c) (Hover : can_overcommit (own c) = true) (Hcov : covered c)
    (Hrange : 0 <= precommitted_pages (own c) <= 255) (Hcount : 0 <= page_count (base c))
    (Hpages : (PAGE_SIZE | sAvailSwapSpace (swapspace c))) (Henv : env_ok e 0 (memory_ c)) :
  ∃ r c', anon_Fault e kernel lookup has offset c = Ret (r, c') ∧ backed c' ∧ conserved e c c' ∧
    (r = FaultErr EFAULT ↔ 0 <= offset < guard_size (own c)) ∧
    match r with
    | VM_FAULT_DONT_HANDLE =>
        (lookup = None → has = false →
          (page_count (base c') + 1 + precommitted_pages (own c')) * PAGE_SIZE <= committed_size (base c'))
    | FaultErr _ =>
        counters c' = counters c ∨ sAvailSwapSpace (swapspace c) = 0 ∧ precommitted_pages (own c) = 0 ∧
          committed_size (base c') = committed_size (base c) ∧ committed_memory c' = committed_memory c
    end.
Proof.
  pose proof Hok as ((Hs & Ha) & Hc & Hsum). unfold anon_Fault, covered in *.
  assert (∀ c', counters c' = counters c → backed c' ∧ conserved e c c') as Hsame.
  { intros c' Hcc. unfold counters in Hcc. injection Hcc as E1 E2 E3 E4.
    split; [|by apply conserved_same; unfold counters; rewrite E1, E2, E3, E4]. unfold backed. rewrite E1, E2, E3. lia. }
  destruct ((0 <? guard_size (own c)) && (0 <=? offset) && (offset <? guard_size (own c))) eqn:Eg.
  { breflect. exists (FaultErr EFAULT), c. split; [done|]. destruct (Hsame c eq_refl). split; [done|]. split; [done|]. split; [split; [lia|done]|by left]. }
  assert (¬ (0 <= offset < guard_size (own c))) as Hng.
  { intros ?. apply not_true_iff_false in Eg. apply Eg. rewrite !andb_true_iff, !Z.ltb_lt, Z.leb_le. lia. }
  rewrite Hover. cbn [andb]. destruct (bool_decide (lookup = None) && negb has) eqn:El.
  2:{ exists VM_FAULT_DONT_HANDLE, c. split; [done|]. destruct (Hsame c eq_refl). split; [done|]. split; [done|]. split; [split; [done|lia]|].
      intros -> ->. done. }
  destruct (Z.eqb_spec (precommitted_pages (own c)) 0) as [Hp|Hp].
  2:{ eexists _, _. split; [done|]. destruct (Hsame (c <| own ::= fun a => a <| precommitted_pages ::= fun n => u32 (n - 1) |> |>)) as [? ?].
      { by destruct c as [C [? ? ? ? ? ?] ? ?]. }
      split; [done|]. split; [done|]. split; [split; [done|lia]|]. intros _ _. destruct c as [C [? ? ? ? ? ?] ? ?]. unfold update. cbn in *.
      rewrite (wrap_small 32) by (split; lia). lia. }
  rewrite Hp in *. unfold PAGE_SIZE in *. rewrite Z.quot_div_nonneg by lia. destruct (Z.ltb_spec (page_count (base c)) (committed_size (base c) / 4096)).
  { exists VM_FAULT_DONT_HANDLE, c. split; [done|]. destruct (Hsame c eq_refl). split; [done|]. split; [done|]. split; [split; [done|lia]|].
    intros _ _. rewrite Hp. zlia. }
  destruct (reserve_part_ok 4096 (swapspace c)) as [Hn Hs']; [lia..|].
  destruct (swap_space_reserve 4096 (swapspace c)) as [n s] eqn:En. cbn in Hn, Hs'. destruct (Z.eqb_spec n 4096) as [Hnp|Hnp].
  - eexists _, _. split; [done|]. destruct c as [C a s0 m]. unfold set_committed, backed, conserved, committed_memory, update. cbn in *.
    split_and!; [lia..|exists []; split; [apply prefix_nil|cbn; lia]|split; [done|lia]|lia].
  - assert (n = 0) as Hn0 by (destruct Hpages as [k Hk]; lia).
    destruct (reserve_memory_ok e 4096 (if kernel then GFP_PRIO_SYSTEM else GFP_PRIO_USER) 0 (c <| swapspace := s |>))
      as (st & m & us & -> & Hus & Hm); [done|lia|]. cbn [mbind outcome_bind].
    destruct c as [C a s0 m0]. unfold set_committed, backed, conserved, committed_memory, update in *. cbn in *.
    destruct st as [|er]; eexists _, _; (split; [done|]); cbn.
    + split_and!; [lia..|exists us; split; [done|lia]|split; [done|lia]|lia].
    + split_and!; [lia..|exists us; split; [done|lia]|split; [done|lia]|right; split_and!; lia].
Qed.

Definition no_cache : VMCache := mkVMCache [] [] ∅ None 0 0 0 0 0 true true CACHE_TYPE_RAM 1 0 0.
Definition some_env : reserve_env := mkReserveEnv (2 ^ 62) 0 [mkWait 0 0 false 2000000].
(** A cache of which three pages may be used before it commits more. *)
Definition some_anon : cstate anon :=
  mkCState no_cache (anon_Init true 3 1) swap_two (mkMemory (2 ^ 30) 0 (2 ^ 31)).

Lemma anonymous_commit_correct_witness :
  ∃ c', anon_Commit (fun n => n * 1000000) some_env (100 * PAGE_SIZE) GFP_PRIO_USER some_anon = Ret (Ok, c') ∧
    committed_size (base c') = 3 * PAGE_SIZE ∧ conserved some_env some_anon c'.
Proof.
  destruct (anonymous_commit_correct (fun n => n * 1000000) some_env (100 * PAGE_SIZE) GFP_PRIO_USER some_anon)
    as (st & c' & H1 & _ & H2 & H3 & _).
  - vm_compute. split_and!; congruence.
  - vm_compute. split; congruence.
  - vm_compute. split; congruence.
  - split; [vm_compute; reflexivity|]. split; [vm_compute; split; congruence|]. left. vm_compute. congruence.
  - assert (match anon_Commit (fun n => n * 1000000) some_env (100 * PAGE_SIZE) GFP_PRIO_USER some_anon with
            | Ret (Ok, _) => true | _ => false end = true) as Hst by (vm_compute; reflexivity).
    rewrite H1 in Hst. destruct st; [|done]. exists c'. split; [done|]. by split.
Defined.

Definition faulting_anon : cstate anon :=
  some_anon <| own := mkAnon true true 0 PAGE_SIZE (3 * PAGE_SIZE) 0 |>
            <| base := no_cache <| committed_size := 3 * PAGE_SIZE |> <| page_count := 3 |> |>.

Lemma overcommit_fault_correct_witness :
  ∃ c', anon_Fault some_env false None false (7 * PAGE_SIZE) faulting_anon = Ret (VM_FAULT_DONT_HANDLE, c') ∧
    4 * PAGE_SIZE <= committed_size (base c') ∧ conserved some_env faulting_anon c'.
Proof.
  destruct (overcommit_fault_correct some_env false None false (7 * PAGE_SIZE) faulting_anon)
    as (r & c' & H1 & _ & H2 & _ & H3).
  - vm_compute. split_and!; congruence.
  - reflexivity.
  - vm_compute. congruence.
  - vm_compute. split; congruence.
  - vm_compute. congruence.
  - exists 43. vm_compute. reflexivity.
  - split; [vm_compute; reflexivity|]. split; [vm_compute; split; congruence|]. left. vm_compute. congruence.
  - assert (match anon_Fault some_env false None false (7 * PAGE_SIZE) faulting_anon with
            | Ret (VM_FAULT_DONT_HANDLE, c') => (page_count (base c') =? 3) && (precommitted_pages (own c') =? 0)
            | _ => false end = true) as Hst by (vm_compute; reflexivity).
    rewrite H1 in Hst. destruct r; [|done]. apply andb_true_iff in Hst as [Hc%Z.eqb_eq Hp%Z.eqb_eq].
    exists c'. split; [done|]. split; [|done]. specialize (H3 eq_refl eq_refl). rewrite Hc, Hp in H3. exact H3.
Defined.

(** Space of a swap file can be reserved while none of its slots is in use;
    the file can then be deleted, the available space becomes negative, and
    the next reservation takes a negative amount. *)
Lemma swap_delete_reserved :
  let s := (swap_space_reserve (43 * PAGE_SIZE) swap_two).2 in
  (swap_file_delete 7 s).1 = Ok ∧
  sAvailSwapSpace (swap_file_delete 7 s).2 = - 40 * PAGE_SIZE ∧
  (swap_space_reserve PAGE_SIZE (swap_file_delete 7 s).2).1 = - 40 * PAGE_SIZE.
Proof. vm_compute. auto. Qed.

(** After a slot of a file was used and freed, deleting the file leaves
    [sSwapFileAlloc] pointing to it, and the next allocation follows it. *)
Lemma swap_delete_dangling :
  match swap_slot_alloc 1 swap_two with
  | Ret (a, s) =>
      match swap_slot_dealloc a 1 s with
      | Ret s =>
          match swap_slot_alloc 1 (swap_file_delete 7 s).2, (swap_file_delete 7 s).1 with
          | Panic, Ok => true
          | _, _ => false
          end
      | _ => false
      end
  | _ => false
  end = true.
Proof. vm_compute. reflexivity. Qed.

(** A cache smaller than its precommitment keeps the whole precommitment:
    after it was enlarged it takes pages nothing was committed for. *)
Lemma precommit_not_backed :
  match anon_Commit (fun n => n * 1000000) some_env PAGE_SIZE GFP_PRIO_USER some_anon with
  | Ret (Ok, c) =>
      committed_size (base c) = PAGE_SIZE ∧ precommitted_pages (own c) = 3 ∧
      match anon_Commit (fun n => n * 1000000) some_env (100 * PAGE_SIZE) GFP_PRIO_USER c with
      | Ret (Ok, c') => committed_size (base c') = PAGE_SIZE ∧ precommitted_pages (own c') = 3
      | _ => False
      end
  | _ => False
  end.
Proof. vm_compute. auto. Qed.
