(* ===== verification/CacheEffects.v ===== *)
(** The effect of the page operations of a [VMCache] on all caches and pages
    at once, for the components that call them in loops: which tree each page
    is in afterwards, which pages were freed, and that nothing else changed.

    A state is seen through [trees] (the page tree of every cache), [links]
    (what the page operations leave alone in a cache) and [attr] (what they
    leave alone in a page).  [effect F s s'] says that [s'] is well formed
    again, has the links of [s], and that exactly the pages of [F] were freed
    while all others kept their attributes. *)
From S2P Require Import Prelude VMState PageQueue CachePages PageAlloc.
From stdpp Require Import base list list_numbers numbers gmap.
From Stdlib Require Import ZArith Lia.
Local Open Scope Z_scope.

Section effects.
Context {DL : DLList Z}.
Implicit Types (s : vmstate) (p c : Z) (F : gset Z).

Definition links (C : VMCache) : list Z * list Z * option Z * (Z * Z * Z) * (bool * bool * cache_type * Z) :=
  (consumers C, areas C, source C, (virtual_base C, virtual_end C, committed_size C),
   (temporary C, mergeable C, ctype C, ref_count C)).

Definition attr (pg : page) : page := pg <| cache_ref := None |> <| cache_offset := 0 |>.

Definition trees s : gmap Z (gmap Z Z) := cpages <$> caches s.

Definition vm_ok s : Prop := caches_ok s ∧ pages_ok s ∧ Z.of_nat (size (pages s)) < 2 ^ 32.

Definition effect F s s' : Prop :=
  vm_ok s' ∧ links <$> caches s' = links <$> caches s ∧ dom (pages s') = dom (pages s) ∧
  ∀ p pg', pages s' !! p = Some pg' →
    if decide (p ∈ F) then is_free pg' else ∃ pg, pages s !! p = Some pg ∧ attr pg' = attr pg.

(** ** Attributes *)

Lemma attr_is_free pg pg' : attr pg' = attr pg → is_free pg' ↔ is_free pg.
Proof. destruct pg, pg'. unfold attr, is_free, update. cbn. by intros [= -> -> -> -> -> -> -> -> -> -> ->]. Qed.

Lemma attr_fields pg pg' : attr pg' = attr pg →
  busy pg' = busy pg ∧ wired_count pg' = wired_count pg ∧ mappings pg' = mappings pg ∧
  queue pg' = queue pg ∧ state pg' = state pg ∧ pfn pg' = pfn pg.
Proof. destruct pg, pg'. unfold attr, update. cbn. by intros [= -> -> -> -> -> -> -> -> -> -> ->]. Qed.

Lemma effect_refl s : vm_ok s → effect ∅ s s.
Proof.
  intros Hok. split_and!; [done..|]. intros p pg Hp. rewrite decide_False by apply not_elem_of_empty. eauto.
Qed.

Lemma effect_trans F G s1 s2 s3 : effect F s1 s2 → effect G s2 s3 → effect (F ∪ G) s1 s3.
Proof.
  intros (_ & Hl1 & Hd1 & Hp1) (Hok & Hl2 & Hd2 & Hp2). split_and!; [done|congruence..|].
  intros p pg3 Hp3. specialize (Hp2 p pg3 Hp3). destruct (decide (p ∈ G)) as [HG|HG].
  { rewrite decide_True by (apply elem_of_union; by right). done. }
  destruct Hp2 as (pg2 & Hpg2 & Ha2). specialize (Hp1 p pg2 Hpg2). destruct (decide (p ∈ F)) as [HF|HF].
  - rewrite decide_True by (apply elem_of_union; by left). by apply (attr_is_free _ _ Ha2).
  - rewrite decide_False by (intros [?|?]%elem_of_union; done). destruct Hp1 as (pg1 & ? & ?).
    exists pg1. split; [done|]. congruence.
Qed.

(** ** Reading the views *)

Lemma lookup_trees s c T : trees s !! c = Some T ↔ ∃ C, caches s !! c = Some C ∧ cpages C = T.
Proof. unfold trees. rewrite lookup_fmap_Some. naive_solver. Qed.

Lemma lookup_links s c l : (links <$> caches s) !! c = Some l ↔ ∃ C, caches s !! c = Some C ∧ links C = l.
Proof. rewrite lookup_fmap_Some. naive_solver. Qed.

Lemma tree_page s c T o p :
  caches_ok s → trees s !! c = Some T → T !! o = Some p →
  ∃ C pg, caches s !! c = Some C ∧ pages s !! p = Some pg ∧ cache_ref pg = Some (self_ref C) ∧ cache_offset pg = o ∧
    page_Cache s pg = Some c.
Proof.
  intros Hok (C & HC & <-)%lookup_trees Ho. pose proof (proj1 Hok c C HC) as HokC.
  pose proof HokC as (_ & _ & _ & _ & Hel). pose proof Ho as (pg & Hp & Ho' & Hr)%Hel.
  exists C, pg. split_and!; try done. by destruct (page_Cache_ok s c C p pg o HokC Ho Hp).
Qed.

(** A page is in one tree, at one offset. *)
Lemma tree_inj s c c' T T' o o' p :
  caches_ok s → trees s !! c = Some T → trees s !! c' = Some T' → T !! o = Some p → T' !! o' = Some p → c = c' ∧ o = o'.
Proof.
  intros Hok HT HT' Ho Ho'. destruct (tree_page s c T o p Hok HT Ho) as (C & pg & HC & Hp & Hr & <- & Hpc).
  destruct (tree_page s c' T' o' p Hok HT' Ho') as (C' & pg' & HC' & Hp' & Hr' & <- & Hpc'). simplify_eq. done.
Qed.

Lemma tree_not_free s c T o p pg :
  vm_ok s → trees s !! c = Some T → T !! o = Some p → pages s !! p = Some pg → ¬ is_free pg.
Proof.
  intros (Hok & [_ Hall] & _) HT Ho Hp Hf. destruct (tree_page s c T o p Hok HT Ho) as (C & pg' & _ & Hp' & Hr & _).
  simplify_eq. destruct (Hall p _ Hp) as [_ Hfree]. destruct (Hfree Hf). congruence.
Qed.

Lemma shiftl_page o : Z.shiftr (Z.shiftl o PAGE_SHIFT) PAGE_SHIFT = o.
Proof. by rewrite Z.shiftr_shiftl_l, Z.sub_diag, Z.shiftl_0_r by done. Qed.

Lemma LookupPage_trees s c T o :
  caches_ok s → trees s !! c = Some T → LookupPage c (Z.shiftl o PAGE_SHIFT) s = Ret (T !! o).
Proof. intros Hok (C & HC & <-)%lookup_trees. by rewrite (LookupPage_tree s c C), shiftl_page. Qed.

(** A cache that misses a page has room for it. *)
Lemma page_count_room s c C p :
  vm_ok s → caches s !! c = Some C → is_Some (pages s !! p) → (∀ o, cpages C !! o ≠ Some p) →
  page_count C + 1 < 2 ^ 32.
Proof.
  intros (Hok & _ & Hsz) HC Hp Hn. destruct (proj1 Hok c C HC) as (_ & -> & _ & _ & Hel).
  assert (NoDup (map_to_list (cpages C)).*2) as Hnd.
  { apply NoDup_fmap_2_strong; [|apply NoDup_map_to_list]. intros [o q] [o' q'] H1%elem_of_map_to_list H2%elem_of_map_to_list E.
    cbn in E. subst q'. apply Hel in H1 as (pg & ? & ? & ?), H2 as (pg' & ? & ? & ?). by simplify_eq. }
  enough (1 + size (cpages C) ≤ size (pages s))%nat by lia.
  rewrite <- length_map_to_list, <- (length_fmap snd), <- (size_list_to_set (C := gset Z)), <- (size_dom (pages s)) by done.
  rewrite <- (size_singleton (C := gset Z) p), <- size_union.
  - apply subseteq_size. intros q [->%elem_of_singleton|Hq]%elem_of_union; [by apply elem_of_dom|].
    apply elem_of_list_to_set, list_elem_of_fmap in Hq as ([o q'] & -> & Hq%elem_of_map_to_list).
    apply Hel in Hq as (pg & ? & _). apply elem_of_dom. eauto.
  - intros q ->%elem_of_singleton Hq. apply elem_of_list_to_set, list_elem_of_fmap in Hq as ([o q'] & -> & Hq%elem_of_map_to_list).
    by apply (Hn o).
Qed.

(** ** What the operations leave alone *)

(** The part of the state that holds neither caches nor pages. *)
Definition rest s : vmstate := s <| pages := ∅ |> <| caches := ∅ |> <| cacherefs := ∅ |>.

Definition frame s s' : Prop :=
  links <$> caches s' = links <$> caches s ∧ attr <$> pages s' = attr <$> pages s ∧ rest s' = rest s.

Lemma frame_refl s : frame s s.
Proof. done. Qed.

Lemma frame_trans s1 s2 s3 : frame s1 s2 → frame s2 s3 → frame s1 s3.
Proof. intros (? & ? & ?) (? & ? & ?). split_and!; congruence. Qed.

Lemma frame_set_cache c C C' s :
  caches s !! c = Some C → links C' = links C → frame s (set_cache c C' s).
Proof.
  intros HC Hl. split_and!; [|done..]. cbn. rewrite fmap_insert, Hl. apply insert_id. by rewrite lookup_fmap, HC.
Qed.

Lemma frame_set_page p pg pg' s :
  pages s !! p = Some pg → attr pg' = attr pg → frame s (set_page p pg' s).
Proof.
  intros Hp Ha. split_and!; [done| |done]. cbn. rewrite fmap_insert, Ha. apply insert_id. by rewrite lookup_fmap, Hp.
Qed.

Lemma frame_set_both c C C' p pg pg' s :
  caches s !! c = Some C → links C' = links C → pages s !! p = Some pg → attr pg' = attr pg →
  frame s (set_cache c C' (set_page p pg' s)).
Proof.
  intros HC Hl Hp Ha. eapply frame_trans; [by eapply frame_set_page|]. by apply (frame_set_cache c C).
Qed.

Lemma frame_lookup s s' p pg' :
  frame s s' → pages s' !! p = Some pg' → ∃ pg, pages s !! p = Some pg ∧ attr pg' = attr pg.
Proof.
  intros (_ & Ha & _) Hp. assert ((attr <$> pages s') !! p = Some (attr pg')) as H by by rewrite lookup_fmap, Hp.
  rewrite Ha in H. apply lookup_fmap_Some in H as (pg & E & Hpg). by exists pg.
Qed.

Lemma frame_queue s s' i : frame s s' → get_queue i s' = get_queue i s.
Proof.
  intros (_ & _ & Hr). apply (f_equal (get_queue i)) in Hr. by destruct i.
Qed.

Lemma frame_dom s s' : frame s s' → dom (pages s') = dom (pages s).
Proof. intros (_ & Ha & _). apply (f_equal dom) in Ha. by rewrite !dom_fmap_L in Ha. Qed.

(** A frame keeps the page queues in order as long as no free page got a cache. *)
Lemma frame_pages_ok s s' :
  frame s s' → pages_ok s → (∀ p pg, pages s' !! p = Some pg → is_free pg → cache_ref pg = None) → pages_ok s'.
Proof.
  intros Hf [[Hsz Hq] Hall] Hn. split; [split|].
  - rewrite <- size_dom, (frame_dom _ _ Hf), size_dom. done.
  - intros i. destruct (Hq i) as (Hnd & Hc & Hel). unfold queue_ok, qelems in *. rewrite (frame_queue s s' i Hf).
    split_and!; [done..|]. intros p. rewrite Hel. split.
    + intros (pg & Hp & Hqp). assert ((attr <$> pages s') !! p = Some (attr pg)) as (pg' & Ha & Hp')%lookup_fmap_Some
        by (destruct Hf as (_ & -> & _); by rewrite lookup_fmap, Hp).
      exists pg'. split; [done|]. by destruct (attr_fields pg pg') as (_ & _ & _ & -> & _).
    + intros (pg' & Hp' & Hqp). destruct (frame_lookup s s' p pg' Hf Hp') as (pg & Hp & Ha). exists pg. split; [done|].
      destruct (attr_fields pg pg' Ha) as (_ & _ & _ & <- & _). done.
  - intros p pg' Hp'. destruct (frame_lookup s s' p pg' Hf Hp') as (pg & Hp & Ha). destruct (Hall p pg Hp) as [Hh Hfree].
    destruct (attr_fields pg pg' Ha) as (_ & Hw & Hm & Hqe & Hst & _). split; [congruence|].
    intros Hfr. split; [by apply (Hn p)|]. rewrite Hw, Hm. by apply Hfree, (attr_is_free _ _ Ha).
Qed.

Lemma frame_vm_ok s s' :
  frame s s' → vm_ok s → caches_ok s' → (∀ p pg, pages s' !! p = Some pg → is_free pg → cache_ref pg = None) → vm_ok s'.
Proof.
  intros Hf (_ & Hpo & Hsz) Hok Hn. split_and!; [done|by eapply frame_pages_ok|].
  rewrite <- size_dom, (frame_dom _ _ Hf), size_dom. done.
Qed.

Lemma frame_effect s s' : frame s s' → vm_ok s' → effect ∅ s s'.
Proof.
  intros Hf Hok. pose proof Hf as (Hl & _ & _). split_and!; [done|done|by apply frame_dom|].
  intros p pg Hp. rewrite decide_False by apply not_elem_of_empty. by eapply frame_lookup.
Qed.

Lemma MovePage_frame c p offset s s' :
  MovePage c p offset s = Ret s' →
  frame s s' ∧ (∀ q pg, pages s' !! q = Some pg → q = p ∨ pages s !! q = Some pg).
Proof.
  unfold MovePage. intros H. destruct (pages s !! p) as [pg|] eqn:Hp; [|done]. cbn [deref mbind outcome_bind] in H.
  destruct (page_Cache s pg) as [old|]; [|done]. cbn [deref mbind outcome_bind] in H.
  destruct (caches s !! old) as [O|] eqn:HO; [|done]. cbn [deref mbind outcome_bind] in H.
  set (s1 := set_cache old _ s) in *.
  assert (frame s s1) as F1 by (by apply (frame_set_cache old O)).
  destruct (caches s1 !! c) as [C|] eqn:HC; [|done]. cbn [deref mbind outcome_bind] in H.
  set (s2 := set_page p _ s1) in *.
  assert (frame s s2) as F2 by (eapply frame_trans; [exact F1|]; by apply (frame_set_page p pg)).
  set (s3 := set_cache c _ s2) in *.
  assert (frame s s3) as F3 by (eapply frame_trans; [exact F2|]; by apply (frame_set_cache c C)).
  assert (∀ q pg0, pages s3 !! q = Some pg0 → q = p ∨ pages s !! q = Some pg0) as Hpg.
  { intros q pg0. change (pages s3) with (<[p := pg <| cache_offset := Z.shiftr offset PAGE_SHIFT |> <| cache_ref := Some (self_ref C) |>]> (pages s)).
    intros [[<- _]|[_ ?]]%lookup_insert_Some; auto. }
  destruct (0 <? wired_count pg); [|injection H as <-; done].
  destruct (caches s3 !! c) as [C3|] eqn:HC3; [|done]. cbn [deref mbind outcome_bind] in H.
  unfold IncrementWiredPagesCount in H. destruct (assert _); [|done..]. cbn [mbind outcome_bind] in H.
  set (s4 := set_cache c _ s3) in *.
  assert (frame s s4) as F4 by (eapply frame_trans; [exact F3|]; by apply (frame_set_cache c C3)).
  destruct (caches s4 !! old) as [O4|] eqn:HO4; [|done]. cbn [deref mbind outcome_bind] in H.
  unfold DecrementWiredPagesCount in H. destruct (assert _); [|done..]. cbn [mbind outcome_bind] in H. injection H as <-.
  split; [|exact Hpg]. eapply frame_trans; [exact F4|]. by apply (frame_set_cache old O4).
Qed.

Lemma RemovePage_frame c p s s' :
  RemovePage c p s = Ret s' →
  frame s s' ∧ (∀ q pg, pages s' !! q = Some pg → cache_ref pg = None ∨ pages s !! q = Some pg).
Proof.
  unfold RemovePage. intros H. destruct (caches s !! c) as [C|] eqn:HC; [|done]. cbn [deref mbind outcome_bind] in H.
  destruct (pages s !! p) as [pg|] eqn:Hp; [|done]. cbn [deref mbind outcome_bind] in H.
  destruct (assert _); [|done..]. cbn [mbind outcome_bind] in H.
  set (C2 := if virtual_last_page C =? cache_offset pg then _ else _) in *.
  assert (links C2 = links C) as Hl by (unfold C2; by destruct (_ =? _)).
  assert (∃ C3, s' = set_cache c C3 (set_page p (pg <| cache_ref := None |>) s) ∧ links C3 = links C) as (C3 & -> & Hl3).
  { destruct (0 <? wired_count pg); [|injection H as <-; by exists C2].
    unfold DecrementWiredPagesCount in H. destruct (assert _); [|done..]. cbn [mbind outcome_bind] in H. injection H as <-.
    eexists. split; [done|]. by rewrite <- Hl. }
  split.
  - by apply (frame_set_both c C C3 p pg).
  - intros q pg0. cbn. intros [[<- <-]|[_ ?]]%lookup_insert_Some; auto.
Qed.

Lemma InsertPage_frame c p offset s s' :
  InsertPage c p offset s = Ret s' →
  frame s s' ∧ (∀ q pg, pages s' !! q = Some pg → q = p ∨ pages s !! q = Some pg).
Proof.
  unfold InsertPage. intros H. destruct (caches s !! c) as [C|] eqn:HC; [|done]. cbn [deref mbind outcome_bind] in H.
  destruct (pages s !! p) as [pg|] eqn:Hp; [|done]. cbn [deref mbind outcome_bind] in H.
  destruct (assert (bool_decide (cache_ref pg = None))); [|done..]. cbn [mbind outcome_bind] in H.
  destruct (assert _); [|done..]. cbn [mbind outcome_bind] in H.
  set (pg' := pg <| cache_offset := _ |> <| cache_ref := _ |>) in *.
  assert (∃ C3, s' = set_cache c C3 (set_page p pg' s) ∧ links C3 = links C) as (C3 & -> & Hl3).
  { destruct (0 <? wired_count pg); [|injection H as <-; eexists; split; [done|]; done].
    unfold IncrementWiredPagesCount in H. destruct (assert _); [|done..]. cbn [mbind outcome_bind] in H. injection H as <-.
    eexists. split; [done|]. done. }
  split.
  - by apply (frame_set_both c C C3 p pg).
  - intros q pg0. cbn. intros [[<- _]|[_ ?]]%lookup_insert_Some; auto.
Qed.

Lemma MoveAllPages_frame c from s s' : MoveAllPages c from s = Ret s' → frame s s' ∧ pages s' = pages s.
Proof.
  unfold MoveAllPages. intros H. destruct (caches s !! c) as [C|] eqn:HC; [|done]. cbn [deref mbind outcome_bind] in H.
  destruct (caches s !! from) as [D|] eqn:HD; [|done]. cbn [deref mbind outcome_bind] in H.
  destruct (assert _); [|done..]. cbn [mbind outcome_bind] in H. injection H as <-. split; [|done].
  set (C' := C <| cpages := _ |> <| page_count := _ |> <| wired_pages_count := _ |> <| self_ref := _ |>).
  set (D' := D <| cpages := _ |> <| page_count := _ |> <| wired_pages_count := _ |> <| self_ref := _ |>).
  assert (frame s (set_cache c C' s)) as F1 by (by apply (frame_set_cache c C)).
  split_and!; [|done..]. cbn. rewrite fmap_insert, fmap_insert. change (links C') with (links C). change (links D') with (links D).
  rewrite (insert_id (links <$> caches s)), insert_id; [done|rewrite lookup_fmap, ?HD, ?HC; done..].
Qed.

(** ** Effects of the operations *)

Lemma no_free_attached s :
  vm_ok s → ∀ p pg, pages s !! p = Some pg → is_free pg → cache_ref pg = None.
Proof. intros (_ & [_ Hall] & _) p pg Hp Hf. destruct (Hall p pg Hp) as [_ Hx]. by apply Hx. Qed.

Lemma trees_insert2 s s' c d C' D' :
  caches s' = <[c := C']> (<[d := D']> (caches s)) → trees s' = <[c := cpages C']> (<[d := cpages D']> (trees s)).
Proof. intros E. unfold trees. by rewrite E, !fmap_insert. Qed.

Lemma MovePage_effect c old p o k s T U :
  vm_ok s → trees s !! c = Some T → trees s !! old = Some U → old ≠ c → U !! k = Some p → T !! o = None →
  ∃ s', MovePage c p (Z.shiftl o PAGE_SHIFT) s = Ret s' ∧ effect ∅ s s' ∧
    trees s' = <[c := <[o := p]> T]> (<[old := delete k U]> (trees s)).
Proof.
  intros Hok HT HU Hne Hk Ho. pose proof Hok as (Hco & _ & _).
  destruct (tree_page s old U k p Hco HU Hk) as (O & pg & HO & Hp & Hr & Hoff & _).
  apply lookup_trees in HT as (C & HC & <-). pose proof HU as (O' & HO' & <-)%lookup_trees. simplify_eq.
  destruct (MovePage_step c C old O p pg (Z.shiftl o PAGE_SHIFT) s) as (s' & C' & O' & Hm & Hco' & Hcs & HC' & HO'');
    try done; rewrite ?shiftl_page in *; [done| |].
  { apply (page_count_room s c C p); [done|done|by exists pg|]. intros o' Ho'.
    destruct (tree_inj s old c (cpages O) (cpages C) (cache_offset pg) o' p) as [? _]; try done. apply lookup_trees; eauto. }
  exists s'. split; [done|]. destruct (MovePage_frame _ _ _ _ _ Hm) as [Hf Hpg]. split.
  - apply frame_effect; [done|]. eapply frame_vm_ok; [done..|]. intros q pg' Hq Hfr. destruct (Hpg q pg' Hq) as [->|Hq'].
    + destruct (frame_lookup s s' p pg' Hf Hq) as (pg0 & Hp0 & Ha). rewrite Hp in Hp0. injection Hp0 as <-.
      exfalso. eapply tree_not_free; [exact Hok|exact HU|exact Hk|exact Hp|]. by apply (attr_is_free _ _ Ha).
    + by apply (no_free_attached s Hok q).
  - rewrite (trees_insert2 s s' c old C' O' Hcs), HC', HO''. done.
Qed.

Lemma MoveAllPages_effect c from s T U :
  vm_ok s → trees s !! c = Some T → trees s !! from = Some U → c ≠ from → T = ∅ →
  ∃ s', MoveAllPages c from s = Ret s' ∧ effect ∅ s s' ∧ trees s' = <[from := ∅]> (<[c := U]> (trees s)).
Proof.
  intros Hok (C & HC & HCT)%lookup_trees (D & HD & <-)%lookup_trees Hne ->.
  destruct (MoveAllPages_step c C from D s) as (s' & C' & D' & Hm & Hco' & Hps & Hcs & HC' & HD'); try done; [apply Hok|].
  exists s'. split; [done|]. destruct (MoveAllPages_frame _ _ _ _ Hm) as [Hf _]. split.
  - apply frame_effect; [done|]. eapply frame_vm_ok; [done..|]. intros q pg'. rewrite Hps. by apply no_free_attached.
  - rewrite (trees_insert2 s s' from c D' C' Hcs), HC', HD'. done.
Qed.

Lemma RemovePage_effect c p k s U :
  vm_ok s → trees s !! c = Some U → U !! k = Some p →
  ∃ s' pg', RemovePage c p s = Ret s' ∧ effect ∅ s s' ∧ trees s' = <[c := delete k U]> (trees s) ∧
    pages s' !! p = Some pg' ∧ cache_ref pg' = None ∧ ¬ is_free pg'.
Proof.
  intros Hok HU Hk. pose proof Hok as (Hco & _ & _).
  destruct (tree_page s c U k p Hco HU Hk) as (C & pg & HC & Hp & Hr & Hoff & _).
  pose proof HU as (C0 & HC0 & <-)%lookup_trees. simplify_eq.
  destruct (RemovePage_step c C p pg s) as (C' & Hm & HC' & Hco'); try done.
  destruct (RemovePage_frame _ _ _ _ Hm) as [Hf Hpg].
  eexists _, (pg <| cache_ref := None |>). split; [done|]. split; [|split; [|split_and!]].
  - apply frame_effect; [done|]. eapply frame_vm_ok; [done..|]. intros q pg' Hq Hfr.
    destruct (Hpg q pg' Hq) as [?|Hq']; [done|]. by apply (no_free_attached s Hok q).
  - unfold trees. cbn. by rewrite fmap_insert, HC'.
  - cbn. by rewrite lookup_insert_eq.
  - done.
  - change (¬ is_free pg). eapply (tree_not_free s c); [done|exact HU|exact Hk|done].
Qed.

(** A page outside all caches does not matter to them. *)
Lemma caches_ok_detached s s' p pg pg' :
  caches_ok s → caches s' = caches s → cacherefs s' = cacherefs s → pages s !! p = Some pg → cache_ref pg = None →
  pages s' = <[p := pg']> (pages s) → cache_ref pg' = None → fits 16 (wired_count pg') → caches_ok s'.
Proof.
  intros [Hall Hf] Hcs Hrs Hp Hr Hps Hr' Hw. split.
  - intros c C. rewrite Hcs. intros HC. pose proof (Hall c C HC) as HokC. eapply cache_ok_frame; [exact HokC|done| |].
    + intros q o. unfold refers. rewrite Hps. split; intros (x & Hx & ? & ?).
      * apply lookup_insert_Some in Hx as [[<- <-]|[_ ?]]; [congruence|eauto].
      * exists x. rewrite lookup_insert_ne; [done|]. intros ->. congruence.
    + intros q o Ho. unfold is_wired. rewrite Hps, lookup_insert_ne; [done|]. intros ->.
      destruct HokC as (_ & _ & _ & _ & Hel). apply Hel in Ho as (x & ? & ? & ?). congruence.
  - intros q x. rewrite Hps. intros [[<- <-]|[_ ?]]%lookup_insert_Some; [done|eauto].
Qed.

(** Freeing a page no cache refers to. *)
Lemma vm_page_free_etc_pages c C p pg s :
  pages_ok s → caches s !! c = Some C → pages s !! p = Some pg → detached pg →
  ∃ s', vm_page_free_etc (Some c) p None s = Ret (None, s') ∧ pages_ok s' ∧ pages s' = <[p := freed pg]> (pages s) ∧
    caches s' = caches s ∧ cacherefs s' = cacherefs s.
Proof.
  intros Hpo HC Hp Hd. pose proof Hd as (Hnf & Hr & Hw & Hm). unfold vm_page_free_etc. rewrite Hp.
  cbn [deref mbind outcome_bind]. rewrite !bool_decide_eq_true_2 by (intros E; apply Hnf; unfold is_free; auto).
  cbn [andb assert mbind outcome_bind option_bind]. rewrite HC. cbn [deref mbind outcome_bind].
  set (o := if decide (state pg = PAGE_STATE_MODIFIED) then _ else _).
  assert (∃ s1, o = Ret s1 ∧ pages_ok s1 ∧ pages s1 = pages s ∧ caches s1 = caches s ∧ cacherefs s1 = cacherefs s)
    as (s1 & -> & Hpo1 & Hp1 & Hc1 & Hcr1).
  { unfold o. case_decide; [|by exists s]. destruct (temporary C); [|by exists s]. eexists. split; [done|].
    split; [|done]. split; [by apply queues_ok_counter, Hpo|apply Hpo]. }
  cbn [mbind outcome_bind]. destruct (free_page_ok p pg false s1) as (s2 & -> & Hu); [done|by rewrite Hp1|done..|].
  cbn [mbind outcome_bind]. unfold unreserve_pages. destruct (unreserve_pages_for_zone 1 (sMemoryZone s2)) as [z wk] eqn:Ez.
  apply unreserve_frame in Ez. cbn [fst]. set (pg' := pg <| state := _ |> <| queue := _ |>) in Hu.
  pose proof (page_update_ok p pg' s1 s2 Hpo1 (freed_ok pg Hd) Hu) as Hpo2. destruct Hu as (_ & Hp2 & He2).
  eexists. split; [done|]. cbn. split_and!; [by apply pages_ok_zone|by rewrite Hp2, Hp1|..];
    [apply (f_equal caches) in He2|apply (f_equal cacherefs) in He2]; cbn in He2; congruence.
Qed.

Lemma vm_page_free_etc_effect c p pg s :
  vm_ok s → is_Some (caches s !! c) → pages s !! p = Some pg → detached pg →
  ∃ s', vm_page_free_etc (Some c) p None s = Ret (None, s') ∧ effect {[p]} s s' ∧ caches s' = caches s.
Proof.
  intros (Hco & Hpo & Hsz) [C HC] Hp Hd. pose proof Hd as (Hnf & Hr & Hw & Hm).
  destruct (vm_page_free_etc_pages c C p pg s) as (s' & H1 & Hpo' & Hp' & Hc' & Hcr'); [done..|].
  assert (dom (<[p := freed pg]> (pages s)) = dom (pages s)) as Hdom
    by (rewrite dom_insert_L; apply (elem_of_dom_2 (D := gset Z)) in Hp; set_solver).
  exists s'. split; [done|]. split; [|done]. unfold effect, vm_ok. rewrite Hp'. split_and!.
  - eapply (caches_ok_detached s _ p pg (freed pg)); try done. apply (proj2 Hco p pg Hp).
  - done.
  - rewrite <- size_dom, Hdom, size_dom. done.
  - by rewrite Hc'.
  - done.
  - intros q x [[<- <-]|[Hne Hq]]%lookup_insert_Some.
    + rewrite decide_True by by apply elem_of_singleton. by left.
    + rewrite decide_False by (intros ->%elem_of_singleton; done). eauto.
Qed.

(** [RemovePage] followed by [vm_page_free_etc(this, page, nullptr)]. *)
Definition remove_and_free c p s : outcome vmstate :=
  s ← RemovePage c p s;
  '(_, s) ← vm_page_free_etc (Some c) p None s;
  Ret s.

Lemma effect_trees_dom F s s' : effect F s s' → dom (caches s') = dom (caches s).
Proof. intros (_ & Hl & _). apply (f_equal dom) in Hl. by rewrite !dom_fmap_L in Hl. Qed.

Lemma remove_and_free_effect c p pg k s U :
  vm_ok s → trees s !! c = Some U → U !! k = Some p → pages s !! p = Some pg → wired_count pg = 0 → mappings pg = [] →
  ∃ s', remove_and_free c p s = Ret s' ∧ effect {[p]} s s' ∧ trees s' = <[c := delete k U]> (trees s).
Proof.
  intros Hok HU Hk Hp Hw Hm. destruct (RemovePage_effect c p k s U Hok HU Hk) as (s1 & pg1 & H1 & He1 & Ht1 & Hp1 & Hr1 & Hnf1).
  unfold remove_and_free. rewrite H1. cbn [mbind outcome_bind].
  pose proof He1 as (Hok1 & _ & _ & Hat). specialize (Hat p pg1 Hp1).
  rewrite decide_False in Hat by apply not_elem_of_empty. destruct Hat as (pg0 & Hp0 & Ha). rewrite Hp in Hp0. injection Hp0 as <-.
  destruct (attr_fields pg pg1 Ha) as (_ & Hw1 & Hm1 & _).
  destruct (vm_page_free_etc_effect c p pg1 s1) as (s2 & H2 & He2 & Hc2); [done| |done|split_and!; congruence|].
  { apply elem_of_dom. rewrite (effect_trees_dom _ _ _ He1). apply lookup_trees in HU as (C & ? & _). apply elem_of_dom. eauto. }
  exists s2. rewrite H2. split; [done|]. split.
  - rewrite <- (union_empty_l_L {[p]}). by eapply effect_trans.
  - rewrite <- Ht1. unfold trees. by rewrite Hc2.
Qed.
End effects.
