(* ===== verification/AnonymousCache.v ===== *)
(** cache/mm_anonymous_cache.cpp: the swap slots of anonymous caches and the
    merging of a cache with its only consumer.

    [sSwapHashTable] holds blocks of 32 swap slots, keyed by the cache and the
    page index with its low bits cleared (as [SwapHashTableDefinition]
    compares keys); [BOpenHashTable] itself is not part of the repository and
    is a finite map here.  A block reached through a pointer is the block the
    table holds under its key.  Callers hold the locks of the caches involved;
    other threads only change the blocks of other caches. *)
From S2P Require Import Prelude VMState PageQueue CachePages PageAlloc MemoryCommit SwapSpace CacheEffects.
From stdpp Require Import base list list_numbers numbers gmap sorting.
From Stdlib Require Import ZArith Lia.
Local Open Scope Z_scope.

Definition SWAP_BLOCK_PAGES : Z := 32.
Definition SWAP_BLOCK_SHIFT : Z := 5.
Definition SWAP_BLOCK_MASK : Z := SWAP_BLOCK_PAGES - 1.

Record swap_block := mkBlock { used : Z; swap_slots : list Z }.
#[export] Instance eta_swap_block : Eta swap_block := fun b => mkBlock (used b) (swap_slots b).

Abbreviation table := (gmap (Z * Z) swap_block).

Section ops.
Context {DL : DLList Z} {RB : RadixBitmap}.
Variable SECONDS : Z → Z.

(** The anonymous caches among [caches (vm s)] are those with an entry in [anons]. *)
Record astate := mkAState {
  vm : vmstate;
  anons : gmap Z anon;
  sSwapHashTable : table;
  swapfiles : swap;
  mem : memory
}.
#[global] Instance eta_astate : Eta astate := fun s =>
  mkAState (vm s) (anons s) (sSwapHashTable s) (swapfiles s) (mem s).

Implicit Types (s : astate) (t : table) (c src : Z) (b : swap_block).

(** [SwapHashTableDefinition::Compare] and the index within a block. *)
Definition block_key c (pageIndex : Z) : Z * Z := (c, Z.land pageIndex (Z.lnot SWAP_BLOCK_MASK)).
Definition block_index (pageIndex : Z) : nat := Z.to_nat (Z.land pageIndex SWAP_BLOCK_MASK).

Definition slot_at b (i : nat) : Z := default SWAP_SLOT_NONE (swap_slots b !! i).

(** A new block. *)
Definition block_new : swap_block := mkBlock 0 (replicate (Z.to_nat SWAP_BLOCK_PAGES) SWAP_SLOT_NONE).

(** Writes [v 0], [v 1], ... to [n] slots from [i] on. *)
Definition fill (n i : nat) (v : nat → Z) (l : list Z) : list Z :=
  foldl (fun l k => <[(i + k)%nat := v k]> l) l (seq 0 n).

(** ** Looking slots up, adding and freeing them *)

Definition _SwapBlockGetAddress c (pageIndex : Z) t : Z :=
  match t !! block_key c pageIndex with
  | None => SWAP_SLOT_NONE
  | Some b => slot_at b (block_index pageIndex)
  end.

Definition HasPage c (offset : Z) t : bool :=
  negb (_SwapBlockGetAddress c (Z.shiftr offset PAGE_SHIFT) t =? SWAP_SLOT_NONE).

(** The inner loop of [_SwapBlockBuild]: each element of [failures] stands for
    a failed allocation and what other threads did while the lock was given up. *)
Fixpoint find_or_add (failures : list (table → table)) (key : Z * Z) t : table :=
  match t !! key with
  | Some _ => t
  | None =>
      match failures with
      | [] => <[key := block_new]> t
      | others :: failures => find_or_add failures key (others t)
      end
  end.

Fixpoint build_loop (fuel : nat) (failures : Z → list (table → table)) c (startPageIndex startSlotIndex count i : Z) t
  : outcome table :=
  if i <? count then
    match fuel with
    | O => NoFuel
    | S fuel =>
        let pageIndex := startPageIndex + i in
        let slotIndex := u32 (startSlotIndex + i) in
        let key := block_key c pageIndex in
        let t := find_or_add (failures i) key t in
        b ← deref (t !! key);
        let j := Z.min (SWAP_BLOCK_PAGES - Z.of_nat (block_index pageIndex)) (count - i) in
        let b := mkBlock (u32 (used b + j))
                   (fill (Z.to_nat j) (block_index pageIndex) (fun k => u32 (slotIndex + Z.of_nat k)) (swap_slots b)) in
        build_loop fuel failures c startPageIndex startSlotIndex count (i + j) (<[key := b]> t)
    end
  else Ret t.

Definition _SwapBlockBuild (failures : Z → list (table → table)) c (startPageIndex startSlotIndex count : Z) t
  : outcome table :=
  build_loop (Z.to_nat count) failures c startPageIndex startSlotIndex count 0 t.

Fixpoint free_loop (fuel : nat) c (startPageIndex count i : Z) t : outcome table :=
  if i <? count then
    match fuel with
    | O => NoFuel
    | S fuel =>
        let pageIndex := startPageIndex + i in
        let key := block_key c pageIndex in
        b ← deref (t !! key);
        let j := Z.min (SWAP_BLOCK_PAGES - Z.of_nat (block_index pageIndex)) (count - i) in
        let b := mkBlock (u32 (used b - j))
                   (fill (Z.to_nat j) (block_index pageIndex) (fun _ => SWAP_SLOT_NONE) (swap_slots b)) in
        free_loop fuel c startPageIndex count (i + j)
          (if used b =? 0 then delete key t else <[key := b]> t)
    end
  else Ret t.

Definition _SwapBlockFree c (startPageIndex count : Z) t : outcome table :=
  free_loop (Z.to_nat count) c startPageIndex count 0 t.

(** ** Freeing the swap slots of a range of pages *)

Definition upd_anon c (f : anon → anon) s : astate := s <| anons ::= alter f c |>.

Definition add_allocated (n : Z) (a : anon) : anon := a <| allocated_swap_size ::= fun x => x + n |>.

Definition page_is_busy c (pageIndex : Z) s : outcome bool :=
  o ← LookupPage c (pageIndex * PAGE_SIZE) (vm s);
  match o with
  | None => Ret false
  | Some p => pg ← deref (pages (vm s) !! p); Ret (busy pg)
  end.

Fixpoint free_range_loop (fuel : nat) c (skipBusyPages : bool) (toIndex pageIndex : Z) (swapBlock : option (Z * Z)) s
  : outcome astate :=
  a ← deref (anons s !! c);
  if (pageIndex <? toIndex) && (0 <? allocated_swap_size a) then
    match fuel with
    | O => NoFuel
    | S fuel =>
        let blockIndex := block_index pageIndex in
        let swapBlock :=
          if bool_decide (swapBlock = None) || (blockIndex =? 0)%nat then
            (if sSwapHashTable s !! block_key c pageIndex then Some (block_key c pageIndex) else None)
          else swapBlock in
        let continue := free_range_loop fuel c skipBusyPages toIndex in
        match swapBlock with
        | None => continue (roundup (pageIndex + 1) SWAP_BLOCK_PAGES) None s
        | Some key =>
            b ← deref (sSwapHashTable s !! key);
            let slotIndex := slot_at b blockIndex in
            if slotIndex =? SWAP_SLOT_NONE then continue (pageIndex + 1) (Some key) s
            else
              skip ← (if skipBusyPages then page_is_busy c pageIndex s else Ret false);
              if (skip : bool) then continue (pageIndex + 1) (Some key) s
              else
                w ← swap_slot_dealloc slotIndex 1 (swapfiles s);
                let s := upd_anon c (add_allocated (- PAGE_SIZE)) (s <| swapfiles := w |>) in
                let b := mkBlock (u32 (used b - 1)) (<[blockIndex := SWAP_SLOT_NONE]> (swap_slots b)) in
                if used b =? 0 then
                  continue (roundup (pageIndex + 1) SWAP_BLOCK_PAGES) None (s <| sSwapHashTable ::= delete key |>)
                else continue (pageIndex + 1) (Some key) (s <| sSwapHashTable ::= <[key := b]> |>)
        end
    end
  else Ret s.

Definition _FreeSwapPageRange c (fromOffset toOffset : Z) (skipBusyPages : bool) s : outcome astate :=
  let fromIndex := Z.shiftr fromOffset PAGE_SHIFT in
  let toIndex := Z.shiftr toOffset PAGE_SHIFT in
  free_range_loop (Z.to_nat (toIndex - fromIndex)) c skipBusyPages toIndex fromIndex None s.

(** [swap_free_page_swap_space]. *)
Definition swap_free_page_swap_space (p : Z) s : outcome (bool * astate) :=
  pg ← deref (pages (vm s) !! p);
  match c ← page_Cache (vm s) pg; _ ← anons s !! c; Some c with
  | None => Ret (false, s)
  | Some c =>
      let slotIndex := _SwapBlockGetAddress c (cache_offset pg) (sSwapHashTable s) in
      if slotIndex =? SWAP_SLOT_NONE then Ret (false, s)
      else
        w ← swap_slot_dealloc slotIndex 1 (swapfiles s);
        let s := upd_anon c (add_allocated (- PAGE_SIZE)) (s <| swapfiles := w |>) in
        t ← _SwapBlockFree c (cache_offset pg) 1 (sSwapHashTable s);
        Ret (true, s <| sSwapHashTable := t |>)
  end.

(** ** Merging swap pages *)

(** Removes the source page at an index the consumer has a swap slot for. *)
Definition drop_shadowed src (pageIndex : Z) s : outcome astate :=
  o ← LookupPage src (Z.shiftl pageIndex PAGE_SHIFT) (vm s);
  match o with
  | None => Ret s
  | Some p =>
      pg ← deref (pages (vm s) !! p);
      _ ← assert (negb (busy pg));
      v ← remove_and_free src p (vm s);
      Ret (s <| vm := v |>)
  end.

Fixpoint drop_all src (swapBlockPageIndex : Z) b (ks : list nat) s : outcome astate :=
  match ks with
  | [] => Ret s
  | i :: ks =>
      s ← (if slot_at b i =? SWAP_SLOT_NONE then Ret s
           else drop_shadowed src (swapBlockPageIndex + Z.of_nat i) s);
      drop_all src swapBlockPageIndex b ks s
  end.

(** The loop that frees the source slots the consumer does not need. *)
Fixpoint free_unneeded c src (swapBlockPageIndex : Z) (swapBlock : option swap_block) (ks : list nat)
    (sb : swap_block) s : outcome (swap_block * astate) :=
  match ks with
  | [] => Ret (sb, s)
  | i :: ks =>
      let sourceSlotIndex := slot_at sb i in
      if sourceSlotIndex =? SWAP_SLOT_NONE then free_unneeded c src swapBlockPageIndex swapBlock ks sb s
      else
        o ← LookupPage c (Z.shiftl (swapBlockPageIndex + Z.of_nat i) PAGE_SHIFT) (vm s);
        '(sb, s) ←
          (if match swapBlock with Some b => negb (slot_at b i =? SWAP_SLOT_NONE) | None => false end
              || negb (bool_decide (o = None)) then
             w ← swap_slot_dealloc sourceSlotIndex 1 (swapfiles s);
             Ret (mkBlock (u32 (used sb - 1)) (<[i := SWAP_SLOT_NONE]> (swap_slots sb)), s <| swapfiles := w |>)
           else Ret (sb, s));
        free_unneeded c src swapBlockPageIndex swapBlock ks sb (upd_anon src (add_allocated (- PAGE_SIZE)) s)
  end.

Definition block_indices : list nat := seq 0 (Z.to_nat SWAP_BLOCK_PAGES).

(** Copies the slots of the source block into the consumer's block. *)
Definition copy_slots sb b : swap_block :=
  b <| swap_slots ::= fun l =>
    foldl (fun l i => if slot_at sb i =? SWAP_SLOT_NONE then l else <[i := slot_at sb i]> l) l block_indices |>.

Definition merge_swap_block c src (swapBlockPageIndex : Z) s : outcome astate :=
  let key := block_key src swapBlockPageIndex in
  let sourceSwapBlock := sSwapHashTable s !! key in
  let s := s <| sSwapHashTable ::= delete key |> in
  let key := block_key c swapBlockPageIndex in
  let swapBlock := sSwapHashTable s !! key in
  s ← match swapBlock with
      | Some b => drop_all src swapBlockPageIndex b block_indices s
      | None => Ret s
      end;
  match sourceSwapBlock with
  | None => Ret s
  | Some sb =>
      '(sb, s) ← free_unneeded c src swapBlockPageIndex swapBlock block_indices sb s;
      let s := upd_anon c (add_allocated (PAGE_SIZE * used sb)) s in
      if used sb =? 0 then Ret s
      else
        match swapBlock with
        | None => Ret (s <| sSwapHashTable ::= <[key := sb]> |>)
        | Some b => Ret (s <| sSwapHashTable ::= <[key := copy_slots sb b]> |>)
        end
  end.

Fixpoint merge_swap_loop (fuel : nat) c src (virtualEnd offset : Z) s : outcome astate :=
  if offset <? virtualEnd then
    match fuel with
    | O => NoFuel
    | S fuel =>
        s ← merge_swap_block c src (Z.shiftr offset PAGE_SHIFT) s;
        merge_swap_loop fuel c src virtualEnd (offset + PAGE_SIZE * SWAP_BLOCK_PAGES) s
    end
  else Ret s.

Definition _MergeSwapPages c src s : outcome astate :=
  ac ← deref (anons s !! c);
  asrc ← deref (anons s !! src);
  if (allocated_swap_size asrc =? 0) && (allocated_swap_size ac =? 0) then Ret s
  else
    S ← deref (caches (vm s) !! src);
    let first := Z.land (virtual_base S) (Z.lnot (PAGE_SIZE * SWAP_BLOCK_PAGES - 1)) in
    merge_swap_loop (Z.to_nat ((virtual_end S - first) / (PAGE_SIZE * SWAP_BLOCK_PAGES) + 1)) c src (virtual_end S) first s.

(** ** Merging pages *)

(** The offsets of a page tree in the order its iterator yields them. *)
Definition tree_offsets (m : gmap Z Z) : list Z := merge_sort Z.le (map_to_list m).*1.

Fixpoint move_unshadowed c src (os : list Z) (v : vmstate) : outcome vmstate :=
  match os with
  | [] => Ret v
  | o :: os =>
      S ← deref (caches v !! src);
      p ← deref (cpages S !! o);
      pg ← deref (pages v !! p);
      consumerPage ← LookupPage c (Z.shiftl (cache_offset pg) PAGE_SHIFT) v;
      v ← match consumerPage with
          | None => _ ← assert (negb (busy pg)); MovePageSame c p v
          | Some _ => Ret v
          end;
      move_unshadowed c src os v
  end.

Definition _MergePagesSmallerSource c src (v : vmstate) : outcome vmstate :=
  S ← deref (caches v !! src);
  move_unshadowed c src (tree_offsets (cpages S)) v.

Fixpoint move_down c src (os : list Z) (v : vmstate) : outcome vmstate :=
  match os with
  | [] => Ret v
  | o :: os =>
      C ← deref (caches v !! c);
      p ← deref (cpages C !! o);
      pg ← deref (pages v !! p);
      sourcePage ← LookupPage src (Z.shiftl (cache_offset pg) PAGE_SHIFT) v;
      v ← match sourcePage with
          | None => Ret v
          | Some q =>
              qg ← deref (pages v !! q);
              _ ← assert (negb (busy qg));
              _ ← assert (wired_count qg =? 0);
              _ ← assert (bool_decide (mappings qg = []));
              remove_and_free src q v
          end;
      v ← MovePageSame src p v;
      move_down c src os v
  end.

Definition _MergePagesSmallerConsumer c src (v : vmstate) : outcome vmstate :=
  C ← deref (caches v !! c);
  v ← move_down c src (tree_offsets (cpages C)) v;
  MoveAllPages c src v.

(** [VMCache::Merge] of the classes without swap. *)
Fixpoint move_missing c src (os : list Z) (v : vmstate) : outcome vmstate :=
  match os with
  | [] => Ret v
  | o :: os =>
      S ← deref (caches v !! src);
      p ← deref (cpages S !! o);
      pg ← deref (pages v !! p);
      consumerPage ← LookupPage c (Z.shiftl (cache_offset pg) PAGE_SHIFT) v;
      v ← match consumerPage with None => MovePageSame c p v | Some _ => Ret v end;
      move_missing c src os v
  end.

Definition VMCache_Merge c src (v : vmstate) : outcome vmstate :=
  S ← deref (caches v !! src);
  move_missing c src (tree_offsets (cpages S)) v.

(** ** Merge *)

(** A method of [SwapSpace] run on cache [c] of the state. *)
Definition with_commit {R} c (f : cstate anon → outcome (R * cstate anon)) s : outcome (R * astate) :=
  C ← deref (caches (vm s) !! c);
  a ← deref (anons s !! c);
  '(r, cs) ← f (mkCState C a (swapfiles s) (mem s));
  Ret (r, s <| vm ::= set_cache c (base cs) |> <| anons ::= <[c := own cs]> |>
            <| swapfiles := swapspace cs |> <| mem := memory_ cs |>).

Definition take_commitment c src s : outcome astate :=
  a ← deref (anons s !! src);
  S ← deref (caches (vm s) !! src);
  let s := upd_anon c (fun x => x <| committed_swap_size ::= fun n => n + committed_swap_size a |>) s in
  let s := upd_anon src (fun x => x <| committed_swap_size := 0 |>) s in
  let s := s <| vm ::= upd_cache c (fun C => C <| committed_size ::= fun n => n + committed_size S |>) |> in
  Ret (s <| vm ::= upd_cache src (fun C => C <| committed_size := 0 |>) |>).

Definition Merge (e : reserve_env) c src s : outcome astate :=
  s ← take_commitment c src s;
  C ← deref (caches (vm s) !! c);
  let actualSize := virtual_end C - virtual_base C in
  s ← (if actualSize <? committed_size C
       then '(_, s) ← with_commit c (_Commit SECONDS e actualSize GFP_PRIO_USER) s; Ret s
       else Ret s);
  s ← _MergeSwapPages c src s;
  S ← deref (caches (vm s) !! src);
  C ← deref (caches (vm s) !! c);
  v ← (if page_count S <? page_count C then _MergePagesSmallerSource c src (vm s)
       else _MergePagesSmallerConsumer c src (vm s));
  Ret (s <| vm := v |>).
End ops.

(** ** Merging page trees *)

Section pages.
Context {DL : DLList Z}.
Implicit Types (v : vmstate) (c src p o : Z) (T U : gmap Z Z).

Lemma elem_of_tree_offsets (m : gmap Z Z) o : o ∈ tree_offsets m ↔ is_Some (m !! o).
Proof.
  unfold tree_offsets. rewrite merge_sort_Permutation, list_elem_of_fmap. split.
  - intros ([o' p] & -> & Ho%elem_of_map_to_list). eauto.
  - intros [p Hp]. exists (o, p). split; [done|]. by apply elem_of_map_to_list.
Qed.

Lemma NoDup_tree_offsets (m : gmap Z Z) : NoDup (tree_offsets m).
Proof. unfold tree_offsets. rewrite merge_sort_Permutation. apply NoDup_fst_map_to_list. Qed.

(** The pages a tree holds at the given offsets, as the merge loops read them. *)
Lemma read_page v c T o p :
  vm_ok v → trees v !! c = Some T → T !! o = Some p →
  ∃ C pg, caches v !! c = Some C ∧ cpages C = T ∧ pages v !! p = Some pg ∧ cache_offset pg = o.
Proof.
  intros (Hok & _) HT Ho. destruct (tree_page v c T o p Hok HT Ho) as (C & pg & HC & Hp & _ & Hoff & _).
  apply lookup_trees in HT as (C' & HC' & <-). simplify_eq. eauto 6.
Qed.

Lemma MovePageSame_effect c old p o v T U :
  vm_ok v → trees v !! c = Some T → trees v !! old = Some U → old ≠ c → U !! o = Some p → T !! o = None →
  ∃ v', MovePageSame c p v = Ret v' ∧ effect ∅ v v' ∧
    trees v' = <[c := <[o := p]> T]> (<[old := delete o U]> (trees v)).
Proof.
  intros Hok HT HU Hne Hp Ho. destruct (read_page v old U o p Hok HU Hp) as (O & pg & _ & _ & Hpg & Hoff).
  unfold MovePageSame. rewrite Hpg. cbn [deref mbind outcome_bind]. rewrite Hoff. by apply (MovePage_effect c old p o o).
Qed.

(** A page that keeps its attributes keeps what the merge loops look at. *)
Definition not_busy v p : Prop := ∃ pg, pages v !! p = Some pg ∧ busy pg = false.
Definition idle v p : Prop :=
  ∃ pg, pages v !! p = Some pg ∧ busy pg = false ∧ wired_count pg = 0 ∧ mappings pg = [].

Lemma effect_page F v v' p pg :
  effect F v v' → pages v !! p = Some pg → p ∉ F → ∃ pg', pages v' !! p = Some pg' ∧ attr pg' = attr pg.
Proof.
  intros (_ & _ & Hd & Hp) Hpg HF. assert (is_Some (pages v' !! p)) as [pg' Hpg'] by (apply elem_of_dom; rewrite Hd; apply elem_of_dom; eauto).
  exists pg'. split; [done|]. specialize (Hp p pg' Hpg'). rewrite decide_False in Hp by done.
  destruct Hp as (pg0 & Hp0 & Ha). rewrite Hpg in Hp0. by injection Hp0 as <-.
Qed.

Lemma effect_not_busy F v v' p : effect F v v' → p ∉ F → not_busy v p → not_busy v' p.
Proof.
  intros He HF (pg & Hp & Hb). destruct (effect_page F v v' p pg He Hp HF) as (pg' & Hp' & Ha).
  exists pg'. split; [done|]. destruct (attr_fields pg pg' Ha) as (-> & _). done.
Qed.

Lemma effect_idle F v v' p : effect F v v' → p ∉ F → idle v p → idle v' p.
Proof.
  intros He HF (pg & Hp & Hb & Hw & Hm). destruct (effect_page F v v' p pg He Hp HF) as (pg' & Hp' & Ha).
  exists pg'. split; [done|]. destruct (attr_fields pg pg' Ha) as (-> & -> & -> & _). done.
Qed.

Lemma insert_two (M : gmap Z (gmap Z Z)) c src T1 U1 T2 U2 :
  c ≠ src → <[c := T2]> (<[src := U2]> (<[c := T1]> (<[src := U1]> M))) = <[c := T2]> (<[src := U2]> M).
Proof.
  intros Hne. apply map_eq. intros k. rewrite !lookup_insert. by repeat case_decide.
Qed.

Lemma insert_two_id (M : gmap Z (gmap Z Z)) c src T U :
  M !! c = Some T → M !! src = Some U → <[c := T]> (<[src := U]> M) = M.
Proof. intros HT HU. rewrite (insert_id M src U) by done. by apply insert_id. Qed.

Lemma move_unshadowed_ok c src os v T U :
  vm_ok v → c ≠ src → trees v !! c = Some T → trees v !! src = Some U → NoDup os →
  (∀ o, o ∈ os → ∃ p, U !! o = Some p ∧ not_busy v p) →
  ∃ v' T' U', move_unshadowed c src os v = Ret v' ∧ effect ∅ v v' ∧
    trees v' = <[c := T']> (<[src := U']> (trees v)) ∧
    (∀ k, T' !! k = match T !! k with Some p => Some p | None => if decide (k ∈ os) then U !! k else None end) ∧
    (∀ k, U' !! k = if decide (k ∈ os ∧ T !! k = None) then None else U !! k).
Proof.
  intros Hok Hne. revert v T U Hok. induction os as [|o os IH]; intros v T U Hok HT HU Hnd Hos.
  { exists v, T, U. split; [done|]. split; [by apply effect_refl|]. split; [by rewrite insert_two_id|].
    split; intros k; [rewrite decide_False by apply not_elem_of_nil; by destruct (T !! k)|].
    rewrite decide_False; [done|]. intros [[]%elem_of_nil _]. }
  apply NoDup_cons in Hnd as [Hno Hnd]. destruct (Hos o (list_elem_of_here _ _)) as (p & Hp & pg0 & Hpg0 & Hb).
  destruct (read_page v src U o p Hok HU Hp) as (S & pg & HS & HSU & Hpg & Hoff). rewrite Hpg0 in Hpg. injection Hpg as <-.
  cbn [move_unshadowed]. rewrite HS. cbn [deref mbind outcome_bind]. rewrite HSU, Hp. cbn [deref mbind outcome_bind].
  rewrite Hpg0. cbn [deref mbind outcome_bind]. rewrite Hoff, (LookupPage_trees v c T o) by (done || apply Hok).
  cbn [mbind outcome_bind]. destruct (T !! o) as [q|] eqn:Ho.
  - cbn [mbind outcome_bind]. destruct (IH v T U Hok HT HU Hnd) as (v' & T' & U' & H1 & H2 & H3 & H4 & H5).
    { intros o' Ho'. by apply Hos, list_elem_of_further. }
    exists v', T', U'. split_and!; [done..| |].
    + intros k. rewrite H4. destruct (T !! k) eqn:Ek; [done|]. rewrite !(decide_ext (k ∈ o :: os) (k ∈ os)); [done|].
      rewrite elem_of_cons. split; [intros [->|?]; [congruence|done]|by right].
    + intros k. rewrite H5. apply decide_ext. rewrite elem_of_cons. split; [intros [? ?]; auto|].
      intros [[->|?] ?]; [congruence|done].
  - rewrite Hb. cbn [negb assert mbind outcome_bind].
    destruct (MovePageSame_effect c src p o v T U) as (v1 & -> & He1 & Ht1); [done|done|done|by apply not_eq_sym|done|done|].
    cbn [mbind outcome_bind]. pose proof He1 as (Hok1 & _).
    destruct (IH v1 (<[o := p]> T) (delete o U) Hok1) as (v' & T' & U' & H1 & H2 & H3 & H4 & H5).
    { by rewrite Ht1, lookup_insert_eq. }
    { by rewrite Ht1, lookup_insert_ne, lookup_insert_eq. }
    { done. }
    { intros o' Ho'. destruct (Hos o') as (p' & Hp' & Hb'); [by apply list_elem_of_further|].
      exists p'. rewrite lookup_delete_ne by (intros ->; done). split; [done|].
      eapply effect_not_busy; [exact He1|apply not_elem_of_empty|done]. }
    exists v', T', U'. split_and!; [done| | | |].
    + rewrite <- (union_empty_l_L ∅). by eapply effect_trans.
    + by rewrite H3, Ht1, insert_two.
    + intros k. rewrite H4. destruct (decide (k = o)) as [->|Hk].
      * rewrite lookup_insert_eq, Ho, decide_True by apply list_elem_of_here. done.
      * rewrite lookup_insert_ne, lookup_delete_ne by done. destruct (T !! k); [done|].
        apply decide_ext. rewrite elem_of_cons. split; [by right|intros [?|?]; done].
    + intros k. rewrite H5. destruct (decide (k = o)) as [->|Hk].
      * rewrite lookup_insert_eq, lookup_delete_eq.
        rewrite (decide_True (P := o ∈ o :: os ∧ T !! o = None)) by (split; [apply list_elem_of_here|done]). by case_decide.
      * rewrite lookup_insert_ne, lookup_delete_ne by done. apply decide_ext. rewrite elem_of_cons.
        split; [intros [? ?]; auto|intros [[?|?] ?]; done].
Qed.

(** Without busy pages the assertion of the loop is the only difference to
    [VMCache::Merge]. *)
Lemma move_missing_same c src os v v' :
  move_unshadowed c src os v = Ret v' → move_missing c src os v = Ret v'.
Proof.
  revert v. induction os as [|o os IH]; intros v; cbn [move_unshadowed move_missing]; [done|].
  destruct (caches v !! src) as [S|]; [|done]. cbn [deref mbind outcome_bind].
  destruct (cpages S !! o) as [p|]; [|done]. cbn [deref mbind outcome_bind].
  destruct (pages v !! p) as [pg|]; [|done]. cbn [deref mbind outcome_bind].
  destruct (LookupPage c _ v) as [[q|]| |]; cbn [mbind outcome_bind]; [by apply IH| |done..].
  destruct (busy pg); cbn [negb assert mbind outcome_bind]; [done|].
  destruct (MovePageSame c p v) as [v1| |]; cbn [mbind outcome_bind]; [by apply IH|done..].
Qed.

(** Freeing the source page at an offset, if there is one. *)
Lemma drop_page_ok src v U o :
  vm_ok v → trees v !! src = Some U → (∀ q, U !! o = Some q → idle v q) →
  ∃ v', match U !! o with
        | None => Ret v
        | Some q =>
            qg ← deref (pages v !! q);
            _ ← assert (negb (busy qg));
            _ ← assert (wired_count qg =? 0);
            _ ← assert (bool_decide (mappings qg = []));
            remove_and_free src q v
        end = Ret v' ∧
    effect (match U !! o with Some q => {[q]} | None => ∅ end) v v' ∧ trees v' = <[src := delete o U]> (trees v).
Proof.
  intros Hok HU Hid. destruct (U !! o) as [q|] eqn:Ho.
  - destruct (Hid q eq_refl) as (qg & Hq & Hb & Hw & Hm). rewrite Hq. cbn [deref mbind outcome_bind].
    rewrite Hb, Hw, bool_decide_eq_true_2 by done. cbn [negb assert mbind outcome_bind Z.eqb].
    by apply (remove_and_free_effect src q qg o).
  - exists v. split; [done|]. split; [by apply effect_refl|]. by rewrite delete_id, insert_id.
Qed.

Definition shadowed_pages (U : gmap Z Z) (os : list Z) : gset Z := list_to_set (omap (U !!.) os).

Lemma elem_of_shadowed U os q : q ∈ shadowed_pages U os ↔ ∃ o, o ∈ os ∧ U !! o = Some q.
Proof. unfold shadowed_pages. by rewrite elem_of_list_to_set, list_elem_of_omap. Qed.

Lemma move_down_ok c src os v T U :
  vm_ok v → c ≠ src → trees v !! c = Some T → trees v !! src = Some U → NoDup os →
  (∀ o, o ∈ os → is_Some (T !! o) ∧ ∀ q, U !! o = Some q → idle v q) →
  ∃ v' T' U', move_down c src os v = Ret v' ∧ effect (shadowed_pages U os) v v' ∧
    trees v' = <[c := T']> (<[src := U']> (trees v)) ∧
    (∀ k, T' !! k = if decide (k ∈ os) then None else T !! k) ∧
    (∀ k, U' !! k = if decide (k ∈ os) then T !! k else U !! k).
Proof.
  intros Hok Hne. revert v T U Hok. induction os as [|o os IH]; intros v T U Hok HT HU Hnd Hos.
  { exists v, T, U. split; [done|]. split; [by apply effect_refl|]. split; [by rewrite insert_two_id|].
    split; intros k; by rewrite decide_False by apply not_elem_of_nil. }
  apply NoDup_cons in Hnd as [Hno Hnd]. destruct (Hos o (list_elem_of_here _ _)) as ([p Hp] & Hid).
  destruct (read_page v c T o p Hok HT Hp) as (C & pg & HC & HCT & Hpg & Hoff).
  cbn [move_down]. rewrite HC. cbn [deref mbind outcome_bind]. rewrite HCT, Hp. cbn [deref mbind outcome_bind].
  rewrite Hpg. cbn [deref mbind outcome_bind]. rewrite Hoff, (LookupPage_trees v src U o) by (done || apply Hok).
  cbn [mbind outcome_bind]. destruct (drop_page_ok src v U o Hok HU Hid) as (v1 & -> & He1 & Ht1).
  cbn [mbind outcome_bind]. pose proof He1 as (Hok1 & _).
  destruct (MovePageSame_effect src c p o v1 (delete o U) T) as (v2 & -> & He2 & Ht2);
    [done|by rewrite Ht1, lookup_insert_eq|by rewrite Ht1, lookup_insert_ne by done|done|done|apply lookup_delete_eq|].
  cbn [mbind outcome_bind]. pose proof He2 as (Hok2 & _).
  assert (trees v2 = <[c := delete o T]> (<[src := <[o := p]> U]> (trees v))) as Ht2'.
  { rewrite Ht2, Ht1, insert_delete_eq. apply map_eq. intros k. rewrite !lookup_insert. repeat case_decide; congruence. }
  destruct (IH v2 (delete o T) (<[o := p]> U) Hok2) as (v' & T' & U' & H1 & H2 & H3 & H4 & H5).
  { by rewrite Ht2', lookup_insert_eq. }
  { by rewrite Ht2', lookup_insert_ne, lookup_insert_eq. }
  { done. }
  { intros o' Ho'. destruct (Hos o') as (Hs & Hid'); [by apply list_elem_of_further|].
    assert (o ≠ o') as Hoo by (intros ->; done). rewrite lookup_delete_ne, lookup_insert_ne by done. split; [done|].
    intros q Hq. eapply effect_idle; [exact He2|apply not_elem_of_empty|].
    eapply effect_idle; [exact He1| |by apply Hid']. destruct (U !! o) as [q0|] eqn:Eq0; [|apply not_elem_of_empty].
    intros ->%elem_of_singleton. by destruct (tree_inj v src src U U o o' q0) as [_ ?]; [apply Hok|..]. }
  exists v', T', U'. split_and!; [done| | | |].
  - replace (shadowed_pages U (o :: os)) with ((match U !! o with Some q => {[q]} | None => ∅ end ∪ ∅) ∪ shadowed_pages (<[o := p]> U) os).
    + eapply effect_trans; [by eapply effect_trans|exact H2].
    + apply set_eq. intros q. rewrite !elem_of_union, !elem_of_shadowed. split.
      * intros [[Hq|[]%not_elem_of_empty]|(o' & Ho' & Hq)].
        -- exists o. split; [apply list_elem_of_here|]. destruct (U !! o); [|by apply not_elem_of_empty in Hq].
           apply elem_of_singleton in Hq. congruence.
        -- rewrite lookup_insert_ne in Hq by (intros ->; done). exists o'. split; [by apply list_elem_of_further|done].
      * intros (o' & [->|Ho']%elem_of_cons & Hq); [left; left; rewrite Hq; by apply elem_of_singleton|].
        right. exists o'. rewrite lookup_insert_ne by (intros ->; done). done.
  - by rewrite H3, Ht2', insert_two.
  - intros k. rewrite H4. destruct (decide (k = o)) as [->|Hk].
    + rewrite lookup_delete_eq, (decide_True (P := o ∈ o :: os)) by apply list_elem_of_here. by case_decide.
    + rewrite lookup_delete_ne by done. apply decide_ext. rewrite elem_of_cons. split; [by right|intros [?|?]; done].
  - intros k. rewrite H5. destruct (decide (k = o)) as [->|Hk].
    + rewrite lookup_insert_eq, decide_False by done.
      rewrite decide_True by apply list_elem_of_here. done.
    + rewrite lookup_delete_ne, lookup_insert_ne by done. apply decide_ext. rewrite elem_of_cons. split; [by right|intros [?|?]; done].
Qed.

Lemma union_lookup (T U : gmap Z Z) k : (T ∪ U) !! k = match T !! k with Some p => Some p | None => U !! k end.
Proof. rewrite lookup_union. by destruct (T !! k), (U !! k). Qed.

(** The source pages that the consumer does not see. *)
Definition shadowed T U : gmap Z Z := filter (fun kp => is_Some (T !! kp.1)) U.

Lemma merge_smaller_source c src v T U :
  vm_ok v → c ≠ src → trees v !! c = Some T → trees v !! src = Some U → (∀ o p, U !! o = Some p → not_busy v p) →
  ∃ v', _MergePagesSmallerSource c src v = Ret v' ∧ VMCache_Merge c src v = Ret v' ∧ effect ∅ v v' ∧
    trees v' = <[c := T ∪ U]> (<[src := shadowed T U]> (trees v)).
Proof.
  intros Hok Hne HT HU Hb. pose proof HU as (S & HS & HSU)%lookup_trees.
  destruct (move_unshadowed_ok c src (tree_offsets U) v T U) as (v' & T' & U' & H1 & H2 & H3 & H4 & H5);
    [done..|apply NoDup_tree_offsets| |].
  { intros o [p Hp]%elem_of_tree_offsets. eauto. }
  exists v'. unfold _MergePagesSmallerSource, VMCache_Merge. rewrite HS. cbn [deref mbind outcome_bind]. rewrite HSU.
  split_and!; [done|by apply move_missing_same|done|]. rewrite H3. f_equal; [|f_equal]; apply map_eq; intros k.
  - rewrite H4, union_lookup. destruct (T !! k); [done|]. case_decide as Hk; [done|].
    destruct (U !! k) eqn:E; [|done]. exfalso. apply Hk, elem_of_tree_offsets. eauto.
  - rewrite H5. unfold shadowed. destruct (U !! k) as [p|] eqn:E.
    + destruct (T !! k) as [q|] eqn:Et.
      * rewrite decide_False by (intros [_ ?]; done). symmetry. apply map_lookup_filter_Some. split; [done|]. cbn. rewrite Et. eauto.
      * rewrite decide_True by (split; [apply elem_of_tree_offsets; eauto|done]). symmetry.
        apply map_lookup_filter_None. right. intros x _. cbn. rewrite Et. by intros [? ?].
    + rewrite decide_False by (intros [Hk _]; apply elem_of_tree_offsets in Hk as [? ?]; congruence).
      symmetry. apply map_lookup_filter_None. by left.
Qed.

Lemma merge_smaller_consumer c src v T U :
  vm_ok v → c ≠ src → trees v !! c = Some T → trees v !! src = Some U →
  (∀ o p q, T !! o = Some q → U !! o = Some p → idle v p) →
  ∃ v', _MergePagesSmallerConsumer c src v = Ret v' ∧ effect (shadowed_pages U (tree_offsets T)) v v' ∧
    trees v' = <[c := T ∪ U]> (<[src := ∅]> (trees v)).
Proof.
  intros Hok Hne HT HU Hid. pose proof HT as (C & HC & HCT)%lookup_trees.
  destruct (move_down_ok c src (tree_offsets T) v T U) as (v1 & T' & U' & H1 & H2 & H3 & H4 & H5);
    [done..|apply NoDup_tree_offsets| |].
  { intros o [q Hq]%elem_of_tree_offsets. split; [eauto|]. intros p Hp. by eapply Hid. }
  pose proof H2 as (Hok1 & _).
  assert (T' = ∅) as HT'.
  { apply map_empty. intros k. rewrite H4. case_decide as Hk; [done|]. destruct (T !! k) eqn:E; [|done].
    exfalso. apply Hk, elem_of_tree_offsets. eauto. }
  destruct (MoveAllPages_effect c src v1 T' U') as (v2 & E2 & He2 & Ht2); [done| | |done|done|].
  { by rewrite H3, lookup_insert_eq. }
  { by rewrite H3, lookup_insert_ne, lookup_insert_eq. }
  exists v2. unfold _MergePagesSmallerConsumer. rewrite HC. cbn [deref mbind outcome_bind]. rewrite HCT, H1.
  cbn [mbind outcome_bind]. split; [done|]. split.
  - rewrite <- (union_empty_r_L (shadowed_pages U (tree_offsets T))). by eapply effect_trans.
  - assert (U' = T ∪ U) as ->.
    { apply map_eq. intros k. rewrite H5, union_lookup. case_decide as Hk.
      - apply elem_of_tree_offsets in Hk as [q ->]. done.
      - destruct (T !! k) eqn:E; [|done]. exfalso. apply Hk, elem_of_tree_offsets. eauto. }
    rewrite Ht2, H3. apply map_eq. intros k. rewrite !lookup_insert. repeat case_decide; congruence.
Qed.
End pages.

(** ** Blocks of slots *)

Section blocks.
Context {RB : RadixBitmap}.
Implicit Types (t : table) (b : swap_block) (c i : Z).

Lemma block_key_eq c i : block_key c i = (c, 32 * (i / 32)).
Proof.
  unfold block_key, SWAP_BLOCK_MASK, SWAP_BLOCK_PAGES. f_equal. change (32 - 1) with (Z.ones 5).
  rewrite <- Z.ldiff_land, Z.ldiff_ones_r by done. rewrite Z.shiftr_div_pow2, Z.shiftl_mul_pow2 by done.
  change (2 ^ 5) with 32. lia.
Qed.

Lemma block_index_eq i : Z.of_nat (block_index i) = i mod 32.
Proof.
  unfold block_index, SWAP_BLOCK_MASK, SWAP_BLOCK_PAGES. change (32 - 1) with (Z.ones 5).
  rewrite Z.land_ones by done. change (2 ^ 5) with 32. pose proof (Z.mod_pos_bound i 32). lia.
Qed.

Lemma block_index_lt i : (block_index i < 32)%nat.
Proof. pose proof (block_index_eq i). pose proof (Z.mod_pos_bound i 32). lia. Qed.

(** Indices inside the block that starts at [idx]. *)
Definition in_block (idx i : Z) : Prop := idx <= i < idx + 32.
#[global] Instance in_block_dec idx i : Decision (in_block idx i).
Proof. unfold in_block. apply _. Defined.

Lemma in_block_key c idx i : (32 | idx) → in_block idx i → block_key c i = (c, idx).
Proof. intros [k ->] Hi. rewrite block_key_eq. unfold in_block in Hi. f_equal. zlia. Qed.

Lemma in_block_index idx i : (32 | idx) → in_block idx i → idx + Z.of_nat (block_index i) = i.
Proof. intros [k ->] Hi. rewrite block_index_eq. unfold in_block in Hi. zlia. Qed.

Lemma not_in_block_key c idx i : (32 | idx) → ¬ in_block idx i → block_key c i ≠ (c, idx).
Proof. intros [k ->] Hi. rewrite block_key_eq. unfold in_block in Hi. intros [= E]. zlia. Qed.

Lemma block_self c idx : (32 | idx) → block_key c idx = (c, idx).
Proof. intros H. apply in_block_key; [done|]. unfold in_block. lia. Qed.

Lemma block_at idx (k : nat) : (32 | idx) → (k < 32)%nat → in_block idx (idx + Z.of_nat k) ∧ block_index (idx + Z.of_nat k) = k.
Proof.
  intros H Hk. assert (in_block idx (idx + Z.of_nat k)) as Hi by (unfold in_block; lia). split; [done|].
  pose proof (in_block_index idx _ H Hi). lia.
Qed.

(** Number of slots of a block in use. *)
Definition nslots b : nat := length (filter (fun v => v ≠ SWAP_SLOT_NONE) (swap_slots b)).

Definition block_ok b : Prop := length (swap_slots b) = 32%nat.
Definition used_exact b : Prop := used b = Z.of_nat (nslots b).

Lemma nslots_le b : block_ok b → (nslots b <= 32)%nat.
Proof. intros <-. unfold nslots. apply length_filter. Qed.

Lemma slot_at_lookup b k : block_ok b → (k < 32)%nat → swap_slots b !! k = Some (slot_at b k).
Proof.
  intros Hb Hk. unfold slot_at. destruct (lookup_lt_is_Some_2 (swap_slots b) k) as [v ->]; [by rewrite Hb|done].
Qed.

Lemma slot_at_insert b k k' v :
  block_ok b → (k < 32)%nat → slot_at (mkBlock (used b) (<[k := v]> (swap_slots b))) k' = if decide (k = k') then v else slot_at b k'.
Proof.
  intros Hb Hk. unfold slot_at. cbn. case_decide; subst.
  - rewrite list_lookup_insert_eq; [done|by rewrite Hb].
  - by rewrite list_lookup_insert_ne.
Qed.

Lemma slot_at_used n n' l k : slot_at (mkBlock n l) k = slot_at (mkBlock n' l) k.
Proof. done. Qed.

Lemma length_filter_insert (P : Z → Prop) `{∀ x, Decision (P x)} (l : list Z) k x y :
  l !! k = Some x →
  Z.of_nat (length (filter P (<[k := y]> l))) =
    Z.of_nat (length (filter P l)) - (if decide (P x) then 1 else 0) + (if decide (P y) then 1 else 0).
Proof.
  intros Hk. rewrite insert_take_drop by by eapply lookup_lt_Some.
  rewrite <- (take_drop_middle l k x Hk) at 3. rewrite !filter_app, !length_app. cbn.
  destruct (decide (P x)), (decide (P y)); cbn; lia.
Qed.

(** ** Slots by cache and page index *)

Definition addr t c i : Z := _SwapBlockGetAddress c i t.

Definition table_ok t : Prop := ∀ k b, t !! k = Some b → block_ok b ∧ (32 | k.2).

Lemma addr_block t c idx i b :
  (32 | idx) → in_block idx i → t !! (c, idx) = Some b → addr t c i = slot_at b (block_index i).
Proof. intros Hd Hi Hb. unfold addr, _SwapBlockGetAddress. by rewrite (in_block_key c idx i Hd Hi), Hb. Qed.

Lemma addr_no_block t c idx i : (32 | idx) → in_block idx i → t !! (c, idx) = None → addr t c i = SWAP_SLOT_NONE.
Proof. intros Hd Hi Hb. unfold addr, _SwapBlockGetAddress. by rewrite (in_block_key c idx i Hd Hi), Hb. Qed.

(** Changing one block changes the slots inside it. *)
Lemma addr_insert t c idx b d i :
  (32 | idx) → d ≠ c ∨ ¬ in_block idx i → addr (<[(c, idx) := b]> t) d i = addr t d i.
Proof.
  intros Hd Hn. unfold addr, _SwapBlockGetAddress. rewrite lookup_insert_ne; [done|].
  destruct Hn as [Hn|Hn]; [rewrite block_key_eq; congruence|]. intros E.
  destruct (decide (d = c)) as [->|]; [|rewrite block_key_eq in E; congruence]. by apply (not_in_block_key c idx i Hd Hn).
Qed.

Lemma addr_delete t c idx d i :
  (32 | idx) → addr (delete (c, idx) t) d i = if decide (d = c ∧ in_block idx i) then SWAP_SLOT_NONE else addr t d i.
Proof.
  intros Hd. unfold addr, _SwapBlockGetAddress. case_decide as Hc.
  - destruct Hc as [-> Hi]. by rewrite (in_block_key c idx i Hd Hi), lookup_delete_eq.
  - rewrite lookup_delete_ne; [done|]. intros E. apply Hc.
    assert (d = c) as -> by (rewrite block_key_eq in E; congruence). split; [done|].
    destruct (decide (in_block idx i)) as [|Hn]; [done|]. by apply (not_in_block_key c idx i Hd) in Hn.
Qed.

(** ** Counting the slots of a cache *)

Definition swapped t c : Z := msum (fun b => Z.of_nat (nslots b)) (filter (fun kb => kb.1.1 = c) t).

Lemma swapped_insert t c idx b d :
  t !! (c, idx) = None →
  swapped (<[(c, idx) := b]> t) d = swapped t d + (if decide (d = c) then Z.of_nat (nslots b) else 0).
Proof.
  intros Ht. unfold swapped. case_decide as Hd.
  - subst d. rewrite map_filter_insert_True, msum_insert by (done || (apply map_lookup_filter_None; by left)). lia.
  - rewrite map_filter_insert_False, delete_id by done. lia.
Qed.

Lemma swapped_delete t c idx b d :
  t !! (c, idx) = Some b →
  swapped (delete (c, idx) t) d = swapped t d - (if decide (d = c) then Z.of_nat (nslots b) else 0).
Proof.
  intros Ht. rewrite <- (insert_delete_id t (c, idx) b Ht) at 2.
  rewrite swapped_insert by apply lookup_delete_eq. lia.
Qed.

Lemma swapped_update t c idx b b' d :
  t !! (c, idx) = Some b →
  swapped (<[(c, idx) := b']> t) d = swapped t d + (if decide (d = c) then Z.of_nat (nslots b') - Z.of_nat (nslots b) else 0).
Proof.
  intros Ht. rewrite <- insert_delete_eq, swapped_insert by apply lookup_delete_eq.
  rewrite (swapped_delete t c idx b d Ht). case_decide; lia.
Qed.

Lemma nslots_pos b k : slot_at b k ≠ SWAP_SLOT_NONE → (0 < nslots b)%nat.
Proof.
  unfold slot_at, nslots. destruct (swap_slots b !! k) as [v|] eqn:E; [|done]. cbn. intros Hv.
  assert (v ∈ filter (fun v => v ≠ SWAP_SLOT_NONE) (swap_slots b)) as Hin
    by (apply list_elem_of_filter; split; [done|by eapply list_elem_of_lookup_2]).
  destruct (filter _ _); [by apply elem_of_nil in Hin|cbn; lia].
Qed.

Lemma swapped_zero t c i : swapped t c <= 0 → addr t c i = SWAP_SLOT_NONE.
Proof.
  intros H0. unfold addr, _SwapBlockGetAddress. destruct (t !! block_key c i) as [b|] eqn:Eb; [|done].
  destruct (decide (slot_at b (block_index i) = SWAP_SLOT_NONE)) as [|Hn]; [done|]. apply nslots_pos in Hn.
  assert (filter (fun kb : Z * Z * swap_block => kb.1.1 = c) t !! block_key c i = Some b) as Hl
    by (apply map_lookup_filter_Some; split; [done|by rewrite block_key_eq]).
  apply (msum_elem (fun b => Z.of_nat (nslots b))) in Hl; [|intros; lia]. unfold swapped in H0. lia.
Qed.

Lemma swapped_nonneg t c : 0 <= swapped t c.
Proof. apply msum_nonneg. intros. lia. Qed.

(** ** The slots in the table are the slots in use *)

Definition slots_ok t (w : swap) : Prop :=
  files_ok w ∧ (∀ c i, addr t c i ≠ SWAP_SLOT_NONE → slot_used w (addr t c i)) ∧
  (∀ c i c' i', addr t c i ≠ SWAP_SLOT_NONE → addr t c i = addr t c' i' → c = c' ∧ i = i').

(** The slots that some cache refers to, and the slots in use that none does. *)
Definition recorded t (v : Z) : Prop := ∃ c i, addr t c i = v ∧ v ≠ SWAP_SLOT_NONE.
Definition stray t (w : swap) (v : Z) : Prop := slot_used w v ∧ ¬ recorded t v.

Lemma slots_ok_ext t t' w : (∀ c i, addr t' c i = addr t c i) → slots_ok t w → slots_ok t' w.
Proof.
  intros He (Hf & Hu & Hi). split_and!; [done|intros c i; rewrite He; apply Hu|].
  intros c i c' i'. rewrite !He. apply Hi.
Qed.

Lemma dealloc_one w v :
  files_ok w → slot_used w v →
  ∃ w', swap_slot_dealloc v 1 w = Ret w' ∧ files_ok w' ∧ sAvailSwapSpace w' = sAvailSwapSpace w ∧
    ∀ i, slot_used w' i ↔ slot_used w i ∧ i ≠ v.
Proof.
  intros Hok Hu. pose proof Hu as (f & (l1 & l2 & Hl)%list_elem_of_split & Hr & _).
  destruct (swap_slot_dealloc_ok 1 w l1 f l2 v Hok) as (w' & H1 & H2 & H3 & H4); [done|done|lia|lia| |].
  { intros i Hi. unfold run in Hi. by replace i with v by lia. }
  exists w'. split_and!; [done..|]. intros i. rewrite H4. unfold run. split; intros [? ?]; (split; [done|lia]).
Qed.

(** Freeing one slot of a block of the table. *)
Definition clear_slot b (k : nat) (n : Z) : swap_block := mkBlock n (<[k := SWAP_SLOT_NONE]> (swap_slots b)).

Lemma clear_slot_at b k n k' :
  block_ok b → (k < 32)%nat → slot_at (clear_slot b k n) k' = if decide (k = k') then SWAP_SLOT_NONE else slot_at b k'.
Proof. intros Hb Hk. rewrite <- slot_at_insert by done. done. Qed.

Lemma clear_slot_ok b k n : block_ok b → block_ok (clear_slot b k n).
Proof. intros Hb. unfold block_ok, clear_slot. cbn. by rewrite length_insert. Qed.

Lemma clear_slot_nslots b k n :
  block_ok b → (k < 32)%nat → slot_at b k ≠ SWAP_SLOT_NONE →
  Z.of_nat (nslots (clear_slot b k n)) = Z.of_nat (nslots b) - 1.
Proof.
  intros Hb Hk Hs. unfold nslots, clear_slot. cbn.
  rewrite (length_filter_insert _ _ _ (slot_at b k)) by by apply slot_at_lookup.
  rewrite decide_True by done. rewrite decide_False by (intros H; done). lia.
Qed.

Lemma addr_update t c idx b b' d i :
  (32 | idx) → t !! (c, idx) = Some b →
  addr (<[(c, idx) := b']> t) d i =
    if decide (d = c ∧ in_block idx i) then slot_at b' (block_index i) else addr t d i.
Proof.
  intros Hd Hb. case_decide as Hc.
  - destruct Hc as [-> Hi]. eapply addr_block; [done..|apply lookup_insert_eq].
  - apply addr_insert; [done|]. destruct (decide (d = c)); [right; tauto|by left].
Qed.

Lemma slots_ok_clear t w c idx b k n :
  slots_ok t w → (32 | idx) → t !! (c, idx) = Some b → block_ok b → (k < 32)%nat → slot_at b k ≠ SWAP_SLOT_NONE →
  ∃ w', swap_slot_dealloc (slot_at b k) 1 w = Ret w' ∧ sAvailSwapSpace w' = sAvailSwapSpace w ∧
    slots_ok (<[(c, idx) := clear_slot b k n]> t) w' ∧
    ∀ v, stray (<[(c, idx) := clear_slot b k n]> t) w' v ↔ stray t w v.
Proof.
  intros (Hf & Hu & Hi) Hd Hb Hbok Hk Hs. destruct (block_at idx k Hd Hk) as [Hin Hidx].
  assert (addr t c (idx + Z.of_nat k) = slot_at b k) as Ha by (erewrite addr_block by done; by rewrite Hidx).
  destruct (dealloc_one w (slot_at b k) Hf) as (w' & H1 & H2 & H3 & H4); [rewrite <- Ha; apply Hu; by rewrite Ha|].
  exists w'. split; [done|]. split; [done|].
  assert (∀ d i, addr (<[(c, idx) := clear_slot b k n]> t) d i =
    if decide (d = c ∧ i = idx + Z.of_nat k) then SWAP_SLOT_NONE else addr t d i) as Haddr.
  { intros d i. rewrite (addr_update t c idx b) by done. destruct (decide (d = c ∧ in_block idx i)) as [[-> Hi']|Hn].
    - rewrite clear_slot_at by done. pose proof (in_block_index idx i Hd Hi').
      destruct (decide (k = block_index i)) as [->|Hne]; [rewrite decide_True by (split; [done|lia]); done|].
      rewrite decide_False by (intros [_ ->]; lia). symmetry. by apply addr_block with (idx := idx).
    - rewrite decide_False; [done|]. intros [-> ->]. by apply Hn. }
  split; [split_and!; [done| |]|].
  - intros d i. rewrite Haddr. case_decide as Hc; [done|]. intros Hne. apply H4. split; [by apply Hu|].
    rewrite <- Ha. intros E. apply Hc. by apply Hi.
  - intros d i d' i'. rewrite !Haddr. case_decide; [done|]. case_decide; [congruence|]. apply Hi.
  - assert (∀ v, recorded (<[(c, idx) := clear_slot b k n]> t) v ↔ recorded t v ∧ v ≠ slot_at b k) as Hrec.
    { intros v. split.
      - intros (d & i & E & Hn). rewrite Haddr in E. case_decide as Hc; [congruence|]. split; [by exists d, i|].
        intros ->. apply Hc. apply Hi; congruence.
      - intros [(d & i & E & Hn) Hne]. exists d, i. split; [|done]. rewrite Haddr. case_decide as Hc; [|done].
        destruct Hc as [-> ->]. congruence. }
    assert (recorded t (slot_at b k)) as Hself by (by exists c, (idx + Z.of_nat k)).
    intros v. unfold stray. rewrite H4, Hrec. destruct (decide (v = slot_at b k)) as [->|]; [|tauto]. tauto.
Qed.
End blocks.

(** ** Merging swap pages *)

Section merge.
Context {DL : DLList Z} {RB : RadixBitmap}.
Implicit Types (s : astate) (t : table) (c src i : Z) (b sb : swap_block) (T U : gmap Z Z).

Lemma add_allocated_add n m a : add_allocated n (add_allocated m a) = add_allocated (m + n) a.
Proof. destruct a. unfold add_allocated, update. cbn. f_equal. lia. Qed.

Lemma add_allocated_0 a : add_allocated 0 a = a.
Proof. destruct a. unfold add_allocated, update. cbn. f_equal. lia. Qed.

Lemma upd_anon_lookup c f s a : anons s !! c = Some a → anons (upd_anon c f s) = <[c := f a]> (anons s).
Proof.
  intros Ha. unfold upd_anon. cbn. apply map_eq. intros d. destruct (decide (d = c)) as [->|].
  - by rewrite lookup_alter_eq, Ha, lookup_insert_eq.
  - by rewrite lookup_alter_ne, lookup_insert_ne.
Qed.

(** The consumer already has a page or a slot for index [k] of the block. *)
Definition unneeded (blk : option swap_block) T (idx : Z) (k : nat) : Prop :=
  match blk with Some b => slot_at b k ≠ SWAP_SLOT_NONE | None => False end ∨ is_Some (T !! (idx + Z.of_nat k)).
#[global] Instance unneeded_dec blk T idx k : Decision (unneeded blk T idx k).
Proof. unfold unneeded. destruct blk; apply _. Defined.

Lemma unneeded_bool blk T idx k :
  (match blk with Some b => negb (slot_at b k =? SWAP_SLOT_NONE) | None => false end
     || negb (bool_decide (T !! (idx + Z.of_nat k) = None))) = bool_decide (unneeded blk T idx k).
Proof.
  apply eq_true_iff_eq. rewrite orb_true_iff, bool_decide_eq_true, negb_true_iff, bool_decide_eq_false. unfold unneeded.
  rewrite <- not_eq_None_Some. destruct blk as [b|]; [rewrite negb_true_iff, Z.eqb_neq; done|].
  split; intros [?|?]; auto; done.
Qed.

Definition in_use sb (ks : list nat) : Z := Z.of_nat (length (filter (fun k => slot_at sb k ≠ SWAP_SLOT_NONE) ks)).

Lemma in_use_clear sb k n ks : block_ok sb → (k < 32)%nat → k ∉ ks → in_use (clear_slot sb k n) ks = in_use sb ks.
Proof.
  intros Hb Hk Hn. unfold in_use. f_equal. f_equal. apply filter_ext_elem. intros x Hx. rewrite clear_slot_at by done.
  rewrite decide_False; [done|]. intros ->. done.
Qed.

Lemma in_use_all sb : block_ok sb → in_use sb block_indices = Z.of_nat (nslots sb).
Proof.
  intros Hb. unfold in_use, nslots. f_equal. unfold block_ok in Hb. change block_indices with (seq 0 32). rewrite <- Hb.
  assert (∀ l j (f : nat → Z), (∀ k v, l !! k = Some v → f (j + k)%nat = v) →
    length (filter (fun k => f k ≠ SWAP_SLOT_NONE) (seq j (length l))) = length (filter (fun v => v ≠ SWAP_SLOT_NONE) l)) as H.
  { clear. intros l. induction l as [|v l IH]; intros j f Hf; [done|]. cbn [length seq]. rewrite !filter_cons.
    assert (f j = v) as -> by (rewrite <- (Nat.add_0_r j); by apply Hf).
    destruct (decide (v ≠ SWAP_SLOT_NONE)); cbn [length]; [f_equal|]; apply IH; intros k x Hx;
      rewrite Nat.add_succ_l, <- Nat.add_succ_r; by apply Hf. }
  apply H. intros k v Hv. unfold slot_at. cbn. by rewrite Hv.
Qed.

Lemma free_unneeded_ok c src idx blk T ks sb s a :
  vm_ok (vm s) → trees (vm s) !! c = Some T → (32 | idx) → block_ok sb → used_exact sb →
  anons s !! src = Some a → NoDup ks → (∀ k, k ∈ ks → (k < 32)%nat) →
  slots_ok (<[(src, idx) := sb]> (sSwapHashTable s)) (swapfiles s) →
  ∃ sb' w', free_unneeded c src idx blk ks sb s =
      Ret (sb', s <| swapfiles := w' |> <| anons ::= <[src := add_allocated (- (PAGE_SIZE * in_use sb ks)) a]> |>) ∧
    block_ok sb' ∧ used_exact sb' ∧ sAvailSwapSpace w' = sAvailSwapSpace (swapfiles s) ∧
    (∀ k, slot_at sb' k = if decide (k ∈ ks ∧ unneeded blk T idx k) then SWAP_SLOT_NONE else slot_at sb k) ∧
    slots_ok (<[(src, idx) := sb']> (sSwapHashTable s)) w' ∧
    ∀ v, stray (<[(src, idx) := sb']> (sSwapHashTable s)) w' v ↔ stray (<[(src, idx) := sb]> (sSwapHashTable s)) (swapfiles s) v.
Proof.
  intros Hok HT Hd. revert sb s a Hok HT. induction ks as [|k ks IH]; intros sb s a Hok HT Hb Hu Ha Hnd Hlt Hs.
  { exists sb, (swapfiles s). split; [|by split_and!].
    change (in_use sb []) with 0. rewrite Z.mul_0_r. change (- 0) with 0. rewrite add_allocated_0.
    destruct s. unfold update. cbn in *. by rewrite insert_id. }
  apply NoDup_cons in Hnd as [Hk Hnd]. assert (k < 32)%nat as Hk32 by (apply Hlt, list_elem_of_here).
  assert (∀ k, k ∈ ks → (k < 32)%nat) as Hlt' by (intros; by apply Hlt, list_elem_of_further).
  cbn [free_unneeded]. destruct (Z.eqb_spec (slot_at sb k) SWAP_SLOT_NONE) as [Hn|Hn].
  { destruct (IH sb s a) as (sb' & w' & H1 & H2 & H3 & H4 & H5 & H6 & H7); [done..|]. exists sb', w'. split_and!; try done.
    - rewrite H1. unfold in_use. rewrite filter_cons_False by (intros Hx; done). done.
    - intros k'. rewrite H5. destruct (decide (k' = k)) as [->|Hne].
      + rewrite Hn. by repeat case_decide.
      + apply decide_ext. rewrite elem_of_cons. tauto. }
  rewrite (LookupPage_trees (vm s) c T) by (done || apply Hok). cbn [mbind outcome_bind]. rewrite unneeded_bool.
  assert (in_use sb (k :: ks) = 1 + in_use sb ks) as Huse
    by (unfold in_use; rewrite filter_cons_True by done; cbn [length]; lia).
  case_bool_decide as Hun.
  - destruct (slots_ok_clear (<[(src, idx) := sb]> (sSwapHashTable s)) (swapfiles s) src idx sb k (u32 (used sb - 1)))
      as (w1 & -> & Hav1 & Hs1 & Hst1); [done|done|apply lookup_insert_eq|done|done|done|]. cbn [mbind outcome_bind].
    fold (clear_slot sb k (u32 (used sb - 1))). set (sb1 := clear_slot sb k (u32 (used sb - 1))) in *.
    rewrite insert_insert_eq in Hs1, Hst1.
    pose proof (clear_slot_nslots sb k (u32 (used sb - 1)) Hb Hk32 Hn) as Hns. fold sb1 in Hns.
    pose proof (nslots_le sb Hb) as Hle. pose proof (nslots_pos sb k Hn) as Hpos.
    destruct (IH sb1 (upd_anon src (add_allocated (- PAGE_SIZE)) (s <| swapfiles := w1 |>)) (add_allocated (- PAGE_SIZE) a))
      as (sb' & w' & H1 & H2 & H3 & H4 & H5 & H6 & H7); try done.
    + by apply clear_slot_ok.
    + unfold used_exact in *. rewrite Hns. cbn. rewrite Hu. apply wrap_small. split; lia.
    + rewrite (upd_anon_lookup _ _ _ a) by done. apply lookup_insert_eq.
    + exists sb', w'. split_and!; try done; [|cbn in H4; congruence| |intros v; etrans; [apply H7|apply Hst1]].
      * rewrite H1. f_equal. f_equal. unfold sb1. rewrite in_use_clear by done. rewrite add_allocated_add, Huse.
        replace (- PAGE_SIZE + - (PAGE_SIZE * in_use sb ks)) with (- (PAGE_SIZE * (1 + in_use sb ks))) by lia.
        destruct s as [v an tt ww mm]. cbn in Ha. unfold upd_anon, update. cbn. f_equal.
        apply map_eq. intros d. rewrite !lookup_insert. case_decide; [done|]. by rewrite lookup_alter_ne.
      * intros k'. rewrite H5. unfold sb1. rewrite clear_slot_at by done. destruct (decide (k = k')) as [<-|Hne].
        -- rewrite (decide_True (P := k ∈ k :: ks ∧ _)) by (split; [apply list_elem_of_here|done]). by case_decide.
        -- apply decide_ext. rewrite elem_of_cons. split; [tauto|]. intros [[?|?] ?]; [congruence|done].
  - cbn [mbind outcome_bind].
    destruct (IH sb (upd_anon src (add_allocated (- PAGE_SIZE)) s) (add_allocated (- PAGE_SIZE) a))
      as (sb' & w' & H1 & H2 & H3 & H4 & H5 & H6 & H7); try done.
    + rewrite (upd_anon_lookup _ _ _ a) by done. apply lookup_insert_eq.
    + exists sb', w'. split_and!; try done.
      * rewrite H1. f_equal. f_equal. rewrite add_allocated_add, Huse.
        replace (- PAGE_SIZE + - (PAGE_SIZE * in_use sb ks)) with (- (PAGE_SIZE * (1 + in_use sb ks))) by lia.
        destruct s as [v an tt ww mm]. cbn in Ha. unfold upd_anon, update. cbn. f_equal.
        apply map_eq. intros d. rewrite !lookup_insert. case_decide; [done|]. by rewrite lookup_alter_ne.
      * intros k'. rewrite H5. apply decide_ext. rewrite elem_of_cons. split; [tauto|].
        intros [[->|?] ?]; [done|done].
Qed.

(** The source pages at the indices the consumer's block has slots for go. *)
Lemma drop_all_ok src idx b ks s U :
  vm_ok (vm s) → trees (vm s) !! src = Some U → NoDup ks →
  (∀ k p, k ∈ ks → slot_at b k ≠ SWAP_SLOT_NONE → U !! (idx + Z.of_nat k) = Some p → idle (vm s) p) →
  ∃ v F U', drop_all src idx b ks s = Ret (s <| vm := v |>) ∧ effect F (vm s) v ∧ trees v = <[src := U']> (trees (vm s)) ∧
    (∀ k, k ∈ ks → slot_at b k ≠ SWAP_SLOT_NONE → U' !! (idx + Z.of_nat k) = None) ∧
    (∀ j, (∀ k, k ∈ ks → j = idx + Z.of_nat k → slot_at b k = SWAP_SLOT_NONE) → U' !! j = U !! j) ∧
    (∀ p, p ∈ F → ∃ k, k ∈ ks ∧ slot_at b k ≠ SWAP_SLOT_NONE ∧ U !! (idx + Z.of_nat k) = Some p).
Proof.
  revert s U. induction ks as [|k ks IH]; intros s U Hok HU Hnd Hid.
  { exists (vm s), ∅, U. split_and!; try done; [by destruct s|by apply effect_refl|by rewrite insert_id|..].
    all: first [by intros ? []%elem_of_nil|by intros ? []%not_elem_of_empty]. }
  apply NoDup_cons in Hnd as [Hk Hnd]. cbn [drop_all]. destruct (Z.eqb_spec (slot_at b k) SWAP_SLOT_NONE) as [Hn|Hn].
  { cbn [mbind outcome_bind]. destruct (IH s U Hok HU Hnd) as (v & F & U' & H1 & H2 & H3 & H4 & H5 & H6).
    { intros k' p Hk'. apply Hid. by apply list_elem_of_further. }
    exists v, F, U'. split_and!; [done..| | |].
    - intros k' [->|?]%elem_of_cons; [done|by apply H4].
    - intros j Hj. apply H5. intros k' Hk'. apply Hj. by apply list_elem_of_further.
    - intros p (k' & ? & ?)%H6. exists k'. split; [by apply list_elem_of_further|done]. }
  unfold drop_shadowed. rewrite (LookupPage_trees (vm s) src U) by (done || apply Hok). cbn [mbind outcome_bind].
  set (j0 := idx + Z.of_nat k) in *.
  assert (∃ v1 F1, match U !! j0 with
      | None => Ret s
      | Some p => pg ← deref (pages (vm s) !! p); _ ← assert (negb (busy pg)); v ← remove_and_free src p (vm s); Ret (s <| vm := v |>)
      end = Ret (s <| vm := v1 |>) ∧ effect F1 (vm s) v1 ∧ trees v1 = <[src := delete j0 U]> (trees (vm s)) ∧
      ∀ p, p ∈ F1 → U !! j0 = Some p) as (v1 & F1 & -> & He1 & Ht1 & HF1).
  { destruct (U !! j0) as [p|] eqn:Ep.
    - destruct (Hid k p (list_elem_of_here _ _) Hn Ep) as (pg & Hp & Hb & Hw & Hm). rewrite Hp. cbn [deref mbind outcome_bind].
      rewrite Hb. cbn [negb assert mbind outcome_bind].
      destruct (remove_and_free_effect src p pg j0 (vm s) U) as (v1 & -> & He & Ht); [done..|]. cbn [mbind outcome_bind].
      exists v1, {[p]}. split_and!; try done. by intros q ->%elem_of_singleton.
    - exists (vm s), ∅. split_and!; [by destruct s|by apply effect_refl|by rewrite delete_id, insert_id|by intros p []%not_elem_of_empty]. }
  cbn [mbind outcome_bind]. pose proof He1 as (Hok1 & _).
  destruct (IH (s <| vm := v1 |>) (delete j0 U)) as (v & F & U' & H1 & H2 & H3 & H4 & H5 & H6);
    [done|by cbn; rewrite Ht1, lookup_insert_eq|done| |].
  { intros k' p Hk' Hn' [Hne Hp]%lookup_delete_Some. eapply effect_idle; [exact He1| |].
    - intros Hin. apply HF1 in Hin. destruct (tree_inj (vm s) src src U U j0 (idx + Z.of_nat k') p) as [_ ?]; [apply Hok|done..].
    - eapply Hid; [by apply list_elem_of_further|done..]. }
  exists v, (F1 ∪ F), U'. split_and!.
  - rewrite H1. by destruct s.
  - by eapply effect_trans.
  - cbn in H3. by rewrite H3, Ht1, insert_insert_eq.
  - intros k' [->|Hk']%elem_of_cons Hn'; [|by apply H4].
    fold j0. rewrite H5; [apply lookup_delete_eq|]. intros k'' Hk'' E. exfalso. by assert (k'' = k) as -> by lia.
  - intros j Hj. rewrite H5 by (intros k' Hk'; apply Hj; by apply list_elem_of_further). apply lookup_delete_ne.
    intros <-. apply Hn, Hj; [apply list_elem_of_here|done].
  - intros p [Hp|Hp]%elem_of_union.
    + exists k. split; [apply list_elem_of_here|]. split; [done|by apply HF1].
    + apply H6 in Hp as (k' & ? & ? & [_ ?]%lookup_delete_Some). exists k'. split; [by apply list_elem_of_further|done].
Qed.

(** ** Copying slots *)

Lemma foldl_copy sb (l : list Z) ks k :
  (∀ k, k ∈ ks → (k < length l)%nat) →
  foldl (fun l (i : nat) => if slot_at sb i =? SWAP_SLOT_NONE then l else <[i := slot_at sb i]> l) l ks !! k =
    (if decide (k ∈ ks ∧ slot_at sb k ≠ SWAP_SLOT_NONE) then Some (slot_at sb k) else l !! k) ∧
  length (foldl (fun l (i : nat) => if slot_at sb i =? SWAP_SLOT_NONE then l else <[i := slot_at sb i]> l) l ks) = length l.
Proof.
  revert l. induction ks as [|i ks IH]; intros l Hl; cbn [foldl].
  { rewrite decide_False; [done|]. by intros [[]%elem_of_nil _]. }
  assert (∀ k, k ∈ ks → (k < length l)%nat) as Hl' by (intros; by apply Hl, list_elem_of_further).
  destruct (Z.eqb_spec (slot_at sb i) SWAP_SLOT_NONE) as [Hn|Hn].
  - destruct (IH l Hl') as [-> ->]. split; [|done]. destruct (decide (k = i)) as [->|Hne].
    + rewrite !decide_False by tauto. done.
    + apply decide_ext. rewrite elem_of_cons. tauto.
  - destruct (IH (<[i := slot_at sb i]> l)) as [-> ->]; [by rewrite length_insert|]. split; [|by rewrite length_insert].
    destruct (decide (k = i)) as [->|Hne].
    + rewrite (decide_True (P := i ∈ i :: ks ∧ _)) by (split; [apply list_elem_of_here|done]).
      case_decide; [done|]. apply list_lookup_insert_eq, Hl, list_elem_of_here.
    + rewrite list_lookup_insert_ne by done. apply decide_ext. rewrite elem_of_cons. tauto.
Qed.

Lemma elem_of_block_indices k : k ∈ block_indices ↔ (k < 32)%nat.
Proof. change block_indices with (seq 0 32). rewrite elem_of_seq. lia. Qed.

Lemma copy_slots_at sb b k :
  block_ok b → (k < 32)%nat →
  slot_at (copy_slots sb b) k = if decide (slot_at sb k ≠ SWAP_SLOT_NONE) then slot_at sb k else slot_at b k.
Proof.
  intros Hb Hk. unfold slot_at at 1, copy_slots. cbn.
  destruct (foldl_copy sb (swap_slots b) block_indices k) as [-> _].
  { intros k' Hk'. rewrite Hb. by apply elem_of_block_indices. }
  destruct (decide (slot_at sb k ≠ SWAP_SLOT_NONE)) as [Hn|Hn].
  - rewrite decide_True by (split; [by apply elem_of_block_indices|done]). done.
  - rewrite decide_False by tauto. done.
Qed.

Lemma copy_slots_ok sb b : block_ok b → block_ok (copy_slots sb b).
Proof.
  intros Hb. unfold block_ok, copy_slots. cbn.
  destruct (foldl_copy sb (swap_slots b) block_indices 0%nat) as [_ ->]; [|done].
  intros k' Hk'. rewrite Hb. by apply elem_of_block_indices.
Qed.

Lemma copy_slots_nslots sb b :
  block_ok sb → block_ok b → (∀ k, (k < 32)%nat → slot_at sb k ≠ SWAP_SLOT_NONE → slot_at b k = SWAP_SLOT_NONE) →
  nslots (copy_slots sb b) = (nslots b + nslots sb)%nat.
Proof.
  intros Hsb Hb Hd. apply Nat2Z.inj. rewrite Nat2Z.inj_add, <- !in_use_all by (done || by apply copy_slots_ok).
  unfold in_use. assert (∀ k, k ∈ block_indices → (k < 32)%nat) as Hlt by (intros k; apply elem_of_block_indices).
  induction block_indices as [|k ks IH]; [done|]. rewrite !filter_cons.
  assert (k < 32)%nat as Hk by (apply Hlt, list_elem_of_here). rewrite copy_slots_at by done. specialize (Hd k Hk).
  assert (Z.of_nat (length (filter (fun k => slot_at (copy_slots sb b) k ≠ SWAP_SLOT_NONE) ks)) =
    Z.of_nat (length (filter (fun k => slot_at b k ≠ SWAP_SLOT_NONE) ks)) +
    Z.of_nat (length (filter (fun k => slot_at sb k ≠ SWAP_SLOT_NONE) ks))) as IH'
    by (apply IH; intros; by apply Hlt, list_elem_of_further).
  destruct (decide (slot_at sb k ≠ SWAP_SLOT_NONE)) as [Hn|Hn].
  - rewrite (decide_True (P := slot_at sb k ≠ SWAP_SLOT_NONE)) by done. rewrite (decide_False (P := slot_at b k ≠ SWAP_SLOT_NONE)) by tauto.
    cbn [length]. lia.
  - destruct (decide (slot_at b k ≠ SWAP_SLOT_NONE)); cbn [length]; lia.
Qed.

(** A table whose slots are those of another, seen through a map of caches. *)
Lemma slots_ok_through t t' w (g : Z → Z → Z) :
  slots_ok t w → (∀ d i, addr t' d i ≠ SWAP_SLOT_NONE → addr t (g d i) i = addr t' d i) →
  (∀ d d' i, addr t' d i ≠ SWAP_SLOT_NONE → addr t' d' i ≠ SWAP_SLOT_NONE → g d i = g d' i → d = d') →
  slots_ok t' w.
Proof.
  intros (Hf & Hu & Hi) Hg Hinj. split_and!; [done| |].
  - intros d i Hn. rewrite <- Hg by done. apply Hu. by rewrite Hg.
  - intros d i d' i' Hn E. destruct (Hi (g d i) i (g d' i') i') as [E1 ->].
    + by rewrite Hg.
    + rewrite Hg by done. rewrite Hg by congruence. done.
    + split; [|done]. apply (Hinj d d' i'); [done|congruence|done].
Qed.
End merge.

(** ** What merging the swap pages of some indices does *)

Section merged.
Context {DL : DLList Z} {RB : RadixBitmap}.
Implicit Types (s : astate) (t : table) (c src i k idx : Z) (T U : gmap Z Z).

Definition used_exact_of c t : Prop := ∀ idx b, t !! (c, idx) = Some b → used_exact b.

Definition alloc_exact c s : Prop :=
  ∃ a, anons s !! c = Some a ∧ allocated_swap_size a = PAGE_SIZE * swapped (sSwapHashTable s) c.

Definition no_alloc (a : anon) : anon := a <| allocated_swap_size := 0 |>.

(** The slots the consumer ends up with, for the indices [P] merged. *)
Definition merged_addr (P : Z → bool) T t c src k : Z :=
  if P k && (addr t c k =? SWAP_SLOT_NONE) then
    match T !! k with Some _ => SWAP_SLOT_NONE | None => addr t src k end
  else addr t c k.

Record merged (P : Z → bool) T c src s s' : Prop := {
  mg_pages : ∃ F U U', trees (vm s) !! src = Some U ∧ effect F (vm s) (vm s') ∧
    trees (vm s') = <[src := U']> (trees (vm s)) ∧
    (∀ k, U' !! k = if P k && negb (addr (sSwapHashTable s) c k =? SWAP_SLOT_NONE) then None else U !! k) ∧
    (∀ p, p ∈ F → ∃ k, P k = true ∧ addr (sSwapHashTable s) c k ≠ SWAP_SLOT_NONE ∧ U !! k = Some p);
  mg_addr_c : ∀ k, addr (sSwapHashTable s') c k = merged_addr P T (sSwapHashTable s) c src k;
  mg_addr_src : ∀ k, addr (sSwapHashTable s') src k = if P k then SWAP_SLOT_NONE else addr (sSwapHashTable s) src k;
  mg_addr_other : ∀ d k, d ≠ c → d ≠ src → addr (sSwapHashTable s') d k = addr (sSwapHashTable s) d k;
  mg_table : table_ok (sSwapHashTable s');
  mg_slots : slots_ok (sSwapHashTable s') (swapfiles s');
  mg_stray : ∀ v, stray (sSwapHashTable s') (swapfiles s') v ↔ stray (sSwapHashTable s) (swapfiles s) v;
  mg_used : ∀ d, d ≠ c → used_exact_of d (sSwapHashTable s) → used_exact_of d (sSwapHashTable s');
  mg_alloc_c : alloc_exact c s';
  mg_alloc_src : alloc_exact src s';
  mg_anons : no_alloc <$> anons s' = no_alloc <$> anons s;
  mg_mem : mem s' = mem s;
  mg_avail : sAvailSwapSpace (swapfiles s') = sAvailSwapSpace (swapfiles s)
}.

(** What the merge of the swap pages of the indices [Q] relies on. *)
Record mergeable_swap (Q : Z → bool) T c src s : Prop := {
  ms_ne : c ≠ src;
  ms_vm : vm_ok (vm s);
  ms_T : trees (vm s) !! c = Some T;
  ms_src : is_Some (trees (vm s) !! src);
  ms_table : table_ok (sSwapHashTable s);
  ms_slots : slots_ok (sSwapHashTable s) (swapfiles s);
  ms_used : used_exact_of src (sSwapHashTable s);
  ms_alloc_c : alloc_exact c s;
  ms_alloc_src : alloc_exact src s;
  ms_idle : ∀ U k p, trees (vm s) !! src = Some U → Q k = true → addr (sSwapHashTable s) c k ≠ SWAP_SLOT_NONE →
    U !! k = Some p → idle (vm s) p
}.

Lemma merged_mergeable P Q T c src s s' :
  mergeable_swap Q T c src s → merged P T c src s s' → mergeable_swap (fun k => Q k && negb (P k)) T c src s'.
Proof.
  intros [Hne Hvm HT Hsrc Htab Hslots Hused Hac Has Hidle] [(F & U & U' & HU & He & Ht & HU' & HF) Hc Hs Ho Htab' Hslots' _ Hused' Hac' Has' _ _ _].
  split; try done.
  - apply He.
  - by rewrite Ht, lookup_insert_ne by (by apply not_eq_sym).
  - rewrite Ht, lookup_insert_eq. eauto.
  - apply Hused'; [by apply not_eq_sym|done].
  - intros V k p. rewrite Ht, lookup_insert_eq. intros [= <-] [HQ HP%negb_true_iff]%andb_true_iff Hn Hp.
    rewrite HU', HP in Hp. cbn in Hp. rewrite Hc in Hn. unfold merged_addr in Hn. rewrite HP in Hn. cbn in Hn.
    eapply effect_idle; [exact He| |by apply (Hidle U k p)].
    intros Hin. apply HF in Hin as (k' & HP' & _ & Hk'). destruct (tree_inj (vm s) src src U U k k' p) as [_ ->]; [apply Hvm|done..|].
    congruence.
Qed.

Lemma mergeable_mono (Q Q' : Z → bool) T c src s :
  mergeable_swap Q T c src s → (∀ k, Q' k = true → Q k = true) → mergeable_swap Q' T c src s.
Proof. intros [] H. split; try done. intros U k p ? ?%H. eauto. Qed.

(** Merging some indices and then others. *)
Lemma merged_trans P Q T c src s1 s2 s3 :
  c ≠ src → merged P T c src s1 s2 → merged Q T c src s2 s3 → (∀ k, P k = true → Q k = false) →
  merged (fun k => P k || Q k) T c src s1 s3.
Proof.
  intros Hne [(F & U & U1 & HU & He & Ht & HU1 & HF) Hc Hs Ho _ _ Hst Hu _ _ Ha Hm Hv]
    [(G & V & V1 & HV & He' & Ht' & HV1 & HG) Hc' Hs' Ho' Htab Hsl Hst' Hu' Hac Has Ha' Hm' Hv'] Hd.
  rewrite Ht, lookup_insert_eq in HV. injection HV as <-.
  assert (∀ k, P k = false → addr (sSwapHashTable s2) c k = addr (sSwapHashTable s1) c k) as Hsame
    by (intros k Hk; rewrite Hc; unfold merged_addr; by rewrite Hk).
  split; try done.
  - exists (F ∪ G), U, V1. split_and!; [done|by eapply effect_trans|by rewrite Ht', Ht, insert_insert_eq| |].
    + intros k. rewrite HV1, HU1. destruct (P k) eqn:EP; cbn [orb andb]; [by rewrite (Hd k EP)|].
      destruct (Q k) eqn:EQ; cbn [andb]; [|done]. by rewrite Hsame.
    + intros p [Hp|Hp]%elem_of_union.
      * apply HF in Hp as (k & HP & ? & ?). exists k. by rewrite HP.
      * apply HG in Hp as (k & HQ & Hn & Hk). exists k. rewrite HQ, orb_true_r. split; [done|].
        destruct (P k) eqn:EP; [apply Hd in EP; congruence|]. rewrite Hsame in Hn by done. rewrite HU1, EP in Hk. done.
  - intros k. rewrite Hc'. unfold merged_addr. destruct (P k) eqn:EP; cbn [orb].
    + rewrite (Hd k EP). cbn [andb]. rewrite Hc. unfold merged_addr. by rewrite EP.
    + rewrite !Hsame by done. rewrite Hs, EP. done.
  - intros k. rewrite Hs', Hs. destruct (P k) eqn:EP; cbn [orb]; [by rewrite (Hd k EP)|done].
  - intros d k ? ?. by rewrite Ho', Ho.
  - intros v. by rewrite Hst', Hst.
  - intros d ? ?. by apply Hu', Hu.
  - congruence.
  - congruence.
  - congruence.
Qed.

Lemma merged_refl T c src s :
  mergeable_swap (fun _ => false) T c src s → merged (fun _ => false) T c src s s.
Proof.
  intros [Hne Hvm HT [U HU] Htab Hslots Hused Hac Has Hidle]. split; try done.
  exists ∅, U, U. split_and!; [done|by apply effect_refl|by rewrite insert_id|done|by intros p []%not_elem_of_empty].
Qed.

Lemma merged_ext P P' T c src s s' : (∀ k, P k = P' k) → merged P T c src s s' → merged P' T c src s s'.
Proof.
  intros H [(F & U & U' & HU & He & Ht & HU' & HF) Hc Hs Ho Htab Hslots Hst Hused Hac Has Ha Hm Hv]. split; try done.
  - exists F, U, U'. split_and!; try done; [intros k; by rewrite <- H|]. intros p (k & ? & ? & ?)%HF. exists k. by rewrite <- H.
  - intros k. rewrite Hc. unfold merged_addr. by rewrite H.
  - intros k. by rewrite Hs, H.
Qed.

(** Giving the rest of the source block to the consumer. *)
Definition adopt_block c (idx : Z) (sb : swap_block) t : table :=
  if used sb =? 0 then t
  else <[(c, idx) := match t !! (c, idx) with None => sb | Some b => copy_slots sb b end]> t.

Lemma adopt_block_ok c src idx sb t w :
  c ≠ src → (32 | idx) → table_ok t → t !! (src, idx) = None → block_ok sb → used_exact sb →
  (∀ b (k : nat), t !! (c, idx) = Some b → (k < 32)%nat → slot_at sb k ≠ SWAP_SLOT_NONE → slot_at b k = SWAP_SLOT_NONE) →
  slots_ok (<[(src, idx) := sb]> t) w →
  let t' := adopt_block c idx sb t in
  (∀ d i, addr t' d i =
    if decide (d = c ∧ in_block idx i ∧ slot_at sb (block_index i) ≠ SWAP_SLOT_NONE) then slot_at sb (block_index i) else addr t d i) ∧
  table_ok t' ∧ slots_ok t' w ∧ (∀ d, swapped t' d = swapped t d + if decide (d = c) then Z.of_nat (nslots sb) else 0) ∧
  ∀ v, recorded t' v ↔ recorded (<[(src, idx) := sb]> t) v.
Proof.
  intros Hne Hd Htab Hsrc Hsb Hu Hdis Hsl t'.
  assert (∀ d i, addr t' d i = if decide (d = c ∧ in_block idx i ∧ slot_at sb (block_index i) ≠ SWAP_SLOT_NONE)
    then slot_at sb (block_index i) else addr t d i) as Haddr.
  { intros d i. unfold t', adopt_block. destruct (Z.eqb_spec (used sb) 0) as [H0|H0].
    - rewrite decide_False; [done|]. intros (_ & _ & Hn). apply nslots_pos in Hn. unfold used_exact in Hu. lia.
    - destruct (decide (d = c ∧ in_block idx i)) as [[-> Hi]|Hn].
      2:{ rewrite (decide_False (P := d = c ∧ _)) by tauto. apply addr_insert; [done|]. destruct (decide (d = c)); [right; tauto|by left]. }
      erewrite addr_block; [|done|exact Hi|apply lookup_insert_eq]. pose proof (block_index_lt i) as Hlt.
      destruct (t !! (c, idx)) as [b|] eqn:Eb.
      + rewrite copy_slots_at by (done || by eapply Htab). destruct (decide (slot_at sb (block_index i) ≠ SWAP_SLOT_NONE)).
        * by rewrite decide_True.
        * rewrite decide_False by tauto. symmetry. by eapply addr_block.
      + case_decide as Hs; [done|]. rewrite (addr_no_block t c idx i) by done. destruct (decide (slot_at sb (block_index i) = SWAP_SLOT_NONE)); [done|tauto]. }
  assert (∀ i, in_block idx i → addr (<[(src, idx) := sb]> t) src i = slot_at sb (block_index i)) as Hold
    by (intros i Hi; eapply addr_block; [done|exact Hi|apply lookup_insert_eq]).
  split; [done|]. split; [|split; [|split]].
  - intros k b. unfold t', adopt_block. destruct (used sb =? 0); [apply Htab|].
    intros [[<- <-]|[_ ?]]%lookup_insert_Some; [|by eapply Htab]. split; [|done].
    destruct (t !! (c, idx)) as [b0|] eqn:Eb; [|done]. apply copy_slots_ok. by eapply Htab.
  - eapply (slots_ok_through _ t' w (fun d i => if decide (d = c ∧ in_block idx i ∧ slot_at sb (block_index i) ≠ SWAP_SLOT_NONE) then src else d)); [exact Hsl| |].
    + intros d i. rewrite Haddr. case_decide as Hc.
      * destruct Hc as (_ & Hi & _). intros _. by apply Hold.
      * intros Hn. destruct (decide (d = src)) as [->|Hds]; [|apply addr_insert; [done|by left]].
        apply addr_insert; [done|right]. intros Hi. by rewrite (addr_no_block t src idx i) in Hn.
    + intros d d' i. rewrite !Haddr.
      destruct (decide (d = c ∧ _)) as [(-> & Hi & _)|_], (decide (d' = c ∧ _)) as [(-> & Hi' & _)|_]; [done| | |done].
      * intros _ Hn <-. by rewrite (addr_no_block t src idx i) in Hn.
      * intros Hn _ ->. by rewrite (addr_no_block t src idx i) in Hn.
  - intros d. unfold t', adopt_block. destruct (Z.eqb_spec (used sb) 0) as [H0|H0].
    { unfold used_exact in Hu. case_decide; lia. }
    destruct (t !! (c, idx)) as [b|] eqn:Eb.
    + rewrite (swapped_update t c idx b _ d Eb). rewrite copy_slots_nslots; [|done|by eapply Htab|by eauto]. case_decide; lia.
    + by apply swapped_insert.
  - intros v. split; intros (d & i & E & Hn).
    + rewrite Haddr in E. case_decide as Hc.
      * destruct Hc as (_ & Hi & _). exists src, i. by rewrite Hold.
      * exists d, i. split; [|done]. rewrite <- E. apply addr_insert; [done|]. destruct (decide (d = src)) as [->|]; [right|by left].
        intros Hi. rewrite (addr_no_block t src idx i) in E by done. congruence.
    + destruct (decide (d = src ∧ in_block idx i)) as [[-> Hi]|Hni].
      * rewrite Hold in E by done. exists c, i. rewrite Haddr, decide_True; [done|]. split_and!; [done|done|congruence].
      * rewrite addr_insert in E; [|done|destruct (decide (d = src)); [right; tauto|by left]].
        exists d, i. split; [|done]. rewrite Haddr. case_decide as Hc; [|done]. destruct Hc as (-> & Hi & Hs). exfalso.
        destruct (t !! (c, idx)) as [b|] eqn:Eb.
        -- rewrite (addr_block t c idx i b) in E by done. pose proof (block_index_lt i) as Hlt. rewrite (Hdis b (block_index i) eq_refl Hlt Hs) in E. congruence.
        -- rewrite (addr_no_block t c idx i) in E by done. congruence.
Qed.

Abbreviation inb idx := (fun k => bool_decide (in_block idx k)).

(** The pages the consumer's slots of a block shadow are dropped. *)
Lemma drop_block_ok Q T c src idx s :
  mergeable_swap Q T c src s → (32 | idx) → (∀ k, in_block idx k → Q k = true) →
  let s0 := s <| sSwapHashTable ::= delete (src, idx) |> in
  ∃ v F U U', match sSwapHashTable s0 !! (c, idx) with
              | Some b => drop_all src idx b block_indices s0
              | None => Ret s0
              end = Ret (s0 <| vm := v |>) ∧
    trees (vm s) !! src = Some U ∧ effect F (vm s) v ∧ trees v = <[src := U']> (trees (vm s)) ∧
    (∀ k, U' !! k = if inb idx k && negb (addr (sSwapHashTable s) c k =? SWAP_SLOT_NONE) then None else U !! k) ∧
    (∀ p, p ∈ F → ∃ k, inb idx k = true ∧ addr (sSwapHashTable s) c k ≠ SWAP_SLOT_NONE ∧ U !! k = Some p).
Proof.
  intros [Hne Hvm HT [U HU] Htab Hslots Hused Hac Has Hidle] Hd HQ s0. cbn [sSwapHashTable s0].
  change (sSwapHashTable s0) with (delete (src, idx) (sSwapHashTable s)). rewrite lookup_delete_ne by congruence.
  destruct (sSwapHashTable s !! (c, idx)) as [b|] eqn:Eb.
  - destruct (Htab _ _ Eb) as [Hb _].
    assert (∀ k : nat, (k < 32)%nat → addr (sSwapHashTable s) c (idx + Z.of_nat k) = slot_at b k) as Hat.
    { intros k Hk. destruct (block_at idx k Hd Hk) as [Hi E]. erewrite addr_block by done. by rewrite E. }
    destruct (drop_all_ok src idx b block_indices s0 U) as (v & F & U' & H1 & H2 & H3 & H4 & H5 & H6); [done|done|apply NoDup_seq| |].
    { intros k p Hk%elem_of_block_indices Hn Hp. apply (Hidle U (idx + Z.of_nat k) p); [done| |by rewrite Hat|done].
      apply HQ. by apply block_at. }
    exists v, F, U, U'. split_and!; [done..| |].
    + intros k. destruct (decide (in_block idx k)) as [Hi|Hi].
      * rewrite bool_decide_eq_true_2 by done. cbn [andb]. pose proof (in_block_index idx k Hd Hi) as Ek. pose proof (block_index_lt k) as Hlt.
        pose proof (Hat _ Hlt) as Ha. rewrite Ek in Ha. rewrite Ha.
        destruct (Z.eqb_spec (slot_at b (block_index k)) SWAP_SLOT_NONE) as [Hn|Hn]; cbn [negb].
        -- apply H5. intros k' _ E. by assert (k' = block_index k) as -> by lia.
        -- rewrite <- Ek. apply H4; [by apply elem_of_block_indices|done].
      * rewrite bool_decide_eq_false_2 by done. cbn [andb]. apply H5. intros k' Hk'%elem_of_block_indices ->.
        exfalso. apply Hi. by apply block_at.
    + intros p (k & Hk%elem_of_block_indices & Hn & Hp)%H6. exists (idx + Z.of_nat k). rewrite Hat by done. split; [|done].
      apply bool_decide_eq_true. by apply block_at.
  - exists (vm s), ∅, U, U. split_and!; [by destruct s|done|by apply effect_refl|by rewrite insert_id| |by intros p []%not_elem_of_empty].
    intros k. destruct (decide (in_block idx k)) as [Hi|Hi].
    + rewrite (addr_no_block _ c idx k) by done. rewrite Z.eqb_refl. by rewrite andb_false_r.
    + by rewrite bool_decide_eq_false_2.
Qed.

(** The slots of the consumer's block after it took the source's over. *)
Lemma adopted_addr c src idx T t sb sb' k :
  (32 | idx) → t !! (src, idx) = Some sb → in_block idx k →
  (∀ j, slot_at sb' j = if decide (j ∈ block_indices ∧ unneeded (t !! (c, idx)) T idx j) then SWAP_SLOT_NONE else slot_at sb j) →
  (if decide (slot_at sb' (block_index k) ≠ SWAP_SLOT_NONE) then slot_at sb' (block_index k) else addr t c k) =
    merged_addr (inb idx) T t c src k.
Proof.
  intros Hd Hsb Hi Hat. unfold merged_addr. rewrite bool_decide_eq_true_2 by done. cbn [andb]. pose proof (block_index_lt k) as Hlt.
  assert (slot_at sb' (block_index k) = if decide (unneeded (t !! (c, idx)) T idx (block_index k)) then SWAP_SLOT_NONE else addr t src k) as Hs.
  { rewrite Hat, (addr_block t src idx k sb) by done. apply decide_ext. rewrite elem_of_block_indices. tauto. }
  assert (unneeded (t !! (c, idx)) T idx (block_index k) ↔ addr t c k ≠ SWAP_SLOT_NONE ∨ is_Some (T !! k)) as Hun.
  { unfold unneeded. rewrite (in_block_index idx k Hd Hi). destruct (t !! (c, idx)) as [b|] eqn:Eb.
    - by rewrite (addr_block t c idx k b).
    - rewrite (addr_no_block t c idx k) by done. tauto. }
  destruct (Z.eqb_spec (addr t c k) SWAP_SLOT_NONE) as [E|E]; [destruct (T !! k) as [p|] eqn:ET|].
  - rewrite decide_False; [done|]. intros Hn. apply Hn. rewrite Hs, decide_True; [done|]. apply Hun. right. eauto.
  - rewrite decide_False in Hs by (intros [?|[? ?]]%Hun; congruence). rewrite Hs. case_decide as Hc; [done|].
    rewrite E. destruct (decide (addr t src k = SWAP_SLOT_NONE)); [done|tauto].
  - rewrite decide_False; [done|]. intros Hn. apply Hn. rewrite Hs, decide_True; [done|]. apply Hun. by left.
Qed.

Lemma merge_swap_block_ok Q T c src idx s :
  mergeable_swap Q T c src s → (32 | idx) → (∀ k, in_block idx k → Q k = true) →
  ∃ s', merge_swap_block c src idx s = Ret s' ∧ merged (inb idx) T c src s s'.
Proof.
  intros Hms Hd HQ. destruct (drop_block_ok Q T c src idx s Hms Hd HQ) as (v & F & U & U' & H1 & HU & He & Ht & HU' & HF).
  destruct Hms as [Hne Hvm HT _ Htab Hslots Hused (ac & Hac & Eac) (asrc & Has & Eas) Hidle].
  unfold merge_swap_block. rewrite !block_self by done. rewrite H1. cbn [mbind outcome_bind]. clear H1.
  set (t0 := sSwapHashTable s) in *. set (t1 := delete (src, idx) t0) in *.
  assert (t1 !! (c, idx) = t0 !! (c, idx)) as Ec by (apply lookup_delete_ne; congruence).
  assert (table_ok t1) as Htab1 by (intros k b [_ ?]%lookup_delete_Some; by eapply Htab).
  assert (∀ d k, addr t1 d k = if decide (d = src ∧ in_block idx k) then SWAP_SLOT_NONE else addr t0 d k) as Ha1
    by (intros; by apply addr_delete).
  destruct (t0 !! (src, idx)) as [sb|] eqn:Esb.
  2:{ assert (t1 = t0) as E1 by (by apply delete_id).
      assert (∀ k, in_block idx k → addr t0 src k = SWAP_SLOT_NONE) as Hnone by (intros; by eapply addr_no_block).
      eexists. split; [done|]. set (s2 := _ <| vm := v |>).
      assert (vm s2 = v ∧ sSwapHashTable s2 = t0 ∧ swapfiles s2 = swapfiles s ∧ mem s2 = mem s ∧ anons s2 = anons s)
        as (Ev & Et & Ew & Em & Ea) by (split_and!; [reflexivity|exact E1|reflexivity..]). clearbody s2.
      split; rewrite ?Ev, ?Et, ?Ew, ?Em, ?Ea; try done; [by exists F, U, U'| | |exists ac; by rewrite Ea, Et|exists asrc; by rewrite Ea, Et].
      - intros k. unfold merged_addr. fold t0. case_bool_decide as Hi; cbn [andb]; [|done].
        destruct (Z.eqb_spec (addr t0 c k) SWAP_SLOT_NONE) as [E|E]; [|reflexivity].
        rewrite E, Hnone by done. by destruct (T !! k).
      - intros k. fold t0. case_bool_decide; [by apply Hnone|done]. }
  destruct (Htab _ _ Esb) as [Hsb _].
  destruct (free_unneeded_ok c src idx (t1 !! (c, idx)) T block_indices sb (s <| sSwapHashTable ::= delete (src, idx) |> <| vm := v |>) asrc)
    as (sb' & w' & H1 & Hsb' & Hu' & Hav' & Hat' & Hsl' & Hst'); try done.
  { apply He. }
  { cbn. by rewrite Ht, lookup_insert_ne by (by apply not_eq_sym). }
  { by apply (Hused idx). }
  { apply NoDup_seq. }
  { intros k. apply elem_of_block_indices. }
  { cbn. fold t0. by rewrite insert_delete_eq, insert_id. }
  change (sSwapHashTable (s <| sSwapHashTable ::= delete (src, idx) |>)) with t1. rewrite H1.
  cbn [mbind outcome_bind]. clear H1. rewrite in_use_all by done.
  set (s2 := upd_anon c _ _).
  assert (anons s2 = <[c := add_allocated (PAGE_SIZE * used sb') ac]> (<[src := add_allocated (- (PAGE_SIZE * Z.of_nat (nslots sb))) asrc]> (anons s))) as Han.
  { unfold s2. rewrite (upd_anon_lookup c _ _ ac); [done|]. cbn. by rewrite lookup_insert_ne by (by apply not_eq_sym). }
  assert (vm s2 = v ∧ sSwapHashTable s2 = t1 ∧ swapfiles s2 = w' ∧ mem s2 = mem s) as (Ev & Et & Ew & Em) by (split_and!; reflexivity). clearbody s2.
  assert (∀ b (k : nat), t1 !! (c, idx) = Some b → (k < 32)%nat → slot_at sb' k ≠ SWAP_SLOT_NONE → slot_at b k = SWAP_SLOT_NONE) as Hdis.
  { intros b k Hb Hk Hn. destruct (decide (slot_at b k = SWAP_SLOT_NONE)); [done|]. exfalso. apply Hn. rewrite Hat'.
    rewrite decide_True; [done|]. split; [by apply elem_of_block_indices|]. left. by rewrite Hb. }
  destruct (adopt_block_ok c src idx sb' t1 w') as (Haddr & Htab' & Hsl2 & Hsw & Hrec); try done.
  { apply lookup_delete_eq. }
  set (t2 := adopt_block c idx sb' t1) in *.
  exists (s2 <| sSwapHashTable := t2 |>). split.
  { unfold t2, adopt_block. destruct (used sb' =? 0); [rewrite <- Et; by destruct s2|]. destruct (t1 !! (c, idx)); destruct s2; cbn in Et; subst; done. }
  split; cbn.
  - exists F, U, U'. rewrite Ev. done.
  - intros k. rewrite Haddr, Ha1. fold t0. rewrite (decide_False (P := c = src ∧ _)) by tauto.
    destruct (decide (in_block idx k)) as [Hi|Hi].
    + rewrite Ec in Hat'. rewrite <- (adopted_addr c src idx T t0 sb sb' k) by done. apply decide_ext. tauto.
    + unfold merged_addr. rewrite bool_decide_eq_false_2 by done. by rewrite decide_False by tauto.
  - intros k. rewrite Haddr, Ha1. rewrite (decide_False (P := src = c ∧ _)) by (intros [? _]; congruence). fold t0.
    case_bool_decide as Hi; [by rewrite decide_True|]. by rewrite decide_False by tauto.
  - intros d k ? ?. rewrite Haddr, Ha1, !decide_False by tauto. done.
  - done.
  - by rewrite Ew.
  - intros j. rewrite Ew. specialize (Hst' j).
    change (stray (<[(src, idx) := sb']> t1) w' j ↔ stray (<[(src, idx) := sb]> t1) (swapfiles s) j) in Hst'.
    assert (<[(src, idx) := sb]> t1 = t0) as E0 by (unfold t1; by rewrite insert_delete_eq, insert_id).
    rewrite E0 in Hst'. fold t0. rewrite <- Hst'. unfold stray. by rewrite Hrec.
  - intros d Hdc Hud i b. unfold t2, adopt_block. destruct (used sb' =? 0); [|rewrite lookup_insert_ne by congruence];
      intros [_ Hl]%lookup_delete_Some; by eapply Hud.
  - exists (add_allocated (PAGE_SIZE * used sb') ac). cbn. rewrite Han, lookup_insert_eq. split; [done|].
    rewrite Hsw. unfold t1. rewrite (swapped_delete t0 src idx sb) by done. rewrite decide_False, decide_True by done.
    cbn. rewrite Eac. unfold used_exact in Hu'. rewrite Hu'. lia.
  - eexists. cbn. rewrite Han, lookup_insert_ne, lookup_insert_eq by done. split; [done|].
    rewrite Hsw. unfold t1. rewrite (swapped_delete t0 src idx sb) by done. rewrite decide_True by done.
    rewrite decide_False by (by apply not_eq_sym). cbn. rewrite Eas. lia.
  - rewrite Han, !fmap_insert. rewrite (insert_id (no_alloc <$> anons s) src), insert_id; [done|..];
      rewrite lookup_fmap, ?Hac, ?Has; done.
  - done.
  - by rewrite Ew.
Qed.

(** The indices the loop covers from [offset] on. *)
Definition covers (offset vend : Z) k : bool := (offset / PAGE_SIZE <=? k) && (32 * (k / 32) * PAGE_SIZE <? vend).

Lemma covers_step offset vend k :
  (131072 | offset) → offset < vend →
  covers offset vend k = (inb (offset / PAGE_SIZE) k || covers (offset + 131072) vend k).
Proof.
  intros [m ->] Hlt. unfold covers, in_block, PAGE_SIZE in *.
  replace (m * 131072 / 4096) with (32 * m) by zlia. replace ((m * 131072 + 131072) / 4096) with (32 * m + 32) by zlia.
  destruct (decide (32 * m <= k < 32 * m + 32)) as [Hk|Hk].
  - rewrite bool_decide_eq_true_2 by done. cbn [orb]. apply andb_true_iff. rewrite Z.leb_le, Z.ltb_lt.
    replace (k / 32) with m by zlia. lia.
  - rewrite bool_decide_eq_false_2 by done. cbn [orb]. f_equal. apply eq_true_iff_eq. rewrite !Z.leb_le. lia.
Qed.

Lemma covers_done offset vend k : (131072 | offset) → vend <= offset → covers offset vend k = false.
Proof.
  intros [m ->] Hge. unfold covers, PAGE_SIZE in *. replace (m * 131072 / 4096) with (32 * m) by zlia.
  apply andb_false_iff. rewrite Z.leb_gt, Z.ltb_ge. destruct (decide (k < 32 * m)); [by left|right]. zlia.
Qed.

Lemma merge_swap_loop_ok fuel Q T c src vend offset s :
  mergeable_swap Q T c src s → (131072 | offset) → (∀ k, offset / PAGE_SIZE <= k → Q k = true) →
  (vend - offset) / 131072 + 1 <= Z.of_nat fuel ∨ vend <= offset →
  ∃ s', merge_swap_loop fuel c src vend offset s = Ret s' ∧ merged (covers offset vend) T c src s s'.
Proof.
  revert Q offset s. induction fuel as [|fuel IH]; intros Q offset s Hms Hd HQ Hf; cbn [merge_swap_loop];
    (destruct (Z.ltb_spec offset vend) as [Hlt|Hge];
     [|exists s; split; [done|]; eapply merged_ext; [|apply merged_refl; eapply mergeable_mono; [exact Hms|done]];
       intros k; symmetry; by apply covers_done]).
  { exfalso. zlia. }
  rewrite Z.shiftr_div_pow2 by done. change (2 ^ PAGE_SHIFT) with PAGE_SIZE. set (idx := offset / PAGE_SIZE) in *.
  assert ((32 | idx)) as Hidx by (destruct Hd as [m ->]; exists m; unfold idx, PAGE_SIZE; zlia).
  assert ((offset + 131072) / PAGE_SIZE = idx + 32) as Enext by (destruct Hd as [m ->]; unfold idx, PAGE_SIZE; zlia).
  destruct (merge_swap_block_ok Q T c src idx s Hms Hidx) as (s1 & -> & Hm1); [intros k [? _]; by apply HQ|].
  cbn [mbind outcome_bind]. change (PAGE_SIZE * SWAP_BLOCK_PAGES) with 131072.
  destruct (IH (fun k => Q k && negb (inb idx k)) (offset + 131072) s1) as (s2 & H2 & Hm2).
  { by eapply merged_mergeable. }
  { apply Z.divide_add_r; [done|]. by exists 1. }
  { rewrite Enext. intros k Hk. rewrite HQ by lia. rewrite bool_decide_eq_false_2; [done|]. unfold in_block. lia. }
  { destruct (decide (vend <= offset + 131072)); [by right|left]. zlia. }
  exists s2. split; [done|]. eapply merged_ext; [|eapply merged_trans; [apply Hms|exact Hm1|exact Hm2|]].
  - intros k. symmetry. by apply covers_step.
  - intros k [Hk1 Hk2]%bool_decide_eq_true. unfold covers. rewrite Enext. apply andb_false_iff. left. apply Z.leb_gt. lia.
Qed.

(** Nothing lies outside the indices covered. *)
Lemma merged_all P T U c src s s' :
  trees (vm s) !! src = Some U →
  (∀ k, P k = false → addr (sSwapHashTable s) src k = SWAP_SLOT_NONE ∧ U !! k = None) →
  merged P T c src s s' → merged (fun _ => true) T c src s s'.
Proof.
  intros HU0 Hout [(F & U0 & U' & HU & He & Ht & HU' & HF) Hc Hs Ho Htab Hslots Hst Hused Hac Has Ha Hm Hv]. simplify_eq.
  split; try done.
  - exists F, U, U'. split_and!; try done.
    + intros k. rewrite HU'. destruct (P k) eqn:EP; [done|]. destruct (Hout k EP) as [_ ->]. cbn [andb]. by destruct (negb _).
    + intros p (k & ? & ? & ?)%HF. by exists k.
  - intros k. rewrite Hc. unfold merged_addr. destruct (P k) eqn:EP; [done|]. destruct (Hout k EP) as [-> _]. cbn [andb].
    destruct (Z.eqb_spec (addr (sSwapHashTable s) c k) SWAP_SLOT_NONE) as [E|E]; [|done]. rewrite E. by destruct (T !! k).
  - intros k. rewrite Hs. destruct (P k) eqn:EP; [done|]. by destruct (Hout k EP).
Qed.

Lemma _MergeSwapPages_ok T U S c src s :
  mergeable_swap (fun _ => true) T c src s → caches (vm s) !! src = Some S → trees (vm s) !! src = Some U →
  (∀ k, addr (sSwapHashTable s) src k ≠ SWAP_SLOT_NONE ∨ is_Some (U !! k) → virtual_base S <= k * PAGE_SIZE < virtual_end S) →
  ∃ s', _MergeSwapPages c src s = Ret s' ∧ merged (fun _ => true) T c src s s'.
Proof.
  intros Hms HS HU Hrange. pose proof Hms as [Hne Hvm HT _ Htab Hslots Hused (ac & Hac & Eac) (asrc & Has & Eas) Hidle].
  unfold _MergeSwapPages. rewrite Hac, Has. cbn [deref mbind outcome_bind].
  destruct ((allocated_swap_size asrc =? 0) && (allocated_swap_size ac =? 0)) eqn:E0.
  - apply andb_true_iff in E0 as [E1%Z.eqb_eq E2%Z.eqb_eq]. exists s. split; [done|]. unfold PAGE_SIZE in *.
    assert (∀ k, addr (sSwapHashTable s) c k = SWAP_SLOT_NONE ∧ addr (sSwapHashTable s) src k = SWAP_SLOT_NONE) as Hnone
      by (intros k; split; apply swapped_zero; lia).
    split; try done; [|..|by exists ac|by exists asrc].
    + exists ∅, U, U. split_and!; [done|by apply effect_refl|by rewrite insert_id| |by intros p []%not_elem_of_empty].
      intros k. destruct (Hnone k) as [-> _]. by rewrite Z.eqb_refl.
    + intros k. unfold merged_addr. destruct (Hnone k) as [-> ->]. rewrite Z.eqb_refl. by destruct (T !! k).
    + intros k. apply Hnone.
  - rewrite HS. cbn [deref mbind outcome_bind]. change (PAGE_SIZE * SWAP_BLOCK_PAGES) with 131072. set (first := Z.land _ _).
    assert (first = 131072 * (virtual_base S / 131072)) as Hfirst.
    { unfold first. change (131072 - 1) with (Z.ones 17). rewrite <- Z.ldiff_land, Z.ldiff_ones_r by done.
      rewrite Z.shiftr_div_pow2, Z.shiftl_mul_pow2 by done. change (2 ^ 17) with 131072. lia. }
    clearbody first.
    destruct (merge_swap_loop_ok (Z.to_nat ((virtual_end S - first) / 131072 + 1)) (fun _ => true) T c src (virtual_end S) first s)
      as (s' & H1 & Hm); [done|by exists (virtual_base S / 131072); lia|done| |].
    { destruct (decide (virtual_end S <= first)); [by right|left]. rewrite Z2Nat.id; [lia|]. zlia. }
    exists s'. split; [done|]. eapply merged_all; [exact HU| |exact Hm]. intros k Hk.
    assert (¬ (virtual_base S <= k * PAGE_SIZE < virtual_end S)) as Hno.
    { intros Hr. apply not_true_iff_false in Hk. apply Hk. unfold covers, PAGE_SIZE in *. apply andb_true_iff.
      rewrite Z.leb_le, Z.ltb_lt. zlia. }
    split; [destruct (decide (addr (sSwapHashTable s) src k = SWAP_SLOT_NONE)); [done|exfalso; auto]|].
    destruct (U !! k) eqn:E; [|done]. exfalso. apply Hno, Hrange. right. rewrite E. eauto.
Qed.
End merged.

(** ** Merge *)

Section commit_frame.
Context {RB : RadixBitmap}.
Variable SECONDS : Z → Z.
Implicit Types (c : cstate anon).

(** Only the commitment of the cache, the available swap space and the memory
    counters differ. *)
Definition only_commit c c' : Prop :=
  (∃ x, base c' = (base c) <| committed_size := x |>) ∧ (∃ y, own c' = (own c) <| committed_swap_size := y |>) ∧
  (∃ z, swapspace c' = (swapspace c) <| sAvailSwapSpace := z |>).

Lemma only_commit_refl c : only_commit c c.
Proof.
  split_and!; [exists (committed_size (base c)); by destruct (base c)|exists (committed_swap_size (own c)); by destruct (own c)|
    exists (sAvailSwapSpace (swapspace c)); by destruct (swapspace c)].
Qed.

Lemma only_commit_trans c1 c2 c3 : only_commit c1 c2 → only_commit c2 c3 → only_commit c1 c3.
Proof.
  intros ((x & Hx) & (y & Hy) & (z & Hz)) ((x' & Hx') & (y' & Hy') & (z' & Hz')).
  unfold only_commit. rewrite Hx', Hy', Hz', Hx, Hy, Hz. split_and!; eexists; reflexivity.
Qed.

Lemma only_commit_set f c : only_commit c (set_committed f c).
Proof.
  split_and!; [eexists; reflexivity|..].
  - exists (committed_swap_size (own c)). by destruct c as [? [? ? ? ? ? ?] ? ?].
  - exists (sAvailSwapSpace (swapspace c)). by destruct c as [? ? [? ? ? ?] ?].
Qed.

Lemma only_commit_swap c s y :
  (∃ z, s = (swapspace c) <| sAvailSwapSpace := z |>) →
  only_commit c (c <| swapspace := s |> <| own ::= fun a => a <| committed_swap_size ::= y |> |>).
Proof.
  intros [z ->]. split_and!; [exists (committed_size (base c)); by destruct c as [C ? ? ?]; destruct C|eexists; reflexivity|by exists z].
Qed.

Lemma only_commit_memory c f : only_commit c (c <| memory_ ::= f |>).
Proof. destruct (only_commit_refl c) as (? & ? & ?). by split_and!. Qed.

Lemma swap_space_reserve_frame amount s :
  ∃ z, (swap_space_reserve amount s).2 = s <| sAvailSwapSpace := z |>.
Proof. unfold swap_space_reserve. destruct (_ <=? _); cbn; eexists; reflexivity. Qed.

Lemma _Commit_frame e size priority c st c' :
  _Commit SECONDS e size priority c = Ret (st, c') → only_commit c c'.
Proof.
  rewrite _Commit_parts. cbv zeta. set (c1 := swap_part size c).
  assert (only_commit c c1) as H1.
  { unfold c1, swap_part. destruct (_ <? size); [|apply only_commit_refl].
    destruct (swap_space_reserve_frame (size - committed_swap_size (own c)) (swapspace c)) as [z Hz].
    destruct (swap_space_reserve _ _) as [n s]. cbn in Hz. eapply only_commit_trans; [apply only_commit_swap; by exists z|apply only_commit_set]. }
  clearbody c1. destruct (_ =? size); [intros [= <- <-]; done|]. destruct (size <? _).
  - intros [= <- <-]. eapply only_commit_trans; [exact H1|]. unfold shrink_part.
    destruct (0 <? committed_memory c); cbv zeta beta iota.
    + set (u := Z.min _ _). set (c2 := set_committed (fun x => x - u) (c1 <| memory_ ::= vm_unreserve_memory u |>)).
      assert (only_commit c1 c2) as H2 by (eapply only_commit_trans; [apply (only_commit_memory c1 (vm_unreserve_memory u))|apply only_commit_set]).
      clearbody c2. destruct (0 <? _); [|done]. eapply only_commit_trans; [exact H2|].
      eapply only_commit_trans; [|apply only_commit_set]. apply (only_commit_swap c2 (swap_space_unreserve _ (swapspace c2))). by eexists.
    + destruct (0 <? _); [|apply only_commit_refl].
      eapply only_commit_trans; [|apply only_commit_set]. apply (only_commit_swap c1 (swap_space_unreserve _ (swapspace c1))). by eexists.
  - unfold reserve_memory. destruct (vm_try_reserve_memory _ _ _ _ _ _ _) as [[st' m]| |]; cbn [mbind outcome_bind]; [|done..].
    destruct st'; intros [= <- <-]; (eapply only_commit_trans; [exact H1|]).
    + eapply only_commit_trans; [apply (only_commit_memory c1 (fun _ => m))|apply only_commit_set].
    + apply (only_commit_memory c1 (fun _ => m)).
Qed.
End commit_frame.

Section merge_ok.
Context {DL : DLList Z} {RB : RadixBitmap}.
Variable SECONDS : Z → Z.
Implicit Types (s : astate) (c src k : Z) (T U : gmap Z Z).

(** Shrinking a commitment neither waits nor fails. *)
Lemma _Commit_shrink e size priority (x : cstate anon) :
  backed x → 0 <= size < committed_size (base x) → committed_size (base x) < 2 ^ 60 →
  Z.abs (sAvailableMemory (memory_ x)) < 2 ^ 60 →
  ∃ x', _Commit SECONDS e size priority x = Ret (Ok, x') ∧ backed x' ∧ committed_size (base x') = size ∧
    sAvailSwapSpace (swapspace x') + committed_swap_size (own x') = sAvailSwapSpace (swapspace x) + committed_swap_size (own x) ∧
    sAvailableMemory (memory_ x') + committed_memory x' = sAvailableMemory (memory_ x) + committed_memory x.
Proof.
  intros (Hs & Ha) Hsz Hlim Hm. rewrite _Commit_parts. cbv zeta.
  destruct (swap_part_ok size x (conj Hs Ha)) as (Hcnt & Hmem & _). set (n := if _ <? size then _ else _) in *.
  assert (0 <= n <= sAvailSwapSpace (swapspace x) ∧ n <= size) as Hn
    by (unfold n; destruct (Z.ltb_spec (committed_swap_size (own x)) size); lia).
  clearbody n. set (c1 := swap_part size x) in *. clearbody c1. unfold counters in Hcnt. injection Hcnt as E1 E2 E3 E4.
  destruct (Z.eqb_spec (committed_size (base c1)) size) as [?|_]; [lia|].
  destruct (Z.ltb_spec size (committed_size (base c1))) as [_|?]; [|lia].
  destruct (shrink_part_ok size (committed_memory x) c1) as [Hcnt2 _];
    [lia|unfold committed_memory; lia|unfold backed; lia|lia|rewrite Hmem; lia|].
  unfold counters in Hcnt2. injection Hcnt2 as F1 F2 F3 F4. eexists. split; [done|].
  set (c2 := shrink_part _ _ _) in *. clearbody c2. unfold committed_memory, backed in *. lia.
Qed.

(** ** Changing commitments only *)

Definition nc (C : VMCache) : VMCache := C <| committed_size := 0 |>.
Definition na (a : anon) : anon := a <| committed_swap_size := 0 |>.

Record recommitted s s' : Prop := {
  rc_vm : (vm s') <| caches := ∅ |> = (vm s) <| caches := ∅ |>;
  rc_caches : nc <$> caches (vm s') = nc <$> caches (vm s);
  rc_anons : na <$> anons s' = na <$> anons s;
  rc_table : sSwapHashTable s' = sSwapHashTable s;
  rc_files : (swapfiles s') <| sAvailSwapSpace := 0 |> = (swapfiles s) <| sAvailSwapSpace := 0 |>
}.

Lemma recommitted_refl s : recommitted s s.
Proof. by split. Qed.

Lemma recommitted_trans s1 s2 s3 : recommitted s1 s2 → recommitted s2 s3 → recommitted s1 s3.
Proof. intros [] []. split; congruence. Qed.

Lemma recommitted_cache s s' c C C' :
  recommitted s s' → caches (vm s) !! c = Some C → caches (vm s') !! c = Some C' → nc C' = nc C.
Proof.
  intros [_ H _ _ _] HC HC'. apply (f_equal (.!! c)) in H. rewrite !lookup_fmap, HC, HC' in H. cbn in H. congruence.
Qed.

Lemma nc_fields C C' : nc C' = nc C →
  self_ref C' = self_ref C ∧ cpages C' = cpages C ∧ page_count C' = page_count C ∧ wired_pages_count C' = wired_pages_count C ∧
  virtual_base C' = virtual_base C ∧ virtual_end C' = virtual_end C.
Proof.
  intros H. split_and!; [apply (f_equal self_ref) in H|apply (f_equal cpages) in H|apply (f_equal page_count) in H|
    apply (f_equal wired_pages_count) in H|apply (f_equal virtual_base) in H|apply (f_equal virtual_end) in H]; done.
Qed.

Lemma recommitted_vm s s' :
  recommitted s s' → pages (vm s') = pages (vm s) ∧ cacherefs (vm s') = cacherefs (vm s) ∧
  (∀ i, get_queue i (vm s') = get_queue i (vm s)) ∧ trees (vm s') = trees (vm s).
Proof.
  intros [H Hc _ _ _]. split_and!.
  - apply (f_equal pages) in H. done.
  - apply (f_equal cacherefs) in H. done.
  - intros i. apply (f_equal (get_queue i)) in H. by destruct i.
  - unfold trees. apply (f_equal (fmap cpages)) in Hc. by rewrite <- !map_fmap_compose in Hc.
Qed.

Lemma recommitted_vm_ok s s' : recommitted s s' → vm_ok (vm s) → vm_ok (vm s').
Proof.
  intros Hr (Hok & [[Hsz Hq] Hpo] & Hlt). destruct (recommitted_vm s s' Hr) as (Hp & Href & Hg & Ht).
  split_and!; [split|split; [split|]|by rewrite Hp].
  - intros c C' HC'. assert ((nc <$> caches (vm s)) !! c = Some (nc C')) as (C & Hn & HC)%lookup_fmap_Some
      by (by rewrite <- (rc_caches _ _ Hr), lookup_fmap, HC').
    destruct (nc_fields C' C) as (E1 & E2 & E3 & E4 & _); [by rewrite Hn|].
    assert (wired_pages (vm s') (cpages C) = wired_pages (vm s) (cpages C)) as Hw
      by (apply map_filter_ext; intros o p _; unfold is_wired; cbn; by rewrite Hp).
    destruct (proj1 Hok c C HC) as (H1 & H2 & H3 & H4 & H5). unfold cache_ok, refers in *.
    rewrite Hp, Href, <- E1, <- E2, <- E3, <- E4, Hw. done.
  - rewrite Hp. apply Hok.
  - by rewrite Hp.
  - intros i. destruct (Hq i) as (H1 & H2 & H3). unfold queue_ok, qelems in *. rewrite Hg, Hp. done.
  - by rewrite Hp.
Qed.

Lemma slots_ok_avail t (w w' : swap) :
  w' <| sAvailSwapSpace := 0 |> = w <| sAvailSwapSpace := 0 |> → slots_ok t w → slots_ok t w'.
Proof.
  intros Hw H. assert (slots_ok t (w <| sAvailSwapSpace := 0 |>)) as H' by (destruct w; exact H).
  rewrite <- Hw in H'. destruct w'; exact H'.
Qed.

Lemma stray_avail t (w w' : swap) v :
  w' <| sAvailSwapSpace := 0 |> = w <| sAvailSwapSpace := 0 |> → stray t w' v ↔ stray t w v.
Proof.
  intros Hw. assert (slot_used w' v ↔ slot_used w v) as E; [|unfold stray; by rewrite E].
  change (slot_used (w' <| sAvailSwapSpace := 0 |>) v ↔ slot_used w v). rewrite Hw. by destruct w.
Qed.

Lemma recommitted_alloc s s' c : recommitted s s' → alloc_exact c s → alloc_exact c s'.
Proof.
  intros [_ _ Ha Ht _] (a & Hc & E). apply (f_equal (.!! c)) in Ha. rewrite !lookup_fmap, Hc in Ha.
  destruct (anons s' !! c) as [a'|] eqn:Ec; [|done]. exists a'. rewrite Ht, <- E. split; [done|].
  destruct a, a'. by injection Ha.
Qed.

Lemma recommitted_mergeable Q T c src s s' :
  recommitted s s' → mergeable_swap Q T c src s → mergeable_swap Q T c src s'.
Proof.
  intros Hr [Hne Hvm HT Hsrc Htab Hslots Hused Hac Has Hidle]. destruct (recommitted_vm s s' Hr) as (Hp & _ & _ & Ht).
  pose proof (rc_table _ _ Hr) as Et.
  split; rewrite ?Ht, ?Et; try done; [by eapply recommitted_vm_ok| |by eapply recommitted_alloc..|].
  - eapply slots_ok_avail; [apply Hr|done].
  - unfold idle. rewrite Hp. apply Hidle.
Qed.

Lemma alter_some {A} (f : A → A) (m : gmap Z A) c x : m !! c = Some x → alter f c m = <[c := f x]> m.
Proof.
  intros Hc. apply map_eq. intros d. destruct (decide (d = c)) as [->|].
  - by rewrite lookup_alter_eq, Hc, lookup_insert_eq.
  - by rewrite lookup_alter_ne, lookup_insert_ne.
Qed.

Lemma fmap_insert_id {A B} (f : A → B) (m : gmap Z A) c x y :
  m !! c = Some x → f y = f x → f <$> <[c := y]> m = f <$> m.
Proof. intros Hc E. rewrite fmap_insert, E. apply insert_id. by rewrite lookup_fmap, Hc. Qed.

(** The commitments of a cache, with the pools they are drawn from. *)
Definition cstate_of s (C : VMCache) (a : anon) : cstate anon := mkCState C a (swapfiles s) (mem s).

Lemma take_commitment_ok c src s C S a asrc :
  c ≠ src → caches (vm s) !! c = Some C → caches (vm s) !! src = Some S → anons s !! c = Some a → anons s !! src = Some asrc →
  ∃ s', take_commitment c src s = Ret s' ∧ recommitted s s' ∧ swapfiles s' = swapfiles s ∧ mem s' = mem s ∧
    caches (vm s') !! c = Some (C <| committed_size ::= fun n => n + committed_size S |>) ∧
    caches (vm s') !! src = Some (S <| committed_size := 0 |>) ∧
    anons s' !! c = Some (a <| committed_swap_size ::= fun n => n + committed_swap_size asrc |>) ∧
    anons s' !! src = Some (asrc <| committed_swap_size := 0 |>) ∧
    ∀ d, d ≠ c → d ≠ src → caches (vm s') !! d = caches (vm s) !! d ∧ anons s' !! d = anons s !! d.
Proof.
  intros Hne HC HS Ha Hasrc. unfold take_commitment. rewrite Hasrc, HS. cbn [deref mbind outcome_bind].
  eexists. split; [reflexivity|]. unfold upd_anon, upd_cache, update; cbn.
  rewrite (alter_some _ (anons s) c a), (alter_some _ (caches (vm s)) c C) by done.
  rewrite (alter_some _ (<[c := _]> (anons s)) src asrc) by (by rewrite lookup_insert_ne).
  rewrite (alter_some _ (<[c := _]> (caches (vm s))) src S) by (by rewrite lookup_insert_ne).
  split_and!; [|done|done|..]; rewrite ?lookup_insert_eq; try done; try (rewrite lookup_insert_ne, lookup_insert_eq by done; done);
    [|intros d ? ?; by rewrite !lookup_insert_ne by (by apply not_eq_sym)].
  split; cbn; [done|..|done|done].
  - rewrite (fmap_insert_id nc _ src S), (fmap_insert_id nc _ c C); [done|done|done|by rewrite lookup_insert_ne|done].
  - rewrite (fmap_insert_id na _ src asrc), (fmap_insert_id na _ c a); [done|done|done|by rewrite lookup_insert_ne|done].
Qed.

Lemma with_commit_recommitted c s C a x :
  caches (vm s) !! c = Some C → anons s !! c = Some a → only_commit (cstate_of s C a) x →
  recommitted s (s <| vm ::= set_cache c (base x) |> <| anons ::= <[c := own x]> |>
                   <| swapfiles := swapspace x |> <| mem := memory_ x |>).
Proof.
  intros HC Ha ((n & Hb) & (m & Ho) & (z & Hw)). split; cbn; [done|..|done|].
  - rewrite Hb. by apply (fmap_insert_id nc _ c C).
  - rewrite Ho. by apply (fmap_insert_id na _ c a).
  - rewrite Hw. done.
Qed.

(** The commitment of the source goes to the consumer, which keeps as much of it as it can use. *)
Lemma merge_commitment_ok e c src s C S a asrc :
  c ≠ src → caches (vm s) !! c = Some C → caches (vm s) !! src = Some S → anons s !! c = Some a → anons s !! src = Some asrc →
  backed (cstate_of s C a) → backed (cstate_of s S asrc) → committed_size C + committed_size S < 2 ^ 60 →
  Z.abs (sAvailableMemory (mem s)) < 2 ^ 60 → virtual_base C <= virtual_end C →
  ∃ s1 C1 S1 a1 asrc1,
    (s ← take_commitment c src s;
     C ← deref (caches (vm s) !! c);
     let actualSize := virtual_end C - virtual_base C in
     if actualSize <? committed_size C
     then '(_, s) ← with_commit c (_Commit SECONDS e actualSize GFP_PRIO_USER) s; Ret s
     else Ret s) = Ret s1 ∧ recommitted s s1 ∧
    caches (vm s1) !! c = Some C1 ∧ caches (vm s1) !! src = Some S1 ∧ anons s1 !! c = Some a1 ∧ anons s1 !! src = Some asrc1 ∧
    committed_size S1 = 0 ∧ committed_swap_size asrc1 = 0 ∧
    committed_size C1 = Z.min (committed_size C + committed_size S) (virtual_end C - virtual_base C) ∧
    backed (cstate_of s1 C1 a1) ∧
    sAvailSwapSpace (swapfiles s1) + committed_swap_size a1 =
      sAvailSwapSpace (swapfiles s) + committed_swap_size a + committed_swap_size asrc ∧
    sAvailableMemory (mem s1) + committed_memory (cstate_of s1 C1 a1) =
      sAvailableMemory (mem s) + committed_memory (cstate_of s C a) + committed_memory (cstate_of s S asrc).
Proof.
  intros Hne HC HS Ha Hasrc Hbc Hbs Hlim Hm Hv. pose proof Hbc as (Hb1 & Hb2). pose proof Hbs as (Hb3 & _). cbn in Hb1, Hb2, Hb3.
  destruct (take_commitment_ok c src s C S a asrc) as (s0 & -> & Hr & Ew & Em & HC0 & HS0 & Ha0 & Hasrc0 & _); [done..|].
  cbn [mbind outcome_bind]. set (C0 := C <| committed_size ::= _ |>) in *. set (a0 := a <| committed_swap_size ::= _ |>) in *.
  assert (committed_size C0 = committed_size C + committed_size S ∧ virtual_end C0 = virtual_end C ∧ virtual_base C0 = virtual_base C
    ∧ committed_swap_size a0 = committed_swap_size a + committed_swap_size asrc) as (E1 & E2 & E3 & E4) by done.
  clearbody C0 a0. rewrite HC0. cbn [deref mbind outcome_bind]. cbv zeta. rewrite E2, E3.
  destruct (Z.ltb_spec (virtual_end C - virtual_base C) (committed_size C0)) as [Hlt|Hge].
  - unfold with_commit. rewrite HC0, Ha0. cbn [deref mbind outcome_bind].
    destruct (_Commit_shrink e (virtual_end C - virtual_base C) GFP_PRIO_USER (cstate_of s0 C0 a0)) as (x & Hx & Hx1 & Hx2 & Hx3 & Hx4);
      [unfold backed; cbn; rewrite ?Ew, ?Em; lia..|].
    pose proof (_Commit_frame SECONDS e _ _ _ _ _ Hx) as Hfr. unfold cstate_of in Hx at 1. rewrite Hx. cbn [mbind outcome_bind].
    eexists _, (base x), _, (own x), _. split; [reflexivity|]. cbn.
    split; [eapply recommitted_trans; [exact Hr|by eapply with_commit_recommitted]|].
    rewrite !lookup_insert_eq, !lookup_insert_ne by done. split_and!; try done.
    + lia.
    + cbn in Hx3. rewrite Ew in Hx3. lia.
    + unfold committed_memory in *. cbn in *. rewrite Em in Hx4. lia.
  - eexists _, C0, _, a0, _. split; [reflexivity|]. split_and!; try done; unfold backed, committed_memory; cbn; rewrite ?Ew, ?Em; lia.
Qed.
End merge_ok.

Section properties.
Context {DL : DLList Z} {RB : RadixBitmap}.
Implicit Types (s : astate) (c src k : Z) (T U : gmap Z Z).

(** What a cache holds at a page index: the page, or else the swap slot. *)
Definition cached T (t : table) c k : option (Z + Z) :=
  match T !! k with
  | Some p => Some (inl p)
  | None => if addr t c k =? SWAP_SLOT_NONE then None else Some (inr (addr t c k))
  end.

Definition view s c k : option (Z + Z) := cached (default ∅ (trees (vm s) !! c)) (sSwapHashTable s) c k.

(** The two caches of a merge, the pages they hold, and that the pages of the
    source can be moved or dropped. *)
Record can_merge c src s T U : Prop := {
  cm_swap : mergeable_swap (fun _ => true) T c src s;
  cm_src : trees (vm s) !! src = Some U;
  cm_busy : ∀ k p, U !! k = Some p → not_busy (vm s) p;
  cm_idle : ∀ k p, U !! k = Some p → is_Some (T !! k) → idle (vm s) p;
  cm_range : ∀ S k, caches (vm s) !! src = Some S → addr (sSwapHashTable s) src k ≠ SWAP_SLOT_NONE ∨ is_Some (U !! k) →
    virtual_base S <= k * PAGE_SIZE < virtual_end S
}.

(** The commitments of the two caches. *)
Record can_take c src s (C S : VMCache) (a asrc : anon) : Prop := {
  ct_C : caches (vm s) !! c = Some C;
  ct_S : caches (vm s) !! src = Some S;
  ct_a : anons s !! c = Some a;
  ct_asrc : anons s !! src = Some asrc;
  ct_backed : backed (cstate_of s C a) ∧ backed (cstate_of s S asrc);
  ct_sum : committed_size C + committed_size S < 2 ^ 60;
  ct_mem : Z.abs (sAvailableMemory (mem s)) < 2 ^ 60;
  ct_virtual : virtual_base C <= virtual_end C
}.

(** Both ways to merge the pages give the consumer what it lacks. *)
Lemma merge_pages_ok (smaller : bool) c src (v : vmstate) T U :
  vm_ok v → c ≠ src → trees v !! c = Some T → trees v !! src = Some U → (∀ o p, U !! o = Some p → not_busy v p) →
  (∀ o p, U !! o = Some p → is_Some (T !! o) → idle v p) →
  ∃ v' F U', (if smaller then _MergePagesSmallerSource c src v else _MergePagesSmallerConsumer c src v) = Ret v' ∧ effect F v v' ∧
    trees v' = <[c := T ∪ U]> (<[src := U']> (trees v)) ∧ (∀ p, p ∈ F → ∃ o, U !! o = Some p ∧ is_Some (T !! o)) ∧
    (∀ o p, U' !! o = Some p → U !! o = Some p ∧ is_Some (T !! o)).
Proof.
  intros Hok Hne HT HU Hb Hi. destruct smaller.
  - destruct (merge_smaller_source c src v T U) as (v' & H1 & _ & H2 & H3); [done..|]. exists v', ∅, (shadowed T U).
    split_and!; [done..|by intros p []%not_elem_of_empty|]. by intros o p [? ?]%map_lookup_filter_Some.
  - destruct (merge_smaller_consumer c src v T U) as (v' & H1 & H2 & H3); [done..|intros o p q ? ?; eapply Hi; eauto|].
    exists v', (shadowed_pages U (tree_offsets T)), ∅. split_and!; [done..| |by intros o p ?%lookup_empty_Some].
    intros p (o & Ho%elem_of_tree_offsets & Hp)%elem_of_shadowed. eauto.
Qed.

Lemma merge_after_swap c src s s1 T U :
  can_merge c src s T U → merged (fun _ => true) T c src s s1 →
  ∀ smaller : bool, ∃ v' U',
    (if smaller then _MergePagesSmallerSource c src (vm s1) else _MergePagesSmallerConsumer c src (vm s1)) = Ret v' ∧
    vm_ok v' ∧ links <$> caches v' = links <$> caches (vm s) ∧
    (∀ d, d ≠ c → d ≠ src → trees v' !! d = trees (vm s) !! d) ∧
    (∃ T', trees v' !! c = Some T' ∧ (∀ k, T' !! k = match T !! k with Some p => Some p | None =>
      if addr (sSwapHashTable s) c k =? SWAP_SLOT_NONE then U !! k else None end) ∧
      ∀ k p, T' !! k = Some p → ∃ pg pg', pages (vm s) !! p = Some pg ∧ pages v' !! p = Some pg' ∧ attr pg' = attr pg) ∧
    trees v' !! src = Some U'.
Proof.
  intros [[Hne Hvm HT _ _ _ _ _ _ Hsi] HU Hb Hi _] Hm smaller.
  destruct (mg_pages _ _ _ _ _ _ Hm) as (F & U0 & U1 & HU0 & He & Ht & HU1 & HF). rewrite HU in HU0. injection HU0 as <-.
  assert (∀ k p, U1 !! k = Some p → U !! k = Some p ∧ addr (sSwapHashTable s) c k = SWAP_SLOT_NONE) as Hsub.
  { intros k p. rewrite HU1. destruct (Z.eqb_spec (addr (sSwapHashTable s) c k) SWAP_SLOT_NONE); cbn; [done|done]. }
  assert (∀ k p, U1 !! k = Some p → p ∉ F) as Hkept.
  { intros k p [Hk Hn]%Hsub Hin. apply HF in Hin as (k' & _ & Hn' & Hk').
    destruct (tree_inj (vm s) src src U U k k' p) as [_ ->]; [apply Hvm|done..]. }
  destruct (merge_pages_ok smaller c src (vm s1) T U1) as (v' & G & U2 & H1 & He2 & Ht2 & HG & _).
  { apply He. }
  { done. }
  { rewrite Ht, lookup_insert_ne by (by apply not_eq_sym). done. }
  { by rewrite Ht, lookup_insert_eq. }
  { intros o p Ho. eapply effect_not_busy; [exact He|by eapply Hkept|]. apply (Hb o), Hsub, Ho. }
  { intros o p Ho HTo. eapply effect_idle; [exact He|by eapply Hkept|]. apply (Hi o); [by apply Hsub|done]. }
  exists v', U2. pose proof (effect_trans _ _ _ _ _ He He2) as (Hok' & Hl' & Hd' & Hp').
  split_and!; [done..| | |by rewrite Ht2, lookup_insert_ne, lookup_insert_eq].
  - intros d ? ?. by rewrite Ht2, Ht, !lookup_insert_ne.
  - exists (T ∪ U1). assert (∀ k, (T ∪ U1) !! k = match T !! k with Some p => Some p | None =>
      if addr (sSwapHashTable s) c k =? SWAP_SLOT_NONE then U !! k else None end) as HT'.
    { intros k. rewrite union_lookup, HU1. by destruct (addr (sSwapHashTable s) c k =? SWAP_SLOT_NONE). }
    assert (trees v' !! c = Some (T ∪ U1)) as Htc by (by rewrite Ht2, lookup_insert_eq).
    split_and!; [done..|]. intros k p Hk. destruct (tree_page v' c _ k p (proj1 Hok') Htc Hk) as (_ & pg' & _ & Hpg' & _).
    specialize (Hp' p pg' Hpg'). destruct (decide (p ∈ F ∪ G)) as [Hin|_].
    + exfalso. by eapply (tree_not_free v' c _ k p pg').
    + destruct Hp' as (pg & ? & ?). eauto.
Qed.
End properties.

Lemma recommitted_can_merge {DL : DLList Z} {RB : RadixBitmap} c src s s' T U :
  recommitted s s' → can_merge c src s T U → can_merge c src s' T U.
Proof.
  intros Hr [Hms HU Hb Hi Hrng]. destruct (recommitted_vm s s' Hr) as (Hp & _ & _ & Ht). pose proof (rc_table _ _ Hr) as Et.
  split; unfold not_busy, idle; rewrite ?Hp, ?Ht, ?Et; [by eapply recommitted_mergeable|done..|].
  intros S' k HS'. assert ((nc <$> caches (vm s)) !! src = Some (nc S')) as (S & Hn & HS)%lookup_fmap_Some
    by (by rewrite <- (rc_caches _ _ Hr), lookup_fmap, HS').
  destruct (nc_fields S' S) as (_ & _ & _ & _ & <- & <-); [by rewrite Hn|]. by apply Hrng.
Qed.

Lemma links_committed {DL : DLList Z} (v v' : vmstate) c C :
  links <$> caches v' = links <$> caches v → caches v !! c = Some C →
  ∃ C', caches v' !! c = Some C' ∧ committed_size C' = committed_size C.
Proof.
  intros Hl HC. apply (f_equal (.!! c)) in Hl. rewrite !lookup_fmap, HC in Hl.
  destruct (caches v' !! c) as [C'|]; [|done]. exists C'. split; [done|]. cbn in Hl. unfold links in Hl. congruence.
Qed.

Lemma no_alloc_committed (m m' : gmap Z anon) c a :
  no_alloc <$> m' = no_alloc <$> m → m !! c = Some a →
  ∃ a', m' !! c = Some a' ∧ committed_swap_size a' = committed_swap_size a.
Proof.
  intros Hl Ha. apply (f_equal (.!! c)) in Hl. rewrite !lookup_fmap, Ha in Hl.
  destruct (m' !! c) as [a'|]; [|done]. exists a'. split; [done|]. cbn in Hl.
  apply (f_equal (fun o => from_option committed_swap_size 0 o)) in Hl. done.
Qed.

(** The consumer's view when its tree and its slots were extended by the source's. *)
Lemma merged_view {RB : RadixBitmap} (t t' : table) c src k (T T' U : gmap Z Z) :
  addr t' c k = merged_addr (fun _ => true) T t c src k →
  T' !! k = match T !! k with Some p => Some p | None => if addr t c k =? SWAP_SLOT_NONE then U !! k else None end →
  cached T' t' c k = match cached T t c k with Some x => Some x | None => cached U t src k end.
Proof.
  intros Ha HT'. unfold cached. rewrite HT', Ha. unfold merged_addr. cbn [andb].
  destruct (T !! k); [done|]. destruct (Z.eqb_spec (addr t c k) SWAP_SLOT_NONE) as [E|E]; [|by apply Z.eqb_neq in E as ->].
  by destruct (U !! k).
Qed.

(** ** Properties *)

(** C13: The three ways to merge the pages of a source into its consumer are
    interchangeable: the loop over the source pages, VMCache::Merge, and the
    loop that moves the consumer pages down and everything back up give the
    consumer the same page tree, its own pages first, and every cache other
    than the source the same tree. *)
Theorem merge_strategies_agree {DL : DLList Z} (c src : Z) (v : vmstate) (T U : gmap Z Z)
    (Hok : vm_ok v) (Hne : c ≠ src) (HT : trees v !! c = Some T) (HU : trees v !! src = Some U)
    (Hbusy : ∀ o p, U !! o = Some p → not_busy v p)
    (Hidle : ∀ o p q, T !! o = Some q → U !! o = Some p → idle v p) :
  ∃ v1 v2, _MergePagesSmallerSource c src v = Ret v1 ∧ VMCache_Merge c src v = Ret v1 ∧
    _MergePagesSmallerConsumer c src v = Ret v2 ∧ vm_ok v1 ∧ vm_ok v2 ∧
    trees v1 !! c = Some (T ∪ U) ∧ trees v2 !! c = Some (T ∪ U) ∧
    trees v1 !! src = Some (filter (fun kp => is_Some (T !! kp.1)) U) ∧ trees v2 !! src = Some ∅ ∧
    ∀ d, d ≠ src → trees v1 !! d = trees v2 !! d.
Proof.
  destruct (merge_smaller_source c src v T U) as (v1 & H1 & H2 & H3 & H4); [done..|].
  destruct (merge_smaller_consumer c src v T U) as (v2 & H5 & H6 & H7); [done..|].
  exists v1, v2. rewrite H4, H7. split_and!; [done..|apply H3|apply H6| | | | |].
  1-2: by rewrite lookup_insert_eq.
  1-2: by rewrite lookup_insert_ne, lookup_insert_eq.
  intros d Hd. destruct (decide (d = c)) as [->|]; [by rewrite !lookup_insert_eq|]. by rewrite !lookup_insert_ne.
Qed.

(** C11: VMAnonymousCache::Merge of a source none of whose pages is busy and
    whose shadowed pages are idle (the assertions of the code), where every
    slot of the table is in use and belongs to one page and the used counts
    of the blocks of the source are exact. It returns, and at every page
    index the consumer then has what it had before (page, or else swap
    slot), or else what the source had; other caches keep their view; no
    page the consumer sees was freed or changed; every slot of the table is
    in use and belongs to one page, the source has no slots left, the
    allocated swap size of both caches is exact, and the slots in use to
    which no cache refers are the same as before, so that the slots the
    consumer does not need are given back and no others; the consumer has
    both commitments, cut to its size, the source none, and no swap space or
    memory is lost or invented. Nothing is claimed of the used counts of the
    blocks of the consumer, which the code gets wrong (see the findings). *)
Theorem merge_correct {DL : DLList Z} {RB : RadixBitmap} (SECONDS : Z → Z) (e : reserve_env) (c src : Z) (s : astate)
    (T U : gmap Z Z) (C S : VMCache) (a asrc : anon)
    (Hmerge : can_merge c src s T U) (Htake : can_take c src s C S a asrc) :
  ∃ s', Merge SECONDS e c src s = Ret s' ∧
    (∀ k, view s' c k = match view s c k with Some x => Some x | None => view s src k end) ∧
    (∀ d k, d ≠ c → d ≠ src → view s' d k = view s d k) ∧
    (∀ k p, view s' c k = Some (inl p) →
      ∃ pg pg', pages (vm s) !! p = Some pg ∧ pages (vm s') !! p = Some pg' ∧ attr pg' = attr pg) ∧
    vm_ok (vm s') ∧ table_ok (sSwapHashTable s') ∧ slots_ok (sSwapHashTable s') (swapfiles s') ∧
    (∀ v, stray (sSwapHashTable s') (swapfiles s') v ↔ stray (sSwapHashTable s) (swapfiles s) v) ∧
    alloc_exact c s' ∧ alloc_exact src s' ∧ (∀ k, addr (sSwapHashTable s') src k = SWAP_SLOT_NONE) ∧
    ∃ C' S' a' asrc', caches (vm s') !! c = Some C' ∧ caches (vm s') !! src = Some S' ∧
      anons s' !! c = Some a' ∧ anons s' !! src = Some asrc' ∧ backed (cstate_of s' C' a') ∧
      committed_size S' = 0 ∧ committed_swap_size asrc' = 0 ∧
      committed_size C' = Z.min (committed_size C + committed_size S) (virtual_end C - virtual_base C) ∧
      sAvailSwapSpace (swapfiles s') + committed_swap_size a' =
        sAvailSwapSpace (swapfiles s) + committed_swap_size a + committed_swap_size asrc ∧
      sAvailableMemory (mem s') + committed_memory (cstate_of s' C' a') =
        sAvailableMemory (mem s) + committed_memory (cstate_of s C a) + committed_memory (cstate_of s S asrc).
Proof.
  pose proof Htake as [HC HS Ha Hasrc [Hb1 Hb2] Hsum Hmem Hv]. pose proof (ms_ne _ _ _ _ _ (cm_swap _ _ _ _ _ Hmerge)) as Hne.
  destruct (merge_commitment_ok SECONDS e c src s C S a asrc)
    as (s1 & C1 & S1 & a1 & asrc1 & H1 & Hr & HC1 & HS1 & Ha1 & Hasrc1 & EcS & Easrc & EcC & Hbk & Hsw & Hme); [done..|].
  pose proof (recommitted_can_merge c src s s1 T U Hr Hmerge) as Hm1. pose proof (rc_table _ _ Hr) as Et.
  destruct (recommitted_vm s s1 Hr) as (Hp & _ & _ & Htr).
  destruct (_MergeSwapPages_ok T U S1 c src s1) as (s2 & H2 & Hm2); [apply Hm1|done|apply Hm1|intros k; by apply (cm_range _ _ _ _ _ Hm1)|].
  destruct (mg_pages _ _ _ _ _ _ Hm2) as (F & U0 & U1 & _ & He & _).
  assert (∃ C2, caches (vm s2) !! c = Some C2) as [C2 HC2] by (destruct (links_committed _ _ c C1 (proj1 (proj2 He)) HC1) as (C2 & ? & _); eauto).
  assert (∃ S2, caches (vm s2) !! src = Some S2) as [S2 HS2] by (destruct (links_committed _ _ src S1 (proj1 (proj2 He)) HS1) as (S2 & ? & _); eauto).
  destruct (merge_after_swap c src s1 s2 T U Hm1 Hm2 (page_count S2 <? page_count C2)) as (v & U2 & H3 & Hvok & Hl & Hoth & (T' & HT' & Hel & Hat) & HU2).
  exists (s2 <| vm := v |>).
  assert (∀ d k, view s d k = cached (default ∅ (trees (vm s1) !! d)) (sSwapHashTable s1) d k) as Hview by (intros; unfold view; by rewrite Htr, Et).
  split_and!.
  - unfold Merge. revert H1. destruct (take_commitment c src s) as [s0| |]; cbn [mbind outcome_bind]; [|done..].
    destruct (caches (vm s0) !! c) as [C0|]; cbn [deref mbind outcome_bind]; [|done]. cbv zeta.
    intros ->. cbn [mbind outcome_bind]. rewrite H2. cbn [mbind outcome_bind]. rewrite HS2, HC2. cbn [deref mbind outcome_bind].
    rewrite H3. done.
  - intros k. rewrite !Hview, (ms_T _ _ _ _ _ (cm_swap _ _ _ _ _ Hm1)), (cm_src _ _ _ _ _ Hm1). unfold view. cbn. rewrite HT'. cbn.
    apply (merged_view _ _ c src k T T' U); [apply Hm2|apply Hel].
  - intros d k ? ?. rewrite Hview. unfold view, cached. cbn. rewrite Hoth by done. by rewrite (mg_addr_other _ _ _ _ _ _ Hm2).
  - intros k p. unfold view, cached. cbn. rewrite HT', <- Hp. cbn. destruct (T' !! k) as [q|] eqn:Ek; [intros [= <-]; by apply (Hat k)|by destruct (_ =? _)].
  - done.
  - apply Hm2.
  - apply Hm2.
  - intros j. etrans; [apply (mg_stray _ _ _ _ _ _ Hm2)|]. rewrite Et. apply stray_avail, Hr.
  - apply Hm2.
  - apply Hm2.
  - intros k. apply (mg_addr_src _ _ _ _ _ _ Hm2 k).
  - destruct (links_committed _ _ c C1 Hl HC1) as (C3 & HC3 & E3). destruct (links_committed _ _ src S1 Hl HS1) as (S3 & HS3 & E4).
    destruct (no_alloc_committed _ _ c a1 (mg_anons _ _ _ _ _ _ Hm2) Ha1) as (a3 & Ha3 & E5).
    destruct (no_alloc_committed _ _ src asrc1 (mg_anons _ _ _ _ _ _ Hm2) Hasrc1) as (as3 & Has3 & E6).
    exists C3, S3, a3, as3. unfold backed, committed_memory, cstate_of in *. cbn in *.
    rewrite (mg_mem _ _ _ _ _ _ Hm2), (mg_avail _ _ _ _ _ _ Hm2), E3, E4, E5, E6. done.
Qed.

(** ** Two caches to run the definitions with *)

(** The entries of the table. *)
Definition slots_list (t : table) : list (Z * Z * Z) :=
  '(key, b) ← map_to_list t;
  k ← block_indices;
  if slot_at b k =? SWAP_SLOT_NONE then [] else [(key.1, key.2 + Z.of_nat k, slot_at b k)].

Lemma elem_of_slots_list (t : table) c i :
  table_ok t → addr t c i ≠ SWAP_SLOT_NONE → (c, i, addr t c i) ∈ slots_list t.
Proof.
  intros Htab Hn. unfold addr, _SwapBlockGetAddress in *. destruct (t !! block_key c i) as [b|] eqn:Eb; [|done].
  destruct (Htab _ _ Eb) as [_ Hdiv]. rewrite block_key_eq in *. cbn in Hdiv.
  assert (32 * (i / 32) + Z.of_nat (block_index i) = i) as Ei by (rewrite block_index_eq; pose proof (Z.div_mod i 32); lia).
  apply list_elem_of_bind. exists ((c, 32 * (i / 32)), b). split; [|by apply elem_of_map_to_list].
  apply list_elem_of_bind. exists (block_index i). split; [|apply elem_of_block_indices, block_index_lt].
  apply Z.eqb_neq in Hn. rewrite Hn. cbn. rewrite Ei. left.
Qed.

Definition table_okb (t : table) : bool :=
  bool_decide (map_Forall (fun k b => length (swap_slots b) = 32%nat ∧ k.2 mod 32 = 0) t).

Lemma table_okb_sound t : table_okb t = true → table_ok t.
Proof.
  unfold table_okb. intros H%bool_decide_eq_true k b Hk. destruct (H k b Hk) as [H1 H2]. split; [done|].
  by apply Z.mod_divide.
Qed.

Lemma slots_list_ok t w :
  table_ok t → files_ok w → Forall (fun e => slot_used w e.2) (slots_list t) →
  (∀ c i c' i' v, (c, i, v) ∈ slots_list t → (c', i', v) ∈ slots_list t → c = c' ∧ i = i') → slots_ok t w.
Proof.
  intros Htab Hf Hu Hinj. rewrite Forall_forall in Hu. split_and!; [done|..].
  - intros c i Hn. by apply (Hu (c, i, addr t c i)), elem_of_slots_list.
  - intros c i c' i' Hn E. apply (Hinj c i c' i' (addr t c i)); [by apply elem_of_slots_list|].
    rewrite E. apply elem_of_slots_list; [done|congruence].
Qed.

Definition three_slots : swap :=
  match swap_slot_alloc 3 swap_two with Ret (_, s) => s | _ => swap_two end.

Lemma three_slots_ok : files_ok three_slots ∧ ∀ i, 0 <= i < 3 → slot_used three_slots i.
Proof.
  assert (match swap_slot_alloc 3 swap_two with Ret (a, _) => a =? 0 | _ => false end = true) as Hz by (vm_compute; reflexivity).
  unfold three_slots. destruct (swap_slot_alloc 3 swap_two) as [[a s]| |] eqn:Ha; [|discriminate..]. apply Z.eqb_eq in Hz as ->.
  destruct (swap_slot_alloc_ok 3 swap_two 0 s swap_two_ok) as (H1 & _ & _ & _ & H2 & _); [vm_compute; split; [reflexivity|discriminate]|done|].
  split; [done|]. intros i Hi. apply H2. left. unfold run. lia.
Qed.

Definition some_page (offset ref : Z) : page :=
  page_zero <| queue := Some QActive |> <| cache_ref := Some ref |> <| cache_offset := offset |>.

Definition some_cache (tree : gmap Z Z) (ref committed : Z) : VMCache :=
  mkVMCache [] [] tree None 0 (8 * PAGE_SIZE) 7 committed (Z.of_nat (size tree)) true true CACHE_TYPE_RAM 1 ref 0.

(** The consumer 1 holds a page at index 0 and a swap slot for index 2; its
    source 2 pages at 0 to 2 and slots for 0 and 3. *)
Definition consumer_tree : gmap Z Z := {[ 0 := 10 ]}.
Definition source_tree : gmap Z Z := {[ 0 := 20; 1 := 21; 2 := 22 ]}.

Definition two_vm : vmstate :=
  (vm_boot {[ 10 := some_page 0 1000; 20 := some_page 0 1001; 21 := some_page 1 1001; 22 := some_page 2 1001 ]})
    <| cacherefs := {[ 1000 := 1; 1001 := 2 ]} |> <| sActivePageQueue := mkQueue 4 [10; 20; 21; 22] |>
    <| caches := {[ 1 := some_cache consumer_tree 1000 (8 * PAGE_SIZE);
                    2 := some_cache source_tree 1001 (8 * PAGE_SIZE) ]} |>.

Definition two_table : table :=
  {[ (1, 0) := mkBlock 1 (<[2%nat := 0]> (swap_slots block_new));
     (2, 0) := mkBlock 2 (<[0%nat := 1]> (<[3%nat := 2]> (swap_slots block_new))) ]}.

Definition two_caches : astate :=
  mkAState two_vm {[ 1 := mkAnon false false 0 0 PAGE_SIZE PAGE_SIZE; 2 := mkAnon false false 0 0 PAGE_SIZE (2 * PAGE_SIZE) ]}
    two_table three_slots (mkMemory (2 ^ 30) 0 (2 ^ 31)).

Lemma two_vm_ok : vm_ok two_vm.
Proof. split_and!; [apply caches_okb_sound|apply pages_okb_sound|]; vm_compute; reflexivity. Qed.

Lemma two_table_slots c i v :
  (c, i, v) ∈ slots_list two_table → (c, i, v) ∈ [(1, 2, 0); (2, 0, 1); (2, 3, 2)].
Proof.
  assert (bool_decide (slots_list two_table ⊆ [(1, 2, 0); (2, 0, 1); (2, 3, 2)]) = true) as H by (vm_compute; reflexivity).
  apply bool_decide_eq_true in H. apply H.
Qed.

Lemma two_table_ok : table_ok two_table ∧ slots_ok two_table three_slots.
Proof.
  assert (table_ok two_table) as Htab by (apply table_okb_sound; vm_compute; reflexivity).
  destruct three_slots_ok as [Hf Hu]. split; [done|]. apply slots_list_ok; [done|done|..].
  - apply Forall_forall. intros [[c i] v] Hv%two_table_slots. apply Hu. rewrite !elem_of_cons in Hv. cbn.
    destruct Hv as [[= -> -> ->]|[[= -> -> ->]|[[= -> -> ->]|[]%elem_of_nil]]]; lia.
  - intros c i c' i' v H1%two_table_slots H2%two_table_slots. rewrite !elem_of_cons in H1, H2.
    destruct H1 as [H|[H|[H|[]%elem_of_nil]]], H2 as [H'|[H'|[H'|[]%elem_of_nil]]]; by simplify_eq.
Qed.

Lemma idle_pages p : p ∈ [20; 21; 22] → idle two_vm p.
Proof. rewrite !elem_of_cons. intros [->|[->|[->|[]%elem_of_nil]]]; eexists; (split; [vm_compute; reflexivity|]); vm_compute; done. Qed.

Lemma source_pages k p : source_tree !! k = Some p → p ∈ [20; 21; 22] ∧ 0 <= k < 3.
Proof.
  unfold source_tree. rewrite !lookup_insert_Some, lookup_singleton_Some, !elem_of_cons.
  intros [[<- <-]|[_ [[<- <-]|[_ [<- <-]]]]]; (split; [tauto|lia]).
Qed.

Lemma two_caches_can_merge : can_merge 1 2 two_caches consumer_tree source_tree.
Proof.
  destruct two_table_ok as [Htab Hslots].
  split; [split|..]; try done.
  - apply two_vm_ok.
  - intros idx b Hb. assert (b = mkBlock 2 (<[0%nat := 1]> (<[3%nat := 2]> (swap_slots block_new)))) as ->.
    { unfold two_caches, two_table in Hb. cbn in Hb. rewrite lookup_insert_ne in Hb by congruence. apply lookup_singleton_Some in Hb as [_ <-]. done. }
    vm_compute. reflexivity.
  - eexists. split; vm_compute; reflexivity.
  - eexists. split; vm_compute; reflexivity.
  - intros U k p [= <-] _ _ [Hp _]%source_pages. by apply idle_pages.
  - intros k p [Hp _]%source_pages. destruct (idle_pages p Hp) as (pg & ? & ? & _). by exists pg.
  - intros k p [Hp _]%source_pages _. by apply idle_pages.
  - intros S k HS. assert (virtual_base S = 0 ∧ virtual_end S = 8 * PAGE_SIZE) as [-> ->] by (injection HS as <-; done).
    intros [Hk|[p [_ Hk]%source_pages]].
    + apply (elem_of_slots_list two_table 2 k Htab) in Hk.
      apply two_table_slots in Hk. rewrite !elem_of_cons in Hk. unfold PAGE_SIZE.
      destruct Hk as [Hk|[Hk|[Hk|[]%elem_of_nil]]]; apply pair_eq in Hk as [Hk%pair_eq _]; lia.
    + unfold PAGE_SIZE. lia.
Qed.

Lemma merge_strategies_agree_witness :
  ∃ v1 v2, _MergePagesSmallerSource 1 2 two_vm = Ret v1 ∧ VMCache_Merge 1 2 two_vm = Ret v1 ∧
    _MergePagesSmallerConsumer 1 2 two_vm = Ret v2 ∧ trees v1 !! 1 = trees v2 !! 1.
Proof.
  destruct (merge_strategies_agree 1 2 two_vm consumer_tree source_tree) as (v1 & v2 & H1 & H2 & H3 & _ & _ & _ & _ & _ & _ & H4).
  - apply two_vm_ok.
  - done.
  - reflexivity.
  - reflexivity.
  - intros o p [Hp _]%source_pages. destruct (idle_pages p Hp) as (pg & ? & ? & _). by exists pg.
  - intros o p q _ [Hp _]%source_pages. by apply idle_pages.
  - exists v1, v2. split_and!; [done..|]. by apply H4.
Defined.

Lemma merge_correct_witness :
  ∃ s', Merge (fun n => n * 1000000) some_env 1 2 two_caches = Ret s' ∧
    map (view s' 1) [0; 1; 2; 3; 4] = [Some (inl 10); Some (inl 21); Some (inr 0); Some (inr 2); None].
Proof.
  destruct (merge_correct (fun n => n * 1000000) some_env 1 2 two_caches consumer_tree source_tree
    (some_cache consumer_tree 1000 (8 * PAGE_SIZE)) (some_cache source_tree 1001 (8 * PAGE_SIZE))
    (mkAnon false false 0 0 PAGE_SIZE PAGE_SIZE) (mkAnon false false 0 0 PAGE_SIZE (2 * PAGE_SIZE))) as (s' & H1 & H2 & _).
  - apply two_caches_can_merge.
  - by split.
  - exists s'. split; [done|]. cbn [map]. rewrite !H2. vm_compute. reflexivity.
Defined.


(** The merge copies slots into the block of the consumer without counting
    them in its [used] field: freeing the swap space of page 2 afterwards
    throws the block away, and with it the slot of page 3. *)
Lemma merge_loses_used :
  match Merge (fun n => n * 1000000) some_env 1 2 two_caches with
  | Ret s =>
      match _FreeSwapPageRange 1 (2 * PAGE_SIZE) (3 * PAGE_SIZE) false s with
      | Ret s' => negb (addr (sSwapHashTable s) 1 3 =? SWAP_SLOT_NONE) && (addr (sSwapHashTable s') 1 3 =? SWAP_SLOT_NONE)
      | _ => false
      end
  | _ => false
  end = true.
Proof. vm_compute. reflexivity. Qed.
