(* ===== verification/SwapIO.v ===== *)
(** cache/mm_anonymous_cache.cpp: freeing the swap slots of a range of pages,
    the blocks of slots built for pages written out, and the swap I/O of an
    anonymous cache ([Read], [Write], [WriteAsync] and its callback).

    The VFS is not part of the repository: [PageIO] is what the code relies on
    for reading and writing whole pages of a swap file.  Only single pages are
    claimed of it, the use the comments of the code name; the definitions
    follow the loops over vectors and chunks. *)
From S2P Require Import Prelude VMState PageQueue CachePages PageAlloc MemoryCommit SwapSpace CacheEffects AnonymousCache.
From stdpp Require Import base list list_numbers numbers gmap sorting.
From Stdlib Require Import ZArith Lia.
Local Open Scope Z_scope.

(** ** Input and output *)

Record generic_iovec := mkVec { vbase : Z; vlength : Z }.

(** [contents base] is the page of memory at physical address [base],
    [stored node pos] the page of a file at byte [pos]. *)
Class PageIO := {
  io : Type;
  content : Type;
  contents : Z → io → content;
  stored : Z → Z → io → content;
  vfs_write_pages : Z → Z → list generic_iovec → io → status * io;
  vfs_read_pages : Z → Z → list generic_iovec → io → status * io;
  write_page node pos base d d' : vfs_write_pages node pos [mkVec base PAGE_SIZE] d = (Ok, d') →
    stored node pos d' = contents base d ∧ ∀ b, contents b d' = contents b d;
  read_page node pos base d d' : vfs_read_pages node pos [mkVec base PAGE_SIZE] d = (Ok, d') →
    contents base d' = stored node pos d
}.

Section ops.
Context {DL : DLList Z} {RB : RadixBitmap} {IO : PageIO}.
Implicit Types (s : astate) (c : Z).

Definition vec_pages (v : generic_iovec) : Z := Z.shiftr (u64 (vlength v + PAGE_SIZE - 1)) PAGE_SHIFT.

(** The position of a slot: the file it is in and the byte offset there. *)
Definition slot_position (slotIndex : Z) (w : swap) : outcome (swap_file * Z) :=
  f ← find_swap_file slotIndex w;
  Ret (f, u32 (slotIndex - first_slot f) * PAGE_SIZE).

(** [Read]: the runs of pages whose slots follow one another. *)
Fixpoint same_run c (pageIndex startSlotIndex i : Z) (j : Z) (n : nat) s : Z :=
  match n with
  | O => j
  | S n =>
      if _SwapBlockGetAddress c (pageIndex + j) (sSwapHashTable s) =? u32 (startSlotIndex + j - i)
      then same_run c pageIndex startSlotIndex i (j + 1) n s else j
  end.

Fixpoint read_loop (fuel : nat) c (pageIndex i : Z) (vecs : list generic_iovec) s (d : io) : outcome (status * io) :=
  let count := Z.of_nat (length vecs) in
  if i <? count then
    match fuel with
    | O => NoFuel
    | S fuel =>
        let startSlotIndex := _SwapBlockGetAddress c (pageIndex + i) (sSwapHashTable s) in
        let j := same_run c pageIndex startSlotIndex i (i + 1) (Z.to_nat (count - (i + 1))) s in
        '(f, pos) ← slot_position startSlotIndex (swapfiles s);
        match vfs_read_pages (vnode f) pos (take (Z.to_nat (j - i)) (drop (Z.to_nat i) vecs)) d with
        | (Ok, d) => read_loop fuel c pageIndex j vecs s d
        | (st, d) => Ret (st, d)
        end
    end
  else Ret (Ok, d).

Definition Read c (offset : Z) (vecs : list generic_iovec) s (d : io) : outcome (status * io) :=
  read_loop (length vecs) c (Z.shiftr offset PAGE_SHIFT) 0 vecs s d.

(** [Write]: first the swap space the pages have is given up ... *)
Fixpoint write_free c (pageIndex totalPages : Z) (vecs : list generic_iovec) s : outcome (Z * astate) :=
  match vecs with
  | [] => Ret (totalPages, s)
  | v :: vecs =>
      let pageCount := vec_pages v in
      let slotIndex := _SwapBlockGetAddress c (pageIndex + totalPages) (sSwapHashTable s) in
      s ← (if slotIndex =? SWAP_SLOT_NONE then Ret s
           else
             w ← swap_slot_dealloc slotIndex pageCount (swapfiles s);
             t ← _SwapBlockFree c (pageIndex + totalPages) pageCount (sSwapHashTable s);
             Ret (upd_anon c (add_allocated (- (pageCount * PAGE_SIZE))) (s <| swapfiles := w |> <| sSwapHashTable := t |>)));
      write_free c pageIndex (totalPages + pageCount) vecs s
  end.

(** ... then slots are allocated, halving the request while it is refused, ... *)
Fixpoint alloc_halving (fuel : nat) (n : Z) (w : swap) : outcome (Z * Z * swap) :=
  '(slotIndex, w) ← swap_slot_alloc (u32 n) w;
  if (slotIndex =? SWAP_SLOT_NONE) && (2 <=? n) then
    match fuel with O => NoFuel | S fuel => alloc_halving fuel (Z.shiftr n 1) w end
  else Ret (slotIndex, n, w).

(** ... and each vector is written in chunks of as many pages. *)
Fixpoint write_chunks (fuel : nat) (failures : Z → list (table → table)) c (pageIndex totalPages pageCount vectorBase j n pagesLeft : Z)
    s (d : io) : outcome (status * Z * astate * io) :=
  if j <? pageCount then
    match fuel with
    | O => NoFuel
    | S fuel =>
        '(slotIndex, n, w) ← alloc_halving (Z.to_nat n) n (swapfiles s);
        let s := s <| swapfiles := w |> in
        _ ← assert (negb (slotIndex =? SWAP_SLOT_NONE));
        '(f, pos) ← slot_position slotIndex (swapfiles s);
        match vfs_write_pages (vnode f) pos [mkVec vectorBase (u64 (n * PAGE_SIZE))] d with
        | (Ok, d) =>
            t ← _SwapBlockBuild failures c (pageIndex + totalPages) slotIndex (u32 n) (sSwapHashTable s);
            write_chunks fuel failures c pageIndex totalPages pageCount
              (if n =? pageCount then vectorBase else u64 (vectorBase + n * PAGE_SIZE)) (j + n) n (pagesLeft - n)
              (s <| sSwapHashTable := t |>) d
        | (st, d) =>
            w ← swap_slot_dealloc slotIndex (u32 n) (swapfiles s);
            Ret (st, pagesLeft, upd_anon c (add_allocated (- (pagesLeft * PAGE_SIZE))) (s <| swapfiles := w |>), d)
        end
    end
  else Ret (Ok, pagesLeft, s, d).

Fixpoint write_vecs (failures : Z → list (table → table)) c (pageIndex totalPages pagesLeft : Z) (vecs : list generic_iovec)
    s (d : io) : outcome (status * astate * io) :=
  match vecs with
  | [] => _ ← assert (pagesLeft =? 0); Ret (Ok, s, d)
  | v :: vecs =>
      let pageCount := vec_pages v in
      '(st, pagesLeft, s, d) ←
        write_chunks (Z.to_nat pageCount) failures c pageIndex totalPages pageCount (vbase v) 0 pageCount pagesLeft s d;
      match st with
      | Ok => write_vecs failures c pageIndex (totalPages + pageCount) pagesLeft vecs s d
      | Err _ => Ret (st, s, d)
      end
  end.

Definition Write (failures : Z → list (table → table)) c (offset : Z) (vecs : list generic_iovec) s (d : io)
  : outcome (status * astate * io) :=
  let pageIndex := Z.shiftr offset PAGE_SHIFT in
  '(totalPages, s) ← write_free c pageIndex 0 vecs s;
  let totalSize := totalPages * PAGE_SIZE in
  a ← deref (anons s !! c);
  if committed_swap_size a <? allocated_swap_size a + totalSize then Ret (Err EINVAL, s, d)
  else
    let s := upd_anon c (add_allocated totalSize) s in
    write_vecs failures c pageIndex 0 totalPages vecs s d.

(** [WriteAsync] up to the hand-over to the VFS: the position to write to and
    what the callback gets, or the error reported. *)
Definition WriteAsync c (offset : Z) (callback : bool) s : outcome ((errno + swap_file * Z * (Z * Z * bool)) * astate) :=
  let pageIndex := Z.shiftr offset PAGE_SHIFT in
  let slotIndex := _SwapBlockGetAddress c pageIndex (sSwapHashTable s) in
  let newSlot := slotIndex =? SWAP_SLOT_NONE in
  a ← deref (anons s !! c);
  if newSlot && (committed_swap_size a <? allocated_swap_size a + PAGE_SIZE) then Ret (inl EIO, s)
  else
    '(slotIndex, s) ←
      (if newSlot then
         '(slotIndex, w) ← swap_slot_alloc 1 (swapfiles s);
         Ret (slotIndex, upd_anon c (add_allocated PAGE_SIZE) (s <| swapfiles := w |>))
       else Ret (slotIndex, s));
    if negb callback then
      s ← (if newSlot then
             w ← swap_slot_dealloc slotIndex 1 (swapfiles s);
             Ret (upd_anon c (add_allocated (- PAGE_SIZE)) (s <| swapfiles := w |>))
           else Ret s);
      Ret (inl ENOMEM, s)
    else
      '(f, pos) ← slot_position slotIndex (swapfiles s);
      Ret (inr (f, pos, (pageIndex, slotIndex, newSlot)), s).

(** [WriteCallback::IOFinished]. *)
Definition IOFinished (failures : Z → list (table → table)) c (wc : Z * Z * bool) (st : status) s : outcome astate :=
  let '(fPageIndex, fSlotIndex, fNewSlot) := wc in
  if fNewSlot then
    match st with
    | Ok => t ← _SwapBlockBuild failures c fPageIndex fSlotIndex 1 (sSwapHashTable s); Ret (s <| sSwapHashTable := t |>)
    | Err _ =>
        w ← swap_slot_dealloc fSlotIndex 1 (swapfiles s);
        Ret (upd_anon c (add_allocated (- PAGE_SIZE)) (s <| swapfiles := w |>))
    end
  else Ret s.
End ops.

Section free.
Context {DL : DLList Z} {RB : RadixBitmap}.
Implicit Types (s : astate) (t : table) (c i k idx : Z).

(** What freeing the slots of the indices [P] of a cache does. *)
Record slots_freed (P : Z → bool) c s s' : Prop := {
  fr_vm : vm s' = vm s;
  fr_mem : mem s' = mem s;
  fr_avail : sAvailSwapSpace (swapfiles s') = sAvailSwapSpace (swapfiles s);
  fr_anons : delete c (anons s') = delete c (anons s);
  fr_anon : no_alloc <$> anons s' = no_alloc <$> anons s;
  fr_alloc : alloc_exact c s';
  fr_addr : ∀ d k, addr (sSwapHashTable s') d k =
    if decide (d = c ∧ P k = true) then SWAP_SLOT_NONE else addr (sSwapHashTable s) d k;
  fr_table : table_ok (sSwapHashTable s');
  fr_slots : slots_ok (sSwapHashTable s') (swapfiles s');
  fr_used : ∀ d, used_exact_of d (sSwapHashTable s) → used_exact_of d (sSwapHashTable s')
}.

(** What it relies on. *)
Record swap_ok c s : Prop := {
  so_table : table_ok (sSwapHashTable s);
  so_slots : slots_ok (sSwapHashTable s) (swapfiles s);
  so_used : used_exact_of c (sSwapHashTable s);
  so_alloc : alloc_exact c s
}.

Lemma slots_freed_ok P c s s' : swap_ok c s → slots_freed P c s s' → swap_ok c s'.
Proof. intros [] []. split; auto. Qed.

Lemma slots_freed_refl c s : swap_ok c s → slots_freed (fun _ => false) c s s.
Proof. intros []. split; try done. intros d k. by rewrite decide_False by (by intros [_ ?]). Qed.

Lemma slots_freed_ext P Q c s s' : (∀ k, addr (sSwapHashTable s) c k ≠ SWAP_SLOT_NONE → P k = Q k) → slots_freed P c s s' → slots_freed Q c s s'.
Proof.
  intros H [H1 H2 H3 H4 H5 H6 H7 H8 H9 H10]. split; try done. intros d k. rewrite H7.
  destruct (decide (d = c)) as [->|]; [|by rewrite !decide_False by tauto].
  destruct (decide (addr (sSwapHashTable s) c k = SWAP_SLOT_NONE)) as [->|Hn]; [by repeat case_decide|].
  rewrite (H k Hn). done.
Qed.

Lemma slots_freed_trans P Q c s1 s2 s3 : slots_freed P c s1 s2 → slots_freed Q c s2 s3 → slots_freed (fun k => P k || Q k) c s1 s3.
Proof.
  intros [H1 H2 H3 H4 H5 H6 H7 H8 H9 H10] [G1 G2 G3 G4 G5 G6 G7 G8 G9 G10]. split; try congruence; try done; [|auto].
  intros d k. rewrite G7, H7. destruct (decide (d = c)) as [->|]; [|by rewrite !decide_False by tauto].
  destruct (P k), (Q k); cbn; repeat case_decide; tauto || done.
Qed.

(** Freeing one slot; an empty block leaves the table. *)
Lemma free_slot_ok c idx (k : nat) b s :
  swap_ok c s → (32 | idx) → sSwapHashTable s !! (c, idx) = Some b → (k < 32)%nat → slot_at b k ≠ SWAP_SLOT_NONE →
  ∃ w, swap_slot_dealloc (slot_at b k) 1 (swapfiles s) = Ret w ∧
    let b' := clear_slot b k (u32 (used b - 1)) in
    used_exact b' ∧
    slots_freed (fun i => i =? idx + Z.of_nat k) c s
      (upd_anon c (add_allocated (- PAGE_SIZE)) (s <| swapfiles := w |>)
         <| sSwapHashTable ::= if used b' =? 0 then delete (c, idx) else <[(c, idx) := b']> |>).
Proof.
  intros [Htab Hsl Hu (a & Ha & Ea)] Hd Hb Hk Hs. set (t := sSwapHashTable s) in *. destruct (Htab _ _ Hb) as [Hbok _].
  destruct (slots_ok_clear t (swapfiles s) c idx b k (u32 (used b - 1)) Hsl Hd Hb Hbok Hk Hs) as (w & H1 & H2 & H3 & _).
  exists w. split; [done|]. set (b' := clear_slot b k (u32 (used b - 1))) in *. cbv zeta.
  pose proof (clear_slot_nslots b k (u32 (used b - 1)) Hbok Hk Hs) as Hn. fold b' in Hn.
  assert (used_exact b') as Hu'.
  { unfold used_exact. rewrite Hn, <- (Hu idx b Hb). cbn. apply wrap_small. rewrite (Hu idx b Hb). pose proof (nslots_le b Hbok). pose proof (nslots_pos b k Hs). unfold fits. lia. }
  assert (block_ok b') as Hbok' by (by apply clear_slot_ok).
  split; [done|]. destruct (block_at idx k Hd Hk) as [Hin Hidx].
  set (t' := (if used b' =? 0 then delete (c, idx) else <[(c, idx) := b']>) t).
  assert (∀ d i, addr t' d i = addr (<[(c, idx) := b']> t) d i) as Hsame.
  { intros d i. unfold t'. destruct (Z.eqb_spec (used b') 0) as [E0|]; [|done]. rewrite addr_delete, (addr_update t c idx b) by done.
    case_decide as Hc; [|done]. destruct Hc as [-> Hi]. rewrite Hu' in E0.
    destruct (decide (slot_at b' (block_index i) = SWAP_SLOT_NONE)) as [|Hp%nslots_pos]; [done|lia]. }
  set (s' := upd_anon c _ _ <| sSwapHashTable ::= _ |>).
  assert (vm s' = vm s ∧ mem s' = mem s ∧ swapfiles s' = w ∧ anons s' = alter (add_allocated (- PAGE_SIZE)) c (anons s) ∧ sSwapHashTable s' = t')
    as (E1 & E2 & E3 & E4 & E5) by done. clearbody s'.
  split; rewrite ?E3, ?E4, ?E5; try done.
  - by rewrite delete_alter_eq.
  - apply map_eq. intros d. rewrite !lookup_fmap.
    destruct (decide (d = c)) as [->|]; [by rewrite lookup_alter_eq, Ha|by rewrite lookup_alter_ne].
  - exists (add_allocated (- PAGE_SIZE) a). rewrite E4, E5, lookup_alter_eq, Ha. split; [done|]. cbn. rewrite Ea.
    enough (swapped t' c = swapped t c - 1) as -> by (unfold PAGE_SIZE; lia). unfold t'. destruct (Z.eqb_spec (used b') 0) as [E0|].
    + rewrite (swapped_delete t c idx b), decide_True by done. rewrite Hu' in E0. lia.
    + rewrite (swapped_update t c idx b), decide_True by done. lia.
  - intros d i. rewrite Hsame, (addr_update t c idx b) by done. destruct (decide (d = c ∧ in_block idx i)) as [[-> Hi]|Hni].
    + pose proof (in_block_index idx i Hd Hi). unfold b'. rewrite clear_slot_at by done.
      destruct (decide (k = block_index i)) as [->|].
      * rewrite decide_True; [done|]. split; [done|]. apply Z.eqb_eq. lia.
      * rewrite decide_False by (intros [_ E%Z.eqb_eq]; lia). symmetry. by eapply addr_block.
    + rewrite decide_False; [done|]. intros [-> ->%Z.eqb_eq]. by apply Hni.
  - unfold t'. intros key b1. destruct (used b' =? 0); [rewrite lookup_delete_Some; intros [_ ?]; by apply Htab|].
    rewrite lookup_insert_Some. intros [[<- <-]|[_ ?]]; [done|by apply Htab].
  - by eapply slots_ok_ext.
  - intros d Hd'. unfold t'. intros i b1. destruct (used b' =? 0); [rewrite lookup_delete_Some; intros [_ ?]; by eapply Hd'|].
    rewrite lookup_insert_Some. intros [[_ <-]|[_ ?]]; [done|by eapply Hd'].
Qed.

(** ** Freeing the slots of a range *)

Definition busy_at (v : vmstate) (T : gmap Z Z) k : bool :=
  match T !! k ≫= (pages v !!.) with Some pg => busy pg | None => false end.

Lemma page_is_busy_ok c T k s :
  caches_ok (vm s) → trees (vm s) !! c = Some T → page_is_busy c k s = Ret (busy_at (vm s) T k).
Proof.
  intros Hok HT. unfold page_is_busy, busy_at. replace (k * PAGE_SIZE) with (Z.shiftl k PAGE_SHIFT) by (by rewrite Z.shiftl_mul_pow2).
  rewrite (LookupPage_trees _ c T) by done. cbn [mbind outcome_bind]. destruct (T !! k) as [p|] eqn:Ek; [|done].
  destruct (tree_page (vm s) c T k p Hok HT Ek) as (_ & pg & _ & Hp & _). cbn. rewrite Hp. done.
Qed.

Lemma roundup_block i : roundup (i + 1) 32 = 32 * (i / 32) + 32.
Proof. unfold roundup. zlia. Qed.

Lemma block_next c i : (32 | i + 1) ∨ block_key c (i + 1) = block_key c i.
Proof.
  rewrite !block_key_eq. destruct (decide ((i + 1) mod 32 = 0)); [left; by apply Z.mod_divide|right; f_equal; zlia].
Qed.

(** The indices the loop frees from [i] on. *)
Definition to_free (skip : bool) (v : vmstate) (T : gmap Z Z) (i toIndex k : Z) : bool :=
  (i <=? k) && (k <? toIndex) && negb (skip && busy_at v T k).

Lemma to_free_from skip v T i i' toIndex k :
  i <= i' → ¬ (i <= k < i') → to_free skip v T i' toIndex k = to_free skip v T i toIndex k.
Proof. intros Hi Hk. unfold to_free. f_equal. apply eq_true_iff_eq. rewrite !andb_true_iff, !Z.leb_le. lia. Qed.

(** The block the loop has at hand is the one of the current page. *)
Definition at_hand c (pageIndex : Z) (blk : option (Z * Z)) t : Prop :=
  match blk with None => True | Some key => (32 | pageIndex) ∨ key = block_key c pageIndex ∧ is_Some (t !! key) end.

Lemma at_hand_lookup c i blk t :
  at_hand c i blk t →
  (if bool_decide (blk = None) || (block_index i =? 0)%nat
   then (if t !! block_key c i then Some (block_key c i) else None) else blk) =
  (if t !! block_key c i then Some (block_key c i) else None).
Proof.
  intros H. destruct blk as [key|]; [|done]. cbn. destruct (Nat.eqb_spec (block_index i) 0) as [|Hn]; [done|].
  destruct H as [[m ->]|[-> [b ->]]]; [|done]. pose proof (block_index_eq (m * 32)). rewrite Z.mod_mul in H by done. lia.
Qed.

(** Freeing the slot of [i], then those from [i'] on. *)
Lemma to_free_split P skip v T i i' toIndex c s s1 k :
  slots_freed P c s s1 → i < i' → (∀ k, i < k < i' → addr (sSwapHashTable s1) c k = SWAP_SLOT_NONE) → (∀ k, P k = true → k = i) →
  P i = to_free skip v T i toIndex i ∨ addr (sSwapHashTable s) c i = SWAP_SLOT_NONE → addr (sSwapHashTable s) c k ≠ SWAP_SLOT_NONE →
  P k || to_free skip v T i' toIndex k = to_free skip v T i toIndex k.
Proof.
  intros Hfr Hi Hnone HP HPi Hk. destruct (decide (k = i)) as [->|Hne].
  { destruct HPi as [->|]; [|done]. replace (to_free skip v T i' toIndex i) with false; [by rewrite orb_false_r|].
    unfold to_free. by rewrite (proj2 (Z.leb_gt i' i)). }
  assert (P k = false) as EP by (destruct (P k) eqn:E; [by apply HP in E|done]). rewrite EP. cbn [orb].
  apply to_free_from; [lia|]. intros Hr. apply Hk. rewrite <- (Hnone k) by lia. rewrite (fr_addr _ _ _ _ Hfr), decide_False; [done|].
  rewrite EP. by intros [_ ?].
Qed.

Lemma free_range_loop_ok fuel c skip T toIndex i blk s :
  swap_ok c s → caches_ok (vm s) → trees (vm s) !! c = Some T → at_hand c i blk (sSwapHashTable s) →
  toIndex - i <= Z.of_nat fuel →
  ∃ s', free_range_loop fuel c skip toIndex i blk s = Ret s' ∧ slots_freed (to_free skip (vm s) T i toIndex) c s s'.
Proof.
  revert i blk s. induction fuel as [|fuel IH]; intros i blk s Hok Hvm HT Hhand Hf;
    pose proof Hok as [Htab _ _ (a & Ha & Ea)]; cbn [free_range_loop]; rewrite Ha; cbn [deref mbind outcome_bind];
    destruct (Z.ltb_spec i toIndex) as [Hlt|Hge];
    try (exists s; split; [done|]; eapply slots_freed_ext; [|by apply slots_freed_refl]; intros k _; unfold to_free;
         symmetry; apply andb_false_iff; left; apply andb_false_iff; rewrite Z.leb_gt, Z.ltb_ge; lia); [lia|].
  destruct (Z.ltb_spec 0 (allocated_swap_size a)) as [_|H0]; cbn [andb].
  2:{ exists s. split; [done|]. eapply slots_freed_ext; [|by apply slots_freed_refl]. intros k Hn. exfalso. apply Hn, swapped_zero. unfold PAGE_SIZE in Ea. lia. }
  rewrite at_hand_lookup by done. change SWAP_BLOCK_PAGES with 32. rewrite roundup_block. rewrite block_key_eq. set (idx := 32 * (i / 32)).
  assert ((32 | idx)) as Hd by (by exists (i / 32); unfold idx; lia). assert (in_block idx i) as Hin by (unfold in_block, idx; zlia).
  pose proof (in_block_index idx i Hd Hin) as Hidx.
  assert (∀ s1 P i' blk', slots_freed P c s s1 → i < i' → at_hand c i' blk' (sSwapHashTable s1) →
      (∀ k, i < k < i' → addr (sSwapHashTable s1) c k = SWAP_SLOT_NONE) → (∀ k, P k = true → k = i) →
      P i = to_free skip (vm s) T i toIndex i ∨ addr (sSwapHashTable s) c i = SWAP_SLOT_NONE →
      ∃ s', free_range_loop fuel c skip toIndex i' blk' s1 = Ret s' ∧ slots_freed (to_free skip (vm s) T i toIndex) c s s') as Hgo.
  { intros s1 P i' blk' Hfr Hi' Hh Hnone HP HPi. pose proof (fr_vm _ _ _ _ Hfr) as Ev.
    destruct (IH i' blk' s1) as (s' & H1 & H2); [by eapply slots_freed_ok|by rewrite Ev|by rewrite Ev|done|lia|].
    exists s'. split; [done|]. rewrite Ev in H2. eapply slots_freed_ext; [|by eapply slots_freed_trans]. intros k Hk. cbn beta.
    by eapply to_free_split. }
  assert (∀ s1 P, slots_freed P c s s1 → sSwapHashTable s1 !! (c, idx) = None → (∀ k, P k = true → k = i) →
      P i = to_free skip (vm s) T i toIndex i ∨ addr (sSwapHashTable s) c i = SWAP_SLOT_NONE →
      ∃ s', free_range_loop fuel c skip toIndex (idx + 32) None s1 = Ret s' ∧ slots_freed (to_free skip (vm s) T i toIndex) c s s') as Hskip.
  { intros s1 P Hfr Hb HP HPi. unfold in_block in Hin. apply (Hgo s1 P); [done|lia|done| |done|done].
    intros k Hk. apply addr_no_block with (idx := idx); [done|unfold in_block; lia|done]. }
  assert (∀ s1 P, slots_freed P c s s1 → is_Some (sSwapHashTable s1 !! (c, idx)) → (∀ k, P k = true → k = i) →
      P i = to_free skip (vm s) T i toIndex i ∨ addr (sSwapHashTable s) c i = SWAP_SLOT_NONE →
      ∃ s', free_range_loop fuel c skip toIndex (i + 1) (Some (c, idx)) s1 = Ret s' ∧ slots_freed (to_free skip (vm s) T i toIndex) c s s') as Hnext.
  { intros s1 P Hfr Hb HP HPi. apply (Hgo s1 P); [done|lia| |lia|done|done].
    destruct (block_next c i) as [|E]; [by left|right]. rewrite E, block_key_eq. done. }
  destruct (sSwapHashTable s !! (c, idx)) as [b|] eqn:Eb.
  2:{ apply (Hskip s (fun _ => false)); [by apply slots_freed_refl|done|done|]. right. by eapply addr_no_block. }
  rewrite Eb. cbn [deref mbind outcome_bind]. destruct (Z.eqb_spec (slot_at b (block_index i)) SWAP_SLOT_NONE) as [E|Hn].
  { apply (Hnext s (fun _ => false)); [by apply slots_freed_refl|by rewrite Eb; eauto|done|]. right. by erewrite addr_block. }
  assert ((if skip then page_is_busy c i s else Ret false) = Ret (skip && busy_at (vm s) T i)) as ->
    by (destruct skip; [by apply page_is_busy_ok|done]). cbn [mbind outcome_bind].
  assert (to_free skip (vm s) T i toIndex i = negb (skip && busy_at (vm s) T i)) as Hi.
  { unfold to_free. rewrite (proj2 (Z.leb_le i i)), (proj2 (Z.ltb_lt i toIndex)) by lia. done. }
  destruct (skip && busy_at (vm s) T i) eqn:Esk.
  { apply (Hnext s (fun _ => false)); [by apply slots_freed_refl|by rewrite Eb; eauto|done|]. left. by rewrite Hi. }
  destruct (free_slot_ok c idx (block_index i) b s Hok Hd Eb (block_index_lt i) Hn) as (w & Hw & _ & Hfr).
  rewrite Hw. cbn [mbind outcome_bind]. cbv zeta in Hfr |- *. fold (clear_slot b (block_index i) (u32 (used b - 1))).
  rewrite Hidx in Hfr. destruct (used (clear_slot b (block_index i) (u32 (used b - 1))) =? 0).
  - eapply Hskip; [exact Hfr|apply lookup_delete_eq|by intros k ->%Z.eqb_eq|]. left. by rewrite Hi, Z.eqb_refl.
  - eapply Hnext; [exact Hfr| |by intros k ->%Z.eqb_eq|left; by rewrite Hi, Z.eqb_refl]. cbn. rewrite lookup_insert_eq. eauto.
Qed.
End free.

(** ** Building and freeing blocks *)

Section build.
Context {DL : DLList Z} {RB : RadixBitmap}.
Implicit Types (t : table) (c idx : Z) (b : swap_block) (n : nat).

Lemma fill_S n (i : nat) v l : fill (S n) i v l = <[(i + n)%nat := v n]> (fill n i v l).
Proof. unfold fill. rewrite seq_S, foldl_app. done. Qed.

Lemma fill_length n (i : nat) v l : length (fill n i v l) = length l.
Proof. induction n; [done|]. rewrite fill_S, length_insert. done. Qed.

Lemma fill_lookup n i v l k :
  (i + n ≤ length l)%nat → fill n i v l !! k = if decide (i ≤ k < i + n)%nat then Some (v (k - i)%nat) else l !! k.
Proof.
  induction n as [|n IH]; intros Hl; [by rewrite decide_False by lia|]. rewrite fill_S.
  destruct (decide (k = i + n)%nat) as [->|Hne].
  - rewrite list_lookup_insert_eq by (rewrite fill_length; lia). rewrite decide_True by lia. f_equal. f_equal. lia.
  - rewrite list_lookup_insert_ne, IH by lia. repeat case_decide; lia || done.
Qed.

Lemma fill_slot_at b b' n i v k :
  swap_slots b' = fill n i v (swap_slots b) → block_ok b → (i + n ≤ 32)%nat →
  slot_at b' k = if decide (i ≤ k < i + n)%nat then v (k - i)%nat else slot_at b k.
Proof.
  intros E Hb Hi. unfold slot_at. rewrite E, fill_lookup by (by rewrite Hb). by case_decide.
Qed.

Lemma fill_ok b b' n i v : swap_slots b' = fill n i v (swap_slots b) → block_ok b → block_ok b'.
Proof. intros E Hb. unfold block_ok. by rewrite E, fill_length. Qed.

(** Filling empty slots, and clearing full ones. *)
Lemma fill_count n i v l :
  (i + n ≤ length l)%nat → (∀ k, (k < n)%nat → l !! (i + k)%nat = Some SWAP_SLOT_NONE ∧ v k ≠ SWAP_SLOT_NONE) →
  Z.of_nat (length (filter (fun x => x ≠ SWAP_SLOT_NONE) (fill n i v l))) =
    Z.of_nat (length (filter (fun x => x ≠ SWAP_SLOT_NONE) l)) + Z.of_nat n.
Proof.
  induction n as [|n IH]; intros Hl Hv; [cbn; lia|]. rewrite fill_S.
  destruct (Hv n) as [Hn Hvn]; [lia|]. rewrite (length_filter_insert _ _ _ SWAP_SLOT_NONE).
  - rewrite IH by (lia || (intros k ?; apply Hv; lia)). rewrite decide_False, decide_True by (done || (intros H; by apply H)). lia.
  - rewrite fill_lookup, decide_False by lia. done.
Qed.

Lemma clear_count n i l :
  (i + n ≤ length l)%nat → (∀ k, (k < n)%nat → ∃ x, l !! (i + k)%nat = Some x ∧ x ≠ SWAP_SLOT_NONE) →
  Z.of_nat (length (filter (fun x => x ≠ SWAP_SLOT_NONE) (fill n i (fun _ => SWAP_SLOT_NONE) l))) =
    Z.of_nat (length (filter (fun x => x ≠ SWAP_SLOT_NONE) l)) - Z.of_nat n.
Proof.
  induction n as [|n IH]; intros Hl Hv; [cbn; lia|]. rewrite fill_S.
  destruct (Hv n) as (x & Hn & Hx); [lia|]. rewrite (length_filter_insert _ _ _ x).
  - rewrite IH by (lia || (intros k ?; apply Hv; lia)). rewrite decide_True, decide_False by (done || (intros H; by apply H)). lia.
  - rewrite fill_lookup, decide_False by lia. done.
Qed.

(** Other threads may add and remove blocks of other caches. *)
Definition others_ok c (others : table → table) : Prop :=
  ∀ t, table_ok t → table_ok (others t) ∧ ∀ i, others t !! (c, i) = t !! (c, i).

Lemma block_new_ok : block_ok block_new ∧ nslots block_new = 0%nat ∧ ∀ k, slot_at block_new k = SWAP_SLOT_NONE.
Proof.
  split_and!; [done| |].
  { unfold nslots, block_new. cbn [swap_slots]. generalize (Z.to_nat SWAP_BLOCK_PAGES). intros n.
    induction n; [done|]. cbn [replicate]. rewrite filter_cons_False by (intros H; by apply H). done. }
  intros k. unfold slot_at, block_new. cbn [swap_slots]. destruct (replicate _ _ !! k) eqn:E; [|done]. by apply lookup_replicate in E as [-> _].
Qed.

Lemma find_or_add_ok c idx failures t :
  table_ok t → (32 | idx) → Forall (others_ok c) failures →
  table_ok (find_or_add failures (c, idx) t) ∧
  find_or_add failures (c, idx) t !! (c, idx) = Some (default block_new (t !! (c, idx))) ∧
  ∀ i, i ≠ idx → find_or_add failures (c, idx) t !! (c, i) = t !! (c, i).
Proof.
  intros Ht Hd Hf. revert t Ht. induction Hf as [|others failures Ho Hf IH]; intros t Ht; cbn [find_or_add];
    destruct (t !! (c, idx)) as [b|] eqn:Eb; try (split_and!; [done|by rewrite Eb|done]).
  - split_and!; [|apply lookup_insert_eq|intros i ?; apply lookup_insert_ne; congruence].
    intros key b. rewrite lookup_insert_Some. intros [[<- <-]|[_ ?]]; [split; [apply block_new_ok|done]|by apply Ht].
  - destruct (Ho t Ht) as [Ht' Hs]. destruct (IH (others t) Ht') as (H1 & H2 & H3). rewrite Hs, Eb in H2. split_and!; [done..|].
    intros i Hi. by rewrite H3, Hs.
Qed.

(** One round of either loop: [n] slots of the block of page [p] are set. *)
Lemma fill_block_ok c p n (v : nat → Z) t b b' :
  table_ok t → used_exact_of c t → t !! block_key c p = Some b → (block_index p + n ≤ 32)%nat →
  swap_slots b' = fill n (block_index p) v (swap_slots b) → used_exact b' →
  table_ok (<[block_key c p := b']> t) ∧ used_exact_of c (<[block_key c p := b']> t) ∧
  ∀ d k, addr (<[block_key c p := b']> t) d k =
    if decide (d = c ∧ p <= k < p + Z.of_nat n) then v (Z.to_nat (k - p)) else addr t d k.
Proof.
  intros Ht Hu Hb Hn E Hu'. destruct (Ht _ _ Hb) as [Hbok _]. rewrite block_key_eq in *. set (idx := 32 * (p / 32)) in *.
  assert ((32 | idx)) as Hd by (exists (p / 32); unfold idx; lia). assert (in_block idx p) as Hin by (unfold in_block, idx; zlia).
  pose proof (in_block_index idx p Hd Hin) as Hidx. split_and!.
  - intros key b1. rewrite lookup_insert_Some. intros [[<- <-]|[_ ?]]; [split; [by eapply fill_ok|done]|by apply Ht].
  - intros i b1. rewrite lookup_insert_Some. intros [[_ <-]|[_ ?]]; [done|by eapply Hu].
  - intros d k. rewrite (addr_update t c idx b) by done. destruct (decide (d = c ∧ in_block idx k)) as [[-> Hk]|Hk].
    + pose proof (in_block_index idx k Hd Hk). rewrite (fill_slot_at b b' n _ v) by done.
      destruct (decide (block_index p ≤ block_index k < block_index p + n)%nat).
      * rewrite decide_True by (split; [done|lia]). f_equal. lia.
      * rewrite decide_False by lia. symmetry. by eapply addr_block.
    + rewrite decide_False; [done|]. intros [-> Hr]. apply Hk. split; [done|]. unfold in_block in *. lia.
Qed.

Lemma round_length p count i :
  i < count → let j := Z.min (SWAP_BLOCK_PAGES - Z.of_nat (block_index p)) (count - i) in
  0 < j ∧ (block_index p + Z.to_nat j ≤ 32)%nat ∧ i + j <= count.
Proof. intros Hi j. pose proof (block_index_lt p). unfold j, SWAP_BLOCK_PAGES. lia. Qed.

Lemma addr_slot_at t c p b (k : nat) :
  t !! block_key c p = Some b → (block_index p + k < 32)%nat → addr t c (p + Z.of_nat k) = slot_at b (block_index p + k).
Proof.
  intros Hb Hk. rewrite block_key_eq in Hb. set (idx := 32 * (p / 32)) in *.
  assert ((32 | idx)) as Hd by (exists (p / 32); unfold idx; lia). assert (in_block idx p) as Hin by (unfold in_block, idx; zlia).
  pose proof (in_block_index idx p Hd Hin) as Hidx.
  assert (in_block idx (p + Z.of_nat k)) as Hink by (unfold in_block in *; lia).
  rewrite (addr_block t c idx _ b) by done. pose proof (in_block_index idx _ Hd Hink). f_equal. lia.
Qed.

Lemma find_or_add_addr c idx failures t k :
  table_ok t → (32 | idx) → Forall (others_ok c) failures → addr (find_or_add failures (c, idx) t) c k = addr t c k.
Proof.
  intros Ht Hd Hf. destruct (find_or_add_ok c idx failures t Ht Hd Hf) as (_ & H2 & H3).
  unfold addr, _SwapBlockGetAddress. rewrite block_key_eq. destruct (decide (32 * (k / 32) = idx)) as [->|]; [|by rewrite H3].
  rewrite H2. destruct (t !! (c, idx)); [done|]. apply block_new_ok.
Qed.

Lemma u32_add x y : u32 (u32 x + y) = u32 (x + y).
Proof. unfold u32, wrap. by rewrite Zplus_mod_idemp_l. Qed.

Lemma build_loop_ok fuel failures c start slot count i t :
  table_ok t → used_exact_of c t → (∀ j, Forall (others_ok c) (failures j)) → count - i <= Z.of_nat fuel →
  (∀ k, start + i <= k < start + count → addr t c k = SWAP_SLOT_NONE ∧ u32 (slot + (k - start)) ≠ SWAP_SLOT_NONE) →
  ∃ t', build_loop fuel failures c start slot count i t = Ret t' ∧ table_ok t' ∧ used_exact_of c t' ∧
    ∀ k, addr t' c k = if decide (start + i <= k < start + count) then u32 (slot + (k - start)) else addr t c k.
Proof.
  revert i t. induction fuel as [|fuel IH]; intros i t Ht Hu Hf Hfuel Hfree; cbn [build_loop];
    destruct (Z.ltb_spec i count) as [Hlt|Hge];
    try (exists t; split_and!; [done..|]; intros k; by rewrite decide_False by lia); [lia|].
  set (p := start + i). set (j := Z.min _ _). destruct (round_length p count i Hlt) as (Hj & Hj32 & Hjc). fold j in Hj, Hj32, Hjc.
  assert ((32 | 32 * (p / 32))) as Hd by (exists (p / 32); lia).
  rewrite block_key_eq. destruct (find_or_add_ok c _ (failures i) t Ht Hd (Hf i)) as (H1 & H2 & H3).
  pose proof (fun k => find_or_add_addr c _ (failures i) t k Ht Hd (Hf i)) as Ha. set (t1 := find_or_add _ _ t) in *. clearbody t1.
  rewrite H2. cbn [deref mbind outcome_bind]. set (b := default block_new _) in *. set (b' := mkBlock _ _).
  assert (used_exact b ∧ used_exact_of c t1) as [Hub Hu1].
  { assert (used_exact b) as Hub by (unfold b; destruct (t !! _) eqn:E; [by eapply Hu|change (used_exact block_new); unfold used_exact; by rewrite (proj1 (proj2 block_new_ok))]).
    split; [done|]. intros k b1 Hk. destruct (decide (k = 32 * (p / 32))) as [->|]; [congruence|]. rewrite H3 in Hk by done. by eapply Hu. }
  rewrite <- block_key_eq in H2 |- *. destruct (H1 _ _ H2) as [Hbok _].
  assert (used_exact b') as Hub'.
  { unfold used_exact, nslots, b'. cbn [swap_slots used]. rewrite fill_count.
    - rewrite Hub, Z2Nat.id by lia. apply wrap_small. pose proof (nslots_le b Hbok). unfold fits. unfold nslots in *. lia.
    - rewrite Hbok. lia.
    - intros k Hk. destruct (Hfree (p + Z.of_nat k)) as [F1 F2]; [lia|]. rewrite <- Ha, (addr_slot_at t1 c p b k) in F1 by (done || lia). split.
      + rewrite slot_at_lookup by (done || lia). by rewrite F1.
      + rewrite u32_add. intros E. apply F2. rewrite <- E. f_equal. lia. }
  destruct (fill_block_ok c p (Z.to_nat j) (fun k => u32 (u32 (slot + i) + Z.of_nat k)) t1 b b') as (G1 & G2 & G3); [done..|].
  rewrite Z2Nat.id in G3 by lia. set (t2 := <[_ := b']> t1) in *. clearbody t2.
  destruct (IH (i + j) t2) as (t' & K1 & K2 & K3 & K4); [done|done|done|lia| |].
  { intros k Hk. rewrite G3, decide_False, Ha by (intros [_ ?]; lia). apply Hfree. lia. }
  exists t'. split_and!; [done..|]. intros k. rewrite K4, G3, u32_add, Ha.
  destruct (decide (start + (i + j) <= k < start + count)); [by rewrite decide_True by lia|].
  destruct (decide (c = c ∧ p <= k < p + j)) as [[_ Hk]|Hk].
  - rewrite decide_True by lia. f_equal. lia.
  - rewrite decide_False; [done|]. intros ?. apply Hk. split; [done|lia].
Qed.

Lemma free_loop_ok fuel c start count i t :
  table_ok t → used_exact_of c t → count - i <= Z.of_nat fuel →
  (∀ k, start + i <= k < start + count → addr t c k ≠ SWAP_SLOT_NONE) →
  ∃ t', free_loop fuel c start count i t = Ret t' ∧ table_ok t' ∧ used_exact_of c t' ∧
    ∀ d k, addr t' d k = if decide (d = c ∧ start + i <= k < start + count) then SWAP_SLOT_NONE else addr t d k.
Proof.
  revert i t. induction fuel as [|fuel IH]; intros i t Ht Hu Hfuel Hfull; cbn [free_loop];
    destruct (Z.ltb_spec i count) as [Hlt|Hge];
    try (exists t; split_and!; [done..|]; intros d k; by rewrite decide_False by lia); [lia|].
  set (p := start + i). set (j := Z.min _ _). destruct (round_length p count i Hlt) as (Hj & Hj32 & Hjc). fold j in Hj, Hj32, Hjc.
  destruct (t !! block_key c p) as [b|] eqn:Eb.
  2:{ exfalso. apply (Hfull p); [lia|]. unfold addr, _SwapBlockGetAddress. by rewrite Eb. }
  cbn [deref mbind outcome_bind]. destruct (Ht _ _ Eb) as [Hbok _]. set (b' := mkBlock _ _).
  assert (used_exact b) as Hub by (rewrite block_key_eq in Eb; by eapply Hu).
  assert (∀ k, (k < Z.to_nat j)%nat → ∃ x, swap_slots b !! (block_index p + k)%nat = Some x ∧ x ≠ SWAP_SLOT_NONE) as Hfil.
  { intros k Hk. exists (slot_at b (block_index p + k)). split; [apply slot_at_lookup; (done || lia)|].
    rewrite <- (addr_slot_at t c p) by (done || lia). apply Hfull. lia. }
  assert (used_exact b') as Hub'.
  { unfold used_exact, nslots, b'. cbn [swap_slots used]. rewrite clear_count.
    - rewrite Hub, Z2Nat.id by lia. apply wrap_small. pose proof (nslots_le b Hbok). unfold fits. unfold nslots in *.
      pose proof (clear_count (Z.to_nat j) (block_index p) (swap_slots b)) as Hc. rewrite Hbok in Hc. rewrite Z2Nat.id in Hc by lia.
      enough (0 <= Z.of_nat (length (filter (fun v => v ≠ SWAP_SLOT_NONE) (swap_slots b))) - j) by lia. rewrite <- Hc; [lia|lia|].
      done.
    - rewrite Hbok. lia.
    - done. }
  destruct (fill_block_ok c p (Z.to_nat j) (fun _ => SWAP_SLOT_NONE) t b b') as (G1 & G2 & G3); [done..|].
  rewrite Z2Nat.id in G3 by lia. set (t2 := if used b' =? 0 then _ else _).
  assert (table_ok t2 ∧ used_exact_of c t2 ∧ ∀ d k, addr t2 d k = addr (<[block_key c p := b']> t) d k) as (K1 & K2 & K3).
  { unfold t2. destruct (Z.eqb_spec (used b') 0) as [E0|]; [|done]. split_and!.
    - intros key b1 [_ ?]%lookup_delete_Some. by apply Ht.
    - intros idx b1 [_ ?]%lookup_delete_Some. by eapply Hu.
    - intros d k. rewrite block_key_eq in *. assert ((32 | 32 * (p / 32))) as Hd by (exists (p / 32); lia).
      rewrite addr_delete, (addr_update t c _ b) by done. case_decide as Hc; [|done]. rewrite Hub' in E0.
      destruct (decide (slot_at b' (block_index k) = SWAP_SLOT_NONE)) as [|Hp%nslots_pos]; [done|lia]. }
  clearbody t2. destruct (IH (i + j) t2) as (t' & J1 & J2 & J3 & J4); [done|done|lia| |].
  { intros k Hk. rewrite K3, G3, decide_False by (intros [_ ?]; lia). apply Hfull. lia. }
  exists t'. split_and!; [done..|]. intros d k. rewrite J4, K3, G3.
  destruct (decide (d = c)) as [->|]; [|by rewrite !decide_False by tauto].
  repeat case_decide; done || lia.
Qed.
End build.

(** ** Single slots *)

Section single.
Context {DL : DLList Z} {RB : RadixBitmap}.
Implicit Types (s : astate) (t : table) (c k v : Z) (b : swap_block).

Lemma addr_put t c idx b d i :
  (32 | idx) →
  addr (<[(c, idx) := b]> t) d i = if decide (d = c ∧ in_block idx i) then slot_at b (block_index i) else addr t d i.
Proof.
  intros Hd. case_decide as Hc.
  - destruct Hc as [-> Hi]. eapply addr_block; [done..|apply lookup_insert_eq].
  - apply addr_insert; [done|]. destruct (decide (d = c)); [right; tauto|by left].
Qed.

(** The block of a page index. *)
Lemma block_of c k : ∃ idx, block_key c k = (c, idx) ∧ (32 | idx) ∧ in_block idx k ∧ idx + Z.of_nat (block_index k) = k.
Proof.
  exists (32 * (k / 32)). assert ((32 | 32 * (k / 32))) as Hd by (exists (k / 32); lia).
  assert (in_block (32 * (k / 32)) k) as Hin by (unfold in_block; zlia).
  split_and!; [apply block_key_eq|done|done|by apply in_block_index].
Qed.

Lemma one_round k : Z.min (SWAP_BLOCK_PAGES - Z.of_nat (block_index k)) 1 = 1.
Proof. pose proof (block_index_lt k). unfold SWAP_BLOCK_PAGES. lia. Qed.

Lemma fill_one (i : nat) (f : nat → Z) l : fill (Z.to_nat 1) i f l = <[i := f 0%nat]> l.
Proof. change (Z.to_nat 1) with 1%nat. unfold fill. cbn. by rewrite Nat.add_0_r. Qed.

Lemma _SwapBlockFree_one c k b t :
  t !! block_key c k = Some b →
  let b' := clear_slot b (block_index k) (u32 (used b - 1)) in
  _SwapBlockFree c k 1 t = Ret ((if used b' =? 0 then delete (block_key c k) else <[block_key c k := b']>) t).
Proof.
  intros Hb b'. unfold _SwapBlockFree. change (Z.to_nat 1) with 1%nat. cbn [free_loop]. change (0 <? 1) with true. cbv iota.
  rewrite Z.add_0_r, Hb. cbn [deref mbind outcome_bind]. rewrite one_round, fill_one. change (0 + 1) with 1.
  fold (clear_slot b (block_index k) (u32 (used b - 1))). fold b'. cbn [free_loop]. change (1 <? 1) with false. cbv iota.
  by destruct (used b' =? 0).
Qed.

(** The page at index [k] gives up its swap slot, if it has one. *)
Lemma give_up_slot_ok c k s :
  swap_ok c s →
  let slotIndex := _SwapBlockGetAddress c k (sSwapHashTable s) in
  ∃ s', (if slotIndex =? SWAP_SLOT_NONE then Ret s
         else
           w ← swap_slot_dealloc slotIndex 1 (swapfiles s);
           t ← _SwapBlockFree c k 1 (sSwapHashTable s);
           Ret (upd_anon c (add_allocated (- (1 * PAGE_SIZE))) (s <| swapfiles := w |> <| sSwapHashTable := t |>))) = Ret s' ∧
    slots_freed (fun i => i =? k) c s s'.
Proof.
  intros Hok slotIndex. destruct (Z.eqb_spec slotIndex SWAP_SLOT_NONE) as [E|Hn].
  - exists s. split; [done|]. eapply slots_freed_ext; [|by apply slots_freed_refl]. intros i Hi. symmetry. apply Z.eqb_neq. by intros ->.
  - destruct (block_of c k) as (idx & Ek & Hd & Hin & Hidx). unfold slotIndex in *. clear slotIndex.
    destruct (sSwapHashTable s !! (c, idx)) as [b|] eqn:Eb; [|by unfold _SwapBlockGetAddress in Hn; rewrite Ek, Eb in Hn].
    assert (_SwapBlockGetAddress c k (sSwapHashTable s) = slot_at b (block_index k)) as Ea by (unfold _SwapBlockGetAddress; by rewrite Ek, Eb).
    rewrite Ea in *. destruct (free_slot_ok c idx (block_index k) b s Hok Hd Eb (block_index_lt k) Hn) as (w & Hw & _ & Hfr).
    rewrite Hw. cbn [mbind outcome_bind]. rewrite (_SwapBlockFree_one c k b) by (by rewrite Ek). cbn [mbind outcome_bind].
    rewrite Hidx in Hfr. rewrite Ek. eexists. split; [reflexivity|]. exact Hfr.
Qed.

(** The page at index [k] gets slot [v]. *)
Definition put_slot c k v t : table :=
  let b := default block_new (t !! block_key c k) in
  <[block_key c k := mkBlock (u32 (used b + 1)) (<[block_index k := v]> (swap_slots b))]> t.

Lemma _SwapBlockBuild_one c k v t : fits 32 v → _SwapBlockBuild (fun _ => []) c k v 1 t = Ret (put_slot c k v t).
Proof.
  intros Hv. unfold _SwapBlockBuild. change (Z.to_nat 1) with 1%nat. cbn [build_loop]. change (0 <? 1) with true. cbv iota.
  rewrite !Z.add_0_r. cbn [find_or_add]. unfold put_slot. rewrite one_round.
  destruct (t !! block_key c k) as [b|] eqn:Eb; rewrite ?Eb, ?lookup_insert_eq; cbn [deref mbind outcome_bind];
    rewrite fill_one; change (Z.of_nat 0) with 0; rewrite Z.add_0_r, !(wrap_small 32 v Hv : u32 v = v), ?insert_insert_eq;
    change (0 + 1) with 1; cbn [build_loop]; change (1 <? 1) with false; done.
Qed.

Lemma put_slot_ok c k v t w :
  table_ok t → slots_ok t w → used_exact_of c t → addr t c k = SWAP_SLOT_NONE → v ≠ SWAP_SLOT_NONE →
  ∀ w', files_ok w' → (∀ i, slot_used w' i ↔ i = v ∨ slot_used w i) → ¬ slot_used w v →
  let t' := put_slot c k v t in
  table_ok t' ∧ slots_ok t' w' ∧ (∀ d, used_exact_of d t → used_exact_of d t') ∧ swapped t' c = swapped t c + 1 ∧
  ∀ d i, addr t' d i = if decide (d = c ∧ i = k) then v else addr t d i.
Proof.
  intros Htab (Hf & Hu & Hi) Hex Hk Hv w' Hf' Hu' Hfresh t'. destruct (block_of c k) as (idx & Ek & Hd & Hin & Hidx).
  unfold t', put_slot. rewrite Ek. set (b := default block_new (t !! (c, idx))). set (b' := mkBlock _ _).
  assert (block_ok b ∧ used_exact b ∧ ∀ i, in_block idx i → slot_at b (block_index i) = addr t c i) as (Hb & Hub & Hat).
  { unfold b. destruct (t !! (c, idx)) as [b0|] eqn:Eb; cbn.
    - split_and!; [by apply (Htab _ _ Eb)|by eapply Hex|]. intros i Hii. symmetry. by apply addr_block with (idx := idx).
    - destruct block_new_ok as (H1 & H2 & H3). split_and!; [done|by unfold used_exact; rewrite H2|]. intros i Hii.
      rewrite H3. symmetry. by apply addr_no_block with (idx := idx). }
  pose proof (block_index_lt k) as Hlt.
  assert (Z.of_nat (nslots b') = Z.of_nat (nslots b) + 1) as Hn.
  { unfold nslots, b'. cbn. rewrite (length_filter_insert _ _ _ SWAP_SLOT_NONE) by (rewrite slot_at_lookup by done; by rewrite Hat, Hk).
    rewrite decide_False, decide_True by (done || (intros H; by apply H)). lia. }
  assert (block_ok b') as Hb' by (unfold block_ok, b'; cbn; by rewrite length_insert).
  assert (used_exact b') as Hub'.
  { unfold used_exact. rewrite Hn, <- Hub. apply wrap_small. rewrite Hub. pose proof (nslots_le b Hb). unfold fits. lia. }
  assert (∀ d i, addr (<[(c, idx) := b']> t) d i = if decide (d = c ∧ i = k) then v else addr t d i) as Haddr.
  { intros d i. rewrite addr_put by done. destruct (decide (d = c ∧ in_block idx i)) as [[-> Hii]|Hni].
    - pose proof (in_block_index idx i Hd Hii). unfold b'. rewrite (slot_at_used _ (used b)), slot_at_insert by done.
      destruct (decide (block_index k = block_index i)) as [E|E].
      + rewrite decide_True; [done|]. split; [done|lia].
      + rewrite decide_False by (intros [_ ->]; done). by apply Hat.
    - rewrite decide_False; [done|]. intros [-> ->]. by apply Hni. }
  split_and!.
  - intros key b1. rewrite lookup_insert_Some. intros [[<- <-]|[_ ?]]; [done|by apply Htab].
  - split_and!; [done|..].
    + intros d i. rewrite Haddr. case_decide; intros Hne; apply Hu'; [by left|right; by apply Hu].
    + intros d i d' i'. rewrite !Haddr. case_decide as E1; case_decide as E2; intros Hne Heq.
      * destruct E1 as [-> ->], E2 as [-> ->]. done.
      * exfalso. apply Hfresh. rewrite Heq. apply Hu. congruence.
      * exfalso. apply Hfresh. rewrite <- Heq. apply Hu. done.
      * by apply Hi.
  - intros d Hd' i b1. rewrite lookup_insert_Some. intros [[_ <-]|[_ ?]]; [done|by eapply Hd'].
  - assert (nslots b = from_option nslots 0%nat (t !! (c, idx))) as Hnb
      by (unfold b; destruct (t !! (c, idx)); [done|apply block_new_ok]).
    clearbody b' b. destruct (t !! (c, idx)) as [b0|] eqn:Eb; cbn in Hnb.
    + rewrite (swapped_update t c idx b0), decide_True by done. lia.
    + rewrite swapped_insert, decide_True by done. lia.
  - done.
Qed.
End single.

(** ** Writing a page out *)

Section write.
Context {DL : DLList Z} {RB : RadixBitmap} {IO : PageIO}.
Implicit Types (s : astate) (c k : Z) (w : swap).

Definition has_free w : Prop := ∃ f, f ∈ sSwapFileList w ∧ 0 < free_slots (bmp f).

Lemma dealloc_has_free w w' v : files_ok w → slot_used w v → swap_slot_dealloc v 1 w = Ret w' → has_free w'.
Proof.
  intros Hok (f & (l1 & l2 & E)%list_elem_of_split & Hr & Hu). destruct (file_ok_in w l1 f l2 Hok E) as (Hfl & Hlt & _ & Hnone).
  unfold swap_slot_dealloc. replace (v =? SWAP_SLOT_NONE) with false by (symmetry; apply Z.eqb_neq; lia).
  rewrite (find_swap_file_split w l1 f l2) by (done || lia). cbn [mbind outcome_bind]. rewrite (wrap_small 32) by (split; lia).
  set (f' := f <| bmp := _ |>). intros [= <-]. exists f'. split.
  - rewrite (set_file_split w l1 f l2 f') by (apply Hok || done). apply elem_of_app. right. left.
  - destruct (radix_dealloc_run (v - first_slot f) 1 (bmp f)) as (_ & _ & Hfree); [done| |].
    + intros i Hi. unfold run in Hi. by replace i with (v - first_slot f) by lia.
    + pose proof (radix_free_bounds (bmp f)). change (bmp f') with (radix_bitmap_dealloc (v - first_slot f) 1 (bmp f)). lia.
Qed.

Lemma vec_pages_one base : vec_pages (mkVec base PAGE_SIZE) = 1.
Proof. reflexivity. Qed.

Lemma write_free_one c k base s :
  swap_ok c s → addr (sSwapHashTable s) c k ≠ SWAP_SLOT_NONE ∨ has_free (swapfiles s) →
  ∃ s', write_free c k 0 [mkVec base PAGE_SIZE] s = Ret (1, s') ∧ slots_freed (fun i => i =? k) c s s' ∧ has_free (swapfiles s').
Proof.
  intros Hok Hfree. destruct (give_up_slot_ok c k s Hok) as (s' & H1 & H2). cbn [write_free]. rewrite vec_pages_one, Z.add_0_r, H1.
  cbn [mbind outcome_bind]. exists s'. split_and!; [done..|]. revert H1.
  destruct (Z.eqb_spec (_SwapBlockGetAddress c k (sSwapHashTable s)) SWAP_SLOT_NONE) as [E|Hn].
  - intros [= <-]. by destruct Hfree.
  - destruct (swap_slot_dealloc _ 1 (swapfiles s)) as [w| |] eqn:Ew; cbn [mbind outcome_bind]; [|done..].
    destruct (_SwapBlockFree _ _ _ _); cbn [mbind outcome_bind]; [|done..]. intros [= <-].
    destruct (so_slots _ _ Hok) as (Hf & Hu & _). eapply dealloc_has_free; [done|by apply Hu|exact Ew].
Qed.

Lemma alloc_one w :
  files_ok w → 1 <= BITMAP_RADIX → has_free w →
  ∃ v w', alloc_halving (Z.to_nat 1) 1 w = Ret (v, 1, w') ∧ swap_slot_alloc 1 w = Ret (v, w') ∧ files_ok w' ∧
    sAvailSwapSpace w' = sAvailSwapSpace w ∧ v ≠ SWAP_SLOT_NONE ∧ ¬ slot_used w v ∧ (∀ i, slot_used w' i ↔ i = v ∨ slot_used w i).
Proof.
  intros Hok Hr (f & Hf & Hfree). destruct (swap_slot_alloc_one w f Hok Hr Hf Hfree) as [[v w'] Ha].
  destruct (swap_slot_alloc_ok 1 w v w' Hok) as (H1 & H2 & H3 & H4 & H5 & _); [lia|done|].
  exists v, w'. split_and!; try done.
  - change (Z.to_nat 1) with 1%nat. cbn [alloc_halving]. change (u32 1) with 1. rewrite Ha. cbn [mbind outcome_bind].
    by rewrite andb_false_r.
  - apply H4. unfold run. lia.
  - intros i. rewrite H5. unfold run. split; intros [?|?]; (by right) || (left; lia).
Qed.

Lemma slot_position_ok w v : files_ok w → slot_used w v → fits 32 v ∧ ∃ r, slot_position v w = Ret r.
Proof.
  intros Hok (f & (l1 & l2 & E)%list_elem_of_split & Hr & _). destruct (file_ok_in _ l1 f l2 Hok E) as (Hfl & Hlt & _).
  split; [unfold fits; lia|]. unfold slot_position. rewrite (find_swap_file_split _ l1 f l2) by (done || lia). cbn [mbind outcome_bind]. eauto.
Qed.

(** The state with slot [v] allocated and counted, before it is in the table. *)
Lemma swap_ok_put c k v s s' w t' :
  swap_ok c s → addr (sSwapHashTable s) c k = SWAP_SLOT_NONE → v ≠ SWAP_SLOT_NONE →
  ¬ slot_used (swapfiles s) v → files_ok w → (∀ i, slot_used w i ↔ i = v ∨ slot_used (swapfiles s) i) →
  t' = put_slot c k v (sSwapHashTable s) → sSwapHashTable s' = t' → swapfiles s' = w →
  anons s' = alter (add_allocated PAGE_SIZE) c (anons s) →
  swap_ok c s' ∧ ∀ d i, addr t' d i = if decide (d = c ∧ i = k) then v else addr (sSwapHashTable s) d i.
Proof.
  intros [Htab Hsl Hu (a & Ha & Ea)] Hk Hv Hfresh Hf Hu' -> Et Ew Ean.
  destruct (put_slot_ok c k v _ _ Htab Hsl Hu Hk Hv w Hf Hu' Hfresh) as (H1 & H2 & H3 & H4 & H5). split; [|done].
  split; rewrite ?Et, ?Ew; try done; [by apply H3|]. exists (add_allocated PAGE_SIZE a). rewrite Ean, lookup_alter_eq, Ha, Et, H4.
  split; [done|]. cbn. rewrite Ea. unfold PAGE_SIZE. lia.
Qed.

(** Giving a slot back that never got into the table. *)
Lemma swap_ok_drop c v s s' w w' :
  swap_ok c s → files_ok w → ¬ slot_used (swapfiles s) v → (∀ i, slot_used w i ↔ i = v ∨ slot_used (swapfiles s) i) →
  swap_slot_dealloc v 1 w = Ret w' →
  sSwapHashTable s' = sSwapHashTable s → swapfiles s' = w' → anons s' = anons s → swap_ok c s'.
Proof.
  intros [Htab (Hf & Hu & Hi) Hex (a & Ha & Ea)] Hfw Hfresh Hw Hd Et Ew Ean.
  destruct (dealloc_one w v Hfw) as (w1 & H1 & H2 & _ & H3); [apply Hw; by left|]. assert (w1 = w') as -> by congruence.
  split; rewrite ?Et, ?Ew; try done; [|exists a; by rewrite Ean, Et].
  split_and!; [done|intros d i Hn|done]. apply H3. split; [apply Hw; right; by apply Hu|]. intros E. apply Hfresh. rewrite <- E. by apply Hu.
Qed.
End write.

Lemma page_shift k : Z.shiftr (k * PAGE_SIZE) PAGE_SHIFT = k.
Proof. rewrite Z.shiftr_div_pow2 by done. by apply Z.div_mul. Qed.

Lemma read_one {DL : DLList Z} {RB : RadixBitmap} {IO : PageIO} c k v base (s : astate) (d : io) f pos :
  _SwapBlockGetAddress c k (sSwapHashTable s) = v → slot_position v (swapfiles s) = Ret (f, pos) →
  Read c (Z.shiftl k PAGE_SHIFT) [mkVec base PAGE_SIZE] s d = Ret (vfs_read_pages (vnode f) pos [mkVec base PAGE_SIZE] d).
Proof.
  intros Eg Hpos. unfold Read. rewrite shiftl_page. cbn [length read_loop]. change (0 <? Z.of_nat 1) with true. cbv iota.
  rewrite Z.add_0_r, Eg. change (Z.to_nat (Z.of_nat 1 - (0 + 1))) with 0%nat. cbn [same_run]. rewrite Hpos. cbn [mbind outcome_bind].
  change (take _ _) with [mkVec base PAGE_SIZE]. by destruct (vfs_read_pages _ _ _ d) as [[|er] d2].
Qed.

(** ** Properties *)

(** _FreeSwapPageRange returns and frees the swap slots of exactly the
    pages of the range, less those of busy pages when these are skipped:
    their slots are free in the swap files and gone from the hash table,
    blocks without slots left are removed, allocated_swap_size is exact, no
    other cache changes. *)
Lemma free_swap_range_correct {DL : DLList Z} {RB : RadixBitmap} (c fromIndex toIndex : Z) (skipBusyPages : bool) (s : astate)
    (T : gmap Z Z) (Hok : swap_ok c s) (Hvm : caches_ok (vm s)) (HT : trees (vm s) !! c = Some T) :
  ∃ s', _FreeSwapPageRange c (fromIndex * PAGE_SIZE) (toIndex * PAGE_SIZE) skipBusyPages s = Ret s' ∧ swap_ok c s' ∧
    (∀ d k, addr (sSwapHashTable s') d k =
      if decide (d = c ∧ fromIndex <= k < toIndex ∧ (skipBusyPages = true → busy_at (vm s) T k = false))
      then SWAP_SLOT_NONE else addr (sSwapHashTable s) d k) ∧
    vm s' = vm s ∧ mem s' = mem s ∧ sAvailSwapSpace (swapfiles s') = sAvailSwapSpace (swapfiles s) ∧
    delete c (anons s') = delete c (anons s).
Proof.
  unfold _FreeSwapPageRange. rewrite !page_shift.
  destruct (free_range_loop_ok (Z.to_nat (toIndex - fromIndex)) c skipBusyPages T toIndex fromIndex None s) as (s' & H1 & H2); [done..|lia|].
  exists s'. split; [done|]. split; [by eapply slots_freed_ok|]. destruct H2 as [E1 E2 E3 E4 _ _ Haddr _ _ _]. split_and!; [|done..].
  intros d k. rewrite Haddr. unfold to_free.
  destruct (decide (d = c)) as [->|]; [|by rewrite !decide_False by tauto].
  apply decide_ext. rewrite !andb_true_iff, negb_true_iff, Z.leb_le, Z.ltb_lt.
  destruct skipBusyPages; cbn; intuition congruence || lia.
Qed.

(** _SwapBlockBuild, whatever other threads do to the blocks of other
    caches while it waits for memory, makes _SwapBlockGetAddress answer
    consecutive slots for the range and leaves the other pages of the cache
    alone; _SwapBlockFree of the range restores the answers for every page
    of the cache. *)
Lemma swap_block_roundtrip {RB : RadixBitmap} (failures : Z → list (table → table)) (c pageIndex slotIndex count : Z) (t : table)
    (Hok : table_ok t) (Hused : used_exact_of c t) (Hothers : ∀ i, Forall (others_ok c) (failures i)) (Hcount : 0 <= count)
    (Hfree : ∀ k, pageIndex <= k < pageIndex + count →
      addr t c k = SWAP_SLOT_NONE ∧ u32 (slotIndex + (k - pageIndex)) ≠ SWAP_SLOT_NONE) :
  ∃ t' t'', _SwapBlockBuild failures c pageIndex slotIndex count t = Ret t' ∧ table_ok t' ∧ used_exact_of c t' ∧
    (∀ k, _SwapBlockGetAddress c k t' =
      if decide (pageIndex <= k < pageIndex + count) then u32 (slotIndex + (k - pageIndex)) else _SwapBlockGetAddress c k t) ∧
    _SwapBlockFree c pageIndex count t' = Ret t'' ∧ table_ok t'' ∧ used_exact_of c t'' ∧
    (∀ k, _SwapBlockGetAddress c k t'' = _SwapBlockGetAddress c k t) ∧
    ∀ d k, d ≠ c → _SwapBlockGetAddress d k t'' = _SwapBlockGetAddress d k t'.
Proof.
  destruct (build_loop_ok (Z.to_nat count) failures c pageIndex slotIndex count 0 t) as (t' & H1 & H2 & H3 & H4); [done..|lia| |].
  { rewrite Z.add_0_r. exact Hfree. }
  rewrite Z.add_0_r in H4.
  destruct (free_loop_ok (Z.to_nat count) c pageIndex count 0 t') as (t'' & H5 & H6 & H7 & H8); [done..|lia| |].
  { rewrite Z.add_0_r. intros k Hk. rewrite H4, decide_True by done. by apply Hfree. }
  rewrite Z.add_0_r in H8. exists t', t''. split_and!; [done|done|done|exact H4|done|done|done|..].
  - intros k. fold (addr t'' c k) (addr t c k). rewrite H8. destruct (decide (pageIndex <= k < pageIndex + count)) as [Hk|Hk].
    + rewrite decide_True by done. symmetry. by apply Hfree.
    + rewrite decide_False by tauto. rewrite H4, decide_False by done. done.
  - intros d k Hd. fold (addr t'' d k) (addr t' d k). rewrite H8, decide_False by tauto. done.
Qed.

(** C15: Write of one page to swap and Read of it back: Write returns; on
    success the page has a slot, within the swap space committed, and Read
    gives the contents written; on an error the page has no slot; in all
    cases the other slots are untouched and the swap files, the hash table
    and allocated_swap_size agree. *)
Theorem swap_write_read {DL : DLList Z} {RB : RadixBitmap} {IO : PageIO} (c k base base' : Z) (s : astate) (d : io)
    (Hok : swap_ok c s) (Hradix : 1 <= BITMAP_RADIX)
    (Hspace : addr (sSwapHashTable s) c k ≠ SWAP_SLOT_NONE ∨ has_free (swapfiles s)) :
  ∃ st s' d', Write (fun _ => []) c (Z.shiftl k PAGE_SHIFT) [mkVec base PAGE_SIZE] s d = Ret (st, s', d') ∧ swap_ok c s' ∧
    (∀ e i, ¬ (e = c ∧ i = k) → addr (sSwapHashTable s') e i = addr (sSwapHashTable s) e i) ∧
    match st with
    | Err _ => HasPage c (Z.shiftl k PAGE_SHIFT) (sSwapHashTable s') = false
    | Ok => HasPage c (Z.shiftl k PAGE_SHIFT) (sSwapHashTable s') = true ∧
        (∃ a, anons s' !! c = Some a ∧ allocated_swap_size a <= committed_swap_size a) ∧
        ∃ st2 d2, Read c (Z.shiftl k PAGE_SHIFT) [mkVec base' PAGE_SIZE] s' d' = Ret (st2, d2) ∧
          (st2 = Ok → contents base' d2 = contents base d)
    end.
Proof.
  unfold Write, HasPage. rewrite !shiftl_page.
  destruct (write_free_one c k base s Hok Hspace) as (s1 & -> & Hfr & Hfree). cbn [mbind outcome_bind].
  pose proof (slots_freed_ok _ _ _ _ Hok Hfr) as Hok1. pose proof Hok1 as [_ (Hf1 & Hu1 & _) _ (a1 & Ha1 & _)].
  assert (addr (sSwapHashTable s1) c k = SWAP_SLOT_NONE) as Hk1 by (rewrite (fr_addr _ _ _ _ Hfr), decide_True; [done|split; [done|apply Z.eqb_refl]]).
  assert (∀ e i, ¬ (e = c ∧ i = k) → addr (sSwapHashTable s1) e i = addr (sSwapHashTable s) e i) as Hrest
    by (intros e i Hn; rewrite (fr_addr _ _ _ _ Hfr), decide_False; [done|rewrite Z.eqb_eq; tauto]).
  rewrite Ha1. cbn [deref mbind outcome_bind]. change (1 * PAGE_SIZE) with PAGE_SIZE.
  destruct (Z.ltb_spec (committed_swap_size a1) (allocated_swap_size a1 + PAGE_SIZE)) as [|Hcm].
  { exists (Err EINVAL), s1, d. split_and!; [done..|]. unfold addr in Hk1. by rewrite Hk1, Z.eqb_refl. }
  cbn [write_vecs]. rewrite vec_pages_one. change (Z.to_nat 1) with 1%nat. cbn [write_chunks]. change (0 <? 1) with true. cbv iota.
  set (s2 := upd_anon c (add_allocated PAGE_SIZE) s1). change (swapfiles s2) with (swapfiles s1).
  destruct (alloc_one (swapfiles s1) Hf1 Hradix Hfree) as (v & w & -> & _ & Hfw & _ & Hv & Hfresh & Huw).
  cbn [mbind outcome_bind]. replace (v =? SWAP_SLOT_NONE) with false by (symmetry; by apply Z.eqb_neq). cbn [negb assert mbind outcome_bind].
  assert (slot_used w v) as Hwv by (apply Huw; by left).
  destruct (slot_position_ok w v Hfw Hwv) as (Hfit & [f pos] & Hpos). change (swapfiles (s2 <| swapfiles := w |>)) with w. rewrite Hpos. cbn [mbind outcome_bind].
  change (u64 (1 * PAGE_SIZE)) with PAGE_SIZE. cbn [vbase]. destruct (vfs_write_pages (vnode f) pos [mkVec base PAGE_SIZE] d) as [[|er] d1] eqn:Ew.
  - change (u32 1) with 1. rewrite Z.add_0_r, _SwapBlockBuild_one by done. cbn [mbind outcome_bind].
    set (s3 := (s2 <| swapfiles := w |>) <| sSwapHashTable := _ |>).
    destruct (swap_ok_put c k v s1 s3 w (sSwapHashTable s3)) as (Hok3 & Ha3); try done.
    exists Ok, s3, d1. cbn [write_chunks]. change (0 + 1 <? 1) with false. cbn [mbind outcome_bind]. change (1 - 1 =? 0) with true. cbn [assert mbind outcome_bind].
    assert (_SwapBlockGetAddress c k (sSwapHashTable s3) = v) as Eg by (fold (addr (sSwapHashTable s3) c k); by rewrite Ha3, decide_True).
    split_and!; [done|done| |by rewrite Eg; apply negb_true_iff, Z.eqb_neq| |].
    + intros e i Hn. rewrite Ha3, decide_False by done. by apply Hrest.
    + exists (add_allocated PAGE_SIZE a1). split; [|cbn; lia]. change (anons s3) with (alter (add_allocated PAGE_SIZE) c (anons s1)).
      by rewrite lookup_alter_eq, Ha1.
    + rewrite (read_one c k v base' s3 d1 f pos) by done. destruct (vfs_read_pages _ _ _ d1) as [st2 d2] eqn:Er.
      exists st2, d2. split; [done|]. intros ->. apply read_page in Er as ->. by destruct (write_page _ _ _ _ _ Ew).
  - destruct (dealloc_one w v Hfw Hwv) as (w' & Hd & _). change (u32 1) with 1.
    rewrite Hd. cbn [mbind outcome_bind]. eexists _, _, _. split; [reflexivity|].
    split; [eapply (swap_ok_drop c v s1 _ w w'); try done|].
    + apply map_eq. intros e. cbn. destruct (decide (e = c)) as [->|]; [|by rewrite !lookup_alter_ne].
      rewrite !lookup_alter_eq, Ha1. cbn. destruct a1; cbn. unfold add_allocated, update. cbn. do 2 f_equal. unfold PAGE_SIZE. lia.
    + split; [exact Hrest|]. cbn. unfold addr in Hk1. by rewrite Hk1, Z.eqb_refl.
Qed.

(** ** Examples *)

(** Memory and files with one number for each page. *)
Fixpoint write_list (node pos : Z) (vecs : list generic_iovec) (d : gmap Z Z * gmap (Z * Z) Z) : gmap Z Z * gmap (Z * Z) Z :=
  match vecs with
  | [] => d
  | v :: vecs => write_list node (pos + PAGE_SIZE) vecs (d.1, <[(node, pos) := default 0 (d.1 !! vbase v)]> d.2)
  end.

Fixpoint read_list (node pos : Z) (vecs : list generic_iovec) (d : gmap Z Z * gmap (Z * Z) Z) : gmap Z Z * gmap (Z * Z) Z :=
  match vecs with
  | [] => d
  | v :: vecs => read_list node (pos + PAGE_SIZE) vecs (<[vbase v := default 0 (d.2 !! (node, pos))]> d.1, d.2)
  end.

#[export] Program Instance simple_PageIO : PageIO := {|
  io := gmap Z Z * gmap (Z * Z) Z;
  content := Z;
  contents base d := default 0 (d.1 !! base);
  stored node pos d := default 0 (d.2 !! (node, pos));
  vfs_write_pages node pos vecs d := (Ok, write_list node pos vecs d);
  vfs_read_pages node pos vecs d := (Ok, read_list node pos vecs d)
|}.
Next Obligation. intros node pos base d d' [= <-]. cbn. by rewrite lookup_insert_eq. Qed.
Next Obligation. intros node pos base d d' [= <-]. cbn. by rewrite lookup_insert_eq. Qed.

Lemma two_caches_swap_ok c : c = 1 ∨ c = 2 → swap_ok c two_caches.
Proof.
  intros Hc. destruct two_table_ok as [Htab Hslots]. split; [done|done| |].
  - assert (∀ key b, two_table !! key = Some b → used_exact b) as H.
    { intros key b. unfold two_table. rewrite lookup_insert_Some, lookup_singleton_Some.
      intros [[<- <-]|[_ [<- <-]]]; vm_compute; reflexivity. }
    intros idx b. apply H.
  - destruct Hc as [-> | ->]; eexists; (split; [vm_compute; reflexivity|vm_compute; reflexivity]).
Qed.

Lemma free_swap_range_correct_witness :
  ∃ s', _FreeSwapPageRange 2 (0 * PAGE_SIZE) (2 * PAGE_SIZE) true two_caches = Ret s' ∧
    addr (sSwapHashTable s') 2 0 = SWAP_SLOT_NONE ∧ addr (sSwapHashTable s') 2 3 = 2.
Proof.
  destruct (free_swap_range_correct 2 0 2 true two_caches source_tree) as (s' & H1 & _ & H2 & _).
  - apply two_caches_swap_ok. by right.
  - apply two_vm_ok.
  - reflexivity.
  - exists s'. rewrite !H2. split; [done|]. split; vm_compute; reflexivity.
Defined.

Lemma swap_block_roundtrip_witness :
  ∃ t' t'', _SwapBlockBuild (fun _ => []) 1 30 10 4 two_table = Ret t' ∧ _SwapBlockGetAddress 1 33 t' = 13 ∧
    _SwapBlockFree 1 30 4 t' = Ret t'' ∧ _SwapBlockGetAddress 1 33 t'' = SWAP_SLOT_NONE.
Proof.
  destruct (swap_block_roundtrip (fun _ => []) 1 30 10 4 two_table) as (t' & t'' & H1 & _ & _ & H2 & H3 & _ & _ & H4 & _).
  - exact (proj1 two_table_ok).
  - exact (so_used _ _ (two_caches_swap_ok 1 (or_introl eq_refl))).
  - constructor.
  - lia.
  - intros k Hk. assert (k ∈ [30; 31; 32; 33]) as Hin by (rewrite !elem_of_cons; lia). rewrite !elem_of_cons in Hin.
    destruct Hin as [->|[->|[->|[->|[]%elem_of_nil]]]]; (split; [vm_compute; reflexivity|vm_compute; discriminate]).
  - exists t', t''. rewrite H2, H4. split_and!; [done|vm_compute; reflexivity|done|vm_compute; reflexivity].
Defined.

Definition some_disk : @io simple_PageIO := ({[ 4096 := 77 ]} : gmap Z Z, ∅ : gmap (Z * Z) Z).

Lemma swap_write_read_witness :
  ∃ st s' d' st2 d2, Write (fun _ => []) 1 (Z.shiftl 2 PAGE_SHIFT) [mkVec 4096 PAGE_SIZE] two_caches some_disk = Ret (st, s', d') ∧
    (st = Ok → Read 1 (Z.shiftl 2 PAGE_SHIFT) [mkVec 8192 PAGE_SIZE] s' d' = Ret (st2, d2) ∧
      (st2 = Ok → contents 8192 d2 = 77)).
Proof.
  destruct (swap_write_read 1 2 4096 8192 two_caches some_disk) as (st & s' & d' & H1 & _ & _ & H2).
  - apply two_caches_swap_ok. by left.
  - vm_compute. discriminate.
  - left. vm_compute. discriminate.
  - destruct st as [|er].
    + destruct H2 as (_ & _ & st2 & d2 & H3 & H4). exists Ok, s', d', st2, d2. split; [done|]. intros _. split; [done|].
      intros E. rewrite (H4 E). reflexivity.
    + exists (Err er), s', d', Ok, d'. split; [done|]. done.
Defined.

(** A vector of more pages than a radix bitmap can allocate at once is written
    in chunks, but the slots of every chunk are entered at the index of the
    first page: after writing 64 pages the page at index 32 has no slot. *)
Definition roomy_swap : swap := (swap_file_add (200 * PAGE_SIZE) (Some 7) (Some 1000) swap_boot).2.

Definition writing_cache : astate :=
  mkAState two_vm {[ 1 := mkAnon false false 0 0 (100 * PAGE_SIZE) 0 ]} ∅ roomy_swap (mkMemory (2 ^ 30) 0 (2 ^ 31)).

Lemma write_chunks_overlap :
  match Write (fun _ => []) 1 0 [mkVec 4096 (64 * PAGE_SIZE)] writing_cache some_disk with
  | Ret (Ok, s, _) => HasPage 1 0 (sSwapHashTable s) && negb (HasPage 1 (32 * PAGE_SIZE) (sSwapHashTable s))
  | _ => false
  end = true.
Proof. vm_compute. reflexivity. Qed.
