(* ===== verification/CacheChain.v ===== *)
(** cache/mm_cache.cpp: the graph of caches, sources and consumers, references
    to caches, and how caches that nobody needs any more are merged into their
    only consumer or deleted.

    One thread runs the operations here; where it has to wait for the lock of
    a consumer another thread holds, [contention] says what the others did
    meanwhile and whether the consumer still exists.  Locks are otherwise not
    part of the state. *)
From S2P Require Import Prelude VMState PageQueue CachePages PageAlloc MemoryCommit SwapSpace CacheEffects AnonymousCache SwapIO.
From stdpp Require Import base list list_numbers numbers gmap sorting.
From Stdlib Require Import ZArith Lia.
Local Open Scope Z_scope.

Definition PAGE_EVENT_NOT_BUSY : Z := 1.

Section ops.
Context {DL : DLList Z} {RB : RadixBitmap}.
Variable SECONDS : Z → Z.
Variable env : reserve_env.

(** The caches of class [VMAnonymousCache] have an entry in [anons], those of
    class [VMAnonymousNoSwapCache] are in [no_swap].  [page_event_waiters]
    lists the waiters of each cache (page and events), [store_refs] counts
    the references each vnode cache has acquired from its vnode. *)
Record lstate := mkLState {
  ast : astate;
  no_swap : gset Z;
  page_event_waiters : gmap Z (list (Z * Z));
  store_refs : gmap Z Z
}.
#[global] Instance eta_lstate : Eta lstate := fun s =>
  mkLState (ast s) (no_swap s) (page_event_waiters s) (store_refs s).

Implicit Types (s : lstate) (c d : Z).

Definition cache_of c s : outcome VMCache := deref (caches (vm (ast s)) !! c).

Definition upd c (f : VMCache → VMCache) s : lstate := s <| ast ::= fun a => a <| vm ::= upd_cache c f |> |>.

(** ** References *)

Definition AcquireRefLocked c s : lstate := upd c (fun C => C <| ref_count ::= fun n => i32 (n + 1) |>) s.
Definition ReleaseRefLocked c s : lstate := upd c (fun C => C <| ref_count ::= fun n => i32 (n - 1) |>) s.

Definition add_store_ref c (n : Z) s : outcome lstate :=
  C ← cache_of c s;
  if decide (ctype C = CACHE_TYPE_VNODE) then Ret (s <| store_refs ::= <[c := default 0 (store_refs s !! c) + n]> |>) else Ret s.
Definition AcquireStoreRef c s : outcome lstate := add_store_ref c 1 s.
Definition ReleaseStoreRef c s : outcome lstate := add_store_ref c (-1) s.

(** ** Consumers and areas *)

Definition AddConsumer c consumer s : outcome lstate :=
  let s := upd consumer (fun C => C <| source := Some c |>) s in
  let s := upd c (fun C => C <| consumers ::= fun l => l ++ [consumer] |>) s in
  AcquireStoreRef c (AcquireRefLocked c s).

Definition InsertAreaLocked c (area : Z) s : outcome lstate :=
  AcquireStoreRef c (upd c (fun C => C <| areas ::= cons area |>) s).

(** [CountWritableAreas], given the protections of the areas. *)
Definition CountWritableAreas c (ignoreArea : Z) (writable : Z → bool) s : outcome Z :=
  C ← cache_of c s;
  Ret (Z.of_nat (length (filter (fun a => a ≠ ignoreArea ∧ writable a = true) (areas C)))).

(** Areas of [fromCache] become areas of [c]; each holds a reference. *)
Definition TransferAreas c fromCache s : outcome lstate :=
  C ← cache_of c s;
  F ← cache_of fromCache s;
  _ ← assert (bool_decide (areas C = []));
  let s := upd c (fun C => C <| areas := areas F |>) s in
  let s := upd fromCache (fun F => F <| areas := [] |>) s in
  Ret (foldl (fun s _ => ReleaseRefLocked fromCache (AcquireRefLocked c s)) s (areas F)).

(** ** Page events *)

Definition NotifyPageEvents c (page events : Z) s : lstate :=
  s <| page_event_waiters ::= alter (filter (fun w => ¬ (w.1 = page ∧ Z.land w.2 events ≠ 0))) c |>.

Definition MarkPageUnbusy c (page : Z) s : outcome lstate :=
  pg ← deref (pages (vm (ast s)) !! page);
  _ ← assert (busy pg);
  Ret (NotifyPageEvents c page PAGE_EVENT_NOT_BUSY
         (s <| ast ::= fun a => a <| vm ::= upd_page page (fun pg => pg <| busy := false |>) |> |>)).

(** ** Merging and deleting *)

Definition _IsMergeable c s : outcome bool :=
  C ← cache_of c s;
  Ret (bool_decide (areas C = []) && temporary C && (length (consumers C) =? 1)%nat &&
       bool_decide (ctype C ≠ CACHE_TYPE_VNODE) && mergeable C &&
       bool_decide (default [] (page_event_waiters s !! c) = [])).

(** [consumer->Merge(c)], by the class of the consumer. *)
Definition merge_into consumer c s : outcome lstate :=
  match anons (ast s) !! consumer with
  | Some _ =>
      _ ← assert (bool_decide (is_Some (anons (ast s) !! c)));
      a ← AnonymousCache.Merge SECONDS env consumer c (ast s);
      Ret (s <| ast := a |>)
  | None =>
      v ← VMCache_Merge consumer c (vm (ast s));
      Ret (s <| ast ::= fun a => a <| vm := v |> |>)
  end.

(** What happened while this thread waited for the lock of a consumer, and
    whether it got it; [None] when [TryLock] succeeds. *)
Definition contention : Type := option ((lstate → lstate) * bool).
Implicit Types (es : list contention).

Definition next_try es : contention * list contention :=
  match es with [] => (None, []) | e :: es => (e, es) end.

Section recursion.
Variable unlock : Z → bool → lstate * list contention → outcome (lstate * list contention).

Definition _MergeWithOnlyConsumer c (x : lstate * list contention) : outcome (lstate * list contention) :=
  let '(s, es) := x in
  C ← cache_of c s;
  consumer ← deref (head (consumers C));
  let s := upd c (fun C => C <| consumers ::= tail |>) s in
  s ← merge_into consumer c s;
  '(s, es) ←
    match source C with
    | Some newSource =>
        let s := upd newSource (fun N => N <| consumers ::= fun l => filter (.≠ c) l ++ [consumer] |>) s in
        let s := upd consumer (fun D => D <| source := Some newSource |>) s in
        let s := upd c (fun C => C <| source := None |>) s in
        unlock newSource false (s, es)
    | None => Ret (upd consumer (fun D => D <| source := None |>) s, es)
    end;
  Ret (ReleaseRefLocked c s, es).

Definition _RemoveConsumer c consumer (x : lstate * list contention) : outcome (lstate * list contention) :=
  let '(s, es) := x in
  s ← ReleaseStoreRef c s;
  let s := upd c (fun C => C <| consumers ::= filter (.≠ consumer) |>) s in
  let s := upd consumer (fun D => D <| source := None |>) s in
  unlock c false (ReleaseRefLocked c s, es).

(** The loop of [Delete] that frees the pages. *)
Definition delete_page c (offset : Z) (v : vmstate) : outcome vmstate :=
  C ← deref (caches v !! c);
  p ← deref (cpages C !! offset);
  pg ← deref (pages v !! p);
  _ ← assert (bool_decide (mappings pg = []) && (wired_count pg =? 0));
  let v := set_cache c (C <| cpages ::= delete offset |>) v in
  let v := set_page p (pg <| cache_ref := None |>) v in
  '(_, v) ← vm_page_free_etc (Some c) p None v;
  Ret v.

Fixpoint delete_pages c (os : list Z) (v : vmstate) : outcome vmstate :=
  match os with
  | [] => Ret v
  | o :: os => v ← delete_page c o v; delete_pages c os v
  end.

(** [DeleteObject]: the destructors of cache [c], whose fields are those of [C]. *)
Definition DeleteObject c (C : VMCache) s : outcome lstate :=
  a ← match anons (ast s) !! c with
      | Some an =>
          a ← _FreeSwapPageRange c (virtual_base C) (virtual_end C) false (ast s);
          let a := a <| swapfiles ::= swap_space_unreserve (committed_swap_size an) |> in
          Ret (if committed_swap_size an <? committed_size C
               then a <| mem ::= vm_unreserve_memory (committed_size C - committed_swap_size an) |> else a)
      | None =>
          if decide (c ∈ no_swap s) then Ret ((ast s) <| mem ::= vm_unreserve_memory (committed_size C) |>) else Ret (ast s)
      end;
  Ret (s <| ast := a <| anons ::= delete c |> |> <| no_swap ::= fun n => n ∖ {[c]} |> <| page_event_waiters ::= delete c |>).

(** Once its pages are gone, nothing but its source refers to the cache, and
    it leaves the map of caches: what [_RemoveConsumer] assigns to it is lost
    with it. *)
Definition Delete c (x : lstate * list contention) : outcome (lstate * list contention) :=
  let '(s, es) := x in
  C ← cache_of c s;
  _ ← assert (bool_decide (areas C = []));
  _ ← assert (bool_decide (consumers C = []));
  v ← delete_pages c (tree_offsets (cpages C)) (vm (ast s));
  let v := v <| caches ::= delete c |> <| cacherefs ::= delete (self_ref C) |> in
  let s := s <| ast ::= fun a => a <| vm := v |> |> in
  '(s, es) ← match source C with Some source => _RemoveConsumer source c (s, es) | None => Ret (s, es) end;
  s ← DeleteObject c C s;
  Ret (s, es).
End recursion.

Fixpoint Unlock (fuel : nat) c (consumerLocked : bool) (x : lstate * list contention) : outcome (lstate * list contention) :=
  match fuel with
  | O => NoFuel
  | S fuel =>
      let '(s, es) := x in
      C ← cache_of c s;
      m ← _IsMergeable c s;
      if (ref_count C =? 1) && m then
        consumer ← deref (head (consumers C));
        x ← (if consumerLocked then _MergeWithOnlyConsumer (Unlock fuel) c x
             else
               match next_try es with
               | (None, es) =>
                   x ← _MergeWithOnlyConsumer (Unlock fuel) c (s, es);
                   Unlock fuel consumer false x
               | (Some (others, locked), es) =>
                   let s := ReleaseRefLocked c (others (AcquireRefLocked c s)) in
                   if (locked : bool) then
                     C ← cache_of c s;
                     m ← _IsMergeable c s;
                     x ← (if (ref_count C =? 1) && m && bool_decide (head (consumers C) = Some consumer)
                          then _MergeWithOnlyConsumer (Unlock fuel) c (s, es) else Ret (s, es));
                     Unlock fuel consumer false x
                   else Ret (s, es)
               end);
        Unlock fuel c consumerLocked x
      else if ref_count C =? 0 then Delete (Unlock fuel) c x
      else Ret x
  end.

Definition ReleaseRefAndUnlock (fuel : nat) c (x : lstate * list contention) : outcome (lstate * list contention) :=
  Unlock fuel c false (ReleaseRefLocked c x.1, x.2).

(** [RemoveArea]. *)
Definition RemoveArea (fuel : nat) c (area : Z) (x : lstate * list contention) : outcome (lstate * list contention) :=
  s ← ReleaseStoreRef c x.1;
  Unlock fuel c false (upd c (fun C => C <| areas ::= filter (.≠ area) |>) s, x.2).
End ops.

(** ** Deleting the pages of a cache *)

Section delete.
Context {DL : DLList Z}.
Implicit Types (v : vmstate) (c : Z).

(** All caches but [c] are in order. *)
Definition hide c v : vmstate := v <| caches ::= delete c |>.

Lemma hide_caches c v : caches (hide c v) = delete c (caches v).
Proof. reflexivity. Qed.

Lemma hide_ok c v : vm_ok v → vm_ok (hide c v).
Proof.
  intros ([Hall Hf] & Hpo & Hsz). split_and!; [split|by apply Hpo|done].
  - intros d D. rewrite hide_caches. intros [_ HD]%lookup_delete_Some. by apply Hall.
  - done.
Qed.

(** The pages of [c] are the ones that refer to it. *)
Definition owns v c (C : VMCache) : Prop :=
  caches v !! c = Some C ∧ cacherefs v !! self_ref C = Some c ∧ ∀ o p, cpages C !! o = Some p ↔ refers v p o (self_ref C).

Lemma delete_page_ok c C o p pg v :
  vm_ok (hide c v) → owns v c C → cpages C !! o = Some p → pages v !! p = Some pg → wired_count pg = 0 → mappings pg = [] →
  ∃ v', delete_page c o v = Ret v' ∧ vm_ok (hide c v') ∧ owns v' c (C <| cpages ::= delete o |>) ∧
    caches v' = <[c := C <| cpages ::= delete o |>]> (caches v) ∧ cacherefs v' = cacherefs v ∧
    pages v' = <[p := freed (pg <| cache_ref := None |>)]> (pages v).
Proof.
  intros (Hco & Hpo & Hsz) (HC & Hself & Hel) Ho Hp Hw Hm. unfold delete_page. rewrite HC. cbn [deref mbind outcome_bind].
  rewrite Ho. cbn [deref mbind outcome_bind]. rewrite Hp. cbn [deref mbind outcome_bind].
  rewrite bool_decide_eq_true_2, Hw by done. cbn [andb Z.eqb assert mbind outcome_bind].
  set (C' := C <| cpages ::= delete o |>). set (pg' := pg <| cache_ref := None |>).
  set (v1 := set_page p pg' (set_cache c C' v)). pose proof (proj1 (Hel o p) Ho) as (pg0 & Hp0 & Hoff & Hr).
  rewrite Hp in Hp0. injection Hp0 as <-.
  assert (¬ is_free pg) as Hnf.
  { intros Hf. destruct (proj2 Hpo p pg Hp) as [_ H]. destruct (H Hf) as [E _]. congruence. }
  assert (frame v v1) as Hfr.
  { eapply frame_trans; [apply (frame_set_cache c C C' v HC eq_refl)|]. by apply (frame_set_page p pg). }
  assert (∀ q x, pages v1 !! q = Some x → is_free x → cache_ref x = None) as Hn1.
  { intros q x. cbn. intros [[_ <-]|[_ Hq]]%lookup_insert_Some Hx; [done|]. by apply (proj2 Hpo q x Hq). }
  destruct (vm_page_free_etc_pages c C' p pg' v1) as (v' & H1 & Hpo' & Hp' & Hc' & Hcr').
  { by eapply frame_pages_ok. }
  { cbn. by rewrite lookup_insert_eq. }
  { cbn. by rewrite lookup_insert_eq. }
  { done. }
  rewrite H1. cbn [mbind outcome_bind]. exists v'. split; [done|].
  assert (pages v' = <[p := freed pg']> (pages v)) as Ep by (rewrite Hp'; cbn; by rewrite insert_insert_eq).
  assert (∀ q x r, refers v' q x r ↔ q ≠ p ∧ refers v q x r) as Hrefs.
  { intros q x r. unfold refers. rewrite Ep. split.
    - intros (y & [[_ <-]|[? ?]]%lookup_insert_Some & ? & Hry); [done|]. split; [by apply not_eq_sym|eauto].
    - intros [? (y & ? & ? & ?)]. exists y. by rewrite lookup_insert_ne by (by apply not_eq_sym). }
  assert (dom (pages v') = dom (pages v)) as Hdom by (rewrite Ep, dom_insert_L; apply (elem_of_dom_2 (D := gset Z)) in Hp; set_solver).
  split_and!; [split; [split|split]|..].
  - intros d D. rewrite hide_caches, Hc'. cbn. rewrite delete_insert_eq. intros HD. pose proof (proj1 Hco d D HD) as HokD.
    eapply cache_ok_frame; [exact HokD|exact Hcr'| |].
    + intros q x. rewrite (Hrefs q x (self_ref D) : refers (hide c v') q x _ ↔ _). split; [by intros [_ ?]|]. intros Hq. split; [|done].
      intros ->. destruct Hq as (y & Hy & _ & Hry). cbn in Hy. rewrite Hp in Hy. injection Hy as <-.
      destruct HokD as (Hs & _). cbn in Hs. apply lookup_delete_Some in HD as [Hne _]. congruence.
    + intros q x Hx. unfold is_wired. cbn. rewrite Ep, lookup_insert_ne; [done|]. intros <-.
      destruct HokD as (Hs & _ & _ & _ & HelD). apply HelD in Hx as (y & Hy & _ & Hry). cbn in Hy, Hs. rewrite Hp in Hy. injection Hy as <-.
      apply lookup_delete_Some in HD as [Hne _]. congruence.
  - intros q x. cbn. rewrite Ep. intros [[_ <-]|[_ Hq]]%lookup_insert_Some; [apply (proj2 Hco p pg Hp)|by apply (proj2 Hco q)].
  - done.
  - cbn. rewrite <- size_dom, Hdom, size_dom. done.
  - split_and!; [by rewrite Hc'; cbn; rewrite lookup_insert_eq|by rewrite Hcr'|].
    intros x q. cbn. rewrite Hrefs. rewrite lookup_delete_Some, Hel. split.
    + intros [Hne Hq]. split; [|done]. intros ->. apply Hne. destruct Hq as (y & Hy & Hoy & _). congruence.
    + intros [Hne Hq]. split; [|done]. intros ->. apply Hne. apply Hel in Hq. congruence.
  - by rewrite Hc'.
  - by rewrite Hcr'.
  - done.
Qed.

Lemma delete_pages_ok c os C v :
  vm_ok (hide c v) → owns v c C → NoDup os →
  (∀ o, o ∈ os → ∃ p pg, cpages C !! o = Some p ∧ pages v !! p = Some pg ∧ wired_count pg = 0 ∧ mappings pg = []) →
  ∃ v' C', delete_pages c os v = Ret v' ∧ vm_ok (hide c v') ∧ owns v' c C' ∧ self_ref C' = self_ref C ∧
    caches v' = <[c := C']> (caches v) ∧ cacherefs v' = cacherefs v ∧
    ∀ p pg', pages v' !! p = Some pg' → (∃ o, cpages C !! o = Some p) ∨ pages v !! p = Some pg'.
Proof.
  revert C v. induction os as [|o os IH]; intros C v Hok Hown Hnd Hos; cbn [delete_pages].
  { exists v, C. split_and!; try done; [by rewrite insert_id by apply Hown|auto]. }
  apply NoDup_cons in Hnd as [Hni Hnd]. destruct (Hos o) as (p & pg & Ho & Hp & Hw & Hm); [left|].
  destruct (delete_page_ok c C o p pg v) as (v1 & -> & Hok1 & Hown1 & Hc1 & Hcr1 & Hp1); [done..|]. cbn [mbind outcome_bind].
  destruct (IH (C <| cpages ::= delete o |>) v1) as (v' & C' & H1 & H2 & H3 & H4 & H5 & H6 & H7); [done..| |].
  { intros o' Ho'. destruct (Hos o') as (q & qg & Hq & Hqp & ?); [by right|]. exists q, qg. cbn.
    rewrite lookup_delete_ne by (intros <-; done). rewrite Hp1, lookup_insert_ne; [done|]. intros ->. apply Hni.
    destruct Hown as (_ & _ & Hel). apply Hel in Ho as (? & ? & ? & _), Hq as (? & ? & ? & _). congruence. }
  exists v', C'. split_and!; try done; [by rewrite H5, Hc1, insert_insert_eq|congruence|].
  intros q qg Hq. apply H7 in Hq as [[x Hx]|Hq].
  - left. exists x. cbn in Hx. by apply lookup_delete_Some in Hx as [_ ?].
  - rewrite Hp1 in Hq. apply lookup_insert_Some in Hq as [[<- _]|[_ ?]]; eauto.
Qed.

Lemma delete_cache_ok c C v :
  vm_ok v → caches v !! c = Some C →
  (∀ o p, cpages C !! o = Some p → ∃ pg, pages v !! p = Some pg ∧ wired_count pg = 0 ∧ mappings pg = []) →
  ∃ v', delete_pages c (tree_offsets (cpages C)) v = Ret v' ∧
    let v2 := v' <| caches ::= delete c |> <| cacherefs ::= delete (self_ref C) |> in
    vm_ok v2 ∧ caches v2 = delete c (caches v) ∧
    ∀ p pg', pages v2 !! p = Some pg' → (∃ o, cpages C !! o = Some p) ∨ pages v !! p = Some pg'.
Proof.
  intros Hok HC Hpg. pose proof (proj1 (proj1 Hok) c C HC) as (Hself & _ & _ & _ & Hel).
  destruct (delete_pages_ok c (tree_offsets (cpages C)) C v) as (v' & C' & H1 & H2 & _ & _ & H5 & H6 & H7);
    [by apply hide_ok|done|apply NoDup_tree_offsets| |].
  { intros o [p Ho]%elem_of_tree_offsets. destruct (Hpg o p Ho) as (pg & ?). eauto. }
  exists v'. split; [done|]. cbv zeta. set (v2 := _ <| cacherefs ::= _ |>).
  assert (caches v2 = delete c (caches v)) as Ec by (change (caches v2) with (delete c (caches v')); by rewrite H5, delete_insert_eq).
  split_and!; [|done|exact H7]. destruct H2 as (Hco & Hpo & Hsz). split_and!; [split|exact Hpo|exact Hsz].
  - intros d D HD. pose proof (proj1 Hco d D HD) as (Hs & Hrest). split; [|exact Hrest].
    change (cacherefs v2) with (delete (self_ref C) (cacherefs v')). apply lookup_delete_Some. split; [|exact Hs].
    intros E. change (cacherefs (hide c v')) with (cacherefs v') in Hs. rewrite H6, <- E, Hself in Hs. injection Hs as <-.
    rewrite Ec in HD. by rewrite lookup_delete_eq in HD.
  - apply Hco.
Qed.
End delete.

(** ** Merging without swapped-out pages *)

Section quiet.
Context {DL : DLList Z} {RB : RadixBitmap}.
Variable SECONDS : Z → Z.
Implicit Types (a : astate) (c d : Z) (T U : gmap Z Z).

Lemma shrink_part_backed size (x : cstate anon) :
  0 <= size <= committed_size (base x) → backed x →
  backed (shrink_part size (committed_memory x) x) ∧ committed_size (base (shrink_part size (committed_memory x) x)) = size.
Proof.
  intros Hsz (Hs & Ha). unfold shrink_part, committed_memory. destruct x as [C an w m]. unfold backed, set_committed, swap_space_unreserve, update in *.
  cbn in *.
  repeat (match goal with |- context [0 <? ?e] => destruct (Z.ltb_spec 0 e) end; cbn); lia.
Qed.

Lemma _Commit_shrinks e size priority (x : cstate anon) :
  backed x → 0 <= size < committed_size (base x) →
  ∃ x', _Commit SECONDS e size priority x = Ret (Ok, x') ∧ backed x' ∧ committed_size (base x') = size.
Proof.
  intros (Hs & Ha) Hsz. rewrite _Commit_parts. cbv zeta.
  destruct (swap_part_ok size x (conj Hs Ha)) as (Hcnt & _ & _). set (n := if _ <? size then _ else _) in *.
  assert (0 <= n <= sAvailSwapSpace (swapspace x)) as Hn by (unfold n; destruct (Z.ltb_spec (committed_swap_size (own x)) size); lia).
  clearbody n. set (c1 := swap_part size x) in *. clearbody c1. unfold counters in Hcnt. injection Hcnt as E1 E2 E3 E4.
  destruct (Z.eqb_spec (committed_size (base c1)) size) as [?|_]; [lia|].
  destruct (Z.ltb_spec size (committed_size (base c1))) as [_|?]; [|lia].
  assert (committed_memory x = committed_memory c1) as -> by (unfold committed_memory; lia).
  destruct (shrink_part_backed size c1) as [H1 H2]; [lia|unfold backed; lia|]. eauto.
Qed.

(** Nothing is swapped out, and every commitment is backed. *)
Definition quiet a : Prop :=
  sSwapHashTable a = ∅ ∧ files_ok (swapfiles a) ∧ 0 <= sAvailSwapSpace (swapfiles a) ∧
  ∀ c an, anons a !! c = Some an → allocated_swap_size an = 0 ∧ 0 <= committed_swap_size an ∧
    ∀ C, caches (vm a) !! c = Some C → committed_swap_size an <= committed_size C ∧ virtual_base C <= virtual_end C.

(** The links of a cache less its commitment. *)
Definition glinks (C : VMCache) : list Z * list Z * option Z * (Z * Z) * (bool * bool * cache_type * Z) :=
  (consumers C, areas C, source C, (virtual_base C, virtual_end C), (temporary C, mergeable C, ctype C, ref_count C)).

Lemma links_glinks (C C' : VMCache) : links C' = links C → glinks C' = glinks C.
Proof. unfold links, glinks. by intros [= -> -> -> -> -> _ -> -> -> ->]. Qed.

Lemma nc_glinks (C C' : VMCache) : nc C' = nc C → glinks C' = glinks C.
Proof. intros H. apply (f_equal glinks) in H. done. Qed.

Lemma glinks_fmap {B} (f : VMCache → B) (m m' : gmap Z VMCache) :
  (∀ C C', f C' = f C → glinks C' = glinks C) → f <$> m' = f <$> m → glinks <$> m' = glinks <$> m.
Proof.
  intros Hf E. apply map_eq. intros c. apply (f_equal (.!! c)) in E. rewrite !lookup_fmap in *.
  destruct (m' !! c), (m !! c); try done. cbn in *. injection E as E. f_equal. by apply Hf.
Qed.

(** Only commitments changed, and they are still backed. *)
Lemma quiet_recommitted a a' :
  quiet a → recommitted a a' → 0 <= sAvailSwapSpace (swapfiles a') →
  (∀ c an, anons a' !! c = Some an → 0 <= committed_swap_size an ∧ ∀ C, caches (vm a') !! c = Some C → committed_swap_size an <= committed_size C) →
  quiet a'.
Proof.
  intros (Ht & Hf & Ha & Han) Hr Ha' Hb. split_and!.
  - by rewrite (rc_table _ _ Hr).
  - pose proof (rc_files _ _ Hr) as Hw. assert (files_ok ((swapfiles a) <| sAvailSwapSpace := 0 |>)) as H by (destruct (swapfiles a); exact Hf).
    rewrite <- Hw in H. destruct (swapfiles a'); exact H.
  - done.
  - intros c an Hc. assert ((na <$> anons a) !! c = Some (na an)) as (an0 & En & Hc0)%lookup_fmap_Some
      by (by rewrite <- (rc_anons _ _ Hr), lookup_fmap, Hc).
    destruct (Han c an0 Hc0) as (H1 & _ & Hv). destruct (Hb c an Hc) as [Hb1 Hb2].
    apply (f_equal allocated_swap_size) in En. unfold na, update in En. cbn in En. split; [congruence|]. split; [done|].
    intros C HC. split; [by apply Hb2|].
    assert ((nc <$> caches (vm a)) !! c = Some (nc C)) as (C0 & EC & HC0)%lookup_fmap_Some by (by rewrite <- (rc_caches _ _ Hr), lookup_fmap, HC).
    destruct (nc_fields C C0) as (_ & _ & _ & _ & <- & <-); [by rewrite EC|]. by apply Hv.
Qed.

(** The commitment step of [Merge]. *)
Lemma merge_commitment_quiet e c src a :
  quiet a → c ≠ src → is_Some (anons a !! c) → is_Some (anons a !! src) → is_Some (caches (vm a) !! c) → is_Some (caches (vm a) !! src) →
  ∃ a1, (s ← take_commitment c src a;
     C ← deref (caches (vm s) !! c);
     let actualSize := virtual_end C - virtual_base C in
     if actualSize <? committed_size C
     then '(_, s) ← with_commit c (_Commit SECONDS e actualSize GFP_PRIO_USER) s; Ret s
     else Ret s) = Ret a1 ∧ recommitted a a1 ∧ quiet a1.
Proof.
  intros Hq Hne [ac Hac] [as_ Has] [C HC] [S HS]. pose proof Hq as (_ & _ & Hav & Han).
  destruct (Han c ac Hac) as (_ & Hnc & [Hbc Hvc]%(fun f => f C HC)). destruct (Han src as_ Has) as (_ & Hns & [Hbs Hvs]%(fun f => f S HS)).
  destruct (take_commitment_ok c src a C S ac as_) as (s0 & -> & Hr & Ew & Em & HC0 & HS0 & Ha0 & Has0 & Hoth); [done..|].
  cbn [mbind outcome_bind]. set (C0 := C <| committed_size ::= _ |>) in *. set (a0 := ac <| committed_swap_size ::= _ |>) in *.
  assert (committed_size C0 = committed_size C + committed_size S ∧ virtual_end C0 = virtual_end C ∧ virtual_base C0 = virtual_base C
    ∧ committed_swap_size a0 = committed_swap_size ac + committed_swap_size as_) as (E1 & E2 & E3 & E4) by done.
  assert (quiet s0) as Hq0.
  { eapply quiet_recommitted; [done|done|by rewrite Ew|]. intros d an Hd.
    destruct (decide (d = c)) as [->|]; [rewrite Ha0 in Hd; injection Hd as <-; split; [lia|]; intros D; rewrite HC0; intros [= <-]; lia|].
    destruct (decide (d = src)) as [->|]; [rewrite Has0 in Hd; injection Hd as <-; split; [cbn; lia|]; intros D; rewrite HS0; intros [= <-]; cbn; lia|].
    destruct (Hoth d) as [F1 F2]; [done..|]. rewrite F1. rewrite F2 in Hd.
    destruct (Han d an Hd) as (_ & ? & Hb). split; [done|]. intros D HD. by apply Hb. }
  clearbody C0 a0. rewrite HC0. cbn [deref mbind outcome_bind]. cbv zeta. rewrite E2, E3.
  destruct (Z.ltb_spec (virtual_end C - virtual_base C) (committed_size C0)) as [Hlt|Hge]; [|by exists s0].
  unfold with_commit. rewrite HC0, Ha0. cbn [deref mbind outcome_bind].
  destruct (_Commit_shrinks e (virtual_end C - virtual_base C) GFP_PRIO_USER (cstate_of s0 C0 a0)) as (x & Hx & Hx1 & Hx2);
    [unfold backed; cbn; rewrite ?Ew; lia..|].
  pose proof (_Commit_frame SECONDS e _ _ _ _ _ Hx) as Hfr. unfold cstate_of in Hx at 1. rewrite Hx. cbn [mbind outcome_bind].
  eexists. split; [reflexivity|]. pose proof (with_commit_recommitted c s0 C0 a0 x HC0 Ha0 Hfr) as Hr1.
  split; [by eapply recommitted_trans|]. eapply quiet_recommitted; [exact Hq0|exact Hr1|apply Hx1|].
  destruct Hq0 as (_ & _ & _ & Han0). intros d an. cbn. intros [[<- <-]|[Hn Hd]]%lookup_insert_Some.
  { split; [apply Hx1|]. intros D [[_ <-]|[? _]]%lookup_insert_Some; [apply Hx1|done]. }
  destruct (Han0 d an Hd) as (_ & ? & Hb). split; [done|]. intros D [[? _]|[_ HD]]%lookup_insert_Some; [done|]. by apply Hb.
Qed.

(** Pages moved between caches, or freed. *)
Lemma quiet_links a v' : quiet a → links <$> caches v' = links <$> caches (vm a) → quiet (a <| vm := v' |>).
Proof.
  intros (Q1 & Q2 & Q3 & Q4) Hl. split_and!; [done..|]. intros x an Hx. destruct (Q4 x an Hx) as (? & ? & Hb). split_and!; [done..|].
  intros X' HX'. pose proof (f_equal (.!! x) Hl) as E. cbn in HX'. rewrite !lookup_fmap, HX' in E.
  destruct (caches (vm a) !! x) as [X|]; [|done]. cbn in E. unfold links in E.
  assert (committed_size X' = committed_size X ∧ virtual_base X' = virtual_base X ∧ virtual_end X' = virtual_end X) as (-> & -> & ->)
    by (split_and!; congruence). by apply Hb.
Qed.

Lemma merge_quiet e d c a T U :
  quiet a → vm_ok (vm a) → d ≠ c → is_Some (anons a !! d) → is_Some (anons a !! c) →
  trees (vm a) !! d = Some T → trees (vm a) !! c = Some U →
  (∀ o p, U !! o = Some p → not_busy (vm a) p) → (∀ o p, U !! o = Some p → is_Some (T !! o) → idle (vm a) p) →
  ∃ a' U' (F : gset Z), AnonymousCache.Merge SECONDS e d c a = Ret a' ∧ quiet a' ∧ vm_ok (vm a') ∧ dom (anons a') = dom (anons a) ∧
    glinks <$> caches (vm a') = glinks <$> caches (vm a) ∧
    trees (vm a') = <[d := T ∪ U]> (<[c := U']> (trees (vm a))) ∧
    (∀ k p, U' !! k = Some p → U !! k = Some p ∧ is_Some (T !! k)) ∧
    (∀ p pg', pages (vm a') !! p = Some pg' →
      if decide (p ∈ F) then is_free pg' else ∃ pg, pages (vm a) !! p = Some pg ∧ attr pg' = attr pg).
Proof.
  intros Hq Hok Hne Hd Hc HT HU Hb Hi. pose proof HT as (D & HD & _)%lookup_trees. pose proof HU as (C & HC & _)%lookup_trees.
  destruct (merge_commitment_quiet e d c a Hq Hne Hd Hc) as (a1 & H1 & Hr & Hq1); [by eexists..|].
  destruct (recommitted_vm a a1 Hr) as (Hp & _ & _ & Ht). pose proof (recommitted_vm_ok a a1 Hr Hok) as Hok1.
  assert (∀ x, is_Some (anons a !! x) → ∃ an, anons a1 !! x = Some an ∧ allocated_swap_size an = 0) as Hal.
  { intros x Hx. assert (is_Some (anons a1 !! x)) as [an Hn].
    { pose proof (f_equal (.!! x) (rc_anons _ _ Hr)) as E. rewrite !lookup_fmap in E. destruct (anons a !! x); [|by destruct Hx].
      destruct (anons a1 !! x); [by eexists|done]. }
    exists an. split; [done|]. by apply Hq1 in Hn as [? _]. }
  destruct (Hal d Hd) as (ad & Had & Ed). destruct (Hal c Hc) as (ac & Hac & Ec).
  assert (∀ x X, caches (vm a) !! x = Some X → ∃ X1, caches (vm a1) !! x = Some X1) as Hex.
  { intros x X HX. pose proof (f_equal (.!! x) (rc_caches _ _ Hr)) as E. rewrite !lookup_fmap, HX in E. destruct (caches (vm a1) !! x); [eauto|done]. }
  destruct (Hex d D HD) as [D1 HD1]. destruct (Hex c C HC) as [C1 HC1].
  destruct (merge_pages_ok (page_count C1 <? page_count D1) d c (vm a1) T U) as (v' & F & U' & H2 & He & Ht' & _ & HU');
    [done|done|by rewrite Ht|by rewrite Ht|unfold not_busy; by rewrite Hp|unfold idle; by rewrite Hp|].
  exists (a1 <| vm := v' |>), U', F. pose proof He as (Hok' & Hl' & Hdom & Hpg). split_and!.
  - unfold AnonymousCache.Merge. revert H1. destruct (take_commitment d c a) as [s0| |]; cbn [mbind outcome_bind]; [|done..].
    destruct (caches (vm s0) !! d) as [D0|]; cbn [deref mbind outcome_bind]; [|done]. cbv zeta. intros ->. cbn [mbind outcome_bind].
    unfold _MergeSwapPages. rewrite Had, Hac. cbn [deref mbind outcome_bind]. rewrite Ed, Ec. cbn [Z.eqb andb mbind outcome_bind].
    rewrite HC1, HD1. cbn [deref mbind outcome_bind]. by rewrite H2.
  - by apply quiet_links.
  - done.
  - pose proof (f_equal dom (rc_anons _ _ Hr)) as E. rewrite !dom_fmap_L in E. done.
  - trans (glinks <$> caches (vm a1)); [by apply (glinks_fmap links); [apply links_glinks|]|].
    apply (glinks_fmap nc); [apply nc_glinks|apply Hr].
  - cbn. by rewrite Ht', Ht.
  - exact HU'.
  - cbn. rewrite <- Hp. exact Hpg.
Qed.
End quiet.

(** ** The graph of caches

    The abstract view of the caches: their pages, links and references.  The
    page at an index seen from a cache is its own, or else the one seen from
    its source. *)

Record node := mkNode {
  n_tree : gmap Z Z;
  n_consumers : list Z;
  n_areas : list Z;
  n_source : option Z;
  n_ref : Z;
  n_flag : bool
}.
Notation graph := (gmap Z node).

Section graph.
Implicit Types (G : graph) (c d x : Z) (N D : node) (waiting : Z → bool).

Inductive sees G : Z → Z → Z → Prop :=
  | sees_here x N k p : G !! x = Some N → n_tree N !! k = Some p → sees G x k p
  | sees_up x N c k p : G !! x = Some N → n_tree N !! k = None → n_source N = Some c → sees G c k p → sees G x k p.

Lemma sees_fun G x k p q : sees G x k p → sees G x k q → p = q.
Proof. intros H. revert q. induction H; intros q Hq; inversion Hq; simplify_eq; auto. Qed.

(** [_IsMergeable]. *)
Definition n_mergeable waiting c N : bool :=
  bool_decide (n_areas N = []) && (length (n_consumers N) =? 1)%nat && n_flag N && negb (waiting c).

Record graph_ok (n : nat) (X : option Z) waiting G : Prop := {
  g_source : ∀ d D c, G !! d = Some D → n_source D = Some c → ∃ N, G !! c = Some N ∧ d ∈ n_consumers N;
  g_consumer : ∀ c N d, G !! c = Some N → d ∈ n_consumers N → ∃ D, G !! d = Some D ∧ n_source D = Some c;
  g_nodup : ∀ c N, G !! c = Some N → NoDup (n_consumers N);
  g_rank : ∃ rank : Z → nat, ∀ d D c, G !! d = Some D → n_source D = Some c → (rank c < rank d ≤ n)%nat;
  g_refs : ∀ c N, G !! c = Some N →
    Z.of_nat (length (n_consumers N)) + Z.of_nat (length (n_areas N)) <= n_ref N < 2 ^ 31 - 1;
  g_settled : ∀ c N, G !! c = Some N → Some c ≠ X → n_ref N ≠ 0 ∧ ¬ (n_ref N = 1 ∧ n_mergeable waiting c N = true)
}.

(** The visible pages and the caches with areas are kept. *)
Record kept G G' : Prop := {
  kept_view : ∀ x, is_Some (G' !! x) → is_Some (G !! x) ∧ ∀ k p, sees G' x k p ↔ sees G x k p;
  kept_areas : ∀ x N, G !! x = Some N → n_areas N ≠ [] → ∃ N', G' !! x = Some N' ∧ n_areas N' = n_areas N
}.

Lemma kept_refl G : kept G G.
Proof. split; [done|eauto]. Qed.

Lemma kept_trans G1 G2 G3 : kept G1 G2 → kept G2 G3 → kept G1 G3.
Proof.
  intros [V1 A1] [V2 A2]. split.
  - intros x Hx. destruct (V2 x Hx) as [Hx2 E2]. destruct (V1 x Hx2) as [Hx1 E1]. split; [done|]. intros k p. by rewrite E2, E1.
  - intros x N HN Ha. destruct (A1 x N HN Ha) as (N2 & H2 & E2). destruct (A2 x N2 H2) as (N3 & H3 & E3); [congruence|].
    exists N3. split; [done|congruence].
Qed.

(** What ties the graph to the pages [P] and to the set [A] of the anonymous
    caches: a cache that may be merged into an anonymous one is anonymous;
    whoever makes a page busy holds a reference to its cache that is neither
    an area's nor a consumer's; a page that is mapped or wired is seen from a
    cache with areas. *)
Record tied (A : gset Z) (P : gmap Z page) G : Prop := {
  t_class : ∀ d D c N, G !! d = Some D → n_source D = Some c → G !! c = Some N → n_flag N = true → d ∈ A → c ∈ A;
  t_busy : ∀ c N k p pg, G !! c = Some N → n_tree N !! k = Some p → P !! p = Some pg → busy pg = true →
    Z.of_nat (length (n_consumers N)) + Z.of_nat (length (n_areas N)) < n_ref N;
  t_mapped : ∀ c N k p pg, G !! c = Some N → n_tree N !! k = Some p → P !! p = Some pg → (wired_count pg ≠ 0 ∨ mappings pg ≠ []) →
    ∃ y Y, G !! y = Some Y ∧ n_areas Y ≠ [] ∧ sees G y k p
}.

(** No page is in two places. *)
Definition once G : Prop := ∀ c N k d D l p, G !! c = Some N → n_tree N !! k = Some p → G !! d = Some D → n_tree D !! l = Some p → c = d ∧ k = l.

(** The pages of the caches have the attributes they had. *)
Definition same_pages (P P' : gmap Z page) G' : Prop :=
  ∀ c N k p pg', G' !! c = Some N → n_tree N !! k = Some p → P' !! p = Some pg' → ∃ pg, P !! p = Some pg ∧ attr pg' = attr pg.

Lemma attr_use pg pg' : attr pg' = attr pg → busy pg' = busy pg ∧ wired_count pg' = wired_count pg ∧ mappings pg' = mappings pg.
Proof. intros E. split_and!; [by apply (f_equal busy) in E|by apply (f_equal wired_count) in E|by apply (f_equal mappings) in E]. Qed.

(** A page is seen from another cache only through the consumers of its own,
    which have none at the same index. *)
Lemma seen_through G c N k p y :
  once G → G !! c = Some N → n_tree N !! k = Some p → sees G y k p → y ≠ c →
  ∃ d D, G !! d = Some D ∧ n_source D = Some c ∧ n_tree D !! k = None.
Proof.
  intros Hon HN Hk H Hy. induction H as [y Y k p HY Hp|y Y z k p HY Hp Hs H IH].
  - by destruct (Hon _ _ _ _ _ _ _ HN Hk HY Hp).
  - destruct (decide (z = c)) as [->|Hz]; [eauto|by apply IH].
Qed.

(** ** Merging *)

(** The graph after [c] was merged into its only consumer [d]. *)
Definition without_consumer c (l : list Z) : list Z := filter (.≠ c) l.

Definition relink c d (o : option Z) G : graph :=
  match o with
  | Some src => alter (fun N => mkNode (n_tree N) (without_consumer c (n_consumers N) ++ [d]) (n_areas N) (n_source N) (n_ref N) (n_flag N)) src G
  | None => G
  end.

Definition merged_graph c N d D (U' : gmap Z Z) G : graph :=
  <[c := mkNode U' [] (n_areas N) None (n_ref N - 1) (n_flag N)]>
    (<[d := mkNode (n_tree D ∪ n_tree N) (n_consumers D) (n_areas D) (n_source N) (n_ref D) (n_flag D)]> (relink c d (n_source N) G)).

Section merge.
Context (n : nat) (X : option Z) (waiting : Z → bool) (G : graph) (c d : Z) (N D : node) (U' : gmap Z Z).
Hypothesis Hok : graph_ok n X waiting G.
Hypothesis HN : G !! c = Some N.
Hypothesis HD : G !! d = Some D.
Hypothesis Hd : n_consumers N = [d].
#[local] Set Default Proof Using "Type*".

Local Notation G' := (merged_graph c N d D U' G).

Lemma merge_source_d : n_source D = Some c.
Proof. destruct (g_consumer _ _ _ _ Hok c N d HN) as (D' & HD' & E); [rewrite Hd; left|]. congruence. Qed.

Lemma no_self x Y : G !! x = Some Y → n_source Y ≠ Some x.
Proof. intros HY E. destruct (g_rank _ _ _ _ Hok) as (rank & Hr). pose proof (Hr x Y x HY E). lia. Qed.

Lemma merge_ne : d ≠ c.
Proof. intros E. apply (no_self d D HD). rewrite merge_source_d. congruence. Qed.

Lemma only_consumer x Y : G !! x = Some Y → n_source Y = Some c → x = d.
Proof.
  intros HY E. destruct (g_source _ _ _ _ Hok x Y c HY E) as (N' & HN' & Hin). rewrite HN in HN'. injection HN' as <-.
  rewrite Hd in Hin. by apply list_elem_of_singleton in Hin.
Qed.

Lemma source_ne src : n_source N = Some src → src ≠ c ∧ src ≠ d.
Proof.
  intros E. split; [intros F; apply (no_self c N HN); congruence|]. intros F. destruct (g_rank _ _ _ _ Hok) as (rank & Hr).
  pose proof (Hr c N src HN E). rewrite F in *. pose proof (Hr d D c HD merge_source_d). lia.
Qed.

Lemma merged_c : G' !! c = Some (mkNode U' [] (n_areas N) None (n_ref N - 1) (n_flag N)).
Proof. apply lookup_insert_eq. Qed.

Lemma merged_d : G' !! d = Some (mkNode (n_tree D ∪ n_tree N) (n_consumers D) (n_areas D) (n_source N) (n_ref D) (n_flag D)).
Proof. unfold merged_graph. rewrite lookup_insert_ne by (intros E; by apply merge_ne). apply lookup_insert_eq. Qed.

(** The other caches differ in their consumers only. *)
Lemma merged_other x : x ≠ c → x ≠ d →
  G' !! x = (fun Y => mkNode (n_tree Y)
    (if decide (n_source N = Some x) then without_consumer c (n_consumers Y) ++ [d] else n_consumers Y)
    (n_areas Y) (n_source Y) (n_ref Y) (n_flag Y)) <$> G !! x.
Proof.
  intros Hc Hxd. unfold merged_graph. rewrite !lookup_insert_ne by done. unfold relink. destruct (n_source N) as [src|] eqn:E.
  - destruct (decide (src = x)) as [->|Hne].
    + rewrite lookup_alter_eq. destruct (G !! x); cbn; [|done]. by rewrite decide_True.
    + rewrite lookup_alter_ne by done. destruct (G !! x) as [Y|]; cbn; [|done]. rewrite decide_False by congruence. by destruct Y.
  - destruct (G !! x) as [Y|]; cbn; [|done]. rewrite decide_False by done. by destruct Y.
Qed.

Lemma merged_tree x Y : x ≠ c → x ≠ d → G !! x = Some Y → ∃ Y', G' !! x = Some Y' ∧ n_tree Y' = n_tree Y ∧ n_source Y' = n_source Y.
Proof. intros ? ? HY. rewrite merged_other, HY by done. cbn. eauto. Qed.

Lemma sees_merged_1 x k p : sees G' x k p → x ≠ c → sees G x k p.
Proof.
  induction 1 as [x Y k p HY Hk|x Y y k p HY Hk Hs Hsee IH]; intros Hx.
  - destruct (decide (x = d)) as [->|Hxd].
    + rewrite merged_d in HY. injection HY as <-. cbn in Hk. rewrite union_lookup in Hk.
      destruct (n_tree D !! k) eqn:Et; [injection Hk as ->; by eapply sees_here|].
      eapply sees_up; [done|done|apply merge_source_d|]. by eapply sees_here.
    + rewrite merged_other in HY by done. destruct (G !! x) as [Z0|] eqn:Ex; [|done]. cbn in HY. injection HY as <-. by eapply sees_here.
  - destruct (decide (x = d)) as [->|Hxd].
    + rewrite merged_d in HY. injection HY as <-. cbn in Hk, Hs. rewrite union_lookup in Hk.
      destruct (n_tree D !! k) eqn:Et; [done|]. destruct (source_ne y Hs) as [Hyc _].
      eapply sees_up; [done|done|apply merge_source_d|]. eapply sees_up; [done|done|done|]. by apply IH.
    + rewrite merged_other in HY by done. destruct (G !! x) as [Z0|] eqn:Ex; [|done]. cbn in HY. injection HY as <-. cbn in Hk, Hs.
      eapply sees_up; [done|done|done|]. apply IH. intros ->. apply Hxd. by eapply only_consumer.
Qed.

Lemma sees_merged_2 x k p : sees G x k p → (x ≠ c → sees G' x k p) ∧ (x = c → n_tree D !! k = None → sees G' d k p).
Proof.
  induction 1 as [x Y k p HY Hk|x Y y k p HY Hk Hs Hsee [IH1 IH2]].
  - split.
    + intros Hx. destruct (decide (x = d)) as [->|Hxd].
      * rewrite HD in HY. injection HY as <-. eapply sees_here; [apply merged_d|]. cbn. by rewrite union_lookup, Hk.
      * destruct (merged_tree x Y Hx Hxd HY) as (Y' & HY' & E & _). eapply sees_here; [done|by rewrite E].
    + intros -> Et. rewrite HN in HY. injection HY as <-. eapply sees_here; [apply merged_d|]. cbn. by rewrite union_lookup, Et.
  - split.
    + intros Hx. destruct (decide (x = d)) as [->|Hxd].
      * rewrite HD in HY. injection HY as <-. rewrite merge_source_d in Hs. injection Hs as <-. by apply IH2.
      * destruct (merged_tree x Y Hx Hxd HY) as (Y' & HY' & E & Es). eapply sees_up; [done|by rewrite E|by rewrite Es|].
        apply IH1. intros ->. apply Hxd. by eapply only_consumer.
    + intros -> Et. rewrite HN in HY. injection HY as <-. eapply sees_up; [apply merged_d| |done|].
      * cbn. by rewrite union_lookup, Et.
      * apply IH1. by apply source_ne.
Qed.

Lemma sees_merged x k p : x ≠ c → sees G' x k p ↔ sees G x k p.
Proof. intros Hx. split; [intros H; by apply sees_merged_1|]. intros H. by apply (sees_merged_2 x k p). Qed.

Lemma without_consumer_length x (l : list Z) : NoDup l → x ∈ l → S (length (without_consumer x l)) = length l.
Proof using.
  intros Hnd (l1 & l2 & ->)%list_elem_of_split. apply NoDup_app in Hnd as (_ & Hdis & [Hni _]%NoDup_cons).
  assert (∀ l, x ∉ l → without_consumer x l = l) as Hid.
  { clear. intros l. induction l as [|y l IH]; [done|]. intros [Hy Hl]%not_elem_of_cons. unfold without_consumer in *.
    rewrite filter_cons_True by (by apply not_eq_sym). f_equal. by apply IH. }
  unfold without_consumer in *. rewrite filter_app, filter_cons_False by (intros E; by apply E).
  rewrite !Hid, !length_app; [cbn; lia|done|]. intros Hx. apply (Hdis x Hx). left.
Qed.

Lemma elem_of_without_consumer x y (l : list Z) : y ∈ without_consumer x l ↔ y ≠ x ∧ y ∈ l.
Proof using. unfold without_consumer. by rewrite list_elem_of_filter. Qed.

(** The consumers of any cache other than [c] are as many as before. *)
Lemma merged_length x Y Y' : G !! x = Some Y → G' !! x = Some Y' → x ≠ c →
  length (n_consumers Y') = length (n_consumers Y) ∧ n_areas Y' = n_areas Y ∧ n_ref Y' = n_ref Y ∧ n_flag Y' = n_flag Y.
Proof.
  intros HY HY' Hx. destruct (decide (x = d)) as [->|Hxd].
  - rewrite merged_d in HY'. rewrite HD in HY. by simplify_eq.
  - rewrite merged_other, HY in HY' by done. cbn in HY'. injection HY' as <-. cbn. split_and!; try done.
    case_decide as E; [|done]. rewrite length_app, Nat.add_1_r. apply without_consumer_length; [by apply (g_nodup _ _ _ _ Hok x)|].
    destruct (g_source _ _ _ _ Hok c N x HN E) as (Y2 & HY2 & ?). congruence.
Qed.

Lemma merged_graph_ok : X = Some c → n_areas N = [] → n_ref N = 1 → graph_ok n X waiting G'.
Proof.
  intros HX Ha Href. destruct (g_rank _ _ _ _ Hok) as (rank & Hrank). pose proof merge_source_d as Hsd.
  assert (∀ x Y', G' !! x = Some Y' → x ≠ c → x ≠ d → ∃ Y, G !! x = Some Y ∧ n_source Y' = n_source Y ∧
    ∀ e, e ∈ n_consumers Y' ↔ if decide (n_source N = Some x) then e ≠ c ∧ e ∈ n_consumers Y ∨ e = d else e ∈ n_consumers Y) as Hoth.
  { intros x Y' HY' Hx Hxd. rewrite merged_other in HY' by done. destruct (G !! x) as [Y|]; [|done]. cbn in HY'. injection HY' as <-.
    exists Y. split_and!; [done..|]. intros e. cbn. case_decide; [|done]. by rewrite elem_of_app, elem_of_without_consumer, list_elem_of_singleton. }
  split.
  - intros x Y' y HY' Hs. destruct (decide (x = c)) as [->|Hx]; [rewrite merged_c in HY'; by simplify_eq|].
    destruct (decide (x = d)) as [->|Hxd].
    + rewrite merged_d in HY'. injection HY' as <-. cbn in Hs. destruct (source_ne y Hs) as [Hyc Hyd].
      destruct (g_source _ _ _ _ Hok c N y HN Hs) as (Y & HY & _). eexists. rewrite merged_other, HY by done. split; [reflexivity|].
      cbn. rewrite decide_True by done. apply elem_of_app. right. left.
    + destruct (Hoth x Y' HY' Hx Hxd) as (Y & HY & Es & _). rewrite Es in Hs. destruct (g_source _ _ _ _ Hok x Y y HY Hs) as (Z0 & HZ & Hin).
      assert (y ≠ c) as Hyc by (intros ->; apply Hxd; by eapply only_consumer). destruct (decide (y = d)) as [->|Hyd].
      * eexists. rewrite merged_d. split; [reflexivity|]. cbn. congruence.
      * eexists. rewrite merged_other, HZ by done. split; [reflexivity|]. cbn. case_decide; [|done].
        apply elem_of_app. left. by apply elem_of_without_consumer.
  - intros y Y' e HY' He. destruct (decide (y = c)) as [->|Hy]; [rewrite merged_c in HY'; injection HY' as <-; by apply elem_of_nil in He|].
    assert (∀ Y, G !! y = Some Y → e ∈ n_consumers Y → e ≠ c → ∃ E, G' !! e = Some E ∧ n_source E = Some y) as Hkeep.
    { intros Y HY Hin Hec. destruct (g_consumer _ _ _ _ Hok y Y e HY Hin) as (E & HE & Ee).
      assert (e ≠ d) as Hed by (intros ->; congruence).
      destruct (merged_tree e E Hec Hed HE) as (E' & ? & _ & Es). exists E'. split; [done|congruence]. }
    destruct (decide (y = d)) as [->|Hyd].
    + rewrite merged_d in HY'. injection HY' as <-. cbn in He. apply (Hkeep D HD He). intros ->.
      destruct (g_consumer _ _ _ _ Hok d D c HD He) as (N' & HN' & E). rewrite HN in HN'. injection HN' as <-. by destruct (source_ne d E).
    + destruct (Hoth y Y' HY' Hy Hyd) as (Y & HY & _ & Hc'). apply Hc' in He. case_decide as Es.
      * destruct He as [[Hec Hin]| ->]; [by apply (Hkeep Y)|]. eexists. rewrite merged_d. split; [reflexivity|done].
      * apply (Hkeep Y HY He). intros ->. destruct (g_consumer _ _ _ _ Hok y Y c HY He) as (N' & HN' & E). congruence.
  - intros x Y' HY'. destruct (decide (x = c)) as [->|Hx]; [rewrite merged_c in HY'; injection HY' as <-; constructor|].
    destruct (decide (x = d)) as [->|Hxd]; [rewrite merged_d in HY'; injection HY' as <-; exact (g_nodup _ _ _ _ Hok d D HD)|].
    rewrite merged_other in HY' by done. destruct (G !! x) as [Y|] eqn:HY; [|done]. cbn in HY'. injection HY' as <-. cbn.
    pose proof (g_nodup _ _ _ _ Hok x Y HY) as Hnd. case_decide as Es; [|done]. apply NoDup_app. split_and!.
    + by apply NoDup_filter.
    + intros e [_ He]%elem_of_without_consumer ->%list_elem_of_singleton.
      destruct (g_consumer _ _ _ _ Hok x Y d HY He) as (D' & HD' & E). rewrite HD in HD'. injection HD' as <-. congruence.
    + apply NoDup_singleton.
  - exists rank. intros x Y' y HY' Hs. destruct (decide (x = c)) as [->|Hx]; [rewrite merged_c in HY'; by simplify_eq|].
    destruct (decide (x = d)) as [->|Hxd].
    + rewrite merged_d in HY'. injection HY' as <-. cbn in Hs. pose proof (Hrank c N y HN Hs). pose proof (Hrank d D c HD Hsd). lia.
    + destruct (Hoth x Y' HY' Hx Hxd) as (Y & HY & Es & _). rewrite Es in Hs. by apply (Hrank x Y y).
  - intros x Y' HY'. destruct (decide (x = c)) as [->|Hx]; [rewrite merged_c in HY'; injection HY' as <-; cbn; rewrite Ha; cbn; lia|].
    assert (∃ Y, G !! x = Some Y) as [Y HY] by (destruct (decide (x = d)) as [->|]; [eauto|destruct (Hoth x Y' HY') as (Y & ? & _); eauto]).
    destruct (merged_length x Y Y' HY HY' Hx) as (-> & -> & -> & _). by apply (g_refs _ _ _ _ Hok x).
  - intros x Y' HY' Hne. assert (x ≠ c) as Hx by congruence.
    assert (∃ Y, G !! x = Some Y) as [Y HY] by (destruct (decide (x = d)) as [->|]; [eauto|destruct (Hoth x Y' HY') as (Y & ? & _); eauto]).
    destruct (merged_length x Y Y' HY HY' Hx) as (El & Ea & Er & Ef). unfold n_mergeable. rewrite El, Ea, Er, Ef.
    by apply (g_settled _ _ _ _ Hok x).
Qed.
Section pages.
Context (A : gset Z) (P : gmap Z page).
Hypothesis Ht : tied A P G.
Hypothesis Hon : once G.
Hypothesis Hidle : n_areas N = [].
Hypothesis Href : n_ref N = 1.
Hypothesis Hflag : n_flag N = true.

Lemma merge_not_busy k p pg : n_tree N !! k = Some p → P !! p = Some pg → busy pg = false.
Proof.
  intros Hk Hp. destruct (busy pg) eqn:Hb; [|done]. pose proof (t_busy _ _ _ Ht c N k p pg HN Hk Hp Hb) as H.
  rewrite Hd, Href, Hidle in H. cbn in H. lia.
Qed.

Lemma merge_unmapped k p pg : n_tree N !! k = Some p → is_Some (n_tree D !! k) → P !! p = Some pg → wired_count pg = 0 ∧ mappings pg = [].
Proof.
  intros Hk [q Hq] Hp. destruct (decide (wired_count pg ≠ 0 ∨ mappings pg ≠ [])) as [Hm|Hm].
  - exfalso. destruct (t_mapped _ _ _ Ht c N k p pg HN Hk Hp Hm) as (y & Y & HY & Ha & Hs).
    destruct (seen_through G c N k p y Hon HN Hk Hs) as (e & E & HE & Hse & HEk); [intros F; rewrite F, HN in HY; congruence|].
    pose proof (only_consumer e E HE Hse) as F. rewrite F, HD in HE. injection HE as HE. rewrite HE in Hq. congruence.
  - split; [destruct (decide (wired_count pg = 0)); tauto|destruct (decide (mappings pg = [])); tauto].
Qed.

Context (P' : gmap Z page).
Hypothesis HU' : ∀ k p, U' !! k = Some p → n_tree N !! k = Some p ∧ is_Some (n_tree D !! k).
Hypothesis Hsame : same_pages P P' G'.

Lemma merged_tied : tied A P' G'.
Proof.
  assert (∀ x Y' k p pg', G' !! x = Some Y' → n_tree Y' !! k = Some p → P' !! p = Some pg' →
    ∃ z Z0 pg, (z = x ∨ z = c ∧ x = d ∨ z = c ∧ x = c ∧ is_Some (n_tree D !! k)) ∧ G !! z = Some Z0 ∧ n_tree Z0 !! k = Some p ∧ P !! p = Some pg ∧
      busy pg' = busy pg ∧ wired_count pg' = wired_count pg ∧ mappings pg' = mappings pg) as Hwas.
  { intros x Y' k p pg' HY' Hk Hp. destruct (Hsame x Y' k p pg' HY' Hk Hp) as (pg & Hpg & (E1 & E2 & E3)%attr_use).
    destruct (decide (x = c)) as [->|Hx]; [rewrite merged_c in HY'; injection HY' as <-; destruct (HU' k p Hk); exists c, N, pg; auto 10|].
    destruct (decide (x = d)) as [->|Hxd].
    - rewrite merged_d in HY'. injection HY' as <-. cbn in Hk. rewrite union_lookup in Hk.
      destruct (n_tree D !! k) eqn:Et; [injection Hk as ->; exists d, D, pg; auto 10|exists c, N, pg; auto 10].
    - rewrite merged_other in HY' by done. destruct (G !! x) as [Y|] eqn:HY; [|done]. cbn in HY'. injection HY' as <-. exists x, Y, pg. auto 10. }
  assert (∀ x Y', G' !! x = Some Y' → ∃ Y, G !! x = Some Y) as Hdom.
  { intros x Y' HY'. destruct (decide (x = c)) as [->|]; [eauto|]. destruct (decide (x = d)) as [->|]; [eauto|].
    rewrite merged_other in HY' by done. destruct (G !! x); [eauto|done]. }
  split.
  - intros x Y' y Z' HY' Hs HZ' Hf Hx. destruct (decide (x = c)) as [->|Hxc]; [rewrite merged_c in HY'; by simplify_eq|].
    destruct (Hdom y Z' HZ') as [Z0 HZ]. destruct (decide (x = d)) as [->|Hxd].
    + rewrite merged_d in HY'. injection HY' as <-. cbn in Hs.
      destruct (merged_length y Z0 Z' HZ HZ') as (_ & _ & _ & Ef); [by apply source_ne|]. apply (t_class _ _ _ Ht c N y Z0 HN Hs HZ); [congruence|].
      exact (t_class _ _ _ Ht d D c N HD merge_source_d HN Hflag Hx).
    + rewrite merged_other in HY' by done. destruct (G !! x) as [Y|] eqn:HY; [|done]. cbn in HY'. injection HY' as <-. cbn in Hs.
      destruct (merged_length y Z0 Z' HZ HZ') as (_ & _ & _ & Ef); [intros ->; apply Hxd; by eapply only_consumer|].
      apply (t_class _ _ _ Ht x Y y Z0 HY Hs HZ); [congruence|done].
  - intros x Y' k p pg' HY' Hk Hp Hb. destruct (Hwas x Y' k p pg' HY' Hk Hp) as (z & Z0 & pg & Hz & HZ & HZk & Hpg & Eb & _).
    destruct (decide (z = c)) as [->|Hzc]; [rewrite HN in HZ; injection HZ as <-; rewrite (merge_not_busy k p pg HZk Hpg) in Eb; congruence|].
    assert (z = x) as -> by (destruct Hz as [?|[[? _]|[? _]]]; done). destruct (merged_length x Z0 Y' HZ HY' Hzc) as (-> & -> & -> & _).
    apply (t_busy _ _ _ Ht x Z0 k p pg HZ HZk Hpg). congruence.
  - intros x Y' k p pg' HY' Hk Hp Hm. destruct (Hwas x Y' k p pg' HY' Hk Hp) as (z & Z0 & pg & Hz & HZ & HZk & Hpg & _ & Ew & Em).
    rewrite Ew, Em in Hm. destruct (t_mapped _ _ _ Ht z Z0 k p pg HZ HZk Hpg Hm) as (y & Y & HY & Ha & Hs).
    assert (y ≠ c) as Hyc by (intros ->; rewrite HN in HY; congruence).
    assert (∃ Y', G' !! y = Some Y') as [Y1 HY1].
    { destruct (decide (y = d)) as [->|]; [rewrite merged_d; eauto|]. destruct (merged_tree y Y) as (? & ? & _); eauto. }
    exists y, Y1. split_and!; [done| |by apply sees_merged]. destruct (merged_length y Y Y1 HY HY1 Hyc) as (_ & -> & _). done.
Qed.
End pages.
End merge.
End graph.

(** ** Removing a cache nobody needs *)

Section removal.
Context (n : nat) (waiting : Z → bool) (G : graph) (c : Z) (N : node).
Hypothesis Hok : graph_ok n (Some c) waiting G.
Hypothesis HN : G !! c = Some N.
Hypothesis Hcons : n_consumers N = [].
#[local] Set Default Proof Using "Type*".

(** [c] is gone, and with it its reference to its source. *)
Definition removed_graph : graph :=
  match n_source N with
  | Some src => alter (fun Y => mkNode (n_tree Y) (without_consumer c (n_consumers Y)) (n_areas Y) (n_source Y) (n_ref Y - 1) (n_flag Y)) src (delete c G)
  | None => delete c G
  end.

Lemma removed_other x : x ≠ c →
  removed_graph !! x = (fun Y => if decide (n_source N = Some x)
    then mkNode (n_tree Y) (without_consumer c (n_consumers Y)) (n_areas Y) (n_source Y) (n_ref Y - 1) (n_flag Y) else Y) <$> G !! x.
Proof using.
  intros Hx. unfold removed_graph. destruct (n_source N) as [src|] eqn:E.
  - destruct (decide (src = x)) as [->|Hne].
    + rewrite lookup_alter_eq, lookup_delete_ne by done. destruct (G !! x); cbn; [|done]. by rewrite decide_True.
    + rewrite lookup_alter_ne, lookup_delete_ne by done. destruct (G !! x); cbn; [|done]. by rewrite decide_False by congruence.
  - rewrite lookup_delete_ne by done. destruct (G !! x); cbn; [|done]. by rewrite decide_False.
Qed.

Lemma removed_c : removed_graph !! c = None.
Proof.
  unfold removed_graph. destruct (n_source N) as [src|] eqn:E; [|apply lookup_delete_eq].
  rewrite lookup_alter_ne, lookup_delete_eq; [done|]. intros ->. destruct (g_rank _ _ _ _ Hok) as (rank & Hr). pose proof (Hr c N c HN E). lia.
Qed.

Lemma removed_inv x Y' : removed_graph !! x = Some Y' → x ≠ c ∧ ∃ Y, G !! x = Some Y ∧ n_tree Y' = n_tree Y ∧ n_areas Y' = n_areas Y ∧
  n_source Y' = n_source Y ∧ n_flag Y' = n_flag Y ∧
  (n_consumers Y' = n_consumers Y ∧ n_ref Y' = n_ref Y ∧ n_source N ≠ Some x ∨
   n_consumers Y' = without_consumer c (n_consumers Y) ∧ n_ref Y' = n_ref Y - 1 ∧ n_source N = Some x).
Proof.
  intros HY'. assert (x ≠ c) as Hx by (intros ->; rewrite removed_c in HY'; done). split; [done|].
  rewrite removed_other in HY' by done. destruct (G !! x) as [Y|]; [|done]. cbn in HY'. injection HY' as <-. exists Y.
  case_decide; cbn; split_and!; auto.
Qed.

Lemma source_not_c x Y : G !! x = Some Y → n_source Y ≠ Some c.
Proof.
  intros HY E. destruct (g_source _ _ _ _ Hok x Y c HY E) as (N' & HN' & Hin). rewrite HN in HN'. injection HN' as <-.
  rewrite Hcons in Hin. by apply elem_of_nil in Hin.
Qed.

Lemma removed_tree x Y : x ≠ c → G !! x = Some Y → ∃ Y', removed_graph !! x = Some Y' ∧ n_tree Y' = n_tree Y ∧ n_source Y' = n_source Y ∧
  n_areas Y' = n_areas Y.
Proof. intros Hx HY. rewrite removed_other, HY by done. cbn. eexists. split; [done|]. by case_decide. Qed.

Lemma sees_removed x k p : x ≠ c → sees removed_graph x k p ↔ sees G x k p.
Proof.
  intros Hx. split; intros H; revert Hx; induction H as [x Y k p HY Hk|x Y y k p HY Hk Hs _ IH]; intros Hx.
  - destruct (removed_inv x Y HY) as (_ & Y0 & HY0 & Et & _). eapply sees_here; [done|congruence].
  - destruct (removed_inv x Y HY) as (_ & Y0 & HY0 & Et & _ & Es & _). apply (sees_up _ x Y0 y); [done|congruence|congruence|].
    apply IH. intros ->. apply (source_not_c x Y0 HY0). congruence.
  - destruct (removed_tree x Y Hx HY) as (Y' & HY' & Et & _). eapply sees_here; [done|congruence].
  - destruct (removed_tree x Y Hx HY) as (Y' & HY' & Et & Es & _). apply (sees_up _ x Y' y); [done|congruence|congruence|].
    apply IH. intros ->. by apply (source_not_c x Y HY).
Qed.

Lemma removed_kept : n_areas N = [] → kept G removed_graph.
Proof.
  intros Ha. split.
  - intros x [Y' HY']. destruct (removed_inv x Y' HY') as (Hx & Y & HY & _). split; [eauto|]. intros k p. by apply sees_removed.
  - intros x Y HY Hne. assert (x ≠ c) as Hx by (intros ->; rewrite HN in HY; congruence).
    destruct (removed_tree x Y Hx HY) as (Y' & ? & _ & _ & ?). eauto.
Qed.

Lemma removed_graph_ok : graph_ok n (n_source N) waiting removed_graph.
Proof.
  destruct (g_rank _ _ _ _ Hok) as (rank & Hrank). split.
  - intros x Y' y HY' Hs. destruct (removed_inv x Y' HY') as (Hx & Y & HY & _ & _ & Es & _). rewrite Es in Hs.
    destruct (g_source _ _ _ _ Hok x Y y HY Hs) as (Z0 & HZ & Hin). assert (y ≠ c) as Hy by (intros ->; by apply (source_not_c x Y HY)).
    eexists. rewrite removed_other, HZ by done. split; [reflexivity|]. cbn. case_decide; [|done]. by apply elem_of_without_consumer.
  - intros y Y' e HY' He. destruct (removed_inv y Y' HY') as (Hy & Y & HY & _ & _ & _ & _ & Hcase).
    assert (e ∈ n_consumers Y ∧ e ≠ c) as [Hin Hec].
    { destruct Hcase as [(E & _ & Hn)|(E & _ & _)]; rewrite E in He; [|by apply elem_of_without_consumer in He as [? ?]].
      split; [done|]. intros ->. apply Hn. destruct (g_consumer _ _ _ _ Hok y Y c HY He) as (N' & HN' & ?). congruence. }
    destruct (g_consumer _ _ _ _ Hok y Y e HY Hin) as (E & HE & Es). destruct (removed_tree e E Hec HE) as (E' & ? & _ & Es' & _).
    exists E'. split; [done|congruence].
  - intros y Y' HY'. destruct (removed_inv y Y' HY') as (_ & Y & HY & _ & _ & _ & _ & Hcase). pose proof (g_nodup _ _ _ _ Hok y Y HY).
    destruct Hcase as [(-> & _)|(-> & _)]; [done|by apply NoDup_filter].
  - exists rank. intros x Y' y HY' Hs. destruct (removed_inv x Y' HY') as (_ & Y & HY & _ & _ & Es & _). apply (Hrank x Y y HY). congruence.
  - intros x Y' HY'. destruct (removed_inv x Y' HY') as (_ & Y & HY & _ & Ea & _ & _ & Hcase). rewrite Ea.
    pose proof (g_refs _ _ _ _ Hok x Y HY). destruct Hcase as [(-> & -> & _)|(-> & -> & Es)]; [done|].
    destruct (g_source _ _ _ _ Hok c N x HN Es) as (Y2 & HY2 & Hin). rewrite HY in HY2. injection HY2 as <-.
    pose proof (without_consumer_length c (n_consumers Y) (g_nodup _ _ _ _ Hok x Y HY) Hin). lia.
  - intros x Y' HY' Hne. destruct (removed_inv x Y' HY') as (Hx & Y & HY & _ & Ea & _ & Ef & Hcase).
    destruct Hcase as [(Ec & Er & _)|(_ & _ & Es)]; [|congruence]. unfold n_mergeable. rewrite Ec, Er, Ea, Ef.
    apply (g_settled _ _ _ _ Hok x Y HY). congruence.
Qed.
(** Nothing maps the pages of a cache without consumers and areas. *)
Lemma removed_unmapped A P k p pg : tied A P G → once G → n_areas N = [] →
  n_tree N !! k = Some p → P !! p = Some pg → wired_count pg = 0 ∧ mappings pg = [].
Proof.
  intros Ht Hon Ha Hk Hp. destruct (decide (wired_count pg ≠ 0 ∨ mappings pg ≠ [])) as [Hm|Hm].
  - exfalso. destruct (t_mapped _ _ _ Ht c N k p pg HN Hk Hp Hm) as (y & Y & HY & Hay & Hs).
    destruct (seen_through G c N k p y Hon HN Hk Hs) as (e & E & HE & Hse & _); [intros F; rewrite F, HN in HY; congruence|].
    by apply (source_not_c e E HE).
  - split; [destruct (decide (wired_count pg = 0)); tauto|destruct (decide (mappings pg = [])); tauto].
Qed.

Lemma removed_tied A P P' : tied A P G → n_areas N = [] → same_pages P P' removed_graph → tied A P' removed_graph.
Proof.
  intros Ht Ha Hsame. split.
  - intros x Y' y Z' HY' Hs HZ' Hf Hx. destruct (removed_inv x Y' HY') as (_ & Y & HY & _ & _ & Es & _).
    destruct (removed_inv y Z' HZ') as (_ & Z0 & HZ & _ & _ & _ & Ef & _). apply (t_class _ _ _ Ht x Y y Z0 HY); congruence.
  - intros x Y' k p pg' HY' Hk Hp Hb. destruct (Hsame x Y' k p pg' HY' Hk Hp) as (pg & Hpg & (E1 & _)%attr_use).
    destruct (removed_inv x Y' HY') as (_ & Y & HY & Et & Ea & _ & _ & Hcase).
    assert (Z.of_nat (length (n_consumers Y)) + Z.of_nat (length (n_areas Y)) < n_ref Y) as Hlt by (apply (t_busy _ _ _ Ht x Y k p pg HY); congruence).
    rewrite Ea. destruct Hcase as [(-> & -> & _)|(-> & -> & Es)]; [done|].
    destruct (g_source _ _ _ _ Hok c N x HN Es) as (Y2 & HY2 & Hin). rewrite HY in HY2. injection HY2 as <-.
    pose proof (without_consumer_length c (n_consumers Y) (g_nodup _ _ _ _ Hok x Y HY) Hin). lia.
  - intros x Y' k p pg' HY' Hk Hp Hm. destruct (Hsame x Y' k p pg' HY' Hk Hp) as (pg & Hpg & (_ & E2 & E3)%attr_use).
    destruct (removed_inv x Y' HY') as (_ & Y & HY & Et & _). rewrite E2, E3 in Hm. rewrite Et in Hk.
    destruct (t_mapped _ _ _ Ht x Y k p pg HY Hk Hpg Hm) as (y & Z0 & HZ & Haz & Hs).
    assert (y ≠ c) as Hy by (intros ->; rewrite HN in HZ; congruence). destruct (removed_tree y Z0 Hy HZ) as (Z' & HZ' & _ & _ & Ea').
    exists y, Z'. split_and!; [done|congruence|by apply sees_removed].
Qed.
End removal.

(** There are at most [m] caches above [c]. *)
Fixpoint depth_le (G : gmap Z node) (m : nat) (c : Z) : Prop :=
  match m with
  | O => ∀ N, G !! c = Some N → n_source N = None
  | S m => ∀ N src, G !! c = Some N → n_source N = Some src → depth_le G m src
  end.

Lemma depth_removed (n : nat) (waiting : Z → bool) (G : gmap Z node) (c : Z) (N : node) m x :
  graph_ok n (Some c) waiting G → G !! c = Some N → n_consumers N = [] → depth_le G m x → depth_le (removed_graph G c N) m x.
Proof.
  intros Hok HN Hc. revert x. induction m as [|m IH]; intros x; cbn.
  - intros H Y' HY'. destruct (removed_inv n waiting G c N Hok HN Hc x Y' HY') as (_ & Y & HY & _ & _ & -> & _). by apply H.
  - intros H Y' src HY' Hs. destruct (removed_inv n waiting G c N Hok HN Hc x Y' HY') as (_ & Y & HY & _ & _ & Es & _).
    apply IH. apply (H Y src HY). congruence.
Qed.

Lemma graph_ok_depth (n : nat) (X : option Z) (waiting : Z → bool) (G : gmap Z node) (c : Z) : graph_ok n X waiting G → depth_le G n c.
Proof.
  intros Hok. destruct (g_rank _ _ _ _ Hok) as (rank & Hr).
  assert (∀ (m : nat) x, (rank x ≤ m)%nat → depth_le G m x) as Hm.
  { intros m. induction m as [|m IH]; intros x Hx; cbn.
    - intros Y HY. destruct (n_source Y) as [y|] eqn:E; [|done]. pose proof (Hr x Y y HY E). lia.
    - intros Y y HY E. apply IH. pose proof (Hr x Y y HY E). lia. }
  destruct (decide (rank c ≤ n)%nat) as [?|Hgt]; [by apply Hm|].
  destruct n; cbn; intros Y; [intros HY|intros y HY]; [destruct (n_source Y) as [y|] eqn:E; [|done]|intros E]; pose proof (Hr c Y y HY E); lia.
Qed.

Lemma graph_ok_waiting (n : nat) (X : option Z) (w w' : Z → bool) (G : gmap Z node) :
  (∀ c, is_Some (G !! c) → w' c = w c) → graph_ok n X w G → graph_ok n X w' G.
Proof.
  intros Hw [? ? ? ? ? Hs]. split; try done. intros c N HN Hc. unfold n_mergeable. rewrite Hw by eauto. by apply Hs.
Qed.

Lemma graph_ok_settled (n : nat) (X : option Z) (w : Z → bool) (G : gmap Z node) (c : Z) (N : node) :
  graph_ok n (Some c) w G → G !! c = Some N → n_ref N ≠ 0 → ¬ (n_ref N = 1 ∧ n_mergeable w c N = true) → graph_ok n X w G.
Proof.
  intros [? ? ? ? ? Hs] HN H0 H1. split; try done. intros d D HD _. destruct (decide (d = c)) as [->|Hd]; [rewrite HN in HD; injection HD as <-; done|].
  apply Hs; congruence.
Qed.

(** ** The caches as a graph *)

Section chains.
Context {DL : DLList Z} {RB : RadixBitmap}.
Variable SECONDS : Z → Z.
Variable env : reserve_env.
Implicit Types (s : lstate) (c d : Z) (C : VMCache).

Definition mergeable_kind C : bool := temporary C && bool_decide (ctype C ≠ CACHE_TYPE_VNODE) && mergeable C.
Definition gnode C : node := mkNode (cpages C) (consumers C) (areas C) (source C) (ref_count C) (mergeable_kind C).
Definition gv s : gmap Z node := gnode <$> caches (vm (ast s)).
Definition waiting s c : bool := negb (bool_decide (default [] (page_event_waiters s !! c) = [])).

Record chain_ok (n : nat) (X : option Z) s : Prop := {
  ch_vm : vm_ok (vm (ast s));
  ch_quiet : quiet (ast s);
  ch_graph : graph_ok n X (waiting s) (gv s);
  ch_tied : tied (dom (anons (ast s))) (pages (vm (ast s))) (gv s)
}.

Lemma lookup_gv s c N : gv s !! c = Some N ↔ ∃ C, caches (vm (ast s)) !! c = Some C ∧ gnode C = N.
Proof. unfold gv. rewrite lookup_fmap_Some. split; intros (C & ? & ?); eauto. Qed.

Lemma cache_of_Some c C s : caches (vm (ast s)) !! c = Some C → cache_of c s = Ret C.
Proof. intros HC. unfold cache_of. by rewrite HC. Qed.

Lemma _IsMergeable_gv c C s : caches (vm (ast s)) !! c = Some C → _IsMergeable c s = Ret (n_mergeable (waiting s) c (gnode C)).
Proof.
  intros HC. unfold _IsMergeable, cache_of, n_mergeable, waiting. rewrite HC. cbn [deref mbind outcome_bind gnode n_areas n_consumers n_flag].
  f_equal. unfold mergeable_kind. rewrite negb_involutive. generalize (bool_decide (areas C = [])), (bool_decide (ctype C ≠ CACHE_TYPE_VNODE)), (bool_decide (default [] (page_event_waiters s !! c) = [])).
  intros [] [] []; destruct (temporary C), (mergeable C), (length (consumers C) =? 1)%nat; done.
Qed.

(** [f] changes only the links of a cache. *)
Definition link_update (f : VMCache → VMCache) : Prop := ∀ C,
  self_ref (f C) = self_ref C ∧ page_count (f C) = page_count C ∧ wired_pages_count (f C) = wired_pages_count C ∧ cpages (f C) = cpages C ∧
  committed_size (f C) = committed_size C ∧ virtual_base (f C) = virtual_base C ∧ virtual_end (f C) = virtual_end C.

Lemma upd_lookup c f s x C' : caches (vm (ast (upd c f s))) !! x = Some C' ↔
  ∃ C, caches (vm (ast s)) !! x = Some C ∧ C' = if decide (x = c) then f C else C.
Proof.
  change (caches (vm (ast (upd c f s)))) with (alter f c (caches (vm (ast s)))). destruct (decide (x = c)) as [->|Hx].
  - rewrite lookup_alter_eq. destruct (caches _ !! c) as [C|]; cbn; [|by split; [|intros (? & ? & _)]].
    split; [intros [= <-]; eauto|by intros (? & [= <-] & ->)].
  - rewrite lookup_alter_ne by (by apply not_eq_sym). split; [eauto|by intros (? & ? & ->)].
Qed.

Lemma upd_vm_ok c f s : link_update f → vm_ok (vm (ast s)) → vm_ok (vm (ast (upd c f s))).
Proof.
  intros Hf ([Hall Hw] & Hpo & Hsz). split_and!; [split|exact Hpo|exact Hsz]; [|exact Hw].
  intros x X (X0 & HX0 & ->)%upd_lookup. pose proof (Hall x X0 HX0) as H. case_decide; [|exact H].
  destruct (Hf X0) as (E1 & E2 & E3 & E4 & _). unfold cache_ok. rewrite E1, E2, E3, E4. exact H.
Qed.

Lemma upd_quiet c f s : link_update f → quiet (ast s) → quiet (ast (upd c f s)).
Proof.
  intros Hf (Q1 & Q2 & Q3 & Q4). split_and!; [done..|]. intros x an Hx. destruct (Q4 x an Hx) as (? & ? & H). split_and!; [done..|].
  intros X (X0 & HX0 & ->)%upd_lookup. pose proof (H X0 HX0). case_decide; [|done]. destruct (Hf X0) as (_ & _ & _ & _ & -> & -> & ->). done.
Qed.

Lemma gv_upd c f g s : (∀ C, gnode (f C) = g (gnode C)) → gv (upd c f s) = alter g c (gv s).
Proof.
  intros Hfg. apply map_eq. intros x. apply option_eq. intros N. rewrite lookup_gv. setoid_rewrite upd_lookup. destruct (decide (x = c)) as [->|Hx].
  - rewrite lookup_alter_eq. split.
    + intros (C' & (C & HC & ->) & <-). unfold gv. rewrite lookup_fmap, HC. cbn. by rewrite Hfg.
    + unfold gv. rewrite lookup_fmap. destruct (caches _ !! c) as [C|] eqn:HC; [|done]. cbn. intros [= <-]. eauto.
  - rewrite lookup_alter_ne, lookup_gv by (by apply not_eq_sym). split; [intros (C' & (C & HC & ->) & <-); eauto|intros (C & HC & <-); eauto].
Qed.

Lemma gv_once s : caches_ok (vm (ast s)) → once (gv s).
Proof.
  intros Hok c N k d D l p (C & HC & <-)%lookup_gv Hk (D0 & HD & <-)%lookup_gv Hl.
  eapply (tree_inj _ c d (cpages C) (cpages D0)); [exact Hok|apply lookup_trees; eauto|apply lookup_trees; eauto|done..].
Qed.

(** A settled cache is only unlocked. *)
Lemma Unlock_settled fuel c b C s es :
  caches (vm (ast s)) !! c = Some C → ref_count C ≠ 0 → ¬ (ref_count C = 1 ∧ n_mergeable (waiting s) c (gnode C) = true) →
  Unlock SECONDS env (S fuel) c b (s, es) = Ret (s, es).
Proof.
  intros HC H0 H1. cbn [Unlock]. rewrite (cache_of_Some c C s HC). cbn [mbind outcome_bind].
  rewrite (_IsMergeable_gv c C s HC). cbn [mbind outcome_bind].
  destruct (Z.eqb_spec (ref_count C) 1), (n_mergeable (waiting s) c (gnode C)); cbn [andb]; try (by destruct H1);
    by destruct (Z.eqb_spec (ref_count C) 0).
Qed.
(** ** Merging a cache into its only consumer *)

Lemma merge_into_ok d c s T U :
  quiet (ast s) → vm_ok (vm (ast s)) → d ≠ c → (d ∈ dom (anons (ast s)) → c ∈ dom (anons (ast s))) →
  trees (vm (ast s)) !! d = Some T → trees (vm (ast s)) !! c = Some U →
  (∀ o p, U !! o = Some p → not_busy (vm (ast s)) p) → (∀ o p, U !! o = Some p → is_Some (T !! o) → idle (vm (ast s)) p) →
  ∃ a' U' (F : gset Z), merge_into SECONDS env d c s = Ret (s <| ast := a' |>) ∧ quiet a' ∧ vm_ok (vm a') ∧ dom (anons a') = dom (anons (ast s)) ∧
    glinks <$> caches (vm a') = glinks <$> caches (vm (ast s)) ∧
    trees (vm a') = <[d := T ∪ U]> (<[c := U']> (trees (vm (ast s)))) ∧
    (∀ k p, U' !! k = Some p → U !! k = Some p ∧ is_Some (T !! k)) ∧
    (∀ p pg', pages (vm a') !! p = Some pg' →
      if decide (p ∈ F) then is_free pg' else ∃ pg, pages (vm (ast s)) !! p = Some pg ∧ attr pg' = attr pg).
Proof.
  intros Hq Hok Hne Hcl HT HU Hb Hi. unfold merge_into. destruct (anons (ast s) !! d) as [ad|] eqn:Ed.
  - assert (is_Some (anons (ast s) !! c)) as Hc by (apply elem_of_dom, Hcl, elem_of_dom; eauto).
    destruct (merge_quiet SECONDS env d c (ast s) T U) as (a' & U' & F & H1 & Hrest); [done|done|done|by eexists|done..|].
    exists a', U', F. split; [|done]. rewrite bool_decide_eq_true_2 by done. cbn [assert mbind outcome_bind]. by rewrite H1.
  - destruct (merge_smaller_source d c (vm (ast s)) T U) as (v' & _ & H1 & He & Ht); [done..|]. destruct He as (Hok' & Hl & _ & Hpg).
    exists ((ast s) <| vm := v' |>), (shadowed T U), ∅. rewrite H1. split_and!; try done.
    + by apply quiet_links.
    + by apply (glinks_fmap links); [apply links_glinks|].
    + by intros o p [? ?]%map_lookup_filter_Some.
Qed.

Definition with_tree (T : gmap Z Z) (N : node) : node := mkNode T (n_consumers N) (n_areas N) (n_source N) (n_ref N) (n_flag N).

Lemma gnode_glinks C C' : glinks C' = glinks C → gnode C' = with_tree (cpages C') (gnode C).
Proof. unfold glinks, gnode, with_tree, mergeable_kind. cbn. by intros [= -> -> -> _ _ -> -> -> ->]. Qed.

Lemma gv_retree s a' d c (T U : gmap Z Z) D N :
  glinks <$> caches (vm a') = glinks <$> caches (vm (ast s)) → trees (vm a') = <[d := T]> (<[c := U]> (trees (vm (ast s)))) →
  d ≠ c → gv s !! d = Some D → gv s !! c = Some N →
  gv (s <| ast := a' |>) = <[d := with_tree T D]> (<[c := with_tree U N]> (gv s)).
Proof.
  intros Hg Ht Hne (D0 & HD0 & <-)%lookup_gv (N0 & HN0 & <-)%lookup_gv. apply map_eq. intros x.
  pose proof (f_equal (lookup x) Hg) as E. pose proof (f_equal (lookup x) Ht) as F. unfold gv. rewrite !lookup_fmap in E.
  unfold trees at 1 in F. rewrite lookup_fmap in F. rewrite lookup_fmap. change (caches (vm (ast (s <| ast := a' |>)))) with (caches (vm a')).
  destruct (decide (x = d)) as [->|Hd]; [|destruct (decide (x = c)) as [->|Hc]].
  - rewrite lookup_insert_eq in F. rewrite lookup_insert_eq. rewrite HD0 in E. destruct (caches (vm a') !! d) as [X|]; [|done]. cbn [fmap option_fmap option_map] in *. apply (inj Some) in E. injection F as F.
    by rewrite (gnode_glinks _ _ E), F.
  - rewrite lookup_insert_ne, lookup_insert_eq in F by done. rewrite lookup_insert_ne, lookup_insert_eq by done. rewrite HN0 in E.
    destruct (caches (vm a') !! c) as [X|]; [|done]. cbn [fmap option_fmap option_map] in *. apply (inj Some) in E. injection F as F. by rewrite (gnode_glinks _ _ E), F.
  - rewrite !lookup_insert_ne in F by done. rewrite !lookup_insert_ne by done. unfold trees in F. rewrite lookup_fmap in F. rewrite lookup_fmap.
    destruct (caches (vm a') !! x) as [X|], (caches (vm (ast s)) !! x) as [Y|]; try done. cbn [fmap option_fmap option_map] in *. apply (inj Some) in E. injection F as F.
    by rewrite (gnode_glinks _ _ E), F.
Qed.

Lemma link_update_links (f : VMCache → VMCache) :
  (∀ C, (self_ref (f C), page_count (f C), wired_pages_count (f C), cpages (f C)) = (self_ref C, page_count C, wired_pages_count C, cpages C) ∧
    (committed_size (f C), virtual_base (f C), virtual_end (f C)) = (committed_size C, virtual_base C, virtual_end C)) → link_update f.
Proof. intros H C. destruct (H C) as [[= -> -> -> ->] [= -> -> ->]]. done. Qed.

(** The links after the merge. *)
Definition relink_caches c d (src : option Z) s : lstate :=
  match src with
  | Some src =>
      let s := upd src (fun N => N <| consumers ::= fun l => filter (.≠ c) l ++ [d] |>) s in
      let s := upd d (fun D => D <| source := Some src |>) s in
      upd c (fun C => C <| source := None |>) s
  | None => upd d (fun D => D <| source := None |>) s
  end.

Lemma relink_frame c d src s :
  vm_ok (vm (ast s)) → quiet (ast s) →
  let s' := ReleaseRefLocked c (relink_caches c d src s) in
  vm_ok (vm (ast s')) ∧ quiet (ast s') ∧ pages (vm (ast s')) = pages (vm (ast s)) ∧ anons (ast s') = anons (ast s) ∧
  page_event_waiters s' = page_event_waiters s.
Proof.
  intros Hv Hq. cbv zeta. unfold ReleaseRefLocked.
  assert (vm_ok (vm (ast (relink_caches c d src s))) ∧ quiet (ast (relink_caches c d src s))) as [Hv1 Hq1].
  { destruct src; unfold relink_caches; cbv zeta; split; repeat first [apply upd_vm_ok; [done|]|apply upd_quiet; [done|]]; done. }
  split_and!; [by apply upd_vm_ok|by apply upd_quiet|by destruct src..].
Qed.

Lemma gv_relink c d C D (U' : gmap Z Z) s s2 :
  gv s !! c = Some (gnode C) → gv s !! d = Some D → d ≠ c → (∀ src, source C = Some src → src ≠ c ∧ src ≠ d) → ref_count C = 1 → consumers C = [d] →
  gv s2 = <[d := with_tree (n_tree D ∪ cpages C) D]> (<[c := with_tree U' (mkNode (cpages C) [] (areas C) (source C) (ref_count C) (mergeable_kind C))]> (gv s)) →
  gv (ReleaseRefLocked c (relink_caches c d (source C) s2)) = merged_graph c (gnode C) d D U' (gv s).
Proof.
  intros Hc Hd Hne Hsrc Href Hcons E2. unfold ReleaseRefLocked.
  rewrite (gv_upd _ _ (fun N => mkNode (n_tree N) (n_consumers N) (n_areas N) (n_source N) (i32 (n_ref N - 1)) (n_flag N))) by done.
  unfold merged_graph, relink_caches. cbn [gnode n_source]. destruct (source C) as [src|] eqn:Es.
  - destruct (Hsrc src eq_refl) as [Hsc Hsd]. cbv zeta.
    rewrite (gv_upd _ _ (fun N => mkNode (n_tree N) (n_consumers N) (n_areas N) None (n_ref N) (n_flag N))) by done.
    rewrite (gv_upd _ _ (fun N => mkNode (n_tree N) (n_consumers N) (n_areas N) (Some src) (n_ref N) (n_flag N))) by done.
    rewrite (gv_upd _ _ (fun N => mkNode (n_tree N) (without_consumer c (n_consumers N) ++ [d]) (n_areas N) (n_source N) (n_ref N) (n_flag N))) by done.
    rewrite E2. apply map_eq. intros x. unfold relink. destruct (decide (x = c)) as [->|Hxc]; [|destruct (decide (x = d)) as [->|Hxd]].
    + rewrite !lookup_alter_eq, !lookup_alter_ne, lookup_insert_ne, !lookup_insert_eq by done. cbn. by rewrite Href.
    + rewrite !lookup_alter_ne, lookup_alter_eq, lookup_alter_ne, lookup_insert_eq by done. rewrite lookup_insert_ne, lookup_insert_eq by done. done.
    + rewrite !lookup_alter_ne by done. rewrite !(lookup_insert_ne _ _ x) by done. destruct (decide (x = src)) as [->|Hxs].
      * by rewrite !lookup_alter_eq, !lookup_insert_ne by done.
      * by rewrite !lookup_alter_ne, !lookup_insert_ne by done.
  - rewrite (gv_upd _ _ (fun N => mkNode (n_tree N) (n_consumers N) (n_areas N) None (n_ref N) (n_flag N))) by done.
    rewrite E2. apply map_eq. intros x. unfold relink. destruct (decide (x = c)) as [->|Hxc]; [|destruct (decide (x = d)) as [->|Hxd]].
    + rewrite !lookup_alter_eq, !lookup_alter_ne, lookup_insert_ne, !lookup_insert_eq by done. cbn. by rewrite Href.
    + rewrite !lookup_alter_ne, lookup_alter_eq, lookup_insert_eq by done. rewrite lookup_insert_ne, lookup_insert_eq by done. done.
    + by rewrite !lookup_alter_ne, !lookup_insert_ne by done.
Qed.

Lemma n_mergeable_inv w c N : n_mergeable w c N = true → n_areas N = [] ∧ (∃ d, n_consumers N = [d]) ∧ n_flag N = true.
Proof.
  unfold n_mergeable. intros [[[H1 H2]%andb_prop H3]%andb_prop _]%andb_prop. apply bool_decide_eq_true in H1. apply Nat.eqb_eq in H2.
  split_and!; [done| |done]. destruct (n_consumers N) as [|d [|]]; try done. eauto.
Qed.

Lemma gv_not_free s c N k p pg :
  vm_ok (vm (ast s)) → gv s !! c = Some N → n_tree N !! k = Some p → pages (vm (ast s)) !! p = Some pg → ¬ is_free pg.
Proof. intros Hok (C & HC & <-)%lookup_gv Hk Hp. eapply (tree_not_free _ c (cpages C)); [done|apply lookup_trees; eauto|done..]. Qed.

Lemma gv_pop_consumer c d C s :
  caches (vm (ast s)) !! c = Some C → consumers C = [d] →
  gv (upd c (fun C => C <| consumers ::= tail |>) s) = <[c := mkNode (cpages C) [] (areas C) (source C) (ref_count C) (mergeable_kind C)]> (gv s).
Proof.
  intros HC Hd. rewrite (gv_upd _ _ (fun N => mkNode (n_tree N) (tail (n_consumers N)) (n_areas N) (n_source N) (n_ref N) (n_flag N))) by done.
  assert (gv s !! c = Some (gnode C)) as HN by (apply lookup_gv; eauto). apply map_eq. intros x. destruct (decide (x = c)) as [->|Hx].
  - rewrite lookup_alter_eq, HN, lookup_insert_eq. cbn. by rewrite Hd.
  - by rewrite lookup_alter_ne, lookup_insert_ne by (by apply not_eq_sym).
Qed.

Lemma merge_step n c C s :
  chain_ok n (Some c) s → caches (vm (ast s)) !! c = Some C → ref_count C = 1 → n_mergeable (waiting s) c (gnode C) = true →
  ∃ d D U' s', consumers C = [d] ∧ gv s !! d = Some D ∧
    (∀ fuel es, _MergeWithOnlyConsumer SECONDS env (Unlock SECONDS env (S fuel)) c (s, es) = Ret (s', es)) ∧
    chain_ok n (Some c) s' ∧ gv s' = merged_graph c (gnode C) d D U' (gv s).
Proof.
  intros [Hok Hq Hg Ht] HC Href Hm. destruct (n_mergeable_inv _ _ _ Hm) as (Ha & (d & Hd) & Hfl). cbn in Ha, Hd.
  assert (gv s !! c = Some (gnode C)) as HN by (apply lookup_gv; eauto). assert (once (gv s)) as Hon by (apply gv_once, Hok).
  destruct (g_consumer _ _ _ _ Hg c (gnode C) d HN) as (D & HD & Hs); [cbn; rewrite Hd; left|].
  pose proof (merge_ne _ _ _ _ _ _ _ _ Hg HN HD Hd) as Hne. pose proof (source_ne _ _ _ _ _ _ _ _ Hg HN HD Hd) as Hsrc. cbn in Hsrc.
  pose proof HD as (D0 & HD0 & ED)%lookup_gv. set (s1 := upd c (fun C => C <| consumers ::= tail |>) s).
  assert (∀ x X, x ≠ c → caches (vm (ast s)) !! x = Some X → caches (vm (ast s1)) !! x = Some X) as Hs1.
  { intros x X Hx HX. apply upd_lookup. exists X. by rewrite decide_False. }
  assert (gv s1 !! d = Some D) as HD1 by (apply lookup_gv; exists D0; auto).
  set (N1 := mkNode (cpages C) [] (areas C) (source C) (ref_count C) (mergeable_kind C)).
  assert (gv s1 = <[c := N1]> (gv s)) as E1' by (by apply (gv_pop_consumer c d)).
  destruct (merge_into_ok d c s1 (cpages D0) (cpages C)) as (a' & U' & F & H1 & Hq' & Hok' & Hdom & Hgl & Htr & HU' & Hpg).
  { by apply upd_quiet. }
  { by apply upd_vm_ok. }
  { done. }
  { exact (t_class _ _ _ Ht d D c (gnode C) HD Hs HN Hfl). }
  { apply lookup_trees. exists D0. auto. }
  { apply lookup_trees. eexists. split; [apply upd_lookup; exists C; split; [done|reflexivity]|]. by rewrite decide_True. }
  { intros o p Ho. destruct (tree_page _ c (cpages C) o p (proj1 Hok)) as (_ & pg & _ & Hp & _); [apply lookup_trees; eauto|done|].
    exists pg. split; [exact Hp|]. exact (merge_not_busy _ _ _ _ _ _ _ _ Hg HN HD Hd _ _ Ht Hon Ha Href Hfl o p pg Ho Hp). }
  { intros o p Ho HT. destruct (tree_page _ c (cpages C) o p (proj1 Hok)) as (_ & pg & _ & Hp & _); [apply lookup_trees; eauto|done|].
    exists pg. rewrite <- ED in *. split; [exact Hp|]. split; [exact (merge_not_busy _ _ _ _ _ _ _ _ Hg HN HD Hd _ _ Ht Hon Ha Href Hfl o p pg Ho Hp)|].
    exact (merge_unmapped _ _ _ _ _ _ _ _ Hg HN HD Hd _ _ Ht Hon Ha Href Hfl o p pg Ho HT Hp). }
  set (s2 := s1 <| ast := a' |>) in *. set (s' := ReleaseRefLocked c (relink_caches c d (source C) s2)).
  assert (gv s2 = <[d := with_tree (n_tree D ∪ cpages C) D]> (<[c := with_tree U' N1]> (gv s))) as E2.
  { unfold s2. rewrite (gv_retree s1 a' d c (cpages D0 ∪ cpages C) U' D N1 Hgl Htr Hne HD1), E1'.
    - rewrite <- ED. by rewrite insert_insert_eq.
    - rewrite E1'. apply lookup_insert_eq. }
  pose proof (gv_relink c d C D U' s s2 HN HD Hne Hsrc Href Hd E2) as E'. fold s' in E'.
  destruct (relink_frame c d (source C) s2 Hok' Hq') as (Hok3 & Hq3 & Hp3 & Han3 & Hw3). fold s' in Hok3, Hq3, Hp3, Han3, Hw3.
  pose proof (merged_graph_ok _ _ _ _ _ _ _ _ U' Hg HN HD Hd eq_refl Ha Href) as Hg'.
  exists d, D, U', s'. split_and!; [done..| | |done].
  - intros fuel es. unfold _MergeWithOnlyConsumer. rewrite (cache_of_Some c C s HC). cbn [mbind outcome_bind]. rewrite Hd.
    cbn [head deref mbind outcome_bind]. cbv zeta. fold s1. rewrite H1. cbn [mbind outcome_bind]. fold s2.
    unfold s'. unfold relink_caches. destruct (source C) as [src|] eqn:Es; [|done].
    set (s3 := upd c _ _). replace (Unlock SECONDS env (S fuel) src false (s3, es)) with (Ret (s3, es)); [done|].
    destruct (Hsrc src eq_refl) as [Hsc _]. destruct (g_source _ _ _ _ Hg c (gnode C) src HN Es) as (Y & HY & _).
    destruct (merged_tree _ _ _ _ _ _ _ _ U' Hg HN HD Hd src Y) as (Y' & HY' & _); [done|by apply (Hsrc src)|done|].
    destruct (g_settled _ _ _ _ Hg' src Y' HY') as [S1 S2]; [congruence|].
    rewrite <- E' in HY'. change s' with (ReleaseRefLocked c s3) in HY'. apply lookup_gv in HY' as (X & HX & <-).
    apply upd_lookup in HX as (X0 & HX0 & EX). rewrite decide_False in EX by done. rewrite EX in *. symmetry. by apply (Unlock_settled fuel src false X0).
  - split; [done|done| |].
    + rewrite E'. eapply graph_ok_waiting; [|exact Hg']. intros x _. unfold waiting. rewrite Hw3. done.
    + rewrite E'. rewrite Han3, Hp3. change (anons (ast s2)) with (anons a'). rewrite Hdom.
      refine (merged_tied _ _ _ _ _ _ _ _ U' Hg HN HD Hd _ _ Ht Hon Ha Href Hfl _ _ _).
      * intros k p Hk. destruct (HU' k p Hk) as [? ?]. rewrite <- ED. done.
      * intros x Y k p pg' HY Hk Hp. specialize (Hpg p pg' Hp). rewrite <- E' in HY. case_decide as HF; [|done]. exfalso.
        apply (gv_not_free s' x Y k p pg' Hok3 HY Hk); [by rewrite Hp3|done].
Qed.

(** ** Deleting a cache *)

Lemma upd_missing c f s : caches (vm (ast s)) !! c = None → gv (upd c f s) = gv s.
Proof.
  intros Hc. unfold gv. change (caches (vm (ast (upd c f s)))) with (alter f c (caches (vm (ast s)))). by rewrite alter_id'.
Qed.

Lemma gv_delete c s v' : caches v' = delete c (caches (vm (ast s))) → gv (s <| ast ::= fun a => a <| vm := v' |> |>) = delete c (gv s).
Proof. intros E. unfold gv. cbn. by rewrite E, fmap_delete. Qed.

(** The source loses a consumer and a reference. *)
Lemma remove_consumer_ok src c S s :
  caches (vm (ast s)) !! src = Some S → caches (vm (ast s)) !! c = None → 0 < ref_count S < 2 ^ 31 → vm_ok (vm (ast s)) → quiet (ast s) →
  ∃ s2, (∀ unlock es, _RemoveConsumer unlock src c (s, es) = unlock src false (s2, es)) ∧
    gv s2 = alter (fun Y => mkNode (n_tree Y) (without_consumer c (n_consumers Y)) (n_areas Y) (n_source Y) (n_ref Y - 1) (n_flag Y)) src (gv s) ∧
    vm_ok (vm (ast s2)) ∧ quiet (ast s2) ∧ pages (vm (ast s2)) = pages (vm (ast s)) ∧ anons (ast s2) = anons (ast s) ∧
    page_event_waiters s2 = page_event_waiters s.
Proof.
  intros HS Hc Hr Hok Hq.
  assert (∃ s1, ReleaseStoreRef src s = Ret s1 ∧ ast s1 = ast s ∧ page_event_waiters s1 = page_event_waiters s) as (s1 & H1 & Ea & Ew).
  { unfold ReleaseStoreRef, add_store_ref. rewrite (cache_of_Some src S s HS). cbn [mbind outcome_bind]. case_decide; eauto. }
  set (s2 := upd src (fun C => C <| consumers ::= filter (.≠ c) |>) s1). set (s3 := upd c (fun D => D <| source := None |>) s2).
  assert (caches (vm (ast s2)) !! c = None) as Hc2.
  { destruct (caches (vm (ast s2)) !! c) as [X|] eqn:E; [|done]. apply upd_lookup in E as (X0 & HX0 & _). rewrite Ea in HX0. congruence. }
  exists (ReleaseRefLocked src s3). split_and!.
  - intros unlock es. unfold _RemoveConsumer. by rewrite H1.
  - unfold ReleaseRefLocked.
    rewrite (gv_upd _ _ (fun N => mkNode (n_tree N) (n_consumers N) (n_areas N) (n_source N) (i32 (n_ref N - 1)) (n_flag N))) by done.
    unfold s3. rewrite upd_missing by done. unfold s2.
    rewrite (gv_upd _ _ (fun N => mkNode (n_tree N) (without_consumer c (n_consumers N)) (n_areas N) (n_source N) (n_ref N) (n_flag N))) by done.
    assert (gv s1 = gv s) as -> by (unfold gv; by rewrite Ea). assert (gv s !! src = Some (gnode S)) as Hg by (apply lookup_gv; eauto).
    apply map_eq. intros x. destruct (decide (x = src)) as [->|Hx]; [|by rewrite !lookup_alter_ne by (by apply not_eq_sym)].
    rewrite !lookup_alter_eq, Hg. cbn [fmap option_fmap option_map gnode n_tree n_consumers n_areas n_source n_ref n_flag].
    rewrite i32_small by lia. done.
  - repeat (apply upd_vm_ok; [done|]). by rewrite Ea.
  - repeat (apply upd_quiet; [done|]). by rewrite Ea.
  - change (pages (vm (ast s1)) = pages (vm (ast s))). by rewrite Ea.
  - change (anons (ast s1) = anons (ast s)). by rewrite Ea.
  - exact Ew.
Qed.

Lemma delete_step n c C s :
  chain_ok n (Some c) s → caches (vm (ast s)) !! c = Some C → ref_count C = 0 →
  ∃ s2, chain_ok n (source C) s2 ∧ gv s2 = removed_graph (gv s) c (gnode C) ∧ consumers C = [] ∧ areas C = [] ∧
    ∀ unlock es, Delete unlock c (s, es) =
      '(s, es) ← match source C with Some src => unlock src false (s2, es) | None => Ret (s2, es) end; s ← DeleteObject c C s; Ret (s, es).
Proof.
  intros [Hok Hq Hg Ht] HC Href. assert (gv s !! c = Some (gnode C)) as HN by (apply lookup_gv; eauto).
  assert (once (gv s)) as Hon by (apply gv_once, Hok). pose proof (g_refs _ _ _ _ Hg c _ HN) as Hr. cbn in Hr.
  assert (consumers C = [] ∧ areas C = []) as [Hcons Ha] by (destruct (consumers C), (areas C); cbn in Hr; split; try done; lia).
  destruct (delete_cache_ok c C (vm (ast s)) Hok HC) as (v & Hv & Hok1 & Hc1 & Hpg).
  { intros o p Ho. destruct (tree_page _ c (cpages C) o p (proj1 Hok)) as (_ & pg & _ & Hp & _); [apply lookup_trees; eauto|done|].
    exists pg. split; [done|]. exact (removed_unmapped _ _ _ _ _ Hg HN Hcons _ _ o p pg Ht Hon Ha Ho Hp). }
  set (v2 := v <| caches ::= _ |> <| cacherefs ::= _ |>) in *. set (s1 := s <| ast ::= fun a => a <| vm := v2 |> |>).
  assert (gv s1 = delete c (gv s)) as E1 by (by apply gv_delete).
  assert (quiet (ast s1)) as Hq1.
  { destruct Hq as (Q1 & Q2 & Q3 & Q4). split_and!; [done..|]. intros x an Hx. destruct (Q4 x an Hx) as (? & ? & Hb). split_and!; [done..|].
    intros X. change (caches (vm (ast s1))) with (caches v2). rewrite Hc1. intros [_ HX]%lookup_delete_Some. by apply Hb. }
  assert (∃ s2, gv s2 = removed_graph (gv s) c (gnode C) ∧ vm_ok (vm (ast s2)) ∧ quiet (ast s2) ∧ pages (vm (ast s2)) = pages v2 ∧
    anons (ast s2) = anons (ast s) ∧ page_event_waiters s2 = page_event_waiters s ∧
    ∀ unlock es, Delete unlock c (s, es) =
      '(s, es) ← match source C with Some src => unlock src false (s2, es) | None => Ret (s2, es) end; s ← DeleteObject c C s; Ret (s, es))
    as (s2 & E2 & Hok2 & Hq2 & Hp2 & Han2 & Hw2 & HD).
  { assert (∀ unlock es, Delete unlock c (s, es) =
      '(s, es) ← match source C with Some source => _RemoveConsumer unlock source c (s1, es) | None => Ret (s1, es) end;
      s ← DeleteObject c C s; Ret (s, es)) as HD1.
    { intros unlock es. unfold Delete. rewrite (cache_of_Some c C s HC). cbn [mbind outcome_bind].
      rewrite !bool_decide_eq_true_2 by done. cbn [assert mbind outcome_bind]. by rewrite Hv. }
    unfold removed_graph. cbn [gnode n_source]. destruct (source C) as [src|] eqn:Es; [|exists s1; by split_and!].
    destruct (g_source _ _ _ _ Hg c _ src HN Es) as (Y & (S & HS & <-)%lookup_gv & Hin).
    assert (src ≠ c) as Hsc by (intros ->; rewrite HC in HS; injection HS as <-; cbn in Hin; rewrite Hcons in Hin; by apply elem_of_nil in Hin).
    destruct (remove_consumer_ok src c S s1) as (s2 & R1 & R2 & R3 & R4 & R5 & R6 & R7).
    { change (caches (vm (ast s1))) with (caches v2). rewrite Hc1. by rewrite lookup_delete_ne. }
    { change (caches (vm (ast s1))) with (caches v2). rewrite Hc1. by rewrite lookup_delete_eq. }
    { assert (gv s !! src = Some (gnode S)) as HY by (apply lookup_gv; eauto). pose proof (g_refs _ _ _ _ Hg src _ HY) as Hrs. cbn in Hrs, Hin.
      destruct (consumers S); [by apply elem_of_nil in Hin|cbn in Hrs; lia]. }
    { done. }
    { done. }
    exists s2. split_and!; try done; [by rewrite R2, E1|]. intros unlock es. by rewrite HD1, R1. }
  exists s2. split_and!; [|done..]. pose proof (removed_graph_ok _ _ _ _ _ Hg HN Hcons) as Hg'. split; [done|done| |].
  - rewrite E2. eapply graph_ok_waiting; [|exact Hg']. intros x _. unfold waiting. by rewrite Hw2.
  - rewrite E2, Han2, Hp2. apply (removed_tied _ _ _ _ _ Hg HN Hcons _ _ _ Ht Ha).
    intros x Y k p pg' HY Hk Hp. destruct (Hpg p pg' Hp) as [[o Ho]|Hp0]; [|eauto]. exfalso.
    destruct (removed_inv _ _ _ _ _ Hg HN Hcons x Y HY) as (Hx & Y0 & HY0 & Et & _). rewrite Et in Hk.
    destruct (Hon x Y0 k c (gnode C) o p HY0 Hk HN Ho) as [? _]. done.
Qed.

Lemma DeleteObject_ok n c C s :
  chain_ok n None s → caches (vm (ast s)) !! c = None →
  ∃ s', DeleteObject c C s = Ret s' ∧ chain_ok n None s' ∧ gv s' = gv s.
Proof.
  intros [Hok Hq Hg Ht] Hc. pose proof Hq as (Q1 & Q2 & Q3 & Q4).
  assert (∃ a', DeleteObject c C s = Ret (s <| ast := a' <| anons ::= delete c |> |> <| no_swap ::= fun n => n ∖ {[c]} |> <| page_event_waiters ::= delete c |>) ∧
    vm a' = vm (ast s) ∧ anons a' = anons (ast s) ∧ sSwapHashTable a' = ∅ ∧ files_ok (swapfiles a') ∧ 0 <= sAvailSwapSpace (swapfiles a')) as
    (a' & HD & Ev & Ea & Et & Ef & Es).
  { unfold DeleteObject. destruct (anons (ast s) !! c) as [an|] eqn:Ean.
    - destruct (Q4 c an Ean) as (Eal & Hn & _).
      assert (_FreeSwapPageRange c (virtual_base C) (virtual_end C) false (ast s) = Ret (ast s)) as ->.
      { unfold _FreeSwapPageRange. destruct (Z.to_nat _); cbn [free_range_loop]; rewrite Ean; cbn [deref mbind outcome_bind];
          rewrite Eal, andb_false_r; done. }
      cbn [mbind outcome_bind]. eexists. split; [reflexivity|]. unfold swap_space_unreserve. destruct (committed_swap_size an <? committed_size C); split_and!; try done; cbn; lia.
    - case_decide; eexists; (split; [reflexivity|done]). }
  set (s' := s <| ast := _ |> <| no_swap ::= _ |> <| page_event_waiters ::= _ |>) in HD. exists s'. split; [done|].
  assert (vm (ast s') = vm (ast s)) as Ev' by exact Ev. assert (anons (ast s') = delete c (anons (ast s))) as Ea'
    by (change (anons (ast s')) with (delete c (anons a')); by rewrite Ea).
  assert (gv s' = gv s) as Eg by (unfold gv; by rewrite Ev'). split; [|done]. split.
  - by rewrite Ev'.
  - split_and!; [done..|]. rewrite Ea', Ev'. intros x an [_ Hx]%lookup_delete_Some. by apply Q4.
  - rewrite Eg. eapply graph_ok_waiting; [|exact Hg]. intros x [N (X & HX & _)%lookup_gv].
    unfold waiting. change (page_event_waiters s') with (delete c (page_event_waiters s)). rewrite lookup_delete_ne by congruence. done.
  - rewrite Eg, Ev', Ea', dom_delete_L. destruct Ht as [T1 T2 T3]. split; [|done..].
    intros x D y N HD0 Hs HN Hf [Hx _]%elem_of_difference. apply elem_of_difference. split; [exact (T1 x D y N HD0 Hs HN Hf Hx)|].
    intros ->%elem_of_singleton. apply lookup_gv in HN as (X & HX & _). congruence.
Qed.

(** ** Unlocking *)

(** A cache without references and source is deleted. *)
Lemma unlock_dead n c C s :
  chain_ok n (Some c) s → caches (vm (ast s)) !! c = Some C → ref_count C = 0 → source C = None →
  ∃ s', (∀ fuel b es, Unlock SECONDS env (S fuel) c b (s, es) = Ret (s', es)) ∧ chain_ok n None s' ∧
    gv s' = removed_graph (gv s) c (gnode C) ∧ areas C = [] ∧ consumers C = [].
Proof.
  intros Hch HC Hr Hs. destruct (delete_step n c C s Hch HC Hr) as (s2 & Hch2 & E2 & Hcons & Ha & HD). rewrite Hs in Hch2, HD.
  assert (caches (vm (ast s2)) !! c = None) as Hc2.
  { destruct (caches (vm (ast s2)) !! c) as [X|] eqn:E; [|done]. assert (gv s2 !! c = Some (gnode X)) as Hx by (apply lookup_gv; eauto).
    rewrite E2 in Hx. assert (gv s !! c = Some (gnode C)) as HN by (apply lookup_gv; eauto).
    by rewrite (removed_c _ _ _ _ _ (ch_graph _ _ _ Hch) HN Hcons) in Hx. }
  destruct (DeleteObject_ok n c C s2 Hch2 Hc2) as (s' & H1 & Hch' & E'). exists s'. split_and!; [|done|congruence|done|done].
  intros fuel b es. cbn [Unlock]. rewrite (cache_of_Some c C s HC). cbn [mbind outcome_bind]. rewrite (_IsMergeable_gv c C s HC). cbn [mbind outcome_bind].
  rewrite Hr. cbn [Z.eqb andb]. rewrite HD. cbn [mbind outcome_bind]. by rewrite H1.
Qed.

(** A cache only its only consumer refers to ends up in that consumer. *)
Lemma unlock_mergeable n c C s :
  chain_ok n (Some c) s → caches (vm (ast s)) !! c = Some C → ref_count C = 1 → n_mergeable (waiting s) c (gnode C) = true →
  ∃ d s1 s2, consumers C = [d] ∧ d ≠ c ∧
    (∀ fuel es, _MergeWithOnlyConsumer SECONDS env (Unlock SECONDS env (S fuel)) c (s, es) = Ret (s1, es)) ∧
    (∀ fuel es, Unlock SECONDS env (S fuel) d false (s1, es) = Ret (s1, es)) ∧
    (∀ fuel b es, Unlock SECONDS env (S fuel) c b (s1, es) = Ret (s2, es)) ∧ chain_ok n None s2 ∧ kept (gv s) (gv s2).
Proof.
  intros Hch HC Hr Hm. destruct (merge_step n c C s Hch HC Hr Hm) as (d & D & U' & s1 & Hd & HD & H1 & Hch1 & E1).
  pose proof (ch_graph _ _ _ Hch) as Hg. assert (gv s !! c = Some (gnode C)) as HN by (apply lookup_gv; eauto).
  pose proof (merge_ne _ _ _ _ _ _ _ _ Hg HN HD Hd) as Hne. destruct (n_mergeable_inv _ _ _ Hm) as (Ha & _ & _). cbn in Ha.
  assert (gv s1 !! c = Some (mkNode U' [] (areas C) None (ref_count C - 1) (mergeable_kind C))) as Hc1
    by (rewrite E1; exact (merged_c _ _ _ _ _ _ _ _ U' Hg HN HD Hd)).
  pose proof Hc1 as (C1 & HC1 & EC1)%lookup_gv. pose proof (ch_graph _ _ _ Hch1) as Hg1.
  assert (ref_count C1 = 0 ∧ source C1 = None) as [Hr1 Hs1].
  { pose proof (f_equal n_ref EC1) as F1. pose proof (f_equal n_source EC1) as F2. cbn in F1, F2. split; [lia|done]. }
  destruct (unlock_dead n c C1 s1 Hch1 HC1 Hr1 Hs1) as (s2 & H2 & Hch2 & E2 & _ & Hcons1).
  pose proof (merged_d _ _ _ _ _ _ _ _ U' Hg HN HD Hd) as Hd1. rewrite <- E1 in Hd1.
  exists d, s1, s2. split_and!; [done|done|done| |done|done|].
  - intros fuel es. pose proof Hd1 as (D1 & HD1 & ED1)%lookup_gv. destruct (g_settled _ _ _ _ Hg1 d _ Hd1) as [S1 S2]; [congruence|].
    rewrite <- ED1 in S1, S2. by apply (Unlock_settled fuel d false D1).
  - rewrite E2, EC1. rewrite EC1 in *. set (N1 := mkNode _ _ _ _ _ _) in *. assert (n_consumers N1 = []) as Hn1 by done.
    assert (gv s1 !! c = Some N1) as HN1 by done. split.
    + intros x [Y' HY']. destruct (removed_inv _ _ _ _ _ Hg1 HN1 Hn1 x Y' HY') as (Hx & Y & HY & _).
      split; [|intros k p; rewrite (sees_removed _ _ _ _ _ Hg1 HN1 Hn1) by done; rewrite E1; by apply (sees_merged _ _ _ _ _ _ _ _ U' Hg HN HD Hd)].
      destruct (decide (x = d)) as [->|Hxd]; [by eexists|]. rewrite E1, (merged_other _ _ _ _ _ _ _ _ U' Hg HN HD Hd) in HY by done.
      destruct (gv s !! x); [by eexists|done].
    + intros x Y HY Hay. assert (x ≠ c) as Hx by (intros ->; rewrite HN in HY; injection HY as <-; done).
      assert (∃ Y1, gv s1 !! x = Some Y1) as [Y1 HY1].
      { destruct (decide (x = d)) as [->|]; [eauto|]. rewrite E1. destruct (merged_tree _ _ _ _ _ _ _ _ U' Hg HN HD Hd x Y) as (? & ? & _); eauto. }
      assert (merged_graph c (gnode C) d D U' (gv s) !! x = Some Y1) as HY1' by (by rewrite <- E1).
      destruct (merged_length _ _ _ _ _ _ _ _ U' Hg HN HD Hd x Y Y1 HY HY1' Hx) as (_ & Ea & _).
      destruct (removed_tree _ _ _ _ _ Hg1 HN1 Hn1 x Y1 Hx HY1) as (Y2 & HY2 & _ & _ & Ea2). exists Y2. split; [done|congruence].
Qed.

(** What the others may do while the lock of consumer [d] of [c] is taken:
    they keep the invariant and what the caches show, and [c], which has an
    extra reference; whoever gets the lock of a cache finds it alive. *)
Definition harmless (n : nat) (e : contention) : Prop :=
  match e with
  | None => True
  | Some (others, locked) => ∀ c d s C, chain_ok n (Some c) s → caches (vm (ast s)) !! c = Some C → consumers C = [d] →
      let s' := ReleaseRefLocked c (others (AcquireRefLocked c s)) in
      chain_ok n (Some c) s' ∧ kept (gv s) (gv s') ∧ is_Some (caches (vm (ast s')) !! c) ∧ (locked = true → is_Some (caches (vm (ast s')) !! d))
  end.

Lemma next_try_harmless n es e es' : Forall (harmless n) es → next_try es = (e, es') →
  harmless n e ∧ Forall (harmless n) es' ∧ (length es' ≤ length es)%nat ∧ (e ≠ None → (length es' < length es)%nat).
Proof. intros H. destruct es as [|e0 es0]; cbn; intros [= <- <-]; [done|]. apply Forall_cons in H as [? ?]. split_and!; [done|done|lia|lia]. Qed.

(** A cache without references is deleted, and its source unlocked. *)
Lemma unlock_delete n fuel c b C s es (m : nat) :
  (∀ src s2 (m' : nat), m = S m' → chain_ok n (Some src) s2 → is_Some (caches (vm (ast s2)) !! src) → depth_le (gv s2) m' src →
    ∃ s' es', Unlock SECONDS env fuel src false (s2, es) = Ret (s', es') ∧ chain_ok n None s' ∧ kept (gv s2) (gv s')) →
  chain_ok n (Some c) s → caches (vm (ast s)) !! c = Some C → ref_count C = 0 → depth_le (gv s) m c →
  ∃ s' es', Unlock SECONDS env (S fuel) c b (s, es) = Ret (s', es') ∧ chain_ok n None s' ∧ kept (gv s) (gv s').
Proof.
  intros IH Hch HC Hr Hdep. assert (gv s !! c = Some (gnode C)) as HN by (apply lookup_gv; eauto). pose proof (ch_graph _ _ _ Hch) as Hg.
  destruct (delete_step n c C s Hch HC Hr) as (s2 & Hch2 & E2 & Hcons & Ha & HD).
  assert (kept (gv s) (gv s2)) as Hk2 by (rewrite E2; by apply (removed_kept _ _ _ _ _ Hg HN)).
  assert (∃ s3 es3, match source C with Some src => Unlock SECONDS env fuel src false (s2, es) | None => Ret (s2, es) end = Ret (s3, es3) ∧
    chain_ok n None s3 ∧ kept (gv s2) (gv s3)) as (s3 & es3 & H3 & Hch3 & Hk3).
  { destruct (source C) as [src|] eqn:Es; [|exists s2, es; split_and!; [done|done|apply kept_refl]].
    destruct m as [|m]; [specialize (Hdep _ HN); cbn in Hdep; congruence|].
    destruct (g_source _ _ _ _ Hg c _ src HN Es) as (Y & HY & _).
    assert (src ≠ c) as Hsc by (intros ->; by apply (source_not_c _ _ _ _ _ Hg HN Hcons c (gnode C))).
    apply (IH src s2 m); [done|done| |].
    - destruct (removed_tree _ _ _ _ _ Hg HN Hcons src Y Hsc HY) as (Y' & HY' & _). rewrite <- E2 in HY'. apply lookup_gv in HY' as (X & ? & _). by eexists.
    - rewrite E2. apply (depth_removed n _ _ _ _ m src Hg HN Hcons). exact (Hdep _ _ HN Es). }
  assert (caches (vm (ast s3)) !! c = None) as Hc3.
  { destruct (caches (vm (ast s3)) !! c) as [X|] eqn:E; [|done].
    destruct (kept_view _ _ Hk3 c) as [[Y HY] _]; [exists (gnode X); apply lookup_gv; eauto|]. rewrite E2 in HY.
    by rewrite (removed_c _ _ _ _ _ Hg HN Hcons) in HY. }
  destruct (DeleteObject_ok n c C s3 Hch3 Hc3) as (s' & H4 & Hch' & E'). exists s', es3. split_and!; [|done|].
  - cbn [Unlock]. rewrite (cache_of_Some c C s HC). cbn [mbind outcome_bind]. rewrite (_IsMergeable_gv c C s HC). cbn [mbind outcome_bind].
    rewrite Hr. cbn [Z.eqb andb]. rewrite HD, H3. cbn [mbind outcome_bind]. by rewrite H4.
  - rewrite E'. by eapply kept_trans.
Qed.

Lemma Unlock_ok n fuel : ∀ c b s es (m : nat),
  chain_ok n (Some c) s → is_Some (caches (vm (ast s)) !! c) → depth_le (gv s) m c → (m ≤ n)%nat → Forall (harmless n) es →
  ((n + 4) * length es + m + 3 ≤ fuel)%nat →
  ∃ s' es', Unlock SECONDS env fuel c b (s, es) = Ret (s', es') ∧ chain_ok n None s' ∧ kept (gv s) (gv s').
Proof.
  induction fuel as [|fuel IH]; intros c b s es m Hch [C HC] Hdep Hmn Hes Hf; [lia|]. destruct fuel as [|fuel]; [lia|].
  assert (gv s !! c = Some (gnode C)) as HN by (apply lookup_gv; eauto).
  destruct (decide (ref_count C = 1 ∧ n_mergeable (waiting s) c (gnode C) = true)) as [[Hr Hm]|Hns].
  - destruct (unlock_mergeable n c C s Hch HC Hr Hm) as (d & s1 & s2 & Hd & Hne & H1 & H2 & H3 & Hch2 & Hk).
    remember (S fuel) as fuel1. cbn [Unlock]. rewrite (cache_of_Some c C s HC). cbn [mbind outcome_bind]. rewrite (_IsMergeable_gv c C s HC).
    cbn [mbind outcome_bind]. rewrite Hr, Hm. cbn [Z.eqb Pos.eqb andb]. rewrite Hd. cbn [head deref mbind outcome_bind].
    destruct b.
    { rewrite Heqfuel1, H1. cbn [mbind outcome_bind]. rewrite H3. eauto. }
    destruct (next_try es) as [[[others locked]|] es1] eqn:En; destruct (next_try_harmless n es _ es1 Hes En) as (Hh & Hes1 & Hl & Hlt).
    + specialize (Hlt ltac:(done)). destruct (Hh c d s C Hch HC Hd) as (Hch3 & Hk3 & [C3 HC3] & Hd3). cbv zeta.
      set (s3 := ReleaseRefLocked c (others (AcquireRefLocked c s))) in *.
      assert (∃ s' es', Unlock SECONDS env fuel1 c false (s3, es1) = Ret (s', es') ∧ chain_ok n None s' ∧ kept (gv s) (gv s')) as Hloop.
      { destruct (IH c false s3 es1 n) as (s' & es' & I1 & I2 & I3); [done|by eexists|by eapply graph_ok_depth, Hch3|done|done|nia|].
        exists s', es'. split_and!; [done|done|by eapply kept_trans]. }
      destruct locked; [|exact Hloop]. destruct (Hd3 eq_refl) as [D3 HD3]. rewrite (cache_of_Some c C3 s3 HC3). cbn [mbind outcome_bind].
      rewrite (_IsMergeable_gv c C3 s3 HC3). cbn [mbind outcome_bind].
      destruct ((ref_count C3 =? 1) && n_mergeable (waiting s3) c (gnode C3) && bool_decide (head (consumers C3) = Some d)) eqn:Ec.
      * apply andb_prop in Ec as [[Ec1%Z.eqb_eq Ec2]%andb_prop Ec3%bool_decide_eq_true].
        destruct (unlock_mergeable n c C3 s3 Hch3 HC3 Ec1 Ec2) as (d' & s4 & s5 & Hd' & _ & J1 & J2 & J3 & Hch5 & Hk5).
        rewrite Hd' in Ec3. injection Ec3 as ->. rewrite Heqfuel1, J1. cbn [mbind outcome_bind]. rewrite J2. cbn [mbind outcome_bind]. rewrite J3.
        exists s5, es1. split_and!; [done|done|by eapply kept_trans].
      * cbn [mbind outcome_bind]. assert (gv s3 !! d = Some (gnode D3)) as HD3' by (apply lookup_gv; eauto).
        destruct (g_settled _ _ _ _ (ch_graph _ _ _ Hch3) d _ HD3') as [S1 S2]; [congruence|].
        assert (Unlock SECONDS env fuel1 d false (s3, es1) = Ret (s3, es1)) as -> by (rewrite Heqfuel1; by apply (Unlock_settled fuel d false D3)).
        exact Hloop.
    + rewrite Heqfuel1, H1. cbn [mbind outcome_bind]. rewrite H2. cbn [mbind outcome_bind]. rewrite H3. eauto.
  - destruct (decide (ref_count C = 0)) as [Hr|Hr].
    + apply (unlock_delete n (S fuel) c b C s es m); [|done..]. intros src s2 m' -> ? ? ?. apply (IH src false s2 es m'); [done..|lia|done|lia].
    + exists s, es. rewrite (Unlock_settled (S fuel) c b C) by done. split_and!; [done| |apply kept_refl].
      destruct Hch as [? ? Hg ?]. split; try done. by eapply (graph_ok_settled n None _ _ c (gnode C)).
Qed.

(** ** Dropping a reference *)

Lemma sees_same (G G' : gmap Z node) x k p :
  (∀ y N, G !! y = Some N → ∃ N', G' !! y = Some N' ∧ n_tree N' = n_tree N ∧ n_source N' = n_source N) → sees G x k p → sees G' x k p.
Proof.
  intros H. induction 1 as [x N k p HN Hk|x N y k p HN Hk Hs _ IH]; destruct (H x N HN) as (N' & HN' & Et & Es).
  - apply (sees_here _ x N'); [done|by rewrite Et].
  - apply (sees_up _ x N' y); [done|by rewrite Et|by rewrite Es|done].
Qed.

(** The same graph with another reference count at [c]. *)
Definition with_ref (r : Z) (N : node) : node := mkNode (n_tree N) (n_consumers N) (n_areas N) (n_source N) r (n_flag N).

Lemma with_ref_lookup (G : gmap Z node) c r x N' : alter (with_ref r) c G !! x = Some N' ↔
  ∃ N, G !! x = Some N ∧ N' = if decide (x = c) then with_ref r N else N.
Proof.
  destruct (decide (x = c)) as [->|Hx].
  - rewrite lookup_alter_eq. destruct (G !! c) as [N|]; cbn; [|by split; [|intros (? & ? & _)]].
    split; [intros [= <-]; eauto|by intros (? & [= <-] & ->)].
  - rewrite lookup_alter_ne by (by apply not_eq_sym). split; [eauto|by intros (? & ? & ->)].
Qed.

Lemma sees_with_ref (G : gmap Z node) c r x k p : sees (alter (with_ref r) c G) x k p ↔ sees G x k p.
Proof.
  split; apply sees_same; intros y N HN.
  - apply with_ref_lookup in HN as (N0 & HN0 & ->). exists N0. by case_decide.
  - exists (if decide (y = c) then with_ref r N else N). split; [apply with_ref_lookup; eauto|by case_decide].
Qed.

Lemma with_ref_kept (G : gmap Z node) c r : kept G (alter (with_ref r) c G).
Proof.
  split.
  - intros x [N' (N & HN & _)%with_ref_lookup]. split; [by eexists|]. intros k p. apply sees_with_ref.
  - intros x N HN _. exists (if decide (x = c) then with_ref r N else N). split; [apply with_ref_lookup; eauto|by case_decide].
Qed.

Lemma with_ref_ok n X w (G : gmap Z node) c N r :
  graph_ok n X w G → G !! c = Some N → Z.of_nat (length (n_consumers N)) + Z.of_nat (length (n_areas N)) <= r < 2 ^ 31 - 1 → X = None ∨ X = Some c →
  graph_ok n (Some c) w (alter (with_ref r) c G).
Proof.
  intros [G1 G2 G3 [rank G4] G5 G6] HN Hr HX.
  assert (∀ x Y', alter (with_ref r) c G !! x = Some Y' → ∃ Y, G !! x = Some Y ∧ n_consumers Y' = n_consumers Y ∧ n_source Y' = n_source Y ∧
    n_areas Y' = n_areas Y ∧ (x ≠ c → Y' = Y) ∧ (x = c → Y = N ∧ n_ref Y' = r)) as Hinv.
  { intros x Y' (Y & HY & ->)%with_ref_lookup. exists Y. destruct (decide (x = c)) as [->|]; split_and!; try done. intros _. split; [congruence|done]. }
  assert (∀ x Y, G !! x = Some Y → ∃ Y', alter (with_ref r) c G !! x = Some Y' ∧ n_consumers Y' = n_consumers Y ∧ n_source Y' = n_source Y) as Hfw.
  { intros x Y HY. exists (if decide (x = c) then with_ref r Y else Y). split; [apply with_ref_lookup; eauto|by case_decide]. }
  split.
  - intros d D' e HD' Hs. destruct (Hinv d D' HD') as (D & HD & _ & Es & _). rewrite Es in Hs. destruct (G1 d D e HD Hs) as (E & HE & Hin).
    destruct (Hfw e E HE) as (E' & ? & Ec & _). exists E'. split; [done|congruence].
  - intros e E' d HE' Hin. destruct (Hinv e E' HE') as (E & HE & Ec & _). rewrite Ec in Hin. destruct (G2 e E d HE Hin) as (D & HD & Hs).
    destruct (Hfw d D HD) as (D' & ? & _ & Es). exists D'. split; [done|congruence].
  - intros x Y' HY'. destruct (Hinv x Y' HY') as (Y & HY & -> & _). by apply (G3 x).
  - exists rank. intros d D' e HD' Hs. destruct (Hinv d D' HD') as (D & HD & _ & Es & _). apply (G4 d D e); congruence.
  - intros x Y' HY'. destruct (Hinv x Y' HY') as (Y & HY & Ec & _ & Ea & Ene & Eeq). rewrite Ec, Ea. destruct (decide (x = c)) as [->|Hx].
    + destruct (Eeq eq_refl) as [-> ->]. done.
    + rewrite (Ene Hx). by apply (G5 x).
  - intros x Y' HY' Hx. destruct (Hinv x Y' HY') as (Y & HY & _ & _ & _ & Ene & _). rewrite (Ene ltac:(congruence)). apply G6; [done|].
    destruct HX as [->| ->]; congruence.
Qed.

Lemma with_ref_tied A P (G : gmap Z node) c N r :
  tied A P G → G !! c = Some N →
  (∀ k p pg, n_tree N !! k = Some p → P !! p = Some pg → busy pg = true → Z.of_nat (length (n_consumers N)) + Z.of_nat (length (n_areas N)) < r) →
  tied A P (alter (with_ref r) c G).
Proof.
  intros [T1 T2 T3] HN Hr. split.
  - intros d D' e E' (D & HD & ->)%with_ref_lookup Hs (E & HE & ->)%with_ref_lookup Hf. apply (T1 d D e E HD).
    + by destruct (decide (d = c)).
    + done.
    + by destruct (decide (e = c)).
  - intros x Y' k p pg (Y & HY & ->)%with_ref_lookup. destruct (decide (x = c)) as [->|Hx]; cbn; [|by apply (T2 x Y k p pg)].
    rewrite HN in HY. injection HY as <-. apply Hr.
  - intros x Y' k p pg (Y & HY & ->)%with_ref_lookup Hk Hp Hm. destruct (T3 x Y k p pg) as (y & Z0 & HZ & Ha & Hs); [done|revert Hk; by destruct (decide (x = c))|done..|].
    exists y, (if decide (y = c) then with_ref r Z0 else Z0). split_and!; [apply with_ref_lookup; eauto|destruct (decide (y = c)); exact Ha|by apply sees_with_ref].
Qed.

(** Nothing but the reference count of [c] changes. *)
Lemma set_ref_chain n X c C s s' r :
  chain_ok n X s → X = None ∨ X = Some c → caches (vm (ast s)) !! c = Some C → s' = upd c (fun C => C <| ref_count := r |>) s →
  Z.of_nat (length (consumers C)) + Z.of_nat (length (areas C)) <= r < 2 ^ 31 - 1 →
  (∀ k p pg, cpages C !! k = Some p → pages (vm (ast s)) !! p = Some pg → busy pg = true →
    Z.of_nat (length (consumers C)) + Z.of_nat (length (areas C)) < r) →
  chain_ok n (Some c) s' ∧ kept (gv s) (gv s').
Proof.
  intros [Hok Hq Hg Ht] HX HC -> Hr Hb. assert (gv s !! c = Some (gnode C)) as HN by (apply lookup_gv; eauto).
  assert (gv (upd c (fun C => C <| ref_count := r |>) s) = alter (with_ref r) c (gv s)) as E by (by apply gv_upd).
  split; [|rewrite E; apply with_ref_kept]. split.
  - by apply upd_vm_ok.
  - by apply upd_quiet.
  - rewrite E. by apply (with_ref_ok n X _ _ c (gnode C) r Hg HN).
  - rewrite E. by apply (with_ref_tied _ _ _ c (gnode C)).
Qed.

Lemma upd_ext c f g C s : caches (vm (ast s)) !! c = Some C → f C = g C → upd c f s = upd c g s.
Proof.
  intros HC E. assert (alter f c (caches (vm (ast s))) = alter g c (caches (vm (ast s)))) as Em.
  { apply map_eq. intros x. destruct (decide (x = c)) as [->|Hx]; [|by rewrite !lookup_alter_ne by (by apply not_eq_sym)].
    rewrite !lookup_alter_eq, HC. cbn. by rewrite E. }
  assert (∀ h, upd c h s = s <| ast := (ast s) <| vm := (vm (ast s)) <| caches := alter h c (caches (vm (ast s))) |> |> |>) as Hu by done.
  by rewrite !Hu, Em.
Qed.

Lemma ReleaseRefLocked_eq c C s : caches (vm (ast s)) !! c = Some C → 0 < ref_count C < 2 ^ 31 →
  ReleaseRefLocked c s = upd c (fun C0 => C0 <| ref_count := ref_count C - 1 |>) s.
Proof. intros HC Hr. unfold ReleaseRefLocked. apply (upd_ext c _ _ C); [done|]. unfold update. cbn. by rewrite i32_small by lia. Qed.

(** Taking and dropping a reference changes nothing. *)
Lemma ref_round_trip c C s : caches (vm (ast s)) !! c = Some C → 0 <= ref_count C < 2 ^ 31 - 1 → ReleaseRefLocked c (AcquireRefLocked c s) = s.
Proof.
  intros HC Hr. unfold ReleaseRefLocked, AcquireRefLocked.
  assert (∀ f g, f (g C) = C → upd c f (upd c g s) = s) as Hid.
  { intros f g Hfg. assert (alter f c (alter g c (caches (vm (ast s)))) = caches (vm (ast s))) as Em.
    { apply map_eq. intros x. destruct (decide (x = c)) as [->|Hx]; [|by rewrite !lookup_alter_ne by (by apply not_eq_sym)].
      rewrite !lookup_alter_eq, HC. cbn. by rewrite Hfg. }
    change (s <| ast := (ast s) <| vm := (vm (ast s)) <| caches := alter f c (alter g c (caches (vm (ast s)))) |> |> |> = s).
    rewrite Em. by destruct s as [[[] ? ? ? ?] ? ? ?]. }
  apply Hid. unfold update. cbn. rewrite (i32_small (ref_count C + 1)), i32_small by lia. destruct C. cbn. f_equal. lia.
Qed.

Lemma harmless_wait n (locked : bool) : harmless n (Some (fun s => s, locked)).
Proof.
  intros c d s C Hch HC Hd. cbv zeta. assert (gv s !! c = Some (gnode C)) as HN by (apply lookup_gv; eauto).
  pose proof (ch_graph _ _ _ Hch) as Hg. pose proof (g_refs _ _ _ _ Hg c _ HN) as Hr. cbn in Hr.
  rewrite (ref_round_trip c C s HC) by lia. split_and!; [done|apply kept_refl|by eexists|]. intros _.
  destruct (g_consumer _ _ _ _ Hg c _ d HN) as (D & (D0 & ? & _)%lookup_gv & _); [cbn; rewrite Hd; left|by eexists].
Qed.

(** ** Properties *)

(** C17: VMCache::Unlock of any cache of a well-formed graph in which no
    page is swapped out (sSwapHashTable is empty: with slots, merging leaves
    wrong used counts, see the findings, and what later merges and deletions
    do with them is not covered) returns, whatever harmless things other
    threads do while it waits for the lock of a consumer: no more than the
    height of the graph plus four rounds per wait are needed, although
    Unlock, _MergeWithOnlyConsumer, Delete and _RemoveConsumer call each
    other. Afterwards no cache is left without references, or with its only
    consumer as its only user, and the page each remaining cache shows at an
    index is the one it showed before. *)
Theorem unlock_returns (n fuel : nat) (c : Z) (consumerLocked : bool) (s : lstate) (es : list contention)
    (Hok : chain_ok n (Some c) s) (Hc : is_Some (caches (vm (ast s)) !! c)) (Hes : Forall (harmless n) es)
    (Hfuel : ((n + 4) * S (length es) ≤ fuel)%nat) :
  ∃ s' es', Unlock SECONDS env fuel c consumerLocked (s, es) = Ret (s', es') ∧ chain_ok n None s' ∧ kept (gv s) (gv s').
Proof.
  apply (Unlock_ok n fuel c consumerLocked s es n); [done|done|by eapply graph_ok_depth, Hok|done|done|]. cbn in Hfuel. lia.
Qed.

(** C18: ReleaseRefAndUnlock of a reference that no area and no consumer
    owns, in a well-formed graph in which no page is swapped out
    (sSwapHashTable is empty, as for unlock_returns) and with another
    reference left if a page of the cache is busy: it returns, the graph of
    caches, the pages and the commitments are in order again, every cache
    that still exists shows the same pages as before (its own, or those of
    its sources), no cache with areas is deleted and it keeps its areas. So
    merging and deleting the caches below is invisible to the areas. *)
Theorem release_ref_keeps_view (n fuel : nat) (c : Z) (s : lstate) (es : list contention) (C : VMCache)
    (Hok : chain_ok n None s) (HC : caches (vm (ast s)) !! c = Some C)
    (Href : Z.of_nat (length (consumers C)) + Z.of_nat (length (areas C)) < ref_count C)
    (Hbusy : ∀ k p pg, cpages C !! k = Some p → pages (vm (ast s)) !! p = Some pg → busy pg = true →
      Z.of_nat (length (consumers C)) + Z.of_nat (length (areas C)) + 1 < ref_count C)
    (Hes : Forall (harmless n) es) (Hfuel : ((n + 4) * S (length es) ≤ fuel)%nat) :
  ∃ s' es', ReleaseRefAndUnlock SECONDS env fuel c (s, es) = Ret (s', es') ∧ chain_ok n None s' ∧
    (∀ x, is_Some (caches (vm (ast s')) !! x) → ∀ k p, sees (gv s') x k p ↔ sees (gv s) x k p) ∧
    (∀ x X, caches (vm (ast s)) !! x = Some X → areas X ≠ [] → ∃ X', caches (vm (ast s')) !! x = Some X' ∧ areas X' = areas X).
Proof.
  assert (gv s !! c = Some (gnode C)) as HN by (apply lookup_gv; eauto). pose proof (g_refs _ _ _ _ (ch_graph _ _ _ Hok) c _ HN) as Hr. cbn in Hr.
  destruct (set_ref_chain n None c C s (ReleaseRefLocked c s) (ref_count C - 1)) as [Hch1 Hk1]; [done|by left|done| |lia| |].
  { apply ReleaseRefLocked_eq; [done|lia]. }
  { intros k p pg H1 H2 H3. pose proof (Hbusy k p pg H1 H2 H3). lia. }
  destruct (Unlock_ok n fuel c false (ReleaseRefLocked c s) es n) as (s' & es' & H1 & H2 & H3);
    [done|eexists; apply upd_lookup; eauto|by eapply graph_ok_depth, Hch1|done|done|cbn in Hfuel; lia|].
  exists s', es'. pose proof (kept_trans _ _ _ Hk1 H3) as [V A]. split_and!; [done|done|..].
  - intros x [X HX]. destruct (V x) as [_ HV]; [exists (gnode X); apply lookup_gv; eauto|]. done.
  - intros x X HX Ha. destruct (A x (gnode X)) as (N' & (X' & HX' & <-)%lookup_gv & E); [apply lookup_gv; eauto|done|]. eauto.
Qed.
End chains.

(** ** A chain to run the definitions with *)

(** Cache 1, which area 7 maps, holds a page at index 0; its source 2 pages
    at 0 and 1.  Somebody holds a second reference to 2. *)
Definition top_cache : VMCache := (some_cache {[ 0 := 10 ]} 1000 (8 * PAGE_SIZE)) <| areas := [7] |> <| source := Some 2 |>.
Definition lower_cache : VMCache := (some_cache {[ 0 := 20; 1 := 21 ]} 1001 (8 * PAGE_SIZE)) <| consumers := [1] |> <| ref_count := 2 |>.

Definition chain_vm : vmstate :=
  (vm_boot {[ 10 := some_page 0 1000; 20 := some_page 0 1001; 21 := some_page 1 1001 ]})
    <| cacherefs := {[ 1000 := 1; 1001 := 2 ]} |> <| sActivePageQueue := mkQueue 3 [10; 20; 21] |>
    <| caches := {[ 1 := top_cache; 2 := lower_cache ]} |>.

Definition chain_state : lstate :=
  mkLState (mkAState chain_vm {[ 1 := mkAnon false false 0 0 PAGE_SIZE 0; 2 := mkAnon false false 0 0 PAGE_SIZE 0 ]} ∅ swap_two
    (mkMemory (2 ^ 30) 0 (2 ^ 31))) ∅ ∅ ∅.

Lemma chain_graph c N : gv chain_state !! c = Some N → c = 1 ∧ N = gnode top_cache ∨ c = 2 ∧ N = gnode lower_cache.
Proof.
  intros (C & HC & <-)%lookup_gv. change (caches (vm (ast chain_state))) with ({[ 1 := top_cache; 2 := lower_cache ]} : gmap Z VMCache) in HC.
  apply lookup_insert_Some in HC as [[<- <-]|[_ [<- <-]%lookup_singleton_Some]]; auto.
Qed.

Lemma chain_page p pg : pages (vm (ast chain_state)) !! p = Some pg → busy pg = false ∧ wired_count pg = 0 ∧ mappings pg = [].
Proof.
  change (pages (vm (ast chain_state))) with ({[ 10 := some_page 0 1000; 20 := some_page 0 1001; 21 := some_page 1 1001 ]} : gmap Z page).
  rewrite !lookup_insert_Some, lookup_singleton_Some. intros [[_ <-]|[_ [[_ <-]|[_ [_ <-]]]]]; done.
Qed.

Lemma chain_state_ok : chain_ok 1 None chain_state.
Proof.
  split.
  - split_and!; [apply caches_okb_sound|apply pages_okb_sound|]; vm_compute; reflexivity.
  - split_and!; [done|exact swap_two_ok|vm_compute; discriminate|]. intros c an Hc.
    assert (allocated_swap_size an = 0 ∧ committed_swap_size an = PAGE_SIZE ∧ (c = 1 ∨ c = 2)) as (E1 & E2 & Ec).
    { change (anons (ast chain_state)) with ({[ 1 := mkAnon false false 0 0 PAGE_SIZE 0; 2 := mkAnon false false 0 0 PAGE_SIZE 0 ]} : gmap Z anon) in Hc.
      apply lookup_insert_Some in Hc as [[<- <-]|[_ [<- <-]%lookup_singleton_Some]]; auto. }
    rewrite E1, E2. split_and!; [done|done|]. intros C HC. destruct Ec as [->| ->]; injection HC as <-; vm_compute; split; discriminate.
  - split.
    + intros d D c [[-> ->]|[-> ->]]%chain_graph; [intros [= <-]|done]. exists (gnode lower_cache). split; [reflexivity|left].
    + intros c N d [[-> ->]|[-> ->]]%chain_graph; [by intros ?%elem_of_nil|]. intros ->%list_elem_of_singleton. by exists (gnode top_cache).
    + intros c N [[-> ->]|[-> ->]]%chain_graph; [apply NoDup_nil_2|apply NoDup_singleton].
    + exists (fun c => if c =? 1 then 1%nat else 0%nat). intros d D c [[-> ->]|[-> ->]]%chain_graph; [intros [= <-]|done]. cbn. lia.
    + intros c N [[-> ->]|[-> ->]]%chain_graph; cbn; lia.
    + intros c N [[-> ->]|[-> ->]]%chain_graph _; (split; [done|]); [by intros [_ ?]|by intros [? _]].
  - split.
    + intros d D c N [[-> ->]|[-> ->]]%chain_graph; [intros [= <-]|done]. intros _ _ _. apply elem_of_dom. by eexists.
    + intros c N k p pg _ _ (E & _)%chain_page. congruence.
    + intros c N k p pg _ _ (_ & E1 & E2)%chain_page [H|H]; congruence.
Qed.

(** What cache 1 shows at indices 0 and 1. *)
Definition shows (s : lstate) (c : Z) (ks : list Z) : list (option Z) :=
  map (fun k => caches (vm (ast s)) !! c ≫= (fun C => cpages C !! k)) ks.

Lemma unlock_returns_witness :
  ∃ s' es', Unlock (fun n => n * 1000000) some_env 10 2 false (ReleaseRefLocked 2 chain_state, [Some (fun s => s, true)]) = Ret (s', es') ∧
    chain_ok 1 None s'.
Proof.
  destruct (set_ref_chain 1 None 2 lower_cache chain_state (ReleaseRefLocked 2 chain_state) 1) as [H _];
    [apply chain_state_ok|by left|done|by apply (ReleaseRefLocked_eq 2 lower_cache)|done|intros k p pg _ (E & _)%chain_page; congruence|].
  destruct (unlock_returns (fun n => n * 1000000) some_env 1 10 2 false (ReleaseRefLocked 2 chain_state) [Some (fun s => s, true)]) as (s' & es' & H1 & H2 & _).
  - exact H.
  - by eexists.
  - constructor; [apply harmless_wait|constructor].
  - cbn. lia.
  - exists s', es'. done.
Defined.

Definition drop_ref : outcome (lstate * list contention) :=
  ReleaseRefAndUnlock (fun n => n * 1000000) some_env 10 2 (chain_state, [Some (fun s => s, true)]).

Lemma release_ref_keeps_view_witness :
  ∃ s' es', drop_ref = Ret (s', es') ∧
    caches (vm (ast s')) !! 2 = None ∧ shows s' 1 [0; 1; 2] = [Some 10; Some 21; None].
Proof.
  destruct (release_ref_keeps_view (fun n => n * 1000000) some_env 1 10 2 chain_state [Some (fun s => s, true)] lower_cache)
    as (s' & es' & H1 & _).
  - apply chain_state_ok.
  - done.
  - done.
  - intros k p pg _ (E & _)%chain_page. congruence.
  - constructor; [apply harmless_wait|constructor].
  - cbn. lia.
  - exists s', es'. split; [exact H1|].
    assert (match drop_ref with
            | Ret (s, _) => bool_decide (caches (vm (ast s)) !! 2 = None) && bool_decide (shows s 1 [0; 1; 2] = [Some 10; Some 21; None])
            | _ => false end = true) as H2 by (vm_compute; reflexivity).
    rewrite (H1 : drop_ref = _) in H2. apply andb_prop in H2 as [?%bool_decide_eq_true ?%bool_decide_eq_true]. done.
Defined.
