(* ===== verification/PageMapping.v ===== *)
(** mm.cpp and mm_mapper.cpp: which pages are mapped where.

    A page is mapped by an area without locked wiring through a
    [vm_page_mapping] object, which is on a list of the page and on one of the
    area, and by other areas through its wired count; [gMappedPagesCount]
    counts the pages that are mapped at all.  The page tables themselves are
    code of the architecture, not part of the repository: [translation] is
    what they contain, and the class [VMTranslationMap] states what the
    methods do to it and that unmapping reports to [PageUnmapped] or
    [UnaccessedPageUnmapped], which are provided for that.  Callers hold the
    locks of the caches and of the map. *)
From S2P Require Import Prelude VMState PageQueue CachePages PageAlloc CacheEffects.
From stdpp Require Import base list list_numbers numbers gmap.
From Stdlib Require Import ZArith Lia.
Local Open Scope Z_scope.

(** ** Flags *)

(** Constants defined outside the repository: the kernel address space
    ([VMAddressSpace::Kernel()]), the size of [struct page], and the flags of
    areas, of which each is one bit and the three of user protection fit into
    half a byte. *)
Class Platform := {
  Kernel : Z; sizeof_page : Z;
  read_bit : Z; write_bit : Z; execute_bit : Z;
  kernel_read_bit : Z; kernel_write_bit : Z; kernel_execute_bit : Z;
  nonsecure_bit : Z; device_bit : Z;
  B_KERNEL_MEMORY_TYPE_MASK : Z;
  B_NO_LOCK : Z;
  flag_bits := [read_bit; write_bit; execute_bit; kernel_read_bit; kernel_write_bit; kernel_execute_bit; nonsecure_bit; device_bit];
  flag_bits_distinct : NoDup flag_bits;
  flag_bits_range : Forall (fun b => 0 <= b < 32 ∧ Z.testbit B_KERNEL_MEMORY_TYPE_MASK b = false) flag_bits;
  user_bits_range : read_bit < 4 ∧ write_bit < 4 ∧ execute_bit < 4;
  type_mask_range : fits 32 B_KERNEL_MEMORY_TYPE_MASK
}.

Section flags.
Context {PF : Platform}.
Definition B_READ_AREA : Z := 2 ^ read_bit.
Definition B_WRITE_AREA : Z := 2 ^ write_bit.
Definition B_EXECUTE_AREA : Z := 2 ^ execute_bit.
Definition B_KERNEL_READ_AREA : Z := 2 ^ kernel_read_bit.
Definition B_KERNEL_WRITE_AREA : Z := 2 ^ kernel_write_bit.
Definition B_KERNEL_EXECUTE_AREA : Z := 2 ^ kernel_execute_bit.
Definition B_NONSECURE_AREA : Z := 2 ^ nonsecure_bit.
Definition B_DEVICE_AREA : Z := 2 ^ device_bit.
Definition B_USER_PROTECTION : Z := Z.lor (Z.lor B_READ_AREA B_WRITE_AREA) B_EXECUTE_AREA.
Definition B_KERNEL_PROTECTION : Z := Z.lor (Z.lor B_KERNEL_READ_AREA B_KERNEL_WRITE_AREA) B_KERNEL_EXECUTE_AREA.

(** [fix_protection]. *)
Definition fix_protection (protection : Z) : Z :=
  if Z.land protection B_KERNEL_PROTECTION =? 0 then
    if (Z.land protection B_USER_PROTECTION =? 0) || negb (Z.land protection B_WRITE_AREA =? 0)
    then Z.lor protection (Z.lor B_KERNEL_READ_AREA B_KERNEL_WRITE_AREA)
    else Z.lor protection B_KERNEL_READ_AREA
  else protection.
End flags.

(** ** State *)

Record VMArea := mkVMArea {
  a_base : Z;
  a_size : Z;
  a_commit_base : Z;
  a_protection : Z;
  a_wiring : Z;
  a_cache : option Z;
  a_cache_offset : Z;
  a_cache_type : cache_type;
  a_mappings : list Z;
  page_protections : option (list Z);
  a_space : Z
}.
#[export] Instance eta_VMArea : Eta VMArea := fun a =>
  mkVMArea (a_base a) (a_size a) (a_commit_base a) (a_protection a) (a_wiring a) (a_cache a) (a_cache_offset a)
    (a_cache_type a) (a_mappings a) (page_protections a) (a_space a).

(** The values of the enumeration of cache types. *)
Definition cache_type_code (t : cache_type) : Z :=
  match t with
  | CACHE_TYPE_RAM => 0 | CACHE_TYPE_VNODE => 1 | CACHE_TYPE_NULL => 2 | CACHE_TYPE_DEVICE => 3
  | CACHE_TYPE_NONSECURE => 4 | CACHE_TYPE_NONSECURE_DEVICE => 5 | CACHE_TYPE_PFNMAP => 6 | CACHE_TYPE_NONSECURE_PFNMAP => 7
  end.

(** A page table entry that is present. *)
Record tentry := mkEntry { t_phys : Z; t_attr : Z; t_accessed : bool; t_modified : bool }.
#[export] Instance eta_tentry : Eta tentry := fun e => mkEntry (t_phys e) (t_attr e) (t_accessed e) (t_modified e).

(** [vm_page_segment]: the pages with numbers from [base_pfn] below [end_pfn]
    are the elements of the array at [seg_pages]. *)
Record segment := mkSegment { base_pfn : Z; end_pfn : Z; seg_pages : Z }.

Record mapstate := mkMap {
  vmareas : gmap Z VMArea;
  page_mappings : gmap Z (Z * Z);
  translation : gmap Z (gmap Z tentry);
  gMappedPagesCount : Z;
  sPageSegments : list (option segment)
}.
#[export] Instance eta_mapstate : Eta mapstate := fun s =>
  mkMap (vmareas s) (page_mappings s) (translation s) (gMappedPagesCount s) (sPageSegments s).

Section ops.
Context {DL : DLList Z} {PF : Platform}.
Record mstate := mkMState { mvm : vmstate; mp : mapstate }.
#[global] Instance eta_mstate : Eta mstate := fun s => mkMState (mvm s) (mp s).

Implicit Types (s : mstate) (a p m : Z).

Definition page_of p s : outcome page := deref (pages (mvm s) !! p).
Definition area_of a s : outcome VMArea := deref (vmareas (mp s) !! a).
Definition upd_area a (f : VMArea → VMArea) s : mstate := s <| mp ::= fun x => x <| vmareas ::= alter f a |> |>.
Definition upd_pg p (f : page → page) s : mstate := s <| mvm ::= upd_page p f |>.
Definition add_mapped (n : Z) s : mstate := s <| mp ::= fun x => x <| gMappedPagesCount ::= fun k => i32 (k + n) |> |>.
Definition with_vm (f : vmstate → outcome vmstate) s : outcome mstate := v ← f (mvm s); Ret (s <| mvm := v |>).

(** ** Page numbers *)

Fixpoint find_segment (l : list (option segment)) (pageNumber : Z) : option Z :=
  match l with
  | [] => None
  | None :: l => find_segment l pageNumber
  | Some g :: l =>
      if (base_pfn g <=? pageNumber) && (pageNumber <? end_pfn g) then Some (seg_pages g + (pageNumber - base_pfn g) * sizeof_page)
      else find_segment l pageNumber
  end.

Definition pfn_to_page (pageNumber : Z) s : option Z := find_segment (sPageSegments (mp s)) pageNumber.
Definition page_to_phys (pg : page) : Z := Z.shiftl (pfn pg) PAGE_SHIFT.
Definition phys_to_page (phys : Z) s : option Z := pfn_to_page (Z.shiftr phys PAGE_SHIFT) s.

Definition virtual_page_address (A : VMArea) (pg : page) : Z :=
  u64 (a_base A + u64 (Z.shiftl (cache_offset pg) PAGE_SHIFT - a_cache_offset A)).

(** ** Wired counts *)

Definition increment_page_wired_count p s : outcome mstate :=
  pg ← page_of p s;
  let s := if IsMapped pg then s else add_mapped 1 s in
  with_vm (IncrementWiredCount p) s.

Definition decrement_page_wired_count p s : outcome mstate :=
  s ← with_vm (DecrementWiredCount p) s;
  pg ← page_of p s;
  Ret (if IsMapped pg then s else add_mapped (-1) s).

(** ** Protections of single pages *)

(** [allocate_area_page_protections]; whether [malloc_etc] succeeds is an argument. *)
Definition allocate_area_page_protections (a : Z) (memory : bool) s : outcome (status * mstate) :=
  A ← area_of a s;
  let bytes := u32 ((a_size A / PAGE_SIZE + 1) / 2) in
  if memory then
    let areaProtection := Z.land (a_protection A) B_USER_PROTECTION in
    let l := replicate (Z.to_nat bytes) (u8 (Z.lor areaProtection (Z.shiftl areaProtection 4))) in
    Ret (Ok, upd_area a (fun A => A <| page_protections := Some l |>) s)
  else Ret (Err ENOMEM, upd_area a (fun A => A <| page_protections := None |>) s).

Definition page_index (A : VMArea) (pageAddress : Z) : Z := u32 (u64 (pageAddress - a_base A) / PAGE_SIZE).

(** Writing behind the array is undefined behaviour, hence the [deref]. *)
Definition set_area_page_protection (a pageAddress protection : Z) s : outcome mstate :=
  A ← area_of a s;
  let protection := Z.land protection B_USER_PROTECTION in
  let pageIndex := page_index A pageAddress in
  l ← deref (page_protections A);
  entry ← deref (l !! Z.to_nat (pageIndex / 2));
  let entry := if pageIndex mod 2 =? 0 then u8 (Z.lor (Z.land entry 0xf0) protection)
               else u8 (Z.lor (Z.land entry 0x0f) (Z.shiftl protection 4)) in
  Ret (upd_area a (fun A => A <| page_protections := Some (<[Z.to_nat (pageIndex / 2) := entry]> l) |>) s).

(** The user protection of a page as the flags of its area. *)
Definition effective_protection (A : VMArea) (protection : Z) : Z :=
  if a_space A =? Kernel then
    let kernelProtection := if Z.land protection B_READ_AREA =? 0 then 0 else B_KERNEL_READ_AREA in
    let kernelProtection := if Z.land protection B_WRITE_AREA =? 0 then kernelProtection else Z.lor kernelProtection B_KERNEL_WRITE_AREA in
    Z.lor kernelProtection (Z.land (a_protection A) B_KERNEL_MEMORY_TYPE_MASK)
  else
    Z.lor (Z.lor (Z.lor protection B_KERNEL_READ_AREA) (if Z.land protection B_WRITE_AREA =? 0 then 0 else B_KERNEL_WRITE_AREA))
      (Z.land (a_protection A) B_KERNEL_MEMORY_TYPE_MASK).

Definition get_area_page_protection (a pageAddress : Z) s : outcome Z :=
  A ← area_of a s;
  match page_protections A with
  | None => Ret (a_protection A)
  | Some l =>
      let pageIndex := page_index A pageAddress in
      entry ← deref (l !! Z.to_nat (pageIndex / 2));
      let protection := if pageIndex mod 2 =? 0 then Z.land entry 0x0f else Z.shiftr entry 4 in
      Ret (effective_protection A protection)
  end.

(** ** Unmapping *)

(** The first mapping of the page by area [a], taken off both lists. *)
Definition first_mapping a (pg : page) s : option Z :=
  find (fun m => match page_mappings (mp s) !! m with Some (_, b) => b =? a | None => false end) (mappings pg).

Definition remove_mapping a p s : outcome (option Z * mstate) :=
  pg ← page_of p s;
  A ← area_of a s;
  if a_wiring A =? B_NO_LOCK then
    m ← deref (first_mapping a pg s);
    let s := upd_area a (fun A => A <| a_mappings ::= filter (.≠ m) |>) s in
    Ret (Some m, upd_pg p (fun pg => pg <| mappings ::= filter (.≠ m) |>) s)
  else s ← with_vm (DecrementWiredCount p) s; Ret (None, s).

(** [object_cache_free] of the mapping object, if there is one. *)
Definition free_mapping (mapping : option Z) s : mstate :=
  match mapping with Some m => s <| mp ::= fun x => x <| page_mappings ::= delete m |> |> | None => s end.

Definition PageUnmapped a (pageNumber : Z) (was_accessed was_modified updatePageQueue : bool) s : outcome mstate :=
  A ← area_of a s;
  if cache_type_code CACHE_TYPE_DEVICE <=? cache_type_code (a_cache_type A) then Ret s
  else
    p ← deref (pfn_to_page pageNumber s);
    let s := if was_accessed then upd_pg p (fun pg => pg <| accessed := true |>) s else s in
    let s := if was_modified then upd_pg p (fun pg => pg <| modified := true |>) s else s in
    '(mapping, s) ← remove_mapping a p s;
    pg ← page_of p s;
    s ← (if IsMapped pg then Ret s
         else
           let s := add_mapped (-1) s in
           if updatePageQueue then
             c ← deref (page_Cache (mvm s) pg);
             C ← deref (caches (mvm s) !! c);
             with_vm (vm_page_set_state p (if temporary C then PAGE_STATE_INACTIVE
                                           else if modified pg then PAGE_STATE_MODIFIED else PAGE_STATE_CACHED)) s
           else Ret s);
    Ret (free_mapping mapping s).

Definition UnaccessedPageUnmapped a (pageNumber : Z) s : outcome mstate :=
  A ← area_of a s;
  if cache_type_code CACHE_TYPE_DEVICE <=? cache_type_code (a_cache_type A) then Ret s
  else
    p ← deref (pfn_to_page pageNumber s);
    '(mapping, s) ← remove_mapping a p s;
    pg ← page_of p s;
    Ret (free_mapping mapping (if IsMapped pg then s else add_mapped (-1) s)).

(** ** Translation maps *)

Definition entry_at (space va : Z) s : option tentry := translation (mp s) !! space ≫= (.!! va).
Definition upd_entries (space : Z) (f : gmap Z tentry → gmap Z tentry) s : mstate :=
  s <| mp ::= fun x => x <| translation ::= <[space := f (default ∅ (translation x !! space))]> |> |>.

(** The methods of the architecture. *)
Class VMTranslationMap := {
  Map : Z → Z → Z → Z → mstate → mstate;
  Query : Z → Z → mstate → option tentry;
  Protect : Z → Z → Z → Z → mstate → mstate;
  ClearFlags : Z → Z → bool → bool → mstate → mstate;
  UnmapPage : Z → Z → bool → mstate → outcome (status * mstate);
  ClearAccessedAndModified : Z → Z → bool → mstate → outcome (bool * bool * mstate);
  Map_entry space va pa attributes s : Map space va pa attributes s = upd_entries space <[va := mkEntry pa attributes false false]> s;
  Query_entry space va s : Query space va s = entry_at space va s;
  Protect_entries space base size attributes s : Protect space base size attributes s =
    upd_entries space (map_imap (fun va e => Some (if (base <=? va) && (va <? base + size) then e <| t_attr := attributes |> else e))) s;
  ClearFlags_entry space va acc mod_ s : ClearFlags space va acc mod_ s =
    upd_entries space (alter (fun e => e <| t_accessed ::= andb (negb acc) |> <| t_modified ::= andb (negb mod_) |>) va) s;
  UnmapPage_entry a A va updatePageQueue s : vmareas (mp s) !! a = Some A →
    UnmapPage a va updatePageQueue s =
      match entry_at (a_space A) va s with
      | None => Ret (Err ENOENT, s)
      | Some e =>
          s ← PageUnmapped a (Z.shiftr (t_phys e) PAGE_SHIFT) (t_accessed e) (t_modified e) updatePageQueue (upd_entries (a_space A) (delete va) s);
          Ret (Ok, s)
      end;
  ClearAccessedAndModified_entry a A va unmapIfUnaccessed s : vmareas (mp s) !! a = Some A →
    ClearAccessedAndModified a va unmapIfUnaccessed s =
      match entry_at (a_space A) va s with
      | None => Ret (false, false, s)
      | Some e =>
          if unmapIfUnaccessed && negb (t_accessed e) then
            s ← UnaccessedPageUnmapped a (Z.shiftr (t_phys e) PAGE_SHIFT) (upd_entries (a_space A) (delete va) s);
            Ret (false, t_modified e, s)
          else Ret (t_accessed e, t_modified e,
                    upd_entries (a_space A) (<[va := e <| t_accessed := false |> <| t_modified := false |>]>) s)
      end
}.
Context {TM : VMTranslationMap}.

(** [VMTranslationMap::ProtectPage] and [ProtectArea]. *)
Definition memory_type (A : VMArea) (attributes : Z) : Z :=
  Z.lor (Z.ldiff attributes B_KERNEL_MEMORY_TYPE_MASK) (Z.land (a_protection A) B_KERNEL_MEMORY_TYPE_MASK).

Definition ProtectPage a (address attributes : Z) s : outcome mstate :=
  A ← area_of a s;
  Ret (Protect (a_space A) address PAGE_SIZE (memory_type A attributes) s).

Definition ProtectArea a (attributes : Z) s : outcome mstate :=
  A ← area_of a s;
  Ret (Protect (a_space A) (a_base A) (a_size A) (memory_type A attributes) s).

(** The loop of [UnmapPages] and [UnmapArea], [n] pages long. *)
Fixpoint unmap_loop (n : nat) a (address : Z) (updatePageQueue : bool) s : outcome mstate :=
  match n with
  | O => Ret s
  | S n =>
      '(_, s) ← UnmapPage a address updatePageQueue s;
      unmap_loop n a (u64 (address + PAGE_SIZE)) updatePageQueue s
  end.

Definition UnmapPages a (base size : Z) (updatePageQueue : bool) s : outcome mstate :=
  _ ← assert (base mod PAGE_SIZE =? 0);
  _ ← assert (size mod PAGE_SIZE =? 0);
  unmap_loop (Z.to_nat (size / PAGE_SIZE)) a base updatePageQueue s.

Definition UnmapArea a s : outcome mstate :=
  A ← area_of a s;
  unmap_loop (Z.to_nat (a_size A / PAGE_SIZE)) a (a_base A) true s.

(** ** Mapping *)

(** [map_page]; [mapping] is what [object_cache_alloc] returns for the mapping object. *)
Definition map_page a p (address protection : Z) (mapping : option Z) s : outcome (status * mstate) :=
  A ← area_of a s;
  pg ← page_of p s;
  let wasMapped := IsMapped pg in
  let map s := Map (a_space A) address (page_to_phys pg)
      (Z.lor (Z.land (a_protection A) B_KERNEL_MEMORY_TYPE_MASK) (Z.ldiff protection B_KERNEL_MEMORY_TYPE_MASK)) s in
  r ← (if a_wiring A =? B_NO_LOCK then
         match mapping with
         | None => Ret None
         | Some m =>
             let s := map (s <| mp ::= fun x => x <| page_mappings ::= <[m := (p, a)]> |> |>) in
             let s := if IsMapped pg then s else add_mapped 1 s in
             let s := upd_pg p (fun pg => pg <| mappings ::= fun l => l ++ [m] |>) s in
             Ret (Some (upd_area a (fun A => A <| a_mappings ::= fun l => l ++ [m] |>) s))
         end
       else s ← increment_page_wired_count p (map s); Ret (Some s));
  match r with
  | None => Ret (Err ENOMEM, s)
  | Some s =>
      s ← (if negb wasMapped && (bool_decide (state pg = PAGE_STATE_CACHED) || bool_decide (state pg = PAGE_STATE_INACTIVE))
           then with_vm (vm_page_set_state p PAGE_STATE_ACTIVE) s else Ret s);
      Ret (Ok, upd_area a (fun A => A <| a_commit_base ::= Z.min address |>) s)
  end.

Definition unmap_page a (virtualAddress : Z) s : outcome (status * mstate) := UnmapPage a virtualAddress true s.
Definition unmap_pages a (base size : Z) s : outcome mstate := UnmapPages a base size true s.

(** ** All mappings of a page *)

(** The area of the mapping [m] and the address at which it maps page [pg]. *)
Definition mapping_place m (pg : page) s : outcome (Z * VMArea * Z) :=
  '(_, a) ← deref (page_mappings (mp s) !! m);
  A ← area_of a s;
  Ret (a, A, virtual_page_address A pg).

Fixpoint vm_remove_all_page_mappings (fuel : nat) p s : outcome mstate :=
  pg ← page_of p s;
  match mappings pg with
  | [] => Ret s
  | m :: _ =>
      match fuel with
      | O => NoFuel
      | S fuel =>
          '(a, _, address) ← mapping_place m pg s;
          '(_, s) ← UnmapPage a address false s;
          vm_remove_all_page_mappings fuel p s
      end
  end.

Fixpoint any_modified (ms : list Z) (pg : page) s : outcome bool :=
  match ms with
  | [] => Ret false
  | m :: ms =>
      '(_, A, address) ← mapping_place m pg s;
      match Query (a_space A) address s with
      | Some e => if t_modified e then Ret true else any_modified ms pg s
      | None => any_modified ms pg s
      end
  end.

Definition vm_test_map_modification p s : outcome bool :=
  pg ← page_of p s;
  if modified pg then Ret true else any_modified (mappings pg) pg s.

Fixpoint clear_flags (ms : list Z) (pg : page) (acc mod_ : bool) s : outcome mstate :=
  match ms with
  | [] => Ret s
  | m :: ms =>
      '(_, A, address) ← mapping_place m pg s;
      clear_flags ms pg acc mod_ (ClearFlags (a_space A) address acc mod_ s)
  end.

(** [vm_clear_map_flags]; the flags are whether to clear PAGE_ACCESSED and PAGE_MODIFIED. *)
Definition vm_clear_map_flags p (acc mod_ : bool) s : outcome mstate :=
  pg ← page_of p s;
  let s := if acc then upd_pg p (fun pg => pg <| accessed := false |>) s else s in
  let s := if mod_ then upd_pg p (fun pg => pg <| modified := false |>) s else s in
  clear_flags (mappings pg) pg acc mod_ s.

Fixpoint clear_accessed (ms : list Z) p (count : Z) s : outcome (Z * mstate) :=
  match ms with
  | [] => Ret (count, s)
  | m :: ms =>
      pg ← page_of p s;
      '(a, _, address) ← mapping_place m pg s;
      '(r, md, s) ← ClearAccessedAndModified a address false s;
      let count := if (r : bool) then count + 1 else count in
      clear_accessed ms p count (upd_pg p (fun pg => pg <| modified ::= fun x => x || md |>) s)
  end.

Definition vm_clear_page_mapping_accessed_flags p s : outcome (Z * mstate) :=
  pg ← page_of p s;
  '(count, s) ← clear_accessed (mappings pg) p 0 s;
  pg ← page_of p s;
  if accessed pg then Ret (count + 1, upd_pg p (fun pg => pg <| accessed := false |>) s) else Ret (count, s).

Fixpoint remove_unaccessed (fuel : nat) p s : outcome (Z * mstate) :=
  pg ← page_of p s;
  match mappings pg with
  | [] => Ret (0, s)
  | m :: _ =>
      match fuel with
      | O => NoFuel
      | S fuel =>
          '(a, _, address) ← mapping_place m pg s;
          '(r, md, s) ← ClearAccessedAndModified a address true s;
          if (r : bool) then
            vm_clear_page_mapping_accessed_flags p (upd_pg p (fun pg => pg <| accessed := true |> <| modified ::= fun x => x || md |>) s)
          else remove_unaccessed fuel p (upd_pg p (fun pg => pg <| modified ::= fun x => x || md |>) s)
      end
  end.

Definition vm_remove_all_page_mappings_if_unaccessed (fuel : nat) p s : outcome (Z * mstate) :=
  pg ← page_of p s;
  _ ← assert (wired_count pg =? 0);
  if accessed pg then vm_clear_page_mapping_accessed_flags p s else remove_unaccessed fuel p s.
End ops.

(** ** Invariant *)

Section inv.
Context {DL : DLList Z} {PF : Platform}.
Implicit Types (s : mstate) (a p m : Z) (A : VMArea) (pg : page).

Definition mapped01 pg : Z := if IsMapped pg then 1 else 0.

(** Where mapping [m] is. *)
Record mapping_at s m p a pg A : Prop := {
  ma_object : page_mappings (mp s) !! m = Some (p, a);
  ma_page : pages (mvm s) !! p = Some pg;
  ma_area : vmareas (mp s) !! a = Some A
}.

Record map_ok s : Prop := {
  mo_pages : pages_ok (mvm s);
  mo_caches : caches_ok (mvm s);
  mo_small : Z.of_nat (size (pages (mvm s))) < 2 ^ 31;
  mo_segments : ∀ p pg, pages (mvm s) !! p = Some pg → pfn_to_page (pfn pg) s = Some p;
  mo_count : gMappedPagesCount (mp s) = msum mapped01 (pages (mvm s));
  mo_object : ∀ m p a, page_mappings (mp s) !! m = Some (p, a) → ∃ pg A, mapping_at s m p a pg A ∧ m ∈ mappings pg ∧ m ∈ a_mappings A ∧
    a_wiring A = B_NO_LOCK ∧ cache_type_code (a_cache_type A) < cache_type_code CACHE_TYPE_DEVICE ∧
    (∃ c C, page_Cache (mvm s) pg = Some c ∧ caches (mvm s) !! c = Some C) ∧
    ∃ e, entry_at (a_space A) (virtual_page_address A pg) s = Some e ∧ t_phys e = page_to_phys pg;
  mo_page : ∀ p pg m, pages (mvm s) !! p = Some pg → m ∈ mappings pg → ∃ a, page_mappings (mp s) !! m = Some (p, a);
  mo_area : ∀ a A m, vmareas (mp s) !! a = Some A → m ∈ a_mappings A → ∃ p, page_mappings (mp s) !! m = Some (p, a);
  mo_page_nodup : ∀ p pg, pages (mvm s) !! p = Some pg → NoDup (mappings pg);
  mo_apart : ∀ m p a pg A m' p' a' pg' A', mapping_at s m p a pg A → mapping_at s m' p' a' pg' A' →
    a_space A = a_space A' → virtual_page_address A pg = virtual_page_address A' pg' → m = m'
}.

Lemma mo_unique s m m' p a : map_ok s → page_mappings (mp s) !! m = Some (p, a) → page_mappings (mp s) !! m' = Some (p, a) → m = m'.
Proof.
  intros Hok Hm Hm'. destruct (mo_object s Hok m p a Hm) as (pg & A & H1 & _). destruct (mo_object s Hok m' p a Hm') as (pg' & A' & H2 & _).
  pose proof (ma_page _ _ _ _ _ _ H1) as E1. rewrite (ma_page _ _ _ _ _ _ H2) in E1. injection E1 as ->.
  pose proof (ma_area _ _ _ _ _ _ H1) as E2. rewrite (ma_area _ _ _ _ _ _ H2) in E2. injection E2 as ->.
  by apply (mo_apart s Hok m p a pg A m' p a pg A).
Qed.

Lemma first_mapping_ok s m p a pg A : map_ok s → mapping_at s m p a pg A → first_mapping a pg s = Some m.
Proof.
  intros Hok Hat. pose proof (ma_object _ _ _ _ _ _ Hat) as Hm. pose proof (ma_page _ _ _ _ _ _ Hat) as Hp.
  unfold first_mapping. destruct (find _ (mappings pg)) as [x|] eqn:Ef.
  - apply find_some in Ef as [Hx%list_elem_of_In Hb]. destruct (mo_page s Hok p pg x Hp Hx) as [b Hb']. rewrite Hb' in Hb.
    apply Z.eqb_eq in Hb as ->. f_equal. by eapply mo_unique.
  - destruct (mo_object s Hok m p a Hm) as (pg' & A' & H1 & Hin & _). pose proof (ma_page _ _ _ _ _ _ H1) as E. rewrite Hp in E. injection E as <-.
    pose proof (find_none _ _ Ef m (proj1 (list_elem_of_In _ _) Hin)) as Hn. cbn in Hn. rewrite Hm, Z.eqb_refl in Hn. done.
Qed.

Lemma mapped_not_free s m p a pg A : map_ok s → mapping_at s m p a pg A → IsMapped pg = true ∧ ¬ is_free pg.
Proof.
  intros Hok Hat. destruct (mo_object s Hok m p a (ma_object _ _ _ _ _ _ Hat)) as (pg' & A' & H1 & Hin & _).
  pose proof (ma_page _ _ _ _ _ _ H1) as E. rewrite (ma_page _ _ _ _ _ _ Hat) in E. injection E as <-. split.
  - unfold IsMapped. apply orb_true_intro. right. rewrite bool_decide_eq_false_2; [done|]. intros E. rewrite E in Hin. by apply elem_of_nil in Hin.
  - intros Hf. destruct (proj2 (mo_pages s Hok) p pg (ma_page _ _ _ _ _ _ Hat)) as [_ H]. destruct (H Hf) as (_ & _ & E).
    rewrite E in Hin. by apply elem_of_nil in Hin.
Qed.

Lemma entry_at_upd space f space' va s :
  entry_at space' va (upd_entries space f s) =
    if decide (space' = space) then f (default ∅ (translation (mp s) !! space)) !! va else entry_at space' va s.
Proof.
  unfold entry_at. change (translation (mp (upd_entries space f s))) with (<[space := f (default ∅ (translation (mp s) !! space))]> (translation (mp s))).
  case_decide as E; [rewrite E, lookup_insert_eq; done|by rewrite lookup_insert_ne by (by apply not_eq_sym)].
Qed.

Lemma entry_delete space va space' x s :
  entry_at space' x (upd_entries space (delete va) s) = if decide (space' = space ∧ x = va) then None else entry_at space' x s.
Proof.
  rewrite entry_at_upd. destruct (decide (space' = space)) as [->|Hs]; [|by rewrite decide_False by tauto].
  destruct (decide (x = va)) as [->|Hx]; [by rewrite decide_True, lookup_delete_eq by done|].
  rewrite decide_False, lookup_delete_ne by (tauto || by apply not_eq_sym). unfold entry_at. by destruct (translation (mp s) !! space).
Qed.

(** The page after mapping [m] is gone and the hardware flags are noted. *)
Definition unmapped m (acc md : bool) pg : page :=
  pg <| accessed := acc || accessed pg |> <| modified := md || modified pg |> <| mappings ::= filter (.≠ m) |>.

(** Nothing but page [p] changes, and it stays where it is. *)
Lemma caches_ok_touch (v v' : vmstate) p pg pg' :
  caches_ok v → pages v !! p = Some pg → pages v' = <[p := pg']> (pages v) → caches v' = caches v → cacherefs v' = cacherefs v →
  cache_ref pg' = cache_ref pg → cache_offset pg' = cache_offset pg → wired_count pg' = wired_count pg → caches_ok v'.
Proof.
  intros Hok Hp Ep Ec Er E1 E2 E3.
  assert (∀ q o r, refers v' q o r ↔ refers v q o r) as Href.
  { intros q o r. unfold refers. rewrite Ep. split.
    - intros (x & [[<- <-]|[_ Hx]]%lookup_insert_Some & H1 & H2); [exists pg; split_and!; congruence|eauto].
    - intros (x & Hx & H1 & H2). destruct (decide (q = p)) as [->|Hq].
      + exists pg'. rewrite lookup_insert_eq. rewrite Hp in Hx. injection Hx as <-. split_and!; congruence.
      + exists x. by rewrite lookup_insert_ne. }
  split.
  - intros c C. rewrite Ec. intros HC. apply (cache_ok_frame v v'); [by apply Hok|done|by intros; apply Href|].
    intros q o _. unfold is_wired. rewrite Ep. destruct (decide (q = p)) as [->|Hq]; [by rewrite lookup_insert_eq, Hp, E3|by rewrite lookup_insert_ne].
  - intros q x. rewrite Ep. intros [[_ <-]|[_ Hx]]%lookup_insert_Some; [rewrite E3; by apply (proj2 Hok p)|by apply (proj2 Hok q)].
Qed.

(** The queue update of [PageUnmapped]. *)
Lemma unmapped_state p pg (v : vmstate) :
  pages_ok v → caches_ok v → pages v !! p = Some pg → ¬ is_free pg → IsMapped pg = false → (∃ c C, page_Cache v pg = Some c ∧ caches v !! c = Some C) →
  ∃ v' st, (c ← deref (page_Cache v pg); C ← deref (caches v !! c);
      vm_page_set_state p (if temporary C then PAGE_STATE_INACTIVE else if modified pg then PAGE_STATE_MODIFIED else PAGE_STATE_CACHED) v) = Ret v' ∧
    pages_ok v' ∧ pages v' = <[p := pg <| state := st |> <| queue := home st |>]> (pages v) ∧ caches v' = caches v ∧ cacherefs v' = cacherefs v.
Proof.
  intros Hok Hco Hp Hnf Hm (c & C & Hc & HC). rewrite Hc. cbn [deref mbind outcome_bind]. rewrite HC. cbn [deref mbind outcome_bind].
  set (st := if temporary C then _ else _).
  assert (st = PAGE_STATE_INACTIVE ∨ st = PAGE_STATE_MODIFIED ∨ st = PAGE_STATE_CACHED ∧ modified pg = false) as Hst
    by (unfold st; destruct (temporary C), (modified pg); auto).
  clearbody st. destruct (set_page_state_ok p pg st v) as (v' & H1 & Hq & Hp' & He); [done..| | | | |].
  1-2: by destruct Hst as [->|[->|[-> _]]].
  { intros ->. destruct Hst as [?|[?|[_ ?]]]; done. }
  { intros _ _ [->| ->]; destruct Hst as [?|[?|[? _]]]; done. }
  exists v', st. split_and!.
  - unfold vm_page_set_state. rewrite Hp. cbn [deref mbind outcome_bind].
    rewrite (bool_decide_eq_true_2 (state pg ≠ PAGE_STATE_FREE)), (bool_decide_eq_true_2 (state pg ≠ PAGE_STATE_CLEAR))
      by (intros E; apply Hnf; unfold is_free; auto). cbn [andb assert mbind outcome_bind].
    destruct Hst as [->|[->|[-> _]]]; exact H1.
  - split; [done|]. intros q x. rewrite Hp'. intros [[_ <-]|[_ Hx]]%lookup_insert_Some; [|by apply (proj2 Hok q)].
    split; [done|]. intros Hf. exfalso. unfold is_free in Hf. cbn in Hf. destruct Hst as [->|[->|[-> _]]], Hf; done.
  - done.
  - apply (f_equal caches) in He. exact He.
  - apply (f_equal cacherefs) in He. exact He.
Qed.

(** ** Removing one mapping *)

Definition no_queue pg : page := pg <| state := PAGE_STATE_UNUSED |> <| queue := None |>.

Record unmap_step s m p a pg A (acc md : bool) s' : Prop := {
  us_pages_ok : pages_ok (mvm s');
  us_page : ∃ pg', pages (mvm s') = <[p := pg']> (pages (mvm s)) ∧ no_queue pg' = no_queue (unmapped m acc md pg) ∧
    gMappedPagesCount (mp s') = if IsMapped pg' then gMappedPagesCount (mp s) else i32 (gMappedPagesCount (mp s) - 1);
  us_caches : caches (mvm s') = caches (mvm s);
  us_cacherefs : cacherefs (mvm s') = cacherefs (mvm s);
  us_areas : vmareas (mp s') = <[a := A <| a_mappings ::= filter (.≠ m) |>]> (vmareas (mp s));
  us_objects : page_mappings (mp s') = delete m (page_mappings (mp s));
  us_entries : ∀ space va, entry_at space va s' =
    if decide (space = a_space A ∧ va = virtual_page_address A pg) then None else entry_at space va s;
  us_segments : sPageSegments (mp s') = sPageSegments (mp s)
}.

Lemma no_queue_fields pg pg' : no_queue pg' = no_queue pg →
  cache_ref pg' = cache_ref pg ∧ cache_offset pg' = cache_offset pg ∧ wired_count pg' = wired_count pg ∧ pfn pg' = pfn pg ∧
  mappings pg' = mappings pg ∧ accessed pg' = accessed pg ∧ modified pg' = modified pg ∧ IsMapped pg' = IsMapped pg.
Proof.
  intros E. assert (wired_count pg' = wired_count pg) as E1 by (by apply (f_equal wired_count) in E).
  assert (mappings pg' = mappings pg) as E2 by (by apply (f_equal mappings) in E).
  split_and!; [by apply (f_equal cache_ref) in E|by apply (f_equal cache_offset) in E|done|by apply (f_equal pfn) in E|done| | |].
  - by apply (f_equal accessed) in E.
  - by apply (f_equal modified) in E.
  - unfold IsMapped. by rewrite E1, E2.
Qed.

Lemma msum_mapped_le (ps : gmap Z page) : msum mapped01 ps <= Z.of_nat (size ps).
Proof.
  induction ps as [|i x ps Hi IH] using map_ind; [by rewrite msum_empty|].
  rewrite msum_insert, map_size_insert_None by done. unfold mapped01 at 1. destruct (IsMapped x); lia.
Qed.

Lemma msum_mapped_lt (ps : gmap Z page) p pg : ps !! p = Some pg → msum mapped01 ps <= Z.of_nat (size ps) - 1 + mapped01 pg.
Proof.
  intros Hp. rewrite <- (insert_id ps p pg Hp), <- (insert_delete_eq ps p pg). rewrite msum_insert, map_size_insert_None by apply lookup_delete_eq.
  pose proof (msum_mapped_le (delete p ps)). lia.
Qed.

Lemma unmap_step_ok s m p a pg A acc md s' : map_ok s → mapping_at s m p a pg A → unmap_step s m p a pg A acc md s' → map_ok s'.
Proof.
  intros Hok Hat [Hpo (pg' & Ep & Eq & Ecnt) Ec Ecr Ea Eo Ee Es]. pose proof (no_queue_fields _ _ Eq) as (F1 & F2 & F3 & F4 & F5 & _ & _ & F8).
  unfold unmapped in *. cbn in F1, F2, F3, F4, F5. pose proof (ma_page _ _ _ _ _ _ Hat) as Hp. pose proof (ma_area _ _ _ _ _ _ Hat) as HA.
  pose proof (ma_object _ _ _ _ _ _ Hat) as Hm. destruct (mapped_not_free _ _ _ _ _ _ Hok Hat) as [Hmap _].
  set (A' := A <| a_mappings ::= filter (.≠ m) |>) in *.
  assert (∀ q x', pages (mvm s') !! q = Some x' → ∃ x, pages (mvm s) !! q = Some x ∧ cache_ref x' = cache_ref x ∧ cache_offset x' = cache_offset x ∧
    pfn x' = pfn x ∧ (∀ k, k ∈ mappings x' ↔ k ∈ mappings x ∧ k ≠ m)) as Hpg.
  { intros q x'. rewrite Ep. intros [[<- <-]|[Hq Hx]]%lookup_insert_Some.
    - exists pg. split_and!; [done..|]. intros k. rewrite F5, list_elem_of_filter. tauto.
    - exists x'. split_and!; [done..|]. intros k. split; [|by intros []]. intros Hk. split; [done|]. intros ->.
      destruct (mo_page s Hok q x' m Hx Hk) as [b Hb]. congruence. }
  assert (∀ b B', vmareas (mp s') !! b = Some B' → ∃ B, vmareas (mp s) !! b = Some B ∧ a_space B' = a_space B ∧ a_wiring B' = a_wiring B ∧
    a_cache_type B' = a_cache_type B ∧ (∀ x, virtual_page_address B' x = virtual_page_address B x) ∧ ∀ k, k ∈ a_mappings B' ↔ k ∈ a_mappings B ∧ k ≠ m) as Har.
  { intros b B'. rewrite Ea. intros [[<- <-]|[Hb HB]]%lookup_insert_Some.
    - exists A. split_and!; [done..|]. intros k. cbn. rewrite list_elem_of_filter. tauto.
    - exists B'. split_and!; [done..|]. intros k. split; [|by intros []]. intros Hk. split; [done|]. intros ->.
      destruct (mo_area s Hok b B' m HB Hk) as [q Hq]. congruence. }
  assert (∀ k q b x' B', mapping_at s' k q b x' B' → k ≠ m ∧ ∃ x B, mapping_at s k q b x B ∧ a_space B' = a_space B ∧
    virtual_page_address B' x' = virtual_page_address B x) as Hback.
  { intros k q b x' B' [H1 H2 H3]. rewrite Eo in H1. apply lookup_delete_Some in H1 as [Hk H1]. split; [done|].
    destruct (Hpg q x' H2) as (x & Hx & _ & Eoff & _). destruct (Har b B' H3) as (B & HB & Esp & _ & _ & Ev & _).
    exists x, B. split_and!; [done..|]. rewrite Ev. unfold virtual_page_address. by rewrite Eoff. }
  split.
  - done.
  - eapply (caches_ok_touch (mvm s)); [apply Hok|done..].
  - rewrite Ep, map_size_insert_Some by eauto. apply Hok.
  - intros q x' Hx'. destruct (Hpg q x' Hx') as (x & Hx & _ & _ & -> & _). unfold pfn_to_page. rewrite Es. by apply (mo_segments s Hok).
  - rewrite Ep, (msum_update _ _ p pg) by done. rewrite Ecnt, <- (mo_count s Hok). unfold mapped01 at 1. rewrite Hmap.
    unfold mapped01. destruct (IsMapped pg'); [lia|]. pose proof (mo_count s Hok) as Hc.
    assert (1 <= msum mapped01 (pages (mvm s)) <= Z.of_nat (size (pages (mvm s)))) as Hb.
    { split.
      - assert (1 = mapped01 pg) as -> by (unfold mapped01; by rewrite Hmap). apply msum_elem with p; [|done].
        intros ? x _. unfold mapped01. by destruct (IsMapped x).
      - apply msum_mapped_le. }
    pose proof (mo_small s Hok). rewrite i32_small by lia. lia.
  - intros k q b. rewrite Eo. intros [Hk Hkq]%lookup_delete_Some. destruct (mo_object s Hok k q b Hkq) as (x & B & Hxb & I1 & I2 & I3 & I4 & I5 & (e & He & Hphys)).
    pose proof (ma_page _ _ _ _ _ _ Hxb) as Hx. pose proof (ma_area _ _ _ _ _ _ Hxb) as HB.
    assert (∃ x', pages (mvm s') !! q = Some x') as [x' Hx'] by (rewrite Ep; destruct (decide (p = q)) as [->|]; [rewrite lookup_insert_eq|rewrite lookup_insert_ne by done]; eauto).
    assert (∃ B', vmareas (mp s') !! b = Some B') as [B' HB'] by (rewrite Ea; destruct (decide (a = b)) as [->|]; [rewrite lookup_insert_eq|rewrite lookup_insert_ne by done]; eauto).
    destruct (Hpg q x' Hx') as (x2 & Hx2 & Ecr2 & Eoff & Epfn & Eel). rewrite Hx in Hx2. injection Hx2 as <-.
    destruct (Har b B' HB') as (B2 & HB2 & Esp & Ew & Et & Ev & Eal). rewrite HB in HB2. injection HB2 as <-.
    exists x', B'. split; [by split; [rewrite Eo, lookup_delete_ne by done|..]|]. rewrite Eel, Eal, Ew, Et, Esp, Ev. split_and!; try done.
    + destruct I5 as (c & C & H1 & H2). exists c, C. unfold page_Cache in *. by rewrite Ecr2, Ecr, Ec.
    + exists e. assert (virtual_page_address B x' = virtual_page_address B x) as Eva by (unfold virtual_page_address; by rewrite Eoff).
      rewrite Eva, Ee, decide_False; [unfold page_to_phys in *; by rewrite Epfn|]. intros [E1 E2]. apply Hk. symmetry.
      by apply (mo_apart s Hok k q b x B m p a pg A).
  - intros q x' k Hx' Hk. destruct (Hpg q x' Hx') as (x & Hx & _ & _ & _ & Eel). destruct (proj1 (Eel k) Hk) as [Hk1 Hkm].
    destruct (mo_page s Hok q x k Hx Hk1) as [b Hb]. exists b. by rewrite Eo, lookup_delete_ne.
  - intros b B' k HB' Hk. destruct (Har b B' HB') as (B & HB & _ & _ & _ & _ & Eel). destruct (proj1 (Eel k) Hk) as [Hk1 Hkm].
    destruct (mo_area s Hok b B k HB Hk1) as [q Hq]. exists q. by rewrite Eo, lookup_delete_ne.
  - intros q x'. rewrite Ep. intros [[_ <-]|[_ Hx]]%lookup_insert_Some; [rewrite F5; apply NoDup_filter|]; by eapply mo_page_nodup.
  - intros k q b x' B' k2 q2 b2 x2' B2' H1 H2 Esp Eva. destruct (Hback _ _ _ _ _ H1) as (_ & x & B & Hk & Esp1 & Ev1).
    destruct (Hback _ _ _ _ _ H2) as (_ & x2 & B2 & Hk2 & Esp2 & Ev2). apply (mo_apart s Hok k q b x B k2 q2 b2 x2 B2); [done..|congruence|congruence].
Qed.

Context {TM : VMTranslationMap}.

Lemma upd_pg_pages p f pg s : pages (mvm s) !! p = Some pg → pages (mvm (upd_pg p f s)) = <[p := f pg]> (pages (mvm s)).
Proof. intros Hp. change (alter f p (pages (mvm s)) = <[p := f pg]> (pages (mvm s))). by apply alter_insert_page. Qed.

(** The flags of the entry are noted in the page. *)
Definition note_flags (acc md : bool) p s : mstate :=
  let s := if acc then upd_pg p (fun pg => pg <| accessed := true |>) s else s in
  if md then upd_pg p (fun pg => pg <| modified := true |>) s else s.

Lemma note_flags_ok acc md p pg s : pages (mvm s) !! p = Some pg →
  pages (mvm (note_flags acc md p s)) = <[p := pg <| accessed := acc || accessed pg |> <| modified := md || modified pg |>]> (pages (mvm s)) ∧
  erase (mvm (note_flags acc md p s)) = erase (mvm s) ∧ mp (note_flags acc md p s) = mp s ∧ ∀ i, get_queue i (mvm (note_flags acc md p s)) = get_queue i (mvm s).
Proof.
  intros Hp. split.
  - unfold note_flags. assert (pg <| accessed := accessed pg |> <| modified := modified pg |> = pg) as E by (by destruct pg).
    destruct acc, md; cbn [orb].
    + erewrite upd_pg_pages; [|erewrite upd_pg_pages by done; apply lookup_insert_eq]. erewrite upd_pg_pages by done. by rewrite insert_insert_eq.
    + erewrite upd_pg_pages by done. by destruct pg.
    + erewrite upd_pg_pages by done. by destruct pg.
    + rewrite E. by rewrite insert_id.
  - unfold note_flags. destruct acc, md; split_and!; try done; by intros [].
Qed.

Lemma phys_pfn pg : Z.shiftr (page_to_phys pg) PAGE_SHIFT = pfn pg.
Proof. apply shiftl_page. Qed.

(** What is left of a mapping once its entry is removed. *)
Lemma remove_mapping_ok s s1 m p a pg A acc md va :
  map_ok s → mapping_at s m p a pg A → va = virtual_page_address A pg → s1 = upd_entries (a_space A) (delete va) s →
  ∃ s2, remove_mapping a p (note_flags acc md p s1) = Ret (Some m, s2) ∧
    pages (mvm s2) = <[p := unmapped m acc md pg]> (pages (mvm s)) ∧ erase (mvm s2) = erase (mvm s) ∧ (∀ i, get_queue i (mvm s2) = get_queue i (mvm s)) ∧
    vmareas (mp s2) = <[a := A <| a_mappings ::= filter (.≠ m) |>]> (vmareas (mp s)) ∧ page_mappings (mp s2) = page_mappings (mp s) ∧
    gMappedPagesCount (mp s2) = gMappedPagesCount (mp s) ∧ sPageSegments (mp s2) = sPageSegments (mp s) ∧
    ∀ space x, entry_at space x s2 = if decide (space = a_space A ∧ x = va) then None else entry_at space x s.
Proof.
  intros Hok Hat Hva Es1. destruct (mo_object s Hok m p a (ma_object _ _ _ _ _ _ Hat)) as (pg' & A' & H1 & _ & _ & Hw & _).
  pose proof (ma_page _ _ _ _ _ _ Hat) as Hp. pose proof (ma_area _ _ _ _ _ _ Hat) as HA.
  pose proof (ma_page _ _ _ _ _ _ H1) as F. rewrite Hp in F. injection F as <-. pose proof (ma_area _ _ _ _ _ _ H1) as F. rewrite HA in F. injection F as <-.
  assert (pages (mvm s1) !! p = Some pg) as Hp1 by (by rewrite Es1). destruct (note_flags_ok acc md p pg s1 Hp1) as (E1 & E2 & E3 & E4).
  set (s2 := note_flags acc md p s1) in *. set (pg2 := pg <| accessed := _ |> <| modified := _ |>) in E1.
  assert (pages (mvm s2) !! p = Some pg2) as Hp2 by (rewrite E1; apply lookup_insert_eq).
  assert (vmareas (mp s2) !! a = Some A) as HA2 by (by rewrite E3, Es1).
  assert (first_mapping a pg2 s2 = Some m) as Hf.
  { rewrite <- (first_mapping_ok s m p a pg A Hok Hat). unfold first_mapping. rewrite E3, Es1. done. }
  unfold remove_mapping, page_of, area_of. rewrite Hp2, HA2. cbn [deref mbind outcome_bind]. rewrite Hw, Z.eqb_refl, Hf. cbn [deref mbind outcome_bind].
  eexists. split; [reflexivity|]. split_and!.
  - rewrite (upd_pg_pages p _ pg2) by done. change (pages (mvm (upd_area _ _ s2))) with (pages (mvm s2)). rewrite E1, insert_insert_eq.
    rewrite Es1. done.
  - change (erase (mvm s2) = erase (mvm s)). by rewrite E2, Es1.
  - intros i. transitivity (get_queue i (mvm s2)); [by destruct i|]. rewrite E4, Es1. done.
  - change (alter (fun A0 => A0 <| a_mappings ::= filter (.≠ m) |>) a (vmareas (mp s2)) = <[a := A <| a_mappings ::= filter (.≠ m) |>]> (vmareas (mp s))).
    rewrite E3, Es1. apply map_eq. intros b. destruct (decide (a = b)) as [<-|Hb].
    + change (vmareas (mp (upd_entries (a_space A) (delete va) s))) with (vmareas (mp s)). by rewrite lookup_alter_eq, lookup_insert_eq, HA.
    + by rewrite lookup_alter_ne, lookup_insert_ne.
  - change (page_mappings (mp s2) = page_mappings (mp s)). by rewrite E3, Es1.
  - change (gMappedPagesCount (mp s2) = gMappedPagesCount (mp s)). by rewrite E3, Es1.
  - change (sPageSegments (mp s2) = sPageSegments (mp s)). by rewrite E3, Es1.
  - intros space x. change (entry_at space x s2 = if decide (space = a_space A ∧ x = va) then None else entry_at space x s).
    unfold entry_at. rewrite E3, Es1. by apply entry_delete.
Qed.

Lemma queues_ok_pages (v v' : vmstate) p pg pg' :
  queues_ok v → pages v !! p = Some pg → pages v' = <[p := pg']> (pages v) → (∀ i, get_queue i v' = get_queue i v) → queue pg' = queue pg → queues_ok v'.
Proof.
  intros [Hsz Hq] Hp Ep Eq Eqp. split.
  - rewrite Ep, map_size_insert_Some by eauto. done.
  - intros i. destruct (Hq i) as (H1 & H2 & H3). unfold queue_ok, qelems in *. rewrite Eq. split_and!; [done..|].
    intros q. rewrite H3. rewrite Ep. split.
    + intros (x & Hx & Hqx). destruct (decide (q = p)) as [->|Hne].
      * exists pg'. rewrite lookup_insert_eq. rewrite Hp in Hx. injection Hx as <-. split; [done|congruence].
      * exists x. by rewrite lookup_insert_ne by (by apply not_eq_sym).
    + intros (x & [[<- <-]|[_ Hx]]%lookup_insert_Some & Hqx); [exists pg; split; [done|congruence]|eauto].
Qed.

Lemma unmapped_pages_ok s s2 m p a pg A acc md :
  map_ok s → mapping_at s m p a pg A → pages (mvm s2) = <[p := unmapped m acc md pg]> (pages (mvm s)) →
  (∀ i, get_queue i (mvm s2) = get_queue i (mvm s)) → pages_ok (mvm s2).
Proof.
  intros Hok Hat Ep Eq. pose proof (ma_page _ _ _ _ _ _ Hat) as Hp. pose proof (mo_pages s Hok) as [Hqs Hall]. split.
  - by eapply (queues_ok_pages (mvm s)).
  - intros q x. rewrite Ep. intros [[_ <-]|[_ Hx]]%lookup_insert_Some; [|by apply (Hall q)]. destruct (Hall p pg Hp) as [H1 H2]. split; [exact H1|].
    intros Hf. by destruct (proj2 (mapped_not_free _ _ _ _ _ _ Hok Hat)).
Qed.

Lemma erase_fields (v v' : vmstate) : erase v' = erase v → caches v' = caches v ∧ cacherefs v' = cacherefs v.
Proof. intros E. split; [by apply (f_equal caches) in E|by apply (f_equal cacherefs) in E]. Qed.

Lemma UnmapPage_ok s m p a pg A e u :
  map_ok s → mapping_at s m p a pg A → entry_at (a_space A) (virtual_page_address A pg) s = Some e →
  ∃ s', UnmapPage a (virtual_page_address A pg) u s = Ret (Ok, s') ∧ unmap_step s m p a pg A (t_accessed e) (t_modified e) s'.
Proof.
  intros Hok Hat He. destruct (mo_object s Hok m p a (ma_object _ _ _ _ _ _ Hat)) as (pg' & A' & H1 & _ & _ & _ & Hct & Hcc & (e' & He' & Hphys)).
  pose proof (ma_page _ _ _ _ _ _ Hat) as Hp. pose proof (ma_area _ _ _ _ _ _ Hat) as HA.
  pose proof (ma_page _ _ _ _ _ _ H1) as F. rewrite Hp in F. injection F as <-. pose proof (ma_area _ _ _ _ _ _ H1) as F. rewrite HA in F. injection F as <-.
  rewrite He in He'. injection He' as <-. rewrite (UnmapPage_entry a A) by done. rewrite He.
  set (va := virtual_page_address A pg). set (s1 := upd_entries (a_space A) (delete va) s).
  destruct (remove_mapping_ok s s1 m p a pg A (t_accessed e) (t_modified e) va Hok Hat eq_refl eq_refl)
    as (s2 & R1 & R2 & R3 & R4 & R5 & R6 & R7 & R8 & R9).
  unfold PageUnmapped, area_of. change (vmareas (mp s1)) with (vmareas (mp s)). rewrite HA. cbn [deref mbind outcome_bind].
  rewrite (proj2 (Z.leb_gt _ _) Hct), Hphys, phys_pfn. change (pfn_to_page (pfn pg) s1) with (pfn_to_page (pfn pg) s).
  rewrite (mo_segments s Hok p pg Hp). cbn [deref mbind outcome_bind]. change (remove_mapping a p (if t_modified e then _ else _)) with
    (remove_mapping a p (note_flags (t_accessed e) (t_modified e) p s1)). rewrite R1. cbn [mbind outcome_bind].
  set (pg3 := unmapped m (t_accessed e) (t_modified e) pg) in *.
  assert (pages (mvm s2) !! p = Some pg3) as Hp3 by (rewrite R2; apply lookup_insert_eq). unfold page_of. rewrite Hp3. cbn [deref mbind outcome_bind].
  pose proof (unmapped_pages_ok s s2 m p a pg A _ _ Hok Hat R2 R4) as Hpo2. destruct (erase_fields _ _ R3) as [Ec Ecr].
  assert (¬ is_free pg3) as Hnf by exact (proj2 (mapped_not_free _ _ _ _ _ _ Hok Hat)).
  assert (∀ s3 pg4, pages_ok (mvm s3) → pages (mvm s3) = <[p := pg4]> (pages (mvm s)) → no_queue pg4 = no_queue pg3 →
    caches (mvm s3) = caches (mvm s) → cacherefs (mvm s3) = cacherefs (mvm s) →
    mp s3 = (mp s2) <| gMappedPagesCount ::= fun n => if IsMapped pg4 then n else i32 (n - 1) |> →
    unmap_step s m p a pg A (t_accessed e) (t_modified e) (free_mapping (Some m) s3)) as Hfin.
  { intros s3 pg4 P1 P2 P3 P4 P5 P6. split; try done.
    - exists pg4. split_and!; [done..|]. cbn. rewrite P6. cbn. rewrite R7. done.
    - cbn. rewrite P6. exact R5.
    - cbn. rewrite P6. cbn. by rewrite R6.
    - intros space x. rewrite <- R9. unfold entry_at. cbn. by rewrite P6.
    - cbn. rewrite P6. exact R8. }
  destruct (IsMapped pg3) eqn:Em.
  - cbn [mbind outcome_bind]. eexists. split; [reflexivity|]. apply (Hfin s2 pg3); try done. rewrite Em. by destruct (mp s2).
  - destruct u.
    + destruct (unmapped_state p pg3 (mvm s2)) as (v' & st & S1 & S2 & S3 & S4 & S5); [done| |done|done|done| |].
      { eapply (caches_ok_touch (mvm s)); [apply Hok|done..]. }
      { destruct Hcc as (c & C & ? & ?). exists c, C. unfold page_Cache in *. rewrite Ecr, Ec. done. }
      exists (free_mapping (Some m) ((add_mapped (-1) s2) <| mvm := v' |>)). split.
      * revert S1. change (mvm (add_mapped (-1) s2)) with (mvm s2). destruct (page_Cache (mvm s2) pg3) as [c|]; cbn [deref mbind outcome_bind]; [|done].
        destruct (caches (mvm s2) !! c) as [C|]; cbn [deref mbind outcome_bind]; [|done]. unfold with_vm. change (mvm (add_mapped (-1) s2)) with (mvm s2).
        intros ->. done.
      * apply (Hfin _ (pg3 <| state := st |> <| queue := home st |>)); try done.
        -- change (pages v' = <[p := pg3 <| state := st |> <| queue := home st |>]> (pages (mvm s))). by rewrite S3, R2, insert_insert_eq.
        -- change (caches v' = caches (mvm s)). congruence.
        -- change (cacherefs v' = cacherefs (mvm s)). congruence.
        -- assert (IsMapped (pg3 <| state := st |> <| queue := home st |>) = false) as -> by exact Em. done.
    + eexists. split; [reflexivity|]. apply (Hfin (add_mapped (-1) s2) pg3); try done. rewrite Em. done.
Qed.

(** ** Removing all mappings of a page *)

(** The page table entry of mapping [m] of page [pg]. *)
Definition entry_of pg s m : option tentry :=
  '(_, a) ← page_mappings (mp s) !! m;
  A ← vmareas (mp s) !! a;
  entry_at (a_space A) (virtual_page_address A pg) s.
Definition any_entry (f : tentry → bool) pg s (ms : list Z) : bool :=
  existsb (fun m => from_option f false (entry_of pg s m)) ms.

Lemma entry_of_step s m p a pg A acc md s' m' pg' :
  map_ok s → mapping_at s m p a pg A → unmap_step s m p a pg A acc md s' → m' ∈ mappings pg → m' ≠ m → cache_offset pg' = cache_offset pg →
  entry_of pg' s' m' = entry_of pg s m'.
Proof.
  intros Hok Hat [_ _ _ _ Ea Eo Ee _] Hin Hne Eoff. destruct (mo_page s Hok p pg m' (ma_page _ _ _ _ _ _ Hat) Hin) as [b Hb].
  destruct (mo_object s Hok m' p b Hb) as (pg2 & B & H2 & _). pose proof (ma_page _ _ _ _ _ _ H2) as F. rewrite (ma_page _ _ _ _ _ _ Hat) in F.
  injection F as <-. pose proof (ma_area _ _ _ _ _ _ H2) as HB. unfold entry_of. rewrite Eo, lookup_delete_ne, Hb by done. cbn [mbind option_bind]. rewrite Ea, HB.
  assert (∀ A0, virtual_page_address A0 pg' = virtual_page_address A0 pg) as Ev by (intros; unfold virtual_page_address; by rewrite Eoff).
  assert (¬ (a_space B = a_space A ∧ virtual_page_address B pg = virtual_page_address A pg)) as Hapart.
  { intros [E1 E2]. apply Hne. by apply (mo_apart s Hok m' p b pg B m p a pg A). }
  destruct (decide (a = b)) as [<-|Hab].
  - rewrite (ma_area _ _ _ _ _ _ Hat) in HB. injection HB as <-. by destruct Hapart.
  - rewrite lookup_insert_ne, HB by done. cbn [mbind option_bind]. by rewrite Ev, Ee, decide_False.
Qed.

Lemma filter_ne_id m (ms : list Z) : m ∉ ms → filter (.≠ m) ms = ms.
Proof.
  induction ms as [|x ms IH]; [done|]. intros [Hx Hni]%not_elem_of_cons. rewrite filter_cons_True by (by apply not_eq_sym). f_equal. by apply IH.
Qed.

Lemma filter_ne_head m (ms : list Z) : m ∉ ms → filter (.≠ m) (m :: ms) = ms.
Proof.
  intros Hni. rewrite filter_cons_False by (intros E; by apply E). by apply filter_ne_id.
Qed.

(** One round of the loop. *)
Lemma unmap_head s m ms p pg u :
  map_ok s → pages (mvm s) !! p = Some pg → mappings pg = m :: ms →
  ∃ a A s' pg' e, mapping_place m pg s = Ret (a, A, virtual_page_address A pg) ∧ entry_of pg s m = Some e ∧
    UnmapPage a (virtual_page_address A pg) u s = Ret (Ok, s') ∧ map_ok s' ∧ mapping_at s m p a pg A ∧
    unmap_step s m p a pg A (t_accessed e) (t_modified e) s' ∧
    pages (mvm s') = <[p := pg']> (pages (mvm s)) ∧ no_queue pg' = no_queue (unmapped m (t_accessed e) (t_modified e) pg) ∧ mappings pg' = ms.
Proof.
  intros Hok Hp Hms. destruct (mo_page s Hok p pg m Hp) as [a Hm]; [rewrite Hms; left|].
  destruct (mo_object s Hok m p a Hm) as (pg2 & A & Hat & _ & _ & _ & _ & _ & (e & He & _)). pose proof (ma_page _ _ _ _ _ _ Hat) as F.
  rewrite Hp in F. injection F as <-. pose proof (ma_area _ _ _ _ _ _ Hat) as HA.
  destruct (UnmapPage_ok s m p a pg A e u Hok Hat He) as (s' & H1 & Hst). pose proof (us_page _ _ _ _ _ _ _ _ _ Hst) as (pg' & Ep & Eq & _).
  exists a, A, s', pg', e. split_and!; try done.
  - unfold mapping_place, area_of. rewrite Hm. cbn [deref mbind outcome_bind]. by rewrite HA.
  - unfold entry_of. rewrite Hm. cbn [mbind option_bind]. rewrite HA. done.
  - by eapply unmap_step_ok.
  - apply no_queue_fields in Eq as (_ & _ & _ & _ & E5 & _). rewrite E5. cbn. rewrite Hms. pose proof (mo_page_nodup s Hok p pg Hp) as Hnd.
    rewrite Hms in Hnd. apply NoDup_cons in Hnd as [Hni _]. by apply filter_ne_head.
Qed.

Lemma remove_all_ok ms : ∀ s p pg,
  map_ok s → pages (mvm s) !! p = Some pg → mappings pg = ms →
  ∃ s' pg', vm_remove_all_page_mappings (length ms) p s = Ret s' ∧ map_ok s' ∧ pages (mvm s') = <[p := pg']> (pages (mvm s)) ∧
    mappings pg' = [] ∧ wired_count pg' = wired_count pg ∧ cache_ref pg' = cache_ref pg ∧ cache_offset pg' = cache_offset pg ∧
    modified pg' = modified pg || any_entry t_modified pg s ms ∧ accessed pg' = accessed pg || any_entry t_accessed pg s ms ∧
    page_mappings (mp s') = filter (fun kv => kv.1 ∉ ms) (page_mappings (mp s)) ∧ caches (mvm s') = caches (mvm s) ∧
    (∀ space va, entry_at space va s' = entry_at space va s ∨
      entry_at space va s' = None ∧ ∃ e, entry_at space va s = Some e ∧ t_phys e = page_to_phys pg) ∧
    (∀ m a A, m ∈ ms → mapping_at s m p a pg A → entry_at (a_space A) (virtual_page_address A pg) s' = None).
Proof.
  induction ms as [|m ms IH]; intros s p pg Hok Hp Hms; cbn [length vm_remove_all_page_mappings]; unfold page_of; rewrite Hp; cbn [deref mbind outcome_bind];
    rewrite Hms.
  - exists s, pg. split_and!; try done; [by rewrite insert_id|by rewrite orb_false_r|by rewrite orb_false_r| |auto|by intros ??? ?%elem_of_nil].
    apply map_eq. intros k. rewrite map_lookup_filter. destruct (page_mappings (mp s) !! k) as [[]|]; cbn; [|done].
    rewrite option_guard_True; [done|]. apply not_elem_of_nil.
  - destruct (unmap_head s m ms p pg false Hok Hp Hms) as (a & A & s1 & pg1 & e & -> & He & H1 & Hok1 & Hat & Hst & Ep1 & Eq1 & Hms1).
    cbn [mbind outcome_bind]. rewrite H1. cbn [mbind outcome_bind]. pose proof (no_queue_fields _ _ Eq1) as (F1 & F2 & F3 & F4 & _ & F6 & F7 & _).
    unfold unmapped in F1, F2, F3, F4, F6, F7. cbn in F1, F2, F3, F4, F6, F7.
    assert (pages (mvm s1) !! p = Some pg1) as Hp1 by (rewrite Ep1; apply lookup_insert_eq).
    destruct (IH s1 p pg1 Hok1 Hp1 Hms1) as (s' & pg' & I1 & I2 & I3 & I4 & I5 & I6 & I7 & I8 & I9 & I10 & I11 & I12 & I13).
    pose proof (mo_page_nodup s Hok p pg Hp) as Hnd. rewrite Hms in Hnd. apply NoDup_cons in Hnd as [Hni Hnd].
    assert (∀ f, any_entry f pg1 s1 ms = any_entry f pg s ms) as Hany.
    { intros f. unfold any_entry. assert (∀ k, k ∈ ms → entry_of pg1 s1 k = entry_of pg s k) as Hk.
      { intros k Hk. apply (entry_of_step s m p a pg A _ _ s1 k pg1 Hok Hat Hst); [rewrite Hms; by right|by intros ->|done]. }
      clear -Hk. induction ms as [|k ms IH]; [done|]. cbn. rewrite Hk by left. f_equal. apply IH. intros x Hx. apply Hk. by right. }
    exists s', pg'. split_and!; try congruence.
    + by rewrite I3, Ep1, insert_insert_eq.
    + rewrite I8, F7, Hany. cbn. rewrite He. cbn. by destruct (t_modified e), (modified pg).
    + rewrite I9, F6, Hany. cbn. rewrite He. cbn. by destruct (t_accessed e), (accessed pg).
    + rewrite I10, (us_objects _ _ _ _ _ _ _ _ _ Hst). apply map_eq. intros k. rewrite !map_lookup_filter.
      destruct (decide (k = m)) as [->|Hk].
      * rewrite lookup_delete_eq. destruct (page_mappings (mp s) !! m) as [[]|]; cbn; [|done]. rewrite option_guard_False; [done|]. intros Hn. apply Hn. left.
      * rewrite lookup_delete_ne by (by apply not_eq_sym). destruct (page_mappings (mp s) !! k) as [[]|]; cbn; [|done].
        destruct (decide (k ∈ ms)); [rewrite !option_guard_False; [done|..]|rewrite !option_guard_True; [done|..]].
        -- intros Hn. apply Hn. by right.
        -- intros Hn. by apply Hn.
        -- by rewrite not_elem_of_cons.
        -- done.
    + rewrite I11. apply Hst.
    + intros space va. destruct (I12 space va) as [E|(E & e' & E' & Ephys)]; rewrite (us_entries _ _ _ _ _ _ _ _ _ Hst) in *.
      * rewrite E. case_decide as Hd; [|by left]. right. split; [done|]. destruct Hd as [-> ->]. unfold entry_of in He.
        rewrite (ma_object _ _ _ _ _ _ Hat) in He. cbn [mbind option_bind] in He. rewrite (ma_area _ _ _ _ _ _ Hat) in He. cbn in He.
        exists e. split; [done|]. destruct (mo_object s Hok m p a (ma_object _ _ _ _ _ _ Hat)) as (pg2 & A2 & H2 & _ & _ & _ & _ & _ & (e2 & He2 & Hph)).
        pose proof (ma_page _ _ _ _ _ _ H2) as G. rewrite Hp in G. injection G as <-. pose proof (ma_area _ _ _ _ _ _ H2) as G.
        rewrite (ma_area _ _ _ _ _ _ Hat) in G. injection G as <-. congruence.
      * case_decide; [done|]. right. split; [done|]. exists e'. split; [done|]. unfold page_to_phys in *. congruence.
    + intros k b B Hk Hkb. assert (∀ B0, virtual_page_address B0 pg1 = virtual_page_address B0 pg) as Ev by (intros; unfold virtual_page_address; by rewrite F2).
      apply elem_of_cons in Hk as [->|Hk].
      * pose proof (ma_object _ _ _ _ _ _ Hkb) as G. rewrite (ma_object _ _ _ _ _ _ Hat) in G. injection G as <-.
        pose proof (ma_area _ _ _ _ _ _ Hkb) as G. rewrite (ma_area _ _ _ _ _ _ Hat) in G. injection G as <-.
        destruct (I12 (a_space A) (virtual_page_address A pg)) as [E|[E _]]; [|done].
        rewrite E, (us_entries _ _ _ _ _ _ _ _ _ Hst), decide_True by done. done.
      * assert (k ≠ m) as Hkm by (intros ->; done). assert (b ≠ a) as Hba.
        { intros ->. apply Hkm. eapply (mo_unique s k m p a Hok); [apply Hkb|apply Hat]. }
        rewrite <- Ev. apply (I13 k b B Hk). split.
        -- rewrite (us_objects _ _ _ _ _ _ _ _ _ Hst), lookup_delete_ne by (by apply not_eq_sym). apply Hkb.
        -- done.
        -- rewrite (us_areas _ _ _ _ _ _ _ _ _ Hst), lookup_insert_ne by (by apply not_eq_sym). apply Hkb.
Qed.

(** ** Mapping a page *)

(** Activating a page. *)
Lemma activate_ok p pg (v : vmstate) :
  pages_ok v → pages v !! p = Some pg → ¬ is_free pg →
  ∃ v', vm_page_set_state p PAGE_STATE_ACTIVE v = Ret v' ∧ pages_ok v' ∧
    pages v' = <[p := pg <| state := PAGE_STATE_ACTIVE |> <| queue := Some QActive |>]> (pages v) ∧ caches v' = caches v ∧ cacherefs v' = cacherefs v.
Proof.
  intros Hok Hp Hnf. destruct (set_page_state_ok p pg PAGE_STATE_ACTIVE v) as (v' & H1 & Hq & Hp' & He); [done..|by intros _ _ [?|?]|].
  exists v'. split_and!.
  - unfold vm_page_set_state. rewrite Hp. cbn [deref mbind outcome_bind].
    rewrite (bool_decide_eq_true_2 (state pg ≠ PAGE_STATE_FREE)), (bool_decide_eq_true_2 (state pg ≠ PAGE_STATE_CLEAR))
      by (intros E; apply Hnf; unfold is_free; auto). exact H1.
  - split; [done|]. intros q x. rewrite Hp'. intros [[_ <-]|[_ Hx]]%lookup_insert_Some; [|by apply (proj2 Hok q)].
    split; [done|]. intros [Hf|Hf]; done.
  - done.
  - by apply (f_equal caches) in He.
  - by apply (f_equal cacherefs) in He.
Qed.

Definition map_attributes A (protection : Z) : Z :=
  Z.lor (Z.land (a_protection A) B_KERNEL_MEMORY_TYPE_MASK) (Z.ldiff protection B_KERNEL_MEMORY_TYPE_MASK).

Record map_step s m p a pg A va (e : tentry) s' : Prop := {
  st_pages_ok : pages_ok (mvm s');
  st_page : ∃ pg', pages (mvm s') = <[p := pg']> (pages (mvm s)) ∧ no_queue pg' = no_queue (pg <| mappings ::= fun l => l ++ [m] |>);
  st_count : gMappedPagesCount (mp s') = if IsMapped pg then gMappedPagesCount (mp s) else i32 (gMappedPagesCount (mp s) + 1);
  st_caches : caches (mvm s') = caches (mvm s);
  st_cacherefs : cacherefs (mvm s') = cacherefs (mvm s);
  st_areas : ∃ A', vmareas (mp s') = <[a := A']> (vmareas (mp s)) ∧ A' = A <| a_mappings ::= fun l => l ++ [m] |> <| a_commit_base ::= Z.min va |>;
  st_objects : page_mappings (mp s') = <[m := (p, a)]> (page_mappings (mp s));
  st_entries : ∀ space x, entry_at space x s' = if decide (space = a_space A ∧ x = va) then Some e else entry_at space x s;
  st_segments : sPageSegments (mp s') = sPageSegments (mp s)
}.

Lemma entry_insert space va e space' x s :
  entry_at space' x (upd_entries space <[va := e]> s) = if decide (space' = space ∧ x = va) then Some e else entry_at space' x s.
Proof.
  rewrite entry_at_upd. destruct (decide (space' = space)) as [->|Hs]; [|by rewrite decide_False by tauto].
  destruct (decide (x = va)) as [->|Hx]; [by rewrite decide_True, lookup_insert_eq by done|].
  rewrite decide_False, lookup_insert_ne by (tauto || by apply not_eq_sym). unfold entry_at. by destruct (translation (mp s) !! space).
Qed.

Lemma map_page_step s m p a pg A va protection :
  map_ok s → pages (mvm s) !! p = Some pg → vmareas (mp s) !! a = Some A → a_wiring A = B_NO_LOCK → ¬ is_free pg →
  ∃ s', map_page a p va protection (Some m) s = Ret (Ok, s') ∧
    map_step s m p a pg A va (mkEntry (page_to_phys pg) (map_attributes A protection) false false) s'.
Proof.
  intros Hok Hp HA Hw Hnf. unfold map_page, area_of, page_of. rewrite HA, Hp. cbn [deref mbind outcome_bind]. rewrite Hw, Z.eqb_refl. cbn [mbind outcome_bind].
  rewrite Map_entry. set (s0 := s <| mp ::= _ |>). set (e := mkEntry _ _ _ _). set (s1 := upd_entries (a_space A) <[va := e]> s0).
  set (s2 := if IsMapped pg then s1 else add_mapped 1 s1). set (s3 := upd_area a _ (upd_pg p _ s2)).
  assert (mvm s2 = mvm s) as Ev by (unfold s2; by destruct (IsMapped pg)).
  assert (vmareas (mp s2) = vmareas (mp s) ∧ page_mappings (mp s2) = <[m := (p, a)]> (page_mappings (mp s)) ∧ sPageSegments (mp s2) = sPageSegments (mp s) ∧
    (∀ space x, entry_at space x s2 = entry_at space x s1) ∧
    gMappedPagesCount (mp s2) = if IsMapped pg then gMappedPagesCount (mp s) else i32 (gMappedPagesCount (mp s) + 1)) as (Ea & Eo & Esg & Een & Ecn)
    by (unfold s2; by destruct (IsMapped pg)).
  set (pg3 := pg <| mappings ::= fun l => l ++ [m] |>). assert (pages (mvm s3) = <[p := pg3]> (pages (mvm s))) as Ep3.
  { change (pages (mvm s3)) with (pages (mvm (upd_pg p (fun pg => pg <| mappings ::= fun l => l ++ [m] |>) s2))).
    rewrite (upd_pg_pages p _ pg) by (by rewrite Ev). by rewrite Ev. }
  assert (pages_ok (mvm s3)) as Hpo3.
  { split.
    - eapply (queues_ok_pages (mvm s) _ p pg pg3); [apply Hok|done|done| |done]. intros i. rewrite <- Ev. by destruct i.
    - intros q x. rewrite Ep3. intros [[_ <-]|[_ Hx]]%lookup_insert_Some; [|by apply (proj2 (mo_pages s Hok) q)].
      destruct (proj2 (mo_pages s Hok) p pg Hp) as [G1 _]. split; [exact G1|]. intros Hf. by destruct Hnf. }
  assert (caches (mvm s3) = caches (mvm s) ∧ cacherefs (mvm s3) = cacherefs (mvm s)) as [Ec Ecr].
  { change (caches (mvm s3)) with (caches (mvm s2)). change (cacherefs (mvm s3)) with (cacherefs (mvm s2)). by rewrite Ev. }
  assert (∃ s4 pg4, (if negb (IsMapped pg) && (bool_decide (state pg = PAGE_STATE_CACHED) || bool_decide (state pg = PAGE_STATE_INACTIVE))
      then with_vm (vm_page_set_state p PAGE_STATE_ACTIVE) s3 else Ret s3) = Ret s4 ∧ pages_ok (mvm s4) ∧ pages (mvm s4) = <[p := pg4]> (pages (mvm s)) ∧
      no_queue pg4 = no_queue pg3 ∧ caches (mvm s4) = caches (mvm s) ∧ cacherefs (mvm s4) = cacherefs (mvm s) ∧ mp s4 = mp s3)
    as (s4 & pg4 & H4 & Q1 & Q2 & Q3 & Q4 & Q5 & Q6).
  { destruct (negb (IsMapped pg) && _); [|exists s3, pg3; split_and!; done].
    destruct (activate_ok p pg3 (mvm s3) Hpo3) as (v' & W1 & W2 & W3 & W4 & W5); [rewrite Ep3; apply lookup_insert_eq|done|].
    exists (s3 <| mvm := v' |>), (pg3 <| state := PAGE_STATE_ACTIVE |> <| queue := Some QActive |>). split_and!; try done.
    - unfold with_vm. by rewrite W1.
    - change (pages v' = <[p := pg3 <| state := PAGE_STATE_ACTIVE |> <| queue := Some QActive |>]> (pages (mvm s))). by rewrite W3, Ep3, insert_insert_eq.
    - change (caches v' = caches (mvm s)). congruence.
    - change (cacherefs v' = cacherefs (mvm s)). congruence. }
  rewrite H4. cbn [mbind outcome_bind]. eexists. split; [reflexivity|]. split; try done.
  - exists pg4. done.
  - change (gMappedPagesCount (mp s4) = if IsMapped pg then gMappedPagesCount (mp s) else i32 (gMappedPagesCount (mp s) + 1)). rewrite Q6. exact Ecn.
  - eexists. split; [|reflexivity]. set (f := fun A0 : VMArea => A0 <| a_commit_base ::= Z.min va |>).
    change (alter f a (vmareas (mp s4)) = <[a := f (A <| a_mappings ::= fun l => l ++ [m] |>)]> (vmareas (mp s))). rewrite Q6.
    change (vmareas (mp s3)) with (alter (fun A0 : VMArea => A0 <| a_mappings ::= fun l => l ++ [m] |>) a (vmareas (mp s2))). rewrite Ea.
    apply map_eq. intros b. destruct (decide (a = b)) as [<-|Hb]; [by rewrite !lookup_alter_eq, HA, lookup_insert_eq|].
    by rewrite !lookup_alter_ne, lookup_insert_ne.
  - change (page_mappings (mp s4) = <[m := (p, a)]> (page_mappings (mp s))). by rewrite Q6.
  - intros space x. transitivity (entry_at space x s3); [unfold entry_at; by rewrite <- Q6|]. transitivity (entry_at space x s2); [done|].
    rewrite Een. unfold s1. by rewrite entry_insert.
  - change (sPageSegments (mp s4) = sPageSegments (mp s)). by rewrite Q6.
Qed.

(** What the caller of [map_page] has to see to. *)
Record can_map s p a pg A : Prop := {
  cm_page : pages (mvm s) !! p = Some pg;
  cm_area : vmareas (mp s) !! a = Some A;
  cm_wiring : a_wiring A = B_NO_LOCK;
  cm_type : cache_type_code (a_cache_type A) < cache_type_code CACHE_TYPE_DEVICE;
  cm_cached : ∃ c C, page_Cache (mvm s) pg = Some c ∧ caches (mvm s) !! c = Some C;
  cm_unmapped : entry_at (a_space A) (virtual_page_address A pg) s = None
}.

Lemma can_map_not_free s p a pg A : map_ok s → can_map s p a pg A → ¬ is_free pg.
Proof.
  intros Hok Hc Hf. destruct (proj2 (mo_pages s Hok) p pg (cm_page _ _ _ _ _ Hc)) as [_ H]. destruct (H Hf) as (E & _).
  destruct (cm_cached _ _ _ _ _ Hc) as (c & C & Hpc & _). unfold page_Cache in Hpc. by rewrite E in Hpc.
Qed.

Lemma map_step_ok s m p a pg A e s' :
  map_ok s → can_map s p a pg A → page_mappings (mp s) !! m = None → t_phys e = page_to_phys pg →
  map_step s m p a pg A (virtual_page_address A pg) e s' → map_ok s'.
Proof.
  intros Hok Hcan Hfresh Hphys [Hpo (pg' & Ep & Eq) Ecnt Ec Ecr (A' & Ea & EA') Eo Ee Es].
  pose proof (no_queue_fields _ _ Eq) as (F1 & F2 & F3 & F4 & F5 & _ & _ & F8). cbn in F1, F2, F3, F4, F5.
  pose proof (cm_page _ _ _ _ _ Hcan) as Hp. pose proof (cm_area _ _ _ _ _ Hcan) as HA.
  assert (∀ b B', vmareas (mp s') !! b = Some B' → ∃ B, vmareas (mp s) !! b = Some B ∧ a_space B' = a_space B ∧ a_wiring B' = a_wiring B ∧
    a_cache_type B' = a_cache_type B ∧ (∀ x, virtual_page_address B' x = virtual_page_address B x) ∧ ∀ k, k ∈ a_mappings B' ↔ k ∈ a_mappings B ∨ b = a ∧ k = m) as Har.
  { intros b B'. rewrite Ea. intros [[<- <-]|[Hb HB]]%lookup_insert_Some.
    - exists A. rewrite EA'. split_and!; [done..|]. intros k. unfold update. cbn. rewrite elem_of_app, list_elem_of_singleton. tauto.
    - exists B'. split_and!; [done..|]. intros k. split; [auto|]. intros [?|[-> _]]; done. }
  assert (∀ q x', pages (mvm s') !! q = Some x' → ∃ x, pages (mvm s) !! q = Some x ∧ cache_ref x' = cache_ref x ∧ cache_offset x' = cache_offset x ∧
    pfn x' = pfn x ∧ (∀ k, k ∈ mappings x' ↔ k ∈ mappings x ∨ q = p ∧ k = m)) as Hpg.
  { intros q x'. rewrite Ep. intros [[<- <-]|[Hq Hx]]%lookup_insert_Some.
    - exists pg. split_and!; [done..|]. intros k. rewrite F5, elem_of_app, list_elem_of_singleton. tauto.
    - exists x'. split_and!; [done..|]. intros k. split; [auto|]. intros [?|[-> _]]; done. }
  assert (∃ pg2, pages (mvm s') !! p = Some pg2) as [pg2 Hp2] by (rewrite Ep, lookup_insert_eq; eauto).
  assert (∃ A2, vmareas (mp s') !! a = Some A2) as [A2 HA2] by (rewrite Ea, lookup_insert_eq; eauto).
  assert (∀ k q b x B, mapping_at s k q b x B → ∃ f, entry_at (a_space B) (virtual_page_address B x) s = Some f ∧
    ¬ (a_space B = a_space A ∧ virtual_page_address B x = virtual_page_address A pg)) as Hocc.
  { intros k q b x B Hk. destruct (mo_object s Hok k q b (ma_object _ _ _ _ _ _ Hk)) as (x2 & B2 & H2 & _ & _ & _ & _ & _ & (f & Hf & _)).
    pose proof (ma_page _ _ _ _ _ _ H2) as G. rewrite (ma_page _ _ _ _ _ _ Hk) in G. injection G as <-. pose proof (ma_area _ _ _ _ _ _ H2) as G.
    rewrite (ma_area _ _ _ _ _ _ Hk) in G. injection G as <-. exists f. split; [done|]. intros [E1 E2]. rewrite E1, E2, (cm_unmapped _ _ _ _ _ Hcan) in Hf. done. }
  assert (∀ k q b x' B', mapping_at s' k q b x' B' → ∃ x B, pages (mvm s) !! q = Some x ∧ vmareas (mp s) !! b = Some B ∧ a_space B' = a_space B ∧
    virtual_page_address B' x' = virtual_page_address B x ∧ (k = m ∧ q = p ∧ b = a ∨ k ≠ m ∧ mapping_at s k q b x B)) as Hback.
  { intros k q b x' B' [H1 H2 H3]. destruct (Hpg q x' H2) as (x & Hx & _ & Eoff & _). destruct (Har b B' H3) as (B & HB & Esp & _ & _ & Ev & _).
    exists x, B. split_and!; [done..|rewrite Ev; unfold virtual_page_address; by rewrite Eoff|]. rewrite Eo in H1.
    apply lookup_insert_Some in H1 as [[<- [= <- <-]]|[Hk H1]]; [by left|right; split; [by apply not_eq_sym|done]]. }
  split.
  - done.
  - eapply (caches_ok_touch (mvm s)); [apply Hok|done..].
  - rewrite Ep, map_size_insert_Some by eauto. apply Hok.
  - intros q x' Hx'. destruct (Hpg q x' Hx') as (x & Hx & _ & _ & -> & _). unfold pfn_to_page. rewrite Es. by apply (mo_segments s Hok).
  - rewrite Ep, (msum_update _ _ p pg) by done. rewrite Ecnt. pose proof (msum_mapped_le (pages (mvm s))). pose proof (mo_small s Hok).
    assert (mapped01 pg' = 1) as ->.
    { unfold mapped01. rewrite F8. unfold IsMapped. cbn. rewrite bool_decide_eq_false_2 by (by destruct (mappings pg)). by rewrite orb_true_r. }
    rewrite (mo_count s Hok). assert (mapped01 pg = if IsMapped pg then 1 else 0) as Em by done. destruct (IsMapped pg); [lia|].
    assert (0 <= msum mapped01 (pages (mvm s))) by (apply msum_nonneg; intros ? x _; unfold mapped01; by destruct (IsMapped x)).
    rewrite i32_small by (split; [lia|]; pose proof (msum_mapped_lt (pages (mvm s)) p pg Hp); lia). lia.
  - intros k q b. rewrite Eo. intros [[<- [= <- <-]]|[Hk Hkq]]%lookup_insert_Some.
    + exists pg2, A2. destruct (Hpg p pg2 Hp2) as (x & Hx & Ecr2 & Eoff & Epfn & Eel). rewrite Hp in Hx. injection Hx as <-.
      destruct (Har a A2 HA2) as (B2 & HB2 & Esp & Ew & Et & Ev & Eal). rewrite HA in HB2. injection HB2 as <-.
      split; [by split; [rewrite Eo, lookup_insert_eq|..]|]. rewrite Eel, Eal, Ew, Et, Esp, Ev. split_and!; [auto|auto|apply Hcan|apply Hcan| |].
      * destruct (cm_cached _ _ _ _ _ Hcan) as (c & C & G1 & G2). exists c, C. unfold page_Cache in *. by rewrite Ecr2, Ecr, Ec.
      * exists e. assert (virtual_page_address A pg2 = virtual_page_address A pg) as -> by (unfold virtual_page_address; by rewrite Eoff).
        rewrite Ee, decide_True by done. unfold page_to_phys in *. by rewrite Epfn.
    + destruct (mo_object s Hok k q b Hkq) as (x & B & Hxb & I1 & I2 & I3 & I4 & I5 & (f & Hf & Hph)).
      pose proof (ma_page _ _ _ _ _ _ Hxb) as Hx. pose proof (ma_area _ _ _ _ _ _ Hxb) as HB.
      assert (∃ x', pages (mvm s') !! q = Some x') as [x' Hx'] by (rewrite Ep; destruct (decide (p = q)) as [->|]; [rewrite lookup_insert_eq|rewrite lookup_insert_ne by done]; eauto).
      assert (∃ B', vmareas (mp s') !! b = Some B') as [B' HB'] by (rewrite Ea; destruct (decide (a = b)) as [->|]; [rewrite lookup_insert_eq|rewrite lookup_insert_ne by done]; eauto).
      destruct (Hpg q x' Hx') as (x2 & Hx2 & Ecr2 & Eoff & Epfn & Eel). rewrite Hx in Hx2. injection Hx2 as <-.
      destruct (Har b B' HB') as (B2 & HB2 & Esp & Ew & Et & Ev & Eal). rewrite HB in HB2. injection HB2 as <-.
      exists x', B'. split; [by split; [rewrite Eo, lookup_insert_ne by done|..]|]. rewrite Eel, Eal, Ew, Et, Esp, Ev. split_and!; auto.
      * destruct I5 as (c & C & G1 & G2). exists c, C. unfold page_Cache in *. by rewrite Ecr2, Ecr, Ec.
      * exists f. assert (virtual_page_address B x' = virtual_page_address B x) as -> by (unfold virtual_page_address; by rewrite Eoff).
        destruct (Hocc k q b x B Hxb) as (f2 & _ & Hno). rewrite Ee, decide_False by done. unfold page_to_phys in *. by rewrite Epfn.
  - intros q x' k Hx' Hk. destruct (Hpg q x' Hx') as (x & Hx & _ & _ & _ & Eel). destruct (proj1 (Eel k) Hk) as [Hk1|[-> ->]].
    + destruct (mo_page s Hok q x k Hx Hk1) as [b Hb]. exists b. rewrite Eo, lookup_insert_ne; [done|]. intros ->. congruence.
    + exists a. by rewrite Eo, lookup_insert_eq.
  - intros b B' k HB' Hk. destruct (Har b B' HB') as (B & HB & _ & _ & _ & _ & Eel). destruct (proj1 (Eel k) Hk) as [Hk1|[-> ->]].
    + destruct (mo_area s Hok b B k HB Hk1) as [q Hq]. exists q. rewrite Eo, lookup_insert_ne; [done|]. intros ->. congruence.
    + exists p. by rewrite Eo, lookup_insert_eq.
  - intros q x'. rewrite Ep. intros [[_ <-]|[_ Hx]]%lookup_insert_Some; [rewrite F5|by apply (mo_page_nodup s Hok q)].
    apply NoDup_app. split_and!; [by apply (mo_page_nodup s Hok p)| |apply NoDup_singleton].
    intros k Hk ->%list_elem_of_singleton. destruct (mo_page s Hok p pg m Hp Hk) as [b Hb]. congruence.
  - intros k q b x' B' k2 q2 b2 x2' B2' H1 H2 Esp Eva. destruct (Hback _ _ _ _ _ H1) as (x & B & Hx & HB & Esp1 & Ev1 & Hc1).
    destruct (Hback _ _ _ _ _ H2) as (x2 & B2 & Hx2 & HB2 & Esp2 & Ev2 & Hc2).
    destruct Hc1 as [(-> & -> & ->)|[Hk1 Hc1]], Hc2 as [(-> & -> & ->)|[Hk2 Hc2]].
    + done.
    + exfalso. destruct (Hocc _ _ _ _ _ Hc2) as (_ & _ & Hno). apply Hno. rewrite Hp in Hx. rewrite HA in HB. simplify_eq. split; congruence.
    + exfalso. destruct (Hocc _ _ _ _ _ Hc1) as (_ & _ & Hno). apply Hno. rewrite Hp in Hx2. rewrite HA in HB2. simplify_eq. split; congruence.
    + apply (mo_apart s Hok k q b x B k2 q2 b2 x2 B2); [done..|congruence|congruence].
Qed.

(** ** Protections *)

Lemma nibbles : forallb (fun e => forallb (fun q =>
    (Z.land (u8 (Z.lor (Z.land e 0xf0) q)) 0x0f =? q) && (Z.shiftr (u8 (Z.lor (Z.land e 0xf0) q)) 4 =? Z.shiftr e 4) &&
    (Z.shiftr (u8 (Z.lor (Z.land e 0x0f) (Z.shiftl q 4))) 4 =? q) && (Z.land (u8 (Z.lor (Z.land e 0x0f) (Z.shiftl q 4))) 0x0f =? Z.land e 0x0f) &&
    (u8 (Z.lor (Z.land e 0xf0) q) <? 256) && (u8 (Z.lor (Z.land e 0x0f) (Z.shiftl q 4)) <? 256) &&
    (Z.land (u8 (Z.lor q (Z.shiftl q 4))) 0x0f =? q) && (Z.shiftr (u8 (Z.lor q (Z.shiftl q 4))) 4 =? q)) (seqZ 0 16)) (seqZ 0 256) = true.
Proof. vm_compute. reflexivity. Qed.

Lemma nibble e q : 0 <= e < 256 → 0 <= q < 16 →
  let even := u8 (Z.lor (Z.land e 0xf0) q) in let odd := u8 (Z.lor (Z.land e 0x0f) (Z.shiftl q 4)) in
  Z.land even 0x0f = q ∧ Z.shiftr even 4 = Z.shiftr e 4 ∧ Z.shiftr odd 4 = q ∧ Z.land odd 0x0f = Z.land e 0x0f.
Proof.
  intros He Hq. pose proof nibbles as H. rewrite forallb_forall in H. specialize (H e). rewrite <- list_elem_of_In, elem_of_seqZ in H.
  specialize (H ltac:(lia)). rewrite forallb_forall in H. specialize (H q). rewrite <- list_elem_of_In, elem_of_seqZ in H. specialize (H ltac:(lia)).
  cbv zeta. breflect. done.
Qed.

Lemma user_protection_small protection : 0 <= Z.land protection B_USER_PROTECTION < 16.
Proof.
  assert (0 <= B_USER_PROTECTION < 16) as Hu.
  { pose proof flag_bits_range as Hr. rewrite Forall_forall in Hr. pose proof user_bits_range as (H1 & H2 & H3).
    assert (0 <= read_bit ∧ 0 <= write_bit ∧ 0 <= execute_bit) as (G1 & G2 & G3) by (split_and!; apply Hr; unfold flag_bits; set_solver).
    assert (∀ b, 0 <= b → b < 4 → b = 0 ∨ b = 1 ∨ b = 2 ∨ b = 3) as Hb by lia. unfold B_USER_PROTECTION, B_READ_AREA, B_WRITE_AREA, B_EXECUTE_AREA.
    destruct (Hb _ G1 H1) as [->|[->|[->| ->]]], (Hb _ G2 H2) as [->|[->|[->| ->]]], (Hb _ G3 H3) as [->|[->|[->| ->]]]; vm_compute; by split. }
  set (U := B_USER_PROTECTION) in *. clearbody U. assert (Z.land protection U = (Z.land protection U) mod 16) as ->; [|apply Z.mod_pos_bound; lia].
  change 16 with (2 ^ 4). rewrite <- Z.land_ones, <- Z.land_assoc by lia. f_equal. symmetry. rewrite Z.land_ones by lia. apply Z.mod_small. lia.
Qed.

(** The protection array covers the page at [address]. *)
Definition has_protection A (l : list Z) (address : Z) : Prop :=
  page_protections A = Some l ∧ Forall (fun e => 0 <= e < 256) l ∧ (Z.to_nat (page_index A address / 2) < length l)%nat.

Lemma parity_other i j : 0 <= i → 0 <= j → i ≠ j → i / 2 = j / 2 → (i mod 2 = 0 ∧ j mod 2 ≠ 0) ∨ (i mod 2 ≠ 0 ∧ j mod 2 = 0).
Proof. intros. pose proof (Z.div_mod i 2). pose proof (Z.div_mod j 2). pose proof (Z.mod_pos_bound i 2). pose proof (Z.mod_pos_bound j 2). lia. Qed.

Lemma page_index_nonneg A address : 0 <= page_index A address.
Proof. apply wrap_fits. lia. Qed.

Lemma set_protection_ok a A l address protection s :
  vmareas (mp s) !! a = Some A → has_protection A l address →
  ∃ s', set_area_page_protection a address protection s = Ret s' ∧ mvm s' = mvm s ∧
    get_area_page_protection a address s' = Ret (effective_protection A (Z.land protection B_USER_PROTECTION)) ∧
    ∀ other, page_index A other ≠ page_index A address → get_area_page_protection a other s' = get_area_page_protection a other s.
Proof.
  intros HA (Hl & Hb & Hi). destruct (lookup_lt_is_Some_2 l _ Hi) as [e He]. pose proof (user_protection_small protection) as Hq.
  unfold set_area_page_protection, area_of. rewrite HA. cbn [deref mbind outcome_bind]. cbv zeta. rewrite Hl. cbn [deref mbind outcome_bind]. rewrite He.
  cbn [deref mbind outcome_bind]. set (q := Z.land protection B_USER_PROTECTION) in *. set (i := page_index A address) in *.
  set (e' := if i mod 2 =? 0 then _ else _). set (l' := <[Z.to_nat (i / 2) := e']> l). eexists. split; [reflexivity|]. split; [done|].
  rewrite Forall_lookup in Hb. destruct (nibble e q (Hb _ _ He) Hq) as (N1 & N2 & N3 & N4).
  set (s' := upd_area a _ s). assert (vmareas (mp s') !! a = Some (A <| page_protections := Some l' |>)) as HA'.
  { change (vmareas (mp s')) with (alter (fun A0 : VMArea => A0 <| page_protections := Some l' |>) a (vmareas (mp s))). by rewrite lookup_alter_eq, HA. }
  unfold get_area_page_protection, area_of. rewrite HA', HA. cbn [deref mbind outcome_bind page_protections update]. split.
  - change (page_index (A <| page_protections := Some l' |>) address) with i. unfold l'.
    rewrite list_lookup_insert_eq by done. cbn [deref mbind outcome_bind]. unfold e'. destruct (i mod 2 =? 0); [by rewrite N1|by rewrite N3].
  - intros other Ho. change (page_index (A <| page_protections := Some l' |>) other) with (page_index A other). rewrite Hl.
    set (j := page_index A other) in *. unfold l'. pose proof (page_index_nonneg A address) as Gi. fold i in Gi. pose proof (page_index_nonneg A other) as Gj. fold j in Gj.
    destruct (decide (i / 2 = j / 2)) as [E|E].
    + rewrite <- E, list_lookup_insert_eq, He by done. cbn [deref mbind outcome_bind]. unfold e'.
      destruct (parity_other i j Gi Gj (not_eq_sym Ho) E) as [[P1 P2]|[P1 P2]].
      * rewrite P1. cbn [Z.eqb]. rewrite (proj2 (Z.eqb_neq _ _) P2), N2. done.
      * rewrite (proj2 (Z.eqb_neq _ _) P1), P2. cbn [Z.eqb]. rewrite N4. done.
    + rewrite list_lookup_insert_ne; [done|]. pose proof (Z.div_pos i 2). pose proof (Z.div_pos j 2). lia.
Qed.

(** ** Clearing the accessed flags *)

Lemma map_ok_entries s s' :
  map_ok s → mvm s' = mvm s → vmareas (mp s') = vmareas (mp s) → page_mappings (mp s') = page_mappings (mp s) →
  gMappedPagesCount (mp s') = gMappedPagesCount (mp s) → sPageSegments (mp s') = sPageSegments (mp s) →
  (∀ space va e, entry_at space va s = Some e → ∃ e', entry_at space va s' = Some e' ∧ t_phys e' = t_phys e) → map_ok s'.
Proof.
  intros Hok Ev Ea Eo Ec Es Ee.
  assert (∀ m p a pg A, mapping_at s' m p a pg A ↔ mapping_at s m p a pg A) as Hat.
  { intros. split; intros [H1 H2 H3]; split; congruence. }
  split; rewrite ?Ev, ?Ea, ?Eo, ?Ec; try apply Hok.
  - intros p pg Hp. unfold pfn_to_page. rewrite Es. by apply (mo_segments s Hok).
  - intros m p a Hm. destruct (mo_object s Hok m p a Hm) as (pg & A & H1 & I1 & I2 & I3 & I4 & I5 & (e & He & Hph)).
    exists pg, A. rewrite Hat. split_and!; try done. destruct (Ee _ _ _ He) as (e' & He' & Hph'). exists e'. split; [done|congruence].
  - intros m p a pg A m' p' a' pg' A' H1 H2. rewrite Hat in H1, H2. by apply (mo_apart s Hok m p a pg A m' p' a' pg' A').
Qed.

(** A page changes, but neither its place nor its mappings. *)
Lemma map_ok_touch s s' p pg pg' :
  map_ok s → pages (mvm s) !! p = Some pg → pages (mvm s') = <[p := pg']> (pages (mvm s)) → pages_ok (mvm s') → caches (mvm s') = caches (mvm s) →
  cacherefs (mvm s') = cacherefs (mvm s) → mp s' = mp s → cache_ref pg' = cache_ref pg → cache_offset pg' = cache_offset pg → wired_count pg' = wired_count pg →
  pfn pg' = pfn pg → mappings pg' = mappings pg → map_ok s'.
Proof.
  intros Hok Hp Ep Hpo Ec Ecr Emp E1 E2 E3 E4 E5.
  assert (∀ q x', pages (mvm s') !! q = Some x' → ∃ x, pages (mvm s) !! q = Some x ∧ cache_ref x' = cache_ref x ∧ cache_offset x' = cache_offset x ∧
    pfn x' = pfn x ∧ mappings x' = mappings x) as Hpg.
  { intros q x'. rewrite Ep. intros [[<- <-]|[_ Hx]]%lookup_insert_Some; eauto 10. }
  assert (∀ m q a x' A, mapping_at s' m q a x' A → ∃ x, mapping_at s m q a x A ∧ cache_offset x' = cache_offset x) as Hback.
  { intros m q a x' A [H1 H2 H3]. rewrite Emp in H1, H3. destruct (Hpg q x' H2) as (x & Hx & _ & Eo & _). exists x. split; [by split|done]. }
  split.
  - done.
  - by eapply (caches_ok_touch (mvm s) _ p pg pg'); [apply Hok|..].
  - rewrite Ep, map_size_insert_Some by eauto. apply Hok.
  - intros q x' Hx'. destruct (Hpg q x' Hx') as (x & Hx & _ & _ & -> & _). unfold pfn_to_page. rewrite Emp. by apply (mo_segments s Hok).
  - rewrite Ep, (msum_update _ _ p pg) by done. assert (mapped01 pg' = mapped01 pg) as -> by (unfold mapped01, IsMapped; by rewrite E3, E5).
    rewrite Emp, (mo_count s Hok). lia.
  - intros m q a. rewrite Emp. intros Hm. destruct (mo_object s Hok m q a Hm) as (x & A & H1 & I1 & I2 & I3 & I4 & (c & C & I5 & I6) & (e & He & Hph)).
    assert (∃ x', pages (mvm s') !! q = Some x') as [x' Hx'].
    { rewrite Ep. destruct (decide (p = q)) as [->|]; [rewrite lookup_insert_eq|rewrite lookup_insert_ne by done]; [eauto|exists x; apply H1]. }
    destruct (Hpg q x' Hx') as (x2 & Hx2 & Ecr2 & Eo & Epf & Em). pose proof (ma_page _ _ _ _ _ _ H1) as G. rewrite Hx2 in G. injection G as ->.
    exists x', A. split; [by split; [rewrite Emp; apply H1|done|rewrite Emp; apply H1]|]. rewrite Em. split_and!; try done.
    + exists c, C. unfold page_Cache in *. by rewrite Ecr2, Ecr, Ec.
    + exists e. unfold virtual_page_address, page_to_phys, entry_at in *. by rewrite Eo, Epf, Emp.
  - intros q x' m Hx' Hm. destruct (Hpg q x' Hx') as (x & Hx & _ & _ & _ & Em). rewrite Em in Hm. rewrite Emp. by apply (mo_page s Hok q x).
  - rewrite Emp. apply (mo_area s Hok).
  - intros q x' Hx'. destruct (Hpg q x' Hx') as (x & Hx & _ & _ & _ & ->). by apply (mo_page_nodup s Hok q).
  - intros m q a x' A m' q' a' y' A' H1 H2 Esp Eva. destruct (Hback _ _ _ _ _ H1) as (x & K1 & Eo1). destruct (Hback _ _ _ _ _ H2) as (y & K2 & Eo2).
    apply (mo_apart s Hok m q a x A m' q' a' y A' K1 K2 Esp). unfold virtual_page_address in *. by rewrite <- Eo1, <- Eo2.
Qed.

Definition no_flags pg : page := pg <| accessed := false |> <| modified := false |>.

Lemma map_ok_flags p pg f s :
  map_ok s → pages (mvm s) !! p = Some pg → no_flags (f pg) = no_flags pg → map_ok (upd_pg p f s).
Proof.
  intros Hok Hp Ef. pose proof (upd_pg_pages p f pg s Hp) as Ep.
  assert (cache_ref (f pg) = cache_ref pg ∧ cache_offset (f pg) = cache_offset pg ∧ wired_count (f pg) = wired_count pg ∧ pfn (f pg) = pfn pg ∧
    mappings (f pg) = mappings pg ∧ queue (f pg) = queue pg ∧ state (f pg) = state pg) as (E1 & E2 & E3 & E4 & E5 & E6 & E7).
  { split_and!; [by apply (f_equal cache_ref) in Ef|by apply (f_equal cache_offset) in Ef|by apply (f_equal wired_count) in Ef|by apply (f_equal pfn) in Ef|
      by apply (f_equal mappings) in Ef|by apply (f_equal queue) in Ef|by apply (f_equal state) in Ef]. }
  apply (map_ok_touch s _ p pg (f pg)); try done. split.
  - eapply (queues_ok_pages (mvm s) _ p pg (f pg)); [apply Hok|done..| |done]. by intros [].
  - intros q x. rewrite Ep. intros [[_ <-]|[_ Hx]]%lookup_insert_Some; [|by apply (proj2 (mo_pages s Hok) q)].
    pose proof (proj2 (mo_pages s Hok) p pg Hp) as H. unfold page_ok, is_free in *. by rewrite E1, E3, E5, E6, E7.
Qed.

Definition clear_entry (e : tentry) : tentry := e <| t_accessed := false |> <| t_modified := false |>.

Lemma entry_of_at s m p a pg A : mapping_at s m p a pg A → entry_of pg s m = entry_at (a_space A) (virtual_page_address A pg) s.
Proof.
  intros Hat. unfold entry_of. rewrite (ma_object _ _ _ _ _ _ Hat). cbn [mbind option_bind]. by rewrite (ma_area _ _ _ _ _ _ Hat).
Qed.

Lemma mapping_of s p pg m : map_ok s → pages (mvm s) !! p = Some pg → m ∈ mappings pg →
  ∃ a A e, mapping_at s m p a pg A ∧ mapping_place m pg s = Ret (a, A, virtual_page_address A pg) ∧
    entry_at (a_space A) (virtual_page_address A pg) s = Some e ∧ entry_of pg s m = Some e.
Proof.
  intros Hok Hp Hm. destruct (mo_page s Hok p pg m Hp Hm) as [a Ha]. destruct (mo_object s Hok m p a Ha) as (pg2 & A & Hat & _ & _ & _ & _ & _ & (e & He & _)).
  pose proof (ma_page _ _ _ _ _ _ Hat) as F. rewrite Hp in F. injection F as <-. exists a, A, e. rewrite (entry_of_at _ _ _ _ _ _ Hat). split_and!; try done.
  unfold mapping_place, area_of. rewrite Ha. cbn [deref mbind outcome_bind]. by rewrite (ma_area _ _ _ _ _ _ Hat).
Qed.

Lemma clear_entry_ok s m p a pg A e :
  map_ok s → mapping_at s m p a pg A → entry_at (a_space A) (virtual_page_address A pg) s = Some e →
  let s1 := upd_entries (a_space A) <[virtual_page_address A pg := clear_entry e]> s in
  map_ok s1 ∧ ∀ m', m' ∈ mappings pg → entry_of pg s1 m' = if decide (m' = m) then Some (clear_entry e) else entry_of pg s m'.
Proof.
  intros Hok Hat He s1. split.
  - apply (map_ok_entries s); try done. intros space va f Hf. unfold s1. rewrite entry_insert. case_decide as E; [|eauto].
    destruct E as [-> ->]. exists (clear_entry e). split; [done|]. rewrite He in Hf. by injection Hf as <-.
  - intros m' Hm'. destruct (mapping_of s p pg m' Hok (ma_page _ _ _ _ _ _ Hat) Hm') as (b & B & f & Hb & _ & Hf & Hf').
    assert (mapping_at s1 m' p b pg B) as Hb1 by (split; apply Hb). rewrite (entry_of_at _ _ _ _ _ _ Hb1), (entry_of_at _ _ _ _ _ _ Hb). unfold s1.
    rewrite entry_insert. destruct (decide (m' = m)) as [->|Hne].
    + pose proof (ma_object _ _ _ _ _ _ Hb) as G. rewrite (ma_object _ _ _ _ _ _ Hat) in G. injection G as <-.
      pose proof (ma_area _ _ _ _ _ _ Hb) as G. rewrite (ma_area _ _ _ _ _ _ Hat) in G. injection G as <-. by rewrite decide_True.
    + rewrite decide_False; [done|]. intros [E1 E2]. apply Hne. by apply (mo_apart s Hok m' p b pg B m p a pg A).
Qed.

Lemma any_entry_ext f pg pg' s s' (ms : list Z) : (∀ m, m ∈ ms → entry_of pg' s' m = entry_of pg s m) → any_entry f pg' s' ms = any_entry f pg s ms.
Proof. intros H. unfold any_entry. induction ms as [|m ms IH]; [done|]. cbn. rewrite H by left. f_equal. apply IH. intros k Hk. apply H. by right. Qed.

Lemma entry_of_pg pg pg' s m : cache_offset pg' = cache_offset pg → entry_of pg' s m = entry_of pg s m.
Proof. intros E. unfold entry_of, virtual_page_address. by rewrite E. Qed.

Lemma clear_accessed_ok ms : ∀ s p pg count,
  map_ok s → pages (mvm s) !! p = Some pg → (∀ m, m ∈ ms → m ∈ mappings pg) → NoDup ms →
  ∃ n s', clear_accessed ms p count s = Ret (count + n, s') ∧ map_ok s' ∧
    pages (mvm s') = <[p := pg <| modified := modified pg || any_entry t_modified pg s ms |>]> (pages (mvm s)) ∧
    0 <= n ∧ (n = 0 ↔ any_entry t_accessed pg s ms = false) ∧ ∀ space va, entry_at space va s = None → entry_at space va s' = None.
Proof.
  induction ms as [|m ms IH]; intros s p pg count Hok Hp Hin Hnd; cbn [clear_accessed].
  - exists 0, s. rewrite Z.add_0_r. split_and!; try done. rewrite insert_id; [done|]. rewrite Hp. f_equal. unfold any_entry. cbn. rewrite orb_false_r. by destruct pg.
  - apply NoDup_cons in Hnd as [Hni Hnd]. destruct (mapping_of s p pg m Hok Hp (Hin m ltac:(left))) as (a & A & e & Hat & Hpl & He & He').
    unfold page_of. rewrite Hp. cbn [deref mbind outcome_bind]. rewrite Hpl. cbn [mbind outcome_bind].
    rewrite (ClearAccessedAndModified_entry a A) by apply Hat. rewrite He. cbn [andb mbind outcome_bind].
    destruct (clear_entry_ok s m p a pg A e Hok Hat He) as [Hok1 Hent]. set (s1 := upd_entries _ _ s) in *.
    set (f := fun pg => pg <| modified ::= fun x => x || t_modified e |>). assert (pages (mvm s1) !! p = Some pg) as Hp1 by exact Hp.
    pose proof (map_ok_flags p pg f s1 Hok1 Hp1 eq_refl) as Hok2. pose proof (upd_pg_pages p f pg s1 Hp1) as Ep2.
    set (s2 := upd_pg p f s1) in *. assert (pages (mvm s2) !! p = Some (f pg)) as Hp2 by (rewrite Ep2; apply lookup_insert_eq).
    destruct (IH s2 p (f pg) (if t_accessed e then count + 1 else count) Hok2 Hp2) as (n & s' & I1 & I2 & I3 & I4 & I5 & I6); [intros k Hk; apply Hin; by right|done|].
    assert (∀ g, any_entry g (f pg) s2 ms = any_entry g pg s ms) as Hany.
    { intros g. apply any_entry_ext. intros k Hk. rewrite (entry_of_pg pg (f pg)) by done. change (entry_of pg s2 k) with (entry_of pg s1 k).
      rewrite Hent by (apply Hin; by right). by rewrite decide_False by (intros ->; done). }
    rewrite Hany in I3, I5. exists (if t_accessed e then n + 1 else n), s'. split_and!; [|done| | | |].
    + rewrite I1. destruct (t_accessed e); do 2 f_equal; lia.
    + rewrite I3, Ep2, insert_insert_eq. change (pages (mvm s1)) with (pages (mvm s)). f_equal. unfold any_entry. cbn [existsb]. rewrite He'. cbn [from_option].
      unfold f, update. cbn. by rewrite orb_assoc.
    + destruct (t_accessed e); lia.
    + unfold any_entry in *. cbn [existsb]. rewrite He'. cbn [from_option]. destruct (t_accessed e); cbn [orb]; [split; [lia|done]|done].
    + intros space va Hn. apply I6. change (entry_at space va s1 = None). unfold s1. rewrite entry_insert, decide_False; [done|]. intros [-> ->]. congruence.
Qed.

Lemma clear_page_accessed_ok s p pg :
  map_ok s → pages (mvm s) !! p = Some pg →
  ∃ n s', vm_clear_page_mapping_accessed_flags p s = Ret (n, s') ∧ map_ok s' ∧
    pages (mvm s') = <[p := pg <| modified := modified pg || any_entry t_modified pg s (mappings pg) |> <| accessed := false |>]> (pages (mvm s)) ∧
    0 <= n ∧ (n = 0 ↔ accessed pg = false ∧ any_entry t_accessed pg s (mappings pg) = false) ∧
    ∀ space va, entry_at space va s = None → entry_at space va s' = None.
Proof.
  intros Hok Hp. unfold vm_clear_page_mapping_accessed_flags, page_of. rewrite Hp. cbn [deref mbind outcome_bind].
  destruct (clear_accessed_ok (mappings pg) s p pg 0 Hok Hp (fun _ H => H) (mo_page_nodup s Hok p pg Hp)) as (n & s1 & -> & Hok1 & Ep & Hn & Hz & Hno).
  cbn [mbind outcome_bind]. set (pg1 := pg <| modified := _ |>) in Ep. assert (pages (mvm s1) !! p = Some pg1) as Hp1 by (rewrite Ep; apply lookup_insert_eq).
  rewrite Hp1. cbn [deref mbind outcome_bind]. change (accessed pg1) with (accessed pg). destruct (accessed pg) eqn:Eacc.
  - exists (0 + n + 1), (upd_pg p (fun pg => pg <| accessed := false |>) s1). split_and!; [done| | |lia|split; [lia|by intros []]|done].
    + by apply (map_ok_flags p pg1).
    + rewrite (upd_pg_pages p _ pg1) by done. by rewrite Ep, insert_insert_eq.
  - exists (0 + n), s1. split_and!; [done|done| |lia| |done].
    + rewrite Ep. f_equal. unfold pg1. destruct pg. cbn in *. by subst.
    + rewrite Z.add_0_l, Hz. tauto.
Qed.

(** ** Removing the mappings of an unaccessed page *)

Lemma unmap_unaccessed_ok s m p a pg A e :
  map_ok s → mapping_at s m p a pg A → entry_at (a_space A) (virtual_page_address A pg) s = Some e → t_accessed e = false →
  ∃ s', ClearAccessedAndModified a (virtual_page_address A pg) true s = Ret (false, t_modified e, s') ∧ unmap_step s m p a pg A false false s'.
Proof.
  intros Hok Hat He Hacc. destruct (mo_object s Hok m p a (ma_object _ _ _ _ _ _ Hat)) as (pg' & A' & H1 & _ & _ & _ & Hct & _ & (e' & He' & Hphys)).
  pose proof (ma_page _ _ _ _ _ _ Hat) as Hp. pose proof (ma_area _ _ _ _ _ _ Hat) as HA.
  pose proof (ma_page _ _ _ _ _ _ H1) as F. rewrite Hp in F. injection F as <-. pose proof (ma_area _ _ _ _ _ _ H1) as F. rewrite HA in F. injection F as <-.
  rewrite He in He'. injection He' as <-. rewrite (ClearAccessedAndModified_entry a A) by done. rewrite He, Hacc. cbn [andb negb].
  set (va := virtual_page_address A pg). set (s1 := upd_entries (a_space A) (delete va) s).
  destruct (remove_mapping_ok s s1 m p a pg A false false va Hok Hat eq_refl eq_refl) as (s2 & R1 & R2 & R3 & R4 & R5 & R6 & R7 & R8 & R9).
  unfold UnaccessedPageUnmapped, area_of. change (vmareas (mp s1)) with (vmareas (mp s)). rewrite HA. cbn [deref mbind outcome_bind].
  rewrite (proj2 (Z.leb_gt _ _) Hct), Hphys, phys_pfn. change (pfn_to_page (pfn pg) s1) with (pfn_to_page (pfn pg) s).
  rewrite (mo_segments s Hok p pg Hp). cbn [deref mbind outcome_bind]. change (note_flags false false p s1) with s1 in R1. rewrite R1. cbn [mbind outcome_bind].
  set (pg3 := unmapped m false false pg) in *. assert (pages (mvm s2) !! p = Some pg3) as Hp3 by (rewrite R2; apply lookup_insert_eq).
  unfold page_of. rewrite Hp3. cbn [deref mbind outcome_bind]. eexists. split; [reflexivity|].
  pose proof (unmapped_pages_ok s s2 m p a pg A _ _ Hok Hat R2 R4) as Hpo2. destruct (erase_fields _ _ R3) as [Ec Ecr].
  split; destruct (IsMapped pg3) eqn:Em; try done.
  - exists pg3. rewrite Em. done.
  - exists pg3. rewrite Em. split_and!; [done..|]. cbn. by rewrite R7.
  - cbn. by rewrite R6.
  - cbn. by rewrite R6.
Qed.

(** One round of the loop: the first mapping, unaccessed, is removed. *)
Lemma remove_unaccessed_step s m ms p pg a A e :
  map_ok s → mapping_at s m p a pg A → mappings pg = m :: ms → accessed pg = false →
  entry_at (a_space A) (virtual_page_address A pg) s = Some e → t_accessed e = false →
  ∃ s1 pg1, ClearAccessedAndModified a (virtual_page_address A pg) true s = Ret (false, t_modified e, s1) ∧
    let s2 := upd_pg p (fun pg => pg <| modified ::= fun x => x || t_modified e |>) s1 in
    map_ok s2 ∧ pages (mvm s2) = <[p := pg1]> (pages (mvm s)) ∧ mappings pg1 = ms ∧ accessed pg1 = false ∧ modified pg1 = modified pg || t_modified e ∧
    wired_count pg1 = wired_count pg ∧ cache_ref pg1 = cache_ref pg ∧ cache_offset pg1 = cache_offset pg ∧
    (∀ k, k ∈ ms → entry_of pg1 s2 k = entry_of pg s k) ∧
    (∀ k b B, k ∈ ms → mapping_at s k p b pg B → mapping_at s2 k p b pg1 B) ∧
    ∀ space va, entry_at space va s2 = if decide (space = a_space A ∧ va = virtual_page_address A pg) then None else entry_at space va s.
Proof.
  intros Hok Hat Hms Hpa He Ha. destruct (unmap_unaccessed_ok s m p a pg A e Hok Hat He Ha) as (s1 & H1 & Hst). pose proof (ma_page _ _ _ _ _ _ Hat) as Hp.
  destruct (us_page _ _ _ _ _ _ _ _ _ Hst) as (pg0 & Ep & Eq & _). pose proof (unmap_step_ok _ _ _ _ _ _ _ _ _ Hok Hat Hst) as Hok1.
  pose proof (no_queue_fields _ _ Eq) as (F1 & F2 & F3 & F4 & F5 & F6 & F7 & _). unfold unmapped in F1, F2, F3, F4, F5, F6, F7. cbn in F1, F2, F3, F4, F5, F6, F7.
  pose proof (mo_page_nodup s Hok p pg Hp) as Hnd. rewrite Hms in Hnd, F5. apply NoDup_cons in Hnd as [Hni Hnd].
  rewrite filter_ne_head in F5 by done. set (f := fun pg => pg <| modified ::= fun x => x || t_modified e |>).
  assert (pages (mvm s1) !! p = Some pg0) as Hp1 by (rewrite Ep; apply lookup_insert_eq). pose proof (upd_pg_pages p f pg0 s1 Hp1) as Ep2.
  exists s1, (f pg0). split; [done|]. cbv zeta. split_and!; try done.
  - by apply (map_ok_flags p pg0).
  - by rewrite Ep2, Ep, insert_insert_eq.
  - change (accessed pg0 = false). congruence.
  - unfold f, update. cbn. by rewrite F7.
  - intros k Hk. transitivity (entry_of (f pg0) s1 k); [done|]. apply (entry_of_step s m p a pg A false false s1 k _ Hok Hat Hst); [rewrite Hms; by right|by intros ->|done].
  - intros k b B Hk Hkb. assert (k ≠ m) as Hkm by (intros ->; done). assert (b ≠ a) as Hba.
    { intros ->. apply Hkm. eapply (mo_unique s k m p a Hok); [apply Hkb|apply Hat]. }
    split.
    + change (page_mappings (mp s1) !! k = Some (p, b)). rewrite (us_objects _ _ _ _ _ _ _ _ _ Hst), lookup_delete_ne by (by apply not_eq_sym). apply Hkb.
    + by rewrite Ep2, lookup_insert_eq.
    + change (vmareas (mp s1) !! b = Some B). rewrite (us_areas _ _ _ _ _ _ _ _ _ Hst), lookup_insert_ne by (by apply not_eq_sym). apply Hkb.
  - intros space va. apply (us_entries _ _ _ _ _ _ _ _ _ Hst).
Qed.

Lemma any_entry_true f pg s (ms : list Z) m : m ∈ ms → from_option f false (entry_of pg s m) = true → any_entry f pg s ms = true.
Proof. intros Hm Ht. unfold any_entry. apply existsb_exists. exists m. by rewrite <- list_elem_of_In. Qed.

(** An accessed mapping stops the loop and only the flags are cleared. *)
Lemma remove_unaccessed_ok ms : ∀ s p pg,
  map_ok s → pages (mvm s) !! p = Some pg → mappings pg = ms → accessed pg = false →
  ∃ n s' pg', remove_unaccessed (length ms) p s = Ret (n, s') ∧ map_ok s' ∧ pages (mvm s') = <[p := pg']> (pages (mvm s)) ∧
    accessed pg' = false ∧ modified pg' = modified pg || any_entry t_modified pg s ms ∧
    wired_count pg' = wired_count pg ∧ cache_ref pg' = cache_ref pg ∧ cache_offset pg' = cache_offset pg ∧
    0 <= n ∧ (n = 0 ↔ any_entry t_accessed pg s ms = false) ∧ (n = 0 ↔ mappings pg' = []) ∧
    (∀ m, m ∈ ms → from_option t_accessed false (entry_of pg s m) = true → m ∈ mappings pg') ∧
    (∀ m a A, m ∈ ms → m ∉ mappings pg' → mapping_at s m p a pg A → entry_at (a_space A) (virtual_page_address A pg) s' = None) ∧
    (∀ space va, entry_at space va s = None → entry_at space va s' = None).
Proof.
  induction ms as [|m ms IH]; intros s p pg Hok Hp Hms Hacc; cbn [length remove_unaccessed]; unfold page_of; rewrite Hp; cbn [deref mbind outcome_bind]; rewrite Hms.
  - exists 0, s, pg. rewrite insert_id by done. split_and!; try done; [by rewrite orb_false_r|by intros ? ?%elem_of_nil|by intros ??? ?%elem_of_nil].
  - destruct (mapping_of s p pg m Hok Hp) as (a & A & e & Hat & Hpl & He & He'); [rewrite Hms; left|]. rewrite Hpl. cbn [mbind outcome_bind].
    destruct (t_accessed e) eqn:Eacc.
    + rewrite (ClearAccessedAndModified_entry a A) by apply Hat. rewrite He, Eacc. cbn [andb negb mbind outcome_bind].
      destruct (clear_entry_ok s m p a pg A e Hok Hat He) as [Hok1 Hent]. unfold clear_entry in *. set (s1 := upd_entries _ _ s) in *.
      set (f := fun pg => pg <| accessed := true |> <| modified ::= fun x => x || t_modified e |>).
      assert (pages (mvm s1) !! p = Some pg) as Hp1 by exact Hp. pose proof (upd_pg_pages p f pg s1 Hp1) as Ep2.
      pose proof (map_ok_flags p pg f s1 Hok1 Hp1 eq_refl) as Hok2. set (s2 := upd_pg p f s1) in *.
      assert (pages (mvm s2) !! p = Some (f pg)) as Hp2 by (rewrite Ep2; apply lookup_insert_eq).
      destruct (clear_page_accessed_ok s2 p (f pg) Hok2 Hp2) as (n & s' & I1 & I2 & I3 & I4 & I5 & I6). rewrite I1.
      assert (any_entry t_accessed pg s (m :: ms) = true) as Htrue by (apply any_entry_true with m; [left|by rewrite He']).
      assert (n ≠ 0) as Hn0 by (intros E0; destruct (proj1 I5 E0) as [G _]; done).
      eexists n, s', _. split; [done|]. split; [done|]. split; [rewrite I3, Ep2, insert_insert_eq; done|].
      rewrite Htrue. cbn [accessed mappings wired_count cache_ref cache_offset update]. split_and!; try done.
      * change (mappings (f pg)) with (mappings pg). change (modified (f pg)) with (modified pg || t_modified e). rewrite Hms. unfold any_entry. cbn [existsb]. rewrite He'. cbn [from_option].
        fold (f pg). rewrite (entry_of_pg pg (f pg) s2 m) by done. change (entry_of pg s2 m) with (entry_of pg s1 m).
        rewrite (Hent m), decide_True by (done || rewrite Hms; left). cbn. rewrite <- orb_assoc. f_equal. f_equal.
        apply any_entry_ext. intros k Hk. rewrite (entry_of_pg pg (f pg)) by done. change (entry_of pg s2 k) with (entry_of pg s1 k).
        rewrite Hent, decide_False; [done| |rewrite Hms; by right]. intros ->. pose proof (mo_page_nodup s Hok p pg Hp) as Hnd. rewrite Hms in Hnd.
        by apply NoDup_cons in Hnd as [? _].
      * unfold f, update. cbn. rewrite Hms. done.
      * intros k Hk _. change (k ∈ mappings pg). by rewrite Hms.
      * intros k b B Hk Hno. destruct Hno. change (k ∈ mappings pg). by rewrite Hms.
      * intros space va Hn. apply I6. change (entry_at space va s1 = None). unfold s1. rewrite entry_insert, decide_False; [done|]. intros [-> ->]. congruence.
    + destruct (remove_unaccessed_step s m ms p pg a A e Hok Hat Hms Hacc He Eacc) as (s1 & pg1 & -> & Hok2 & Ep & G1 & G2 & G3 & G4 & G5 & G6 & G7 & G8 & G9).
      cbn [mbind outcome_bind]. set (s2 := upd_pg p _ s1) in *. assert (pages (mvm s2) !! p = Some pg1) as Hp2 by (rewrite Ep; apply lookup_insert_eq).
      destruct (IH s2 p pg1 Hok2 Hp2 G1 G2) as (n & s' & pg' & I1 & I2 & I3 & I4 & I5 & I6 & I7 & I8 & I9 & I10 & I11 & I12 & I13 & I14).
      assert (∀ g, any_entry g pg1 s2 ms = any_entry g pg s ms) as Hany by (intros g; by apply any_entry_ext).
      assert (∀ B0, virtual_page_address B0 pg1 = virtual_page_address B0 pg) as Ev by (intros; unfold virtual_page_address; by rewrite G6).
      rewrite Hany in I5, I10. exists n, s', pg'. split_and!; try congruence.
      * by rewrite I3, Ep, insert_insert_eq.
      * rewrite I5, G3. unfold any_entry. cbn [existsb]. rewrite He'. cbn [from_option]. by rewrite orb_assoc.
      * unfold any_entry. cbn [existsb]. rewrite He'. cbn [from_option]. by rewrite Eacc.
      * intros k [->|Hk]%elem_of_cons Hka; [by rewrite He' in Hka; cbn in Hka; congruence|]. apply I12; [done|]. by rewrite G7.
      * intros k b B Hk Hno Hkb. apply elem_of_cons in Hk as [->|Hk].
        -- pose proof (ma_object _ _ _ _ _ _ Hkb) as G. rewrite (ma_object _ _ _ _ _ _ Hat) in G. injection G as <-.
           pose proof (ma_area _ _ _ _ _ _ Hkb) as G. rewrite (ma_area _ _ _ _ _ _ Hat) in G. injection G as <-. apply I14. by rewrite G9, decide_True.
        -- rewrite <- Ev. apply (I13 k b B); [done..|]. by apply G8.
      * intros space va Hn. apply I14. rewrite G9. by case_decide.
Qed.

(** ** Allocating the protections of an area *)

Lemma page_index_small A address : 0 <= a_base A → a_base A <= address < a_base A + a_size A → a_base A + a_size A <= 2 ^ 64 → a_size A <= 2 ^ 44 →
  page_index A address = (address - a_base A) / PAGE_SIZE ∧ 0 <= page_index A address < a_size A / PAGE_SIZE + 1 ∧
  (a_size A mod PAGE_SIZE = 0 → page_index A address < a_size A / PAGE_SIZE).
Proof.
  intros Hb Ha He Hs. unfold page_index. rewrite (wrap_small 64) by (unfold fits; lia). unfold PAGE_SIZE in *.
  assert (0 <= (address - a_base A) / 4096 <= a_size A / 4096) as Hd by (split; [apply Z.div_pos; lia|apply Z.div_le_mono; lia]).
  assert ((address - a_base A) / 4096 < 2 ^ 32) as Hlt by (apply Z.div_lt_upper_bound; lia).
  rewrite wrap_small by (unfold fits; lia). split_and!; [done|lia..|]. intros Hm. apply Z.div_lt_upper_bound; [lia|]. pose proof (Z.div_mod (a_size A) 4096). lia.
Qed.

(** The array has half a byte for every page. *)
Lemma allocate_protections_ok a A s :
  vmareas (mp s) !! a = Some A → 0 <= a_base A → a_base A + a_size A <= 2 ^ 64 → 0 <= a_size A <= 2 ^ 44 → a_size A mod PAGE_SIZE = 0 →
  ∃ s' A' l, allocate_area_page_protections a true s = Ret (Ok, s') ∧ mvm s' = mvm s ∧ vmareas (mp s') !! a = Some A' ∧ A' = A <| page_protections := Some l |> ∧
    ∀ address, a_base A <= address < a_base A + a_size A → has_protection A' l address ∧
      get_area_page_protection a address s' = Ret (effective_protection A (Z.land (a_protection A) B_USER_PROTECTION)).
Proof.
  intros HA Hb He Hs Hm. unfold allocate_area_page_protections, area_of. rewrite HA. cbn [deref mbind outcome_bind]. cbv zeta.
  set (q := Z.land (a_protection A) B_USER_PROTECTION). pose proof (user_protection_small (a_protection A)) as Hq. fold q in Hq.
  set (b := u8 (Z.lor q (Z.shiftl q 4))). set (n := Z.to_nat _). eexists _, _, _. split; [reflexivity|]. split; [done|]. split.
  { cbn. by rewrite lookup_alter_eq, HA. }
  split; [done|]. intros address Ha. set (l := replicate n b).
  destruct (page_index_small A address Hb Ha He (proj2 Hs)) as (_ & [Hi0 _] & Hi). specialize (Hi Hm).
  change (page_index A address) with (page_index (A <| page_protections := Some l |>) address) in Hi, Hi0. set (i := page_index _ address) in *.
  assert (0 <= a_size A / PAGE_SIZE <= 2 ^ 32) as Hn by (unfold PAGE_SIZE; split; [apply Z.div_pos; lia|apply Z.div_le_upper_bound; lia]).
  assert (Z.to_nat (i / 2) < n)%nat as Hlt.
  { unfold n. rewrite wrap_small by (split; [apply Z.div_pos; lia|apply Z.div_lt_upper_bound; lia]).
    apply Z2Nat.inj_lt; [apply Z.div_pos; lia|apply Z.div_pos; lia|]. pose proof (Z.div_mod i 2). pose proof (Z.mod_pos_bound i 2).
    pose proof (Z.div_mod (a_size A / PAGE_SIZE + 1) 2). pose proof (Z.mod_pos_bound (a_size A / PAGE_SIZE + 1) 2). lia. }
  assert (0 <= b < 256) as Hb256 by (apply (wrap_fits 8); lia). split.
  - split_and!; [done|by apply Forall_replicate|]. unfold l. rewrite length_replicate. exact Hlt.
  - unfold get_area_page_protection, area_of. cbn [vmareas mp upd_area update]. rewrite lookup_alter_eq, HA. cbn [fmap option_fmap option_map deref mbind outcome_bind page_protections update].
    fold i. fold l. unfold l. rewrite lookup_replicate_2 by done. cbn [deref mbind outcome_bind]. unfold effective_protection. cbn [a_space a_protection update].
    assert ((if i mod 2 =? 0 then Z.land b 15 else Z.shiftr b 4) = q) as ->; [|done].
    pose proof nibbles as H. rewrite forallb_forall in H. specialize (H 0). rewrite <- list_elem_of_In, elem_of_seqZ in H. specialize (H ltac:(lia)).
    rewrite forallb_forall in H. specialize (H q). rewrite <- list_elem_of_In, elem_of_seqZ in H. specialize (H ltac:(lia)). fold b in H. breflect.
    by destruct (i mod 2 =? 0).
Qed.

Lemma test_modification_ok s p pg : map_ok s → pages (mvm s) !! p = Some pg →
  vm_test_map_modification p s = Ret (modified pg || any_entry t_modified pg s (mappings pg)).
Proof.
  intros Hok Hp. unfold vm_test_map_modification, page_of. rewrite Hp. cbn [deref mbind outcome_bind]. destruct (modified pg); [done|]. cbn [orb].
  assert (∀ m, m ∈ mappings pg → ∃ a, page_mappings (mp s) !! m = Some (p, a)) as Hms by (intros m Hm; by apply (mo_page s Hok p pg)).
  induction (mappings pg) as [|m ms IH]; [done|]. destruct (Hms m) as [a Hm]; [left|].
  destruct (mo_object s Hok m p a Hm) as (pg2 & A & Hat & _ & _ & _ & _ & _ & (e & He & _)). pose proof (ma_page _ _ _ _ _ _ Hat) as F.
  rewrite Hp in F. injection F as <-. pose proof (ma_area _ _ _ _ _ _ Hat) as HA.
  cbn [any_modified]. unfold mapping_place, area_of. rewrite Hm. cbn [deref mbind outcome_bind]. rewrite HA. cbn [deref mbind outcome_bind].
  rewrite Query_entry, He. cbn [any_entry existsb]. unfold entry_of at 1. rewrite Hm. cbn [mbind option_bind]. rewrite HA. cbn [mbind option_bind]. rewrite He.
  cbn [from_option]. destruct (t_modified e); [done|]. cbn [orb]. apply IH. intros k Hk. apply Hms. by right.
Qed.
Lemma unmapped_no_queue m pg : no_queue (unmapped m false false (no_queue pg)) = no_queue (unmapped m false false pg).
Proof. by destruct pg. Qed.

Lemma unmap_remap_page m pg : m ∉ mappings pg → no_queue (unmapped m false false (pg <| mappings ::= fun l => l ++ [m] |>)) = no_queue pg.
Proof.
  intros Hm. destruct pg as [? ? ? ? ? ? ? ? ? ? ? ms ?]. unfold no_queue, unmapped, update in *. cbn [mappings] in *. f_equal.
  rewrite filter_app, filter_cons_False, app_nil_r by (intros E; by apply E). by apply filter_ne_id.
Qed.
End inv.

(** ** Properties *)

Section properties.
Context {DL : DLList Z} {PF : Platform} {TM : VMTranslationMap}.

(** C22: vm_remove_all_page_mappings terminates (one round per mapping),
    leaves the page without mapping and without page table entry at the
    places where it was mapped, touches no entry of another page, keeps
    mapping objects, lists and gMappedPagesCount consistent, and does not
    lose a modification: the page is marked modified exactly if
    vm_test_map_modification would have said so before, and likewise
    accessed. *)
Theorem remove_all_mappings_correct (p : Z) (pg : page) (s : mstate) (Hok : map_ok s) (Hp : pages (mvm s) !! p = Some pg) :
  ∃ s' pg', vm_remove_all_page_mappings (length (mappings pg)) p s = Ret s' ∧ map_ok s' ∧ pages (mvm s') = <[p := pg']> (pages (mvm s)) ∧
    mappings pg' = [] ∧ wired_count pg' = wired_count pg ∧ cache_ref pg' = cache_ref pg ∧ cache_offset pg' = cache_offset pg ∧
    vm_test_map_modification p s = Ret (modified pg') ∧ accessed pg' = accessed pg || any_entry t_accessed pg s (mappings pg) ∧
    page_mappings (mp s') = filter (fun kv => kv.1 ∉ mappings pg) (page_mappings (mp s)) ∧
    (∀ m a A, m ∈ mappings pg → mapping_at s m p a pg A → entry_at (a_space A) (virtual_page_address A pg) s' = None) ∧
    (∀ space va e, entry_at space va s = Some e → t_phys e ≠ page_to_phys pg → entry_at space va s' = Some e).
Proof.
  destruct (remove_all_ok (mappings pg) s p pg Hok Hp eq_refl) as (s' & pg' & H1 & H2 & H3 & H4 & H5 & H6 & H7 & H8 & H9 & H10 & H11 & H12 & H13).
  exists s', pg'. split_and!; try done.
  - by rewrite (test_modification_ok s p pg Hok Hp), H8.
  - intros space va e He Hne. destruct (H12 space va) as [E|(_ & e' & E & Hph)]; congruence.
Qed.

(** C23: vm_remove_all_page_mappings_if_unaccessed of an unwired page
    terminates and returns 0 exactly if neither the page nor any page table
    entry of it was accessed, and then the page is not mapped any more; a
    mapping that was accessed is never removed, a removed mapping has no
    page table entry left, the accessed flag is cleared and no modification
    is lost. *)
Theorem remove_if_unaccessed_correct (p : Z) (pg : page) (s : mstate) (Hok : map_ok s) (Hp : pages (mvm s) !! p = Some pg) (Hw : wired_count pg = 0) :
  ∃ n s' pg', vm_remove_all_page_mappings_if_unaccessed (length (mappings pg)) p s = Ret (n, s') ∧ map_ok s' ∧ pages (mvm s') = <[p := pg']> (pages (mvm s)) ∧
    accessed pg' = false ∧ vm_test_map_modification p s = Ret (modified pg') ∧ 0 <= n ∧
    (n = 0 ↔ accessed pg = false ∧ any_entry t_accessed pg s (mappings pg) = false) ∧ (n = 0 → IsMapped pg' = false) ∧
    (∀ m, m ∈ mappings pg → from_option t_accessed false (entry_of pg s m) = true → m ∈ mappings pg') ∧
    (∀ m a A, m ∈ mappings pg → m ∉ mappings pg' → mapping_at s m p a pg A → entry_at (a_space A) (virtual_page_address A pg) s' = None).
Proof.
  unfold vm_remove_all_page_mappings_if_unaccessed, page_of. rewrite Hp, (test_modification_ok s p pg Hok Hp). cbn [deref mbind outcome_bind]. rewrite Hw, Z.eqb_refl. cbn [assert mbind outcome_bind].
  destruct (accessed pg) eqn:Ea.
  - destruct (clear_page_accessed_ok s p pg Hok Hp) as (n & s' & H1 & H2 & H3 & H4 & H5 & _). rewrite H1. eexists n, s', _. split; [done|].
    split; [done|]. split; [exact H3|]. rewrite Ea in H5. cbn [accessed mappings update]. split_and!; try done.
    intros E. apply H5 in E as [? _]. done.
  - destruct (remove_unaccessed_ok (mappings pg) s p pg Hok Hp eq_refl Ea) as (n & s' & pg' & H1 & H2 & H3 & H4 & H5 & H6 & H7 & H8 & H9 & H10 & H11 & H12 & H13 & H14).
    exists n, s', pg'. split_and!; try done; [by rewrite H5|rewrite H10; tauto|]. intros E. apply H11 in E. unfold IsMapped. by rewrite H6, Hw, E.
Qed.

(** C19: map_page of a page of a cache at its address in an area without
    locked wiring, the address not being mapped: without memory for the
    mapping object it returns -ENOMEM and changes nothing; otherwise the
    page table has exactly one entry more, for this page and with the memory
    type of the area, the mapping objects, both lists and gMappedPagesCount
    agree again, and unmap_page of the address restores the page table, the
    mapping objects, the counts, the flags and the lists. *)
Theorem map_unmap_roundtrip (m p a protection : Z) (pg : page) (A : VMArea) (s : mstate)
    (Hok : map_ok s) (Hcan : can_map s p a pg A) (Hm : page_mappings (mp s) !! m = None) :
  map_page a p (virtual_page_address A pg) protection None s = Ret (Err ENOMEM, s) ∧
  ∃ s1, map_page a p (virtual_page_address A pg) protection (Some m) s = Ret (Ok, s1) ∧ map_ok s1 ∧
    gMappedPagesCount (mp s1) = gMappedPagesCount (mp s) + (if IsMapped pg then 0 else 1) ∧
    (∀ space va, entry_at space va s1 = if decide (space = a_space A ∧ va = virtual_page_address A pg)
       then Some (mkEntry (page_to_phys pg) (map_attributes A protection) false false) else entry_at space va s) ∧
    ∃ s2 pg2 A2, unmap_page a (virtual_page_address A pg) s1 = Ret (Ok, s2) ∧ map_ok s2 ∧ page_mappings (mp s2) = page_mappings (mp s) ∧
      gMappedPagesCount (mp s2) = gMappedPagesCount (mp s) ∧ (∀ space va, entry_at space va s2 = entry_at space va s) ∧
      pages (mvm s2) = <[p := pg2]> (pages (mvm s)) ∧ no_queue pg2 = no_queue pg ∧
      vmareas (mp s2) = <[a := A2]> (vmareas (mp s)) ∧ a_mappings A2 = a_mappings A.
Proof.
  pose proof (cm_page _ _ _ _ _ Hcan) as Hp. pose proof (cm_area _ _ _ _ _ Hcan) as HA. split.
  { unfold map_page, area_of, page_of. rewrite HA, Hp. cbn [deref mbind outcome_bind]. by rewrite (cm_wiring _ _ _ _ _ Hcan), Z.eqb_refl. }
  set (va := virtual_page_address A pg). destruct (map_page_step s m p a pg A va protection Hok Hp HA (cm_wiring _ _ _ _ _ Hcan) (can_map_not_free _ _ _ _ _ Hok Hcan)) as (s1 & H1 & Hst).
  set (e := mkEntry _ _ _ _) in *. pose proof (map_step_ok s m p a pg A e s1 Hok Hcan Hm eq_refl Hst) as Hok1.
  destruct (st_page _ _ _ _ _ _ _ _ _ Hst) as (pg1 & Ep1 & Eq1). destruct (st_areas _ _ _ _ _ _ _ _ _ Hst) as (A1 & Ea1 & EA1).
  assert (mapping_at s1 m p a pg1 A1) as Hat.
  { split; [rewrite (st_objects _ _ _ _ _ _ _ _ _ Hst)|rewrite Ep1|rewrite Ea1]; apply lookup_insert_eq. }
  pose proof (no_queue_fields _ _ Eq1) as (_ & F2 & _). cbn in F2.
  assert (a_space A1 = a_space A ∧ virtual_page_address A1 pg1 = va) as [Esp Eva] by (rewrite EA1; unfold va, virtual_page_address; cbn; by rewrite F2).
  assert (entry_at (a_space A1) (virtual_page_address A1 pg1) s1 = Some e) as He by (rewrite Esp, Eva, (st_entries _ _ _ _ _ _ _ _ _ Hst), decide_True by done; done).
  assert (m ∉ mappings pg ∧ m ∉ a_mappings A) as [Hn1 Hn2].
  { split; intros Hin; [destruct (mo_page s Hok p pg m Hp Hin)|destruct (mo_area s Hok a A m HA Hin)]; congruence. }
  assert (gMappedPagesCount (mp s1) = gMappedPagesCount (mp s) + (if IsMapped pg then 0 else 1)) as Ecnt.
  { rewrite (mo_count s1 Hok1), (mo_count s Hok), Ep1, (msum_update _ _ p pg) by done. unfold mapped01 at 2. unfold mapped01 at 2.
    pose proof (mapped_not_free _ _ _ _ _ _ Hok1 Hat) as [-> _]. destruct (IsMapped pg); lia. }
  destruct (UnmapPage_ok s1 m p a pg1 A1 e true Hok1 Hat He) as (s2 & H2 & Hus). pose proof (unmap_step_ok _ _ _ _ _ _ _ _ _ Hok1 Hat Hus) as Hok2.
  destruct (us_page _ _ _ _ _ _ _ _ _ Hus) as (pg2 & Ep2 & Eq2 & _). rewrite Ep1, insert_insert_eq in Ep2.
  assert (no_queue pg2 = no_queue pg) as E2.
  { rewrite Eq2. change (t_accessed e) with false. change (t_modified e) with false. rewrite <- (unmapped_no_queue m pg1), Eq1, unmapped_no_queue.
    by apply unmap_remap_page. }
  exists s1. split_and!; [done|done|done|apply Hst|]. exists s2, pg2, (A1 <| a_mappings ::= filter (.≠ m) |>). split_and!; try done.
  - rewrite <- Eva. exact H2.
  - rewrite (us_objects _ _ _ _ _ _ _ _ _ Hus), (st_objects _ _ _ _ _ _ _ _ _ Hst). by apply delete_insert_id.
  - rewrite (mo_count s2 Hok2), (mo_count s Hok), Ep2, (msum_update _ _ p pg) by done.
    apply no_queue_fields in E2 as (_ & _ & _ & _ & _ & _ & _ & E8). unfold mapped01. rewrite E8. lia.
  - intros space x. rewrite (us_entries _ _ _ _ _ _ _ _ _ Hus), Esp, Eva, (st_entries _ _ _ _ _ _ _ _ _ Hst). case_decide as Ed; [|done].
    destruct Ed as [-> ->]. symmetry. exact (cm_unmapped _ _ _ _ _ Hcan).
  - rewrite (us_areas _ _ _ _ _ _ _ _ _ Hus), Ea1, insert_insert_eq. done.
  - rewrite EA1. unfold update. cbn. rewrite filter_app, filter_cons_False, app_nil_r by (intros E; by apply E). by apply filter_ne_id.
Qed.

(** allocate_area_page_protections makes an array that covers all pages
    of the area and gives each the protection of the area;
    set_area_page_protection never writes outside of it, and afterwards
    get_area_page_protection returns the new protection for all addresses of
    that page and the old one for all other pages of the area, including the
    page that shares the byte. *)
Lemma page_protection_roundtrip (a : Z) (A : VMArea) (s : mstate) (HA : vmareas (mp s) !! a = Some A)
    (Hb : 0 <= a_base A) (He : a_base A + a_size A <= 2 ^ 64) (Hs : 0 <= a_size A <= 2 ^ 44) (Hm : a_size A mod PAGE_SIZE = 0) :
  ∃ s1, allocate_area_page_protections a true s = Ret (Ok, s1) ∧ mvm s1 = mvm s ∧
    (∀ address, a_base A <= address < a_base A + a_size A →
       get_area_page_protection a address s1 = Ret (effective_protection A (Z.land (a_protection A) B_USER_PROTECTION))) ∧
    ∀ address protection, a_base A <= address < a_base A + a_size A →
      ∃ s2, set_area_page_protection a address protection s1 = Ret s2 ∧ mvm s2 = mvm s ∧
        ∀ other, a_base A <= other < a_base A + a_size A → get_area_page_protection a other s2 =
          Ret (effective_protection A (Z.land (if (other - a_base A) / PAGE_SIZE =? (address - a_base A) / PAGE_SIZE then protection else a_protection A) B_USER_PROTECTION)).
Proof.
  destruct (allocate_protections_ok a A s HA Hb He Hs Hm) as (s1 & A1 & l & H1 & H2 & H3 & H4 & H5). exists s1. split_and!; [done|done|by intros; apply H5|].
  intros address protection Ha. destruct (H5 address Ha) as [Hhas _]. destruct (set_protection_ok a A1 l address protection s1 H3 Hhas) as (s2 & G1 & G2 & G3 & G4).
  exists s2. split_and!; [done|congruence|]. intros other Ho.
  assert (∀ x, page_index A1 x = page_index A x) as Ei by (by rewrite H4). assert (∀ q, effective_protection A1 q = effective_protection A q) as Ef by (by rewrite H4).
  pose proof (proj1 (page_index_small A address Hb Ha He (proj2 Hs))) as E1. pose proof (proj1 (page_index_small A other Hb Ho He (proj2 Hs))) as E2.
  destruct (Z.eqb_spec ((other - a_base A) / PAGE_SIZE) ((address - a_base A) / PAGE_SIZE)) as [E|E].
  - rewrite <- Ef, <- G3. unfold get_area_page_protection. destruct (area_of a s2) as [B| |] eqn:EB; [|done..]. cbn [mbind outcome_bind].
    assert (page_index B other = page_index B address) as ->; [|done].
    enough (a_base B = a_base A) as EbB by (unfold page_index in *; rewrite EbB; congruence).
    revert G1 EB. unfold set_area_page_protection, area_of. rewrite H3. cbn [deref mbind outcome_bind]. rewrite H4. cbn [page_protections update deref mbind outcome_bind].
    destruct (l !! _) as [x|]; cbn [deref mbind outcome_bind]; [|done]. intros [= <-]. cbn. rewrite lookup_alter_eq, H3. cbn. intros [= <-]. by rewrite H4.
  - rewrite G4 by (rewrite !Ei; congruence). by apply H5.
Qed.
End properties.

(** ** An example *)

#[export] Instance demo_platform : Platform.
Proof.
  refine {| Kernel := 1; sizeof_page := 64; read_bit := 0; write_bit := 1; execute_bit := 2; kernel_read_bit := 4; kernel_write_bit := 5;
            kernel_execute_bit := 6; nonsecure_bit := 7; device_bit := 8; B_KERNEL_MEMORY_TYPE_MASK := 0xf0000000; B_NO_LOCK := 0 |}.
  - apply (bool_decide_unpack _). vm_compute. exact I.
  - repeat constructor; lia || reflexivity.
  - lia.
  - unfold fits. lia.
Defined.

(** A translation map that is nothing but its entries. *)
#[export] Instance demo_map : VMTranslationMap.
Proof.
  refine {|
    Map := fun space va pa attributes s => upd_entries space <[va := mkEntry pa attributes false false]> s;
    Query := entry_at;
    Protect := fun space base size attributes s => upd_entries space (map_imap (fun va e => Some (if (base <=? va) && (va <? base + size) then e <| t_attr := attributes |> else e))) s;
    ClearFlags := fun space va acc mod_ s => upd_entries space (alter (fun e => e <| t_accessed ::= andb (negb acc) |> <| t_modified ::= andb (negb mod_) |>) va) s;
    UnmapPage := fun a va u s =>
      A ← area_of a s;
      match entry_at (a_space A) va s with
      | None => Ret (Err ENOENT, s)
      | Some e =>
          s ← PageUnmapped a (Z.shiftr (t_phys e) PAGE_SHIFT) (t_accessed e) (t_modified e) u (upd_entries (a_space A) (delete va) s);
          Ret (Ok, s)
      end;
    ClearAccessedAndModified := fun a va u s =>
      A ← area_of a s;
      match entry_at (a_space A) va s with
      | None => Ret (false, false, s)
      | Some e =>
          if u && negb (t_accessed e) then
            s ← UnaccessedPageUnmapped a (Z.shiftr (t_phys e) PAGE_SHIFT) (upd_entries (a_space A) (delete va) s);
            Ret (false, t_modified e, s)
          else Ret (t_accessed e, t_modified e, upd_entries (a_space A) (<[va := e <| t_accessed := false |> <| t_modified := false |>]>) s)
      end |}; try done.
  - intros a A va u s HA. unfold area_of at 1. by rewrite HA.
  - intros a A va u s HA. unfold area_of at 1. by rewrite HA.
Defined.

(** Page 0x1000 is mapped at 0x400000 and was written there, page 0x1040 is not mapped. *)
Definition demo_pg (n off : Z) (st : page_state) (q : queue_id) (ms : list Z) : page :=
  page_zero <| pfn := n |> <| state := st |> <| queue := Some q |> <| cache_ref := Some 1000 |> <| cache_offset := off |> <| mappings := ms |>.
Definition mapped_area : VMArea := mkVMArea 0x400000 0x2000 0x400000 3 0 (Some 100) 0 CACHE_TYPE_RAM [501] None 2.
Definition demo_mapped : mstate := mkMState
  ((vm_boot {[ 0x1000 := demo_pg 16 0 PAGE_STATE_ACTIVE QActive [501]; 0x1040 := demo_pg 17 1 PAGE_STATE_INACTIVE QInactive [] ]})
    <| cacherefs := {[ 1000 := 100 ]} |>
    <| caches := {[ 100 := mkVMCache [] [7] {[ 0 := 0x1000; 1 := 0x1040 ]} None 0 0x2000 0 0x2000 2 true true CACHE_TYPE_RAM 1 1000 0 ]} |>
    <| sActivePageQueue := mkQueue 1 [0x1000] |> <| sInactivePageQueue := mkQueue 1 [0x1040] |>)
  (mkMap {[ 7 := mapped_area ]} {[ 501 := (0x1000, 7) ]} {[ 2 := {[ 0x400000 := mkEntry 0x10000 3 true true ]} ]} 1 [None; Some (mkSegment 16 18 0x1000)]).

Lemma demo_mapped_ok : map_ok demo_mapped.
Proof.
  assert (∀ p pg, pages (mvm demo_mapped) !! p = Some pg →
    p = 0x1000 ∧ pg = demo_pg 16 0 PAGE_STATE_ACTIVE QActive [501] ∨ p = 0x1040 ∧ pg = demo_pg 17 1 PAGE_STATE_INACTIVE QInactive []) as Hpg.
  { intros p pg Hp. change (pages (mvm demo_mapped)) with (<[0x1000 := demo_pg 16 0 PAGE_STATE_ACTIVE QActive [501]]>
      {[ 0x1040 := demo_pg 17 1 PAGE_STATE_INACTIVE QInactive [] ]} : gmap Z page) in Hp.
    apply lookup_insert_Some in Hp as [[<- <-]|[_ [<- <-]%lookup_singleton_Some]]; auto. }
  assert (∀ m x, page_mappings (mp demo_mapped) !! m = Some x → m = 501 ∧ x = (0x1000, 7)) as Hm.
  { intros m x Hm. change (page_mappings (mp demo_mapped)) with ({[ 501 := (0x1000, 7) ]} : gmap Z (Z * Z)) in Hm. by apply lookup_singleton_Some in Hm as [<- <-]. }
  assert (∀ a A, vmareas (mp demo_mapped) !! a = Some A → a = 7 ∧ A = mapped_area) as Ha.
  { intros a A Ha. change (vmareas (mp demo_mapped)) with ({[ 7 := mapped_area ]} : gmap Z VMArea) in Ha. by apply lookup_singleton_Some in Ha as [<- <-]. }
  split.
  - apply pages_okb_sound. vm_compute. reflexivity.
  - apply caches_okb_sound. vm_compute. reflexivity.
  - reflexivity.
  - intros p pg [[-> ->]|[-> ->]]%Hpg; reflexivity.
  - reflexivity.
  - intros m p a [-> [= -> ->]]%Hm. exists (demo_pg 16 0 PAGE_STATE_ACTIVE QActive [501]), mapped_area. split; [by split|]. split_and!; [left|left|done|done| |].
    + eexists 100, _. split; reflexivity.
    + eexists. split; reflexivity.
  - intros p pg m [[-> ->]|[-> ->]]%Hpg; [|by intros ?%elem_of_nil]. intros ->%list_elem_of_singleton. by exists 7.
  - intros a A m [-> ->]%Ha ->%list_elem_of_singleton. by exists 0x1000.
  - intros p pg [[-> ->]|[-> ->]]%Hpg; [apply NoDup_singleton|constructor].
  - intros m p a pg A m' p' a' pg' A' [H1 _ _] [H2 _ _] _ _. apply Hm in H1 as [-> _]. apply Hm in H2 as [-> _]. done.
Qed.

Lemma remove_all_mappings_correct_witness :
  ∃ s' pg', vm_remove_all_page_mappings 1 0x1000 demo_mapped = Ret s' ∧ map_ok s' ∧ pages (mvm s') !! 0x1000 = Some pg' ∧ mappings pg' = [] ∧ modified pg' = true.
Proof.
  destruct (remove_all_mappings_correct 0x1000 (demo_pg 16 0 PAGE_STATE_ACTIVE QActive [501]) demo_mapped demo_mapped_ok eq_refl)
    as (s' & pg' & H1 & H2 & H3 & H4 & _ & _ & _ & H5 & _). exists s', pg'. split_and!; [done|done|rewrite H3; apply lookup_insert_eq|done|].
  assert (vm_test_map_modification 0x1000 demo_mapped = Ret true) as E by reflexivity. rewrite E in H5. by injection H5.
Defined.

Lemma remove_if_unaccessed_correct_witness :
  ∃ n s' pg', vm_remove_all_page_mappings_if_unaccessed 1 0x1000 demo_mapped = Ret (n, s') ∧ n ≠ 0 ∧ pages (mvm s') !! 0x1000 = Some pg' ∧ 501 ∈ mappings pg'.
Proof.
  destruct (remove_if_unaccessed_correct 0x1000 (demo_pg 16 0 PAGE_STATE_ACTIVE QActive [501]) demo_mapped demo_mapped_ok eq_refl eq_refl)
    as (n & s' & pg' & H1 & _ & H3 & _ & _ & _ & H5 & _ & H6 & _). exists n, s', pg'. split_and!; [done| |rewrite H3; apply lookup_insert_eq|].
  - intros E. apply H5 in E as [_ E]. vm_compute in E. done.
  - apply H6; [left|reflexivity].
Defined.

Lemma map_unmap_roundtrip_witness :
  ∃ s1 s2, map_page 7 0x1040 0x401000 3 (Some 502) demo_mapped = Ret (Ok, s1) ∧ map_ok s1 ∧ gMappedPagesCount (mp s1) = 2 ∧
    unmap_page 7 0x401000 s1 = Ret (Ok, s2) ∧ page_mappings (mp s2) = page_mappings (mp demo_mapped).
Proof.
  destruct (map_unmap_roundtrip 502 0x1040 7 3 (demo_pg 17 1 PAGE_STATE_INACTIVE QInactive []) mapped_area demo_mapped demo_mapped_ok)
    as (_ & s1 & H1 & H2 & H3 & _ & s2 & _ & _ & H4 & _ & H5 & _).
  - split; try reflexivity. eexists 100, _. split; reflexivity.
  - reflexivity.
  - exists s1, s2. split_and!; [exact H1|done|exact H3|exact H4|done].
Defined.

Lemma page_protection_roundtrip_witness :
  ∃ s1 s2, allocate_area_page_protections 7 true demo_mapped = Ret (Ok, s1) ∧ set_area_page_protection 7 0x401000 1 s1 = Ret s2 ∧
    get_area_page_protection 7 0x400000 s2 = Ret (effective_protection mapped_area 3) ∧ get_area_page_protection 7 0x401000 s2 = Ret (effective_protection mapped_area 1).
Proof.
  destruct (page_protection_roundtrip 7 mapped_area demo_mapped eq_refl) as (s1 & H1 & _ & _ & H2); [cbn; lia..|reflexivity|].
  destruct (H2 0x401000 1) as (s2 & H3 & _ & H4); [cbn; lia|]. exists s1, s2. split_and!; [done|done| |].
  - rewrite H4 by (cbn; lia). reflexivity.
  - rewrite H4 by (cbn; lia). reflexivity.
Defined.
