(* ===== verification/AreaWiring.v ===== *)
(** aspace/VMArea.cpp, VMArea.h and the waiting loops of mm.cpp: wired ranges
    of areas, the threads that wait for a range to be unwired, and the table of
    area ids.

    A thread that wants to change a wired part of an area puts a
    [VMAreaUnwiredWaiter] on the list of the range that is in its way, drops
    its locks and sleeps; [Unwire] notifies all waiters of the range.  The
    lists of ranges and waiters are protected by the lock of the top cache of
    the area, so each operation is one step.  [SinglyLinkedList::Add] puts a
    range at the head of the list, [DoublyLinkedList::Add] a waiter at the
    tail. *)
From S2P Require Import Prelude.
From Stdlib Require Import String ZArith Lia.
From stdpp Require Import base list list_numbers numbers gmap strings.
Local Open Scope Z_scope.

(** ** Wired ranges *)

Record VMAreaWiredRange := mkRange {
  r_area : option Z;
  r_base : Z;
  r_size : Z;
  r_writable : bool;
  r_implicit : bool;
  r_waiters : list Z
}.
#[export] Instance eta_VMAreaWiredRange : Eta VMAreaWiredRange := fun r =>
  mkRange (r_area r) (r_base r) (r_size r) (r_writable r) (r_implicit r) (r_waiters r).

(** [w_ignore] records the flag the waiter was added with ([None] when it waits
    for the whole area), [w_sleeps] whether its wait entry was added to the
    condition and not notified yet. *)
Record VMAreaUnwiredWaiter := mkUnwired {
  w_area : Z;
  w_base : Z;
  w_size : Z;
  w_ignore : option bool;
  w_sleeps : bool
}.
#[export] Instance eta_VMAreaUnwiredWaiter : Eta VMAreaUnwiredWaiter := fun w =>
  mkUnwired (w_area w) (w_base w) (w_size w) (w_ignore w) (w_sleeps w).

(** The part of an area that wiring looks at. *)
Record warea := mkWArea { wa_base : Z; wa_size : Z; fWiredRanges : list Z }.
#[export] Instance eta_warea : Eta warea := fun a => mkWArea (wa_base a) (wa_size a) (fWiredRanges a).

Record wstate := mkWired {
  wareas : gmap Z warea;
  ranges : gmap Z VMAreaWiredRange;
  unwired_waiters : gmap Z VMAreaUnwiredWaiter
}.
#[export] Instance eta_wstate : Eta wstate := fun s => mkWired (wareas s) (ranges s) (unwired_waiters s).

Implicit Types (s : wstate) (a r w base size : Z).

Definition IntersectsWith (R : VMAreaWiredRange) (otherBase otherSize : Z) : bool :=
  (otherBase <=? u64 (r_base R + r_size R - 1)) && (r_base R <=? u64 (otherBase + otherSize - 1)).

Definition SetTo r base size (writable implicit : bool) s : wstate :=
  s <| ranges ::= alter (fun R => R <| r_area := None |> <| r_base := base |> <| r_size := size |> <| r_writable := writable |> <| r_implicit := implicit |>) r |>.

(** The first range of the list that satisfies a condition. *)
Fixpoint find_range (f : VMAreaWiredRange → bool) (l : list Z) s : outcome (option Z) :=
  match l with
  | [] => Ret None
  | r :: l => R ← deref (ranges s !! r); if f R then Ret (Some r) else find_range f l s
  end.

Definition IsWired a base size s : outcome bool :=
  A ← deref (wareas s !! a);
  r ← find_range (fun R => IntersectsWith R base size) (fWiredRanges A) s;
  Ret (bool_decide (is_Some r)).

Definition Wire a r s : outcome wstate :=
  R ← deref (ranges s !! r);
  _ ← assert (bool_decide (r_area R = None));
  _ ← deref (wareas s !! a);
  let s := s <| ranges ::= <[r := R <| r_area := Some a |>]> |> in
  Ret (s <| wareas ::= alter (fun A => A <| fWiredRanges ::= cons r |>) a |>).

(** [condition.NotifyAll()] for every waiter on the list. *)
Definition notify (ws : list Z) (m : gmap Z VMAreaUnwiredWaiter) : gmap Z VMAreaUnwiredWaiter :=
  foldl (fun m w => alter (fun W => W <| w_sleeps := false |>) w m) m ws.

Definition Unwire a r s : outcome wstate :=
  R ← deref (ranges s !! r);
  _ ← assert (bool_decide (r_area R = Some a));
  _ ← deref (wareas s !! a);
  let s := s <| wareas ::= alter (fun A => A <| fWiredRanges ::= filter (.≠ r) |>) a |> in
  let s := s <| unwired_waiters ::= notify (r_waiters R) |> in
  Ret (s <| ranges ::= <[r := R <| r_area := None |> <| r_waiters := [] |>]> |>).

(** [Unwire] of the first implicit range with these attributes. *)
Definition Unwire_matching a base size (writable : bool) s : outcome (Z * wstate) :=
  A ← deref (wareas s !! a);
  o ← find_range (fun R => r_implicit R && (r_base R =? base) && (r_size R =? size) && bool_decide (r_writable R = writable)) (fWiredRanges A) s;
  r ← deref o;
  s ← Unwire a r s;
  Ret (r, s).

Definition add_waiter w a base size (ignore : option bool) r s : wstate :=
  let s := s <| unwired_waiters ::= <[w := mkUnwired a base size ignore true]> |> in
  s <| ranges ::= alter (fun R => R <| r_waiters ::= fun l => app l [w] |>) r |>.

(** [AddWaiterIfWired] for the whole area: waits for the first range. *)
Definition AddWaiterIfWired w a s : outcome (bool * wstate) :=
  A ← deref (wareas s !! a);
  match fWiredRanges A with
  | [] => Ret (false, s)
  | r :: _ => Ret (true, add_waiter w a (wa_base A) (wa_size A) None r s)
  end.

(** [AddWaiterIfWired] for a range; [ignore] is IGNORE_WRITE_WIRED_RANGES. *)
Definition in_the_way (ignore : bool) base size (R : VMAreaWiredRange) : bool :=
  negb (ignore && r_writable R) && IntersectsWith R base size.

Definition AddWaiterIfRangeWired w a base size (ignore : bool) s : outcome (bool * wstate) :=
  A ← deref (wareas s !! a);
  o ← find_range (in_the_way ignore base size) (fWiredRanges A) s;
  match o with
  | None => Ret (false, s)
  | Some r => Ret (true, add_waiter w a base size (Some ignore) r s)
  end.

(** [wait_if_area_is_wired], [wait_if_area_range_is_wired] and
    [wait_if_address_range_is_wired]: the result says that the thread has to
    sleep (it drops its locks and waits for its entry) and to start over.  The
    areas of the range are what the iterator of the address space returns. *)
Definition wait_if_area_is_wired w a s : outcome (bool * wstate) := AddWaiterIfWired w a s.
Definition wait_if_area_range_is_wired w a base size s : outcome (bool * wstate) := AddWaiterIfRangeWired w a base size false s.

Fixpoint wait_if_address_range_is_wired w (areas : list Z) base size s : outcome (bool * wstate) :=
  match areas with
  | [] => Ret (false, s)
  | a :: areas =>
      '(waits, s) ← wait_if_area_range_is_wired w a base size s;
      if (waits : bool) then Ret (true, s) else wait_if_address_range_is_wired w areas base size s
  end.

(** ** What threads do to the wired ranges *)

Inductive wire_step s : wstate → Prop :=
  | step_prepare r base size writable implicit R : ranges s !! r = Some R → r_area R = None →
      wire_step s (SetTo r base size writable implicit s)
  | step_wire a r s' : Wire a r s = Ret s' → wire_step s s'
  | step_unwire a r s' : Unwire a r s = Ret s' → wire_step s s'
  | step_unwire_matching a base size writable r s' : Unwire_matching a base size writable s = Ret (r, s') → wire_step s s'
  | step_wait_area w a b s' : unwired_waiters s !! w = None → wait_if_area_is_wired w a s = Ret (b, s') → wire_step s s'
  | step_wait_range w a base size ignore b s' : unwired_waiters s !! w = None → AddWaiterIfRangeWired w a base size ignore s = Ret (b, s') → wire_step s s'
  | step_wait_ranges w areas base size b s' : unwired_waiters s !! w = None → wait_if_address_range_is_wired w areas base size s = Ret (b, s') → wire_step s s'
  | step_resume w W : unwired_waiters s !! w = Some W → w_sleeps W = false → wire_step s (s <| unwired_waiters ::= delete w |>)
  | step_new_range r R : ranges s !! r = None → r_area R = None → r_waiters R = [] → wire_step s (s <| ranges ::= <[r := R]> |>).

(** ** The table of area ids *)

Record harea := mkHArea { h_id : Z; h_name : string; h_space : Z }.
#[export] Instance eta_harea : Eta harea := fun h => mkHArea (h_id h) (h_name h) (h_space h).

Record hstate := mkHash { hareas : gmap Z harea; sTable : gmap Z Z; sNextAreaId : Z }.
#[export] Instance eta_hstate : Eta hstate := fun h => mkHash (hareas h) (sTable h) (sNextAreaId h).

Definition INT32_MAX : Z := 2147483647.

Definition LookupLocked (id : Z) (h : hstate) : option Z := sTable h !! id.
Definition Lookup (id : Z) (h : hstate) : option Z := LookupLocked id h.

Definition LookupIn (id addressSpace : Z) (h : hstate) : outcome (option Z) :=
  match LookupLocked id h with
  | None => Ret None
  | Some a => H ← deref (hareas h !! a); Ret (if h_space H =? addressSpace then Some a else None)
  end.

Fixpoint find_name (name : string) (l : list Z) (h : hstate) : outcome (Z + errno) :=
  match l with
  | [] => Ret (inr ENOENT)
  | a :: l => H ← deref (hareas h !! a); if String.eqb (h_name H) name then Ret (inl (h_id H)) else find_name name l h
  end.

(** [VMAreaHash::Find] walks over the table. *)
Definition Find (name : string) (h : hstate) : outcome (Z + errno) := find_name name (map_to_list (sTable h)).*2 h.

Definition next_area_id (id : Z) : Z :=
  let id := i32 (id + 1) in
  if id <? 1 then 1 else if INT32_MAX - 0xf <? id then 1 else id.

(** The loop of [VMAreaHash::Insert]. *)
Fixpoint pick_id (fuel : nat) (id : Z) (t : gmap Z Z) : outcome Z :=
  match fuel with
  | O => NoFuel
  | S fuel => let id := next_area_id id in if decide (is_Some (t !! id)) then pick_id fuel id t else Ret id
  end.

Definition Insert (fuel : nat) (a : Z) (h : hstate) : outcome hstate :=
  _ ← deref (hareas h !! a);
  id ← pick_id fuel (sNextAreaId h) (sTable h);
  Ret (h <| sNextAreaId := id |> <| hareas ::= alter (fun H => H <| h_id := id |>) a |> <| sTable ::= <[id := a]> |>).

Definition Remove (a : Z) (h : hstate) : outcome hstate :=
  H ← deref (hareas h !! a);
  Ret (if decide (sTable h !! h_id H = Some a) then h <| sTable ::= delete (h_id H) |> else h).

(** ** Invariant *)

(** Range [R] is what waiter [W] waits for. *)
Definition blocks (W : VMAreaUnwiredWaiter) (R : VMAreaWiredRange) : Prop :=
  r_area R = Some (w_area W) ∧ match w_ignore W with None => True | Some ignore => in_the_way ignore (w_base W) (w_size W) R = true end.

Record wired_ok s : Prop := {
  wi_area : ∀ a A r, wareas s !! a = Some A → r ∈ fWiredRanges A → ∃ R, ranges s !! r = Some R ∧ r_area R = Some a;
  wi_range : ∀ r R a, ranges s !! r = Some R → r_area R = Some a → ∃ A, wareas s !! a = Some A ∧ r ∈ fWiredRanges A;
  wi_nodup : ∀ a A, wareas s !! a = Some A → NoDup (fWiredRanges A);
  wi_queued : ∀ r R w, ranges s !! r = Some R → w ∈ r_waiters R → ∃ W, unwired_waiters s !! w = Some W ∧ w_sleeps W = true ∧ blocks W R;
  wi_unique : ∀ r R r' R' w, ranges s !! r = Some R → ranges s !! r' = Some R' → w ∈ r_waiters R → w ∈ r_waiters R' → r = r';
  wi_sleeps : ∀ w W, unwired_waiters s !! w = Some W → w_sleeps W = true → ∃ r R, ranges s !! r = Some R ∧ w ∈ r_waiters R
}.

Lemma unwired_no_waiters s r R : wired_ok s → ranges s !! r = Some R → r_area R = None → r_waiters R = [].
Proof.
  intros Hok HR Ha. destruct (r_waiters R) as [|w l] eqn:E; [done|]. destruct (wi_queued s Hok r R w HR) as (W & _ & _ & Hb & _); [rewrite E; left|]. congruence.
Qed.

Lemma notify_lookup ws : ∀ (m : gmap Z VMAreaUnwiredWaiter) w,
  notify ws m !! w = if decide (w ∈ ws) then (fun W => W <| w_sleeps := false |>) <$> m !! w else m !! w.
Proof.
  induction ws as [|x ws IH]; intros m w; [by rewrite decide_False by apply not_elem_of_nil|]. unfold notify in *. cbn [foldl]. rewrite IH.
  destruct (decide (x = w)) as [->|Hx].
  - rewrite lookup_alter_eq, (decide_True (P := w ∈ w :: ws)) by left. by case_decide; destruct (m !! w).
  - rewrite lookup_alter_ne by done. destruct (decide (w ∈ ws)); [rewrite decide_True by (by right); done|].
    rewrite decide_False; [done|]. intros [E|?]%elem_of_cons; [by apply Hx|done].
Qed.

Lemma find_range_spec f l s :
  (∀ r, r ∈ l → is_Some (ranges s !! r)) →
  ∃ o, find_range f l s = Ret o ∧ match o with
    | Some r => r ∈ l ∧ ∃ R, ranges s !! r = Some R ∧ f R = true
    | None => ∀ r R, r ∈ l → ranges s !! r = Some R → f R = false end.
Proof.
  induction l as [|r l IH]; intros Hl; cbn [find_range]; [exists None; split; [done|by intros ?? ?%elem_of_nil]|].
  destruct (Hl r) as [R HR]; [left|]. rewrite HR. cbn [deref mbind outcome_bind]. destruct (f R) eqn:E.
  - exists (Some r). split; [done|]. split; [left|eauto].
  - destruct IH as (o & -> & Ho); [intros x Hx; apply Hl; by right|]. exists o. split; [done|]. destruct o as [r'|].
    + destruct Ho as [Hr' ?]. split; [by right|done].
    + intros x X [->|Hx]%elem_of_cons HX; [congruence|by apply (Ho x)].
Qed.

Lemma area_ranges s a A : wired_ok s → wareas s !! a = Some A → ∀ r, r ∈ fWiredRanges A → is_Some (ranges s !! r).
Proof. intros Hok HA r Hr. destruct (wi_area s Hok a A r HA Hr) as (R & HR & _). eauto. Qed.

Lemma SetTo_ok r base size writable implicit R s :
  wired_ok s → ranges s !! r = Some R → r_area R = None → wired_ok (SetTo r base size writable implicit s).
Proof.
  intros Hok HR Ha. pose proof (unwired_no_waiters s r R Hok HR Ha) as Hw. unfold SetTo. set (f := fun R => _ <| r_implicit := implicit |>).
  assert (∀ x X', alter f r (ranges s) !! x = Some X' → ∃ X, ranges s !! x = Some X ∧ r_waiters X' = r_waiters X ∧ r_area X' = r_area X ∧ (x = r ∨ X' = X)) as Hback.
  { intros x X'. destruct (decide (r = x)) as [<-|Hx]; [rewrite lookup_alter_eq, HR|rewrite lookup_alter_ne by done; intros HX; exists X'; split_and!; auto].
    cbn. intros [= <-]. exists R. split_and!; auto. }
  assert (∀ x X, ranges s !! x = Some X → ∃ X', alter f r (ranges s) !! x = Some X' ∧ r_waiters X' = r_waiters X ∧ r_area X' = r_area X) as Hfwd.
  { intros x X HX. destruct (decide (r = x)) as [<-|Hx]; [|exists X; by rewrite lookup_alter_ne].
    rewrite HR in HX. injection HX as <-. exists (f R). rewrite lookup_alter_eq, HR. split_and!; done. }
  split; cbn.
  - intros a A x HA Hx. destruct (wi_area s Hok a A x HA Hx) as (X & HX & HXa). destruct (Hfwd x X HX) as (X' & ? & _ & ?). exists X'. split; [done|congruence].
  - intros x X' a HX' HXa. destruct (Hback x X' HX') as (X & HX & _ & E & _). apply (wi_range s Hok x X); congruence.
  - apply (wi_nodup s Hok).
  - intros x X' w HX' Hin. destruct (Hback x X' HX') as (X & HX & E1 & _ & [->| ->]).
    + rewrite HR in HX. injection HX as <-. rewrite E1, Hw in Hin. by apply elem_of_nil in Hin.
    + by apply (wi_queued s Hok x X).
  - intros x X' y Y' w HX' HY' Hx Hy. destruct (Hback x X' HX') as (X & HX & E1 & _). destruct (Hback y Y' HY') as (Y & HY & E2 & _).
    apply (wi_unique s Hok x X y Y w); congruence.
  - intros w W HW Hs. destruct (wi_sleeps s Hok w W HW Hs) as (x & X & HX & Hx). destruct (Hfwd x X HX) as (X' & ? & E & _). exists x, X'. split; [done|congruence].
Qed.

Lemma Wire_ok a r A R s :
  wired_ok s → wareas s !! a = Some A → ranges s !! r = Some R → r_area R = None →
  ∃ s', Wire a r s = Ret s' ∧ wired_ok s' ∧ unwired_waiters s' = unwired_waiters s ∧
    wareas s' = <[a := A <| fWiredRanges ::= cons r |>]> (wareas s) ∧ ranges s' = <[r := R <| r_area := Some a |>]> (ranges s).
Proof.
  intros Hok HA HR Hn. unfold Wire. rewrite HR. cbn [deref mbind outcome_bind]. rewrite bool_decide_eq_true_2 by done. cbn [assert mbind outcome_bind].
  rewrite HA. cbn [deref mbind outcome_bind]. eexists. split; [reflexivity|].
  set (A' := A <| fWiredRanges ::= cons r |>). set (R' := R <| r_area := Some a |>). set (s' := _ <| wareas ::= _ |>).
  assert (wareas s' = <[a := A']> (wareas s)) as Ea.
  { unfold s'. cbn. apply map_eq. intros b. destruct (decide (a = b)) as [<-|Hb]; [by rewrite lookup_alter_eq, lookup_insert_eq, HA|by rewrite lookup_alter_ne, lookup_insert_ne]. }
  assert (ranges s' = <[r := R']> (ranges s)) as Er by done. pose proof (unwired_no_waiters s r R Hok HR Hn) as Hw.
  assert (∀ b B, wareas s !! b = Some B → r ∉ fWiredRanges B) as Hni.
  { intros b B HB Hin. destruct (wi_area s Hok b B r HB Hin) as (? & ? & ?). congruence. }
  split_and!; try done. split.
  - intros b B x. rewrite Ea, Er. intros [[<- <-]|[Hb HB]]%lookup_insert_Some.
    + cbn. intros [->|Hx]%elem_of_cons; [exists R'; by rewrite lookup_insert_eq|]. destruct (wi_area s Hok a A x HA Hx) as (X & HX & HXa).
      exists X. rewrite lookup_insert_ne; [done|]. intros ->. by apply (Hni a A).
    + intros Hx. destruct (wi_area s Hok b B x HB Hx) as (X & HX & HXa). exists X. rewrite lookup_insert_ne; [done|]. intros ->. by apply (Hni b B).
  - intros x X b. rewrite Ea, Er. intros [[<- <-]|[Hx HX]]%lookup_insert_Some.
    + intros [= <-]. exists A'. rewrite lookup_insert_eq. split; [done|left].
    + intros HXb. destruct (wi_range s Hok x X b HX HXb) as (B & HB & Hin). destruct (decide (a = b)) as [<-|Hb].
      * exists A'. rewrite lookup_insert_eq. split; [done|]. right. congruence.
      * exists B. by rewrite lookup_insert_ne.
  - intros b B. rewrite Ea. intros [[<- <-]|[_ HB]]%lookup_insert_Some; [|by apply (wi_nodup s Hok b)]. constructor; [by apply (Hni a)|by apply (wi_nodup s Hok a)].
  - intros x X w. rewrite Er. intros [[<- <-]|[_ HX]]%lookup_insert_Some; [|by apply (wi_queued s Hok x)]. cbn. rewrite Hw. by intros ?%elem_of_nil.
  - intros x X y Y w. rewrite Er. intros [[<- <-]|[_ HX]]%lookup_insert_Some; [cbn; rewrite Hw; by intros _ ?%elem_of_nil|].
    intros [[<- <-]|[_ HY]]%lookup_insert_Some; [cbn; rewrite Hw; by intros _ ?%elem_of_nil|]. by apply (wi_unique s Hok x X y Y).
  - intros w W HW Hs. destruct (wi_sleeps s Hok w W HW Hs) as (x & X & HX & Hin). exists x, X. rewrite Er, lookup_insert_ne; [done|].
    intros ->. rewrite HR in HX. injection HX as <-. rewrite Hw in Hin. by apply elem_of_nil in Hin.
Qed.

Lemma Unwire_ok a r R s :
  wired_ok s → ranges s !! r = Some R → r_area R = Some a →
  ∃ s' A, Unwire a r s = Ret s' ∧ wired_ok s' ∧ wareas s !! a = Some A ∧ wareas s' = <[a := A <| fWiredRanges ::= filter (.≠ r) |>]> (wareas s) ∧
    ranges s' = <[r := R <| r_area := None |> <| r_waiters := [] |>]> (ranges s) ∧ unwired_waiters s' = notify (r_waiters R) (unwired_waiters s).
Proof.
  intros Hok HR Hn. destruct (wi_range s Hok r R a HR Hn) as (A & HA & HrA).
  unfold Unwire. rewrite HR. cbn [deref mbind outcome_bind]. rewrite bool_decide_eq_true_2 by done. cbn [assert mbind outcome_bind].
  rewrite HA. cbn [deref mbind outcome_bind]. eexists _, A. split; [reflexivity|].
  set (A' := A <| fWiredRanges ::= filter (.≠ r) |>). set (R' := R <| r_area := None |> <| r_waiters := [] |>). set (s' := _ <| ranges ::= _ |>).
  assert (wareas s' = <[a := A']> (wareas s)) as Ea.
  { unfold s'. cbn. apply map_eq. intros b. destruct (decide (a = b)) as [<-|Hb]; [by rewrite lookup_alter_eq, lookup_insert_eq, HA|by rewrite lookup_alter_ne, lookup_insert_ne]. }
  assert (ranges s' = <[r := R']> (ranges s)) as Er by done. assert (unwired_waiters s' = notify (r_waiters R) (unwired_waiters s)) as Eu by done.
  split_and!; try done. split.
  - intros b B x. rewrite Ea, Er. intros [[<- <-]|[Hb HB]]%lookup_insert_Some.
    + cbn. rewrite list_elem_of_filter. intros [Hxr Hx]. rewrite lookup_insert_ne by (by apply not_eq_sym). by apply (wi_area s Hok a A).
    + intros Hx. destruct (wi_area s Hok b B x HB Hx) as (X & HX & HXa). exists X. rewrite lookup_insert_ne; [done|]. intros ->. congruence.
  - intros x X b. rewrite Ea, Er. intros [[<- <-]|[Hx HX]]%lookup_insert_Some; [done|].
    intros HXb. destruct (wi_range s Hok x X b HX HXb) as (B & HB & Hin). destruct (decide (a = b)) as [<-|Hb].
    + exists A'. rewrite lookup_insert_eq. split; [done|]. cbn. rewrite list_elem_of_filter. split; [by apply not_eq_sym|congruence].
    + exists B. by rewrite lookup_insert_ne.
  - intros b B. rewrite Ea. intros [[<- <-]|[_ HB]]%lookup_insert_Some; [|by apply (wi_nodup s Hok b)]. apply NoDup_filter. by apply (wi_nodup s Hok a).
  - intros x X w. rewrite Er, Eu. intros [[<- <-]|[Hx HX]]%lookup_insert_Some; [by intros ?%elem_of_nil|]. intros Hin.
    rewrite notify_lookup, decide_False; [by apply (wi_queued s Hok x)|]. intros Hin2. apply Hx. by apply (wi_unique s Hok r R x X w).
  - intros x X y Y w. rewrite Er. intros [[<- <-]|[_ HX]]%lookup_insert_Some; [by intros _ ?%elem_of_nil|].
    intros [[<- <-]|[_ HY]]%lookup_insert_Some; [by intros _ ?%elem_of_nil|]. by apply (wi_unique s Hok x X y Y).
  - intros w W. rewrite Eu, notify_lookup, Er. destruct (decide (w ∈ r_waiters R)) as [Hin|Hin].
    + destruct (unwired_waiters s !! w) as [W0|]; cbn; [|done]. by intros [= <-].
    + intros HW Hs. destruct (wi_sleeps s Hok w W HW Hs) as (x & X & HX & Hx). exists x, X. rewrite lookup_insert_ne; [done|]. intros ->. congruence.
Qed.

Lemma add_waiter_ok w a base size ignore r R s :
  wired_ok s → unwired_waiters s !! w = None → ranges s !! r = Some R → blocks (mkUnwired a base size ignore true) R →
  wired_ok (add_waiter w a base size ignore r s).
Proof.
  intros Hok Hw HR Hb. set (s' := add_waiter w a base size ignore r s). set (R' := R <| r_waiters ::= fun l => app l [w] |>).
  assert (ranges s' = <[r := R']> (ranges s)) as Er.
  { unfold s', add_waiter. cbn. apply map_eq. intros x. destruct (decide (r = x)) as [<-|Hx]; [by rewrite lookup_alter_eq, lookup_insert_eq, HR|by rewrite lookup_alter_ne, lookup_insert_ne]. }
  assert (unwired_waiters s' = <[w := mkUnwired a base size ignore true]> (unwired_waiters s)) as Eu by done.
  assert (∀ x X, ranges s !! x = Some X → w ∉ r_waiters X) as Hni.
  { intros x X HX Hin. destruct (wi_queued s Hok x X w HX Hin) as (? & ? & _). congruence. }
  assert (∀ x X', ranges s' !! x = Some X' → ∃ X, ranges s !! x = Some X ∧ r_area X' = r_area X ∧ (∀ V, blocks V X → blocks V X') ∧
    ∀ v, v ∈ r_waiters X' ↔ v ∈ r_waiters X ∨ x = r ∧ v = w) as Hback.
  { intros x X'. rewrite Er. intros [[<- <-]|[Hx HX]]%lookup_insert_Some.
    - exists R. split_and!; [done..|]. intros v. unfold R', update. cbn. rewrite elem_of_app, list_elem_of_singleton. tauto.
    - exists X'. split_and!; [done..|]. intros v. split; [auto|]. by intros [?|[<- _]]. }
  assert (∀ x X, ranges s !! x = Some X → ∃ X', ranges s' !! x = Some X' ∧ r_area X' = r_area X ∧ ∀ v, v ∈ r_waiters X → v ∈ r_waiters X') as Hfwd.
  { intros x X HX. rewrite Er. destruct (decide (r = x)) as [<-|Hx]; [|exists X; by rewrite lookup_insert_ne].
    rewrite HR in HX. injection HX as <-. exists R'. rewrite lookup_insert_eq. split_and!; [done..|]. intros v Hv. unfold R', update. cbn. apply elem_of_app. by left. }
  split.
  - intros b B x HB Hx. destruct (wi_area s Hok b B x HB Hx) as (X & HX & HXa). destruct (Hfwd x X HX) as (X' & ? & ? & _). exists X'. split; [done|congruence].
  - intros x X' b HX' Hb'. destruct (Hback x X' HX') as (X & HX & E & _). apply (wi_range s Hok x X); congruence.
  - apply (wi_nodup s Hok).
  - intros x X' v HX' Hv. destruct (Hback x X' HX') as (X & HX & _ & Hbl & Eq). rewrite Eu. destruct (proj1 (Eq v) Hv) as [Hv1|[-> ->]].
    + destruct (wi_queued s Hok x X v HX Hv1) as (V & HV & H1 & H2). exists V. rewrite lookup_insert_ne; [auto|]. intros ->. congruence.
    + eexists. rewrite lookup_insert_eq. split; [done|]. split; [done|]. apply Hbl. congruence.
  - intros x X' y Y' v HX' HY' Hx Hy. destruct (Hback x X' HX') as (X & HX & _ & _ & Eq). destruct (Hback y Y' HY') as (Y & HY & _ & _ & Eq').
    destruct (proj1 (Eq v) Hx) as [Hx1|[Ex Ev]], (proj1 (Eq' v) Hy) as [Hy1|[Ey Ev']].
    + by apply (wi_unique s Hok x X y Y v).
    + destruct (Hni x X HX). congruence.
    + destruct (Hni y Y HY). congruence.
    + congruence.
  - intros v V. rewrite Eu. intros [[<- <-]|[Hv HV]]%lookup_insert_Some Hs.
    + exists r, R'. rewrite Er, lookup_insert_eq. split; [done|]. unfold R', update. cbn. apply elem_of_app. right. by apply list_elem_of_singleton.
    + destruct (wi_sleeps s Hok v V HV Hs) as (x & X & HX & Hin). destruct (Hfwd x X HX) as (X' & ? & _ & Hi). eauto.
Qed.

Lemma AddWaiter_ok w a A base size ignore s :
  wired_ok s → wareas s !! a = Some A →
  (AddWaiterIfRangeWired w a base size ignore s = Ret (false, s) ∧
     ∀ r R, r ∈ fWiredRanges A → ranges s !! r = Some R → in_the_way ignore base size R = false) ∨
  (∃ r R, r ∈ fWiredRanges A ∧ ranges s !! r = Some R ∧ in_the_way ignore base size R = true ∧
     AddWaiterIfRangeWired w a base size ignore s = Ret (true, add_waiter w a base size (Some ignore) r s)).
Proof.
  intros Hok HA. unfold AddWaiterIfRangeWired. rewrite HA. cbn [deref mbind outcome_bind].
  destruct (find_range_spec (in_the_way ignore base size) (fWiredRanges A) s (area_ranges s a A Hok HA)) as ([r|] & -> & Ho); cbn [mbind outcome_bind].
  - right. destruct Ho as (Hr & R & HR & Hf). exists r, R. done.
  - left. done.
Qed.

Lemma AddWaiter_keeps w a base size ignore b s s' :
  wired_ok s → unwired_waiters s !! w = None → AddWaiterIfRangeWired w a base size ignore s = Ret (b, s') →
  wired_ok s' ∧ (b = false → s' = s).
Proof.
  intros Hok Hw H. destruct (wareas s !! a) as [A|] eqn:HA; [|by unfold AddWaiterIfRangeWired in H; rewrite HA in H].
  destruct (AddWaiter_ok w a A base size ignore s Hok HA) as [[E _]|(r & R & Hr & HR & Hf & E)]; rewrite E in H; injection H as <- <-; [done|].
  split; [|done]. apply (add_waiter_ok w a base size (Some ignore) r R); try done. split; [|done].
  destruct (wi_area s Hok a A r HA Hr) as (R2 & HR2 & Ha). cbn. congruence.
Qed.

Lemma wait_ranges_keeps w areas base size : ∀ b s s',
  wired_ok s → unwired_waiters s !! w = None → wait_if_address_range_is_wired w areas base size s = Ret (b, s') → wired_ok s' ∧ (b = false → s' = s).
Proof.
  induction areas as [|a areas IH]; intros b s s' Hok Hw; cbn [wait_if_address_range_is_wired]; [by intros [= <- <-]|].
  unfold wait_if_area_range_is_wired. destruct (AddWaiterIfRangeWired w a base size false s) as [[b1 s1]| |] eqn:E; cbn [mbind outcome_bind]; [|done..].
  destruct (AddWaiter_keeps _ _ _ _ _ _ _ _ Hok Hw E) as [Hok1 Hs1]. destruct b1; [by intros [= <- <-]|]. rewrite (Hs1 eq_refl). by apply IH.
Qed.

(** Each operation keeps the invariant. *)
Lemma wire_step_ok s s' : wired_ok s → wire_step s s' → wired_ok s'.
Proof.
  intros Hok Hst. destruct Hst as [r base size writable implicit R HR Ha|a r s' H|a r s' H|a base size writable r s' H|w a b s' Hw H|
    w a base size ignore b s' Hw H|w areas base size b s' Hw H|w W HW Hs|r R HR Ha Hws].
  - by apply (SetTo_ok r base size writable implicit R).
  - pose proof H as H0. unfold Wire in H. destruct (ranges s !! r) as [R|] eqn:HR; cbn [deref mbind outcome_bind] in H; [|done].
    destruct (bool_decide (r_area R = None)) eqn:Eb; cbn [assert mbind outcome_bind] in H; [|done]. apply bool_decide_eq_true in Eb.
    destruct (wareas s !! a) as [A|] eqn:HA; cbn [deref mbind outcome_bind] in H; [|done]. destruct (Wire_ok a r A R s Hok HA HR Eb) as (s1 & H1 & Hok1 & _). congruence.
  - pose proof H as H0. unfold Unwire in H. destruct (ranges s !! r) as [R|] eqn:HR; cbn [deref mbind outcome_bind] in H; [|done].
    destruct (bool_decide (r_area R = Some a)) eqn:Eb; cbn [assert mbind outcome_bind] in H; [|done]. apply bool_decide_eq_true in Eb.
    destruct (Unwire_ok a r R s Hok HR Eb) as (s1 & A & H1 & Hok1 & _). congruence.
  - unfold Unwire_matching in H. destruct (wareas s !! a) as [A|] eqn:HA; cbn [deref mbind outcome_bind] in H; [|done].
    destruct (find_range_spec (fun R => r_implicit R && (r_base R =? base) && (r_size R =? size) && bool_decide (r_writable R = writable))
      (fWiredRanges A) s (area_ranges s a A Hok HA)) as ([x|] & E & Ho); rewrite E in H; cbn [deref mbind outcome_bind] in H; [|done].
    destruct Ho as (Hx & R & HR & _). destruct (wi_area s Hok a A x HA Hx) as (R2 & HR2 & Ha). rewrite HR in HR2. injection HR2 as <-.
    destruct (Unwire_ok a x R s Hok HR Ha) as (s1 & _ & H1 & Hok1 & _). rewrite H1 in H. cbn [mbind outcome_bind] in H. congruence.
  - unfold wait_if_area_is_wired, AddWaiterIfWired in H. destruct (wareas s !! a) as [A|] eqn:HA; cbn [deref mbind outcome_bind] in H; [|done].
    destruct (fWiredRanges A) as [|r l] eqn:El; [congruence|]. injection H as <- <-.
    destruct (wi_area s Hok a A r HA) as (R & HR & Ha); [rewrite El; left|]. by apply (add_waiter_ok w a _ _ None r R).
  - by destruct (AddWaiter_keeps _ _ _ _ _ _ _ _ Hok Hw H).
  - by destruct (wait_ranges_keeps _ _ _ _ _ _ _ Hok Hw H).
  - destruct Hok as [H1 H2 H3 H4 H5 H6]. split; cbn; try done.
    + intros r R v HR Hv. destruct (H4 r R v HR Hv) as (V & HV & HVs & HVb). exists V. rewrite lookup_delete_ne; [done|]. intros ->. congruence.
    + intros v V [_ HV]%lookup_delete_Some. by apply H6.
  - destruct Hok as [H1 H2 H3 H4 H5 H6]. split; cbn.
    + intros a A x HA Hx. destruct (H1 a A x HA Hx) as (X & HX & HXa). exists X. rewrite lookup_insert_ne; [done|]. intros ->. congruence.
    + intros x X a [[<- <-]|[_ HX]]%lookup_insert_Some; [congruence|by apply (H2 x)].
    + done.
    + intros x X w [[<- <-]|[_ HX]]%lookup_insert_Some; [rewrite Hws; by intros ?%elem_of_nil|by apply (H4 x)].
    + intros x X y Y w [[<- <-]|[_ HX]]%lookup_insert_Some; [rewrite Hws; by intros _ ?%elem_of_nil|].
      intros [[<- <-]|[_ HY]]%lookup_insert_Some; [rewrite Hws; by intros _ ?%elem_of_nil|]. by apply (H5 x X y Y).
    + intros w W HW HWs. destruct (H6 w W HW HWs) as (x & X & HX & Hin). exists x, X. rewrite lookup_insert_ne; [done|]. intros ->. congruence.
Qed.

(** Areas without wired ranges and nobody waiting. *)
Definition wired_init (areas : gmap Z (Z * Z)) : wstate := mkWired ((fun '(b, n) => mkWArea b n []) <$> areas) ∅ ∅.

Lemma wired_init_ok areas : wired_ok (wired_init areas).
Proof.
  split; cbn; try done.
  - intros a A r HA Hr. apply lookup_fmap_Some in HA as ([b n] & <- & _). by apply elem_of_nil in Hr.
  - intros a A HA. apply lookup_fmap_Some in HA as ([b n] & <- & _). constructor.
Qed.

Lemma wired_reachable areas s : rtc wire_step (wired_init areas) s → wired_ok s.
Proof.
  intros H. remember (wired_init areas) as s0 eqn:E. assert (wired_ok s0) as Hok by (rewrite E; apply wired_init_ok). clear E.
  induction H as [|s0 s1 s2 Hst _ IH]; [done|]. apply IH. by apply (wire_step_ok s0).
Qed.

(** Two nonempty ranges of addresses that do not wrap around. *)
Definition range_ok base size : Prop := 0 <= base ∧ 0 < size ∧ base + size <= 2 ^ 64.

Lemma intersects_overlap R base size : range_ok (r_base R) (r_size R) → range_ok base size →
  IntersectsWith R base size = true ↔ ∃ x, base <= x < base + size ∧ r_base R <= x < r_base R + r_size R.
Proof.
  intros (H1 & H2 & H3) (H4 & H5 & H6). unfold IntersectsWith. rewrite !wrap_small by (unfold fits; lia). rewrite andb_true_iff, !Z.leb_le. split.
  - intros [? ?]. exists (Z.max base (r_base R)). lia.
  - intros (x & ? & ?). lia.
Qed.

(** The areas of a range, one after the other. *)
Lemma wait_ranges_ok w base size areas : ∀ s, wired_ok s → (∀ a, a ∈ areas → is_Some (wareas s !! a)) →
  ∃ b s', wait_if_address_range_is_wired w areas base size s = Ret (b, s') ∧
    (b = true ↔ ∃ a A r R, a ∈ areas ∧ wareas s !! a = Some A ∧ r ∈ fWiredRanges A ∧ ranges s !! r = Some R ∧ IntersectsWith R base size = true) ∧
    (b = false → s' = s) ∧
    (b = true → ∃ a r R, ranges s !! r = Some R ∧ r_area R = Some a ∧ a ∈ areas ∧ IntersectsWith R base size = true ∧ s' = add_waiter w a base size (Some false) r s).
Proof.
  induction areas as [|a areas IH]; intros s Hok Hin; cbn [wait_if_address_range_is_wired].
  - exists false, s. split_and!; try done. split; [done|]. intros (a & A & r & R & H & _). by apply elem_of_nil in H.
  - destruct (Hin a) as [A HA]; [left|]. unfold wait_if_area_range_is_wired.
    destruct (AddWaiter_ok w a A base size false s Hok HA) as [[E Hno]|(r & R & Hr & HR & Hf & E)]; rewrite E; cbn [mbind outcome_bind].
    + destruct (IH s Hok) as (b & s' & E' & Hb & Hf & Ht); [intros x Hx; apply Hin; by right|]. exists b, s'. split; [done|]. split; [|split; [done|]].
      * rewrite Hb. split.
        -- intros (x & X & r & R & Hx & H). exists x, X, r, R. split; [by right|done].
        -- intros (x & X & r & R & [->|Hx]%elem_of_cons & HX & Hr & HR & Hi); [|by exists x, X, r, R].
           rewrite HA in HX. injection HX as <-. pose proof (Hno r R Hr HR) as Hn. unfold in_the_way in Hn. cbn in Hn. congruence.
      * intros Hbt. destruct (Ht Hbt) as (x & r & R & H1 & H2 & H3 & H4). exists x, r, R. split_and!; try done; try apply H4. by right.
    + destruct (wi_area s Hok a A r HA Hr) as (R2 & HR2 & Ha). rewrite HR in HR2. injection HR2 as <-. exists true, (add_waiter w a base size (Some false) r s).
      split_and!; try done.
      * split; [|done]. intros _. exists a, A, r, R. split_and!; try done. left.
      * intros _. exists a, r, R. split_and!; try done. left.
Qed.

(** ** Fresh area ids *)

Definition ID_LIMIT : Z := INT32_MAX - 0xf.

Lemma next_area_id_cycle id : 0 <= id <= ID_LIMIT → next_area_id id = id mod ID_LIMIT + 1 ∧ 1 <= next_area_id id <= ID_LIMIT.
Proof.
  unfold next_area_id, ID_LIMIT, INT32_MAX. intros H. rewrite i32_small by lia.
  destruct (Z.ltb_spec (id + 1) 1) as [?|_]; [lia|]. destruct (Z.ltb_spec (2147483647 - 15) (id + 1)) as [E|E].
  - assert (id = 2147483632) as -> by lia. split; [reflexivity|lia].
  - rewrite Z.mod_small by lia. lia.
Qed.

(** The candidates of the loop, in order. *)
Fixpoint candidates (n : nat) (id : Z) : list Z :=
  match n with O => [] | S n => let id := next_area_id id in id :: candidates n id end.

Lemma candidates_length n : ∀ id, length (candidates n id) = n.
Proof. induction n as [|n IH]; intros; cbn [candidates length]; [done|]. by rewrite IH. Qed.

Lemma candidates_lookup n : ∀ id k x, 0 <= id <= ID_LIMIT → candidates n id !! k = Some x → x = (id + Z.of_nat k) mod ID_LIMIT + 1.
Proof.
  induction n as [|n IH]; intros id k x Hid; cbn [candidates]; [by rewrite lookup_nil|].
  destruct (next_area_id_cycle id Hid) as [E Hb]. destruct k as [|k]; cbn [lookup list_lookup].
  - intros [= <-]. by rewrite E, Z.add_0_r.
  - intros Hx. assert (0 <= next_area_id id <= ID_LIMIT) as Hb' by lia. rewrite (IH _ k x Hb' Hx), E. f_equal. unfold ID_LIMIT, INT32_MAX in *.
    transitivity ((id mod (2147483647 - 15) + (1 + Z.of_nat k)) mod (2147483647 - 15)); [f_equal; lia|].
    rewrite Z.add_mod_idemp_l by lia. f_equal. lia.
Qed.

Lemma candidates_nodup n id : 0 <= id <= ID_LIMIT → Z.of_nat n <= ID_LIMIT → NoDup (candidates n id).
Proof.
  intros Hid Hn. apply NoDup_alt. intros i j x Hi Hj.
  assert (∀ k y, candidates n id !! k = Some y → Z.of_nat k < ID_LIMIT) as Hlen.
  { intros k y Hk%lookup_lt_Some. rewrite candidates_length in Hk. lia. }
  pose proof (Hlen i x Hi). pose proof (Hlen j x Hj). apply candidates_lookup in Hi, Hj; [|done..]. unfold ID_LIMIT, INT32_MAX in *.
  pose proof (Z.div_mod (id + Z.of_nat i) (2147483647 - 15) ltac:(lia)) as D1. pose proof (Z.div_mod (id + Z.of_nat j) (2147483647 - 15) ltac:(lia)) as D2.
  assert ((id + Z.of_nat i) mod (2147483647 - 15) = (id + Z.of_nat j) mod (2147483647 - 15)) as E by lia. rewrite E in D1. clear E Hi Hj. lia.
Qed.

Lemma pick_id_ok n : ∀ id (t : gmap Z Z), 0 <= id <= ID_LIMIT →
  (∃ x, pick_id n id t = Ret x ∧ t !! x = None ∧ 1 <= x <= ID_LIMIT) ∨ pick_id n id t = NoFuel ∧ Forall (fun x => is_Some (t !! x)) (candidates n id).
Proof.
  induction n as [|n IH]; intros id t Hid; cbn [pick_id candidates]; [by right|]. destruct (next_area_id_cycle id Hid) as [_ Hb]. case_decide as Ed.
  - destruct (IH (next_area_id id) t) as [?|[? ?]]; [lia|by left|]. right. split; [done|]. by constructor.
  - left. exists (next_area_id id). split_and!; try done; try lia. by apply eq_None_not_Some.
Qed.

Lemma pick_id_enough id (t : gmap Z Z) : 0 <= id <= ID_LIMIT → Z.of_nat (size t) < ID_LIMIT →
  ∃ x, pick_id (S (size t)) id t = Ret x ∧ t !! x = None ∧ 1 <= x <= ID_LIMIT.
Proof.
  intros Hid Hsz. destruct (pick_id_ok (S (size t)) id t Hid) as [?|[_ Hall]]; [done|]. exfalso.
  assert (NoDup (candidates (S (size t)) id)) as Hnd by (apply candidates_nodup; [done|lia]).
  pose proof (candidates_length (S (size t)) id) as El.
  assert (size (list_to_set (candidates (S (size t)) id) : gset Z) <= size (dom t))%nat as Hle.
  { apply subseteq_size. intros x Hx. apply elem_of_list_to_set in Hx. rewrite Forall_forall in Hall. apply elem_of_dom. by apply Hall. }
  rewrite size_list_to_set, El, size_dom in Hle by done. lia.
Qed.

(** Ids and areas determine each other. *)
Definition hash_ok (h : hstate) : Prop :=
  0 <= sNextAreaId h <= ID_LIMIT ∧ ∀ id a, sTable h !! id = Some a → 1 <= id <= ID_LIMIT ∧ ∃ H, hareas h !! a = Some H ∧ h_id H = id.

(** ** Properties *)

(** C28: Whatever sequence of wiring, unwiring and waiting threads perform
    on areas that start without wired ranges: a thread sleeps only while the
    list of a range that is wired in its area, and that is in the way of its
    address range, holds its waiter; these lists hold no waiter that is
    gone; and Unwire of a wired range never fails an assertion and notifies
    exactly the waiters of that range. So no waiter is left behind when the
    last range that blocks it is unwired. *)
Theorem no_waiter_stranded (areas : gmap Z (Z * Z)) (s : wstate) (Hreach : rtc wire_step (wired_init areas) s) :
  (∀ w W, unwired_waiters s !! w = Some W → w_sleeps W = true →
     ∃ r R A, wareas s !! w_area W = Some A ∧ r ∈ fWiredRanges A ∧ ranges s !! r = Some R ∧ w ∈ r_waiters R ∧ blocks W R) ∧
  (∀ r R w, ranges s !! r = Some R → w ∈ r_waiters R → is_Some (unwired_waiters s !! w)) ∧
  ∀ a r R, ranges s !! r = Some R → r_area R = Some a →
    ∃ s', Unwire a r s = Ret s' ∧ wire_step s s' ∧
      ∀ w W, unwired_waiters s !! w = Some W → unwired_waiters s' !! w = Some (if decide (w ∈ r_waiters R) then W <| w_sleeps := false |> else W).
Proof.
  pose proof (wired_reachable areas s Hreach) as Hok. split_and!.
  - intros w W HW Hs. destruct (wi_sleeps s Hok w W HW Hs) as (r & R & HR & Hin). destruct (wi_queued s Hok r R w HR Hin) as (W2 & HW2 & _ & Hb).
    rewrite HW in HW2. injection HW2 as <-. destruct (wi_range s Hok r R (w_area W) HR (proj1 Hb)) as (A & HA & Hr). exists r, R, A. done.
  - intros r R w HR Hin. destruct (wi_queued s Hok r R w HR Hin) as (W & HW & _). eauto.
  - intros a r R HR Ha. destruct (Unwire_ok a r R s Hok HR Ha) as (s' & A & H1 & _ & _ & _ & _ & Eu). exists s'. split_and!; [done|by apply step_unwire with a r|].
    intros w W HW. rewrite Eu, notify_lookup, HW. by case_decide.
Qed.

(** C30: wait_if_address_range_is_wired over the areas of an address range
    makes the thread wait exactly if some address of the range belongs to a
    wired range of one of these areas (the comparison of IntersectsWith on
    64 bit numbers is overlap of the ranges, up to the end of the address
    space), and otherwise changes nothing. *)
Theorem wait_for_wired_correct (areas : gmap Z (Z * Z)) (s : wstate) (w base size : Z) (l : list Z) (Hreach : rtc wire_step (wired_init areas) s)
    (Hl : ∀ a, a ∈ l → is_Some (wareas s !! a)) (Hw : unwired_waiters s !! w = None) (Hr : range_ok base size)
    (Hranges : ∀ r R, ranges s !! r = Some R → is_Some (r_area R) → range_ok (r_base R) (r_size R)) :
  ∃ b s', wait_if_address_range_is_wired w l base size s = Ret (b, s') ∧ wire_step s s' ∧ (b = false → s' = s) ∧
    (b = true ↔ ∃ a A r R x, a ∈ l ∧ wareas s !! a = Some A ∧ r ∈ fWiredRanges A ∧ ranges s !! r = Some R ∧
       base <= x < base + size ∧ r_base R <= x < r_base R + r_size R) ∧
    (b = true → ∃ W, unwired_waiters s' !! w = Some W ∧ w_sleeps W = true ∧ w_area W ∈ l).
Proof.
  pose proof (wired_reachable areas s Hreach) as Hok. destruct (wait_ranges_ok w base size l s Hok Hl) as (b & s' & H1 & H2 & H3 & H4).
  exists b, s'. split_and!; [done|by apply step_wait_ranges with w l base size b|done| |].
  - rewrite H2. split.
    + intros (a & A & r & R & I1 & I2 & I3 & I4 & I5). destruct (wi_area s Hok a A r I2 I3) as (R2 & HR2 & Ha). rewrite I4 in HR2. injection HR2 as <-.
      apply intersects_overlap in I5 as (x & Hx & Hx'); [|by eapply Hranges; eauto|done]. exists a, A, r, R, x. done.
    + intros (a & A & r & R & x & I1 & I2 & I3 & I4 & I5). destruct (wi_area s Hok a A r I2 I3) as (R2 & HR2 & Ha). rewrite I4 in HR2. injection HR2 as <-.
      exists a, A, r, R. split_and!; try done. apply intersects_overlap; [by eapply Hranges; eauto|done|]. by exists x.
  - intros Hb. destruct (H4 Hb) as (a & r & R & _ & _ & Ha & _ & ->). eexists. unfold add_waiter. cbn. rewrite lookup_insert_eq. split_and!; done.
Qed.

(** VMAreaHash::Insert terminates, after at most one round more than
    there are areas, as long as not all ids are taken: the counter never
    overflows, the new id is between 1 and INT32_MAX - 15 and not in use,
    lookups of other ids are not changed, the area is found under its id in
    its address space only, and Remove undoes the insertion. *)
Lemma area_id_fresh (a : Z) (H : harea) (h : hstate) (Hok : hash_ok h) (Ha : hareas h !! a = Some H) (Hnew : ∀ id, sTable h !! id ≠ Some a)
    (Hroom : Z.of_nat (size (sTable h)) < ID_LIMIT) :
  ∃ h' id, Insert (S (size (sTable h))) a h = Ret h' ∧ hash_ok h' ∧ 1 <= id <= INT32_MAX - 0xf ∧
    Lookup id h = None ∧ Lookup id h' = Some a ∧ (∀ id', id' ≠ id → Lookup id' h' = Lookup id' h) ∧
    LookupIn id (h_space H) h' = Ret (Some a) ∧
    ∃ h2, Remove a h' = Ret h2 ∧ sTable h2 = sTable h ∧ sNextAreaId h2 = id.
Proof.
  destruct Hok as [Hn Ht]. unfold Insert. rewrite Ha. cbn [deref mbind outcome_bind]. destruct (pick_id_enough (sNextAreaId h) (sTable h) Hn Hroom) as (id & -> & Hf & Hb).
  cbn [mbind outcome_bind]. set (h' := _ <| sTable ::= _ |>). assert (sTable h' = <[id := a]> (sTable h)) as Et by done.
  assert (hareas h' !! a = Some (H <| h_id := id |>)) as Ea by (unfold h'; cbn; by rewrite lookup_alter_eq, Ha). exists h', id. split_and!; try done.
  - split; [unfold ID_LIMIT in *; cbn; lia|]. intros id' a'. rewrite Et. intros [[<- <-]|[Hi Hx]]%lookup_insert_Some.
    + split; [done|]. exists (H <| h_id := id |>). split; [done|reflexivity].
    + destruct (Ht id' a' Hx) as (Hb' & H' & HH' & Hid'). split; [done|]. exists H'. split; [|done]. unfold h'. cbn. rewrite lookup_alter_ne; [done|]. intros <-. by apply (Hnew id').
  - lia.
  - apply Hb.
  - unfold Lookup, LookupLocked. rewrite Et. apply lookup_insert_eq.
  - intros id' Hne. unfold Lookup, LookupLocked. rewrite Et. by apply lookup_insert_ne, not_eq_sym.
  - unfold LookupIn, LookupLocked. rewrite Et, lookup_insert_eq, Ea. cbn. by rewrite Z.eqb_refl.
  - unfold Remove. rewrite Ea. cbn [deref mbind outcome_bind h_id update]. rewrite decide_True by (rewrite Et; apply lookup_insert_eq).
    eexists. split; [reflexivity|]. split; [|done]. cbn. by apply delete_insert_id.
Qed.

(** ** Examples *)

(** Range 5 of area 1 is wired and thread 9 waits for it. *)
Definition demo_range : VMAreaWiredRange := mkRange None 0x11000 0x1000 true false [].
Definition wired_demo : wstate :=
  mkWired {[ 1 := mkWArea 0x10000 0x4000 [5] ]} {[ 5 := demo_range <| r_area := Some 1 |> <| r_waiters := [9] |> ]} {[ 9 := mkUnwired 1 0x10000 0x2000 (Some false) true ]}.

Lemma wired_demo_reachable : rtc wire_step (wired_init {[ 1 := (0x10000, 0x4000) ]}) wired_demo.
Proof.
  eapply rtc_l; [by apply (step_new_range _ 5 demo_range)|]. eapply rtc_l; [by apply (step_wire _ 1 5); vm_compute; reflexivity|].
  eapply rtc_l; [apply (step_wait_range _ 9 1 0x10000 0x2000 false true); [reflexivity|vm_compute; reflexivity]|].
  assert (∀ s, s = wired_demo → rtc wire_step s wired_demo) as Hr by (by intros ? ->). apply Hr. vm_compute. reflexivity.
Qed.

Lemma no_waiter_stranded_witness : ∃ s', Unwire 1 5 wired_demo = Ret s' ∧ unwired_waiters s' !! 9 = Some (mkUnwired 1 0x10000 0x2000 (Some false) false).
Proof.
  destruct (no_waiter_stranded {[ 1 := (0x10000, 0x4000) ]} wired_demo wired_demo_reachable) as (_ & _ & H).
  destruct (H 1 5 (demo_range <| r_area := Some 1 |> <| r_waiters := [9] |>)) as (s' & H1 & _ & H2); [reflexivity..|].
  exists s'. split; [done|]. by rewrite (H2 9 (mkUnwired 1 0x10000 0x2000 (Some false) true) eq_refl).
Defined.

Lemma wait_for_wired_correct_witness : ∃ s', wait_if_address_range_is_wired 10 [1] 0x11800 0x800 wired_demo = Ret (true, s').
Proof.
  destruct (wait_for_wired_correct {[ 1 := (0x10000, 0x4000) ]} wired_demo 10 0x11800 0x800 [1] wired_demo_reachable) as (b & s' & H1 & _ & _ & H2 & _).
  - intros a ->%list_elem_of_singleton. vm_compute. eauto.
  - reflexivity.
  - unfold range_ok. lia.
  - intros r R HR _. unfold wired_demo in HR. cbn [ranges] in HR. apply lookup_singleton_Some in HR as [<- <-]. unfold range_ok. cbn. lia.
  - exists s'. assert (b = true) as <-; [|done]. apply H2. eexists 1, _, 5, _, 0x11800.
    split; [left|]. split; [reflexivity|]. split; [left|]. split; [reflexivity|]. cbn. lia.
Defined.

(** The ids start again at 1, which is in use. *)
Definition hash_demo : hstate := mkHash {[ 100 := mkHArea 1 "heap" 1; 101 := mkHArea (-1) "stack" 1 ]} {[ 1 := 100 ]} 2147483632.

Lemma area_id_fresh_witness : ∃ h' id, Insert 2 101 hash_demo = Ret h' ∧ Lookup id hash_demo = None ∧ Lookup id h' = Some 101.
Proof.
  destruct (area_id_fresh 101 (mkHArea (-1) "stack" 1) hash_demo) as (h' & id & H1 & _ & _ & H2 & H3 & _).
  - split; [unfold ID_LIMIT, INT32_MAX; cbn; lia|]. intros id a Hi. unfold hash_demo in Hi. cbn [sTable] in Hi. apply lookup_singleton_Some in Hi as [<- <-]. unfold ID_LIMIT, INT32_MAX. split; [lia|]. eexists. split; reflexivity.
  - reflexivity.
  - intros id Hi. unfold hash_demo in Hi. cbn [sTable] in Hi. apply lookup_singleton_Some in Hi as [<- ?]. done.
  - reflexivity.
  - exists h', id. done.
Defined.
