(* ===== verification/PageFault.v ===== *)
(** mm.cpp: page faults and copy-on-write.

    [vm_soft_fault] checks the access, looks for the page in the cache of the
    area and its sources ([fault_get_page]), reads it in, allocates a clean
    one or copies it into the top cache, and maps it.  The caches of the chain
    are locked on the way down, and everything is unlocked and the fault
    started over whenever the thread has to wait.  What other threads do in
    these windows is an argument ([window]); locks are otherwise not part of
    the state. *)
From S2P Require Import Prelude VMState PageQueue CachePages PageAlloc MemoryCommit SwapSpace CacheEffects AnonymousCache SwapIO CacheChain PageMapping AreaWiring.
From stdpp Require Import base list list_numbers numbers gmap sorting.
From Stdlib Require Import ZArith Lia.
Local Open Scope Z_scope.

(** The contents of a page of memory. *)
Class PageData := { data : Type; zeroed : data }.

Section ops.
Context {DL : DLList Z} {RB : RadixBitmap} {PF : Platform} {PD : PageData}.
Variable SECONDS : Z → Z.
Variable env : reserve_env.

(** [phys_mem] is the memory by physical address of the page; [contended] is
    what happens when caches are unlocked, see [contention]. *)
Record fstate := mkFState {
  fl : lstate;
  fmp : mapstate;
  phys_mem : gmap Z data;
  fwired : wstate;
  contended : list contention;
  sNumPageFaults : Z;
  fFaultCount : gmap Z Z
}.
#[global] Instance eta_fstate : Eta fstate := fun s =>
  mkFState (fl s) (fmp s) (phys_mem s) (fwired s) (contended s) (sNumPageFaults s) (fFaultCount s).

Implicit Types (s : fstate) (c p a : Z).

Definition fvm s : vmstate := vm (ast (fl s)).
Definition set_vm (v : vmstate) s : fstate := s <| fl ::= fun l => l <| ast ::= fun y => y <| vm := v |> |> |>.
Definition upd_l (f : lstate → lstate) s : fstate := s <| fl ::= f |>.
Definition with_l (f : lstate → outcome lstate) s : outcome fstate := l ← f (fl s); Ret (s <| fl := l |>).
Definition with_fvm (f : vmstate → outcome vmstate) s : outcome fstate := v ← f (fvm s); Ret (set_vm v s).
Definition mapped s : mstate := mkMState (fvm s) (fmp s).
Definition with_map {R} (f : mstate → outcome (R * mstate)) s : outcome (R * fstate) :=
  '(r, m) ← f (mapped s); Ret (r, (set_vm (mvm m) s) <| fmp := mp m |>).
Definition content_of (pg : page) s : data := default zeroed (phys_mem s !! page_to_phys pg).
Definition set_content (pg : page) (d : data) s : fstate := s <| phys_mem ::= <[page_to_phys pg := d]> |>.

(** The virtual methods of the caches: whether the backing store has a page,
    the fault handler, and reading a page in.  [VM_FAULT_DONT_HANDLE] is what
    the handlers of all classes return unless there is an error.  The page at
    physical address [base] is all that reading changes. *)
Class CacheStore := {
  has_page : Z → Z → lstate → bool;
  cache_fault : bool → Z → Z → lstate → outcome (fault * lstate);
  read_in : Z → Z → Z → fstate → outcome (status * data);
  has_page_ref c offset d l : has_page c offset (AcquireRefLocked d l) = has_page c offset l
}.
Context {CS : CacheStore}.

(** [LookupArea] of the address spaces. *)
Class AreaLookup := {
  LookupArea : Z → Z → mapstate → option Z;
  LookupArea_contains space address x a : LookupArea space address x = Some a →
    ∃ A, vmareas x !! a = Some A ∧ a_space A = space ∧ a_base A <= address < a_base A + a_size A
}.
Context {AL : AreaLookup}.

(** ** The chain of locked caches *)

(** [VMCacheChainLocker] as the list of its caches, the bottom one first; the
    user data of a cache is the cache behind it in the list. *)
Definition LockSourceCache (chain : list Z) s : outcome (option Z * list Z * fstate) :=
  match chain with
  | [] => Ret (None, chain, s)
  | bottom :: _ =>
      C ← cache_of bottom (fl s);
      match source C with
      | None => Ret (None, chain, s)
      | Some src => Ret (Some src, src :: chain, upd_l (AcquireRefLocked src) s)
      end
  end.

Definition unlock_cache (fuel : nat) c (consumerLocked : bool) s : outcome fstate :=
  '(l, es) ← Unlock SECONDS env fuel c consumerLocked (fl s, contended s);
  Ret (s <| fl := l |> <| contended := es |>).

(** [VMCacheChainLocker::Unlock], from the bottom to the top. *)
Fixpoint unlock_chain (fuel : nat) (chain : list Z) (exceptCache : option Z) s : outcome fstate :=
  match chain with
  | [] => Ret s
  | c :: chain =>
      s ← (if decide (exceptCache = Some c) then Ret s
           else unlock_cache fuel c (negb (bool_decide (chain = []))) (upd_l (ReleaseRefLocked c) s));
      unlock_chain fuel chain exceptCache s
  end.

(** [UnlockKeepRefs(true)]: all but the top cache. *)
Fixpoint unlock_keep_refs (fuel : nat) (chain : list Z) s : outcome fstate :=
  match chain with
  | [] | [_] => Ret s
  | c :: chain => s ← unlock_cache fuel c true s; unlock_keep_refs fuel chain s
  end.

(** ** Faults *)

Record PageFaultContext := mkContext {
  fchain : list Z;
  topCache : option Z;
  cacheOffset : Z;
  reservation : Z;
  isWrite : bool;
  cpage : option Z;
  restart : bool;
  pageAllocated : bool
}.
#[global] Instance eta_context : Eta PageFaultContext := fun x =>
  mkContext (fchain x) (topCache x) (cacheOffset x) (reservation x) (isWrite x) (cpage x) (restart x) (pageAllocated x).
Implicit Types (x : PageFaultContext).

Definition Prepare (top offset : Z) x : PageFaultContext :=
  x <| topCache := Some top |> <| cacheOffset := offset |> <| cpage := None |> <| restart := false |> <| pageAllocated := false |>
    <| fchain := [top] |>.

Definition UnlockAll (fuel : nat) (exceptCache : option Z) x s : outcome (PageFaultContext * fstate) :=
  s ← unlock_chain fuel (fchain x) exceptCache s;
  Ret (x <| topCache := None |> <| fchain := [] |>, s).

(** [vm_page_allocate_page_etc] with the reservation of the context. *)
Definition allocate (flags : Z) x s : outcome (Z * PageFaultContext * fstate) :=
  '(p, r, cleared, v) ← vm_page_allocate_page_etc (reservation x) flags (fvm s);
  pg ← deref (pages v !! p);
  let s := set_vm v s in
  Ret (p, x <| reservation := r |>, if (cleared : bool) then set_content pg zeroed s else s).

(** What others do while a page is read in, while it is copied, and between
    two rounds of the fault. *)
Record window := mkWindow { w_read : fstate → fstate; w_copy : fstate → fstate; w_between : fstate → fstate }.
Implicit Types (w : window).

(** The page is read in; the fault starts over. *)
Definition fault_read_page (fuel : nat) w c x s : outcome (status * PageFaultContext * fstate) :=
  '(p, x, s) ← allocate (Z.lor (page_state_code PAGE_STATE_ACTIVE) VM_PAGE_ALLOC_BUSY) x s;
  s ← with_fvm (InsertPage c p (cacheOffset x)) s;
  let s := upd_l (AcquireRefLocked c) s in
  '(x, s) ← UnlockAll fuel None x s;
  pg ← deref (pages (fvm s) !! p);
  '(st, d) ← read_in c (cacheOffset x) (page_to_phys pg) s;
  let s := w_read w (set_content pg d s) in
  match st with
  | Err e =>
      let s := upd_l (NotifyPageEvents c p PAGE_EVENT_NOT_BUSY) s in
      s ← with_fvm (RemovePage c p) s;
      s ← with_fvm (vm_page_set_state p PAGE_STATE_FREE) s;
      s ← unlock_cache fuel c false (upd_l (ReleaseRefLocked c) s);
      Ret (Err e, x, s)
  | Ok =>
      s ← with_l (MarkPageUnbusy c p) s;
      s ← unlock_cache fuel c false (upd_l (ReleaseRefLocked c) s);
      Ret (Ok, x <| restart := true |>, s)
  end.

(** The search from cache [c] down; [inl] is the result of the function,
    [inr] the page found, if any, and the last cache. *)
Fixpoint find_page (fuel ufuel : nat) w c x s : outcome ((status + option Z * Z) * PageFaultContext * fstate) :=
  match fuel with
  | O => NoFuel
  | S fuel =>
      o ← LookupPage c (cacheOffset x) (fvm s);
      match o with
      | Some p =>
          pg ← deref (pages (fvm s) !! p);
          if busy pg then
            '(x, s) ← UnlockAll ufuel (Some c) x s;
            let s := upd_l (ReleaseRefLocked c) s in
            let s := upd_l (fun l => l <| page_event_waiters ::= fun m => <[c := default [] (m !! c) ++ [(p, PAGE_EVENT_NOT_BUSY)]]> m |>) s in
            s ← unlock_cache ufuel c false s;
            Ret (inl Ok, x <| restart := true |>, s)
          else Ret (inr (Some p, c), x, s)
      | None =>
          if has_page c (cacheOffset x) (fl s) then
            '(st, x, s) ← fault_read_page ufuel w c x s;
            Ret (inl st, x, s)
          else
            '(src, chain, s) ← LockSourceCache (fchain x) s;
            let x := x <| fchain := chain |> in
            match src with
            | Some src => find_page fuel ufuel w src x s
            | None => Ret (inr (None, c), x, s)
            end
      end
  end.

(** A copy of page [sourcePage] for the top cache. *)
Definition fault_copy_page (ufuel : nat) w (top sourcePage : Z) x s : outcome (Z * PageFaultContext * fstate) :=
  '(p, x, s) ← allocate (page_state_code PAGE_STATE_ACTIVE) x s;
  let s := set_vm (upd_page sourcePage (fun pg => pg <| busy := true |>) (fvm s)) s in
  s ← unlock_keep_refs ufuel (fchain x) s;
  pg ← deref (pages (fvm s) !! p);
  spg ← deref (pages (fvm s) !! sourcePage);
  let s := w_copy w (set_content pg (content_of spg s) s) in
  spg ← deref (pages (fvm s) !! sourcePage);
  c ← deref (page_Cache (fvm s) spg);
  s ← with_l (MarkPageUnbusy c sourcePage) s;
  s ← with_fvm (InsertPage top p (cacheOffset x)) s;
  Ret (p, x <| pageAllocated := true |>, s).

Definition fault_get_page (fuel ufuel : nat) w x s : outcome (status * PageFaultContext * fstate) :=
  match topCache x with
  | None => Ret (Err EINVAL, x, s)
  | Some top =>
      '(r, x, s) ← find_page fuel ufuel w top x s;
      match r with
      | inl st => Ret (st, x, s)
      | inr (None, lastCache) =>
          '(p, x, s) ← allocate (Z.lor (page_state_code PAGE_STATE_ACTIVE) VM_PAGE_ALLOC_CLEAR) x s;
          s ← with_fvm (InsertPage (if isWrite x then top else lastCache) p (cacheOffset x)) s;
          Ret (Ok, x <| pageAllocated := true |> <| cpage := Some p |>, s)
      | inr (Some p, _) =>
          pg ← deref (pages (fvm s) !! p);
          '(p, x, s) ← (if negb (bool_decide (page_Cache (fvm s) pg = Some top)) && isWrite x
                        then fault_copy_page ufuel w top p x s else Ret (p, x, s));
          Ret (Ok, x <| cpage := Some p |>, s)
      end
  end.

(** ** [vm_soft_fault] *)
Context {TM : VMTranslationMap}.

(** The permissions of an access to a page with the given protection. *)
Definition has (protection flags : Z) : bool := negb (Z.land protection flags =? 0).

Definition check_access (protection : Z) (isWrite isExecute isUser : bool) : status :=
  if isUser && negb (has protection B_USER_PROTECTION) then Err EPERM
  else if isWrite && negb (has protection (Z.lor B_WRITE_AREA (if isUser then 0 else B_KERNEL_WRITE_AREA))) then Err EPERM
  else if isExecute && negb (has protection (if isUser then B_EXECUTE_AREA else B_KERNEL_EXECUTE_AREA)) then Err EPERM
  else if negb isWrite && negb isExecute && negb (has protection (Z.lor B_READ_AREA (if isUser then 0 else B_KERNEL_WRITE_AREA))) then Err EPERM
  else Ok.

(** The checks before the caches are looked at; on success the area, its
    cache and the protection of the page. *)
Definition fault_check (space address : Z) (isWrite isExecute isUser : bool) s : outcome (errno + Z * VMArea * Z * Z) :=
  match LookupArea space address (fmp s) with
  | None => Ret (inl EFAULT)
  | Some a =>
      A ← area_of a (mapped s);
      if has (a_protection A) B_NONSECURE_AREA then Ret (inl EFAULT)
      else if has (a_protection A) B_DEVICE_AREA then Ret (inl EFAULT)
      else
        protection ← get_area_page_protection a address (mapped s);
        match check_access (u32 protection) isWrite isExecute isUser with
        | Err e => Ret (inl e)
        | Ok => match a_cache A with None => Ret (inl EPERM) | Some c => Ret (inr (a, A, c, u32 protection)) end
        end
  end.

(** How a round of the loop ends: the function returns, or everything is
    unlocked and the loop goes on. *)
Inductive round := Done (st : status) (wired : option Z) | Again.

(** What the round gets from outside: the mapping object, the address of the
    waiter, whether [object_cache_reserve] succeeds, and the other threads. *)
Record inputs := mkInputs { i_mapping : option Z; i_waiter : Z; i_reserve : bool; i_window : window }.
Implicit Types (i : inputs).

(** Mapping the page that [fault_get_page] returned. *)
Definition fault_map (ufuel : nat) (i : inputs) (a top address protection : Z) (wire : bool) x s : outcome (round * PageFaultContext * fstate) :=
  p ← deref (cpage x);
  pg ← deref (pages (fvm s) !! p);
  let newProtection :=
    if negb (bool_decide (page_Cache (fvm s) pg = Some top)) && negb (isWrite x)
    then Z.ldiff protection (Z.lor B_WRITE_AREA B_KERNEL_WRITE_AREA) else protection in
  A ← area_of a (mapped s);
  let mappedPage := e ← Query (a_space A) address (mapped s); phys_to_page (t_phys e) (mapped s) in
  let finish s := (if wire then '(_, s) ← with_map (fun m => m ← increment_page_wired_count p m; Ret (tt, m)) s; Ret (Done Ok (Some p), x, s)
                   else Ret (Done Ok None, x, s)) in
  if decide (mappedPage = Some p) then
    '(_, s) ← with_map (fun m => m ← ProtectPage a address newProtection m; Ret (tt, m)) s;
    s ← (if decide (state pg = PAGE_STATE_INACTIVE) then with_fvm (vm_page_set_state p PAGE_STATE_ACTIVE) s else Ret s);
    finish s
  else
    '(waits, s) ← match mappedPage with
                  | None => Ret (false, s)
                  | Some _ =>
                      '(waits, y) ← AddWaiterIfRangeWired (i_waiter i) a address PAGE_SIZE true (fwired s);
                      Ret (waits, s <| fwired := y |>)
                  end;
    if (waits : bool) then
      '(x, s) ← (if pageAllocated x then
                   s ← with_fvm (RemovePage top p) s;
                   '(r, v) ← vm_page_free_etc (Some top) p (Some (reservation x)) (fvm s);
                   r ← deref r;
                   Ret (x <| reservation := r |> <| pageAllocated := false |> <| cpage := None |>, set_vm v s)
                 else Ret (x, s));
      '(x, s) ← UnlockAll ufuel None x s;
      Ret (Again, x, s)
    else
      s ← (if decide (is_Some mappedPage) then '(_, s) ← with_map (unmap_page a address) s; Ret s else Ret s);
      '(st, s) ← with_map (map_page a p address newProtection (i_mapping i)) s;
      match st with
      | Ok => finish s
      | Err _ =>
          '(x, s) ← UnlockAll ufuel None x s;
          if negb (i_reserve i) then Ret (Done (Err ENOMEM) None, x, s)
          else if wire then Ret (Again, x, s) else Ret (Done Ok None, x, s)
      end.

(** One round of the loop. *)
Definition fault_round (fuel ufuel : nat) (i : inputs) (space address : Z) (isExecute isUser wire : bool) x s : outcome (round * PageFaultContext * fstate) :=
  r ← fault_check space address (isWrite x) isExecute isUser s;
  match r with
  | inl e => Ret (Done (Err e) None, x, s)
  | inr (a, A, top, protection) =>
      let s := upd_l (AcquireRefLocked top) s in
      let x := Prepare top (u64 (u64 (address - a_base A) + a_cache_offset A)) x in
      '(f, l) ← cache_fault (space =? Kernel) top (cacheOffset x) (fl s);
      let s := s <| fl := l |> in
      match f with
      | FaultErr e => Ret (Done (Err e) None, x, s)
      | VM_FAULT_DONT_HANDLE =>
          '(st, x, s) ← fault_get_page fuel ufuel (i_window i) x s;
          match st with
          | Err e => Ret (Done (Err e) None, x, s)
          | Ok => if restart x then Ret (Again, x, s) else fault_map ufuel i a top address protection wire x s
          end
      end
  end.

Fixpoint fault_rounds (fuel ufuel : nat) (ins : list inputs) (space address : Z) (isExecute isUser wire : bool) x s : outcome (status * option Z * PageFaultContext * fstate) :=
  match ins with
  | [] => NoFuel
  | i :: ins =>
      '(r, x, s) ← fault_round fuel ufuel i space address isExecute isUser wire x s;
      match r with
      | Done st wired => Ret (st, wired, x, s)
      | Again => fault_rounds fuel ufuel ins space address isExecute isUser wire x (w_between (i_window i) s)
      end
  end.

(** [vm_soft_fault]; [reserved] says whether [vm_reserve_pages] got the pages,
    of which [sysReservePages] are for page tables.  At the end the destructor
    of the context unlocks everything and returns the pages that are left. *)
Definition vm_soft_fault (fuel ufuel : nat) (ins : list inputs) (reserved : bool) (sysReservePages : Z) (space originalAddress : Z)
    (isWrite isExecute isUser wire : bool) s : outcome (status * option Z * fstate) :=
  let address := rounddown2 originalAddress PAGE_SIZE in
  let s := s <| sNumPageFaults ::= fun n => u32 (n + 1) |> <| fFaultCount ::= fun m => <[space := u32 (default 0 (m !! space) + 1)]> m |> in
  if reserved then
    let x := mkContext [] None 0 (u32 (2 + sysReservePages)) isWrite None false false in
    '(st, wired, x, s) ← fault_rounds fuel ufuel ins space address isExecute isUser wire x s;
    '(x, s) ← UnlockAll ufuel None x s;
    Ret (st, wired, set_vm (vm_page_unreserve_pages (reservation x) (fvm s)).2 s)
  else Ret (Err ENOMEM, None, s).

(** [vm_page_fault]; the address space of the task ends at [EndAddress]. *)
Definition vm_page_fault (fuel ufuel : nat) (ins : list inputs) (reserved : bool) (sysReservePages taskSpace EndAddress VM_KERNEL_SPACE_BASE address : Z)
    (isWrite isExecute isUser : bool) s : outcome (status * fstate) :=
  if address <=? EndAddress then
    '(st, _, s) ← vm_soft_fault fuel ufuel ins reserved sysReservePages taskSpace address isWrite isExecute isUser false s; Ret (st, s)
  else if VM_KERNEL_SPACE_BASE <=? address then
    '(st, _, s) ← vm_soft_fault fuel ufuel ins reserved sysReservePages Kernel address isWrite isExecute isUser false s; Ret (st, s)
  else Ret (Err EFAULT, s).
End ops.

(** Anonymous caches as such a store: their swap slots, their commitments and
    reading from swap space.  [disk] is the state of memory and files. *)
Section anonymous.
Context {DL : DLList Z} {RB : RadixBitmap} {PF : Platform} {IO : PageIO}.
Variables (env : reserve_env) (zero_page : content).

Definition io_data : PageData := {| data := content; zeroed := zero_page |}.

Program Definition anonymous_store (disk : @fstate DL RB io_data → io) : @CacheStore DL RB io_data := {|
  has_page c offset l := HasPage c offset (sSwapHashTable (ast l));
  cache_fault kernel c offset l :=
    lookup ← LookupPage c offset (vm (ast l));
    '(f, a) ← with_commit c (anon_Fault env kernel lookup (HasPage c offset (sSwapHashTable (ast l))) offset) (ast l);
    Ret (f, l <| ast := a |>);
  read_in c offset base s :=
    '(st, d) ← Read c offset [mkVec base PAGE_SIZE] (ast (fl s)) (disk s);
    Ret (st, contents base d)
|}.
Next Obligation. done. Qed.
End anonymous.

(** ** What the caches show *)

Section view.
Implicit Types (G : gmap Z node) (c y k l p q : Z) (N : node).

(** From [y] one gets to [c] through caches without a page at index [k]. *)
Inductive through G k c : Z → Prop :=
  | through_here : through G k c c
  | through_up y N z : G !! y = Some N → n_tree N !! k = None → n_source N = Some z → through G k c z → through G k c y.

Lemma through_sees G k c y q : through G k c y → sees G y k q ↔ sees G c k q.
Proof.
  induction 1 as [|y N z HN Hk Hz _ IH]; [done|]. rewrite <- IH. split.
  - intros H. inversion H; simplify_eq. done.
  - intros H. by apply (sees_up G y N z).
Qed.

Lemma through_or_not G k c m : ∀ y, depth_le G m y → through G k c y ∨ ¬ through G k c y.
Proof.
  induction m as [|m IH]; intros y Hd; (destruct (decide (y = c)) as [->|Hy]; [left; constructor|]); cbn in Hd.
  - right. intros H. inversion H as [|? N z HN _ Hz]; simplify_eq. pose proof (Hd N HN). congruence.
  - destruct (G !! y) as [N|] eqn:HN; [|right; intros H; inversion H; simplify_eq]. destruct (n_tree N !! k) as [q|] eqn:Hk; [right; intros H; inversion H; simplify_eq|].
    destruct (n_source N) as [z|] eqn:Hz; [|right; intros H; inversion H; simplify_eq]. destruct (IH z (Hd N z eq_refl Hz)) as [Ht|Ht].
    + left. by apply (through_up G k c y N z).
    + right. intros H. inversion H; simplify_eq.
Qed.

Definition add_page k p N : node := with_tree (<[k := p]> (n_tree N)) N.

Section add.
Variables (G : gmap Z node) (c : Z) (N : node) (k p : Z).
Hypotheses (HN : G !! c = Some N) (Hk : n_tree N !! k = None).
#[local] Set Default Proof Using "Type*".
Let G' := <[c := add_page k p N]> G.

Lemma add_lookup y Y' : G' !! y = Some Y' → ∃ Y, G !! y = Some Y ∧ n_source Y' = n_source Y ∧ n_areas Y' = n_areas Y ∧ n_consumers Y' = n_consumers Y ∧
  n_ref Y' = n_ref Y ∧ n_flag Y' = n_flag Y ∧ ∀ l, n_tree Y' !! l = if decide (y = c ∧ l = k) then Some p else n_tree Y !! l.
Proof.
  unfold G'. intros [[<- <-]|[Hne HY]]%lookup_insert_Some.
  - exists N. split_and!; try done. intros l. cbn. destruct (decide (l = k)) as [->|Hl]; [by rewrite decide_True, lookup_insert_eq by done|].
    by rewrite decide_False, lookup_insert_ne by (tauto || by apply not_eq_sym).
  - exists Y'. split_and!; try done. intros l. rewrite decide_False; [done|]. intros [-> _]. done.
Qed.

Lemma add_lookup_some y Y : G !! y = Some Y → ∃ Y', G' !! y = Some Y'.
Proof. unfold G'. destruct (decide (y = c)) as [->|Hne]; [rewrite lookup_insert_eq; eauto|rewrite lookup_insert_ne by (by apply not_eq_sym); eauto]. Qed.

Lemma sees_add_1 y l q : sees G' y l q → (l = k ∧ through G k c y ∧ q = p) ∨ (¬ (l = k ∧ through G k c y) ∧ sees G y l q).
Proof.
  induction 1 as [y Y' l q HY' Hl|y Y' z l q HY' Hl Hz _ IH]; destruct (add_lookup y Y' HY') as (Y & HY & Es & _ & _ & _ & _ & Et); rewrite Et in Hl.
  - case_decide as Ed.
    + destruct Ed as [-> ->]. left. split_and!; [done|constructor|congruence].
    + right. split; [|by apply (sees_here G y Y)]. intros [-> Ht]. inversion Ht as [|y0 Y0 z0 HY0 Hk0]; simplify_eq.
  - case_decide as Ed; [done|]. rewrite Es in Hz. destruct IH as [(-> & Ht & ->)|[Hn Hs]].
    + left. split_and!; [done|by apply (through_up G k c y Y z)|done].
    + right. split; [|by apply (sees_up G y Y z)]. intros [-> Ht]. inversion Ht as [|y0 Y0 z0 HY0 Hk0 Hz0 Ht0]; simplify_eq; [by apply Ed|by apply Hn].
Qed.

Lemma sees_add_through y : through G k c y → sees G' y k p.
Proof.
  induction 1 as [|y Y z HY Hy Hz _ IH].
  - apply (sees_here G' c (add_page k p N)); [by apply lookup_insert_eq|by apply lookup_insert_eq].
  - destruct (decide (y = c)) as [->|Hne].
    + apply (sees_here G' c (add_page k p N)); [by apply lookup_insert_eq|by apply lookup_insert_eq].
    + apply (sees_up G' y Y z); [|done..]. unfold G'. by rewrite lookup_insert_ne by (by apply not_eq_sym).
Qed.

Lemma sees_add_2 y l q : sees G y l q → ¬ (l = k ∧ through G k c y) → sees G' y l q.
Proof.
  induction 1 as [y Y l q HY Hl|y Y z l q HY Hl Hz _ IH]; intros Hn; destruct (add_lookup_some y Y HY) as [Y' HY'];
    destruct (add_lookup y Y' HY') as (Y0 & HY0 & Es & _ & _ & _ & _ & Et); rewrite HY in HY0; injection HY0 as <-.
  - apply (sees_here G' y Y'); [done|]. rewrite Et, decide_False; [done|]. intros [-> ->]. simplify_eq.
  - apply (sees_up G' y Y' z); [done| |congruence|].
    + rewrite Et, decide_False; [done|]. intros [-> ->]. apply Hn. split; [done|constructor].
    + apply IH. intros [-> Ht]. apply Hn. split; [done|]. by apply (through_up G k c y Y z).
Qed.

Lemma sees_add_cases y l q : sees G y l q → (l = k ∧ through G k c y) ∨ sees G' y l q.
Proof.
  induction 1 as [y Y l q HY Hl|y Y z l q HY Hl Hz Hs IH].
  - right. apply sees_add_2; [by apply (sees_here G y Y)|]. intros [-> Ht]. inversion Ht; simplify_eq.
  - destruct (decide (y = c ∧ l = k)) as [[-> ->]|Hne]; [left; split; [done|constructor]|]. destruct IH as [[-> Ht]|Hs'].
    + left. split; [done|]. by apply (through_up G k c y Y z).
    + right. destruct (add_lookup_some y Y HY) as [Y' HY']. destruct (add_lookup y Y' HY') as (Y0 & HY0 & Es & _ & _ & _ & _ & Et).
      rewrite HY in HY0. injection HY0 as <-. apply (sees_up G' y Y' z); [done| |congruence|done]. by rewrite Et, decide_False.
Qed.

(** The links do not change. *)
Lemma add_graph_ok n X w : graph_ok n X w G → graph_ok n X w G'.
Proof.
  intros [H1 H2 H3 [rank H4] H5 H6]. split.
  - intros d D e HD He. destruct (add_lookup d D HD) as (D0 & HD0 & Es & _). destruct (H1 d D0 e HD0) as (E & HE & Hin); [congruence|].
    destruct (add_lookup_some e E HE) as [E' HE']. exists E'. split; [done|]. destruct (add_lookup e E' HE') as (E0 & HE0 & _ & _ & Ec & _). congruence.
  - intros e E d HE Hd. destruct (add_lookup e E HE) as (E0 & HE0 & _ & _ & Ec & _). destruct (H2 e E0 d HE0) as (D & HD & Hs); [congruence|].
    destruct (add_lookup_some d D HD) as [D' HD']. exists D'. split; [done|]. destruct (add_lookup d D' HD') as (D0 & HD0 & Es & _). congruence.
  - intros e E HE. destruct (add_lookup e E HE) as (E0 & HE0 & _ & _ & Ec & _). rewrite Ec. by apply (H3 e).
  - exists rank. intros d D e HD He. destruct (add_lookup d D HD) as (D0 & HD0 & Es & _). apply (H4 d D0); congruence.
  - intros e E HE. destruct (add_lookup e E HE) as (E0 & HE0 & _ & Ea & Ec & Er & _). rewrite Ec, Ea, Er. by apply (H5 e).
  - intros e E HE. destruct (add_lookup e E HE) as (E0 & HE0 & _ & Ea & Ec & Er & Ef & _). unfold n_mergeable. rewrite Ec, Ea, Er, Ef. by apply (H6 e E0).
Qed.
End add.
End view.

Section fault.
Context {DL : DLList Z} {RB : RadixBitmap} {PF : Platform} {PD : PageData}.
Variable SECONDS : Z → Z.
Variable env : reserve_env.
Context {CS : CacheStore} {AL : AreaLookup}.
Implicit Types (s : fstate) (l : lstate) (v : vmstate) (c p k : Z) (pg : page) (C : VMCache).

Definition fgv s : gmap Z node := gv (fl s).

(** The data cache [y] shows at index [k]: that of the page seen there, or a
    page of zeros. *)
Definition shown s (y k : Z) (d : data) : Prop :=
  (∃ p pg, sees (fgv s) y k p ∧ pages (fvm s) !! p = Some pg ∧ content_of pg s = d) ∨ (∀ p, ¬ sees (fgv s) y k p) ∧ d = zeroed.

(** A mapped page is seen from a cache with areas, except for page [hidden]. *)
Record chain_but (n : nat) (hidden : option Z) l : Prop := {
  cb_vm : vm_ok (vm (ast l));
  cb_quiet : quiet (ast l);
  cb_graph : graph_ok n None (waiting l) (gv l);
  cb_class : ∀ d D c N, gv l !! d = Some D → n_source D = Some c → gv l !! c = Some N → n_flag N = true → d ∈ dom (anons (ast l)) → c ∈ dom (anons (ast l));
  cb_busy : ∀ c N k p pg, gv l !! c = Some N → n_tree N !! k = Some p → pages (vm (ast l)) !! p = Some pg → busy pg = true →
    Z.of_nat (length (n_consumers N)) + Z.of_nat (length (n_areas N)) < n_ref N;
  cb_mapped : ∀ c N k p pg, gv l !! c = Some N → n_tree N !! k = Some p → pages (vm (ast l)) !! p = Some pg → (wired_count pg ≠ 0 ∨ mappings pg ≠ []) →
    hidden ≠ Some p → ∃ y Y, gv l !! y = Some Y ∧ n_areas Y ≠ [] ∧ sees (gv l) y k p
}.

Lemma chain_but_ok n l : chain_but n None l ↔ chain_ok n None l.
Proof.
  split.
  - intros [H1 H2 H3 H4 H5 H6]. split; try done. split; try done. intros c N k p pg HN Hk Hp Hm. by apply (H6 c N k p pg).
  - intros [H1 H2 H3 [H4 H5 H6]]. split; try done. intros c N k p pg HN Hk Hp Hm _. by apply (H6 c N k p pg).
Qed.

(** Each page frame is one page, and clear pages are clear. *)
Record frames_ok s : Prop := {
  fr_pfn : ∀ p q pg qg, pages (fvm s) !! p = Some pg → pages (fvm s) !! q = Some qg → pfn pg = pfn qg → p = q;
  fr_clear : ∀ p pg, pages (fvm s) !! p = Some pg → state pg = PAGE_STATE_CLEAR → content_of pg s = zeroed
}.

Definition fault_ok (n : nat) s : Prop := chain_ok n None (fl s) ∧ frames_ok s.

(** The context holds a reference to each cache of the chain. *)
Definition held (chain : list Z) l : Prop :=
  ∀ c, c ∈ chain → ∃ C, caches (vm (ast l)) !! c = Some C ∧ Z.of_nat (length (consumers C)) + Z.of_nat (length (areas C)) < ref_count C.

Lemma phys_inj pg qg : page_to_phys pg = page_to_phys qg → pfn pg = pfn qg.
Proof. intros E. unfold page_to_phys in E. rewrite <- (shiftl_page (pfn pg)), <- (shiftl_page (pfn qg)). by rewrite E. Qed.

Lemma set_vm_ast v s : vm (ast (fl (set_vm v s))) = v.
Proof. done. Qed.

(** Pages of caches are not free. *)
Lemma cached_frame l c N k p : vm_ok (vm (ast l)) → gv l !! c = Some N → n_tree N !! k = Some p →
  ∃ pg, pages (vm (ast l)) !! p = Some pg ∧ ¬ is_free pg ∧ cache_offset pg = k ∧ ∃ C, caches (vm (ast l)) !! c = Some C ∧ cache_ref pg = Some (self_ref C) ∧
    page_Cache (vm (ast l)) pg = Some c.
Proof.
  intros (Hco & Hpo & _) (C & HC & <-)%lookup_gv Hk. pose proof (proj1 Hco c C HC) as HokC. pose proof HokC as (Hs & _ & _ & _ & Hel).
  destruct (proj1 (Hel k p) Hk) as (pg & Hp & Ho & Hr). exists pg. split_and!; try done.
  - intros Hf. destruct (proj2 Hpo p pg Hp) as [_ H]. destruct (H Hf) as [E _]. congruence.
  - exists C. split_and!; try done. by destruct (page_Cache_ok _ c C p pg k HokC Hk Hp) as (? & _).
Qed.

Lemma sees_in G y k p : sees G y k p → ∃ c N, G !! c = Some N ∧ n_tree N !! k = Some p ∧ through G k c y.
Proof.
  induction 1 as [y Y k p HY Hk|y Y z k p HY Hk Hz _ (c & N & H1 & H2 & H3)]; [exists y, Y; split_and!; [done..|constructor]|].
  exists c, N. split_and!; [done..|]. by apply (through_up G k c y Y z).
Qed.

(** ** Taking references *)

Lemma acquire_ref_ok n c C l :
  chain_ok n None l → caches (vm (ast l)) !! c = Some C → ref_count C < 2 ^ 31 - 2 →
  chain_ok n None (AcquireRefLocked c l) ∧ gv (AcquireRefLocked c l) = alter (with_ref (ref_count C + 1)) c (gv l).
Proof.
  intros Hch HC Hr. assert (gv l !! c = Some (gnode C)) as HN by (apply lookup_gv; eauto). pose proof (ch_graph _ _ _ Hch) as Hg.
  pose proof (g_refs _ _ _ _ Hg c _ HN) as Hrefs. cbn in Hrefs. pose proof (g_settled _ _ _ _ Hg c _ HN ltac:(done)) as [Hs0 Hs1]. cbn in Hs0, Hs1.
  assert (AcquireRefLocked c l = upd c (fun C0 => C0 <| ref_count := ref_count C + 1 |>) l) as E.
  { unfold AcquireRefLocked. apply (upd_ext c _ _ C); [done|]. unfold update. cbn. by rewrite i32_small by lia. }
  assert (gv (upd c (fun C0 => C0 <| ref_count := ref_count C + 1 |>) l) = alter (with_ref (ref_count C + 1)) c (gv l)) as Eg by (by apply gv_upd).
  rewrite E. split; [|done]. destruct (set_ref_chain n None c C l _ (ref_count C + 1) Hch (or_introl eq_refl) HC eq_refl) as [[V Q G T] _]; [lia|lia|].
  assert (gv (upd c (fun C0 => C0 <| ref_count := ref_count C + 1 |>) l) !! c = Some (with_ref (ref_count C + 1) (gnode C))) as HN'
    by (rewrite Eg, lookup_alter_eq, HN; done).
  split; try done. apply (graph_ok_settled n None _ _ c _ G HN'); cbn; lia.
Qed.

(** Nothing but reference counts differs, and they grow. *)
Definition no_ref C : VMCache := C <| ref_count := 0 |>.
Record more_refs l l' : Prop := {
  mr_caches : no_ref <$> caches (vm (ast l')) = no_ref <$> caches (vm (ast l));
  mr_refs : ∀ c C C', caches (vm (ast l)) !! c = Some C → caches (vm (ast l')) !! c = Some C' → ref_count C <= ref_count C';
  mr_rest : l' <| ast ::= fun y => y <| vm ::= fun v => v <| caches := ∅ |> |> |> = l <| ast ::= fun y => y <| vm ::= fun v => v <| caches := ∅ |> |> |>
}.

Lemma more_refs_refl l : more_refs l l.
Proof. split; try done. intros c C C' H1 H2. simplify_eq. lia. Qed.

Lemma more_refs_back l l' c C' : more_refs l l' → caches (vm (ast l')) !! c = Some C' →
  ∃ C, caches (vm (ast l)) !! c = Some C ∧ no_ref C' = no_ref C ∧ ref_count C <= ref_count C'.
Proof.
  intros Hm HC'. pose proof (mr_caches _ _ Hm) as E. apply (f_equal (.!! c)) in E. rewrite !lookup_fmap, HC' in E.
  destruct (caches (vm (ast l)) !! c) as [C|] eqn:HC; [|done]. exists C. split_and!; [done| |by apply (mr_refs _ _ Hm c)]. cbn in E. congruence.
Qed.

Lemma more_refs_fwd l l' c C : more_refs l l' → caches (vm (ast l)) !! c = Some C →
  ∃ C', caches (vm (ast l')) !! c = Some C' ∧ no_ref C' = no_ref C ∧ ref_count C <= ref_count C'.
Proof.
  intros Hm HC. pose proof (mr_caches _ _ Hm) as E. apply (f_equal (.!! c)) in E. rewrite !lookup_fmap, HC in E.
  destruct (caches (vm (ast l')) !! c) as [C'|] eqn:HC'; [|done]. exists C'. split_and!; [done| |by apply (mr_refs _ _ Hm c)]. cbn in E. congruence.
Qed.

Lemma more_refs_trans l1 l2 l3 : more_refs l1 l2 → more_refs l2 l3 → more_refs l1 l3.
Proof.
  intros H1 H2. split.
  - rewrite (mr_caches _ _ H2). apply H1.
  - intros c C C'' HC HC''. destruct (more_refs_fwd _ _ c C H1 HC) as (C' & HC' & _ & ?). pose proof (mr_refs _ _ H2 c C' C'' HC' HC''). lia.
  - rewrite (mr_rest _ _ H2). apply H1.
Qed.

Lemma no_ref_fields C C' : no_ref C' = no_ref C →
  cpages C' = cpages C ∧ source C' = source C ∧ consumers C' = consumers C ∧ areas C' = areas C ∧ mergeable_kind C' = mergeable_kind C ∧ self_ref C' = self_ref C.
Proof.
  intros E. split_and!; [by apply (f_equal cpages) in E|by apply (f_equal source) in E|by apply (f_equal consumers) in E|by apply (f_equal areas) in E| |by apply (f_equal self_ref) in E].
  apply (f_equal mergeable_kind) in E. exact E.
Qed.

Lemma more_refs_nodes l l' : more_refs l l' →
  (∀ y N, gv l !! y = Some N → ∃ N', gv l' !! y = Some N' ∧ n_tree N' = n_tree N ∧ n_source N' = n_source N ∧ n_consumers N' = n_consumers N ∧ n_areas N' = n_areas N) ∧
  (∀ y N', gv l' !! y = Some N' → ∃ N, gv l !! y = Some N ∧ n_tree N' = n_tree N ∧ n_source N' = n_source N ∧ n_consumers N' = n_consumers N ∧ n_areas N' = n_areas N).
Proof.
  intros Hm. split.
  - intros y N (C & HC & <-)%lookup_gv. destruct (more_refs_fwd _ _ y C Hm HC) as (C' & HC' & E & _). apply no_ref_fields in E as (? & ? & ? & ? & _).
    exists (gnode C'). split_and!; try done. apply lookup_gv. eauto.
  - intros y N (C & HC & <-)%lookup_gv. destruct (more_refs_back _ _ y C Hm HC) as (C' & HC' & E & _). apply no_ref_fields in E as (? & ? & ? & ? & _).
    exists (gnode C'). split_and!; try done. apply lookup_gv. eauto.
Qed.

Lemma more_refs_sees l l' y k p : more_refs l l' → sees (gv l') y k p ↔ sees (gv l) y k p.
Proof.
  intros Hm. destruct (more_refs_nodes l l' Hm) as [F B]. split; apply sees_same; intros z N HN.
  - destruct (B z N HN) as (N' & H & E1 & E2 & _). exists N'. split_and!; congruence.
  - destruct (F z N HN) as (N' & H & E1 & E2 & _). exists N'. split_and!; congruence.
Qed.

Lemma through_same (G G' : gmap Z node) k c y :
  (∀ y N, G !! y = Some N → ∃ N', G' !! y = Some N' ∧ n_tree N' = n_tree N ∧ n_source N' = n_source N) → through G k c y → through G' k c y.
Proof.
  intros H. induction 1 as [|y N z HN Hk Hz _ IH]; [constructor|]. destruct (H y N HN) as (N' & HN' & Et & Es). apply (through_up G' k c y N' z); congruence.
Qed.

Lemma more_refs_through l l' k c y : more_refs l l' → through (gv l') k c y ↔ through (gv l) k c y.
Proof.
  intros Hm. destruct (more_refs_nodes l l' Hm) as [F B]. split; apply through_same; intros z N HN.
  - destruct (B z N HN) as (N' & H & E1 & E2 & _). exists N'. split_and!; congruence.
  - destruct (F z N HN) as (N' & H & E1 & E2 & _). exists N'. split_and!; congruence.
Qed.

Lemma more_refs_pages l l' : more_refs l l' → pages (vm (ast l')) = pages (vm (ast l)) ∧ page_event_waiters l' = page_event_waiters l ∧
  cacherefs (vm (ast l')) = cacherefs (vm (ast l)).
Proof.
  intros Hm. pose proof (mr_rest _ _ Hm) as E. split_and!.
  - by apply (f_equal (fun l => pages (vm (ast l)))) in E.
  - by apply (f_equal page_event_waiters) in E.
  - by apply (f_equal (fun l => cacherefs (vm (ast l)))) in E.
Qed.

Lemma acquire_more c l : (∀ C, caches (vm (ast l)) !! c = Some C → - 2 ^ 31 <= ref_count C < 2 ^ 31 - 1) → more_refs l (AcquireRefLocked c l).
Proof.
  intros Hr. split.
  - change (caches (vm (ast (AcquireRefLocked c l)))) with (alter (fun C => C <| ref_count ::= fun n => i32 (n + 1) |>) c (caches (vm (ast l)))).
    apply map_eq. intros y. rewrite !lookup_fmap. destruct (decide (c = y)) as [<-|Hy]; [rewrite lookup_alter_eq|by rewrite lookup_alter_ne].
    by destruct (caches _ !! c).
  - intros y C C' HC (C0 & HC0 & ->)%upd_lookup. rewrite HC in HC0. injection HC0 as <-. case_decide; [|lia]. cbn. subst y. pose proof (Hr C HC). rewrite i32_small by lia. lia.
  - done.
Qed.

Lemma held_more chain l l' : more_refs l l' → held chain l → held chain l'.
Proof.
  intros Hm Hh c Hc. destruct (Hh c Hc) as (C & HC & Hr). destruct (more_refs_fwd _ _ c C Hm HC) as (C' & HC' & E & ?). exists C'. split; [done|].
  apply no_ref_fields in E as (_ & _ & -> & -> & _). lia.
Qed.

Lemma depth_le_same (G G' : gmap Z node) m : ∀ c,
  (∀ y Y', G' !! y = Some Y' → ∃ Y, G !! y = Some Y ∧ n_source Y' = n_source Y) → depth_le G m c → depth_le G' m c.
Proof.
  induction m as [|m IH]; intros c H Hd; cbn in *.
  - intros N' HN'. destruct (H c N' HN') as (N & HN & ->). by apply Hd.
  - intros N' src HN' Hs. destruct (H c N' HN') as (N & HN & E). apply IH; [done|]. apply (Hd N); congruence.
Qed.

(** ** The search *)

(** Only reference counts of the caches have changed. *)
Definition refs_taken s s' : Prop := more_refs (fl s) (fl s') ∧ s' = s <| fl := fl s' |>.

Lemma refs_taken_trans s1 s2 s3 : refs_taken s1 s2 → refs_taken s2 s3 → refs_taken s1 s3.
Proof.
  intros [H1 E1] [H2 E2]. split; [by eapply more_refs_trans|]. rewrite E2. rewrite E1. by destruct s1.
Qed.

Record search_result n c k x s o last x' s' : Prop := {
  sr_refs : refs_taken s s';
  sr_chain : chain_ok n None (fl s');
  sr_context : x' = x <| fchain := fchain x' |>;
  sr_top : ∃ L, fchain x' = L ++ fchain x;
  sr_held : held (fchain x) (fl s) → held (fchain x') (fl s') ∧ last ∈ fchain x';
  sr_last : through (fgv s) k last c;
  sr_page : ∃ N, fgv s !! last = Some N ∧ n_tree N !! k = o ∧ (o = None → n_source N = None)
}.

(** No cache on the way down has a page at the index in its store. *)
Definition not_stored c k offset s : Prop :=
  ∀ y Y, through (fgv s) k y c → fgv s !! y = Some Y → n_tree Y !! k = None → has_page y offset (fl s) = false.

Lemma find_page_ok n ufuel w m : ∀ c C rest x s,
  chain_ok n None (fl s) → depth_le (fgv s) m c → caches (fvm s) !! c = Some C → fchain x = c :: rest →
  (∀ y Y, caches (fvm s) !! y = Some Y → ref_count Y < 2 ^ 31 - 2 - Z.of_nat m) →
  not_stored c (Z.shiftr (cacheOffset x) PAGE_SHIFT) (cacheOffset x) s →
  (∀ p pg, sees (fgv s) c (Z.shiftr (cacheOffset x) PAGE_SHIFT) p → pages (fvm s) !! p = Some pg → busy pg = false) →
  ∃ o last x' s', find_page SECONDS env (S m) ufuel w c x s = Ret (inr (o, last), x', s') ∧
    search_result n c (Z.shiftr (cacheOffset x) PAGE_SHIFT) x s o last x' s'.
Proof.
  induction m as [|m IH]; intros c C rest x s Hch Hdep HC Hx Hrefs Hst Hbusy; set (k := Z.shiftr (cacheOffset x) PAGE_SHIFT) in *.
  all: assert (fgv s !! c = Some (gnode C)) as HN by (apply lookup_gv; eauto).
  all: remember (S m) as fuel1 eqn:Ef1 in |- * || idtac.
  all: cbn [find_page]; rewrite (LookupPage_tree (fvm s) c C) by (done || apply Hch); cbn [mbind outcome_bind]; fold k.
  all: destruct (cpages C !! k) as [p|] eqn:Hk.
  1, 3: destruct (cached_frame (fl s) c (gnode C) k p (ch_vm _ _ _ Hch) HN Hk) as (pg & Hp & _);
    change (pages (fvm s)) with (pages (vm (ast (fl s)))); rewrite Hp; cbn [deref mbind outcome_bind];
    rewrite (Hbusy p pg) by (done || by apply (sees_here _ c (gnode C)));
    exists (Some p), c, x, s; split; [done|]; split;
      [split; [apply more_refs_refl|by destruct s]|done|by destruct x|by exists []|intros ?; split; [done|rewrite Hx; left]|constructor|exists (gnode C); split_and!; done].
  all: rewrite (Hst c (gnode C)) by (done || constructor); rewrite Hx; cbn [LockSourceCache]; rewrite (cache_of_Some c C (fl s) HC); cbn [mbind outcome_bind].
  - pose proof (Hdep _ HN) as Hs. cbn in Hs. rewrite Hs. cbn [mbind outcome_bind].
    exists None, c, (x <| fchain := c :: rest |>), s. split; [done|]. split; cbn [fchain update].
    + split; [apply more_refs_refl|by destruct s].
    + done.
    + done.
    + exists []. by rewrite Hx.
    + rewrite Hx. intros ?. split; [done|left].
    + constructor.
    + exists (gnode C). done.
  - destruct (source C) as [src|] eqn:Es; cbn [mbind outcome_bind].
    + destruct (g_source _ _ _ _ (ch_graph _ _ _ Hch) c _ src HN Es) as (S0 & (T & HS & <-)%lookup_gv & Hcons). cbn in Hcons.
      pose proof (Hrefs src T HS) as Hrs. pose proof (g_refs _ _ _ _ (ch_graph _ _ _ Hch) src (gnode T) ltac:(apply lookup_gv; eauto)) as Hg. cbn in Hg.
      destruct (acquire_ref_ok n src T (fl s) Hch HS) as [Hch1 Eg1]; [lia|]. set (s1 := upd_l (AcquireRefLocked src) s) in *.
      assert (more_refs (fl s) (fl s1)) as Hm1.
      { apply acquire_more. intros S' HS'. assert (S' = T) as -> by congruence. lia. }
      set (T1 := T <| ref_count ::= fun n => i32 (n + 1) |>). assert (caches (fvm s1) !! src = Some T1) as HS1 by (apply upd_lookup; exists T; by rewrite decide_True).
      set (x1 := x <| fchain := src :: c :: rest |>).
      destruct (IH src T1 (c :: rest) x1 s1 Hch1) as (o & last & x' & s' & H1 & [R1 R2 R3 R4 R5 R6 R7]).
      * change (fgv s1) with (gv (AcquireRefLocked src (fl s))). rewrite Eg1. apply depth_le_same with (gv (fl s)); [|by apply (Hdep _ src HN)].
        intros y Y (Y0 & HY0 & ->)%with_ref_lookup. exists Y0. by case_decide.
      * exact HS1.
      * done.
      * intros y Y (Y0 & HY0 & ->)%upd_lookup. pose proof (Hrefs y Y0 HY0). pose proof (g_refs _ _ _ _ (ch_graph _ _ _ Hch) y (gnode Y0) ltac:(apply lookup_gv; eauto)) as Hg'.
        cbn in Hg'. case_decide; [|lia]. cbn. rewrite i32_small by lia. lia.
      * intros y Y Ht HY Hy. change (has_page y (cacheOffset x) (AcquireRefLocked src (fl s)) = false). rewrite has_page_ref.
        destruct (proj2 (more_refs_nodes _ _ Hm1) y Y HY) as (Y0 & HY0 & Et & _). apply (Hst y Y0); [|done|rewrite <- Et; exact Hy].
        apply (through_up _ k y c (gnode C) src); [done..|]. by apply (more_refs_through _ _ k y src Hm1).
      * intros p pg Hp Hpg. apply (Hbusy p pg); [|done]. apply (sees_up _ c (gnode C) src); [done..|]. by apply (more_refs_sees _ _ src k p Hm1).
      * exists o, last, x', s'. split; [rewrite Ef1; exact H1|]. change (Z.shiftr (cacheOffset x1) PAGE_SHIFT) with k in *. split.
        -- by apply (refs_taken_trans s s1 s').
        -- done.
        -- by rewrite R3.
        -- destruct R4 as [L R4]. exists (L ++ [src]). rewrite R4, Hx, <- app_assoc. done.
        -- intros Hheld. apply R5. intros d [->|Hd]%elem_of_cons.
           ++ eexists. split; [exact HS1|]. cbn. rewrite i32_small by lia. lia.
           ++ apply (held_more (fchain x) _ _ Hm1 Hheld). by rewrite Hx.
        -- apply (through_up _ k last c (gnode C) src); [done..|]. by apply (more_refs_through _ _ k last src Hm1).
        -- destruct R7 as (N1 & HN1 & Et & Esrc). destruct (proj2 (more_refs_nodes _ _ Hm1) last N1 HN1) as (N0 & HN0 & E1 & E2 & _).
           exists N0. split_and!; [done|congruence|]. intros E. rewrite <- E2. by apply Esrc.
    + exists None, c, (x <| fchain := c :: rest |>), s. split; [done|]. split; cbn [fchain update].
      * split; [apply more_refs_refl|by destruct s].
      * done.
      * done.
      * exists []. by rewrite Hx.
      * rewrite Hx. intros ?. split; [done|left].
      * constructor.
      * exists (gnode C). done.
Qed.

(** ** New pages *)

Lemma content_other pg d qg s : pfn qg ≠ pfn pg → content_of qg (set_content pg d s) = content_of qg s.
Proof.
  intros Hne. unfold content_of. change (phys_mem (set_content pg d s)) with (<[page_to_phys pg := d]> (phys_mem s)).
  rewrite lookup_insert_ne; [done|]. intros E. apply Hne. by apply phys_inj.
Qed.

Lemma content_same pg pg' d s : pfn pg' = pfn pg → content_of pg' (set_content pg d s) = d.
Proof.
  intros E. unfold content_of, page_to_phys. rewrite E. change (phys_mem (set_content pg d s)) with (<[page_to_phys pg := d]> (phys_mem s)). by rewrite lookup_insert_eq.
Qed.

(** A page outside of the caches changes. *)
Lemma chain_ok_page n l v' p pg pg' :
  chain_ok n None l → pages (vm (ast l)) !! p = Some pg → cache_ref pg = None → cache_ref pg' = None → cache_offset pg' = cache_offset pg → wired_count pg' = wired_count pg →
  pages v' = <[p := pg']> (pages (vm (ast l))) → caches v' = caches (vm (ast l)) → cacherefs v' = cacherefs (vm (ast l)) → pages_ok v' →
  chain_ok n None (l <| ast ::= fun y => y <| vm := v' |> |>) ∧ gv (l <| ast ::= fun y => y <| vm := v' |> |>) = gv l.
Proof.
  intros [Hvm Hq Hg [T1 T2 T3]] Hp Hr Hr' Ho Hw Ep Ec Ecr Hpo. set (l' := l <| ast ::= _ |>).
  assert (gv l' = gv l) as Eg by (unfold gv; change (caches (vm (ast l'))) with (caches v'); by rewrite Ec).
  assert (∀ c N k q, gv l !! c = Some N → n_tree N !! k = Some q → pages (vm (ast l')) !! q = pages (vm (ast l)) !! q) as Hother.
  { intros c N k q HN Hk. change (pages (vm (ast l'))) with (pages v'). rewrite Ep, lookup_insert_ne; [done|]. intros <-.
    destruct (cached_frame l c N k p Hvm HN Hk) as (pg0 & Hp0 & _ & _ & C & _ & E & _). congruence. }
  split; [|done]. split.
  - split_and!; [|done|].
    + eapply (caches_ok_touch (vm (ast l))); [apply Hvm|done|done|done|done|congruence|done|done].
    + change (Z.of_nat (size (pages v')) < 2 ^ 32). rewrite Ep, map_size_insert_Some by eauto. apply Hvm.
  - apply (quiet_links (ast l) v'); [done|by rewrite Ec].
  - rewrite Eg. exact Hg.
  - split; rewrite Eg; [exact T1| |].
    + intros c N k q qg HN Hk. rewrite (Hother c N k q HN Hk). by apply (T2 c N k q qg).
    + intros c N k q qg HN Hk. rewrite (Hother c N k q HN Hk). by apply (T3 c N k q qg).
Qed.

Record new_page n flags s p pg s1 : Prop := {
  np_ok : fault_ok n s1;
  np_rest : ∃ v1 m1, s1 = (set_vm v1 s) <| phys_mem := m1 |>;
  np_gv : fgv s1 = fgv s;
  np_caches : caches (fvm s1) = caches (fvm s);
  np_old : pages (fvm s) !! p = Some pg;
  np_free : is_free pg;
  np_pages : pages (fvm s1) = <[p := alloc_init flags pg]> (pages (fvm s));
  np_content : ∀ q qg, q ≠ p → pages (fvm s) !! q = Some qg → content_of qg s1 = content_of qg s;
  np_clear : testflag flags VM_PAGE_ALLOC_CLEAR = true → content_of pg s1 = zeroed
}.

Lemma alloc_ok n flags x s :
  fault_ok n s → 0 < nfree (fvm s) → 0 < reservation x < 2 ^ 32 → alloc_flags_ok flags →
  ∃ p pg s1, allocate flags x s = Ret (p, x <| reservation := reservation x - 1 |>, s1) ∧ new_page n flags s p pg s1.
Proof.
  intros [Hch [Fp Fc]] Hn Hr Hf. destruct (vm_page_allocate_page_etc_ok (reservation x) flags (fvm s)) as (p & pg & v1 & H1 & Hp & Hfree & Hu); [apply Hch|done..|].
  pose proof Hu as (_ & Ep & Ee). destruct (proj2 (proj1 (proj2 (ch_vm _ _ _ Hch))) p pg Hp) as [_ Hpf]. destruct (Hpf Hfree) as (Hcr & Hwc & Hmap).
  destruct (erase_fields _ _ Ee) as [Ec Ecr]. set (pg1 := alloc_init flags pg) in *.
  assert (pages_ok v1) as Hpo1.
  { apply (page_update_ok p pg1 (fvm s)); [apply Hch| |done]. split; [done|]. intros Hx. exfalso. destruct Hf as [Hf1 Hf2]. destruct Hx as [Hx|Hx]; [by apply Hf1|by apply Hf2]. }
  destruct (chain_ok_page n (fl s) v1 p pg pg1 Hch Hp Hcr Hcr eq_refl eq_refl Ep Ec Ecr Hpo1) as [Hch1 Eg1].
  set (cl := testflag flags VM_PAGE_ALLOC_CLEAR && _) in H1. set (s0 := set_vm v1 s). set (s1 := if cl then set_content pg1 zeroed s0 else s0).
  exists p, pg, s1. unfold allocate. rewrite H1. cbn [mbind outcome_bind]. rewrite Ep, lookup_insert_eq. cbn [deref mbind outcome_bind]. split; [done|].
  assert (fvm s1 = v1 ∧ fl s1 = fl s0) as [Ev El] by (unfold s1; by destruct cl).
  assert (∀ q qg, q ≠ p → pages (fvm s) !! q = Some qg → content_of qg s1 = content_of qg s) as Hcont.
  { intros q qg Hne Hq. unfold s1. destruct cl; [|done]. rewrite content_other; [done|]. intros E. apply Hne. by apply (Fp q p qg pg). }
  assert (∀ qg, content_of (qg <| pfn := pfn pg |>) s1 = if cl then zeroed else content_of (qg <| pfn := pfn pg |>) s) as Hp1.
  { intros qg. unfold s1. destruct cl; [by apply content_same|done]. }
  assert (content_of pg s1 = if cl then zeroed else content_of pg s) as Hp1'.
  { assert (pg <| pfn := pfn pg |> = pg) as E by (by destruct pg). rewrite <- E. apply Hp1. }
  split; rewrite ?Ev; try done.
  - split; [by rewrite El|]. split; rewrite Ev, Ep.
    + intros q r qg rg Hq Hr'. assert (∀ q qg, <[p := pg1]> (pages (fvm s)) !! q = Some qg → ∃ qg0, pages (fvm s) !! q = Some qg0 ∧ pfn qg0 = pfn qg) as Hback.
      { intros q0 qg0 [[<- <-]|[_ Hx]]%lookup_insert_Some; eauto. }
      destruct (Hback q qg Hq) as (? & ? & <-). destruct (Hback r rg Hr') as (? & ? & <-). by apply Fp.
    + intros q qg [[<- <-]|[Hne Hq]]%lookup_insert_Some Hst.
      * exfalso. by apply (proj2 Hf).
      * rewrite (Hcont q qg) by (done || by apply not_eq_sym). by apply (Fc q).
  - exists v1, (phys_mem s1). unfold s1. destruct cl; by destruct s.
  - change (gv (fl s1) = gv (fl s)). rewrite El. exact Eg1.
  - intros Hclear. rewrite Hp1'. unfold cl. rewrite Hclear. cbn [andb]. case_bool_decide as Hst; [done|]. apply (Fc p pg Hp). by destruct (decide (state pg = PAGE_STATE_CLEAR)).
Qed.

Definition placed_page k C pg : page := pg <| cache_offset := k |> <| cache_ref := Some (self_ref C) |>.

Record inserted n c C p pg k s s2 : Prop := {
  in_gv : fgv s2 = <[c := add_page k p (gnode C)]> (fgv s);
  in_pages : pages (fvm s2) = <[p := placed_page k C pg]> (pages (fvm s));
  in_rest : ∃ v2, s2 = set_vm v2 s;
  in_frames : frames_ok s2;
  in_chain : ∀ hidden, (∀ q, sees (fgv s) c k q → hidden = Some q) → chain_but n hidden (fl s2)
}.

Lemma insert_ok n c C p pg offset s :
  fault_ok n s → caches (fvm s) !! c = Some C → pages (fvm s) !! p = Some pg → cache_ref pg = None → ¬ is_free pg → busy pg = false →
  wired_count pg = 0 → mappings pg = [] → cpages C !! Z.shiftr offset PAGE_SHIFT = None →
  ∃ s2, with_fvm (InsertPage c p offset) s = Ret s2 ∧ inserted n c C p pg (Z.shiftr offset PAGE_SHIFT) s s2.
Proof.
  intros [[Hvm Hq Hg [T1 T2 T3]] [Fp Fc]] HC Hp Hr Hnf Hb Hw Hmap Hk. set (k := Z.shiftr offset PAGE_SHIFT) in *.
  pose proof Hvm as (Hco & Hpo & Hsz).
  assert (page_count C + 1 < 2 ^ 32) as Hroom.
  { apply (page_count_room (fvm s) c C p Hvm HC); [by eexists|]. intros o Ho. destruct (proj1 Hco c C HC) as (_ & _ & _ & _ & Hel). apply Hel in Ho as (pg0 & Hp0 & _ & E). change (pages (fvm s) !! p = Some pg0) in Hp0. congruence. }
  destruct (InsertPage_step c C p pg offset (fvm s) Hco HC Hp Hr Hk Hroom) as (C2 & H1 & Et & Hco2). fold k in H1, Et, Hco2.
  set (v2 := set_cache c C2 _) in *. destruct (InsertPage_frame c p offset (fvm s) v2 H1) as [Hfr Hpgs].
  assert (caches v2 = <[c := C2]> (caches (fvm s))) as Ec by done. assert (pages v2 = <[p := placed_page k C pg]> (pages (fvm s))) as Ep by done.
  assert (gnode C2 = add_page k p (gnode C)) as EN.
  { destruct Hfr as (El & _). apply (f_equal (.!! c)) in El. rewrite !lookup_fmap, Ec, lookup_insert_eq, HC in El. cbn in El. injection El as El1 El2 El3 El4 El5 El6 El7 El8 El9 El10.
    unfold gnode, add_page, with_tree, mergeable_kind. cbn. by rewrite Et, El1, El2, El3, El7, El8, El9, El10. }
  assert (gv (fl (set_vm v2 s)) = <[c := add_page k p (gnode C)]> (fgv s)) as Eg by (change (gnode <$> caches v2 = <[c := add_page k p (gnode C)]> (gnode <$> caches (fvm s))); by rewrite Ec, fmap_insert, EN).
  assert (fgv s !! c = Some (gnode C)) as HN by (apply lookup_gv; eauto).
  assert (∀ d D' j q qg, gv (fl (set_vm v2 s)) !! d = Some D' → n_tree D' !! j = Some q → pages v2 !! q = Some qg →
    (q = p ∧ qg = placed_page k C pg) ∨ ∃ D, fgv s !! d = Some D ∧ n_tree D !! j = Some q ∧ pages (fvm s) !! q = Some qg ∧ n_consumers D' = n_consumers D ∧ n_areas D' = n_areas D ∧ n_ref D' = n_ref D) as Hold.
  { intros d D' j q qg HD' Hl Hqg. rewrite Eg in HD'. destruct (add_lookup _ c _ k p HN Hk d D' HD') as (D & HD & _ & Ea & Ecn & Er & _ & Ett). rewrite Ett in Hl.
    rewrite Ep in Hqg. apply lookup_insert_Some in Hqg as [[<- <-]|[Hne Hqg]]; [by left|]. case_decide; [simplify_eq|]. right. exists D. split_and!; done. }
  exists (set_vm v2 s). split; [unfold with_fvm; by rewrite H1|]. split; try done.
  - by exists v2.
  - split; change (fvm (set_vm v2 s)) with v2; rewrite Ep.
    + intros q r qg rg Hq0 Hr0. assert (∀ q qg, <[p := placed_page k C pg]> (pages (fvm s)) !! q = Some qg → ∃ qg0, pages (fvm s) !! q = Some qg0 ∧ pfn qg0 = pfn qg) as Hback.
      { intros q0 qg0 [[<- <-]|[_ Hx]]%lookup_insert_Some; eauto. }
      destruct (Hback q qg Hq0) as (? & ? & <-). destruct (Hback r rg Hr0) as (? & ? & <-). by apply Fp.
    + intros q qg [[<- <-]|[Hne Hqx]]%lookup_insert_Some Hst; [exfalso; apply Hnf; by right|]. change (content_of qg s = zeroed). by apply (Fc q).
  - intros hidden Hhid. split.
    + split_and!; [done| |].
      * apply (frame_pages_ok (fvm s) v2 Hfr Hpo). intros q qg Hqg Hf. change (pages (vm (ast (fl (set_vm v2 s))))) with (pages v2) in Hqg. rewrite Ep in Hqg.
        apply lookup_insert_Some in Hqg as [[<- <-]|[_ Hqg]]; [by destruct Hnf|]. by apply (proj2 Hpo q qg Hqg).
      * change (Z.of_nat (size (pages v2)) < 2 ^ 32). rewrite Ep, map_size_insert_Some by eauto. done.
    + apply (quiet_links (ast (fl s)) v2 Hq). apply Hfr.
    + rewrite Eg. by apply (add_graph_ok (fgv s) c (gnode C) k p HN Hk).
    + intros d D e E. rewrite Eg. intros HD Hs HE Hf Hd. destruct (add_lookup _ c _ k p HN Hk d D HD) as (D0 & HD0 & Es & _).
      destruct (add_lookup _ c _ k p HN Hk e E HE) as (E0 & HE0 & _ & _ & _ & _ & Ef & _). assert (n_flag E0 = true ∧ n_source D0 = Some e) as [? ?] by (split; congruence). by apply (T1 d D0 e E0).
    + intros d D' j q qg HD' Hl Hqg Hbq. destruct (Hold d D' j q qg HD' Hl Hqg) as [[-> ->]|(D & HD & Hl0 & Hqg0 & -> & -> & ->)]; [cbn in Hbq; congruence|]. by apply (T2 d D j q qg).
    + intros d D' j q qg HD' Hl Hqg Hm Hne. destruct (Hold d D' j q qg HD' Hl Hqg) as [[-> ->]|(D & HD & Hl0 & Hqg0 & _)].
      { cbn in Hm. rewrite Hw, Hmap in Hm. by destruct Hm. }
      destruct (T3 d D j q qg HD Hl0 Hqg0 Hm) as (y & Y & HY & Ha & Hs). change (fgv s !! y = Some Y) in HY. rewrite Eg. destruct (add_lookup_some _ c _ k p HN Hk y Y HY) as [Y' HY'].
      exists y, Y'. split; [done|]. split; [destruct (add_lookup _ c _ k p HN Hk y Y' HY') as (Y0 & HY0 & _ & Ea & _); congruence|].
      destruct (sees_add_cases _ c _ k p HN Hk y j q Hs) as [[-> Ht]|Hs']; [|done]. exfalso. apply Hne. apply Hhid. by apply (through_sees _ k c y q Ht).
Qed.

(** What the caches show does not change when the new page has the data that
    was shown. *)
Lemma shown_inserted n c C p pg k s s2 d0 :
  fault_ok n s → caches (fvm s) !! c = Some C → cpages C !! k = None → pages (fvm s) !! p = Some pg → cache_ref pg = None →
  inserted n c C p pg k s s2 → shown s c k d0 → content_of pg s = d0 → ∀ y j d, shown s2 y j d ↔ shown s y j d.
Proof.
  intros [Hch Hfr] HC Hk Hp Hr [Eg Ep [v2 Es2] _ _] Hd0 Hcont. assert (fgv s !! c = Some (gnode C)) as HN by (apply lookup_gv; eauto).
  assert (∀ y j q, sees (fgv s) y j q → q ≠ p) as Hnp.
  { intros y j q Hs ->. destruct (sees_in _ _ _ _ Hs) as (e & E & HE & Hl & _). destruct (cached_frame (fl s) e E j p (ch_vm _ _ _ Hch) HE Hl) as (pg0 & Hp0 & _ & _ & D & _ & E0 & _).
    change (pages (fvm s)) with (pages (vm (ast (fl s)))) in Hp. congruence. }
  assert (∀ qg, content_of qg s2 = content_of qg s) as Ecs by (by rewrite Es2).
  assert (content_of (placed_page k C pg) s2 = d0) as Hcp by (rewrite Ecs; exact Hcont).
  assert (∀ y, through (fgv s) k c y → shown s y k d0) as Hth.
  { intros y Ht. destruct Hd0 as [(q & qg & Hs & Hq & Hc)|[Hn ->]].
    - left. exists q, qg. split_and!; [by apply (through_sees _ k c y q Ht)|done..].
    - right. split; [|done]. intros q Hq. apply (Hn q). by apply (through_sees _ k c y q Ht). }
  assert (∀ y j d d', shown s y j d → shown s y j d' → d = d') as Hfun.
  { intros y j d d' [(q & qg & Hs & Hq & <-)|[Hn ->]] [(q' & qg' & Hs' & Hq' & <-)|[Hn' ->]]; [|by destruct (Hn' q)|by destruct (Hn q')|done].
    rewrite (sees_fun _ _ _ _ _ Hs Hs') in Hq. congruence. }
  intros y j d. split.
  - intros [(q & qg & Hs & Hq & Hc)|[Hn ->]].
    + rewrite Eg in Hs. rewrite Ep in Hq. destruct (sees_add_1 _ c _ k p HN Hk y j q Hs) as [(-> & Ht & ->)|[_ Hs0]].
      * rewrite lookup_insert_eq in Hq. injection Hq as <-. rewrite Hcp in Hc. subst d. by apply Hth.
      * left. exists q, qg. rewrite lookup_insert_ne in Hq by (intros E; by apply (Hnp y j q Hs0)). by rewrite <- Ecs.
    + right. split; [|done]. intros q Hs. destruct (sees_add_cases _ c _ k p HN Hk y j q Hs) as [[-> Ht]|Hs'].
      * apply (Hn p). rewrite Eg. by apply (sees_add_through _ c _ k p HN Hk).
      * apply (Hn q). by rewrite Eg.
  - intros Hsh. destruct (through_or_not (fgv s) k c n y (graph_ok_depth _ _ _ _ y (ch_graph _ _ _ Hch))) as [Ht|Ht]; [destruct (decide (j = k)) as [->|Hl]|].
    + pose proof (Hfun y k d d0 Hsh (Hth y Ht)) as ->. left. exists p, (placed_page k C pg). split_and!; [|by rewrite Ep, lookup_insert_eq|done].
      rewrite Eg. by apply (sees_add_through _ c _ k p HN Hk).
    + destruct Hsh as [(q & qg & Hs & Hq & Hc)|[Hn ->]].
      * left. exists q, qg. rewrite Eg, Ep, lookup_insert_ne, Ecs by (intros E; by apply (Hnp y j q Hs)). split_and!; [|done..].
        apply (sees_add_2 _ c _ k p HN Hk); [done|]. by intros [? _].
      * right. split; [|done]. intros q. rewrite Eg. intros Hs. destruct (sees_add_1 _ c _ k p HN Hk y j q Hs) as [(? & _)|[_ Hs0]]; [done|by apply (Hn q)].
    + destruct Hsh as [(q & qg & Hs & Hq & Hc)|[Hn ->]].
      * left. exists q, qg. rewrite Eg, Ep, lookup_insert_ne, Ecs by (intros E; by apply (Hnp y j q Hs)). split_and!; [|done..].
        apply (sees_add_2 _ c _ k p HN Hk); [done|]. by intros [_ ?].
      * right. split; [|done]. intros q. rewrite Eg. intros Hs. destruct (sees_add_1 _ c _ k p HN Hk y j q Hs) as [(_ & ? & _)|[_ Hs0]]; [done|by apply (Hn q)].
Qed.

Lemma shown_same n s s' :
  chain_ok n None (fl s) → (∀ y j q, sees (fgv s') y j q ↔ sees (fgv s) y j q) →
  (∀ c N j q qg, fgv s !! c = Some N → n_tree N !! j = Some q → pages (fvm s) !! q = Some qg → ∃ qg', pages (fvm s') !! q = Some qg' ∧ content_of qg' s' = content_of qg s) →
  ∀ y j d, shown s' y j d ↔ shown s y j d.
Proof.
  intros Hch Hs Hp y j d. unfold shown. split.
  - intros [(q & qg & Hq & Hqg & Hc)|[Hn ->]]; [|right; split; [|done]; intros q Hq; apply (Hn q); by apply Hs].
    apply Hs in Hq. left. destruct (sees_in _ _ _ _ Hq) as (c & N & HN & Hj & _). destruct (cached_frame (fl s) c N j q (ch_vm _ _ _ Hch) HN Hj) as (qg0 & Hq0 & _).
    destruct (Hp c N j q qg0 HN Hj Hq0) as (qg' & Hqg' & Ec). exists q, qg0. split_and!; [done..|]. rewrite <- Ec. congruence.
  - intros [(q & qg & Hq & Hqg & Hc)|[Hn ->]]; [|right; split; [|done]; intros q Hq; apply (Hn q); by apply Hs].
    left. destruct (sees_in _ _ _ _ Hq) as (c & N & HN & Hj & _). destruct (Hp c N j q qg HN Hj Hqg) as (qg' & Hqg' & Ec). exists q, qg'.
    split_and!; [by apply Hs|done|congruence].
Qed.

(** The busy flag of a page whose cache is held, and the waiters of the cache. *)
Lemma chain_ok_busy n l l' c N k p pg b :
  chain_ok n None l → gv l !! c = Some N → n_tree N !! k = Some p → pages (vm (ast l)) !! p = Some pg →
  Z.of_nat (length (n_consumers N)) + Z.of_nat (length (n_areas N)) < n_ref N →
  ast l' = (ast l) <| vm ::= upd_page p (fun pg => pg <| busy := b |>) |> → (∀ d, d ≠ c → waiting l' d = waiting l d) →
  chain_ok n None l' ∧ gv l' = gv l ∧ pages (vm (ast l')) = <[p := pg <| busy := b |>]> (pages (vm (ast l))).
Proof.
  intros [Hvm Hq Hg [T1 T2 T3]] HN Hk Hp Hheld El Hw. set (f := fun pg : page => pg <| busy := b |>).
  assert (gv l' = gv l) as Eg by (unfold gv; rewrite El; done).
  assert (pages (vm (ast l')) = <[p := f pg]> (pages (vm (ast l)))) as Ep.
  { rewrite El. change (alter f p (pages (vm (ast l))) = <[p := f pg]> (pages (vm (ast l)))). by apply alter_insert_page. }
  split; [|done]. split.
  - rewrite El. destruct Hvm as (Hco & Hpo & Hsz). set (v' := upd_page p f (vm (ast l))). assert (pages v' = <[p := f pg]> (pages (vm (ast l)))) as Ep' by (by apply alter_insert_page).
    split_and!.
    + by eapply (caches_ok_touch (vm (ast l)) v' p pg (f pg)).
    + split; [apply (queues_ok_pages (vm (ast l)) v' p pg (f pg)); [apply Hpo|done|done|by intros []|done]|].
      intros q qg. intros Hqg. change (pages v' !! q = Some qg) in Hqg. rewrite Ep' in Hqg. revert Hqg.
      intros [[_ <-]|[_ Hqx]]%lookup_insert_Some; [|by apply (proj2 Hpo q)]. exact (proj2 Hpo p pg Hp).
    + change (Z.of_nat (size (pages v')) < 2 ^ 32). rewrite Ep', map_size_insert_Some by eauto. done.
  - rewrite El. by apply (quiet_links (ast l)).
  - rewrite Eg. destruct Hg as [G1 G2 G3 G4 G5 G6]. split; try done. intros d D HD _. pose proof (G6 d D HD ltac:(done)) as [S1 S2].
    split; [done|]. intros [Hr Hm]. destruct (decide (d = c)) as [->|Hd].
    + rewrite HN in HD. injection HD as <-. destruct (n_mergeable_inv _ _ _ Hm) as (Ha & [e He] & _). rewrite Ha, He in Hheld. cbn in Hheld. lia.
    + apply S2. split; [done|]. unfold n_mergeable in *. by rewrite <- Hw.
  - split; rewrite ?Eg; [by rewrite El| |].
    + intros d D j q qg HD Hj. rewrite Ep. intros [[<- <-]|[_ Hqg]]%lookup_insert_Some Hb; [|by apply (T2 d D j q qg)].
      destruct (gv_once l (proj1 Hvm) c N k d D j p HN Hk HD Hj) as [<- _]. rewrite HN in HD. by injection HD as <-.
    + intros d D j q qg HD Hj. rewrite Ep. intros [[<- <-]|[_ Hqg]]%lookup_insert_Some Hm; [by apply (T3 d D j p pg)|by apply (T3 d D j q qg)].
Qed.

Lemma frames_ok_page s s' p pg pg' :
  frames_ok s → pages (fvm s) !! p = Some pg → pages (fvm s') = <[p := pg']> (pages (fvm s)) → pfn pg' = pfn pg → state pg' = state pg → phys_mem s' = phys_mem s → frames_ok s'.
Proof.
  intros [Fp Fc] Hp Ep E1 E2 Em.
  assert (∀ q qg, pages (fvm s') !! q = Some qg → ∃ qg0, pages (fvm s) !! q = Some qg0 ∧ pfn qg0 = pfn qg ∧ state qg0 = state qg) as Hback.
  { intros q qg. rewrite Ep. intros [[<- <-]|[_ Hx]]%lookup_insert_Some; eauto. }
  split.
  - intros q r qg rg Hq Hr. destruct (Hback q qg Hq) as (? & ? & <- & _). destruct (Hback r rg Hr) as (? & ? & <- & _). by apply Fp.
  - intros q qg Hq Hst. destruct (Hback q qg Hq) as (qg0 & Hq0 & Ef & Es). assert (content_of qg s' = content_of qg0 s) as ->; [|apply (Fc q); congruence].
    unfold content_of, page_to_phys. by rewrite Em, Ef.
Qed.

(** The lower caches have references and are only unlocked. *)
Lemma unlock_keep_refs_ok n u chain : ∀ s, chain_ok n None (fl s) → (∀ c, c ∈ chain → is_Some (caches (fvm s) !! c)) →
  unlock_keep_refs SECONDS env (S u) chain s = Ret s.
Proof.
  induction chain as [|c chain IH]; intros s Hch Hin; [done|]. destruct chain as [|d chain]; [done|].
  change (unlock_keep_refs SECONDS env (S u) (c :: d :: chain) s) with (s ← unlock_cache SECONDS env (S u) c true s; unlock_keep_refs SECONDS env (S u) (d :: chain) s).
  destruct (Hin c) as [C HC]; [left|]. assert (gv (fl s) !! c = Some (gnode C)) as HN by (apply lookup_gv; eauto).
  destruct (g_settled _ _ _ _ (ch_graph _ _ _ Hch) c _ HN) as [S1 S2]; [done|].
  unfold unlock_cache. rewrite (Unlock_settled SECONDS env u c true C) by done. cbn [mbind outcome_bind].
  assert (s <| fl := fl s |> <| contended := contended s |> = s) as -> by (by destruct s). apply IH; [done|]. intros e He. apply Hin. by right.
Qed.

(** What the others leave alone while page [src] is copied to page [p]: the
    invariant holds, the references of the context stay, the top cache, the
    two pages and their data are not touched, the page is still the one to
    copy, and all caches show the same data. *)
Record undisturbed n chain (top k p src : Z) s s' : Prop := {
  ud_ok : fault_ok n s';
  ud_held : held chain (fl s');
  ud_top : caches (fvm s') !! top = caches (fvm s) !! top;
  ud_page : pages (fvm s') !! p = pages (fvm s) !! p;
  ud_src : pages (fvm s') !! src = pages (fvm s) !! src ∧ ∃ c, c ∈ chain ∧ ∀ spg, pages (fvm s) !! src = Some spg → page_Cache (fvm s') spg = Some c;
  ud_content : ∀ q qg, q = p ∨ q = src → pages (fvm s) !! q = Some qg → content_of qg s' = content_of qg s;
  ud_sees : sees (fgv s') top k src;
  ud_shown : ∀ y j d, shown s' y j d ↔ shown s y j d
}.

Definition calm n chain (top k src : Z) (w : window) : Prop := ∀ p s c spg,
  fault_ok n s → held chain (fl s) → sees (fgv s) top k src → c ∈ chain → pages (fvm s) !! src = Some spg → page_Cache (fvm s) spg = Some c → busy spg = true →
  undisturbed n chain top k p src s (w_copy w s).

(** A page in the top cache with the data that was shown there. *)
Record own_page n (hidden : option Z) top k p s s' : Prop := {
  op_tree : ∃ C', caches (fvm s') !! top = Some C' ∧ cpages C' !! k = Some p;
  op_data : ∃ pg', pages (fvm s') !! p = Some pg' ∧ shown s top k (content_of pg' s');
  op_shown : ∀ y j d, shown s' y j d ↔ shown s y j d;
  op_chain : chain_but n hidden (fl s');
  op_frames : frames_ok s'
}.

(** The copy is marked unbusy and the new page inserted. *)
Lemma finish_copy n top C src spg c N k p pg x s :
  fault_ok n s → caches (fvm s) !! top = Some C → cpages C !! k = None → k = Z.shiftr (cacheOffset x) PAGE_SHIFT →
  fgv s !! c = Some N → n_tree N !! k = Some src → pages (fvm s) !! src = Some spg → busy spg = true → page_Cache (fvm s) spg = Some c →
  Z.of_nat (length (n_consumers N)) + Z.of_nat (length (n_areas N)) < n_ref N → sees (fgv s) top k src →
  pages (fvm s) !! p = Some pg → cache_ref pg = None → ¬ is_free pg → busy pg = false → wired_count pg = 0 → mappings pg = [] → content_of pg s = content_of spg s →
  ∃ s5 s', with_l (MarkPageUnbusy c src) s = Ret s5 ∧ with_fvm (InsertPage top p (cacheOffset x)) s5 = Ret s' ∧ own_page n (Some src) top k p s s'.
Proof.
  intros [Hch Hfr] HC Hk Ek HN Hsrc Hspg Hb Hpc Hheld Hsees Hp Hr Hnf Hpb Hw Hm Hcont.
  assert (cs5 : ∃ s5, with_l (MarkPageUnbusy c src) s = Ret s5 ∧ ast (fl s5) = (ast (fl s)) <| vm ::= upd_page src (fun pg => pg <| busy := false |>) |> ∧
    page_event_waiters (fl s5) = alter (filter (fun w => ¬ (w.1 = src ∧ Z.land w.2 PAGE_EVENT_NOT_BUSY ≠ 0))) c (page_event_waiters (fl s)) ∧
    phys_mem s5 = phys_mem s ∧ s5 = s <| fl := fl s5 |>).
  { unfold with_l, MarkPageUnbusy. change (pages (vm (ast (fl s)))) with (pages (fvm s)). rewrite Hspg. cbn [deref mbind outcome_bind]. rewrite Hb. cbn [assert mbind outcome_bind].
    eexists. split; [reflexivity|]. done. }
  destruct cs5 as (s5 & H5 & Ea & Ew & Em & Erest). exists s5.
  destruct (chain_ok_busy n (fl s) (fl s5) c N k src spg false Hch HN Hsrc Hspg Hheld Ea) as (Hch5 & Eg5 & Ep5).
  { intros d Hd. unfold waiting. rewrite Ew, lookup_alter_ne by (by apply not_eq_sym). done. }
  assert (src ≠ p) as Hne by (intros ->; rewrite Hp in Hspg; injection Hspg as ->; congruence).
  assert (frames_ok s5) as Hfr5 by (by apply (frames_ok_page s s5 src spg (spg <| busy := false |>))).
  assert (caches (fvm s5) = caches (fvm s)) as Ec5 by (unfold fvm; by rewrite Ea).
  assert (∀ qg, content_of qg s5 = content_of qg s) as Ecs by (intros; unfold content_of; by rewrite Em).
  assert (pages (fvm s5) !! p = Some pg) as Hp5 by (change (pages (fvm s5)) with (pages (vm (ast (fl s5)))); rewrite Ep5, lookup_insert_ne by done; exact Hp).
  assert (∀ y j d, shown s5 y j d ↔ shown s y j d) as Hsh5.
  { apply (shown_same n); [done|intros y j q; unfold fgv; by rewrite Eg5|]. intros d D j q qg HD Hj Hq. change (pages (fvm s5)) with (pages (vm (ast (fl s5)))). rewrite Ep5.
    destruct (decide (src = q)) as [<-|Hq']; [|rewrite lookup_insert_ne by done; exists qg; split; [exact Hq|apply Ecs]].
    rewrite lookup_insert_eq. rewrite Hspg in Hq. injection Hq as <-. eexists. split; [done|]. by rewrite Ecs. }
  assert (caches (fvm s5) !! top = Some C) as HC5 by (by rewrite Ec5).
  destruct (insert_ok n top C p pg (cacheOffset x) s5 (conj Hch5 Hfr5) HC5 Hp5 Hr Hnf Hpb Hw Hm) as (s' & H' & Hin); [by rewrite <- Ek|]. rewrite <- Ek in Hin.
  exists s'. split; [done|]. split; [done|]. pose proof Hin as [Ig Ip [v' Iv] If Ic].
  assert (shown s top k (content_of spg s)) as Hshown by (left; exists src, spg; done).
  assert (content_of pg s5 = content_of spg s) as Hcont5 by (by rewrite Ecs).
  assert (∀ y j d, shown s' y j d ↔ shown s y j d) as Hsh.
  { intros y j d. rewrite (shown_inserted n top C p pg k s5 s' (content_of spg s)); [apply Hsh5|done|done|done|done|done|done|by apply Hsh5|done]. }
  split; try done.
  - assert (fgv s' !! top = Some (add_page k p (gnode C))) as (C' & HC' & E)%lookup_gv by (rewrite Ig; apply lookup_insert_eq).
    exists C'. split; [done|]. apply (f_equal n_tree) in E. cbn in E. rewrite E. apply lookup_insert_eq.
  - exists (placed_page k C pg). split; [by rewrite Ip, lookup_insert_eq|]. assert (content_of (placed_page k C pg) s' = content_of spg s) as ->; [|done].
    rewrite Iv. transitivity (content_of pg s5); [done|exact Hcont5].
  - apply Ic. intros q Hq. change (fgv s5) with (gv (fl s5)) in Hq. rewrite Eg5 in Hq. f_equal. by apply (sees_fun _ _ _ _ _ Hsees Hq).
Qed.

Lemma held_same chain l l' : caches (vm (ast l')) = caches (vm (ast l)) → held chain l → held chain l'.
Proof. intros E H c Hc. rewrite E. by apply H. Qed.

(** The data of a page that no cache shows. *)
Lemma shown_set_content n s pg d p :
  fault_ok n s → pages (fvm s) !! p = Some pg → cache_ref pg = None → ¬ is_free pg →
  fault_ok n (set_content pg d s) ∧ ∀ y j e, shown (set_content pg d s) y j e ↔ shown s y j e.
Proof.
  intros [Hch [Fp Fc]] Hp Hr Hnf. split; [split; [done|split; [exact Fp|]]|].
  - intros q qg Hq Hst. rewrite content_other; [by apply (Fc q)|]. intros E. apply Hnf. rewrite (Fp q p qg pg Hq Hp E) in Hq. change (pages (fvm s) !! p = Some qg) in Hq.
    rewrite Hp in Hq. injection Hq as <-. by right.
  - apply (shown_same n); [done|done|]. intros c N j q qg HN Hj Hq. exists qg. split; [done|]. rewrite content_other; [done|]. intros E.
    destruct (cached_frame (fl s) c N j q (ch_vm _ _ _ Hch) HN Hj) as (qg0 & Hq0 & _ & _ & D & _ & E0 & _). change (pages (fvm s) !! q = Some qg0) in Hq0.
    assert (q = p) as -> by (by apply (Fp q p qg pg)). congruence.
Qed.

Lemma fault_copy_ok n u w top C src spg c N k x s :
  fault_ok n s → caches (fvm s) !! top = Some C → cpages C !! k = None → k = Z.shiftr (cacheOffset x) PAGE_SHIFT →
  fgv s !! c = Some N → n_tree N !! k = Some src → pages (fvm s) !! src = Some spg → busy spg = false → sees (fgv s) top k src →
  c ∈ fchain x → held (fchain x) (fl s) → 0 < nfree (fvm s) → 0 < reservation x < 2 ^ 32 → calm n (fchain x) top k src w →
  ∃ p s', fault_copy_page SECONDS env (S u) w top src x s = Ret (p, x <| reservation := reservation x - 1 |> <| pageAllocated := true |>, s') ∧
    own_page n (Some src) top k p s s'.
Proof.
  intros Hok HC Hk Ek HN Hsrc Hspg Hb Hsees Hc Hheld Hn Hr Hcalm. set (flags := page_state_code PAGE_STATE_ACTIVE).
  destruct (alloc_ok n flags x s Hok Hn Hr) as (p & pg & s1 & H1 & [Hok1 _ Eg1 Ec1 Hpo Hfree Ep1 Hcont1 _]); [by split|].
  destruct (cached_frame (fl s) c N k src (ch_vm _ _ _ (proj1 Hok)) HN Hsrc) as (spg0 & Hspg0 & Hnfs & _ & D & HD & Hsr & Hpcs). change (pages (fvm s) !! src = Some spg0) in Hspg0.
  rewrite Hspg in Hspg0. injection Hspg0 as <-. assert (src ≠ p) as Hne by (intros ->; rewrite Hpo in Hspg; injection Hspg as ->; done).
  destruct (proj2 (proj1 (proj2 (ch_vm _ _ _ (proj1 Hok)))) p pg Hpo) as [_ Hpf]. destruct (Hpf Hfree) as (Hcr & Hwc & Hmap).
  assert (∃ C0, caches (fvm s) !! c = Some C0 ∧ N = gnode C0 ∧ Z.of_nat (length (n_consumers N)) + Z.of_nat (length (n_areas N)) < n_ref N) as (C0 & HC0 & EN & HrefN).
  { destruct (Hheld c Hc) as (C0 & HC0 & Hlt). exists C0. assert (N = gnode C0) as ->; [|done].
    assert (gv (fl s) !! c = Some (gnode C0)) as E by (apply lookup_gv; eauto). change (fgv s !! c = Some (gnode C0)) in E. congruence. }
  assert (pages (fvm s1) !! src = Some spg) as Hspg1 by (rewrite Ep1, lookup_insert_ne by (by apply not_eq_sym); done).
  unfold fault_copy_page. fold flags. rewrite H1. cbn [mbind outcome_bind]. set (x1 := x <| reservation := reservation x - 1 |>).
  set (s2 := set_vm (upd_page src (fun pg => pg <| busy := true |>) (fvm s1)) s1).
  assert (fgv s1 !! c = Some N) as HN1 by (by rewrite Eg1).
  destruct (chain_ok_busy n (fl s1) (fl s2) c N k src spg true (proj1 Hok1) HN1 Hsrc Hspg1 HrefN eq_refl (fun _ _ => eq_refl)) as (Hch2 & Eg2 & Ep2).
  change (pages (vm (ast (fl s2)))) with (pages (fvm s2)) in Ep2. change (pages (vm (ast (fl s1)))) with (pages (fvm s1)) in Ep2.
  assert (frames_ok s2) as Hfr2 by (by apply (frames_ok_page s1 s2 src spg (spg <| busy := true |>) (proj2 Hok1))).
  assert (held (fchain x) (fl s2)) as Hheld2 by (apply (held_same _ (fl s)); [|done]; exact Ec1).
  rewrite (unlock_keep_refs_ok n u (fchain x1) s2 Hch2) by (intros d Hd; destruct (Hheld2 d Hd) as (? & ? & _); by eexists). cbn [mbind outcome_bind].
  set (pg1 := alloc_init flags pg) in *. assert (pages (fvm s2) !! p = Some pg1) as Hp2 by (rewrite Ep2, lookup_insert_ne by done; rewrite Ep1; apply lookup_insert_eq).
  assert (pages (fvm s2) !! src = Some (spg <| busy := true |>)) as Hspg2 by (rewrite Ep2; apply lookup_insert_eq).
  rewrite Hp2. cbn [deref mbind outcome_bind]. rewrite Hspg2. cbn [deref mbind outcome_bind]. set (d0 := content_of (spg <| busy := true |>) s2).
  assert (¬ is_free pg1) as Hnf1 by (intros [?|?]; done).
  destruct (shown_set_content n s2 pg1 d0 p (conj Hch2 Hfr2) Hp2 Hcr Hnf1) as [Hok3 Hsh3]. set (s3 := set_content pg1 d0 s2) in *.
  assert (page_Cache (fvm s3) (spg <| busy := true |>) = Some c) as Hpc3.
  { destruct Hok1 as [Hch1 _]. destruct (cached_frame (fl s1) c N k src (ch_vm _ _ _ Hch1) HN1 Hsrc) as (spg1 & Hs1 & _ & _ & _ & _ & _ & E). change (pages (fvm s1) !! src = Some spg1) in Hs1.
    rewrite Hspg1 in Hs1. injection Hs1 as <-. exact E. }
  assert (sees (fgv s3) top k src) as Hsees3 by (change (sees (gv (fl s2)) top k src); rewrite Eg2; change (gv (fl s1)) with (fgv s1); by rewrite Eg1).
  destruct (Hcalm p s3 c (spg <| busy := true |>) Hok3 Hheld2 Hsees3 Hc Hspg2 Hpc3 eq_refl) as [U1 U2 U3 U4 [U5 (c' & Hc' & U6)] U7 U8 U9]. set (s4 := w_copy w s3) in *.
  assert (pages (fvm s4) !! src = Some (spg <| busy := true |>)) as Hspg4 by (rewrite U5; exact Hspg2). rewrite Hspg4. cbn [deref mbind outcome_bind].
  rewrite (U6 (spg <| busy := true |>)) by exact Hspg2. cbn [deref mbind outcome_bind].
  destruct (sees_in _ _ _ _ U8) as (c4 & N4 & HN4 & Hk4 & _). destruct (cached_frame (fl s4) c4 N4 k src (ch_vm _ _ _ (proj1 U1)) HN4 Hk4) as (spg4 & Hs4 & _ & _ & _ & _ & _ & E4).
  change (pages (fvm s4) !! src = Some spg4) in Hs4. rewrite Hspg4 in Hs4. injection Hs4 as <-. change (page_Cache (fvm s4) (spg <| busy := true |>) = Some c4) in E4.
  rewrite (U6 (spg <| busy := true |>)) in E4 by exact Hspg2. injection E4 as <-.
  assert (Z.of_nat (length (n_consumers N4)) + Z.of_nat (length (n_areas N4)) < n_ref N4) as Hheld4.
  { destruct (U2 c' Hc') as (C4 & HC4 & Hlt). assert (fgv s4 !! c' = Some (gnode C4)) as E by (apply lookup_gv; eauto). rewrite HN4 in E. injection E as ->. exact Hlt. }
  destruct (finish_copy n top C src (spg <| busy := true |>) c' N4 k p pg1 x1 s4) as (s5 & s' & H5 & H6 & [O1 O2 O3 O4 O5]); try done.
  { rewrite U3. change (caches (fvm s3)) with (caches (fvm s1)). by rewrite Ec1. }
  { by apply U6. }
  { by rewrite U4. }
  { rewrite (U7 p pg1) by (exact Hp2 || by left). rewrite (U7 src (spg <| busy := true |>)) by (exact Hspg2 || by right).
    unfold s3. rewrite content_same, content_other by (done || (intros E; apply Hne; by apply (fr_pfn s2 Hfr2 src p _ _ Hspg2 Hp2))). done. }
  rewrite H5. cbn [mbind outcome_bind]. rewrite H6. cbn [mbind outcome_bind]. exists p, s'. split; [done|].
  assert (∀ y j d, shown s4 y j d ↔ shown s y j d) as Hsh4.
  { intros y j d. rewrite U9, Hsh3. apply (shown_same n s s2 (proj1 Hok)).
    - intros y' j' q. change (sees (gv (fl s2)) y' j' q ↔ sees (fgv s) y' j' q). rewrite Eg2. change (gv (fl s1)) with (fgv s1). by rewrite Eg1.
    - intros e E j' q qg HE Hj' Hq. assert (q ≠ p) as Hqp.
      { intros ->. destruct (cached_frame (fl s) e E j' p (ch_vm _ _ _ (proj1 Hok)) HE Hj') as (pg0 & Hp0 & Hnf & _). change (pages (fvm s) !! p = Some pg0) in Hp0. congruence. }
      rewrite Ep2, Ep1. destruct (decide (src = q)) as [<-|Hq'].
      + exists (spg <| busy := true |>). rewrite lookup_insert_eq. split; [done|]. transitivity (content_of spg s1); [done|]. rewrite (Hcont1 src spg) by done. congruence.
      + exists qg. rewrite !lookup_insert_ne by (done || by apply not_eq_sym). split; [done|]. exact (Hcont1 q qg Hqp Hq). }
  split; try done.
  - destruct O2 as (pg' & ? & Hd). exists pg'. split; [done|]. by apply Hsh4.
  - intros y j d. by rewrite O3.
Qed.

Lemma refs_taken_ok n s s1 : frames_ok s → chain_ok n None (fl s1) → refs_taken s s1 →
  fault_ok n s1 ∧ (∀ y j d, shown s1 y j d ↔ shown s y j d) ∧ nfree (fvm s1) = nfree (fvm s) ∧ pages (fvm s1) = pages (fvm s).
Proof.
  intros Hfr Hch [Hm Es]. destruct (more_refs_pages _ _ Hm) as (Ep & _ & _). change (pages (fvm s1) = pages (fvm s)) in Ep.
  assert (∀ pg, content_of pg s1 = content_of pg s) as Ec by (by rewrite Es).
  assert (frames_ok s1) as Hfr1. { destruct Hfr as [Fp Fc]. split; rewrite Ep; [done|]. intros p pg. rewrite Ec. by apply Fc. }
  split; [done|]. split_and!; [|pose proof (mr_rest _ _ Hm) as E; apply (f_equal (fun l => nfree (vm (ast l)))) in E; exact E|done].
  intros y j d. unfold shown. rewrite Ep. setoid_rewrite (more_refs_sees _ _ y j _ Hm : sees (fgv s1) y j _ ↔ sees (fgv s) y j _). by setoid_rewrite Ec.
Qed.

(** What [fault_get_page] promises. *)
Record got_page n (isWrite : bool) top k p s s' : Prop := {
  gp_data : ∃ pg', pages (fvm s') !! p = Some pg' ∧ shown s top k (content_of pg' s');
  gp_sees : sees (fgv s') top k p;
  gp_own : isWrite = true → ∃ C', caches (fvm s') !! top = Some C' ∧ cpages C' !! k = Some p;
  gp_shown : ∀ y j d, shown s' y j d ↔ shown s y j d;
  gp_chain : ∃ hidden, chain_but n hidden (fl s') ∧ ∀ q, hidden = Some q → sees (fgv s) top k q;
  gp_frames : frames_ok s'
}.

(** A clean page for the top cache, or for the last one. *)
Lemma clean_page_ok n top last N k c C x s :
  fault_ok n s → through (fgv s) k last top → fgv s !! last = Some N → n_tree N !! k = None → n_source N = None → k = Z.shiftr (cacheOffset x) PAGE_SHIFT →
  through (fgv s) k c top → caches (fvm s) !! c = Some C → cpages C !! k = None → 0 < nfree (fvm s) → 0 < reservation x < 2 ^ 32 →
  ∃ p s1 s', allocate (Z.lor (page_state_code PAGE_STATE_ACTIVE) VM_PAGE_ALLOC_CLEAR) x s = Ret (p, x <| reservation := reservation x - 1 |>, s1) ∧
    with_fvm (InsertPage c p (cacheOffset x)) s1 = Ret s' ∧ got_page n (bool_decide (c = top)) top k p s s'.
Proof.
  intros Hok Hlast HN Hk Hsrc Ek Hthr HC HkC Hn Hr. set (flags := Z.lor _ _).
  destruct (alloc_ok n flags x s Hok Hn Hr) as (p & pg & s1 & H1 & [Hok1 [v1 [m1 Es1]] Eg1 Ec1 Hpo Hfree Ep1 Hcont1 Hclear]); [by split|].
  destruct (proj2 (proj1 (proj2 (ch_vm _ _ _ (proj1 Hok)))) p pg Hpo) as [_ Hpf]. destruct (Hpf Hfree) as (Hcr & Hwc & Hmap). set (pg1 := alloc_init flags pg) in *.
  assert (pages (fvm s1) !! p = Some pg1) as Hp1 by (rewrite Ep1; apply lookup_insert_eq).
  assert (caches (fvm s1) !! c = Some C) as HC1 by (by rewrite Ec1). assert (¬ is_free pg1) as Hnf1 by (intros [?|?]; done).
  destruct (insert_ok n c C p pg1 (cacheOffset x) s1 Hok1 HC1 Hp1 Hcr Hnf1 eq_refl Hwc Hmap) as (s' & H' & Hin); [by rewrite <- Ek|]. rewrite <- Ek in Hin.
  exists p, s1, s'. split; [done|]. split; [done|]. pose proof Hin as [Ig Ip [v' Iv] If Ic].
  assert (∀ q, ¬ sees (fgv s) top k q) as Hnone.
  { intros q Hq. apply (through_sees _ k last top q Hlast) in Hq. inversion Hq; simplify_eq. }
  assert (∀ q, ¬ sees (fgv s) c k q) as Hnonec by (intros q Hq; apply (Hnone q); by apply (through_sees _ k c top q Hthr)).
  assert (∀ y j d, shown s1 y j d ↔ shown s y j d) as Hsh1.
  { apply (shown_same n s s1 (proj1 Hok)); [by rewrite Eg1|]. intros e E j q qg HE Hj Hq. exists qg. assert (q ≠ p) as Hqp.
    { intros ->. destruct (cached_frame (fl s) e E j p (ch_vm _ _ _ (proj1 Hok)) HE Hj) as (pg0 & Hp0 & Hnf & _). change (pages (fvm s) !! p = Some pg0) in Hp0. congruence. }
    rewrite Ep1, lookup_insert_ne by (by apply not_eq_sym). split; [done|by apply (Hcont1 q)]. }
  assert (content_of pg1 s1 = zeroed) as Hz by (transitivity (content_of pg s1); [done|by apply Hclear]).
  assert (shown s1 c k zeroed) as Hz1 by (apply Hsh1; right; split; [exact Hnonec|done]).
  assert (fgv s1 !! c = Some (gnode C)) as HNc by (apply lookup_gv; eauto).
  assert (through (fgv s1) k c top) as Hthr1 by (by rewrite Eg1).
  assert (content_of (placed_page k C pg1) s' = zeroed) as Hz' by (rewrite Iv; exact Hz).
  split.
  - exists (placed_page k C pg1). split; [by rewrite Ip, lookup_insert_eq|]. rewrite Hz'. right. split; [exact Hnone|done].
  - rewrite Ig. by apply (sees_add_through (fgv s1) c (gnode C) k p HNc HkC).
  - intros E. apply bool_decide_eq_true in E as <-. assert (fgv s' !! c = Some (add_page k p (gnode C))) as (C' & HC' & E)%lookup_gv by (rewrite Ig; apply lookup_insert_eq).
    exists C'. split; [done|]. apply (f_equal n_tree) in E. cbn in E. rewrite E. apply lookup_insert_eq.
  - intros y j d. rewrite (shown_inserted n c C p pg1 k s1 s' zeroed); [apply Hsh1|done..].
  - exists None. split; [|done]. apply Ic. intros q Hq. rewrite Eg1 in Hq. by destruct (Hnonec q).
  - done.
Qed.

Lemma through_none G k c y N : through G k c y → G !! y = Some N → y ≠ c → n_tree N !! k = None.
Proof. intros H HN Hne. inversion H; simplify_eq. done. Qed.

(** ** Properties *)

(** C9: Copy on write: fault_get_page on a chain of caches, when the page
    shown is not busy, none of the caches above it (and none at all if there
    is no page) has one in its backing store, no cache has swapped out a
    page (sSwapHashTable is empty), a page is free for the reservation, the
    context holds a reference to the top cache, reference counts stay below
    2^31, and what others do in the window of the copy leaves alone the new
    page, the page being copied and the chain that is referenced. It finds
    the page the top cache shows at the faulting offset, in the top cache or
    any source, or provides a clean page if no cache has one, and for a
    write a copy in the top cache; the page returned holds exactly the data
    that was shown before, and no cache of the system, at no offset, shows
    other data than before. It needs at most one round per cache of the
    chain, and the invariants of pages and caches hold afterwards. The
    branches that wait for a busy page or read one in, after which
    vm_soft_fault starts over, are modelled but not the subject of this
    property. *)
Theorem fault_get_page_correct (n u : nat) (w : window) (x : PageFaultContext) (top : Z) (C : VMCache) (s : fstate)
    (Hok : fault_ok n s) (Htop : topCache x = Some top) (Hchain : fchain x = [top]) (HC : caches (fvm s) !! top = Some C) (Hheld : held [top] (fl s))
    (Hrefs : ∀ y Y, caches (fvm s) !! y = Some Y → ref_count Y < 2 ^ 31 - 2 - Z.of_nat n)
    (Hstore : not_stored top (Z.shiftr (cacheOffset x) PAGE_SHIFT) (cacheOffset x) s)
    (Hbusy : ∀ p pg, sees (fgv s) top (Z.shiftr (cacheOffset x) PAGE_SHIFT) p → pages (fvm s) !! p = Some pg → busy pg = false)
    (Hfree : 0 < nfree (fvm s)) (Hres : 0 < reservation x < 2 ^ 32)
    (Hcalm : ∀ chain src, sees (fgv s) top (Z.shiftr (cacheOffset x) PAGE_SHIFT) src → calm n chain top (Z.shiftr (cacheOffset x) PAGE_SHIFT) src w) :
  ∃ p x' s', fault_get_page SECONDS env (S n) (S u) w x s = Ret (Ok, x', s') ∧ cpage x' = Some p ∧ restart x' = restart x ∧
    got_page n (isWrite x) top (Z.shiftr (cacheOffset x) PAGE_SHIFT) p s s'.
Proof.
  set (k := Z.shiftr (cacheOffset x) PAGE_SHIFT) in *. destruct Hok as [Hch Hfr]. assert (fgv s !! top = Some (gnode C)) as HN by (apply lookup_gv; eauto).
  destruct (find_page_ok n (S u) w n top C [] x s) as (o & last & x1 & s1 & H1 & [R1 R2 R3 [L R4] R5 R6 (N & HN0 & Ho & Hsrc)]);
    [done|by eapply graph_ok_depth, Hch|done..|]. fold k in R6, Ho. rewrite <- Hchain in Hheld. destruct (R5 Hheld) as [Hheld1 Hlast].
  destruct (refs_taken_ok n s s1 Hfr R2 R1) as (Hok1 & Hsh1 & Enf & Ep1). pose proof (proj1 R1) as Hm.
  assert (∀ y j q, sees (fgv s1) y j q ↔ sees (fgv s) y j q) as Hsees1 by (intros; by apply more_refs_sees).
  destruct (more_refs_fwd _ _ top C Hm HC) as (C1 & HC1 & EC & _). apply no_ref_fields in EC as (Et & _).
  destruct (proj1 (more_refs_nodes _ _ Hm) last N HN0) as (N1 & HN1 & EtN & EsN & _).
  assert (cacheOffset x1 = cacheOffset x ∧ reservation x1 = reservation x ∧ isWrite x1 = isWrite x ∧ restart x1 = restart x) as (Ex1 & Ex2 & Ex3 & Ex4) by (by rewrite R3).
  assert (∀ p s', got_page n (isWrite x) top k p s1 s' → got_page n (isWrite x) top k p s s') as Hgot.
  { intros p s' [(pg' & ? & Hd) G2 G3 G4 (h & Hb & Hh) G6]. split; try done.
    - exists pg'. split; [done|by apply Hsh1].
    - intros y j d. by rewrite G4.
    - exists h. split; [done|]. intros q Hq. apply Hsees1. by apply Hh. }
  assert (through (fgv s1) k last top) as R6' by (by apply (more_refs_through _ _ k last top Hm)).
  unfold fault_get_page. rewrite Htop, H1. cbn [mbind outcome_bind]. destruct o as [p|].
  - assert (sees (fgv s) top k p) as Hs by (apply (through_sees _ k last top p R6); by apply (sees_here _ last N)).
    assert (n_tree N1 !! k = Some p) as Hk1 by congruence.
    destruct (cached_frame (fl s1) last N1 k p (ch_vm _ _ _ R2) HN1 Hk1) as (pg & Hp & _ & _ & D & HD & _ & Hpc). change (pages (fvm s1) !! p = Some pg) in Hp.
    change (page_Cache (fvm s1) pg = Some last) in Hpc. rewrite Hp. cbn [deref mbind outcome_bind]. rewrite Ex3.
    destruct (negb (bool_decide (page_Cache (fvm s1) pg = Some top)) && isWrite x) eqn:Ed.
    + apply andb_prop in Ed as [Ed Ew]. apply negb_true_iff, bool_decide_eq_false in Ed. assert (top ≠ last) as Hne by congruence.
      assert (cpages C1 !! k = None) as HkC by (rewrite Et; exact (through_none _ _ _ _ _ R6 HN Hne)).
      destruct (fault_copy_ok n u w top C1 p pg last N1 k x1 s1) as (q & s' & H2 & [O1 O2 O3 O4 O5]); try done.
      { by rewrite Ex1. } { apply (Hbusy p pg); [done|]. by rewrite <- Ep1. } { by apply Hsees1. } { by rewrite Enf. } { by rewrite Ex2. } { by apply Hcalm. }
      rewrite H2. cbn [mbind outcome_bind]. eexists q, _, s'. split; [reflexivity|]. split; [done|]. split; [done|]. apply Hgot. split; try done.
      * destruct O1 as (C' & HC' & E). apply (sees_here _ top (gnode C')); [apply lookup_gv; eauto|done].
      * exists (Some p). split; [done|]. intros r [= <-]. by apply Hsees1.
    + cbn [mbind outcome_bind]. eexists p, _, s1. split; [reflexivity|]. split; [done|]. split; [done|]. apply Hgot. split; try done.
      * exists pg. split; [done|]. left. exists p, pg. split_and!; [by apply Hsees1|done..].
      * by apply Hsees1.
      * intros Ew. rewrite Ew, andb_true_r in Ed. apply negb_false_iff, bool_decide_eq_true in Ed. assert (last = top) as -> by congruence.
        exists C1. split; [done|]. rewrite Et. rewrite HN in HN0. injection HN0 as <-. done.
      * exists None. split; [by apply chain_but_ok|done].
      * apply Hok1.
  - specialize (Hsrc eq_refl). rewrite <- EsN in Hsrc. assert (n_tree N1 !! k = None) as Hk1 by congruence. cbn [mbind outcome_bind].
    set (c := if isWrite x then top else last).
    assert (∃ Cc, caches (fvm s1) !! c = Some Cc ∧ cpages Cc !! k = None) as (Cc & HCc & HkC).
    { unfold c. destruct (isWrite x).
      - exists C1. split; [done|]. rewrite Et. destruct (decide (top = last)) as [E|Hne]; [|exact (through_none _ _ _ _ _ R6 HN Hne)].
        subst last. rewrite HN in HN0. injection HN0 as <-. exact Ho.
      - apply lookup_gv in HN1 as (Cc & HCc & <-). exists Cc. done. }
    assert (through (fgv s1) k c top) as Hthr by (unfold c; destruct (isWrite x); [constructor|done]).
    destruct (clean_page_ok n top last N1 k c Cc x1 s1) as (p & s2 & s' & H2 & H3 & [G1 G2 G3 G4 G5 G6]); try done.
    { by rewrite Ex1. } { by rewrite Enf. } { by rewrite Ex2. }
    rewrite H2. cbn [mbind outcome_bind]. change (isWrite (x1 <| reservation := reservation x1 - 1 |>)) with (isWrite x1).
    rewrite Ex3. fold c. change (cacheOffset (x1 <| reservation := reservation x1 - 1 |>)) with (cacheOffset x1). rewrite H3. cbn [mbind outcome_bind].
    eexists p, _, s'. split; [reflexivity|]. split; [done|]. split; [done|]. apply Hgot. split; try done.
    intros Ew. apply G3. unfold c. rewrite Ew. by apply bool_decide_eq_true.
Qed.

(** ** Refused accesses *)

(** The bit of the protection each kind of access needs, by the names of the
    flags. *)
Definition permitted (protection : Z) (isWrite isExecute isUser : bool) : bool :=
  let on := Z.testbit protection in
  (negb isWrite || on write_bit || negb isUser && on kernel_write_bit) &&
  (negb isExecute || on (if isUser then execute_bit else kernel_execute_bit)) &&
  (isWrite || isExecute || on read_bit || negb isUser && on kernel_read_bit).

(** Where the code answers the opposite: a read access of the kernel, for which
    it tests the bit for writing, to a page the user cannot read and with only
    one of the two kernel bits. *)
Definition wrong_bit (protection : Z) (isWrite isExecute isUser : bool) : bool :=
  let on := Z.testbit protection in
  negb isWrite && negb isExecute && negb isUser && negb (on read_bit) && xorb (on kernel_read_bit) (on kernel_write_bit).

Definition allowed (protection : Z) (isWrite isExecute isUser : bool) : bool :=
  xorb (permitted protection isWrite isExecute isUser) (wrong_bit protection isWrite isExecute isUser).

Lemma has_bit protection b : 0 <= b → has protection (2 ^ b) = Z.testbit protection b.
Proof.
  intros Hb. unfold has. destruct (Z.testbit protection b) eqn:E.
  - apply negb_true_iff, Z.eqb_neq. intros E0. apply (f_equal (fun z => Z.testbit z b)) in E0. rewrite Z.land_spec, Z.pow2_bits_true, E, Z.bits_0 in E0 by done. done.
  - apply negb_false_iff, Z.eqb_eq. apply Z.bits_inj'. intros j Hj. rewrite Z.land_spec, Z.bits_0, Z.pow2_bits_eqb by done.
    destruct (Z.eqb_spec b j) as [<-|]; [by rewrite E|by rewrite andb_false_r].
Qed.

Lemma has_lor protection f g : has protection (Z.lor f g) = has protection f || has protection g.
Proof.
  unfold has. rewrite Z.land_lor_distr_r. destruct (Z.eqb_spec (Z.land protection f) 0) as [E1|E1], (Z.eqb_spec (Z.land protection g) 0) as [E2|E2]; cbn.
  - by rewrite E1, E2.
  - apply negb_true_iff, Z.eqb_neq. intros [? ?]%Z.lor_eq_0_iff. done.
  - apply negb_true_iff, Z.eqb_neq. intros [? ?]%Z.lor_eq_0_iff. done.
  - apply negb_true_iff, Z.eqb_neq. intros [? ?]%Z.lor_eq_0_iff. done.
Qed.

Lemma has_0 protection : has protection 0 = false.
Proof. unfold has. by rewrite Z.land_0_r. Qed.

Lemma flag_bits_nonneg : 0 <= read_bit ∧ 0 <= write_bit ∧ 0 <= execute_bit ∧ 0 <= kernel_read_bit ∧ 0 <= kernel_write_bit ∧ 0 <= kernel_execute_bit ∧
  0 <= nonsecure_bit ∧ 0 <= device_bit.
Proof.
  pose proof flag_bits_range as H. unfold flag_bits in H. repeat match goal with H : Forall _ (_ :: _) |- _ => apply Forall_cons in H; destruct H as [[[? _] _] ?] end.
  split_and!; assumption.
Qed.

Lemma check_access_allowed protection isWrite isExecute isUser :
  check_access protection isWrite isExecute isUser = if allowed protection isWrite isExecute isUser then Ok else Err EPERM.
Proof.
  unfold check_access, allowed, permitted, wrong_bit, B_USER_PROTECTION, B_READ_AREA, B_WRITE_AREA, B_EXECUTE_AREA, B_KERNEL_WRITE_AREA, B_KERNEL_EXECUTE_AREA.
  destruct flag_bits_nonneg as (B1 & B2 & B3 & _ & B4 & B5 & _ & _).
  destruct isUser; rewrite ?has_lor, ?has_0, ?has_bit by done; cbn [andb negb];
    destruct isWrite, isExecute, (Z.testbit protection read_bit), (Z.testbit protection write_bit), (Z.testbit protection execute_bit); cbn [andb orb negb];
    try done; by destruct (Z.testbit protection kernel_write_bit), (Z.testbit protection kernel_execute_bit), (Z.testbit protection kernel_read_bit).
Qed.

(** Why a fault at a page address is refused with error [e]. *)
Inductive refused s (space address : Z) (isWrite isExecute isUser : bool) : errno → Prop :=
  | refused_no_area : LookupArea space address (fmp s) = None → refused s space address isWrite isExecute isUser EFAULT
  | refused_device a A : LookupArea space address (fmp s) = Some a → vmareas (fmp s) !! a = Some A →
      Z.testbit (a_protection A) nonsecure_bit || Z.testbit (a_protection A) device_bit = true → refused s space address isWrite isExecute isUser EFAULT
  | refused_access a A protection : LookupArea space address (fmp s) = Some a → vmareas (fmp s) !! a = Some A →
      Z.testbit (a_protection A) nonsecure_bit || Z.testbit (a_protection A) device_bit = false →
      get_area_page_protection a address (mapped s) = Ret protection → allowed (u32 protection) isWrite isExecute isUser = false ∨ a_cache A = None →
      refused s space address isWrite isExecute isUser EPERM.

Lemma fault_check_refused s space address isWrite isExecute isUser e :
  fault_check space address isWrite isExecute isUser s = Ret (inl e) ↔ refused s space address isWrite isExecute isUser e.
Proof.
  destruct flag_bits_nonneg as (_ & _ & _ & _ & _ & _ & B1 & B2).
  unfold fault_check, B_NONSECURE_AREA, B_DEVICE_AREA. destruct (LookupArea space address (fmp s)) as [a|] eqn:EL.
  - unfold area_of. change (vmareas (mp (mapped s))) with (vmareas (fmp s)). destruct (LookupArea_contains space address (fmp s) a EL) as (A & HA & _). rewrite HA.
    cbn [deref mbind outcome_bind]. rewrite !has_bit by done. split.
    + destruct (Z.testbit (a_protection A) nonsecure_bit) eqn:E1; [intros [= <-]; apply (refused_device s _ _ _ _ _ a A EL HA); by rewrite E1|].
      destruct (Z.testbit (a_protection A) device_bit) eqn:E2; [intros [= <-]; apply (refused_device s _ _ _ _ _ a A EL HA); by rewrite E1, E2|].
      destruct (get_area_page_protection a address (mapped s)) as [pr| |] eqn:Ep; cbn [mbind outcome_bind]; [|done..]. rewrite check_access_allowed.
      destruct (allowed (u32 pr) isWrite isExecute isUser) eqn:Epm.
      * destruct (a_cache A) eqn:Ec; [done|]. intros [= <-]. apply (refused_access s _ _ _ _ _ a A pr EL HA); [by rewrite E1, E2|done|by right].
      * intros [= <-]. apply (refused_access s _ _ _ _ _ a A pr EL HA); [by rewrite E1, E2|done|by left].
    + intros [E|a' A' EL' HA' E|a' A' pr EL' HA' E Ep Hr]; [congruence| |]; rewrite EL in EL'; injection EL' as <-; rewrite HA in HA'; injection HA' as <-.
      * destruct (Z.testbit (a_protection A) nonsecure_bit); [done|]. cbn in E. by rewrite E.
      * apply orb_false_iff in E as [-> ->]. rewrite Ep. cbn [mbind outcome_bind]. rewrite check_access_allowed.
        destruct Hr as [->|Hr]; [done|]. rewrite Hr. by destruct (allowed _ _ _ _).
  - split; [intros [= <-]; by constructor|]. by intros [E|a A E|a A pr E]; try congruence.
Qed.

(** The fault is counted, [r] reserved pages go back to the zone, and nothing
    else in the whole state changes. *)
Definition nothing_changed (space r : Z) s s' : Prop :=
  s' = set_vm ((fvm s) <| sMemoryZone := if r =? 0 then sMemoryZone (fvm s) else (unreserve_pages_for_zone r (sMemoryZone (fvm s))).1 |>)
         (s <| sNumPageFaults := u32 (sNumPageFaults s + 1) |>
            <| fFaultCount := <[space := u32 (default 0 (fFaultCount s !! space) + 1)]> (fFaultCount s) |>).

Lemma unreserve_zone r v : (vm_page_unreserve_pages r v).2 =
  v <| sMemoryZone := if r =? 0 then sMemoryZone v else (unreserve_pages_for_zone r (sMemoryZone v)).1 |>.
Proof.
  unfold vm_page_unreserve_pages, unreserve_pages. destruct (r =? 0); [by destruct v|]. by destruct (unreserve_pages_for_zone r (sMemoryZone v)).
Qed.

Context {TM : VMTranslationMap}.

(** C12: vm_soft_fault returns EFAULT for an address without area and for
    areas of devices and non-secure memory, EPERM for accesses that
    check_access refuses and for areas without cache, ENOMEM if no pages can
    be reserved, and in all these cases the whole state is as before but for
    the two fault counters and the reserved pages, which go back to the
    zone. The chain of conditions in the code grants an access exactly if
    the protection of the page has the bit the access needs by the names of
    the flags, except for the read accesses of the kernel to a page that the
    user cannot read and that has exactly one of B_KERNEL_READ_AREA and
    B_KERNEL_WRITE_AREA: there the code tests the wrong bit (see the
    findings) and answers the opposite. *)
Theorem fault_errors (fuel ufuel : nat) (i : inputs) (ins : list inputs) (reserved : bool) (sysReservePages space originalAddress : Z)
    (toWrite isExecute isUser wire : bool) (s : fstate) (e : errno)
    (He : if reserved then refused s space (rounddown2 originalAddress PAGE_SIZE) toWrite isExecute isUser e else e = ENOMEM) :
  (∃ s', vm_soft_fault SECONDS env fuel ufuel (i :: ins) reserved sysReservePages space originalAddress toWrite isExecute isUser wire s = Ret (Err e, None, s') ∧
    nothing_changed space (if reserved then u32 (2 + sysReservePages) else 0) s s') ∧
  ∀ protection, check_access protection toWrite isExecute isUser = Ok ↔
    permitted protection toWrite isExecute isUser = negb (wrong_bit protection toWrite isExecute isUser).
Proof.
  split; [|intros protection; rewrite check_access_allowed; unfold allowed; by destruct (permitted _ _ _ _), (wrong_bit _ _ _ _)].
  unfold vm_soft_fault. set (s0 := s <| sNumPageFaults ::= _ |> <| fFaultCount ::= _ |>). destruct reserved.
  2:{ subst e. exists s0. split; [done|]. unfold nothing_changed. subst s0. destruct s as [[[[]]] ? ? ? ? ? ?]. reflexivity. }
  cbn [fault_rounds]. unfold fault_round. assert (refused s0 space (rounddown2 originalAddress PAGE_SIZE) toWrite isExecute isUser e) as He0.
  { destruct He as [E|a A E1 E2 E3|a A pr E1 E2 E3 E4 E5]; [by constructor|by apply (refused_device s0 _ _ _ _ _ a A)|by apply (refused_access s0 _ _ _ _ _ a A pr)]. }
  apply fault_check_refused in He0. cbn [isWrite]. rewrite He0. cbn [mbind outcome_bind]. unfold UnlockAll. cbn [fchain unlock_chain mbind outcome_bind].
  eexists. split; [reflexivity|]. cbn [reservation]. rewrite unreserve_zone. reflexivity.
Qed.

(** The kernel may not read a page that it can read but not write: the check
    for reading tests B_KERNEL_WRITE_AREA. *)
Lemma kernel_read_refused : check_access B_KERNEL_READ_AREA false false false = Err EPERM.
Proof.
  rewrite check_access_allowed. unfold allowed, permitted, wrong_bit, B_KERNEL_READ_AREA. cbn [negb orb andb]. destruct flag_bits_nonneg as (_ & _ & _ & B & _).
  pose proof flag_bits_distinct as H. unfold flag_bits in H. apply NoDup_cons in H as [H1 H]. apply NoDup_cons in H as [_ H]. apply NoDup_cons in H as [_ H]. apply NoDup_cons in H as [H4 _].
  rewrite (Z.pow2_bits_true _ B), !Z.pow2_bits_false; [done| |].
  - intros E. apply H4. rewrite E. left.
  - intros E. apply H1. rewrite <- E. do 2 right. left.
Qed.

(** ** Mapping the page *)

Definition writable (e : tentry) : bool := Z.testbit (t_attr e) write_bit || Z.testbit (t_attr e) kernel_write_bit.

Lemma attributes_bits A q b : Z.testbit B_KERNEL_MEMORY_TYPE_MASK b = false → 0 <= b → Z.testbit (memory_type A q) b = Z.testbit q b ∧ Z.testbit (map_attributes A q) b = Z.testbit q b.
Proof.
  intros Hb H0. unfold memory_type, map_attributes. rewrite !Z.lor_spec, !Z.ldiff_spec, !Z.land_spec, Hb. cbn. rewrite andb_false_r, andb_true_r. by rewrite orb_false_r.
Qed.

Lemma type_mask_bits : Z.testbit B_KERNEL_MEMORY_TYPE_MASK write_bit = false ∧ Z.testbit B_KERNEL_MEMORY_TYPE_MASK kernel_write_bit = false.
Proof.
  pose proof flag_bits_range as H. unfold flag_bits in H. repeat match goal with H : Forall _ (_ :: _) |- _ => apply Forall_cons in H; destruct H as [[_ ?] ?] end. by split.
Qed.

Lemma read_only_attributes A protection :
  let q := Z.ldiff protection (Z.lor B_WRITE_AREA B_KERNEL_WRITE_AREA) in
  (∀ phys acc md, writable (mkEntry phys (memory_type A q) acc md) = false) ∧ ∀ phys acc md, writable (mkEntry phys (map_attributes A q) acc md) = false.
Proof.
  cbv zeta. set (q := Z.ldiff protection _). destruct flag_bits_nonneg as (_ & B2 & _ & _ & B5 & _). destruct type_mask_bits as [M1 M2].
  assert (Z.testbit q write_bit = false ∧ Z.testbit q kernel_write_bit = false) as [Q1 Q2].
  { unfold q, B_WRITE_AREA, B_KERNEL_WRITE_AREA. rewrite !Z.ldiff_spec, !Z.lor_spec, !Z.pow2_bits_true by done. cbn. rewrite orb_true_r. by rewrite !andb_false_r. }
  destruct (attributes_bits A q write_bit M1 B2) as [E1 E2], (attributes_bits A q kernel_write_bit M2 B5) as [E3 E4].
  split; intros; unfold writable; cbn [t_attr]; by rewrite ?E1, ?E2, ?E3, ?E4, Q1, Q2.
Qed.

(** The page found belongs at the address, and the entry there, if any, is a
    mapping of the area. *)
Record fault_place s a A address p pg : Prop := {
  fp_map : map_ok (mapped s);
  fp_page : pages (fvm s) !! p = Some pg;
  fp_area : vmareas (fmp s) !! a = Some A;
  fp_wiring : a_wiring A = B_NO_LOCK;
  fp_type : cache_type_code (a_cache_type A) < cache_type_code CACHE_TYPE_DEVICE;
  fp_cached : ∃ c C, page_Cache (fvm s) pg = Some c ∧ caches (fvm s) !! c = Some C;
  fp_address : virtual_page_address A pg = address;
  fp_entry : ∀ e, entry_at (a_space A) address (mapped s) = Some e → ∃ m q qg, mapping_at (mapped s) m q a qg A ∧ virtual_page_address A qg = address
}.

Lemma mapped_entry z m q a qg A e : map_ok z → mapping_at z m q a qg A → entry_at (a_space A) (virtual_page_address A qg) z = Some e →
  t_phys e = page_to_phys qg ∧ phys_to_page (t_phys e) z = Some q.
Proof.
  intros Hok Hat He. destruct (mo_object z Hok m q a (ma_object _ _ _ _ _ _ Hat)) as (qg' & A' & H1 & _ & _ & _ & _ & _ & (e' & He' & Hph)).
  pose proof (ma_page _ _ _ _ _ _ H1) as G. rewrite (ma_page _ _ _ _ _ _ Hat) in G. injection G as <-. pose proof (ma_area _ _ _ _ _ _ H1) as G.
  rewrite (ma_area _ _ _ _ _ _ Hat) in G. injection G as <-. rewrite He in He'. injection He' as <-. split; [done|].
  unfold phys_to_page. rewrite Hph, phys_pfn. apply (mo_segments z Hok). apply Hat.
Qed.

(** Changing the attributes of one page. *)
Lemma protect_page_ok a A address attributes e z :
  map_ok z → vmareas (mp z) !! a = Some A → entry_at (a_space A) address z = Some e →
  ∃ z2, ProtectPage a address attributes z = Ret z2 ∧ map_ok z2 ∧ mvm z2 = mvm z ∧ vmareas (mp z2) = vmareas (mp z) ∧
    entry_at (a_space A) address z2 = Some (e <| t_attr := memory_type A attributes |>) ∧
    ∀ space va, space ≠ a_space A ∨ va < address ∨ address + PAGE_SIZE <= va → entry_at space va z2 = entry_at space va z.
Proof.
  intros Hok HA He. unfold ProtectPage, area_of. rewrite HA. cbn [deref mbind outcome_bind]. rewrite Protect_entries. set (f := map_imap _). set (z2 := upd_entries _ f z).
  assert (∀ space va, entry_at space va z2 = if decide (space = a_space A) then
    (fun e => if (address <=? va) && (va <? address + PAGE_SIZE) then e <| t_attr := memory_type A attributes |> else e) <$> entry_at space va z else entry_at space va z) as Hent.
  { intros space va. unfold z2. rewrite entry_at_upd. case_decide as E; [|done]. rewrite E. unfold f. rewrite map_lookup_imap. unfold entry_at.
    destruct (translation (mp z) !! a_space A) as [t|]; cbn; [|by rewrite lookup_empty]. by destruct (t !! va). }
  exists z2. split; [done|]. split_and!; try done.
  - apply (map_ok_entries z z2 Hok); try done. intros space va e0 H0. rewrite Hent. case_decide; [|eauto]. rewrite H0. cbn. eexists. split; [reflexivity|].
    by destruct ((address <=? va) && (va <? address + PAGE_SIZE)).
  - rewrite Hent, decide_True, He by done. cbn. rewrite Z.leb_refl, (proj2 (Z.ltb_lt _ _)) by (unfold PAGE_SIZE; lia). done.
  - intros space va Hout. rewrite Hent. case_decide as E; [|done]. destruct (entry_at space va z) as [e0|]; cbn; [|done]. f_equal.
    destruct (Z.leb_spec address va), (Z.ltb_spec va (address + PAGE_SIZE)); cbn; try done. exfalso. destruct Hout as [?|?]; [done|lia].
Qed.

Lemma with_map_ret {R} (f : mstate → outcome (R * mstate)) s r z :
  f (mapped s) = Ret (r, z) → ∃ s', with_map f s = Ret (r, s') ∧ mapped s' = z ∧ phys_mem s' = phys_mem s ∧ fwired s' = fwired s.
Proof. intros H. unfold with_map. rewrite H. cbn [mbind outcome_bind]. eexists. split; [reflexivity|]. by destruct z. Qed.

(** What a fault leaves behind: the page is mapped at the address, without the
    right to write unless it is a page of the top cache or the fault was a write. *)
Record fault_mapped (toWrite : bool) (top address : Z) A pg s s' : Prop := {
  fm_map : map_ok (mapped s');
  fm_entry : ∃ e, entry_at (a_space A) address (mapped s') = Some e ∧ t_phys e = page_to_phys pg ∧
    (page_Cache (fvm s) pg ≠ Some top → toWrite = false → writable e = false);
  fm_data : phys_mem s' = phys_mem s;
  fm_others : ∀ space va, space ≠ a_space A ∨ va < address ∨ address + PAGE_SIZE <= va → entry_at space va (mapped s') = entry_at space va (mapped s)
}.

(** The page is there already. *)
Lemma fault_protect_ok a A address q e toWrite top p pg s :
  fault_place s a A address p pg → entry_at (a_space A) address (mapped s) = Some e → t_phys e = page_to_phys pg →
  (page_Cache (fvm s) pg ≠ Some top → toWrite = false → ∀ phys acc md, writable (mkEntry phys (memory_type A q) acc md) = false) →
  ∃ s1 s', with_map (fun m => m ← ProtectPage a address q m; Ret (tt, m)) s = Ret (tt, s1) ∧
    (if decide (state pg = PAGE_STATE_INACTIVE) then with_fvm (vm_page_set_state p PAGE_STATE_ACTIVE) s1 else Ret s1) = Ret s' ∧ fault_mapped toWrite top address A pg s s'.
Proof.
  intros Hpl He Hph Hro. pose proof (fp_map _ _ _ _ _ _ Hpl) as Hok. pose proof (fp_page _ _ _ _ _ _ Hpl) as Hp.
  destruct (protect_page_ok a A address q e (mapped s) Hok (fp_area _ _ _ _ _ _ Hpl) He) as (z & H1 & H2 & H3 & _ & H5 & H6).
  destruct (with_map_ret (fun m => m ← ProtectPage a address q m; Ret (tt, m)) s tt z) as (s1 & E1 & E2 & E3 & _); [by rewrite H1|].
  assert (fvm s1 = fvm s) as Ev by (change (mvm (mapped s1) = mvm (mapped s)); by rewrite E2).
  assert (fault_mapped toWrite top address A pg s s1) as [F1 F2 F3 F4].
  { split; try rewrite E2; try done. exists (e <| t_attr := memory_type A q |>). split_and!; [done|done|]. intros Hn Hw. by apply (Hro Hn Hw (t_phys e) (t_accessed e) (t_modified e)). }
  exists s1. case_decide as Hst; [|by exists s1].
  assert (¬ is_free pg) as Hnf by (intros [?|?]; congruence).
  destruct (activate_ok p pg (fvm s1)) as (v' & W1 & W2 & W3 & W4 & W5); [rewrite Ev; apply Hok|by rewrite Ev|done|].
  exists (set_vm v' s1). split; [done|]. split; [unfold with_fvm; by rewrite W1|]. split; try done.
  apply (map_ok_touch (mapped s1) (mapped (set_vm v' s1)) p pg (pg <| state := PAGE_STATE_ACTIVE |> <| queue := Some QActive |>)); try done.
  change (pages (fvm s1) !! p = Some pg). by rewrite Ev.
Qed.

(** The page is mapped where nothing is mapped. *)
Lemma fault_insert_ok a A address q toWrite top p pg m s0 s :
  fault_place s a A address p pg → entry_at (a_space A) address (mapped s) = None → page_mappings (fmp s) !! m = None →
  (page_Cache (fvm s0) pg ≠ Some top → toWrite = false → ∀ phys acc md, writable (mkEntry phys (map_attributes A q) acc md) = false) →
  phys_mem s = phys_mem s0 → (∀ space va, space ≠ a_space A ∨ va < address ∨ address + PAGE_SIZE <= va → entry_at space va (mapped s) = entry_at space va (mapped s0)) →
  ∃ s', with_map (map_page a p address q (Some m)) s = Ret (Ok, s') ∧ fault_mapped toWrite top address A pg s0 s'.
Proof.
  intros Hpl He Hm Hro Emem Hent. pose proof (fp_map _ _ _ _ _ _ Hpl) as Hok. pose proof (fp_address _ _ _ _ _ _ Hpl) as Ead.
  assert (can_map (mapped s) p a pg A) as Hcan by (split; try apply Hpl; by rewrite Ead).
  destruct (map_page_step (mapped s) m p a pg A address q Hok (fp_page _ _ _ _ _ _ Hpl) (fp_area _ _ _ _ _ _ Hpl) (fp_wiring _ _ _ _ _ _ Hpl)
    (can_map_not_free _ _ _ _ _ Hok Hcan)) as (z & H1 & Hst). set (e := mkEntry _ _ _ _) in Hst.
  assert (map_ok z) as Hok2 by (apply (map_step_ok (mapped s) m p a pg A e z Hok Hcan Hm eq_refl); by rewrite Ead).
  destruct (with_map_ret (map_page a p address q (Some m)) s Ok z H1) as (s' & E1 & E2 & E3 & _). exists s'. split; [done|]. split; rewrite ?E2; try done.
  - exists e. rewrite (st_entries _ _ _ _ _ _ _ _ _ Hst), decide_True by done. split_and!; [done|done|]. intros Hn Hw. by apply Hro.
  - congruence.
  - intros space va Hout. rewrite (st_entries _ _ _ _ _ _ _ _ _ Hst), decide_False by (unfold PAGE_SIZE in *; intros [? ?]; destruct Hout as [?|?]; [done|lia]). by apply Hent.
Qed.

(** Another page is there: it is unmapped first. *)
Lemma fault_unmap_ok a A address p pg m q qg s :
  fault_place s a A address p pg → mapping_at (mapped s) m q a qg A → virtual_page_address A qg = address → q ≠ p →
  ∃ s' A', with_map (unmap_page a address) s = Ret (Ok, s') ∧ fault_place s' a A' address p pg ∧ a_space A' = a_space A ∧ (∀ z, map_attributes A' z = map_attributes A z) ∧
    entry_at (a_space A') address (mapped s') = None ∧ page_mappings (fmp s') = delete m (page_mappings (fmp s)) ∧ phys_mem s' = phys_mem s ∧
    ∀ space va, space ≠ a_space A ∨ va < address ∨ address + PAGE_SIZE <= va → entry_at space va (mapped s') = entry_at space va (mapped s).
Proof.
  intros Hpl Hat Ead Hne. pose proof (fp_map _ _ _ _ _ _ Hpl) as Hok.
  destruct (mo_object _ Hok m q a (ma_object _ _ _ _ _ _ Hat)) as (qg' & A0 & H1 & _ & _ & _ & _ & _ & (e & He & _)).
  pose proof (ma_page _ _ _ _ _ _ H1) as G. rewrite (ma_page _ _ _ _ _ _ Hat) in G. injection G as <-. pose proof (ma_area _ _ _ _ _ _ H1) as G.
  rewrite (ma_area _ _ _ _ _ _ Hat) in G. injection G as <-.
  destruct (UnmapPage_ok (mapped s) m q a qg A e true Hok Hat He) as (z & Hz & Hst). pose proof (unmap_step_ok _ _ _ _ _ _ _ _ _ Hok Hat Hst) as Hokz.
  destruct (with_map_ret (unmap_page a address) s Ok z) as (s' & E1 & E2 & E3 & _); [unfold unmap_page; by rewrite <- Ead|].
  set (A' := A <| a_mappings ::= filter (.≠ m) |>). exists s', A'. destruct (us_page _ _ _ _ _ _ _ _ _ Hst) as (qg2 & Eq & _).
  assert (fvm s' = mvm z ∧ fmp s' = mp z) as [Ev Em] by (by rewrite <- E2).
  assert (entry_at (a_space A) address z = None) as Hnone by (rewrite (us_entries _ _ _ _ _ _ _ _ _ Hst), Ead, decide_True by done; done).
  split_and!; try done.
  - split; rewrite ?E2, ?Ev, ?Em; try done.
    + rewrite Eq, lookup_insert_ne by done. apply Hpl.
    + rewrite (us_areas _ _ _ _ _ _ _ _ _ Hst). apply lookup_insert_eq.
    + apply Hpl.
    + apply Hpl.
    + destruct (fp_cached _ _ _ _ _ _ Hpl) as (c & C & Hc & HC). exists c, C. unfold page_Cache in *. rewrite (us_cacherefs _ _ _ _ _ _ _ _ _ Hst), (us_caches _ _ _ _ _ _ _ _ _ Hst). done.
    + apply (fp_address _ _ _ _ _ _ Hpl).
    + intros e' He'. change (a_space A') with (a_space A) in He'. congruence.
  - by rewrite E2.
  - rewrite Em. apply Hst.
  - intros space va Hout. rewrite E2, (us_entries _ _ _ _ _ _ _ _ _ Hst), decide_False; [done|]. rewrite Ead. unfold PAGE_SIZE in *. intros [? ?]. destruct Hout as [?|?]; [done|lia].
Qed.

(** The page the entry at the address points to. *)
Lemma fault_place_phys s a A address p pg e : fault_place s a A address p pg → t_phys e = page_to_phys pg → phys_to_page (t_phys e) (mapped s) = Some p.
Proof. intros Hpl ->. unfold phys_to_page. rewrite phys_pfn. apply (mo_segments (mapped s) (fp_map _ _ _ _ _ _ Hpl)). apply Hpl. Qed.

Lemma map_page_unallocated a A address q p pg s : fault_place s a A address p pg → with_map (map_page a p address q None) s = Ret (Err ENOMEM, s).
Proof.
  intros Hpl. unfold with_map, map_page, area_of, page_of. change (vmareas (mp (mapped s))) with (vmareas (fmp s)). rewrite (fp_area _ _ _ _ _ _ Hpl).
  cbn [deref mbind outcome_bind]. change (pages (mvm (mapped s))) with (pages (fvm s)). rewrite (fp_page _ _ _ _ _ _ Hpl). cbn [deref mbind outcome_bind].
  rewrite (fp_wiring _ _ _ _ _ _ Hpl), Z.eqb_refl. cbn [mbind outcome_bind]. by destruct s as [[[]] ? ? ? ? ? ?].
Qed.

(** The address is unmapped and everything else is as before. *)
Record fault_unmapped (address : Z) A s s' : Prop := {
  fu_map : map_ok (mapped s');
  fu_entry : entry_at (a_space A) address (mapped s') = None;
  fu_data : phys_mem s' = phys_mem s;
  fu_others : ∀ space va, space ≠ a_space A ∨ va < address ∨ address + PAGE_SIZE <= va → entry_at space va (mapped s') = entry_at space va (mapped s)
}.

Definition already_mapped address A pg s : Prop := ∃ e, entry_at (a_space A) address (mapped s) = Some e ∧ t_phys e = page_to_phys pg.

Lemma already_dec address A pg s : {already_mapped address A pg s} + {¬ already_mapped address A pg s}.
Proof.
  unfold already_mapped. destruct (entry_at (a_space A) address (mapped s)) as [e|]; [|right; by intros (? & ? & _)].
  destruct (decide (t_phys e = page_to_phys pg)); [left; by exists e|right; by intros (? & [= <-] & ?)].
Qed.

(** Up to the call of [map_page]: another page that is mapped there is unmapped. *)
Lemma fault_clear_ok a A address p pg s :
  fault_place s a A address p pg → ¬ already_mapped address A pg s →
  let mappedPage := e ← entry_at (a_space A) address (mapped s); phys_to_page (t_phys e) (mapped s) in
  mappedPage ≠ Some p ∧
  ∃ s1 A1, (if decide (is_Some mappedPage) then '(_, s) ← with_map (unmap_page a address) s; Ret s else Ret s) = Ret s1 ∧
    fault_place s1 a A1 address p pg ∧ a_space A1 = a_space A ∧ (∀ z, map_attributes A1 z = map_attributes A z) ∧
    (∀ m, page_mappings (fmp s) !! m = None → page_mappings (fmp s1) !! m = None) ∧ fault_unmapped address A s s1.
Proof.
  intros Hpl Hno mappedPage. destruct (entry_at (a_space A) address (mapped s)) as [e|] eqn:He; cbn [mbind option_bind] in mappedPage.
  - destruct (fp_entry _ _ _ _ _ _ Hpl e He) as (m0 & r & rg & Hat & Ead).
    destruct (mapped_entry (mapped s) m0 r a rg A e (fp_map _ _ _ _ _ _ Hpl) Hat) as [Hph Er]; [by rewrite Ead|].
    assert (mappedPage = Some r) as -> by exact Er. assert (r ≠ p) as Hne.
    { intros ->. apply Hno. exists e. split; [done|]. rewrite Hph. pose proof (ma_page _ _ _ _ _ _ Hat) as G.
      change (pages (fvm s) !! p = Some rg) in G. rewrite (fp_page _ _ _ _ _ _ Hpl) in G. by injection G as <-. }
    split; [congruence|]. rewrite decide_True by (by eexists).
    destruct (fault_unmap_ok a A address p pg m0 r rg s Hpl Hat Ead Hne) as (s1 & A' & -> & Hpl1 & Esp & Eat & Hnone & Epm & Emem & Hent).
    cbn [mbind outcome_bind]. exists s1, A'. split_and!; try done.
    + intros m Hm. rewrite Epm. apply lookup_delete_None. by right.
    + split; [apply Hpl1|by rewrite <- Esp|done|done].
  - split; [done|]. rewrite decide_False by (by intros []). exists s, A. split_and!; try done. split; try done. apply Hpl.
Qed.

(** C14: The part of vm_soft_fault that maps the page, for a fault that does
    not wire the page, in an area that is not locked in memory (B_NO_LOCK)
    and is not of a device, where a present entry at the address is a
    mapping of the area, and no wired range of the area keeps the code from
    unmapping it. If a mapping object can be allocated or the page is mapped
    there already, it leaves exactly this page mapped at the address,
    whether there was no mapping, a mapping of this page, or one of another
    page (which is unmapped first); if the page does not belong to the cache
    of the area and the fault is not a write, the mapping does not allow
    writing, so nobody writes to a page shared with other caches. Otherwise
    it unlocks everything and returns 0, or ENOMEM if no mapping object can
    be reserved either, with nothing mapped at the address, and the access
    will fault again. In all cases mappings of other addresses and the
    contents of memory do not change and the mapping invariant is kept. *)
Theorem fault_map_correct (ufuel : nat) (i : inputs) (a top address protection p : Z) (pg : page) (A : VMArea) (x : PageFaultContext) (s : fstate)
    (Hpl : fault_place s a A address p pg) (Hp : cpage x = Some p) (Hm : ∀ m, i_mapping i = Some m → page_mappings (fmp s) !! m = None)
    (Hw : AddWaiterIfRangeWired (i_waiter i) a address PAGE_SIZE true (fwired s) = Ret (false, fwired s)) :
  (is_Some (i_mapping i) ∨ already_mapped address A pg s →
     ∃ s', fault_map SECONDS env ufuel i a top address protection false x s = Ret (Done Ok None, x, s') ∧ fault_mapped (isWrite x) top address A pg s s') ∧
  (i_mapping i = None → ¬ already_mapped address A pg s →
     ∃ s', fault_map SECONDS env ufuel i a top address protection false x s =
       ('(x, s) ← UnlockAll SECONDS env ufuel None x s'; Ret (Done (if i_reserve i then Ok else Err ENOMEM) None, x, s)) ∧ fault_unmapped address A s s').
Proof.
  unfold fault_map, area_of. rewrite Hp. cbn [deref mbind outcome_bind]. rewrite (fp_page _ _ _ _ _ _ Hpl). cbn [deref mbind outcome_bind].
  change (vmareas (mp (mapped s))) with (vmareas (fmp s)). rewrite (fp_area _ _ _ _ _ _ Hpl). cbn [deref mbind outcome_bind]. rewrite Query_entry.
  set (q := if _ && _ then _ else _).
  assert (∀ f, f = memory_type ∨ f = map_attributes → page_Cache (fvm s) pg ≠ Some top → isWrite x = false → ∀ phys acc md, writable (mkEntry phys (f A q) acc md) = false) as Hro.
  { intros f Hf Hn Hwr. unfold q. rewrite bool_decide_eq_false_2, Hwr by done. cbn [negb andb]. destruct (read_only_attributes A protection) as [R1 R2]. by destruct Hf as [->| ->]. }
  assert (s <| fwired := fwired s |> = s) as Es by (by destruct s).
  set (mappedPage := e ← entry_at (a_space A) address (mapped s); phys_to_page (t_phys e) (mapped s)).
  assert (match mappedPage with
    | None => Ret (false, s)
    | Some _ => '(waits, y) ← AddWaiterIfRangeWired (i_waiter i) a address PAGE_SIZE true (fwired s); Ret (waits, s <| fwired := y |>)
    end = Ret (false, s)) as Hwait by (destruct mappedPage; [rewrite Hw; cbn [mbind outcome_bind]; by rewrite Es|done]).
  destruct (already_dec address A pg s) as [(e & He & Hph)|Hno].
  - split; [intros _|intros _ []; by exists e].
    assert (mappedPage = Some p) as -> by (subst mappedPage; rewrite He; by apply (fault_place_phys s a A address p pg)).
    rewrite decide_True by done.
    destruct (fault_protect_ok a A address q e (isWrite x) top p pg s Hpl He Hph) as (s1 & s' & -> & H2 & H3); [intros; by apply Hro; auto|].
    cbn [mbind outcome_bind]. rewrite H2. cbn [mbind outcome_bind]. by exists s'.
  - destruct (fault_clear_ok a A address p pg s Hpl Hno) as (Hne & s1 & A1 & Hclear & Hpl1 & Esp & Eat & Hpm & [U1 U2 U3 U4]).
    fold mappedPage in Hne, Hclear. rewrite decide_False, Hwait by done. cbn [mbind outcome_bind]. rewrite Hclear. cbn [mbind outcome_bind]. split.
    + intros [[m Hi]|]; [|done]. rewrite Hi.
      destruct (fault_insert_ok a A1 address q (isWrite x) top p pg m s s1 Hpl1) as (s' & -> & [F1 F2 F3 F4]); try done.
      * by rewrite Esp.
      * apply Hpm. by apply Hm.
      * intros. rewrite Eat. apply Hro; auto.
      * by rewrite Esp.
      * cbn [mbind outcome_bind]. exists s'. split; [done|]. rewrite Esp in F2, F4. by split.
    + intros Hi _. rewrite Hi, (map_page_unallocated a A1 address q p pg s1 Hpl1). cbn [mbind outcome_bind]. exists s1. split; [|done].
      destruct (UnlockAll _ _ _ _ _ _) as [[x2 s2]| |]; cbn [mbind outcome_bind]; [|done..]. by destruct (i_reserve i).
Qed.
End fault.

(** ** Examples *)

#[local] Instance number_data : PageData := {| data := Z; zeroed := 0 |}.

(** Nothing is in the backing store. *)
#[local] Instance no_store : CacheStore.
Proof.
  refine {| has_page := fun _ _ _ => false; cache_fault := fun _ _ _ l => Ret (VM_FAULT_DONT_HANDLE, l); read_in := fun _ _ _ _ => Ret (Err EIO, 0) |}. done.
Defined.

Definition area_at (space address : Z) (x : Z * VMArea) : bool :=
  (a_space x.2 =? space) && (a_base x.2 <=? address) && (address <? a_base x.2 + a_size x.2).

#[local] Instance scan_areas : AreaLookup.
Proof.
  refine {| LookupArea := fun space address x => fst <$> head (filter (fun y => area_at space address y = true) (map_to_list (vmareas x))) |}.
  intros space address x a E. destruct (filter _ _) as [|y l] eqn:Ef; [done|]. injection E as <-.
  assert (y ∈ filter (fun y => area_at space address y = true) (map_to_list (vmareas x))) as Hy by (rewrite Ef; left).
  apply list_elem_of_filter in Hy as [Hy Hin]. destruct y as [a A]. apply elem_of_map_to_list in Hin. exists A. split; [done|].
  unfold area_at in Hy. cbn in Hy. apply andb_prop in Hy as [[?%Z.eqb_eq ?%Z.leb_le]%andb_prop ?%Z.ltb_lt]. done.
Defined.

(** Cache 1 has a page at index 1, its source 2 pages at 0 and 1; page 30 is free. *)
Definition fault_pg (n off ref : Z) : page := (some_page off ref) <| pfn := n |>.
Definition free_pg : page := page_zero <| state := PAGE_STATE_FREE |> <| queue := Some QFree |> <| pfn := 3 |>.
Definition fault_top : VMCache := (some_cache {[ 1 := 10 ]} 1000 (8 * PAGE_SIZE)) <| areas := [7] |> <| source := Some 2 |> <| ref_count := 2 |>.
Definition fault_lower : VMCache := (some_cache {[ 0 := 20; 1 := 21 ]} 1001 (8 * PAGE_SIZE)) <| consumers := [1] |> <| ref_count := 2 |>.
Definition fault_pages : gmap Z page := {[ 10 := fault_pg 0 1 1000; 20 := fault_pg 1 0 1001; 21 := fault_pg 2 1 1001; 30 := free_pg ]}.
Definition fault_vm : vmstate :=
  (vm_boot fault_pages) <| cacherefs := {[ 1000 := 1; 1001 := 2 ]} |> <| sActivePageQueue := mkQueue 3 [10; 20; 21] |>
    <| sMemoryZone := zone_init <| fFreePageQueue := mkQueue 1 [30] |> |> <| caches := {[ 1 := fault_top; 2 := fault_lower ]} |>.
Definition fault_lstate : lstate :=
  mkLState (mkAState fault_vm {[ 1 := mkAnon false false 0 0 PAGE_SIZE 0; 2 := mkAnon false false 0 0 PAGE_SIZE 0 ]} ∅ swap_two (mkMemory (2 ^ 30) 0 (2 ^ 31))) ∅ ∅ ∅.
Definition fault_state : fstate :=
  mkFState fault_lstate (mp demo_mapped) {[ 0 := 77; 4096 := 88; 8192 := 99 ]} (mkWired {[ 7 := mkWArea 0x400000 0x2000 [] ]} ∅ ∅) [] 0 ∅.

Lemma fault_graph c N : gv fault_lstate !! c = Some N → c = 1 ∧ N = gnode fault_top ∨ c = 2 ∧ N = gnode fault_lower.
Proof.
  intros (C & HC & <-)%lookup_gv. change (caches (vm (ast fault_lstate))) with ({[ 1 := fault_top; 2 := fault_lower ]} : gmap Z VMCache) in HC.
  apply lookup_insert_Some in HC as [[<- <-]|[_ [<- <-]%lookup_singleton_Some]]; auto.
Qed.

Lemma fault_page p pg : fault_pages !! p = Some pg →
  p = 10 ∧ pg = fault_pg 0 1 1000 ∨ p = 20 ∧ pg = fault_pg 1 0 1001 ∨ p = 21 ∧ pg = fault_pg 2 1 1001 ∨ p = 30 ∧ pg = free_pg.
Proof. unfold fault_pages. rewrite !lookup_insert_Some, lookup_singleton_Some. intros [[<- <-]|[_ [[<- <-]|[_ [[<- <-]|[_ [<- <-]]]]]]]; auto. Qed.

Lemma fault_page_idle p pg : fault_pages !! p = Some pg → busy pg = false ∧ wired_count pg = 0 ∧ mappings pg = [] ∧ state pg ≠ PAGE_STATE_CLEAR.
Proof. intros [[-> ->]|[[-> ->]|[[-> ->]|[-> ->]]]]%fault_page; done. Qed.

Lemma fault_state_chain : chain_ok 1 None fault_lstate.
Proof.
  split.
  - split_and!; [apply caches_okb_sound|apply pages_okb_sound|]; vm_compute; reflexivity.
  - split_and!; [done|exact swap_two_ok|vm_compute; discriminate|]. intros c an Hc.
    assert (allocated_swap_size an = 0 ∧ committed_swap_size an = PAGE_SIZE ∧ (c = 1 ∨ c = 2)) as (E1 & E2 & Ec).
    { change (anons (ast fault_lstate)) with ({[ 1 := mkAnon false false 0 0 PAGE_SIZE 0; 2 := mkAnon false false 0 0 PAGE_SIZE 0 ]} : gmap Z anon) in Hc.
      apply lookup_insert_Some in Hc as [[<- <-]|[_ [<- <-]%lookup_singleton_Some]]; auto. }
    rewrite E1, E2. split_and!; [done|done|]. intros C HC. destruct Ec as [->| ->]; injection HC as <-; vm_compute; split; discriminate.
  - split.
    + intros d D c [[-> ->]|[-> ->]]%fault_graph; [intros [= <-]|done]. exists (gnode fault_lower). split; [reflexivity|left].
    + intros c N d [[-> ->]|[-> ->]]%fault_graph; [by intros ?%elem_of_nil|]. intros ->%list_elem_of_singleton. by exists (gnode fault_top).
    + intros c N [[-> ->]|[-> ->]]%fault_graph; [apply NoDup_nil_2|apply NoDup_singleton].
    + exists (fun c => if c =? 1 then 1%nat else 0%nat). intros d D c [[-> ->]|[-> ->]]%fault_graph; [intros [= <-]|done]. cbn. lia.
    + intros c N [[-> ->]|[-> ->]]%fault_graph; cbn; lia.
    + intros c N [[-> ->]|[-> ->]]%fault_graph _; (split; [done|]); [by intros [_ ?]|by intros [? _]].
  - split.
    + intros d D c N [[-> ->]|[-> ->]]%fault_graph; [intros [= <-]|done]. intros _ _ _. apply elem_of_dom. by eexists.
    + intros c N k p pg _ _ (E & _)%fault_page_idle. congruence.
    + intros c N k p pg _ _ (_ & E1 & E2 & _)%fault_page_idle [H|H]; congruence.
Qed.

Lemma fault_state_frames : frames_ok fault_state.
Proof.
  split.
  - intros p q pg qg Hp Hq. destruct (fault_page p pg Hp) as [[-> ->]|[[-> ->]|[[-> ->]|[-> ->]]]], (fault_page q qg Hq) as [[-> ->]|[[-> ->]|[[-> ->]|[-> ->]]]]; done.
  - intros p pg (_ & _ & _ & E)%fault_page_idle. done.
Qed.

Definition quiet_window : window := mkWindow (fun s => s) (fun s => s) (fun s => s).

Lemma quiet_calm n chain top k src : calm n chain top k src quiet_window.
Proof. intros p s c spg H1 H2 H3 H4 H5 H6 _. split; try done. split; [done|]. exists c. split; [done|]. intros spg0 E. rewrite H5 in E. injection E as <-. exact H6. Qed.

Definition fault_input : inputs := mkInputs (Some 502) 900 true quiet_window.

(** A write to page 0 of cache 1: page 20 is copied to page 30. *)
Lemma fault_get_page_correct_witness :
  ∃ p x' s', fault_get_page (fun n => n * 1000000) some_env 2 1 quiet_window (mkContext [1] (Some 1) 0 2 true None false false) fault_state = Ret (Ok, x', s') ∧
    cpage x' = Some p ∧ shown fault_state 1 0 88 ∧ shown s' 1 0 88 ∧ shown s' 2 0 88.
Proof.
  assert (shown fault_state 1 0 88 ∧ shown fault_state 2 0 88) as [S1 S2].
  { assert (sees (fgv fault_state) 2 0 20) as Hs by (by apply (sees_here _ 2 (gnode fault_lower))).
    split; left; exists 20, (fault_pg 1 0 1001); (split; [|done]); [|done]. by apply (sees_up _ 1 (gnode fault_top) 2). }
  destruct (fault_get_page_correct (fun n => n * 1000000) some_env 1 0 quiet_window (mkContext [1] (Some 1) 0 2 true None false false) 1 fault_top fault_state)
    as (p & x' & s' & H1 & H2 & _ & [_ _ _ G _ _]).
  - split; [apply fault_state_chain|apply fault_state_frames].
  - done.
  - done.
  - done.
  - intros c ->%list_elem_of_singleton. by exists fault_top.
  - intros y Y HY. change (({[ 1 := fault_top; 2 := fault_lower ]} : gmap Z VMCache) !! y = Some Y) in HY.
    apply lookup_insert_Some in HY as [[<- <-]|[_ [<- <-]%lookup_singleton_Some]]; cbn; lia.
  - intros y Y _ _ _. done.
  - intros p pg _ (E & _)%fault_page_idle. done.
  - vm_compute. done.
  - cbn. lia.
  - intros chain src _. apply quiet_calm.
  - exists p, x', s'. split_and!; [exact H1|done|done|by apply G|by apply G].
Defined.

(** Address 0x500000 of space 2 belongs to no area. *)
Lemma fault_errors_witness :
  ∃ s', vm_soft_fault (fun n => n * 1000000) some_env 1 1 [fault_input] true 0 2 0x500000 true false true false fault_state = Ret (Err EFAULT, None, s') ∧
    nothing_changed 2 2 fault_state s'.
Proof.
  destruct (fault_errors (fun n => n * 1000000) some_env 1 1 fault_input [] true 0 2 0x500000 true false true false fault_state EFAULT) as [H _].
  - apply refused_no_area. vm_compute. reflexivity.
  - exact H.
Defined.

(** Page 0x1040 of the area at 0x400000, which belongs to cache 100, is mapped
    for a read fault of an area of cache 99. *)
Definition demo_fault : fstate := set_vm (mvm demo_mapped) fault_state.

Lemma fault_map_correct_witness :
  ∃ s' e, fault_map (fun n => n * 1000000) some_env 1 fault_input 7 99 0x401000 3 false (mkContext [] (Some 99) 0x1000 2 false (Some 0x1040) false false) demo_fault
    = Ret (Done Ok None, mkContext [] (Some 99) 0x1000 2 false (Some 0x1040) false false, s') ∧
    entry_at 2 0x401000 (mapped s') = Some e ∧ t_phys e = 17 * PAGE_SIZE ∧ writable e = false.
Proof.
  destruct (fault_map_correct (fun n => n * 1000000) some_env 1 fault_input 7 99 0x401000 3 0x1040 (demo_pg 17 1 PAGE_STATE_INACTIVE QInactive []) mapped_area
    (mkContext [] (Some 99) 0x1000 2 false (Some 0x1040) false false) demo_fault) as [H _].
  - split; try reflexivity.
    + exact demo_mapped_ok.
    + eexists 100, _. split; reflexivity.
    + intros e E. vm_compute in E. done.
  - reflexivity.
  - intros m [= <-]. reflexivity.
  - reflexivity.
  - destruct H as (s' & H1 & [_ (e & H2 & H3 & H4) _ _]); [left; by exists 502|].
    exists s', e. split_and!; [exact H1|exact H2|exact H3|]. apply H4; [vm_compute; discriminate|reflexivity].
Defined.
