(* ===== verification/KernelAddressSpace.v ===== *)
(** aspace/VMKernelAddressSpace.cpp, VMKernelAddressSpace.h and VMKernelArea.h:
    the kernel address space as a sequence of ranges, each free, reserved or
    the range of an area.

    The ranges are kept in a list and in a tree, both in the order of their
    base addresses, and the free ones in lists by the logarithm of their size.
    Ranges and areas are referred to by address.  The tree is the sequence of
    its nodes; [lib/AVLTree.h] is not part of the repository, so the search for
    the closest key is a method of the class [RangeTree].  Random numbers and
    the results of memory allocations are arguments.  Address specifications,
    [is_valid_spot] and [_RandomizeAddress] are those of UserAddressSpace. *)
From S2P Require Import Prelude UserAddressSpace.
From Stdlib Require Import ZArith Lia.
From stdpp Require Import base numbers list_numbers list gmap sorting.
Local Open Scope Z_scope.

(** [VMKernelAddressRange]; what the union holds is part of the type. *)
Inductive range_type := RANGE_FREE | RANGE_RESERVED (rbase rflags : Z) | RANGE_AREA (rarea : Z).
#[export] Instance range_type_eq_dec : EqDecision range_type.
Proof. solve_decision. Defined.

Record Range := mkRange { r_base : Z; r_size : Z; r_type : range_type }.
#[export] Instance eta_Range : Eta Range := fun r => mkRange (r_base r) (r_size r) (r_type r).
#[export] Instance Range_eq_dec : EqDecision Range.
Proof. solve_decision. Defined.

Definition is_free (R : Range) : bool := bool_decide (r_type R = RANGE_FREE).
Definition is_res (R : Range) : bool := match r_type R with RANGE_RESERVED _ _ => true | _ => false end.
Definition is_area (R : Range) : bool := match r_type R with RANGE_AREA _ => true | _ => false end.

Definition reserved_flags (R : Range) : Z := match r_type R with RANGE_RESERVED _ flags => flags | _ => 0 end.

(** [VMKernelArea] as far as the address space changes it. *)
Record karea := mkKArea { ka_base : Z; ka_size : Z; ka_commit_base : Z; ka_range : option Z }.
#[export] Instance eta_karea : Eta karea := fun a => mkKArea (ka_base a) (ka_size a) (ka_commit_base a) (ka_range a).

(** The nodes of a tree, in order, with their keys. *)
Class RangeTree := {
  FindClosest : list (Z * Z) → Z → bool → option Z;
  FindClosest_less l k : StronglySorted (fun x y => x.2 < y.2) l → FindClosest l k true = fst <$> last (filter (fun x => x.2 <= k) l);
  FindClosest_greater l k : StronglySorted (fun x y => x.2 < y.2) l → FindClosest l k false = fst <$> head (filter (fun x => k <= x.2) l)
}.

#[export] Program Instance list_RangeTree : RangeTree := {|
  FindClosest l k less := fst <$> (if less then last (filter (fun x => x.2 <= k) l) else head (filter (fun x => k <= x.2) l))
|}.
Solve All Obligations with done.

Fixpoint ld_loop (value : positive) (index : Z) : Z :=
  match value with
  | xH => index + 1
  | xO value | xI value => ld_loop value (index + 1)
  end.

(** The loop shifts the value to the right until it is zero. *)
Definition ld (value : Z) : Z := match value with Zpos p => ld_loop p (-1) | _ => -1 end.

Fixpoint after (r : Z) (l : list Z) : list Z :=
  match l with
  | [] => []
  | x :: l => if decide (x = r) then l else after r l
  end.

Section ops.
Context {DL : DLList Z} {RT : RangeTree}.

Record kspace := mkKSpace {
  fBase : Z;
  fEndAddress : Z;
  fFreeSpace : Z;
  fRefCount : Z;
  fChangeCount : Z;
  fRandomizingEnabled : bool;
  fDeleting : bool;
  ranges : gmap Z Range;
  fRangeTree : list Z;
  fRangeList : dl Z;
  fFreeLists : list (dl Z);
  kareas : gmap Z karea
}.
#[global] Instance eta_kspace : Eta kspace := fun s =>
  mkKSpace (fBase s) (fEndAddress s) (fFreeSpace s) (fRefCount s) (fChangeCount s) (fRandomizingEnabled s) (fDeleting s)
    (ranges s) (fRangeTree s) (fRangeList s) (fFreeLists s) (kareas s).
Implicit Types (s : kspace) (r : Z) (R : Range).

Definition Get s : kspace := s <| fRefCount ::= fun n => n + 1 |>.
Definition Put s : kspace := s <| fRefCount ::= fun n => n - 1 |>.
Definition IncrementChangeCount s : kspace := s <| fChangeCount ::= fun n => n + 1 |>.
Definition upd_range r (f : Range → Range) s : kspace := s <| ranges ::= alter f r |>.
Definition new_range r R s : kspace := s <| ranges ::= <[r := R]> |>.
Definition delete_range r s : kspace := s <| ranges ::= delete r |>.
Definition upd_karea (a : Z) (f : karea → karea) s : kspace := s <| kareas ::= alter f a |>.

Definition list_of s : list Z := dl_elems (fRangeList s).
Definition GetNext r s : option Z := head (after r (list_of s)).
Definition GetPrevious r s : option Z := head (after r (reverse (list_of s))).
Definition key s r : Z := default 0 (r_base <$> ranges s !! r).
Definition closest (address : Z) (less : bool) s : option Z := FindClosest ((fun r => (r, key s r)) <$> fRangeTree s) address less.
Definition tree_insert r s : list Z :=
  filter (fun x => key s x < key s r) (fRangeTree s) ++ r :: filter (fun x => ¬ key s x < key s r) (fRangeTree s).

(** ** Free lists *)

Definition free_list (size : Z) s : outcome (nat * dl Z) :=
  let i := ld size - PAGE_SHIFT in
  _ ← assert (0 <=? i);
  l ← deref (fFreeLists s !! Z.to_nat i);
  Ret (Z.to_nat i, l).

Definition _FreeListInsertRange r (size : Z) s : outcome kspace :=
  '(i, l) ← free_list size s; Ret (s <| fFreeLists ::= <[i := dl_Add r true l]> |>).

Definition _FreeListRemoveRange r (size : Z) s : outcome kspace :=
  '(i, l) ← free_list size s; Ret (s <| fFreeLists ::= <[i := dl_Remove r l]> |>).

Definition _InsertRange r s : outcome kspace :=
  R ← deref (ranges s !! r);
  let before := match closest (r_base R) true s with Some b => GetNext b s | None => head (list_of s) end in
  let s := s <| fRangeList ::= dl_InsertBefore before r |> in
  let s := s <| fRangeTree := tree_insert r s |> in
  if is_free R then _FreeListInsertRange r (r_size R) s else Ret s.

Definition _RemoveRange r s : outcome kspace :=
  R ← deref (ranges s !! r);
  let s := s <| fRangeTree ::= remove_elem r |> <| fRangeList ::= dl_Remove r |> in
  if is_free R then _FreeListRemoveRange r (r_size R) s else Ret s.

(** [InitObject], with the ranges and lists allocated. *)
Definition InitObject (new : option Z) s : outcome (status * kspace) :=
  let size := u64 (fEndAddress s - fBase s + 1) in
  let fFreeListCount := ld size - PAGE_SHIFT + 1 in
  let s := s <| fFreeLists := replicate (Z.to_nat fFreeListCount) dl_empty |> in
  match new with
  | None => Ret (Err ENOMEM, s)
  | Some r => s ← _InsertRange r (new_range r (mkRange (fBase s) size RANGE_FREE) s); Ret (Ok, s)
  end.

(** ** Search *)

Section find.
Variables (size alignment : Z) (allowReservedRange : bool) (random0 random : Z).

Definition IsRandomized (spec : addressSpec) s : bool :=
  fRandomizingEnabled s && (bool_decide (spec = B_RANDOMIZED_ANY_ADDRESS) || bool_decide (spec = B_RANDOMIZED_BASE_ADDRESS)).

(** The address in a range that is large enough. *)
Definition place_in (spec : addressSpec) (alignedBase nextBase : Z) s : outcome Z :=
  if IsRandomized spec s then _RandomizeAddress alignedBase (u64 (u64 (nextBase - size) + 1)) alignment false random else Ret alignedBase.

Definition place_reserved (spec : addressSpec) R (alignedBase nextBase : Z) s : outcome Z :=
  if negb (Z.land (reserved_flags R) RESERVED_AVOID_BASE =? 0)
  then Ret (rounddown2 (u64 (r_base R + u64 (r_size R - size))) alignment)
  else place_in spec alignedBase nextBase s.

(** The loops over ranges: the first one that [pick] accepts with a valid spot. *)
Fixpoint scan (pick : Range → bool) (choose : Range → Z → Z → outcome Z) (start : Z) (it : list Z) s : outcome (option (Z * Z)) :=
  match it with
  | [] => Ret None
  | r :: it =>
      R ← deref (ranges s !! r);
      let alignedBase := roundup2 (r_base R) alignment in
      let nextBase := u64 (r_base R + u64 (r_size R - 1)) in
      if pick R && is_valid_spot start alignedBase size nextBase then
        a ← choose R alignedBase nextBase;
        Ret (Some (r, a))
      else scan pick choose start it s
  end.

(** The loop over the free lists. *)
Fixpoint scan_lists (spec : addressSpec) (start : Z) (ls : list (dl Z)) s : outcome (option (Z * Z)) :=
  match ls with
  | [] => Ret None
  | l :: ls =>
      o ← scan (fun _ => true) (fun _ alignedBase nextBase => place_in spec alignedBase nextBase s) start (dl_elems l) s;
      match o with Some x => Ret (Some x) | None => scan_lists spec start ls s end
  end.

(** The ranges from the one at or below an address on. *)
Definition from_address (address : Z) s : list Z :=
  match closest address true s with None => [] | Some r => r :: after r (list_of s) end.

Definition or_else {X} (o : outcome (option X)) (k : outcome (option X)) : outcome (option X) :=
  x ← o; match x with Some x => Ret (Some x) | None => k end.

Definition find_exact (start : Z) s : outcome (option (Z * Z)) :=
  match closest start true s with
  | None => Ret None
  | Some r =>
      R ← deref (ranges s !! r);
      if is_area R || (u64 (r_base R + u64 (r_size R - 1)) <? u64 (start + u64 (size - 1))) then Ret None
      else if negb (is_free R) && negb allowReservedRange then Ret None
      else Ret (Some (r, start))
  end.

(** [find_rounds] starts at the label [second_chance]. *)
Fixpoint find_rounds (fuel : nat) (originalStart : Z) (spec : addressSpec) (start : Z) s : outcome (option (Z * Z)) :=
  match fuel with
  | O => NoFuel
  | S fuel =>
      match spec with
      | B_EXACT_ADDRESS => find_exact start s
      | B_OTHER_SPEC => Ret None
      | _ =>
          or_else (if is_base_address_spec spec then scan is_free (fun _ alignedBase nextBase => place_in spec alignedBase nextBase s) start (from_address start s) s else Ret None)
          (or_else (scan_lists spec start (drop (Z.to_nat (ld (Z.shiftr (u64 (u64 (size * 2) - 1)) PAGE_SHIFT))) (fFreeLists s)) s)
          (or_else (if allowReservedRange then scan is_res (fun R alignedBase nextBase => place_reserved spec R alignedBase nextBase s) start (from_address start s) s else Ret None)
          (if bool_decide (spec = B_RANDOMIZED_BASE_ADDRESS) then
             if start =? originalStart then find_rounds fuel originalStart B_RANDOMIZED_ANY_ADDRESS (fBase s) s
             else find_rounds fuel originalStart B_RANDOMIZED_BASE_ADDRESS originalStart s
           else Ret None)))
      end
  end.

(** The base address to start from. *)
Definition base_start (start : Z) s : Z :=
  let start := if start <? fBase s then fBase s else if fEndAddress s <=? start then fBase s
               else if u64 (u64 (fEndAddress s + 1) - start) <? size then fBase s else start in
  Z.land start (u64 (Z.lnot (u64 (alignment - 1)))).

Definition _FindFreeRange (start : Z) (spec : addressSpec) s : outcome (option (Z * Z)) :=
  let start := if is_base_address_spec spec then base_start start s else start in
  let originalStart := start in
  start ← (if fRandomizingEnabled s && bool_decide (spec = B_RANDOMIZED_BASE_ADDRESS)
           then _RandomizeAddress start (u64 (fEndAddress s - size)) alignment true random0 else Ret start);
  find_rounds 3 originalStart spec start s.
End find.

(** ** Allocation *)

(** The parameters of the search: the address to start from, the alignment and
    the specification. *)
Definition prepare (HardwareBlockSize : Z) (restr : restrictions) (size : Z) s : outcome (option (Z * Z * addressSpec)) :=
  let address := raddress restr in
  let alignment := if ralignment restr =? 0 then PAGE_SIZE else ralignment restr in
  match address_specification restr with
  | B_EXACT_ADDRESS => Ret (if address mod PAGE_SIZE =? 0 then Some (address, alignment, B_EXACT_ADDRESS) else None)
  | (B_RANDOMIZED_BASE_ADDRESS | B_BASE_ADDRESS) as spec => Ret (Some (roundup2 address PAGE_SIZE, alignment, spec))
  | B_ANY_KERNEL_BLOCK_ADDRESS =>
      alignment ← grow_block_alignment 64 alignment size HardwareBlockSize;
      Ret (Some (fBase s, alignment, B_RANDOMIZED_ANY_ADDRESS))
  | (B_RANDOMIZED_ANY_ADDRESS | B_ANY_ADDRESS | B_ANY_KERNEL_ADDRESS) as spec => Ret (Some (fBase s, alignment, spec))
  | B_OTHER_SPEC => Ret None
  end.

(** Cutting [address], [size] out of a range; [None] if there is no memory. *)
Definition carve (r address size : Z) (new1 new2 : option Z) s : outcome (option kspace) :=
  R ← deref (ranges s !! r);
  if address =? r_base R then
    if size <? r_size R then
      match new1 with
      | None => Ret None
      | Some n =>
          let s := new_range n (mkRange (u64 (address + size)) (u64 (r_size R - size)) (r_type R)) s in
          s ← _InsertRange n (upd_range r (fun R => R <| r_size := size |>) s);
          Ret (Some s)
      end
    else Ret (Some s)
  else if u64 (address + size) =? u64 (r_base R + r_size R) then
    match new1 with
    | None => Ret None
    | Some n =>
        let s := new_range n (mkRange (r_base R) (u64 (r_size R - size)) (r_type R)) s in
        s ← _InsertRange n (upd_range r (fun R => R <| r_base := address |> <| r_size := size |>) s);
        Ret (Some s)
    end
  else
    match new1, new2 with
    | Some n1, Some n2 =>
        let size1 := u64 (address - r_base R) in
        let s := new_range n1 (mkRange (r_base R) size1 (r_type R)) s in
        let s := new_range n2 (mkRange (u64 (address + size)) (u64 (u64 (r_size R - size) - size1)) (r_type R)) s in
        let s := upd_range r (fun R => R <| r_base := address |> <| r_size := size |>) s in
        s ← _InsertRange n1 s;
        s ← _InsertRange n2 s;
        Ret (Some s)
    | _, _ => Ret None
    end.

Section alloc.
Variables (HardwareBlockSize : Z) (new1 new2 : option Z) (random0 random : Z).

Definition _AllocateRange (restr : restrictions) (size : Z) (allowReservedRange : bool) s : outcome ((errno + Z) * kspace) :=
  let size := roundup2 size PAGE_SIZE in
  o ← prepare HardwareBlockSize restr size s;
  match o with
  | None => Ret (inl EINVAL, s)
  | Some (address, alignment, spec) =>
      o ← _FindFreeRange size alignment allowReservedRange random0 random address spec s;
      match o with
      | None => Ret (inl (if bool_decide (address_specification restr = B_EXACT_ADDRESS) then EINVAL else ENOMEM), s)
      | Some (r, address) =>
          R ← deref (ranges s !! r);
          o ← carve r address size new1 new2 s;
          match o with
          | None => Ret (inl ENOMEM, s)
          | Some s =>
              s ← (if is_free R then _FreeListRemoveRange r (r_size R) s else Ret s);
              Ret (inr r, IncrementChangeCount s)
          end
      end
  end.

Definition InsertArea (a size : Z) (restr : restrictions) s : outcome (status * option Z * kspace) :=
  '(x, s) ← _AllocateRange restr size (bool_decide (address_specification restr = B_EXACT_ADDRESS)) s;
  match x with
  | inl e => Ret (Err e, None, s)
  | inr r =>
      R ← deref (ranges s !! r);
      A ← deref (kareas s !! a);
      let s := upd_range r (fun R => R <| r_type := RANGE_AREA a |>) s in
      let s := upd_karea a (fun _ => mkKArea (r_base R) (r_size R) (u64 (r_base R + r_size R)) (Some r)) s in
      Ret (Ok, Some (r_base R), s <| fFreeSpace ::= fun n => u64 (n - r_size R) |>)
  end.

Definition ReserveAddressRange (size : Z) (restr : restrictions) (flags : Z) s : outcome (status * option Z * kspace) :=
  if fDeleting s then Ret (Err ESRCH, None, s)
  else
    '(x, s) ← _AllocateRange restr size false s;
    match x with
    | inl e => Ret (Err e, None, s)
    | inr r =>
        R ← deref (ranges s !! r);
        let s := upd_range r (fun R => R <| r_type := RANGE_RESERVED (r_base R) flags |>) s in
        Ret (Ok, Some (r_base R), Get s)
    end.
End alloc.

(** ** Freeing *)

Definition free_at (o : option Z) s : outcome (option (Z * Range)) :=
  match o with
  | None => Ret None
  | Some r => R ← deref (ranges s !! r); Ret (if is_free R then Some (r, R) else None)
  end.

Definition _FreeRange r s : outcome kspace :=
  R ← deref (ranges s !! r);
  p ← free_at (GetPrevious r s) s;
  n ← free_at (GetNext r s) s;
  s ← match p, n with
      | Some (p, P), Some (n, N) =>
          s ← _FreeListRemoveRange p (r_size P) s;
          s ← _RemoveRange r s;
          s ← _RemoveRange n s;
          let size := u64 (r_size P + u64 (r_size R + r_size N)) in
          let s := upd_range p (fun P => P <| r_size := size |>) s in
          _FreeListInsertRange p size (delete_range n (delete_range r s))
      | Some (p, P), None =>
          s ← _FreeListRemoveRange p (r_size P) s;
          s ← _RemoveRange r s;
          let size := u64 (r_size P + r_size R) in
          let s := upd_range p (fun P => P <| r_size := size |>) s in
          _FreeListInsertRange p size (delete_range r s)
      | None, Some (n, N) =>
          s ← _RemoveRange n s;
          let size := u64 (r_size R + r_size N) in
          let s := upd_range r (fun R => R <| r_size := size |>) s in
          _FreeListInsertRange r size (upd_range r (fun R => R <| r_type := RANGE_FREE |>) (delete_range n s))
      | None, None => _FreeListInsertRange r (r_size R) (upd_range r (fun R => R <| r_type := RANGE_FREE |>) s)
      end;
  Ret (IncrementChangeCount s).

Definition RemoveArea (a : Z) s : outcome kspace :=
  A ← deref (kareas s !! a);
  r ← deref (ka_range A);
  s ← _FreeRange r s;
  Ret (s <| fFreeSpace ::= fun n => u64 (n + ka_size A) |>).

(** The next range that is not free. *)
Fixpoint skip_free (l : list Z) s : outcome (option Z) :=
  match l with
  | [] => Ret None
  | r :: l => R ← deref (ranges s !! r); if is_free R then skip_free l s else Ret (Some r)
  end.

(** The loops of the two functions below; [endAddress] is the bound of the first. *)
Fixpoint unreserve_loop (fuel : nat) (endAddress : option Z) (range : option Z) s : outcome kspace :=
  match range with
  | None => Ret s
  | Some r =>
      R ← deref (ranges s !! r);
      if match endAddress with None => true | Some e => u64 (r_base R + u64 (r_size R - 1)) <=? e end then
        match fuel with
        | O => NoFuel
        | S fuel =>
            next ← skip_free (after r (list_of s)) s;
            s ← (if is_res R then s ← _FreeRange r s; Ret (Put s) else Ret s);
            unreserve_loop fuel endAddress next s
        end
      else Ret s
  end.

Definition UnreserveAddressRange (address size : Z) s : outcome (status * kspace) :=
  if fDeleting s then Ret (Err ESRCH, s)
  else
    s ← unreserve_loop (length (list_of s)) (Some (u64 (address + u64 (size - 1)))) (closest address false s) s;
    Ret (Ok, s).

Definition UnreserveAllAddressRanges s : outcome kspace := unreserve_loop (length (list_of s)) None (head (list_of s)) s.

(** ** Resizing *)

Definition range_of (a : Z) s : outcome (karea * Z * Range) :=
  A ← deref (kareas s !! a);
  r ← deref (ka_range A);
  R ← deref (ranges s !! r);
  Ret (A, r, R).

(** A reserved range that was reserved above the range. *)
Definition reserved_above N R : bool := match r_type N with RANGE_RESERVED b _ => r_base R <? b | _ => false end.

Definition CanResizeArea (a newSize : Z) s : outcome bool :=
  '(_, r, R) ← range_of a s;
  if newSize <=? r_size R then Ret true
  else
    match GetNext r s with
    | None => Ret false
    | Some n =>
        N ← deref (ranges s !! n);
        if is_area N then Ret false
        else if reserved_above N R then Ret false
        else Ret (u64 (newSize - r_size R) <=? r_size N)
    end.

Definition ResizeArea (a newSize : Z) (new : option Z) s : outcome (status * kspace) :=
  '(A, r, R) ← range_of a s;
  if newSize =? r_size R then Ret (Ok, s)
  else
    N ← match GetNext r s with None => Ret None | Some n => N ← deref (ranges s !! n); Ret (Some (n, N)) end;
    '(st, s) ←
      (if newSize <? r_size R then
         match N ≫= fun x => if is_free x.2 then Some x else None with
         | Some (n, N) =>
             s ← _FreeListRemoveRange n (r_size N) s;
             let size := u64 (r_size N + u64 (r_size R - newSize)) in
             let s := upd_range n (fun N => N <| r_size := size |> <| r_base := u64 (r_base R + newSize) |>) s in
             s ← _FreeListInsertRange n size s;
             Ret (Ok, s)
         | None =>
             match new with
             | None => Ret (Err ENOMEM, s)
             | Some n => s ← _InsertRange n (new_range n (mkRange (u64 (r_base R + newSize)) (u64 (r_size R - newSize)) RANGE_FREE) s); Ret (Ok, s)
             end
         end
       else
         match N with
         | None => Ret (Err EINVAL, s)
         | Some (n, N) =>
             if reserved_above N R then Ret (Err EINVAL, s)
             else
               let sizeDiff := u64 (newSize - r_size R) in
               if r_size N <? sizeDiff then Ret (Err EINVAL, s)
               else if sizeDiff =? r_size N then
                 s ← _RemoveRange n s; Ret (Ok, delete_range n s)
               else
                 s ← (if is_free N then _FreeListRemoveRange n (r_size N) s else Ret s);
                 let size := u64 (r_size N - sizeDiff) in
                 let s := upd_range n (fun N => N <| r_size := size |> <| r_base := u64 (r_base R + newSize) |>) s in
                 s ← (if is_free N then _FreeListInsertRange n size s else Ret s);
                 Ret (Ok, s)
         end);
    match st with
    | Err e => Ret (Err e, s)
    | Ok =>
        let s := upd_range r (fun R => R <| r_size := newSize |>) s in
        let s := upd_karea a (fun A => A <| ka_size := newSize |> <| ka_commit_base := Z.min (ka_commit_base A) (u64 (ka_base A + newSize)) |>) s in
        Ret (Ok, IncrementChangeCount s)
    end.

Definition ShrinkAreaHead (a newSize : Z) (new : option Z) s : outcome (status * kspace) :=
  '(A, r, R) ← range_of a s;
  if newSize =? r_size R then Ret (Ok, s)
  else if r_size R <? newSize then Ret (Err EINVAL, s)
  else
    p ← free_at (GetPrevious r s) s;
    let sizeDiff := u64 (r_size R - newSize) in
    let shrink := upd_range r (fun R => R <| r_base := u64 (r_base R + sizeDiff) |> <| r_size := newSize |>) in
    o ← match p with
        | Some (p, P) =>
            s ← _FreeListRemoveRange p (r_size P) s;
            let size := u64 (r_size P + sizeDiff) in
            s ← _FreeListInsertRange p size (upd_range p (fun P => P <| r_size := size |>) s);
            Ret (Some (shrink s))
        | None =>
            match new with
            | None => Ret None
            | Some p =>
                let s := new_range p (mkRange (r_base R) sizeDiff RANGE_FREE) s in
                s ← _InsertRange p (shrink s);
                Ret (Some s)
            end
        end;
    match o with
    | None => Ret (Err ENOMEM, s)
    | Some s =>
        let base := u64 (r_base R + sizeDiff) in
        let s := upd_karea a (fun A => A <| ka_base := base |> <| ka_size := newSize |> <| ka_commit_base := Z.max base (ka_commit_base A) |>) s in
        Ret (Ok, IncrementChangeCount s)
    end.

Definition ShrinkAreaTail (a newSize : Z) (new : option Z) s : outcome (status * kspace) := ResizeArea a newSize new s.

(** ** Looking areas up *)

Fixpoint first_area (l : list Z) s : outcome (option Z) :=
  match l with
  | [] => Ret None
  | r :: l => R ← deref (ranges s !! r); match r_type R with RANGE_AREA a => Ret (Some a) | _ => first_area l s end
  end.

Definition FirstArea s : outcome (option Z) := first_area (list_of s) s.

Definition NextArea (a : Z) s : outcome (option Z) :=
  A ← deref (kareas s !! a);
  r ← deref (ka_range A);
  first_area (after r (list_of s)) s.

Definition LookupArea (address : Z) s : outcome (option Z) :=
  match closest address true s with
  | None => Ret None
  | Some r =>
      R ← deref (ranges s !! r);
      match r_type R with
      | RANGE_AREA a =>
          A ← deref (kareas s !! a);
          Ret (if (ka_base A <=? address) && (address <=? u64 (ka_base A + u64 (ka_size A - 1))) then Some a else None)
      | _ => Ret None
      end
  end.

Definition FindClosestArea (address : Z) (less : bool) s : outcome (option Z) :=
  match closest address less s with
  | None => Ret None
  | Some r => first_area (r :: after r (fRangeTree s)) s
  end.

(** ** [_CheckStructures] *)

Fixpoint check_ranges (l t : list Z) (nextBase : Z) (previousFree : bool) s : outcome Z :=
  match l, t with
  | [], [] => Ret nextBase
  | r :: l, r' :: t =>
      _ ← assert (bool_decide (r = r'));
      R ← deref (ranges s !! r);
      _ ← assert (r_base R =? nextBase);
      _ ← assert (negb (r_size R =? 0));
      _ ← assert (r_size R mod PAGE_SIZE =? 0);
      _ ← assert (r_size R <=? u64 (u64 (fEndAddress s - fBase s + 1) - u64 (r_base R - fBase s)));
      _ ← assert (negb (is_free R && previousFree));
      check_ranges l t (u64 (r_base R + r_size R)) (is_free R) s
  | _, _ => Panic
  end.

Fixpoint check_free_list (i : Z) (l : list Z) s : outcome unit :=
  match l with
  | [] => Ret tt
  | r :: l =>
      R ← deref (ranges s !! r);
      _ ← assert (is_free R);
      _ ← assert (bool_decide (list_find (fun x => key s x = r_base R) (fRangeTree s) ≫= (fun x => Some x.2) = Some r));
      _ ← assert (ld (r_size R) - PAGE_SHIFT =? i);
      check_free_list i l s
  end.

Fixpoint check_free_lists (i : Z) (ls : list (dl Z)) s : outcome unit :=
  match ls with
  | [] => Ret tt
  | l :: ls => _ ← check_free_list i (dl_elems l) s; check_free_lists (i + 1) ls s
  end.

Definition _CheckStructures s : outcome unit :=
  nextBase ← check_ranges (list_of s) (fRangeTree s) (fBase s) false s;
  _ ← assert (u64 (nextBase - 1) =? fEndAddress s);
  check_free_lists 0 (fFreeLists s) s.
End ops.

(** ** Sequences of ranges *)

(** The ranges lie next to each other from [lo] up to [hi]. *)
Fixpoint tiles (lo : Z) (l : list Range) (hi : Z) : Prop :=
  match l with
  | [] => lo = hi
  | R :: l => r_base R = lo ∧ 0 < r_size R ∧ (PAGE_SIZE | r_size R) ∧ tiles (lo + r_size R) l hi
  end.

(** No two free ranges next to each other. *)
Fixpoint joined (l : list Range) : Prop :=
  match l with
  | [] => True
  | R :: l => match l with [] => True | N :: _ => is_free R && is_free N = false end ∧ joined l
  end.

(** What an address is used for. *)
Fixpoint owner (l : list Range) (x : Z) : option range_type :=
  match l with
  | [] => None
  | R :: l => if (r_base R <=? x) && (x <? r_base R + r_size R) then Some (r_type R) else owner l x
  end.

Section lists.
Implicit Types (l : list Range) (R : Range) (lo hi x : Z).

Lemma tiles_le lo l hi : tiles lo l hi → lo <= hi.
Proof. revert lo. induction l as [|R l IH]; cbn; intros lo; [lia|]. intros (? & ? & ? & H%IH). lia. Qed.

Lemma tiles_app lo l1 l2 hi : tiles lo (l1 ++ l2) hi ↔ ∃ m, tiles lo l1 m ∧ tiles m l2 hi.
Proof.
  revert lo. induction l1 as [|R l1 IH]; intros lo; cbn.
  - split; [by exists lo|]. by intros (m & -> & ?).
  - setoid_rewrite IH. split; [intros (?&?&?&m&?&?); exists m; done|intros (m&(?&?&?&?)&?); split_and!; try done; by exists m].
Qed.

Lemma tiles_in lo l hi R : tiles lo l hi → R ∈ l → lo <= r_base R ∧ r_base R + r_size R <= hi ∧ 0 < r_size R ∧ (PAGE_SIZE | r_size R).
Proof.
  intros H (l1 & l2 & ->)%list_elem_of_split. apply tiles_app in H as (m & H1 & H2). cbn in H2. destruct H2 as (-> & ? & ? & H2).
  apply tiles_le in H1, H2. done.
Qed.

Lemma tiles_aligned lo l hi R : (PAGE_SIZE | lo) → tiles lo l hi → R ∈ l → (PAGE_SIZE | r_base R).
Proof.
  revert lo. induction l as [|Q l IH]; intros lo Hlo; [by intros _ ?%elem_of_nil|]. intros (Hb & Hs & Hd & Ht) [->|Hin]%elem_of_cons; [by rewrite Hb|].
  apply (IH (lo + r_size Q)); [by apply Z.divide_add_r|done|done].
Qed.

Lemma tiles_sorted lo l hi : tiles lo l hi → StronglySorted (fun R N => r_base R < r_base N) l.
Proof.
  revert lo. induction l as [|R l IH]; intros lo; [constructor|]. intros (Hb & Hs & _ & Ht). constructor; [by apply (IH _ Ht)|].
  apply Forall_forall. intros N HN. destruct (tiles_in _ _ _ _ Ht HN). lia.
Qed.

Lemma owner_out lo l hi x : tiles lo l hi → x < lo ∨ hi <= x → owner l x = None.
Proof.
  revert lo. induction l as [|R l IH]; intros lo; [done|]. intros (Hb & Hs & _ & Ht) Hx. pose proof (tiles_le _ _ _ Ht). cbn.
  destruct (Z.leb_spec (r_base R) x), (Z.ltb_spec x (r_base R + r_size R)); cbn; try lia; apply (IH _ Ht); lia.
Qed.

Lemma owner_app lo l1 m l2 x : tiles lo l1 m → owner (l1 ++ l2) x = if (lo <=? x) && (x <? m) then owner l1 x else owner l2 x.
Proof.
  revert lo. induction l1 as [|R l1 IH]; intros lo; cbn.
  - intros ->. destruct (Z.leb_spec m x), (Z.ltb_spec x m); cbn; try done; lia.
  - intros (Hb & Hs & _ & Ht). pose proof (tiles_le _ _ _ Ht). rewrite (IH _ Ht).
    destruct (Z.leb_spec (r_base R) x), (Z.ltb_spec x (r_base R + r_size R)), (Z.leb_spec lo x), (Z.leb_spec (lo + r_size R) x), (Z.ltb_spec x m); cbn; try done; lia.
Qed.

(** The part in the middle may be replaced by other ranges of the same extent. *)
Lemma owner_replace lo m m' hi l1 l l' l2 x :
  tiles lo l1 m → tiles m l m' → tiles m l' m' → tiles m' l2 hi →
  owner (l1 ++ l' ++ l2) x = if (m <=? x) && (x <? m') then owner l' x else owner (l1 ++ l ++ l2) x.
Proof.
  intros H1 H2 H2' H3. rewrite !(owner_app lo l1 m _ x H1), (owner_app m l m' l2 x H2), (owner_app m l' m' l2 x H2').
  pose proof (tiles_le _ _ _ H1). pose proof (tiles_le _ _ _ H2).
  destruct (Z.leb_spec lo x), (Z.ltb_spec x m), (Z.leb_spec m x), (Z.ltb_spec x m'); cbn; try done; lia.
Qed.

Lemma owner_in lo l1 R l2 hi x : tiles lo (l1 ++ R :: l2) hi → r_base R <= x < r_base R + r_size R → owner (l1 ++ R :: l2) x = Some (r_type R).
Proof.
  intros H Hx. apply tiles_app in H as (m & H1 & H2). rewrite (owner_app lo l1 m) by done. destruct H2 as (Hb & _).
  destruct (Z.ltb_spec x m); [lia|]. rewrite andb_false_r. cbn. destruct (Z.leb_spec (r_base R) x), (Z.ltb_spec x (r_base R + r_size R)); cbn; try done; lia.
Qed.

Lemma owner_find lo l hi x t : tiles lo l hi → owner l x = Some t → ∃ l1 R l2, l = l1 ++ R :: l2 ∧ r_base R <= x < r_base R + r_size R ∧ r_type R = t.
Proof.
  intros _. induction l as [|R l IH]; [done|]. cbn. destruct (Z.leb_spec (r_base R) x), (Z.ltb_spec x (r_base R + r_size R)); cbn;
    try (by intros [= <-]; exists [], R, l); intros (l1 & Q & l2 & -> & ?)%IH; by exists (R :: l1), Q, l2.
Qed.

Lemma tiles_cover lo l hi x : tiles lo l hi → lo <= x < hi → ∃ l1 R l2, l = l1 ++ R :: l2 ∧ r_base R <= x < r_base R + r_size R.
Proof.
  revert lo. induction l as [|R l IH]; intros lo; [intros -> ?; lia|]. intros (Hb & Hs & _ & Ht) Hx.
  destruct (decide (x < lo + r_size R)); [exists [], R, l; split; [done|lia]|]. destruct (IH _ Ht) as (l1 & Q & l2 & -> & ?); [lia|]. by exists (R :: l1), Q, l2.
Qed.

Lemma joined_app l1 R N l2 : joined (l1 ++ R :: N :: l2) ↔ joined (l1 ++ [R]) ∧ is_free R && is_free N = false ∧ joined (N :: l2).
Proof.
  induction l1 as [|Q l1 IH]; [cbn; tauto|].
  assert (∀ P l, joined (P :: l) ↔ match l with [] => True | N :: _ => is_free P && is_free N = false end ∧ joined l) as Hc by done.
  change ((Q :: l1) ++ R :: N :: l2) with (Q :: (l1 ++ R :: N :: l2)). change ((Q :: l1) ++ [R]) with (Q :: (l1 ++ [R])).
  rewrite (Hc Q), (Hc Q), IH. destruct l1 as [|Q' l1]; cbn [app]; clear; tauto.
Qed.

Lemma joined_parts l1 l2 : joined (l1 ++ l2) → joined l1 ∧ joined l2.
Proof.
  induction l1 as [|Q l1 IH]; [by intros|]. cbn. intros [H [? ?]%IH]. split_and!; try done. by destruct l1.
Qed.

(** A range that is not free separates its neighbours. *)
Lemma joined_mid l1 R l2 : is_free R = false → joined (l1 ++ R :: l2) ↔ joined l1 ∧ joined l2.
Proof.
  intros HR. induction l1 as [|Q l1 IH]; cbn.
  - split; [tauto|]. intros [_ ?]. split; [|done]. destruct l2; [done|]. by rewrite HR.
  - rewrite IH. destruct l1 as [|Q' l1]; cbn; [|clear; tauto]. rewrite HR, andb_false_r. split; [tauto|]. intros [_ ?]. by split_and!.
Qed.
End lists.

(** ** Lists, tree and store *)

Lemma ld_loop_log2 p i : ld_loop p i = i + 1 + Z.log2 (Zpos p).
Proof.
  revert i. induction p as [p IH|p IH|]; intros i; cbn [ld_loop]; [| |cbn; lia]; rewrite IH.
  - change (Z.pos p~1) with (2 * Z.pos p + 1). rewrite Z.log2_succ_double by lia. lia.
  - change (Z.pos p~0) with (2 * Z.pos p). rewrite Z.log2_double by lia. lia.
Qed.

Lemma ld_log2 v : 0 < v → ld v = Z.log2 v.
Proof. intros H. destruct v as [|p|p]; [lia| |lia]. cbn [ld]. rewrite ld_loop_log2. lia. Qed.

(** The free list for a size. *)
Definition slot (size : Z) : nat := Z.to_nat (ld size - PAGE_SHIFT).

Lemma page_positive size : 0 < size → (PAGE_SIZE | size) → PAGE_SIZE <= size.
Proof. intros H [k ->]. unfold PAGE_SIZE in *. lia. Qed.

Lemma slot_mono n m : PAGE_SIZE <= n <= m → 0 <= ld n - PAGE_SHIFT ∧ (slot n <= slot m)%nat.
Proof.
  unfold PAGE_SIZE. intros H. unfold slot. rewrite !ld_log2 by lia. pose proof (Z.log2_le_mono n m ltac:(lia)). pose proof (Z.log2_le_mono 4096 n ltac:(lia)).
  change (Z.log2 4096) with 12 in *. unfold PAGE_SHIFT. lia.
Qed.

Section rep.
Context {DL : DLList Z} {RT : RangeTree}.
Implicit Types (s : kspace) (r n : Z) (R : Range) (L : list (Z * Range)) (F : gmap Z Z).

Record listed L s : Prop := {
  li_list : list_of s = L.*1;
  li_tree : fRangeTree s = L.*1;
  li_nodup : NoDup L.*1;
  li_ranges : ∀ r R, (r, R) ∈ L → ranges s !! r = Some R;
  li_sorted : StronglySorted (fun x y => r_base x.2 < r_base y.2) L
}.

(** The free lists hold the given ranges with their sizes. *)
Record filed (k : nat) F s : Prop := {
  fi_length : length (fFreeLists s) = k;
  fi_list : ∀ i l, fFreeLists s !! i = Some l → NoDup (dl_elems l) ∧ ∀ r, r ∈ dl_elems l ↔ ∃ n, F !! r = Some n ∧ slot n = i
}.

(** The rest of the state. *)
Definition fixed s := (fBase s, fEndAddress s, fFreeSpace s, fRefCount s, fChangeCount s, (fRandomizingEnabled s, fDeleting s, kareas s)).

Lemma sorted_app_inv {X} (P : X → X → Prop) (l1 l2 : list X) : StronglySorted P (l1 ++ l2) → StronglySorted P l1 ∧ StronglySorted P l2 ∧ ∀ x y, x ∈ l1 → y ∈ l2 → P x y.
Proof.
  induction l1 as [|z l1 IH]; cbn; [intros H; split_and!; [constructor|done|by intros ?? ?%elem_of_nil]|].
  intros [H Hz]%StronglySorted_inv. apply IH in H as (H1 & H2 & H3). apply Forall_app in Hz as [Hz1 Hz2]. split_and!; [by constructor|done|].
  intros x y [->|Hx]%elem_of_cons Hy; [by eapply Forall_forall in Hz2|by apply H3].
Qed.

Lemma sorted_app_make {X} (P : X → X → Prop) (l1 l2 : list X) : StronglySorted P l1 → StronglySorted P l2 → (∀ x y, x ∈ l1 → y ∈ l2 → P x y) → StronglySorted P (l1 ++ l2).
Proof.
  induction 1 as [|z l1 H1 IH Hz]; intros H2 H3; cbn; [done|]. constructor.
  - apply IH; [done|]. intros x y ??. apply H3; [by right|done].
  - apply Forall_app. split; [done|]. apply Forall_forall. intros y Hy. apply H3; [left|done].
Qed.

Lemma listed_keys L s : listed L s → (fun r => (r, key s r)) <$> fRangeTree s = (fun x => (x.1, r_base x.2)) <$> L.
Proof.
  intros [_ -> _ Hr _]. rewrite <- list_fmap_compose. apply list_fmap_ext. intros i [r R] Hi. cbn. unfold key. rewrite (Hr r R); [done|by eapply list_elem_of_lookup_2].
Qed.

Lemma listed_sorted L s : listed L s → StronglySorted (fun x y : Z * Z => x.2 < y.2) ((fun x => (x.1, r_base x.2)) <$> L).
Proof.
  intros H. pose proof (li_sorted _ _ H) as Hs. clear H. induction Hs as [|x L _ IH Hx]; cbn; constructor; [done|]. apply Forall_fmap. done.
Qed.

Lemma kernel_closest_less L1 L2 s k : listed (L1 ++ L2) s → (∀ x, x ∈ L1 → r_base x.2 <= k) → (∀ x, x ∈ L2 → k < r_base x.2) → closest k true s = fst <$> last L1.
Proof.
  intros H H1 H2. unfold closest. rewrite (listed_keys _ _ H), FindClosest_less by (by apply listed_sorted with s). rewrite fmap_app, filter_app, filter_all, filter_none, app_nil_r.
  - rewrite fmap_last. by destruct (last L1).
  - intros x (y & -> & Hy)%list_elem_of_fmap. cbn. specialize (H2 y Hy). lia.
  - intros x (y & -> & Hy)%list_elem_of_fmap. cbn. by apply H1.
Qed.

Lemma closest_greater L1 L2 s k : listed (L1 ++ L2) s → (∀ x, x ∈ L1 → r_base x.2 < k) → (∀ x, x ∈ L2 → k <= r_base x.2) → closest k false s = fst <$> head L2.
Proof.
  intros H H1 H2. unfold closest. rewrite (listed_keys _ _ H), FindClosest_greater by (by apply listed_sorted with s). rewrite fmap_app, filter_app, filter_none, filter_all.
  - by destruct L2.
  - intros x (y & -> & Hy)%list_elem_of_fmap. cbn. by apply H2.
  - intros x (y & -> & Hy)%list_elem_of_fmap. cbn. specialize (H1 y Hy). lia.
Qed.

Lemma after_split r l1 l2 : r ∉ l1 → after r (l1 ++ r :: l2) = l2.
Proof.
  induction l1 as [|x l1 IH]; cbn; [by rewrite decide_True|]. intros [Hne Hr]%not_elem_of_cons. rewrite decide_False by congruence. by apply IH.
Qed.

Lemma listed_split L1 r R L2 s : listed (L1 ++ (r, R) :: L2) s → r ∉ L1.*1 ∧ r ∉ L2.*1 ∧ (∀ x, x ∈ L1.*1 → x ∉ L2.*1) ∧ ranges s !! r = Some R.
Proof.
  intros H. pose proof (li_nodup _ _ H) as Hn. rewrite fmap_app in Hn. cbn in Hn. apply NoDup_app in Hn as (_ & H1 & [H2 _]%NoDup_cons).
  split_and!; [|done| |].
  - intros Hin. apply (H1 r Hin). left.
  - intros x Hx Hx2. apply (H1 x Hx). by right.
  - apply (li_ranges _ _ H). apply elem_of_app. right. left.
Qed.

Lemma list_after L1 r R L2 s : listed (L1 ++ (r, R) :: L2) s → after r (list_of s) = L2.*1.
Proof. intros H. rewrite (li_list _ _ H), fmap_app. apply after_split. by apply (listed_split _ _ _ _ _ H). Qed.

Lemma GetNext_split L1 r R L2 s : listed (L1 ++ (r, R) :: L2) s → GetNext r s = fst <$> head L2.
Proof. intros H. unfold GetNext. rewrite (list_after _ _ _ _ _ H). by destruct L2. Qed.

Lemma GetPrevious_split L1 r R L2 s : listed (L1 ++ (r, R) :: L2) s → GetPrevious r s = fst <$> last L1.
Proof.
  intros H. destruct (listed_split _ _ _ _ _ H) as (_ & Hr & _). unfold GetPrevious. rewrite (li_list _ _ H), fmap_app. cbn. rewrite reverse_app, reverse_cons, <- app_assoc. cbn.
  rewrite after_split, head_reverse by (by rewrite elem_of_reverse). by rewrite fmap_last.
Qed.

(** ** Steps *)

Lemma free_list_ok k F s size : filed k F s → PAGE_SIZE <= size → (slot size < k)%nat → ∃ l, free_list size s = Ret (slot size, l) ∧ fFreeLists s !! slot size = Some l.
Proof.
  intros H Hs Hk. destruct (slot_mono size size ltac:(lia)) as [H0 _]. rewrite <- (fi_length _ _ _ H) in Hk. apply lookup_lt_is_Some in Hk as [l Hl].
  exists l. split; [|done]. unfold free_list. rewrite (proj2 (Z.leb_le _ _)) by done. cbn [assert mbind outcome_bind]. fold (slot size). by rewrite Hl.
Qed.

Lemma FreeListInsert_ok k F s r size : filed k F s → PAGE_SIZE <= size → (slot size < k)%nat → F !! r = None →
  ∃ s', _FreeListInsertRange r size s = Ret s' ∧ filed k (<[r := size]> F) s' ∧ s' = s <| fFreeLists := fFreeLists s' |>.
Proof.
  intros H Hs Hk HF. destruct (free_list_ok k F s size H Hs Hk) as (l & E & Hl). unfold _FreeListInsertRange. rewrite E. cbn [mbind outcome_bind].
  eexists. split; [reflexivity|]. split; [|done]. destruct (fi_list _ _ _ H _ _ Hl) as [Hnd Hin].
  assert (r ∉ dl_elems l) as Hr by (rewrite Hin; intros (n & E' & _); congruence).
  split; [cbn; rewrite length_insert; apply H|]. intros i l' Hi. cbn in Hi. destruct (decide (i = slot size)) as [->|Hne].
  - rewrite list_lookup_insert_eq in Hi by (by eapply lookup_lt_Some). injection Hi as <-. rewrite dl_Add_elems by done. split.
    + apply NoDup_app. split_and!; [done| |apply NoDup_singleton]. by intros x Hx ->%list_elem_of_singleton.
    + intros x. rewrite elem_of_app, list_elem_of_singleton, Hin. split.
      * intros [(n & Hn & E')| ->]; [|exists size; by rewrite lookup_insert_eq]. exists n. rewrite lookup_insert_ne by congruence. done.
      * intros (n & [[<- <-]|[Hne Hn]]%lookup_insert_Some & E'); [by right|]. left. by exists n.
  - rewrite list_lookup_insert_ne in Hi by done. destruct (fi_list _ _ _ H _ _ Hi) as [Hnd' Hin']. split; [done|]. intros x. rewrite Hin'. split.
    + intros (n & Hn & E'). exists n. rewrite lookup_insert_ne by congruence. done.
    + intros (n & [[<- <-]|[Hne' Hn]]%lookup_insert_Some & E'); [congruence|]. by exists n.
Qed.

Lemma FreeListRemove_ok k F s r size : filed k F s → PAGE_SIZE <= size → (slot size < k)%nat → F !! r = Some size →
  ∃ s', _FreeListRemoveRange r size s = Ret s' ∧ filed k (delete r F) s' ∧ s' = s <| fFreeLists := fFreeLists s' |>.
Proof.
  intros H Hs Hk HF. destruct (free_list_ok k F s size H Hs Hk) as (l & E & Hl). unfold _FreeListRemoveRange. rewrite E. cbn [mbind outcome_bind].
  eexists. split; [reflexivity|]. split; [|done]. destruct (fi_list _ _ _ H _ _ Hl) as [Hnd Hin].
  assert (r ∈ dl_elems l) as Hr by (rewrite Hin; by exists size).
  split; [cbn; rewrite length_insert; apply H|]. intros i l' Hi. cbn in Hi. destruct (decide (i = slot size)) as [->|Hne].
  - rewrite list_lookup_insert_eq in Hi by (by eapply lookup_lt_Some). injection Hi as <-. rewrite dl_Remove_elems by done. split; [by apply NoDup_remove_elem|].
    intros x. rewrite elem_of_remove, Hin. setoid_rewrite lookup_delete_Some. split; [intros [? (n & ? & ?)]; exists n; split_and!; congruence|intros (n & [? ?] & ?); split; [congruence|by exists n]].
  - rewrite list_lookup_insert_ne in Hi by done. destruct (fi_list _ _ _ H _ _ Hi) as [Hnd' Hin']. split; [done|]. intros x. rewrite Hin'. setoid_rewrite lookup_delete_Some.
    split; [|intros (n & [? ?] & ?); by exists n]. intros (n & Hn & E'). exists n. split_and!; [|done|done]. intros <-. congruence.
Qed.

Definition rep (k : nat) L F s : Prop := listed L s ∧ filed k F s.

Lemma InsertRange_ok k L1 L2 F n R s :
  rep k (L1 ++ L2) F s → ranges s !! n = Some R → n ∉ (L1 ++ L2).*1 → (∀ x, x ∈ L1 → r_base x.2 < r_base R) → (∀ x, x ∈ L2 → r_base R < r_base x.2) →
  (is_free R = true → PAGE_SIZE <= r_size R ∧ (slot (r_size R) < k)%nat ∧ F !! n = None) →
  ∃ s', _InsertRange n s = Ret s' ∧ rep k (L1 ++ (n, R) :: L2) (if is_free R then <[n := r_size R]> F else F) s' ∧ ranges s' = ranges s ∧ fixed s' = fixed s.
Proof.
  intros [H Hf] HR Hn H1 H2 Hfree. unfold _InsertRange. rewrite HR. cbn [deref mbind outcome_bind].
  rewrite (kernel_closest_less L1 L2 s (r_base R) H (fun x Hx => Z.lt_le_incl _ _ (H1 x Hx)) H2).
  set (before := match _ with Some b => _ | None => _ end).
  assert (before = fst <$> head L2) as Hb.
  { unfold before. destruct (last L1) as [[b B]|] eqn:El; cbn [fmap option_fmap option_map fst].
    - apply last_Some in El as [L0 ->]. rewrite <- app_assoc in H. by apply (GetNext_split L0 b B).
    - apply last_None in El as ->. rewrite (li_list _ _ H). by destruct L2. }
  rewrite Hb. clear before Hb. set (s1 := s <| fRangeList ::= _ |>).
  assert (list_of s1 = L1.*1 ++ n :: L2.*1) as El.
  { pose proof (li_list _ _ H) as E. pose proof (li_nodup _ _ H) as Hnd. unfold list_of, s1. cbn. unfold list_of in E. rewrite <- E in Hnd, Hn. rewrite fmap_app in E.
    destruct L2 as [|[r2 R2] L2]; cbn.
    - rewrite dl_InsertBefore_None by done. rewrite E. cbn. by rewrite app_nil_r.
    - by apply dl_InsertBefore_Some. }
  assert (tree_insert n s1 = L1.*1 ++ n :: L2.*1) as Et.
  { unfold tree_insert. change (fRangeTree s1) with (fRangeTree s). rewrite (li_tree _ _ H), fmap_app, !filter_app.
    assert (key s1 n = r_base R) as -> by (unfold key; change (ranges s1) with (ranges s); by rewrite HR).
    assert (∀ r Q, (r, Q) ∈ L1 ++ L2 → key s1 r = r_base Q) as Hk by (intros r Q Hin; unfold key; change (ranges s1) with (ranges s); by rewrite (li_ranges _ _ H r Q)).
    assert (∀ x, x ∈ L1.*1 → key s1 x < r_base R) as K1.
    { intros x ([r Q] & -> & Hx)%list_elem_of_fmap. cbn. rewrite (Hk r Q) by (apply elem_of_app; by left). by apply (H1 (r, Q)). }
    assert (∀ x, x ∈ L2.*1 → ¬ key s1 x < r_base R) as K2.
    { intros x ([r Q] & -> & Hx)%list_elem_of_fmap. cbn. rewrite (Hk r Q) by (apply elem_of_app; by right). specialize (H2 _ Hx). cbn in H2. lia. }
    rewrite (filter_all _ L1.*1), (filter_none _ L2.*1), app_nil_r, (filter_none _ L1.*1), (filter_all _ L2.*1) by (done || by intros x Hx ?; eapply K1 in Hx). done. }
  set (s2 := s1 <| fRangeTree := tree_insert n s1 |>).
  assert (listed (L1 ++ (n, R) :: L2) s2) as Hl2.
  { split.
    - change (list_of s2) with (list_of s1). by rewrite El, fmap_app.
    - change (fRangeTree s2) with (tree_insert n s1). by rewrite Et, fmap_app.
    - rewrite fmap_app. cbn. apply (NoDup_Permutation_proper _ (n :: (L1 ++ L2).*1)); [rewrite fmap_app; symmetry; apply Permutation_middle|]. constructor; [done|apply H].
    - intros r Q. change (ranges s2) with (ranges s). rewrite elem_of_app, elem_of_cons. intros [Hin|[[= -> ->]|Hin]]; [|done|]; apply (li_ranges _ _ H); apply elem_of_app; auto.
    - destruct (sorted_app_inv _ _ _ (li_sorted _ _ H)) as (S1 & S2 & S3). apply sorted_app_make; [done| |].
      + constructor; [done|]. apply Forall_forall. intros x Hx. by apply H2.
      + intros x y Hx [->|Hy]%elem_of_cons; [by apply H1|by apply S3]. }
  assert (filed k F s2) as Hf2 by (by destruct Hf; split).
  destruct (is_free R); [|by exists s2]. destruct (Hfree eq_refl) as (F1 & F2 & F3).
  destruct (FreeListInsert_ok k F s2 n (r_size R) Hf2 F1 F2 F3) as (s' & E & Hf' & Es). exists s'. rewrite E. rewrite Es. split_and!; try done.
  split; [by destruct Hl2; split|]. by destruct Hf'; split.
Qed.

Lemma RemoveRange_ok k L1 L2 F r R s :
  rep k (L1 ++ (r, R) :: L2) F s → (is_free R = true → PAGE_SIZE <= r_size R ∧ (slot (r_size R) < k)%nat ∧ F !! r = Some (r_size R)) →
  ∃ s', _RemoveRange r s = Ret s' ∧ rep k (L1 ++ L2) (if is_free R then delete r F else F) s' ∧ ranges s' = ranges s ∧ fixed s' = fixed s.
Proof.
  intros [H Hf] Hfree. destruct (listed_split _ _ _ _ _ H) as (N1 & N2 & N3 & HR). unfold _RemoveRange. rewrite HR. cbn [deref mbind outcome_bind].
  set (s2 := s <| fRangeTree ::= _ |> <| fRangeList ::= _ |>). pose proof (li_nodup _ _ H) as Hnd. rewrite fmap_app in Hnd. cbn in Hnd.
  assert (list_of s = L1.*1 ++ r :: L2.*1) as E by (by rewrite (li_list _ _ H), fmap_app).
  assert (listed (L1 ++ L2) s2) as Hl2.
  { split.
    - unfold list_of, s2 in *. cbn. rewrite <- E in Hnd. rewrite dl_Remove_elems by (done || (rewrite E; apply elem_of_app; right; left)). rewrite E in *. rewrite remove_elem_split by done. by rewrite fmap_app.
    - unfold s2. cbn. rewrite (li_tree _ _ H), fmap_app. cbn. by rewrite remove_elem_split, fmap_app.
    - rewrite fmap_app. apply NoDup_app in Hnd as (D1 & D2 & [_ D3]%NoDup_cons). apply NoDup_app. split_and!; [done| |done]. intros x Hx Hx2. apply (D2 x Hx). by right.
    - intros x Q Hin. apply (li_ranges _ _ H). rewrite elem_of_app, elem_of_cons. apply elem_of_app in Hin as [?|?]; auto.
    - destruct (sorted_app_inv _ _ _ (li_sorted _ _ H)) as (S1 & [S2 _]%StronglySorted_inv & S3). apply sorted_app_make; [done|done|]. intros x y Hx Hy. apply S3; [done|by right]. }
  assert (filed k F s2) as Hf2 by (by destruct Hf; split).
  destruct (is_free R); [|by exists s2]. destruct (Hfree eq_refl) as (F1 & F2 & F3).
  destruct (FreeListRemove_ok k F s2 r (r_size R) Hf2 F1 F2 F3) as (s' & E' & Hf' & Es). exists s'. rewrite E'. rewrite Es. split_and!; try done.
  split; [by destruct Hl2; split|]. by destruct Hf'; split.
Qed.

Lemma upd_range_ok k L1 L2 F r R f s :
  rep k (L1 ++ (r, R) :: L2) F s → (∀ x, x ∈ L1 → r_base x.2 < r_base (f R)) → (∀ x, x ∈ L2 → r_base (f R) < r_base x.2) →
  rep k (L1 ++ (r, f R) :: L2) F (upd_range r f s) ∧ ranges (upd_range r f s) = <[r := f R]> (ranges s).
Proof.
  intros [H Hf] H1 H2. destruct (listed_split _ _ _ _ _ H) as (N1 & N2 & N3 & HR).
  assert (ranges (upd_range r f s) = <[r := f R]> (ranges s)) as E.
  { unfold upd_range. cbn. apply map_eq. intros x. destruct (decide (x = r)) as [->|Hne]; [by rewrite lookup_alter_eq, HR, lookup_insert_eq|].
    by rewrite lookup_alter_ne, lookup_insert_ne by congruence. }
  split; [|done]. split; [|by destruct Hf; split]. split.
  - change (list_of (upd_range r f s)) with (list_of s). by rewrite (li_list _ _ H), !fmap_app.
  - change (fRangeTree (upd_range r f s)) with (fRangeTree s). by rewrite (li_tree _ _ H), !fmap_app.
  - pose proof (li_nodup _ _ H) as Hnd. by rewrite fmap_app in *.
  - intros x Q. rewrite E, elem_of_app, elem_of_cons. intros Hin. assert (x ≠ r → ranges s !! x = Some Q → <[r := f R]> (ranges s) !! x = Some Q) as Hx by (intros; by rewrite lookup_insert_ne).
    destruct Hin as [Hin|[[= -> ->]|Hin]]; [|apply lookup_insert_eq|]; (apply Hx; [intros ->|]); try (apply (li_ranges _ _ H); rewrite elem_of_app, elem_of_cons; by auto).
    + apply N1. apply list_elem_of_fmap. by exists (r, Q).
    + apply N2. apply list_elem_of_fmap. by exists (r, Q).
  - destruct (sorted_app_inv _ _ _ (li_sorted _ _ H)) as (S1 & [S2 _]%StronglySorted_inv & S3). apply sorted_app_make; [done| |].
    + constructor; [done|]. apply Forall_forall. intros x Hx. by apply H2.
    + intros x y Hx [->|Hy]%elem_of_cons; [by apply H1|]. apply S3; [done|by right].
Qed.

Lemma store_ok k L F s m : rep k L F s → (∀ r R, (r, R) ∈ L → m !! r = ranges s !! r) → rep k L F (s <| ranges := m |>).
Proof.
  intros [H Hf] Hm. split; [|by destruct Hf; split]. destruct H as [H1 H2 H3 H4 H5]. split; try done. intros r R Hin. cbn. rewrite (Hm r R Hin). by apply H4.
Qed.

Lemma new_range_ok k L F s n R : rep k L F s → n ∉ L.*1 → rep k L F (new_range n R s).
Proof.
  intros H Hn. apply (store_ok k L F s (<[n := R]> (ranges s)) H). intros r Q Hin. apply lookup_insert_ne. intros <-. apply Hn, list_elem_of_fmap. by exists (n, Q).
Qed.

Lemma delete_range_ok k L F s n : rep k L F s → n ∉ L.*1 → rep k L F (delete_range n s).
Proof.
  intros H Hn. apply (store_ok k L F s (delete n (ranges s)) H). intros r Q Hin. apply lookup_delete_ne. intros <-. apply Hn, list_elem_of_fmap. by exists (n, Q).
Qed.

(** ** The invariant *)

Definition free_sizes (m : gmap Z Range) : gmap Z Z := omap (fun R => if is_free R then Some (r_size R) else None) m.
Definition nlists s : nat := S (slot (fEndAddress s - fBase s + 1)).

Record space_rep L s : Prop := {
  sr_base : 0 < fBase s ∧ (PAGE_SIZE | fBase s) ∧ fBase s <= fEndAddress s < 2 ^ 64;
  sr_rep : rep (nlists s) L (free_sizes (ranges s)) s;
  sr_all : ∀ r R, ranges s !! r = Some R → (r, R) ∈ L;
  sr_tiles : tiles (fBase s) L.*2 (fEndAddress s + 1);
  sr_joined : joined L.*2
}.

(** Ranges of areas and areas agree. *)
Definition areas_ok s : Prop := ∀ r R a, ranges s !! r = Some R → r_type R = RANGE_AREA a →
  ∃ A, kareas s !! a = Some A ∧ ka_range A = Some r ∧ ka_base A = r_base R ∧ ka_size A = r_size R.

Definition kspace_ok s : Prop := areas_ok s ∧ ∃ L, space_rep L s.

(** What an address is used for. *)
Definition use s (x : Z) : option range_type := owner (omap (fun r => ranges s !! r) (list_of s)) x.

Lemma listed_view L s : listed L s → omap (fun r => ranges s !! r) (list_of s) = L.*2.
Proof.
  intros H. rewrite (li_list _ _ H). pose proof (li_ranges _ _ H) as Hr. clear H. induction L as [|[r R] L IH]; [done|].
  cbn. rewrite (Hr r R) by left. f_equal. apply IH. intros x X Hx. apply Hr. by right.
Qed.

Lemma use_rep L s x : space_rep L s → use s x = owner L.*2 x.
Proof. intros H. unfold use. by rewrite (listed_view L s (proj1 (sr_rep _ _ H))). Qed.

Record range_ok s R : Prop := {
  ro_base : fBase s <= r_base R;
  ro_end : r_base R + r_size R <= fEndAddress s + 1;
  ro_size : PAGE_SIZE <= r_size R;
  ro_page : (PAGE_SIZE | r_size R) ∧ (PAGE_SIZE | r_base R);
  ro_slot : (slot (r_size R) < nlists s)%nat
}.

Lemma in_range L s r R : space_rep L s → (r, R) ∈ L → range_ok s R.
Proof.
  intros [H1 _ _ H4 _] Hin. assert (R ∈ L.*2) as HR by (apply list_elem_of_fmap; by exists (r, R)).
  destruct (tiles_in _ _ _ _ H4 HR) as (T1 & T2 & T3 & T4). pose proof (page_positive _ T3 T4). split; try done.
  - split; [done|]. apply (tiles_aligned (fBase s) L.*2 (fEndAddress s + 1)); [apply H1|done|done].
  - unfold nlists. apply Nat.lt_succ_r. apply slot_mono. lia.
Qed.

Lemma stored_range L s r R : space_rep L s → ranges s !! r = Some R → range_ok s R.
Proof. intros H HR. apply (in_range L s r R H). by apply (sr_all _ _ H). Qed.

Lemma free_sizes_lookup m r R : m !! r = Some R → free_sizes m !! r = if is_free R then Some (r_size R) else None.
Proof. intros H. unfold free_sizes. rewrite lookup_omap, H. done. Qed.

Lemma is_free_true R : is_free R = true ↔ r_type R = RANGE_FREE.
Proof. apply bool_decide_eq_true. Qed.
End rep.

(** ** The search *)

Section find_proofs.
Context {DL : DLList Z} {RT : RangeTree}.
Context (L : list (Z * Range)) (s : kspace) (Hs : space_rep L s) (size k random0 random : Z) (allow : bool).
Context (Hsize : PAGE_SIZE <= size < 2 ^ 64) (Hk : 12 <= k <= 63) (Hkb : 2 ^ k <= fBase s) (Hrnd : 0 <= random) (Hrnd0 : 0 <= random0).
#[local] Set Default Proof Using "Type*".

Definition fits_in (r a : Z) : Prop :=
  ∃ R, ranges s !! r = Some R ∧ r_base R <= a ∧ a + size <= r_base R + r_size R ∧ (is_free R = true ∨ allow = true ∧ is_res R = true).

Lemma range_last R : range_ok s R → u64 (r_base R + u64 (r_size R - 1)) = r_base R + r_size R - 1.
Proof using Hs.
  clear -Hs. intros [H1 H2 H3 _ _]. destruct (sr_base _ _ Hs) as (B1 & _ & B2). unfold PAGE_SIZE in *. rewrite (wrap_small 64 (r_size R - 1)) by (unfold fits; lia).
  rewrite wrap_small by (unfold fits; lia). lia.
Qed.

Lemma aligned_spot R start : range_ok s R → 0 < start → is_valid_spot start (roundup2 (r_base R) (2 ^ k)) size (r_base R + r_size R - 1) = true →
  start <= roundup2 (r_base R) (2 ^ k) ∧ r_base R <= roundup2 (r_base R) (2 ^ k) ∧ roundup2 (r_base R) (2 ^ k) + size <= r_base R + r_size R ∧ roundup2 (r_base R) (2 ^ k) mod 2 ^ k = 0.
Proof.
  intros [H1 H2 H3 _ _] Hst Hv. destruct (sr_base _ _ Hs) as (B1 & _ & B2). unfold PAGE_SIZE in *. pose proof (pow2_pos k ltac:(lia)) as Hp.
  destruct (decide (r_base R + 2 ^ k <= 2 ^ 64)) as [Hle|Hgt].
  - destruct (roundup2_spec (r_base R) k ltac:(lia) ltac:(lia) Hle) as [R1 R2]. apply is_valid_spot_spec in Hv; [lia|unfold fits; lia|lia].
  - exfalso. assert (roundup2 (r_base R) (2 ^ k) = 0) as E.
    { unfold roundup2. assert (2 ^ k <= 2 ^ 63) by (apply Z.pow_le_mono_r; lia).
      assert (u64 (r_base R + (2 ^ k - 1)) = r_base R + (2 ^ k - 1) - 2 ^ 64) as -> by (unfold wrap; symmetry; apply (Z.mod_unique _ _ 1); lia).
      rewrite land_lnot_ones by (lia || (unfold fits; lia)). rewrite Z.div_small by lia. done. }
    rewrite E in Hv. apply is_valid_spot_spec in Hv; [lia|unfold fits; lia|lia].
Qed.

(** What the choice of an address must yield. *)
Definition chooser (choose : Range → Z → Z → outcome Z) : Prop := ∀ R al, range_ok s R → r_base R <= al → al + size <= r_base R + r_size R → al mod 2 ^ k = 0 →
  ∃ a, choose R al (r_base R + r_size R - 1) = Ret a ∧ al <= a ∧ a + size <= r_base R + r_size R ∧ a mod 2 ^ k = 0.

Lemma place_in_ok spec : chooser (fun _ al next => place_in size (2 ^ k) random spec al next s).
Proof.
  intros R al [H1 H2 H3 _ _] Ha1 Ha2 Hm. destruct (sr_base _ _ Hs) as (B1 & _ & B2). unfold PAGE_SIZE in *. unfold place_in. destruct (IsRandomized spec s); [|by exists al].
  rewrite (wrap_small 64 (_ - size)) by (unfold fits; lia). rewrite wrap_small by (unfold fits; lia).
  destruct (randomize_ok al (r_base R + r_size R - 1 - size + 1) k false random) as (a & -> & Ha & ?); [lia|lia|lia|done|done|]. exists a. split_and!; [done|lia|lia|done].
Qed.

Lemma place_reserved_ok spec : chooser (fun R al next => place_reserved size (2 ^ k) random spec R al next s).
Proof.
  intros R al HR Ha1 Ha2 Hm. unfold place_reserved. destruct (negb _); [|by apply place_in_ok]. destruct HR as [H1 H2 H3 _ _].
  destruct (sr_base _ _ Hs) as (B1 & _ & B2). unfold PAGE_SIZE in *. pose proof (pow2_pos k ltac:(lia)) as Hp.
  rewrite (wrap_small 64 (r_size R - size)) by (unfold fits; lia). rewrite wrap_small by (unfold fits; lia). rewrite rounddown2_pow2 by (lia || (unfold fits; lia)).
  set (y := r_base R + (r_size R - size)). exists (y / 2 ^ k * 2 ^ k). pose proof (Z.mul_div_le y (2 ^ k) Hp). split_and!; [done| |lia|apply Z.mod_mul; lia].
  apply Z.mod_divide in Hm as [q ->]; [|lia]. apply Z.mul_le_mono_nonneg_r; [lia|]. apply Z.div_le_lower_bound; lia.
Qed.

Lemma scan_ok pick choose start it :
  chooser choose → 0 < start → (∀ r, r ∈ it → ∃ R, ranges s !! r = Some R ∧ (pick R = true → is_free R = true ∨ allow = true ∧ is_res R = true)) →
  ∃ o, scan size (2 ^ k) pick choose start it s = Ret o ∧ (∀ r a, o = Some (r, a) → fits_in r a ∧ a mod 2 ^ k = 0 ∧ start <= a) ∧
    (o = None → ∀ r R, r ∈ it → ranges s !! r = Some R → pick R = true → is_valid_spot start (roundup2 (r_base R) (2 ^ k)) size (r_base R + r_size R - 1) = false).
Proof.
  intros Hch Hst. induction it as [|r it IH]; intros Hit; [exists None; split_and!; [done|done|by intros _ r R ?%elem_of_nil]|]. cbn [scan].
  destruct (Hit r) as (R & HR & Hp); [left|]. rewrite HR. cbn [deref mbind outcome_bind]. pose proof (stored_range L s r R Hs HR) as Hro. rewrite range_last by done.
  destruct (pick R && is_valid_spot _ _ _ _) eqn:E.
  - apply andb_prop in E as [E1 E2]. destruct (aligned_spot R start Hro Hst E2) as (A0 & A1 & A2 & A3). destruct (Hch R _ Hro A1 A2 A3) as (a & -> & C1 & C2 & C3).
    cbn [mbind outcome_bind]. exists (Some (r, a)). split_and!; [done| |done]. intros r' a' [= <- <-]. split_and!; [|done|lia]. exists R. split_and!; [done|lia|done|by apply Hp].
  - destruct IH as (o & Ho & Hf & Hn); [intros x Hx; apply Hit; by right|]. exists o. split_and!; [done|done|]. intros -> x X [->|Hx]%elem_of_cons HX Hpk; [|by apply (Hn eq_refl x)].
    rewrite HR in HX. injection HX as <-. by rewrite Hpk in E.
Qed.

Lemma from_address_in address r : r ∈ from_address address s → ∃ R, ranges s !! r = Some R.
Proof.
  destruct (sr_rep _ _ Hs) as [Hl _]. assert (∀ x, x ∈ L.*1 → ∃ R, ranges s !! x = Some R) as HL.
  { intros x ([y R] & -> & Hx)%list_elem_of_fmap. exists R. by apply (li_ranges _ _ Hl). }
  assert (∀ x y l, x ∈ after y l → x ∈ l) as Ha.
  { intros x y l. induction l as [|z l IH]; cbn; [done|]. case_decide; intros Hx; right; auto. }
  unfold from_address, closest. destruct (FindClosest _ address true) as [b|] eqn:Eb; [|by intros ?%elem_of_nil]. intros [->|Hr]%elem_of_cons.
  - rewrite (listed_keys _ _ Hl), FindClosest_less in Eb by (by apply listed_sorted with s). apply HL.
    apply fmap_Some in Eb as ([b' kb] & Eb & ->). apply last_Some_elem_of, list_elem_of_filter in Eb as [_ ([y R] & [= -> _] & Hy)%list_elem_of_fmap].
    apply list_elem_of_fmap. by exists (y, R).
  - apply HL. rewrite <- (li_list _ _ Hl). by apply (Ha r b).
Qed.

Lemma free_list_in i l r : fFreeLists s !! i = Some l → r ∈ dl_elems l ↔ ∃ R, ranges s !! r = Some R ∧ is_free R = true ∧ slot (r_size R) = i.
Proof.
  intros Hi. destruct (sr_rep _ _ Hs) as [_ Hf]. destruct (fi_list _ _ _ Hf i l Hi) as [_ ->]. unfold free_sizes. setoid_rewrite lookup_omap. split.
  - intros (n & Hn & E). destruct (ranges s !! r) as [R|]; [|done]. cbn in Hn. exists R. destruct (is_free R); [|done]. injection Hn as <-. done.
  - intros (R & HR & Hfr & E). exists (r_size R). rewrite HR. cbn. by rewrite Hfr.
Qed.

Lemma scan_lists_ok spec start ls : 0 < start → ls ⊆ fFreeLists s →
  ∃ o, scan_lists size (2 ^ k) random spec start ls s = Ret o ∧ (∀ r a, o = Some (r, a) → fits_in r a ∧ a mod 2 ^ k = 0 ∧ start <= a) ∧
    (o = None → ∀ l r R, l ∈ ls → r ∈ dl_elems l → ranges s !! r = Some R → is_valid_spot start (roundup2 (r_base R) (2 ^ k)) size (r_base R + r_size R - 1) = false).
Proof.
  intros Hst. induction ls as [|l ls IH]; intros Hsub; [exists None; split_and!; [done|done|by intros _ l r R ?%elem_of_nil]|]. cbn [scan_lists].
  destruct (scan_ok (fun _ => true) (fun _ al next => place_in size (2 ^ k) random spec al next s) start (dl_elems l)) as (o & -> & Ho & Hn); [apply place_in_ok|done| |].
  - intros r Hr. destruct (proj1 (list_elem_of_lookup _ l) (Hsub l (list_elem_of_here _ _))) as [i Hi]. destruct (proj1 (free_list_in i l r Hi) Hr) as (R & HR & Hf & _). exists R. auto.
  - cbn [mbind outcome_bind]. destruct o as [x|]; [exists (Some x); by split_and!|]. destruct IH as (o & Ho' & H1 & H2); [intros x Hx; apply Hsub; by right|].
    exists o. split_and!; [done|done|]. intros -> l' r R [->|Hl]%elem_of_cons Hr HR; [by apply (Hn eq_refl r R)|by apply (H2 eq_refl l' r R)].
Qed.

Lemma base_split start : ∃ L1 L2, L = L1 ++ L2 ∧ (∀ x, x ∈ L1 → r_base x.2 <= start) ∧ (∀ x, x ∈ L2 → start < r_base x.2).
Proof using Hs.
  pose proof (li_sorted _ _ (proj1 (sr_rep _ _ Hs))) as H. clear -H. induction H as [|x L _ (L1 & L2 & -> & H1 & H2) Hx].
  - exists [], []. split_and!; [done|by intros ? ?%elem_of_nil..].
  - destruct (decide (r_base x.2 <= start)).
    + exists (x :: L1), L2. split_and!; [done| |done]. intros y [->|]%elem_of_cons; auto.
    + exists [], (x :: L1 ++ L2). split_and!; [done|by intros ? ?%elem_of_nil|]. intros y [->|Hy]%elem_of_cons; [lia|].
      rewrite Forall_forall in Hx. specialize (Hx y Hy). cbn in Hx. lia.
Qed.

Lemma tiles_before lo l1 R l2 hi Q : tiles lo (l1 ++ R :: l2) hi → Q ∈ l2 → r_base R + r_size R <= r_base Q.
Proof using.
  clear. intros H HQ. apply tiles_app in H as (m & _ & (-> & _ & _ & H)). by destruct (tiles_in _ _ _ _ H HQ).
Qed.

Lemma find_exact_ok start : 0 <= start → start + size <= 2 ^ 64 →
  ∃ o, find_exact size allow start s = Ret o ∧ (∀ r a, o = Some (r, a) → fits_in r a ∧ a = start) ∧ (o = None → ∀ r, ¬ fits_in r start).
Proof.
  intros H0 Hov. destruct (base_split start) as (L1 & L2 & EL & H1 & H2). pose proof (sr_rep _ _ Hs) as [Hl _]. pose proof (sr_all _ _ Hs) as Hall. pose proof (sr_tiles _ _ Hs) as Ht.
  rewrite EL in Hl, Ht. unfold find_exact. rewrite (kernel_closest_less L1 L2 s start Hl H1 H2).
  assert (∀ r R, ranges s !! r = Some R → r_base R <= start → (r, R) ∈ L1) as Hin.
  { intros r R HR Hb. specialize (Hall r R HR). rewrite EL in Hall. apply elem_of_app in Hall as [?|Hx]; [done|]. specialize (H2 _ Hx). cbn in H2. lia. }
  destruct (last L1) as [[b B]|] eqn:El; cbn [fmap option_fmap option_map fst].
  - apply last_Some in El as [L0 ->]. assert (ranges s !! b = Some B) as HB by (apply (li_ranges _ _ Hl); rewrite !elem_of_app; left; right; left).
    rewrite HB. cbn [deref mbind outcome_bind]. pose proof (stored_range L s b B Hs HB) as Hro. rewrite range_last by done.
    assert (u64 (start + u64 (size - 1)) = start + size - 1) as ->.
    { unfold PAGE_SIZE in *. rewrite (wrap_small 64 (size - 1)) by (unfold fits; lia). rewrite wrap_small by (unfold fits; lia). lia. }
    assert (r_base B <= start) as HbB by (apply (H1 (b, B)); apply elem_of_app; right; left).
    assert (∀ r, fits_in r start → r = b) as Honly.
    { intros r (R & HR & F1 & F2 & _). specialize (Hin r R HR F1). apply elem_of_app in Hin as [Hx|Hx]; [|by apply list_elem_of_singleton in Hx as [= -> ->]]. exfalso.
      apply list_elem_of_split in Hx as (La & Lb & ->). rewrite !fmap_app in Ht. cbn in Ht. rewrite <- !app_assoc in Ht. cbn in Ht.
      pose proof (tiles_before _ _ _ _ _ B Ht ltac:(apply elem_of_app; right; left)). unfold PAGE_SIZE in *. lia. }
    destruct (is_area B || (r_base B + r_size B - 1 <? start + size - 1)) eqn:E1; [exists None; split_and!; [done|done|]; intros _ r Hr|].
    + pose proof (Honly r Hr) as ->. destruct Hr as (R & HR & F1 & F2 & F3). rewrite HB in HR. injection HR as <-. apply orb_true_iff in E1 as [E1|E1%Z.ltb_lt]; [|lia].
      unfold is_area, is_res, is_free in *. destruct F3 as [F3|[_ F3]]; [apply bool_decide_eq_true in F3; by rewrite F3 in E1|by destruct (r_type B)].
    + apply orb_false_iff in E1 as [E1 E2%Z.ltb_ge]. destruct (negb (is_free B) && negb allow) eqn:E3; [exists None; split_and!; [done|done|]; intros _ r Hr|].
      * pose proof (Honly r Hr) as ->. destruct Hr as (R & HR & _ & _ & F3). rewrite HB in HR. injection HR as <-. apply andb_prop in E3 as [E3%negb_true_iff E4%negb_true_iff].
        destruct F3 as [F3|[F3 _]]; congruence.
      * exists (Some (b, start)). split_and!; [done| |done]. intros r a [= <- <-]. split; [|done]. exists B. split_and!; [done|done|lia|].
        destruct (is_free B) eqn:E4; [by left|]. right. apply andb_false_iff in E3 as [E3|E3]; [done|]. apply negb_false_iff in E3. split; [done|].
        unfold is_area, is_res, is_free in *. destruct (r_type B); [|done|done]. by rewrite bool_decide_eq_true_2 in E4.
  - apply last_None in El as ->. exists None. split_and!; [done|done|]. intros _ r (R & HR & F1 & _). by specialize (Hin r R HR F1) as ?%elem_of_nil.
Qed.

Definition found (o : option (Z * Z)) : Prop := ∀ r a, o = Some (r, a) → fits_in r a ∧ a mod 2 ^ k = 0.

(** A search that starts at a positive address terminates with a spot, if any. *)
Lemma find_rounds_ok (m : nat) originalStart spec start :
  spec ≠ B_EXACT_ADDRESS → 0 < start → 0 < originalStart →
  ((if bool_decide (spec = B_RANDOMIZED_BASE_ADDRESS) then if (start =? originalStart)%Z then 2 else 3 else 1) <= m)%nat →
  ∃ o, find_rounds size (2 ^ k) allow random m originalStart spec start s = Ret o ∧ found o.
Proof.
  assert (∀ x y, (∃ o, x = Ret o ∧ found o) → (∃ o, y = Ret o ∧ found o) → ∃ o, or_else x y = Ret o ∧ found o) as Hor.
  { intros x y (o & -> & Ho) Hy. destruct o as [p|]; [by exists (Some p)|]. exact Hy. }
  revert spec start. induction m as [|m IH]; intros spec start Hsp Hst Ho Hm; [destruct (bool_decide _), (start =? originalStart); lia|]. cbn [find_rounds].
  assert (∃ o, Ret (A := option (Z * Z)) None = Ret o ∧ found o) as Hnone by (by exists None).
  assert (∀ b pick choose, chooser choose → (∀ R, pick R = true → is_free R = true ∨ allow = true ∧ is_res R = true) →
    ∃ o, (if b : bool then scan size (2 ^ k) pick choose start (from_address start s) s else Ret None) = Ret o ∧ found o) as Hscan.
  { intros [] pick choose Hc Hp; [|done]. destruct (scan_ok pick choose start (from_address start s)) as (o & E & H & _); [done|done| |].
    - intros r Hr. destruct (from_address_in start r Hr) as [R HR]. exists R. auto.
    - exists o. split; [done|]. intros r a Hra. destruct (H r a Hra) as (? & ? & _). done. }
  assert (∃ o, or_else (if is_base_address_spec spec then scan size (2 ^ k) is_free (fun _ al next => place_in size (2 ^ k) random spec al next s) start (from_address start s) s else Ret None)
    (or_else (scan_lists size (2 ^ k) random spec start (drop (Z.to_nat (ld (Z.shiftr (u64 (u64 (size * 2) - 1)) PAGE_SHIFT))) (fFreeLists s)) s)
    (or_else (if allow then scan size (2 ^ k) is_res (fun R al next => place_reserved size (2 ^ k) random spec R al next s) start (from_address start s) s else Ret None)
    (if bool_decide (spec = B_RANDOMIZED_BASE_ADDRESS) then
       if start =? originalStart then find_rounds size (2 ^ k) allow random m originalStart B_RANDOMIZED_ANY_ADDRESS (fBase s) s
       else find_rounds size (2 ^ k) allow random m originalStart B_RANDOMIZED_BASE_ADDRESS originalStart s
     else Ret None))) = Ret o ∧ found o) as Hround; [|by destruct spec].
  apply Hor; [apply Hscan; [apply place_in_ok|auto]|]. apply Hor; [|apply Hor].
  - destruct (scan_lists_ok spec start (drop (Z.to_nat (ld (Z.shiftr (u64 (u64 (size * 2) - 1)) PAGE_SHIFT))) (fFreeLists s)) Hst) as (o & E & H & _); [apply subseteq_drop|].
    exists o. split; [done|]. intros r a Hra. destruct (H r a Hra) as (? & ? & _). done.
  - destruct allow eqn:Ea; [|done]. apply (Hscan true); [apply place_reserved_ok|]. intros R HR. by right.
  - destruct (bool_decide (spec = B_RANDOMIZED_BASE_ADDRESS)) eqn:Eb; [|done]. destruct (start =? originalStart) eqn:Es.
    + apply IH; [done|apply (sr_base _ _ Hs)|done|]. rewrite bool_decide_eq_false_2 by done. lia.
    + apply IH; [done|done|done|]. rewrite bool_decide_eq_true_2, Z.eqb_refl by done. lia.
Qed.

Lemma base_start_ok start : 0 <= start < 2 ^ 64 →
  let b := base_start size (2 ^ k) start s in 0 < b ∧ b mod 2 ^ k = 0 ∧ b <= fEndAddress s.
Proof.
  intros Ha b. unfold b, base_start. destruct (sr_base _ _ Hs) as (B1 & _ & B2). set (y := if start <? fBase s then _ else _).
  assert (fBase s <= y <= fEndAddress s) as Hy.
  { unfold y. destruct (Z.ltb_spec start (fBase s)); [lia|]. destruct (Z.leb_spec (fEndAddress s) start); [lia|]. destruct (u64 _ <? size); lia. }
  rewrite mask_pow2 by (lia || (unfold fits; lia)). pose proof (pow2_pos k ltac:(lia)) as Hp. pose proof (Z.mul_div_le y (2 ^ k) Hp).
  assert (1 <= y / 2 ^ k) by (apply Z.div_le_lower_bound; lia). split_and!; [nia|apply Z.mod_mul; lia|lia].
Qed.

(** The search finds a spot or says that there is none. *)
Lemma find_range_ok spec address :
  0 <= address < 2 ^ 64 → (spec = B_EXACT_ADDRESS → address + size <= 2 ^ 64) → (spec ≠ B_EXACT_ADDRESS → is_base_address_spec spec = false → 0 < address) →
  (spec = B_RANDOMIZED_BASE_ADDRESS → fRandomizingEnabled s = true → base_start size (2 ^ k) address s + size <= fEndAddress s) →
  ∃ o, _FindFreeRange size (2 ^ k) allow random0 random address spec s = Ret o ∧
    ∀ r a, o = Some (r, a) → fits_in r a ∧ if decide (spec = B_EXACT_ADDRESS) then a = address else a mod 2 ^ k = 0.
Proof.
  intros Ha Hex Hpos Hrb. unfold _FindFreeRange. destruct (decide (spec = B_EXACT_ADDRESS)) as [->|Hne].
  - rewrite bool_decide_eq_false_2, andb_false_r by done. cbn [mbind outcome_bind]. destruct (find_exact_ok address) as (o & E & H & _); [lia|by apply Hex|]. exists o. split; [exact E|done].
  - set (start := if is_base_address_spec spec then _ else _).
    assert (0 < start) as Hst by (unfold start; destruct (is_base_address_spec spec) eqn:Eb; [by apply base_start_ok|by apply Hpos]).
    assert (∃ y, (if fRandomizingEnabled s && bool_decide (spec = B_RANDOMIZED_BASE_ADDRESS) then _RandomizeAddress start (u64 (fEndAddress s - size)) (2 ^ k) true random0 else Ret start) = Ret y ∧ 0 < y) as (y & -> & Hy).
    { destruct (fRandomizingEnabled s && bool_decide (spec = B_RANDOMIZED_BASE_ADDRESS)) eqn:E; [|by exists start]. apply andb_prop in E as [E ->%bool_decide_eq_true].
      specialize (Hrb eq_refl E). destruct (base_start_ok address Ha) as (S1 & S2 & S3). destruct (sr_base _ _ Hs) as (_ & _ & B2). unfold start. cbn [is_base_address_spec].
      change (is_base_address_spec B_RANDOMIZED_BASE_ADDRESS) with true. cbn iota. unfold PAGE_SIZE in *. rewrite (wrap_small 64 (fEndAddress s - size)) by (unfold fits; lia).
      destruct (randomize_ok (base_start size (2 ^ k) address s) (fEndAddress s - size) k true random0) as (y & -> & Hy & _); [lia|lia|lia|done|done|]. exists y. split; [done|lia]. }
    cbn [mbind outcome_bind]. destruct (find_rounds_ok 3 start spec y Hne Hy Hst) as (o & E & H); [destruct (bool_decide _), (y =? start); lia|]. by exists o.
Qed.

Lemma log2_double_minus n : 1 < n → Z.log2 (2 * n - 1) = Z.log2_up n.
Proof using. clear. intros H. rewrite Z.log2_up_eqn by done. replace (2 * n - 1) with (2 * Z.pred n + 1) by lia. apply Z.log2_succ_double. lia. Qed.

(** A search for any page address succeeds if some free range is as large as
    the next power of two. *)
Lemma find_any_found spec r R : k = 12 → size < 2 ^ 63 → spec = B_ANY_ADDRESS ∨ spec = B_ANY_KERNEL_ADDRESS ∨ spec = B_RANDOMIZED_ANY_ADDRESS →
  ranges s !! r = Some R → is_free R = true → 2 ^ Z.log2_up size <= r_size R →
  ∃ x, _FindFreeRange size (2 ^ k) allow random0 random (fBase s) spec s = Ret (Some x).
Proof.
  intros Ek Hsz Hsp HR Hf Hlarge. destruct (sr_base _ _ Hs) as (B1 & _ & B2). unfold PAGE_SIZE in *.
  assert (Z.shiftr (u64 (u64 (size * 2) - 1)) PAGE_SHIFT = Z.shiftr (2 * size - 1) 12) as Eidx.
  { rewrite (wrap_small 64 (size * 2)) by (unfold fits; lia). rewrite wrap_small by (unfold fits; lia). f_equal. lia. }
  set (ls := drop (Z.to_nat (ld (Z.shiftr (u64 (u64 (size * 2) - 1)) PAGE_SHIFT))) (fFreeLists s)).
  destruct (scan_lists_ok spec (fBase s) ls B1) as (o & Eo & Ho & Hn); [apply subseteq_drop|].
  assert (o ≠ None) as Hsome.
  { intros ->. pose proof (stored_range L s r R Hs HR) as [R1 R2 R3 [_ R4] R5]. destruct (sr_rep _ _ Hs) as [_ Hfi].
    rewrite <- (fi_length _ _ _ Hfi) in R5. destruct (lookup_lt_is_Some_2 _ _ R5) as [l Hl].
    assert (is_valid_spot (fBase s) (roundup2 (r_base R) (2 ^ k)) size (r_base R + r_size R - 1) = false) as Hv.
    { apply (Hn eq_refl l r R); [|by apply (free_list_in _ _ _ Hl); exists R|done]. apply list_elem_of_lookup.
      assert (0 < Z.shiftr (2 * size - 1) 12) as Hpos by (rewrite Z.shiftr_div_pow2 by lia; apply Z.div_str_pos; lia).
      exists (slot (r_size R) - Z.to_nat (ld (Z.shiftr (2 * size - 1) 12)))%nat. unfold ls. rewrite Eidx, lookup_drop.
      assert (Z.to_nat (ld (Z.shiftr (2 * size - 1) 12)) <= slot (r_size R))%nat as Hle; [|by rewrite Nat.add_sub_assoc, Nat.add_comm, Nat.add_sub].
      unfold slot, PAGE_SHIFT. unfold PAGE_SIZE in *. rewrite !ld_log2 by lia. rewrite Z.log2_shiftr, log2_double_minus by lia.
      assert (Z.log2_up size <= Z.log2 (r_size R)) by (apply Z.log2_le_pow2; lia). lia. }
    pose proof (Z.log2_log2_up_spec size ltac:(lia)). rewrite Ek in Hv. unfold PAGE_SIZE in *. assert (roundup2 (r_base R) (2 ^ 12) = r_base R) as Er.
    { destruct R4 as [q E]. rewrite E. destruct (roundup2_spec (q * 4096) 12) as [? Hm]; [lia|lia|change (2 ^ 12) with 4096; lia|]. change (2 ^ 12) with 4096 in *.
      apply Z.mod_divide in Hm as [q' Hq]; [|lia]. lia. }
    rewrite Er in Hv. unfold is_valid_spot in Hv. rewrite (wrap_small 64 (size - 1)) in Hv by (unfold fits; lia). rewrite wrap_small in Hv by (unfold fits; lia).
    rewrite !andb_false_iff in Hv. destruct Hv as [[Hv%Z.leb_gt|Hv%Z.ltb_ge]|Hv%Z.leb_gt]; lia. }
  destruct o as [x|]; [|done]. exists x. unfold _FindFreeRange. fold ls in Eo.
  destruct Hsp as [->|[->| ->]]; (rewrite bool_decide_eq_false_2 by done); rewrite andb_false_r; cbn -[scan_lists Z.pow drop ld Z.shiftr wrap]; match goal with |- context [is_base_address_spec ?x] => change (is_base_address_spec x) with false end; cbn iota; fold ls; rewrite Eo; done.
Qed.
End find_proofs.

(** ** Splitting a range *)

Lemma free_sizes_insert m n X : free_sizes (<[n := X]> m) = if is_free X then <[n := r_size X]> (free_sizes m) else delete n (free_sizes m).
Proof. unfold free_sizes. rewrite omap_insert. by destruct (is_free X). Qed.

Lemma free_sizes_new m n X : m !! n = None → free_sizes (<[n := X]> m) = if is_free X then <[n := r_size X]> (free_sizes m) else free_sizes m.
Proof. intros Hn. rewrite free_sizes_insert. destruct (is_free X); [done|]. apply delete_id. unfold free_sizes. by rewrite lookup_omap, Hn. Qed.

Lemma is_free_type X Y : r_type X = r_type Y → is_free X = is_free Y.
Proof. intros E. unfold is_free. by rewrite E. Qed.

Section space_proofs.
Context {DL : DLList Z} {RT : RangeTree}.
Implicit Types (s : kspace) (r n : Z) (R : Range) (L : list (Z * Range)).

Lemma fresh_out L s n : space_rep L s → ranges s !! n = None → n ∉ L.*1.
Proof. intros H Hn ([y X] & -> & Hx)%list_elem_of_fmap. pose proof (li_ranges _ _ (proj1 (sr_rep _ _ H)) y X Hx). cbn in Hn. congruence. Qed.

Lemma neighbours_sorted L1 r R L2 s : space_rep (L1 ++ (r, R) :: L2) s →
  (∀ x, x ∈ L1 → r_base x.2 + r_size x.2 <= r_base R ∧ 0 < r_size x.2) ∧ (∀ x, x ∈ L2 → r_base R + r_size R <= r_base x.2) ∧ 0 < r_size R.
Proof.
  intros H. pose proof (sr_tiles _ _ H) as Ht. rewrite fmap_app in Ht. cbn in Ht. apply tiles_app in Ht as (m & H1 & (Hb & Hsz & _ & H2)). split_and!; [| |done].
  - intros [x X] Hx. assert (X ∈ L1.*2) as HX by (apply list_elem_of_fmap; by exists (x, X)). destruct (tiles_in _ _ _ _ H1 HX) as (_ & ? & ? & _). cbn. lia.
  - intros [x X] Hx. assert (X ∈ L2.*2) as HX by (apply list_elem_of_fmap; by exists (x, X)). destruct (tiles_in _ _ _ _ H2 HX) as (? & _). cbn. lia.
Qed.

(** Range [r] is cut to [addr], [size]; what is left of it are new ranges. *)
Definition cut L1 r R L2 (addr size : Z) s s' : Prop := ∃ Ll Lr,
  rep (nlists s) (L1 ++ Ll ++ (r, mkRange addr size (r_type R)) :: Lr ++ L2) (free_sizes (<[r := R]> (ranges s'))) s' ∧
  tiles (r_base R) Ll.*2 addr ∧ tiles (addr + size) Lr.*2 (r_base R + r_size R) ∧ (length Ll <= 1)%nat ∧ (length Lr <= 1)%nat ∧
  (∀ n X, (n, X) ∈ Ll ++ Lr → r_type X = r_type R) ∧
  (∀ n X, ranges s' !! n = Some X → n = r ∨ (n, X) ∈ Ll ++ Lr ∨ ranges s !! n = Some X) ∧ fixed s' = fixed s.

Section split.
Context (L1 L2 : list (Z * Range)) (r : Z) (R : Range) (s : kspace) (Hs : space_rep (L1 ++ (r, R) :: L2) s) (addr size : Z).
Context (Ha : r_base R <= addr) (He : addr + size <= r_base R + r_size R) (Hsz : 0 < size) (Hpa : (PAGE_SIZE | addr)) (Hps : (PAGE_SIZE | size)).
#[local] Set Default Proof Using "Type*".

#[local] Abbreviation R' := (mkRange addr size (r_type R)).

Lemma split_range : ranges s !! r = Some R ∧ range_ok s R.
Proof using Hs.
  destruct (listed_split _ _ _ _ _ (proj1 (sr_rep _ _ Hs))) as (_ & _ & _ & HR). split; [done|]. by apply (stored_range _ s r R Hs).
Qed.

Lemma piece_fits b m ty : r_base R <= b → b + m <= r_base R + r_size R → 0 < m → (PAGE_SIZE | m) →
  is_free (mkRange b m ty) = true → PAGE_SIZE <= m ∧ (slot m < nlists s)%nat.
Proof.
  intros H1 H2 H3 H4 _. destruct split_range as [_ [B1 B2 B3 _ _]]. pose proof (page_positive _ H3 H4). split; [done|]. unfold nlists. apply Nat.lt_succ_r, slot_mono. lia.
Qed.

(** A new piece goes between the ranges before and after it. *)
Lemma add_piece La Lb n X F s0 : rep (nlists s) (La ++ Lb) F s0 → ranges s0 !! n = Some X → n ∉ (La ++ Lb).*1 → F !! n = None →
  (∀ x, x ∈ La → r_base x.2 < r_base X) → (∀ x, x ∈ Lb → r_base X < r_base x.2) →
  r_base R <= r_base X → r_base X + r_size X <= r_base R + r_size R → 0 < r_size X → (PAGE_SIZE | r_size X) →
  ∃ s', _InsertRange n s0 = Ret s' ∧ rep (nlists s) (La ++ (n, X) :: Lb) (if is_free X then <[n := r_size X]> F else F) s' ∧ ranges s' = ranges s0 ∧ fixed s' = fixed s0.
Proof.
  intros H HX Hn HF H1 H2 B1 B2 B3 B4. apply InsertRange_ok; try done. intros Hf. destruct X as [b m ty]. destruct (piece_fits b m ty B1 B2 B3 B4 Hf). done.
Qed.

(** The range itself gets its new bounds. *)
Lemma shrink_range F s0 f : rep (nlists s) (L1 ++ (r, R) :: L2) F s0 → f R = R' → rep (nlists s) (L1 ++ (r, R') :: L2) F (upd_range r f s0) ∧ ranges (upd_range r f s0) = <[r := R']> (ranges s0).
Proof.
  intros H E. destruct (neighbours_sorted _ _ _ _ _ Hs) as (N1 & N2 & N3). assert (r_base (f R) = addr) as Eb by (by rewrite E). rewrite <- E.
  apply upd_range_ok; [done| |]; intros x Hx; rewrite Eb; [specialize (N1 x Hx)|specialize (N2 x Hx)]; lia.
Qed.

Lemma free_sizes_same m : m !! r = Some R → free_sizes (<[r := R]> (<[r := R']> m)) = free_sizes m.
Proof. intros H. by rewrite insert_insert_eq, insert_id. Qed.

Lemma cut_whole : addr = r_base R → size = r_size R → cut L1 r R L2 addr size s s.
Proof.
  intros E1 E2. destruct split_range as [HR _]. exists [], []. cbn. assert (R' = R) as -> by (rewrite E1, E2; by destruct R).
  rewrite insert_id by done. split_and!; try lia; [apply (sr_rep _ _ Hs)|by intros ? ? ?%elem_of_nil|by right; right|done].
Qed.

(** At the beginning of the range. *)
Lemma cut_begin n f : f R = R' → addr = r_base R → size < r_size R → ranges s !! n = None →
  ∃ s', _InsertRange n (upd_range r f (new_range n (mkRange (u64 (addr + size)) (u64 (r_size R - size)) (r_type R)) s)) = Ret s' ∧
    cut L1 r R L2 addr size s s'.
Proof.
  intros Ef Eb Hlt Hn. destruct split_range as [HR [B1 B2 B3 [B4 B5] B6]]. destruct (sr_base _ _ Hs) as (P1 & _ & P2). destruct (neighbours_sorted _ _ _ _ _ Hs) as (N1 & N2 & N3).
  rewrite (wrap_small 64 (addr + size)), (wrap_small 64 (r_size R - size)) by (unfold fits; lia). set (X := mkRange _ _ _). set (s1 := new_range n X s).
  pose proof (fresh_out _ _ n Hs Hn) as Hout.
  destruct (shrink_range (free_sizes (ranges s)) s1 f) as [H2 E2]; [apply new_range_ok; [apply (sr_rep _ _ Hs)|done]|done|]. set (s2 := upd_range r _ s1) in *.
  assert (n ≠ r) as Hnr by (intros ->; congruence).
  assert (ranges s2 = <[r := R']> (<[n := X]> (ranges s))) as E3 by done.
  destruct (add_piece (L1 ++ [(r, R')]) L2 n X (free_sizes (ranges s)) s2) as (s' & E & H4 & E4 & F4).
  - by rewrite <- app_assoc.
  - by rewrite E3, lookup_insert_ne, lookup_insert_eq.
  - rewrite !fmap_app in *. cbn in *. by rewrite <- app_assoc.
  - unfold free_sizes. by rewrite lookup_omap, Hn.
  - intros x [Hx| ->%list_elem_of_singleton]%elem_of_app; cbn; [specialize (N1 x Hx)|]; lia.
  - intros x Hx. specialize (N2 x Hx). cbn. lia.
  - cbn. lia.
  - cbn. lia.
  - cbn. lia.
  - cbn. by apply Z.divide_sub_r.
  - exists s'. split; [done|]. exists [], [(n, X)]. rewrite E4, E3, free_sizes_same, free_sizes_new by (done || by rewrite lookup_insert_ne). rewrite <- app_assoc in H4.
    split_and!; try done; cbn; try lia.
    + split_and!; [done|lia|by apply Z.divide_sub_r|lia].
    + by intros x Y [= -> ->]%list_elem_of_singleton.
    + intros x Y [[<- <-]|[_ HY]]%lookup_insert_Some; [by left|]. apply lookup_insert_Some in HY as [[<- <-]|[_ HY]]; [right; left; left|by right; right].
Qed.

(** At its end. *)
Lemma cut_end n f : f R = R' → r_base R < addr → addr + size = r_base R + r_size R → ranges s !! n = None →
  ∃ s', _InsertRange n (upd_range r f (new_range n (mkRange (r_base R) (u64 (r_size R - size)) (r_type R)) s)) = Ret s' ∧
    cut L1 r R L2 addr size s s'.
Proof.
  intros Ef Hlt Ee Hn. destruct split_range as [HR [B1 B2 B3 [B4 B5] B6]]. destruct (sr_base _ _ Hs) as (P1 & _ & P2). destruct (neighbours_sorted _ _ _ _ _ Hs) as (N1 & N2 & N3).
  rewrite (wrap_small 64 (r_size R - size)) by (unfold fits; lia). set (X := mkRange _ _ _). set (s1 := new_range n X s).
  pose proof (fresh_out _ _ n Hs Hn) as Hout.
  destruct (shrink_range (free_sizes (ranges s)) s1 f) as [H2 E2]; [apply new_range_ok; [apply (sr_rep _ _ Hs)|done]|done|]. set (s2 := upd_range r _ s1) in *.
  assert (n ≠ r) as Hnr by (intros ->; congruence).
  assert (ranges s2 = <[r := R']> (<[n := X]> (ranges s))) as E3 by done.
  destruct (add_piece L1 ((r, R') :: L2) n X (free_sizes (ranges s)) s2) as (s' & E & H4 & E4 & F4).
  - done.
  - by rewrite E3, lookup_insert_ne, lookup_insert_eq.
  - by rewrite fmap_app in *.
  - unfold free_sizes. by rewrite lookup_omap, Hn.
  - intros x Hx. specialize (N1 x Hx). cbn. lia.
  - intros x [->|Hx]%elem_of_cons; cbn; [|specialize (N2 x Hx)]; lia.
  - cbn. lia.
  - cbn. lia.
  - cbn. lia.
  - cbn. by apply Z.divide_sub_r.
  - exists s'. split; [done|]. exists [(n, X)], []. rewrite E4, E3, free_sizes_same, free_sizes_new by (done || by rewrite lookup_insert_ne). split_and!; try done; cbn; try lia.
    + split_and!; [done|lia|by apply Z.divide_sub_r|lia].
    + by intros x Y [= -> ->]%list_elem_of_singleton.
    + intros x Y [[<- <-]|[_ HY]]%lookup_insert_Some; [by left|]. apply lookup_insert_Some in HY as [[<- <-]|[_ HY]]; [right; left; left|by right; right].
Qed.

(** In the middle. *)
Lemma cut_mid n1 n2 f : f R = R' → r_base R < addr → addr + size < r_base R + r_size R → ranges s !! n1 = None → ranges s !! n2 = None → n1 ≠ n2 →
  ∃ s', (s0 ← _InsertRange n1 (upd_range r f (new_range n2 (mkRange (u64 (addr + size)) (u64 (u64 (r_size R - size) - u64 (addr - r_base R))) (r_type R))
                                 (new_range n1 (mkRange (r_base R) (u64 (addr - r_base R)) (r_type R)) s)));
         _InsertRange n2 s0) = Ret s' ∧ cut L1 r R L2 addr size s s'.
Proof.
  intros Ef Hlt Hgt Hn1 Hn2 Hne. destruct split_range as [HR [B1 B2 B3 [B4 B5] B6]]. destruct (sr_base _ _ Hs) as (P1 & _ & P2).
  destruct (neighbours_sorted _ _ _ _ _ Hs) as (N1 & N2 & N3).
  rewrite (wrap_small 64 (addr + size)), (wrap_small 64 (addr - r_base R)), (wrap_small 64 (r_size R - size)) by (unfold fits; lia). rewrite wrap_small by (unfold fits; lia).
  set (X1 := mkRange (r_base R) _ _). set (X2 := mkRange (addr + size) _ _). pose proof (fresh_out _ _ n1 Hs Hn1) as Hout1. pose proof (fresh_out _ _ n2 Hs Hn2) as Hout2.
  assert (n1 ≠ r ∧ n2 ≠ r) as [Hr1 Hr2] by (split; intros ->; congruence). rewrite fmap_app in Hout1, Hout2. cbn in Hout1, Hout2.
  destruct (shrink_range (free_sizes (ranges s)) (new_range n2 X2 (new_range n1 X1 s)) f) as [H2 E2]; [|done|].
  { apply new_range_ok; [apply new_range_ok; [apply (sr_rep _ _ Hs)|]|]; by rewrite fmap_app. }
  set (s2 := upd_range r f _) in *. change (ranges (new_range n2 X2 (new_range n1 X1 s))) with (<[n2 := X2]> (<[n1 := X1]> (ranges s))) in E2.
  assert (F0 : ∀ n, ranges s !! n = None → free_sizes (ranges s) !! n = None) by (intros n Hn; unfold free_sizes; by rewrite lookup_omap, Hn).
  destruct (add_piece L1 ((r, R') :: L2) n1 X1 (free_sizes (ranges s)) s2) as (s3 & E3 & H3 & Er3 & Ef3); try (by apply F0); try (cbn; lia); try done.
  { rewrite E2. by rewrite !lookup_insert_ne, lookup_insert_eq by congruence. } { by rewrite fmap_app. }
  { intros x Hx. specialize (N1 x Hx). cbn. lia. } { intros x [->|Hx]%elem_of_cons; cbn; [|specialize (N2 x Hx)]; lia. } { cbn. by apply Z.divide_sub_r. }
  rewrite E3. cbn [mbind outcome_bind].
  assert (Es : L1 ++ (n1, X1) :: (r, R') :: L2 = (L1 ++ [(n1, X1); (r, R')]) ++ L2) by (by rewrite <- app_assoc).
  rewrite Es in H3.
  destruct (add_piece (L1 ++ [(n1, X1); (r, R')]) L2 n2 X2 _ s3 H3) as (s' & E4 & H4 & Er4 & Ef4); try (cbn; lia).
  { rewrite Er3, E2. by rewrite lookup_insert_ne, lookup_insert_eq by congruence. }
  { rewrite !fmap_app, <- app_assoc. cbn. rewrite elem_of_app, !elem_of_cons in *. pose proof (not_eq_sym Hne). tauto. }
  { destruct (is_free X1); [rewrite lookup_insert_ne by congruence|]; by apply F0. }
  { intros x Hx. rewrite elem_of_app, elem_of_cons, list_elem_of_singleton in Hx. destruct Hx as [Hx|[->| ->]]; cbn; [specialize (N1 x Hx)|..]; lia. }
  { intros x Hx. specialize (N2 x Hx). cbn. lia. }
  { cbn. apply Z.divide_sub_r; by apply Z.divide_sub_r. }
  exists s'. split; [done|]. exists [(n1, X1)], [(n2, X2)]. rewrite Er4, Er3, E2, free_sizes_same by (by rewrite !lookup_insert_ne by congruence).
  rewrite !free_sizes_new by (done || by rewrite lookup_insert_ne). split_and!; cbn; try lia; try done.
  - rewrite <- app_assoc in H4. exact H4.
  - split_and!; try done; [lia|by apply Z.divide_sub_r|lia].
  - split_and!; try done; [lia|apply Z.divide_sub_r; by apply Z.divide_sub_r|lia].
  - intros x Y [[= -> ->]|[= -> ->]%list_elem_of_singleton]%elem_of_cons; done.
  - intros x Y [[<- <-]|[_ [[<- <-]|[_ [[<- <-]|[_ HY]]%lookup_insert_Some]]%lookup_insert_Some]]%lookup_insert_Some;
      [by left|right; left; right; left|right; left; left|by right; right].
  - by rewrite Ef4, Ef3.
Qed.

Lemma split_ok new1 new2 : (∀ n, new1 = Some n → ranges s !! n = None) → (∀ n, new2 = Some n → ranges s !! n = None) → (new1 = new2 → new1 = None) →
  ∃ o, carve r addr size new1 new2 s = Ret o ∧ ∀ s', o = Some s' → cut L1 r R L2 addr size s s'.
Proof.
  intros Hn1 Hn2 Hne. destruct split_range as [HR [B1 B2 B3 [B4 B5] B6]]. destruct (sr_base _ _ Hs) as (P1 & _ & P2). unfold carve. rewrite HR. cbn [deref mbind outcome_bind].
  assert (∀ o : outcome kspace, (∃ s', o = Ret s' ∧ cut L1 r R L2 addr size s s') →
    ∃ o', (s0 ← o; Ret (Some s0)) = Ret o' ∧ ∀ s', o' = Some s' → cut L1 r R L2 addr size s s') as Hlift.
  { intros o (s' & -> & Hc). exists (Some s'). split; [done|]. by intros ? [= <-]. }
  assert (∃ o', Ret (A := option kspace) None = Ret o' ∧ ∀ s', o' = Some s' → cut L1 r R L2 addr size s s') as Hnone by (by exists None).
  destruct (Z.eqb_spec addr (r_base R)) as [Eb|Eb].
  - destruct (Z.ltb_spec size (r_size R)) as [Hlt|Hge].
    + destruct new1 as [n|]; [|done]. apply Hlift, cut_begin; [rewrite Eb; by destruct R|done|done|by apply Hn1].
    + exists (Some s). split; [done|]. intros s' [= <-]. apply cut_whole; [done|lia].
  - assert (u64 (addr + size) = u64 (r_base R + r_size R) ↔ addr + size = r_base R + r_size R) as Hiff.
    { split; [|by intros ->]. assert (∀ z, 0 < z <= 2 ^ 64 → u64 z = if z =? 2 ^ 64 then 0 else z) as Hu.
      { intros z Hz. destruct (Z.eqb_spec z (2 ^ 64)) as [->|]; [done|]. apply wrap_small. unfold fits. lia. }
      rewrite !Hu by lia. destruct (Z.eqb_spec (addr + size) (2 ^ 64)), (Z.eqb_spec (r_base R + r_size R) (2 ^ 64)); lia. }
    destruct (Z.eqb_spec (u64 (addr + size)) (u64 (r_base R + r_size R))) as [Ee|Ee].
    + destruct new1 as [n|]; [|done]. apply Hlift, cut_end; [by destruct R|lia|by apply Hiff|by apply Hn1].
    + destruct new1 as [n1|]; [|done]. destruct new2 as [n2|]; [|done].
      destruct (cut_mid n1 n2 (fun R => mkRange addr size (r_type R))) as (s' & E & Hc); [done|lia|lia|by apply Hn1|by apply Hn2|by intros [= ->]%(f_equal Some)%Hne|].
      exists (Some s'). split; [|by intros ? [= <-]]. revert E. destruct (_InsertRange n1 _); cbn [mbind outcome_bind]; [|done..]. intros ->. done.
Qed.
End split.

(** ** Claiming a piece of a range *)

Lemma owner_const lo l hi ty x : tiles lo l hi → (∀ R, R ∈ l → r_type R = ty) → lo <= x < hi → owner l x = Some ty.
Proof. intros Ht Hty Hx. destruct (tiles_cover _ _ _ _ Ht Hx) as (l1 & R & l2 & -> & HR). rewrite (owner_in _ _ _ _ _ _ Ht HR), Hty; [done|]. apply elem_of_app. right. left. Qed.

Lemma joined_swap l1 X R l2 : is_free X = is_free R → joined (l1 ++ R :: l2) → joined (l1 ++ [X]) ∧ joined (X :: l2).
Proof.
  intros E H. split.
  - replace (l1 ++ R :: l2) with ((l1 ++ [R]) ++ l2) in H by (by rewrite <- app_assoc). apply joined_parts in H as [H _]. clear l2.
    induction l1 as [|Q l1 IH]; [done|]. destruct H as [H1 H2]. split; [|by apply IH]. destruct l1; cbn in *; [by rewrite E|done].
  - apply joined_parts in H as [_ [H1 H2]]. split; [|done]. destruct l2; [done|]. by rewrite E.
Qed.

Lemma upd_same_base k L1 L2 F r R f s : rep k (L1 ++ (r, R) :: L2) F s → r_base (f R) = r_base R →
  rep k (L1 ++ (r, f R) :: L2) F (upd_range r f s) ∧ ranges (upd_range r f s) = <[r := f R]> (ranges s).
Proof.
  intros H Hb. pose proof (li_sorted _ _ (proj1 H)) as Hso. apply sorted_app_inv in Hso as (_ & [_ S2]%StronglySorted_inv & S3). rewrite Forall_forall in S2.
  apply upd_range_ok; [done| |]; intros x Hx; rewrite Hb; [apply (S3 x (r, R) Hx); left|by apply (S2 x Hx)].
Qed.

(** The state after [_AllocateRange] and the type has been set. *)
Record claimed (r addr size : Z) (t : range_type) s s' : Prop := {
  cl_rep : ∃ L, space_rep L s';
  cl_use : ∀ x, use s' x = if (addr <=? x) && (x <? addr + size) then Some t else use s x;
  cl_range : ranges s' !! r = Some (mkRange addr size t);
  cl_others : ∀ n X a, ranges s' !! n = Some X → r_type X = RANGE_AREA a → n ≠ r → ranges s !! n = Some X
}.

Lemma fixed_fields s s' : fixed s' = fixed s → fBase s' = fBase s ∧ fEndAddress s' = fEndAddress s ∧ kareas s' = kareas s ∧ fFreeSpace s' = fFreeSpace s ∧ fDeleting s' = fDeleting s ∧ fRandomizingEnabled s' = fRandomizingEnabled s ∧ nlists s' = nlists s.
Proof. unfold fixed, nlists. intros [= -> -> -> _ _ -> -> ->]. done. Qed.

Lemma cut_claim L1 r R L2 addr size t f s s' :
  space_rep (L1 ++ (r, R) :: L2) s → 0 < size → (PAGE_SIZE | size) → is_area R = false → cut L1 r R L2 addr size s s' → t ≠ RANGE_FREE →
  (∀ ty, f (mkRange addr size ty) = mkRange addr size t) →
  ∃ s1, (if is_free R then _FreeListRemoveRange r (r_size R) s' else Ret s') = Ret s1 ∧ fixed s1 = fixed s ∧ ranges s1 !! r = Some (mkRange addr size (r_type R)) ∧
    claimed r addr size t s (upd_range r f (IncrementChangeCount s1)).
Proof.
  intros Hs Hsz Hps Hna (Ll & Lr & Hrep & Tl & Tr & Nl & Nr & Hty & Hrg & Hfx) Ht Hf. destruct (split_range _ _ _ _ _ Hs) as [HR Hro]. set (R1 := mkRange addr size (r_type R)) in *.
  set (m := ranges s') in *. pose proof (fixed_fields _ _ Hfx) as (X1 & X2 & X3 & _ & _ & _ & X4).
  assert (∃ s1, (if is_free R then _FreeListRemoveRange r (r_size R) s' else Ret s') = Ret s1 ∧
    rep (nlists s) (L1 ++ Ll ++ (r, R1) :: Lr ++ L2) (delete r (free_sizes m)) s1 ∧ ranges s1 = m ∧ fixed s1 = fixed s) as (s1 & E1 & Hrep1 & Em & Hfx1).
  { rewrite free_sizes_insert in Hrep. destruct (is_free R) eqn:Efr; [|by exists s'].
    destruct (FreeListRemove_ok (nlists s) (<[r := r_size R]> (free_sizes m)) s' r (r_size R)) as (s1 & E & Hfi & Es); [apply Hrep|apply Hro|apply Hro|apply lookup_insert_eq|].
    exists s1. rewrite delete_insert_eq in Hfi. split_and!; [done| |by rewrite Es|by rewrite Es]. split; [|done]. destruct Hrep as [[? ? ? ? ?] _]. rewrite Es. by split. }
  exists s1. split; [done|]. split; [done|]. assert (ranges s1 !! r = Some R1) as Hr1.
  { apply (li_ranges _ _ (proj1 Hrep1)). rewrite !elem_of_app, elem_of_cons. tauto. }
  split; [done|]. rewrite app_assoc in Hrep1. destruct (upd_same_base _ _ _ _ _ _ f _ Hrep1) as [Hrep2 Er2]; [unfold R1; by rewrite Hf|]. rewrite Em in *.
  assert (f R1 = mkRange addr size t) as Ef by (unfold R1; apply Hf). rewrite Ef in Hrep2, Er2. set (Rt := mkRange addr size t) in *. set (s2 := upd_range r f (IncrementChangeCount s1)).
  change (ranges (upd_range r f s1)) with (ranges s2) in Er2. assert (is_free Rt = false) as Hnf by (by apply bool_decide_eq_false_2).
  pose proof (fixed_fields _ _ Hfx1) as (Y1 & Y2 & Y3 & _ & _ & _ & Y4).
  assert (Hty' : ∀ X, X ∈ Ll.*2 ++ Lr.*2 → r_type X = r_type R).
  { intros X HX. rewrite <- fmap_app in HX. apply list_elem_of_fmap in HX as ([n Y] & -> & Hn). by apply (Hty n). }
  pose proof (sr_tiles _ _ Hs) as Ti. rewrite fmap_app in Ti. cbn in Ti. apply tiles_app in Ti as (b & T1 & (Eb & Hpos & Hpg & T2)). subst b.
  assert (space_rep ((L1 ++ Ll) ++ (r, Rt) :: Lr ++ L2) s2) as Hs2.
  { split; change (fBase s2) with (fBase s1); change (fEndAddress s2) with (fEndAddress s1); rewrite ?Y1, ?Y2.
    - apply (sr_base _ _ Hs).
    - change (nlists s2) with (nlists s1). rewrite Y4, Er2, free_sizes_insert, Hnf. destruct Hrep2 as [[? ? ? ? ?] [? ?]]. by split; split.
    - intros n X. rewrite Er2. intros [[<- <-]|[Hne HX]]%lookup_insert_Some; [rewrite !elem_of_app, elem_of_cons; tauto|].
      destruct (Hrg n X HX) as [->|[Hin|Hin]]; [done| |].
      + rewrite !elem_of_app, elem_of_cons, elem_of_app in *. tauto.
      + apply (sr_all _ _ Hs) in Hin. rewrite !elem_of_app, !elem_of_cons, elem_of_app in *. destruct Hin as [?|[[= -> ->]|?]]; [tauto|done|tauto].
    - rewrite !fmap_app. cbn. rewrite !fmap_app. apply tiles_app. exists addr. split; [apply tiles_app; eauto|]. cbn. split_and!; try done. apply tiles_app. eauto.
    - rewrite !fmap_app. cbn. rewrite !fmap_app. pose proof (sr_joined _ _ Hs) as Hj. rewrite fmap_app in Hj. cbn in Hj. apply joined_mid; [done|]. split.
      + destruct Ll as [|[n X] [|]]; cbn in *; [rewrite app_nil_r; by apply joined_parts in Hj as [? _]| |lia].
        apply (joined_swap _ X R L2.*2); [|done]. apply is_free_type, Hty'. left.
      + destruct Lr as [|[n X] [|]]; cbn [fmap list_fmap app]; [by apply joined_parts in Hj as [_ [_ ?]]| |cbn in *; lia].
        apply (joined_swap L1.*2 X R); [|done]. apply is_free_type, Hty'. cbn. rewrite elem_of_app. right. left. }
  split.
  - by eexists.
  - intros x. rewrite (use_rep _ _ _ Hs2), (use_rep _ _ _ Hs). rewrite !fmap_app. cbn [fmap list_fmap snd]. rewrite fmap_app. cbn. rewrite <- app_assoc.
    assert (tiles (r_base R) (Ll.*2 ++ Rt :: Lr.*2) (r_base R + r_size R)) as Tm by (apply tiles_app; exists addr; split; [done|]; cbn; split_and!; done).
    replace (L1.*2 ++ Ll.*2 ++ Rt :: Lr.*2 ++ L2.*2) with (L1.*2 ++ (Ll.*2 ++ Rt :: Lr.*2) ++ L2.*2) by (by rewrite <- app_assoc).
    rewrite (owner_replace (fBase s) (r_base R) (r_base R + r_size R) (fEndAddress s + 1) L1.*2 [R] _ L2.*2); [|done|cbn; split_and!; done|done|done].
    change ([R] ++ L2.*2) with (R :: L2.*2). pose proof (tiles_le _ _ _ Tl). pose proof (tiles_le _ _ _ Tr).
    destruct (Z.leb_spec (r_base R) x), (Z.ltb_spec x (r_base R + r_size R)), (Z.leb_spec addr x), (Z.ltb_spec x (addr + size)); cbn [andb]; try lia; try done.
    + apply (owner_in (r_base R) Ll.*2 Rt Lr.*2 (r_base R + r_size R)); [done|cbn; lia].
    + rewrite (owner_app (r_base R) Ll.*2 addr) by done. destruct (Z.ltb_spec x addr); [lia|]. rewrite andb_false_r. cbn.
      destruct (Z.leb_spec addr x), (Z.ltb_spec x (addr + size)); cbn [andb]; try lia.
      rewrite (owner_const _ _ _ (r_type R) x Tr) by (lia || intros X HX; apply Hty', elem_of_app; by right).
      symmetry. apply (owner_in (fBase s) L1.*2 R L2.*2 (fEndAddress s + 1)); [|lia]. pose proof (sr_tiles _ _ Hs) as Ti. by rewrite fmap_app in Ti.
    + rewrite (owner_app (r_base R) Ll.*2 addr) by done. destruct (Z.leb_spec (r_base R) x), (Z.ltb_spec x addr); cbn [andb]; try lia.
      rewrite (owner_const _ _ _ (r_type R) x Tl) by (lia || intros X HX; apply Hty', elem_of_app; by left).
      symmetry. apply (owner_in (fBase s) L1.*2 R L2.*2 (fEndAddress s + 1)); [|lia]. pose proof (sr_tiles _ _ Hs) as Ti. by rewrite fmap_app in Ti.
  - rewrite Er2. apply lookup_insert_eq.
  - intros n X a HX Hta Hne. rewrite Er2, lookup_insert_ne in HX by congruence. destruct (Hrg n X HX) as [->|[Hin|Hin]]; [done| |done]. exfalso.
    rewrite (Hty n X Hin) in Hta. unfold is_area in Hna. by rewrite Hta in Hna.
Qed.

(** ** Allocation *)

Lemma grow_block_ok fuel k h size : 0 <= k <= 63 → 0 <= h <= 63 → h - k <= Z.of_nat fuel →
  ∃ k', grow_block_alignment fuel (2 ^ k) size (2 ^ h) = Ret (2 ^ k') ∧ k <= k' <= Z.max k h.
Proof.
  revert k. induction fuel as [|fuel IH]; intros k Hk Hh Hf; cbn [grow_block_alignment].
  - destruct (Z.ltb_spec (2 ^ k) (2 ^ h)) as [Hlt%Z.pow_lt_mono_r_iff|]; [lia|lia|lia|]. rewrite andb_false_r. exists k. split; [done|lia].
  - destruct (Z.ltb_spec (2 ^ k) size); cbn [andb]; [|exists k; split; [done|lia]]. destruct (Z.ltb_spec (2 ^ k) (2 ^ h)) as [Hlt%Z.pow_lt_mono_r_iff|]; [|lia|lia|exists k; split; [done|lia]].
    rewrite Z.shiftl_mul_pow2, <- Z.pow_add_r by lia. assert (2 ^ (k + 1) <= 2 ^ 63) by (apply Z.pow_le_mono_r; lia). pose proof (pow2_pos (k + 1) ltac:(lia)).
    rewrite wrap_small by (unfold fits; lia). destruct (IH (k + 1)) as (k' & -> & ?); [lia|lia|lia|]. exists k'. split; [done|lia].
Qed.

(** A request the code is made for: sizes and addresses of the machine, an
    alignment of whole pages not larger than the base of the address space; an
    exact range that does not wrap, a randomized one that does not start at
    the last spot. *)
Record request_ok (HardwareBlockSize : Z) (restr : restrictions) (size : Z) (k : Z) s : Prop := {
  rq_size : 0 < size <= 2 ^ 64 - PAGE_SIZE;
  rq_address : 0 <= raddress restr < 2 ^ 64;
  rq_alignment : 12 <= k <= 63 ∧ 2 ^ k <= fBase s ∧ (ralignment restr = 2 ^ k ∨ ralignment restr = 0 ∧ k = 12);
  rq_block : ∃ h, 12 <= h <= 63 ∧ 2 ^ h <= fBase s ∧ HardwareBlockSize = 2 ^ h;
  rq_exact : address_specification restr = B_EXACT_ADDRESS → raddress restr + roundup size PAGE_SIZE <= 2 ^ 64;
  rq_random : address_specification restr = B_RANDOMIZED_BASE_ADDRESS → fRandomizingEnabled s = true →
    base_start (roundup size PAGE_SIZE) (2 ^ k) (roundup2 (raddress restr) PAGE_SIZE) s + roundup size PAGE_SIZE <= fEndAddress s
}.

Lemma rounded_size size : 0 < size <= 2 ^ 64 - PAGE_SIZE → roundup2 size PAGE_SIZE = roundup size PAGE_SIZE ∧ PAGE_SIZE <= roundup size PAGE_SIZE < 2 ^ 64 ∧ (PAGE_SIZE | roundup size PAGE_SIZE).
Proof.
  intros H. change PAGE_SIZE with (2 ^ 12) in *. rewrite roundup2_pow2 by lia. pose proof (roundup_ge size (2 ^ 12) ltac:(lia)). pose proof (roundup_lt size (2 ^ 12) ltac:(lia)).
  pose proof (roundup_divide size (2 ^ 12)) as Hd. split_and!; [done| |lia|done]. apply (page_positive (roundup size (2 ^ 12))); [lia|done].
Qed.

(** The parameters of the search. *)
Lemma search_prepared HBS restr size k s L : request_ok HBS restr size k s → space_rep L s →
  ∃ o, prepare HBS restr (roundup size PAGE_SIZE) s = Ret o ∧
    (o = None → address_specification restr = B_OTHER_SPEC ∨ address_specification restr = B_EXACT_ADDRESS ∧ raddress restr mod PAGE_SIZE ≠ 0) ∧
    ∀ address al spec, o = Some (address, al, spec) → ∃ k', al = 2 ^ k' ∧ k <= k' <= 63 ∧ 2 ^ k' <= fBase s ∧ 0 <= address < 2 ^ 64 ∧
      (address_specification restr ≠ B_ANY_KERNEL_BLOCK_ADDRESS → k' = k ∧ spec = address_specification restr) ∧
      (spec = B_EXACT_ADDRESS ↔ address_specification restr = B_EXACT_ADDRESS) ∧ (spec = B_EXACT_ADDRESS → address = raddress restr ∧ (PAGE_SIZE | address)) ∧
      (spec ≠ B_EXACT_ADDRESS → is_base_address_spec spec = false → address = fBase s) ∧
      (spec = B_RANDOMIZED_BASE_ADDRESS → address = roundup2 (raddress restr) PAGE_SIZE ∧ address_specification restr = B_RANDOMIZED_BASE_ADDRESS).
Proof.
  intros [Q1 Q2 (Q3 & Q4 & Q5) (h & Q7 & Q8 & ->) Q9 _] Hs. destruct (sr_base _ _ Hs) as (B1 & _ & B2). unfold prepare.
  assert ((if ralignment restr =? 0 then PAGE_SIZE else ralignment restr) = 2 ^ k) as ->.
  { destruct Q5 as [-> |[-> ->]]; [|done]. pose proof (pow2_pos k ltac:(lia)). destruct (Z.eqb_spec (2 ^ k) 0); [lia|done]. }
  assert (0 <= roundup2 (raddress restr) PAGE_SIZE < 2 ^ 64) as Hru.
  { unfold roundup2. change PAGE_SIZE with (2 ^ 12). split; [apply Z.land_nonneg; left; apply wrap_fits; lia|]. rewrite land_lnot_ones with (k := 12) by (lia || (apply wrap_fits; lia)).
    pose proof (wrap_fits 64 (raddress restr + (2 ^ 12 - 1)) ltac:(lia)) as [_ Hw]. pose proof (Z.mul_div_le (u64 (raddress restr + (2 ^ 12 - 1))) (2 ^ 12) ltac:(lia)). lia. }
  destruct (address_specification restr) eqn:Esp.
  - destruct (Z.eqb_spec (raddress restr mod PAGE_SIZE) 0) as [E|E]; [|exists None; split; [done|]; split; [by right|done]].
    eexists; split; [reflexivity|]. split; [done|]. intros address al spec [= <- <- <-]. exists k.
    assert (PAGE_SIZE | raddress restr) by (by apply Z.mod_divide). split_and!; try done; lia.
  - eexists; split; [reflexivity|]. split; [done|]. intros address al spec [= <- <- <-]. exists k. split_and!; try done; lia.
  - eexists; split; [reflexivity|]. split; [done|]. intros address al spec [= <- <- <-]. exists k. split_and!; try done; lia.
  - eexists; split; [reflexivity|]. split; [done|]. intros address al spec [= <- <- <-]. exists k. split_and!; try done; lia.
  - destruct (grow_block_ok 64 k h (roundup size PAGE_SIZE)) as (k' & -> & Hk'); [lia|lia|lia|]. cbn [mbind outcome_bind]. eexists; split; [reflexivity|]. split; [done|].
    intros address al spec [= <- <- <-]. exists k'. split_and!; try done; try lia. destruct (Z.max_spec k h) as [[_ E]|[_ E]]; rewrite E in Hk'; etrans; [apply (Z.pow_le_mono_r 2 k' h)| |apply (Z.pow_le_mono_r 2 k' k)|]; lia.
  - eexists; split; [reflexivity|]. split; [done|]. intros address al spec [= <- <- <-]. exists k. split_and!; try done; lia.
  - eexists; split; [reflexivity|]. split; [done|]. intros address al spec [= <- <- <-]. exists k. split_and!; try done; lia.
  - eexists; split; [reflexivity|]. split; [by left|]. done.
Qed.

Definition fresh_ranges (new1 new2 : option Z) s : Prop :=
  (∀ n, new1 = Some n → ranges s !! n = None) ∧ (∀ n, new2 = Some n → ranges s !! n = None) ∧ (new1 = new2 → new1 = None).

(** Why an allocation fails. *)
Definition no_room HBS random0 random (restr : restrictions) (size : Z) (allow : bool) (new1 new2 : option Z) s : Prop :=
  new1 = None ∨ new2 = None ∨ prepare HBS restr (roundup size PAGE_SIZE) s = Ret None ∨
  ∃ address al spec, prepare HBS restr (roundup size PAGE_SIZE) s = Ret (Some (address, al, spec)) ∧
    _FindFreeRange (roundup size PAGE_SIZE) al allow random0 random address spec s = Ret None.

(** Where an allocation is placed. *)
Record placed (restr : restrictions) (k size : Z) (allow : bool) addr R s : Prop := {
  pl_inside : r_base R <= addr ∧ addr + roundup size PAGE_SIZE <= r_base R + r_size R;
  pl_type : is_free R = true ∨ allow = true ∧ is_res R = true;
  pl_exact : address_specification restr = B_EXACT_ADDRESS → addr = raddress restr;
  pl_aligned : address_specification restr ≠ B_EXACT_ADDRESS → addr mod 2 ^ k = 0;
  pl_page : (PAGE_SIZE | addr)
}.

Lemma pow2_divide j k' : 0 <= j <= k' → (2 ^ j | 2 ^ k').
Proof. intros H. exists (2 ^ (k' - j)). rewrite <- Z.pow_add_r by lia. f_equal. lia. Qed.

Lemma aligned_weaken addr j k' : 0 <= j <= k' → addr mod 2 ^ k' = 0 → addr mod 2 ^ j = 0.
Proof.
  intros H E. pose proof (pow2_pos j ltac:(lia)). pose proof (pow2_pos k' ltac:(lia)). apply Z.mod_divide in E; [|lia]. apply Z.mod_divide; [lia|].
  etrans; [by apply pow2_divide|done].
Qed.

Lemma allocate_ok L HBS new1 new2 random0 random restr size k allow s :
  space_rep L s → request_ok HBS restr size k s → fresh_ranges new1 new2 s → 0 <= random0 → 0 <= random →
  ∃ x s', _AllocateRange HBS new1 new2 random0 random restr size allow s = Ret (x, s') ∧
    match x with
    | inl e => s' = s ∧ no_room HBS random0 random restr size allow new1 new2 s
    | inr r => ∃ R addr, ranges s !! r = Some R ∧ placed restr k size allow addr R s ∧ fixed s' = fixed (IncrementChangeCount s) ∧
        ranges s' !! r = Some (mkRange addr (roundup size PAGE_SIZE) (r_type R)) ∧
        ∀ t f, t ≠ RANGE_FREE → (∀ ty, f (mkRange addr (roundup size PAGE_SIZE) ty) = mkRange addr (roundup size PAGE_SIZE) t) →
          claimed r addr (roundup size PAGE_SIZE) t s (upd_range r f s')
    end.
Proof.
  intros Hs Hq (N1 & N2 & N3) Hr0 Hr. unfold _AllocateRange. destruct (rounded_size size (rq_size _ _ _ _ _ Hq)) as (-> & Hsz & Hdv). set (n := roundup size PAGE_SIZE) in *.
  destruct (search_prepared HBS restr size k s L Hq Hs) as (o & Ep & _ & Hp). fold n in Ep. rewrite Ep. cbn [mbind outcome_bind].
  destruct o as [[[address al] spec]|]; [|eexists _, s; split; [reflexivity|]; split; [done|]; unfold no_room; fold n; auto].
  destruct (Hp address al spec eq_refl) as (k' & -> & Hk' & Hkb & Hadr & Hsame & Hex & Hexa & Hany & Hrb). clear Hp.
  pose proof (proj1 (rq_alignment _ _ _ _ _ Hq)) as Hk12.
  destruct (find_range_ok L s Hs n k' random0 random allow) with (spec := spec) (address := address) as (o & Ef & Hf); try done; try lia.
  { intros E. rewrite (proj1 (Hexa E)). apply (rq_exact _ _ _ _ _ Hq). by apply Hex. } { intros E1 E2. rewrite (Hany E1 E2). apply (sr_base _ _ Hs). }
  { intros E Er. destruct (Hrb E) as [-> E']. destruct Hsame as [-> _]; [congruence|]. by apply (rq_random _ _ _ _ _ Hq). }
  rewrite Ef. cbn [mbind outcome_bind]. destruct o as [[r addr]|]; [|eexists _, s; split; [reflexivity|]; split; [done|]; unfold no_room; fold n; do 3 right; eauto 6].
  destruct (Hf r addr eq_refl) as [(R & HR & F1 & F2 & F3) Hal]. rewrite HR. cbn [deref mbind outcome_bind].
  assert (placed restr k size allow addr R s) as Hpl.
  { split; [done|done| | |].
    - intros E. apply Hex in E. rewrite decide_True in Hal by done. rewrite Hal. by apply Hexa.
    - intros E. rewrite decide_False in Hal by (by rewrite Hex). apply (aligned_weaken addr k k'); [lia|done].
    - destruct (decide (spec = B_EXACT_ADDRESS)) as [E|E]; [rewrite Hal; by apply Hexa|]. apply Z.mod_divide; [done|]. apply (aligned_weaken addr 12 k'); [lia|done]. }
  pose proof (sr_all _ _ Hs r R HR) as (L1 & L2 & ->)%list_elem_of_split. assert (PAGE_SIZE = 4096) as Eps by done.
  destruct (split_ok L1 L2 r R s Hs addr n F1 F2 ltac:(lia) (pl_page _ _ _ _ _ _ _ Hpl) Hdv new1 new2 N1 N2 N3) as (o & Eo & Hcut). rewrite Eo. cbn [mbind outcome_bind].
  destruct o as [s'|].
  - assert (is_area R = false) as Hna by (unfold is_area, is_res, is_free in *; destruct F3 as [F3|[_ F3]]; [apply bool_decide_eq_true in F3; by rewrite F3|by destruct (r_type R)]).
    destruct (cut_claim L1 r R L2 addr n (RANGE_AREA 0) (fun _ => mkRange addr n (RANGE_AREA 0)) s s' Hs ltac:(lia) Hdv Hna (Hcut s' eq_refl)) as (s1 & E1 & Hfx & Hr1 & _); [done|done|].
    rewrite E1. cbn [mbind outcome_bind]. eexists (inr r), _. split; [reflexivity|]. exists R, addr. split_and!; try done.
    + pose proof Hfx as Hfx'. unfold fixed in *. cbn. by injection Hfx' as -> -> -> -> -> -> -> ->.
    + intros t f Ht Hft. destruct (cut_claim L1 r R L2 addr n t f s s' Hs ltac:(lia) Hdv Hna (Hcut s' eq_refl) Ht Hft) as (s1' & E1' & _ & _ & Hcl). rewrite E1 in E1'. by injection E1' as <-.
  - eexists _, s. split; [reflexivity|]. split; [done|]. unfold no_room.
    enough (new1 = None ∨ new2 = None) by tauto. revert Eo. unfold carve. rewrite HR. cbn [deref mbind outcome_bind]. clear.
    destruct new1 as [n1|]; [|auto]. destruct new2 as [n2|]; [|auto].
    destruct (addr =? r_base R); [destruct (n <? r_size R); [|done]|destruct (_ =? _)]; repeat (match goal with |- context [_InsertRange ?a ?b] => destruct (_InsertRange a b); cbn [mbind outcome_bind] end); done.
Qed.

(** ** Replacing some ranges by others *)

Lemma tiles_unique lo hi lo' hi' l : l ≠ [] → tiles lo l hi → tiles lo' l hi' → lo = lo' ∧ hi = hi'.
Proof.
  revert lo lo'. induction l as [|Q l IH]; [done|]. intros lo lo' _ (E1 & _ & _ & H1) (E2 & _ & _ & H2). destruct l as [|Q' l].
  - cbn in *. lia.
  - destruct (IH (lo + r_size Q) (lo' + r_size Q)); [done|done|done|]. lia.
Qed.

Lemma replace_finish La lm lm' Lb b e s s' :
  space_rep (La ++ lm ++ Lb) s → rep (nlists s) (La ++ lm' ++ Lb) (free_sizes (ranges s')) s' → fBase s' = fBase s → fEndAddress s' = fEndAddress s →
  lm ≠ [] → tiles b lm.*2 e → tiles b lm'.*2 e → joined (La ++ lm' ++ Lb).*2 →
  (∀ n X, ranges s' !! n = Some X → (n, X) ∈ lm' ∨ n ∉ lm.*1 ∧ ranges s !! n = Some X) →
  space_rep (La ++ lm' ++ Lb) s' ∧ ∀ x, use s' x = if (b <=? x) && (x <? e) then owner lm'.*2 x else use s x.
Proof.
  intros Hs Hrep E1 E2 Hne T T' Hj Hin. pose proof (sr_tiles _ _ Hs) as Ht. rewrite !fmap_app in Ht. apply tiles_app in Ht as (b1 & T1 & Ht). apply tiles_app in Ht as (e1 & T2 & T3).
  assert (lm.*2 ≠ []) as Hne2 by (by destruct lm). destruct (tiles_unique _ _ _ _ _ Hne2 T T2) as [<- <-].
  assert (space_rep (La ++ lm' ++ Lb) s') as Hs'.
  { split; rewrite ?E1, ?E2.
    - apply (sr_base _ _ Hs).
    - unfold nlists in *. by rewrite E1, E2.
    - intros n X HX. rewrite !elem_of_app. destruct (Hin n X HX) as [?|[Hn H]]; [tauto|]. apply (sr_all _ _ Hs) in H. rewrite !elem_of_app in H.
      destruct H as [?|[Hx|?]]; [tauto| |tauto]. exfalso. apply Hn, list_elem_of_fmap. by exists (n, X).
    - rewrite !fmap_app. apply tiles_app. exists b. split; [done|]. apply tiles_app. by exists e.
    - done. }
  split; [done|]. intros x. rewrite (use_rep _ _ _ Hs'), (use_rep _ _ _ Hs), !fmap_app. by apply (owner_replace (fBase s) b e (fEndAddress s + 1)).
Qed.

(** ** Freeing a range *)

Lemma tiles_divide lo l hi : tiles lo l hi → (PAGE_SIZE | hi - lo).
Proof.
  revert lo. induction l as [|Q l IH]; intros lo; [intros ->; by rewrite Z.sub_diag; exists 0|]. intros (_ & _ & Hd & H%IH).
  replace (hi - lo) with (r_size Q + (hi - (lo + r_size Q))) by lia. by apply Z.divide_add_r.
Qed.

Lemma joined_join l1 F l2 : joined (l1 ++ [F]) → joined (F :: l2) → joined (l1 ++ F :: l2).
Proof. intros H1 H2. destruct l2 as [|N l2]; [done|]. apply joined_app. destruct H2 as [H2 H3]. split_and!; done. Qed.

Lemma joined_snoc l F : joined l → match last l with Some Q => is_free Q = false | None => True end → joined (l ++ [F]).
Proof.
  induction l as [|Q l IH]; [done|]. intros [H1 H2] H3. destruct l as [|N l].
  - cbn in *. rewrite H3. split_and!; done.
  - change (joined (Q :: ((N :: l) ++ [F]))). split; [done|]. apply IH; [done|]. exact H3.
Qed.

(** What [_FreeRange] leaves: the range, joined with free neighbours, is free. *)
Record freed L1 r R L2 s s' : Prop := {
  fd_fixed : fixed s' = fixed (IncrementChangeCount s);
  fd_rep : ∃ Lp q F Ln, space_rep (Lp ++ (q, F) :: Ln) s' ∧ r_type F = RANGE_FREE ∧
    (L1 = Lp ∨ ∃ p P, L1 = Lp ++ [(p, P)] ∧ is_free P = true) ∧ (L2 = Ln ∨ ∃ n N, L2 = (n, N) :: Ln ∧ is_free N = true);
  fd_use : ∀ x, use s' x = if (r_base R <=? x) && (x <? r_base R + r_size R) then Some RANGE_FREE else use s x;
  fd_ranges : ∀ n X, is_free X = false → ranges s' !! n = Some X ↔ n ≠ r ∧ ranges s !! n = Some X
}.

Section free.
Context (L1 L2 : list (Z * Range)) (r : Z) (R : Range) (s : kspace) (Hs : space_rep (L1 ++ (r, R) :: L2) s) (Hnf : is_free R = false).
Context (Lp Ln lp ln : list (Z * Range)) (El : L1 = Lp ++ lp) (Er : L2 = ln ++ Ln) (Flp : ∀ n X, (n, X) ∈ lp ++ ln → is_free X = true).
Context (q b m : Z) (s' : kspace).
#[local] Set Default Proof Using "Type*".

(** The joined range takes the place of the old ones. *)
Lemma freed_finish : rep (nlists s) (Lp ++ (q, mkRange b m RANGE_FREE) :: Ln) (free_sizes (ranges s')) s' → fixed s' = fixed (IncrementChangeCount s) →
  tiles b (lp.*2 ++ R :: ln.*2) (b + m) → (length lp <= 1)%nat → (length ln <= 1)%nat →
  (lp = [] → match last L1 with Some x => is_free x.2 = false | None => True end) → (ln = [] → match head L2 with Some x => is_free x.2 = false | None => True end) →
  (∀ n X, ranges s' !! n = Some X → n = q ∧ X = mkRange b m RANGE_FREE ∨ n ≠ r ∧ n ∉ (lp ++ ln).*1 ∧ ranges s !! n = Some X) →
  (∀ n X, n ≠ r → n ∉ (lp ++ ln).*1 → ranges s !! n = Some X → ranges s' !! n = Some X) → freed L1 r R L2 s s'.
Proof.
  intros Hrep Hfx Hti Hl1 Hl2 Hla Hhe Hin Hout. set (F := mkRange b m RANGE_FREE) in *. pose proof (fixed_fields _ _ Hfx) as (X1 & X2 & _).
  pose proof (sr_joined _ _ Hs) as Hj. rewrite El, Er, !fmap_app in Hj. cbn in Hj. rewrite fmap_app, <- app_assoc in Hj.
  assert (EL : L1 ++ (r, R) :: L2 = Lp ++ (lp ++ (r, R) :: ln) ++ Ln) by (rewrite El, Er, <- !app_assoc; done). pose proof Hs as Hs0. rewrite EL in Hs0.
  assert (is_free F = true) as HF by done. pose proof Hti as Hti'. apply tiles_app in Hti' as (c1 & C1 & (Ec & C2 & C3 & C4)). subst c1.
  assert (joined (Lp.*2 ++ F :: Ln.*2)) as HjF.
  { apply joined_join.
    - destruct lp as [|[p P] [|]]; cbn in *; [|  |lia].
      + rewrite app_nil_r in El. subst Lp. apply joined_snoc; [by apply joined_parts in Hj as [? _]|]. rewrite fmap_last. specialize (Hla eq_refl). by destruct (last L1).
      + apply (joined_swap _ F P (R :: ln.*2 ++ Ln.*2)); [|done]. rewrite HF. symmetry. apply (Flp p P). left.
    - destruct ln as [|[n N] [|]]; cbn [fmap list_fmap app snd] in *; [| |cbn in *; lia].
      + assert (joined Ln.*2) as HjL by (rewrite app_assoc in Hj; apply joined_parts in Hj as [_ [_ ?]]; done). split; [|done].
        specialize (Hhe eq_refl). rewrite Er in Hhe. destruct Ln as [|[y Y] Ln']; [done|]. cbn in *. by rewrite Hhe.
      + replace (Lp.*2 ++ lp.*2 ++ R :: N :: Ln.*2) with ((Lp.*2 ++ lp.*2 ++ [R]) ++ N :: Ln.*2) in Hj by (by rewrite <- !app_assoc).
        apply (joined_swap (Lp.*2 ++ lp.*2 ++ [R]) F N); [|done]. rewrite HF. symmetry. apply (Flp n N), elem_of_app. right. left. }
  destruct (replace_finish Lp (lp ++ (r, R) :: ln) [(q, F)] Ln b (b + m) s s' Hs0) as [Hs' Hu]; [done|done|done|by destruct lp|by rewrite fmap_app|..].
  { cbn. pose proof (tiles_le _ _ _ C1). pose proof (tiles_le _ _ _ C4). split_and!; [done|lia| |done]. replace m with (b + m - b) by lia. by apply (tiles_divide _ _ _ Hti). }
  { by rewrite fmap_app. }
  { intros n X HX. destruct (Hin n X HX) as [[-> ->]|(N1 & N2 & H)]; [left; left|right]. split; [|done]. rewrite fmap_app in N2 |- *. cbn. rewrite elem_of_app, elem_of_cons in *. tauto. }
  split; [done| | |].
  - exists Lp, q, F, Ln. split_and!; [done|done| |].
    + destruct lp as [|[p P] [|]]; [left; by rewrite app_nil_r in El|right|cbn in *; lia]. exists p, P. split; [done|]. apply (Flp p). left.
    + destruct ln as [|[n N] [|]]; [by left|right|cbn in *; lia]. exists n, N. split; [done|]. apply (Flp n). apply elem_of_app. right. left.
  - intros x. rewrite Hu. cbn. pose proof (tiles_le _ _ _ C1). pose proof (tiles_le _ _ _ C4).
    assert (b <= x < b + m → x < r_base R ∨ r_base R + r_size R <= x → use s x = Some RANGE_FREE) as Hfree.
    { intros Hx Ho. rewrite (use_rep _ _ _ Hs0), !fmap_app. cbn [fmap list_fmap snd]. pose proof (sr_tiles _ _ Hs0) as Ht. rewrite !fmap_app in Ht. apply tiles_app in Ht as (b1 & T1 & T2).
      apply tiles_app in T2 as (e1 & T2 & T3). cbn [fmap list_fmap snd] in T2. assert (lp.*2 ++ R :: ln.*2 ≠ []) as Hne2 by (by destruct lp). destruct (tiles_unique _ _ _ _ _ Hne2 Hti T2) as [<- <-].
      rewrite (owner_app _ _ b) by done. destruct (Z.ltb_spec x b); [lia|]. rewrite andb_false_r. rewrite (owner_app b _ (b + m)) by done. destruct (Z.leb_spec b x), (Z.ltb_spec x (b + m)); cbn [andb]; try lia.
      rewrite (owner_app b lp.*2 (r_base R)) by done. destruct (Z.leb_spec b x), (Z.ltb_spec x (r_base R)); cbn [andb]; try lia.
      + apply (owner_const _ _ _ _ _ C1); [|lia]. intros X ([n Y] & -> & Hn)%list_elem_of_fmap. apply is_free_true, (Flp n), elem_of_app. by left.
      + cbn. destruct (Z.leb_spec (r_base R) x), (Z.ltb_spec x (r_base R + r_size R)); cbn [andb]; try lia. apply (owner_const _ _ _ _ _ C4); [|lia].
        intros X ([n Y] & -> & Hn)%list_elem_of_fmap. apply is_free_true, (Flp n), elem_of_app. by right. }
    destruct (Z.leb_spec b x), (Z.ltb_spec x (b + m)), (Z.leb_spec (r_base R) x), (Z.ltb_spec x (r_base R + r_size R)); cbn [andb]; try lia; try done; symmetry; apply Hfree; lia.
  - intros n X HX. split.
    + intros H. destruct (Hin n X H) as [[-> ->]|(N1 & _ & H')]; [done|]. done.
    + intros [N1 H]. apply Hout; [done| |done]. intros ([y Y] & -> & Hy)%list_elem_of_fmap.
      assert ((y, Y) ∈ L1 ++ (r, R) :: L2) as HY by (rewrite El, Er; rewrite !elem_of_app, elem_of_cons, elem_of_app in *; tauto).
      pose proof (li_ranges _ _ (proj1 (sr_rep _ _ Hs)) y Y HY) as H2. cbn in H. rewrite H in H2. injection H2 as <-. rewrite (Flp y X Hy) in HX. done.
Qed.
End free.

Lemma free_sizes_delete m n : free_sizes (delete n m) = delete n (free_sizes m).
Proof. unfold free_sizes. apply omap_delete. Qed.

Lemma ret_bind {A B} (o : outcome A) (f : A → outcome B) x y : o = Ret x → f x = y → (o ≫= f) = y.
Proof. by intros ->. Qed.

(** The free neighbour on one side. *)
Definition free_one (o : option (Z * Range)) : option (Z * Range) := o ≫= fun x => if is_free x.2 then Some x else None.

Lemma free_one_head (l : list (Z * Range)) n N : free_one (head l) = Some (n, N) → ∃ l', l = (n, N) :: l' ∧ is_free N = true.
Proof. destruct l as [|[n' N'] l]; [done|]. cbn. destruct (is_free N') eqn:E; [|done]. intros [= -> ->]. by exists l. Qed.

Lemma free_at_ok L s o : listed L s → (∀ x, o = Some x → x ∈ L) → free_at (fst <$> o) s = Ret (free_one o).
Proof.
  intros H Ho. destruct o as [[n N]|]; [|done]. cbn. rewrite (li_ranges _ _ H n N) by (by apply Ho). cbn. by destruct (is_free N).
Qed.

Section free_range.
Context (L1 L2 : list (Z * Range)) (r : Z) (R : Range) (s : kspace) (Hs : space_rep (L1 ++ (r, R) :: L2) s) (Hnf : is_free R = false).
#[local] Set Default Proof Using "Type*".

Lemma neighbour_at n N : (n, N) ∈ L1 ++ L2 → n ≠ r ∧ ranges s !! n = Some N ∧ range_ok s N ∧ (is_free N = true → free_sizes (ranges s) !! n = Some (r_size N)).
Proof.
  intros Hin. destruct (listed_split _ _ _ _ _ (proj1 (sr_rep _ _ Hs))) as (N1 & N2 & _ & _).
  assert ((n, N) ∈ L1 ++ (r, R) :: L2) as Hin' by (rewrite elem_of_app, elem_of_cons in *; tauto).
  pose proof (li_ranges _ _ (proj1 (sr_rep _ _ Hs)) n N Hin') as HN. split_and!; [|done|by apply (stored_range _ s n N Hs)|].
  - intros ->. apply elem_of_app in Hin as [H|H]; [apply N1|apply N2]; apply list_elem_of_fmap; by exists (r, N).
  - intros Hf. rewrite (free_sizes_lookup _ _ _ HN), Hf. done.
Qed.

Lemma joined_size b m l : tiles b l (b + m) → fBase s <= b → b + m <= fEndAddress s + 1 → l ≠ [] → 0 < m ∧ PAGE_SIZE <= m ∧ (slot m < nlists s)%nat.
Proof.
  intros H Hb He Hl. destruct l as [|Q l]; [done|]. destruct H as (_ & Hq & Hd & Ht). pose proof (tiles_le _ _ _ Ht). pose proof (page_positive _ Hq Hd). split_and!; [lia|lia|].
  unfold nlists. apply Nat.lt_succ_r, slot_mono. unfold PAGE_SIZE in *. lia.
Qed.

(** The neighbours of the range and the sizes of the joined range. *)
Lemma extent lp ln Lp Ln : L1 = Lp ++ lp → L2 = ln ++ Ln → ∃ b e, tiles b (lp.*2 ++ R :: ln.*2) e ∧ fBase s <= b ∧ e <= fEndAddress s + 1.
Proof.
  intros -> ->. pose proof (sr_tiles _ _ Hs) as Ht. rewrite !fmap_app in Ht. cbn in Ht. rewrite fmap_app, <- app_assoc in Ht.
  replace (Lp.*2 ++ lp.*2 ++ R :: ln.*2 ++ Ln.*2) with (Lp.*2 ++ (lp.*2 ++ R :: ln.*2) ++ Ln.*2) in Ht by (by rewrite <- app_assoc).
  apply tiles_app in Ht as (b & T1 & Ht). apply tiles_app in Ht as (e & T2 & T3). exists b, e. split_and!; [done|by apply tiles_le in T1|by apply tiles_le in T3].
Qed.

Lemma free_none : free_one (last L1) = None → free_one (head L2) = None →
  ∃ s', _FreeListInsertRange r (r_size R) (upd_range r (fun R => mkRange (r_base R) (r_size R) RANGE_FREE) s) = Ret s' ∧ freed L1 r R L2 s (IncrementChangeCount s').
Proof.
  intros Hp Hn. destruct (split_range _ _ _ _ _ Hs) as [HR Hro]. set (F := mkRange (r_base R) (r_size R) RANGE_FREE).
  destruct (upd_same_base _ _ _ _ _ _ (fun R => mkRange (r_base R) (r_size R) RANGE_FREE) _ (sr_rep _ _ Hs) eq_refl) as [Hrep Er]. set (s1 := upd_range r _ s) in *. fold F in Hrep, Er.
  assert (free_sizes (ranges s) !! r = None) as HF by (by rewrite (free_sizes_lookup _ _ _ HR), Hnf).
  destruct (FreeListInsert_ok _ _ s1 r (r_size R) (proj2 Hrep)) as (s' & E & Hfi & Es); [apply Hro|apply Hro|done|]. exists s'. split; [done|].
  destruct (extent [] [] L1 L2) as (b & e & Te & He1 & He2); [by rewrite app_nil_r|done|]. destruct Te as (Eb & Hpos & Hpg & Ee). cbn in Ee. subst b e.
  assert (ranges s' = <[r := F]> (ranges s)) as Ers by (by rewrite Es).
  apply (freed_finish L1 L2 r R s Hs Hnf L1 L2 [] []) with (q := r) (b := r_base R) (m := r_size R); try (cbn; lia); try done.
  - by rewrite app_nil_r.
  - by intros n X ?%elem_of_nil.
  - change (ranges (IncrementChangeCount s')) with (ranges s'). rewrite Ers, free_sizes_insert. cbn. destruct Hrep as [[? ? ? ? ?] _]. destruct Hfi. rewrite Es in *. by split; split.
  - cbn. rewrite Es. done.
  - intros _. destruct (last L1) as [[p P]|]; [|done]. cbn in *. by destruct (is_free P).
  - intros _. destruct (head L2) as [[p P]|]; [|done]. cbn in *. by destruct (is_free P).
  - intros n X. cbn. rewrite Ers. intros [[<- <-]|[Hne HX]]%lookup_insert_Some; [by left|]. right. split_and!; [congruence|by intros ?%elem_of_nil|done].
  - intros n X Hne _ HX. cbn. by rewrite Ers, lookup_insert_ne by congruence.
Qed.

Lemma free_next n N Ln : free_one (last L1) = None → L2 = (n, N) :: Ln → is_free N = true →
  ∃ s1 s', _RemoveRange n s = Ret s1 ∧ _FreeListInsertRange r (u64 (r_size R + r_size N)) (upd_range r (fun R => mkRange (r_base R) (r_size R) RANGE_FREE)
      (delete_range n (upd_range r (fun R' => mkRange (r_base R') (u64 (r_size R + r_size N)) (r_type R')) s1))) = Ret s' ∧ freed L1 r R L2 s (IncrementChangeCount s').
Proof.
  intros Hp E2 Hf. destruct (split_range _ _ _ _ _ Hs) as [HR Hro]. destruct (neighbour_at n N) as (Hnr & HN & Hno & HFn); [rewrite E2; apply elem_of_app; right; left|]. specialize (HFn Hf).
  destruct (extent [] [(n, N)] L1 Ln) as (b & e & Te & He1 & He2); [by rewrite app_nil_r|done|]. pose proof Te as (Eb & Hpos & Hpg & (En & Hpn & Hpgn & Ee)). cbn in Ee, En, Hpn, Hpgn.
  destruct (sr_base _ _ Hs) as (P1 & _ & P2). rewrite (wrap_small 64 (r_size R + r_size N)) by (unfold fits; lia). set (m := r_size R + r_size N).
  pose proof (sr_rep _ _ Hs) as Hrep. rewrite E2 in Hrep. replace (L1 ++ (r, R) :: (n, N) :: Ln) with ((L1 ++ [(r, R)]) ++ (n, N) :: Ln) in Hrep by (by rewrite <- app_assoc).
  destruct (RemoveRange_ok _ _ _ _ _ _ _ Hrep) as (s1 & E1 & Hrep1 & Er1 & Ef1); [intros _; split_and!; [apply Hno|apply Hno|done]|]. rewrite Hf in Hrep1. exists s1.
  rewrite <- app_assoc in Hrep1. destruct (upd_same_base _ _ _ _ _ _ (fun R' => mkRange (r_base R') m (r_type R')) _ Hrep1 eq_refl) as [Hrep2 Er2]. set (s2 := upd_range r _ s1) in *.
  assert (Hn : n ∉ (L1 ++ (r, mkRange (r_base R) m (r_type R)) :: Ln).*1).
  { pose proof (listed_split _ _ _ _ _ (proj1 Hrep)) as (N1 & N2 & _). rewrite fmap_app in N1 |- *. cbn in *. rewrite elem_of_app, elem_of_cons in *. rewrite elem_of_nil in N1. tauto. }
  pose proof (delete_range_ok _ _ _ _ n Hrep2 Hn) as Hrep3. destruct (upd_same_base _ _ _ _ _ _ (fun R => mkRange (r_base R) (r_size R) RANGE_FREE) _ Hrep3 eq_refl) as [Hrep4 Er4].
  set (s4 := upd_range r _ (delete_range n s2)) in *. cbn [r_base r_size r_type] in Hrep4, Er4. set (F := mkRange (r_base R) m RANGE_FREE) in *.
  assert (b + m = e) as Ebm by (unfold m; lia).
  destruct (joined_size b m [R; N]) as (M1 & M2 & M3); [by rewrite Ebm|done|by rewrite Ebm|done|].
  assert (free_sizes (ranges s) !! r = None) as HFr by (by rewrite (free_sizes_lookup _ _ _ HR), Hnf).
  destruct (FreeListInsert_ok _ _ s4 r m (proj2 Hrep4) M2 M3) as (s' & E & Hfi & Es); [by rewrite lookup_delete_ne|]. exists s'. split; [done|]. split; [done|].
  assert (ranges s' = <[r := F]> (delete n (ranges s))) as Ers.
  { assert (ranges s' = ranges s4) as -> by (by rewrite Es). rewrite Er4. change (ranges (delete_range n s2)) with (delete n (ranges s2)). rewrite Er2, Er1. rewrite delete_insert_ne by congruence. by rewrite insert_insert_eq. }
  apply (freed_finish L1 L2 r R s Hs Hnf L1 Ln [] [(n, N)]) with (q := r) (b := r_base R) (m := m); try (cbn; lia); try done.
  - by rewrite app_nil_r.
  - by intros y Y [= -> ->]%list_elem_of_singleton.
  - cbn. rewrite Ers, free_sizes_insert, free_sizes_delete. cbn. destruct Hrep4 as [[? ? ? ? ?] _]. destruct Hfi. rewrite Es in *. by split; split.
  - cbn. rewrite Es. change (fixed (IncrementChangeCount s1) = fixed (IncrementChangeCount s)). unfold fixed in *. cbn. by injection Ef1 as -> -> -> -> -> -> -> ->.
  - cbn in *. unfold m. split_and!; try done; lia.
  - intros _. destruct (last L1) as [[p P]|]; [|done]. cbn in *. by destruct (is_free P).
  - intros y Y. cbn. rewrite Ers. intros [[<- <-]|[Hne HX]]%lookup_insert_Some; [by left|]. apply lookup_delete_Some in HX as [Hne' HX]. right. split_and!; [congruence|by rewrite list_elem_of_singleton|done].
  - intros y Y Hne Hny HX. cbn in *. rewrite list_elem_of_singleton in Hny. by rewrite Ers, lookup_insert_ne, lookup_delete_ne by congruence.
Qed.

Lemma free_prev p P Lp : L1 = Lp ++ [(p, P)] → is_free P = true → free_one (head L2) = None →
  ∃ s1 s2 s', _FreeListRemoveRange p (r_size P) s = Ret s1 ∧ _RemoveRange r s1 = Ret s2 ∧
    _FreeListInsertRange p (u64 (r_size P + r_size R)) (delete_range r (upd_range p (fun P' => mkRange (r_base P') (u64 (r_size P + r_size R)) (r_type P')) s2)) = Ret s' ∧
    freed L1 r R L2 s (IncrementChangeCount s').
Proof.
  intros E1 Hf Hn. destruct (split_range _ _ _ _ _ Hs) as [HR Hro]. destruct (neighbour_at p P) as (Hpr & HP & Hpo & HFp); [rewrite E1, !elem_of_app; left; right; left|]. specialize (HFp Hf).
  destruct (extent [(p, P)] [] Lp L2 E1 eq_refl) as (b & e & Te & He1 & He2). pose proof Te as (Eb & Hpp & Hpgp & (Er & Hpos & Hpg & Ee)). cbn in Ee, Eb, Hpp, Hpgp, Er.
  destruct (sr_base _ _ Hs) as (P1 & _ & P2). rewrite (wrap_small 64 (r_size P + r_size R)) by (unfold fits; lia). set (m := r_size P + r_size R).
  assert (b + m = e) as Ebm by (unfold m; lia). destruct (joined_size b m [P; R]) as (M1 & M2 & M3); [by rewrite Ebm|done|by rewrite Ebm|done|].
  pose proof (sr_rep _ _ Hs) as [Hl0 Hf0]. destruct (FreeListRemove_ok _ _ s p (r_size P) Hf0) as (s1 & R1 & Hf1 & Es1); [apply Hpo|apply Hpo|done|]. exists s1.
  assert (rep (nlists s) (L1 ++ (r, R) :: L2) (delete p (free_sizes (ranges s))) s1) as Hrep1 by (split; [destruct Hl0; rewrite Es1; by split|done]).
  destruct (RemoveRange_ok _ _ _ _ _ _ _ Hrep1) as (s2 & R2 & Hrep2 & Er2 & Ef2); [by rewrite Hnf|]. rewrite Hnf in Hrep2. exists s2.
  assert (ranges s2 = ranges s ∧ fixed s2 = fixed s) as [Er2' Ef2'] by (rewrite Er2, Ef2; by rewrite Es1). clear Er2 Ef2.
  rewrite E1, <- app_assoc in Hrep2. cbn [app] in Hrep2. destruct (upd_same_base _ _ _ _ _ _ (fun P' => mkRange (r_base P') m (r_type P')) _ Hrep2 eq_refl) as [Hrep3 Er3].
  set (s3 := upd_range p _ s2) in *. rewrite (proj1 (is_free_true P) Hf) in Hrep3, Er3. set (F := mkRange (r_base P) m RANGE_FREE) in *.
  assert (Hr : r ∉ (Lp ++ (p, F) :: L2).*1).
  { pose proof (listed_split _ _ _ _ _ Hl0) as (N1 & N2 & _). rewrite E1 in N1. rewrite fmap_app in N1 |- *. cbn in *. rewrite elem_of_app, elem_of_cons in *. rewrite elem_of_nil in N1. tauto. }
  pose proof (delete_range_ok _ _ _ _ r Hrep3 Hr) as Hrep4. set (s4 := delete_range r s3) in *.
  destruct (FreeListInsert_ok _ _ s4 p m (proj2 Hrep4) M2 M3) as (s' & E & Hfi & Es); [apply lookup_delete_eq|]. exists s'. split_and!; [done..|].
  assert (free_sizes (ranges s) !! r = None) as HFr by (by rewrite (free_sizes_lookup _ _ _ HR), Hnf).
  assert (ranges s' = <[p := F]> (delete r (ranges s))) as Ers.
  { assert (ranges s' = ranges s4) as -> by (by rewrite Es). change (ranges s4) with (delete r (ranges s3)). rewrite Er3, Er2'. by rewrite delete_insert_ne by congruence. }
  apply (freed_finish L1 L2 r R s Hs Hnf Lp L2 [(p, P)] []) with (q := p) (b := r_base P) (m := m); try (cbn; lia); try done.
  - rewrite app_nil_r. by intros y Y [= -> ->]%list_elem_of_singleton.
  - cbn. rewrite Ers, free_sizes_insert, free_sizes_delete. cbn. rewrite (delete_id _ r HFr). destruct Hrep4 as [[? ? ? ? ?] _]. rewrite insert_delete_eq in Hfi.
    destruct Hfi. rewrite Es in *. by split; split.
  - cbn. rewrite Es. change (fixed (IncrementChangeCount s2) = fixed (IncrementChangeCount s)). unfold fixed in *. cbn. by injection Ef2' as -> -> -> -> -> -> -> ->.
  - cbn in *. unfold m. split_and!; try done; lia.
  - intros _. destruct (head L2) as [[y Y]|]; [|done]. cbn in *. by destruct (is_free Y).
  - intros y Y. cbn. rewrite Ers. intros [[<- <-]|[Hne HX]]%lookup_insert_Some; [by left|]. apply lookup_delete_Some in HX as [Hne' HX]. right. split_and!; [congruence|rewrite list_elem_of_singleton; congruence|done].
  - intros y Y Hne Hny HX. cbn in *. rewrite list_elem_of_singleton in Hny. by rewrite Ers, lookup_insert_ne, lookup_delete_ne by congruence.
Qed.

Lemma free_both p P Lp n N Ln : L1 = Lp ++ [(p, P)] → is_free P = true → L2 = (n, N) :: Ln → is_free N = true →
  ∃ s1 s2 s3 s', _FreeListRemoveRange p (r_size P) s = Ret s1 ∧ _RemoveRange r s1 = Ret s2 ∧ _RemoveRange n s2 = Ret s3 ∧
    _FreeListInsertRange p (u64 (r_size P + u64 (r_size R + r_size N))) (delete_range n (delete_range r
      (upd_range p (fun P' => mkRange (r_base P') (u64 (r_size P + u64 (r_size R + r_size N))) (r_type P')) s3))) = Ret s' ∧
    freed L1 r R L2 s (IncrementChangeCount s').
Proof.
  intros E1 Hf E2 Hfn. destruct (split_range _ _ _ _ _ Hs) as [HR Hro].
  destruct (neighbour_at p P) as (Hpr & HP & Hpo & HFp); [rewrite E1, !elem_of_app; left; right; left|]. specialize (HFp Hf).
  destruct (neighbour_at n N) as (Hnr & HN & Hno & HFn); [rewrite E2; apply elem_of_app; right; left|]. specialize (HFn Hfn).
  destruct (extent [(p, P)] [(n, N)] Lp Ln E1 E2) as (b & e & Te & He1 & He2). pose proof Te as (Eb & Hpp & Hpgp & (Er & Hpos & Hpg & (En & Hpn & Hpgn & Ee))). cbn in Ee, Eb, Hpp, Hpgp, Er, En, Hpn, Hpgn.
  destruct (sr_base _ _ Hs) as (P1 & _ & P2). rewrite (wrap_small 64 (r_size R + r_size N)) by (unfold fits; lia). rewrite (wrap_small 64 (r_size P + _)) by (unfold fits; lia).
  set (m := r_size P + (r_size R + r_size N)). assert (b + m = e) as Ebm by (unfold m; lia). destruct (joined_size b m [P; R; N]) as (M1 & M2 & M3); [by rewrite Ebm|done|by rewrite Ebm|done|].
  pose proof (sr_rep _ _ Hs) as [Hl0 Hf0]. destruct (FreeListRemove_ok _ _ s p (r_size P) Hf0) as (s1 & R1 & Hf1 & Es1); [apply Hpo|apply Hpo|done|]. exists s1.
  assert (rep (nlists s) (L1 ++ (r, R) :: L2) (delete p (free_sizes (ranges s))) s1) as Hrep1 by (split; [destruct Hl0; rewrite Es1; by split|done]).
  destruct (RemoveRange_ok _ _ _ _ _ _ _ Hrep1) as (s2 & R2 & Hrep2 & Er2 & Ef2); [by rewrite Hnf|]. rewrite Hnf in Hrep2. exists s2.
  assert (n ≠ p ∧ n ∉ Lp.*1 ∧ n ∉ Ln.*1) as (Hnp & HnL & HnR).
  { rewrite E2 in Hrep2. pose proof (listed_split _ _ _ _ _ (proj1 Hrep2)) as (N1 & N2 & _). rewrite E1, fmap_app in N1. cbn in N1. rewrite elem_of_app, elem_of_cons, elem_of_nil in N1. tauto. }
  rewrite E2 in Hrep2. destruct (RemoveRange_ok _ _ _ _ _ _ _ Hrep2) as (s3 & R3 & Hrep3 & Er3 & Ef3); [intros _; split_and!; [apply Hno|apply Hno|by rewrite lookup_delete_ne]|]. rewrite Hfn in Hrep3. exists s3.
  assert (ranges s3 = ranges s ∧ fixed s3 = fixed s) as [Er3' Ef3'] by (rewrite Er3, Ef3, Er2, Ef2; by rewrite Es1). clear Er2 Ef2 Er3 Ef3.
  rewrite E1, <- app_assoc in Hrep3. cbn [app] in Hrep3. destruct (upd_same_base _ _ _ _ _ _ (fun P' => mkRange (r_base P') m (r_type P')) _ Hrep3 eq_refl) as [Hrep4 Er4].
  set (s4 := upd_range p _ s3) in *. rewrite (proj1 (is_free_true P) Hf) in Hrep4, Er4. set (F := mkRange (r_base P) m RANGE_FREE) in *.
  assert (Hr : r ∉ (Lp ++ (p, F) :: Ln).*1).
  { pose proof (listed_split _ _ _ _ _ Hl0) as (N1 & N2 & _). rewrite E1 in N1. rewrite E2 in N2. rewrite fmap_app in N1 |- *. cbn in *. rewrite elem_of_app, elem_of_cons in *. rewrite elem_of_nil in N1. tauto. }
  pose proof (delete_range_ok _ _ _ _ r Hrep4 Hr) as Hrep5.
  assert (Hn : n ∉ (Lp ++ (p, F) :: Ln).*1) by (rewrite fmap_app; cbn; rewrite elem_of_app, elem_of_cons; tauto).
  pose proof (delete_range_ok _ _ _ _ n Hrep5 Hn) as Hrep6. set (s6 := delete_range n _) in *.
  destruct (FreeListInsert_ok _ _ s6 p m (proj2 Hrep6) M2 M3) as (s' & E & Hfi & Es); [by rewrite lookup_delete_ne, lookup_delete_eq by congruence|]. exists s'. split_and!; [done..|].
  assert (free_sizes (ranges s) !! r = None) as HFr by (by rewrite (free_sizes_lookup _ _ _ HR), Hnf).
  assert (ranges s' = <[p := F]> (delete n (delete r (ranges s)))) as Ers.
  { assert (ranges s' = ranges s6) as -> by (by rewrite Es). change (ranges s6) with (delete n (delete r (ranges s4))). rewrite Er4, Er3'. by rewrite !delete_insert_ne by congruence. }
  apply (freed_finish L1 L2 r R s Hs Hnf Lp Ln [(p, P)] [(n, N)]) with (q := p) (b := r_base P) (m := m); try (cbn; lia); try done.
  - intros y Y [[= -> ->]|[= -> ->]%list_elem_of_singleton]%elem_of_cons; done.
  - cbn. rewrite Ers, free_sizes_insert, !free_sizes_delete. cbn. rewrite (delete_id _ r HFr). destruct Hrep6 as [[? ? ? ? ?] _].
    rewrite delete_delete, insert_delete_eq in Hfi. destruct Hfi. rewrite Es in *. by split; split.
  - cbn. rewrite Es. change (fixed (IncrementChangeCount s3) = fixed (IncrementChangeCount s)). unfold fixed in *. cbn. by injection Ef3' as -> -> -> -> -> -> -> ->.
  - cbn in *. unfold m. split_and!; try done; lia.
  - intros y Y. cbn. rewrite Ers. intros [[<- <-]|[Hne HX]]%lookup_insert_Some; [by left|]. apply lookup_delete_Some in HX as [Hne' HX]. apply lookup_delete_Some in HX as [Hne2 HX].
    right. split_and!; [congruence|rewrite elem_of_cons, list_elem_of_singleton; intros [?|?]; congruence|done].
  - intros y Y Hne Hny HX. cbn in *. rewrite elem_of_cons, list_elem_of_singleton in Hny. rewrite Ers, lookup_insert_ne, !lookup_delete_ne by (intros <-; tauto). done.
Qed.

Lemma FreeRange_ok : ∃ s', _FreeRange r s = Ret s' ∧ freed L1 r R L2 s s'.
Proof.
  destruct (split_range _ _ _ _ _ Hs) as [HR _]. pose proof (proj1 (sr_rep _ _ Hs)) as Hl. unfold _FreeRange. rewrite HR. cbn [deref mbind outcome_bind].
  rewrite (GetPrevious_split _ _ _ _ _ Hl), (GetNext_split _ _ _ _ _ Hl). rewrite (free_at_ok _ _ (last L1) Hl) by (intros x Hx; apply elem_of_app; left; by apply last_Some_elem_of).
  cbn [mbind outcome_bind]. rewrite (free_at_ok _ _ (head L2) Hl) by (intros x Hx; apply elem_of_app; do 2 right; by apply head_Some_elem_of). cbn [mbind outcome_bind].
  destruct (free_one (last L1)) as [[p P]|] eqn:Ep.
  - unfold free_one in Ep. destruct (last L1) as [[p' P']|] eqn:El; [|done]. cbn in Ep. destruct (is_free P') eqn:Hf; [|done]. injection Ep as -> ->. apply last_Some in El as [Lp El].
    destruct (free_one (head L2)) as [[n N]|] eqn:En.
    + apply free_one_head in En as (Ln & E2 & Hfn).
      destruct (free_both p P Lp n N Ln El Hf E2 Hfn) as (s1 & s2 & s3 & s' & E1 & E3 & E4 & Hi & Hfr). exists (IncrementChangeCount s'). split; [|done].
      eapply ret_bind; [|reflexivity]. eapply ret_bind; [exact E1|]. eapply ret_bind; [exact E3|]. eapply ret_bind; [exact E4|]. exact Hi.
    + destruct (free_prev p P Lp El Hf En) as (s1 & s2 & s' & E1 & E3 & Hi & Hfr). exists (IncrementChangeCount s'). split; [|done].
      eapply ret_bind; [|reflexivity]. eapply ret_bind; [exact E1|]. eapply ret_bind; [exact E3|]. exact Hi.
  - destruct (free_one (head L2)) as [[n N]|] eqn:En.
    + apply free_one_head in En as (Ln & E2 & Hfn). destruct (free_next n N Ln Ep E2 Hfn) as (s1 & s' & E1 & Hi & Hfr). exists (IncrementChangeCount s'). split; [|done].
      eapply ret_bind; [|reflexivity]. eapply ret_bind; [exact E1|]. exact Hi.
    + destruct (free_none Ep En) as (s' & Hi & Hfr). exists (IncrementChangeCount s'). split; [|done]. eapply ret_bind; [exact Hi|reflexivity].
Qed.
End free_range.

(** ** Areas *)

Definition area_new (a : Z) s : Prop := ∀ r R, ranges s !! r = Some R → r_type R ≠ RANGE_AREA a.

Lemma placed_use L r R restr k size allow addr s : space_rep L s → ranges s !! r = Some R → placed restr k size allow addr R s →
  ∀ x, addr <= x < addr + roundup size PAGE_SIZE → use s x = Some (r_type R).
Proof.
  intros Hs HR Hpl x Hx. destruct (pl_inside _ _ _ _ _ _ _ Hpl) as [P1 P2]. pose proof (sr_all _ _ Hs r R HR) as (L1 & L2 & ->)%list_elem_of_split. rewrite (use_rep _ _ _ Hs).
  pose proof (sr_tiles _ _ Hs) as Ht. rewrite fmap_app in *. cbn in *. apply (owner_in _ _ _ _ _ _ Ht). lia.
Qed.

(** The effect of [InsertArea] that succeeds. *)
Record inserted (a n b : Z) s s' : Prop := {
  ins_ok : kspace_ok s';
  ins_use : ∀ x, use s' x = if (b <=? x) && (x <? b + n) then Some (RANGE_AREA a) else use s x;
  ins_range : ∃ r, ranges s' !! r = Some (mkRange b n (RANGE_AREA a));
  ins_space : fFreeSpace s' = u64 (fFreeSpace s - n);
  ins_areas : ∀ a', a' ≠ a → kareas s' !! a' = kareas s !! a'
}.

Lemma insert_area_ok HBS new1 new2 random0 random a A size restr k s :
  kspace_ok s → request_ok HBS restr size k s → fresh_ranges new1 new2 s → 0 <= random0 → 0 <= random → kareas s !! a = Some A → area_new a s →
  ∃ st o s', InsertArea HBS new1 new2 random0 random a size restr s = Ret (st, o, s') ∧
    match st with
    | Err e => o = None ∧ s' = s ∧ no_room HBS random0 random restr size (bool_decide (address_specification restr = B_EXACT_ADDRESS)) new1 new2 s
    | Ok => ∃ b R r, o = Some b ∧ inserted a (roundup size PAGE_SIZE) b s s' ∧ ranges s !! r = Some R ∧
        placed restr k size (bool_decide (address_specification restr = B_EXACT_ADDRESS)) b R s
    end.
Proof.
  intros [Har [L Hs]] Hq Hn Hr0 Hr HA Hnew. unfold InsertArea.
  destruct (allocate_ok L HBS new1 new2 random0 random restr size k (bool_decide (address_specification restr = B_EXACT_ADDRESS)) s Hs Hq Hn Hr0 Hr) as (x & s1 & -> & Hx).
  cbn [mbind outcome_bind]. destruct x as [e|r]; [by destruct Hx as [-> Hx]; eexists _, _, s|]. destruct Hx as (R & b & HR & Hpl & Hfx & Hr1 & Hcl). set (n := roundup size PAGE_SIZE) in *.
  rewrite Hr1. cbn [deref mbind outcome_bind]. pose proof (fixed_fields _ _ Hfx) as (X1 & X2 & X3 & X4 & _). rewrite X3. cbn. rewrite HA. cbn [deref mbind outcome_bind].
  destruct (Hcl (RANGE_AREA a) (fun R => R <| r_type := RANGE_AREA a |>)) as [(L' & Hs') C2 C3 C4]; [done|done|]. set (s2 := upd_range r _ s1) in *. cbn [r_base r_size].
  eexists _, _, _. split; [reflexivity|]. exists b, R, r. split_and!; [done| |done|done]. set (s3 := update fFreeSpace _ _).
  assert (space_rep L' s3) as Hs3 by (by destruct Hs' as [? [[? ? ? ? ?] [? ?]] ? ? ?]; split; [|split; split|..]).
  split; [split; [|by exists L']|done|by exists r|by cbn; rewrite X4|].
  - intros y Y a' HY Ha'. change (ranges s3) with (ranges s2) in HY. destruct (decide (y = r)) as [->|Hne].
    + rewrite C3 in HY. injection HY as <-. injection Ha' as <-. cbn. rewrite lookup_alter_eq, X3. cbn. rewrite HA. cbn. eexists. split; [reflexivity|]. done.
    + pose proof (C4 y Y a' HY Ha' Hne) as HY0. destruct (Har y Y a' HY0 Ha') as (A' & HA' & ?). exists A'. split; [|done]. cbn. rewrite lookup_alter_ne, X3; [done|].
      intros <-. by apply (Hnew y Y HY0).
  - intros a' Hne. cbn. rewrite lookup_alter_ne, X3 by congruence. done.
Qed.

(** C10: InsertArea into a well-formed kernel address space (the ranges tile
    the space, no two free ranges meet, list, tree and free lists agree,
    areas and their ranges agree), for every address specification, every
    random number and every outcome of the allocations, for a size that can
    be rounded up to pages, with an alignment and a hardware block size that
    are powers of two, at least a page and at most the base of the space,
    and with two kinds of requests excluded, on which the code fails a check
    or goes wrong (see the findings for lines 766 and 908): an exact range
    that runs over the end of the 64-bit address space, and a randomized
    base address whose range, from the start of the search, ends behind the
    last address of the space. It never fails a check; on an error nothing
    has changed; otherwise the space is well-formed, exactly the addresses
    of the new area, rounded up to pages, changed their use, they were free
    before (or reserved, for an exact address), and the area is at the exact
    address or aligned as asked for. *)
Theorem kernel_insert_area_correct (HBS : Z) (new1 new2 : option Z) (random0 random a size : Z) (A : karea) (restr : restrictions) (k : Z) (s : kspace)
    (Hok : kspace_ok s) (Hq : request_ok HBS restr size k s) (Hn : fresh_ranges new1 new2 s) (Hr0 : 0 <= random0) (Hr : 0 <= random)
    (HA : kareas s !! a = Some A) (Hnew : area_new a s) :
  ∃ st o s', InsertArea HBS new1 new2 random0 random a size restr s = Ret (st, o, s') ∧
    match st with
    | Err _ => o = None ∧ s' = s
    | Ok => ∃ b, o = Some b ∧ inserted a (roundup size PAGE_SIZE) b s s' ∧
        (∀ x, b <= x < b + roundup size PAGE_SIZE → use s x = Some RANGE_FREE ∨
          address_specification restr = B_EXACT_ADDRESS ∧ ∃ rb flags, use s x = Some (RANGE_RESERVED rb flags)) ∧
        if decide (address_specification restr = B_EXACT_ADDRESS) then b = raddress restr else b mod 2 ^ k = 0
    end.
Proof.
  destruct (insert_area_ok HBS new1 new2 random0 random a A size restr k s Hok Hq Hn Hr0 Hr HA Hnew) as (st & o & s' & E & Hst). exists st, o, s'. split; [done|].
  destruct st as [|e]; [|by destruct Hst as (? & ? & _)]. destruct Hst as (b & R & r & -> & Hin & HR & Hpl). exists b. split_and!; [done|done| |].
  - destruct Hok as [_ [L Hs]]. intros x Hx. rewrite (placed_use L r R _ _ _ _ _ _ Hs HR Hpl x Hx). destruct (pl_type _ _ _ _ _ _ _ Hpl) as [Hf|[He Hf]].
    + left. f_equal. by apply is_free_true.
    + right. apply bool_decide_eq_true in He. split; [done|]. unfold is_res in Hf. destruct (r_type R); [done|eauto|done].
  - case_decide; [by apply Hpl|by apply Hpl].
Qed.

Lemma area_range L s r R a : space_rep L s → areas_ok s → ranges s !! r = Some R → r_type R = RANGE_AREA a →
  ∃ L1 L2 A, L = L1 ++ (r, R) :: L2 ∧ kareas s !! a = Some A ∧ ka_range A = Some r ∧ ka_base A = r_base R ∧ ka_size A = r_size R ∧ is_free R = false.
Proof.
  intros Hs Har HR Ha. destruct (Har r R a HR Ha) as (A & HA & E1 & E2 & E3). pose proof (sr_all _ _ Hs r R HR) as (L1 & L2 & ->)%list_elem_of_split.
  exists L1, L2, A. split_and!; try done. unfold is_free. apply bool_decide_eq_false_2. congruence.
Qed.

Lemma range_freed_ok L1 r R L2 s s' : space_rep (L1 ++ (r, R) :: L2) s → areas_ok s → freed L1 r R L2 s s' → kspace_ok s'.
Proof.
  intros Hs Har [Hfx (Lp & q & F & Ln & Hs' & _) _ Hrg]. split; [|by eexists]. pose proof (fixed_fields _ _ Hfx) as (_ & _ & X3 & _).
  intros y Y a HY Ha. assert (is_free Y = false) as Hnf by (unfold is_free; apply bool_decide_eq_false_2; congruence). apply Hrg in HY as [_ HY]; [|done]. rewrite X3. by apply (Har y Y a).
Qed.

Lemma kernel_remove_area_ok a r R s : kspace_ok s → ranges s !! r = Some R → r_type R = RANGE_AREA a →
  ∃ s', RemoveArea a s = Ret s' ∧ kspace_ok s' ∧ (∀ x, use s' x = if (r_base R <=? x) && (x <? r_base R + r_size R) then Some RANGE_FREE else use s x) ∧
    fFreeSpace s' = u64 (fFreeSpace s + r_size R) ∧ (∀ n X, is_free X = false → ranges s' !! n = Some X ↔ n ≠ r ∧ ranges s !! n = Some X).
Proof.
  intros [Har [L Hs]] HR Ha. destruct (area_range L s r R a Hs Har HR Ha) as (L1 & L2 & A & -> & HA & E1 & _ & E3 & Hnf).
  destruct (FreeRange_ok L1 L2 r R s Hs Hnf) as (s1 & Es1 & Hfd). unfold RemoveArea. rewrite HA. cbn [deref mbind outcome_bind]. rewrite E1. cbn [deref mbind outcome_bind]. rewrite Es1. cbn [mbind outcome_bind].
  eexists. split; [reflexivity|]. destruct (range_freed_ok _ _ _ _ _ _ Hs Har Hfd) as [Har1 [L1' Hs1]]. pose proof (fixed_fields _ _ (fd_fixed _ _ _ _ _ _ Hfd)) as (_ & _ & _ & X4 & _). split_and!.
  - split; [done|]. exists L1'. by destruct Hs1 as [? [[? ? ? ? ?] [? ?]] ? ? ?]; split; [|split; split|..].
  - apply Hfd.
  - cbn. by rewrite X4, E3.
  - apply Hfd.
Qed.

(** C20: RemoveArea after InsertArea (of an area that was not placed, by an
    exact request, into a reserved range; for the requests of
    kernel_insert_area_correct, so without exact ranges that wrap around and
    randomized base addresses too close to the end of the space) joins the
    free ranges again: every address is used as before, the free space is
    the same, no range refers to the area, and the space is well-formed. *)
Theorem kernel_insert_remove (HBS : Z) (new1 new2 : option Z) (random0 random a size b : Z) (A : karea) (restr : restrictions) (k : Z) (s s1 : kspace)
    (Hok : kspace_ok s) (Hq : request_ok HBS restr size k s) (Hn : fresh_ranges new1 new2 s) (Hr0 : 0 <= random0) (Hr : 0 <= random)
    (HA : kareas s !! a = Some A) (Hnew : area_new a s) (Hfs : 0 <= fFreeSpace s < 2 ^ 64)
    (Hsp : address_specification restr = B_EXACT_ADDRESS → ∀ x, b <= x < b + roundup size PAGE_SIZE → use s x = Some RANGE_FREE)
    (Hin : InsertArea HBS new1 new2 random0 random a size restr s = Ret (Ok, Some b, s1)) :
  ∃ s2, RemoveArea a s1 = Ret s2 ∧ kspace_ok s2 ∧ (∀ x, use s2 x = use s x) ∧ fFreeSpace s2 = fFreeSpace s ∧ area_new a s2.
Proof.
  destruct (insert_area_ok HBS new1 new2 random0 random a A size restr k s Hok Hq Hn Hr0 Hr HA Hnew) as (st & o & s' & E & Hst). rewrite Hin in E. injection E as <- <- <-.
  destruct Hst as (b' & R & r & [= <-] & [I1 I2 (q & I3) I4 _] & HR & Hpl). set (n := roundup size PAGE_SIZE) in *.
  destruct (kernel_remove_area_ok a q _ s1 I1 I3 eq_refl) as (s2 & E2 & Hok2 & U2 & F2 & N2). exists s2. split_and!; [done|done| | |].
  - intros x. rewrite U2, I2. cbn [r_base r_size]. destruct ((b <=? x) && (x <? b + n)) eqn:Ex; [|done]. apply andb_prop in Ex as [Ex1%Z.leb_le Ex2%Z.ltb_lt].
    destruct Hok as [_ [L Hs]]. rewrite (placed_use L r R _ _ _ _ _ _ Hs HR Hpl x) by done. destruct (pl_type _ _ _ _ _ _ _ Hpl) as [Hf|[He Hf]]; [by rewrite (proj1 (is_free_true R) Hf)|].
    apply bool_decide_eq_true in He. pose proof (Hsp He x ltac:(lia)) as Hfree. rewrite (placed_use L r R _ _ _ _ _ _ Hs HR Hpl x) in Hfree by done. by rewrite Hfree.
  - rewrite F2, I4. cbn. unfold wrap. rewrite Zplus_mod_idemp_l. replace (fFreeSpace s - n + n) with (fFreeSpace s) by lia. by apply Z.mod_small.
  - intros y Y HY Ha. assert (is_free Y = false) as Hnf by (unfold is_free; apply bool_decide_eq_false_2; congruence). apply N2 in HY as [Hne HY]; [|done].
    destruct I1 as [Har _]. destruct (Har y Y a HY Ha) as (A1 & HA1 & Hq1 & _). destruct (Har q _ a I3 eq_refl) as (A2 & HA2 & Hq2 & _). congruence.
Qed.

(** Reserving a range. *)
Lemma reserve_range_ok HBS new1 new2 random0 random size restr flags k s :
  kspace_ok s → request_ok HBS restr size k s → fresh_ranges new1 new2 s → 0 <= random0 → 0 <= random → fDeleting s = false →
  ∃ st o s', ReserveAddressRange HBS new1 new2 random0 random size restr flags s = Ret (st, o, s') ∧
    match st with
    | Err _ => o = None ∧ s' = s
    | Ok => ∃ b, o = Some b ∧ kspace_ok s' ∧ (∀ x, b <= x < b + roundup size PAGE_SIZE → use s x = Some RANGE_FREE) ∧
        ∀ x, use s' x = if (b <=? x) && (x <? b + roundup size PAGE_SIZE) then Some (RANGE_RESERVED b flags) else use s x
    end.
Proof.
  intros [Har [L Hs]] Hq Hn Hr0 Hr Hdel. unfold ReserveAddressRange. rewrite Hdel.
  destruct (allocate_ok L HBS new1 new2 random0 random restr size k false s Hs Hq Hn Hr0 Hr) as (x & s1 & -> & Hx).
  cbn [mbind outcome_bind]. destruct x as [e|r]; [by destruct Hx as [-> _]; eexists _, _, s|]. destruct Hx as (R & b & HR & Hpl & Hfx & Hr1 & Hcl). set (n := roundup size PAGE_SIZE) in *.
  rewrite Hr1. cbn [deref mbind outcome_bind]. pose proof (fixed_fields _ _ Hfx) as (X1 & X2 & X3 & _).
  destruct (Hcl (RANGE_RESERVED b flags) (fun R => R <| r_type := RANGE_RESERVED (r_base R) flags |>)) as [(L' & Hs') C2 C3 C4]; [done|done|]. set (s2 := upd_range r _ s1) in *. cbn [r_base].
  eexists _, _, _. split; [reflexivity|]. exists b. split; [done|]. split_and!.
  - split; [|exists L'; by destruct Hs' as [? [[? ? ? ? ?] [? ?]] ? ? ?]; split; [|split; split|..]]. intros y Y a HY Ha. change (ranges s2 !! y = Some Y) in HY. change (kareas (Get s2)) with (kareas s1). rewrite X3.
    destruct (decide (y = r)) as [->|Hne]; [rewrite C3 in HY; injection HY as <-; done|]. by apply (Har y Y a), Ha; apply (C4 y Y a).
  - intros x Hx. rewrite (placed_use L r R _ _ _ _ _ _ Hs HR Hpl x Hx). destruct (pl_type _ _ _ _ _ _ _ Hpl) as [Hf|[? _]]; [|done]. f_equal. by apply is_free_true.
  - exact C2.
Qed.

(** ** Resizing *)

Section resize.
Context (L1 L2 : list (Z * Range)) (r a : Z) (R : Range) (s : kspace) (Hs : space_rep (L1 ++ (r, R) :: L2) s) (Har : areas_ok s) (Hty : r_type R = RANGE_AREA a).
Context (newSize : Z) (Hnew : 0 < newSize) (Hpn : (PAGE_SIZE | newSize)).
#[local] Set Default Proof Using "Type*".

Definition set_size s1 : kspace :=
  IncrementChangeCount (upd_karea a (fun A => mkKArea (ka_base A) newSize (Z.min (ka_commit_base A) (u64 (ka_base A + newSize))) (ka_range A))
    (upd_range r (fun R => mkRange (r_base R) newSize (r_type R)) s1)).

(** The ranges behind the area have changed; the area follows. *)
Lemma resize_finish ln ln' Ln e s1 :
  L2 = ln ++ Ln → rep (nlists s) (L1 ++ (r, R) :: ln' ++ Ln) (free_sizes (ranges s1)) s1 → fixed s1 = fixed s →
  tiles (r_base R + r_size R) ln.*2 e → tiles (r_base R + newSize) ln'.*2 e → joined (ln' ++ Ln).*2 →
  (∀ n X, ranges s1 !! n = Some X → (n, X) ∈ ln' ∧ is_area X = false ∨ n ∉ ln.*1 ∧ ranges s !! n = Some X) →
  kspace_ok (set_size s1) ∧ ∀ x, use (set_size s1) x = if (r_base R <=? x) && (x <? r_base R + newSize) then Some (RANGE_AREA a) else
    if (r_base R <=? x) && (x <? e) then owner ln'.*2 x else use s x.
Proof.
  intros E2 Hrep Hfx T T' Hj Hin. pose proof (fixed_fields _ _ Hfx) as (X1 & X2 & X3 & _). destruct (split_range _ _ _ _ _ Hs) as [HR Hro].
  destruct (upd_same_base _ _ _ _ _ _ (fun R => mkRange (r_base R) newSize (r_type R)) _ Hrep eq_refl) as [Hrep2 Er2]. set (s2 := upd_range r _ s1) in *. cbn beta in Hrep2, Er2.
  set (Rn := mkRange (r_base R) newSize (r_type R)) in *. assert (is_free R = false ∧ is_free Rn = false) as [Hf1 Hf2] by (unfold is_free; cbn; rewrite Hty; done).
  assert (Hr1 : ranges s1 !! r = Some R) by (apply (li_ranges _ _ (proj1 Hrep)); apply elem_of_app; right; left).
  assert (free_sizes (ranges s2) = free_sizes (ranges s1)) as EF.
  { rewrite Er2, free_sizes_insert, Hf2. apply delete_id. by rewrite (free_sizes_lookup _ _ _ Hr1), Hf1. }
  rewrite <- EF in Hrep2. pose proof Hs as Hs0. rewrite E2 in Hs0. change (L1 ++ (r, R) :: ln ++ Ln) with (L1 ++ ((r, R) :: ln) ++ Ln) in Hs0.
  destruct (replace_finish L1 ((r, R) :: ln) ((r, Rn) :: ln') Ln (r_base R) e s (set_size s1) Hs0) as [Hs' Hu]; try done.
  { destruct Hrep2 as [[? ? ? ? ?] [? ?]]. by split; split. }
  { cbn. split_and!; try done; destruct Hro as [_ _ ? [? _] _]; unfold PAGE_SIZE in *; lia || done. }
  { pose proof (sr_joined _ _ Hs) as Hj0. rewrite fmap_app in Hj0 |- *. cbn in Hj0 |- *. apply joined_mid; [done|]. apply joined_mid in Hj0; [|done]. split; [apply Hj0|]. by rewrite fmap_app in Hj |- *. }
  { intros n X HX. change (ranges s2 !! n = Some X) in HX. rewrite Er2 in HX. apply lookup_insert_Some in HX as [[<- <-]|[Hne HX]]; [left; left|].
    destruct (Hin n X HX) as [[? _]|[Hn ?]]; [left; by right|right]. split; [|done]. cbn. rewrite elem_of_cons. intros [->|?]; done. }
  split; [split; [|by eexists]|].
  - intros y Y a' HY Ha'. change (ranges s2 !! y = Some Y) in HY. rewrite Er2 in HY. cbn. apply lookup_insert_Some in HY as [[<- <-]|[Hne HY]].
    + cbn in Ha'. assert (a' = a) as -> by congruence. destruct (Har r R a HR Hty) as (A & HA & H1 & H2 & H3). rewrite lookup_alter_eq, X3, HA. eexists. split; [reflexivity|]. cbn. done.
    + destruct (Hin y Y HY) as [[_ Hna]|[_ HY0]]; [unfold is_area in Hna; by rewrite Ha' in Hna|]. destruct (Har y Y a' HY0 Ha') as (A & HA & H1 & H2 & H3).
      destruct (decide (a' = a)) as [->|Hna]; [|exists A; by rewrite lookup_alter_ne, X3 by congruence]. exfalso.
      destruct (Har r R a HR Hty) as (A' & HA' & H1' & _). congruence.
  - intros x. rewrite Hu. cbn [fmap list_fmap snd owner]. unfold Rn. cbn [r_base r_size r_type]. pose proof (tiles_le _ _ _ T'). rewrite Hty.
    destruct (Z.leb_spec (r_base R) x), (Z.ltb_spec x (r_base R + newSize)), (Z.ltb_spec x e); cbn [andb]; try done; lia.
Qed.

(** The effect of [ResizeArea]. *)
Definition resized s' : Prop :=
  kspace_ok s' ∧ ∀ x, use s' x = if (r_base R <=? x) && (x <? r_base R + newSize) then Some (RANGE_AREA a)
    else if (r_base R <=? x) && (x <? r_base R + r_size R) then Some RANGE_FREE else use s x.

(** The use of the range behind. *)
Lemma next_use n N Ln x : L2 = (n, N) :: Ln → r_base R + r_size R <= x < r_base R + r_size R + r_size N → use s x = Some (r_type N).
Proof.
  intros E2 Hx. rewrite (use_rep _ _ _ Hs). pose proof (sr_tiles _ _ Hs) as Ht. rewrite E2, fmap_app in Ht |- *. cbn in Ht |- *.
  replace (L1.*2 ++ R :: N :: Ln.*2) with ((L1.*2 ++ [R]) ++ N :: Ln.*2) in Ht |- * by (by rewrite <- app_assoc). apply (owner_in _ _ _ _ _ _ Ht).
  apply tiles_app in Ht as (m & T1 & (Eb & _)). apply tiles_app in T1 as (m' & T1 & (Eb' & _ & _ & E')). cbn in E'. lia.
Qed.

Lemma behind : (∀ n N Ln, L2 = (n, N) :: Ln → r_base N = r_base R + r_size R ∧ range_ok s N ∧ ranges s !! n = Some N ∧ n ≠ r ∧ n ∉ L1.*1 ∧ n ∉ Ln.*1 ∧ (∀ x, x ∈ Ln → r_base N + r_size N <= r_base x.2)) ∧
  (∀ x, x ∈ L1 → r_base x.2 < r_base R).
Proof.
  destruct (neighbours_sorted _ _ _ _ _ Hs) as (N1 & N2 & N3). split; [|intros x Hx; specialize (N1 x Hx); lia]. intros n N Ln E2. pose proof (sr_tiles _ _ Hs) as Ht. pose proof Hs as Hs0. rewrite E2 in Hs0, Ht.
  replace (L1 ++ (r, R) :: (n, N) :: Ln) with ((L1 ++ [(r, R)]) ++ (n, N) :: Ln) in Hs0 by (by rewrite <- app_assoc). destruct (listed_split _ _ _ _ _ (proj1 (sr_rep _ _ Hs0))) as (M1 & M2 & _ & HN).
  rewrite fmap_app in M1. cbn in M1. rewrite elem_of_app, elem_of_cons, elem_of_nil in M1. rewrite fmap_app in Ht. cbn in Ht. apply tiles_app in Ht as (m & _ & (Eb & _ & _ & (Eb' & _))).
  split_and!; [lia|by apply (stored_range _ s n N Hs0)|done|tauto|tauto|done|]. by apply (neighbours_sorted _ _ _ _ _ Hs0).
Qed.

(** Shrinking in front of a free range: it is enlarged. *)
Lemma shrink_free n N Ln : L2 = (n, N) :: Ln → is_free N = true → newSize < r_size R →
  ∃ s0 s1, _FreeListRemoveRange n (r_size N) s = Ret s0 ∧
    _FreeListInsertRange n (u64 (r_size N + u64 (r_size R - newSize))) (upd_range n (fun N' => mkRange (u64 (r_base R + newSize)) (u64 (r_size N + u64 (r_size R - newSize))) (r_type N')) s0) = Ret s1 ∧
    resized (set_size s1).
Proof.
  intros E2 Hf Hlt. destruct behind as [Hb H1]. destruct (Hb n N Ln E2) as (Eb & Hno & HN & Hnr & Hn1 & Hn2 & HLn). destruct (split_range _ _ _ _ _ Hs) as [HR Hro].
  destruct Hro as [B1 B2 B3 [B4 B5] B6]. destruct Hno as [C1 C2 C3 [C4 C5] C6]. destruct (sr_base _ _ Hs) as (P1 & _ & P2). unfold PAGE_SIZE in B3, C3.
  rewrite (wrap_small 64 (r_size R - newSize)), (wrap_small 64 (r_base R + newSize)) by (unfold fits; lia). rewrite (wrap_small 64 (r_size N + _)) by (unfold fits; lia). set (m := r_size N + (r_size R - newSize)).
  assert (PAGE_SIZE | m) as Hpm by (apply Z.divide_add_r; [done|by apply Z.divide_sub_r]). assert (PAGE_SIZE <= m ∧ (slot m < nlists s)%nat) as [M1 M2].
  { assert (PAGE_SIZE <= m) by (apply page_positive; [unfold m; lia|done]). split; [done|]. unfold nlists. apply Nat.lt_succ_r, slot_mono. unfold m in *. lia. }
  pose proof (sr_rep _ _ Hs) as [Hl0 Hf0]. assert (HFn : free_sizes (ranges s) !! n = Some (r_size N)) by (by rewrite (free_sizes_lookup _ _ _ HN), Hf).
  destruct (FreeListRemove_ok _ _ s n (r_size N) Hf0 C3 C6 HFn) as (s0 & R0 & Hf1 & Es0). exists s0.
  assert (rep (nlists s) ((L1 ++ [(r, R)]) ++ (n, N) :: Ln) (delete n (free_sizes (ranges s))) s0) as Hrep0 by (split; [rewrite <- app_assoc; cbn; rewrite <- E2; destruct Hl0; rewrite Es0; by split|done]).
  destruct (upd_range_ok _ _ _ _ _ _ (fun N' => mkRange (r_base R + newSize) m (r_type N')) _ Hrep0) as [Hrep1 Er1].
  { intros x [Hx| ->%list_elem_of_singleton]%elem_of_app; cbn; [specialize (H1 x Hx)|]; lia. } { intros x Hx. specialize (HLn x Hx). cbn. lia. }
  set (s1 := upd_range n _ s0) in *. cbn beta in Hrep1, Er1. rewrite (proj1 (is_free_true N) Hf) in Hrep1, Er1. set (F := mkRange _ m RANGE_FREE) in *.
  destruct (FreeListInsert_ok _ _ s1 n m (proj2 Hrep1) M1 M2) as (s2 & R2 & Hf2 & Es2); [apply lookup_delete_eq|]. exists s2. split_and!; [done|done|].
  assert (ranges s2 = <[n := F]> (ranges s)) as Ers by (rewrite Es2; cbn [ranges]; change (ranges s1 = <[n := F]> (ranges s)); rewrite Er1; by rewrite Es0).
  destruct (resize_finish [(n, N)] [(n, F)] Ln (r_base N + r_size N) s2) as [Hok Hu]; try done.
  - rewrite <- app_assoc in Hrep1. cbn [app] in *. rewrite Ers, free_sizes_insert. cbn. rewrite insert_delete_eq in Hf2. destruct Hrep1 as [[? ? ? ? ?] _]. destruct Hf2. rewrite Es2 in *. by split; split.
  - rewrite Es2. change (fixed s0 = fixed s). by rewrite Es0.
  - cbn. split_and!; [done|lia|done|lia].
  - cbn. split_and!; [done|unfold m; lia|done|unfold m; lia].
  - pose proof (sr_joined _ _ Hs) as Hj. rewrite E2, fmap_app in Hj. cbn in Hj. replace (L1.*2 ++ R :: N :: Ln.*2) with ((L1.*2 ++ [R]) ++ N :: Ln.*2) in Hj by (by rewrite <- app_assoc).
    cbn. apply (joined_swap (L1.*2 ++ [R]) F N); [by rewrite Hf|done].
  - intros y Y. rewrite Ers. intros [[<- <-]|[Hne HY]]%lookup_insert_Some; [left; split; [left|done]|right]. split; [|done]. cbn. rewrite list_elem_of_singleton. congruence.
  - split; [done|]. intros x. rewrite Hu. cbn. pose proof (next_use n N Ln x E2) as Hx. rewrite (proj1 (is_free_true N) Hf) in Hx. unfold m.
    destruct (Z.leb_spec (r_base R) x), (Z.ltb_spec x (r_base R + newSize)), (Z.ltb_spec x (r_base N + r_size N)), (Z.ltb_spec x (r_base R + r_size R)), (Z.leb_spec (r_base R + newSize) x),
      (Z.ltb_spec x (r_base R + newSize + (r_size N + (r_size R - newSize)))); cbn [andb]; try done; try lia. symmetry. apply Hx. lia.
Qed.

(** Shrinking in front of another range: there is a new free range. *)
Lemma shrink_new n : free_one (head L2) = None → newSize < r_size R → ranges s !! n = None →
  ∃ s1, _InsertRange n (new_range n (mkRange (u64 (r_base R + newSize)) (u64 (r_size R - newSize)) RANGE_FREE) s) = Ret s1 ∧ resized (set_size s1).
Proof.
  intros Hh Hlt Hn. destruct behind as [_ H1]. destruct (neighbours_sorted _ _ _ _ _ Hs) as (_ & H2 & _). destruct (split_range _ _ _ _ _ Hs) as [HR [B1 B2 B3 [B4 B5] B6]].
  destruct (sr_base _ _ Hs) as (P1 & _ & P2). unfold PAGE_SIZE in B3. rewrite (wrap_small 64 (r_size R - newSize)), (wrap_small 64 (r_base R + newSize)) by (unfold fits; lia).
  set (F := mkRange _ _ RANGE_FREE). pose proof (fresh_out _ _ n Hs Hn) as Hout. assert (PAGE_SIZE | r_size R - newSize) as Hpm by (by apply Z.divide_sub_r).
  assert (PAGE_SIZE <= r_size R - newSize) as M1 by (apply page_positive; [lia|done]).
  destruct (InsertRange_ok (nlists s) (L1 ++ [(r, R)]) L2 (free_sizes (ranges s)) n F (new_range n F s)) as (s1 & E & Hrep & Er & Ef).
  - rewrite <- app_assoc. apply new_range_ok; [apply (sr_rep _ _ Hs)|done].
  - apply lookup_insert_eq.
  - by rewrite <- app_assoc.
  - intros x [Hx| ->%list_elem_of_singleton]%elem_of_app; cbn; [specialize (H1 x Hx)|]; lia.
  - intros x Hx. specialize (H2 x Hx). cbn. lia.
  - intros _. split_and!; [done| |unfold free_sizes; by rewrite lookup_omap, Hn]. unfold nlists. apply Nat.lt_succ_r, slot_mono. cbn. lia.
  - exists s1. split; [done|]. cbn in Hrep. rewrite <- app_assoc in Hrep. destruct (resize_finish [] [(n, F)] L2 (r_base R + r_size R) s1) as [Hok Hu]; try done.
    + rewrite Er. cbn. rewrite free_sizes_insert. exact Hrep.
    + cbn. split_and!; [done|lia|done|lia].
    + pose proof (sr_joined _ _ Hs) as Hj. rewrite fmap_app in Hj. cbn in Hj. apply joined_mid in Hj as [_ Hj]; [|unfold is_free; by rewrite Hty]. cbn. split; [|done].
      destruct L2 as [|[y Y] L2']; [done|]. cbn in *. by destruct (is_free Y).
    + intros y Y. rewrite Er. change (ranges (new_range n F s)) with (<[n := F]> (ranges s)). intros [[<- <-]|[Hne HY]]%lookup_insert_Some; [left; split; [left|done]|right]. split; [by intros ?%elem_of_nil|done].
    + split; [done|]. intros x. rewrite Hu. cbn.
      destruct (Z.leb_spec (r_base R) x), (Z.ltb_spec x (r_base R + newSize)), (Z.ltb_spec x (r_base R + r_size R)), (Z.leb_spec (r_base R + newSize) x),
        (Z.ltb_spec x (r_base R + newSize + (r_size R - newSize))); cbn [andb]; try done; lia.
Qed.

(** Growing over the whole next range. *)
Lemma grow_all n N Ln : L2 = (n, N) :: Ln → is_area N = false → newSize = r_size R + r_size N →
  ∃ s1, _RemoveRange n s = Ret s1 ∧ resized (set_size (delete_range n s1)).
Proof.
  intros E2 Hna Hsz. destruct behind as [Hb H1]. destruct (Hb n N Ln E2) as (Eb & [C1 C2 C3 [C4 C5] C6] & HN & Hnr & Hn1 & Hn2 & HLn). unfold PAGE_SIZE in C3.
  pose proof (sr_rep _ _ Hs) as Hrep. rewrite E2 in Hrep. replace (L1 ++ (r, R) :: (n, N) :: Ln) with ((L1 ++ [(r, R)]) ++ (n, N) :: Ln) in Hrep by (by rewrite <- app_assoc).
  destruct (RemoveRange_ok _ _ _ _ _ _ _ Hrep) as (s1 & E & Hrep1 & Er & Ef); [intros Hf; split_and!; [done|done|by rewrite (free_sizes_lookup _ _ _ HN), Hf]|]. exists s1. split; [done|].
  rewrite <- app_assoc in Hrep1. cbn [app] in Hrep1. assert (Hn : n ∉ (L1 ++ (r, R) :: Ln).*1) by (rewrite fmap_app; cbn; rewrite elem_of_app, elem_of_cons; tauto).
  pose proof (delete_range_ok _ _ _ _ n Hrep1 Hn) as Hrep2. assert (ranges (delete_range n s1) = delete n (ranges s)) as Ers by (cbn; by rewrite Er).
  destruct (resize_finish [(n, N)] [] Ln (r_base N + r_size N) (delete_range n s1)) as [Hok Hu]; try done.
  - rewrite Ers, free_sizes_delete. cbn [app]. destruct (is_free N) eqn:Hf; [done|]. rewrite delete_id; [done|]. by rewrite (free_sizes_lookup _ _ _ HN), Hf.
  - cbn. split_and!; [done|lia|done|lia].
  - cbn. lia.
  - pose proof (sr_joined _ _ Hs) as Hj. rewrite E2, fmap_app in Hj. cbn in Hj. apply joined_parts in Hj as [_ [_ [_ Hj]]]. done.
  - intros y Y. rewrite Ers. intros [Hne HY]%lookup_delete_Some. right. split; [|done]. cbn. rewrite list_elem_of_singleton. congruence.
  - split; [done|]. intros x. rewrite Hu. cbn.
    destruct (Z.leb_spec (r_base R) x), (Z.ltb_spec x (r_base R + newSize)), (Z.ltb_spec x (r_base N + r_size N)), (Z.ltb_spec x (r_base R + r_size R)); cbn [andb]; try done; lia.
Qed.

(** Growing over a part of it. *)
Lemma grow_part n N Ln : L2 = (n, N) :: Ln → is_area N = false → r_size R < newSize < r_size R + r_size N →
  let f := fun N' => mkRange (u64 (r_base R + newSize)) (u64 (r_size N - u64 (newSize - r_size R))) (r_type N') in
  ∃ s0 s1, (if is_free N then _FreeListRemoveRange n (r_size N) s else Ret s) = Ret s0 ∧
    (if is_free N then _FreeListInsertRange n (u64 (r_size N - u64 (newSize - r_size R))) (upd_range n f s0) else Ret (upd_range n f s0)) = Ret s1 ∧ resized (set_size s1).
Proof.
  intros E2 Hna Hsz f. destruct behind as [Hb H1]. destruct (Hb n N Ln E2) as (Eb & [C1 C2 C3 [C4 C5] C6] & HN & Hnr & Hn1 & Hn2 & HLn). destruct (split_range _ _ _ _ _ Hs) as [HR [B1 B2 B3 [B4 B5] B6]].
  destruct (sr_base _ _ Hs) as (P1 & _ & P2). unfold PAGE_SIZE in B3, C3. unfold f. rewrite (wrap_small 64 (newSize - r_size R)), (wrap_small 64 (r_base R + newSize)) by (unfold fits; lia).
  rewrite (wrap_small 64 (r_size N - _)) by (unfold fits; lia). set (m := r_size N - (newSize - r_size R)). clear f. set (f := fun N' => mkRange (r_base R + newSize) m (r_type N')).
  assert (PAGE_SIZE | m) as Hpm by (apply Z.divide_sub_r; [done|by apply Z.divide_sub_r]). assert (PAGE_SIZE <= m ∧ (slot m < nlists s)%nat) as [M1 M2].
  { assert (PAGE_SIZE <= m) by (apply page_positive; [unfold m; lia|done]). split; [done|]. unfold nlists. apply Nat.lt_succ_r, slot_mono. unfold m in *. lia. }
  pose proof (sr_rep _ _ Hs) as [Hl0 Hf0].
  assert (∃ s0, (if is_free N then _FreeListRemoveRange n (r_size N) s else Ret s) = Ret s0 ∧ rep (nlists s) ((L1 ++ [(r, R)]) ++ (n, N) :: Ln) (delete n (free_sizes (ranges s))) s0 ∧
    ranges s0 = ranges s ∧ fixed s0 = fixed s) as (s0 & E0 & Hrep0 & Er0 & Ef0).
  { rewrite <- app_assoc. cbn. rewrite <- E2. destruct (is_free N) eqn:Hf.
    - destruct (FreeListRemove_ok _ _ s n (r_size N) Hf0 C3 C6) as (s0 & R0 & Hf1 & Es0); [by rewrite (free_sizes_lookup _ _ _ HN), Hf|]. exists s0. split; [done|]. rewrite Es0. split_and!; try done.
      split; [by destruct Hl0; split|]. rewrite <- Es0. done.
    - exists s. rewrite delete_id by (by rewrite (free_sizes_lookup _ _ _ HN), Hf). done. }
  exists s0. destruct (upd_range_ok _ _ _ _ _ _ f _ Hrep0) as [Hrep1 Er1].
  { intros x [Hx| ->%list_elem_of_singleton]%elem_of_app; cbn; [specialize (H1 x Hx)|]; lia. } { intros x Hx. specialize (HLn x Hx). cbn. lia. }
  set (s1 := upd_range n f s0) in *. set (F := f N) in *. assert (is_free F = is_free N) as HfF by done.
  assert (∃ s2, (if is_free N then _FreeListInsertRange n m s1 else Ret s1) = Ret s2 ∧ rep (nlists s) ((L1 ++ [(r, R)]) ++ (n, F) :: Ln) (free_sizes (<[n := F]> (ranges s))) s2 ∧
    ranges s2 = <[n := F]> (ranges s) ∧ fixed s2 = fixed s) as (s2 & E3 & Hrep2 & Er2 & Ef2).
  { rewrite free_sizes_insert, HfF. destruct (is_free N) eqn:Hf; [|exists s1; split_and!; [done|done|by rewrite Er1, Er0|exact Ef0]].
    destruct (FreeListInsert_ok _ _ s1 n m (proj2 Hrep1) M1 M2) as (s2 & R2 & Hf2 & Es2); [apply lookup_delete_eq|]. exists s2. rewrite insert_delete_eq in Hf2. split; [done|]. split; [|split].
    - split; [|done]. destruct Hrep1 as [[? ? ? ? ?] _]. rewrite Es2. by split.
    - rewrite Es2. change (ranges s1 = <[n := F]> (ranges s)). by rewrite Er1, Er0.
    - rewrite Es2. exact Ef0. }
  exists s2. split_and!; [done|done|]. rewrite <- app_assoc in Hrep2. cbn [app] in Hrep2. destruct (resize_finish [(n, N)] [(n, F)] Ln (r_base N + r_size N) s2) as [Hok Hu]; try done.
  - by rewrite Er2.
  - cbn. split_and!; [done|lia|done|lia].
  - cbn. split_and!; [done|unfold m; lia|done|unfold m; lia].
  - pose proof (sr_joined _ _ Hs) as Hj. rewrite E2, fmap_app in Hj. cbn in Hj. replace (L1.*2 ++ R :: N :: Ln.*2) with ((L1.*2 ++ [R]) ++ N :: Ln.*2) in Hj by (by rewrite <- app_assoc).
    cbn. apply (joined_swap (L1.*2 ++ [R]) F N); done.
  - intros y Y. rewrite Er2. intros [[<- <-]|[Hne HY]]%lookup_insert_Some; [left; split; [left|done]|right]. split; [|done]. cbn. rewrite list_elem_of_singleton. congruence.
  - split; [done|]. intros x. rewrite Hu. cbn. pose proof (next_use n N Ln x E2) as Hx. unfold m.
    destruct (Z.leb_spec (r_base R) x), (Z.ltb_spec x (r_base R + newSize)), (Z.ltb_spec x (r_base N + r_size N)), (Z.ltb_spec x (r_base R + r_size R)), (Z.leb_spec (r_base R + newSize) x),
      (Z.ltb_spec x (r_base R + newSize + (r_size N - (newSize - r_size R)))); cbn [andb]; try done; try lia. symmetry. apply Hx. lia.
Qed.
End resize.

(** Resizing an area. *)
Lemma kernel_resize_correct (a r newSize : Z) (R : Range) (new : option Z) (s : kspace) (Hok : kspace_ok s) (HR : ranges s !! r = Some R) (Hty : r_type R = RANGE_AREA a)
    (Hnew : 0 < newSize < 2 ^ 64) (Hpn : (PAGE_SIZE | newSize)) (Hn : ∀ n, new = Some n → ranges s !! n = None) :
  ∃ can, CanResizeArea a newSize s = Ret can ∧
    (can = true → ∃ st s', ResizeArea a newSize new s = Ret (st, s') ∧
      match st with
      | Err e => e = ENOMEM ∧ new = None ∧ newSize < r_size R ∧ s' = s
      | Ok => resized a R s newSize s' ∧
          ∀ x, r_base R + r_size R <= x < r_base R + newSize → use s x = Some RANGE_FREE ∨ ∃ rb flags, use s x = Some (RANGE_RESERVED rb flags)
      end).
Proof.
  destruct Hok as [Har [L Hs]]. destruct (area_range L s r R a Hs Har HR Hty) as (L1 & L2 & A & -> & HA & E1 & E2 & E3 & Hnf). pose proof (proj1 (sr_rep _ _ Hs)) as Hl.
  unfold CanResizeArea, ResizeArea, range_of. rewrite HA. cbn [deref mbind outcome_bind]. rewrite E1. cbn [deref mbind outcome_bind]. rewrite HR. cbn [deref mbind outcome_bind].
  rewrite (GetNext_split _ _ _ _ _ Hl). destruct (stored_range _ s r R Hs HR) as [B1 B2 B3 [B4 B5] B6]. destruct (sr_base _ _ Hs) as (P1 & _ & P2). unfold PAGE_SIZE in B3.
  assert (Hnext : ∀ n N Ln, L2 = (n, N) :: Ln → ranges s !! n = Some N).
  { intros n N Ln EL. apply (li_ranges _ _ Hl). rewrite EL. apply elem_of_app. right. right. left. }
  destruct (Z.leb_spec newSize (r_size R)) as [Hle|Hgt].
  - exists true. split; [done|]. intros _. destruct (Z.eqb_spec newSize (r_size R)) as [->|Hne].
    { exists Ok, s. split; [done|]. split; [|intros x Hx; lia]. split; [by split; [|eexists]|]. intros x. destruct (_ && _) eqn:Ex; [|done]. apply andb_prop in Ex as [X1%Z.leb_le X2%Z.ltb_lt].
      rewrite (use_rep _ _ _ Hs), fmap_app. cbn. pose proof (sr_tiles _ _ Hs) as Ht. rewrite fmap_app in Ht. rewrite (owner_in _ _ _ _ _ _ Ht); [cbn; by rewrite Hty|done]. }
    rewrite (proj2 (Z.ltb_lt newSize (r_size R))) by lia.
    assert ((match fst <$> head L2 with None => Ret None | Some n => N ← deref (ranges s !! n); Ret (Some (n, N)) end) = Ret (head L2)) as ->.
    { destruct L2 as [|[n N] Ln]; [done|]. cbn. by rewrite (Hnext n N Ln). }
    cbn [mbind outcome_bind]. fold (free_one (head L2)). destruct (free_one (head L2)) as [[n N]|] eqn:Ef.
    + apply free_one_head in Ef as (Ln & EL & Hf). destruct (shrink_free L1 L2 r a R s Hs Har Hty newSize (proj1 Hnew) Hpn n N Ln EL Hf ltac:(lia)) as (s0 & s1 & G1 & G2 & G3).
      exists Ok, (set_size r a newSize s1). split; [|split; [done|intros x Hx; lia]].
      eapply ret_bind; [eapply ret_bind; [exact G1|]; eapply ret_bind; [exact G2|reflexivity]|reflexivity].
    + destruct new as [n|]; [|by exists (Err ENOMEM), s; split; [|split_and!; [..|lia|]]].
      destruct (shrink_new L1 L2 r a R s Hs Har Hty newSize (proj1 Hnew) Hpn n Ef ltac:(lia) (Hn n eq_refl)) as (s1 & G1 & G2).
      exists Ok, (set_size r a newSize s1). split; [|split; [done|intros x Hx; lia]]. eapply ret_bind; [eapply ret_bind; [exact G1|reflexivity]|reflexivity].
  - destruct L2 as [|[n N] Ln] eqn:EL; [by exists false|]. cbn [head fmap option_fmap option_map fst]. rewrite (Hnext n N Ln eq_refl). cbn [deref mbind outcome_bind].
    destruct (is_area N) eqn:Hna; [by exists false|]. destruct (reserved_above N R) eqn:Hra; [by exists false|]. rewrite (wrap_small 64 (newSize - r_size R)) by (unfold fits; lia).
    eexists. split; [reflexivity|]. intros Hcan%Z.leb_le. destruct (Z.eqb_spec newSize (r_size R)); [lia|]. rewrite (proj2 (Z.ltb_ge newSize (r_size R))) by lia.
    rewrite (proj2 (Z.ltb_ge (r_size N) (newSize - r_size R))) by lia.
    assert (Htaken : ∀ x, r_base R + r_size R <= x < r_base R + newSize → use s x = Some RANGE_FREE ∨ ∃ rb flags, use s x = Some (RANGE_RESERVED rb flags)).
    { intros x Hx. rewrite (next_use L1 ((n, N) :: Ln) r a R s Hs Har Hty n N Ln x eq_refl) by lia. unfold is_area in Hna. destruct (r_type N); [by left|right; eauto|done]. }
    destruct (Z.eqb_spec (newSize - r_size R) (r_size N)) as [Eq|Hne].
    + destruct (grow_all L1 ((n, N) :: Ln) r a R s Hs Har Hty newSize (proj1 Hnew) Hpn n N Ln eq_refl Hna ltac:(lia)) as (s1 & G1 & G2).
      exists Ok, (set_size r a newSize (delete_range n s1)). split; [|by split]. eapply ret_bind; [eapply ret_bind; [exact G1|reflexivity]|reflexivity].
    + destruct (grow_part L1 ((n, N) :: Ln) r a R s Hs Har Hty newSize (proj1 Hnew) Hpn n N Ln eq_refl Hna ltac:(lia)) as (s0 & s1 & G1 & G2 & G3).
      rewrite (wrap_small 64 (newSize - r_size R)) in G2 by (unfold fits; lia).
      exists Ok, (set_size r a newSize s1). split; [|by split]. eapply ret_bind; [eapply ret_bind; [exact G1|]; eapply ret_bind; [exact G2|reflexivity]|reflexivity].
Qed.

(** ** Shrinking at the head *)

Section shrink_head.
Context (L1 L2 : list (Z * Range)) (r a : Z) (R : Range) (s : kspace) (Hs : space_rep (L1 ++ (r, R) :: L2) s) (Har : areas_ok s) (Hty : r_type R = RANGE_AREA a).
Context (newSize : Z) (Hnew : 0 < newSize < r_size R) (Hpn : (PAGE_SIZE | newSize)).
#[local] Set Default Proof Using "Type*".

#[local] Abbreviation diff := (r_size R - newSize).
#[local] Abbreviation Rn := (mkRange (r_base R + diff) newSize (r_type R)).

Definition set_head s1 : kspace :=
  IncrementChangeCount (upd_karea a (fun A => mkKArea (r_base R + diff) newSize (Z.max (r_base R + diff) (ka_commit_base A)) (ka_range A)) s1).

(** The effect. *)
Definition head_shrunk s' : Prop :=
  kspace_ok s' ∧ ∀ x, use s' x = if (r_base R <=? x) && (x <? r_base R + diff) then Some RANGE_FREE else use s x.

Lemma head_finish p P Lp lp s1 : L1 = Lp ++ lp → rep (nlists s) (Lp ++ [(p, P); (r, Rn)] ++ L2) (free_sizes (ranges s1)) s1 → fixed s1 = fixed s → is_free P = true →
  tiles (r_base P) (lp.*2 ++ [R]) (r_base R + r_size R) → tiles (r_base P) [P] (r_base R + diff) → joined (Lp.*2 ++ [P]) → (∀ x, r_base P <= x < r_base R → use s x = Some RANGE_FREE) →
  (∀ n X, ranges s1 !! n = Some X → (n, X) = (p, P) ∨ (n, X) = (r, Rn) ∨ n ≠ r ∧ n ∉ lp.*1 ∧ ranges s !! n = Some X) → head_shrunk (set_head s1).
Proof.
  intros E1 Hrep Hfx Hf T T' Hj Hfree Hin. pose proof (fixed_fields _ _ Hfx) as (X1 & X2 & X3 & _). destruct (split_range _ _ _ _ _ Hs) as [HR Hro].
  pose proof Hs as Hs0. rewrite E1, <- app_assoc in Hs0. replace (Lp ++ lp ++ (r, R) :: L2) with (Lp ++ (lp ++ [(r, R)]) ++ L2) in Hs0 by (by rewrite <- app_assoc).
  assert (Hd : (PAGE_SIZE | diff)) by (apply Z.divide_sub_r; [apply Hro|done]).
  destruct (replace_finish Lp (lp ++ [(r, R)]) [(p, P); (r, Rn)] L2 (r_base P) (r_base R + r_size R) s (set_head s1) Hs0) as [Hs' Hu]; try done.
  { destruct Hrep as [[? ? ? ? ?] [? ?]]. by split; split. } { by destruct lp. } { by rewrite fmap_app. }
  { cbn in T' |- *. destruct T' as (_ & ? & ? & E). split_and!; try done; lia. }
  { rewrite !fmap_app. cbn. replace (Lp.*2 ++ P :: Rn :: L2.*2) with ((Lp.*2 ++ [P]) ++ Rn :: L2.*2) by (by rewrite <- app_assoc). apply joined_mid; [unfold is_free; cbn; by rewrite Hty|]. split; [done|].
    pose proof (sr_joined _ _ Hs) as Hj0. rewrite fmap_app in Hj0. apply joined_parts in Hj0 as [_ [_ ?]]. done. }
  { intros n X HX. destruct (Hin n X HX) as [->|[->|(N1 & N2 & H)]]; [left; left|left; right; left|right]. split; [|done]. rewrite fmap_app, elem_of_app. cbn. rewrite list_elem_of_singleton. tauto. }
  split; [split; [|by eexists]|].
  - intros y Y a' HY Ha'. change (ranges s1 !! y = Some Y) in HY. cbn. destruct (Har r R a HR Hty) as (A & HA & H1 & H2 & H3). destruct (Hin y Y HY) as [[= -> ->]|[[= -> ->]|(N1 & N2 & H)]].
    + apply is_free_true in Hf. congruence.
    + cbn in Ha'. assert (a' = a) as -> by congruence. rewrite lookup_alter_eq, X3, HA. eexists. split; [reflexivity|]. done.
    + destruct (Har y Y a' H Ha') as (A' & HA' & H1' & H2' & H3'). destruct (decide (a' = a)) as [->|Hne]; [congruence|]. exists A'. by rewrite lookup_alter_ne, X3 by congruence.
  - intros x. rewrite Hu. cbn [fmap list_fmap snd owner]. cbn [r_base r_size r_type]. destruct T' as (_ & Hp & _ & Ep). cbn in Ep. rewrite (proj1 (is_free_true P) Hf). rewrite Hty.
    assert (r_base R <= x < r_base R + r_size R → use s x = Some (RANGE_AREA a)) as Hin_R.
    { intros Hx. rewrite (use_rep _ _ _ Hs), fmap_app. pose proof (sr_tiles _ _ Hs) as Ht. rewrite fmap_app in Ht. cbn in *. rewrite (owner_in _ _ _ _ _ _ Ht Hx). by rewrite Hty. }
    assert (r_base P <= r_base R) as HPR by (apply tiles_app in T as (m & ?%tiles_le & (<- & _)); done).
    destruct (Z.leb_spec (r_base P) x), (Z.ltb_spec x (r_base R + r_size R)), (Z.leb_spec (r_base R) x), (Z.ltb_spec x (r_base R + diff)), (Z.ltb_spec x (r_base P + r_size P)),
      (Z.leb_spec (r_base R + diff) x), (Z.ltb_spec x (r_base R + diff + newSize)); cbn [andb]; try done; try lia; symmetry; first [apply Hfree; lia|apply Hin_R; lia].
Qed.

(** The range before is free and is enlarged. *)
Lemma head_free p P Lp : L1 = Lp ++ [(p, P)] → is_free P = true →
  ∃ s0 s1, _FreeListRemoveRange p (r_size P) s = Ret s0 ∧ _FreeListInsertRange p (u64 (r_size P + diff)) (upd_range p (fun P' => mkRange (r_base P') (u64 (r_size P + diff)) (r_type P')) s0) = Ret s1 ∧
    head_shrunk (set_head (upd_range r (fun R' => mkRange (u64 (r_base R' + diff)) newSize (r_type R')) s1)).
Proof.
  intros E1 Hf. destruct (split_range _ _ _ _ _ Hs) as [HR [B1 B2 B3 [B4 B5] B6]]. pose proof Hs as Hs0. rewrite E1, <- app_assoc in Hs0. cbn [app] in Hs0.
  destruct (split_range _ _ _ _ _ Hs0) as [HP [C1 C2 C3 [C4 C5] C6]]. destruct (neighbours_sorted _ _ _ _ _ Hs0) as (N1 & N2 & _). destruct (neighbours_sorted _ _ _ _ _ Hs) as (_ & N3 & _).
  destruct (sr_base _ _ Hs) as (P1 & _ & P2). unfold PAGE_SIZE in B3, C3. assert (r_base R = r_base P + r_size P) as Eb.
  { pose proof (sr_tiles _ _ Hs0) as Ht. rewrite fmap_app in Ht. cbn in Ht. apply tiles_app in Ht as (m & _ & (-> & _ & _ & (-> & _))). done. }
  rewrite (wrap_small 64 (r_size P + diff)) by (unfold fits; lia). set (m := r_size P + diff). assert (PAGE_SIZE | m) as Hpm by (apply Z.divide_add_r; [done|by apply Z.divide_sub_r]).
  assert (PAGE_SIZE <= m ∧ (slot m < nlists s)%nat) as [M1 M2].
  { assert (PAGE_SIZE <= m) by (apply page_positive; [unfold m; lia|done]). split; [done|]. unfold nlists. apply Nat.lt_succ_r, slot_mono. unfold m in *. lia. }
  pose proof (sr_rep _ _ Hs0) as [Hl0 Hf0]. destruct (FreeListRemove_ok _ _ s p (r_size P) Hf0 C3 C6) as (s0 & R0 & Hf1 & Es0); [by rewrite (free_sizes_lookup _ _ _ HP), Hf|]. exists s0.
  assert (rep (nlists s) (Lp ++ (p, P) :: (r, R) :: L2) (delete p (free_sizes (ranges s))) s0) as Hrep0 by (split; [destruct Hl0; rewrite Es0; by split|done]).
  destruct (upd_same_base _ _ _ _ _ _ (fun P' => mkRange (r_base P') m (r_type P')) _ Hrep0 eq_refl) as [Hrep1 Er1]. set (s1 := upd_range p _ s0) in *. cbn beta in Hrep1, Er1.
  rewrite (proj1 (is_free_true P) Hf) in Hrep1, Er1. set (F := mkRange (r_base P) m RANGE_FREE) in *.
  destruct (FreeListInsert_ok _ _ s1 p m (proj2 Hrep1) M1 M2) as (s2 & R2 & Hf2 & Es2); [apply lookup_delete_eq|]. exists s2. split_and!; [done|done|]. rewrite insert_delete_eq in Hf2.
  assert (ranges s2 = <[p := F]> (ranges s)) as Er2 by (rewrite Es2; change (ranges s1 = <[p := F]> (ranges s)); rewrite Er1; by rewrite Es0).
  assert (rep (nlists s) ((Lp ++ [(p, F)]) ++ (r, R) :: L2) (<[p := m]> (free_sizes (ranges s))) s2) as Hrep2 by (rewrite <- app_assoc; split; [destruct Hrep1 as [[? ? ? ? ?] _]; rewrite Es2; by split|done]).
  destruct (upd_range_ok _ _ _ _ _ _ (fun R' => mkRange (u64 (r_base R' + diff)) newSize (r_type R')) _ Hrep2) as [Hrep3 Er3].
  { cbn. rewrite wrap_small by (unfold fits; lia). intros x [Hx| ->%list_elem_of_singleton]%elem_of_app; cbn; [specialize (N1 x Hx)|]; lia. }
  { cbn. rewrite wrap_small by (unfold fits; lia). intros x Hx. specialize (N3 x Hx). lia. }
  set (s3 := upd_range r _ s2) in *. cbn beta in Hrep3, Er3. rewrite (wrap_small 64 (r_base R + diff)) in Hrep3, Er3 by (unfold fits; lia). rewrite Er2 in Er3.
  assert (p ≠ r) as Hpr by (intros ->; assert (P = R) by congruence; subst; apply is_free_true in Hf; congruence).
  assert (is_free Rn = false ∧ is_free R = false) as [Hfn HfR] by (unfold is_free; cbn; by rewrite Hty).
  apply (head_finish p F Lp [(p, P)] s3); try done.
  - rewrite <- app_assoc in Hrep3. rewrite Er3, free_sizes_insert, Hfn, free_sizes_insert. cbn [is_free]. change (is_free F) with true. cbn iota.
    rewrite delete_id; [exact Hrep3|]. rewrite lookup_insert_ne by done. by rewrite (free_sizes_lookup _ _ _ HR), HfR.
  - change (fixed s2 = fixed s). rewrite Es2. change (fixed s0 = fixed s). by rewrite Es0.
  - cbn. split_and!; try done; lia.
  - cbn. split_and!; try done; unfold m; lia.
  - pose proof (sr_joined _ _ Hs0) as Hj. rewrite fmap_app in Hj. apply (joined_swap _ F P _) in Hj; [apply Hj|by rewrite Hf].
  - intros x Hx. rewrite (use_rep _ _ _ Hs0), fmap_app. pose proof (sr_tiles _ _ Hs0) as Ht. rewrite fmap_app in Ht. cbn in *. rewrite (owner_in _ _ _ _ _ _ Ht) by lia. by rewrite (proj1 (is_free_true P) Hf).
  - intros n X. rewrite Er3. intros [[<- <-]|[Hne HX]]%lookup_insert_Some; [by right; left|]. apply lookup_insert_Some in HX as [[<- <-]|[Hne' HX]]; [by left|]. right. right.
    split_and!; [congruence|cbn; rewrite list_elem_of_singleton; congruence|done].
Qed.

(** There is a new free range. *)
Lemma head_new p : free_one (last L1) = None → ranges s !! p = None →
  ∃ s1, _InsertRange p (upd_range r (fun R' => mkRange (u64 (r_base R' + diff)) newSize (r_type R')) (new_range p (mkRange (r_base R) diff RANGE_FREE) s)) = Ret s1 ∧ head_shrunk (set_head s1).
Proof.
  intros Hp Hn. destruct (split_range _ _ _ _ _ Hs) as [HR [B1 B2 B3 [B4 B5] B6]]. destruct (neighbours_sorted _ _ _ _ _ Hs) as (N1 & N2 & _). destruct (sr_base _ _ Hs) as (P1 & _ & P2). unfold PAGE_SIZE in B3.
  set (F := mkRange (r_base R) diff RANGE_FREE). pose proof (fresh_out _ _ p Hs Hn) as Hout. assert (p ≠ r) as Hpr by (intros ->; congruence). assert (PAGE_SIZE | diff) as Hpm by (by apply Z.divide_sub_r).
  assert (is_free Rn = false ∧ is_free R = false) as [Hfn HfR] by (unfold is_free; cbn; by rewrite Hty).
  destruct (upd_range_ok _ _ _ _ _ _ (fun R' => mkRange (u64 (r_base R' + diff)) newSize (r_type R')) _ (new_range_ok _ _ _ _ p F (sr_rep _ _ Hs) Hout)) as [Hrep1 Er1].
  { cbn. rewrite wrap_small by (unfold fits; lia). intros x Hx. specialize (N1 x Hx). lia. } { cbn. rewrite wrap_small by (unfold fits; lia). intros x Hx. specialize (N2 x Hx). lia. }
  set (s1 := upd_range r _ _) in *. cbn beta in Hrep1, Er1. rewrite (wrap_small 64 (r_base R + diff)) in Hrep1, Er1 by (unfold fits; lia). change (ranges (new_range p F s)) with (<[p := F]> (ranges s)) in Er1.
  destruct (InsertRange_ok (nlists s) L1 ((r, Rn) :: L2) (free_sizes (ranges s)) p F s1 Hrep1) as (s2 & E & Hrep2 & Er2 & Ef2).
  - by rewrite Er1, lookup_insert_ne, lookup_insert_eq.
  - by rewrite fmap_app in *.
  - intros x Hx. specialize (N1 x Hx). cbn. lia.
  - intros x [->|Hx]%elem_of_cons; cbn; [lia|]. specialize (N2 x Hx). lia.
  - intros _. assert (PAGE_SIZE <= diff) by (apply page_positive; [lia|done]). split_and!; [done| |unfold free_sizes; by rewrite lookup_omap, Hn]. unfold nlists. apply Nat.lt_succ_r, slot_mono. cbn. lia.
  - exists s2. split; [done|]. change (is_free F) with true in Hrep2. cbn iota in Hrep2. apply (head_finish p F L1 [] s2); try done.
    + by rewrite app_nil_r.
    + rewrite Er2, Er1, free_sizes_insert, Hfn, free_sizes_insert. change (is_free F) with true. cbn iota. rewrite delete_id; [exact Hrep2|]. rewrite lookup_insert_ne by done.
      by rewrite (free_sizes_lookup _ _ _ HR), HfR.
    + cbn. split_and!; try done; lia.
    + cbn. split_and!; try done; lia.
    + pose proof (sr_joined _ _ Hs) as Hj. rewrite fmap_app in Hj. apply joined_parts in Hj as [Hj _]. apply joined_snoc; [done|]. rewrite fmap_last. destruct (last L1) as [[y Y]|]; [|done]. cbn in *. by destruct (is_free Y).
    + intros x Hx. cbn in Hx. lia.
    + intros n X. rewrite Er2, Er1. intros [[<- <-]|[Hne HX]]%lookup_insert_Some; [by right; left|]. apply lookup_insert_Some in HX as [[<- <-]|[Hne' HX]]; [by left|]. right. right.
      split_and!; [congruence|by intros ?%elem_of_nil|done].
Qed.
End shrink_head.

(** Cutting off the head of an area. *)
Lemma kernel_shrink_head_ok a r newSize R new s : kspace_ok s → ranges s !! r = Some R → r_type R = RANGE_AREA a → 0 < newSize < r_size R → (PAGE_SIZE | newSize) →
  (∀ n, new = Some n → ranges s !! n = None) →
  ∃ st s', ShrinkAreaHead a newSize new s = Ret (st, s') ∧ match st with Err e => e = ENOMEM ∧ new = None ∧ s' = s | Ok => head_shrunk R s newSize s' end.
Proof.
  intros [Har [L Hs]] HR Hty Hnew Hpn Hn. destruct (area_range L s r R a Hs Har HR Hty) as (L1 & L2 & A & -> & HA & E1 & E2 & E3 & Hnf). pose proof (proj1 (sr_rep _ _ Hs)) as Hl.
  unfold ShrinkAreaHead, range_of. rewrite HA. cbn [deref mbind outcome_bind]. rewrite E1. cbn [deref mbind outcome_bind]. rewrite HR. cbn [deref mbind outcome_bind].
  rewrite (proj2 (Z.eqb_neq _ _)), (proj2 (Z.ltb_ge _ _)) by lia. rewrite (GetPrevious_split _ _ _ _ _ Hl). rewrite (free_at_ok _ _ (last L1) Hl) by (intros x Hx; apply elem_of_app; left; by apply last_Some_elem_of).
  cbn [mbind outcome_bind]. destruct (stored_range _ s r R Hs HR) as [B1 B2 B3 _ _]. destruct (sr_base _ _ Hs) as (P1 & _ & P2).
  rewrite (wrap_small 64 (r_size R - newSize)) by (unfold fits; lia). rewrite (wrap_small 64 (r_base R + _)) by (unfold fits; lia).
  destruct (free_one (last L1)) as [[p P]|] eqn:Ep.
  - unfold free_one in Ep. destruct (last L1) as [[p' P']|] eqn:El; [|done]. cbn in Ep. destruct (is_free P') eqn:Hf; [|done]. injection Ep as -> ->. apply last_Some in El as [Lp El].
    destruct (head_free L1 L2 r a R s Hs Har Hty newSize Hnew Hpn p P Lp El Hf) as (s0 & s1 & G1 & G2 & G3). eexists Ok, _. split; [|exact G3].
    eapply ret_bind; [eapply ret_bind; [exact G1|]; eapply ret_bind; [exact G2|reflexivity]|reflexivity].
  - destruct new as [p|]; [|by exists (Err ENOMEM), s]. destruct (head_new L1 L2 r a R s Hs Har Hty newSize Hnew Hpn p Ep (Hn p eq_refl)) as (s1 & G1 & G2). eexists Ok, _. split; [|exact G2].
    eapply ret_bind; [eapply ret_bind; [exact G1|reflexivity]|reflexivity].
Qed.

(** ** Unreserving *)

Definition contains R (x : Z) : Prop := r_base R <= x < r_base R + r_size R.
Definition before (e : option Z) R : Prop := match e with None => True | Some e => r_base R + r_size R - 1 <= e end.
#[global] Instance contains_dec R x : Decision (contains R x).
Proof. unfold contains. apply _. Defined.
#[global] Instance before_dec e R : Decision (before e R).
Proof. unfold before. destruct e; apply _. Defined.
(** The reserved ranges among the given ones that end before [e]. *)
Definition released (e : option Z) (l : list Range) (x : Z) : Prop := ∃ R, R ∈ l ∧ is_res R = true ∧ before e R ∧ contains R x.

Lemma skip_free_ok L s : (∀ r R, (r, R) ∈ L → ranges s !! r = Some R) →
  (skip_free L.*1 s = Ret None ∧ ∀ x, x ∈ L → is_free x.2 = true) ∨
  ∃ Lf r R L', L = Lf ++ (r, R) :: L' ∧ skip_free L.*1 s = Ret (Some r) ∧ is_free R = false ∧ ∀ x, x ∈ Lf → is_free x.2 = true.
Proof.
  induction L as [|[r R] L IH]; intros HL; cbn; [left; split; [done|by intros ? ?%elem_of_nil]|]. rewrite (HL r R) by left. cbn. destruct (is_free R) eqn:Hf.
  - destruct IH as [[E H]|(Lf & y & Y & L' & -> & E & Hy & H)]; [intros; apply HL; by right| |].
    + left. split; [done|]. intros x [->|]%elem_of_cons; auto.
    + right. exists ((r, R) :: Lf), y, Y, L'. split_and!; try done. intros x [->|]%elem_of_cons; auto.
  - right. exists [], r, R, L. split_and!; try done. by intros ? ?%elem_of_nil.
Qed.

Lemma released_not_free e l x : (∀ R, R ∈ l → is_free R = true) → ¬ released e l x.
Proof. intros H (R & HR & Hr & _). specialize (H R HR). unfold is_free, is_res in *. apply bool_decide_eq_true in H. by rewrite H in Hr. Qed.

Lemma released_app e l1 l2 x : released e (l1 ++ l2) x ↔ released e l1 x ∨ released e l2 x.
Proof.
  unfold released. setoid_rewrite elem_of_app. split; [intros (R & [H|H] & ?); [left|right]; by exists R|]. intros [(R & H & ?)|(R & H & ?)]; exists R; split; [by left|done|by right|done].
Qed.

(** What is left of the list of ranges behind the range that is freed. *)
Lemma freed_rest L1 r R Lf y Y L' s s' : freed L1 r R (Lf ++ (y, Y) :: L') s s' → is_free Y = false → ∃ L1', space_rep (L1' ++ (y, Y) :: L') s'.
Proof.
  intros [_ (Lp & q & F & Ln & Hs' & _ & _ & HL) _ _] Hy. destruct HL as [<-|(n & N & E & HN)].
  - exists (Lp ++ (q, F) :: Lf). by rewrite <- app_assoc.
  - destruct Lf as [|z Lf]; cbn in E; injection E as -> <-; [congruence|]. exists (Lp ++ (q, F) :: Lf). by rewrite <- app_assoc.
Qed.

Lemma unreserve_loop_ok e fuel : ∀ L1 r R L2 s, space_rep (L1 ++ (r, R) :: L2) s → areas_ok s → (length L2 < fuel)%nat →
  ∃ s', unreserve_loop fuel e (Some r) s = Ret s' ∧ kspace_ok s' ∧ ∀ x, (released e (R :: L2.*2) x → use s' x = Some RANGE_FREE) ∧ (¬ released e (R :: L2.*2) x → use s' x = use s x).
Proof.
  induction fuel as [|fuel IH]; intros L1 r R L2 s Hs Har Hfu; [lia|]. destruct (split_range _ _ _ _ _ Hs) as [HR Hro]. cbn [unreserve_loop]. rewrite HR. cbn [deref mbind outcome_bind].
  rewrite (range_last _ s Hs R Hro). pose proof (proj1 (sr_rep _ _ Hs)) as Hl. destruct (neighbours_sorted _ _ _ _ _ Hs) as (_ & N2 & _).
  destruct (match e with None => true | Some e => r_base R + r_size R - 1 <=? e end) eqn:Eend.
  2:{ exists s. split; [done|]. split; [by split; [|eexists]|]. intros x. split; [|done]. intros (Q & HQ & _ & He & _). exfalso. destruct e as [e|]; [|done]. apply Z.leb_gt in Eend. cbn in He.
      apply elem_of_cons in HQ as [->|([q Q'] & -> & HQ)%list_elem_of_fmap]; [lia|]. specialize (N2 _ HQ). cbn in *.
      assert (range_ok s Q') as [_ _ ? _ _] by (apply (in_range _ s q Q' Hs); apply elem_of_app; by do 2 right). unfold PAGE_SIZE in *. lia. }
  assert (before e R) as Hbe by (destruct e; [by apply Z.leb_le in Eend|done]).
  rewrite (list_after _ _ _ _ _ Hl).
  assert (∃ s1, (if is_res R then s0 ← _FreeRange r s; Ret (Put s0) else Ret s) = Ret s1 ∧ kspace_ok s1 ∧
    (∀ Lf y Y L', L2 = Lf ++ (y, Y) :: L' → is_free Y = false → ∃ L1', space_rep (L1' ++ (y, Y) :: L') s1) ∧
    ∀ x, (is_res R = true ∧ contains R x → use s1 x = Some RANGE_FREE) ∧ (¬ (is_res R = true ∧ contains R x) → use s1 x = use s x)) as (s1 & E1 & Hok1 & Hrest & Hu1).
  { destruct (is_res R) eqn:Hres.
    - assert (is_free R = false) as Hnf by (unfold is_res, is_free in *; apply bool_decide_eq_false_2; intros E; by rewrite E in Hres).
      destruct (FreeRange_ok L1 L2 r R s Hs Hnf) as (s1 & -> & Hfd). cbn [mbind outcome_bind]. exists (Put s1). assert (∀ L', space_rep L' s1 → space_rep L' (Put s1)) as Hput.
      { intros L' [? [[? ? ? ? ?] [? ?]] ? ? ?]. by split; [|split; split|..]. }
      split_and!; [done| | |].
      + destruct (range_freed_ok _ _ _ _ _ _ Hs Har Hfd) as [Ha [L' HL']]. split; [done|]. exists L'. by apply Hput.
      + intros Lf y Y L' -> HY. destruct (freed_rest _ _ _ _ _ _ _ _ _ Hfd HY) as [L1' H]. exists L1'. by apply Hput.
      + intros x. change (use (Put s1) x) with (use s1 x). rewrite (fd_use _ _ _ _ _ _ Hfd). unfold contains. split; [intros [_ Hx]|intros Hx]; destruct (Z.leb_spec (r_base R) x), (Z.ltb_spec x (r_base R + r_size R)); cbn [andb]; try lia; done.
    - exists s. split_and!; [done|by split; [|eexists]| |intros x; split; [by intros [? _]|done]]. intros Lf y Y L' -> _. exists (L1 ++ (r, R) :: Lf). by rewrite <- app_assoc. }
  assert (Hrel : ∀ l x, released e (R :: l) x ↔ (is_res R = true ∧ contains R x) ∨ released e l x).
  { intros l x. unfold released. setoid_rewrite elem_of_cons. split; [intros (Q & [->|HQ] & H1 & H2 & H3); [by left|right; eauto]|]. intros [[H1 H2]|(Q & HQ & H)]; [exists R; auto|exists Q; auto]. }
  destruct (skip_free_ok L2 s) as [[Esk Hall]|(Lf & y & Y & L' & EL & Esk & HY & Hfr)]; [intros n N Hn; apply (li_ranges _ _ Hl); apply elem_of_app; by do 2 right| |];
    rewrite Esk; cbn [mbind outcome_bind]; rewrite E1; cbn [mbind outcome_bind].
  - exists s1. split; [by destruct fuel|]. split; [done|]. intros x. assert (¬ released e L2.*2 x) as Hno by (apply released_not_free; intros Q ([q Q'] & -> & HQ)%list_elem_of_fmap; by apply (Hall _ HQ)).
    rewrite Hrel. split; [intros [H|?]; [by apply Hu1|done]|]. intros H. apply Hu1. tauto.
  - destruct (Hrest Lf y Y L' EL HY) as [L1' Hs1]. destruct (IH L1' y Y L' s1 Hs1 (proj1 Hok1)) as (s' & E' & Hok' & Hu'); [rewrite EL, length_app in Hfu; cbn in Hfu; lia|].
    exists s'. split; [done|]. split; [done|]. intros x. assert (released e L2.*2 x ↔ released e (Y :: L'.*2) x) as Hiff.
    { rewrite EL, fmap_app, released_app. cbn. split; [|by right]. intros [H|?]; [|done]. exfalso. revert H. apply released_not_free. intros Q ([q Q'] & -> & HQ)%list_elem_of_fmap. by apply (Hfr _ HQ). }
    rewrite Hrel, Hiff. destruct (Hu' x) as [U1 U2], (Hu1 x) as [V1 V2]. assert (released e (Y :: L'.*2) x ∨ ¬ released e (Y :: L'.*2) x) as [Hr|Hr].
    { unfold released. destruct (decide (Exists (fun Q => is_res Q = true ∧ before e Q ∧ contains Q x) (Y :: L'.*2))) as [H|H].
      - left. apply Exists_exists in H as (Q & HQ & H). by exists Q.
      - right. intros (Q & HQ & H'). apply H, Exists_exists. by exists Q. }
    + split; [by intros; apply U1|]. intros H. exfalso. apply H. by right.
    + rewrite U2 by done. split; [intros [H|?]; [by apply V1|done]|]. intros H. apply V2. tauto.
Qed.

Lemma kspace_open s : kspace_ok s → ∃ L, space_rep L s ∧ areas_ok s.
Proof. intros [H [L HL]]. by exists L. Qed.

(** The reserved ranges that lie in a range of addresses, or anywhere. *)
Definition unreserved (address size : Z) s (x : Z) : Prop :=
  ∃ r R, ranges s !! r = Some R ∧ is_res R = true ∧ address <= r_base R ∧ r_base R + r_size R <= address + size ∧ contains R x.
Definition reserved s (x : Z) : Prop := ∃ r R, ranges s !! r = Some R ∧ is_res R = true ∧ contains R x.

(** UnreserveAddressRange returns and makes exactly the reserved ranges
    that lie in the given address range free, UnreserveAllAddressRanges all
    reserved ranges, although _FreeRange joins and deletes ranges while the
    loops walk over them; both keep the space well-formed and every other
    address as it was. *)
Lemma kernel_unreserve_correct (address size : Z) (s : kspace) (Hok : kspace_ok s) (Hdel : fDeleting s = false) (Ha : 0 <= address) (Hsz : 0 < size) (Hend : address + size <= 2 ^ 64) :
  (∃ s', UnreserveAddressRange address size s = Ret (Ok, s') ∧ kspace_ok s' ∧
    ∀ x, (unreserved address size s x → use s' x = Some RANGE_FREE) ∧ (¬ unreserved address size s x → use s' x = use s x)) ∧
  ∃ s', UnreserveAllAddressRanges s = Ret s' ∧ kspace_ok s' ∧
    ∀ x, (reserved s x → use s' x = Some RANGE_FREE) ∧ (¬ reserved s x → use s' x = use s x).
Proof.
  destruct (kspace_open s Hok) as (L & Hs & Har). pose proof (proj1 (sr_rep _ _ Hs)) as Hl.
  assert (Hlen : length (list_of s) = length L) by (rewrite (li_list _ _ Hl); apply length_fmap).
  assert (HinL : ∀ r R, ranges s !! r = Some R ↔ (r, R) ∈ L) by (intros r R; split; [apply (sr_all _ _ Hs)|apply (li_ranges _ _ Hl)]).
  assert (Hrun : ∀ e L1 L2, L = L1 ++ L2 → ∃ s', unreserve_loop (length (list_of s)) e (fst <$> head L2) s = Ret s' ∧ kspace_ok s' ∧
    ∀ x, (released e L2.*2 x → use s' x = Some RANGE_FREE) ∧ (¬ released e L2.*2 x → use s' x = use s x)).
  { intros e L1 L2 ->. rewrite Hlen. destruct L2 as [|[r R] L2].
    - exists s. cbn [head fmap option_fmap option_map]. split; [by destruct (length (L1 ++ []))|]. split; [done|]. intros x. split; [|done]. by intros (R & ?%elem_of_nil & _).
    - apply (unreserve_loop_ok e _ L1 r R L2 s Hs Har). rewrite length_app. cbn. lia. }
  assert (Hrel : ∀ e l x, released e l.*2 x ↔ ∃ r R, (r, R) ∈ l ∧ is_res R = true ∧ before e R ∧ contains R x).
  { intros e l x. split; [intros (R & ([r R'] & -> & Hin)%list_elem_of_fmap & H); by exists r, R'|]. intros (r & R & Hin & H). exists R. split; [|done]. apply list_elem_of_fmap. by exists (r, R). }
  split.
  - unfold UnreserveAddressRange. rewrite Hdel. rewrite (wrap_small 64 (size - 1)) by (unfold fits; lia). rewrite (wrap_small 64 (address + (size - 1))) by (unfold fits; lia).
    destruct (base_split L s Hs (address - 1)) as (L1 & L2 & EL & H1 & H2). rewrite (closest_greater L1 L2 s address); [|by rewrite <- EL|intros x Hx; specialize (H1 x Hx); lia|intros x Hx; specialize (H2 x Hx); lia].
    destruct (Hrun (Some (address + (size - 1))) L1 L2 EL) as (s' & -> & Hok' & Hu). exists s'. split; [done|]. split; [done|]. intros x.
    assert (unreserved address size s x ↔ released (Some (address + (size - 1))) L2.*2 x) as ->; [|apply Hu]. rewrite Hrel. unfold unreserved. setoid_rewrite HinL. rewrite EL. setoid_rewrite elem_of_app. split.
    + intros (r & R & [Hin|Hin] & G1 & G2 & G3 & G4); [specialize (H1 _ Hin); cbn in H1; lia|]. exists r, R. split_and!; try done. cbn. lia.
    + intros (r & R & Hin & G1 & G2 & G3). specialize (H2 _ Hin). cbn in *. exists r, R. split_and!; try done; [by right|lia|lia].
  - unfold UnreserveAllAddressRanges. assert (head (list_of s) = fst <$> head L) as -> by (rewrite (li_list _ _ Hl); by destruct L).
    destruct (Hrun None [] L eq_refl) as (s' & -> & Hok' & Hu). exists s'. split; [done|]. split; [done|]. intros x.
    assert (reserved s x ↔ released None L.*2 x) as ->; [|apply Hu]. rewrite Hrel. unfold reserved. setoid_rewrite HinL. split; [intros (r & R & ? & ? & ?); by exists r, R|intros (r & R & ? & ? & _ & ?); by exists r, R].
Qed.

(** ** Looking areas up, and the checks of the code *)

Lemma closest_use L s x : space_rep L s → 0 <= x →
  (closest x true s = None ∧ use s x = None) ∨
  ∃ r R, closest x true s = Some r ∧ ranges s !! r = Some R ∧ range_ok s R ∧ r_base R <= x ∧ use s x = if x <? r_base R + r_size R then Some (r_type R) else None.
Proof.
  intros Hs Hx. destruct (base_split L s Hs x) as (L1 & L2 & EL & H1 & H2). pose proof (proj1 (sr_rep _ _ Hs)) as Hl. pose proof (sr_tiles _ _ Hs) as Ht. rewrite (use_rep _ _ _ Hs). rewrite EL in Hl, Ht |- *.
  rewrite (kernel_closest_less L1 L2 s x Hl H1 H2). destruct (last L1) as [[r R]|] eqn:E; cbn [fmap option_fmap option_map fst].
  - right. apply last_Some in E as [L0 ->]. exists r, R. rewrite <- app_assoc in *. cbn [app] in *. assert (ranges s !! r = Some R) as HR by (apply (li_ranges _ _ Hl), elem_of_app; right; left).
    rewrite fmap_app in *. cbn in *. assert (r_base R <= x) as Hb by (apply (H1 (r, R)), elem_of_app; right; left). split_and!; try done; [by apply (stored_range L s r R Hs)|].
    destruct (Z.ltb_spec x (r_base R + r_size R)); [by apply (owner_in _ _ _ _ _ _ Ht)|]. apply tiles_app in Ht as (m & T1 & (Em & T2 & _ & T3)). subst m.
    rewrite (owner_app _ _ _ _ _ T1). destruct (Z.ltb_spec x (r_base R)); [lia|]. rewrite andb_false_r. cbn. destruct (Z.ltb_spec x (r_base R + r_size R)); [lia|]. rewrite andb_false_r.
    destruct L2 as [|[y Y] L2]; [done|]. exfalso. cbn in T3. destruct T3 as (Ey & _). specialize (H2 (y, Y) ltac:(left)). cbn in H2. lia.
  - left. split; [done|]. apply last_None in E as ->. destruct L2 as [|[y Y] L2]; [done|]. apply (owner_out _ _ _ _ Ht). left. specialize (H2 (y, Y) ltac:(left)). cbn in H2, Ht. lia.
Qed.

Lemma lookup_area_ok s x : kspace_ok s → 0 <= x → LookupArea x s = Ret (match use s x with Some (RANGE_AREA a) => Some a | _ => None end).
Proof.
  intros Hok Hx. destruct (kspace_open s Hok) as (L & Hs & Har). unfold LookupArea. destruct (closest_use L s x Hs Hx) as [[-> ->]|(r & R & -> & HR & Hro & Hb & ->)]; [done|].
  rewrite HR. cbn [deref mbind outcome_bind]. destruct (r_type R) eqn:Et; try (by destruct (x <? _)). destruct (Har r R rarea HR Et) as (A & HA & _ & E1 & E2). rewrite HA. cbn [deref mbind outcome_bind]. rewrite E1, E2.
  rewrite (range_last L s Hs R Hro). destruct (Z.leb_spec (r_base R) x), (Z.leb_spec x (r_base R + r_size R - 1)), (Z.ltb_spec x (r_base R + r_size R)); cbn [andb]; try done; lia.
Qed.

Lemma check_ranges_ok s L : ∀ lo hi (pf : bool), (∀ r R, (r, R) ∈ L → ranges s !! r = Some R) → tiles lo L.*2 hi → joined L.*2 →
  (pf = true → match head L with Some x => is_free x.2 = false | None => True end) → 0 < fBase s <= lo → hi <= fEndAddress s + 1 → fEndAddress s < 2 ^ 64 →
  check_ranges L.*1 L.*1 (u64 lo) pf s = Ret (u64 hi).
Proof.
  induction L as [|[r R] L IH]; intros lo hi pf HL Ht Hj Hpf Hlo Hhi Hend; [by cbn in *; subst|]. cbn [fmap list_fmap fst check_ranges]. rewrite bool_decide_eq_true_2 by done. cbn [assert mbind outcome_bind].
  rewrite (HL r R) by left. cbn [deref mbind outcome_bind]. cbn in Ht. destruct Ht as (Eb & Hp & Hd & Ht). pose proof (tiles_le _ _ _ Ht) as Hle.
  rewrite (wrap_small 64 lo) by (unfold fits; lia). rewrite (proj2 (Z.eqb_eq (r_base R) lo)) by done. cbn [assert mbind outcome_bind].
  rewrite (proj2 (Z.eqb_neq (r_size R) 0)) by lia. cbn [assert negb mbind outcome_bind]. rewrite (proj2 (Z.eqb_eq (r_size R mod PAGE_SIZE) 0)) by (by apply Z.mod_divide). cbn [assert mbind outcome_bind].
  rewrite (wrap_small 64 (fEndAddress s - fBase s + 1)), (wrap_small 64 (r_base R - fBase s)) by (unfold fits; lia). rewrite (wrap_small 64 (_ - (_ - _))) by (unfold fits; lia).
  rewrite (proj2 (Z.leb_le _ _)) by lia. cbn [assert mbind outcome_bind].
  assert (is_free R && pf = false) as -> by (destruct pf; [|apply andb_false_r]; specialize (Hpf eq_refl); cbn in Hpf; by rewrite Hpf). cbn [assert negb mbind outcome_bind].
  rewrite Eb. apply IH; [intros; apply HL; by right|done|apply Hj| |lia|done|done]. intros Hf. cbn in Hj. destruct L as [|[y Y] L]; [done|]. cbn in *. destruct Hj as [Hj _]. by rewrite Hf in Hj.
Qed.

Lemma find_key L s r R : listed L s → (r, R) ∈ L → list_find (fun x => key s x = r_base R) (fRangeTree s) ≫= (fun x => Some x.2) = Some r.
Proof.
  intros H Hin. rewrite (li_tree _ _ H). pose proof (li_ranges _ _ H) as Hr. pose proof (li_sorted _ _ H) as Hso. clear H. induction Hso as [|[y Y] L Hso IH HF]; [by apply elem_of_nil in Hin|].
  assert (key s y = r_base Y) as Ek by (unfold key; by rewrite (Hr y Y) by left).
  cbn. apply elem_of_cons in Hin as [[= -> ->]|Hin]; [by rewrite decide_True|].
  rewrite Forall_forall in HF. specialize (HF _ Hin). cbn in HF. rewrite decide_False by (rewrite Ek; lia).
  assert (∀ o : option (nat * Z), (prod_map S id <$> o) ≫= (fun x => Some x.2) = o ≫= (fun x => Some x.2)) as -> by (by intros [[]|]). apply IH; [done|]. intros; apply Hr; by right.
Qed.

Lemma check_free_list_ok L s i l : space_rep L s → fFreeLists s !! i = Some l → check_free_list (Z.of_nat i) (dl_elems l) s = Ret tt.
Proof.
  intros Hs Hi. destruct (sr_rep _ _ Hs) as [Hl Hf]. destruct (fi_list _ _ _ Hf i l Hi) as [_ Hin].
  assert (∀ r, r ∈ dl_elems l → ∃ R, ranges s !! r = Some R ∧ is_free R = true ∧ slot (r_size R) = i) as HR.
  { intros r (n & Hn & E)%Hin. unfold free_sizes in Hn. rewrite lookup_omap in Hn. destruct (ranges s !! r) as [R|]; [|done]. cbn in Hn. exists R. destruct (is_free R); [|done]. injection Hn as <-. done. }
  clear Hin Hi. induction (dl_elems l) as [|r q IH]; [done|]. cbn [check_free_list]. destruct (HR r) as (R & Hr & Hfr & Hsl); [left|]. rewrite Hr. cbn [deref mbind outcome_bind]. rewrite Hfr. cbn [assert mbind outcome_bind].
  rewrite bool_decide_eq_true_2 by (apply (find_key L); [done|by apply (sr_all _ _ Hs)]). cbn [assert mbind outcome_bind].
  destruct (stored_range L s r R Hs Hr) as [_ _ Hsz _ _]. destruct (slot_mono (r_size R) (r_size R) ltac:(lia)) as [H0 _]. unfold slot in Hsl. rewrite (proj2 (Z.eqb_eq _ _)) by lia. cbn [assert mbind outcome_bind].
  apply IH. intros; apply HR; by right.
Qed.

(** C34: In a well-formed kernel address space every check of
    _CheckStructures (which the code compiles only with PARANOIA_CHECKS)
    passes, LookupArea finds for each address the area whose range contains
    it and nothing else, and each address of the space belongs to a range. *)
Theorem kernel_structures_checked (s : kspace) (Hok : kspace_ok s) :
  _CheckStructures s = Ret tt ∧ (∀ x, 0 <= x → LookupArea x s = Ret (match use s x with Some (RANGE_AREA a) => Some a | _ => None end)) ∧
  ∀ x, fBase s <= x <= fEndAddress s ↔ is_Some (use s x).
Proof.
  split_and!; [|intros; by apply lookup_area_ok|].
  - destruct (kspace_open s Hok) as (L & Hs & _). pose proof (sr_rep _ _ Hs) as [Hl Hf]. destruct (sr_base _ _ Hs) as (B1 & _ & B2). unfold _CheckStructures. rewrite (li_list _ _ Hl), (li_tree _ _ Hl).
    assert (fBase s = u64 (fBase s)) as Eb by (symmetry; apply wrap_small; unfold fits; lia). rewrite Eb.
    rewrite (check_ranges_ok s L (fBase s) (fEndAddress s + 1) false); [|apply Hl|apply Hs|apply Hs|done|lia|lia|lia]. cbn [mbind outcome_bind].
    assert (u64 (u64 (fEndAddress s + 1) - 1) = fEndAddress s) as ->.
    { unfold wrap. rewrite Zminus_mod_idemp_l. rewrite Z.add_simpl_r. apply Z.mod_small. lia. }
    rewrite Z.eqb_refl. cbn [assert mbind outcome_bind].
    assert (∀ ls j, (∀ i l, ls !! i = Some l → fFreeLists s !! (j + i)%nat = Some l) → check_free_lists (Z.of_nat j) ls s = Ret tt) as Hc.
    { induction ls as [|l ls IH]; intros j Hls; [done|]. cbn [check_free_lists]. rewrite (check_free_list_ok L s j l Hs) by (specialize (Hls 0%nat l eq_refl); by rewrite Nat.add_0_r in Hls).
      cbn [mbind outcome_bind]. replace (Z.of_nat j + 1) with (Z.of_nat (S j)) by lia. apply IH. intros i l' Hi. specialize (Hls (S i) l' Hi). by rewrite Nat.add_succ_r in Hls. }
    apply (Hc (fFreeLists s) 0%nat). done.
  - intros x. destruct (kspace_open s Hok) as (L & Hs & _). rewrite (use_rep _ _ _ Hs). pose proof (sr_tiles _ _ Hs) as Ht. split.
    + intros Hx. destruct (tiles_cover _ _ _ x Ht) as (l1 & R & l2 & E & HR); [lia|]. rewrite E in Ht |- *. rewrite (owner_in _ _ _ _ _ _ Ht HR). eauto.
    + intros [t Ho]. destruct (decide (fBase s <= x <= fEndAddress s)); [done|]. rewrite (owner_out _ _ _ _ Ht) in Ho by lia. done.
Qed.

(** C31: InsertArea at any address (B_ANY_ADDRESS, B_ANY_KERNEL_ADDRESS or
    B_RANDOMIZED_ANY_ADDRESS) with page alignment, of at most 2^62 bytes,
    succeeds whenever some free range is as large as the next power of two
    of the rounded size and memory for the ranges can be allocated: the
    search of the free lists by the logarithm of the size finds it. For
    larger alignments, such as those of B_ANY_KERNEL_BLOCK_ADDRESS, a range
    of that size need not have an aligned spot, and nothing is claimed. *)
Theorem kernel_finds_room (HBS n1 n2 random0 random a size : Z) (A : karea) (restr : restrictions) (r : Z) (R : Range) (s : kspace)
    (Hok : kspace_ok s) (Hq : request_ok HBS restr size 12 s) (Hn : fresh_ranges (Some n1) (Some n2) s) (Hr0 : 0 <= random0) (Hr : 0 <= random)
    (HA : kareas s !! a = Some A) (Hnew : area_new a s)
    (Hsp : address_specification restr = B_ANY_ADDRESS ∨ address_specification restr = B_ANY_KERNEL_ADDRESS ∨ address_specification restr = B_RANDOMIZED_ANY_ADDRESS)
    (Hsz : size <= 2 ^ 62) (HR : ranges s !! r = Some R) (Hf : r_type R = RANGE_FREE) (Hlarge : 2 ^ Z.log2_up (roundup size PAGE_SIZE) <= r_size R) :
  ∃ b s', InsertArea HBS (Some n1) (Some n2) random0 random a size restr s = Ret (Ok, Some b, s') ∧ inserted a (roundup size PAGE_SIZE) b s s'.
Proof.
  destruct (insert_area_ok HBS (Some n1) (Some n2) random0 random a A size restr 12 s Hok Hq Hn Hr0 Hr HA Hnew) as (st & o & s' & E & Hst).
  destruct st as [|e]; [destruct Hst as (b & R' & r' & -> & Hin & _); by exists b, s'|]. exfalso. destruct Hst as (_ & _ & Hno). destruct (kspace_open s Hok) as (L & Hs & _).
  destruct (rounded_size size (rq_size _ _ _ _ _ Hq)) as (_ & Hps & _). destruct (rq_alignment _ _ _ _ _ Hq) as (_ & Hkb & _).
  assert (roundup size PAGE_SIZE < 2 ^ 63) as H63 by (pose proof (roundup_lt size PAGE_SIZE ltac:(done)); unfold PAGE_SIZE in *; lia).
  destruct (find_any_found L s Hs (roundup size PAGE_SIZE) 12 random0 random (bool_decide (address_specification restr = B_EXACT_ADDRESS)) Hps ltac:(lia) Hkb Hr Hr0
    (address_specification restr) r R eq_refl H63 Hsp HR ltac:(by apply is_free_true) Hlarge) as [x Hx].
  assert (prepare HBS restr (roundup size PAGE_SIZE) s = Ret (Some (fBase s, 2 ^ 12, address_specification restr))) as Ep.
  { unfold prepare. assert ((if ralignment restr =? 0 then PAGE_SIZE else ralignment restr) = 2 ^ 12) as ->.
    { destruct (rq_alignment _ _ _ _ _ Hq) as (_ & _ & [->|[-> _]]); done. }
    by destruct Hsp as [->|[->| ->]]. }
  destruct Hno as [?|[?|[Hno|(address & al & spec & Hno & Hno')]]]; [done|done|congruence|]. rewrite Ep in Hno. injection Hno as <- <- <-. congruence.
Qed.

(** ** Initialisation *)

Lemma init_ok n s : 0 < fBase s → (PAGE_SIZE | fBase s) → fBase s <= fEndAddress s < 2 ^ 64 → (PAGE_SIZE | fEndAddress s + 1) → ranges s = ∅ → fRangeTree s = [] → list_of s = [] →
  ∃ s', InitObject (Some n) s = Ret (Ok, s') ∧ kspace_ok s' ∧ (∀ x, use s' x = if (fBase s <=? x) && (x <? fEndAddress s + 1) then Some RANGE_FREE else None) ∧ fixed s' = fixed s ∧
    ranges s' = {[ n := mkRange (fBase s) (fEndAddress s - fBase s + 1) RANGE_FREE ]}.
Proof.
  intros B1 B2 B3 B4 Er Et El. unfold InitObject. rewrite (wrap_small 64 (fEndAddress s - fBase s + 1)) by (unfold fits; lia). set (m := fEndAddress s - fBase s + 1).
  assert (PAGE_SIZE | m) as Hpm by (replace m with (fEndAddress s + 1 - fBase s) by (unfold m; lia); by apply Z.divide_sub_r).
  assert (PAGE_SIZE <= m) as Hm by (apply page_positive; [unfold m; lia|done]). destruct (slot_mono m m ltac:(lia)) as [Hsl _].
  set (s0 := s <| fFreeLists := _ |>). set (R := mkRange (fBase s0) m RANGE_FREE). assert (nlists s0 = Z.to_nat (ld m - PAGE_SHIFT + 1)) as En.
  { unfold nlists. change (fEndAddress s0 - fBase s0 + 1) with m. unfold slot. lia. }
  assert (rep (nlists s0) ([] ++ []) ∅ (new_range n R s0)) as Hrep.
  { split; [split; cbn; [done|done|constructor|by intros ? ? ?%elem_of_nil|constructor]|]. split; [cbn; rewrite length_replicate; by rewrite En|]. intros i l Hi. cbn in Hi.
    apply lookup_replicate in Hi as [-> _]. rewrite dl_empty_elems. split; [constructor|]. intros r. split; [by intros ?%elem_of_nil|by intros (? & ? & _)]. }
  destruct (InsertRange_ok (nlists s0) [] [] ∅ n R (new_range n R s0) Hrep) as (s' & E & Hrep' & Er' & Ef'); [apply lookup_insert_eq|by intros ?%elem_of_nil|by intros ? ?%elem_of_nil|by intros ? ?%elem_of_nil|
    intros _; split_and!; [done|by unfold nlists; apply Nat.lt_succ_diag_r|done]|].
  rewrite E. cbn [mbind outcome_bind]. exists s'. split; [done|]. pose proof (fixed_fields _ _ Ef') as (X1 & X2 & _ & _ & _ & _ & X4).
  assert (ranges s' = {[ n := R ]}) as Ers by (rewrite Er'; cbn; by rewrite Er).
  assert (space_rep [(n, R)] s') as Hs'.
  { split; rewrite ?X1, ?X2; try done.
    - rewrite X4, Ers. assert (free_sizes {[ n := R ]} = <[n := m]> ∅) as -> by apply free_sizes_insert. exact Hrep'.
    - intros r Q. rewrite Ers. intros [<- <-]%lookup_singleton_Some. left.
    - cbn. split_and!; [done|unfold m; lia|done|unfold m; lia]. }
  split; [|split; [|split]].
  - split; [|by eexists]. intros r Q a. rewrite Ers. by intros [<- <-]%lookup_singleton_Some.
  - intros x. rewrite (use_rep _ _ _ Hs'). cbn. unfold m. destruct (Z.leb_spec (fBase s) x), (Z.ltb_spec x (fBase s + (fEndAddress s - fBase s + 1))), (Z.ltb_spec x (fEndAddress s + 1)); cbn [andb]; try done; lia.
  - exact Ef'.
  - exact Ers.
Qed.
End space_proofs.

(** ** Examples *)

(** An address space of 16 pages with two areas that are not inserted yet. *)
Definition boot_space : kspace := mkKSpace 0x100000 0x10ffff 0x10000 1 0 true false ∅ [] [] [] {[ 7 := mkKArea 0 0 0 None; 8 := mkKArea 0 0 0 None ]}.
Definition init_space : kspace := match InitObject (Some 500) boot_space with Ret (_, s) => s | _ => boot_space end.

Lemma init_space_ok : kspace_ok init_space ∧ ranges init_space = {[ 500 := mkRange 0x100000 0x10000 RANGE_FREE ]}.
Proof.
  destruct (init_ok 500 boot_space) as (s' & E & Hok & _ & _ & Er); [done|by exists 0x100|done|by exists 0x110|done|done|done|].
  assert (init_space = s') as -> by (unfold init_space; by rewrite E). done.
Qed.

Definition any_page : restrictions := mkRestrictions 0 B_ANY_KERNEL_ADDRESS 0.
Definition random_base : restrictions := mkRestrictions 0x104000 B_RANDOMIZED_BASE_ADDRESS 0x2000.

Lemma any_page_ok size s : fBase s = 0x100000 → 0 < size <= 0x10000 → request_ok 0x1000 any_page size 12 s.
Proof. intros E H. split; cbn; try done; [unfold PAGE_SIZE; lia|rewrite E; split_and!; try lia; by right|exists 12; rewrite E; split_and!; done || lia]. Qed.

Lemma random_base_ok : request_ok 0x1000 random_base 0x3000 13 init_space.
Proof.
  assert (fBase init_space = 0x100000) as E by done.
  split.
  - by vm_compute.
  - done.
  - rewrite E. split_and!; [done..|by left].
  - exists 12. rewrite E. by split_and!.
  - done.
  - intros _ _. by vm_compute.
Qed.

Lemma init_fresh a : ∀ r R, ranges init_space !! r = Some R → r_type R ≠ RANGE_AREA a.
Proof. intros r R. rewrite (proj2 init_space_ok). intros [<- <-]%lookup_singleton_Some. done. Qed.

Lemma new_fresh : fresh_ranges (Some 501) (Some 502) init_space.
Proof. unfold fresh_ranges. rewrite (proj2 init_space_ok). split_and!; [by intros n [= <-]..|done]. Qed.

(** Area 7 at the beginning of the space, and a reserved range after it. *)
Definition insert_any (a size : Z) (s : kspace) := InsertArea 0x1000 (Some 501) (Some 502) 3 5 a size any_page s.
Definition one_area : kspace := match insert_any 7 0x2000 init_space with Ret (_, _, s) => s | _ => init_space end.
Definition reserved_space : kspace := match ReserveAddressRange 0x1000 (Some 503) (Some 504) 3 5 0x3000 any_page 0 one_area with Ret (_, _, s) => s | _ => one_area end.

Lemma fresh_by_computation n1 n2 (s : kspace) : bool_decide (ranges s !! n1 = None ∧ ranges s !! n2 = None ∧ n1 ≠ n2) = true → fresh_ranges (Some n1) (Some n2) s.
Proof. intros (? & ? & ?)%bool_decide_eq_true. split_and!; [by intros n [= <-]..|congruence]. Qed.

Lemma one_area_inserted : insert_any 7 0x2000 init_space = Ret (Ok, Some 0x100000, one_area) ∧ kspace_ok one_area.
Proof.
  assert (insert_any 7 0x2000 init_space = Ret (Ok, Some 0x100000, one_area)) as E by (vm_compute; reflexivity). split; [exact E|].
  destruct (insert_area_ok 0x1000 (Some 501) (Some 502) 3 5 7 (mkKArea 0 0 0 None) 0x2000 any_page 12 init_space (proj1 init_space_ok)) as (st & o & s' & E' & H);
    [apply any_page_ok; [vm_compute; reflexivity|lia]|exact new_fresh|lia|lia|vm_compute; reflexivity|exact (init_fresh 7)|]. unfold insert_any in E. rewrite E in E'. injection E' as <- <- <-. by destruct H as (b & R & r & _ & [? _ _ _ _] & _).
Qed.

Lemma reserved_space_ok : kspace_ok reserved_space.
Proof.
  assert (ReserveAddressRange 0x1000 (Some 503) (Some 504) 3 5 0x3000 any_page 0 one_area = Ret (Ok, Some 0x102000, reserved_space)) as E by (vm_compute; reflexivity).
  destruct (reserve_range_ok 0x1000 (Some 503) (Some 504) 3 5 0x3000 any_page 0 12 one_area (proj2 one_area_inserted)) as (st & o & s' & E' & H);
    [apply any_page_ok; [vm_compute; reflexivity|lia]|apply fresh_by_computation; vm_compute; reflexivity|lia|lia|vm_compute; reflexivity|]. rewrite E in E'. injection E' as <- <- <-. by destruct H as (b & _ & ? & _).
Qed.

Lemma kernel_insert_remove_witness :
  ∃ s2, RemoveArea 7 one_area = Ret s2 ∧ kspace_ok s2 ∧ (∀ x, use s2 x = use init_space x) ∧ fFreeSpace s2 = fFreeSpace init_space ∧ area_new 7 s2.
Proof.
  apply (kernel_insert_remove 0x1000 (Some 501) (Some 502) 3 5 7 0x2000 0x100000 (mkKArea 0 0 0 None) any_page 12 init_space one_area).
  - apply init_space_ok.
  - apply any_page_ok; [vm_compute; reflexivity|lia].
  - apply new_fresh.
  - lia.
  - lia.
  - vm_compute. reflexivity.
  - exact (init_fresh 7).
  - vm_compute. split; [discriminate|reflexivity].
  - discriminate.
  - apply one_area_inserted.
Defined.

(** The area grows into the free range behind it. *)
Lemma kernel_resize_correct_witness :
  ∃ s', ResizeArea 7 0x4000 None one_area = Ret (Ok, s') ∧ kspace_ok s' ∧ use s' 0x103fff = Some (RANGE_AREA 7) ∧ use s' 0x104000 = Some RANGE_FREE.
Proof.
  assert (ranges one_area !! 500 = Some (mkRange 0x100000 0x2000 (RANGE_AREA 7))) as HR by (vm_compute; reflexivity).
  destruct (kernel_resize_correct 7 500 0x4000 _ None one_area (proj2 one_area_inserted) HR eq_refl) as (can & E & H); [lia|by exists 4|discriminate|].
  assert (CanResizeArea 7 0x4000 one_area = Ret true) as E1 by (vm_compute; reflexivity). rewrite E1 in E. injection E as <-.
  destruct (H eq_refl) as (st & s' & E2 & Hst). destruct st as [|e]; [|destruct Hst as (_ & _ & Hlt & _); cbn in Hlt; lia].
  destruct Hst as [[Hok _] _]. exists s'. split; [exact E2|]. split; [exact Hok|].
  assert (match ResizeArea 7 0x4000 None one_area with Ret (_, s0) => bool_decide (use s0 0x103fff = Some (RANGE_AREA 7) ∧ use s0 0x104000 = Some RANGE_FREE) | _ => false end = true) as Hb by (vm_compute; reflexivity).
  rewrite E2 in Hb. by apply bool_decide_eq_true in Hb.
Defined.

Lemma kernel_unreserve_correct_witness :
  ∃ s', UnreserveAddressRange 0x102000 0x3000 reserved_space = Ret (Ok, s') ∧ kspace_ok s' ∧ use s' 0x103000 = Some RANGE_FREE ∧ use s' 0x101000 = Some (RANGE_AREA 7).
Proof.
  destruct (kernel_unreserve_correct 0x102000 0x3000 reserved_space reserved_space_ok ltac:(vm_compute; reflexivity)) as [(s' & E & Hok & Hu) _]; [lia|lia|lia|]. exists s'. split; [exact E|]. split; [exact Hok|].
  assert (match UnreserveAddressRange 0x102000 0x3000 reserved_space with Ret (_, s0) => bool_decide (use s0 0x103000 = Some RANGE_FREE ∧ use s0 0x101000 = Some (RANGE_AREA 7)) | _ => false end = true) as Hb by (vm_compute; reflexivity).
  rewrite E in Hb. by apply bool_decide_eq_true in Hb.
Defined.

Lemma kernel_structures_checked_witness : _CheckStructures reserved_space = Ret tt ∧ LookupArea 0x101fff reserved_space = Ret (Some 7) ∧ LookupArea 0x102000 reserved_space = Ret None.
Proof.
  destruct (kernel_structures_checked reserved_space reserved_space_ok) as (H1 & H2 & _). split; [exact H1|]. rewrite !H2 by lia. split; vm_compute; reflexivity.
Defined.

Lemma kernel_finds_room_witness : ∃ b s', InsertArea 0x1000 (Some 505) (Some 506) 3 5 8 0x3001 any_page reserved_space = Ret (Ok, Some b, s') ∧ kspace_ok s'.
Proof.
  destruct (kernel_finds_room 0x1000 505 506 3 5 8 0x3001 (mkKArea 0 0 0 None) any_page 503 (mkRange 0x105000 0xb000 RANGE_FREE) reserved_space) as (b & s' & E & [Hok _ _ _ _]).
  - exact reserved_space_ok.
  - apply any_page_ok; [vm_compute; reflexivity|lia].
  - apply fresh_by_computation. vm_compute. reflexivity.
  - lia.
  - lia.
  - vm_compute. reflexivity.
  - intros r R HR Ha. assert (map_Forall (fun _ R => r_type R ≠ RANGE_AREA 8) (ranges reserved_space)) as HF by (refine (proj1 (bool_decide_eq_true _) _); vm_compute; reflexivity). exact (HF r R HR Ha).
  - by right; left.
  - lia.
  - vm_compute. reflexivity.
  - done.
  - vm_compute. discriminate.
  - exists b, s'. split; [exact E|exact Hok].
Defined.

Lemma kernel_insert_area_correct_witness :
  ∃ b s', InsertArea 0x1000 (Some 501) (Some 502) 0x1234567 0x7654321 7 0x3000 random_base init_space = Ret (Ok, Some b, s') ∧ b mod 0x2000 = 0 ∧
    use s' b = Some (RANGE_AREA 7) ∧ kspace_ok s'.
Proof.
  destruct (kernel_insert_area_correct 0x1000 (Some 501) (Some 502) 0x1234567 0x7654321 7 0x3000 (mkKArea 0 0 0 None) random_base 13 init_space) as (st & o & s' & E & H).
  - apply init_space_ok.
  - apply random_base_ok.
  - apply new_fresh.
  - lia.
  - lia.
  - done.
  - exact (init_fresh 7).
  - assert (match InsertArea 0x1000 (Some 501) (Some 502) 0x1234567 0x7654321 7 0x3000 random_base init_space with Ret (Ok, _, _) => true | _ => false end = true) as Hst by (vm_compute; reflexivity).
    rewrite E in Hst. destruct st; [|done]. destruct H as (b & -> & [Hok Hu _ _ _] & _ & Hal). exists b, s'. split; [exact E|]. cbn in Hal. split_and!; [exact Hal| |done].
    rewrite Hu. rewrite Z.leb_refl. destruct (Z.ltb_spec b (b + roundup 0x3000 PAGE_SIZE)) as [|Hge]; [done|]. change (roundup 0x3000 PAGE_SIZE) with 0x3000 in Hge. lia.
Defined.
