(* ===== verification/CacheLock.v ===== *)
(** cache/vm_cache_lock.cpp and vm_cache_lock.h: the lock of a cache.

    A lock counts the threads that hold it or want it; a thread that finds it
    taken queues a [_Waiter] of its stack, and the unlocking thread hands the
    lock over to the first waiter.  Queue and [released] are protected by one of
    32 spin locks (a chain), which is chosen by the address of the lock;
    [SwitchFromLock] keeps the chain of the new lock while it unlocks the old
    one.

    Each function is a sequence of steps of a thread, a step being one atomic
    access to the count or to the holder, or the critical section of a chain
    between two such accesses; any number of threads run in any interleaving.
    The scheduler is not part of the repository: [thread_block] returns, after
    a call of [thread_unblock], with the status given there.  The
    reader-writer lock of [SwitchFromReadLock] is a parameter. *)
From S2P Require Import Prelude.
From stdpp Require Import base list list_numbers numbers gmap sorting relations.
From Stdlib Require Import ZArith Lia.
Local Open Scope Z_scope.

(** ** State *)

(** [VMCacheLock]; threads are numbers other than zero. *)
Record VMCacheLock := mkCacheLock { count : Z; waiters : option Z; holder : Z; released : bool }.
#[export] Instance eta_VMCacheLock : Eta VMCacheLock := fun l => mkCacheLock (count l) (waiters l) (holder l) (released l).

(** [VMCacheLock::_Waiter], on the stack of the thread with the same number. *)
Record Waiter := mkWaiter { w_next : option Z; w_last : option Z }.
#[export] Instance eta_Waiter : Eta Waiter := fun w => mkWaiter (w_next w) (w_last w).

Definition new_lock : VMCacheLock := mkCacheLock 0 None 0 false.

Definition VMC_MASK : Z := 31.
Definition VMC_SHIFT : Z := 8.
Definition VMC_HASH (wc : Z) : Z := Z.land (Z.lxor (Z.shiftr wc VMC_SHIFT) wc) VMC_MASK.

(** Where a thread is: the lock, whether it has the chain of the lock ([held])
    and the lock it switches to after unlocking ([to]). *)
Inductive pc :=
  | Idle
  | LSub (l : Z) (held : bool)        (** before count.fetch_sub *)
  | LSet (l : Z) (held : bool)        (** before holder = current thread *)
  | LSpin (l : Z)                     (** before taking the chain in _LockInternal *)
  | LCheck (l : Z)                    (** chain taken, before the test of released *)
  | LBlocked (l : Z)                  (** in thread_block *)
  | SSpin (l from : Z)                (** SwitchFromLock, before taking the chain *)
  | RSpin (l rw : Z)                  (** SwitchFromReadLock, before taking the chain *)
  | RUnlock (l rw : Z)                (** chain taken, before unlock_shared *)
  | UClear (l : Z) (to : option Z)    (** before holder = 0 *)
  | UAdd (l : Z) (to : option Z)      (** before count.fetch_add *)
  | USpin (l : Z) (to : option Z)     (** before taking the chain in _UnlockEtc *)
  | UHand (l : Z) (to : option Z).    (** chain taken *)

(** The reader-writer locks. *)
Class RWLocks := { rw_state : Type; unlock_shared : Z → rw_state → rw_state }.

Section sys.
Context {RWL : RWLocks}.

Record sys := mkSys {
  locks : gmap Z VMCacheLock;
  nodes : gmap Z Waiter;
  chains : gmap Z Z;
  unblocked : gmap Z status;
  rwlocks : rw_state;
  threads : gmap Z pc
}.
#[global] Instance eta_sys : Eta sys := fun s => mkSys (locks s) (nodes s) (chains s) (unblocked s) (rwlocks s) (threads s).
Implicit Types (s : sys) (t l : Z).

Definition get_lock l s : VMCacheLock := default new_lock (locks s !! l).
Definition set_lock l (f : VMCacheLock → VMCacheLock) s : sys := s <| locks ::= <[l := f (get_lock l s)]> |>.
Definition goto t (p : pc) s : sys := s <| threads ::= <[t := p]> |>.

Definition spin_free l s : bool := bool_decide (chains s !! VMC_HASH l = None).
Definition spin_lock t l s : sys := s <| chains ::= <[VMC_HASH l := t]> |>.
Definition spin_unlock l s : sys := s <| chains ::= delete (VMC_HASH l) |>.
Definition thread_unblock t (st : status) s : sys := s <| unblocked ::= <[t := st]> |>.

(** ** The queue of waiters *)

(** [waiters->last->next = &waiter], or the first waiter. *)
Definition enqueue t l s : outcome sys :=
  let s := s <| nodes ::= <[t := mkWaiter None None]> |> in
  match waiters (get_lock l s) with
  | Some h =>
      H ← deref (nodes s !! h);
      last ← deref (w_last H);
      _ ← deref (nodes s !! last);
      let s := s <| nodes ::= alter (fun w => w <| w_next := Some t |>) last |> in
      Ret (s <| nodes ::= alter (fun w => w <| w_last := Some t |>) h |>)
  | None =>
      let s := set_lock l (fun L => L <| waiters := Some t |>) s in
      Ret (s <| nodes ::= alter (fun w => w <| w_last := Some t |>) t |>)
  end.

(** [dequeue] takes the first waiter [h] off the queue. *)
Definition dequeue h l s : outcome sys :=
  H ← deref (nodes s !! h);
  let s := set_lock l (fun L => L <| waiters := w_next H |>) s in
  match w_next H with
  | Some n => _ ← deref (nodes s !! n); Ret (s <| nodes ::= alter (fun w => w <| w_last := w_last H |>) n |>)
  | None => Ret s
  end.

(** ** Steps *)

(** Return from a lock function; a chain that is held is released. *)
Definition lock_return t l (held : bool) s : sys := goto t Idle (if held then spin_unlock l s else s).

(** Where [_UnlockEtc] returns to: [SwitchFromLock] goes on with the new lock. *)
Definition unlock_return t (to : option Z) s : sys :=
  match to with None => goto t Idle s | Some l => goto t (LSub l true) s end.

(** [parentLocker] has the same chain. *)
Definition same_chain l (to : option Z) : bool := match to with Some l' => VMC_HASH l =? VMC_HASH l' | None => false end.

(** The rest of [_LockInternal] under the chain. *)
Definition lock_check t l s : outcome sys :=
  if released (get_lock l s) then
    let s := set_lock l (fun L => L <| released := false |> <| holder := t |>) s in
    Ret (lock_return t l true s)
  else
    s ← enqueue t l s;
    Ret (goto t (LBlocked l) (spin_unlock l (s <| unblocked ::= delete t |>))).

(** The rest of [_UnlockEtc] under the chain. *)
Definition hand_over t l (to : option Z) s : outcome sys :=
  s ← match waiters (get_lock l s) with
      | Some w =>
          s ← dequeue w l s;
          Ret (thread_unblock w Ok (set_lock l (fun L => L <| holder := w |>) s))
      | None => Ret (set_lock l (fun L => L <| released := true |>) s)
      end;
  Ret (unlock_return t to (if same_chain l to then s else spin_unlock l s)).

(** One step of thread [t]; [None] if it waits. *)
Definition thread_step t s : option (outcome sys) :=
  match threads s !! t with
  | None | Some Idle => None
  | Some (LSub l held) => Some (
      _ ← (if held then assert (negb (holder (get_lock l s) =? t)) else Ret tt);
      let old := count (get_lock l s) in
      let s := set_lock l (fun L => L <| count := i32 (old - 1) |>) s in
      if old <? 0 then
        _ ← assert (negb (holder (get_lock l s) =? t));
        Ret (goto t (if held then LCheck l else LSpin l) s)
      else Ret (goto t (LSet l held) s))
  | Some (LSet l held) => Some (Ret (lock_return t l held (set_lock l (fun L => L <| holder := t |>) s)))
  | Some (LSpin l) => if spin_free l s then Some (Ret (goto t (LCheck l) (spin_lock t l s))) else None
  | Some (LCheck l) => Some (lock_check t l s)
  | Some (LBlocked l) =>
      match unblocked s !! t with
      | None => None
      | Some st => Some (
          _ ← (if bool_decide (st = Ok) then assert (holder (get_lock l s) =? t) else Ret tt);
          Ret (goto t Idle (s <| unblocked ::= delete t |>)))
      end
  | Some (SSpin l from) => if spin_free l s then Some (Ret (goto t (UClear from (Some l)) (spin_lock t l s))) else None
  | Some (RSpin l rw) => if spin_free l s then Some (Ret (goto t (RUnlock l rw) (spin_lock t l s))) else None
  | Some (RUnlock l rw) => Some (Ret (goto t (LSub l true) (s <| rwlocks ::= unlock_shared rw |>)))
  | Some (UClear l to) => Some (
      _ ← assert (holder (get_lock l s) =? t);
      Ret (goto t (UAdd l to) (set_lock l (fun L => L <| holder := 0 |>) s)))
  | Some (UAdd l to) => Some (
      let old := count (get_lock l s) in
      let s := set_lock l (fun L => L <| count := i32 (old + 1) |>) s in
      if old <? -1 then Ret (goto t (if same_chain l to then UHand l to else USpin l to) s)
      else Ret (unlock_return t to s))
  | Some (USpin l to) => if spin_free l s then Some (Ret (goto t (UHand l to) (spin_lock t l s))) else None
  | Some (UHand l to) => Some (hand_over t l to s)
  end.

(** ** Calls *)

Inductive call := Lock (l : Z) | Unlock (l : Z) | TryLock (l : Z) | SwitchFromLock (l from : Z) | SwitchFromReadLock (l rw : Z).

(** What the callers have to ensure. *)
Definition may_call t (c : call) s : bool :=
  match c with
  | Lock l | SwitchFromReadLock l _ => negb (holder (get_lock l s) =? t)
  | Unlock l => holder (get_lock l s) =? t
  | TryLock _ => true
  | SwitchFromLock l from => (holder (get_lock from s) =? t) && negb (holder (get_lock l s) =? t)
  end.

(** The first step of a call, up to the first point where others can run. *)
Definition start t (c : call) s : sys :=
  match c with
  | Lock l => goto t (LSub l false) s
  | Unlock l => goto t (UClear l None) s
  | TryLock l =>
      if count (get_lock l s) =? 0 then goto t (LSet l false) (set_lock l (fun L => L <| count := -1 |>) s) else s
  | SwitchFromLock l from => goto t (SSpin l from) s
  | SwitchFromReadLock l rw => goto t (RSpin l rw) s
  end.

Inductive sys_step s : sys → Prop :=
  | sys_call t c : threads s !! t = Some Idle → may_call t c s = true → sys_step s (start t c s)
  | sys_run t s' : thread_step t s = Some (Ret s') → sys_step s s'.

(** [Destroy] wakes up all waiters with an error. *)
Fixpoint unblock_all (fuel : nat) l s : outcome sys :=
  match waiters (get_lock l s) with
  | None => Ret s
  | Some w =>
      match fuel with
      | O => NoFuel
      | S fuel =>
          W ← deref (nodes s !! w);
          let s := set_lock l (fun L => L <| waiters := w_next W |>) s in
          unblock_all fuel l (thread_unblock w (Err EINVAL) s)
      end
  end.

Definition Destroy l s : outcome sys :=
  s ← unblock_all (size (nodes s)) l s;
  Ret (set_lock l (fun L => L <| holder := 0 |> <| released := false |> <| count := 0 |>) s).

(** ** The queue *)

(** The waiters [Q] are linked from the first one on. *)
Fixpoint links (N : gmap Z Waiter) (Q : list Z) : Prop :=
  match Q with
  | [] => True
  | x :: Q' => (∃ W, N !! x = Some W ∧ w_next W = head Q') ∧ links N Q'
  end.

Definition queue (N : gmap Z Waiter) (h : option Z) (Q : list Z) : Prop :=
  h = head Q ∧ links N Q ∧ ∀ x, h = Some x → ∃ W, N !! x = Some W ∧ w_last W = last Q.

Lemma links_agree N N' Q : links N Q → (∀ x, x ∈ Q → w_next <$> N' !! x = w_next <$> N !! x) → links N' Q.
Proof.
  induction Q as [|x Q IH]; [done|]. intros [(W & HW & E) H] Ha. split; [|apply IH; [done|intros; apply Ha; by right]].
  specialize (Ha x ltac:(left)). rewrite HW in Ha. destruct (N' !! x) as [W'|]; [|done]. injection Ha as Ea. exists W'. split; [done|congruence].
Qed.

Lemma queue_agree N N' h Q : queue N h Q → (∀ x, x ∈ Q → N' !! x = N !! x) → queue N' h Q.
Proof.
  intros (E & H1 & H2) Ha. split_and!; [done| |].
  - apply (links_agree N); [done|]. intros x Hx. by rewrite Ha.
  - intros x Hx. destruct (H2 x Hx) as (W & HW & El). exists W. rewrite Ha; [done|]. subst h. by apply head_Some_elem_of.
Qed.

Lemma links_snoc N Q t : links N Q → NoDup (Q ++ [t]) →
  links (<[t := mkWaiter None None]> (match last Q with Some x => alter (fun w => mkWaiter (Some t) (w_last w)) x N | None => N end)) (Q ++ [t]).
Proof.
  induction Q as [|x Q IH] using list_ind; intros H Hnd.
  - cbn. split; [|done]. eexists. rewrite lookup_insert_eq. by split.
  - destruct H as [(W & HW & E) H]. cbn [app] in *. apply NoDup_cons in Hnd as [Hx Hnd]. rewrite elem_of_app, list_elem_of_singleton in Hx.
    assert (x ≠ t) as Hxt by tauto. destruct Q as [|y Q].
    + cbn in *. split; [|split; [|done]].
      * eexists. rewrite lookup_insert_ne, lookup_alter_eq, HW by done. split; [reflexivity|done].
      * eexists. rewrite lookup_insert_eq. split; [reflexivity|done].
    + destruct (IH H Hnd) as [IH1 IH2]. assert (∃ z, last (y :: Q) = Some z) as [z Hz] by (rewrite last_cons; destruct (last Q); eauto).
      rewrite last_cons_cons, Hz in *. assert (x ≠ z) by (intros ->; apply Hx; left; by apply last_Some_elem_of).
      split; [|by split]. exists W. by rewrite lookup_insert_ne, lookup_alter_ne.
Qed.

Record touched l (ch : VMCacheLock → VMCacheLock) (X : list Z) s s' : Prop := {
  to_lock : get_lock l s' = ch (get_lock l s);
  to_locks : ∀ l', l' ≠ l → get_lock l' s' = get_lock l' s;
  to_nodes : ∀ x, x ∉ X → nodes s' !! x = nodes s !! x;
  to_rest : chains s' = chains s ∧ unblocked s' = unblocked s ∧ threads s' = threads s ∧ rwlocks s' = rwlocks s
}.

Lemma get_set_lock l f s : get_lock l (set_lock l f s) = f (get_lock l s).
Proof. unfold get_lock at 1. cbn. by rewrite lookup_insert_eq. Qed.
Lemma get_set_other l l' f s : l' ≠ l → get_lock l' (set_lock l f s) = get_lock l' s.
Proof. intros. unfold get_lock at 1. cbn. by rewrite lookup_insert_ne. Qed.

Lemma enqueue_ok t l s Q : queue (nodes s) (waiters (get_lock l s)) Q → NoDup (Q ++ [t]) →
  ∃ s', enqueue t l s = Ret s' ∧ queue (nodes s') (head (Q ++ [t])) (Q ++ [t]) ∧
    touched l (fun L => L <| waiters := head (Q ++ [t]) |>) (Q ++ [t]) s s'.
Proof.
  intros (Eh & Hl & Hlast) Hnd. unfold enqueue. change (waiters (get_lock l _)) with (waiters (get_lock l s)) at 1.
  pose proof (links_snoc (nodes s) Q t Hl Hnd) as Hl'. rewrite Eh. destruct Q as [|h Q].
  - cbn [head app] in *. eexists. split; [reflexivity|]. split.
    + split_and!; [done| |].
      * apply (links_agree _ _ _ Hl'). intros x ->%list_elem_of_singleton. cbn. by rewrite lookup_alter_eq, !lookup_insert_eq.
      * intros x [= <-]. eexists. cbn. rewrite lookup_alter_eq, lookup_insert_eq. split; [reflexivity|done].
    + split; [by unfold get_lock at 1; cbn; rewrite lookup_insert_eq|intros l' ?; unfold get_lock at 1; cbn; by rewrite lookup_insert_ne| |done].
      intros x Hx. rewrite list_elem_of_singleton in Hx. cbn. by rewrite lookup_alter_ne, lookup_insert_ne.
  - cbn [head app] in *. destruct (Hlast h Eh) as (W & HW & El). apply NoDup_cons in Hnd as [Hh Hnd]. rewrite elem_of_app, list_elem_of_singleton in Hh.
    assert (t ≠ h) as Hth by (intros ->; tauto). assert (∃ z, last (h :: Q) = Some z) as [z Hz] by (rewrite last_cons; destruct (last Q); eauto).
    assert (z ∈ h :: Q) as Hin by (by apply last_Some_elem_of). rewrite Hz in *.
    assert (z ≠ t) as Hzt by (intros ->; apply elem_of_cons in Hin as [->|Hin]; [tauto|]; apply NoDup_app in Hnd as (_ & Hd & _); apply (Hd t Hin), list_elem_of_singleton; done).
    assert (is_Some (nodes s !! z)) as [Wz HWz] by (clear -Hl Hin; induction (h :: Q) as [|y q IH]; [by apply elem_of_nil in Hin|]; destruct Hl as [(W & HW & _) Hl]; apply elem_of_cons in Hin as [->|Hin]; [by eexists|by apply IH]).
    cbn [nodes update]. change (nodes (_ <| nodes ::= _ |>)) with (<[t := mkWaiter None None]> (nodes s)).
    rewrite (lookup_insert_ne _ t h), HW by tauto. cbn [deref mbind outcome_bind]. rewrite El. cbn [deref mbind outcome_bind].
    rewrite lookup_insert_ne, HWz by done. cbn [deref mbind outcome_bind]. eexists. split; [reflexivity|].
    assert (∀ x, x ≠ h → alter (fun w => w <| w_last := Some t |>) h (alter (fun w => w <| w_next := Some t |>) z (<[t := mkWaiter None None]> (nodes s))) !! x =
      <[t := mkWaiter None None]> (alter (fun w => mkWaiter (Some t) (w_last w)) z (nodes s)) !! x) as Hx.
    { intros x Hx. rewrite lookup_alter_ne by done. destruct (decide (x = t)) as [->|Hxt]; [by rewrite lookup_alter_ne, !lookup_insert_eq|]. rewrite (lookup_insert_ne _ t x) by done.
      destruct (decide (x = z)) as [->|Hxz]; [by rewrite !lookup_alter_eq, lookup_insert_ne|]. by rewrite !lookup_alter_ne, lookup_insert_ne. }
    split.
    + split_and!; [done| |].
      * apply (links_agree _ _ _ Hl'). intros x _. destruct (decide (x = h)) as [->|Hxh]; [|f_equal; by apply Hx]. cbn. rewrite lookup_alter_eq, (lookup_insert_ne _ t h) by tauto.
        destruct (decide (h = z)) as [->|Hhz]; [by rewrite !lookup_alter_eq, lookup_insert_ne; [destruct (nodes s !! z)|]|rewrite !lookup_alter_ne, lookup_insert_ne by (done || congruence); by destruct (nodes s !! h)].
      * intros x [= <-]. cbn. rewrite lookup_alter_eq. change (h :: Q ++ [t]) with ((h :: Q) ++ [t]). rewrite last_snoc.
        destruct (decide (h = z)) as [->|Hhz]; [rewrite lookup_alter_eq|rewrite lookup_alter_ne by done]; rewrite lookup_insert_ne, HW by tauto; eexists; split; reflexivity.
    + split; [|done| |done].
      * cbn in Eh. destruct (get_lock l s) as [c ws ho re] eqn:EL. cbn in Eh. subst ws. exact EL.
      * intros x Hxn. cbn. rewrite Hx by (intros ->; apply Hxn; left). assert (x ≠ t) by (intros ->; apply Hxn; right; apply elem_of_app; right; left).
        rewrite lookup_insert_ne by done. rewrite lookup_alter_ne; [done|]. intros <-. apply Hxn. apply elem_of_cons in Hin as [->|Hin]; [left|right; apply elem_of_app; by left].
Qed.

Lemma dequeue_ok h l s Q : queue (nodes s) (waiters (get_lock l s)) (h :: Q) → NoDup (h :: Q) →
  ∃ s', dequeue h l s = Ret s' ∧ queue (nodes s') (head Q) Q ∧ touched l (fun L => L <| waiters := head Q |>) (h :: Q) s s'.
Proof.
  intros (Eh & [(W & HW & En) Hl] & Hlast) Hnd. apply NoDup_cons in Hnd as [Hh Hnd]. destruct (Hlast h Eh) as (W' & HW' & El). rewrite HW in HW'. injection HW' as <-.
  unfold dequeue. rewrite HW. cbn [deref mbind outcome_bind]. rewrite En. destruct Q as [|n Q].
  - cbn [head]. eexists. split; [reflexivity|]. split; [done|]. split; [apply get_set_lock|intros; by apply get_set_other|done|done].
  - cbn [head]. change (nodes (set_lock _ _ _)) with (nodes s). destruct Hl as [(Wn & HWn & Enn) Hl']. rewrite HWn. cbn [deref mbind outcome_bind]. eexists. split; [reflexivity|]. split.
    + split_and!; [done| |].
      * apply (links_agree (nodes s)); [split; [by exists Wn|done]|]. intros x _. cbn. destruct (decide (x = n)) as [->|]; [rewrite lookup_alter_eq|by rewrite lookup_alter_ne]. by destruct (nodes s !! n).
      * intros x [= <-]. cbn. rewrite lookup_alter_eq, HWn. eexists. split; [reflexivity|]. cbn. rewrite El. by rewrite last_cons_cons.
    + split; [apply get_set_lock|intros; by apply get_set_other| |done]. intros x Hx. cbn. rewrite lookup_alter_ne; [done|]. intros ->. apply Hx. right. left.
Qed.

(** ** The invariant *)

(** The right to the lock belongs to the holder, to a thread that has just won
    it, or to one that is unlocking it. *)
Definition has_token (p : pc) l : Prop :=
  match p with LSet l' _ | UAdd l' _ | USpin l' _ | UHand l' _ => l' = l | _ => False end.

(** The thread is counted in [count]. *)
Definition claims (p : pc) l : Prop :=
  match p with LSet l' _ | LSpin l' | LCheck l' | LBlocked l' | UAdd l' _ => l' = l | _ => False end.

Definition not_holder (p : pc) l : Prop :=
  match p with
  | Idle | LBlocked _ => False
  | LSub l' _ | LSet l' _ | LSpin l' | LCheck l' | SSpin l' _ | RSpin l' _ | RUnlock l' _ => l' = l
  | UClear _ to => to = Some l
  | UAdd l' to | USpin l' to | UHand l' to => l' = l ∨ to = Some l
  end.

Definition must_hold (p : pc) l : Prop :=
  match p with UClear l' _ | SSpin _ l' => l' = l | _ => False end.

Definition to_chain (to : option Z) (c : Z) : Prop := match to with Some l => VMC_HASH l = c | None => False end.

(** The chains a thread has. *)
Definition spins (p : pc) (c : Z) : Prop :=
  match p with
  | LSub l true | LSet l true | LCheck l | RUnlock l _ => VMC_HASH l = c
  | UClear _ to | UAdd _ to | USpin _ to => to_chain to c
  | UHand l to => VMC_HASH l = c ∨ to_chain to c
  | _ => False
  end.

Definition pc_of s t : pc := default Idle (threads s !! t).
Definition holds s t l : Prop := holder (get_lock l s) = t ∧ t ≠ 0.
Definition token s t l : Prop := has_token (pc_of s t) l ∨ holds s t l.
Definition claim s t l : Prop := claims (pc_of s t) l ∨ holds s t l.
Definition waiting s t l : Prop := pc_of s t = LBlocked l ∧ unblocked s !! t = None.

Record lock_inv s l (tk : option Z) (C : gset Z) (Q : list Z) : Prop := {
  lk_token t : token s t l ↔ tk = Some t;
  lk_released : released (get_lock l s) = true → tk = None ∧ Q = [];
  lk_free : count (get_lock l s) = 0 ↔ tk = None ∧ released (get_lock l s) = false;
  lk_claims t : t ∈ C ↔ claim s t l;
  lk_count : count (get_lock l s) = - Z.of_nat (size C);
  lk_queue : queue (nodes s) (waiters (get_lock l s)) Q;
  lk_nodup : NoDup Q;
  lk_waiting t : t ∈ Q ↔ waiting s t l
}.

Record sys_inv s : Prop := {
  si_lock l : ∃ tk C Q, lock_inv s l tk C Q;
  si_threads : Z.of_nat (size (threads s)) < 2 ^ 31 ∧ threads s !! 0 = None;
  si_holder t l : holds s t l → is_Some (threads s !! t);
  si_off t l : not_holder (pc_of s t) l → ¬ holds s t l;
  si_must t l : must_hold (pc_of s t) l → holds s t l;
  si_spin t c : spins (pc_of s t) c ↔ chains s !! c = Some t;
  si_woken t st : unblocked s !! t = Some st → st = Ok ∧ ∃ l, pc_of s t = LBlocked l ∧ holds s t l;
  si_wait t l : waiting s t l → ¬ holds s t l
}.

Lemma pc_in_dom s t : pc_of s t ≠ Idle → is_Some (threads s !! t).
Proof. unfold pc_of. destruct (threads s !! t); [eauto|done]. Qed.

Lemma claims_bounded s l tk C Q : sys_inv s → lock_inv s l tk C Q → Z.of_nat (size C) < 2 ^ 31.
Proof.
  intros Hs Hl. destruct (si_threads _ Hs) as [Hsz _]. assert (C ⊆ dom (threads s)) as Hsub.
  { intros t Ht. apply elem_of_dom. apply (lk_claims _ _ _ _ _ Hl) in Ht as [Hc|Hh]; [|by apply (si_holder _ Hs) in Hh]. apply pc_in_dom. by intros E; rewrite E in Hc. }
  apply subseteq_size in Hsub. rewrite size_dom in Hsub. lia.
Qed.

(** A step of thread [t] from [p] to [p'] that concerns lock [l]. *)
Section frame.
Context s s' t l p' (Hs : sys_inv s) (Hdom : is_Some (threads s !! t)) (Ht : threads s' = <[t := p']> (threads s)).
Context (Hlocks : ∀ l', l' ≠ l → get_lock l' s' = get_lock l' s).
Context (Hnodes : ∀ x l', l' ≠ l → pc_of s x = LBlocked l' → nodes s' !! x = nodes s !! x ∧ unblocked s' !! x = unblocked s !! x).
Context (Htok : ∀ l', l' ≠ l → (has_token p' l' ↔ has_token (pc_of s t) l') ∧ (claims p' l' ↔ claims (pc_of s t) l') ∧ (p' = LBlocked l' ↔ pc_of s t = LBlocked l')).
#[local] Set Default Proof Using "Type*".

Lemma pc_self : pc_of s' t = p'.
Proof using Ht. unfold pc_of. by rewrite Ht, lookup_insert_eq. Qed.

Lemma pc_other x : x ≠ t → pc_of s' x = pc_of s x.
Proof using Ht. intros. unfold pc_of. by rewrite Ht, lookup_insert_ne. Qed.

Lemma other_lock l' tk C Q : l' ≠ l → lock_inv s l' tk C Q → lock_inv s' l' tk C Q.
Proof.
  intros Hne H. destruct (Htok l' Hne) as (T1 & T2 & T3). pose proof (Hlocks l' Hne) as E.
  assert (∀ x, waiting s' x l' ↔ waiting s x l') as Hw.
  { intros x. unfold waiting. destruct (decide (x = t)) as [->|Hx]; [rewrite pc_self, T3|rewrite pc_other by done];
      (split; intros [H1 H2]; (split; [done|]); destruct (Hnodes _ l' Hne H1) as [_ E2]; congruence). }
  split; rewrite ?E; try apply H.
  - intros x. rewrite <- (lk_token _ _ _ _ _ H x). unfold token, holds. rewrite E. destruct (decide (x = t)) as [->|Hx]; [by rewrite pc_self, T1|by rewrite pc_other].
  - intros x. rewrite (lk_claims _ _ _ _ _ H x). unfold claim, holds. rewrite E. destruct (decide (x = t)) as [->|Hx]; [by rewrite pc_self, T2|by rewrite pc_other].
  - apply (queue_agree (nodes s)); [apply H|]. intros x Hx. apply (Hnodes x l'); [done|]. by apply (lk_waiting _ _ _ _ _ H) in Hx as [? _].
  - intros x. rewrite Hw. apply H.
Qed.

Lemma step_inv tk C Q : lock_inv s' l tk C Q →
  (∀ x, x ≠ t → holds s' x l → holds s x l ∨ pc_of s x = LBlocked l) → (∀ x, x ≠ t → holds s x l → holds s' x l) →
  (∀ l', not_holder p' l' → ¬ holds s' t l') → (∀ l', must_hold p' l' → holds s' t l') →
  (∀ c, spins p' c ↔ chains s' !! c = Some t) → (∀ c x, x ≠ t → chains s' !! c = Some x ↔ chains s !! c = Some x) →
  (∀ x st, unblocked s' !! x = Some st → st = Ok ∧ ∃ l', pc_of s' x = LBlocked l' ∧ holds s' x l') →
  (∀ x, waiting s' x l → ¬ holds s' x l) → sys_inv s'.
Proof.
  intros Hl Hh1 Hh2 Hoff Hmust Hsp1 Hsp2 Hwo Hwa.
  assert (∀ x l', l' ≠ l → holds s' x l' ↔ holds s x l') as Hho by (intros x l' Hne; unfold holds; by rewrite Hlocks).
  assert (∀ x l', holds s' x l' → x ≠ t → holds s x l' ∨ pc_of s x = LBlocked l') as Hb.
  { intros x l' H Hx. destruct (decide (l' = l)) as [->|Hne]; [by apply Hh1|left; by apply Hho]. }
  split.
  - intros l'. destruct (decide (l' = l)) as [->|Hne]; [by exists tk, C, Q|]. destruct (si_lock _ Hs l') as (tk' & C' & Q' & H). exists tk', C', Q'. by apply other_lock.
  - destruct (si_threads _ Hs) as [H1 H2]. rewrite Ht. split.
    + rewrite map_size_insert. destruct Hdom as [q ->]. done.
    + rewrite lookup_insert_ne; [done|]. intros ->. rewrite H2 in Hdom. by destruct Hdom.
  - intros x l' H. rewrite Ht. destruct (decide (x = t)) as [->|Hx]; [rewrite lookup_insert_eq; eauto|]. rewrite lookup_insert_ne by done.
    destruct (Hb x l' H Hx) as [H'|H']; [by apply (si_holder _ Hs) in H'|]. apply pc_in_dom. by rewrite H'.
  - intros x l' H. destruct (decide (x = t)) as [->|Hx]; [rewrite pc_self in H; by apply Hoff|]. rewrite pc_other in H by done. intros Hh. destruct (Hb x l' Hh Hx) as [Hh'|E].
    + by apply (si_off _ Hs x l').
    + by rewrite E in H.
  - intros x l' H. destruct (decide (x = t)) as [->|Hx]; [rewrite pc_self in H; by apply Hmust|]. rewrite pc_other in H by done. apply (si_must _ Hs) in H.
    destruct (decide (l' = l)) as [->|Hne]; [by apply Hh2|by apply Hho].
  - intros x c. destruct (decide (x = t)) as [->|Hx]; [rewrite pc_self; apply Hsp1|]. rewrite pc_other, Hsp2 by done. apply (si_spin _ Hs).
  - apply Hwo.
  - intros x l' H. destruct (decide (l' = l)) as [->|Hne]; [by apply Hwa|]. rewrite Hho by done. apply (si_wait _ Hs). destruct H as [H1 H2]. destruct (Htok l' Hne) as (_ & _ & T3).
    assert (pc_of s x = LBlocked l') as E by (destruct (decide (x = t)) as [->|Hx]; [by rewrite pc_self, T3 in H1|by rewrite pc_other in H1]). split; [done|]. destruct (Hnodes x l' Hne E) as [_ E2]. congruence.
Qed.
End frame.
#[local] Set Default Proof Using "Type".

(** ** Steps *)

(** Steps that change no lock. *)
Lemma move_inv s s' t p' : sys_inv s → is_Some (threads s !! t) → threads s' = <[t := p']> (threads s) → locks s' = locks s → nodes s' = nodes s → unblocked s' = unblocked s →
  (∀ l, (has_token p' l ↔ has_token (pc_of s t) l) ∧ (claims p' l ↔ claims (pc_of s t) l)) → (∀ l, p' ≠ LBlocked l ∧ pc_of s t ≠ LBlocked l) →
  (∀ l, not_holder p' l → ¬ holds s t l) → (∀ l, must_hold p' l → holds s t l) →
  (∀ c, spins p' c ↔ chains s' !! c = Some t) → (∀ c x, x ≠ t → chains s' !! c = Some x ↔ chains s !! c = Some x) → sys_inv s'.
Proof.
  intros Hs Hd Ht El En Eu Htok Hnb Hoff Hmust Hsp1 Hsp2.
  assert (∀ l, get_lock l s' = get_lock l s) as Eg by (intros l; unfold get_lock; by rewrite El).
  assert (∀ x l, holds s' x l ↔ holds s x l) as Hho by (intros x l; unfold holds; by rewrite Eg).
  assert (∀ x, x ≠ t → pc_of s' x = pc_of s x) as Ho by (intros x Hx; by apply (pc_other s s' t p')).
  pose proof (pc_self s s' t p' Ht) as Hse.
  assert (∀ x l, pc_of s' x = LBlocked l ↔ pc_of s x = LBlocked l) as Hbl.
  { intros x l. destruct (decide (x = t)) as [->|Hx]; [|by rewrite Ho]. rewrite Hse. destruct (Hnb l). tauto. }
  assert (∀ x l, waiting s' x l ↔ waiting s x l) as Hwt by (intros x l; unfold waiting; by rewrite Eu, Hbl).
  assert (∀ l tk C Q, lock_inv s l tk C Q → lock_inv s' l tk C Q) as Hlk.
  { intros l tk C Q H. split; rewrite ?Eg, ?En; try apply H.
    - intros x. rewrite <- (lk_token _ _ _ _ _ H x). unfold token. rewrite Hho. destruct (decide (x = t)) as [->|Hx]; [by rewrite Hse, (proj1 (Htok l))|by rewrite Ho].
    - intros x. rewrite (lk_claims _ _ _ _ _ H x). unfold claim. rewrite Hho. destruct (decide (x = t)) as [->|Hx]; [by rewrite Hse, (proj2 (Htok l))|by rewrite Ho].
    - intros x. rewrite Hwt. apply H. }
  destruct (si_lock _ Hs 0) as (tk & C & Q & H0).
  apply (step_inv s s' t 0 p' Hs Hd Ht) with (tk := tk) (C := C) (Q := Q); try done.
  - intros x l' _ _. by rewrite En, Eu.
  - intros l' _. destruct (Htok l'), (Hnb l'). split_and!; [done|done|tauto].
  - by apply Hlk.
  - intros x _ H. left. by apply Hho.
  - intros x _. apply Hho.
  - intros l' H. rewrite Hho. by apply Hoff.
  - intros l' H. rewrite Hho. by apply Hmust.
  - rewrite Eu. intros x st (E & l & H1 & H2)%(si_woken _ Hs). split; [done|]. exists l. by rewrite Hbl, Hho.
  - intros x H. rewrite Hho. by apply (si_wait _ Hs), Hwt.
Qed.

(** Taking the chain of [l0] on the way to [p']. *)
Lemma spin_inv s t l0 p' : sys_inv s → pc_of s t ≠ Idle → spin_free l0 s = true →
  (∀ l, (has_token p' l ↔ has_token (pc_of s t) l) ∧ (claims p' l ↔ claims (pc_of s t) l)) → (∀ l, p' ≠ LBlocked l ∧ pc_of s t ≠ LBlocked l) →
  (∀ l, not_holder p' l → not_holder (pc_of s t) l) → (∀ l, must_hold p' l → must_hold (pc_of s t) l) →
  (∀ c, spins p' c ↔ VMC_HASH l0 = c ∨ spins (pc_of s t) c) → sys_inv (goto t p' (spin_lock t l0 s)).
Proof.
  intros Hs Hp Hf Htok Hnb Hoff Hmust Hsp. apply pc_in_dom in Hp. unfold spin_free in Hf. apply bool_decide_eq_true in Hf.
  apply (move_inv s _ t p' Hs Hp); try done.
  - intros l Hl. by apply (si_off _ Hs), Hoff.
  - intros l Hl. by apply (si_must _ Hs), Hmust.
  - intros c. rewrite Hsp. rewrite (si_spin _ Hs t c). cbn. destruct (decide (VMC_HASH l0 = c)) as [<-|Hc]; [rewrite lookup_insert_eq|rewrite lookup_insert_ne by done]; naive_solver.
  - intros c x Hx. cbn. destruct (decide (VMC_HASH l0 = c)) as [<-|Hc]; [rewrite lookup_insert_eq, Hf|by rewrite lookup_insert_ne]. naive_solver.
Qed.

(** The chains when a thread gives up the one of [l]. *)
Lemma chains_unlock s t l p' : sys_inv s → (∀ c, spins (pc_of s t) c ↔ VMC_HASH l = c ∨ spins p' c) → ¬ spins p' (VMC_HASH l) →
  (∀ c, spins p' c ↔ delete (VMC_HASH l) (chains s) !! c = Some t) ∧ (∀ c x, x ≠ t → delete (VMC_HASH l) (chains s) !! c = Some x ↔ chains s !! c = Some x).
Proof.
  intros Hs Hsp Hn. pose proof (proj1 (si_spin _ Hs t (VMC_HASH l))) as Ht. rewrite Hsp in Ht. specialize (Ht (or_introl eq_refl)). split.
  - intros c. destruct (decide (VMC_HASH l = c)) as [<-|Hc]; [rewrite lookup_delete_eq; naive_solver|]. rewrite lookup_delete_ne by done. rewrite <- (si_spin _ Hs t c), Hsp. naive_solver.
  - intros c x Hx. destruct (decide (VMC_HASH l = c)) as [<-|Hc]; [rewrite lookup_delete_eq, Ht; naive_solver|by rewrite lookup_delete_ne].
Qed.

Lemma chains_same s t p' : sys_inv s → (∀ c, spins p' c ↔ spins (pc_of s t) c) → ∀ c, spins p' c ↔ chains s !! c = Some t.
Proof. intros Hs H c. rewrite H. apply (si_spin _ Hs). Qed.

(** ** Steps on a lock *)

Section steps.
Context s t l (Hs : sys_inv s) (tk : option Z) (C : gset Z) (Q : list Z) (Hl : lock_inv s l tk C Q) (Ht0 : t ≠ 0).
#[local] Set Default Proof Using "Type*".

Lemma holder_token x : holds s x l → tk = Some x.
Proof. intros H. apply (lk_token _ _ _ _ _ Hl). by right. Qed.

Lemma no_holder_off : not_holder (pc_of s t) l → tk = Some t ∨ tk = None → holder (get_lock l s) = 0.
Proof.
  intros Hn Htk. destruct (decide (holder (get_lock l s) = 0)) as [|Hne]; [done|]. assert (holds s (holder (get_lock l s)) l) as Hh by done.
  pose proof (holder_token _ Hh) as E. destruct Htk as [->| ->]; [|done]. injection E as E. rewrite <- E in Hh. by apply (si_off _ Hs) in Hn.
Qed.

Lemma count_le : count (get_lock l s) <= 0.
Proof. rewrite (lk_count _ _ _ _ _ Hl). lia. Qed.

(** The claims when [t] joins or leaves. *)
Lemma claims_step (b : bool) p' s' : pc_of s' t = p' → (b = true ↔ claim s' t l) → (∀ x, x ≠ t → pc_of s' x = pc_of s x) → (∀ x, x ≠ t → holds s' x l → claim s x l) → (∀ x, x ≠ t → holds s x l → holds s' x l) →
  ∀ x, x ∈ (if b then C ∪ {[t]} else C ∖ {[t]}) ↔ claim s' x l.
Proof.
  intros E Hb Ho Hh1 Hh2 x. destruct (decide (x = t)) as [->|Hx].
  - rewrite <- Hb. destruct b; set_solver.
  - transitivity (x ∈ C); [destruct b; set_solver|]. rewrite (lk_claims _ _ _ _ _ Hl x). unfold claim at 2. rewrite (Ho x Hx). unfold claim. split; [|intros [?|?]; [by left|by apply Hh1]].
    intros [?|?]; [by left|right; by apply Hh2].
Qed.

(** A step that leaves the queue of [l] and the threads in it alone. *)
Lemma plain_inv s' p' tk' (b : bool) : is_Some (threads s !! t) → threads s' = <[t := p']> (threads s) → (∀ l', l' ≠ l → get_lock l' s' = get_lock l' s) →
  nodes s' = nodes s → unblocked s' = unblocked s → waiters (get_lock l s') = waiters (get_lock l s) → (∀ l', p' ≠ LBlocked l' ∧ pc_of s t ≠ LBlocked l') →
  (∀ l', l' ≠ l → (has_token p' l' ↔ has_token (pc_of s t) l') ∧ (claims p' l' ↔ claims (pc_of s t) l')) →
  (∀ x, x ≠ t → holds s' x l ↔ holds s x l) → (∀ x, x ≠ t → tk' = Some x ↔ tk = Some x) → (tk' = Some t ↔ has_token p' l ∨ holds s' t l) →
  (released (get_lock l s') = true → tk' = None ∧ Q = []) → (count (get_lock l s') = 0 ↔ tk' = None ∧ released (get_lock l s') = false) →
  (b = true ↔ claims p' l ∨ holds s' t l) → count (get_lock l s') = - Z.of_nat (size (if b then C ∪ {[t]} else C ∖ {[t]})) →
  (∀ l', not_holder p' l' → ¬ holds s' t l') → (∀ l', must_hold p' l' → holds s' t l') →
  (∀ c, spins p' c ↔ chains s' !! c = Some t) → (∀ c x, x ≠ t → chains s' !! c = Some x ↔ chains s !! c = Some x) → sys_inv s'.
Proof.
  intros Hd Ht Hlk En Eu Ew Hnb Htok Hho Htk1 Htk2 Hre Hfr Hb Hc Hoff Hmust Hsp1 Hsp2.
  pose proof (pc_self s s' t p' Ht) as Hse. assert (∀ x, x ≠ t → pc_of s' x = pc_of s x) as Ho by (intros x Hx; by apply (pc_other s s' t p')).
  assert (∀ x l', pc_of s' x = LBlocked l' ↔ pc_of s x = LBlocked l') as Hbl.
  { intros x l'. destruct (decide (x = t)) as [->|Hx]; [|by rewrite Ho]. rewrite Hse. destruct (Hnb l'). tauto. }
  assert (∀ x l', waiting s' x l' ↔ waiting s x l') as Hwt by (intros x l'; unfold waiting; by rewrite Eu, Hbl).
  assert (∀ x, pc_of s x = LBlocked l → x ≠ t) as Hxt by (intros x E ->; by destruct (Hnb l)).
  apply (step_inv s s' t l p' Hs Hd Ht Hlk) with (tk := tk') (C := if b then C ∪ {[t]} else C ∖ {[t]}) (Q := Q); try done.
  - intros x l' _ _. by rewrite En, Eu.
  - intros l' Hne. destruct (Htok l' Hne), (Hnb l'). split_and!; [done|done|tauto].
  - split; rewrite ?Ew, ?En; try done; try apply Hl.
    + intros x. unfold token. destruct (decide (x = t)) as [->|Hx]; [by rewrite Hse, Htk2|]. rewrite Ho, Hho, Htk1 by done. apply (lk_token _ _ _ _ _ Hl).
    + apply (claims_step b p'); [done|rewrite Hb; unfold claim; by rewrite Hse|done| |]; intros x Hx; rewrite Hho by done; [|done]. by right.
    + intros x. rewrite Hwt. apply Hl.
  - intros x Hx H. left. by apply Hho.
  - intros x Hx. by apply Hho.
  - rewrite Eu. intros x st (E & l' & H1 & H2)%(si_woken _ Hs). split; [done|]. exists l'. rewrite Hbl. split; [done|]. assert (x ≠ t) as Hx by (intros ->; by destruct (Hnb l')).
    destruct (decide (l' = l)) as [->|Hne]; [by apply Hho|]. unfold holds. by rewrite Hlk.
  - intros x H. assert (x ≠ t) as Hx by (apply Hxt; by apply Hwt in H as [? _]). rewrite Hho by done. by apply (si_wait _ Hs), Hwt.
Qed.

Lemma holds_set x f s' : get_lock l s' = f (get_lock l s) → holds s' x l ↔ holder (f (get_lock l s)) = x ∧ x ≠ 0.
Proof using Type. clear. intros E. unfold holds. by rewrite E. Qed.

Lemma size_join : ¬ claim s t l → size (C ∪ {[t]}) = S (size C).
Proof. intros H. rewrite <- (lk_claims _ _ _ _ _ Hl) in H. rewrite size_union by set_solver. rewrite size_singleton. lia. Qed.

Lemma size_leave : claim s t l → size C = S (size (C ∖ {[t]})).
Proof.
  intros H. rewrite <- (lk_claims _ _ _ _ _ Hl) in H. assert (C = C ∖ {[t]} ∪ {[t]}) as E by (apply leibniz_equiv_iff; intros x; destruct (decide (x = t)); set_solver).
  rewrite E at 1. rewrite size_union by set_solver. rewrite size_singleton. lia.
Qed.

Lemma stay : claim s t l → C ∪ {[t]} = C.
Proof. intros H. rewrite <- (lk_claims _ _ _ _ _ Hl) in H. apply leibniz_equiv_iff. set_solver. Qed.

Lemma in_dom p : pc_of s t = p → p ≠ Idle → is_Some (threads s !! t).
Proof using Type. clear. intros <-. apply pc_in_dom. Qed.

(** [fetch_sub] finds the lock taken. *)
Lemma sub_contended held : pc_of s t = LSub l held → count (get_lock l s) < 0 →
  sys_inv (goto t (if held then LCheck l else LSpin l) (set_lock l (fun L => L <| count := i32 (count (get_lock l s) - 1) |>) s)).
Proof.
  intros Hp Hc. pose proof (claims_bounded _ _ _ _ _ Hs Hl) as Hb. pose proof (lk_count _ _ _ _ _ Hl) as Hcnt.
  rewrite i32_small by lia. set (p' := if held then LCheck l else LSpin l). set (s' := goto _ _ _).
  assert (get_lock l s' = (get_lock l s) <| count := count (get_lock l s) - 1 |>) as EL by (unfold s'; apply (get_set_lock l _ s)).
  assert (∀ x, holds s' x l ↔ holds s x l) as Hho by (intros x; unfold holds; by rewrite EL).
  assert (¬ holds s t l) as Hnh by (apply (si_off _ Hs); by rewrite Hp).
  assert (∀ l', l' ≠ l → get_lock l' s' = get_lock l' s) as Eo by (intros; by apply (get_set_other l l' _ s)).
  assert (¬ claim s t l) as Hnc by (unfold claim; rewrite Hp; cbn; tauto).
  assert (tk ≠ Some t) as Htk by (rewrite <- (lk_token _ _ _ _ _ Hl t); unfold token; rewrite Hp; cbn; tauto).
  assert (∀ l', (not_holder p' l' → l' = l) ∧ ¬ must_hold p' l' ∧ ¬ has_token p' l' ∧ (claims p' l' ↔ l = l') ∧ (spins p' = spins (LSub l held)) ∧ p' ≠ LBlocked l') as Hp'
    by (intros l'; unfold p'; destruct held; cbn; split_and!; (done || by intros [] || by intros ->)).
  apply (plain_inv s' p' tk true); try done.
  - by apply (in_dom _ Hp).
  - by rewrite EL.
  - intros l'. rewrite Hp. split; [apply Hp'|done].
  - intros l' Hne. rewrite Hp. cbn. destruct (Hp' l') as (_ & _ & ? & ? & _). split; [tauto|]. split; [|done]. intros ?. by destruct Hne; symmetry; tauto.
  - destruct (Hp' l) as (_ & _ & ? & _). rewrite Hho. tauto.
  - rewrite EL. apply Hl.
  - rewrite EL. cbn. pose proof (lk_free _ _ _ _ _ Hl). split; [lia|]. intros H'%H. lia.
  - split; [|done]. intros _. left. by apply Hp'.
  - rewrite EL. cbn. rewrite size_join by done. lia.
  - intros l' ->%Hp'. by rewrite Hho.
  - intros l' H. by destruct (Hp' l') as (_ & ? & _).
  - apply (chains_same s t _ Hs). intros c. rewrite Hp. destruct (Hp' 0) as (_ & _ & _ & _ & E & _). by rewrite E.
Qed.

(** The lock was free. *)
Lemma sub_won p held f : pc_of s t = p → p = LSub l held ∨ p = Idle ∧ held = false → count (get_lock l s) = 0 → is_Some (threads s !! t) → f (get_lock l s) = (get_lock l s) <| count := -1 |> →
  sys_inv (goto t (LSet l held) (set_lock l f s)).
Proof.
  intros Hp Hpc Hc Hd Ef. set (s' := goto _ _ _). pose proof (proj1 (lk_free _ _ _ _ _ Hl) Hc) as [Etk Ere].
  assert (get_lock l s' = (get_lock l s) <| count := -1 |>) as EL by (rewrite <- Ef; apply (get_set_lock l _ s)).
  assert (∀ x, ¬ holds s x l) as Hnh by (intros x Hx; apply holder_token in Hx; congruence).
  assert (∀ x, ¬ holds s' x l) as Hnh' by (intros x; unfold holds; rewrite EL; apply Hnh).
  assert (∀ l', l' ≠ l → get_lock l' s' = get_lock l' s) as Eo by (intros; by apply (get_set_other l l' _ s)).
  assert (C = ∅) as EC by (apply leibniz_equiv_iff, size_empty_iff; pose proof (lk_count _ _ _ _ _ Hl); lia).
  assert (∀ l', ¬ has_token p l' ∧ ¬ claims p l' ∧ p ≠ LBlocked l' ∧ (spins p = spins (LSub l held))) as Hpp by (intros l'; destruct Hpc as [->|[-> ->]]; split_and!; (done || by intros [])).
  apply (plain_inv s' (LSet l held) (Some t) true); try done.
  - by rewrite EL.
  - intros l'. rewrite Hp. split; [done|apply Hpp].
  - intros l' Hne. rewrite Hp. cbn. destruct (Hpp l') as (? & ? & _). split; (split; [by intros <-|tauto]).
  - intros x Hx. split; intros Hh; [by apply Hnh' in Hh|by apply Hnh in Hh].
  - intros x Hx. rewrite Etk. split; congruence.
  - split; [by left|done].
  - rewrite EL. cbn. rewrite Ere. done.
  - rewrite EL. cbn. split; [lia|]. by intros [? _].
  - by split; [left|].
  - rewrite EL. cbn. rewrite EC, union_empty_l_L, size_singleton. done.
  - intros l' <-. apply Hnh'.
  - apply (chains_same s t _ Hs). intros c. rewrite Hp. destruct (Hpp 0) as (_ & _ & _ & E). by rewrite E.
Qed.

(** The holder is set. *)
Lemma set_holder held : pc_of s t = LSet l held → sys_inv (lock_return t l held (set_lock l (fun L => L <| holder := t |>) s)).
Proof.
  intros Hp. set (s' := lock_return _ _ _ _).
  assert (get_lock l s' = (get_lock l s) <| holder := t |>) as EL by (unfold s', lock_return; destruct held; apply (get_set_lock l _ s)).
  assert (∀ l', l' ≠ l → get_lock l' s' = get_lock l' s) as Eo by (intros; unfold s', lock_return; destruct held; by apply (get_set_other l l' _ s)).
  assert (tk = Some t) as Etk by (apply (lk_token _ _ _ _ _ Hl); left; by rewrite Hp).
  assert (holder (get_lock l s) = 0) as E0 by (apply no_holder_off; [by rewrite Hp|by left]).
  assert (holds s' t l) as Hht by (unfold holds; by rewrite EL).
  assert (claim s t l) as Hcl by (left; by rewrite Hp).
  apply (plain_inv s' Idle (Some t) true); try done; try (unfold s', lock_return; by destruct held).
  - by apply (in_dom _ Hp).
  - rewrite EL. done.
  - intros l'. by rewrite Hp.
  - intros l' Hne. rewrite Hp. cbn. split; (split; [done|by intros ->]).
  - intros x Hx. unfold holds. rewrite EL, E0. cbn. split; intros [? ?]; congruence.
  - intros x _. by rewrite Etk.
  - split; [by right|done].
  - rewrite EL. cbn. rewrite <- Etk. apply Hl.
  - rewrite EL. cbn. rewrite <- Etk. apply Hl.
  - split; [by right|done].
  - rewrite EL. cbn. rewrite stay by done. apply Hl.
  - unfold s', lock_return. destruct held; [|apply (chains_same s t _ Hs); by rewrite Hp]. apply (chains_unlock s t l Idle Hs); [|by intros []]. rewrite Hp. cbn. tauto.
  - unfold s', lock_return. destruct held; [|done]. apply (chains_unlock s t l Idle Hs); [|by intros []]. rewrite Hp. cbn. tauto.
Qed.

(** The lock was released on the way to the queue. *)
Lemma take_released : pc_of s t = LCheck l → released (get_lock l s) = true →
  sys_inv (lock_return t l true (set_lock l (fun L => L <| released := false |> <| holder := t |>) s)).
Proof.
  intros Hp Hre. set (s' := lock_return _ _ _ _).
  assert (get_lock l s' = (get_lock l s) <| released := false |> <| holder := t |>) as EL by (unfold get_lock at 1; cbn; by rewrite lookup_insert_eq).
  assert (∀ l', l' ≠ l → get_lock l' s' = get_lock l' s) as Eo by (intros; by apply (get_set_other l l' _ s)).
  destruct (lk_released _ _ _ _ _ Hl Hre) as [Etk EQ]. assert (holds s' t l) as Hht by (unfold holds; by rewrite EL).
  assert (holder (get_lock l s) = 0) as E0 by (apply no_holder_off; [by rewrite Hp|by right]).
  assert (claim s t l) as Hcl by (left; by rewrite Hp).
  destruct (chains_unlock s t l Idle Hs) as [Hc1 Hc2]; [rewrite Hp; cbn; tauto|by intros []|].
  apply (plain_inv s' Idle (Some t) true); try done.
  - by apply (in_dom _ Hp).
  - by rewrite EL.
  - intros l'. by rewrite Hp.
  - intros l' Hne. rewrite Hp. cbn. split; [done|]. split; [done|by intros ->].
  - intros x Hx. unfold holds. rewrite EL, E0. cbn. split; intros [? ?]; congruence.
  - intros x Hx. rewrite Etk. split; congruence.
  - split; [by right|done].
  - rewrite EL. done.
  - rewrite EL. cbn. split; [|by intros [? _]]. intros H. apply (lk_free _ _ _ _ _ Hl) in H as [_ ?]. congruence.
  - split; [by right|done].
  - rewrite EL. cbn. rewrite stay by done. apply Hl.
Qed.

Lemma clear_holder to : pc_of s t = UClear l to → sys_inv (goto t (UAdd l to) (set_lock l (fun L => L <| holder := 0 |>) s)).
Proof.
  intros Hp. set (s' := goto _ _ _). assert (get_lock l s' = (get_lock l s) <| holder := 0 |>) as EL by apply (get_set_lock l _ s).
  assert (∀ l', l' ≠ l → get_lock l' s' = get_lock l' s) as Eo by (intros; by apply (get_set_other l l' _ s)).
  assert (holds s t l) as Hh by (apply (si_must _ Hs); by rewrite Hp). pose proof (holder_token _ Hh) as Etk.
  assert (∀ x, ¬ holds s' x l) as Hnh by (intros x [E ?]; rewrite EL in E; cbn in E; congruence). assert (claim s t l) as Hcl by (by right).
  assert (∀ l', to = Some l' → l' ≠ l) as Hto by (intros l' -> ->; by apply (si_off _ Hs t l); [rewrite Hp|]).
  apply (plain_inv s' (UAdd l to) (Some t) true); try done.
  - by apply (in_dom _ Hp).
  - by rewrite EL.
  - intros l'. by rewrite Hp.
  - intros l' Hne. rewrite Hp. cbn. split; (split; [by intros <-|done]).
  - intros x Hx. split; intros Hx'; [by apply Hnh in Hx'|]. destruct Hh, Hx'. congruence.
  - intros x Hx. by rewrite Etk.
  - split; [by left|done].
  - rewrite EL. cbn. rewrite <- Etk. apply Hl.
  - rewrite EL. cbn. rewrite <- Etk. apply Hl.
  - by split; [left|].
  - rewrite EL. cbn. rewrite stay by done. apply Hl.
  - intros l' [<-|Eto]; [apply Hnh|]. unfold holds. rewrite Eo by auto. apply (si_off _ Hs t l'). by rewrite Hp.
  - apply (chains_same s t _ Hs). by rewrite Hp.
Qed.

(** The pc after [_UnlockEtc]. *)
Definition after_unlock (to : option Z) : pc := match to with None => Idle | Some l => LSub l true end.

Lemma unlock_return_eq to s0 : unlock_return t to s0 = goto t (after_unlock to) s0.
Proof using Type. clear. by destruct to. Qed.

(** [fetch_add]: [p'] hands the lock over if there are other claims. *)
Lemma add_count to p' : pc_of s t = UAdd l to →
  (count (get_lock l s) < -1 → p' = if same_chain l to then UHand l to else USpin l to) → (-1 <= count (get_lock l s) → p' = after_unlock to) →
  sys_inv (goto t p' (set_lock l (fun L => L <| count := i32 (count (get_lock l s) + 1) |>) s)).
Proof.
  intros Hp H1 H2. pose proof (claims_bounded _ _ _ _ _ Hs Hl) as Hb. pose proof (lk_count _ _ _ _ _ Hl) as Hcnt. assert (claim s t l) as Hcl by (left; by rewrite Hp).
  pose proof (size_leave Hcl) as Hsz. rewrite i32_small by lia. set (s' := goto _ _ _).
  assert (get_lock l s' = (get_lock l s) <| count := count (get_lock l s) + 1 |>) as EL by apply (get_set_lock l _ s).
  assert (∀ l', l' ≠ l → get_lock l' s' = get_lock l' s) as Eo by (intros; by apply (get_set_other l l' _ s)).
  assert (∀ x l', holds s' x l' ↔ holds s x l') as Hho by (intros x l'; unfold holds; destruct (decide (l' = l)) as [->|]; [by rewrite EL|by rewrite Eo]).
  assert (tk = Some t) as Etk by (apply (lk_token _ _ _ _ _ Hl); left; by rewrite Hp).
  assert (∀ l', l' = l ∨ to = Some l' → ¬ holds s t l') as Hoff by (intros l' H; apply (si_off _ Hs); rewrite Hp; destruct H as [->|]; [by left|by right]).
  assert (released (get_lock l s) = false) as Ere by (destruct (released (get_lock l s)) eqn:E; [|done]; apply (lk_released _ _ _ _ _ Hl) in E as [? _]; congruence).
  assert (∀ l', p' ≠ LBlocked l' ∧ ¬ claims p' l' ∧ ¬ must_hold p' l' ∧ (not_holder p' l' → l' = l ∨ to = Some l') ∧ (has_token p' l' ↔ l' = l ∧ count (get_lock l s) < -1) ∧ (∀ c, spins p' c ↔ to_chain to c)) as Hp'.
  { intros l'. destruct (Z.lt_ge_cases (count (get_lock l s)) (-1)) as [Hlt|Hge].
    - rewrite (H1 Hlt). assert (same_chain l to = true → to_chain to (VMC_HASH l)) as Hsc by (destruct to; [by intros ?%Z.eqb_eq|done]).
      destruct (same_chain l to); cbn; split_and!; try done; try (by intros []); try naive_solver.
    - rewrite (H2 Hge). destruct to as [l2|]; cbn; split_and!; try done; try (by intros []); try (naive_solver lia). }
  apply (plain_inv s' p' (if decide (count (get_lock l s) < -1) then Some t else None) false); try done.
  - by apply (in_dom _ Hp).
  - by rewrite EL.
  - intros l'. rewrite Hp. split; [apply Hp'|done].
  - intros l' Hne. rewrite Hp. cbn. destruct (Hp' l') as (_ & ? & _ & _ & E & _). rewrite E. split; (split; [tauto|by intros <-]).
  - intros x Hx. rewrite Etk. destruct (decide _); split; congruence.
  - destruct (Hp' l) as (_ & _ & _ & _ & E & _). rewrite E, Hho. pose proof (Hoff l (or_introl eq_refl)). destruct (decide _); naive_solver.
  - rewrite EL. cbn. congruence.
  - rewrite EL. cbn. destruct (decide _); split; try done; try lia. by intros [? _].
  - rewrite Hho. destruct (Hp' l) as (_ & ? & _). pose proof (Hoff l (or_introl eq_refl)). split; [done|tauto].
  - rewrite EL. cbn. lia.
  - intros l' H. rewrite Hho. apply Hoff. destruct (Hp' l') as (_ & _ & _ & E & _). by apply E.
  - intros l' H. by destruct (Hp' l') as (_ & _ & ? & _).
  - apply (chains_same s t _ Hs). rewrite Hp. apply (Hp' 0).
Qed.

(** The chains after [_UnlockEtc]. *)
Lemma hand_chains to : pc_of s t = UHand l to → let ch := if same_chain l to then chains s else delete (VMC_HASH l) (chains s) in
  (∀ c, spins (after_unlock to) c ↔ ch !! c = Some t) ∧ (∀ c x, x ≠ t → ch !! c = Some x ↔ chains s !! c = Some x).
Proof.
  intros Hp ch. assert (∀ c, spins (after_unlock to) c ↔ to_chain to c) as Ha by (by destruct to). unfold ch. destruct (same_chain l to) eqn:E.
  - split; [|done]. apply (chains_same s t _ Hs). intros c. rewrite Ha, Hp. cbn. assert (to_chain to (VMC_HASH l)) by (destruct to; [by apply Z.eqb_eq in E|done]). naive_solver.
  - apply chains_unlock; [done| |].
    + intros c. rewrite Ha, Hp. done.
    + rewrite Ha. destruct to as [l2|]; [|by intros []]. cbn in *. apply Z.eqb_neq in E. congruence.
Qed.

Lemma hand_facts to : pc_of s t = UHand l to → tk = Some t ∧ (∀ x, ¬ holds s x l) ∧ ¬ claim s t l ∧ released (get_lock l s) = false ∧ count (get_lock l s) ≠ 0 ∧
  (∀ l', not_holder (after_unlock to) l' → ¬ holds s t l' ∧ l' ≠ l ∨ to = Some l ∧ l' = l).
Proof.
  intros Hp. assert (tk = Some t) as Etk by (apply (lk_token _ _ _ _ _ Hl); left; by rewrite Hp). assert (¬ holds s t l) as Hn by (apply (si_off _ Hs); rewrite Hp; by left).
  assert (∀ x, ¬ holds s x l) as Hnh by (intros x Hx; pose proof (holder_token _ Hx); naive_solver). split_and!; try done.
  - unfold claim. rewrite Hp. cbn. tauto.
  - destruct (released (get_lock l s)) eqn:E; [|done]. apply (lk_released _ _ _ _ _ Hl) in E as [? _]. congruence.
  - intros [? _]%(lk_free _ _ _ _ _ Hl). congruence.
  - intros l' H. destruct to as [l2|]; [|done]. cbn in H. subst l2. destruct (decide (l' = l)) as [->|]; [by right|left]. split; [|done]. apply (si_off _ Hs). rewrite Hp. by right.
Qed.

(** No thread is in the queue: the lock is marked as released. *)
Lemma hand_release to s1 : pc_of s t = UHand l to → Q = [] → s1 = set_lock l (fun L => L <| released := true |>) s →
  sys_inv (unlock_return t to (if same_chain l to then s1 else spin_unlock l s1)).
Proof.
  intros Hp HQ ->. rewrite unlock_return_eq. set (s' := goto _ _ _). destruct (hand_facts to Hp) as (Etk & Hnh & Hnc & Ere & Hcn & Hoff). destruct (hand_chains to Hp) as [Hc1 Hc2].
  assert (get_lock l s' = (get_lock l s) <| released := true |>) as EL by (unfold s'; destruct (same_chain l to); apply (get_set_lock l _ s)).
  assert (∀ l', l' ≠ l → get_lock l' s' = get_lock l' s) as Eo by (intros; unfold s'; destruct (same_chain l to); by apply (get_set_other l l' _ s)).
  assert (∀ x l', holds s' x l' ↔ holds s x l') as Hho by (intros x l'; unfold holds; destruct (decide (l' = l)) as [->|]; [by rewrite EL|by rewrite Eo]).
  assert (chains s' = if same_chain l to then chains s else delete (VMC_HASH l) (chains s)) as Ec by (unfold s'; by destruct (same_chain l to)).
  assert (∀ l', ¬ has_token (after_unlock to) l' ∧ ¬ claims (after_unlock to) l' ∧ ¬ must_hold (after_unlock to) l' ∧ after_unlock to ≠ LBlocked l') as Ha by (intros l'; destruct to; split_and!; (done || by intros [])).
  apply (plain_inv s' (after_unlock to) None false); try done; try (unfold s'; by destruct (same_chain l to)).
  - by apply (in_dom _ Hp).
  - by rewrite EL.
  - intros l'. rewrite Hp. split; [apply Ha|done].
  - intros l' Hne. rewrite Hp. cbn. destruct (Ha l') as (? & ? & _). split; [split; [tauto|by intros <-]|split; [tauto|by intros []]].
  - intros x Hx. rewrite Etk. split; congruence.
  - destruct (Ha l) as (? & _). rewrite Hho. pose proof (Hnh t). split; [done|tauto].
  - rewrite EL. cbn. by split; [|intros [_ ?]].
  - destruct (Ha l) as (_ & ? & _). rewrite Hho. pose proof (Hnh t). split; [done|tauto].
  - rewrite EL. cbn. assert (C ∖ {[t]} = C) as ->; [|apply Hl]. rewrite <- (lk_claims _ _ _ _ _ Hl) in Hnc. apply leibniz_equiv_iff. set_solver.
  - intros l' [[? _]|[_ ->]]%Hoff; rewrite Hho; [done|apply Hnh].
  - intros l' H. by destruct (Ha l') as (_ & _ & ? & _).
Qed.

(** The first thread of the queue gets the lock. *)
Lemma hand_waiter to w Q' s1 : pc_of s t = UHand l to → Q = w :: Q' → queue (nodes s1) (head Q') Q' → touched l (fun L => L <| waiters := head Q' |>) Q s s1 →
  let s2 := thread_unblock w Ok (set_lock l (fun L => L <| holder := w |>) s1) in
  sys_inv (unlock_return t to (if same_chain l to then s2 else spin_unlock l s2)).
Proof.
  intros Hp HQ Hq [T1 T2 T3 (T4 & T5 & T6 & T7)] s2. rewrite unlock_return_eq. set (s' := goto _ _ _).
  destruct (hand_facts to Hp) as (Etk & Hnh & Hnc & Ere & Hcn & Hoff). destruct (hand_chains to Hp) as [Hc1 Hc2].
  assert (waiting s w l) as [Hw1 Hw2] by (apply (lk_waiting _ _ _ _ _ Hl); rewrite HQ; left).
  assert (w ≠ t) as Hwt by (intros ->; congruence). assert (w ≠ 0) as Hw0 by (intros ->; destruct (si_threads _ Hs) as [_ E]; unfold pc_of in Hw1; by rewrite E in Hw1).
  assert (get_lock l s' = (get_lock l s) <| waiters := head Q' |> <| holder := w |>) as EL by (rewrite <- T1; unfold s'; destruct (same_chain l to); apply (get_set_lock l _ s1)).
  assert (∀ l', l' ≠ l → get_lock l' s' = get_lock l' s) as Eo by (intros l' Hne; rewrite <- (T2 l' Hne); unfold s'; destruct (same_chain l to); by apply (get_set_other l l' _ s1)).
  assert (chains s' = if same_chain l to then chains s else delete (VMC_HASH l) (chains s)) as Ec by (rewrite <- T4; unfold s'; by destruct (same_chain l to)).
  assert (nodes s' = nodes s1) as En by (unfold s'; by destruct (same_chain l to)). assert (unblocked s' = <[w := Ok]> (unblocked s)) as Eu by (rewrite <- T5; unfold s'; by destruct (same_chain l to)).
  assert (threads s' = <[t := after_unlock to]> (threads s)) as Et by (rewrite <- T6; unfold s'; by destruct (same_chain l to)).
  pose proof (pc_self s s' t _ Et) as Hse. assert (∀ x, x ≠ t → pc_of s' x = pc_of s x) as Ho by (intros x Hx; by apply (pc_other s s' t (after_unlock to))).
  assert (∀ l', ¬ has_token (after_unlock to) l' ∧ ¬ claims (after_unlock to) l' ∧ ¬ must_hold (after_unlock to) l' ∧ after_unlock to ≠ LBlocked l') as Ha by (intros l'; destruct to; split_and!; (done || by intros [])).
  assert (∀ x, holds s' x l ↔ x = w) as Hho by (intros x; unfold holds; rewrite EL; cbn; split; [by intros [<- _]|by intros ->]).
  assert (∀ x l', pc_of s' x = LBlocked l' ↔ pc_of s x = LBlocked l') as Hbl.
  { intros x l'. destruct (decide (x = t)) as [->|Hx]; [|by rewrite Ho]. rewrite Hse, Hp. split; [|done]. by intros E; destruct (Ha l') as (_ & _ & _ & ?). }
  pose proof (lk_nodup _ _ _ _ _ Hl) as Hnd. rewrite HQ in Hnd. apply NoDup_cons in Hnd as [Hwq Hnd].
  assert (∀ x, waiting s' x l ↔ x ∈ Q') as Hwait.
  { intros x. unfold waiting. rewrite Hbl, Eu. destruct (decide (x = w)) as [->|Hx]; [rewrite lookup_insert_eq; split; [by intros [_ ?]|done]|]. rewrite lookup_insert_ne by done.
    rewrite <- (lk_waiting _ _ _ _ _ Hl x : _ ↔ pc_of s x = LBlocked l ∧ unblocked s !! x = None). rewrite HQ, elem_of_cons. naive_solver. }
  apply (step_inv s s' t l (after_unlock to) Hs) with (tk := Some w) (C := C) (Q := Q'); try done.
  - by apply (in_dom _ Hp).
  - intros x l' Hne Hx. rewrite En, Eu. assert (x ∉ Q) as Hxq by (intros [? _]%(lk_waiting _ _ _ _ _ Hl); congruence). split; [by apply T3|]. rewrite lookup_insert_ne; [done|]. intros ->. congruence.
  - intros l' Hne. rewrite Hp. cbn. destruct (Ha l') as (? & ? & _ & ?). split_and!; (split; [tauto || done|]); [by intros <-|by intros []|done].
  - split.
    + intros x. unfold token. rewrite Hho. destruct (decide (x = t)) as [->|Hx]; [rewrite Hse; destruct (Ha l) as (? & _); naive_solver|]. rewrite Ho by done.
      split; [|intros [= ->]; by right]. intros [Hx'| ->]; [|done]. assert (tk = Some x) by (apply (lk_token _ _ _ _ _ Hl); by left). congruence.
    + rewrite EL. cbn. congruence.
    + rewrite EL. cbn. split; [done|]. by intros [? _].
    + intros x. rewrite (lk_claims _ _ _ _ _ Hl x). unfold claim. rewrite Hho. destruct (decide (x = t)) as [->|Hx].
      * rewrite Hse. destruct (Ha l) as (_ & ? & _). split; [by intros ?|]. by intros [?| ->].
      * rewrite Ho by done. split; [|intros [?| ->]; [by left|left; by rewrite Hw1]]. intros [?|Hx']; [by left|]. by apply Hnh in Hx'.
    + rewrite EL. cbn. apply Hl.
    + rewrite EL, En. done.
    + done.
    + intros x. by rewrite Hwait.
  - intros x Hx ->%Hho. by right.
  - intros x Hx Hx'. by apply Hnh in Hx'.
  - intros l' [[H ?]|[_ ->]]%Hoff; [unfold holds; by rewrite Eo|]. rewrite Hho. congruence.
  - intros l' H. by destruct (Ha l') as (_ & _ & ? & _).
  - by rewrite Ec.
  - by rewrite Ec.
  - intros x st. rewrite Eu. destruct (decide (x = w)) as [->|Hx]; [rewrite lookup_insert_eq; intros [= <-]; split; [done|]; exists l; by rewrite Hbl, Hho|]. rewrite lookup_insert_ne by done.
    intros (E & l' & H1 & H2)%(si_woken _ Hs). split; [done|]. exists l'. rewrite Hbl. split; [done|]. destruct (decide (l' = l)) as [->|Hne]; [by apply Hnh in H2|]. unfold holds. by rewrite Eo.
  - intros x Hx%Hwait. rewrite Hho. by intros ->.
Qed.

(** The thread is put into the queue. *)
Lemma queue_thread s1 : pc_of s t = LCheck l → released (get_lock l s) = false → queue (nodes s1) (head (Q ++ [t])) (Q ++ [t]) →
  touched l (fun L => L <| waiters := head (Q ++ [t]) |>) (Q ++ [t]) s s1 → sys_inv (goto t (LBlocked l) (spin_unlock l (s1 <| unblocked ::= delete t |>))).
Proof.
  intros Hp Hre Hq [T1 T2 T3 (T4 & T5 & T6 & T7)]. set (s' := goto _ _ _). assert (unblocked s !! t = None) as Hun.
  { destruct (unblocked s !! t) as [st|] eqn:E; [|done]. apply (si_woken _ Hs) in E as (_ & l' & E & _). congruence. }
  assert (unblocked s' = unblocked s) as Eu by (unfold s'; cbn; rewrite T5; by apply delete_id).
  assert (get_lock l s' = (get_lock l s) <| waiters := head (Q ++ [t]) |>) as EL by exact T1. assert (∀ l', l' ≠ l → get_lock l' s' = get_lock l' s) as Eo by exact T2.
  assert (∀ x l', holds s' x l' ↔ holds s x l') as Hho by (intros x l'; unfold holds; destruct (decide (l' = l)) as [->|]; [by rewrite EL|by rewrite Eo]).
  assert (threads s' = <[t := LBlocked l]> (threads s)) as Et by (unfold s'; cbn; by rewrite T6).
  pose proof (pc_self s s' t _ Et) as Hse. assert (∀ x, x ≠ t → pc_of s' x = pc_of s x) as Ho by (intros x Hx; by apply (pc_other s s' t (LBlocked l))).
  assert (chains s' = delete (VMC_HASH l) (chains s)) as Ec by (unfold s'; cbn; by rewrite T4). destruct (chains_unlock s t l (LBlocked l) Hs) as [Hc1 Hc2]; [rewrite Hp; cbn; tauto|by intros []|].
  assert (t ∉ Q) as Htq by (intros [? _]%(lk_waiting _ _ _ _ _ Hl); congruence). assert (¬ holds s t l) as Hnh by (apply (si_off _ Hs); by rewrite Hp).
  apply (step_inv s s' t l (LBlocked l) Hs) with (tk := tk) (C := C) (Q := Q ++ [t]); try done.
  - by apply (in_dom _ Hp).
  - intros x l' Hne Hx. rewrite Eu. split; [|done]. apply T3. rewrite elem_of_app, list_elem_of_singleton. intros [[? _]%(lk_waiting _ _ _ _ _ Hl)| ->]; congruence.
  - intros l' Hne. rewrite Hp. cbn. split_and!; [done|split; [done|done]|split; congruence].
  - split; try (rewrite EL; cbn; by apply Hl).
    + intros x. rewrite <- (lk_token _ _ _ _ _ Hl x). unfold token. rewrite Hho. destruct (decide (x = t)) as [->|Hx]; [by rewrite Hse, Hp|by rewrite Ho].
    + rewrite EL. cbn. congruence.
    + intros x. rewrite (lk_claims _ _ _ _ _ Hl x). unfold claim. rewrite Hho. destruct (decide (x = t)) as [->|Hx]; [by rewrite Hse, Hp|by rewrite Ho].
    + rewrite EL. done.
    + apply NoDup_app. split_and!; [apply Hl|intros x Hx ->%list_elem_of_singleton; done|apply NoDup_singleton].
    + intros x. rewrite elem_of_app, list_elem_of_singleton, (lk_waiting _ _ _ _ _ Hl x). unfold waiting. rewrite Eu. destruct (decide (x = t)) as [->|Hx]; [rewrite Hse; naive_solver|rewrite Ho by done; naive_solver].
  - intros x Hx H. left. by apply Hho.
  - intros x Hx. apply Hho.
  - by rewrite Ec.
  - by rewrite Ec.
  - rewrite Eu. intros x st (E & l' & H1 & H2)%(si_woken _ Hs). split; [done|]. exists l'. rewrite Hho. assert (x ≠ t) by (intros ->; congruence). by rewrite Ho.
  - intros x [H1 H2]. rewrite Hho. destruct (decide (x = t)) as [->|Hx]; [done|]. rewrite Ho in H1 by done. rewrite Eu in H2. by apply (si_wait _ Hs).
Qed.

(** A thread that was given the lock goes on. *)
Lemma wake_up st : pc_of s t = LBlocked l → unblocked s !! t = Some st → sys_inv (goto t Idle (s <| unblocked ::= delete t |>)).
Proof.
  intros Hp Hun. apply (si_woken _ Hs) in Hun as Hw. destruct Hw as (-> & l' & E & Hh). rewrite Hp in E. injection E as <-. set (s' := goto _ _ _).
  assert (threads s' = <[t := Idle]> (threads s)) as Et by done. pose proof (pc_self s s' t _ Et) as Hse. assert (∀ x, x ≠ t → pc_of s' x = pc_of s x) as Ho by (intros x Hx; by apply (pc_other s s' t Idle)).
  assert (∀ x, x ≠ t → unblocked s' !! x = unblocked s !! x) as Eu by (intros; unfold s'; cbn; by rewrite lookup_delete_ne).
  assert (∀ x, x ≠ t → ∀ l', waiting s' x l' ↔ waiting s x l') as Hwt by (intros x Hx l'; unfold waiting; by rewrite Eu, Ho).
  assert (∀ l', ¬ waiting s' t l') as Hwn by (intros l'; unfold waiting; rewrite Hse; by intros [? _]).
  apply (step_inv s s' t l Idle Hs) with (tk := tk) (C := C) (Q := Q); try done.
  - by apply (in_dom _ Hp).
  - intros x l' Hne Hx. split; [done|]. apply Eu. intros ->. congruence.
  - intros l' Hne. rewrite Hp. cbn. split_and!; (split; [done|]); [done|by intros ->|congruence].
  - split; try apply Hl.
    + intros x. rewrite <- (lk_token _ _ _ _ _ Hl x). unfold token. change (holds s' x l) with (holds s x l). destruct (decide (x = t)) as [->|Hx]; [by rewrite Hse, Hp|by rewrite Ho].
    + intros x. rewrite (lk_claims _ _ _ _ _ Hl x). unfold claim. change (holds s' x l) with (holds s x l). destruct (decide (x = t)) as [->|Hx]; [rewrite Hse, Hp; split; [by right|by intros [[]|?]; right]|by rewrite Ho].
    + intros x. rewrite (lk_waiting _ _ _ _ _ Hl x). destruct (decide (x = t)) as [->|Hx]; [|by rewrite Hwt]. split; [intros [_ ?]; congruence|intros []%Hwn].
  - intros x _ ?. by left.
  - apply (chains_same s t _ Hs). by rewrite Hp.
  - intros x st. destruct (decide (x = t)) as [->|Hx]; [unfold s'; cbn; by rewrite lookup_delete_eq|]. rewrite Eu, Ho by done. apply (si_woken _ Hs).
  - intros x H. destruct (decide (x = t)) as [->|Hx]; [by apply Hwn in H|]. apply (si_wait _ Hs). by apply Hwt.
Qed.
End steps.
#[local] Set Default Proof Using "Type".

(** ** Every step keeps the invariant *)

Lemma start_inv t c s : sys_inv s → threads s !! t = Some Idle → may_call t c s = true → sys_inv (start t c s).
Proof.
  intros Hs Ht Hc. assert (pc_of s t = Idle) as Hp by (unfold pc_of; by rewrite Ht). assert (t ≠ 0) as Ht0 by (intros ->; destruct (si_threads _ Hs) as [_ ?]; congruence).
  assert (Hn : ∀ l, negb (holder (get_lock l s) =? t) = true → ¬ holds s t l) by (intros l H%negb_true_iff%Z.eqb_neq [? _]; done).
  assert (Hm : ∀ l, (holder (get_lock l s) =? t) = true → holds s t l) by (by intros l H%Z.eqb_eq).
  assert (Hmove : ∀ p', (∀ l, ¬ has_token p' l ∧ ¬ claims p' l ∧ p' ≠ LBlocked l) → (∀ l, not_holder p' l → ¬ holds s t l) → (∀ l, must_hold p' l → holds s t l) → (∀ c, ¬ spins p' c) → sys_inv (goto t p' s)).
  { intros p' H1 H2 H3 H4. apply (move_inv s _ t p' Hs); try done.
    - rewrite Hp. intros l. destruct (H1 l) as (? & ? & _). cbn. tauto.
    - rewrite Hp. intros l. split; [apply H1|done].
    - intros c'. cbn. rewrite <- (si_spin _ Hs t c'), Hp. cbn. specialize (H4 c'). tauto. }
  destruct c as [l|l|l|l from|l rw]; cbn [start may_call] in *.
  - apply Hmove; try done; [intros l'; split_and!; (done || by intros [])|intros l' <-; by apply Hn|by intros c' []].
  - apply Hmove; try done; [intros l'; split_and!; (done || by intros [])|intros l' <-; by apply Hm|by intros c' []].
  - destruct (Z.eqb_spec (count (get_lock l s)) 0) as [E|E]; [|done]. destruct (si_lock _ Hs l) as (tk & C & Q & Hl).
    apply (sub_won s t l Hs tk C Q Hl Ht0 Idle false); [done|by right|done|by rewrite Ht|done].
  - apply andb_prop in Hc as [Hc1 Hc2]. apply Hmove; [intros l'; split_and!; (done || by intros [])|intros l' <-; by apply Hn|intros l' <-; by apply Hm|by intros c' []].
  - apply Hmove; try done; [intros l'; split_and!; (done || by intros [])|intros l' <-; by apply Hn|by intros c' []].
Qed.

Lemma links_unique N Q Q' : links N Q → links N Q' → head Q = head Q' → Q = Q'.
Proof.
  revert Q'. induction Q as [|x Q IH]; intros [|x' Q']; [done..|]. intros [(W & HW & E) H] [(W' & HW' & E') H'] [= <-]. f_equal. apply IH; [done|done|]. congruence.
Qed.

Lemma check_step t l s : sys_inv s → t ≠ 0 → pc_of s t = LCheck l → ∃ s', lock_check t l s = Ret s' ∧ sys_inv s' ∧ (pc_of s' t = Idle → holds s' t l).
Proof.
  intros Hs Ht0 Hp. destruct (si_lock _ Hs l) as (tk & C & Q & Hl). unfold lock_check. destruct (released (get_lock l s)) eqn:E.
  - eexists. split; [reflexivity|]. split; [by apply (take_released s t l Hs tk C Q)|]. intros _. split; [|done]. by rewrite (get_set_lock l _ s : get_lock l (lock_return t l true _) = _).
  - destruct (enqueue_ok t l s Q) as (s1 & E1 & Hq & Htc); [apply Hl|apply NoDup_app; split_and!; [apply Hl| |apply NoDup_singleton]; intros x Hx ->%list_elem_of_singleton; apply (lk_waiting _ _ _ _ _ Hl) in Hx as [? _]; congruence|].
    rewrite E1. cbn [mbind outcome_bind]. eexists. split; [reflexivity|]. split; [by apply (queue_thread s t l Hs tk C Q)|]. unfold pc_of. cbn. by rewrite lookup_insert_eq.
Qed.

Lemma hand_step t l to s : sys_inv s → t ≠ 0 → pc_of s t = UHand l to → ∃ s', hand_over t l to s = Ret s' ∧ sys_inv s' ∧
  ∀ w Q, queue (nodes s) (waiters (get_lock l s)) (w :: Q) → holds s' w l ∧ unblocked s' !! w = Some Ok ∧ queue (nodes s') (waiters (get_lock l s')) Q.
Proof.
  intros Hs Ht0 Hp. destruct (si_lock _ Hs l) as (tk & C & Q & Hl). pose proof (lk_queue _ _ _ _ _ Hl) as (Eh & Hlk & Hla). unfold hand_over. destruct Q as [|w Q].
  - cbn in Eh. rewrite Eh. cbn [mbind outcome_bind]. eexists. split; [reflexivity|]. split; [by apply (hand_release s t l Hs tk C [] Hl Ht0)|]. by intros w Q' (Eh' & _).
  - cbn in Eh. rewrite Eh. destruct (dequeue_ok w l s Q) as (s1 & E1 & Hq1 & Htc); [by split_and!|apply Hl|]. rewrite E1. cbn [mbind outcome_bind]. eexists. split; [reflexivity|].
    split; [by apply (hand_waiter s t l Hs tk C (w :: Q) Hl Ht0 to w Q)|]. intros w' Q' Hq'. assert (waiting s w l) as [Hw _] by (apply (lk_waiting _ _ _ _ _ Hl); left).
    assert (w ≠ 0) as Hw0 by (intros ->; destruct (si_threads _ Hs) as [_ E]; unfold pc_of in Hw; by rewrite E in Hw). assert (w' = w) as -> by (destruct Hq' as (E & _); by injection E).
    assert (Q' = Q) as -> by (apply (links_unique (nodes s)); [by destruct Hq' as (_ & [_ ?] & _)|by destruct Hlk|]; destruct Hq' as (_ & [(W & HW & <-) _] & _), Hlk as [(W' & HW' & <-) _]; congruence).
    assert (get_lock l (unlock_return t to (if same_chain l to then thread_unblock w Ok (set_lock l (fun L => L <| holder := w |>) s1) else spin_unlock l (thread_unblock w Ok (set_lock l (fun L => L <| holder := w |>) s1)))) =
      (get_lock l s1) <| holder := w |>) as EL by (rewrite unlock_return_eq; destruct (same_chain l to); apply (get_set_lock l _ s1)).
    unfold holds. rewrite EL, (to_lock _ _ _ _ _ Htc). rewrite unlock_return_eq. split_and!; [done|done| |].
    + destruct (same_chain l to); cbn; by rewrite lookup_insert_eq.
    + by destruct (same_chain l to).
Qed.

(** No step fails a check; a lock function returns with the lock. *)
Lemma thread_step_ok t s o : sys_inv s → thread_step t s = Some o →
  ∃ s', o = Ret s' ∧ sys_inv s' ∧ ∀ l, claims (pc_of s t) l → pc_of s' t = Idle → must_hold (pc_of s t) l ∨ holds s' t l ∨ ∃ to, pc_of s t = UAdd l to.
Proof.
  intros Hs Hst. unfold thread_step in Hst. destruct (threads s !! t) as [p|] eqn:Et; [|done]. assert (pc_of s t = p) as Hp by (unfold pc_of; by rewrite Et).
  assert (t ≠ 0) as Ht0 by (intros ->; destruct (si_threads _ Hs) as [_ ?]; congruence). assert (is_Some (threads s !! t)) as Hd by (by rewrite Et).
  assert (Hoff : ∀ l, not_holder p l → negb (holder (get_lock l s) =? t) = true).
  { intros l H. apply negb_true_iff, Z.eqb_neq. intros E. rewrite <- Hp in H. apply (si_off _ Hs t l H). by split. }
  assert (Hgo : ∀ p' s0, pc_of (goto t p' s0) t = p') by (intros; unfold pc_of; cbn; by rewrite lookup_insert_eq). rewrite Hp.
  destruct p as [|l held|l held|l|l|l|l from|l rw|l rw|l to|l to|l to|l to]; try done.
  - destruct (si_lock _ Hs l) as (tk & C & Q & Hl). assert ((if held then assert (negb (holder (get_lock l s) =? t)) else Ret tt) = Ret tt) as E by (destruct held; [by rewrite (Hoff l eq_refl)|done]).
    rewrite E in Hst. cbn [mbind outcome_bind] in Hst. rewrite get_set_lock in Hst. cbn [holder] in Hst. destruct (Z.ltb_spec (count (get_lock l s)) 0) as [Hc|Hc].
    + change (holder (_ <| count := _ |>)) with (holder (get_lock l s)) in Hst. rewrite (Hoff l eq_refl) in Hst. injection Hst as <-. eexists. split; [reflexivity|]. split; [by apply (sub_contended s t l Hs tk C Q)|done].
    + injection Hst as <-. eexists. split; [reflexivity|]. split; [|done]. pose proof (count_le s l Hs tk C Q Hl). assert (count (get_lock l s) = 0) as E0 by lia.
      apply (sub_won s t l Hs tk C Q Hl Ht0 (LSub l held) held); [done|by left|done|done|by rewrite E0].
  - injection Hst as <-. destruct (si_lock _ Hs l) as (tk & C & Q & Hl). eexists. split; [reflexivity|]. split; [by apply (set_holder s t l Hs tk C Q)|]. intros l' <- _. right. left. split; [|done].
    unfold lock_return. destruct held; [rewrite (get_set_lock l _ s : get_lock l (goto t Idle (spin_unlock l _)) = _)|rewrite (get_set_lock l _ s : get_lock l (goto t Idle _) = _)]; done.
  - destruct (spin_free l s) eqn:Ef; [|done]. injection Hst as <-. eexists. split; [reflexivity|]. split; [|by rewrite Hgo].
    apply spin_inv; rewrite ?Hp; try done. intros c. cbn. tauto.
  - injection Hst as <-. destruct (check_step t l s Hs Ht0 Hp) as (s' & -> & Hs' & Hh). eexists. split; [reflexivity|]. split; [done|]. intros l' <- Hi. right. left. by apply Hh.
  - destruct (unblocked s !! t) as [st|] eqn:Eu; [|done]. injection Hst as <-. destruct (si_lock _ Hs l) as (tk & C & Q & Hl).
    destruct (si_woken _ Hs t st Eu) as (-> & l' & E & [Hh _]). rewrite Hp in E. injection E as <-. rewrite bool_decide_eq_true_2 by done. rewrite (proj2 (Z.eqb_eq _ _) Hh). cbn [assert mbind outcome_bind].
    eexists. split; [reflexivity|]. split; [by apply (wake_up s t l Hs tk C Q Hl Ht0 Ok)|]. intros l' <- _. right. left. by split.
  - destruct (spin_free l s) eqn:Ef; [|done]. injection Hst as <-. eexists. split; [reflexivity|]. split; [|done].
    apply spin_inv; rewrite ?Hp; try done; [intros l'; cbn; naive_solver|intros c; cbn; tauto].
  - destruct (spin_free l s) eqn:Ef; [|done]. injection Hst as <-. eexists. split; [reflexivity|]. split; [|done].
    apply spin_inv; rewrite ?Hp; try done. intros c. cbn. tauto.
  - injection Hst as <-. eexists. split; [reflexivity|]. split; [|done]. apply (move_inv s _ t (LSub l true)); rewrite ?Hp; try done.
    + intros l' <-. apply (si_off _ Hs). by rewrite Hp.
    + apply (chains_same s t _ Hs). by rewrite Hp.
  - destruct (si_lock _ Hs l) as (tk & C & Q & Hl). assert (holds s t l) as [Hh _] by (apply (si_must _ Hs); by rewrite Hp). rewrite (proj2 (Z.eqb_eq _ _) Hh) in Hst. injection Hst as <-.
    eexists. split; [reflexivity|]. split; [by apply (clear_holder s t l Hs tk C Q)|done].
  - destruct (si_lock _ Hs l) as (tk & C & Q & Hl). assert (Hr : ∀ p', (count (get_lock l s) < -1 → p' = if same_chain l to then UHand l to else USpin l to) → (-1 <= count (get_lock l s) → p' = after_unlock to) →
      sys_inv (goto t p' (set_lock l (fun L => L <| count := i32 (count (get_lock l s) + 1) |>) s))) by (intros p'; by apply (add_count s t l Hs tk C Q)).
    rewrite unlock_return_eq in Hst. destruct (Z.ltb_spec (count (get_lock l s)) (-1)) as [Hc|Hc]; injection Hst as <-; (eexists; split; [reflexivity|]; split; [apply Hr; [done|lia] || (apply Hr; [lia|done])|]); intros l' E _; cbn in E; subst l'; right; right; by exists to.
  - destruct (spin_free l s) eqn:Ef; [|done]. injection Hst as <-. eexists. split; [reflexivity|]. split; [|done].
    apply spin_inv; rewrite ?Hp; try done.
  - injection Hst as <-. destruct (hand_step t l to s Hs Ht0 Hp) as (s' & -> & Hs' & _). eexists. split; [reflexivity|]. by split.
Qed.

(** The system starts with free locks. *)
Record sys_init s : Prop := {
  in_locks l : get_lock l s = new_lock;
  in_chains : chains s = ∅;
  in_unblocked : unblocked s = ∅;
  in_threads t p : threads s !! t = Some p → p = Idle;
  in_size : Z.of_nat (size (threads s)) < 2 ^ 31;
  in_zero : threads s !! 0 = None
}.

Definition reachable s : Prop := ∃ s0, sys_init s0 ∧ rtc sys_step s0 s.

Lemma init_inv s : sys_init s → sys_inv s.
Proof.
  intros [H1 H2 H3 H4 H5 H6]. assert (∀ t, pc_of s t = Idle) as Hp by (intros t; unfold pc_of; destruct (threads s !! t) eqn:E; [by apply H4 in E|done]).
  assert (∀ t l, ¬ holds s t l) as Hh by (intros t l [E ?]; rewrite H1 in E; by symmetry in E). split; try done.
  - intros l. exists None, ∅, []. split; rewrite ?H1; try done.
    + intros t. unfold token. rewrite Hp. split; [|done]. by intros [[]|?%Hh].
    + intros t. unfold claim. rewrite Hp. split; [done|]. by intros [[]|?%Hh].
    + constructor.
    + intros t. unfold waiting. rewrite Hp. split; [by intros ?%elem_of_nil|by intros [? _]].
  - intros t l H. by apply Hh in H.
  - intros t l. by rewrite Hp.
  - intros t c. rewrite Hp, H2. done.
  - intros t st. by rewrite H3.
Qed.

Lemma lock_reachable_inv s : reachable s → sys_inv s.
Proof.
  intros (s0 & Hi & Hr). apply init_inv in Hi. induction Hr as [|s0 s1 s2 Hst _ IH]; [done|]. apply IH. destruct Hst as [t c H1 H2|t s' H]; [by apply start_inv|].
  destruct (thread_step_ok t s0 _ Hi H) as (s'' & [= <-] & Hs & _). done.
Qed.

(** ** Theorems *)

(** The thread has the lock, or has just won it. *)
Definition acquired s t l : Prop := holds s t l ∨ ∃ held, pc_of s t = LSet l held.

Definition locking (p : pc) l : Prop := match p with LSet l' _ | LCheck l' | LBlocked l' => l' = l | _ => False end.

(** C4: In every state that threads calling Lock, Unlock, TryLock,
    SwitchFromLock and SwitchFromReadLock on any locks reach, in any
    interleaving of their atomic accesses and critical sections: at most one
    thread has a lock, no check of the code fails (in particular a thread
    that was woken up is the holder), and a lock function returns with the
    lock held. *)
Theorem cache_lock_exclusive (s : sys) (Hr : reachable s) :
  (∀ t1 t2 l, acquired s t1 l → acquired s t2 l → t1 = t2) ∧ (∀ t, thread_step t s ≠ Some Panic) ∧
  ∀ t l s', thread_step t s = Some (Ret s') → locking (pc_of s t) l → pc_of s' t = Idle → holder (get_lock l s') = t.
Proof.
  apply lock_reachable_inv in Hr as Hs. split_and!.
  - intros t1 t2 l H1 H2. destruct (si_lock _ Hs l) as (tk & C & Q & Hl). assert (∀ t, acquired s t l → tk = Some t) as Ha.
    { intros t H. apply (lk_token _ _ _ _ _ Hl). destruct H as [H|[held H]]; [by right|left; by rewrite H]. }
    apply Ha in H1, H2. congruence.
  - intros t H. by destruct (thread_step_ok t s _ Hs H) as (s' & ? & _).
  - intros t l s' H Hlk Hi. destruct (thread_step_ok t s _ Hs H) as (s'' & [= <-] & _ & Hc). destruct (Hc l) as [Hm|[[Hh _]|[to E]]]; [|done| |done|].
    + by destruct (pc_of s t).
    + by destruct (pc_of s t).
    + by rewrite E in Hlk.
Qed.

(** C5: In every reachable state of the cache locks: while a thread waits in
    the queue of a lock another thread has the lock or is handing it over; a
    lock that nobody has is free, or it is marked as released and a thread
    is on its way to take it; and handing over gives the lock to the thread
    that was queued first and leaves the rest of the linked queue in order. *)
Theorem cache_lock_served (s : sys) (l : Z) (Hr : reachable s) :
  (∀ t, waiting s t l → ∃ t', t' ≠ t ∧ token s t' l) ∧
  ((∀ t, ¬ token s t l) → count (get_lock l s) = 0 ∨ released (get_lock l s) = true ∧ ∃ t, pc_of s t = LSpin l ∨ pc_of s t = LCheck l) ∧
  ∀ t to w Q, pc_of s t = UHand l to → queue (nodes s) (waiters (get_lock l s)) (w :: Q) →
    ∃ s', thread_step t s = Some (Ret s') ∧ holds s' w l ∧ unblocked s' !! w = Some Ok ∧ queue (nodes s') (waiters (get_lock l s')) Q.
Proof.
  apply lock_reachable_inv in Hr as Hs. destruct (si_lock _ Hs l) as (tk & C & Q & Hl). assert (Hne : ∀ t, waiting s t l → ¬ token s t l).
  { intros t Hw [Ht|Hh]; [|by apply (si_wait _ Hs t l)]. destruct Hw as [E _]. by rewrite E in Ht. }
  assert (Hsome : ∀ t, claim s t l → (∀ t', ¬ token s t' l) → released (get_lock l s) = true).
  { intros t Ht Hn. destruct (released (get_lock l s)) eqn:E; [done|]. destruct tk as [t'|] eqn:Etk; [destruct (Hn t'); by apply (lk_token _ _ _ _ _ Hl)|].
    assert (count (get_lock l s) = 0) as E0 by (by apply (lk_free _ _ _ _ _ Hl)). rewrite (lk_count _ _ _ _ _ Hl) in E0. assert (size C = 0%nat) as Ec by lia.
    apply size_empty_iff in Ec. apply (lk_claims _ _ _ _ _ Hl) in Ht. set_solver. }
  split_and!.
  - intros t Hw. destruct tk as [t'|] eqn:Etk; [assert (token s t' l) by (by apply (lk_token _ _ _ _ _ Hl)); exists t'; split; [intros ->; by apply (Hne t)|done]|].
    assert (released (get_lock l s) = true) as Hre by (apply (Hsome t); [left; by rewrite (proj1 Hw)|intros t' ?%(lk_token _ _ _ _ _ Hl); done]).
    apply (lk_released _ _ _ _ _ Hl) in Hre as [_ HQ]. apply (lk_waiting _ _ _ _ _ Hl) in Hw. rewrite HQ in Hw. by apply elem_of_nil in Hw.
  - intros Hn. destruct (decide (C = ∅)) as [->|Hc]; [left; by rewrite (lk_count _ _ _ _ _ Hl)|right]. apply set_choose_L in Hc as [t Ht]. apply (lk_claims _ _ _ _ _ Hl) in Ht as Hc.
    split; [by apply (Hsome t)|]. exists t. assert (¬ token s t l) as Hnt by apply Hn. unfold token in Hnt. destruct Hc as [Hc|?]; [|tauto]. destruct (pc_of s t) as [| | | | |l'| | | | | | | ] eqn:E; cbn in *; try done; subst; try (by left); try (by right); try tauto.
    exfalso. destruct (unblocked s !! t) as [st|] eqn:Eu; [apply (si_woken _ Hs) in Eu as (_ & l' & E' & Hh); rewrite E in E'; injection E' as <-; tauto|].
    assert (released (get_lock l s) = true) as Hre by (apply (Hsome t); [left; by rewrite E|done]). apply (lk_released _ _ _ _ _ Hl) in Hre as [_ HQ]. assert (t ∈ Q) as Hq by (by apply (lk_waiting _ _ _ _ _ Hl)).
    rewrite HQ in Hq. by apply elem_of_nil in Hq.
  - intros t to w Q' Hp Hq. assert (t ≠ 0) as Ht0 by (intros ->; destruct (si_threads _ Hs) as [_ E]; unfold pc_of in Hp; by rewrite E in Hp).
    destruct (hand_step t l to s Hs Ht0 Hp) as (s' & E & _ & H). exists s'. split; [|by apply H]. unfold thread_step. unfold pc_of in Hp. destruct (threads s !! t) as [p|]; [|done]. cbn in Hp. subst p. by rewrite E.
Qed.

(** [Destroy] leaves a new lock. *)
Lemma destroy_ok l s Q : queue (nodes s) (waiters (get_lock l s)) Q → NoDup Q →
  ∃ s', Destroy l s = Ret s' ∧ get_lock l s' = new_lock ∧ ∀ t, unblocked s' !! t = if decide (t ∈ Q) then Some (Err EINVAL) else unblocked s !! t.
Proof.
  intros Hq Hnd. unfold Destroy. assert (∀ fuel s0, nodes s0 = nodes s → links (nodes s) Q → waiters (get_lock l s0) = head Q → (length Q <= fuel)%nat →
    ∃ s1, unblock_all fuel l s0 = Ret s1 ∧ waiters (get_lock l s1) = None ∧ ∀ t, unblocked s1 !! t = if decide (t ∈ Q) then Some (Err EINVAL) else unblocked s0 !! t) as Hall.
  { clear Hq. induction Q as [|w Q IH]; intros fuel s0 En Hlk Hw Hf.
    - exists s0. destruct fuel; cbn [unblock_all]; rewrite Hw; (split; [done|split; [done|]]); intros t; by rewrite decide_False by (by intros ?%elem_of_nil).
    - destruct fuel as [|fuel]; [cbn in Hf; lia|]. cbn [unblock_all]. rewrite Hw. cbn [head]. destruct Hlk as [(W & HW & EW) Hlk]. rewrite En, HW. cbn [deref mbind outcome_bind]. rewrite EW.
      apply NoDup_cons in Hnd as [Hw' Hnd]. destruct (IH Hnd fuel (thread_unblock w (Err EINVAL) (set_lock l (fun L => L <| waiters := head Q |>) s0))) as (s1 & E & H1 & H2); [done|done| |cbn in Hf; lia|].
      { by rewrite (get_set_lock l _ s0 : get_lock l (thread_unblock _ _ _) = _). }
      exists s1. split; [done|]. split; [done|]. intros t. rewrite H2. cbn. destruct (decide (t = w)) as [->|Ht].
      + rewrite (decide_True _ _ (list_elem_of_here _ _)), lookup_insert_eq. by destruct (decide (w ∈ Q)).
      + rewrite lookup_insert_ne by done. destruct (decide (t ∈ Q)); [rewrite decide_True by (by right)|rewrite decide_False by (by intros [?|?]%elem_of_cons)]; done. }
  destruct Hq as (Eh & Hlk & _). assert (length Q <= size (nodes s))%nat as Hlen.
  { rewrite <- size_dom. rewrite <- (size_list_to_set (C := gset Z) Q Hnd). apply subseteq_size. intros t Ht. apply elem_of_list_to_set in Ht. apply elem_of_dom. clear -Hlk Ht.
    induction Q as [|x Q IH]; [by apply elem_of_nil in Ht|]. destruct Hlk as [(W & HW & _) Hlk]. apply elem_of_cons in Ht as [->|Ht]; [eauto|by apply IH]. }
  destruct (Hall (size (nodes s)) s) as (s1 & -> & H1 & H2); [done..|]. cbn [mbind outcome_bind]. eexists. split; [reflexivity|]. rewrite get_set_lock. split; [|done].
  destruct (get_lock l s1) as [c w h r]. cbn in *. by subst w.
Qed.
End sys.

(** ** Examples *)

#[export] Instance demo_rw : RWLocks := {| rw_state := gmap Z Z; unlock_shared r m := alter Z.pred r m |}.

#[export] Instance pc_eq_dec : EqDecision pc.
Proof. solve_decision. Defined.

(** A run: each entry is a call or a step of a thread. *)
Fixpoint run (acts : list (Z * option call)) (s : sys) : option sys :=
  match acts with
  | [] => Some s
  | (t, Some c) :: acts =>
      if bool_decide (threads s !! t = Some Idle) && may_call t c s then run acts (start t c s) else None
  | (t, None) :: acts => match thread_step t s with Some (Ret s) => run acts s | _ => None end
  end.


Lemma run_rtc acts s s' : run acts s = Some s' → rtc sys_step s s'.
Proof.
  revert s. induction acts as [|[t [c|]] acts IH]; intros s; cbn [run].
  - intros [= <-]. apply rtc_refl.
  - destruct (bool_decide (threads s !! t = Some Idle)) eqn:E1; [|done]. destruct (may_call t c s) eqn:E2; [|done]. cbn [andb]. intros H%IH.
    eapply rtc_l; [|exact H]. constructor; [by apply bool_decide_eq_true in E1|done].
  - destruct (thread_step t s) as [[s1| |]|] eqn:E; [|done..]. intros H%IH. eapply rtc_l; [|exact H]. by apply (sys_run s t).
Qed.

(** Four threads. *)
Definition boot_sys : sys := mkSys ∅ ∅ ∅ ∅ ∅ {[ 1 := Idle; 2 := Idle; 3 := Idle; 4 := Idle ]}.

Lemma lock_boot_init : sys_init boot_sys.
Proof.
  split; try done. intros t p. assert (map_Forall (fun _ p => p = Idle) (threads boot_sys)) as H by (refine (proj1 (bool_decide_eq_true _) _); vm_compute; reflexivity). apply H.
Qed.

Lemma run_reachable acts s : run acts boot_sys = Some s → reachable s.
Proof. intros H. exists boot_sys. split; [apply lock_boot_init|by apply (run_rtc acts)]. Qed.

(** Threads 1 and 2 take the locks 1 and 2, threads 3 and 4 wait for them. *)
Definition contended : list (Z * option call) :=
  [(1, Some (Lock 1)); (1, None); (1, None); (2, Some (Lock 2)); (2, None); (2, None);
   (3, Some (Lock 1)); (3, None); (3, None); (3, None); (4, Some (Lock 2)); (4, None); (4, None); (4, None)].

Definition state_after (acts : list (Z * option call)) : sys := default boot_sys (run acts boot_sys).
Definition unlocking : sys := state_after (contended ++ [(1, Some (Unlock 1)); (1, None); (1, None); (1, None)]).

(** Both holders switch to the lock of the other: each has the chain the other
    one needs to hand its lock over. *)
Definition crossing : sys :=
  state_after (contended ++ [(1, Some (SwitchFromLock 2 1)); (2, Some (SwitchFromLock 1 2)); (1, None); (2, None); (1, None); (1, None); (2, None); (2, None)]).

Lemma switch_deadlock : reachable crossing ∧ pc_of crossing 1 = USpin 1 (Some 2) ∧ chains crossing !! VMC_HASH 1 = Some 2 ∧
  pc_of crossing 2 = USpin 2 (Some 1) ∧ chains crossing !! VMC_HASH 2 = Some 1 ∧ thread_step 1 crossing = None ∧ thread_step 2 crossing = None.
Proof.
  split; [|by vm_compute]. unfold crossing, state_after. match goal with |- context [run ?a ?b] => destruct (run a b) eqn:E end; [by apply run_reachable in E|]. revert E. by vm_compute.
Qed.

Lemma unlocking_reachable : reachable unlocking.
Proof.
  unfold unlocking, state_after. match goal with |- context [run ?a ?b] => destruct (run a b) eqn:E end; [by apply run_reachable in E|]. revert E. by vm_compute.
Qed.

Lemma cache_lock_exclusive_witness :
  acquired unlocking 2 2 ∧ (∀ t, acquired unlocking t 2 → t = 2) ∧ thread_step 1 unlocking ≠ Some Panic.
Proof.
  destruct (cache_lock_exclusive unlocking unlocking_reachable) as (H1 & H2 & _). assert (acquired unlocking 2 2) as H by (left; vm_compute; split; [reflexivity|discriminate]).
  split; [exact H|]. split; [|apply H2]. intros t Ht. by apply (H1 t 2 2).
Defined.

(** Thread 1 hands lock 1 over to thread 3. *)
Lemma cache_lock_served_witness : ∃ s', thread_step 1 unlocking = Some (Ret s') ∧ holds s' 3 1 ∧ unblocked s' !! 3 = Some Ok.
Proof.
  destruct (cache_lock_served unlocking 1 unlocking_reachable) as (_ & _ & H). destruct (H 1 None 3 []) as (s' & E & Hh & Hu & _).
  - vm_compute. reflexivity.
  - vm_compute. split_and!; [reflexivity|eexists; split; reflexivity|exact I|]. intros x [= <-]. eexists. split; reflexivity.
  - exists s'. split; [exact E|]. split; [exact Hh|exact Hu].
Defined.
