(* ===== verification/LowResource.v ===== *)
(** * The low resource manager (mm_resource.cpp)

    Four kinds of resources are graded by what is left of them.  Handlers are
    kept in a list by priority; [call_handlers] calls those that can help, with
    the lock dropped during each call: a marker in the list keeps its place.
    What other threads do while the lock is dropped is an argument ([window]):
    any sequence of registrations, removals and measurements. *)
From stdpp Require Import base gmap list sorting.
From Stdlib Require Import ZArith Lia.
From S2P Require Import Prelude VMState PageAlloc.
Local Open Scope Z_scope.

(** ** What is used of the list besides [DLList]: Swap *)
Class DLSwap (A : Type) `{DL : DLList A} := {
  dl_Swap : A → A → dl A → dl A;
  dl_Swap_next a b l l1 l2 : dl_elems l = l1 ++ a :: b :: l2 → NoDup (dl_elems l) →
    dl_elems (dl_Swap a b l) = l1 ++ b :: a :: l2
}.

Definition list_swap (a b : Z) (l : list Z) : list Z :=
  map (fun x => if decide (x = a) then b else if decide (x = b) then a else x) l.

Lemma list_swap_id a b l : a ∉ l → b ∉ l → list_swap a b l = l.
Proof.
  induction l as [|x l IH]; cbn; [done|]. intros Ha Hb.
  rewrite !decide_False by set_solver. f_equal. apply IH; set_solver.
Qed.

#[global, program] Instance list_DLSwap : DLSwap Z := {| dl_Swap := list_swap |}.
Next Obligation.
  cbn. intros a b l l1 l2 -> Hn. unfold list_swap. rewrite map_app. cbn.
  apply NoDup_app in Hn as (_ & Hd & Hn). apply NoDup_cons in Hn as [Ha Hn].
  apply NoDup_cons in Hn as [Hb _].
  fold (list_swap a b l1) (list_swap a b l2). rewrite !list_swap_id by set_solver.
  by rewrite (decide_True (P := a = a)), (decide_False (P := b = a)), decide_True by set_solver.
Qed.

Section low_resource.
Context {DL : DLList Z} {DS : DLSwap Z}.

(** ** mm_resource.h *)
Definition B_NO_LOW_RESOURCE : Z := 0.
Definition B_LOW_RESOURCE_NOTE : Z := 1.
Definition B_LOW_RESOURCE_WARNING : Z := 2.
Definition B_LOW_RESOURCE_CRITICAL : Z := 3.
Definition B_KERNEL_RESOURCE_PAGES : Z := 1.
Definition B_KERNEL_RESOURCE_MEMORY : Z := 2.
Definition B_KERNEL_RESOURCE_SEMAPHORES : Z := 4.
Definition B_KERNEL_RESOURCE_ADDRESS_SPACE : Z := 8.
Definition B_ALL_KERNEL_RESOURCES : Z := 15.

Definition kNotePagesLimit : Z := VM_PAGE_RESERVE_USER * 4.
Definition kWarnPagesLimit : Z := VM_PAGE_RESERVE_USER.
Definition kCriticalPagesLimit : Z := VM_PAGE_RESERVE_SYSTEM.
Definition kMinNoteMemoryLimit : Z := Z.shiftl VM_PAGE_RESERVE_USER PAGE_SHIFT * 4.
Definition kMinWarnMemoryLimit : Z := Z.shiftl VM_PAGE_RESERVE_USER PAGE_SHIFT.
Definition kMinCriticalMemoryLimit : Z := Z.shiftl VM_PAGE_RESERVE_SYSTEM PAGE_SHIFT.
Definition kMinNoteSpaceLimit : Z := 128 * 1024 * 1024.
Definition kMinWarnSpaceLimit : Z := 64 * 1024 * 1024.
Definition kMinCriticalSpaceLimit : Z := 32 * 1024 * 1024.

Definition ENOENT : Z := 2.
Definition ENOMEM : Z := 12.

Record low_resource_handler := mkHandler {
  h_function : Z; h_data : Z; h_resources : Z; h_priority : Z
}.
#[global] Instance eta_handler : Eta low_resource_handler := fun h =>
  mkHandler (h_function h) (h_data h) (h_resources h) (h_priority h).

(** A call of a handler, with the handler it was read from. *)
Record call := mkCall {
  c_handler : Z; c_priority : Z; c_function : Z; c_data : Z;
  c_resources : Z; c_level : Z
}.

(** The variables of the file, the allocated handlers, and the calls made. *)
Record lowstate := mkLow {
  blocks : gmap Z low_resource_handler;
  sLowResourceHandlers : dl Z;
  sLowPagesState : Z; sLowMemoryState : Z;
  sLowSemaphoresState : Z; sLowSpaceState : Z;
  sLowResources : Z;
  sNoteMemoryLimit : Z; sWarnMemoryLimit : Z; sCriticalMemoryLimit : Z;
  sLastMeasurement : Z;
  wait_sem : Z;
  waiters : gset Z;
  calls : list call
}.
#[global] Instance eta_lowstate : Eta lowstate := fun s =>
  mkLow (blocks s) (sLowResourceHandlers s) (sLowPagesState s) (sLowMemoryState s)
    (sLowSemaphoresState s) (sLowSpaceState s) (sLowResources s)
    (sNoteMemoryLimit s) (sWarnMemoryLimit s) (sCriticalMemoryLimit s)
    (sLastMeasurement s) (wait_sem s) (waiters s) (calls s).

(** What [compute_state] asks other parts of the kernel: system_time,
    vm_number_of_free_pages, vm_available_not_needed_memory, sem_max_sems,
    sem_used_sems, vm_kernel_address_space_left. *)
Record measurement := mkMeasure {
  m_time : Z; m_pages : Z; m_memory : Z; m_max_sems : Z; m_used_sems : Z; m_space : Z
}.

(** ** The state of the resources *)
Definition low_resource_state_no_update (resources : Z) (s : lowstate) : Z :=
  let state := B_NO_LOW_RESOURCE in
  let state := if Z.land resources B_KERNEL_RESOURCE_PAGES =? 0 then state
    else Z.max state (sLowPagesState s) in
  let state := if Z.land resources B_KERNEL_RESOURCE_MEMORY =? 0 then state
    else Z.max state (sLowMemoryState s) in
  let state := if Z.land resources B_KERNEL_RESOURCE_SEMAPHORES =? 0 then state
    else Z.max state (sLowSemaphoresState s) in
  if Z.land resources B_KERNEL_RESOURCE_ADDRESS_SPACE =? 0 then state
  else Z.max state (sLowSpaceState s).

(** The chain of comparisons of [compute_state]; the second component says
    whether the bit of the resource stays set. *)
Definition grade (free critical warn note : Z) : Z * bool :=
  if free <? critical then (B_LOW_RESOURCE_CRITICAL, true)
  else if free <? warn then (B_LOW_RESOURCE_WARNING, true)
  else if free <? note then (B_LOW_RESOURCE_NOTE, true)
  else (B_NO_LOW_RESOURCE, false).

Definition keep_bit (low : bool) (bit resources : Z) : Z :=
  if low then resources else Z.land resources (u32 (Z.lnot bit)).

Definition compute_state (m : measurement) (s : lowstate) : lowstate :=
  let s := s <| sLastMeasurement := m_time m |> in
  let s := s <| sLowResources := B_ALL_KERNEL_RESOURCES |> in
  let freePages := u32 (m_pages m) in
  let g := grade freePages kCriticalPagesLimit kWarnPagesLimit kNotePagesLimit in
  let s := s <| sLowPagesState := g.1 |> in
  let s := s <| sLowResources ::= keep_bit g.2 B_KERNEL_RESOURCE_PAGES |> in
  let freeMemory := m_memory m in
  let g := grade freeMemory (sCriticalMemoryLimit s) (sWarnMemoryLimit s) (sNoteMemoryLimit s) in
  let s := s <| sLowMemoryState := g.1 |> in
  let s := s <| sLowResources ::= keep_bit g.2 B_KERNEL_RESOURCE_MEMORY |> in
  let maxSems := u32 (m_max_sems m) in
  let freeSems := u32 (maxSems - m_used_sems m) in
  let g := grade freeSems (Z.shiftr maxSems 16) (Z.shiftr maxSems 8) (Z.shiftr maxSems 4) in
  let s := s <| sLowSemaphoresState := g.1 |> in
  let s := s <| sLowResources ::= keep_bit g.2 B_KERNEL_RESOURCE_SEMAPHORES |> in
  let freeSpace := m_space m in
  let g := grade freeSpace kMinCriticalSpaceLimit kMinWarnSpaceLimit kMinNoteSpaceLimit in
  let s := s <| sLowSpaceState := g.1 |> in
  s <| sLowResources ::= keep_bit g.2 B_KERNEL_RESOURCE_ADDRESS_SPACE |>.

Definition low_resource_manager_init (num_pages : Z) (s : lowstate) : lowstate :=
  let totalMemory := num_pages * PAGE_SIZE in
  let s := s <| sNoteMemoryLimit := Z.quot totalMemory 16 |> in
  if sNoteMemoryLimit s <? kMinNoteMemoryLimit then
    s <| sNoteMemoryLimit := kMinNoteMemoryLimit |>
      <| sWarnMemoryLimit := kMinWarnMemoryLimit |>
      <| sCriticalMemoryLimit := kMinCriticalMemoryLimit |>
  else
    s <| sWarnMemoryLimit := Z.quot totalMemory 64 |>
      <| sCriticalMemoryLimit := Z.quot totalMemory 256 |>.


(** ** The levels of the resources *)

(** What the levels mean: the number of limits that are not reached. *)
Definition shortage (free : Z) (limits : list Z) : Z :=
  Z.of_nat (length (filter (fun l => free < l) limits)).

(** Each kind of resource: its bit, what is left, its limits. *)
Definition supplies (m : measurement) (s : lowstate) : list (Z * Z * list Z) :=
  let maxSems := u32 (m_max_sems m) in
  [ (B_KERNEL_RESOURCE_PAGES, u32 (m_pages m),
      [kCriticalPagesLimit; kWarnPagesLimit; kNotePagesLimit]);
    (B_KERNEL_RESOURCE_MEMORY, m_memory m,
      [sCriticalMemoryLimit s; sWarnMemoryLimit s; sNoteMemoryLimit s]);
    (B_KERNEL_RESOURCE_SEMAPHORES, u32 (maxSems - m_used_sems m),
      [maxSems / 65536; maxSems / 256; maxSems / 16]);
    (B_KERNEL_RESOURCE_ADDRESS_SPACE, m_space m,
      [kMinCriticalSpaceLimit; kMinWarnSpaceLimit; kMinNoteSpaceLimit]) ].

(** The worst shortage among the resources asked for. *)
Definition worst (resources : Z) (sup : list (Z * Z * list Z)) : Z :=
  foldl Z.max 0 ((fun x => shortage x.1.2 x.2) <$> filter (fun x => Z.land resources x.1.1 ≠ 0) sup).

Definition limits_ok (s : lowstate) : Prop :=
  sCriticalMemoryLimit s <= sWarnMemoryLimit s <= sNoteMemoryLimit s.

Lemma init_limits n s : 0 <= n → limits_ok (low_resource_manager_init n s).
Proof.
  intros Hn. unfold low_resource_manager_init, limits_ok, PAGE_SIZE. cbn.
  rewrite !Z.quot_div_nonneg by lia.
  case_match; cbn -[Z.div]; [split; vm_compute; discriminate|]. Z.div_mod_to_equations. lia.
Qed.

Lemma grade_shortage free critical warn note : critical <= warn <= note →
  (grade free critical warn note).1 = shortage free [critical; warn; note].
Proof.
  intros H. unfold grade, shortage.
  destruct (Z.ltb_spec free critical), (Z.ltb_spec free warn), (Z.ltb_spec free note); try lia;
    do 3 first [rewrite filter_cons_False by lia | rewrite filter_cons_True by lia]; by rewrite filter_nil.
Qed.

Lemma grade_bit free critical warn note :
  (grade free critical warn note).2 = negb ((grade free critical warn note).1 =? 0).
Proof. unfold grade. by repeat case_match. Qed.

Definition graded (sup : list (Z * Z * list Z)) (s : lowstate) : Prop :=
  [sLowPagesState s; sLowMemoryState s; sLowSemaphoresState s; sLowSpaceState s]
    = (fun x => shortage x.1.2 x.2) <$> sup.

Lemma shiftr_limits x : 0 <= x →
  Z.shiftr x 16 <= Z.shiftr x 8 <= Z.shiftr x 4.
Proof. intros Hx. rewrite !Z.shiftr_div_pow2 by lia. change (2^16) with 65536. change (2^8) with 256. change (2^4) with 16. Z.div_mod_to_equations. lia. Qed.

Lemma compute_graded m s : limits_ok s → graded (supplies m s) (compute_state m s).
Proof.
  intros Hl. unfold graded, supplies, compute_state. cbn -[grade u32 Z.shiftr].
  assert (0 <= u32 (m_max_sems m)) by (apply wrap_fits; lia).
  rewrite !grade_shortage; [|done..| |done|done]; [|by apply shiftr_limits].
  by rewrite !Z.shiftr_div_pow2 by lia.
Qed.

Lemma compute_low m s :
  let s' := compute_state m s in
  (Z.land (sLowResources s') B_KERNEL_RESOURCE_PAGES ≠ 0 ↔ sLowPagesState s' ≠ 0) ∧
  (Z.land (sLowResources s') B_KERNEL_RESOURCE_MEMORY ≠ 0 ↔ sLowMemoryState s' ≠ 0) ∧
  (Z.land (sLowResources s') B_KERNEL_RESOURCE_SEMAPHORES ≠ 0 ↔ sLowSemaphoresState s' ≠ 0) ∧
  (Z.land (sLowResources s') B_KERNEL_RESOURCE_ADDRESS_SPACE ≠ 0 ↔ sLowSpaceState s' ≠ 0).
Proof.
  unfold compute_state. cbn -[grade keep_bit u32 Z.shiftr Z.land].
  rewrite !grade_bit. repeat (generalize (grade _ _ _ _).1; intros ?).
  repeat match goal with |- context [negb (?x =? 0)] => destruct (Z.eqb_spec x 0); cbn [negb] end;
    cbn; naive_solver.
Qed.

Lemma no_update_worst resources sup s : graded sup s → map (fun x => x.1.1) sup =
    [B_KERNEL_RESOURCE_PAGES; B_KERNEL_RESOURCE_MEMORY; B_KERNEL_RESOURCE_SEMAPHORES;
      B_KERNEL_RESOURCE_ADDRESS_SPACE] →
  low_resource_state_no_update resources s = worst resources sup.
Proof.
  unfold graded, low_resource_state_no_update, worst.
  destruct sup as [|[[b1 f1] l1] [|[[b2 f2] l2] [|[[b3 f3] l3] [|[[b4 f4] l4] [|]]]]];
    cbn -[filter]; try done.
  intros [= -> -> -> ->] [= -> -> -> ->]. unfold B_NO_LOW_RESOURCE.
  repeat match goal with |- context [Z.land resources ?x =? 0] =>
    destruct (Z.eqb_spec (Z.land resources x) 0) end;
  do 4 first [rewrite filter_cons_False by (intros Hd; by apply Hd)
    | rewrite filter_cons_True by done]; by rewrite filter_nil.
Qed.


Lemma land_bits r k : 0 <= k < 16 →
  (Z.land r k ≠ 0 ↔
    (Z.land k 1 ≠ 0 ∧ Z.land r 1 ≠ 0) ∨ (Z.land k 2 ≠ 0 ∧ Z.land r 2 ≠ 0) ∨
    (Z.land k 4 ≠ 0 ∧ Z.land r 4 ≠ 0) ∨ (Z.land k 8 ≠ 0 ∧ Z.land r 8 ≠ 0)).
Proof.
  intros Hk.
  assert (Hs : k = Z.lor (Z.land k 1) (Z.lor (Z.land k 2) (Z.lor (Z.land k 4) (Z.land k 8))) ∧
    ∀ b, b ∈ [1; 2; 4; 8] → Z.land k b = 0 ∨ Z.land k b = b).
  { assert (Hin : k ∈ seqZ 0 16) by (apply elem_of_seqZ; lia).
    revert k Hk Hin. cbn. intros k _ Hin.
    repeat (apply elem_of_cons in Hin as [-> |Hin];
      [split; [done|]; intros b Hb;
       repeat (apply elem_of_cons in Hb as [-> |Hb]; [by (left + right)|]);
       by apply elem_of_nil in Hb|]).
    by apply elem_of_nil in Hin. }
  destruct Hs as [Hs Hb]. rewrite Hs at 1. rewrite !Z.land_lor_distr_r, !Z.lor_eq_0_iff.
  assert (Hp : ∀ b, b ∈ [1; 2; 4; 8] →
    Z.land r (Z.land k b) = 0 ↔ Z.land k b = 0 ∨ Z.land r b = 0).
  { intros b Hin. destruct (Hb b Hin) as [-> | ->]; [rewrite Z.land_0_r; tauto|].
    split; [tauto|]. intros [-> |?]; [apply Z.land_0_r|done]. }
  rewrite !Hp by set_solver.
  destruct (Z.eq_dec (Z.land k 1) 0), (Z.eq_dec (Z.land k 2) 0), (Z.eq_dec (Z.land k 4) 0),
    (Z.eq_dec (Z.land k 8) 0), (Z.eq_dec (Z.land r 1) 0), (Z.eq_dec (Z.land r 2) 0),
    (Z.eq_dec (Z.land r 4) 0), (Z.eq_dec (Z.land r 8) 0); tauto.
Qed.

Lemma compute_low_range m s : 0 <= sLowResources (compute_state m s) < 16.
Proof.
  unfold compute_state. cbn -[grade keep_bit u32 Z.shiftr Z.land].
  repeat match goal with |- context [keep_bit (?g.2)] => destruct (g.2) end;
    (split; [vm_compute; discriminate|vm_compute; reflexivity]).
Qed.

Lemma compute_levels m s : limits_ok s →
  let s' := compute_state m s in
  sLowPagesState s' =
    shortage (u32 (m_pages m)) [kCriticalPagesLimit; kWarnPagesLimit; kNotePagesLimit] ∧
  sLowMemoryState s' = shortage (m_memory m)
    [sCriticalMemoryLimit s; sWarnMemoryLimit s; sNoteMemoryLimit s] ∧
  sLowSemaphoresState s' = shortage (u32 (u32 (m_max_sems m) - m_used_sems m))
    [u32 (m_max_sems m) / 65536; u32 (m_max_sems m) / 256; u32 (m_max_sems m) / 16] ∧
  sLowSpaceState s' =
    shortage (m_space m) [kMinCriticalSpaceLimit; kMinWarnSpaceLimit; kMinNoteSpaceLimit].
Proof.
  intros Hl. pose proof (compute_graded m s Hl) as [= E1 E2 E3 E4].
  by split; [exact E1|split; [exact E2|split; [exact E3|exact E4]]].
Qed.

(** The bits of [sLowResources] are those of the resources that are short. *)
Lemma compute_low_bits m s bit free limits : limits_ok s → (bit, free, limits) ∈ supplies m s →
  Z.land (sLowResources (compute_state m s)) bit ≠ 0 ↔ 0 < shortage free limits.
Proof.
  intros Hl Hin. destruct (compute_levels m s Hl) as (E1 & E2 & E3 & E4).
  assert (0 <= shortage free limits) by (unfold shortage; lia).
  destruct (compute_low m s) as (B1 & B2 & B3 & B4).
  unfold supplies in Hin.
  repeat (apply elem_of_cons in Hin as [[= -> -> ->]|Hin];
    [first [rewrite B1, E1|rewrite B2, E2|rewrite B3, E3|rewrite B4, E4] ; lia|]).
  by apply elem_of_nil in Hin.
Qed.

Lemma shortage_bounds free l1 l2 l3 : 0 <= shortage free [l1; l2; l3] <= 3.
Proof.
  unfold shortage. pose proof (length_filter (fun l => free < l) [l1; l2; l3]) as H.
  change (length [l1; l2; l3]) with 3%nat in H. lia.
Qed.

(** What is wanted of the resources is short exactly if the state is not normal. *)
Lemma compute_low_state m s resources : limits_ok s →
  let s' := compute_state m s in
  let state := low_resource_state_no_update resources s' in
  0 <= state <= 3 ∧ (Z.land resources (sLowResources s') ≠ 0 ↔ 1 <= state).
Proof.
  cbv zeta. intros Hl. destruct (compute_levels m s Hl) as (E1 & E2 & E3 & E4).
  destruct (compute_low m s) as (B1 & B2 & B3 & B4).
  rewrite land_bits by apply compute_low_range.
  unfold B_KERNEL_RESOURCE_PAGES, B_KERNEL_RESOURCE_MEMORY, B_KERNEL_RESOURCE_SEMAPHORES,
    B_KERNEL_RESOURCE_ADDRESS_SPACE in *.
  rewrite B1, B2, B3, B4. unfold low_resource_state_no_update.
  rewrite E1, E2, E3, E4. clear E1 E2 E3 E4 B1 B2 B3 B4 Hl.
  unfold B_NO_LOW_RESOURCE, B_KERNEL_RESOURCE_PAGES, B_KERNEL_RESOURCE_MEMORY,
    B_KERNEL_RESOURCE_SEMAPHORES, B_KERNEL_RESOURCE_ADDRESS_SPACE.
  repeat match goal with |- context [shortage ?f [?a; ?b; ?c]] =>
    pose proof (shortage_bounds f a b c); generalize dependent (shortage f [a; b; c]); intros end.
  generalize (Z.land resources 1), (Z.land resources 2), (Z.land resources 4), (Z.land resources 8).
  intros r1 r2 r4 r8.
  destruct (Z.eqb_spec r1 0), (Z.eqb_spec r2 0), (Z.eqb_spec r4 0), (Z.eqb_spec r8 0); lia.
Qed.

Context {TU : TimeUnits}.

Definition kLowResourceInterval : Z := SECONDS 5.
Definition kWarnResourceInterval : Z := MILLISECS 1000.
Definition kCriticalResourceInterval : Z := MILLISECS 500.

(** [m] is what the measurement gives at the time of the call. *)
Definition low_resource_state (m : measurement) (resources : Z) (s : lowstate) : Z * lowstate :=
  let s := if MILLISECS 500 <? m_time m - sLastMeasurement s then compute_state m s else s in
  (low_resource_state_no_update resources s, s).

(** ** Handlers *)

(** The loop of [register_low_resource_handler] over the reverse iterator:
    [Some last] is the element the new handler is inserted before. *)
Fixpoint register_scan (bs : gmap Z low_resource_handler) (priority : Z) (rev : list Z)
    (last : option Z) : outcome (option (option Z)) :=
  match rev with
  | [] => Ret None
  | h :: rev =>
      H ← deref (bs !! h);
      if priority <=? h_priority H then Ret (Some last)
      else register_scan bs priority rev (Some h)
  end.

(** [malloc] maps the addresses in use to what malloc returns. *)
Definition register_low_resource_handler (malloc : gset Z → option Z)
    (function data resources priority : Z) (s : lowstate) : outcome (Z * lowstate) :=
  match malloc (dom (blocks s)) with
  | None => Ret (- ENOMEM, s)
  | Some a =>
      let s := s <| blocks ::= <[a := mkHandler function data resources priority]> |> in
      p ← register_scan (blocks s) priority (reverse (dl_elems (sLowResourceHandlers s))) None;
      match p with
      | Some last => Ret (0, s <| sLowResourceHandlers ::= dl_InsertBefore last a |>)
      | None => Ret (0, s <| sLowResourceHandlers ::= dl_Add a false |>)
      end
  end.

Fixpoint unregister_scan (bs : gmap Z low_resource_handler) (function data : Z) (els : list Z) :
    outcome (option Z) :=
  match els with
  | [] => Ret None
  | h :: els =>
      H ← deref (bs !! h);
      if (h_function H =? function) && (h_data H =? data) then Ret (Some h)
      else unregister_scan bs function data els
  end.

Definition unregister_low_resource_handler (function data : Z) (s : lowstate) :
    outcome (Z * lowstate) :=
  h ← unregister_scan (blocks s) function data (dl_elems (sLowResourceHandlers s));
  match h with
  | Some h => Ret (0, s <| sLowResourceHandlers ::= dl_Remove h |> <| blocks ::= delete h |>)
  | None => Ret (- ENOENT, s)
  end.

(** What another thread, or the handler itself, can do. *)
Inductive op :=
  | OpRegister (malloc : gset Z → option Z) (function data resources priority : Z)
  | OpUnregister (function data : Z)
  | OpState (m : measurement) (resources : Z).

Definition run_op (o : op) (s : lowstate) : outcome lowstate :=
  match o with
  | OpRegister malloc f d r p => x ← register_low_resource_handler malloc f d r p s; Ret x.2
  | OpUnregister f d => x ← unregister_low_resource_handler f d s; Ret x.2
  | OpState m r => Ret (low_resource_state m r s).2
  end.

Fixpoint run_ops (os : list op) (s : lowstate) : outcome lowstate :=
  match os with
  | [] => Ret s
  | o :: os => s ← run_op o s; run_ops os s
  end.

(** One call of a handler: what happens after the lock is dropped and before the
    handler is read, and what happens during the call. *)
Record window := mkWindow { before_call : list op; during_call : list op }.

Fixpoint next_of (x : Z) (l : list Z) : option Z :=
  match l with
  | [] => None
  | y :: l => if decide (y = x) then head l else next_of x l
  end.

Definition call_handler (h resources : Z) (w : window) (s : lowstate) : outcome lowstate :=
  s ← run_ops (before_call w) s;
  H ← deref (blocks s !! h);
  let c := mkCall h (h_priority H) (h_function H) (h_data H) resources
    (low_resource_state_no_update resources s) in
  run_ops (during_call w) (s <| calls ::= fun cs => cs ++ [c] |>).

Fixpoint call_loop (fuel : nat) (marker lowResources : Z) (ws : list window) (s : lowstate) :
    outcome lowstate :=
  match fuel with
  | O => NoFuel
  | S fuel =>
      match next_of marker (dl_elems (sLowResourceHandlers s)) with
      | None => Ret s
      | Some h =>
          let s := s <| sLowResourceHandlers ::= dl_Swap marker h |> in
          H ← deref (blocks s !! h);
          let s := s <| blocks ::= alter (fun m => m <| h_priority := h_priority H |>) marker |> in
          let resources := Z.land (h_resources H) lowResources in
          if resources =? 0 then call_loop fuel marker lowResources ws s
          else
            match ws with
            | [] =>
                s ← call_handler h resources (mkWindow [] []) s;
                call_loop fuel marker lowResources [] s
            | w :: ws =>
                s ← call_handler h resources w s;
                call_loop fuel marker lowResources ws s
            end
      end
  end.

(** [marker] is the address of the local variable. *)
Definition call_handlers (fuel : nat) (marker lowResources : Z) (ws : list window) (s : lowstate) :
    outcome lowstate :=
  match dl_elems (sLowResourceHandlers s) with
  | [] => Ret s
  | _ =>
      let s := s <| blocks ::= <[marker := mkHandler 0 0 0 0]> |> in
      let s := s <| sLowResourceHandlers ::= dl_Add marker false |> in
      s ← call_loop fuel marker lowResources ws s;
      Ret (s <| sLowResourceHandlers ::= dl_Remove marker |> <| blocks ::= delete marker |>)
  end.

(** One round of the loop of [low_resource_manager]; the result is the timeout of
    the next wait for the semaphore. *)
Definition low_resource_manager_round (fuel : nat) (marker : Z) (m : measurement)
    (ws : list window) (timeout : Z) (s : lowstate) : outcome (Z * lowstate) :=
  let s := s <| wait_sem ::= fun n => Z.max 0 (n - 1) |> in
  let s := compute_state m s in
  let state := low_resource_state_no_update B_ALL_KERNEL_RESOURCES s in
  if state <? B_LOW_RESOURCE_NOTE then Ret (timeout, s)
  else
    s ← call_handlers fuel marker (sLowResources s) ws s;
    let timeout :=
      if state =? B_LOW_RESOURCE_CRITICAL then kCriticalResourceInterval
      else if state =? B_LOW_RESOURCE_WARNING then kWarnResourceInterval
      else kLowResourceInterval in
    Ret (timeout, s <| waiters := ∅ |>).

(** [thread] releases the semaphore and waits unless its timeout is over. *)
Definition low_resource (B_RELATIVE_TIMEOUT thread flags timeout : Z) (s : lowstate) : lowstate :=
  let s := s <| wait_sem ::= Z.succ |> in
  if (Z.land flags B_RELATIVE_TIMEOUT =? 0) || (0 <? timeout)
  then s <| waiters ::= fun W => {[thread]} ∪ W |> else s.

(** C32: The level that low_resource_state returns after a measurement is
    the largest number of limits undercut by one of the resources asked for,
    and the bit of a resource is set in sLowResources exactly if it is
    short; within 500 ms of the last measurement the state is not measured
    again. *)
Theorem low_resource_state_correct m resources s : limits_ok s →
  let (state, s') := low_resource_state m resources s in
  if decide (MILLISECS 500 < m_time m - sLastMeasurement s) then
    state = worst resources (supplies m s) ∧
    B_NO_LOW_RESOURCE <= state <= B_LOW_RESOURCE_CRITICAL ∧
    sLastMeasurement s' = m_time m ∧
    (∀ bit free limits, (bit, free, limits) ∈ supplies m s →
      (Z.land (sLowResources s') bit ≠ 0 ↔ 0 < shortage free limits)) ∧
    (Z.land resources (sLowResources s') ≠ 0 ↔ B_LOW_RESOURCE_NOTE <= state)
  else s' = s ∧ state = low_resource_state_no_update resources s.
Proof.
  intros Hl. unfold low_resource_state.
  destruct (Z.ltb_spec (MILLISECS 500) (m_time m - sLastMeasurement s));
    [rewrite decide_True by done|by rewrite decide_False by lia].
  destruct (compute_low_state m s resources Hl) as [Hr Hb].
  split; [apply no_update_worst; [by apply compute_graded|done]|].
  split; [exact Hr|]. split; [done|]. split; [|exact Hb].
  intros bit free limits. by apply compute_low_bits.
Qed.

(** ** The list of handlers *)
Abbreviation entry := (Z * low_resource_handler)%type.

(** [L]: the addresses on the list with what is stored there; nothing else is
    allocated. *)
Record stored (L : list entry) (s : lowstate) : Prop := {
  st_elems : dl_elems (sLowResourceHandlers s) = L.*1;
  st_nodup : NoDup L.*1;
  st_blocks : blocks s = list_to_map L
}.

(** Higher priorities come first. *)
Definition sorted (L : list entry) : Prop :=
  StronglySorted (fun x y => h_priority y.2 <= h_priority x.2) L.

Lemma stored_lookup L s a H : stored L s → (a, H) ∈ L → blocks s !! a = Some H.
Proof. intros [_ Hn ->] Hin. by apply elem_of_list_to_map_1. Qed.

Lemma stored_fresh L s a : stored L s → a ∉ dom (blocks s) → a ∉ L.*1.
Proof. intros [_ _ Hb] Ha. rewrite Hb, dom_list_to_map_L in Ha. set_solver. Qed.

Lemma stored_insert L1 L2 a H s s' : stored (L1 ++ L2) s → a ∉ dom (blocks s) →
  dl_elems (sLowResourceHandlers s') = L1.*1 ++ a :: L2.*1 →
  blocks s' = <[a := H]> (blocks s) → stored (L1 ++ (a, H) :: L2) s'.
Proof.
  intros Hs Ha He Hb. pose proof (stored_fresh _ _ _ Hs Ha) as Hf. destruct Hs as [_ Hn Hbs].
  assert (Hn' : NoDup (((a, H) :: L1 ++ L2).*1)) by (cbn; by apply NoDup_cons).
  assert (Hp : (a, H) :: L1 ++ L2 ≡ₚ L1 ++ (a, H) :: L2) by apply Permutation_middle.
  split.
  - by rewrite He, fmap_app, fmap_cons.
  - by rewrite <- Hp.
  - rewrite Hb, Hbs. by rewrite <- (list_to_map_proper _ _ Hn' Hp).
Qed.

Lemma stored_delete L1 L2 a H s s' : stored (L1 ++ (a, H) :: L2) s →
  dl_elems (sLowResourceHandlers s') = L1.*1 ++ L2.*1 → blocks s' = delete a (blocks s) →
  stored (L1 ++ L2) s'.
Proof.
  intros [He Hn Hbs] He' Hb.
  assert (Hp : L1 ++ (a, H) :: L2 ≡ₚ (a, H) :: L1 ++ L2) by (symmetry; apply Permutation_middle).
  assert (Hn' : NoDup (((a, H) :: L1 ++ L2).*1)) by by rewrite <- Hp.
  split.
  - by rewrite He', fmap_app.
  - cbn in Hn'. by apply NoDup_cons in Hn' as [_ ?].
  - rewrite Hb, Hbs, (list_to_map_proper _ _ Hn Hp). cbn.
    apply delete_insert_id, not_elem_of_list_to_map_1. cbn in Hn'. by apply NoDup_cons in Hn' as [? _].
Qed.

Lemma register_scan_ok bs p L : ∀ L2, (∀ x, x ∈ L → bs !! x.1 = Some x.2) →
  Forall (fun x => h_priority x.2 < p) L2 →
  ∃ L1 L2', L ++ L2 = L1 ++ L2' ∧ Forall (fun x => h_priority x.2 < p) L2' ∧
    ((register_scan bs p (reverse L.*1) (head L2.*1) = Ret (Some (head L2'.*1)) ∧
        ∃ L0 x, L1 = L0 ++ [x] ∧ p <= h_priority x.2) ∨
     (register_scan bs p (reverse L.*1) (head L2.*1) = Ret None ∧ L1 = [])).
Proof.
  induction L as [|x L IH] using rev_ind; intros L2 Hb H2.
  - exists [], L2. auto.
  - rewrite fmap_app, reverse_app. cbn. rewrite Hb by set_solver. cbn.
    destruct (Z.leb_spec p (h_priority x.2)) as [Hp|Hp].
    + exists (L ++ [x]), L2. split; [done|]. split; [done|]. left. eauto.
    + destruct (IH (x :: L2)) as (L1 & L2' & E & H2' & Hr); [set_solver|by constructor|].
      exists L1, L2'. rewrite <- app_assoc. done.
Qed.

Lemma sorted_insert L1 L2 a H : sorted (L1 ++ L2) →
  Forall (fun x => h_priority x.2 < h_priority H) L2 →
  (L1 = [] ∨ ∃ L0 x, L1 = L0 ++ [x] ∧ h_priority H <= h_priority x.2) →
  sorted (L1 ++ (a, H) :: L2).
Proof.
  unfold sorted. rewrite !StronglySorted_app, Forall_forall. intros (Hc & H1 & H2) Hlt Hl.
  split_and!; [|done|].
  - intros x y Hx Hy. apply elem_of_cons in Hy as [-> |Hy]; [|by apply Hc].
    destruct Hl as [-> |(L0 & z & -> & Hz)]; [by apply elem_of_nil in Hx|]. cbn.
    apply elem_of_app in Hx as [Hx|Hx%list_elem_of_singleton]; [|by subst].
    apply StronglySorted_app in H1 as (H1 & _). specialize (H1 x z Hx ltac:(set_solver)). lia.
  - constructor; [done|]. apply Forall_forall. intros x Hx. cbn. specialize (Hlt x Hx). lia.
Qed.

Lemma sorted_delete L1 L2 x : sorted (L1 ++ x :: L2) → sorted (L1 ++ L2).
Proof.
  unfold sorted. rewrite !StronglySorted_app. intros (Hc & H1 & H2). split_and!; [|done|].
  - intros y z Hy Hz. apply Hc; [done|by right].
  - by apply StronglySorted_inv in H2 as [? _].
Qed.

(** The levels and the calls made so far. *)
Definition same_levels (s s' : lowstate) : Prop :=
  ∀ resources, low_resource_state_no_update resources s' = low_resource_state_no_update resources s.

(** The new handler goes behind those of the same or of a higher priority. *)
Lemma register_ok malloc f d r p L s a : stored L s →
  malloc (dom (blocks s)) = Some a → a ∉ dom (blocks s) →
  ∃ L1 L2 s', let H := mkHandler f d r p in
    register_low_resource_handler malloc f d r p s = Ret (0, s') ∧ L = L1 ++ L2 ∧
    stored (L1 ++ (a, H) :: L2) s' ∧
    Forall (fun x => h_priority x.2 < p) L2 ∧
    (L1 = [] ∨ ∃ L0 x, L1 = L0 ++ [x] ∧ p <= h_priority x.2) ∧
    calls s' = calls s ∧ same_levels s s'.
Proof.
  intros Hs Ha Hf. pose proof (stored_fresh _ _ _ Hs Hf) as Hfl.
  destruct (register_scan_ok (<[a := mkHandler f d r p]> (blocks s)) p L []) as
    (L1 & L2 & E & H2 & Hr).
  { intros [b B] Hin. cbn. rewrite lookup_insert_ne.
    - by apply (stored_lookup L).
    - intros <-. apply Hfl. by apply (list_elem_of_fmap_2 fst _ (a, B)). }
  { constructor. }
  rewrite app_nil_r in E. subst L. unfold register_low_resource_handler. rewrite Ha. cbn.
  pose proof (st_elems _ _ Hs) as He. rewrite He. cbn in Hr. rewrite fmap_app in Hfl.
  pose proof (st_nodup _ _ Hs) as Hn. rewrite fmap_app in Hn, He.
  destruct Hr as [[-> Hl]|[-> ->]]; cbn.
  - exists L1, L2. eexists. split; [done|]. split; [done|].
    split; [|by split_and!; try done; right].
    eapply stored_insert; [done|done| |done]. cbn.
    destruct L2 as [|[b B] L2]; cbn in *.
    + by rewrite dl_InsertBefore_None, He, app_nil_r by (rewrite He; set_solver).
    + eapply dl_InsertBefore_Some; [done|by rewrite He|by rewrite He].
  - exists [], L2. eexists. split; [done|]. split; [done|]. split; [|by split_and!; try done; left].
    eapply stored_insert; [done|done| |done]. cbn in *. by rewrite dl_Add_elems, He by by rewrite He.
Qed.

Lemma register_failed malloc f d r p s : malloc (dom (blocks s)) = None →
  register_low_resource_handler malloc f d r p s = Ret (- ENOMEM, s).
Proof. intros E. unfold register_low_resource_handler. by rewrite E. Qed.

(** Whether a handler was registered with a function and data. *)
Definition matches (f d : Z) (x : entry) : Prop := h_function x.2 = f ∧ h_data x.2 = d.

Lemma unregister_scan_ok bs f d L : (∀ x, x ∈ L → bs !! x.1 = Some x.2) →
  (unregister_scan bs f d L.*1 = Ret None ∧ Forall (fun x => ¬ matches f d x) L) ∨
  ∃ L1 x L2, L = L1 ++ x :: L2 ∧ unregister_scan bs f d L.*1 = Ret (Some x.1) ∧ matches f d x ∧
    Forall (fun x => ¬ matches f d x) L1.
Proof.
  induction L as [|x L IH]; intros Hb; cbn; [auto|]. rewrite Hb by set_solver. cbn.
  unfold matches. destruct (Z.eqb_spec (h_function x.2) f), (Z.eqb_spec (h_data x.2) d); cbn.
  1: { right. by exists [], x, L. }
  all: destruct IH as [[E Hf]|(L1 & y & L2 & -> & E & Hm & Hf)]; [set_solver|left|right].
  all: try (split; [done|]; constructor; [tauto|done]).
  all: exists (x :: L1), y, L2; do 3 (split; [done|]); constructor; [tauto|done].
Qed.

Lemma unregister_ok f d L s : stored L s →
  (unregister_low_resource_handler f d s = Ret (- ENOENT, s) ∧
    Forall (fun x => ¬ matches f d x) L) ∨
  ∃ L1 x L2 s', unregister_low_resource_handler f d s = Ret (0, s') ∧ L = L1 ++ x :: L2 ∧
    matches f d x ∧ Forall (fun x => ¬ matches f d x) L1 ∧ stored (L1 ++ L2) s' ∧
    calls s' = calls s ∧ same_levels s s'.
Proof.
  intros Hs. unfold unregister_low_resource_handler. rewrite (st_elems _ _ Hs).
  destruct (unregister_scan_ok (blocks s) f d L) as [[-> Hf]|(L1 & [a H] & L2 & -> & -> & Hm & Hf)].
  { intros [a H] Hin. by apply (stored_lookup L). }
  { by left. }
  right. exists L1, (a, H), L2. eexists. split; [done|]. split; [done|]. split; [done|].
  split; [done|]. split; [|done].
  eapply stored_delete; [done| |done]. cbn.
  pose proof (st_elems _ _ Hs) as He. pose proof (st_nodup _ _ Hs) as Hn.
  rewrite dl_Remove_elems; [|by rewrite He|rewrite He, fmap_app; set_solver].
  rewrite He, fmap_app, fmap_cons in *. by apply remove_elem_split.
Qed.

(** ** Other threads *)

(** malloc returns memory that is not in use; functions are not null. *)
Definition op_ok (o : op) : Prop :=
  match o with
  | OpRegister malloc f d r p => ∀ live a, malloc live = Some a → a ∉ live
  | OpUnregister f d => f ≠ 0
  | OpState m r => True
  end.

Definition spares (x : entry) (o : op) : Prop :=
  match o with OpUnregister f d => ¬ matches f d x | _ => True end.
Definition measures (o : op) : bool := match o with OpState _ _ => true | _ => false end.
Definition registers (o : op) : nat := match o with OpRegister _ _ _ _ _ => 1 | _ => 0 end.
Definition registrations (os : list op) : nat := sum_list_with registers os.

(** What holds of the list [D ++ [marker] ++ T] after operations of others:
    the marker divides it as before, and what is not removed keeps its side. *)
Record served (M : Z) (mk : low_resource_handler) (os : list op) (D T : list entry) (s : lowstate)
    (D' T' : list entry) (s' : lowstate) : Prop := {
  sv_stored : stored (D' ++ (M, mk) :: T') s';
  sv_sorted : sorted (D' ++ (M, mk) :: T');
  sv_calls : calls s' = calls s;
  sv_length : (length T' <= length T + registrations os)%nat;
  sv_done x : Forall (spares x) os → x ∈ D → x ∈ D';
  sv_todo x : Forall (spares x) os → x ∈ T → x ∈ T';
  sv_levels : Forall (fun o => measures o = false) os → same_levels s s'
}.

Lemma served_refl M mk D T s : stored (D ++ (M, mk) :: T) s → sorted (D ++ (M, mk) :: T) →
  served M mk [] D T s D T s.
Proof. intros ??. split; try done. cbn. lia. Qed.

Lemma served_cons M mk o os D T s D1 T1 s1 D2 T2 s2 :
  served M mk [o] D T s D1 T1 s1 → served M mk os D1 T1 s1 D2 T2 s2 →
  served M mk (o :: os) D T s D2 T2 s2.
Proof.
  intros [A1 A2 A3 A4 A5 A6 A7] [B1 B2 B3 B4 B5 B6 B7]. split; try done.
  - congruence.
  - unfold registrations in *. cbn in *. lia.
  - intros x [? ?]%Forall_cons ?. auto.
  - intros x [? ?]%Forall_cons ?. auto.
  - intros [? ?]%Forall_cons r. rewrite B7, A7 by auto. done.
Qed.

Lemma register_served M mk D T s malloc f d r p :
  stored (D ++ (M, mk) :: T) s → sorted (D ++ (M, mk) :: T) → op_ok (OpRegister malloc f d r p) →
  ∃ D' T' s', run_op (OpRegister malloc f d r p) s = Ret s' ∧
    served M mk [OpRegister malloc f d r p] D T s D' T' s'.
Proof.
  intros Hs Ho Hf. unfold run_op. destruct (malloc (dom (blocks s))) as [a|] eqn:Ea.
  2: { rewrite register_failed by done. exists D, T, s. split; [done|]. split; try done. cbn; lia. }
  destruct (register_ok malloc f d r p _ _ a Hs Ea (Hf _ _ Ea)) as
    (L1 & L2 & s' & -> & E & Hs' & H2 & H1 & Hc & Hl). cbn.
  rewrite E in Ho. pose proof (sorted_insert L1 L2 a (mkHandler f d r p) Ho H2 H1) as Ho'.
  apply app_eq_inv in E as [(k & -> & ->)|(k & -> & E)].
  - exists (L1 ++ (a, mkHandler f d r p) :: k), T, s'.
    split; [done|]. split; rewrite <- ?app_assoc; try done; [cbn; lia|]. intros x _. set_solver.
  - destruct k as [|x k]; cbn in E; [subst L2|injection E as <- ->].
    + exists (D ++ [(a, mkHandler f d r p)]), T, s'. rewrite app_nil_r in *.
      split; [done|]. split; rewrite <- ?app_assoc; try done; [cbn; lia|]. intros x _. set_solver.
    + exists D, (k ++ (a, mkHandler f d r p) :: L2), s'. rewrite <- app_assoc in *.
      split; [done|]. split; try done; [|intros x _; set_solver].
      unfold registrations. cbn. rewrite !length_app. cbn. lia.
Qed.

Lemma unregister_served M mk D T s f d : h_function mk = 0 →
  stored (D ++ (M, mk) :: T) s → sorted (D ++ (M, mk) :: T) → op_ok (OpUnregister f d) →
  ∃ D' T' s', run_op (OpUnregister f d) s = Ret s' ∧ served M mk [OpUnregister f d] D T s D' T' s'.
Proof.
  intros Hm Hs Ho Hf. unfold run_op.
  destruct (unregister_ok f d _ _ Hs) as [[-> _]|(L1 & y & L2 & s' & -> & E & Hy & _ & Hs' & Hc & Hl)].
  { exists D, T, s. split; [done|]. split; try done. cbn; lia. }
  cbn. rewrite E in Ho. pose proof (sorted_delete _ _ _ Ho) as Ho'.
  apply app_eq_inv in E as [([|x k] & -> & E)|(k & -> & E)].
  - injection E as -> ->. destruct Hy as [Hy _]. cbn in Hy. exfalso. apply Hf. congruence.
  - injection E as -> ->. exists (L1 ++ k), T, s'.
    split; [done|]. split; rewrite <- ?app_assoc; try done; [cbn; lia|].
    intros z [Hz _]%Forall_cons. cbn in Hz. set_solver.
  - destruct k as [|x k]; cbn in E; injection E as <- ->.
    { destruct Hy as [Hy _]. cbn in Hy. exfalso. apply Hf. congruence. }
    exists D, (k ++ L2), s'. rewrite <- app_assoc in *.
    split; [done|]. split; try done.
    + unfold registrations. cbn. rewrite !length_app. cbn. lia.
    + intros z [Hz _]%Forall_cons. cbn in Hz. set_solver.
Qed.

Lemma compute_stored L m s : stored L s → stored L (compute_state m s).
Proof. by intros [? ? ?]. Qed.

Lemma run_op_served M mk D T s o : h_function mk = 0 →
  stored (D ++ (M, mk) :: T) s → sorted (D ++ (M, mk) :: T) → op_ok o →
  ∃ D' T' s', run_op o s = Ret s' ∧ served M mk [o] D T s D' T' s'.
Proof.
  intros Hm Hs Ho Hok. destruct o as [malloc f d r p|f d|m r].
  - by apply register_served.
  - by apply unregister_served.
  - exists D, T. eexists. split; [done|]. unfold low_resource_state. cbn. 
    case_match; split; try done; try (by apply compute_stored); try (cbn; lia).
    by intros [? _]%Forall_cons.
Qed.

Lemma run_ops_served M mk os : ∀ D T s, h_function mk = 0 →
  stored (D ++ (M, mk) :: T) s → sorted (D ++ (M, mk) :: T) → Forall op_ok os →
  ∃ D' T' s', run_ops os s = Ret s' ∧ served M mk os D T s D' T' s'.
Proof.
  induction os as [|o os IH]; intros D T s Hm Hs Ho Hok.
  { exists D, T, s. split; [done|]. by apply served_refl. }
  apply Forall_cons in Hok as [Hok Hoks].
  destruct (run_op_served M mk D T s o Hm Hs Ho Hok) as (D1 & T1 & s1 & E1 & S1).
  destruct (IH D1 T1 s1 Hm (sv_stored _ _ _ _ _ _ _ _ _ S1) (sv_sorted _ _ _ _ _ _ _ _ _ S1) Hoks)
    as (D2 & T2 & s2 & E2 & S2).
  exists D2, T2, s2. cbn. rewrite E1. cbn. split; [done|]. by eapply served_cons.
Qed.

(** ** Calling the handlers *)
Lemma next_of_split x l1 l2 : NoDup (l1 ++ x :: l2) → next_of x (l1 ++ x :: l2) = head l2.
Proof.
  induction l1 as [|y l1 IH]; cbn; [by rewrite decide_True|].
  intros [Hy Hn]%NoDup_cons. rewrite decide_False by set_solver. by apply IH.
Qed.

(** A handler is read before others can remove it. *)
Definition window_ok (w : window) : Prop :=
  Forall op_ok (before_call w) ∧ Forall op_ok (during_call w) ∧
  ∀ f d, OpUnregister f d ∉ before_call w.

Definition window_ops (w : window) : list op := before_call w ++ during_call w.
Definition all_ops (ws : list window) : list op := ws ≫= window_ops.

(** The handler [h] of the list is called, with what others do. *)
Record called (M : Z) (mk : low_resource_handler) (w : window) (h : Z) (H : low_resource_handler)
    (res : Z) (D T : list entry) (s : lowstate) (D' T' : list entry) (s' : lowstate) : Prop := {
  cd_stored : stored (D' ++ (M, mk) :: T') s';
  cd_sorted : sorted (D' ++ (M, mk) :: T');
  cd_length : (length T' <= length T + registrations (window_ops w))%nat;
  cd_done x : Forall (spares x) (window_ops w) → x ∈ D → x ∈ D';
  cd_todo x : Forall (spares x) (window_ops w) → x ∈ T → x ∈ T';
  cd_levels : Forall (fun o => measures o = false) (window_ops w) → same_levels s s';
  cd_calls : ∃ level, calls s' = calls s ++
    [mkCall h (h_priority H) (h_function H) (h_data H) res level] ∧
    (Forall (fun o => measures o = false) (window_ops w) →
      level = low_resource_state_no_update res s)
}.

Lemma call_handler_ok M mk w h H res D T s : h_function mk = 0 → window_ok w →
  stored (D ++ (M, mk) :: T) s → sorted (D ++ (M, mk) :: T) → (h, H) ∈ D →
  ∃ D' T' s', call_handler h res w s = Ret s' ∧ called M mk w h H res D T s D' T' s'.
Proof.
  intros Hm (Hb & Hd & Hu) Hs Ho Hin. unfold call_handler.
  destruct (run_ops_served M mk (before_call w) D T s Hm Hs Ho Hb) as (D1 & T1 & s1 & -> & V1).
  assert (Hin1 : (h, H) ∈ D1).
  { apply (sv_done _ _ _ _ _ _ _ _ _ V1); [|done]. apply Forall_forall. intros [| |] Ho'; try done.
    by apply Hu in Ho'. }
  cbn. rewrite (stored_lookup _ _ h H (sv_stored _ _ _ _ _ _ _ _ _ V1)) by set_solver. cbn.
  set (c := mkCall _ _ _ _ _ _). set (s1' := s1 <| calls ::= _ |>).
  destruct (run_ops_served M mk (during_call w) D1 T1 s1') as (D2 & T2 & s2 & -> & V2); try done.
  { by destruct V1 as [[]]. }
  { apply V1. }
  destruct V1 as [A1 A2 A3 A4 A5 A6 A7], V2 as [B1 B2 B3 B4 B5 B6 B7].
  exists D2, T2, s2. split; [done|]. split; try done; unfold window_ops.
  - unfold registrations in *. rewrite sum_list_with_app. lia.
  - intros x [? ?]%Forall_app ?. auto.
  - intros x [? ?]%Forall_app ?. auto.
  - intros [? ?]%Forall_app r. rewrite B7 by done. by apply A7.
  - exists (low_resource_state_no_update res s1). split.
    + rewrite B3. cbn. by rewrite A3.
    + intros [? ?]%Forall_app. by apply A7.
Qed.

Lemma stored_swap M mk h H D T s : stored (D ++ (M, mk) :: (h, H) :: T) s →
  let mk' := mk <| h_priority := h_priority H |> in
  stored ((D ++ [(h, H)]) ++ (M, mk') :: T)
    (s <| sLowResourceHandlers ::= dl_Swap M h |>
       <| blocks ::= alter (fun m => m <| h_priority := h_priority H |>) M |>).
Proof.
  intros [He Hn Hb]. cbn zeta.
  assert (Hp : ∀ m, (M, m) :: D ++ (h, H) :: T ≡ₚ (D ++ [(h, H)]) ++ (M, m) :: T).
  { intros m. rewrite (cons_middle _ D T), app_assoc. apply Permutation_middle. }
  assert (Hp' : D ++ (M, mk) :: (h, H) :: T ≡ₚ (M, mk) :: D ++ (h, H) :: T).
  { symmetry. apply Permutation_middle. }
  assert (Hn' : ∀ m, NoDup (((M, m) :: D ++ (h, H) :: T).*1)).
  { intros m. change (((M, m) :: D ++ (h, H) :: T).*1) with (((M, mk) :: D ++ (h, H) :: T).*1).
    by rewrite <- Hp'. }
  split.
  - cbn. rewrite !fmap_app, <- app_assoc. cbn. apply dl_Swap_next; rewrite He; [by rewrite fmap_app|done].
  - by rewrite <- Hp.
  - rewrite <- (list_to_map_proper _ _ (Hn' _) (Hp _)). cbn.
    rewrite Hb, (list_to_map_proper _ _ Hn Hp'). cbn. apply alter_insert_eq.
Qed.

(** What a round over the handlers [T] behind the marker has done at its end. *)
Record loop_result (M low : Z) (ws : list window) (D T : list entry) (s : lowstate)
    (D' : list entry) (mk' : low_resource_handler) (s' : lowstate) (cs : list call) : Prop := {
  lr_stored : stored (D' ++ [(M, mk')]) s';
  lr_sorted : sorted D';
  lr_calls : calls s' = calls s ++ cs;
  lr_bound b : Forall (fun x => h_priority x.2 <= b) T → Forall (fun c => c_priority c <= b) cs;
  lr_order : StronglySorted (fun c c' => c_priority c' <= c_priority c) cs;
  lr_kept x : Forall (spares x) (all_ops ws) → x ∈ D ++ T → x ∈ D';
  lr_done x : Forall (spares x) (all_ops ws) → x ∈ D → filter (fun c => c_handler c = x.1) cs = [];
  lr_todo x : Forall (spares x) (all_ops ws) → x ∈ T →
    let res := Z.land (h_resources x.2) low in
    if decide (res = 0) then filter (fun c => c_handler c = x.1) cs = []
    else ∃ level, filter (fun c => c_handler c = x.1) cs =
        [mkCall x.1 (h_priority x.2) (h_function x.2) (h_data x.2) res level] ∧
      (Forall (fun o => measures o = false) (all_ops ws) →
        level = low_resource_state_no_update res s)
}.

Lemma all_ops_head ws :
  all_ops ws = window_ops (default (mkWindow [] []) (head ws)) ++ all_ops (tail ws).
Proof. by destruct ws. Qed.

Lemma window_head ws : Forall window_ok ws → window_ok (default (mkWindow [] []) (head ws)).
Proof.
  intros H. destruct ws as [|w ws]; cbn; [|by apply Forall_cons in H as [? _]].
  split_and!; [done..|]. intros f d. apply not_elem_of_nil.
Qed.

Lemma call_loop_step fuel M low ws s h H :
  next_of M (dl_elems (sLowResourceHandlers s)) = Some h → blocks s !! h = Some H →
  let s1 := s <| sLowResourceHandlers ::= dl_Swap M h |>
       <| blocks ::= alter (fun m => m <| h_priority := h_priority H |>) M |> in
  let res := Z.land (h_resources H) low in
  call_loop (S fuel) M low ws s =
    if decide (res = 0) then call_loop fuel M low ws s1
    else s2 ← call_handler h res (default (mkWindow [] []) (head ws)) s1;
         call_loop fuel M low (tail ws) s2.
Proof.
  intros En Eh s1 res. cbn [call_loop]. rewrite En. cbn. rewrite Eh. cbn. fold res.
  destruct (Z.eqb_spec res 0); [by rewrite decide_True|rewrite decide_False by done].
  by destruct ws.
Qed.

(** One more handler in front: it is not called. *)
Lemma loop_result_skip M low ws D T s s1 h H D' mk' s' cs :
  NoDup (D ++ (h, H) :: T).*1 → sorted (D ++ (h, H) :: T) →
  Z.land (h_resources H) low = 0 → calls s1 = calls s → same_levels s s1 →
  loop_result M low ws (D ++ [(h, H)]) T s1 D' mk' s' cs →
  loop_result M low ws D ((h, H) :: T) s D' mk' s' cs.
Proof.
  intros Hn Ho Hr Hc Hlv [A1 A2 A3 A4 A5 A6 A7 A8]. split; try done.
  - congruence.
  - intros b [? ?]%Forall_cons. by apply A4.
  - intros x Hx. rewrite (cons_middle (h, H) D T), app_assoc. by apply A6.
  - intros x Hx Hd. apply A7; [done|set_solver].
  - intros x Hx [-> |Ht]%elem_of_cons; cbn zeta.
    + cbn. rewrite decide_True by done. apply (A7 (h, H)); [done|set_solver].
    + specialize (A8 x Hx Ht). cbn zeta in A8. case_decide; [done|].
      destruct A8 as (l & E & El). exists l. split; [done|]. intros Hq. rewrite (El Hq). apply Hlv.
Qed.

(** One more handler in front: it is called. *)
Lemma loop_result_call M low ws w ws' D T s s1 h H D2 T2 mk s2 D' mk' s' cs :
  NoDup (D ++ (h, H) :: T).*1 → sorted (D ++ (h, H) :: T) → all_ops ws = window_ops w ++ all_ops ws' →
  let res := Z.land (h_resources H) low in
  res ≠ 0 → calls s1 = calls s → same_levels s s1 → h_priority mk = h_priority H →
  called M mk w h H res (D ++ [(h, H)]) T s1 D2 T2 s2 →
  loop_result M low ws' D2 T2 s2 D' mk' s' cs →
  ∃ c, loop_result M low ws D ((h, H) :: T) s D' mk' s' (c :: cs).
Proof.
  intros Hn Ho Eo res Hr Hc Hlv Hp [B1 B2 B3 B4 B5 B6 (level & B7 & B8)] [A1 A2 A3 A4 A5 A6 A7 A8].
  set (c := mkCall h (h_priority H) (h_function H) (h_data H) res level) in B7. exists c.
  assert (Hb : Forall (fun c' => c_priority c' <= h_priority H) cs).
  { apply A4. unfold sorted in B2. apply StronglySorted_app in B2 as (_ & _ & B2).
    apply StronglySorted_inv in B2 as [_ B2]. eapply Forall_impl; [done|]. cbn. intros x. by rewrite Hp. }
  rewrite fmap_app in Hn. cbn in Hn. apply NoDup_app in Hn as (_ & HnD & [HnT _]%NoDup_cons).
  assert (Hne : ∀ x, x ∈ D ∨ x ∈ T → h ≠ x.1).
  { intros x Hx ->. destruct Hx as [Hx|Hx]; apply (list_elem_of_fmap_2 fst) in Hx; set_solver. }
  split; try done.
  - rewrite A3, B7, Hc, <- app_assoc. done.
  - intros b [Hh _]%Forall_cons. constructor; [done|]. eapply Forall_impl; [done|]. cbn in *. lia.
  - by constructor.
  - intros x Hx. rewrite Eo in Hx. apply Forall_app in Hx as [Hx1 Hx2].
    rewrite (cons_middle (h, H) D T), app_assoc. intros [Hd|Ht]%elem_of_app; apply A6; set_solver.
  - intros x Hx Hd. rewrite Eo in Hx. apply Forall_app in Hx as [Hx1 Hx2].
    rewrite filter_cons_False by (cbn; auto). apply A7; set_solver.
  - intros x Hx Ht. rewrite Eo in Hx. apply Forall_app in Hx as [Hx1 Hx2]. cbn zeta.
    apply elem_of_cons in Ht as [-> |Ht].
    + cbn [fst snd]. fold res. rewrite decide_False by done. exists level.
      rewrite filter_cons_True by done. split; [|rewrite Eo; intros [? ?]%Forall_app; rewrite <- Hlv; auto].
      f_equal. apply (A7 (h, H)); set_solver.
    + rewrite filter_cons_False by (cbn; auto).
      specialize (A8 x Hx2 (B5 x Hx1 Ht)). cbn zeta in A8. case_decide; [done|].
      destruct A8 as (l & E & El). exists l. split; [done|]. rewrite Eo. intros [? ?]%Forall_app.
      rewrite (El ltac:(done)), (B6 ltac:(done)). apply Hlv.
Qed.

Lemma sorted_marker D T h H M mk : h_priority mk = h_priority H →
  sorted (D ++ (h, H) :: T) → sorted (D ++ (h, H) :: (M, mk) :: T).
Proof.
  unfold sorted. intros Hp. rewrite !StronglySorted_app. intros (Hc & Hd & [Ht Hh]%StronglySorted_inv).
  assert (Hm : StronglySorted (fun x y : entry => h_priority y.2 <= h_priority x.2) ((M, mk) :: T)).
  { constructor; [done|]. cbn in *. by rewrite Hp. }
  split_and!; [|done|].
  - intros x y Hx [-> |[-> |Hy]%elem_of_cons]%elem_of_cons; cbn; [apply (Hc x (h, H))|rewrite Hp; apply (Hc x (h, H))|apply Hc]; set_solver.
  - constructor; [done|]. constructor; [cbn; lia|done].
Qed.

Lemma call_loop_ok M low fuel : ∀ ws D mk T s, h_function mk = 0 →
  stored (D ++ (M, mk) :: T) s → sorted (D ++ T) → Forall window_ok ws →
  (length T + registrations (all_ops ws) < fuel)%nat →
  ∃ D' mk' s' cs, call_loop fuel M low ws s = Ret s' ∧ loop_result M low ws D T s D' mk' s' cs.
Proof.
  induction fuel as [|fuel IH]; intros ws D mk T s Hm Hs Ho Hw Hf; [lia|].
  pose proof (st_elems _ _ Hs) as He. pose proof (st_nodup _ _ Hs) as Hn.
  rewrite fmap_app in He, Hn. cbn in He, Hn.
  assert (Hnext : next_of M (dl_elems (sLowResourceHandlers s)) = head T.*1).
  { rewrite He. by apply next_of_split. }
  destruct T as [|[h H] T].
  { exists D, mk, s, []. cbn [call_loop]. rewrite Hnext. cbn. split; [done|].
    rewrite app_nil_r in *. split; try done; [by rewrite app_nil_r|constructor|by rewrite app_nil_r|].
    intros x _ Hx. by apply elem_of_nil in Hx. }
  rewrite (call_loop_step fuel M low ws s h H) by (done || by eapply stored_lookup; [done|set_solver]).
  pose proof (stored_swap _ _ _ _ _ _ _ Hs) as Hs1. cbn zeta in *.
  set (mk1 := mk <| h_priority := _ |>) in *. set (s1 := s <| sLowResourceHandlers ::= _ |> <| blocks ::= _ |>) in *.
  assert (HnL : NoDup (D ++ (h, H) :: T).*1).
  { rewrite fmap_app. cbn. eapply sublist_NoDup; [exact Hn|]. apply sublist_app; [done|]. by constructor. }
  assert (Hlv : same_levels s s1) by (intros r; reflexivity).
  assert (Hc1 : calls s1 = calls s) by reflexivity.
  case_decide as Hr.
  - destruct (IH ws (D ++ [(h, H)]) mk1 T s1) as (D' & mk' & s' & cs & E & HR); try done.
    { by rewrite <- app_assoc. } { cbn in Hf. lia. }
    exists D', mk', s', cs. split; [done|]. by apply (loop_result_skip M low ws D T s s1).
  - destruct (call_handler_ok M mk1 (default (mkWindow [] []) (head ws)) h H
      (Z.land (h_resources H) low) (D ++ [(h, H)]) T s1) as (D2 & T2 & s2 & -> & HC); try done.
    { by apply window_head. }
    { rewrite <- app_assoc. by apply (sorted_marker D T). }
    { set_solver. }
    cbn. destruct (IH (tail ws) D2 mk1 T2 s2) as (D' & mk' & s' & cs & E & HR); try done.
    { apply HC. } { eapply sorted_delete, HC. } { destruct ws; [done|by apply Forall_cons in Hw as [_ ?]]. }
    { pose proof (cd_length _ _ _ _ _ _ _ _ _ _ _ _ HC) as Hl. rewrite all_ops_head in Hf.
      unfold registrations in *. rewrite sum_list_with_app in Hf. cbn in Hf. lia. }
    destruct (loop_result_call M low ws (default (mkWindow [] []) (head ws)) (tail ws) D T s s1 h H D2 T2 mk1 s2 D' mk' s' cs) as [c HR'];
      try done; [apply all_ops_head|].
    exists D', mk', s', (c :: cs). done.
Qed.

(** The invariant of the list while nobody calls handlers: it is sorted, and the
    handlers on it are what is allocated. *)
Definition handlers_ok (L : list entry) (s : lowstate) : Prop := stored L s ∧ sorted L.

Lemma call_handlers_ok M low fuel ws L s : handlers_ok L s → M ∉ dom (blocks s) →
  Forall window_ok ws → (length L + registrations (all_ops ws) < fuel)%nat →
  ∃ L' s' cs, call_handlers fuel M low ws s = Ret s' ∧ handlers_ok L' s' ∧
    calls s' = calls s ++ cs ∧
    StronglySorted (fun c c' => c_priority c' <= c_priority c) cs ∧
    ∀ x, x ∈ L → Forall (spares x) (all_ops ws) → x ∈ L' ∧
      let res := Z.land (h_resources x.2) low in
      if decide (res = 0) then filter (fun c => c_handler c = x.1) cs = []
      else ∃ level, filter (fun c => c_handler c = x.1) cs =
          [mkCall x.1 (h_priority x.2) (h_function x.2) (h_data x.2) res level] ∧
        (Forall (fun o => measures o = false) (all_ops ws) →
          level = low_resource_state_no_update res s).
Proof.
  intros [Hs Ho] HM Hw Hf. unfold call_handlers. pose proof (st_elems _ _ Hs) as He.
  destruct (dl_elems (sLowResourceHandlers s)) as [|e els] eqn:Ee.
  { exists L, s, []. rewrite app_nil_r. split; [done|]. split; [done|]. split; [done|].
    split; [constructor|]. destruct L as [|x L]; [|done]. intros x Hx. by apply elem_of_nil in Hx. }
  cbn zeta. set (s1 := s <| blocks ::= _ |> <| sLowResourceHandlers ::= _ |>).
  pose proof (stored_fresh _ _ _ Hs HM) as HMf.
  assert (Hs1 : stored ([] ++ (M, mkHandler 0 0 0 0) :: L) s1).
  { apply (stored_insert [] L M _ s s1 Hs HM); [|done]. cbn.
    by rewrite dl_Add_elems, Ee, He by by rewrite Ee, He. }
  destruct (call_loop_ok M low fuel ws [] (mkHandler 0 0 0 0) L s1) as (D' & mk' & s' & cs & -> & HR);
    try done.
  destruct HR as [A1 A2 A3 A4 A5 A6 A7 A8].
  exists D'. cbn. eexists _, cs. split; [done|]. split.
  { split; [|done]. rewrite <- (app_nil_r D'). pose proof (st_elems _ _ A1) as He'.
    pose proof (st_nodup _ _ A1) as Hn'. rewrite fmap_app in He', Hn'. cbn in He', Hn'.
    eapply stored_delete; [exact A1| |done]. cbn. rewrite dl_Remove_elems; [|by rewrite He'|rewrite He'; set_solver].
    rewrite He'. by apply remove_elem_split. }
  split; [done|]. split; [done|].
  intros x Hx Hsp. split; [by apply A6|]. by apply A8.
Qed.

(** Resources that are not short do not count. *)
Lemma land_bit_low r low b : Z.land low b = 0 ∨ Z.land low b = b →
  Z.land (Z.land r low) b = if decide (Z.land low b = 0) then 0 else Z.land r b.
Proof.
  intros Hb. rewrite <- Z.land_assoc. case_decide as E; [by rewrite E, Z.land_0_r|].
  destruct Hb as [Hb|Hb]; [done|by rewrite Hb].
Qed.

Lemma low_bit m s b : b ∈ [1; 2; 4; 8] →
  Z.land (sLowResources (compute_state m s)) b = 0 ∨ Z.land (sLowResources (compute_state m s)) b = b.
Proof.
  unfold compute_state. cbn -[grade keep_bit u32 Z.shiftr Z.land elem_of].
  repeat match goal with |- context [keep_bit (?g.2)] => destruct (g.2) end; intros Hin;
  repeat (apply elem_of_cons in Hin as [-> |Hin]; [vm_compute; auto|]); by apply elem_of_nil in Hin.
Qed.

Definition pick (r level state : Z) : Z := if r =? 0 then state else Z.max state level.

Lemma pick_nonneg r level state : 0 <= level → 0 <= state → 0 <= pick r level state.
Proof. unfold pick. case_match; lia. Qed.

Lemma pick_low lowb r level state : (lowb ≠ 0 ↔ level ≠ 0) → 0 <= level → 0 <= state →
  pick (if decide (lowb = 0) then 0 else r) level state = pick r level state.
Proof.
  unfold pick. intros Hb ??. case_decide; [|done]. cbn. destruct (Z.eqb_spec r 0); [done|]. lia.
Qed.

Lemma no_update_pick r s : low_resource_state_no_update r s =
  pick (Z.land r 8) (sLowSpaceState s) (pick (Z.land r 4) (sLowSemaphoresState s)
    (pick (Z.land r 2) (sLowMemoryState s) (pick (Z.land r 1) (sLowPagesState s) 0))).
Proof. reflexivity. Qed.

Lemma no_update_low m s r : limits_ok s →
  let s' := compute_state m s in
  low_resource_state_no_update (Z.land r (sLowResources s')) s' = low_resource_state_no_update r s'.
Proof.
  cbv zeta. intros Hl. destruct (compute_levels m s Hl) as (E1 & E2 & E3 & E4).
  destruct (compute_low m s) as (B1 & B2 & B3 & B4).
  rewrite !no_update_pick.
  rewrite !land_bit_low by (apply low_bit; set_solver).
  assert (0 <= sLowPagesState (compute_state m s)) by (rewrite E1; unfold shortage; lia).
  assert (0 <= sLowMemoryState (compute_state m s)) by (rewrite E2; unfold shortage; lia).
  assert (0 <= sLowSemaphoresState (compute_state m s)) by (rewrite E3; unfold shortage; lia).
  assert (0 <= sLowSpaceState (compute_state m s)) by (rewrite E4; unfold shortage; lia).
  clear E1 E2 E3 E4.
  rewrite !pick_low by (try done; repeat (apply pick_nonneg; try done)). done.
Qed.

Lemma compute_handlers L m s : handlers_ok L s → handlers_ok L (compute_state m s).
Proof. intros [Hs Ho]. split; [by apply compute_stored|done]. Qed.

Definition interval (state : Z) : Z :=
  if decide (state = B_LOW_RESOURCE_CRITICAL) then MILLISECS 500
  else if decide (state = B_LOW_RESOURCE_WARNING) then MILLISECS 1000 else SECONDS 5.

(** C24: One round of the low resource manager, whatever other threads
    register or measure, and remove after a handler was read, while the lock
    is dropped for a handler. A removal between dropping the lock and
    reading the handler is excluded: the code uses freed memory then (see
    the findings for line 118). The round ends, handlers are called in the
    order of their priorities, each handler that stays registered is called
    exactly once if a resource that it handles is short and not at all
    otherwise, with these resources and, unless others measure again in the
    meantime, the level of the shortage; the list is left sorted and without
    the marker; the next waiting time follows the worst shortage. When
    nothing is short, nothing is called, and the threads that wait in
    low_resource sleep on, although its comment promises them the end of the
    next round (see the findings for line 234). *)
Theorem low_resource_round_correct M m ws timeout L s fuel :
  handlers_ok L s → limits_ok s → M ∉ dom (blocks s) → Forall window_ok ws →
  (length L + registrations (all_ops ws) < fuel)%nat →
  ∃ timeout' s' cs L', low_resource_manager_round fuel M m ws timeout s = Ret (timeout', s') ∧
    handlers_ok L' s' ∧ calls s' = calls s ++ cs ∧
    StronglySorted (fun c c' => c_priority c' <= c_priority c) cs ∧
    let state := worst B_ALL_KERNEL_RESOURCES (supplies m s) in
    if decide (state = B_NO_LOW_RESOURCE)
    then cs = [] ∧ L' = L ∧ timeout' = timeout ∧ waiters s' = waiters s
    else waiters s' = ∅ ∧ timeout' = interval state ∧
      ∀ x, x ∈ L → Forall (spares x) (all_ops ws) → x ∈ L' ∧
        let level := worst (h_resources x.2) (supplies m s) in
        if decide (level = B_NO_LOW_RESOURCE) then filter (fun c => c_handler c = x.1) cs = []
        else ∃ c, filter (fun c => c_handler c = x.1) cs = [c] ∧
          c_function c = h_function x.2 ∧ c_data c = h_data x.2 ∧
          c_resources c = Z.land (h_resources x.2) (sLowResources (compute_state m s)) ∧
          (Forall (fun o => measures o = false) (all_ops ws) → c_level c = level).
Proof.
  intros Hok Hl HM Hw Hf. unfold low_resource_manager_round.
  set (s0 := s <| wait_sem ::= _ |>). cbn zeta.
  assert (Hok1 : handlers_ok L (compute_state m s0)) by (apply compute_handlers; by destruct Hok as [[]]).
  assert (Hw1 : ∀ r, low_resource_state_no_update r (compute_state m s0) = worst r (supplies m s)).
  { intros r. apply no_update_worst; [|done]. by apply (compute_graded m s0). }
  rewrite Hw1. set (state := worst _ _).
  destruct (compute_low_state m s0 B_ALL_KERNEL_RESOURCES Hl) as [Hr _]. rewrite Hw1 in Hr. fold state in Hr. clearbody state.
  destruct (Z.ltb_spec state B_LOW_RESOURCE_NOTE) as [Hlt|Hge]; unfold B_LOW_RESOURCE_NOTE in *.
  { exists timeout, (compute_state m s0), [], L. cbn zeta.
    rewrite app_nil_r, (decide_True (P := state = B_NO_LOW_RESOURCE)) by (unfold B_NO_LOW_RESOURCE; lia).
    split; [done|]. split; [done|]. split; [done|]. split; [constructor|].
    split_and!; reflexivity. }
  destruct (call_handlers_ok M (sLowResources (compute_state m s0)) fuel ws L (compute_state m s0))
    as (L' & s' & cs & -> & Hok' & Hc & Hord & Hcalls); try done.
  cbn. eexists _, _, cs, L'. split; [done|]. split; [by destruct Hok' as [[]]|]. split; [done|]. split; [done|].
  cbn zeta. rewrite (decide_False (P := state = B_NO_LOW_RESOURCE)) by (unfold B_NO_LOW_RESOURCE; lia).
  split; [done|]. split.
  { unfold interval, B_LOW_RESOURCE_CRITICAL, B_LOW_RESOURCE_WARNING.
    destruct (Z.eqb_spec state 3); [by rewrite (decide_True (P := state = 3))|].
    rewrite (decide_False (P := state = 3)) by done.
    destruct (Z.eqb_spec state 2); [by rewrite (decide_True (P := state = 2))|].
    by rewrite (decide_False (P := state = 2)). }
  intros x Hx Hsp. destruct (Hcalls x Hx Hsp) as [Hin Hcall]. split; [done|]. cbn zeta in Hcall.
  destruct (compute_low_state m s0 (h_resources x.2) Hl) as [Hr2 Hiff]. rewrite Hw1 in Hr2, Hiff.
  cbn zeta. unfold B_NO_LOW_RESOURCE.
  destruct (decide (Z.land (h_resources x.2) (sLowResources (compute_state m s0)) = 0)) as [Hz|Hz].
  { by rewrite (decide_True (P := worst (h_resources x.2) (supplies m s) = 0)) by lia. }
  rewrite (decide_False (P := worst (h_resources x.2) (supplies m s) = 0)) by (apply Hiff in Hz; lia).
  destruct Hcall as (level & -> & Hlev). eexists. split; [done|]. split_and!; try done.
  intros Hq. cbn. rewrite (Hlev Hq), no_update_low, Hw1 by done. done.
Qed.

(** A handler is registered behind those of the same or a higher
    priority and before those of a lower one; removing it by function and
    data gives the list from before; removing an unknown handler returns
    ENOENT, and without memory registration returns ENOMEM, both without a
    change. *)
Lemma low_handler_registration malloc f d r p L s :
  handlers_ok L s → (∀ live a, malloc live = Some a → a ∉ live) →
  Forall (fun x => ¬ matches f d x) L →
  unregister_low_resource_handler f d s = Ret (- ENOENT, s) ∧
  match malloc (dom (blocks s)) with
  | None => register_low_resource_handler malloc f d r p s = Ret (- ENOMEM, s)
  | Some a => ∃ L1 L2 s1 s2,
      register_low_resource_handler malloc f d r p s = Ret (0, s1) ∧ L = L1 ++ L2 ∧
      handlers_ok (L1 ++ (a, mkHandler f d r p) :: L2) s1 ∧
      Forall (fun x => p <= h_priority x.2) L1 ∧ Forall (fun x => h_priority x.2 < p) L2 ∧
      unregister_low_resource_handler f d s1 = Ret (0, s2) ∧ handlers_ok L s2
  end.
Proof.
  intros [Hs Ho] Hf Hm. split.
  { destruct (unregister_ok f d L s Hs) as [[-> _]|(L1 & x & L2 & s' & _ & -> & Hx & _)]; [done|].
    apply Forall_app in Hm as [_ [Hm _]%Forall_cons]. by destruct Hm. }
  case_match eqn:Ea; [|by apply register_failed].
  destruct (register_ok malloc f d r p L s _ Hs Ea (Hf _ _ Ea)) as
    (L1 & L2 & s1 & E1 & -> & Hs1 & H2 & H1 & _).
  pose proof (sorted_insert L1 L2 z (mkHandler f d r p) Ho H2 H1) as Ho1.
  apply Forall_app in Hm as [Hm1 Hm2].
  destruct (unregister_ok f d _ s1 Hs1) as [[_ Hn]|(K1 & x & K2 & s2 & E2 & EK & Hx & Hn & Hs2 & _)].
  { apply Forall_app in Hn as [_ [Hn _]%Forall_cons]. by destruct Hn. }
  assert (K1 = L1 ∧ K2 = L2) as [-> ->].
  { apply app_eq_inv in EK as [(k & -> & Ek)|(k & -> & Ek)].
    - destruct k as [|y k]; [by injection Ek as E1' E2'; subst; rewrite ?app_nil_r|]. injection Ek as E1' E2'. subst.
      apply Forall_app in Hm1 as [_ [Hy _]%Forall_cons]. by destruct Hy.
    - destruct k as [|y k]; [by injection Ek as E1' E2'; subst; rewrite ?app_nil_r|]. injection Ek as E1' E2'. subst.
      apply Forall_app in Hn as [_ [Hy _]%Forall_cons]. by destruct Hy. }
  exists L1, L2, s1, s2. split_and!; try done. destruct H1 as [-> |(L0 & y & -> & Hy)]; [done|].
  apply Forall_forall. intros x' Hx'. rewrite elem_of_app, list_elem_of_singleton in Hx'.
  destruct Hx' as [Hx'| ->]; [|done]. unfold sorted in Ho. rewrite <- app_assoc in Ho.
  apply StronglySorted_app in Ho as (Ho & _). specialize (Ho x' y Hx' ltac:(set_solver)). lia.
Qed.

End low_resource.

(** ** Examples *)
Module LowExample.

#[local] Instance milliseconds : TimeUnits := {| SECONDS n := n * 1000; MILLISECS n := n |}.

(** Three handlers; the second handles address space only. *)
Definition handlers0 : list (Z * low_resource_handler) :=
  [(101, mkHandler 1 10 3 10); (102, mkHandler 2 20 8 5); (103, mkHandler 3 30 15 5)].
Definition low0 : lowstate :=
  low_resource_manager_init 65536
    (mkLow (list_to_map handlers0) [101; 102; 103] 0 0 0 0 0 0 0 0 0 0 {[77]} []).
(** 50 free pages, all else plenty. *)
Definition few_pages : measurement := mkMeasure 2000 50 200000000 1024 10 1000000000.
Definition plenty : measurement := mkMeasure 2000 50000 200000000 1024 10 1000000000.

Definition malloc0 (live : gset Z) : option Z :=
  if decide (200 ∈ live) then None else Some 200.
(** While the first handler runs, one of a higher and one of a lower priority are
    registered and the second is removed. *)
Definition busy : list window :=
  [mkWindow [] [OpRegister malloc0 4 40 1 20; OpUnregister 2 20; OpState plenty 1]].

Lemma malloc0_fresh live a : malloc0 live = Some a → a ∉ live.
Proof. unfold malloc0. case_decide; [done|]. by intros [= <-]. Qed.

Lemma handlers0_ok : handlers_ok handlers0 low0.
Proof.
  split; [split; [reflexivity| |reflexivity]|].
  - apply (bool_decide_unpack _). vm_compute. exact I.
  - repeat constructor; cbn; lia.
Qed.

Lemma limits0 : limits_ok low0.
Proof. apply init_limits. lia. Qed.

Lemma low_resource_state_correct_witness :
  low_resource_state few_pages 3 low0 =
    (B_LOW_RESOURCE_WARNING, (low_resource_state few_pages 3 low0).2) ∧
  worst 3 (supplies few_pages low0) = 2.
Proof.
  pose proof (low_resource_state_correct few_pages 3 low0 limits0) as H.
  destruct (low_resource_state few_pages 3 low0) as [state s'] eqn:E.
  rewrite decide_True in H by (vm_compute; reflexivity). destruct H as [-> _].
  split; [|vm_compute; reflexivity]. f_equal.
Defined.

Lemma low_resource_round_correct_witness : ∃ timeout' s' cs L',
  low_resource_manager_round 5 900 few_pages busy 0 low0 = Ret (timeout', s') ∧
  handlers_ok L' s' ∧ calls s' = cs ∧ waiters s' = ∅ ∧ timeout' = 1000.
Proof.
  destruct (low_resource_round_correct 900 few_pages busy 0 handlers0 low0 5) as
    (timeout' & s' & cs & L' & H1 & H2 & H3 & _ & H4).
  - exact handlers0_ok.
  - exact limits0.
  - vm_compute. discriminate.
  - repeat constructor; try exact malloc0_fresh; try discriminate.
    intros f d. apply not_elem_of_nil.
  - vm_compute. lia.
  - cbv zeta in H4. rewrite decide_False in H4 by (vm_compute; discriminate).
    destruct H4 as (H4 & H5 & _). exists timeout', s', cs, L'.
    split; [exact H1|]. split; [exact H2|]. split; [exact H3|]. split; [exact H4|].
    rewrite H5. vm_compute. reflexivity.
Defined.

Lemma low_handler_registration_witness : ∃ L1 L2 s1 s2,
  register_low_resource_handler malloc0 4 40 1 7 low0 = Ret (0, s1) ∧ handlers0 = L1 ++ L2 ∧
  unregister_low_resource_handler 4 40 s1 = Ret (0, s2) ∧ handlers_ok handlers0 s2.
Proof.
  destruct (low_handler_registration malloc0 4 40 1 7 handlers0 low0 handlers0_ok malloc0_fresh)
    as [_ H].
  - repeat constructor; intros [H _]; discriminate.
  - change (malloc0 (dom (blocks low0))) with (Some 200) in H. cbv iota beta in H.
    destruct H as (L1 & L2 & s1 & s2 & H1 & H2 & _ & _ & _ & H3 & H4).
    exists L1, L2, s1, s2. split; [exact H1|]. split; [exact H2|]. split; [exact H3|exact H4].
Defined.

(** [call_handlers] reads the handler after it has dropped the lock: when another
    thread removes it in between, the freed handler is used. *)
Lemma handler_used_after_free :
  call_handlers 5 900 15 [mkWindow [OpUnregister 1 10] []] low0 = Panic.
Proof. vm_compute. reflexivity. Qed.

(** A round that finds nothing short does not wake the threads in [low_resource]. *)
Lemma waiter_not_notified :
  (low_resource_manager_round 5 900 plenty [] 0 low0 = Ret (0, (compute_state plenty
    (low0 <| wait_sem ::= fun n => Z.max 0 (n - 1) |>)))) ∧
  77 ∈ waiters (compute_state plenty (low0 <| wait_sem ::= fun n => Z.max 0 (n - 1) |>)).
Proof. split; [vm_compute; reflexivity|vm_compute; reflexivity]. Qed.

End LowExample.
