(* ===== verification/OomKiller.v ===== *)
(** * The out of memory killer (slab/mm_low_mem_framework.cpp)

    [select_task_to_kill] scores the tasks by the memory they use; trusted
    applications (TAs) are scored together with all tasks of the same UUID, with
    marks on the tasks ([oom_cycle]) that keep the scan linear.  The theorem says
    whom the scan selects, without marks.  The list of teams, signals and the
    clock belong to the task manager: the list is a list of tasks, a signal is an
    entry in the log [signals], and what [send_signal_to_task] returns is a
    parameter, as are the constants of core/task.h. *)
From stdpp Require Import base gmap list.
From Stdlib Require Import ZArith Lia.
From S2P Require Import Prelude VMState.
Local Open Scope Z_scope.

(** core/task.h *)
Class TaskConstants := {
  B_SYSTEM_TEAM : Z;
  TEAM_STATE_NORMAL : Z;
  TEAM_FLAG_CRITICAL : Z;
  PRIVILEGE_PARTNER : Z;
  PRIVILEGE_PLATFORM : Z
}.

Section oom.
Context {TC : TaskConstants} {TU : TimeUnits}.

Definition kOomKillGracePeriod : Z := SECONDS 2.

(** What is used of an area and of an address space with its translation map. *)
Record oom_area := mkOomArea { oa_cache_type : cache_type; oa_size : Z }.
Record oom_space := mkOomSpace { os_areas : list oom_area; os_MappedSize : Z }.

Record task := mkTask {
  t_uuid : Z;
  t_comm_scm : Z;
  t_privilege : Z;
  t_state : Z;
  t_flags : Z;
  t_oom_cycle : Z;
  t_sigkill_pending : bool;
  t_space : option oom_space
}.
#[global] Instance eta_task : Eta task := fun t =>
  mkTask (t_uuid t) (t_comm_scm t) (t_privilege t) (t_state t) (t_flags t) (t_oom_cycle t)
    (t_sigkill_pending t) (t_space t).

(** [tasks]: by id, [teams]: the ids in the order of the team list. *)
Record oomstate := mkOom {
  tasks : gmap Z task;
  teams : list Z;
  last_oom_kill : Z;
  current_oom_cycle : Z;
  oom_kill_in_progress : bool;
  oom_waiters : gset Z;
  signals : list Z
}.
#[global] Instance eta_oomstate : Eta oomstate := fun s =>
  mkOom (tasks s) (teams s) (last_oom_kill s) (current_oom_cycle s) (oom_kill_in_progress s)
    (oom_waiters s) (signals s).

Definition team_is_ta (t : task) : bool := 0 <? t_comm_scm t.

Definition team_map_count (t : task) : Z :=
  match t_space t with Some sp => u64 (os_MappedSize sp) | None => 0 end.

Fixpoint total_vm_loop (areas : list oom_area) (count : Z) : Z :=
  match areas with
  | [] => count
  | a :: areas =>
      if decide (oa_cache_type a ≠ CACHE_TYPE_RAM) then total_vm_loop areas count
      else total_vm_loop areas (u64 (count + oa_size a / PAGE_SIZE))
  end.

Definition team_total_vm (t : task) : Z :=
  match t_space t with Some sp => total_vm_loop (os_areas sp) 0 | None => 0 end.

Definition team_kill_score (t : task) : Z :=
  if negb (t_state t =? TEAM_STATE_NORMAL) then 0
  else
    let score := u64 (0 + team_total_vm t) in
    u64 (score + team_map_count t).

Definition mark (cycle id : Z) (s : oomstate) : oomstate :=
  s <| tasks ::= alter (fun t => t <| t_oom_cycle := cycle |>) id |>.

Fixpoint score_by_uuid_loop (uuid : Z) (ids : list Z) (score : Z) (s : oomstate) :
    outcome (Z * oomstate) :=
  match ids with
  | [] => Ret (score, s)
  | id :: ids =>
      t ← deref (tasks s !! id);
      if uuid =? t_uuid t then
        let s := mark (current_oom_cycle s) id s in
        score_by_uuid_loop uuid ids (u64 (score + team_kill_score t)) s
      else score_by_uuid_loop uuid ids score s
  end.

Definition team_score_by_uuid (uuid : Z) (s : oomstate) : outcome (Z * oomstate) :=
  score_by_uuid_loop uuid (teams s) 0 s.

Definition category_count : nat := 4.

Definition team_kill_category (t : task) : nat :=
  if negb (team_is_ta t) then 0
  else if t_privilege t =? PRIVILEGE_PLATFORM then 1
  else if t_privilege t =? PRIVILEGE_PARTNER then 2
  else 3.

Section signal.
(** What [send_signal_to_task] returns for a task. *)
Context (send : Z → Z).

Definition send_signal_to_task (id : Z) (s : oomstate) : Z * oomstate :=
  (send id, if send id =? 0 then s <| signals ::= fun l => l ++ [id] |> else s).

Fixpoint kill_loop (uuid : Z) (ids : list Z) (killed_count : Z) (s : oomstate) :
    outcome (Z * oomstate) :=
  match ids with
  | [] => Ret (killed_count, s)
  | id :: ids =>
      t ← deref (tasks s !! id);
      if uuid =? t_uuid t then
        let (r, s) := send_signal_to_task id s in
        kill_loop uuid ids (if r =? 0 then i32 (killed_count + 1) else killed_count) s
      else kill_loop uuid ids killed_count s
  end.

Definition kill_all_by_uuid (uuid : Z) (s : oomstate) : outcome (bool * oomstate) :=
  '(killed_count, s) ← kill_loop uuid (teams s) 0 s;
  Ret (negb (killed_count =? 0), s).

(** The best team and score of each category. *)
Abbreviation bests := (list (option Z * Z)).

Definition scan_task (id : Z) (best : bests) (s : oomstate) : outcome (bests * oomstate) :=
  t ← deref (tasks s !! id);
  if t_oom_cycle t =? current_oom_cycle s then Ret (best, s)
  else
    let s := mark (current_oom_cycle s) id s in
    if id =? B_SYSTEM_TEAM then Ret (best, s)
    else if negb (Z.land (t_flags t) TEAM_FLAG_CRITICAL =? 0) then Ret (best, s)
    else
      let category := team_kill_category t in
      '(score, s) ← (if team_is_ta t then team_score_by_uuid (t_uuid t) s
                     else Ret (team_kill_score t, s));
      if score =? 0 then Ret (best, s)
      else
        b ← deref (best !! category);
        if b.2 <? score then Ret (<[category := (Some id, score)]> best, s)
        else Ret (best, s).

Fixpoint scan_loop (ids : list Z) (best : bests) (s : oomstate) : outcome (bests * oomstate) :=
  match ids with
  | [] => Ret (best, s)
  | id :: ids =>
      '(best, s) ← scan_task id best s;
      scan_loop ids best s
  end.

Definition kill_team (id : Z) (s : oomstate) : outcome (bool * oomstate) :=
  t ← deref (tasks s !! id);
  if team_is_ta t then kill_all_by_uuid (t_uuid t) s
  else if (t_state t =? TEAM_STATE_NORMAL) && negb (t_sigkill_pending t) then
    let (r, s) := send_signal_to_task id s in
    if r =? 0 then Ret (true, s) else Ret (false, s)
  else Ret (false, s).

(** The loop over the categories from [i - 1] down to 0. *)
Fixpoint kill_best (i : nat) (best : bests) (s : oomstate) : outcome (bool * oomstate) :=
  match i with
  | O => Ret (true, s)
  | S i =>
      b ← deref (best !! i);
      match b.1 with
      | Some id => kill_team id s
      | None => kill_best i best s
      end
  end.

(** [now] and [now']: the two readings of the clock. *)
Definition select_task_to_kill (now now' : Z) (s : oomstate) : outcome (bool * oomstate) :=
  if now <? last_oom_kill s + kOomKillGracePeriod then Ret (false, s)
  else
    let s := s <| last_oom_kill := now' |> in
    let s := s <| current_oom_cycle := Z.max (u32 (current_oom_cycle s + 1)) 1 |> in
    '(best, s) ← scan_loop (teams s) (replicate category_count (None, 0)) s;
    kill_best category_count best s.

(** [self_killed]: SIGKILL is pending for the current task. *)
Definition oom_kill (now now' : Z) (self_killed : bool) (s : oomstate) : outcome oomstate :=
  if self_killed then Ret s
  else '(_, s) ← select_task_to_kill now now' s; Ret s.

(** The thread that gets [oom_mutex]. *)
Definition oom_kill_owner (now now' : Z) (self_killed : bool) (s : oomstate) : outcome oomstate :=
  let s := s <| oom_kill_in_progress := true |> in
  s ← oom_kill now now' self_killed s;
  let s := s <| oom_kill_in_progress := false |> in
  Ret (s <| oom_waiters := ∅ |>).

(** The other threads: each wake-up gives the error of the wait and whether a kill
    is still in progress when the lock is taken again.  The result says whether the
    wait ended without an error. *)
Fixpoint oom_wait (wakeups : list (Z * bool)) (in_progress : bool) : outcome bool :=
  if negb in_progress then Ret true
  else
    match wakeups with
    | [] => NoFuel
    | (error, in_progress) :: wakeups =>
        if negb (error =? 0) then Ret false else oom_wait wakeups in_progress
    end.

Definition pagefault_oom_kill (owner : bool) (now now' : Z) (self_killed : bool)
    (wakeups : list (Z * bool)) (s : oomstate) : outcome oomstate :=
  if owner then oom_kill_owner now now' self_killed s
  else _ ← oom_wait wakeups (oom_kill_in_progress s); Ret s.

(** [interrupted]: a kill signal is pending for the thread at the end. *)
Definition oom_kill_page_alloc_retry (owner : bool) (now now' : Z) (self_killed : bool)
    (wakeups : list (Z * bool)) (interrupted : bool) (s : oomstate) : outcome (bool * oomstate) :=
  if owner then
    s ← oom_kill_owner now now' self_killed s;
    Ret (negb interrupted, s)
  else
    r ← oom_wait wakeups (oom_kill_in_progress s);
    Ret (r, s).

End signal.

(** ** Whom the killer should select *)

(** The memory used by all tasks of a UUID. *)
Fixpoint uuid_sum (uuid : Z) (ts : gmap Z task) (ids : list Z) : Z :=
  match ids with
  | [] => 0
  | id :: ids =>
      match ts !! id with
      | Some t => if decide (t_uuid t = uuid) then team_kill_score t else 0
      | None => 0
      end + uuid_sum uuid ts ids
  end.

Definition score_of (s : oomstate) (t : task) : Z :=
  if team_is_ta t then u64 (uuid_sum (t_uuid t) (tasks s) (teams s)) else team_kill_score t.

Record candidate (s : oomstate) (id : Z) (t : task) : Prop := {
  ca_team : id ∈ teams s;
  ca_task : tasks s !! id = Some t;
  ca_system : id ≠ B_SYSTEM_TEAM;
  ca_flags : Z.land (t_flags t) TEAM_FLAG_CRITICAL = 0;
  ca_score : score_of s t ≠ 0
}.

(** The teams of the list exist; marks are of earlier cycles; a UUID that a TA has
    belongs to TAs of one privilege. *)
Record oom_ok (s : oomstate) : Prop := {
  ok_teams id : id ∈ teams s → is_Some (tasks s !! id);
  ok_cycle : 0 <= current_oom_cycle s < 2 ^ 32 - 1;
  ok_marks id t : tasks s !! id = Some t → t_oom_cycle t <= current_oom_cycle s;
  ok_uuid i1 t1 i2 t2 : tasks s !! i1 = Some t1 → tasks s !! i2 = Some t2 →
    team_is_ta t1 = true → t_uuid t1 = t_uuid t2 →
    team_is_ta t2 = true ∧ t_privilege t2 = t_privilege t1
}.

(** ** Marking *)
Definition marks (c : Z) (X : gset Z) (ts : gmap Z task) : gmap Z task :=
  map_imap (fun id t => Some (if decide (id ∈ X) then t <| t_oom_cycle := c |> else t)) ts.

(** [s] with the tasks of [X] marked. *)
Definition with_marks (X : gset Z) (s : oomstate) : oomstate :=
  s <| tasks := marks (current_oom_cycle s) X (tasks s) |>.

Lemma lookup_marks c X ts id :
  marks c X ts !! id = (fun t => if decide (id ∈ X) then t <| t_oom_cycle := c |> else t) <$> ts !! id.
Proof. unfold marks. rewrite map_lookup_imap. by destruct (ts !! id). Qed.

Lemma marks_empty c ts : marks c ∅ ts = ts.
Proof.
  apply map_eq. intros id. rewrite lookup_marks. destruct (ts !! id); cbn; [|done].
  by rewrite decide_False by set_solver.
Qed.

Lemma mark_with X s id :
  mark (current_oom_cycle (with_marks X s)) id (with_marks X s) = with_marks ({[id]} ∪ X) s.
Proof.
  unfold mark, with_marks. destruct s as [ts tm l c p w sg]. cbn. unfold update. cbn. f_equal.
  apply map_eq. intros i. rewrite lookup_marks. destruct (decide (i = id)) as [-> |Hn].
  - rewrite lookup_alter_eq, lookup_marks. destruct (ts !! id) as [t|]; cbn; [|done].
    rewrite (decide_True (P := id ∈ {[id]} ∪ X)) by set_solver. by case_decide.
  - rewrite lookup_alter_ne, lookup_marks by done. destruct (ts !! i) as [t|]; cbn; [|done].
    f_equal.
    destruct (decide (i ∈ X)); [by rewrite decide_True by set_solver|by rewrite decide_False by set_solver].
Qed.

Lemma lookup_with X s id t : tasks s !! id = Some t →
  ∃ t', tasks (with_marks X s) !! id = Some t' ∧ t_uuid t' = t_uuid t ∧
    team_kill_score t' = team_kill_score t ∧ team_is_ta t' = team_is_ta t ∧
    team_kill_category t' = team_kill_category t ∧ t_flags t' = t_flags t ∧
    t_state t' = t_state t ∧ t_sigkill_pending t' = t_sigkill_pending t ∧
    t_oom_cycle t' = if decide (id ∈ X) then current_oom_cycle s else t_oom_cycle t.
Proof.
  intros E. eexists. cbn. rewrite lookup_marks, E. split; [done|]. by case_decide.
Qed.

Lemma u64_add_l a b : u64 (u64 a + b) = u64 (a + b).
Proof. rewrite !u64_eq. apply Zplus_mod_idemp_l. Qed.

(** The tasks of a UUID. *)
Definition of_uuid (s : oomstate) (uuid id : Z) : Prop :=
  ∃ t, tasks s !! id = Some t ∧ t_uuid t = uuid.

Lemma score_by_uuid_loop_ok uuid ids s : ∀ X score,
  (∀ id, id ∈ ids → is_Some (tasks s !! id)) →
  ∃ X', score_by_uuid_loop uuid ids (u64 score) (with_marks X s) =
      Ret (u64 (score + uuid_sum uuid (tasks s) ids), with_marks X' s) ∧
    ∀ id, id ∈ X' ↔ id ∈ X ∨ (id ∈ ids ∧ of_uuid s uuid id).
Proof.
  induction ids as [|id ids IH]; intros X score Hids.
  { exists X. cbn. rewrite Z.add_0_r. split; [done|]. set_solver. }
  destruct (Hids id) as [t Et]; [set_solver|].
  destruct (lookup_with X s id t Et) as (t' & Et' & Eu & Ek & _).
  cbn [score_by_uuid_loop uuid_sum]. rewrite Et', Et. cbn [deref mbind outcome_bind]. rewrite Eu, Ek.
  destruct (Z.eqb_spec uuid (t_uuid t)) as [E|E].
  - rewrite decide_True by done. rewrite mark_with, u64_add_l.
    destruct (IH ({[id]} ∪ X) (score + team_kill_score t)) as (X' & -> & HX'); [set_solver|].
    exists X'. rewrite Z.add_assoc. split; [done|]. intros i. rewrite HX', elem_of_cons.
    assert (of_uuid s uuid id) by (by exists t). set_solver.
  - rewrite decide_False by done. destruct (IH X score) as (X' & -> & HX'); [set_solver|].
    exists X'. split; [done|]. intros i. rewrite HX', elem_of_cons.
    assert (¬ of_uuid s uuid id) by (intros (t0 & E0 & ?); simplify_eq). set_solver.
Qed.

(** ** The scan *)
Section scan.
Context (s : oomstate).
Context (Hteams : ∀ id, id ∈ teams s → is_Some (tasks s !! id)).
Context (Hold : ∀ id t, tasks s !! id = Some t → t_oom_cycle t ≠ current_oom_cycle s).
Context (Huuid : ∀ i1 t1 i2 t2, tasks s !! i1 = Some t1 → tasks s !! i2 = Some t2 →
    team_is_ta t1 = true → t_uuid t1 = t_uuid t2 →
    team_is_ta t2 = true ∧ t_privilege t2 = t_privilege t1).

Record best_ok (X : gset Z) (best : list (option Z * Z)) : Prop := {
  bo_length : length best = category_count;
  bo_none c score : best !! c = Some (None, score) → score = 0;
  bo_sound c id score : best !! c = Some (Some id, score) →
    ∃ t, candidate s id t ∧ team_kill_category t = c ∧ score_of s t = score;
  bo_complete id t : id ∈ X → candidate s id t →
    ∃ b, best !! team_kill_category t = Some b ∧ score_of s t <= b.2
}.

Lemma score_nonneg t : 0 <= score_of s t.
Proof using Type.
  unfold score_of, team_kill_score. repeat case_match; try lia; apply wrap_fits; lia.
Qed.

Lemma category_lt t : (team_kill_category t < 4)%nat.
Proof using Type. unfold team_kill_category. repeat case_match; lia. Qed.

(** Tasks of one UUID are in one category with one score. *)
Lemma group_same i1 t1 i2 t2 : tasks s !! i1 = Some t1 → tasks s !! i2 = Some t2 →
  team_is_ta t1 = true → t_uuid t1 = t_uuid t2 →
  team_kill_category t2 = team_kill_category t1 ∧ score_of s t2 = score_of s t1.
Proof using Huuid.
  intros E1 E2 Hta Hu. destruct (Huuid _ _ _ _ E1 E2 Hta Hu) as [Hta2 Hp].
  unfold team_kill_category, score_of. by rewrite Hta, Hta2, Hp, Hu.
Qed.

Lemma best_ok_more X X' best : best_ok X best →
  (∀ id t, id ∈ X' → candidate s id t → id ∈ X) → best_ok X' best.
Proof using Type. intros [A B C D] H. split; try done. intros id t Hin Hc. eauto. Qed.

(** A team is scored: the marks now cover others of its category and score. *)
Lemma best_ok_scored X X' best id t b : best_ok X best → candidate s id t →
  (∀ i ti, i ∈ X' → candidate s i ti →
    i ∈ X ∨ (team_kill_category ti = team_kill_category t ∧ score_of s ti = score_of s t)) →
  best !! team_kill_category t = Some b →
  best_ok X' (if b.2 <? score_of s t then <[team_kill_category t := (Some id, score_of s t)]> best
    else best).
Proof using Type.
  intros [A B C D] Hc HX Hb. assert (Hl : (team_kill_category t < length best)%nat).
  { rewrite A. apply category_lt. }
  destruct (Z.ltb_spec b.2 (score_of s t)) as [Hlt|Hge].
  - split.
    + by rewrite length_insert.
    + intros c score. rewrite list_lookup_insert. case_decide; [|apply B]. by intros [= ].
    + intros c i score. rewrite list_lookup_insert. case_decide as Hd; [|apply C].
      destruct Hd as [<- _]. intros [= <- <-]. by exists t.
    + intros i ti Hi Hci. rewrite list_lookup_insert. case_decide as Hd.
      * eexists. split; [done|]. cbn. destruct Hd as [Hd _].
        destruct (HX i ti Hi Hci) as [Hx|[_ ->]]; [|lia].
        destruct (D i ti Hx Hci) as (b' & Eb & Hle). rewrite <- Hd in Eb. simplify_eq. lia.
      * destruct (HX i ti Hi Hci) as [Hx|[Hcat _]]; [by apply (D i)|].
        destruct Hd. by rewrite Hcat.
  - split; try done. intros i ti Hi Hci. destruct (HX i ti Hi Hci) as [Hx|[-> ->]]; [by apply (D i)|].
    exists b. split; [done|lia].
Qed.

Lemma scan_task_ok id X best : id ∈ teams s → best_ok X best →
  ∃ best' X', scan_task id best (with_marks X s) = Ret (best', with_marks X' s) ∧
    id ∈ X' ∧ X ⊆ X' ∧ best_ok X' best'.
Proof using All.
  intros Hid Hb. destruct (Hteams id Hid) as [t Et].
  destruct (lookup_with X s id t Et) as (t' & Et' & Eu & Ek & Eta & Ecat & Ef & _ & _ & Ec).
  unfold scan_task. rewrite Et'. cbn [deref mbind outcome_bind]. rewrite Ec.
  change (current_oom_cycle (with_marks X s)) with (current_oom_cycle s).
  case_decide as Hx.
  { rewrite Z.eqb_refl. exists best, X. done. }
  destruct (Z.eqb_spec (t_oom_cycle t) (current_oom_cycle s)) as [E|_]; [by destruct (Hold id t Et)|].
  change (current_oom_cycle s) with (current_oom_cycle (with_marks X s)). rewrite mark_with.
  assert (Hskip : ¬ candidate s id t → ∃ best' X',
    Ret (best, with_marks ({[id]} ∪ X) s) = Ret (best', with_marks X' s) ∧
    id ∈ X' ∧ X ⊆ X' ∧ best_ok X' best').
  { intros Hn. exists best, ({[id]} ∪ X). split; [done|]. split; [set_solver|]. split; [set_solver|].
    apply (best_ok_more X); [done|]. intros i ti [->%elem_of_singleton|Hi]%elem_of_union Hci; [|done].
    destruct Hn. by assert (ti = t) as <- by (pose proof (ca_task _ _ _ Hci); congruence). }
  destruct (Z.eqb_spec id B_SYSTEM_TEAM) as [Hs|Hs]; [apply Hskip; by intros []|].
  rewrite Ef. destruct (Z.eqb_spec (Z.land (t_flags t) TEAM_FLAG_CRITICAL) 0) as [Hf|Hf]; cbn [negb];
    [|apply Hskip; by intros []].
  rewrite Eta, Ek, Eu, Ecat.
  assert (Hscore : ∃ X2, (if team_is_ta t then team_score_by_uuid (t_uuid t) (with_marks ({[id]} ∪ X) s)
      else Ret (team_kill_score t, with_marks ({[id]} ∪ X) s)) = Ret (score_of s t, with_marks X2 s) ∧
    id ∈ X2 ∧ X ⊆ X2 ∧ ∀ i ti, i ∈ X2 → candidate s i ti →
      i ∈ X ∨ (team_kill_category ti = team_kill_category t ∧ score_of s ti = score_of s t)).
  { assert (Hself : ∀ ti, tasks s !! id = Some ti → team_kill_category ti = team_kill_category t ∧
      score_of s ti = score_of s t) by (intros ti Ei; by simplify_eq).
    unfold score_of at 1. destruct (team_is_ta t) eqn:Hta.
    - destruct (score_by_uuid_loop_ok (t_uuid t) (teams s) s ({[id]} ∪ X) 0 Hteams) as (X2 & E & HX2).
      exists X2. split; [exact E|]. split; [apply HX2; set_solver|]. split; [set_solver|].
      intros i ti Hi Hci. apply HX2 in Hi as [Hi|(_ & t2 & E2 & Hu)].
      + apply elem_of_union in Hi as [->%elem_of_singleton|?]; [right|by left]. apply Hself, Hci.
      + right. assert (ti = t2) as -> by (pose proof (ca_task _ _ _ Hci); congruence).
        by apply (group_same id t i t2).
    - exists ({[id]} ∪ X). split; [done|]. split; [set_solver|]. split; [set_solver|].
      intros i ti [->%elem_of_singleton|Hi]%elem_of_union Hci; [right; apply Hself, Hci|by left]. }
  destruct Hscore as (X2 & -> & Hin & Hsub & HX2). cbn [mbind outcome_bind].
  destruct (Z.eqb_spec (score_of s t) 0) as [Hz|Hz].
  { exists best, X2. split_and!; try done. apply (best_ok_more X); [done|].
    intros i ti Hi Hci. destruct (HX2 i ti Hi Hci) as [?|[_ Hsc]]; [done|].
    destruct (ca_score _ _ _ Hci). congruence. }
  destruct (lookup_lt_is_Some_2 best (team_kill_category t)) as [b Eb].
  { rewrite (bo_length _ _ Hb). apply category_lt. }
  rewrite Eb. cbn [deref mbind outcome_bind].
  pose proof (best_ok_scored X X2 best id t b Hb ltac:(by split) HX2 Eb) as Hb'.
  case_match; eexists _, X2; done.
Qed.

Lemma scan_loop_ok ids : ∀ X best, (∀ id, id ∈ ids → id ∈ teams s) → best_ok X best →
  ∃ best' X', scan_loop ids best (with_marks X s) = Ret (best', with_marks X' s) ∧
    (∀ id, id ∈ ids → id ∈ X') ∧ X ⊆ X' ∧ best_ok X' best'.
Proof using All.
  induction ids as [|id ids IH]; intros X best Hids Hb.
  { exists best, X. split_and!; try done. intros id Hi. by apply elem_of_nil in Hi. }
  destruct (scan_task_ok id X best) as (b1 & X1 & E1 & Hin & Hsub & Hb1); [set_solver|done|].
  destruct (IH X1 b1) as (b2 & X2 & E2 & Hin2 & Hsub2 & Hb2); [set_solver|done|].
  exists b2, X2. cbn [scan_loop]. rewrite E1. cbn [mbind outcome_bind]. split; [done|].
  split; [set_solver|]. split; [set_solver|done].
Qed.

End scan.

(** ** The kill *)
Section kill.
Context (send : Z → Z).

Definition uuid_teams (s : oomstate) (uuid : Z) : list Z :=
  filter (fun id => t_uuid <$> tasks s !! id = Some uuid) (teams s).

(** The tasks to which a signal can be sent. *)
Definition reached (ids : list Z) : list Z := filter (fun id => send id = 0) ids.

Definition log_signals (ids : list Z) (s : oomstate) : oomstate :=
  s <| signals ::= fun l => l ++ reached ids |>.

Lemma log_signals_cons ids id s : log_signals ids ((send_signal_to_task send id s).2) = log_signals (id :: ids) s.
Proof.
  unfold log_signals, send_signal_to_task, reached, update. destruct s. cbn [snd]. rewrite filter_cons.
  destruct (Z.eqb_spec (send id) 0); cbn.
  - rewrite decide_True by done. by rewrite <- app_assoc.
  - by rewrite decide_False by done.
Qed.

Lemma kill_loop_ok uuid ids : ∀ n s, (∀ id, id ∈ ids → is_Some (tasks s !! id)) →
  0 <= n → n + Z.of_nat (length ids) < 2147483648 →
  let hit := filter (fun id => t_uuid <$> tasks s !! id = Some uuid) ids in
  kill_loop send uuid ids n s = Ret (n + Z.of_nat (length (reached hit)), log_signals hit s).
Proof.
  induction ids as [|id ids IH]; intros n s Hids Hn Hl; cbv zeta.
  { cbn. rewrite Z.add_0_r. unfold log_signals, update. destruct s. cbn. by rewrite app_nil_r. }
  destruct (Hids id) as [t Et]; [set_solver|]. rewrite length_cons in Hl.
  cbn [kill_loop]. rewrite Et. cbn [deref mbind outcome_bind].
  destruct (Z.eqb_spec uuid (t_uuid t)) as [E|E].
  - rewrite filter_cons_True by (rewrite Et; cbn; by subst).
    set (hit := filter _ ids). destruct (send_signal_to_task send id s) as [r s1] eqn:Es.
    assert (r = send id) as -> by (unfold send_signal_to_task in Es; congruence).
    assert (s1 = (send_signal_to_task send id s).2) as -> by by rewrite Es.
    assert (Et1 : ∀ i, tasks ((send_signal_to_task send id s).2) !! i = tasks s !! i).
    { intros i. unfold send_signal_to_task. cbn. by case_match. }
    rewrite IH; [|intros i Hi; rewrite Et1; apply Hids; set_solver| |].
    2: { case_match; [rewrite i32_small; lia|lia]. }
    2: { case_match; [rewrite i32_small; lia|lia]. }
    assert (Hf : filter (fun id0 => t_uuid <$> tasks ((send_signal_to_task send id s).2) !! id0 = Some uuid) ids = hit).
    { apply list_filter_iff. intros i. by rewrite Et1. }
    rewrite Hf, log_signals_cons. f_equal. f_equal. unfold reached. rewrite filter_cons.
    destruct (Z.eqb_spec (send id) 0); [rewrite decide_True, i32_small by (done || lia)|by rewrite decide_False by done].
    cbn [length]. lia.
  - rewrite filter_cons_False by (rewrite Et; cbn; congruence).
    apply IH; [set_solver|lia|lia].
Qed.

Lemma kill_best_ok i best s : (i <= length best)%nat →
  (∃ c id score, (c < i)%nat ∧ best !! c = Some (Some id, score) ∧
    (∀ c', (c < c' < i)%nat → ∃ score', best !! c' = Some (None, score')) ∧
    kill_best send i best s = kill_team send id s) ∨
  ((∀ c, (c < i)%nat → ∃ score, best !! c = Some (None, score)) ∧ kill_best send i best s = Ret (true, s)).
Proof.
  induction i as [|i IH]; intros Hi; [right; split; [lia|done]|].
  destruct (lookup_lt_is_Some_2 best i) as [[[id|] score] Eb]; [lia| |];
    cbn [kill_best]; rewrite Eb; cbn [deref mbind outcome_bind fst].
  - left. exists i, id, score. split; [lia|]. split; [done|]. split; [|done]. intros c' Hc. lia.
  - destruct IH as [(c & id & sc & Hc & Ec & Hn & E)|[Hn E]]; [lia|left|right].
    + exists c, id, sc. split; [lia|]. split; [done|]. split; [|done].
      intros c' Hc'. destruct (decide (c' = i)) as [-> |]; [by eexists|]. apply Hn. lia.
    + split; [|done]. intros c Hc. destruct (decide (c = i)) as [-> |]; [by eexists|]. apply Hn. lia.
Qed.

Definition victims (s : oomstate) (id : Z) (t : task) : list Z :=
  if team_is_ta t then uuid_teams s (t_uuid t)
  else if decide (t_state t = TEAM_STATE_NORMAL ∧ t_sigkill_pending t = false) then [id] else [].

Lemma kill_team_ok id t s : (∀ i, i ∈ teams s → is_Some (tasks s !! i)) →
  Z.of_nat (length (teams s)) < 2147483648 → tasks s !! id = Some t →
  kill_team send id s =
    Ret (bool_decide (reached (victims s id t) ≠ []), log_signals (victims s id t) s).
Proof.
  intros Ht Hl E. unfold kill_team, victims. rewrite E. cbn [deref mbind outcome_bind].
  destruct (team_is_ta t).
  - unfold kill_all_by_uuid. rewrite kill_loop_ok by (done || lia). cbn [mbind outcome_bind].
    fold (uuid_teams s (t_uuid t)). f_equal. f_equal.
    destruct (reached (uuid_teams s (t_uuid t))) as [|x l]; [done|]. cbn [length].
    rewrite bool_decide_true by done. by destruct (Z.eqb_spec (0 + Z.of_nat (S (length l))) 0); [lia|].
  - assert (Hnil : log_signals [] s = s).
    { unfold log_signals, update. destruct s. cbn. by rewrite app_nil_r. }
    destruct (Z.eqb_spec (t_state t) TEAM_STATE_NORMAL) as [E1|E1]; cbn [andb].
    2: { rewrite decide_False by tauto. by rewrite Hnil. }
    destruct (t_sigkill_pending t); cbn [negb].
    { rewrite decide_False by naive_solver. by rewrite Hnil. }
    rewrite decide_True by done. rewrite <- log_signals_cons.
    destruct (send_signal_to_task send id s) as [r s1] eqn:Es.
    assert (r = send id) as -> by (unfold send_signal_to_task in Es; congruence). cbn [snd].
    assert (Hnil1 : log_signals [] s1 = s1).
    { unfold log_signals, update. destruct s1. cbn. by rewrite app_nil_r. }
    rewrite Hnil1. unfold reached. rewrite filter_cons, filter_nil.
    destruct (Z.eqb_spec (send id) 0); [by rewrite decide_True|by rewrite decide_False].
Qed.

End kill.

Lemma next_cycle_fresh s : oom_ok s →
  Z.max (u32 (current_oom_cycle s + 1)) 1 = current_oom_cycle s + 1.
Proof. intros [_ Hc _ _]. rewrite wrap_small by (unfold fits; lia). lia. Qed.

Lemma best_ok_start s : best_ok s ∅ (replicate category_count (None, 0)).
Proof.
  split.
  - by rewrite length_replicate.
  - by intros c score [[= ->] _]%lookup_replicate_1.
  - intros c id score [[=] _]%lookup_replicate_1.
  - set_solver.
Qed.

(** The choice of [kill_best] is a best candidate. *)
Lemma best_choice s best X c id score : (∀ i, i ∈ teams s → i ∈ X) → best_ok s X best →
  best !! c = Some (Some id, score) →
  (∀ c', (c < c' < category_count)%nat → ∃ score', best !! c' = Some (None, score')) →
  ∃ v, candidate s id v ∧ ∀ i t, candidate s i t →
    (team_kill_category t <= team_kill_category v)%nat ∧
    (team_kill_category t = team_kill_category v → score_of s t <= score_of s v).
Proof.
  intros HX [A B C D] Eb Hn. destruct (C c id score Eb) as (v & Hv & <- & <-). exists v. split; [done|].
  intros i t Hc. destruct (D i t (HX i (ca_team _ _ _ Hc)) Hc) as (b & Eb' & Hle).
  split; [|intros Hcat; rewrite Hcat, Eb in Eb'; by injection Eb' as <-].
  destruct (decide (team_kill_category t <= team_kill_category v)%nat) as [|Hgt]; [done|].
  destruct (Hn (team_kill_category t)) as [score' E']; [pose proof (category_lt t); unfold category_count; lia|].
  assert (b = (None, score')) as -> by congruence. apply B in E' as ->. cbn in Hle.
  pose proof (score_nonneg s t). pose proof (ca_score _ _ _ Hc). lia.
Qed.

Lemma select_ok send now now' s : oom_ok s → Z.of_nat (length (teams s)) < 2147483648 →
  if decide (now < last_oom_kill s + kOomKillGracePeriod)
  then select_task_to_kill send now now' s = Ret (false, s)
  else ∃ r s', select_task_to_kill send now now' s = Ret (r, s') ∧
    last_oom_kill s' = now' ∧ teams s' = teams s ∧
    (∀ id t, tasks s' !! id = Some t → t_oom_cycle t <= current_oom_cycle s') ∧
    (((∀ id t, ¬ candidate s id t) ∧ r = true ∧ signals s' = signals s) ∨
     ∃ id v, candidate s id v ∧
      (∀ i t, candidate s i t → (team_kill_category t <= team_kill_category v)%nat ∧
        (team_kill_category t = team_kill_category v → score_of s t <= score_of s v)) ∧
      signals s' = signals s ++ reached send (victims s id v) ∧
      r = bool_decide (reached send (victims s id v) ≠ [])).
Proof.
  intros Hok Hl. unfold select_task_to_kill.
  destruct (Z.ltb_spec now (last_oom_kill s + kOomKillGracePeriod)) as [Hlt|Hge];
    [by rewrite decide_True|rewrite decide_False by lia]. cbn zeta.
  set (s0 := s <| last_oom_kill := now' |>).
  change (current_oom_cycle s0) with (current_oom_cycle s). rewrite next_cycle_fresh by done.
  set (s1 := s0 <| current_oom_cycle := _ |>). destruct Hok as [Ht Hc Hm Hu].
  assert (Hcand : ∀ id t, candidate s1 id t ↔ candidate s id t) by (intros id t; split; by intros []).
  assert (Hw : s1 = with_marks ∅ s1).
  { unfold with_marks, update. destruct s1. cbn. by rewrite marks_empty. }
  destruct (scan_loop_ok s1 Ht) with (ids := teams s1) (X := ∅ : gset Z)
    (best := replicate category_count (None : option Z, 0)) as (best & X & E & HX & _ & Hb).
  { intros id t Eid. cbn. specialize (Hm id t Eid). lia. } { exact Hu. } { done. } { apply best_ok_start. }
  rewrite <- Hw in E. rewrite E. cbn [mbind outcome_bind].
  assert (HtX : ∀ i, i ∈ teams (with_marks X s1) → is_Some (tasks (with_marks X s1) !! i)).
  { intros i Hi. destruct (Ht i Hi) as [t Et]. destruct (lookup_with X s1 i t Et) as (t' & -> & _). eauto. }
  assert (HmX : ∀ id t, tasks (with_marks X s1) !! id = Some t → t_oom_cycle t <= current_oom_cycle s1).
  { intros id t Et. destruct (tasks s1 !! id) as [t0|] eqn:E0.
    - destruct (lookup_with X s1 id t0 E0) as (t' & Et' & _ & _ & _ & _ & _ & _ & _ & Ecy).
      assert (t' = t) as -> by congruence. rewrite Ecy. case_decide; [lia|]. specialize (Hm id t0 E0). cbn. lia.
    - cbn in Et, E0. rewrite lookup_marks, E0 in Et. done. }
  destruct (kill_best_ok send category_count best (with_marks X s1)) as
    [(c & id & score & _ & Eb & Hn & ->)|[Hn ->]].
  { by rewrite (bo_length _ _ _ Hb). }
  - destruct (best_choice s1 best X c id score HX Hb Eb Hn) as (v & Hv & Hbest).
    destruct (lookup_with X s1 id v (ca_task _ _ _ Hv)) as (v' & Ev' & V1 & _ & V2 & _ & _ & V3 & V4 & _).
    rewrite (kill_team_ok send id v') by done.
    assert (Hvic : victims (with_marks X s1) id v' = victims s id v).
    { unfold victims. rewrite V1, V2, V3, V4. destruct (team_is_ta v); [|done].
      unfold uuid_teams. apply list_filter_iff. intros i. cbn. rewrite lookup_marks.
      destruct (tasks s !! i); cbn; [|done]. by case_decide. }
    rewrite Hvic. eexists _, _. split; [done|]. split; [done|]. split; [done|]. split; [exact HmX|].
    right. exists id, v. split; [by apply Hcand|]. split; [|done].
    intros i t Hi. apply (Hbest i t). by apply Hcand.
  - eexists _, _. split; [done|]. split; [done|]. split; [done|]. split; [exact HmX|].
    left. split; [|done]. intros id t Hca. apply Hcand in Hca.
    destruct (bo_complete _ _ _ Hb id t (HX id (ca_team _ _ _ Hca)) Hca) as (b & Eb & Hle).
    destruct (Hn (team_kill_category t) (category_lt t)) as [score E'].
    assert (b = (None, score)) as -> by congruence. apply (bo_none _ _ _ Hb) in E' as ->. cbn in Hle.
    pose proof (score_nonneg s1 t). pose proof (ca_score _ _ _ Hca). lia.
Qed.

Lemma select_returns send now now' s : oom_ok s → Z.of_nat (length (teams s)) < 2147483648 →
  ∃ r s', select_task_to_kill send now now' s = Ret (r, s').
Proof.
  intros Hok Hl. pose proof (select_ok send now now' s Hok Hl) as H. case_decide; [by eexists _, _|].
  destruct H as (r & s' & E & _). eauto.
Qed.

(** C29: The out of memory killer, where the TAs of one UUID have the same
    privilege and no other task has their UUID, and fewer than 2^31 tasks
    and 2^32 - 1 rounds: within the grace period nothing happens. Otherwise
    the scan with its marks selects a task that is neither the kernel nor
    critical, of the highest category (public before partner before platform
    TAs before applications) and with the most memory in it, where a TA
    counts with all tasks of its UUID. All tasks of the UUID (or the
    application, unless it is dying already), and no others, are sent the
    signal; the critical ones among them too, although the comment says that
    they are not killed (see the findings for line 178). If no task
    qualifies, none is sent. *)
Theorem oom_kill_selects send now now' s : oom_ok s → Z.of_nat (length (teams s)) < 2147483648 →
  if decide (now < last_oom_kill s + kOomKillGracePeriod)
  then select_task_to_kill send now now' s = Ret (false, s)
  else ∃ r s', select_task_to_kill send now now' s = Ret (r, s') ∧
    last_oom_kill s' = now' ∧ teams s' = teams s ∧
    (∀ id t, tasks s' !! id = Some t → t_oom_cycle t <= current_oom_cycle s') ∧
    (((∀ id t, ¬ candidate s id t) ∧ r = true ∧ signals s' = signals s) ∨
     ∃ id v, candidate s id v ∧
      (∀ i t, candidate s i t → (team_kill_category t <= team_kill_category v)%nat ∧
        (team_kill_category t = team_kill_category v → score_of s t <= score_of s v)) ∧
      signals s' = signals s ++ reached send (victims s id v) ∧
      r = bool_decide (reached send (victims s id v) ≠ [])).
Proof. apply select_ok. Qed.

(** The thread that has [oom_mutex] ends the round for all that wait. *)
Lemma oom_owner_finishes send now now' self_killed s :
  oom_ok s → Z.of_nat (length (teams s)) < 2147483648 →
  ∃ s', oom_kill_owner send now now' self_killed s = Ret s' ∧
    oom_kill_in_progress s' = false ∧ oom_waiters s' = ∅.
Proof.
  intros Hok Hl. unfold oom_kill_owner, oom_kill. set (s0 := s <| oom_kill_in_progress := true |>). cbn zeta.
  destruct self_killed; [by eexists|].
  pose proof (select_returns send now now' s0) as H.
  destruct H as (r & s' & ->); [by destruct Hok|done|]. by eexists.
Qed.

End oom.

(** ** Examples *)
Module OomExample.

#[local] Instance constants : TaskConstants :=
  {| B_SYSTEM_TEAM := 1; TEAM_STATE_NORMAL := 0; TEAM_FLAG_CRITICAL := 4;
     PRIVILEGE_PARTNER := 1; PRIVILEGE_PLATFORM := 2 |}.
#[local] Instance milliseconds : TimeUnits := {| SECONDS n := n * 1000; MILLISECS n := n |}.

Definition task_space (pages : Z) : option oom_space :=
  Some (mkOomSpace [mkOomArea CACHE_TYPE_RAM (pages * 4096); mkOomArea CACHE_TYPE_VNODE 40960] pages).
(** The kernel, a large application, two instances of a public TA, of which one is
    critical, a larger partner TA. *)
Definition tasks0 : gmap Z task :=
  {[ 1 := mkTask 0 0 0 0 0 0 false (task_space 9000);
     2 := mkTask 0 0 0 0 0 0 false (task_space 5000);
     3 := mkTask 77 1 0 0 0 0 false (task_space 10);
     4 := mkTask 77 1 0 0 4 0 false (task_space 20);
     5 := mkTask 88 1 1 0 0 0 false (task_space 800) ]}.
Definition oom0 : oomstate := mkOom tasks0 [1; 2; 3; 4; 5] 0 0 false ∅ [].

Lemma oom0_ok : oom_ok oom0.
Proof.
  split.
  - intros id Hid. repeat (apply elem_of_cons in Hid as [-> |Hid]; [vm_compute; eauto|]).
    by apply elem_of_nil in Hid.
  - vm_compute. split; [discriminate|reflexivity].
  - intros id t. revert id t. apply (map_Forall_to_list (fun _ t => t_oom_cycle t <= 0) tasks0).
    apply (bool_decide_unpack _). vm_compute. exact I.
  - intros i1 t1 i2 t2 E1 E2 Hta Hu.
    assert (H : map_Forall (fun _ t1 => map_Forall (fun _ t2 =>
      bool_decide (team_is_ta t1 = true ∧ t_uuid t1 = t_uuid t2) = true →
      team_is_ta t2 = true ∧ t_privilege t2 = t_privilege t1) tasks0) tasks0).
    { apply (bool_decide_unpack _). vm_compute. exact I. }
    apply (H i1 t1 E1 i2 t2 E2). by apply bool_decide_eq_true_2.
Qed.

Lemma oom_kill_selects_witness : ∃ r s', select_task_to_kill (fun _ => 0) 2000 2001 oom0 = Ret (r, s') ∧
  signals s' = [3; 4].
Proof.
  pose proof (oom_kill_selects (fun _ => 0) 2000 2001 oom0 oom0_ok ltac:(vm_compute; reflexivity)) as H.
  rewrite decide_False in H by (vm_compute; discriminate).
  destruct H as (r & s' & E & _). exists r, s'. split; [exact E|].
  vm_compute in E. injection E as _ <-. reflexivity.
Defined.

(** Critical tasks are not selected, but [kill_all_by_uuid] kills those that share
    the UUID of the victim. *)
Lemma critical_task_killed : ∃ s', select_task_to_kill (fun _ => 0) 2000 2001 oom0 = Ret (true, s') ∧
  4 ∈ signals s' ∧ (∃ t, tasks oom0 !! 4 = Some t ∧ Z.land (t_flags t) TEAM_FLAG_CRITICAL ≠ 0).
Proof.
  eexists. split; [vm_compute; reflexivity|]. split; [cbn; set_solver|].
  eexists. split; [vm_compute; reflexivity|]. vm_compute. discriminate.
Qed.

End OomExample.
