(* ===== verification/AddressSpaceRefs.v ===== *)
(** * References to address spaces (aspace/VMAddressSpace.cpp, VMAddressSpace.h)

    An address space is found by the id of its team in a table and through the
    areas in it; it is deleted when its last reference is given back.  [Put] drops
    the count and looks the space up again by id in a critical section of its own,
    so that others can find it in between.  Every area has a reference to its
    space, taken after the area was entered into the table of areas
    (map_backing_store) and given back after it was removed from there
    (delete_area).  The operations are actions of any number of threads, each as
    atomic as in the code. *)
From stdpp Require Import base gmap list relations.
From Stdlib Require Import ZArith Lia.
From S2P Require Import Prelude.
Local Open Scope Z_scope.

(** [owned]: the reference of the team, which [Create] returns and
    [RemoveAndPut] gives back, is still there. *)
Record VMAddressSpace := mkSpace { fID : Z; fRefCount : Z; fDeleting : bool; owned : bool }.
#[global] Instance eta_VMAddressSpace : Eta VMAddressSpace := fun S =>
  mkSpace (fID S) (fRefCount S) (fDeleting S) (owned S).

(** Where a thread is between two atomic steps. *)
Inductive pc :=
  | Idle
  | Adding (id a : Z) (* map_backing_store: the area can be found, its Get comes next *)
  | Dropping (id a : Z) (removing : bool) (* delete_area: the area cannot be found
                         any more, its Put comes next; in vm_delete_areas or not *)
  | Removing (a : Z)  (* RemoveAndPut: in vm_delete_areas *)
  | Deleting (id : Z) (* Put: before _DeleteIfUnreferenced *)
  | Freeing (a : Z).  (* _DeleteIfUnreferenced: before delete *)
#[global] Instance pc_eq_dec : EqDecision pc.
Proof. solve_decision. Defined.

(** Who a reference belongs to. *)
Inductive holder := HThread (t : Z) | HArea (id : Z).
#[global] Instance holder_eq_dec : EqDecision holder.
Proof. solve_decision. Defined.

(** [held]: the references that threads and areas have, as pairs of holder and
    space; [area_spaces]: the table of areas with the space of each. *)
Record refsys := mkRefs {
  spaces : gmap Z VMAddressSpace;
  sAddressSpaceTable : gmap Z Z;
  area_spaces : gmap Z Z;
  held : list (holder * Z);
  pcs : gmap Z pc
}.
#[global] Instance eta_refsys : Eta refsys := fun s =>
  mkRefs (spaces s) (sAddressSpaceTable s) (area_spaces s) (held s) (pcs s).

Definition goto (t : Z) (p : pc) (s : refsys) : refsys := s <| pcs ::= <[t := p]> |>.
Definition at_pc (t : Z) (s : refsys) : pc := default Idle (pcs s !! t).

(** ** The operations *)
Definition Get (a : Z) (s : refsys) : outcome refsys :=
  S ← deref (spaces s !! a);
  Ret (s <| spaces ::= <[a := S <| fRefCount := i32 (fRefCount S + 1) |>]> |>).

Definition hold (h : holder) (a : Z) (s : refsys) : refsys := s <| held ::= cons (h, a) |>.

Definition ENOMEM : Z := 12.

(** [Create]: [new] is what new returns, [map_status] what creating the translation
    map returns; [InsertUnchecked] happens under the lock of the table. *)
Definition Create (teamID : Z) (new : option Z) (map_status : Z) (s : refsys) : outcome (Z * refsys) :=
  match new with
  | None => Ret (- ENOMEM, s)
  | Some a =>
      let s := s <| spaces ::= <[a := mkSpace teamID 1 false true]> |> in
      if negb (map_status =? 0) then Ret (map_status, s <| spaces ::= delete a |>)
      else Ret (0, s <| sAddressSpaceTable ::= <[teamID := a]> |>)
  end.

Definition Get_team (t teamID : Z) (s : refsys) : outcome refsys :=
  match sAddressSpaceTable s !! teamID with
  | Some a => s ← Get a s; Ret (hold (HThread t) a s)
  | None => Ret s
  end.

Definition GetAddressSpaceByAreaID (t id : Z) (s : refsys) : outcome refsys :=
  match area_spaces s !! id with
  | Some a => s ← Get a s; Ret (hold (HThread t) a s)
  | None => Ret s
  end.

(** [Get] of a space that the thread can use already. *)
Definition Get_held (t a : Z) (s : refsys) : outcome refsys :=
  s ← Get a s; Ret (hold (HThread t) a s).

(** The decrement of [Put]; [next] is where the thread goes on. *)
Definition Put_count (t a : Z) (next : pc) (s : refsys) : outcome refsys :=
  S ← deref (spaces s !! a);
  let s := s <| spaces ::= <[a := S <| fRefCount := i32 (fRefCount S - 1) |>]> |> in
  Ret (goto t (if fRefCount S =? 1 then Deleting (fID S) else next) s).

Fixpoint remove_one (x : holder * Z) (l : list (holder * Z)) : list (holder * Z) :=
  match l with
  | [] => []
  | y :: l => if decide (y = x) then l else y :: remove_one x l
  end.

Definition Put (t a : Z) (s : refsys) : outcome refsys :=
  Put_count t a Idle (s <| held ::= remove_one (HThread t, a) |>).

(** [RemoveAndPut]: the space is marked, its areas are deleted, the reference of
    the team is given back. *)
Definition RemoveAndPut_begin (t a : Z) (s : refsys) : outcome refsys :=
  S ← deref (spaces s !! a);
  Ret (goto t (Removing a) (s <| spaces ::= <[a := S <| fDeleting := true |>]> |>)).

Definition RemoveAndPut_end (t a : Z) (s : refsys) : outcome refsys :=
  S ← deref (spaces s !! a);
  Put_count t a Idle (s <| spaces ::= <[a := S <| owned := false |>]> |>).

(** The critical section of [_DeleteIfUnreferenced]. *)
Definition DeleteIfUnreferenced (t id : Z) (s : refsys) : outcome refsys :=
  match sAddressSpaceTable s !! id with
  | Some a =>
      S ← deref (spaces s !! a);
      if fRefCount S =? 0
      then Ret (goto t (Freeing a) (s <| sAddressSpaceTable ::= delete id |>))
      else Ret (goto t Idle s)
  | None => Ret (goto t Idle s)
  end.

Definition Free (t a : Z) (s : refsys) : outcome refsys :=
  _ ← deref (spaces s !! a);
  Ret (goto t Idle (s <| spaces ::= delete a |>)).

(** Areas come and go under the write lock of the space: [map_backing_store]
    checks that the space is not being deleted and enters the area into the table,
    then takes the reference of the area. *)
Definition add_area (t id a : Z) (s : refsys) : outcome refsys :=
  S ← deref (spaces s !! a);
  if fDeleting S then Ret s
  else Ret (goto t (Adding id a) (s <| area_spaces ::= <[id := a]> |>)).
Definition add_area_get (t id a : Z) (s : refsys) : outcome refsys :=
  s ← Get a s; Ret (goto t Idle (hold (HArea id) a s)).

(** [delete_area] takes the area out of the table, gives back its reference and
    goes on using the space. *)
Definition delete_area (t id : Z) (s : refsys) : outcome refsys :=
  a ← deref (area_spaces s !! id);
  Ret (goto t (Dropping id a (bool_decide (at_pc t s = Removing a)))
         (s <| area_spaces ::= delete id |>)).
Definition delete_area_put (t id a : Z) (removing : bool) (s : refsys) : outcome refsys :=
  s ← Put_count t a (if removing then Removing a else Idle) (s <| held ::= remove_one (HArea id, a) |>);
  _ ← deref (spaces s !! a); (* addressSpace->DeleteArea *)
  Ret s.

Inductive action :=
  | ACreate (t id : Z) (new : option Z) (map_status : Z)
  | AGetTeam (t id : Z)
  | AGetArea (t id : Z)
  | AGet (t a : Z)
  | APut (t a : Z)
  | AAddArea (t id a : Z)
  | AAddGet (t id a : Z)
  | ADeleteArea (t id : Z)
  | ADeletePut (t id a : Z) (removing : bool)
  | ARemoveBegin (t a : Z)
  | ARemoveEnd (t a : Z)
  | ADelete (t id : Z)
  | AFree (t a : Z).

Definition perform (x : action) (s : refsys) : outcome refsys :=
  match x with
  | ACreate t id new st => x ← Create id new st s; Ret x.2
  | AGetTeam t id => Get_team t id s
  | AGetArea t id => GetAddressSpaceByAreaID t id s
  | AGet t a => Get_held t a s
  | APut t a => Put t a s
  | AAddArea t id a => add_area t id a s
  | AAddGet t id a => add_area_get t id a s
  | ADeleteArea t id => delete_area t id s
  | ADeletePut t id a removing => delete_area_put t id a removing s
  | ARemoveBegin t a => RemoveAndPut_begin t a s
  | ARemoveEnd t a => RemoveAndPut_end t a s
  | ADelete t id => DeleteIfUnreferenced t id s
  | AFree t a => Free t a s
  end.

(** A space can be used by a thread that has a reference, and by the threads of the
    team until [RemoveAndPut]. *)
Definition usable (t a : Z) (s : refsys) : Prop :=
  (HThread t, a) ∈ held s ∨ ∃ S, spaces s !! a = Some S ∧ owned S = true.

(** The count has room for one more reference. *)
Definition room (s : refsys) : Prop := Z.of_nat (length (held s)) < 2147483646.

(** The space whose write lock a thread has while it adds or deletes an area, and
    the one it removes. *)
Definition area_lock (p : pc) : option Z :=
  match p with Adding _ a | Dropping _ a _ => Some a | _ => None end.
Definition remover (p : pc) : option Z :=
  match p with Removing a | Dropping _ a true => Some a | _ => None end.

Definition unlocked (a : Z) (s : refsys) : Prop := ∀ t, area_lock (at_pc t s) ≠ Some a.

(** When threads do what: new objects are at unused addresses; team ids are unique,
    and so are the ids of areas; a thread gives back references it has;
    [RemoveAndPut] is called once; the write lock of a space excludes others. *)
Definition allowed (x : action) (s : refsys) : Prop :=
  match x with
  | ACreate t id new _ => at_pc t s = Idle ∧ sAddressSpaceTable s !! id = None ∧
      match new with Some a => spaces s !! a = None | None => True end
  | AGetTeam t _ | AGetArea t _ => at_pc t s = Idle ∧ room s
  | AGet t a => at_pc t s = Idle ∧ room s ∧ usable t a s
  | APut t a => at_pc t s = Idle ∧ (HThread t, a) ∈ held s
  | AAddArea t id a => at_pc t s = Idle ∧ usable t a s ∧ unlocked a s ∧
      area_spaces s !! id = None ∧ (∀ b, (HArea id, b) ∉ held s)
  | AAddGet t id a => at_pc t s = Adding id a ∧ room s
  | ADeleteArea t id => ∃ a, area_spaces s !! id = Some a ∧ unlocked a s ∧
      (at_pc t s = Idle ∧ usable t a s ∨ at_pc t s = Removing a)
  | ADeletePut t id a removing => at_pc t s = Dropping id a removing
  | ARemoveBegin t a => at_pc t s = Idle ∧ unlocked a s ∧
      ∃ S, spaces s !! a = Some S ∧ owned S = true ∧ fDeleting S = false
  | ARemoveEnd t a => at_pc t s = Removing a ∧ unlocked a s ∧ ∀ id, area_spaces s !! id ≠ Some a
  | ADelete t id => at_pc t s = Deleting id
  | AFree t a => at_pc t s = Freeing a
  end.

Definition ref_step (s s' : refsys) : Prop := ∃ x, allowed x s ∧ perform x s = Ret s'.
Definition ref_init : refsys := mkRefs ∅ ∅ ∅ [] ∅.
Definition reachable (s : refsys) : Prop := rtc ref_step ref_init s.

(** ** The invariant *)
Definition refs_to (a : Z) (l : list (holder * Z)) : Z :=
  Z.of_nat (length (filter (fun p => p.2 = a) l)).

Record ref_inv (s : refsys) : Prop := {
  ri_count a S : spaces s !! a = Some S →
    fRefCount S = refs_to a (held s) + if owned S then 1 else 0;
  ri_held h a : (h, a) ∈ held s → is_Some (spaces s !! a);
  ri_bound : Z.of_nat (length (held s)) <= 2147483646;
  ri_table id a : sAddressSpaceTable s !! id = Some a → ∃ S, spaces s !! a = Some S ∧ fID S = id;
  ri_listed a S : spaces s !! a = Some S →
    sAddressSpaceTable s !! fID S = Some a ∨ ∃ t, at_pc t s = Freeing a;
  ri_freeing t a : at_pc t s = Freeing a →
    ∃ S, spaces s !! a = Some S ∧ fRefCount S = 0 ∧ sAddressSpaceTable s !! fID S ≠ Some a;
  ri_once t t' a : at_pc t s = Freeing a → at_pc t' s = Freeing a → t = t';
  ri_zero a S : spaces s !! a = Some S → fRefCount S = 0 →
    sAddressSpaceTable s !! fID S = Some a → ∃ t, at_pc t s = Deleting (fID S);
  ri_area id a : area_spaces s !! id = Some a → (HArea id, a) ∈ held s ∨ ∃ t, at_pc t s = Adding id a;
  ri_adding t id a : at_pc t s = Adding id a → area_spaces s !! id = Some a ∧ usable t a s;
  ri_dropping t id a r : at_pc t s = Dropping id a r →
    (HArea id, a) ∈ held s ∧ area_spaces s !! id ≠ Some a ∧ usable t a s;
  ri_lock t t' a : area_lock (at_pc t s) = Some a → area_lock (at_pc t' s) = Some a → t = t';
  ri_alive a S : spaces s !! a = Some S → fDeleting S = false → owned S = true;
  ri_removing t a : remover (at_pc t s) = Some a →
    ∃ S, spaces s !! a = Some S ∧ owned S = true ∧ fDeleting S = true;
  ri_removing_once t t' a : remover (at_pc t s) = Some a → remover (at_pc t' s) = Some a → t = t'
}.

Lemma refs_to_nonneg a l : 0 <= refs_to a l.
Proof. unfold refs_to. lia. Qed.

Lemma refs_to_le a l : refs_to a l <= Z.of_nat (length l).
Proof. unfold refs_to. pose proof (length_filter (fun p => p.2 = a) l). lia. Qed.

Lemma refs_to_cons a t b l : refs_to a ((t, b) :: l) = refs_to a l + if decide (b = a) then 1 else 0.
Proof. unfold refs_to. rewrite filter_cons. cbn. case_decide; cbn [length]; lia. Qed.

Lemma refs_to_elem t a l : (t, a) ∈ l → 0 < refs_to a l.
Proof.
  induction l as [|[t' b] l IH]; intros Hin; [by apply elem_of_nil in Hin|]. rewrite refs_to_cons.
  pose proof (refs_to_nonneg a l).
  apply elem_of_cons in Hin as [[= <- <-]|Hin]; [rewrite decide_True by done; lia|].
  specialize (IH Hin). case_decide; lia.
Qed.

Lemma refs_to_remove a t b l : (t, b) ∈ l →
  refs_to a (remove_one (t, b) l) = refs_to a l - if decide (b = a) then 1 else 0.
Proof.
  induction l as [|[t' b'] l IH]; intros Hin; [by apply elem_of_nil in Hin|]. cbn [remove_one].
  rewrite refs_to_cons. destruct (decide ((t', b') = (t, b))) as [[= -> ->]|Hd]; [lia|].
  apply elem_of_cons in Hin as [Hin|Hin]; [by destruct Hd|]. rewrite refs_to_cons, IH by done. lia.
Qed.

Lemma remove_one_elem x y l : y ∈ remove_one x l → y ∈ l.
Proof.
  induction l as [|z l IH]; cbn; [done|]. case_decide; [set_solver|].
  rewrite !elem_of_cons. naive_solver.
Qed.

Lemma remove_one_other x y l : y ≠ x → y ∈ l → y ∈ remove_one x l.
Proof.
  intros Hn. induction l as [|z l IH]; cbn; [done|]. case_decide; rewrite !elem_of_cons; naive_solver.
Qed.

Lemma remove_one_length x l : (length (remove_one x l) <= length l)%nat.
Proof. induction l as [|z l IH]; cbn; [lia|]. case_decide; cbn; lia. Qed.

Lemma at_goto t p s t' : at_pc t' (goto t p s) = if decide (t' = t) then p else at_pc t' s.
Proof.
  unfold at_pc, goto. cbn. case_decide; [subst; by rewrite lookup_insert_eq|by rewrite lookup_insert_ne].
Qed.

(** A space with references, or whose team is there, is not being freed. *)
Lemma used_listed s a S : ref_inv s → spaces s !! a = Some S → 0 < fRefCount S →
  sAddressSpaceTable s !! fID S = Some a ∧ ∀ t, at_pc t s ≠ Freeing a.
Proof.
  intros Hi E Hp. assert (Hf : ∀ t, at_pc t s ≠ Freeing a).
  { intros t Ht. destruct (ri_freeing s Hi t a Ht) as (S' & E' & Hz & _). simplify_eq. lia. }
  split; [|done]. destruct (ri_listed s Hi a S E) as [?|[t Ht]]; [done|by destruct (Hf t)].
Qed.

Lemma held_count_pos s h a : ref_inv s → (h, a) ∈ held s → ∃ S, spaces s !! a = Some S ∧ 0 < fRefCount S.
Proof.
  intros Hi Hh. destruct (ri_held s Hi h a Hh) as [S E]. exists S. split; [done|].
  rewrite (ri_count s Hi a S E). pose proof (refs_to_elem h a _ Hh). case_match; lia.
Qed.

Lemma used_count_pos s t a : ref_inv s → usable t a s → ∃ S, spaces s !! a = Some S ∧ 0 < fRefCount S.
Proof.
  intros Hi [Hh|(S & E & Ho)].
  - by eapply held_count_pos.
  - exists S. split; [done|]. rewrite (ri_count s Hi a S E), Ho. pose proof (refs_to_nonneg a (held s)). lia.
Qed.

Lemma count_room s a S : ref_inv s → spaces s !! a = Some S → 0 <= fRefCount S <= 2147483647.
Proof.
  intros Hi E. rewrite (ri_count s Hi a S E). pose proof (refs_to_nonneg a (held s)).
  pose proof (refs_to_le a (held s)). pose proof (ri_bound s Hi). case_match; lia.
Qed.

(** One space changes, in its count and its flags, while a thread goes from [p] to
    [p'], neither of them freeing a space; [lost] is the reference given back. *)
Record space_change (t a : Z) (p p' : pc) (S S' : VMAddressSpace) (lost : option (holder * Z))
    (s s' : refsys) : Prop := {
  sc_old : spaces s !! a = Some S;
  sc_used : ∀ t', at_pc t' s ≠ Freeing a;
  sc_new : spaces s' = <[a := S']> (spaces s);
  sc_id : fID S' = fID S;
  sc_table : sAddressSpaceTable s' = sAddressSpaceTable s;
  sc_areas : area_spaces s' = area_spaces s;
  sc_pcs t' : at_pc t' s' = if decide (t' = t) then p' else at_pc t' s;
  sc_from : at_pc t s = p;
  sc_held h b : (h, b) ∈ held s' → b = a ∨ (h, b) ∈ held s;
  sc_keep x : x ∈ held s → lost ≠ Some x → x ∈ held s';
  sc_lost x : lost = Some x → x = (HThread t, a) ∨ ∃ id r, x = (HArea id, a) ∧ p = Dropping id a r;
  sc_bound : Z.of_nat (length (held s')) <= 2147483646;
  sc_others b : b ≠ a → refs_to b (held s') = refs_to b (held s);
  sc_count : fRefCount S' = refs_to a (held s') + if owned S' then 1 else 0;
  sc_places : (∀ b, p ≠ Freeing b) ∧ (∀ id, p ≠ Deleting id) ∧ (∀ b, p' ≠ Freeing b) ∧ area_lock p' = None;
  sc_zero : fRefCount S' = 0 → p' = Deleting (fID S);
  sc_adding id b : p = Adding id b → (HArea id, b) ∈ held s';
  sc_owned : owned S = true → owned S' = true ∨ unlocked a s;
  sc_alive : fDeleting S' = false → owned S' = true;
  sc_remover b : remover p' = Some b → remover p = Some b ∨ b = a ∧ ∀ t', remover (at_pc t' s) ≠ Some a;
  sc_removing t' : remover (if decide (t' = t) then p' else at_pc t' s) = Some a →
    owned S' = true ∧ fDeleting S' = true
}.

Section space_change.
Context (t a : Z) (p p' : pc) (S S' : VMAddressSpace) (lost : option (holder * Z)) (s s' : refsys)
  (Hi : ref_inv s) (Hs : space_change t a p p' S S' lost s s').
#[local] Set Default Proof Using "Type*".

Lemma change_old b S1 : spaces s' !! b = Some S1 → (b = a ∧ S1 = S') ∨ (b ≠ a ∧ spaces s !! b = Some S1).
Proof. rewrite (sc_new _ _ _ _ _ _ _ _ _ Hs). intros [[<- <-]|[? ?]]%lookup_insert_Some; auto. Qed.

Lemma change_some b S1 : spaces s !! b = Some S1 →
  (b = a ∧ S1 = S ∧ spaces s' !! b = Some S') ∨ (b ≠ a ∧ spaces s' !! b = Some S1).
Proof.
  intros Hb. rewrite (sc_new _ _ _ _ _ _ _ _ _ Hs). pose proof (sc_old _ _ _ _ _ _ _ _ _ Hs) as E.
  destruct (decide (b = a)) as [-> |Hn].
  - left. rewrite lookup_insert_eq. split_and!; [done|congruence|done].
  - right. by rewrite lookup_insert_ne.
Qed.

Lemma change_freeing t' b : at_pc t' s' = Freeing b ↔ at_pc t' s = Freeing b.
Proof.
  rewrite (sc_pcs _ _ _ _ _ _ _ _ _ Hs). destruct (sc_places _ _ _ _ _ _ _ _ _ Hs) as (H1 & _ & H3 & _).
  case_decide; [subst|done]. rewrite (sc_from _ _ _ _ _ _ _ _ _ Hs). split; intros E; [by destruct (H3 b)|by destruct (H1 b)].
Qed.

(** A thread that holds the write lock of a space can go on using it. *)
Lemma change_usable t' b : t' ≠ t → area_lock (at_pc t' s) = Some b → usable t' b s → usable t' b s'.
Proof.
  intros Hn Hl [Hh|(S1 & E1 & Ho)].
  - left. apply (sc_keep _ _ _ _ _ _ _ _ _ Hs); [done|]. intros El.
    destruct (sc_lost _ _ _ _ _ _ _ _ _ Hs _ El) as [[= ? ?]|(? & ? & ? & _)]; congruence.
  - right. destruct (change_some b S1 E1) as [(-> & -> & E')|[_ E']]; [|eauto]. exists S'. split; [done|].
    destruct (sc_owned _ _ _ _ _ _ _ _ _ Hs Ho) as [|Hu]; [done|]. by destruct (Hu t').
Qed.

Lemma change_keep_area id b : (HArea id, b) ∈ held s →
  (∀ r, p ≠ Dropping id b r) → (HArea id, b) ∈ held s'.
Proof.
  intros Hh Hp. apply (sc_keep _ _ _ _ _ _ _ _ _ Hs); [done|]. intros El.
  destruct (sc_lost _ _ _ _ _ _ _ _ _ Hs _ El) as [|(id' & r & [= -> ->] & E)]; [done|]. by destruct (Hp r).
Qed.

Lemma change_areas :
  (∀ id b, area_spaces s' !! id = Some b → (HArea id, b) ∈ held s' ∨ ∃ t', at_pc t' s' = Adding id b) ∧
  (∀ t' id b, at_pc t' s' = Adding id b → area_spaces s' !! id = Some b ∧ usable t' b s') ∧
  (∀ t' id b r, at_pc t' s' = Dropping id b r →
    (HArea id, b) ∈ held s' ∧ area_spaces s' !! id ≠ Some b ∧ usable t' b s') ∧
  (∀ t1 t2 b, area_lock (at_pc t1 s') = Some b → area_lock (at_pc t2 s') = Some b → t1 = t2).
Proof.
  pose proof (sc_areas _ _ _ _ _ _ _ _ _ Hs) as Ea. pose proof (sc_pcs _ _ _ _ _ _ _ _ _ Hs) as Ep.
  pose proof (sc_from _ _ _ _ _ _ _ _ _ Hs) as Ef.
  destruct (sc_places _ _ _ _ _ _ _ _ _ Hs) as (_ & _ & _ & Hl). rewrite Ea. split_and!.
  - intros id b Hb. destruct (ri_area s Hi id b Hb) as [Hh|[t' Ht']].
    + left. apply change_keep_area; [done|]. intros r Hp. rewrite Hp in Ef.
      by destruct (ri_dropping s Hi t id b r Ef) as (_ & Hn & _).
    + destruct (decide (t' = t)) as [-> |Hn].
      * left. apply (sc_adding _ _ _ _ _ _ _ _ _ Hs). congruence.
      * right. exists t'. by rewrite Ep, decide_False.
  - intros t' id b. rewrite Ep. case_decide; [intros ->; done|]. intros Ht'.
    destruct (ri_adding s Hi t' id b Ht') as [? ?]. split; [done|]. apply change_usable; [done|by rewrite Ht'|done].
  - intros t' id b r. rewrite Ep. case_decide as Hn; [intros ->; done|]. intros Ht'.
    destruct (ri_dropping s Hi t' id b r Ht') as (Hh & ? & ?).
    split_and!; [|done|apply change_usable; [done|by rewrite Ht'|done]].
    apply change_keep_area; [done|]. intros r' Hp. destruct Hn. apply (ri_lock s Hi t' t b); [by rewrite Ht'|].
    by rewrite Ef, Hp.
  - intros t1 t2 b. rewrite !Ep. repeat case_decide; rewrite ?Hl; try done. apply (ri_lock s Hi).
Qed.

Lemma change_removing :
  (∀ t' b, remover (at_pc t' s') = Some b → ∃ S1, spaces s' !! b = Some S1 ∧ owned S1 = true ∧ fDeleting S1 = true) ∧
  (∀ t1 t2 b, remover (at_pc t1 s') = Some b → remover (at_pc t2 s') = Some b → t1 = t2).
Proof.
  pose proof (sc_pcs _ _ _ _ _ _ _ _ _ Hs) as Ep. pose proof (sc_from _ _ _ _ _ _ _ _ _ Hs) as Ef.
  pose proof (sc_remover _ _ _ _ _ _ _ _ _ Hs) as Hrm. split.
  - intros t' b Hr. destruct (decide (b = a)) as [-> |Hn].
    + rewrite Ep in Hr. exists S'. rewrite (sc_new _ _ _ _ _ _ _ _ _ Hs), lookup_insert_eq.
      split; [done|]. by apply (sc_removing _ _ _ _ _ _ _ _ _ Hs t').
    + assert (remover (at_pc t' s) = Some b) as Hr'.
      { rewrite Ep in Hr. case_decide; [subst t'|done]. destruct (Hrm b Hr) as [|[? _]]; [by rewrite Ef|done]. }
      destruct (ri_removing s Hi t' b Hr') as (S1 & E1 & ?).
      destruct (change_some b S1 E1) as [(-> & _)|[_ ->]]; [done|eauto].
  - assert (Hone : ∀ t2 b, t2 ≠ t → remover p' = Some b → remover (at_pc t2 s) = Some b → False).
    { intros t2 b Hn Hr Hr2. destruct (Hrm b Hr) as [Hr1|[-> Hno]]; [|by destruct (Hno t2)].
      destruct Hn. apply (ri_removing_once s Hi t2 t b Hr2). by rewrite Ef. }
    intros t1 t2 b. rewrite !Ep. repeat case_decide; subst; try done; intros H1 H2.
    + by destruct (Hone t2 b).
    + by destruct (Hone t1 b).
    + by apply (ri_removing_once s Hi _ _ b).
Qed.

Lemma space_change_inv : ref_inv s'.
Proof.
  pose proof change_freeing as Hf. pose proof change_old as Hold. pose proof change_some as Hsome.
  destruct change_areas as (A1 & A2 & A3 & A4). destruct change_removing as [R1 R2].
  pose proof (sc_table _ _ _ _ _ _ _ _ _ Hs) as Et. pose proof (sc_id _ _ _ _ _ _ _ _ _ Hs) as Eid.
  pose proof (sc_pcs _ _ _ _ _ _ _ _ _ Hs) as Ep. pose proof (sc_from _ _ _ _ _ _ _ _ _ Hs) as Ef.
  split; try done.
  - intros b S1 [[-> ->]|[Hn Hb1]]%Hold; [apply (sc_count _ _ _ _ _ _ _ _ _ Hs)|].
    rewrite (sc_others _ _ _ _ _ _ _ _ _ Hs) by done. by apply (ri_count s Hi).
  - intros h b [-> |Hin]%(sc_held _ _ _ _ _ _ _ _ _ Hs).
    { rewrite (sc_new _ _ _ _ _ _ _ _ _ Hs), lookup_insert_eq. by eexists. }
    destruct (ri_held s Hi h b Hin) as [S1 E1]. destruct (Hsome b S1 E1) as [(_ & _ & ->)|[_ ->]]; by eexists.
  - apply (sc_bound _ _ _ _ _ _ _ _ _ Hs).
  - intros id b. rewrite Et. intros (S1 & E1 & Hid)%(ri_table s Hi).
    destruct (Hsome b S1 E1) as [(_ & -> & ->)|[_ ->]]; eexists; split; [done|congruence|done|done].
  - intros b S1 Hb1. rewrite Et. setoid_rewrite Hf.
    destruct (Hold b S1 Hb1) as [[-> ->]|[_ Hb2]]; [|by apply (ri_listed s Hi)].
    rewrite Eid. apply (ri_listed s Hi), (sc_old _ _ _ _ _ _ _ _ _ Hs).
  - intros t' b Hfr%Hf. destruct (ri_freeing s Hi t' b Hfr) as (S1 & E1 & Hz1 & Hn1). rewrite Et.
    destruct (Hsome b S1 E1) as [(-> & _)|[_ ->]]; [by destruct (sc_used _ _ _ _ _ _ _ _ _ Hs t')|eauto].
  - intros t1 t2 b ?%Hf ?%Hf. by eapply (ri_once s Hi).
  - intros b S1 Hb1 Hz1. rewrite Et. destruct (Hold b S1 Hb1) as [[-> ->]|[_ Hb2]].
    + intros _. rewrite Eid. exists t. rewrite Ep, decide_True by done. by apply (sc_zero _ _ _ _ _ _ _ _ _ Hs).
    + intros Ht. destruct (ri_zero s Hi b S1 Hb2 Hz1 Ht) as [t' Hd1]. exists t'. rewrite Ep, decide_False; [done|].
      intros ->. destruct (sc_places _ _ _ _ _ _ _ _ _ Hs) as (_ & Hnd & _). destruct (Hnd (fID S1)). congruence.
  - intros b S1 [[-> ->]|[_ Hb2]]%Hold; [apply (sc_alive _ _ _ _ _ _ _ _ _ Hs)|by apply (ri_alive s Hi b)].
Qed.
End space_change.

Lemma at_other t p s t' : at_pc t s = p → at_pc t' s = if decide (t' = t) then p else at_pc t' s.
Proof. intros Hp. case_decide; by subst. Qed.

(** The count of a used space goes up: [h] gets a reference. *)
Lemma get_inv s t h p a S : ref_inv s → room s → spaces s !! a = Some S → 0 < fRefCount S ∨
  sAddressSpaceTable s !! fID S = Some a →
  at_pc t s = p → p = Idle ∨ (∃ id, p = Adding id a ∧ h = HArea id) →
  ∃ s', Get a s = Ret s' ∧ ref_inv (goto t Idle (hold h a s')).
Proof.
  intros Hi Hr E Ht Hp Hh. unfold Get. rewrite E. cbn [deref mbind outcome_bind]. eexists. split; [done|].
  pose proof (count_room s a S Hi E) as Hc. pose proof (ri_count s Hi a S E) as HcS.
  pose proof (refs_to_le a (held s)) as Hle. unfold room in Hr.
  assert (Hc' : fRefCount S + 1 <= 2147483647) by (destruct (owned S); lia).
  rewrite i32_small by lia.
  eapply (space_change_inv t a p Idle S (S <| fRefCount := fRefCount S + 1 |>) None s); [done|].
  split; try done; cbn.
  - destruct Ht as [Ht|Ht]; [by apply (used_listed s a S)|].
    intros t' Hf. destruct (ri_freeing s Hi t' a Hf) as (S' & E' & _ & Hn). simplify_eq.
  - intros t'. exact (at_goto _ _ _ t').
  - intros h' b [[= -> ->]|?]%elem_of_cons; auto.
  - intros x Hx _. by right.
  - lia.
  - intros b Hn. rewrite refs_to_cons, decide_False by done. lia.
  - rewrite refs_to_cons, decide_True by done. lia.
  - by destruct Hh as [->|(id & -> & _)].
  - lia.
  - intros id b ->. destruct Hh as [|(id' & [= -> ->] & ->)]; [done|left].
  - auto.
  - by apply (ri_alive s Hi a).
  - intros t'. case_decide; [done|]. intros Hrm.
    destruct (ri_removing s Hi t' a Hrm) as (S0 & E0 & ? & ?). by simplify_eq.
Qed.

(** A thread gives back a reference: its own, or that of the area it deletes. *)
Lemma put_inv s t p next a x : ref_inv s → at_pc t s = p → x ∈ held s →
  x = (HThread t, a) ∧ p = Idle ∧ next = Idle ∨
  (∃ id r, x = (HArea id, a) ∧ p = Dropping id a r ∧ next = if r then Removing a else Idle) →
  ∃ S s', spaces s !! a = Some S ∧ Put_count t a next (s <| held ::= remove_one x |>) = Ret s' ∧
    spaces s' !! a = Some (S <| fRefCount := fRefCount S - 1 |>) ∧ ref_inv s'.
Proof.
  intros Hi Hp Hx Hc. assert (x.2 = a) as Ha by (by destruct Hc as [[-> _]|(? & ? & -> & _)]).
  assert (Hxa : x = (x.1, a)) by (rewrite <- Ha; by destruct x).
  rewrite Hxa in Hx. destruct (held_count_pos s _ a Hi Hx) as (S & E & Hpos).
  unfold Put_count. cbn. rewrite E. cbn [deref mbind outcome_bind]. do 2 eexists. split; [done|]. split; [done|].
  pose proof (count_room s a S Hi E) as Hcr. pose proof (ri_count s Hi a S E) as HcS.
  destruct (used_listed s a S Hi E Hpos) as [Ht Hnf]. rewrite i32_small by lia.
  split; [cbn; by rewrite lookup_insert_eq|].
  assert (Hrem : ∀ b, remover next = Some b → remover p = Some b).
  { intros b. destruct Hc as [(_ & -> & ->)|(id & [] & _ & -> & ->)]; done. }
  eapply (space_change_inv t a p (if fRefCount S =? 1 then Deleting (fID S) else next) S
    (S <| fRefCount := fRefCount S - 1 |>) (Some x) s); [done|]. split; try done; cbn.
  - intros t'. exact (at_goto _ _ _ t').
  - intros h b Hb. right. by apply remove_one_elem in Hb.
  - intros y Hy Hne. apply remove_one_other; [|done]. congruence.
  - intros y [= <-]. destruct Hc as [[-> _]|(id & r & -> & -> & _)]; [by left|right; eauto].
  - pose proof (remove_one_length x (held s)). pose proof (ri_bound s Hi). lia.
  - intros b Hn. rewrite Hxa, refs_to_remove, decide_False by done. lia.
  - rewrite Hxa, refs_to_remove, decide_True by done. lia.
  - destruct Hc as [(_ & -> & ->)|(id & r & _ & -> & ->)]; split_and!; try done;
      destruct (fRefCount S =? 1); try done; by destruct r.
  - intros Hz. by destruct (Z.eqb_spec (fRefCount S) 1); [|lia].
  - intros id b ->. by destruct Hc as [(_ & ? & _)|(? & ? & _ & ? & _)].
  - auto.
  - by apply (ri_alive s Hi a).
  - intros b. destruct (fRefCount S =? 1); [done|]. auto.
  - intros t' Hr. assert (remover (at_pc t' s) = Some a) as Hrm.
    { case_decide; [subst t'|done]. rewrite Hp. destruct (fRefCount S =? 1); [done|auto]. }
    destruct (ri_removing s Hi t' a Hrm) as (S0 & E0 & ? & ?). by simplify_eq.
Qed.

Lemma remove_begin_inv s t a S : ref_inv s → at_pc t s = Idle → spaces s !! a = Some S →
  owned S = true → fDeleting S = false →
  ∃ s', RemoveAndPut_begin t a s = Ret s' ∧ ref_inv s'.
Proof.
  intros Hi Hp E Ho Hd. unfold RemoveAndPut_begin. rewrite E. cbn [deref mbind outcome_bind].
  eexists. split; [done|]. destruct (used_count_pos s t a Hi) as (S1 & E1 & Hc); [right; eauto|]. simplify_eq.
  destruct (used_listed s a S Hi E Hc) as [Ht Hnf].
  assert (Hnr : ∀ t', remover (at_pc t' s) ≠ Some a).
  { intros t' Hr. destruct (ri_removing s Hi t' a Hr) as (S1 & E1 & _ & Hd1). simplify_eq. congruence. }
  eapply (space_change_inv t a Idle (Removing a) S (S <| fDeleting := true |>) None s); [done|].
  split; try done; cbn.
  - intros t'. exact (at_goto _ _ _ t').
  - auto.
  - apply (ri_bound s Hi).
  - by apply (ri_count s Hi).
  - lia.
  - auto.
  - intros b [= <-]. by right.
Qed.

Lemma remove_end_inv s t a : ref_inv s → at_pc t s = Removing a → unlocked a s →
  ∃ s', RemoveAndPut_end t a s = Ret s' ∧ ref_inv s'.
Proof.
  intros Hi Hp Hu. destruct (ri_removing s Hi t a ltac:(by rewrite Hp)) as (S & E & Ho & Hd).
  destruct (used_count_pos s t a Hi) as (S1 & E1 & Hc); [right; eauto|]. simplify_eq.
  pose proof (count_room s a S Hi E) as Hcr. pose proof (ri_count s Hi a S E) as HcS. rewrite Ho in HcS.
  destruct (used_listed s a S Hi E Hc) as [Ht Hnf].
  unfold RemoveAndPut_end, Put_count. rewrite E. cbn [deref mbind outcome_bind]. cbn.
  rewrite lookup_insert_eq. cbn. eexists. split; [done|]. rewrite i32_small by lia.
  eapply (space_change_inv t a (Removing a) (if fRefCount S =? 1 then Deleting (fID S) else Idle) S
    (S <| owned := false |> <| fRefCount := fRefCount S - 1 |>) None s); [done|].
  split; try done; cbn.
  - by rewrite insert_insert_eq.
  - intros t'. exact (at_goto _ _ _ t').
  - auto.
  - apply (ri_bound s Hi).
  - lia.
  - split_and!; try done; by destruct (fRefCount S =? 1).
  - intros Hz. by destruct (Z.eqb_spec (fRefCount S) 1); [|lia].
  - auto.
  - by rewrite Hd.
  - intros b. by destruct (fRefCount S =? 1).
  - intros t' Hr. exfalso. case_decide as Hn; [by destruct (fRefCount S =? 1)|].
    destruct Hn. apply (ri_removing_once s Hi _ _ a Hr). by rewrite Hp.
Qed.

(** Only the table of areas changes, for a thread that enters the write lock. *)
Lemma area_inv s t id a p p' m : ref_inv s → at_pc t s = p → area_lock p' = Some a → unlocked a s → usable t a s →
  (p = Idle ∧ p' = Adding id a ∧ area_spaces s !! id = None ∧ (∀ b, (HArea id, b) ∉ held s) ∧
     m = <[id := a]> (area_spaces s) ∨
   (∃ r, p' = Dropping id a r ∧ p = if r then Removing a else Idle) ∧ area_spaces s !! id = Some a ∧
     m = delete id (area_spaces s)) →
  ref_inv (goto t p' (s <| area_spaces := m |>)).
Proof.
  intros Hi Hp Hl Hu Hus Hc. set (s1 := s <| area_spaces := m |>).
  assert (Hpl : area_lock p = None ∧ (∀ b, p ≠ Freeing b) ∧ (∀ i, p ≠ Deleting i) ∧ (∀ b, p' ≠ Freeing b) ∧
      remover p' = remover p).
  { by destruct Hc as [(-> & -> & _)|((r & -> & ->) & _)]; [|destruct r]. }
  destruct Hpl as (Hlp & Hpf & Hpd & Hpf' & Hpr).
  assert (Hat : ∀ t', at_pc t' (goto t p' s1) = if decide (t' = t) then p' else at_pc t' s)
    by (intros t'; exact (at_goto _ _ _ t')).
  assert (Hu' : ∀ t' b, usable t' b s → usable t' b (goto t p' s1)) by done.
  assert (Hkeep : ∀ t' id' b, at_pc t' s = Adding id' b → m !! id' = Some b).
  { intros t' id' b Ht'. destruct (ri_adding s Hi t' id' b Ht') as [Hb _].
    destruct Hc as [(_ & _ & Hn & _ & ->)|(_ & Hn & ->)].
    - rewrite lookup_insert_ne; [done|]. intros ->. congruence.
    - rewrite lookup_delete_ne; [done|]. intros ->. destruct (Hu t'). rewrite Ht'. cbn. congruence. }
  split; cbn [spaces held sAddressSpaceTable area_spaces goto update s1]; try apply Hi.
  - intros b S1 Hb. destruct (ri_listed s Hi b S1 Hb) as [Hb'|[t' Hf]]; [by left|right].
    exists t'. rewrite Hat, decide_False; [done|]. intros ->. destruct (Hpf b). congruence.
  - intros t' b. rewrite Hat. case_decide; [by intros ?; destruct (Hpf' b)|]. apply (ri_freeing s Hi).
  - intros t1 t2 b. rewrite !Hat. repeat case_decide; try done; try by (intros; exfalso; eapply Hpf'). apply (ri_once s Hi).
  - intros b S1 Hb Hz Hlb. destruct (ri_zero s Hi b S1 Hb Hz Hlb) as [t' Hd]. exists t'.
    rewrite Hat, decide_False; [done|]. intros ->. destruct (Hpd (fID S1)). congruence.
  - change (update area_spaces _ s) with s1. cbn [s1 area_spaces update]. intros id' b Hb.
    assert (id' = id ∧ b = a ∧ p' = Adding id a ∨ area_spaces s !! id' = Some b) as [(-> & -> & Hp')|Hb'].
    { destruct Hc as [(_ & -> & _ & _ & ->)|(_ & _ & ->)].
      - apply lookup_insert_Some in Hb as [[<- <-]|[_ ?]]; auto.
      - apply lookup_delete_Some in Hb as [_ ?]. auto. }
    + right. exists t. by rewrite Hat, decide_True.
    + destruct (ri_area s Hi id' b Hb') as [?|[t' Ht']]; [by left|right]. exists t'.
      rewrite Hat, decide_False; [done|]. intros ->. rewrite Hp in Ht'. by rewrite Ht' in Hlp.
  - intros t' id' b. rewrite Hat. case_decide as Hn; [subst t'|].
    + intros Hp'. destruct Hc as [(_ & -> & _ & _ & ->)|((r & -> & _) & _)]; [|done]. injection Hp' as <- <-.
      by rewrite lookup_insert_eq.
    + intros Ht'. split; [by eapply Hkeep|]. by apply Hu', (ri_adding s Hi t' id' b).
  - intros t' id' b r. rewrite Hat. case_decide as Hn; [subst t'|].
    + intros Hp'. destruct Hc as [(_ & -> & _)|((r' & -> & _) & Ha & ->)]; [done|]. injection Hp' as <- <- _.
      rewrite lookup_delete_eq. split_and!; [|done|by apply Hu'].
      destruct (ri_area s Hi id a Ha) as [|[t' Ht']]; [done|]. destruct (Hu t'). by rewrite Ht'.
    + intros Ht'. destruct (ri_dropping s Hi t' id' b r Ht') as (Hh & Hna & Hus'). split_and!; [done| |by apply Hu'].
      destruct Hc as [(_ & _ & _ & Hnh & ->)|(_ & _ & ->)].
      * intros [[<- _]|[_ ?]]%lookup_insert_Some; [by destruct (Hnh b)|done].
      * by intros [_ ?]%lookup_delete_Some.
  - intros t1 t2 b. rewrite !Hat. repeat case_decide; subst; try done.
    + rewrite Hl. intros [= <-] H2. by destruct (Hu t2).
    + rewrite Hl. intros H2 [= <-]. by destruct (Hu t1).
    + apply (ri_lock s Hi).
  - intros t' b. rewrite Hat. case_decide; [subst t'; rewrite Hpr, <- Hp|]; apply (ri_removing s Hi).
  - assert (∀ t', remover (if decide (t' = t) then p' else at_pc t' s) = remover (at_pc t' s)) as Hrr.
    { intros t'. case_decide; [subst t'; by rewrite Hpr, <- Hp|done]. }
    intros t1 t2 b. rewrite !Hat, !Hrr. apply (ri_removing_once s Hi).
Qed.

(** Threads outside of the write locks may go to places outside of them. *)
Lemma areas_goto s t p : ref_inv s → area_lock (at_pc t s) = None → area_lock p = None →
  (∀ id b, area_spaces s !! id = Some b → (HArea id, b) ∈ held s ∨ ∃ t', at_pc t' (goto t p s) = Adding id b) ∧
  (∀ t' id b, at_pc t' (goto t p s) = Adding id b → area_spaces s !! id = Some b ∧ usable t' b s) ∧
  (∀ t' id b r, at_pc t' (goto t p s) = Dropping id b r →
    (HArea id, b) ∈ held s ∧ area_spaces s !! id ≠ Some b ∧ usable t' b s) ∧
  (∀ t1 t2 b, area_lock (at_pc t1 (goto t p s)) = Some b → area_lock (at_pc t2 (goto t p s)) = Some b → t1 = t2).
Proof.
  intros Hi Ht Hp. split_and!.
  - intros id b Hb. destruct (ri_area s Hi id b Hb) as [|[t' Ht']]; [by left|right].
    exists t'. rewrite at_goto, decide_False; [done|]. intros ->. by rewrite Ht' in Ht.
  - intros t' id b. rewrite at_goto. case_decide; [intros ->; done|]. apply (ri_adding s Hi).
  - intros t' id b r. rewrite at_goto. case_decide; [intros ->; done|]. apply (ri_dropping s Hi).
  - intros t1 t2 b. rewrite !at_goto. repeat case_decide; rewrite ?Hp; try done. apply (ri_lock s Hi).
Qed.

(** An idle thread that stays idle. *)
Lemma goto_same s t : at_pc t s = Idle → ref_inv (goto t Idle s) → ref_inv s.
Proof.
  intros Hp Hi. assert (∀ t', at_pc t' (goto t Idle s) = at_pc t' s) as Hat
    by (intros t'; rewrite at_goto; case_decide; by subst).
  destruct Hi as [I1 I2 I3 I4 I5 I6 I7 I8 I9 I10 I11 I12 I13 I14 I15].
  split; try done; intros *; repeat setoid_rewrite <- Hat; eauto.
Qed.

Lemma get_thread_inv s t a S : ref_inv s → room s → at_pc t s = Idle → spaces s !! a = Some S →
  0 < fRefCount S ∨ sAddressSpaceTable s !! fID S = Some a →
  ∃ s', (s ← Get a s; Ret (hold (HThread t) a s)) = Ret s' ∧ ref_inv s'.
Proof.
  intros Hi Hr Hp ES Hc.
  destruct (get_inv s t (HThread t) Idle a S Hi Hr ES Hc Hp ltac:(by left)) as (s' & E & Hi').
  rewrite E. eexists. split; [done|]. apply (goto_same _ t); [|done].
  unfold Get in E. rewrite ES in E. cbn in E. injection E as <-. exact Hp.
Qed.

(** A thread finds nothing to delete. *)
Lemma leave_deleting_inv s t id : ref_inv s → at_pc t s = Deleting id →
  (∀ b S, spaces s !! b = Some S → fRefCount S = 0 → fID S = id → sAddressSpaceTable s !! fID S = Some b → False) →
  ref_inv (goto t Idle s).
Proof.
  intros Hi Hp Hno. destruct (areas_goto s t Idle Hi ltac:(by rewrite Hp) eq_refl) as (A1 & A2 & A3 & A4).
  split; cbn; try apply Hi; try done.
  - intros b S1 Hb. destruct (ri_listed s Hi b S1 Hb) as [Hl|[t' Hf]]; [by left|right].
    exists t'. rewrite at_goto, decide_False; [done|]. intros ->. congruence.
  - intros t' b. rewrite at_goto. case_decide; [done|]. apply (ri_freeing s Hi).
  - intros t1 t2 b. rewrite !at_goto. repeat case_decide; try done. apply (ri_once s Hi).
  - intros b S1 Hb Hz Hl. destruct (ri_zero s Hi b S1 Hb Hz Hl) as [t' Hd]. exists t'.
    rewrite at_goto, decide_False; [done|]. intros ->. rewrite Hp in Hd. injection Hd as Hid.
    by apply (Hno b S1).
  - intros t' b. rewrite at_goto. case_decide; [done|]. apply (ri_removing s Hi).
  - intros t1 t2 b. rewrite !at_goto. repeat case_decide; try done. apply (ri_removing_once s Hi).
Qed.

Lemma delete_inv s t id : ref_inv s → at_pc t s = Deleting id →
  ∃ s', DeleteIfUnreferenced t id s = Ret s' ∧ ref_inv s'.
Proof.
  intros Hi Hp. unfold DeleteIfUnreferenced. destruct (sAddressSpaceTable s !! id) as [a|] eqn:Et.
  1: destruct (ri_table s Hi id a Et) as (S & E & <-); rewrite E; cbn [deref mbind outcome_bind];
    destruct (Z.eqb_spec (fRefCount S) 0) as [Hz|Hz].
  all: eexists; split; [done|].
  - assert (Hnf : ∀ t', at_pc t' s ≠ Freeing a).
    { intros t' Hf. destruct (ri_freeing s Hi t' a Hf) as (S' & E' & _ & Hn). simplify_eq. }
    destruct (areas_goto s t (Freeing a) Hi ltac:(by rewrite Hp) eq_refl) as (A1 & A2 & A3 & A4).
    split; cbn.
    + apply (ri_count s Hi).
    + apply (ri_held s Hi).
    + apply (ri_bound s Hi).
    + intros id' b [_ Hb]%lookup_delete_Some. by apply (ri_table s Hi).
    + intros b S1 Hb. destruct (decide (b = a)) as [-> |Hn].
      { right. exists t. by rewrite at_goto, decide_True. }
      destruct (ri_listed s Hi b S1 Hb) as [Hl|[t' Hf]]; [left|right].
      * rewrite lookup_delete_ne; [done|]. intros Hid. rewrite Hid in Et. congruence.
      * exists t'. rewrite at_goto, decide_False; [done|]. intros ->. congruence.
    + intros t' b. rewrite at_goto. case_decide as Hd; [intros [= <-]|intros Hf].
      * exists S. rewrite lookup_delete_eq. done.
      * destruct (ri_freeing s Hi t' b Hf) as (S1 & E1 & Hz1 & Hn1). exists S1. split_and!; [done|done|].
        by intros [_ Hl]%lookup_delete_Some.
    + intros t1 t2 b. rewrite !at_goto. repeat case_decide; subst; try done.
      * intros [= <-] Hf. by destruct (Hnf t2).
      * intros Hf [= <-]. by destruct (Hnf t1).
      * apply (ri_once s Hi).
    + intros b S1 Hb Hz1 [Hne Hl]%lookup_delete_Some. destruct (ri_zero s Hi b S1 Hb Hz1 Hl) as [t' Hd].
      exists t'. rewrite at_goto, decide_False; [done|]. intros ->. congruence.
    + exact A1.
    + exact A2.
    + exact A3.
    + exact A4.
    + apply (ri_alive s Hi).
    + intros t' b. rewrite at_goto. case_decide; [done|]. apply (ri_removing s Hi).
    + intros t1 t2 b. rewrite !at_goto. repeat case_decide; try done. apply (ri_removing_once s Hi).
  - apply (leave_deleting_inv s t (fID S)); try done. intros b S1 Hb Hz1 Hid Hl.
    rewrite Hid, Et in Hl. simplify_eq.
  - apply (leave_deleting_inv s t id); try done. intros b S1 Hb Hz1 Hid Hl. congruence.
Qed.

Lemma free_inv s t a : ref_inv s → at_pc t s = Freeing a → ∃ s', Free t a s = Ret s' ∧ ref_inv s'.
Proof.
  intros Hi Hp. destruct (ri_freeing s Hi t a Hp) as (S & E & Hz & Hnt).
  unfold Free. rewrite E. cbn [deref mbind outcome_bind]. eexists. split; [done|].
  pose proof (ri_count s Hi a S E) as Hc. pose proof (refs_to_nonneg a (held s)) as Hn0.
  assert (Ho : owned S = false) by (destruct (owned S); [lia|done]). rewrite Ho in Hc.
  assert (Hkeep : ∀ b S1, spaces s !! b = Some S1 → b ≠ a → delete a (spaces s) !! b = Some S1).
  { intros b S1 Hb Hn. by rewrite lookup_delete_ne. }
  assert (Hna : ∀ b S1, spaces s !! b = Some S1 → owned S1 = true → b ≠ a).
  { intros b S1 Hb H1 ->. simplify_eq. congruence. }
  assert (Hus : ∀ t' b, usable t' b s → usable t' b (goto t Idle (s <| spaces ::= delete a |>))).
  { intros t' b [?|(S1 & E1 & Ho1)]; [by left|right]. exists S1. split; [|done]. by apply Hkeep; [|eapply Hna]. }
  destruct (areas_goto s t Idle Hi ltac:(by rewrite Hp) eq_refl) as (A1 & A2 & A3 & A4).
  split; cbn.
  - intros b S1 [_ Hb]%lookup_delete_Some. by apply (ri_count s Hi).
  - intros t' b Hh. destruct (ri_held s Hi t' b Hh) as [S1 E1]. exists S1. apply Hkeep; [done|].
    intros ->. pose proof (refs_to_elem t' a _ Hh). lia.
  - apply (ri_bound s Hi).
  - intros id b Hb. destruct (ri_table s Hi id b Hb) as (S1 & E1 & <-). exists S1. split; [|done].
    apply Hkeep; [done|]. intros ->. by simplify_eq.
  - intros b S1 [Hn Hb]%lookup_delete_Some. destruct (ri_listed s Hi b S1 Hb) as [?|[t' Hf]]; [by left|right].
    exists t'. rewrite at_goto, decide_False; [done|]. intros ->. congruence.
  - intros t' b. rewrite at_goto. case_decide as Hd; [done|]. intros Hf.
    destruct (ri_freeing s Hi t' b Hf) as (S1 & E1 & H1 & H2). exists S1. split; [|done]. apply Hkeep; [done|].
    intros ->. by destruct Hd; apply (ri_once s Hi _ _ a).
  - intros t1 t2 b. rewrite !at_goto. repeat case_decide; try done. apply (ri_once s Hi).
  - intros b S1 [Hn Hb]%lookup_delete_Some Hz1 Hl. destruct (ri_zero s Hi b S1 Hb Hz1 Hl) as [t' Hd].
    exists t'. rewrite at_goto, decide_False; [done|]. intros ->. congruence.
  - exact A1.
  - intros t' id b Ht'. destruct (A2 t' id b Ht'). split; [done|]. by apply Hus.
  - intros t' id b r Ht'. destruct (A3 t' id b r Ht') as (? & ? & ?). split_and!; [done..|]. by apply Hus.
  - exact A4.
  - intros b S1 [_ Hb]%lookup_delete_Some. by apply (ri_alive s Hi b).
  - intros t' b. rewrite at_goto. case_decide; [done|]. intros Hrm.
    destruct (ri_removing s Hi t' b Hrm) as (S1 & E1 & Ho1 & ?). exists S1. split; [|done]. eauto.
  - intros t1 t2 b. rewrite !at_goto. repeat case_decide; try done. apply (ri_removing_once s Hi).
Qed.

Lemma create_inv s id a : ref_inv s → spaces s !! a = None → sAddressSpaceTable s !! id = None →
  ref_inv (s <| spaces ::= <[a := mkSpace id 1 false true]> |> <| sAddressSpaceTable ::= <[id := a]> |>).
Proof.
  intros Hi Ea Et.
  assert (Hne : ∀ b S1, spaces s !! b = Some S1 → a ≠ b) by (intros b S1 Hb ->; congruence).
  assert (Hid : ∀ b S1, spaces s !! b = Some S1 → sAddressSpaceTable s !! fID S1 = Some b → id ≠ fID S1)
    by (intros b S1 _ Hl ->; congruence).
  assert (Hz : refs_to a (held s) = 0).
  { unfold refs_to. destruct (filter (fun p => p.2 = a) (held s)) as [|[t' b] l] eqn:Ef; [done|].
    assert (Hin : (t', b) ∈ filter (fun p => p.2 = a) (held s)) by (rewrite Ef; set_solver).
    apply list_elem_of_filter in Hin as [Hb Hin]. cbn in Hb. subst b.
    destruct (ri_held s Hi t' a Hin). congruence. }
  assert (Hus : ∀ t' b, usable t' b s →
    usable t' b (s <| spaces ::= <[a := mkSpace id 1 false true]> |> <| sAddressSpaceTable ::= <[id := a]> |>)).
  { intros t' b [?|(S1 & E1 & Ho1)]; [by left|right]. exists S1. split; [|done]. cbn. rewrite lookup_insert_ne; eauto. }
  split; cbn.
  - intros b S1 [[<- <-]|[_ Hb]]%lookup_insert_Some; [cbn; lia|by apply (ri_count s Hi)].
  - intros t' b Hh. destruct (ri_held s Hi t' b Hh) as [S1 E1]. exists S1. rewrite lookup_insert_ne; eauto.
  - apply (ri_bound s Hi).
  - intros id' b [[<- <-]|[_ Hb]]%lookup_insert_Some; [eexists; by rewrite lookup_insert_eq|].
    destruct (ri_table s Hi id' b Hb) as (S1 & E1 & <-). exists S1. rewrite lookup_insert_ne; eauto.
  - intros b S1 [[<- <-]|[_ Hb]]%lookup_insert_Some; [left; by rewrite lookup_insert_eq|].
    destruct (ri_listed s Hi b S1 Hb) as [Hl|?]; [left|by right]. rewrite lookup_insert_ne; eauto.
  - intros t' b Hf. destruct (ri_freeing s Hi t' b Hf) as (S1 & E1 & H1 & H2). exists S1.
    rewrite lookup_insert_ne by eauto. split_and!; [done|done|].
    intros [[_ Hb]|[_ Hl]]%lookup_insert_Some; [|done]. by apply (Hne b S1).
  - apply (ri_once s Hi).
  - intros b S1 [[<- <-]|[_ Hb]]%lookup_insert_Some Hz1; [done|].
    intros [[_ He]|[_ Hl]]%lookup_insert_Some; [by destruct (Hne b S1)|]. by apply (ri_zero s Hi b).
  - apply (ri_area s Hi).
  - intros t' id' b Ht'. destruct (ri_adding s Hi t' id' b Ht'). split; [done|]. by apply Hus.
  - intros t' id' b r Ht'. destruct (ri_dropping s Hi t' id' b r Ht') as (? & ? & ?). split_and!; [done..|]. by apply Hus.
  - apply (ri_lock s Hi).
  - intros b S1 [[<- <-]|[_ Hb]]%lookup_insert_Some; [done|by apply (ri_alive s Hi b)].
  - intros t' b Hrm. destruct (ri_removing s Hi t' b Hrm) as (S1 & E1 & ?). exists S1.
    rewrite lookup_insert_ne; eauto.
  - apply (ri_removing_once s Hi).
Qed.

Lemma hash_get_inv s t id a : ref_inv s → room s → at_pc t s = Idle → area_spaces s !! id = Some a →
  ∃ s', (s ← Get a s; Ret (hold (HThread t) a s)) = Ret s' ∧ ref_inv s'.
Proof.
  intros Hi Hr Hp E.
  assert (∃ S, spaces s !! a = Some S ∧ 0 < fRefCount S) as (S & ES & Hc).
  { destruct (ri_area s Hi id a E) as [Hh|[t' Ht']]; [by eapply held_count_pos|].
    eapply used_count_pos; [done|]. by apply (ri_adding s Hi t' id a). }
  by apply (get_thread_inv s t a S); auto.
Qed.

Lemma perform_inv x s : ref_inv s → allowed x s → ∃ s', perform x s = Ret s' ∧ ref_inv s'.
Proof.
  intros Hi Ha. destruct x as [t id new st|t id|t id|t a|t a|t id a|t id a|t id|t id a r|t a|t a|t id|t a]; cbn in *.
  - destruct Ha as (_ & Et & En). destruct new as [a|]; cbn; [|by eexists].
    destruct (Z.eqb_spec st 0); cbn; eexists; (split; [done|]); [by apply create_inv|].
    assert (Hs : s <| spaces ::= <[a := mkSpace id 1 false true]> |> <| spaces ::= delete a |> = s).
    { unfold update. destruct s. cbn in *. f_equal. by apply delete_insert_id. }
    by rewrite Hs.
  - destruct Ha as [Hp Hr]. unfold Get_team. destruct (sAddressSpaceTable s !! id) as [a|] eqn:E; [|by eexists].
    destruct (ri_table s Hi id a E) as (S & ES & <-). by apply (get_thread_inv s t a S); auto.
  - destruct Ha as [Hp Hr]. unfold GetAddressSpaceByAreaID.
    destruct (area_spaces s !! id) as [a|] eqn:E; [|by eexists]. by apply (hash_get_inv s t id).
  - destruct Ha as (Hp & Hr & Hu). destruct (used_count_pos s t a Hi Hu) as (S1 & E1 & Hc). unfold Get_held.
    by apply (get_thread_inv s t a S1); auto.
  - destruct Ha as [Hp Hh]. destruct (put_inv s t Idle Idle a (HThread t, a) Hi Hp Hh) as (S & s' & _ & Es & _ & Hi');
      [by left|]. by exists s'.
  - destruct Ha as (Hp & Hu & Hul & Hn & Hh). destruct (used_count_pos s t a Hi Hu) as (S & E & _). unfold add_area.
    rewrite E. cbn [deref mbind outcome_bind]. destruct (fDeleting S) eqn:Hd; [by eexists|].
    eexists. split; [done|]. apply (area_inv s t id a Idle); try done. left. by split_and!.
  - destruct Ha as [Hp Hr]. destruct (ri_adding s Hi t id a Hp) as [_ Hu]. unfold add_area_get.
    destruct (used_count_pos s t a Hi Hu) as (S & E & Hc).
    destruct (get_inv s t (HArea id) (Adding id a) a S Hi Hr E ltac:(by left) Hp) as (s' & -> & Hi'); [by eauto|].
    by eexists.
  - destruct Ha as (a & E & Hul & Hp). unfold delete_area. rewrite E. cbn [deref mbind outcome_bind].
    eexists. split; [done|]. destruct Hp as [[Hp Hu]|Hp]; rewrite Hp.
    + rewrite bool_decide_eq_false_2 by done. apply (area_inv s t id a Idle); try done. right.
      split; [by exists false|done].
    + rewrite bool_decide_eq_true_2 by done. apply (area_inv s t id a (Removing a)); try done.
      * right. destruct (ri_removing s Hi t a ltac:(by rewrite Hp)) as (S & ES & Ho & _). eauto.
      * right. split; [by exists true|done].
  - destruct (ri_dropping s Hi t id a r Ha) as (Hh & _ & _). unfold delete_area_put.
    destruct (put_inv s t _ (if r then Removing a else Idle) a (HArea id, a) Hi Ha Hh)
      as (S & s' & _ & -> & E' & Hi'); [right; eauto|].
    cbn [mbind outcome_bind]. rewrite E'. by eexists.
  - destruct Ha as (Hp & _ & S & E & Ho & Hd). by apply (remove_begin_inv s t a S).
  - destruct Ha as (? & ? & _). by apply remove_end_inv.
  - by apply delete_inv.
  - by apply free_inv.
Qed.

(** The reference an area gives back is not the last one. *)
Lemma dropping_count s t id a r : ref_inv s → at_pc t s = Dropping id a r →
  ∃ S, spaces s !! a = Some S ∧ 1 < fRefCount S.
Proof.
  intros Hi Ht. destruct (ri_dropping s Hi t id a r Ht) as (Hh & _ & Hu).
  destruct (ri_held s Hi _ a Hh) as [S E]. exists S. split; [done|].
  rewrite (ri_count s Hi a S E). pose proof (refs_to_remove a (HArea id) a (held s) Hh) as Hr.
  rewrite decide_True in Hr by done. destruct Hu as [Hh'|(S1 & E1 & Ho)].
  - pose proof (refs_to_elem (HThread t) a (remove_one (HArea id, a) (held s))) as Hp.
    assert (0 < refs_to a (remove_one (HArea id, a) (held s))) by (by apply Hp, remove_one_other).
    case_match; lia.
  - simplify_eq. rewrite Ho. pose proof (refs_to_elem _ a _ Hh). lia.
Qed.

Lemma ref_init_inv : ref_inv ref_init.
Proof.
  split; cbn; try (intros; by (simplify_map_eq || done)).
  - intros h a Hh. by apply elem_of_nil in Hh.
Qed.

Lemma ref_reachable_inv s : reachable s → ref_inv s.
Proof.
  intros Hr. refine (@rtc_ind_r _ ref_step ref_inv ref_init ref_init_inv _ s Hr).
  intros s1 s2 _ (x & Ha & Hx) Hi. destruct (perform_inv x s1 Hi Ha) as (s' & E & Hi'). congruence.
Qed.

(** C25: In every state that threads reach by creating address spaces,
    finding them by team or by area, giving back references, adding and
    deleting areas and removing spaces, in any interleaving (areas come and
    go under the write lock of the space, team and area ids and addresses of
    live objects are unique, there are fewer than 2^31 - 2 references, and
    threads of the team use its space only until RemoveAndPut): no operation
    touches a freed space; a space that is referenced is in the table; the
    count is the number of references of threads, of areas and of the team;
    every area that can be found has its reference or is about to take it;
    the reference delete_area gives back is never the last one; a space
    without references is about to be deleted by some thread, and exactly
    one thread frees it, after which nobody can find it. *)
Theorem address_space_lifetime s : reachable s →
  (∀ x, allowed x s → ∃ s', perform x s = Ret s') ∧
  (∀ t a, usable t a s → ∃ S, spaces s !! a = Some S ∧ sAddressSpaceTable s !! fID S = Some a) ∧
  (∀ a S, spaces s !! a = Some S → fRefCount S = refs_to a (held s) + if owned S then 1 else 0) ∧
  (∀ id a, area_spaces s !! id = Some a → (HArea id, a) ∈ held s ∨ ∃ t, at_pc t s = Adding id a) ∧
  (∀ t id a r, at_pc t s = Dropping id a r → ∃ S, spaces s !! a = Some S ∧ 1 < fRefCount S) ∧
  (∀ a S, spaces s !! a = Some S → fRefCount S = 0 →
    (∃ t, at_pc t s = Deleting (fID S)) ∨
    (∃ t, at_pc t s = Freeing a ∧ ∀ t', at_pc t' s = Freeing a → t' = t)) ∧
  (∀ t a, at_pc t s = Freeing a → (∀ id, sAddressSpaceTable s !! id ≠ Some a) ∧
    (∀ id, area_spaces s !! id ≠ Some a) ∧ ∀ t', ¬ usable t' a s).
Proof.
  intros Hr. apply ref_reachable_inv in Hr as Hi. split_and!.
  - intros x Ha. destruct (perform_inv x s Hi Ha) as (s' & E & _). eauto.
  - intros t a Hu. destruct (used_count_pos s t a Hi Hu) as (S & E & Hc). exists S. split; [done|].
    by apply (used_listed s a S).
  - apply (ri_count s Hi).
  - apply (ri_area s Hi).
  - intros t id a r. by apply dropping_count.
  - intros a S E Hz. destruct (ri_listed s Hi a S E) as [Hl|[t Hf]].
    + left. by apply (ri_zero s Hi a S).
    + right. exists t. split; [done|]. intros t' Hf'. by apply (ri_once s Hi _ _ a).
  - intros t a Hf. destruct (ri_freeing s Hi t a Hf) as (S & E & Hz & Hn).
    assert (Hu : ∀ t', ¬ usable t' a s).
    { intros t' Hu. destruct (used_count_pos s t' a Hi Hu) as (S1 & E1 & Hc). simplify_eq. lia. }
    split_and!; [| |done].
    + intros id Hid. destruct (ri_table s Hi id a Hid) as (S1 & E1 & <-). simplify_eq.
    + intros id Hid. destruct (ri_area s Hi id a Hid) as [Hh|[t' Ht']].
      * destruct (held_count_pos s _ a Hi Hh) as (S1 & E1 & Hc). simplify_eq. lia.
      * apply (Hu t'). by apply (ri_adding s Hi t' id a).
Qed.

(** ** An interleaving *)
Module RefsExample.

(** Thread 1 creates the space of team 5 and removes it; thread 2 finds it in the
    table after the count of thread 1 has reached 0 and gives it back. *)
Definition trace : list action :=
  [ACreate 4 6 (Some 101) (-12); ACreate 1 5 (Some 100) 0; AAddArea 1 7 100; AGetArea 3 7; AAddGet 1 7 100;
   APut 3 100; ARemoveBegin 1 100; ADeleteArea 1 7; ADeletePut 1 7 100 true;
   ARemoveEnd 1 100; AGetTeam 2 5; APut 2 100].

(** [allowed] as a test. *)
Definition usableb (t a : Z) (s : refsys) : bool :=
  bool_decide ((HThread t, a) ∈ held s) || match spaces s !! a with Some sp => owned sp | None => false end.
Definition unlockedb (a : Z) (s : refsys) : bool :=
  bool_decide (map_Forall (fun _ p => area_lock p ≠ Some a) (pcs s)).
Definition allowedb (x : action) (s : refsys) : bool :=
  match x with
  | ACreate t id new _ => bool_decide (at_pc t s = Idle ∧ sAddressSpaceTable s !! id = None ∧
      match new with Some a => spaces s !! a | None => None end = None)
  | AGetTeam t _ | AGetArea t _ => bool_decide (at_pc t s = Idle ∧ Z.of_nat (length (held s)) < 2147483646)
  | AGet t a => bool_decide (at_pc t s = Idle ∧ Z.of_nat (length (held s)) < 2147483646) && usableb t a s
  | APut t a => bool_decide (at_pc t s = Idle ∧ (HThread t, a) ∈ held s)
  | AAddArea t id a => bool_decide (at_pc t s = Idle ∧ area_spaces s !! id = None ∧
      Forall (fun x => x.1 ≠ HArea id) (held s)) && usableb t a s && unlockedb a s
  | AAddGet t id a => bool_decide (at_pc t s = Adding id a ∧ Z.of_nat (length (held s)) < 2147483646)
  | ADeleteArea t id =>
      match area_spaces s !! id with
      | Some a => unlockedb a s &&
          (bool_decide (at_pc t s = Idle) && usableb t a s || bool_decide (at_pc t s = Removing a))
      | None => false
      end
  | ADeletePut t id a r => bool_decide (at_pc t s = Dropping id a r)
  | ARemoveBegin t a => bool_decide (at_pc t s = Idle) && unlockedb a s &&
      match spaces s !! a with Some sp => owned sp && negb (fDeleting sp) | None => false end
  | ARemoveEnd t a => bool_decide (at_pc t s = Removing a ∧ map_Forall (fun _ b => b ≠ a) (area_spaces s)) &&
      unlockedb a s
  | ADelete t id => bool_decide (at_pc t s = Deleting id)
  | AFree t a => bool_decide (at_pc t s = Freeing a)
  end.

Lemma usableb_sound t a s : usableb t a s = true → usable t a s.
Proof.
  intros [H|H]%orb_true_iff; [left; by apply bool_decide_eq_true in H|].
  right. destruct (spaces s !! a) as [sp|] eqn:Es; [eauto|done].
Qed.

Lemma unlockedb_sound a s : unlockedb a s = true → unlocked a s.
Proof.
  intros H%bool_decide_eq_true_1 t. unfold at_pc. destruct (pcs s !! t) as [p|] eqn:E; [|done].
  by apply (H t p).
Qed.

Lemma allowedb_sound x s : allowedb x s = true → allowed x s.
Proof.
  destruct x; cbn; try done; try (intros H%bool_decide_eq_true_1; tauto).
  - intros (? & ? & ?)%bool_decide_eq_true_1. by destruct new.
  - intros [[??]%bool_decide_eq_true_1 Hu%usableb_sound]%andb_true_iff. done.
  - intros [[(? & ? & Hf)%bool_decide_eq_true_1 Hu%usableb_sound]%andb_true_iff Hl%unlockedb_sound]%andb_true_iff.
    split_and!; try done. intros b Hb. rewrite Forall_forall in Hf. by destruct (Hf _ Hb).
  - destruct (area_spaces s !! id) as [a|]; [|done].
    intros [Hl%unlockedb_sound Hc]%andb_true_iff. exists a. split_and!; try done.
    apply orb_true_iff in Hc as [[?%bool_decide_eq_true_1 ?%usableb_sound]%andb_true_iff|?%bool_decide_eq_true_1]; auto.
  - intros [[Hp%bool_decide_eq_true_1 Hl%unlockedb_sound]%andb_true_iff H]%andb_true_iff. split_and!; [done..|].
    destruct (spaces s !! a) as [sp|] eqn:Es; [|done]. apply andb_true_iff in H as [? ?%negb_true_iff]. eauto.
  - intros [[Hp Hm]%bool_decide_eq_true_1 Hl%unlockedb_sound]%andb_true_iff. split_and!; [done..|].
    intros id Hid. by destruct (Hm id a Hid).
Qed.

Fixpoint run (xs : list action) (s : refsys) : option refsys :=
  match xs with
  | [] => Some s
  | x :: xs => if allowedb x s then match perform x s with Ret s => run xs s | _ => None end else None
  end.

Lemma ref_run_reachable xs : ∀ s s', reachable s → run xs s = Some s' → reachable s'.
Proof.
  induction xs as [|x xs IH]; cbn; intros s s' Hr; [by intros [= <-]|].
  destruct (allowedb x s) eqn:Ha; [|done]. destruct (perform x s) as [s1| |] eqn:E; [|done..].
  apply IH. eapply rtc_r; [exact Hr|]. exists x. by split; [apply allowedb_sound|].
Qed.

Definition after_trace : refsys := default ref_init (run trace ref_init).

Lemma trace_reachable : reachable after_trace.
Proof. apply (ref_run_reachable trace ref_init); [apply rtc_refl|]. vm_compute. reflexivity. Qed.

(** Both threads are about to delete the space; one does, the other finds nothing. *)
Lemma address_space_lifetime_witness :
  at_pc 1 after_trace = Deleting 5 ∧ at_pc 2 after_trace = Deleting 5 ∧
  (∃ s', perform (ADelete 2 5) after_trace = Ret s') ∧
  spaces <$> run [ADelete 2 5; ADelete 1 5; AFree 2 100] after_trace = Some ∅.
Proof.
  destruct (address_space_lifetime after_trace trace_reachable) as (Hp & _).
  split; [vm_compute; reflexivity|]. split; [vm_compute; reflexivity|].
  split; [|vm_compute; reflexivity]. apply Hp. vm_compute. reflexivity.
Defined.

End RefsExample.
