(* ===== verification/AddressSpaceLocking.v ===== *)
(** * Locking of address spaces (aspace/mm_locking.cpp)

    Lockers keep a reference to an address space and its lock, for one space
    ([AddressSpaceReadLocker], [AddressSpaceWriteLocker]) or for several
    ([MultiAddressSpaceLocker]).  The state is what a thread holds (references,
    locks, locked caches) and the world it shares with others; whenever it waits
    for a lock, others change the world, given by a function. *)
From stdpp Require Import base gmap list sorting relations.
From Stdlib Require Import ZArith Lia.
From S2P Require Import Prelude.
Local Open Scope Z_scope.

Definition ESRCH : Z := 3.
Definition ENOMEM : Z := 12.
Definition EINVAL : Z := 22.

(** What the code looks at: the tables of teams and areas, the space and the cache
    of an area, the areas of a cache from the head of its list. *)
Record world := mkWorld {
  team_table : gmap Z Z;
  area_hash : gmap Z Z;
  area_space : gmap Z Z;
  area_cache : gmap Z Z;
  cache_areas : gmap Z (list Z)
}.

(** Locks are pairs of a space and whether the lock is for writing. *)
Record lkstate := mkLk {
  wld : world;
  refs : list Z;
  locks : list (Z * bool);
  cache_locks : list Z
}.
#[global] Instance eta_lkstate : Eta lkstate := fun s =>
  mkLk (wld s) (refs s) (locks s) (cache_locks s).

Definition remove_first {A} `{EqDecision A} (x : A) : list A → list A :=
  fix go l := match l with [] => [] | y :: l => if decide (y = x) then l else y :: go l end.

Definition space_Get (a : Z) (s : lkstate) : lkstate := s <| refs ::= cons a |>.
(** Giving back what the thread does not have is a fault. *)
Definition space_Put (a : Z) (s : lkstate) : outcome lkstate :=
  _ ← assert (bool_decide (a ∈ refs s)); Ret (s <| refs ::= remove_first a |>).
Definition space_Lock (env : world → world) (a : Z) (w : bool) (s : lkstate) : lkstate :=
  s <| wld ::= env |> <| locks ::= cons (a, w) |>.
Definition space_Unlock (a : Z) (w : bool) (s : lkstate) : outcome lkstate :=
  _ ← assert (bool_decide ((a, w) ∈ locks s)); Ret (s <| locks ::= remove_first (a, w) |>).

Definition VMAddressSpace_Get (team : Z) (s : lkstate) : option Z * lkstate :=
  match team_table (wld s) !! team with
  | Some a => (Some a, space_Get a s)
  | None => (None, s)
  end.

Definition GetAddressSpaceByAreaID (id : Z) (s : lkstate) : outcome (option Z * lkstate) :=
  match area_hash (wld s) !! id with
  | Some area => a ← deref (area_space (wld s) !! area); Ret (Some a, space_Get a s)
  | None => Ret (None, s)
  end.

(** [VMAreaHash::Lookup(id, space)]: the area if it is in the space. *)
Definition Lookup_in (id a : Z) (s : lkstate) : option Z :=
  match area_hash (wld s) !! id with
  | Some area => if decide (area_space (wld s) !! area = Some a) then Some area else None
  | None => None
  end.

(** ** AddressSpaceReadLocker and AddressSpaceWriteLocker *)

(** [w]: whether the locker is the one for writing. *)
Record Locker := mkLocker { fSpace : option Z; fLocked : bool; fDegraded : bool }.
#[global] Instance eta_Locker : Eta Locker := fun l => mkLocker (fSpace l) (fLocked l) (fDegraded l).

Definition new_locker : Locker := mkLocker None false false.

Definition LUnlock (w : bool) (l : Locker) (s : lkstate) : outcome (Locker * lkstate) :=
  if fLocked l then
    a ← deref (fSpace l);
    s ← space_Unlock a (w && negb (fDegraded l)) s;
    Ret (l <| fLocked := false |> <| fDegraded := false |>, s)
  else Ret (l, s).

Definition Unset (w : bool) (l : Locker) (s : lkstate) : outcome (Locker * lkstate) :=
  '(l, s) ← LUnlock w l s;
  match fSpace l with
  | Some a => s ← space_Put a s; Ret (l <| fSpace := None |>, s)
  | None => Ret (l, s)
  end.

Definition SetTo_team (w : bool) (env : world → world) (team : Z) (l : Locker) (s : lkstate) :
    outcome (Z * Locker * lkstate) :=
  '(l, s) ← Unset w l s;
  let (r, s) := VMAddressSpace_Get team s in
  let l := l <| fSpace := r |> in
  match r with
  | None => Ret (- ESRCH, l, s)
  | Some a => Ret (0, l <| fLocked := true |>, space_Lock env a w s)
  end.

Definition SetTo_space (w : bool) (env : world → world) (space : Z) (getNewReference : bool)
    (l : Locker) (s : lkstate) : outcome (Locker * lkstate) :=
  '(l, s) ← Unset w l s;
  let l := l <| fSpace := Some space |> in
  let s := if getNewReference then space_Get space s else s in
  Ret (l <| fLocked := true |>, space_Lock env space w s).

(** The second half of the functions [SetFromArea]: the space is locked and the
    area looked up again. *)
Definition lock_and_lookup (w : bool) (env : world → world) (areaID : Z) (l : Locker) (s : lkstate) :
    outcome (Z * option Z * Locker * lkstate) :=
  a ← deref (fSpace l);
  let s := space_Lock env a w s in
  match Lookup_in areaID a s with
  | None =>
      s ← space_Unlock a w s;
      s ← space_Put a s;
      Ret (- EINVAL, None, l <| fSpace := None |>, s)
  | Some area => Ret (0, Some area, l <| fLocked := true |>, s)
  end.

Definition SetFromArea (w : bool) (env : world → world) (areaID : Z) (l : Locker) (s : lkstate) :
    outcome (Z * option Z * Locker * lkstate) :=
  '(l, s) ← Unset w l s;
  '(r, s) ← GetAddressSpaceByAreaID areaID s;
  let l := l <| fSpace := r |> in
  match r with
  | None => Ret (if w then - EINVAL else - ESRCH, None, l, s)
  | Some _ => lock_and_lookup w env areaID l s
  end.

(** The variant for an area of a team; [team_of]: the id of a space. *)
Definition SetFromArea_team (team_of : Z → Z) (KernelID : Z) (env : world → world)
    (team areaID : Z) (allowKernel : bool) (l : Locker) (s : lkstate) :
    outcome (Z * option Z * Locker * lkstate) :=
  '(l, s) ← Unset true l s;
  '(l, s) ← match area_hash (wld s) !! areaID with
    | Some area =>
        a ← deref (area_space (wld s) !! area);
        if (team_of a =? team) || (allowKernel && (team =? KernelID))
        then Ret (l <| fSpace := Some a |>, space_Get a s) else Ret (l, s)
    | None => Ret (l, s)
    end;
  match fSpace l with
  | None => Ret (- EINVAL, None, l, s)
  | Some _ => lock_and_lookup true env areaID l s
  end.

Definition Lock (env : world → world) (l : Locker) (s : lkstate) : bool * Locker * lkstate :=
  if fLocked l then (true, l, s)
  else
    match fSpace l with
    | None => (false, l, s)
    | Some a => (true, l <| fLocked := true |>, space_Lock env a false s)
    end.

Definition DegradeToReadLock (env : world → world) (l : Locker) (s : lkstate) :
    outcome (Locker * lkstate) :=
  _ ← assert (negb (fDegraded l));
  a ← deref (fSpace l);
  let s := space_Lock env a false s in
  s ← space_Unlock a true s;
  Ret (l <| fDegraded := true |>, s).

(** ** MultiAddressSpaceLocker *)
Record lock_item := mkItem { i_space : Z; i_write : bool }.
#[global] Instance lock_item_eq_dec : EqDecision lock_item.
Proof. solve_decision. Defined.

(** [fItems] holds the first [fCount] items of the array. *)
Record MultiLocker := mkMulti { fItems : list lock_item; fCapacity : Z; mLocked : bool }.
#[global] Instance eta_MultiLocker : Eta MultiLocker := fun m => mkMulti (fItems m) (fCapacity m) (mLocked m).

Definition new_multi : MultiLocker := mkMulti [] 0 false.
Definition fCount (m : MultiLocker) : Z := Z.of_nat (length (fItems m)).

(** [mem]: whether realloc succeeds, by the number of items. *)
Definition ResizeIfNeeded (mem : Z → bool) (m : MultiLocker) : bool * MultiLocker :=
  if fCount m =? fCapacity m then
    if mem (fCount m) then (true, m <| fCapacity ::= fun c => c + 4 |>) else (false, m)
  else (true, m).

Fixpoint IndexOfAddressSpace (space : Z) (items : list lock_item) (i : nat) : option nat :=
  match items with
  | [] => None
  | it :: items => if i_space it =? space then Some i else IndexOfAddressSpace space items (S i)
  end.

Definition AddAddressSpace (mem : Z → bool) (space : option Z) (writeLock : bool) (m : MultiLocker)
    (s : lkstate) : outcome (Z * MultiLocker * lkstate) :=
  match space with
  | None => Ret (- EINVAL, m, s)
  | Some space =>
      match IndexOfAddressSpace space (fItems m) 0 with
      | None =>
          let (ok, m) := ResizeIfNeeded mem m in
          if negb ok then s ← space_Put space s; Ret (- ENOMEM, m, s)
          else Ret (0, m <| fItems ::= fun l => l ++ [mkItem space writeLock] |>, s)
      | Some i =>
          s ← space_Put space s;
          Ret (0, m <| fItems ::= alter (fun it => mkItem (i_space it) (i_write it || writeLock)) i |>, s)
      end
  end.

Definition AddTeam (mem : Z → bool) (team : Z) (writeLock : bool) (m : MultiLocker) (s : lkstate) :
    outcome (Z * MultiLocker * lkstate) :=
  let (r, s) := VMAddressSpace_Get team s in AddAddressSpace mem r writeLock m s.

Definition AddArea_id (mem : Z → bool) (id : Z) (writeLock : bool) (m : MultiLocker) (s : lkstate) :
    outcome (Z * MultiLocker * lkstate) :=
  '(r, s) ← GetAddressSpaceByAreaID id s; AddAddressSpace mem r writeLock m s.

Definition AddArea (mem : Z → bool) (area : Z) (writeLock : bool) (m : MultiLocker) (s : lkstate) :
    outcome (Z * MultiLocker * lkstate) :=
  a ← deref (area_space (wld s) !! area);
  AddAddressSpace mem (Some a) writeLock m (space_Get a s).

Fixpoint unlock_items (items : list lock_item) (s : lkstate) : outcome lkstate :=
  match items with
  | [] => Ret s
  | it :: items => s ← space_Unlock (i_space it) (i_write it) s; unlock_items items s
  end.

Definition MUnlock (m : MultiLocker) (s : lkstate) : outcome (MultiLocker * lkstate) :=
  if negb (mLocked m) then Ret (m, s)
  else s ← unlock_items (fItems m) s; Ret (m <| mLocked := false |>, s).

Fixpoint put_items (items : list lock_item) (s : lkstate) : outcome lkstate :=
  match items with
  | [] => Ret s
  | it :: items => s ← space_Put (i_space it) s; put_items items s
  end.

Definition MUnset (m : MultiLocker) (s : lkstate) : outcome (MultiLocker * lkstate) :=
  '(m, s) ← MUnlock m s;
  s ← put_items (fItems m) s;
  Ret (m <| fItems := [] |>, s).

Section multi.
(** The id of a space, and what waiting for its lock returns. *)
Context (ID : Z → Z) (status : Z → bool → Z).

Definition item_gt (x y : lock_item) : Prop := ID (i_space y) < ID (i_space x).
Definition item_ge (x y : lock_item) : Prop := ID (i_space y) <= ID (i_space x).
#[global] Instance item_ge_dec x y : Decision (item_ge x y).
Proof. unfold item_ge. apply _. Defined.

(** std::sort in descending order of the ids. *)
Definition sort_items (items : list lock_item) : list lock_item := merge_sort item_ge items.

(** The loop of [Lock]; [got]: the items that are locked, the last one first. *)
Fixpoint lock_items (env : world → world) (items got : list lock_item) (s : lkstate) :
    outcome (Z * lkstate) :=
  match items with
  | [] => Ret (0, s)
  | it :: items =>
      if status (i_space it) (i_write it) <? 0 then
        s ← unlock_items got (s <| wld ::= env |>);
        Ret (status (i_space it) (i_write it), s)
      else lock_items env items (it :: got) (space_Lock env (i_space it) (i_write it) s)
  end.

(** [Lock] before its loop. *)
Definition MLock_begin (m : MultiLocker) : outcome MultiLocker :=
  _ ← assert (negb (mLocked m)); Ret (m <| fItems ::= sort_items |>).

Definition MLock (env : world → world) (m : MultiLocker) (s : lkstate) :
    outcome (Z * MultiLocker * lkstate) :=
  m ← MLock_begin m;
  '(r, s) ← lock_items env (fItems m) [] s;
  if r <? 0 then Ret (r, m, s) else Ret (0, m <| mLocked := true |>, s).

(** [vm_area_get_locked_cache]: the cache of the area, locked. *)
Definition get_locked_cache (env : world → world) (area : Z) (s : lkstate) : outcome (Z * lkstate) :=
  let s := s <| wld ::= env |> in
  c ← deref (area_cache (wld s) !! area);
  Ret (c, s <| cache_locks ::= cons c |>).
Definition put_locked_cache (c : Z) (s : lkstate) : outcome lkstate :=
  _ ← assert (bool_decide (c ∈ cache_locks s)); Ret (s <| cache_locks ::= remove_first c |>).

Fixpoint add_areas (mem : Z → bool) (area : Z) (this others : bool) (areas : list Z) (m : MultiLocker)
    (s : lkstate) : outcome (Z * MultiLocker * lkstate) :=
  match areas with
  | [] => Ret (0, m, s)
  | cur :: areas =>
      '(error, m, s) ← AddArea mem cur (if cur =? area then this else others) m s;
      if negb (error =? 0) then Ret (error, m, s) else add_areas mem area this others areas m s
  end.

Fixpoint get_items (items : list lock_item) (s : lkstate) : lkstate :=
  match items with [] => s | it :: items => get_items items (space_Get (i_space it) s) end.

(** What happens in one round: memory for the items; others while the spaces are
    locked and while the cache is locked. *)
Record round := mkRound { r_mem : Z → bool; r_spaces : world → world; r_cache : world → world }.

Fixpoint add_area_loop (areaID : Z) (this others : bool) (original : list lock_item) (area cache : Z)
    (rs : list round) (m : MultiLocker) (s : lkstate) :
    outcome (Z * option (Z * Z) * MultiLocker * lkstate) :=
  match rs with
  | [] => NoFuel
  | r :: rs =>
      areas ← deref (cache_areas (wld s) !! cache);
      '(error, m, s) ← add_areas (r_mem r) area this others areas m s;
      if negb (error =? 0) then s ← put_locked_cache cache s; Ret (error, None, m, s)
      else
        s ← put_locked_cache cache s;
        '(error, m, s) ← MLock (r_spaces r) m s;
        if negb (error =? 0) then Ret (error, None, m, s)
        else
          match area_hash (wld s) !! areaID with
          | None => '(m, s) ← MUnlock m s; Ret (- EINVAL, None, m, s)
          | Some area =>
              '(cache', s) ← get_locked_cache (r_cache r) area s;
              areas' ← deref (cache_areas (wld s) !! cache');
              if bool_decide (cache' = cache ∧ head areas' = head areas)
              then Ret (0, Some (area, cache'), m, s)
              else
                '(m, s) ← MUnlock m s;
                let s := get_items original s in
                s ← put_items (fItems m) s;
                add_area_loop areaID this others original area cache' rs (m <| fItems := original |>) s
          end
  end.

(** [copied]: whether the copy of the items can be allocated. *)
Definition AddAreaCacheAndLock (copied : bool) (env env' : world → world) (areaID : Z)
    (this others : bool) (rs : list round) (m : MultiLocker) (s : lkstate) :
    outcome (Z * option (Z * Z) * MultiLocker * lkstate) :=
  let original := fItems m in
  if negb copied && bool_decide (original ≠ []) then Ret (- ENOMEM, None, m, s)
  else
    '(error, area, l, s) ← SetFromArea false env areaID new_locker s;
    match area with
    | None => '(_, s) ← Unset false l s; Ret (error, None, m, s)
    | Some area =>
        '(cache, s) ← get_locked_cache env' area s;
        '(_, s) ← Unset false l s;
        add_area_loop areaID this others original area cache rs m s
    end.

End multi.

(** ** What a thread holds *)
Lemma remove_first_perm {A} `{EqDecision A} (x : A) l : x ∈ l → l ≡ₚ x :: remove_first x l.
Proof.
  induction l as [|y l IH]; intros Hin; [by apply elem_of_nil in Hin|]. cbn.
  case_decide as Hd; [by subst|]. apply elem_of_cons in Hin as [-> |Hin]; [done|].
  rewrite Permutation_swap. by constructor; apply IH.
Qed.

Lemma perm_cons_elem {A} (x : A) l l' : l ≡ₚ x :: l' → x ∈ l.
Proof. intros ->. by left. Qed.

Lemma remove_first_cons {A} `{EqDecision A} (x : A) l l' : l ≡ₚ x :: l' → remove_first x l ≡ₚ l'.
Proof.
  intros H. pose proof (remove_first_perm x l (perm_cons_elem x l l' H)) as H1.
  apply (Permutation_cons_inv (a := x)). by rewrite <- H1.
Qed.

(** The rest of the state. *)
Definition same_but_refs (s s' : lkstate) : Prop :=
  wld s' = wld s ∧ locks s' = locks s ∧ cache_locks s' = cache_locks s.
Definition same_but_locks (s s' : lkstate) : Prop :=
  wld s' = wld s ∧ refs s' = refs s ∧ cache_locks s' = cache_locks s.

Lemma space_Put_ok a R s : refs s ≡ₚ a :: R →
  ∃ s', space_Put a s = Ret s' ∧ refs s' ≡ₚ R ∧ same_but_refs s s'.
Proof.
  intros H. unfold space_Put. rewrite bool_decide_true by (by eapply perm_cons_elem).
  eexists. split; [done|]. split; [by apply remove_first_cons|done].
Qed.

Lemma space_Unlock_ok a w L s : locks s ≡ₚ (a, w) :: L →
  ∃ s', space_Unlock a w s = Ret s' ∧ locks s' ≡ₚ L ∧ same_but_locks s s'.
Proof.
  intros H. unfold space_Unlock. rewrite bool_decide_true by (by eapply perm_cons_elem).
  eexists. split; [done|]. split; [by apply remove_first_cons|done].
Qed.

Definition item_lock (it : lock_item) : Z * bool := (i_space it, i_write it).

Lemma unlock_items_ok items L : ∀ s, locks s ≡ₚ (item_lock <$> items) ++ L →
  ∃ s', unlock_items items s = Ret s' ∧ locks s' ≡ₚ L ∧ same_but_locks s s'.
Proof.
  induction items as [|it items IH]; intros s H; cbn in *; [by exists s|].
  destruct (space_Unlock_ok _ _ _ s H) as (s1 & -> & H1 & E1 & E2 & E3). cbn.
  destruct (IH s1 H1) as (s2 & -> & H2 & F1 & F2 & F3). exists s2. split; [done|]. split; [done|].
  split_and!; congruence.
Qed.

Lemma put_items_ok items R : ∀ s, refs s ≡ₚ (i_space <$> items) ++ R →
  ∃ s', put_items items s = Ret s' ∧ refs s' ≡ₚ R ∧ same_but_refs s s'.
Proof.
  induction items as [|it items IH]; intros s H; cbn in *; [by exists s|].
  destruct (space_Put_ok _ _ s H) as (s1 & -> & H1 & E1 & E2 & E3). cbn.
  destruct (IH s1 H1) as (s2 & -> & H2 & F1 & F2 & F3). exists s2. split; [done|]. split; [done|].
  split_and!; congruence.
Qed.

(** ** The lockers of one space *)
Definition own_lock (w : bool) (l : Locker) : list (Z * bool) :=
  match fSpace l with Some a => if fLocked l then [(a, w && negb (fDegraded l))] else [] | None => [] end.

(** The thread holds [R] and [L] besides what the locker holds. *)
Record locker_ok (w : bool) (R : list Z) (L : list (Z * bool)) (l : Locker) (s : lkstate) : Prop := {
  lo_refs : refs s ≡ₚ option_list (fSpace l) ++ R;
  lo_locks : locks s ≡ₚ own_lock w l ++ L;
  lo_space : fLocked l = true → is_Some (fSpace l);
  lo_degraded : fDegraded l = true → fLocked l = true
}.

Lemma LUnlock_ok w R L l s : locker_ok w R L l s →
  ∃ l' s', LUnlock w l s = Ret (l', s') ∧ locker_ok w R L l' s' ∧ fLocked l' = false ∧
    fSpace l' = fSpace l ∧ same_but_locks s s'.
Proof.
  intros [H1 H2 H3 H4]. unfold LUnlock, own_lock in *. destruct l as [sp lk dg]. cbn in *.
  destruct lk; [|by exists (mkLocker sp false dg), s].
  destruct (H3 eq_refl) as [a ->]. cbn in *.
  destruct (space_Unlock_ok _ _ _ s H2) as (s1 & -> & E1 & E2 & E3 & E4). cbn.
  eexists _, s1. split; [done|]. split; [|done]. split; cbn; [by rewrite E3|by rewrite E1|done|done].
Qed.

Lemma Unset_ok w R L l s : locker_ok w R L l s →
  ∃ l' s', Unset w l s = Ret (l', s') ∧ locker_ok w R L l' s' ∧ fSpace l' = None ∧ fLocked l' = false ∧
    fDegraded l' = false ∧ refs s' ≡ₚ R ∧ locks s' ≡ₚ L ∧ wld s' = wld s ∧ cache_locks s' = cache_locks s.
Proof.
  intros H. destruct (LUnlock_ok w R L l s H) as (l1 & s1 & E & [A1 A2 A3 A4] & B1 & B2 & B3 & B4 & B5).
  unfold Unset. rewrite E. cbn. destruct l1 as [sp lk dg]. cbn in *. subst lk.
  assert (dg = false) as -> by (destruct dg; [by destruct A4|done]).
  destruct sp as [a|]; cbn in *.
  - destruct (space_Put_ok a R s1 A1) as (s2 & -> & C1 & C2 & C3 & C4). cbn.
    eexists _, s2. split; [done|]. split; [split; cbn; [done|by rewrite C3|done|done]|].
    split_and!; try done; [by rewrite C3|congruence|congruence].
  - eexists _, s1. by split_and!.
Qed.

(** The tables refer to what exists. *)
Record world_ok (W : world) : Prop := {
  wo_space id area : area_hash W !! id = Some area → is_Some (area_space W !! area);
  wo_cache id area : area_hash W !! id = Some area → is_Some (area_cache W !! area);
  wo_areas area c : area_cache W !! area = Some c → is_Some (cache_areas W !! c);
  wo_members c l area : cache_areas W !! c = Some l → area ∈ l → is_Some (area_space W !! area)
}.

Lemma lock_and_lookup_ok w env areaID R L l s a :
  refs s ≡ₚ a :: R → locks s ≡ₚ L → fSpace l = Some a → fLocked l = false → fDegraded l = false →
  ∃ r o l' s', lock_and_lookup w env areaID l s = Ret (r, o, l', s') ∧ locker_ok w R L l' s' ∧
    wld s' = env (wld s) ∧ cache_locks s' = cache_locks s ∧
    match o with
    | Some area => r = 0 ∧ fSpace l' = Some a ∧ fLocked l' = true ∧
        area_hash (wld s') !! areaID = Some area ∧ area_space (wld s') !! area = Some a
    | None => r = - EINVAL ∧ fSpace l' = None
    end.
Proof.
  intros HR HL Hs Hl Hd. unfold lock_and_lookup. rewrite Hs. cbn [deref mbind outcome_bind].
  set (s1 := space_Lock env a w s). destruct (Lookup_in areaID a s1) as [area|] eqn:El.
  - eexists _, _, _, s1. split; [done|]. split.
    { split; cbn; rewrite ?Hs, ?Hd; [done| |by eexists|done]. unfold own_lock. cbn. rewrite Hs, Hd, HL.
      by destruct w. }
    split; [done|]. split; [done|]. split; [done|]. split; [done|]. split; [done|].
    unfold Lookup_in in El. destruct (area_hash (wld s1) !! areaID); [|done]. case_decide; [|done]. by simplify_eq.
  - destruct (space_Unlock_ok a w L s1) as (s2 & -> & A1 & A2 & A3 & A4); [by cbn; rewrite HL|].
    cbn [mbind outcome_bind].
    destruct (space_Put_ok a R s2) as (s3 & -> & B1 & B2 & B3 & B4); [by rewrite A3|]. cbn [mbind outcome_bind].
    eexists _, _, _, s3. split; [done|]. split; [split; cbn; [done|by rewrite B3|by rewrite Hl|by rewrite Hd]|].
    split; [by rewrite B2, A2|]. split; [by rewrite B4, A4|done].
Qed.

Lemma SetFromArea_ok w env areaID R L l s : locker_ok w R L l s → world_ok (wld s) →
  ∃ r o l' s', SetFromArea w env areaID l s = Ret (r, o, l', s') ∧ locker_ok w R L l' s' ∧
    (wld s' = wld s ∨ wld s' = env (wld s)) ∧ cache_locks s' = cache_locks s ∧
    match o with
    | Some area => r = 0 ∧ ∃ a, fSpace l' = Some a ∧ fLocked l' = true ∧
        area_hash (wld s') !! areaID = Some area ∧ area_space (wld s') !! area = Some a
    | None => r < 0 ∧ fSpace l' = None
    end.
Proof.
  intros Hl Hw. destruct (Unset_ok w R L l s Hl) as (l1 & s1 & E & H1 & H2 & H3 & H4 & H5 & H6 & H7 & H8).
  unfold SetFromArea. rewrite E. cbn [mbind outcome_bind]. unfold GetAddressSpaceByAreaID.
  destruct (area_hash (wld s1) !! areaID) as [area|] eqn:Ea.
  - rewrite H7 in Ea. destruct (wo_space _ Hw areaID area Ea) as [a Es].
    rewrite H7, Es. cbn [deref mbind outcome_bind].
    destruct (lock_and_lookup_ok w env areaID R L (l1 <| fSpace := Some a |>) (space_Get a s1) a) as
      (r & o & l2 & s2 & E2 & A1 & A2 & A3 & A4); cbn; try done; [by rewrite H5|].
    eexists _, _, l2, s2. split; [exact E2|]. split; [done|]. split; [right; cbn in A2; congruence|].
    split; [cbn in A3; congruence|]. destruct o as [ar|]; [|destruct A4 as [-> ?]; done].
    destruct A4 as (-> & ? & ? & ? & ?). eauto 10.
  - cbn [mbind outcome_bind]. eexists _, _, _, s1. split; [done|]. split.
    { destruct H1 as [B1 B2 B3 B4]. unfold own_lock in *. rewrite H2 in *. split; cbn; try done. }
    split; [by left|]. split; [done|]. by destruct w.
Qed.

Lemma SetTo_team_ok w env team R L l s : locker_ok w R L l s →
  ∃ r l' s', SetTo_team w env team l s = Ret (r, l', s') ∧ locker_ok w R L l' s' ∧
    match team_table (wld s) !! team with
    | Some a => r = 0 ∧ fSpace l' = Some a ∧ fLocked l' = true
    | None => r = - ESRCH ∧ fSpace l' = None
    end.
Proof.
  intros Hl. destruct (Unset_ok w R L l s Hl) as (l1 & s1 & E & H1 & H2 & H3 & H4 & H5 & H6 & H7 & H8).
  unfold SetTo_team. rewrite E. cbn [mbind outcome_bind]. unfold VMAddressSpace_Get. rewrite H7.
  destruct (team_table (wld s) !! team) as [a|]; cbn -[ESRCH].
  - eexists _, _, _. split; [done|]. split; [|done].
    split; cbn; [by rewrite H5| |by eexists|done]. unfold own_lock. cbn. rewrite H4, H6. by destruct w.
  - eexists _, _, s1. split; [done|]. split; [|done].
    destruct H1 as [B1 B2 B3 B4]. unfold own_lock in *. rewrite H2 in *. by split.
Qed.

Lemma SetFromArea_team_ok team_of KernelID env team areaID allowKernel R L l s :
  locker_ok true R L l s → world_ok (wld s) →
  ∃ r o l' s', SetFromArea_team team_of KernelID env team areaID allowKernel l s = Ret (r, o, l', s') ∧
    locker_ok true R L l' s' ∧
    match o with
    | Some area => r = 0 ∧ ∃ a, fSpace l' = Some a ∧ fLocked l' = true ∧
        area_hash (wld s') !! areaID = Some area ∧ area_space (wld s') !! area = Some a
    | None => r = - EINVAL ∧ fSpace l' = None
    end.
Proof.
  intros Hl Hw. destruct (Unset_ok true R L l s Hl) as (l1 & s1 & E & H1 & H2 & H3 & H4 & H5 & H6 & H7 & H8).
  unfold SetFromArea_team. rewrite E. cbn [mbind outcome_bind]. rewrite H7.
  assert (Hno : ∃ r o l' s', Ret (- EINVAL, None, l1, s1) = Ret (r, o, l', s') ∧ locker_ok true R L l' s' ∧
    match o with
    | Some area => r = 0 ∧ ∃ a, fSpace l' = Some a ∧ fLocked l' = true ∧
        area_hash (wld s') !! areaID = Some area ∧ area_space (wld s') !! area = Some a
    | None => r = - EINVAL ∧ fSpace l' = None
    end) by (eexists _, None, l1, s1; done).
  destruct (area_hash (wld s) !! areaID) as [area|] eqn:Ea; [|by cbn [mbind outcome_bind]; rewrite H2].
  destruct (wo_space _ Hw areaID area Ea) as [a Es]. rewrite Es. cbn [deref mbind outcome_bind].
  destruct ((team_of a =? team) || (allowKernel && (team =? KernelID))); cbn [mbind outcome_bind]; [|by rewrite H2].
  change (fSpace (l1 <| fSpace := Some a |>)) with (Some a). cbv iota beta.
  destruct (lock_and_lookup_ok true env areaID R L (l1 <| fSpace := Some a |>) (space_Get a s1) a) as
    (r & o & l2 & s2 & E2 & A1 & A2 & A3 & A4); cbn; try done; [by rewrite H5|].
  exists r, o, l2, s2. split; [exact E2|]. split; [done|]. destruct o as [ar|]; [|done].
  destruct A4 as (-> & ? & ? & ? & ?). eauto 10.
Qed.

Lemma Lock_ok env R L l s : locker_ok false R L l s →
  let '(r, l', s') := Lock env l s in
  locker_ok false R L l' s' ∧ (r = true ↔ is_Some (fSpace l)) ∧ fLocked l' = r.
Proof.
  intros [H1 H2 H3 H4]. unfold Lock. destruct l as [sp lk dg]. cbn in *. destruct lk.
  - split; [done|]. split; [|done]. split; [auto|done].
  - destruct sp as [a|]; cbn in *; [|split; [done|]; split; [|done]; split; [done|by intros []]].
    split; [|split; [|done]; split; [by eexists|done]]. split; cbn; [done|by rewrite H2|by eexists|done].
Qed.

Lemma DegradeToReadLock_ok env R L l s : locker_ok true R L l s → fLocked l = true → fDegraded l = false →
  ∃ l' s', DegradeToReadLock env l s = Ret (l', s') ∧ locker_ok true R L l' s' ∧ fDegraded l' = true.
Proof.
  intros [H1 H2 H3 H4] Hk Hd. destruct (H3 Hk) as [a Es]. unfold DegradeToReadLock. rewrite Hd, Es.
  cbn [negb assert deref mbind outcome_bind]. unfold own_lock in H2. rewrite Es, Hk, Hd in H2. cbn in H2.
  destruct (space_Unlock_ok a true ((a, false) :: L) (space_Lock env a false s)) as (s1 & -> & A1 & A2 & A3 & A4).
  { cbn. rewrite H2. apply Permutation_swap. }
  cbn [mbind outcome_bind]. eexists _, s1. split; [done|]. split; [|done]. split; cbn.
  - by rewrite A3.
  - unfold own_lock. cbn. by rewrite Es, Hk.
  - by rewrite Es.
  - done.
Qed.

(** ** Several spaces *)
(** The thread holds [R] and [L] besides what the locker holds. *)
Record multi_ok (R : list Z) (L : list (Z * bool)) (m : MultiLocker) (s : lkstate) : Prop := {
  mo_refs : refs s ≡ₚ (i_space <$> fItems m) ++ R;
  mo_locks : locks s ≡ₚ (if mLocked m then item_lock <$> fItems m else []) ++ L;
  mo_nodup : NoDup (i_space <$> fItems m)
}.

(** The space [a] is among the items, for writing if [w]. *)
Definition covers (m : MultiLocker) (a : Z) (w : bool) : Prop :=
  ∃ it, it ∈ fItems m ∧ i_space it = a ∧ (w = true → i_write it = true).

Lemma IndexOf_ok space items : ∀ i,
  match IndexOfAddressSpace space items i with
  | Some j => ∃ k it, j = (i + k)%nat ∧ items !! k = Some it ∧ i_space it = space
  | None => space ∉ i_space <$> items
  end.
Proof.
  induction items as [|it items IH]; intros i; cbn; [set_solver|].
  destruct (Z.eqb_spec (i_space it) space) as [E|E].
  - exists 0%nat, it. split; [lia|]. done.
  - specialize (IH (S i)). destruct (IndexOfAddressSpace space items (S i)) as [j|].
    + destruct IH as (k & it' & -> & Hk & Hs). exists (S k), it'. split; [lia|]. done.
    + set_solver.
Qed.

Lemma alter_write_spaces (items : list lock_item) (i : nat) w :
  i_space <$> alter (fun it => mkItem (i_space it) (i_write it || w)) i items = i_space <$> items.
Proof.
  revert i. induction items as [|it items IH]; intros [|i]; cbn; try done. f_equal. apply IH.
Qed.

Lemma AddAddressSpace_ok mem a w R L m s : multi_ok (a :: R) L m s → mLocked m = false →
  ∃ r m' s', AddAddressSpace mem (Some a) w m s = Ret (r, m', s') ∧ multi_ok R L m' s' ∧
    mLocked m' = false ∧ wld s' = wld s ∧ cache_locks s' = cache_locks s ∧
    (∀ b w', covers m b w' → covers m' b w') ∧
    ((r = 0 ∧ covers m' a w) ∨ r = - ENOMEM).
Proof.
  intros [HR HL Hn] Hk. rewrite Hk in HL. unfold AddAddressSpace.
  pose proof (IndexOf_ok a (fItems m) 0) as Hi.
  destruct (IndexOfAddressSpace a (fItems m) 0) as [j|].
  - destruct Hi as (k & it & -> & Ek & Es). cbn [Nat.add].
    destruct (space_Put_ok a ((i_space <$> fItems m) ++ R) s) as (s1 & -> & A1 & A2 & A3 & A4).
    { by rewrite HR, Permutation_middle. }
    cbn [mbind outcome_bind]. eexists _, _, s1. split; [done|]. split; [split; cbn|].
    + by rewrite alter_write_spaces.
    + by rewrite Hk, A3.
    + by rewrite alter_write_spaces.
    + split; [done|]. split; [done|]. split; [done|]. split.
      * intros b w' (it' & Hit & Hb & Hw'). apply list_elem_of_lookup in Hit as [k' Ek'].
        destruct (decide (k' = k)) as [-> |Hne].
        -- simplify_eq. eexists. split; [apply list_elem_of_lookup; exists k; cbn; by rewrite list_lookup_alter_eq, Ek|].
           split; [done|]. intros H. cbn. by rewrite (Hw' H).
        -- exists it'. split; [|done]. apply list_elem_of_lookup. exists k'. cbn. by rewrite list_lookup_alter_ne.
      * left. split; [done|]. eexists. split; [apply list_elem_of_lookup; exists k; cbn; by rewrite list_lookup_alter_eq, Ek|].
        split; [done|]. intros ->. cbn. by rewrite orb_true_r.
  - destruct (ResizeIfNeeded mem m) as [ok m1] eqn:Er.
    assert (fItems m1 = fItems m ∧ mLocked m1 = mLocked m) as [E1 E2].
    { unfold ResizeIfNeeded in Er. repeat case_match; by simplify_eq. }
    destruct ok; cbn [negb].
    + eexists _, _, s. split; [done|]. split; [split; cbn; rewrite ?E1, ?E2|].
      * rewrite fmap_app, <- app_assoc. done.
      * by rewrite Hk.
      * rewrite fmap_app. apply NoDup_app. split; [done|]. split; [|apply NoDup_singleton]. cbn. set_solver.
      * split; [by cbn; rewrite E2|]. split; [done|]. split; [done|]. split.
        -- intros b w' (it & Hit & Hb). exists it. cbn. rewrite E1. split; [set_solver|done].
        -- left. split; [done|]. exists (mkItem a w). cbn. rewrite E1. split; [set_solver|done].
    + destruct (space_Put_ok a ((i_space <$> fItems m) ++ R) s) as (s1 & -> & A1 & A2 & A3 & A4).
      { by rewrite HR, Permutation_middle. }
      cbn [mbind outcome_bind]. eexists _, m1, s1. split; [done|]. split; [split; cbn; rewrite ?E1, ?E2|].
      * done.
      * by rewrite Hk, A3.
      * done.
      * split; [by rewrite E2|]. split; [done|]. split; [done|]. split; [|by right].
        intros b w' (it & Hit & Hb). exists it. by rewrite E1.
Qed.

Lemma MUnlock_ok R L m s : multi_ok R L m s →
  ∃ m' s', MUnlock m s = Ret (m', s') ∧ multi_ok R L m' s' ∧ mLocked m' = false ∧
    fItems m' = fItems m ∧ same_but_locks s s'.
Proof.
  intros [HR HL Hn]. unfold MUnlock. destruct (mLocked m) eqn:Hk; cbn [negb].
  - destruct (unlock_items_ok (fItems m) L s HL) as (s1 & -> & A1 & A2 & A3 & A4). cbn.
    eexists _, s1. split; [done|]. split; [split; cbn; [by rewrite A3|done|done]|]. done.
  - exists m, s. split; [done|]. split; [split; try done; by rewrite Hk|]. done.
Qed.

Lemma MUnset_ok R L m s : multi_ok R L m s →
  ∃ m' s', MUnset m s = Ret (m', s') ∧ fItems m' = [] ∧ refs s' ≡ₚ R ∧ locks s' ≡ₚ L.
Proof.
  intros H. destruct (MUnlock_ok R L m s H) as (m1 & s1 & E & [HR HL Hn] & Hk & Hi & _). unfold MUnset.
  rewrite E. cbn. rewrite Hk in HL. destruct (put_items_ok (fItems m1) R s1 HR) as (s2 & -> & A1 & A2 & A3 & A4).
  cbn. eexists _, s2. split; [done|]. split; [done|]. split; [done|]. by rewrite A3.
Qed.

Section multi_ok.
Context (ID : Z → Z) (status : Z → bool → Z).
Context (ID_inj : ∀ a b, ID a = ID b → a = b).

Lemma sort_items_perm items : sort_items ID items ≡ₚ items.
Proof using Type. apply merge_sort_Permutation. Qed.

(** The items are sorted strictly: no two have the same space. *)
Lemma sort_items_sorted items : NoDup (i_space <$> items) →
  StronglySorted (item_gt ID) (sort_items ID items).
Proof using ID_inj.
  intros Hn. assert (Hs : StronglySorted (item_ge ID) (sort_items ID items)).
  { apply StronglySorted_merge_sort.
    - intros x y z. unfold item_ge. lia.
    - intros x y. unfold item_ge. lia. }
  assert (Hn' : NoDup (i_space <$> sort_items ID items)) by by rewrite sort_items_perm.
  revert Hs Hn'. generalize (sort_items ID items). induction 1 as [|x l Hs IH Hx]; [constructor|].
  cbn. intros [Hin Hn']%NoDup_cons. constructor; [by apply IH|].
  rewrite Forall_forall in *. intros y Hy. specialize (Hx y Hy). unfold item_ge, item_gt in *.
  assert (ID (i_space y) ≠ ID (i_space x)); [|lia]. intros E%ID_inj. apply Hin.
  rewrite <- E. by apply (list_elem_of_fmap_2 i_space).
Qed.

Definition env_ok (later : relation world) (env : world → world) : Prop :=
  ∀ W, world_ok W → later W (env W) ∧ world_ok (env W).

Context (later : relation world) {later_pre : PreOrder later}.

(** The loop of [Lock]: all locks, in the order of the items, or none. *)
Lemma lock_items_ok env items L : env_ok later env → ∀ got s, locks s ≡ₚ (item_lock <$> got) ++ L → world_ok (wld s) →
  ∃ r s', lock_items status env items got s = Ret (r, s') ∧ refs s' = refs s ∧
    cache_locks s' = cache_locks s ∧ later (wld s) (wld s') ∧ world_ok (wld s') ∧
    ((r = 0 ∧ locks s' = reverse (item_lock <$> items) ++ locks s) ∨ (r < 0 ∧ locks s' ≡ₚ L)).
Proof using later_pre.
  intros He. induction items as [|it items IH]; intros got s HL Hw; cbn [lock_items].
  { exists 0, s. split_and!; try done. by left. }
  destruct (He (wld s) Hw) as [Hlater Hw1].
  destruct (Z.ltb_spec (status (i_space it) (i_write it)) 0) as [Hlt|Hge].
  - match goal with |- context [unlock_items got ?s0] =>
      destruct (unlock_items_ok got L s0 HL) as (s1 & -> & A1 & A2 & A3 & A4) end.
    cbn [mbind outcome_bind]. eexists _, s1. split; [done|]. rewrite A2, A3, A4. split_and!; try done. by right.
  - destruct (IH (it :: got) (space_Lock env (i_space it) (i_write it) s)) as (r & s1 & E & B1 & B2 & B3 & B4 & B5).
    { cbn. by rewrite HL. } { done. }
    cbn in B1, B2, B3, B5. exists r, s1. split; [done|]. split_and!; try done; [by etransitivity|].
    destruct B5 as [[-> B5]|?]; [left|by right]. split; [done|]. rewrite fmap_cons, reverse_cons, <- app_assoc. exact B5.
Qed.

Lemma MLock_ok env R L m s : env_ok later env → multi_ok R L m s → mLocked m = false → world_ok (wld s) →
  ∃ r m' s', MLock ID status env m s = Ret (r, m', s') ∧ multi_ok R L m' s' ∧
    fItems m' ≡ₚ fItems m ∧ cache_locks s' = cache_locks s ∧ later (wld s) (wld s') ∧ world_ok (wld s') ∧
    ((r = 0 ∧ mLocked m' = true ∧ StronglySorted (item_gt ID) (fItems m') ∧
        locks s' = reverse (item_lock <$> fItems m') ++ locks s) ∨
     (r < 0 ∧ mLocked m' = false)).
Proof using All.
  intros He [HR HL Hn] Hk Hw. rewrite Hk in HL. unfold MLock, MLock_begin. rewrite Hk. cbn [negb assert mbind outcome_bind].
  destruct (lock_items_ok env (sort_items ID (fItems m)) L He [] s HL Hw) as (r & s1 & E & A1 & A2 & A3 & A4 & A5).
  cbn [fItems update]. cbn. rewrite E. cbn [mbind outcome_bind].
  pose proof (sort_items_perm (fItems m)) as Hp.
  destruct A5 as [[-> A5]|[Hlt A5]].
  - cbn. eexists _, _, s1. split; [done|]. split; [split; cbn|].
    + by rewrite A1, Hp.
    + rewrite A5, reverse_Permutation, HL. done.
    + by rewrite Hp.
    + split_and!; try done. left. split_and!; try done. by apply sort_items_sorted.
  - assert (r <? 0 = true) as -> by lia. eexists _, _, s1. split; [done|]. split; [split; cbn|].
    + by rewrite A1, Hp.
    + by rewrite Hk.
    + by rewrite Hp.
    + split_and!; try done. right. split; [done|]. by cbn.
Qed.


(** The laws of what others do: an area at the head of the list of a cache that is
    the same as before was not inserted again, and ids are not used twice. *)
Context (later_areas : ∀ W W' c l l', later W W' → cache_areas W !! c = Some l →
  cache_areas W' !! c = Some l' → head l' = head l →
  ∀ x, x ∈ l' → x ∈ l ∧ area_space W' !! x = area_space W !! x).
Context (later_id : ∀ W W' id x y, later W W' → area_hash W !! id = Some x →
  area_hash W' !! id = Some y → x = y).

Lemma add_areas_ok mem area this others areas R L : ∀ m s, multi_ok R L m s → mLocked m = false →
  (∀ cur, cur ∈ areas → is_Some (area_space (wld s) !! cur)) →
  ∃ r m' s', add_areas mem area this others areas m s = Ret (r, m', s') ∧ multi_ok R L m' s' ∧
    mLocked m' = false ∧ wld s' = wld s ∧ cache_locks s' = cache_locks s ∧
    (∀ b w, covers m b w → covers m' b w) ∧
    ((r = 0 ∧ ∀ cur a, cur ∈ areas → area_space (wld s) !! cur = Some a →
        covers m' a (if cur =? area then this else others)) ∨ r = - ENOMEM).
Proof using Type.
  induction areas as [|cur areas IH]; intros m s Hm Hk Ha; cbn [add_areas].
  { exists 0, m, s. split_and!; try done. left. split; [done|]. intros cur a Hc. by apply elem_of_nil in Hc. }
  destruct (Ha cur ltac:(by left)) as [a Ea]. unfold AddArea. rewrite Ea. cbn [deref mbind outcome_bind].
  destruct (AddAddressSpace_ok mem a (if cur =? area then this else others) R L m (space_Get a s)) as
    (r & m1 & s1 & -> & A1 & A2 & A3 & A4 & A5 & A6).
  { destruct Hm as [H1 H2 H3]. split; cbn; [by rewrite H1, Permutation_middle|done|done]. } { done. }
  cbn in A3, A4. cbn [mbind outcome_bind].
  destruct A6 as [[-> A6]| ->]; cbn [Z.eqb negb].
  - destruct (IH m1 s1 A1 A2) as (r & m2 & s2 & -> & B1 & B2 & B3 & B4 & B5 & B6).
    { intros x Hx. rewrite A3. apply Ha. by right. }
    exists r, m2, s2. split; [done|]. split; [done|]. split; [done|]. split; [congruence|]. split; [congruence|].
    split; [auto|]. destruct B6 as [[-> B6]| ->]; [left|by right]. split; [done|].
    intros x b [-> |Hx]%elem_of_cons Eb; [simplify_eq; by apply B5|]. apply B6; [done|by rewrite A3].
  - exists (- ENOMEM), m1, s1. split_and!; try done. by right.
Qed.

Lemma get_items_ok items : ∀ s, refs (get_items items s) ≡ₚ (i_space <$> items) ++ refs s ∧
  same_but_refs s (get_items items s).
Proof using Type.
  induction items as [|it items IH]; intros s; [done|]. cbn.
  destruct (IH (space_Get (i_space it) s)) as [H1 H2]. split; [|done].
  rewrite H1. cbn. by rewrite Permutation_middle.
Qed.

(** While the space of an area is locked the area keeps a cache. *)
Definition keeps_area (env : world → world) : Prop :=
  ∀ W id area, world_ok W → area_hash W !! id = Some area → is_Some (area_cache (env W) !! area).

Definition round_ok (r : round) : Prop :=
  env_ok later (r_spaces r) ∧ env_ok later (r_cache r) ∧ keeps_area (r_cache r).
Definition quiet (r : round) : Prop := (∀ W, r_spaces r W = W) ∧ (∀ W, r_cache r W = W).

Lemma get_locked_cache_ok env id area s : env_ok later env → keeps_area env → world_ok (wld s) →
  area_hash (wld s) !! id = Some area →
  ∃ c l s', get_locked_cache env area s = Ret (c, s') ∧ wld s' = env (wld s) ∧ refs s' = refs s ∧
    locks s' = locks s ∧ cache_locks s' = c :: cache_locks s ∧
    area_cache (wld s') !! area = Some c ∧ cache_areas (wld s') !! c = Some l.
Proof using Type.
  intros He Hk Hw Ha. destruct (Hk (wld s) id area Hw Ha) as [c Ec]. destruct (He (wld s) Hw) as [_ Hw'].
  destruct (wo_areas _ Hw' area c Ec) as [l El]. unfold get_locked_cache. cbn. rewrite Ec. cbn.
  exists c, l. eexists. split; [done|]. done.
Qed.

Lemma put_locked_cache_ok c C s : cache_locks s ≡ₚ c :: C →
  ∃ s', put_locked_cache c s = Ret s' ∧ cache_locks s' ≡ₚ C ∧ wld s' = wld s ∧ refs s' = refs s ∧ locks s' = locks s.
Proof using Type.
  intros H. unfold put_locked_cache. rewrite bool_decide_true by (by eapply perm_cons_elem).
  eexists. split; [done|]. split; [by apply remove_first_cons|done].
Qed.

Lemma multi_ok_state R L m s s' : multi_ok R L m s → refs s' = refs s → locks s' = locks s → multi_ok R L m s'.
Proof using Type. intros [A B C] E1 E2. split; [by rewrite E1|by rewrite E2|done]. Qed.

(** What [AddAreaCacheAndLock] returns with. *)
Definition add_result (areaID : Z) (this others : bool) (R : list Z) (L : list (Z * bool)) (C : list Z)
    (m : MultiLocker) (o : Z * option (Z * Z) * MultiLocker * lkstate) : Prop :=
  let '(r, res, m', s') := o in
  multi_ok R L m' s' ∧
  match res with
  | Some (area, c) => r = 0 ∧ mLocked m' = true ∧ StronglySorted (item_gt ID) (fItems m') ∧
      cache_locks s' ≡ₚ c :: C ∧ area_cache (wld s') !! area = Some c ∧
      (∀ b w, covers m b w → covers m' b w) ∧
      ∃ areas, cache_areas (wld s') !! c = Some areas ∧
        ∀ cur a, cur ∈ areas → area_space (wld s') !! cur = Some a →
          covers m' a (if cur =? area then this else others)
  | None => r < 0 ∧ mLocked m' = false ∧ cache_locks s' ≡ₚ C
  end.

(** A round: it returns, or the next one starts from the original items. *)
Lemma covers_perm m m' b w : fItems m' ≡ₚ fItems m → covers m b w → covers m' b w.
Proof using Type. intros Hp (it & Hit & H). exists it. by rewrite Hp. Qed.

Definition settled (areaID area cache : Z) (W : world) : Prop :=
  area_hash W !! areaID = Some area ∧ area_cache W !! area = Some cache.

Lemma quiet_lock r m s r' m' s' : quiet r → mLocked m = false →
  MLock ID status (r_spaces r) m s = Ret (r', m', s') → wld s' = wld s.
Proof using Type.
  intros [Hq _] Hk. unfold MLock, MLock_begin. rewrite Hk. cbn [negb assert mbind outcome_bind].
  assert (Hl : ∀ items got s0 r0 s1, lock_items status (r_spaces r) items got s0 = Ret (r0, s1) → wld s1 = wld s0).
  { induction items as [|it items IH]; intros got s0 r0 s1; cbn [lock_items]; [by intros [= _ ->]|].
    case_match.
    - destruct (unlock_items got _) as [s2| |] eqn:Eu; [|done..]. cbn. intros [= _ <-].
      assert (Hu : ∀ its sa sb, unlock_items its sa = Ret sb → wld sb = wld sa).
      { induction its as [|i its IHi]; intros sa sb; cbn; [by intros [= ->]|]. unfold space_Unlock.
        destruct (bool_decide _); cbn; [|done]. intros Hx%IHi. done. }
      apply Hu in Eu. rewrite Eu. apply Hq.
    - intros Hx%IH. rewrite Hx. apply Hq. }
  cbn. destruct (lock_items _ _ _ _ s) as [[r0 s1]| |] eqn:El; [|done..]. cbn.
  apply Hl in El. case_match; intros [= _ _ <-]; done.
Qed.

Lemma add_area_loop_ok areaID this others original R L C rs : Forall round_ok rs →
  ∀ area cache m s W0, multi_ok R L m s → mLocked m = false → fItems m = original → world_ok (wld s) →
  cache_locks s ≡ₚ cache :: C → is_Some (cache_areas (wld s) !! cache) →
  later W0 (wld s) → area_hash W0 !! areaID = Some area →
  (∃ o, add_area_loop ID status areaID this others original area cache rs m s = Ret o ∧
    add_result areaID this others R L C m o) ∨
  (add_area_loop ID status areaID this others original area cache rs m s = NoFuel ∧
    (∀ q rs2, rs = q :: rs2 → quiet q → ¬ settled areaID area cache (wld s)) ∧
    (∀ rs1 q1 q2 rs2, rs = rs1 ++ q1 :: q2 :: rs2 → quiet q1 → ¬ quiet q2)).
Proof using All.
  induction 1 as [|r rs (Hr1 & Hr2 & Hr3) Hrs IH]; intros area cache m s W0 Hm Hk Ho Hw HC [areas Ea] Hl0 Hid0.
  { right. split; [done|]. split; [done|]. intros [|? rs1]; done. }
  cbn [add_area_loop]. rewrite Ea. cbn [deref mbind outcome_bind].
  destruct (add_areas_ok (r_mem r) area this others areas R L m s Hm Hk) as
    (e1 & m1 & s1 & -> & A1 & A2 & A3 & A4 & A5 & A6).
  { intros cur Hc. by apply (wo_members _ Hw cache areas). }
  cbn [mbind outcome_bind].
  destruct (put_locked_cache_ok cache C s1) as (s2 & Ep & B1 & B2 & B3 & B4); [by rewrite A4|].
  pose proof (multi_ok_state _ _ _ _ s2 A1 B3 B4) as Hm2.
  destruct A6 as [[-> A6]| ->]; cbn [Z.eqb negb].
  2: { left. rewrite Ep. eexists. split; [done|]. split; [done|]. split; [done|]. done. }
  rewrite Ep. cbn [mbind outcome_bind].
  assert (Hw2 : world_ok (wld s2)) by by rewrite B2, A3.
  destruct (MLock_ok (r_spaces r) R L m1 s2 Hr1 Hm2 A2 Hw2) as
    (e2 & m3 & s3 & EL & C1 & C2 & C3 & C4 & C5 & C6).
  rewrite EL. cbn [mbind outcome_bind].
  destruct C6 as [(-> & C6 & C7 & _)|[Hlt C6]]; cbn [Z.eqb negb].
  2: { left. assert (negb (e2 =? 0) = true) as -> by lia. eexists. split; [done|]. split; [done|].
       split; [done|]. split; [done|]. by rewrite C3. }
  destruct (area_hash (wld s3) !! areaID) as [area'|] eqn:Eh.
  2: { left. destruct (MUnlock_ok R L m3 s3 C1) as (m4 & s4 & -> & D1 & D2 & D3 & D4 & D5 & D6). cbn.
       eexists. split; [done|]. split; [done|]. split; [done|]. split; [done|]. by rewrite D6, C3. }
  assert (Hla : later (wld s) (wld s3)) by (by rewrite B2, A3 in C4).
  assert (area' = area) as ->.
  { symmetry. apply (later_id W0 (wld s3) areaID area area'); [by etransitivity|done|done]. }
  destruct (get_locked_cache_ok (r_cache r) areaID area s3 Hr2 Hr3 C5 Eh) as
    (cache' & areas' & s5 & -> & F1 & F2 & F3 & F4 & F5 & F6). cbn [mbind outcome_bind].
  rewrite F6. cbn [deref mbind outcome_bind].
  destruct (Hr2 (wld s3) C5) as [Hl35 Hw5]. rewrite <- F1 in Hl35, Hw5.
  pose proof (multi_ok_state _ _ _ _ s5 C1 F2 F3) as Hm5.
  destruct (bool_decide (cache' = cache ∧ head areas' = head areas)) eqn:Eb.
  { apply bool_decide_eq_true in Eb as [-> Ehd]. left. eexists. split; [done|]. split; [done|].
    split; [done|]. split; [done|]. split; [done|]. split; [by rewrite F4, C3, B1|]. split; [done|]. split.
    { intros b w Hb. apply (covers_perm m1 m3); [done|]. by apply A5. }
    exists areas'. split; [done|]. intros cur a Hcur Ecur.
    destruct (later_areas (wld s) (wld s5) cache areas areas') with (x := cur) as [Hin Esp]; try done;
      [by etransitivity|].
    apply (covers_perm m1 m3); [done|]. apply A6; [done|]. by rewrite <- Esp. }
  apply bool_decide_eq_false in Eb.
  destruct (MUnlock_ok R L m3 s5 Hm5) as (m6 & s6 & -> & G1 & G2 & G3 & G4 & G5 & G6). cbn [mbind outcome_bind].
  destruct (get_items_ok original s6) as (H1 & H2 & H3 & H4).
  destruct (put_items_ok (fItems m6) ((i_space <$> original) ++ R) (get_items original s6)) as
    (s7 & -> & I1 & I2 & I3 & I4).
  { rewrite H1, (mo_refs _ _ _ _ G1), !app_assoc. f_equiv. by rewrite Permutation_app_comm. }
  cbn [mbind outcome_bind].
  assert (Hw7 : wld s7 = wld s5) by congruence.
  destruct (IH area cache' (m6 <| fItems := original |>) s7 W0) as [(o & E & Hres)|(E & Hset & Hqq)].
  - split; cbn; [done| |by rewrite <- Ho; apply (mo_nodup _ _ _ _ Hm)].
    rewrite G2. rewrite I3, H3. pose proof (mo_locks _ _ _ _ G1) as HL6. by rewrite G2 in HL6.
  - done.
  - done.
  - by rewrite Hw7.
  - by rewrite I4, H4, G6, F4, C3, B1.
  - rewrite Hw7. by exists areas'.
  - rewrite Hw7. by repeat (etransitivity; [done|]).
  - done.
  - left. exists o. split; [done|]. destruct o as [[[e res] mm] ss]. destruct Hres as [J1 J2]. split; [done|].
    destruct res as [[ar cc]|]; [|done]. destruct J2 as (K1 & K2 & K3 & K4 & K5 & K6 & K7).
    split_and!; try done. intros b w Hb. apply K6. destruct Hb as (it & Hit & Hb). exists it. by rewrite Ho in Hit.
  - right. split; [done|].
    assert (Hq1 : quiet r → settled areaID area cache' (wld s7) ∧ wld s5 = wld s).
    { intros Hq. pose proof (quiet_lock r m1 s2 _ _ _ Hq A2 EL) as E3.
      assert (E5 : wld s5 = wld s) by (rewrite F1; destruct Hq as [_ ->]; congruence).
      split; [|done]. rewrite Hw7. split; [|done]. rewrite E5. by rewrite E3, B2, A3 in Eh. }
    split.
    + intros q rs2 [= <- <-] Hq [Hs1 Hs2]. destruct (Hq1 Hq) as [_ E5]. apply Eb.
      rewrite E5 in F5, F6. split; congruence.
    + intros [|x rs1] q1 q2 rs2 [= <- Hrs'] Hq Hq2; [|by apply (Hqq rs1 q1 q2 rs2)].
      apply (Hset q2 rs2 Hrs' Hq2). by apply Hq1.
Qed.

(** C26: AddAreaCacheAndLock, with others changing the areas and caches
    while it waits for locks, provided that a list of areas with the same
    first area as before has no new areas (the code takes this for granted:
    an area that is freed and allocated again at the same address breaks it,
    see the findings), that the id of an area is not used again for another
    one, and that an area whose space is locked keeps a cache: it returns
    once two rounds go undisturbed; on success the address spaces of all
    areas of the cache of the area are locked in the mode asked for,
    together with those added before, in descending order of their ids, and
    the cache is locked; on every error the locks are as before; and Unset
    afterwards gives back exactly the references and locks that the locker
    had taken. *)
Theorem add_area_cache_and_lock_correct copied env env' areaID this others rs R L m s :
  env_ok later env → env_ok later env' → keeps_area env' → Forall round_ok rs →
  (∃ rs1 q1 q2 rs2, rs = rs1 ++ q1 :: q2 :: rs2 ∧ quiet q1 ∧ quiet q2) →
  multi_ok R L m s → mLocked m = false → world_ok (wld s) →
  ∃ e res m' s',
    AddAreaCacheAndLock ID status copied env env' areaID this others rs m s = Ret (e, res, m', s') ∧
    add_result areaID this others R L (cache_locks s) m (e, res, m', s') ∧
    ∃ m'' s'', MUnset m' s' = Ret (m'', s'') ∧ refs s'' ≡ₚ R ∧ locks s'' ≡ₚ L.
Proof using All.
  intros He He' Hk' Hrs (rs1 & q1 & q2 & rs2 & Ers & Hq1 & Hq2) Hm Hk Hw.
  assert (Hfin : ∀ o, add_result areaID this others R L (cache_locks s) m o →
    AddAreaCacheAndLock ID status copied env env' areaID this others rs m s = Ret o →
    ∃ e res m' s', AddAreaCacheAndLock ID status copied env env' areaID this others rs m s = Ret (e, res, m', s') ∧
      add_result areaID this others R L (cache_locks s) m (e, res, m', s') ∧
      ∃ m'' s'', MUnset m' s' = Ret (m'', s'') ∧ refs s'' ≡ₚ R ∧ locks s'' ≡ₚ L).
  { intros [[[e res] m'] s'] Hres E. exists e, res, m', s'. split; [done|]. split; [done|].
    destruct Hres as [Hm' _]. destruct (MUnset_ok R L m' s' Hm') as (m'' & s'' & ? & _ & ? & ?). eauto. }
  unfold AddAreaCacheAndLock in *. destruct (negb copied && bool_decide (fItems m ≠ [])).
  { eapply Hfin; [|done]. split; [done|]. split; [done|]. done. }
  destruct (SetFromArea_ok false env areaID (refs s) (locks s) new_locker s) as
    (e1 & o & l & s1 & E1 & A1 & A2 & A3 & A4); [by split|done|].
  rewrite E1 in *. cbn [mbind outcome_bind] in *.
  assert (Hw1 : world_ok (wld s1)) by (destruct A2 as [-> | ->]; [done|by apply He]).
  destruct o as [area|].
  2: { destruct (Unset_ok false (refs s) (locks s) l s1 A1) as
         (l2 & s2 & E2 & _ & _ & _ & _ & B1 & B2 & _ & B4). rewrite E2 in *. cbn [mbind outcome_bind] in *.
       eapply Hfin; [|done]. destruct A4 as [A4 _]. split; [|split; [done|split; [done|by rewrite B4, A3]]].
       destruct Hm as [C1 C2 C3]. split; [by rewrite B1|by rewrite B2|done]. }
  destruct A4 as (_ & a & _ & _ & Eh & _).
  destruct (get_locked_cache_ok env' areaID area s1 He' Hk' Hw1 Eh) as
    (cache & areas & s2 & E2 & F1 & F2 & F3 & F4 & F5 & F6).
  rewrite E2 in *. cbn [mbind outcome_bind] in *.
  destruct (Unset_ok false (refs s) (locks s) l s2) as
    (l3 & s3 & E3 & _ & _ & _ & _ & B1 & B2 & B3 & B4).
  { destruct A1 as [D1 D2 D3 D4]. split; [by rewrite F2|by rewrite F3|done|done]. }
  rewrite E3 in *. cbn [mbind outcome_bind] in *. destruct (He' (wld s1) Hw1) as [Hl12 Hw2].
  destruct (add_area_loop_ok areaID this others (fItems m) R L (cache_locks s) rs Hrs area cache m s3 (wld s1))
    as [(o & E & Hres)|(_ & _ & Hno)]; try done.
  - destruct Hm as [C1 C2 C3]. split; [by rewrite B1|by rewrite B2|done].
  - by rewrite B3, F1.
  - by rewrite B4, F4, A3.
  - rewrite B3. by exists areas.
  - by rewrite B3, F1.
  - by eapply Hfin.
  - by destruct (Hno rs1 q1 q2 rs2 Ers Hq1).
Qed.

(** ** No circular waiting

    Where a thread is in [Lock] and [Unlock] of its locker: outside, in the loop of
    [Lock] (the items still to lock and those locked, the last one first), in the
    loop that gives the locks back after an error, in the loop of [Unlock]. *)
Inductive mpc :=
  | MIdle (m : MultiLocker)
  | MLocking (m : MultiLocker) (todo got : list lock_item)
  | MBacking (m : MultiLocker) (got : list lock_item)
  | MUnlocking (m : MultiLocker) (todo : list lock_item).

Definition holds (p : mpc) : list lock_item :=
  match p with
  | MIdle m => if mLocked m then fItems m else []
  | MLocking _ _ got => got
  | MBacking _ got => got
  | MUnlocking _ todo => todo
  end.

(** The lock a thread is trying to get. *)
Definition wanted (p : mpc) : option lock_item :=
  match p with MLocking _ (it :: _) _ => Some it | _ => None end.

(** A read-write lock: two threads conflict unless both read. *)
Definition conflict (x y : lock_item) : Prop := i_space x = i_space y ∧ i_write x || i_write y = true.

(** One step of a thread; [free]: whether nobody else has a lock in the way. *)
Inductive multi_step (free : lock_item → Prop) : mpc → mpc → Prop :=
  | ms_items m items :
      mLocked m = false → NoDup (i_space <$> items) →
      multi_step free (MIdle m) (MIdle (m <| fItems := items |>))
  | ms_lock m m' :
      MLock_begin ID m = Ret m' → multi_step free (MIdle m) (MLocking m' (fItems m') [])
  | ms_take m it todo got :
      free it → 0 <= status (i_space it) (i_write it) →
      multi_step free (MLocking m (it :: todo) got) (MLocking m todo (it :: got))
  | ms_fail m it todo got :
      status (i_space it) (i_write it) < 0 →
      multi_step free (MLocking m (it :: todo) got) (MBacking m got)
  | ms_back m it got : multi_step free (MBacking m (it :: got)) (MBacking m got)
  | ms_failed m : multi_step free (MBacking m []) (MIdle m)
  | ms_locked m got : multi_step free (MLocking m [] got) (MIdle (m <| mLocked := true |>))
  | ms_unlock m : mLocked m = true → multi_step free (MIdle m) (MUnlocking m (fItems m))
  | ms_drop m it todo : multi_step free (MUnlocking m (it :: todo)) (MUnlocking m todo)
  | ms_unlocked m : multi_step free (MUnlocking m []) (MIdle (m <| mLocked := false |>)).

Definition free_for (cfg : gmap Z mpc) (t : Z) (it : lock_item) : Prop :=
  ∀ u q it', u ≠ t → cfg !! u = Some q → it' ∈ holds q → ¬ conflict it it'.

Definition lockers_step (cfg cfg' : gmap Z mpc) : Prop :=
  ∃ t p p', cfg !! t = Some p ∧ multi_step (free_for cfg t) p p' ∧ cfg' = <[t := p']> cfg.

(** At first no thread has locked anything. *)
Definition lockers_init (cfg : gmap Z mpc) : Prop :=
  ∀ t p, cfg !! t = Some p → ∃ m, p = MIdle m ∧ mLocked m = false ∧ NoDup (i_space <$> fItems m).

Definition lockers_reachable (cfg : gmap Z mpc) : Prop :=
  ∃ cfg0, lockers_init cfg0 ∧ rtc lockers_step cfg0 cfg.

(** [t] cannot go on because of a lock that [u] has. *)
Definition waits_for (cfg : gmap Z mpc) (t u : Z) : Prop :=
  ∃ p q it it', t ≠ u ∧ cfg !! t = Some p ∧ cfg !! u = Some q ∧ wanted p = Some it ∧ it' ∈ holds q ∧
    conflict it it'.

(** The steps are those of the loop: without others the thread gets where
    [lock_items] gets. *)
Lemma lock_items_steps m env items L : ∀ got s, locks s ≡ₚ (item_lock <$> got) ++ L →
  ∃ r s' p, lock_items status env items got s = Ret (r, s') ∧
    rtc (multi_step (fun _ => True)) (MLocking m items got) p ∧ locks s' ≡ₚ (item_lock <$> holds p) ++ L ∧
    (0 <= r ∧ p = MLocking m [] (reverse items ++ got) ∨ r < 0 ∧ p = MBacking m []).
Proof using Type.
  induction items as [|it items IH]; intros got s HL; cbn [lock_items].
  { exists 0, s, (MLocking m [] got). split_and!; [done|apply rtc_refl|done|by left]. }
  destruct (Z.ltb_spec (status (i_space it) (i_write it)) 0) as [Hlt|Hge].
  - match goal with |- context [unlock_items got ?s0] =>
      destruct (unlock_items_ok got L s0 HL) as (s1 & -> & A1 & _) end.
    cbn [mbind outcome_bind]. exists (status (i_space it) (i_write it)), s1, (MBacking m []).
    split_and!; [done| |done|by right]. eapply rtc_l; [by apply ms_fail|].
    clear. induction got as [|x got IH]; [apply rtc_refl|]. eapply rtc_l; [apply ms_back|done].
  - destruct (IH (it :: got) (space_Lock env (i_space it) (i_write it) s)) as (r & s1 & p & E & B1 & B2 & B3);
      [cbn; by rewrite HL|].
    exists r, s1, p. split_and!; [done| |done|].
    + eapply rtc_l; [by apply ms_take|done].
    + rewrite reverse_cons, <- app_assoc. exact B3.
Qed.

(** In the loop of [Lock] the locks taken have larger ids than those to come. *)
Definition phase_ok (p : mpc) : Prop :=
  match p with
  | MIdle m | MBacking m _ | MUnlocking m _ => NoDup (i_space <$> fItems m)
  | MLocking m todo got => NoDup (i_space <$> fItems m) ∧
      (∀ x y, x ∈ got → y ∈ todo → item_gt ID x y) ∧ StronglySorted (item_gt ID) todo
  end.

Lemma multi_step_ok free p p' : phase_ok p → multi_step free p p' → phase_ok p'.
Proof using ID_inj.
  intros Hp Hs.
  destruct Hs as [m items Hk Hn|m m' Hb|m it todo got _ _|m it todo got _|m it got|m|m got|m _|m it todo|m];
    cbn in *; try done; try tauto.
  - unfold MLock_begin in Hb. destruct (negb (mLocked m)); [|done]. cbn in Hb. injection Hb as <-. cbn.
    split; [by rewrite sort_items_perm|]. split; [|by apply sort_items_sorted].
    intros x y Hx. by apply elem_of_nil in Hx.
  - destruct Hp as (Hn & Hgt & [Hs Hall]%StronglySorted_inv). split_and!; [done| |done].
    intros x y [-> |Hx]%elem_of_cons Hy; [by rewrite Forall_forall in Hall; apply Hall|].
    apply Hgt; [done|by right].
Qed.

Lemma lockers_ok cfg : lockers_reachable cfg → ∀ t p, cfg !! t = Some p → phase_ok p.
Proof using ID_inj.
  intros (cfg0 & H0 & Hr).
  assert (Hok : ∀ t p, cfg0 !! t = Some p → phase_ok p)
    by (intros t p Hp; by destruct (H0 t p Hp) as (m & -> & _ & Hn)).
  clear H0. induction Hr as [cfg|cfg cfg1 cfg2 (t & p & p' & Hp & Hs & ->) _ IH]; [done|].
  apply IH. intros t' q [[<- <-]|[_ Hq]]%lookup_insert_Some; [|by eapply Hok].
  eapply multi_step_ok; [by eapply Hok|done].
Qed.

Lemma has_before_wants p it it' : phase_ok p → wanted p = Some it → it' ∈ holds p →
  ID (i_space it) < ID (i_space it').
Proof using Type.
  destruct p as [|m [|x todo] got| |]; cbn; try done. intros (_ & Hgt & _) [= ->] Hin.
  apply (Hgt it' it Hin). by left.
Qed.

Lemma tc_wants cfg t v : tc (waits_for cfg) t v → ∃ p it, cfg !! t = Some p ∧ wanted p = Some it.
Proof using Type.
  intros H. inversion H as [x y (p & q & it & ? & _ & Hp & _ & Hw & _)|
    x y z (p & q & it & ? & _ & Hp & _ & Hw & _) ?]; subst; by exists p, it.
Qed.

Lemma chain_descends cfg t v : (∀ t p, cfg !! t = Some p → phase_ok p) →
  tc (waits_for cfg) t v → ∀ p it, cfg !! t = Some p → wanted p = Some it →
  ∃ q it', cfg !! v = Some q ∧ it' ∈ holds q ∧ ID (i_space it') <= ID (i_space it).
Proof using Type.
  intros Hok. induction 1 as [t u (p0 & q & i1 & i2 & _ & Hp0 & Hq & Hw & Hh & Es & _)|
    t u v (p0 & q & i1 & i2 & _ & Hp0 & Hq & Hw & Hh & Es & _) Htc IH]; intros p it Hp Hit; simplify_eq.
  - exists q, i2. split_and!; [done..|]. rewrite Es. lia.
  - destruct (tc_wants cfg u v Htc) as (q' & iu & Hq' & Hiu). simplify_eq.
    destruct (IH q iu Hq Hiu) as (q' & i' & Hq' & Hi' & Hle). exists q', i'. split_and!; [done..|].
    pose proof (has_before_wants q iu i2 (Hok u q Hq) Hiu Hh). rewrite Es in *. lia.
Qed.

Lemma wanted_bound (cfg : gmap Z mpc) :
  ∃ lo, ∀ t p it, cfg !! t = Some p → wanted p = Some it → lo <= ID (i_space it).
Proof using Type.
  induction cfg as [|t p m Hm [lo IH]] using map_ind.
  - exists 0. intros t p it Hp. by rewrite lookup_empty in Hp.
  - exists (match wanted p with Some it => Z.min lo (ID (i_space it)) | None => lo end).
    intros t' p' it [[<- <-]|[_ Hp]]%lookup_insert_Some Hit; [rewrite Hit; lia|].
    specialize (IH t' p' it Hp Hit). case_match; lia.
Qed.

#[global] Instance conflict_dec x y : Decision (conflict x y).
Proof using Type. unfold conflict. apply _. Defined.

Lemma free_or_not (cfg : gmap Z mpc) t it : free_for cfg t it ∨
  ∃ u q it', t ≠ u ∧ cfg !! u = Some q ∧ it' ∈ holds q ∧ conflict it it'.
Proof using Type.
  destruct (decide (map_Forall (fun u q => u ≠ t → Forall (fun it' => ¬ conflict it it') (holds q)) cfg)) as [Hf|Hf].
  - left. intros u q it' Hne Hq Hin. specialize (Hf u q Hq Hne). rewrite Forall_forall in Hf. by apply Hf.
  - right. apply map_not_Forall in Hf as (u & q & Hq & Hn); [|apply _].
    destruct (decide (u = t)) as [-> |Hne]; [by destruct Hn|].
    destruct (decide (Forall (fun it' => ¬ conflict it it') (holds q))) as [Hf|Hf]; [by destruct Hn|].
    apply not_Forall_Exists, Exists_exists in Hf as (it' & Hin & Hc); [|apply _].
    exists u, q, it'. split_and!; try done. by apply dec_stable.
Qed.

(** Following the threads that are in the way leads to one that can go on. *)
Lemma wait_ends cfg : (∀ t p, cfg !! t = Some p → phase_ok p) → ∀ t p, cfg !! t = Some p →
  ∃ u q, rtc (waits_for cfg) t u ∧ cfg !! u = Some q ∧ ∀ it, wanted q = Some it → free_for cfg u it.
Proof using Type.
  intros Hok t p Hp. destruct (wanted p) as [it|] eqn:Hw.
  2: { exists t, p. split_and!; [apply rtc_refl|done|]. by rewrite Hw. }
  destruct (wanted_bound cfg) as [lo Hlo]. remember (ID (i_space it)) as k eqn:Hk.
  revert t p it Hp Hw Hk. induction k as [k IH] using (well_founded_induction (Z.lt_wf lo)).
  intros t p it Hp Hw ->.
  destruct (free_or_not cfg t it) as [Hf|(u & q & it' & Hne & Hq & Hh & Hc)].
  { exists t, p. split_and!; [apply rtc_refl|done|]. by intros it' [= <-]%(eq_trans (eq_sym Hw)). }
  assert (Htu : waits_for cfg t u) by (exists p, q, it, it'; auto 10).
  destruct (wanted q) as [iu|] eqn:Hiu.
  2: { exists u, q. split_and!; [by apply rtc_once|done|]. by rewrite Hiu. }
  pose proof (has_before_wants q iu it' (Hok u q Hq) Hiu Hh) as Hlt. destruct Hc as [Es _]. rewrite <- Es in Hlt.
  destruct (IH (ID (i_space iu))) with (t := u) (p := q) (it := iu) as (v & qv & Hr & Hv & Hf); try done.
  { pose proof (Hlo u q iu Hq Hiu). lia. }
  exists v, qv. split_and!; [by eapply rtc_l|done|done].
Qed.

(** C27: Threads that call Lock and Unlock of their
    MultiAddressSpaceLockers, in any interleaving of the single lock and
    unlock calls of the loops (read-write locks, any results, the locks
    given back after an error), each thread with one locker, no other lock
    of a space, and items of distinct spaces with distinct ids: in every
    reachable state no threads wait for each other in a circle, and
    following the threads in the way leads from every thread to one that can
    go on. It is the sorting in Lock that gives this. *)
Theorem no_circular_wait cfg (Hr : lockers_reachable cfg) :
  (∀ t, ¬ tc (waits_for cfg) t t) ∧
  (∀ t p, cfg !! t = Some p →
    ∃ u q, rtc (waits_for cfg) t u ∧ cfg !! u = Some q ∧ ∀ it, wanted q = Some it → free_for cfg u it).
Proof using ID_inj.
  pose proof (lockers_ok cfg Hr) as Hok. split; [|by apply wait_ends].
  intros t Htc. destruct (tc_wants cfg t t Htc) as (p & it & Hp & Hit).
  destruct (chain_descends cfg t t Hok Htc p it Hp Hit) as (q & it' & Hq & Hh & Hle). simplify_eq.
  pose proof (has_before_wants p it it' (Hok t p Hp) Hit Hh). lia.
Qed.

End multi_ok.

(** ** Examples *)
Module LockingExample.

(** Area 1 (at 101, in space 10) and area 2 (at 102, in space 20) share cache 7. *)
Definition world0 : world :=
  mkWorld {[ 5 := 10; 6 := 20 ]} {[ 1 := 101; 2 := 102 ]} {[ 101 := 10; 102 := 20; 103 := 30 ]}
    {[ 101 := 7; 102 := 7 ]} {[ 7 := [101; 102]; 8 := [101] ]}.
Definition lk0 : lkstate := mkLk world0 [] [] [].
Definition calm : round := mkRound (fun _ => true) (fun W => W) (fun W => W).

Lemma world0_ok : world_ok world0.
Proof.
  split.
  - change (map_Forall (fun _ area => is_Some (area_space world0 !! area)) (area_hash world0)).
    apply (bool_decide_unpack _). vm_compute. exact I.
  - change (map_Forall (fun _ area => is_Some (area_cache world0 !! area)) (area_hash world0)).
    apply (bool_decide_unpack _). vm_compute. exact I.
  - change (map_Forall (fun _ c => is_Some (cache_areas world0 !! c)) (area_cache world0)).
    apply (bool_decide_unpack _). vm_compute. exact I.
  - assert (H : map_Forall (fun _ l => Forall (fun area => is_Some (area_space world0 !! area)) l)
      (cache_areas world0)) by (apply (bool_decide_unpack _); vm_compute; exact I).
    intros c l area E. specialize (H c l E). rewrite Forall_forall in H. apply H.
Qed.

(** Worlds in which areas are only added, at the head of the list of a cache and at
    addresses that are not on it. *)
Definition grown (W W' : world) : Prop :=
  (∀ c l, cache_areas W !! c = Some l → ∃ new, cache_areas W' !! c = Some (new ++ l) ∧
    (∀ x, x ∈ new → x ∉ l) ∧ ∀ x, x ∈ l → area_space W' !! x = area_space W !! x) ∧
  (∀ id x, area_hash W !! id = Some x → area_hash W' !! id = Some x).

#[global] Instance grown_preorder : PreOrder grown.
Proof.
  split.
  - intros W. split; [|done]. intros c l E. exists []. split_and!; [done|set_solver|done].
  - intros W1 W2 W3 [H1 H2] [H3 H4]. split; [|auto]. intros c l E.
    destruct (H1 c l E) as (n1 & E1 & D1 & S1). destruct (H3 c _ E1) as (n2 & E2 & D2 & S2).
    exists (n2 ++ n1). rewrite <- app_assoc. split_and!; [done|set_solver|].
    intros x Hx. rewrite S2 by set_solver. by apply S1.
Qed.

Lemma grown_areas W W' c l l' : grown W W' → cache_areas W !! c = Some l → cache_areas W' !! c = Some l' →
  head l' = head l → ∀ x, x ∈ l' → x ∈ l ∧ area_space W' !! x = area_space W !! x.
Proof.
  intros [H _] E E' Hh x Hx. destruct (H c l E) as (new & En & Hn & Hs). assert (l' = new ++ l) as -> by congruence.
  destruct new as [|y new]; [by split; [|apply Hs]|]. exfalso. cbn in Hh.
  destruct l as [|z l]; [done|]. injection Hh as ->. apply (Hn z); by left.
Qed.

(** Another thread maps the cache into space 30, with area 103. *)
Definition third_area (W : world) : world :=
  match cache_areas W !! 7 with
  | Some l =>
      if bool_decide (103 ∉ l ∧ is_Some (area_space W !! 103))
      then mkWorld (team_table W) (area_hash W) (area_space W) (area_cache W) (<[7 := 103 :: l]> (cache_areas W))
      else W
  | None => W
  end.

Lemma third_area_ok : env_ok grown third_area.
Proof.
  intros W HW. unfold third_area. destruct (cache_areas W !! 7) as [l|] eqn:E; [|by split].
  case_bool_decide as Hc; [|by split]. destruct Hc as [Hn Hs]. split.
  - split; [|done]. intros c l' E'. cbn. destruct (decide (c = 7)) as [-> |Hd].
    + simplify_eq. exists [103]. rewrite lookup_insert_eq. split_and!; [done|set_solver|done].
    + exists []. rewrite lookup_insert_ne by done. split_and!; [done|set_solver|done].
  - destruct HW as [W1 W2 W3 W4]. split; cbn; try done.
    + intros area c Hac. destruct (decide (c = 7)) as [-> |]; [rewrite lookup_insert_eq; by eexists|].
      rewrite lookup_insert_ne by done. by eapply W3.
    + intros c l' area [[<- <-]|[_ El]]%lookup_insert_Some; [|by eapply W4].
      intros [-> |Hin]%elem_of_cons; [done|by eapply W4].
Qed.

Lemma same_world_ok : env_ok grown (fun W => W).
Proof. by intros W HW. Qed.

Lemma calm_ok : round_ok grown calm.
Proof. split; [exact same_world_ok|]. split; [exact same_world_ok|]. intros W id area HW. apply (wo_cache W HW id). Qed.

Definition mapped_meanwhile : round := mkRound (fun _ => true) third_area (fun W => W).

Lemma mapped_meanwhile_ok : round_ok grown mapped_meanwhile.
Proof. split; [exact third_area_ok|]. split; [exact same_world_ok|]. intros W id area HW. apply (wo_cache W HW id). Qed.

(** While the thread locks spaces 20 and 10 the cache is mapped into space 30 too:
    the second round locks all three. *)
Lemma add_area_cache_and_lock_correct_witness : ∃ e res m' s',
  AddAreaCacheAndLock (fun a => a) (fun _ _ => 0) true (fun W => W) (fun W => W) 1 true false
    [mapped_meanwhile; calm; calm] new_multi lk0 = Ret (e, res, m', s') ∧
  res = Some (101, 7) ∧ fItems m' = [mkItem 30 false; mkItem 20 false; mkItem 10 true] ∧
  refs s' ≡ₚ [30; 20; 10].
Proof.
  destruct (add_area_cache_and_lock_correct (fun a => a) (fun _ _ => 0)) with
    (later := grown) (copied := true) (env := fun W : world => W) (env' := fun W : world => W)
    (areaID := 1) (this := true) (others := false) (rs := [mapped_meanwhile; calm; calm]) (R := @nil Z)
    (L := @nil (Z * bool)) (m := new_multi) (s := lk0) as (e & res & m' & s' & E & [Hm _] & _).
  - intros a b H. exact H.
  - apply _.
  - exact grown_areas.
  - intros W W' id x y [_ Hg] E1 E2. specialize (Hg id x E1). congruence.
  - exact same_world_ok.
  - exact same_world_ok.
  - intros W id area HW. apply (wo_cache W HW id).
  - constructor; [exact mapped_meanwhile_ok|]. constructor; [exact calm_ok|]. constructor; [exact calm_ok|constructor].
  - exists [mapped_meanwhile], calm, calm, []. done.
  - split; [done|done|constructor].
  - reflexivity.
  - exact world0_ok.
  - exists e, res, m', s'. split; [exact E|]. pose proof E as E'. vm_compute in E'. injection E' as <- <- <- <-.
    split; [reflexivity|]. split; [reflexivity|]. apply (bool_decide_unpack _). vm_compute. exact I.
Defined.

(** The list is compared by the address of its first area only: when that area is
    deleted and another is inserted at its address behind a new one, the space of
    the new area is not locked. *)
Definition reinserted (W : world) : world :=
  mkWorld (team_table W) (area_hash W) (area_space W) (area_cache W) (<[7 := [101; 103; 102]]> (cache_areas W)).

Lemma reinserted_area_missed : ∃ m' s',
  AddAreaCacheAndLock (fun a => a) (fun _ _ => 0) true (fun W => W) (fun W => W) 1 true false
    [mkRound (fun _ => true) reinserted (fun W => W)] new_multi lk0 = Ret (0, Some (101, 7), m', s') ∧
  cache_areas (wld s') !! 7 = Some [101; 103; 102] ∧ area_space (wld s') !! 103 = Some 30 ∧
  ¬ covers m' 30 false.
Proof.
  eexists _, _. split; [vm_compute; reflexivity|]. split; [reflexivity|]. split; [reflexivity|].
  intros (it & Hit & Hs & _). cbn in Hit.
  repeat (apply elem_of_cons in Hit as [-> |Hit]; [by cbn in Hs|]). by apply elem_of_nil in Hit.
Qed.

(** Two threads that need the same spaces, added in different orders: the second one
    waits for the first before it has anything. *)
Definition locker1 : MultiLocker := mkMulti [mkItem 10 true; mkItem 20 true] 4 false.
Definition locker2 : MultiLocker := mkMulti [mkItem 20 true; mkItem 10 false] 4 false.
Definition lockers0 : gmap Z mpc := {[ 1 := MIdle locker1; 2 := MIdle locker2 ]}.
Definition sorted1 : MultiLocker := mkMulti [mkItem 20 true; mkItem 10 true] 4 false.
Definition crossing1 : gmap Z mpc := <[1 := MLocking sorted1 (fItems sorted1) []]> lockers0.
Definition crossing2 : gmap Z mpc := <[1 := MLocking sorted1 [mkItem 10 true] [mkItem 20 true]]> crossing1.
Definition crossing : gmap Z mpc := <[2 := MLocking locker2 (fItems locker2) []]> crossing2.

Lemma crossing_reachable : lockers_reachable (fun a => a) (fun _ _ => 0) crossing.
Proof.
  exists lockers0. split.
  { intros t p Hp. unfold lockers0 in Hp.
    apply lookup_insert_Some in Hp as [[<- <-]|[_ [<- <-]%lookup_singleton_Some]]; eexists; (split; [done|]);
      split; try done; apply (bool_decide_unpack _); vm_compute; exact I. }
  eapply rtc_l; [|eapply rtc_l; [|apply rtc_once]].
  - exists 1, (MIdle locker1), (MLocking sorted1 (fItems sorted1) []). split; [reflexivity|]. split; [|reflexivity].
    apply ms_lock. vm_compute. reflexivity.
  - exists 1, (MLocking sorted1 (fItems sorted1) []), (MLocking sorted1 [mkItem 10 true] [mkItem 20 true]).
    split; [reflexivity|]. split; [|reflexivity]. apply ms_take; [|vm_compute; discriminate].
    intros u q it' Hu Hq. unfold crossing1, lockers0 in Hq. rewrite insert_insert_eq in Hq.
    rewrite lookup_insert_ne in Hq by done. apply lookup_singleton_Some in Hq as [<- <-]. cbn. set_solver.
  - exists 2, (MIdle locker2), (MLocking locker2 (fItems locker2) []). split; [reflexivity|]. split; [|reflexivity].
    apply ms_lock. vm_compute. reflexivity.
Qed.

Lemma no_circular_wait_witness : waits_for crossing 2 1 ∧ ¬ tc (waits_for crossing) 2 2.
Proof.
  split.
  - exists (MLocking locker2 (fItems locker2) []), (MLocking sorted1 [mkItem 10 true] [mkItem 20 true]),
      (mkItem 20 true), (mkItem 20 true). split; [discriminate|]. split; [reflexivity|]. split; [reflexivity|].
    split; [reflexivity|]. split; [cbn; set_solver|done].
  - apply (no_circular_wait (fun a => a) (fun _ _ => 0) (fun a b H => H) crossing crossing_reachable).
Defined.

End LockingExample.
